(* ===== verification/_CoqProject ===== *)
-Q . S2P
Prelude.v
Caps.v
IpcFrame.v
Khash.v
Sha256.v
Blkfmt.v
Prov.v
Corpus.v
Tpsched.v
OpframeRx.v
Provhead.v
Pmm.v
Heap.v
Mmu.v
BlockDev.v
CorpusPersist.v
Engine.v
Memscore.v
Exp.v
OrganLogs.v
Organ.v
OrganSpec.v
Consolidate.v
ConsolidateSpec.v
Skills.v
OrganHistory.v
Abi.v
Sched.v
Ipc.v
Blocks.v
Infer.v
Syscall.v
SyscallSpec.v
ChannelSpec.v
Agents.v
AgentsSpec.v
Blocking.v
Uaccess.v
UserMem.v
Harness.v
UserMemSpec.v
AgentCalls.v
Inferwire.v
InferChunks.v
InferHost.v
GuestMem.v
VirtioMmio.v
VirtioSpec.v
Drv.v
Driver.v
DriverSpec.v
DevBus.v
TbVmm.v
Xport.v
