(* ===== verification/Prelude.v ===== *)
(** * Yuva: a verification development for the kernel's pure core

    Yuva is a [no_std] Rust unikernel in which the code that decides things is kept in
    pure leaf crates and small state machines, and a hardware-abstraction crate binds them
    to the machine.  This library models those cores as the code has them and proves what
    makes each correct.  Paths below are relative to [src/crates/] unless they begin with
    [kernel/], [tools/] or [tb-vmm/].

    ** The program and its model

    Authority.  [tb-caps-core/src/rights.rs] and [table.rs] are [Caps]: rights are 32-bit
    sets ([Caps.Rights]), a [Handle] packs a slot index and a generation into 64 bits, and
    a table is the record of its slots.  [alloc], [dup], [narrow], [revoke], [detach],
    [attach], [transfer_to] are the methods of the same names.

    The kernel proper.  [tb-hal/src/caps.rs] is [Syscall] over [Abi] (the frozen method and
    right numbers of [tb-abi], with the boot-time cross-check): objects, minting, and the
    dispatcher with every method.  Objects, channels and blocks are shared by reference
    counting, so tables hold identities and [Syscall.World] is the store they name.
    [tb-hal/src/ipc.rs] is [Ipc], [blocks.rs] is [Blocks], the scheduler of [lib.rs] is
    [Sched], [infer.rs] with [tb-encode/src/route.rs] is [Infer].  The agent registry and
    the facades of [lib.rs] are [Agents], whose [System] adds the agents to the world.
    [arch/x86_64/uaccess.rs] is [Uaccess], and the facades that need the machine (byte
    payloads, user buffers, block mapping) are [UserMem] over [Kernel], a system and a
    machine.  The skill-improvement harness is [Harness].  What these promise is stated in
    [SyscallSpec] (well-formed worlds, confinement), [ChannelSpec], [AgentsSpec],
    [Blocking] and [UserMemSpec]; [AgentCalls] has one constructor for every call of the facade layer that
    changes state, for a resumed wait, the timer's tick and the profile switch, and what any
    history of them keeps.

    The memory organ.  [tb-hal/src/mem/organ.rs] is [OrganLogs] (experience log, corpus),
    [Organ] (tiers, write, read, recall), [Consolidate] and [Skills] (the procedural tier);
    [OrganSpec], [ConsolidateSpec] and [OrganHistory] hold the invariant and what histories
    of operations keep.  The organ is generic in its record store, interface
    [Engine.BackingStore]; [Engine] is [tb-hal/src/mem/engine.rs], the RAM store and the
    log-structured store over the interface [BlockDev.BlockDevice], what the block driver
    promises.  The scoring leaves it calls ([memscore.rs], [recall.rs], [kancell.rs],
    [explore.rs]) are [Memscore]; [exp.rs] is [Exp].

    Frames.  [tb-encode/src/ipc_frame.rs] is [IpcFrame]: the 16-byte frame codec and the
    ring buffer with its wrapping head.

    Digests.  [tb-encode/src/khash.rs] is [Khash] (BLAKE2s-256, keyed and unkeyed);
    [sha256.rs] is [Sha256] (one-shot and streaming).  Both implement the interface
    [Digest] below; the folds use only that interface and the names of the digests.

    Disk.  [tb-encode/src/blkfmt.rs] is [Blkfmt] (virtio-blk headers, the fixed partition,
    superblock, record frame, episode); [provhead.rs] is [Provhead] (the multi-sector,
    torn-write-safe record and the selector of the newer of two slots).

    Ledgers.  [tb-encode/src/prov.rs] and the ledger fields of the organ are [Prov];
    [corpus.rs] is [Corpus], [tpsched.rs] is [Tpsched].  All three fold the digests of
    canonical encodings into a 32-byte head, and the binding argument is proved once, in
    [Prov], for the interface [Prov.Canon] of an injective canonical encoding, of which each
    record type is an instance.  [corpus_persist] of [tb-hal/src/mem/organ/selftests.rs],
    which carries the corpus from boot to boot, is [CorpusPersist].

    Operator commands.  [tb-encode/src/opframe_rx.rs] is [OpframeRx]: the wire codec, the
    dual-key MAC over [Khash], key evolution and the acceptance gate.

    The inference link.  [tb-encode/src/inferwire.rs] is [Inferwire] (frames, the keyed echo,
    the accumulator that finds frames in a byte stream) and [InferChunks] (chunked bodies,
    their tags and the assembler); [tb-vmm/src/infer_host.rs], the host's end, is [InferHost].
    Between them lies a virtio console.  [tb-vmm/src/virtio_mmio.rs], the device, is
    [VirtioMmio] over the interface [GuestMem.GuestMemory] of the guest's RAM, with
    [VirtioSpec]; [tb-vmm/src/device.rs], the bus that dispatches to it, is [DevBus].
    [tb-hal/src/arch/x86_64/virtio.rs], the guest's drivers, is [Driver]: programs ([Drv.drv])
    of register accesses, memory accesses and frame requests, whose answers are left to a
    machine, with [DriverSpec] for what holds on any.  [TbVmm] is the machine of
    [tb-vmm/src/vmm.rs], on which driver, bus, device and peer run together.  [Xport] is the
    kernel's boot proof of the transport, [xport_selftest] of
    [tb-hal/src/mem/organ/selftests.rs], over all of these.

    Physical memory.  [tb-hal/src/pmm.rs] is [Pmm] (boot-map sink, seeding, the intrusive
    stack of free frames); [tb-hal/src/heap.rs] is [Heap] (the coalescing free list and
    growth into its window); [tb-encode/src/paging.rs] and [tb-hal/src/arch/x86_64/mmu.rs]
    are [Mmu] (entries, the build-on-demand walk, address spaces).  [Mmu] takes its tables
    from [Pmm]'s allocator, and [Heap] grows through the interface [Heap.PageMapper], which
    [Mmu] implements ([Mmu.x86_mapper]) for the machine made of both.

    ** How it is modelled

    An unsigned [w]-bit integer is a [Z] below [2 ^ w] ([in_u]), with every wrapping or
    saturating operation written out ([wrap], [wrapping_add], ...).  A byte buffer is a
    [list Z] whose elements are bytes; [zlen], [ztake], [zdrop] and [zsub] are lengths,
    prefixes, suffixes and segments with [Z] arguments.  Code that may panic (an index or a
    slice out of range, an overflow, a dereference of what is not there) returns [res]: [Val]
    or [Panic], with stdpp's monad notation; so a theorem that a call equals a [Val], or
    [runs] to a postcondition, says that it does not panic, and one that it [concludes] with
    a postcondition or else a condition says when it may.  A [&mut] argument is an argument
    and a component of the result.  [None] is the code's [None].  Loops are [for_up]
    (ascending, with [for_up_opt] when the body may return early) and [copy_loop].

    The state of the memory components is explicit: a free-frame stack is its head, count
    and the first word of every frame; the heap is its record and a finite map from address
    to block header, where dereferencing an address without a header is a [Panic]; a page
    table is the words of its frames, and a user buffer the bytes of those words.  Masking
    interrupts leaves no trace, because a kernel operation is one step; what interleaves is
    the calls of different tasks ([AgentCalls.reaches], [Blocking]).

    Fuel occurs in few places, and running out is never an answer: in the loops of the
    digests, the heap and the allocator it is a [Panic], so the theorems that these return
    say it is enough.  [Khash.full_blocks] and [Sha256.full_blocks] have the message's
    length, and a turn consumes a block; [Heap.list_fuel] is one more than the number of
    headers, and a list visits each once; [Heap.retry_fuel] exceeds the pages left in the
    window, and a retry maps at least one; [Pmm]'s walk over a range has a turn per frame;
    [Engine.REPLAY_FUEL] bounds a replay by the frames the log region can hold;
    [Infer.MOCK_FUEL] is one more than the longest reply; [Uaccess.span_from] has the
    buffer's length, and a chunk holds at least a byte; [Inferwire.scan] has one more than
    the buffered bytes, and a turn that goes on drops one; [InferHost.chunk_loop] has one more
    than the response's bytes, and a chunk holds at least one.  Two loops may run for ever, and so
    their fuel is visible: the device's walk over a ring ([VirtioMmio.notify] is [None] when
    it is still running) and the driver's receive loop ([Drv.Spent]); the theorems say when
    some amount is enough, and [kick_can_spin] and [starving_session_never_ends] that none may be.

    ** What is proved

    Authority: a call reaches an object only through a live handle with the method's right
    ([dispatch_requires_authority]), always returns, and touches only that object, its
    channel or block ([dispatch_total_and_confined]); an agent's born-with memory stays its
    own under any history of calls of all agents, later births, parked receives, byte
    transfers and block operations included ([born_memory_stays_private]); each such call
    returns, or halts for a reason stated for its kind, and leaves other agents' objects alone
    ([facade_total_and_isolated]); dead handles stay dead and no history widens authority
    ([caps_dead_handle_stays_stale], [caps_history_never_widens]); a high-impact skill is
    merged only with approval, and a request to evolve is judged on a set its agent cannot
    reach ([merge_gate_fail_closed], [evolve_request_frozen]).

    Communication: two endpoints refine one FIFO queue with nothing lost or doubled, sends
    are all-or-nothing, no wakeup is lost, a blocking receive answers or parks
    ([channel_fifo_exactly_once], [chan_send_atomic], [no_lost_wakeup],
    [recv_blocking_answers_or_parks]); bytes cross address spaces unchanged and a faulting
    receive keeps its message ([bytes_cross_spaces], [recv_bytes_lossless]); the run queue
    is fair ([schedule_fair]); shared records refine a versioned map
    ([block_records_refine_versioned_map]); the registry check is exact
    ([abi_selfcheck_exact]) and routing takes the longest prefix ([resolve_longest_prefix]).

    The organ: every history of operations keeps the ledgers committed and the records
    accounted for ([organ_history_committed], [organ_history_lossless]); recall, distillation,
    forgetting and admission do what they say ([organ_recall_spec], [distill_spec],
    [forget_sweep_spec], [skill_admit_spec], [scoring_bounded_and_monotone]).

    Persistence: a commit of the record store or of the corpus, cut off at any sector, leaves
    the old state or the new ([store_commit_atomic], [corpus_persist_crash_safe]); the codecs
    round-trip and torn slots are refused ([record_frame_codec],
    [provhead_torn_slot_rejected]).

    Leaves: the digests compute RFC 7693 and FIPS 180-4; two ledgers with one head are one
    history, or the hashed strings exhibit a collision ([prov_head_binds_history], and the
    same for the corpus and the schedule); the operator gate accepts exactly the wires that
    meet every condition ([cmd_accept_iff]).

    The inference link: the accumulator reads a stream as a parser with the whole of it at
    hand does, whatever its noise and portions ([accum_is_stream_parser],
    [noisy_frames_delivered]); the assembler completes on a body's chunks and on nothing else
    ([assembler_completes_exactly]); a verified response is bound to its request and place
    ([infer_resp_verified_iff]); a request goes out, is answered, and is read back
    ([request_answered_end_to_end], [echo_answered]), and no stream stops the peer or makes
    it send anything but whole replies ([host_survives_any_stream]).

    The console: a kick carries the bytes of the guest's buffers to the peer and the peer's
    bytes back, in order ([kick_moves_bytes]), and no guest stops the device or makes it
    write outside the buffers it was given ([device_survives_any_guest]); the bus hands an
    access to the one range that claims it ([bus_dispatches_by_range]); the drivers, whatever
    the device answers, touch only the device window and the one frame they hold, and give it
    back ([drivers_hold_one_frame]); a session ends unless the device starves it
    ([chan_session_ends]); and on the monitor it is one exchange with the peer
    ([chan_session_exact], [monitor_has_a_console]).  The boot proof means that a key
    authenticates the peer and this boot's challenge, on any machine ([xport_proof_sound]),
    and on the monitor it succeeds ([xport_proves_the_monitor]).

    Physical memory: boot seeds exactly the usable frames and the stack refines a pool;
    allocation terminates and hands out aligned, disjoint regions, and returning everything
    restores the arena; mapping and unmapping do what they say and spaces that share no
    table stay isolated ([Pmm], [Heap], [Mmu]).

    ** Not modelled

    Inline assembly, device registers, interrupt entry and linker symbols, whose meaning is
    not in the source; the translation-lookaside buffer; locks, which in the modelled code
    are taken once around a whole operation; serial output and boot-time self-tests, except
    the digests' known-answer tests and the transport's proof; the Kani harnesses, which restate properties of the
    leaves; the host programs' sockets and processes.  Wire values of capabilities are the
    [u64] itself.  The store of objects does not free what nobody names any more.  The
    drivers' memory accesses are in program order, so their fences do nothing.  Not modelled:
    the leaves [exittel], [opframe], [lmsig], [bakeoff], [attest], [conductor], [guestlog] and
    the encoding of ranked hits; the virtualisation encoders ([stage2], [smmuv3], [el2_trap],
    [vmx]); [tb-boot]; the architecture's boot-map readers, the aarch64 page tables and
    drivers; the monitor's loader, boot structures, serial port and command line. *)
From Stdlib Require Import ZArith Lia.
From stdpp Require Import base numbers option tactics sets list.

#[global] Set Default Goal Selector "!".
Open Scope Z_scope.

(** ** Machine integers

    A [w]-bit unsigned integer is a [Z] in [0, 2^w); every wrap-around is written out. *)

Definition in_u (w v : Z) : Prop := 0 <= v < 2 ^ w.
Abbreviation is_u8 := (in_u 8).
Abbreviation is_u16 := (in_u 16).
Abbreviation is_u32 := (in_u 32).
Abbreviation is_u64 := (in_u 64).

Definition wrap (w v : Z) : Z := v mod 2 ^ w.
Definition wrapping_add (w a b : Z) : Z := wrap w (a + b).
Definition wrapping_mul (w a b : Z) : Z := wrap w (a * b).
Definition u_max (w : Z) : Z := 2 ^ w - 1.
Definition saturating_add (w a b : Z) : Z := Z.min (a + b) (u_max w).
Definition saturating_mul (w a b : Z) : Z := Z.min (a * b) (u_max w).
Definition checked_add (w a b : Z) : option Z :=
  if decide (a + b <= u_max w) then Some (a + b) else None.
Definition rotate_right (w v n : Z) : Z :=
  wrap w (Z.lor (Z.shiftr v n) (Z.shiftl v (w - n))).
Definition bit_not (w v : Z) : Z := u_max w - v.

#[global] Arguments in_u : simpl never.
#[global] Arguments wrap : simpl never.
#[global] Arguments u_max : simpl never.

(** The width of [usize] on both supported targets (x86_64 and aarch64). *)
Definition usize_bits : Z := 64.

(** ** The panic monad

    Indexing a slice out of bounds panics in Rust; a definition that may do so
    returns a [res].  A theorem that the code never panics says that the result is a
    [Val]. *)

Inductive res (A : Type) : Type :=
| Val (a : A)
| Panic.
Arguments Val {A} a.
Arguments Panic {A}.

#[global] Instance res_ret : MRet res := @Val.
#[global] Instance res_bind : MBind res := fun A B f m =>
  match m with Val a => f a | Panic => Panic end.

Definition runs {A} (m : res A) (Q : A -> Prop) : Prop := exists a, m = Val a /\ Q a.

(** Overflow-checked arithmetic: a debug build panics where the type's range is left. *)
Definition add_u (w a b : Z) : res Z := if decide (a + b < 2 ^ w) then Val (a + b) else Panic.
Definition sub_u (a b : Z) : res Z := if decide (b <= a) then Val (a - b) else Panic.
Definition mul_u (w a b : Z) : res Z := if decide (a * b < 2 ^ w) then Val (a * b) else Panic.

(** ** Slices *)

Definition zlen {A} (l : list A) : Z := Z.of_nat (length l).
Definition ztake {A} (n : Z) (l : list A) : list A := take (Z.to_nat n) l.
Definition zdrop {A} (n : Z) (l : list A) : list A := drop (Z.to_nat n) l.
(** The [n] elements from offset [off] on. *)
Definition zsub {A} (off n : Z) (l : list A) : list A := ztake n (zdrop off l).
Definition zrepeat {A} (n : Z) (x : A) : list A := replicate (Z.to_nat n) x.

(** [l[i]] *)
Definition idx {A} (l : list A) (i : Z) : res A :=
  if decide (0 <= i) then
    match l !! Z.to_nat i with Some x => Val x | None => Panic end
  else Panic.

(** [l[i] = v] *)
Definition upd {A} (l : list A) (i : Z) (v : A) : res (list A) :=
  if decide (0 <= i < zlen l) then Val (<[Z.to_nat i := v]> l) else Panic.

(** [&l[a..b]] *)
Definition slice {A} (l : list A) (a b : Z) : res (list A) :=
  if decide (0 <= a <= b /\ b <= zlen l) then Val (zsub a (b - a) l) else Panic.

(** [l[a..b].copy_from_slice(src)] *)
Definition blit {A} (l : list A) (a b : Z) (src : list A) : res (list A) :=
  if decide (0 <= a <= b /\ b <= zlen l /\ zlen src = b - a)
  then Val (ztake a l ++ src ++ zdrop b l) else Panic.

(** ** Counting loops *)

Fixpoint loop_nat {S} (k : nat) (i : Z) (body : Z -> S -> res S) (s : S) : res S :=
  match k with
  | O => Val s
  | Datatypes.S k' => s' ← body i s; loop_nat k' (i + 1) body s'
  end.

(** [let mut i = lo; while i < hi { body; i += 1 }] *)
Definition for_up {S} (lo hi : Z) (body : Z -> S -> res S) (s : S) : res S :=
  loop_nat (Z.to_nat (hi - lo)) lo body s.

(** The same loop with an early [return None] in its body. *)
Fixpoint loop_opt {S} (k : nat) (i : Z) (body : Z -> S -> res (option S)) (s : S)
  : res (option S) :=
  match k with
  | O => Val (Some s)
  | Datatypes.S k' =>
      o ← body i s;
      match o with
      | Some s' => loop_opt k' (i + 1) body s'
      | None => Val None
      end
  end.
Definition for_up_opt {S} (lo hi : Z) (body : Z -> S -> res (option S)) (s : S)
  : res (option S) := loop_opt (Z.to_nat (hi - lo)) lo body s.

(** Copy [n] elements of [src] into [out] at [off], the copying loop of every codec:
    [while i < n { out[off + i] = src[i]; i += 1 }]. *)
Definition copy_loop {A} (n : Z) (src : list A) (off : Z) (out : list A) : res (list A) :=
  for_up 0 n (fun i o => b ← idx src i; upd o (off + i) b) out.

(** ** Little- and big-endian bytes *)

Fixpoint to_le (n : nat) (v : Z) : list Z :=
  match n with
  | O => []
  | S n' => v mod 256 :: to_le n' (v / 256)
  end.
Fixpoint of_le (bs : list Z) : Z :=
  match bs with
  | [] => 0
  | b :: bs' => b + 256 * of_le bs'
  end.
Definition to_be (n : nat) (v : Z) : list Z := reverse (to_le n v).
Definition of_be (bs : list Z) : Z := of_le (reverse bs).

Abbreviation bytes := (Forall is_u8).

(** ** Lemmas: the monad *)

Lemma runs_intro {A} (m : res A) (Q : A -> Prop) a : m = Val a -> Q a -> runs m Q.
Proof. intros ??. by exists a. Qed.

Lemma runs_val {A} (a : A) (Q : A -> Prop) : Q a -> runs (Val a) Q.
Proof. intros ?. by exists a. Qed.

Lemma runs_bind {A B} (m : res A) (f : A -> res B) (P : A -> Prop) (Q : B -> Prop) :
  runs m P -> (forall a, P a -> runs (f a) Q) -> runs (m ≫= f) Q.
Proof. intros (a & -> & Ha) Hf. by apply Hf. Qed.

(** [m] returns what satisfies [P], or panics, and then [H]. *)
Definition concludes {A} (m : res A) (P : A -> Prop) (H : Prop) : Prop :=
  match m with Val a => P a | Panic => H end.

Lemma concludes_bind {A B} (m : res A) (f : A -> res B) (P : A -> Prop) (Q : B -> Prop) (H : Prop) :
  concludes m P H -> (forall a, P a -> concludes (f a) Q H) -> concludes (m ≫= f) Q H.
Proof. destruct m; [intros Hp Hf; by apply Hf | done]. Qed.

Lemma concludes_mono {A} (m : res A) (P Q : A -> Prop) (H H' : Prop) :
  concludes m P H -> (forall a, P a -> Q a) -> (H -> H') -> concludes m Q H'.
Proof. destruct m; cbn; auto. Qed.

Lemma runs_concludes {A} (m : res A) (P : A -> Prop) (H : Prop) : runs m P -> concludes m P H.
Proof. by intros (a & -> & ?). Qed.

Lemma runs_mono {A} (m : res A) (P Q : A -> Prop) :
  runs m P -> (forall a, P a -> Q a) -> runs m Q.
Proof. intros (a & -> & Ha) H. exists a. auto. Qed.

Lemma bind_val_inv {A B} (m : res A) (f : A -> res B) b :
  (m ≫= f) = Val b -> exists a, m = Val a /\ f a = Val b.
Proof. destruct m; [eauto | done]. Qed.

Lemma bind_val {A B} (a : A) (f : A -> res B) : (Val a ≫= f) = f a.
Proof. done. Qed.

Lemma Val_inj {A} (a b : A) : Val a = Val b -> a = b.
Proof. by intros [=]. Qed.

(** ** Lemmas: lengths and sub-slices *)

Section slices.
Context {A : Type}.
Implicit Types (l pre tl : list A).

Lemma zlen_nonneg l : 0 <= zlen l.
Proof. unfold zlen. lia. Qed.
Lemma zlen_nil : zlen (@nil A) = 0.
Proof. done. Qed.
Lemma zlen_cons x l : zlen (x :: l) = 1 + zlen l.
Proof. unfold zlen. simpl. lia. Qed.
Lemma zlen_app l1 l2 : zlen (l1 ++ l2) = zlen l1 + zlen l2.
Proof. unfold zlen. rewrite length_app. lia. Qed.
Lemma zlen_zdrop n l : zlen (zdrop n l) = Z.max 0 (zlen l - Z.max 0 n).
Proof. unfold zlen, zdrop. rewrite length_drop. lia. Qed.
Lemma zlen_ztake n l : zlen (ztake n l) = Z.min (Z.max 0 n) (zlen l).
Proof. unfold zlen, ztake. rewrite length_take. lia. Qed.
Lemma zlen_zrepeat n (x : A) : zlen (zrepeat n x) = Z.max 0 n.
Proof. unfold zlen, zrepeat. rewrite length_replicate. lia. Qed.
Lemma zlen_insert i (x : A) l : zlen (<[i:=x]> l) = zlen l.
Proof. unfold zlen. by rewrite length_insert. Qed.
Lemma zlen_reverse l : zlen (reverse l) = zlen l.
Proof. unfold zlen. by rewrite length_reverse. Qed.
Lemma zlen_zsub off n l :
  zlen (zsub off n l) = Z.min (Z.max 0 n) (Z.max 0 (zlen l - Z.max 0 off)).
Proof. unfold zsub. by rewrite zlen_ztake, zlen_zdrop. Qed.
Lemma zlen_0 l : zlen l = 0 -> l = [].
Proof. unfold zlen. destruct l; simpl; [done | lia]. Qed.

Lemma ztake_zdrop n l : ztake n l ++ zdrop n l = l.
Proof. apply take_drop. Qed.
Lemma zdrop_0 l : zdrop 0 l = l.
Proof. done. Qed.
Lemma ztake_all n l : zlen l <= n -> ztake n l = l.
Proof. unfold ztake, zlen. intros. apply take_ge. lia. Qed.
Lemma zdrop_all n l : zlen l <= n -> zdrop n l = [].
Proof. unfold zdrop, zlen. intros. apply drop_ge. lia. Qed.
Lemma zdrop_zdrop a b l : 0 <= a -> 0 <= b -> zdrop a (zdrop b l) = zdrop (b + a) l.
Proof.
  intros. unfold zdrop. rewrite drop_drop. f_equal. lia.
Qed.
Lemma zdrop_app_ge n l1 l2 : zlen l1 <= n -> zdrop n (l1 ++ l2) = zdrop (n - zlen l1) l2.
Proof.
  unfold zdrop, zlen. intros. rewrite drop_app_ge by lia. f_equal. lia.
Qed.
Lemma zdrop_app_le n l1 l2 : n <= zlen l1 -> zdrop n (l1 ++ l2) = zdrop n l1 ++ l2.
Proof. unfold zdrop, zlen. intros. apply drop_app_le. lia. Qed.
Lemma ztake_app_le n l1 l2 : n <= zlen l1 -> ztake n (l1 ++ l2) = ztake n l1.
Proof. unfold ztake, zlen. intros. apply take_app_le. lia. Qed.
Lemma ztake_app_ge n l1 l2 :
  zlen l1 <= n -> ztake n (l1 ++ l2) = l1 ++ ztake (n - zlen l1) l2.
Proof.
  unfold ztake, zlen. intros. rewrite take_app_ge by lia. do 2 f_equal. lia.
Qed.
Lemma ztake_app_eq n l1 l2 : zlen l1 = n -> ztake n (l1 ++ l2) = l1.
Proof. intros. rewrite ztake_app_le, ztake_all by lia. done. Qed.
Lemma zdrop_app_eq n l1 l2 : zlen l1 = n -> zdrop n (l1 ++ l2) = l2.
Proof. intros <-. rewrite zdrop_app_ge by lia. by rewrite Z.sub_diag. Qed.

Lemma zsub_app_eq n l1 l2 : zlen l1 = n -> zsub 0 n (l1 ++ l2) = l1.
Proof. intros. unfold zsub. rewrite zdrop_0. by apply ztake_app_eq. Qed.
Lemma zsub_app_ge off n l1 l2 :
  zlen l1 <= off -> zsub off n (l1 ++ l2) = zsub (off - zlen l1) n l2.
Proof. intros. unfold zsub. by rewrite zdrop_app_ge. Qed.
Lemma zsub_app_mid off n pre l tl :
  zlen pre = off -> zlen l = n -> zsub off n (pre ++ l ++ tl) = l.
Proof.
  intros. rewrite zsub_app_ge by lia. replace (off - zlen pre) with 0 by lia.
  by apply zsub_app_eq.
Qed.

Lemma zsplit n l : 0 <= n <= zlen l -> exists l1 l2, l = l1 ++ l2 /\ zlen l1 = n.
Proof.
  intros. exists (ztake n l), (zdrop n l). rewrite ztake_zdrop, zlen_ztake.
  split; [done | lia].
Qed.
End slices.

Create Rewrite HintDb zlen.
#[global] Hint Rewrite @zlen_nil @zlen_cons @zlen_app @zlen_zdrop @zlen_ztake @zlen_zrepeat
  @zlen_insert @zlen_reverse @zlen_zsub : zlen.

(** Lengths of symbolic buffers, then linear arithmetic. *)
Ltac zlen_facts :=
  repeat match goal with
    | |- context [zlen ?l] =>
        lazymatch goal with H : 0 <= zlen l |- _ => fail | _ => pose proof (zlen_nonneg l) end
    | _ : context [zlen ?l] |- _ =>
        lazymatch goal with H : 0 <= zlen l |- _ => fail | _ => pose proof (zlen_nonneg l) end
    end.
Ltac zl := autorewrite with zlen in *; unfold in_u in *; zlen_facts; try lia.

(** ** Lemmas: indexing *)

Section indexing.
Context {A : Type}.
Implicit Types (l pre tl : list A) (x v : A).

Lemma idx_app_eq pre x tl i : zlen pre = i -> idx (pre ++ x :: tl) i = Val x.
Proof.
  intros <-. unfold idx, zlen. rewrite decide_True by lia.
  rewrite Nat2Z.id, list_lookup_middle by done. done.
Qed.

Lemma idx_Some l i x : 0 <= i -> l !! Z.to_nat i = Some x -> idx l i = Val x.
Proof. intros ? E. unfold idx. by rewrite decide_True, E by lia. Qed.

Lemma idx_val_inv l i x : idx l i = Val x -> 0 <= i < zlen l /\ l !! Z.to_nat i = Some x.
Proof.
  unfold idx. case_decide; [|done]. destruct (l !! _) eqn:E; [|done].
  intros [= ->]. pose proof (lookup_lt_Some _ _ _ E). unfold zlen. split; [lia | done].
Qed.

Lemma idx_ok l i : 0 <= i < zlen l -> exists x, idx l i = Val x.
Proof.
  intros Hi. destruct (lookup_lt_is_Some_2 l (Z.to_nat i)) as [x Hx].
  { unfold zlen in Hi. lia. }
  exists x. apply idx_Some; [lia | done].
Qed.

Lemma idx_app_ge pre l i : zlen pre <= i -> idx (pre ++ l) i = idx l (i - zlen pre).
Proof.
  intros. unfold idx, zlen in *. rewrite !decide_True by lia.
  rewrite lookup_app_r by lia.
  by replace (Z.to_nat (i - Z.of_nat (length pre))) with (Z.to_nat i - length pre)%nat by lia.
Qed.

Lemma idx_app_lt pre l i : i < zlen pre -> idx (pre ++ l) i = idx pre i.
Proof.
  intros. unfold idx, zlen in *. case_decide; [|done].
  by rewrite lookup_app_l by lia.
Qed.

Lemma idx_runs l i (P : A -> Prop) : 0 <= i < zlen l -> Forall P l -> runs (idx l i) P.
Proof.
  intros Hi HP. destruct (idx_ok l i Hi) as [x Hx]. exists x. split; [done|].
  apply idx_val_inv in Hx as [_ Hx]. by eapply Forall_lookup_1.
Qed.

Lemma upd_ok l i v : 0 <= i < zlen l -> upd l i v = Val (<[Z.to_nat i := v]> l).
Proof. intros. unfold upd. by rewrite decide_True. Qed.

Lemma upd_runs l i v (P : A -> Prop) :
  0 <= i < zlen l -> Forall P l -> P v ->
  runs (upd l i v) (fun l' => Forall P l' /\ zlen l' = zlen l).
Proof.
  intros Hi HP Hv. rewrite upd_ok by done. apply runs_val.
  split; [by apply Forall_insert | by rewrite zlen_insert].
Qed.

(** A write at the end of the part of the buffer already written. *)
Lemma upd_next pre tl i v :
  zlen pre = i -> 1 <= zlen tl -> upd (pre ++ tl) i v = Val ((pre ++ [v]) ++ zdrop 1 tl).
Proof.
  intros <- Htl. destruct tl as [|y tl]; [rewrite zlen_nil in Htl; lia|].
  rewrite zlen_cons in Htl. pose proof (zlen_nonneg pre).
  rewrite upd_ok by (rewrite zlen_app, zlen_cons; lia).
  unfold zlen. rewrite Nat2Z.id, insert_app_r_alt by lia.
  rewrite Nat.sub_diag. simpl. by rewrite <-app_assoc.
Qed.

Lemma upd_0 x l v : upd (x :: l) 0 v = Val (v :: l).
Proof. by apply (upd_next [] (x :: l)); rewrite ?zlen_cons; pose proof (zlen_nonneg l); lia || done. Qed.
Lemma upd_1 x y l v : upd (x :: y :: l) 1 v = Val (x :: v :: l).
Proof. by apply (upd_next [x] (y :: l)); rewrite ?zlen_cons; pose proof (zlen_nonneg l); lia || done. Qed.

Lemma slice_ok l a b : 0 <= a <= b -> b <= zlen l -> slice l a b = Val (zsub a (b - a) l).
Proof. intros. unfold slice. by rewrite decide_True. Qed.

Lemma blit_ok l a b src :
  0 <= a <= b -> b <= zlen l -> zlen src = b - a ->
  blit l a b src = Val (ztake a l ++ src ++ zdrop b l).
Proof. intros. unfold blit. by rewrite decide_True. Qed.

Lemma blit_next pre tl a b src :
  zlen pre = a -> zlen src = b - a -> b - a <= zlen tl ->
  blit (pre ++ tl) a b src = Val ((pre ++ src) ++ zdrop (b - a) tl).
Proof.
  intros <- Hs Htl. pose proof (zlen_nonneg pre). pose proof (zlen_nonneg src).
  rewrite blit_ok by (rewrite ?zlen_app; lia).
  rewrite ztake_app_eq, zdrop_app_ge by lia. by rewrite app_assoc.
Qed.
End indexing.

(** ** Lemmas: loops *)

Section loops.
Context {S : Type}.

Lemma for_up_done lo hi body (s : S) : hi <= lo -> for_up lo hi body s = Val s.
Proof. intros. unfold for_up. by replace (Z.to_nat (hi - lo)) with 0%nat by lia. Qed.

Lemma for_up_step lo hi body (s : S) :
  lo < hi -> for_up lo hi body s = (s' ← body lo s; for_up (lo + 1) hi body s').
Proof.
  intros. unfold for_up. replace (Z.to_nat (hi - lo))
    with (Datatypes.S (Z.to_nat (hi - (lo + 1)))) by lia. done.
Qed.

Lemma loop_nat_inv (I : Z -> S -> Prop) k lo body s :
  I lo s ->
  (forall i s, lo <= i < lo + Z.of_nat k -> I i s -> runs (body i s) (I (i + 1))) ->
  runs (loop_nat k lo body s) (I (lo + Z.of_nat k)).
Proof.
  revert lo s. induction k as [|k IH]; intros lo s HI Hb; simpl.
  { rewrite Z.add_0_r. by apply runs_val. }
  apply runs_bind with (I (lo + 1)).
  { apply Hb; [lia | done]. }
  intros s' HI'.
  replace (lo + Z.of_nat (Datatypes.S k)) with (lo + 1 + Z.of_nat k) by lia.
  apply IH; [done|]. intros i s'' Hi. apply Hb. lia.
Qed.

Lemma for_up_inv (I : Z -> S -> Prop) lo hi body s :
  lo <= hi -> I lo s ->
  (forall i s, lo <= i < hi -> I i s -> runs (body i s) (I (i + 1))) ->
  runs (for_up lo hi body s) (I hi).
Proof.
  intros Hle HI Hb. unfold for_up.
  replace hi with (lo + Z.of_nat (Z.to_nat (hi - lo))) at 2 by lia.
  apply loop_nat_inv; [done|]. intros i s' Hi. apply Hb. lia.
Qed.

(** A loop that runs as a pure function does is that function's fold. *)
Lemma for_up_ext lo hi body1 body2 (s : S) :
  (forall i s, lo <= i < hi -> body1 i s = body2 i s) ->
  for_up lo hi body1 s = for_up lo hi body2 s.
Proof.
  intros H. unfold for_up. remember (Z.to_nat (hi - lo)) as k eqn:Hk.
  revert lo s H Hk. induction k as [|k IH]; intros lo s H Hk; simpl; [done|].
  rewrite H by lia. destruct (body2 lo s); simpl; [|done].
  apply IH; [|lia]. intros i s' Hi. apply H. lia.
Qed.

Lemma for_up_opt_done lo hi body (s : S) :
  hi <= lo -> for_up_opt lo hi body s = Val (Some s).
Proof. intros. unfold for_up_opt. by replace (Z.to_nat (hi - lo)) with 0%nat by lia. Qed.

Lemma for_up_opt_step lo hi body (s : S) :
  lo < hi ->
  for_up_opt lo hi body s =
    (o ← body lo s;
     match o with Some s' => for_up_opt (lo + 1) hi body s' | None => Val None end).
Proof.
  intros. unfold for_up_opt. replace (Z.to_nat (hi - lo))
    with (Datatypes.S (Z.to_nat (hi - (lo + 1)))) by lia. done.
Qed.

Lemma for_up_opt_inv (I : Z -> S -> Prop) lo hi body s :
  lo <= hi -> I lo s ->
  (forall i s, lo <= i < hi -> I i s ->
     runs (body i s) (fun o => match o with Some s' => I (i + 1) s' | None => True end)) ->
  runs (for_up_opt lo hi body s)
    (fun o => match o with Some s' => I hi s' | None => True end).
Proof.
  intros Hle HI Hb. remember (Z.to_nat (hi - lo)) as k eqn:Hk.
  revert lo s Hle HI Hb Hk. induction k as [|k IH]; intros lo s Hle HI Hb Hk.
  { rewrite for_up_opt_done by lia. apply runs_val. by replace hi with lo by lia. }
  rewrite for_up_opt_step by lia. eapply runs_bind; [apply Hb; [lia | done]|].
  intros [s'|] HI'; [|by apply runs_val].
  apply IH; [lia | done | | lia]. intros i s'' Hi. apply Hb. lia.
Qed.
End loops.

(** ** Lemmas: the copying loop *)

Lemma copy_loop_next {A} n (src : list A) off pre tl :
  zlen pre = off -> 0 <= n <= zlen src -> n <= zlen tl ->
  copy_loop n src off (pre ++ tl) = Val ((pre ++ ztake n src) ++ zdrop n tl).
Proof.
  intros Hpre Hn Htl. unfold copy_loop.
  destruct (for_up_inv
    (fun i o => o = (pre ++ ztake i src) ++ zdrop i tl) 0 n
    (fun i o => b ← idx src i; upd o (off + i) b) (pre ++ tl)) as (o & E & ->);
    [lia | by rewrite app_nil_r | | done].
  intros i o Hi ->.
  destruct (idx_ok src i) as [x Hx]; [lia|]. rewrite Hx. simpl.
  rewrite upd_next by zl.
  apply runs_val. rewrite zdrop_zdrop by lia. f_equal. rewrite <-app_assoc. f_equal.
  apply idx_val_inv in Hx as [_ Hx]. unfold ztake.
  replace (Z.to_nat (i + 1)) with (S (Z.to_nat i)) by lia. by rewrite (take_S_r _ _ x).
Qed.

Lemma copy_loop_front {A} n (src : list A) tl :
  0 <= n <= zlen src -> n <= zlen tl -> copy_loop n src 0 tl = Val (ztake n src ++ zdrop n tl).
Proof. intros. by apply (copy_loop_next n src 0 []). Qed.

(** ** Lemmas: endianness *)

Lemma zlen_to_le n v : zlen (to_le n v) = Z.of_nat n.
Proof.
  revert v. induction n as [|n IH]; intros v; [done|].
  cbn [to_le]. rewrite zlen_cons, IH. lia.
Qed.
Lemma zlen_to_be n v : zlen (to_be n v) = Z.of_nat n.
Proof. unfold to_be. by rewrite zlen_reverse, zlen_to_le. Qed.
#[global] Hint Rewrite zlen_to_le zlen_to_be : zlen.

Lemma to_le_bytes n v : bytes (to_le n v).
Proof.
  revert v. induction n as [|n IH]; intros v; [done|]. cbn [to_le].
  constructor; [|apply IH]. unfold in_u. apply Z.mod_pos_bound. lia.
Qed.
Lemma to_be_bytes n v : bytes (to_be n v).
Proof. unfold to_be. apply Forall_reverse, to_le_bytes. Qed.

Lemma of_to_le n v : of_le (to_le n v) = v mod 256 ^ Z.of_nat n.
Proof.
  revert v. induction n as [|n IH]; intros v; [by rewrite Z.mod_1_r|].
  cbn [to_le of_le]. rewrite IH, Nat2Z.inj_succ, Z.pow_succ_r by lia.
  rewrite Z.rem_mul_r by lia. done.
Qed.

Lemma of_to_le_id n v : in_u (8 * Z.of_nat n) v -> of_le (to_le n v) = v.
Proof.
  intros Hv. rewrite of_to_le. apply Z.mod_small. unfold in_u in Hv.
  change 256 with (2 ^ 8). rewrite <-Z.pow_mul_r by lia. done.
Qed.

Lemma to_of_le bs : bytes bs -> to_le (length bs) (of_le bs) = bs.
Proof.
  induction 1 as [|b bs Hb _ IH]; [done|]. cbn [to_le of_le length].
  unfold in_u in Hb. change (2 ^ 8) with 256 in Hb. f_equal.
  - rewrite Z.mul_comm, Z.mod_add, Z.mod_small by lia. done.
  - rewrite Z.mul_comm, Z.div_add, Z.div_small, Z.add_0_l by lia. done.
Qed.

Lemma to_of_le_n n bs : bytes bs -> zlen bs = Z.of_nat n -> to_le n (of_le bs) = bs.
Proof. intros Hb Hl. replace n with (length bs) by (unfold zlen in Hl; lia). by apply to_of_le. Qed.

Lemma of_le_bound bs : bytes bs -> in_u (8 * zlen bs) (of_le bs).
Proof.
  intros Hb. rewrite <-(to_of_le bs) by done. rewrite of_to_le, to_of_le by done.
  unfold in_u. rewrite Z.pow_mul_r by (pose proof (zlen_nonneg bs); lia).
  apply Z.mod_pos_bound. change (2 ^ 8) with 256. unfold zlen.
  apply Z.pow_pos_nonneg; lia.
Qed.

Lemma to_le_inj n v1 v2 :
  in_u (8 * Z.of_nat n) v1 -> in_u (8 * Z.of_nat n) v2 -> to_le n v1 = to_le n v2 -> v1 = v2.
Proof. intros H1 H2 E. by rewrite <-(of_to_le_id n v1), E, of_to_le_id. Qed.

Lemma to_le8_inj v1 v2 : is_u64 v1 -> is_u64 v2 -> to_le 8 v1 = to_le 8 v2 -> v1 = v2.
Proof. apply (to_le_inj 8). Qed.
Lemma to_le4_inj v1 v2 : is_u32 v1 -> is_u32 v2 -> to_le 4 v1 = to_le 4 v2 -> v1 = v2.
Proof. apply (to_le_inj 4). Qed.
Lemma to_le2_inj v1 v2 : is_u16 v1 -> is_u16 v2 -> to_le 2 v1 = to_le 2 v2 -> v1 = v2.
Proof. apply (to_le_inj 2). Qed.

#[global] Arguments to_le : simpl never.
#[global] Arguments of_le : simpl never.

(** ** Lemmas: reading arrays out of a buffer *)

(** The array literal [[buf[o0], buf[o1], ...]]. *)
Definition gather {A} (buf : list A) (offs : list Z) : res (list A) := mapM (idx buf) offs.

Lemma gather_ok {A} (buf : list A) off n (offs : list Z) :
  offs = map (fun k => off + Z.of_nat k) (seq 0 n) ->
  0 <= off -> off + Z.of_nat n <= zlen buf ->
  gather buf offs = Val (zsub off (Z.of_nat n) buf).
Proof.
  intros -> Hoff. revert off Hoff. induction n as [|n IH]; intros off Hoff Hlen.
  { done. }
  rewrite <-cons_seq, <-seq_shift. cbn [map].
  unfold gather in *. cbn [mapM]. rewrite Z.add_0_r.
  destruct (idx_ok buf off) as [x Hx]; [zl|]. rewrite Hx. cbn.
  rewrite map_map.
  rewrite (map_ext _ (fun k => off + 1 + Z.of_nat k)) by lia.
  rewrite IH by lia. cbn. f_equal.
  apply idx_val_inv in Hx as [_ Hx]. unfold zsub, ztake, zdrop.
  replace (Z.to_nat (off + 1)) with (S (Z.to_nat off)) by lia.
  replace (Z.to_nat (Z.of_nat (S n))) with (S (Z.to_nat (Z.of_nat n))) by lia.
  by rewrite (drop_S _ _ _ Hx).
Qed.

(** [gather_tac] evaluates a literal array read at consecutive offsets. *)
Ltac gather_tac off n :=
  match goal with |- context [gather ?b ?offs] =>
    rewrite (gather_ok b off n offs) by first [cbn; repeat f_equal; lia | zl]
  end;
  let z := eval vm_compute in (Z.of_nat n) in change (Z.of_nat n) with z.

Lemma zsub_bytes off n bs : bytes bs -> bytes (zsub off n bs).
Proof. intros. unfold zsub, ztake, zdrop. by apply Forall_take, Forall_drop. Qed.
Lemma ztake_bytes n bs : bytes bs -> bytes (ztake n bs).
Proof. intros. by apply Forall_take. Qed.
Lemma zdrop_bytes n bs : bytes bs -> bytes (zdrop n bs).
Proof. intros. by apply Forall_drop. Qed.
Lemma zrepeat_Forall {A} (P : A -> Prop) n x : P x -> Forall P (zrepeat n x).
Proof. intros. by apply Forall_replicate. Qed.

Create HintDb bytes.
#[export] Hint Resolve to_le_bytes to_be_bytes zsub_bytes ztake_bytes zdrop_bytes
  zrepeat_Forall Forall_app_2 Forall_nil_2 : bytes.

(** A byte chain, chunk by chunk. *)
Ltac byte_chunks :=
  repeat match goal with |- Forall _ (_ ++ _) => apply Forall_app_2 end;
  try first [ apply to_le_bytes | apply to_be_bytes | apply zrepeat_Forall; unfold in_u; lia
            | assumption ].

(** ** Lemmas: bit operations *)

Lemma land_shiftl_low a b n : 0 <= n -> in_u n b -> Z.land (Z.shiftl a n) b = 0.
Proof.
  intros Hn Hb. apply Z.bits_inj'. intros k Hk. rewrite Z.land_spec, Z.bits_0.
  destruct (decide (k < n)).
  - by rewrite Z.shiftl_spec_low by lia.
  - destruct (decide (b = 0)) as [->|]; [by rewrite Z.bits_0, andb_false_r|].
    rewrite (Z.bits_above_log2 b), andb_false_r; [done | unfold in_u in Hb; lia |].
    apply Z.log2_lt_pow2; [unfold in_u in Hb; lia|].
    unfold in_u in Hb. pose proof (Z.pow_le_mono_r 2 n k). lia.
Qed.

(** A bit field placed above a narrower one. *)
Lemma lor_shiftl_low a b n :
  0 <= n -> in_u n b -> Z.lor (Z.shiftl a n) b = a * 2 ^ n + b.
Proof.
  intros Hn Hb. rewrite <-Z.shiftl_mul_pow2 by done.
  rewrite Z.add_nocarry_lxor by (by apply land_shiftl_low).
  symmetry. apply Z.lxor_lor. by apply land_shiftl_low.
Qed.

Lemma wrap_small w v : in_u w v -> wrap w v = v.
Proof. intros. by apply Z.mod_small. Qed.
Lemma wrap_in_u w v : 0 <= w -> in_u w (wrap w v).
Proof. intros. unfold in_u, wrap. apply Z.mod_pos_bound. by apply Z.pow_pos_nonneg. Qed.

(** A decidable fact about bytes is checked by enumerating them. *)
Lemma byte_forall (P : Z -> bool) b :
  forallb P (map Z.of_nat (seq 0 256)) = true -> is_u8 b -> P b = true.
Proof.
  rewrite forallb_forall. unfold in_u. intros HP Hb. apply HP, in_map_iff.
  exists (Z.to_nat b). rewrite in_seq. lia.
Qed.

(** [a % b] on [usize]. *)
Definition urem (a b : Z) : res Z := if decide (b = 0) then Panic else Val (a mod b).

(** Copy [n] elements of [src] from [off] on into the front of [dst]:
    [while i < n { dst[i] = src[off + i]; i += 1 }]. *)
Definition copy_in {A} (n : Z) (src : list A) (off : Z) (dst : list A) : res (list A) :=
  for_up 0 n (fun i d => b ← idx src (off + i); upd d i b) dst.

Lemma zsub_snoc {A} (l : list A) off n x :
  0 <= off -> 0 <= n -> idx l (off + n) = Val x -> zsub off (n + 1) l = zsub off n l ++ [x].
Proof.
  intros Ho Hn Hx. apply idx_val_inv in Hx as [_ Hx]. unfold zsub, ztake, zdrop.
  replace (Z.to_nat (n + 1)) with (S (Z.to_nat n)) by lia.
  rewrite (take_S_r _ _ x); [done|]. rewrite lookup_drop, <-Hx. f_equal. lia.
Qed.

Lemma zsub_one {A} (l : list A) i x : idx l i = Val x -> zsub i 1 l = [x].
Proof.
  intros Hx. pose proof (idx_val_inv _ _ _ Hx) as [Hi _].
  apply (zsub_snoc l i 0); [lia | done | by rewrite Z.add_0_r].
Qed.

Lemma copy_in_ok {A} n (src : list A) off dst :
  0 <= off -> 0 <= n -> off + n <= zlen src -> n <= zlen dst ->
  copy_in n src off dst = Val (zsub off n src ++ zdrop n dst).
Proof.
  intros Ho Hn Hs Hd. unfold copy_in.
  destruct (for_up_inv (fun i d => d = zsub off i src ++ zdrop i dst) 0 n
    (fun i d => b ← idx src (off + i); upd d i b) dst) as (d & E & ->); [lia | done | | done].
  intros i d Hi ->. destruct (idx_ok src (off + i)) as [x Hx]; [lia|].
  rewrite Hx. simpl. rewrite upd_next by zl.
  apply runs_val. rewrite zdrop_zdrop by lia. f_equal. symmetry. apply zsub_snoc; [lia | lia | done].
Qed.

(** ** Interface: a 32-byte digest

    What the provenance fold and the LMS leaf need from a hash: it returns 32 bytes on
    every input and never panics.  [khash] and [sha256] implement it. *)
Class Digest (H : list Z -> res (list Z)) : Prop :=
  digest_total : forall msg, runs (H msg) (fun d => zlen d = 32 /\ bytes d).

(** ** Running a definition step by step

    [run_step] executes the head of a [runs] goal: an index or an update whose bound is
    linear arithmetic over known lengths, a pure value, or the next bind. *)

Lemma runs_idx {A B} (l : list A) i (f : A -> res B) Q :
  0 <= i < zlen l -> (forall x, l !! Z.to_nat i = Some x -> runs (f x) Q) ->
  runs (idx l i ≫= f) Q.
Proof.
  intros Hi Hf. destruct (idx_ok l i Hi) as [x Hx]. rewrite Hx. apply Hf.
  by apply idx_val_inv in Hx as [_ ?].
Qed.
Lemma runs_upd {A B} (l : list A) i v (f : list A -> res B) Q :
  0 <= i < zlen l -> runs (f (<[Z.to_nat i := v]> l)) Q -> runs (upd l i v ≫= f) Q.
Proof. intros Hi Hf. by rewrite upd_ok. Qed.
Lemma runs_upd_last {A} (l : list A) i v Q :
  0 <= i < zlen l -> Q (<[Z.to_nat i := v]> l) -> runs (upd l i v) Q.
Proof. intros Hi Hf. rewrite upd_ok by done. by apply runs_val. Qed.

Ltac run_step :=
  first [ apply runs_idx; [zl | intros ? ?]
        | apply runs_upd; [zl | ]
        | apply runs_upd_last; [zl | ]
        | apply runs_val ].

Lemma ztake_zrepeat {A} k n (x : A) : k <= n -> ztake k (zrepeat n x) = zrepeat k x.
Proof. intros. unfold ztake, zrepeat. rewrite take_replicate. f_equal. lia. Qed.
Lemma ztake_nil {A} n : ztake n ([] : list A) = [].
Proof. apply take_nil. Qed.
Lemma zdrop_zrepeat {A} k n (x : A) : 0 <= k -> zdrop k (zrepeat n x) = zrepeat (n - k) x.
Proof. intros. unfold zdrop, zrepeat. rewrite drop_replicate. f_equal. lia. Qed.

Lemma bind_assoc {A B C} (m : res A) (f : A -> res B) (k : B -> res C) :
  ((m ≫= f) ≫= k) = (m ≫= fun a => f a ≫= k).
Proof. by destruct m. Qed.

Lemma runs_eq {A B} (m : res A) (P : A -> Prop) (f k : A -> res B) :
  runs m P -> (forall a, P a -> f a = k a) -> (m ≫= f) = (m ≫= k).
Proof. intros (a & -> & Ha) H. by apply H. Qed.

(** ** Lemmas: loops over a slice *)

Lemma idx_middle {A} (pre tl : list A) x : idx (pre ++ x :: tl) (zlen pre) = Val x.
Proof. by apply idx_app_eq. Qed.

Lemma for_up_fold_from {A S} (f : S -> A -> S) (pre l : list A) s :
  for_up (zlen pre) (zlen (pre ++ l)) (fun i s => x ← idx (pre ++ l) i; Val (f s x)) s
  = Val (fold_left f l s).
Proof.
  revert pre s. induction l as [|x l IH]; intros pre s.
  - rewrite for_up_done; [done|]. rewrite app_nil_r. lia.
  - rewrite for_up_step by zl. rewrite idx_middle, !bind_val.
    specialize (IH (pre ++ [x]) (f s x)). rewrite <-app_assoc in IH. cbn [app] in IH.
    replace (zlen pre + 1) with (zlen (pre ++ [x])) by zl. exact IH.
Qed.

(** A loop over every element of a slice is a left fold. *)
Lemma for_up_fold {A S} (f : S -> A -> S) (l : list A) s :
  for_up 0 (zlen l) (fun i s => x ← idx l i; Val (f s x)) s = Val (fold_left f l s).
Proof. apply (for_up_fold_from f [] l). Qed.

(** A loop that returns [None] at the first byte unlike the expected one. *)
Lemma match_loop (s m : list Z) :
  zlen m <= zlen s ->
  for_up_opt 0 (zlen m) (fun i (_ : unit) =>
    a ← idx s i; b ← idx m i; Val (if negb (a =? b) then None else Some tt)) tt
  = Val (if decide (ztake (zlen m) s = m) then Some tt else None).
Proof.
  assert (forall m s pre pre', zlen pre = zlen pre' -> zlen m <= zlen s ->
    for_up_opt (zlen pre) (zlen (pre' ++ m)) (fun i (_ : unit) =>
      a ← idx (pre ++ s) i; b ← idx (pre' ++ m) i;
      Val (if negb (a =? b) then None else Some tt)) tt
    = Val (if decide (ztake (zlen m) s = m) then Some tt else None)) as H.
  { clear. intros m. induction m as [|y m IH]; intros s pre pre' Hp Hl.
    - rewrite for_up_opt_done by zl. by rewrite decide_True.
    - destruct s as [|x s]; [zl|]. rewrite for_up_opt_step by zl.
      rewrite idx_middle, bind_val, Hp, idx_middle, !bind_val.
      replace (ztake (zlen (y :: m)) (x :: s)) with (x :: ztake (zlen m) s).
      2:{ unfold ztake, zlen. by rewrite !Nat2Z.id. }
      destruct (Z.eqb_spec x y) as [->|Hne]; cbn [negb].
      + specialize (IH s (pre ++ [y]) (pre' ++ [y])). rewrite <-!app_assoc in IH. cbn [app] in IH.
        replace (zlen pre' + 1) with (zlen (pre ++ [y])) by zl.
        rewrite IH by zl. f_equal. apply decide_ext. split; [by intros -> | by intros [=]].
      + by rewrite decide_False by (by intros [=]). }
  intros Hl. apply (H m s [] []); done.
Qed.

(** A fold of a step that may panic. *)
Section fold_res.
Context {A S : Type} (f : S -> A -> res S).
Fixpoint fold_res (s : S) (l : list A) : res S :=
  match l with [] => Val s | x :: l' => s' ← f s x; fold_res s' l' end.

Lemma fold_res_cons s x l : fold_res s (x :: l) = (s' ← f s x; fold_res s' l).
Proof. done. Qed.
Lemma fold_res_snoc s l x : fold_res s (l ++ [x]) = (s' ← fold_res s l; f s' x).
Proof.
  revert s. induction l as [|y l IH]; intros s; cbn [app]; rewrite ?fold_res_cons.
  - cbn. by destruct (f s x).
  - destruct (f s y); [|done]. rewrite !bind_val. apply IH.
Qed.

Lemma for_up_fold_res_from pre l s :
  for_up (zlen pre) (zlen (pre ++ l)) (fun i s => x ← idx (pre ++ l) i; f s x) s = fold_res s l.
Proof.
  revert pre s. induction l as [|x l IH]; intros pre s.
  - rewrite app_nil_r, for_up_done by lia. done.
  - rewrite for_up_step, idx_middle, bind_val, fold_res_cons by zl.
    destruct (f s x) as [s'|]; [|done]. rewrite !bind_val.
    specialize (IH (pre ++ [x]) s'). rewrite <-app_assoc in IH. cbn [app] in IH.
    replace (zlen pre + 1) with (zlen (pre ++ [x])) by zl. exact IH.
Qed.
(** A loop over every element is the fold. *)
Lemma for_up_fold_res l s :
  for_up 0 (zlen l) (fun i s => x ← idx l i; f s x) s = fold_res s l.
Proof. apply (for_up_fold_res_from []). Qed.
End fold_res.

(** ** Lemmas: ascending writes into a zeroed buffer *)

Lemma blit_zeros pre n a b src :
  zlen pre <= a -> zlen src = b - a -> b - zlen pre <= n ->
  blit (pre ++ zrepeat n 0) a b src =
    Val ((pre ++ zrepeat (a - zlen pre) 0 ++ src) ++ zrepeat (n - (b - zlen pre)) 0).
Proof.
  intros Ha Hs Hn. pose proof (zlen_nonneg pre). pose proof (zlen_nonneg src).
  replace (zrepeat n 0) with (zrepeat (a - zlen pre) 0 ++ zrepeat (n - (a - zlen pre)) (0 : Z)).
  2:{ unfold zrepeat. rewrite <-replicate_add. f_equal. lia. }
  rewrite app_assoc, blit_next by zl. f_equal. rewrite zdrop_zrepeat by lia.
  rewrite <-!app_assoc. do 4 f_equal. lia.
Qed.

Lemma upd_zeros pre n i v :
  zlen pre <= i -> i - zlen pre < n ->
  upd (pre ++ zrepeat n 0) i v =
    Val ((pre ++ zrepeat (i - zlen pre) 0 ++ [v]) ++ zrepeat (n - (i + 1 - zlen pre)) 0).
Proof.
  intros Hi Hn. pose proof (zlen_nonneg pre).
  replace (zrepeat n 0) with (zrepeat (i - zlen pre) 0 ++ zrepeat (n - (i - zlen pre)) (0 : Z)).
  2:{ unfold zrepeat. rewrite <-replicate_add. f_equal. lia. }
  rewrite app_assoc, upd_next by zl. f_equal. rewrite zdrop_zrepeat by lia.
  rewrite <-!app_assoc. do 4 f_equal. lia.
Qed.

Lemma blit_zeros_gap pre n a b src k g n' :
  zlen pre = k -> a - k = g -> n - (b - k) = n' ->
  0 <= g -> zlen src = b - a -> 0 <= n' ->
  blit (pre ++ zrepeat n 0) a b src = Val ((pre ++ zrepeat g 0 ++ src) ++ zrepeat n' 0).
Proof. intros <- <- <- ???. by apply blit_zeros; lia. Qed.

Lemma blit_zeros_next pre n a b src k n' :
  zlen pre = k -> a - k = 0 -> n - (b - k) = n' -> zlen src = b - a -> 0 <= n' ->
  blit (pre ++ zrepeat n 0) a b src = Val ((pre ++ src) ++ zrepeat n' 0).
Proof. intros. by rewrite (blit_zeros_gap _ _ _ _ _ k 0 n'). Qed.

Lemma upd_zeros_gap pre n i v k g n' :
  zlen pre = k -> i - k = g -> n - (i + 1 - k) = n' -> 0 <= g -> 0 <= n' ->
  upd (pre ++ zrepeat n 0) i v = Val ((pre ++ zrepeat g 0 ++ [v]) ++ zrepeat n' 0).
Proof. intros <- <- <- ??. by apply upd_zeros; lia. Qed.

Lemma upd_zeros_next pre n i v k n' :
  zlen pre = k -> i - k = 0 -> n - (i + 1 - k) = n' -> 0 <= n' ->
  upd (pre ++ zrepeat n 0) i v = Val ((pre ++ [v]) ++ zrepeat n' 0).
Proof. intros. by rewrite (upd_zeros_gap _ _ _ _ k 0 n'). Qed.

(** [fill_step] runs the next write of a sequence of writes at constant ascending offsets
    into a zeroed buffer, [fill] all of them; the contents end up as one append chain. *)
Ltac zlen_const :=
  autorewrite with zlen;
  repeat match goal with H : zlen ?x = _ |- context [zlen ?x] => rewrite H end;
  first [reflexivity | vm_compute; reflexivity].
Ltac z_const := first [vm_compute; reflexivity | vm_compute; congruence | lia].
Ltac fill_side := lazymatch goal with |- zlen _ = _ => zlen_const | |- _ => z_const end.
Ltac fill_step :=
  first
    [ rewrite bind_val
    | erewrite blit_zeros_next by fill_side
    | erewrite blit_zeros_gap by fill_side
    | erewrite upd_zeros_next by fill_side
    | erewrite upd_zeros_gap by fill_side
    | match goal with |- context [idx ?l ?i] =>
        let v := eval lazy [lookup list_lookup Z.to_nat Pos.to_nat Pos.iter_op Nat.add to_le]
                   in (l !! Z.to_nat i) in
        match v with Some ?x => change (idx l i) with (Val x) end
      end ].
Ltac fill := repeat fill_step.

Lemma zsub_skip {A} off n (pre l : list A) k off' :
  zlen pre = k -> off - k = off' -> 0 <= off' -> zsub off n (pre ++ l) = zsub off' n l.
Proof. intros <- <- ?. by apply zsub_app_ge; lia. Qed.

Lemma zsub_all {A} n (l : list A) : zlen l = n -> zsub 0 n l = l.
Proof. intros <-. unfold zsub. rewrite zdrop_0. by apply ztake_all. Qed.

Lemma zsub_join {A} (l : list A) a n a' m :
  0 <= a -> 0 <= n -> 0 <= m -> a' = a + n -> zsub a n l ++ zsub a' m l = zsub a (n + m) l.
Proof.
  intros ??? ->. unfold zsub, ztake, zdrop. rewrite !Z2Nat.inj_add by lia.
  by rewrite <-drop_drop, take_take_drop.
Qed.

(** The consecutive fields of a buffer, put back together. *)
Ltac rejoin := rewrite !zsub_join by (done || lia); apply zsub_all; done.

Lemma zapp_inj {A} (l1 k1 l2 k2 : list A) :
  zlen l1 = zlen k1 -> l1 ++ l2 = k1 ++ k2 -> l1 = k1 /\ l2 = k2.
Proof. intros Hl. apply app_inj_1. unfold zlen in Hl. lia. Qed.

(** Equal append chains of chunks of equal constant length are equal chunk by chunk. *)
Ltac chunks_inj E :=
  repeat (let H := fresh "Hchunk" in
          apply zapp_inj in E as [H E];
            [|first [autorewrite with zlen; reflexivity | congruence]]).

(** [field_step] reads or skips the first chunk of an append chain of chunks of constant
    length, [fields] resolves every [zsub] of such a chain. *)
Ltac chunk_len c k :=
  let kk := open_constr:(_ : Z) in
  let H := fresh "Hchunk" in
  assert (zlen c = kk) as H by
    (autorewrite with zlen;
     repeat match goal with H' : zlen ?x = _ |- context [zlen ?x] => rewrite H' end; reflexivity);
  let v := eval vm_compute in kk in
  change (zlen c = v) in H;
  k H v.
Ltac field_step :=
  match goal with
  | |- context [zsub ?off ?n (?c ++ ?r)] =>
      chunk_len c ltac:(fun H k =>
        lazymatch off with
        | 0 => rewrite (zsub_app_eq n c r H)
        | _ => let o := eval vm_compute in (off - k) in
               rewrite (zsub_skip off n c r k o H eq_refl ltac:(discriminate))
        end; clear H)
  | |- context [zsub 0 ?n ?c] => rewrite (zsub_all n c) by (autorewrite with zlen; reflexivity)
  end.
Ltac fields := repeat field_step.

(** ** Lemmas: ascending writes into any buffer *)

Lemma upd_ascend {A} pre k (out : list A) i v k' :
  zlen pre = i -> 0 <= k -> k + 1 = k' -> k' <= zlen out ->
  upd (pre ++ zdrop k out) i v = Val ((pre ++ [v]) ++ zdrop k' out).
Proof. intros Hp Hk <- Hl. rewrite upd_next by zl. by rewrite zdrop_zdrop by lia. Qed.

Lemma copy_ascend {A} n (src : list A) off pre k out k' :
  zlen pre = off -> zlen src = n -> 0 <= k -> k + n = k' -> k' <= zlen out ->
  copy_loop n src off (pre ++ zdrop k out) = Val ((pre ++ src) ++ zdrop k' out).
Proof.
  intros Hp Hs Hk <- Hl. pose proof (zlen_nonneg src).
  rewrite copy_loop_next by zl. by rewrite ztake_all, zdrop_zdrop by lia.
Qed.

(** [write_step] runs the next write of a sequence of consecutive writes into a buffer
    whose length bounds them by linear arithmetic. *)
Ltac write_side :=
  lazymatch goal with
  | |- zlen _ = _ => zlen_const
  | |- _ <= zlen _ => lia
  | |- _ => z_const
  end.
Ltac write_step :=
  first
    [ rewrite bind_val
    | erewrite upd_ascend by write_side
    | erewrite copy_ascend by write_side
    | match goal with |- context [idx ?l ?i] =>
        let v := eval lazy [lookup list_lookup Z.to_nat Pos.to_nat Pos.iter_op Nat.add to_le]
                   in (l !! Z.to_nat i) in
        match v with Some ?x => change (idx l i) with (Val x) end
      end ].
Ltac writes := repeat write_step.

(** The value of a [w]-bit word read as a signed integer ([v as iN]), and back. *)
Definition to_signed (w v : Z) : Z := if v <? 2 ^ (w - 1) then v else v - 2 ^ w.
Definition in_i (w v : Z) : Prop := - 2 ^ (w - 1) <= v < 2 ^ (w - 1).

Lemma to_signed_wrap w v : 0 < w -> in_i w v -> to_signed w (wrap w v) = v.
Proof.
  intros Hw [H1 H2]. unfold to_signed, wrap.
  assert (2 ^ w = 2 * 2 ^ (w - 1)) as E.
  { rewrite <-Z.pow_succ_r by lia. f_equal. lia. }
  assert (0 < 2 ^ (w - 1)) by (apply Z.pow_pos_nonneg; lia).
  destruct (decide (0 <= v)).
  - rewrite Z.mod_small by lia. destruct (Z.ltb_spec v (2 ^ (w - 1))); lia.
  - assert (v mod 2 ^ w = v + 2 ^ w) as ->.
    { symmetry. apply Z.mod_unique with (-1); lia. }
    destruct (Z.ltb_spec (v + 2 ^ w) (2 ^ (w - 1))); lia.
Qed.

Lemma wrap_to_signed w v : 0 < w -> in_u w v -> wrap w (to_signed w v) = v.
Proof.
  intros Hw [H1 H2]. unfold to_signed, wrap. destruct (Z.ltb_spec v (2 ^ (w - 1))).
  - by apply Z.mod_small.
  - symmetry. apply Z.mod_unique with (-1); lia.
Qed.

Lemma to_signed_in_i w v : 0 < w -> in_u w v -> in_i w (to_signed w v).
Proof.
  intros Hw [H1 H2]. unfold to_signed, in_i.
  assert (2 ^ w = 2 * 2 ^ (w - 1)) as E.
  { rewrite <-Z.pow_succ_r by lia. f_equal. lia. }
  destruct (Z.ltb_spec v (2 ^ (w - 1))); lia.
Qed.

(** ** Lemmas: bits of machine words *)

Lemma lxor_in_u w a b : 0 <= w -> in_u w a -> in_u w b -> in_u w (Z.lxor a b).
Proof.
  intros Hw Ha Hb. assert (Z.lxor a b = Z.lxor a b mod 2 ^ w) as ->.
  - apply Z.bits_inj'. intros k Hk. destruct (decide (k < w)).
    + by rewrite Z.mod_pow2_bits_low by lia.
    + rewrite Z.mod_pow2_bits_high by lia. unfold in_u in *.
      rewrite Z.lxor_spec, <-(Z.mod_small a (2 ^ w)), <-(Z.mod_small b (2 ^ w)) by done.
      by rewrite !Z.mod_pow2_bits_high by lia.
  - apply Z.mod_pos_bound. by apply Z.pow_pos_nonneg.
Qed.

Lemma lxor_cancel_r a b c : Z.lxor a c = Z.lxor b c -> a = b.
Proof.
  intros E. rewrite <-(Z.lxor_0_r a), <-(Z.lxor_0_r b), <-(Z.lxor_nilpotent c), <-!Z.lxor_assoc.
  by rewrite E.
Qed.

Lemma in_u_mono v w1 w2 : w1 <= w2 -> in_u w1 v -> in_u w2 v.
Proof. unfold in_u. intros H ?. pose proof (Z.pow_le_mono_r 2 w1 w2). lia. Qed.

(** ** One corrupted byte *)

Definition corrupt1 (s s' : list Z) : Prop :=
  exists pre a b tl, s = pre ++ a :: tl /\ s' = pre ++ b :: tl /\ a <> b /\ is_u8 b.

Lemma corrupt1_len s s' : corrupt1 s s' -> zlen s' = zlen s.
Proof. intros (pre & a & b & tl & -> & -> & _). by rewrite !zlen_app, !zlen_cons. Qed.

Lemma corrupt1_bytes s s' : corrupt1 s s' -> bytes s -> bytes s'.
Proof.
  intros (pre & a & b & tl & -> & -> & _ & Hb) [H1 H2]%Forall_app.
  apply Forall_cons in H2 as [_ H2]. apply Forall_app; auto.
Qed.

Lemma corrupt1_neq s s' : corrupt1 s s' -> s <> s'.
Proof. intros (pre & a & b & tl & -> & -> & H & _) E. apply app_inv_head in E. congruence. Qed.

Lemma corrupt1_app l1 l2 s' :
  corrupt1 (l1 ++ l2) s' ->
  (exists l1', s' = l1' ++ l2 /\ corrupt1 l1 l1') \/ (exists l2', s' = l1 ++ l2' /\ corrupt1 l2 l2').
Proof.
  intros (pre & a & b & tl & E & -> & Hab & Hb).
  apply app_eq_inv in E as [(k & -> & E)|(k & -> & ->)].
  - destruct k as [|x k].
    + right. rewrite app_nil_r in *. cbn in E. subst l2. exists (b :: tl).
      split; [done|]. by exists [], a, b, tl.
    + cbn in E. injection E as <- ->. left. exists (pre ++ b :: k). rewrite <-app_assoc.
      split; [done|]. by exists pre, a, b, k.
  - right. exists (k ++ b :: tl). rewrite <-app_assoc. split; [done|]. by exists k, a, b, tl.
Qed.

(** The corrupted byte is at offset [i]. *)
Definition corrupt_at (i : Z) (s s' : list Z) : Prop :=
  exists pre a b tl, s = pre ++ a :: tl /\ s' = pre ++ b :: tl /\ a <> b /\ is_u8 b /\ zlen pre = i.

Lemma corrupt_at_corrupt1 i s s' : corrupt_at i s s' -> corrupt1 s s'.
Proof. intros (pre & a & b & tl & ? & ? & ? & ? & _). by exists pre, a, b, tl. Qed.

Lemma zsub_corrupt_out i s s' off n :
  corrupt_at i s s' -> 0 <= off -> 0 <= n -> i < off \/ off + n <= i -> zsub off n s' = zsub off n s.
Proof.
  intros (pre & a & b & tl & -> & -> & _ & _ & Hi) Ho Hn [H|H].
  - rewrite !zsub_app_ge by lia. unfold zsub. f_equal.
    unfold zdrop. replace (Z.to_nat (off - zlen pre)) with (S (Z.to_nat (off - zlen pre - 1))) by lia.
    done.
  - unfold zsub. by rewrite !zdrop_app_le, !ztake_app_le by zl.
Qed.

Lemma zsub_corrupt_in i s s' off n :
  corrupt_at i s s' -> 0 <= off <= i -> i < off + n -> corrupt1 (zsub off n s) (zsub off n s').
Proof.
  intros (pre & a & b & tl & -> & -> & Hab & Hb & Hi) Ho Hn.
  exists (zdrop off pre), a, b, (ztake (n - (i - off) - 1) tl).
  assert (forall x, zsub off n (pre ++ x :: tl) = zdrop off pre ++ x :: ztake (n - (i - off) - 1) tl) as E.
  { intros x. unfold zsub. rewrite zdrop_app_le by lia. rewrite ztake_app_ge by zl. f_equal.
    unfold ztake. replace (Z.to_nat (n - zlen (zdrop off pre)))
      with (S (Z.to_nat (n - (i - off) - 1))) by zl. done. }
  by rewrite !E.
Qed.

Lemma idx_corrupt_out i s s' j : corrupt_at i s s' -> j <> i -> idx s' j = idx s j.
Proof.
  intros (pre & a & b & tl & -> & -> & _ & _ & Hi) Hj.
  destruct (decide (j < i)); [by rewrite !idx_app_lt by lia|].
  rewrite !idx_app_ge by lia. unfold idx. case_decide; [|done].
  by replace (Z.to_nat (j - zlen pre)) with (S (Z.to_nat (j - zlen pre - 1))) by lia.
Qed.

(** ** Interleaved copies

    Loops that fill several fields of a buffer in lock step: after [i] rounds a field of
    old contents [o] filled from [src] holds [filled i src o]. *)

Definition filled {A} (i : Z) (src o : list A) : list A := ztake i src ++ zdrop i o.

Lemma filled_0 {A} (src o : list A) : filled 0 src o = o.
Proof. done. Qed.
Lemma filled_all {A} n (src o : list A) : zlen src = n -> zlen o = n -> filled n src o = src.
Proof. intros. unfold filled. rewrite ztake_all, zdrop_all, app_nil_r by lia. done. Qed.
Lemma zlen_filled {A} i (src o : list A) n :
  zlen src = n -> zlen o = n -> 0 <= i <= n -> zlen (filled i src o) = n.
Proof. intros. unfold filled. zl. Qed.

Lemma upd_filled {A} (pre post src o : list A) i v off n pos :
  zlen pre = off -> zlen src = n -> zlen o = n -> 0 <= i < n -> idx src i = Val v -> pos = off + i ->
  upd (pre ++ filled i src o ++ post) pos v = Val (pre ++ filled (i + 1) src o ++ post).
Proof.
  intros Hp Hs Ho Hi Hv ->. unfold filled. rewrite <-app_assoc, app_assoc.
  rewrite upd_ok by zl. f_equal.
  assert (exists y o', zdrop i o = y :: o' /\ zdrop (i + 1) o = o') as (y & o' & E & E').
  { destruct (idx_ok o i) as [y Hy]; [lia|]. apply idx_val_inv in Hy as [_ Hy].
    exists y, (zdrop (i + 1) o). split; [|done]. unfold zdrop.
    replace (Z.to_nat (i + 1)) with (S (Z.to_nat i)) by lia. by apply drop_S. }
  rewrite E, E'. replace (ztake (i + 1) src) with (ztake i src ++ [v]).
  2:{ symmetry. apply (zsub_snoc src 0 i); [lia..|done]. }
  rewrite insert_app_r_alt by (rewrite <-(Nat2Z.id (length _)); fold (zlen (pre ++ ztake i src)); zl).
  assert ((Z.to_nat (off + i) - length (pre ++ ztake i src) = 0)%nat) as ->.
  { rewrite <-(Nat2Z.id (length _)). fold (zlen (pre ++ ztake i src)). zl. }
  cbn. by rewrite <-!app_assoc.
Qed.

(** ** Loops with an early return: both outcomes *)

Section loop_opt.
Context {S : Type} (body : Z -> S -> res (option S)) (ok : Z -> bool) (st : Z -> S).

Lemma for_up_opt_all lo hi :
  lo <= hi -> (forall i, lo <= i < hi -> body i (st i) = Val (if ok i then Some (st (i + 1)) else None)) ->
  (forall i, lo <= i < hi -> ok i = true) ->
  for_up_opt lo hi body (st lo) = Val (Some (st hi)).
Proof.
  intros Hle Hb Hok. remember (Z.to_nat (hi - lo)) as k eqn:Hk.
  revert lo Hle Hb Hok Hk. induction k as [|k IH]; intros lo Hle Hb Hok Hk.
  { rewrite for_up_opt_done by lia. by replace hi with lo by lia. }
  rewrite for_up_opt_step, Hb, bind_val, Hok by lia. apply IH; [lia | | | lia]; intros i Hi.
  - apply Hb. lia.
  - apply Hok. lia.
Qed.

Lemma for_up_opt_fail lo hi j :
  (forall i, lo <= i < hi -> body i (st i) = Val (if ok i then Some (st (i + 1)) else None)) ->
  lo <= j < hi -> ok j = false ->
  for_up_opt lo hi body (st lo) = Val None.
Proof.
  intros Hb Hj Hok. remember (Z.to_nat (hi - lo)) as k eqn:Hk.
  revert lo Hb Hj Hk. induction k as [|k IH]; intros lo Hb Hj Hk; [lia|].
  rewrite for_up_opt_step, Hb, bind_val by lia. destruct (ok lo) eqn:Hlo; [|done].
  apply IH; [|destruct (decide (lo = j)) as [->|]; [congruence | lia] | lia].
  intros i Hi. apply Hb. lia.
Qed.
End loop_opt.

(** Copy [n] elements of [src] from [soff] into [out] at [off]:
    [while i < n { out[off + i] = src[soff + i]; i += 1 }]. *)
Definition copy_span {A} (n : Z) (src : list A) (soff off : Z) (out : list A) : res (list A) :=
  for_up 0 n (fun i o => b ← idx src (soff + i); upd o (off + i) b) out.

Lemma copy_span_next {A} n (src : list A) soff off pre tl :
  zlen pre = off -> 0 <= n -> 0 <= soff -> soff + n <= zlen src -> n <= zlen tl ->
  copy_span n src soff off (pre ++ tl) = Val ((pre ++ zsub soff n src) ++ zdrop n tl).
Proof.
  intros Hpre Hn Hso Hsrc Htl. unfold copy_span.
  destruct (for_up_inv (fun i o => o = (pre ++ zsub soff i src) ++ zdrop i tl) 0 n
    (fun i o => b ← idx src (soff + i); upd o (off + i) b) (pre ++ tl)) as (o & E & ->);
    [lia | by unfold zsub; rewrite app_nil_r | | done].
  intros i o Hi ->. destruct (idx_ok src (soff + i)) as [x Hx]; [lia|]. rewrite Hx, bind_val.
  rewrite upd_next by zl. apply runs_val. rewrite zdrop_zdrop, <-app_assoc by lia.
  rewrite (zsub_snoc src soff i x) by (done || lia). by rewrite <-!app_assoc.
Qed.

(** [while z < n { out[off + z] = x; z += 1 }] *)
Definition fill_span {A} (n off : Z) (x : A) (out : list A) : res (list A) :=
  for_up 0 n (fun z o => upd o (off + z) x) out.

Lemma fill_span_next {A} n off (x : A) pre tl :
  zlen pre = off -> 0 <= n <= zlen tl ->
  fill_span n off x (pre ++ tl) = Val ((pre ++ zrepeat n x) ++ zdrop n tl).
Proof.
  intros Hpre Hn. unfold fill_span.
  destruct (for_up_inv (fun i o => o = (pre ++ zrepeat i x) ++ zdrop i tl) 0 n
    (fun z o => upd o (off + z) x) (pre ++ tl)) as (o & E & ->);
    [lia | by rewrite app_nil_r | | done].
  intros i o Hi ->. rewrite upd_next by zl. apply runs_val. rewrite zdrop_zdrop by lia.
  unfold zrepeat. replace (Z.to_nat (i + 1)) with (Datatypes.S (Z.to_nat i)) by lia.
  by rewrite replicate_S_end, <-!app_assoc.
Qed.

Lemma zdrop_idx {A} (l : list A) i x : idx l i = Val x -> zdrop i l = [x] ++ zdrop (i + 1) l.
Proof.
  intros Hx. pose proof (idx_val_inv _ _ _ Hx) as [Hi Hl]. unfold zdrop.
  replace (Z.to_nat (i + 1)) with (Datatypes.S (Z.to_nat i)) by lia. by apply drop_S.
Qed.

Lemma zsub_zsub {A} (l : list A) off n a m :
  0 <= off -> 0 <= a -> off + n <= m -> zsub off n (zsub a m l) = zsub (a + off) n l.
Proof.
  intros Ho Ha Hn. unfold zsub, ztake, zdrop. rewrite skipn_firstn_comm, drop_drop, take_take.
  f_equal; [lia|]. f_equal. lia.
Qed.

Lemma idx_zsub {A} (l : list A) a m i :
  0 <= a -> 0 <= i < m -> a + m <= zlen l -> idx (zsub a m l) i = idx l (a + i).
Proof.
  intros Ha Hi Hm. unfold idx. rewrite !decide_True by lia. unfold zsub, ztake, zdrop.
  rewrite lookup_take_lt, lookup_drop by lia.
  by replace (Z.to_nat a + Z.to_nat i)%nat with (Z.to_nat (a + i)) by lia.
Qed.

(** ** Checked arithmetic *)

Lemma add_u_ok w a b : a + b < 2 ^ w -> add_u w a b = Val (a + b).
Proof. intros. unfold add_u. by rewrite decide_True. Qed.
Lemma mul_u_ok w a b : a * b < 2 ^ w -> mul_u w a b = Val (a * b).
Proof. intros. unfold mul_u. by rewrite decide_True. Qed.
Lemma sub_u_ok a b : b <= a -> sub_u a b = Val (a - b).
Proof. intros. unfold sub_u. by rewrite decide_True. Qed.

(** ** Searches

    [while i < n { if p(i) { return true; } i += 1; } false] *)

Fixpoint any_nat (k : nat) (i : Z) (body : Z -> res bool) : res bool :=
  match k with
  | O => Val false
  | S k' => b ← body i; if (b : bool) then Val true else any_nat k' (i + 1) body
  end.
Definition any_up (n : Z) (body : Z -> res bool) : res bool := any_nat (Z.to_nat n) 0 body.

Lemma any_nat_existsb {A} (p : A -> bool) (l : list A) pre tl :
  any_nat (length l) (zlen pre) (fun i => x ← idx (pre ++ l ++ tl) i; Val (p x)) = Val (existsb p l).
Proof.
  revert pre. induction l as [|x l IH]; intros pre; [done|]. cbn [length any_nat existsb].
  change ((x :: l) ++ tl) with (x :: (l ++ tl)). rewrite idx_middle, !bind_val.
  destruct (p x); [done|]. specialize (IH (pre ++ [x])).
  rewrite <-app_assoc in IH. cbn [app] in IH. rewrite zlen_app in IH. exact IH.
Qed.

(** A search through the first [n] elements of an array. *)
Lemma any_up_existsb {A} (p : A -> bool) (l : list A) n : 0 <= n <= zlen l ->
  any_up n (fun i => x ← idx l i; Val (p x)) = Val (existsb p (ztake n l)).
Proof.
  intros Hn. unfold any_up. pose proof (any_nat_existsb p (ztake n l) ([] : list A) (zdrop n l)) as H.
  cbn [app] in H. rewrite ztake_zdrop in H. rewrite <-H. f_equal.
  apply Nat2Z.inj. rewrite Z2Nat.id by lia. symmetry. change (zlen (ztake n l) = n). zl.
Qed.

(** A loop over the first [n] elements of an array is the fold of them. *)
Lemma for_up_fold_take {A S} (f : S -> A -> res S) (l : list A) n s : 0 <= n <= zlen l ->
  for_up 0 n (fun i s => x ← idx l i; f s x) s = fold_res f s (ztake n l).
Proof.
  intros Hn. rewrite <-for_up_fold_res. replace (zlen (ztake n l)) with n by zl.
  apply for_up_ext. intros i s' Hi. f_equal. rewrite <-(ztake_zdrop n l) at 1.
  apply idx_app_lt. zl.
Qed.

(** Clearing the low [k] bits of a 64-bit word. *)
Lemma land_not_low k x : 0 <= k <= 64 -> is_u64 x ->
  Z.land x (bit_not 64 (2 ^ k - 1)) = 2 ^ k * (x / 2 ^ k).
Proof.
  intros Hk Hx.
  assert (bit_not 64 (2 ^ k - 1) = Z.ldiff (Z.ones 64) (Z.ones k)) as ->.
  { unfold bit_not, u_max.
    replace (2 ^ 64 - 1 - (2 ^ k - 1)) with (Z.ones 64 - Z.ones k) by (rewrite !Z.ones_equiv; lia).
    apply Z.sub_nocarry_ldiff. apply Z.bits_inj'. intros i Hi.
    rewrite Z.ldiff_spec, Z.bits_0, !Z.testbit_ones_nonneg by lia. lia. }
  assert (Z.land x (Z.ldiff (Z.ones 64) (Z.ones k)) = Z.ldiff x (Z.ones k)) as ->.
  { rewrite !Z.ldiff_land, Z.land_assoc. f_equal. rewrite Z.land_ones by lia. by apply Z.mod_small. }
  rewrite Z.ldiff_ones_r, Z.shiftl_mul_pow2, Z.shiftr_div_pow2 by lia. lia.
Qed.

