(* ===== verification/Caps.v ===== *)
(** * Capability core: [crates/tb-caps-core/src/rights.rs] and [table.rs]. *)
From Stdlib Require Import ZArith Lia.
From stdpp Require Import base numbers option tactics sets list.
From S2P Require Import Prelude.
Open Scope Z_scope.

(** ** Rights: a 32-bit set *)

Module Rights.
Definition NONE : Z := 0.
Definition READ : Z := Z.shiftl 1 0.
Definition WRITE : Z := Z.shiftl 1 1.
Definition TRANSFER : Z := Z.shiftl 1 2.
Definition DUP : Z := Z.shiftl 1 3.
Definition REVOKE : Z := Z.shiftl 1 4.
Definition INVOKE_MODEL : Z := Z.shiftl 1 5.
Definition SPAWN_AGENT : Z := Z.shiftl 1 6.
Definition WRITE_PROCEDURAL : Z := Z.shiftl 1 7.
Definition RECALL : Z := Z.shiftl 1 8.
Definition CONSOLIDATE : Z := Z.shiftl 1 9.
Definition EMIT_EXTERNAL : Z := Z.shiftl 1 10.
Definition DELEGATE_BUDGET : Z := Z.shiftl 1 11.
Definition APPROVE_HIGH_IMPACT : Z := Z.shiftl 1 12.

Definition union (self other : Z) : Z := Z.lor self other.
Definition intersect (self mask : Z) : Z := Z.land self mask.
Definition contains (self need : Z) : bool := Z.land self need =? need.
Definition is_subset_of (self sup : Z) : bool := Z.land self sup =? self.
End Rights.

(** ** Handles: [(generation << 32) | slot] *)

Module Handle.
Definition SLOT_BITS : Z := 32.
Definition NULL : Z := 0.
Definition new (generation slot : Z) : Z :=
  Z.lor (wrap 64 (Z.shiftl generation SLOT_BITS)) slot.
Definition generation (self : Z) : Z := wrap 32 (Z.shiftr self SLOT_BITS).
Definition slot (self : Z) : Z := wrap 32 self.
End Handle.

Inductive SysStatus :=
| Ok | BadCap | BadMethod | Denied | Stale | WouldBlock | NoMem | ObjFull | PeerClosed | Fault.

#[global] Instance SysStatus_eq_dec : EqDecision SysStatus.
Proof. solve_decision. Defined.

(** ** The table *)

Record SlotCore (O : Type) := mkSlot {
  generation : Z;
  rights : Z;
  object : option O;
}.
Arguments mkSlot {O}.
Arguments generation {O}.
Arguments rights {O}.
Arguments object {O}.

Record CapTable (O : Type) := mkTable {
  slots : list (SlotCore O);
  free : list Z;
  cap : Z;
}.
Arguments mkTable {O}.
Arguments slots {O}.
Arguments free {O}.
Arguments cap {O}.

(** [Vec::pop]: the last element and the rest. *)
Definition pop {A} (l : list A) : option (A * list A) :=
  match reverse l with
  | [] => None
  | x :: r => Some (x, reverse r)
  end.

Section table.
Context {O : Type}.
Implicit Types (t : CapTable O) (h : Z) (o : O).

Definition with_capacity (c : Z) : CapTable O := mkTable [] [] c.

Definition live t h : Z + SysStatus :=
  let i := Handle.slot h in
  match slots t !! Z.to_nat i with
  | None => inr BadCap
  | Some s =>
      match object s with
      | None => inr Stale
      | Some _ =>
          if decide (generation s = Handle.generation h) then inl i else inr Stale
      end
  end.

Definition alloc t (r : Z) o : res (option Z * CapTable O) :=
  match pop (free t) with
  | Some (i, free') =>
      s ← idx (slots t) i;
      slots' ← upd (slots t) i (mkSlot (generation s) r (Some o));
      Val (Some (Handle.new (generation s) i), mkTable slots' free' (cap t))
  | None =>
      if decide (zlen (slots t) >= cap t) then Val (None, t)
      else
        let i := wrap 32 (zlen (slots t)) in
        Val (Some (Handle.new 1 i),
             mkTable (slots t ++ [mkSlot 1 r (Some o)]) (free t) (cap t))
  end.

Definition free_slot t (i : Z) : res (CapTable O) :=
  s ← idx (slots t) i;
  match checked_add 32 (generation s) 1 with
  | Some g =>
      slots' ← upd (slots t) i (mkSlot g (rights s) None);
      Val (mkTable slots' (free t ++ [wrap 32 i]) (cap t))
  | None =>
      slots' ← upd (slots t) i (mkSlot (generation s) (rights s) None);
      Val (mkTable slots' (free t) (cap t))
  end.

Definition rights_of t h : res (option Z) :=
  match live t h with
  | inl i => s ← idx (slots t) i; Val (Some (rights s))
  | inr _ => Val None
  end.

Definition attach t (parked : O * Z) : res (option Z * CapTable O) :=
  alloc t (snd parked) (fst parked).

Definition revoke t h : res (SysStatus * CapTable O) :=
  match live t h with
  | inl i => t' ← free_slot t i; Val (Ok, t')
  | inr e => Val (e, t)
  end.

Definition rights_at t (i : Z) : res Z := s ← idx (slots t) i; Val (rights s).
Definition object_at t (i : Z) : res (option O) := s ← idx (slots t) i; Val (object s).

Definition dup t h : res (option Z * CapTable O) :=
  match live t h with
  | inr _ => Val (None, t)
  | inl i =>
      r ← rights_at t i;
      ob ← object_at t i;
      match ob with
      | None => Val (None, t)
      | Some o => alloc t r o
      end
  end.

Definition narrow t h (mask : Z) : res (option Z * CapTable O) :=
  match live t h with
  | inr _ => Val (None, t)
  | inl i =>
      r ← rights_at t i;
      ob ← object_at t i;
      match ob with
      | None => Val (None, t)
      | Some o => alloc t (Rights.intersect r mask) o
      end
  end.

(** Both tables are threaded: [(moved handle, self, dst)]. *)
Definition transfer_to t h (dst : CapTable O) : res (option Z * CapTable O * CapTable O) :=
  match live t h with
  | inr _ => Val (None, t, dst)
  | inl i =>
      r ← rights_at t i;
      ob ← object_at t i;
      match ob with
      | None => Val (None, t, dst)
      | Some o =>
          '(moved, dst') ← attach dst (o, r);
          match moved with
          | None => Val (None, t, dst')
          | Some m => t' ← free_slot t i; Val (Some m, t', dst')
          end
      end
  end.

Definition detach t h : res (((O * Z) + SysStatus) * CapTable O) :=
  match live t h with
  | inr e => Val (inr e, t)
  | inl i =>
      r ← rights_at t i;
      ob ← object_at t i;
      match ob with
      | None => Val (inr Stale, t)
      | Some o => t' ← free_slot t i; Val (inl (o, r), t')
      end
  end.
End table.

(** ** Histories: the operations a client may issue on one table *)

Inductive op (O : Type) :=
| OpAlloc (r : Z) (o : O)
| OpAttach (parked : O * Z)
| OpDup (h : Z)
| OpNarrow (h mask : Z)
| OpRevoke (h : Z)
| OpDetach (h : Z)
| OpTransfer (h : Z) (dst : CapTable O).
Arguments OpAlloc {O}.
Arguments OpAttach {O}.
Arguments OpDup {O}.
Arguments OpNarrow {O}.
Arguments OpRevoke {O}.
Arguments OpDetach {O}.
Arguments OpTransfer {O}.

Section histories.
Context {O : Type}.
Implicit Types (t : CapTable O).

Definition exec (c : op O) t : res (CapTable O) :=
  match c with
  | OpAlloc r o => '(_, t') ← alloc t r o; Val t'
  | OpAttach p => '(_, t') ← attach t p; Val t'
  | OpDup h => '(_, t') ← dup t h; Val t'
  | OpNarrow h m => '(_, t') ← narrow t h m; Val t'
  | OpRevoke h => '(_, t') ← revoke t h; Val t'
  | OpDetach h => '(_, t') ← detach t h; Val t'
  | OpTransfer h dst => '(_, t', _) ← transfer_to t h dst; Val t'
  end.

Fixpoint run (cs : list (op O)) t : res (CapTable O) :=
  match cs with
  | [] => Val t
  | c :: cs' => t' ← exec c t; run cs' t'
  end.

(** ** Specification: the authority a handle carries *)

(** The object and rights handle [h] resolves to, read off the slot it names. *)
Definition cap_of t (h : Z) : option (O * Z) :=
  s ← slots t !! Z.to_nat (Handle.slot h);
  if decide (generation s = Handle.generation h)
  then o ← object s; Some (o, rights s) else None.

(** A slot holds a live capability, or is on the free list, or is retired. *)
Record wf t : Prop := {
  wf_gen : Forall (fun s => 1 <= generation s <= u_max 32) (slots t);
  wf_free : forall i, i ∈ free t ->
    0 <= i /\ exists s, slots t !! Z.to_nat i = Some s /\ object s = None;
  wf_nodup : NoDup (free t);
  wf_cap : zlen (slots t) <= cap t <= 2 ^ 32;
  wf_vacant : forall i s, 0 <= i -> slots t !! Z.to_nat i = Some s -> object s = None ->
    i ∈ free t \/ generation s = u_max 32;
}.

Definition full t : Prop := free t = [] /\ zlen (slots t) = cap t.

(** [h] was issued by [t] and its authority has been given up. *)
Definition spent t (h : Z) : Prop :=
  exists s, slots t !! Z.to_nat (Handle.slot h) = Some s /\
    (Handle.generation h < generation s \/
     Handle.generation h = generation s /\ object s = None /\ Handle.slot h ∉ free t).

(** Ops that only derive or give up authority, the ones an agent may issue itself. *)
Definition derives (c : op O) : Prop :=
  match c with OpAlloc _ _ | OpAttach _ => False | _ => True end.
(** The tables an op writes besides its own, and the raw values it is given, are sane. *)
Definition op_ok (c : op O) : Prop :=
  match c with
  | OpAlloc r _ | OpAttach (_, r) | OpNarrow _ r => is_u32 r
  | OpTransfer _ dst => wf dst
  | _ => True
  end.
End histories.

#[global] Arguments Handle.new : simpl never.
#[global] Arguments Handle.generation : simpl never.
#[global] Arguments Handle.slot : simpl never.

(** ** Lemmas *)

Lemma slot_u32 h : is_u32 (Handle.slot h).
Proof. by apply wrap_in_u. Qed.
Lemma generation_u32 h : is_u32 (Handle.generation h).
Proof. by apply wrap_in_u. Qed.

Lemma handle_new_val g s : is_u32 g -> is_u32 s -> Handle.new g s = g * 2 ^ 32 + s.
Proof.
  intros Hg Hs. unfold Handle.new, Handle.SLOT_BITS.
  rewrite wrap_small; [by apply lor_shiftl_low|].
  rewrite Z.shiftl_mul_pow2 by done. unfold in_u in *. lia.
Qed.

Lemma handle_new_u64 g s : is_u32 g -> is_u32 s -> is_u64 (Handle.new g s).
Proof. intros. rewrite handle_new_val by done. unfold in_u in *. lia. Qed.

Lemma handle_new_fields g s :
  is_u32 g -> is_u32 s ->
  Handle.generation (Handle.new g s) = g /\ Handle.slot (Handle.new g s) = s.
Proof.
  intros Hg Hs. rewrite handle_new_val by done.
  unfold Handle.generation, Handle.slot, Handle.SLOT_BITS, wrap, in_u in *.
  rewrite Z.shiftr_div_pow2 by done. split.
  - rewrite Z.div_add_l, Z.div_small, Z.add_0_r, Z.mod_small by lia. done.
  - rewrite Z.add_comm, Z.mod_add, Z.mod_small by lia. done.
Qed.

Lemma handle_eta h : is_u64 h -> h = Handle.new (Handle.generation h) (Handle.slot h).
Proof.
  intros Hh. rewrite handle_new_val by (apply generation_u32 || apply slot_u32).
  unfold Handle.generation, Handle.slot, Handle.SLOT_BITS, wrap, in_u in *.
  rewrite Z.shiftr_div_pow2 by done.
  rewrite (Z.mod_small (h / 2 ^ 32)).
  - pose proof (Z.div_mod h (2 ^ 32)). lia.
  - split; [apply Z.div_pos; lia | apply Z.div_lt_upper_bound; lia].
Qed.

Lemma pop_snoc {A} (l : list A) x : pop (l ++ [x]) = Some (x, l).
Proof. unfold pop. by rewrite reverse_snoc, reverse_involutive. Qed.
Lemma pop_cases {A} (l : list A) : l = [] \/ exists l' x, l = l' ++ [x].
Proof. induction l as [|x l _] using rev_ind; eauto. Qed.

Section caps.
Context {O : Type}.
Implicit Types (t dst : CapTable O) (h : Z) (o : O).

Lemma live_cap_of t h :
  match cap_of t h with
  | Some _ => live t h = inl (Handle.slot h)
  | None => live t h = inr (if decide (Handle.slot h < zlen (slots t)) then Stale else BadCap)
  end.
Proof.
  unfold cap_of, live. pose proof (slot_u32 h) as Hs. unfold in_u in Hs.
  destruct (slots t !! _) as [s|] eqn:E; simpl.
  - apply lookup_lt_Some in E. destruct (object s); simpl; repeat case_decide; simpl;
      try done; unfold zlen in *; lia.
  - apply lookup_ge_None in E. rewrite decide_False; [done | unfold zlen; lia].
Qed.

Lemma cap_of_lookup t h s :
  slots t !! Z.to_nat (Handle.slot h) = Some s ->
  cap_of t h = if decide (generation s = Handle.generation h)
               then match object s with Some o => Some (o, rights s) | None => None end
               else None.
Proof. unfold cap_of. intros ->. cbn. by destruct (object s). Qed.

Lemma cap_of_slot t h o r :
  cap_of t h = Some (o, r) ->
  slots t !! Z.to_nat (Handle.slot h) = Some (mkSlot (Handle.generation h) r (Some o)).
Proof.
  unfold cap_of. destruct (slots t !! _) as [[g r' [o'|]]|]; simpl; try case_decide; simpl;
    intros; by simplify_eq.
Qed.

Lemma cap_of_insert_ne t slots' free' c i s h :
  slots' = <[Z.to_nat i := s]> (slots t) -> 0 <= i -> Handle.slot h <> i ->
  cap_of (mkTable slots' free' c) h = cap_of t h.
Proof.
  intros -> Hi Hne. unfold cap_of. simpl.
  rewrite list_lookup_insert_ne; [done|]. pose proof (slot_u32 h). unfold in_u in *. lia.
Qed.

(** *** The three primitive transitions *)

Lemma wf_reuse t free' i s r o :
  wf t -> free t = free' ++ [i] -> slots t !! Z.to_nat i = Some s ->
  wf (mkTable (<[Z.to_nat i := mkSlot (generation s) r (Some o)]> (slots t)) free' (cap t)).
Proof.
  intros [Hg Hf Hn Hc Hv] Hfree Hs. rewrite Hfree in *.
  apply NoDup_app in Hn as (Hn & Hdisj & _).
  split; simpl; [| | done | by zl |].
  - apply Forall_insert; [done|]. exact (Forall_lookup_1 _ _ _ _ Hg Hs).
  - intros j Hj. destruct (Hf j) as (? & s' & Hs' & ?); [set_solver|].
    destruct (Hf i) as (? & _); [set_solver|].
    split; [done|]. exists s'. rewrite list_lookup_insert_ne; [done|].
    intros ?. assert (i = j) as -> by lia. apply (Hdisj j Hj). set_solver.
  - intros j s' Hj. rewrite list_lookup_insert. case_decide as Hij; [by intros; simplify_eq|].
    intros Hs' Ho. destruct (Hv j s' Hj Hs' Ho) as [Hin|]; [|by right].
    left. apply elem_of_app in Hin as [|Hin]; [done|].
    apply list_elem_of_singleton in Hin as ->. exfalso. apply Hij.
    split; [done|]. by eapply lookup_lt_Some.
Qed.

Lemma wf_push t r o :
  wf t -> zlen (slots t) < cap t ->
  wf (mkTable (slots t ++ [mkSlot 1 r (Some o)]) (free t) (cap t)).
Proof.
  intros [Hg Hf Hn Hc Hv] Hlt. split; simpl; [| | done | by zl |].
  - apply Forall_app. split; [done|]. apply Forall_singleton. simpl. unfold u_max. lia.
  - intros j Hj. destruct (Hf j Hj) as (? & s' & Hs' & ?). split; [done|].
    exists s'. by rewrite (lookup_app_l_Some _ _ _ _ Hs').
  - intros j s Hj. rewrite lookup_app_Some. intros [?|[? Hs]]; [by apply Hv|].
    apply list_lookup_singleton_Some in Hs as [_ <-]. done.
Qed.

Lemma wf_free_slot t i s :
  wf t -> 0 <= i -> slots t !! Z.to_nat i = Some s -> is_Some (object s) ->
  exists t', free_slot t i = Val t' /\ wf t' /\
    slots t' = <[Z.to_nat i := mkSlot (Z.min (generation s + 1) (u_max 32)) (rights s) None]> (slots t) /\
    free t' = (if decide (generation s < u_max 32) then free t ++ [i] else free t) /\
    cap t' = cap t.
Proof.
  intros [Hg Hf Hn Hc Hv] Hi Hs [o Ho].
  pose proof (Forall_lookup_1 _ _ _ _ Hg Hs) as Hgs. simpl in Hgs.
  pose proof (lookup_lt_Some _ _ _ Hs) as Hlt.
  assert (is_u32 i) by (unfold in_u, zlen in *; lia).
  assert (i ∉ free t) as Hni.
  { intros Hin. destruct (Hf i Hin) as (_ & s' & Hs' & ?). by simplify_eq. }
  unfold free_slot. rewrite (idx_Some _ _ _ Hi Hs). simpl. unfold checked_add.
  case_decide as Hmax; simpl; rewrite upd_ok by (unfold zlen in *; lia); simpl;
    eexists; (split; [done|]); simpl.
  - rewrite decide_True, Z.min_l, wrap_small by (done || lia). split; [|done].
    split; simpl; [| | | by zl |].
    + apply Forall_insert; [done|]. simpl. lia.
    + intros j [Hj| ->%list_elem_of_singleton]%elem_of_app.
      * destruct (Hf j Hj) as (? & s' & Hs' & ?). split; [done|]. exists s'.
        rewrite list_lookup_insert_ne; [done|]. intros ?.
        by assert (i = j) as -> by lia.
      * split; [done|]. eexists. by rewrite list_lookup_insert_eq.
    + apply NoDup_app. split; [done|]. split; [set_solver|]. apply NoDup_singleton.
    + intros j s' Hj. rewrite list_lookup_insert. case_decide as Hij.
      * intros. left. apply elem_of_app. right. apply list_elem_of_singleton. lia.
      * intros Hs' Ho'. destruct (Hv j s' Hj Hs' Ho'); [left|by right]. set_solver.
  - rewrite decide_False by lia. assert (generation s = u_max 32) as Hgm by lia.
    rewrite Hgm, Z.min_r by lia. split; [|done].
    split; simpl; [| | done | by zl |].
    + apply Forall_insert; [done|]. simpl. lia.
    + intros j Hj. destruct (Hf j Hj) as (? & s' & Hs' & ?). split; [done|]. exists s'.
      rewrite list_lookup_insert_ne; [done|]. intros ?. by assert (i = j) as -> by lia.
    + intros j s' Hj. rewrite list_lookup_insert. case_decide as Hij.
      * intros. right. by simplify_eq/=.
      * intros Hs' Ho'. by apply Hv.
Qed.

Lemma wf_len_u32 t i s : wf t -> 0 <= i -> slots t !! Z.to_nat i = Some s -> is_u32 i.
Proof.
  intros Hwf ? Hs. pose proof (wf_cap t Hwf). apply lookup_lt_Some in Hs.
  unfold in_u, zlen in *. lia.
Qed.

Lemma wf_gen_u32 t i s :
  wf t -> slots t !! i = Some s -> is_u32 (generation s) /\ 1 <= generation s.
Proof.
  intros Hwf Hs. pose proof (Forall_lookup_1 _ _ _ _ (wf_gen t Hwf) Hs) as H.
  unfold in_u, u_max in *. simpl in H. lia.
Qed.

(** The authority after one slot took a new content. *)
Lemma cap_of_alloc t slots' free' g i r o h' :
  is_u64 h' -> is_u32 i -> is_u32 g ->
  slots' !! Z.to_nat i = Some (mkSlot g r (Some o)) ->
  (forall j, j <> Z.to_nat i -> slots' !! j = slots t !! j) ->
  (forall s, slots t !! Z.to_nat i = Some s -> object s = None) ->
  cap_of (mkTable slots' free' (cap t)) h' =
    if decide (h' = Handle.new g i) then Some (o, r) else cap_of t h'.
Proof.
  intros Hh Hi Hg Hnew Hother Hold. destruct (handle_new_fields g i Hg Hi) as [Eg Ei].
  unfold cap_of. simpl. destruct (decide (Handle.slot h' = i)) as [Hs|Hs].
  - rewrite Hs, Hnew. simpl. destruct (decide (g = Handle.generation h')) as [Hgg|Hgg].
    + rewrite decide_True; [done|]. rewrite (handle_eta h' Hh). congruence.
    + rewrite decide_False by congruence. destruct (slots t !! _) as [s|] eqn:E; [|done].
      simpl. rewrite (Hold s eq_refl). by case_decide.
  - rewrite decide_False by congruence. rewrite Hother; [done|].
    pose proof (slot_u32 h'). unfold in_u in *. lia.
Qed.

Lemma alloc_spec t r o :
  wf t ->
  (full t /\ alloc t r o = Val (None, t)) \/
  (~ full t /\ exists h t',
     alloc t r o = Val (Some h, t') /\ wf t' /\ cap t' = cap t /\
     is_u64 h /\ h <> Handle.NULL /\ ~ spent t h /\ cap_of t h = None /\
     slots t' !! Z.to_nat (Handle.slot h) = Some (mkSlot (Handle.generation h) r (Some o)) /\
     (forall j, j <> Z.to_nat (Handle.slot h) -> slots t' !! j = slots t !! j) /\
     (forall i, i ∈ free t' <-> i ∈ free t /\ i <> Handle.slot h) /\
     (forall s, slots t !! Z.to_nat (Handle.slot h) = Some s ->
        object s = None /\ generation s = Handle.generation h)).
Proof.
  intros Hwf. unfold alloc. destruct (pop_cases (free t)) as [Hf|(free' & i & Hf)].
  - rewrite Hf. cbn. pose proof (wf_cap t Hwf) as Hc. case_decide as Hfull.
    { left. split; [split; [done | lia] | done]. }
    right. split; [intros [_ ?]; lia|].
    pose proof (zlen_nonneg (slots t)).
    rewrite wrap_small by (unfold in_u; lia).
    assert (is_u32 (zlen (slots t))) as Hi by (unfold in_u; lia).
    assert (is_u32 1) as H1 by (unfold in_u; lia).
    destruct (handle_new_fields 1 _ H1 Hi) as [Eg Ei].
    assert (slots t !! Z.to_nat (zlen (slots t)) = None) as Hnone.
    { apply lookup_ge_None. unfold zlen. lia. }
    exists (Handle.new 1 (zlen (slots t))). eexists. rewrite Eg, Ei.
    split; [done|]. split; [pose proof (wf_push t r o Hwf) as Hp; rewrite Hf in Hp; apply Hp; lia|]. split; [done|].
    split; [by apply handle_new_u64|].
    split; [rewrite handle_new_val by done; unfold Handle.NULL; lia|].
    unfold spent, cap_of. rewrite Ei, Hnone. split; [naive_solver|]. split; [done|]. simpl.
    split. { unfold zlen. rewrite Nat2Z.id. by apply list_lookup_middle. }
    split; [|split; [set_solver | done]].
    intros j Hj. destruct (decide (j < length (slots t))%nat).
    { by apply lookup_app_l. }
    rewrite !lookup_ge_None_2; [done | lia | rewrite length_app; simpl; unfold zlen in *; lia].
  - rewrite Hf, pop_snoc. right.
    destruct (wf_free t Hwf i) as (Hi & s & Hs & Ho). { rewrite Hf. set_solver. }
    split; [intros [Hn _]; rewrite Hn in Hf; by destruct free'|].
    pose proof (wf_len_u32 _ _ _ Hwf Hi Hs) as Hi32.
    destruct (wf_gen_u32 _ _ _ Hwf Hs) as [Hg32 Hg1].
    rewrite (idx_Some _ _ _ Hi Hs). cbn.
    pose proof (lookup_lt_Some _ _ _ Hs) as Hlt.
    rewrite upd_ok by (unfold zlen; lia). cbn.
    destruct (handle_new_fields _ _ Hg32 Hi32) as [Eg Ei].
    exists (Handle.new (generation s) i). eexists. rewrite Eg, Ei.
    split; [done|]. split; [by eapply wf_reuse|]. split; [done|].
    split; [by apply handle_new_u64|].
    split; [rewrite handle_new_val by done; unfold Handle.NULL, in_u in *; lia|].
    unfold spent, cap_of. rewrite Ei, Eg, Hs. split.
    { intros (s' & [= <-] & [?|(_ & _ & Hni)]); [lia|]. apply Hni. rewrite Hf. set_solver. }
    split; [cbn; rewrite Ho; by case_decide|]. cbn.
    split; [by apply list_lookup_insert_eq|].
    split; [intros j Hj; by apply list_lookup_insert_ne|].
    split; [|intros s' [= <-]; done].
    intros j. pose proof (wf_nodup t Hwf) as Hnd. rewrite Hf in Hnd.
    apply NoDup_app in Hnd as (_ & Hd & _). rewrite elem_of_app, list_elem_of_singleton.
    split; [intros Hj; split; [by left | intros ->; apply (Hd i Hj); set_solver]|].
    intros [[?|?] ?]; done.
Qed.

(** *** What every transition of a table preserves *)

(** Authority is kept or spent, and what is spent stays spent. *)
Record evolves t t' : Prop := {
  ev_wf : wf t';
  ev_cap : cap t' = cap t;
  ev_spent : forall h, spent t h -> spent t' h;
  ev_keep : forall h c, cap_of t h = Some c -> cap_of t' h = Some c \/ spent t' h;
}.

Lemma evolves_refl t : wf t -> evolves t t.
Proof. split; auto. Qed.

Lemma evolves_trans t1 t2 t3 : evolves t1 t2 -> evolves t2 t3 -> evolves t1 t3.
Proof.
  intros [] []. split; [done | congruence | auto |].
  intros h c Hc. destruct (ev_keep0 h c Hc); auto.
Qed.

Lemma spent_no_cap t h : spent t h -> cap_of t h = None.
Proof.
  unfold cap_of. intros (s & -> & Hs). simpl. case_decide; [|done].
  destruct Hs as [?|(_ & -> & _)]; [lia | done].
Qed.

Lemma alloc_evolves t r o :
  wf t -> exists ret t', alloc t r o = Val (ret, t') /\ evolves t t' /\
    match ret with
    | None => full t /\ t' = t
    | Some h =>
        ~ full t /\ is_u64 h /\ h <> Handle.NULL /\ ~ spent t h /\ cap_of t h = None /\
        forall h', is_u64 h' ->
          cap_of t' h' = if decide (h' = h) then Some (o, r) else cap_of t h'
    end.
Proof.
  intros Hwf. destruct (alloc_spec t r o Hwf) as
    [[Hfull E]|(Hnf & h & t' & E & Hwf' & Hcap & Hh & Hnull & Hns & Hnc & Hnew & Hother & Hfree & Hold)].
  { exists None, t. split; [done|]. split; [by apply evolves_refl | done]. }
  exists (Some h), t'. split; [done|].
  assert (forall h', is_u64 h' ->
    cap_of t' h' = if decide (h' = h) then Some (o, r) else cap_of t h') as Hmap.
  { intros h' Hh'. destruct t' as [sl' fr' c']. simpl in *. rewrite Hcap.
    transitivity (if decide (h' = Handle.new (Handle.generation h) (Handle.slot h))
      then Some (o, r) else cap_of t h'); [|by rewrite <-(handle_eta h Hh)].
    apply cap_of_alloc; [done | | | done | done |].
    - apply slot_u32.
    - apply generation_u32.
    - intros s Hs. by apply Hold. }
  assert (forall h', Handle.slot h' <> Handle.slot h ->
    slots t' !! Z.to_nat (Handle.slot h') = slots t !! Z.to_nat (Handle.slot h')) as Hne.
  { intros h' ?. apply Hother. pose proof (slot_u32 h). pose proof (slot_u32 h').
    unfold in_u in *. lia. }
  split; [|done]. split; [done | done | |].
  - intros h' (s & Hs & Hd). destruct (decide (Handle.slot h' = Handle.slot h)) as [Es|Es].
    + destruct (Hold s) as [Ho Hg]; [by rewrite <-Es|].
      eexists. rewrite Es. split; [done|]. simpl. left.
      destruct Hd as [?|(Eg & _ & Hni)]; [lia|]. exfalso. apply Hns.
      exists s. rewrite <-Es. split; [done|]. right. split; [done|]. by split.
    + exists s. rewrite Hne by done. split; [done|].
      destruct Hd as [?|(Eg & Ho & Hni)]; [by left|right]. split; [done|].
      split; [done|]. rewrite Hfree. tauto.
  - intros h' c Hc. left. unfold cap_of in *.
    destruct (decide (Handle.slot h' = Handle.slot h)) as [Es|Es]; [|by rewrite Hne].
    destruct (slots t !! Z.to_nat (Handle.slot h')) as [s|] eqn:Hs; [|done].
    destruct (Hold s) as [Ho _]; [by rewrite <-Es|]. simpl in Hc. rewrite Ho in Hc.
    by case_decide.
Qed.

Lemma free_evolves t h o r :
  wf t -> is_u64 h -> cap_of t h = Some (o, r) ->
  exists t', free_slot t (Handle.slot h) = Val t' /\ evolves t t' /\ spent t' h /\
    forall h', is_u64 h' -> cap_of t' h' = if decide (h' = h) then None else cap_of t h'.
Proof.
  intros Hwf Hh Hc. pose proof (cap_of_slot _ _ _ _ Hc) as Hs.
  pose proof (slot_u32 h) as Hi.
  destruct (wf_free_slot t (Handle.slot h) _ Hwf (proj1 Hi) Hs)
    as (t' & E & Hwf' & Hsl & Hfr & Hcap); [exists o; reflexivity|].
  cbn [generation rights object] in *.
  destruct (wf_gen_u32 _ _ _ Hwf Hs) as [Hg32 Hg1]. simpl in Hg32, Hg1.
  pose proof (lookup_lt_Some _ _ _ Hs) as Hlt.
  assert (Handle.slot h ∉ free t) as Hnf.
  { intros Hin. destruct (wf_free t Hwf _ Hin) as (_ & s' & Hs' & ?). rewrite Hs in Hs'. by injection Hs' as <-. }
  assert (forall h', Handle.slot h' <> Handle.slot h ->
    slots t' !! Z.to_nat (Handle.slot h') = slots t !! Z.to_nat (Handle.slot h')) as Hne.
  { intros h' ?. rewrite Hsl. apply list_lookup_insert_ne. pose proof (slot_u32 h').
    unfold in_u in *. lia. }
  assert (slots t' !! Z.to_nat (Handle.slot h) =
    Some (mkSlot (Z.min (Handle.generation h + 1) (u_max 32)) r None)) as Hs'.
  { rewrite Hsl. by apply list_lookup_insert_eq. }
  assert (spent t' h) as Hsp.
  { eexists. split; [exact Hs'|]. simpl. unfold in_u, u_max in *. rewrite Hfr.
    case_decide; [left; lia | right]. split; [lia | done]. }
  exists t'. split; [done|]. split; [|split; [done|]].
  - split; [done | done | |].
    + intros h' (s & Hsh & Hd). destruct (decide (Handle.slot h' = Handle.slot h)) as [Es|Es].
      * unfold spent. rewrite Es in Hsh |- *. rewrite Hs in Hsh. injection Hsh as <-.
        eexists. split; [exact Hs'|]. cbn [generation object] in *.
        destruct Hd as [?|(_ & ? & _)]; [|done]. left. unfold in_u, u_max in *. lia.
      * exists s. rewrite Hne by done. split; [done|].
        destruct Hd as [?|(Eg & Ho & Hni)]; [by left|right]. split; [done|].
        split; [done|]. rewrite Hfr. case_decide; [|done].
        rewrite elem_of_app, list_elem_of_singleton. tauto.
    + intros h' c Hc'. destruct (decide (Handle.slot h' = Handle.slot h)) as [Es|Es].
      * right. destruct c as [o' r']. pose proof (cap_of_slot _ _ _ _ Hc') as Hs2.
        rewrite Es, Hs in Hs2. injection Hs2 as Eg _ _. unfold spent. rewrite Es, <-Eg.
        exact Hsp.
      * left. unfold cap_of in *. by rewrite Hne.
  - intros h' Hh'. destruct (decide (h' = h)) as [->|Hd]; [by apply spent_no_cap|].
    destruct (decide (Handle.slot h' = Handle.slot h)) as [Es|Es].
    + rewrite <-Es in Hs, Hs'. rewrite (cap_of_lookup _ _ _ Hs), (cap_of_lookup _ _ _ Hs').
      cbn [generation object]. rewrite (decide_False (P := Handle.generation h = _)).
      { by destruct (decide (Z.min _ _ = _)). }
      intros Eg. apply Hd. rewrite (handle_eta h Hh), (handle_eta h' Hh'). congruence.
    + unfold cap_of. by rewrite Hne.
Qed.

(** *** Operations *)

Lemma rights_object_at t h o r :
  cap_of t h = Some (o, r) ->
  live t h = inl (Handle.slot h) /\
  rights_at t (Handle.slot h) = Val r /\ object_at t (Handle.slot h) = Val (Some o).
Proof.
  intros Hc. pose proof (live_cap_of t h) as Hl. rewrite Hc in Hl.
  apply cap_of_slot in Hc. unfold rights_at, object_at.
  rewrite (idx_Some _ _ _ (proj1 (slot_u32 h)) Hc). done.
Qed.

Lemma no_cap_live t h : cap_of t h = None -> exists e, live t h = inr e.
Proof. intros Hc. pose proof (live_cap_of t h) as Hl. rewrite Hc in Hl. eauto. Qed.

(** Every pair a table resolves comes, with at least those rights, from [t]. *)
Definition attenuates t t' : Prop :=
  forall h o r', is_u64 h -> cap_of t' h = Some (o, r') ->
    exists h0 r, is_u64 h0 /\ cap_of t h0 = Some (o, r) /\ Rights.is_subset_of r' r = true.

Lemma subset_refl r : Rights.is_subset_of r r = true.
Proof. unfold Rights.is_subset_of. rewrite Z.land_diag. apply Z.eqb_refl. Qed.

Lemma subset_trans a b c :
  Rights.is_subset_of a b = true -> Rights.is_subset_of b c = true ->
  Rights.is_subset_of a c = true.
Proof.
  unfold Rights.is_subset_of. rewrite !Z.eqb_eq. intros <- <-.
  by rewrite <-!Z.land_assoc, Z.land_diag.
Qed.

Lemma intersect_subset r m : Rights.is_subset_of (Rights.intersect r m) r = true.
Proof.
  unfold Rights.is_subset_of, Rights.intersect. apply Z.eqb_eq.
  rewrite (Z.land_comm r m), <-Z.land_assoc. by rewrite Z.land_diag.
Qed.

Lemma attenuates_refl t : attenuates t t.
Proof. intros h o r ??. exists h, r. auto using subset_refl. Qed.

Lemma attenuates_trans t1 t2 t3 : attenuates t1 t2 -> attenuates t2 t3 -> attenuates t1 t3.
Proof.
  intros H12 H23 h o r3 Hh Hc. destruct (H23 h o r3 Hh Hc) as (h2 & r2 & Hh2 & Hc2 & Hs).
  destruct (H12 h2 o r2 Hh2 Hc2) as (h1 & r1 & ? & ? & ?).
  exists h1, r1. eauto using subset_trans.
Qed.

(** Minting from a capability the table holds. *)
Lemma alloc_attenuates t h o r r' ret t' :
  wf t -> is_u64 h -> cap_of t h = Some (o, r) -> Rights.is_subset_of r' r = true ->
  alloc t r' o = Val (ret, t') -> attenuates t t'.
Proof.
  intros Hwf Hh Hc Hsub E. destruct (alloc_evolves t r' o Hwf) as (ret' & t2 & E' & _ & Hret).
  rewrite E in E'. injection E' as <- <-. destruct ret as [hn|].
  - destruct Hret as (_ & _ & _ & _ & _ & Hmap). intros h' o' r2 Hh' Hc'.
    rewrite Hmap in Hc' by done. case_decide; simplify_eq; [eauto|].
    exact (attenuates_refl t _ _ _ Hh' Hc').
  - destruct Hret as [_ ->]. apply attenuates_refl.
Qed.

Lemma free_attenuates t t' h :
  (forall h', is_u64 h' -> cap_of t' h' = if decide (h' = h) then None else cap_of t h') ->
  attenuates t t'.
Proof.
  intros Hmap h' o r Hh' Hc. rewrite Hmap in Hc by done. case_decide; [done|].
  exact (attenuates_refl t _ _ _ Hh' Hc).
Qed.

Definition op_handle (c : op O) : option Z :=
  match c with
  | OpAlloc _ _ | OpAttach _ => None
  | OpDup h | OpNarrow h _ | OpRevoke h | OpDetach h | OpTransfer h _ => Some h
  end.

Lemma exec_spec c t :
  wf t -> op_ok c -> (forall h, op_handle c = Some h -> is_u64 h) ->
  exists t', exec c t = Val t' /\ evolves t t' /\ (derives c -> attenuates t t').
Proof.
  intros Hwf Hok Hh.
  assert (evolves t t /\ attenuates t t) as [Hev Hat].
  { split; [by apply evolves_refl | apply attenuates_refl]. }
  destruct c as [r o|[o r]|h|h m|h|h|h dst]; simpl in *;
    try specialize (Hh h eq_refl).
  - destruct (alloc_evolves t r o Hwf) as (ret & t' & -> & ? & _). exists t'. by simpl.
  - unfold attach. destruct (alloc_evolves t r o Hwf) as (ret & t' & E & ? & _).
    simpl. rewrite E. exists t'. by simpl.
  - unfold dup. destruct (cap_of t h) as [[o r]|] eqn:Hc.
    + destruct (rights_object_at _ _ _ _ Hc) as (-> & -> & ->). simpl.
      destruct (alloc_evolves t r o Hwf) as (ret & t' & E & ? & _). rewrite E.
      exists t'. split; [done|]. split; [done|]. intros _.
      by eapply alloc_attenuates; eauto using subset_refl.
    + destruct (no_cap_live _ _ Hc) as [e ->]. by exists t.
  - unfold narrow. destruct (cap_of t h) as [[o r]|] eqn:Hc.
    + destruct (rights_object_at _ _ _ _ Hc) as (-> & -> & ->). simpl.
      destruct (alloc_evolves t (Rights.intersect r m) o Hwf) as (ret & t' & E & ? & _).
      rewrite E. exists t'. split; [done|]. split; [done|]. intros _.
      by eapply alloc_attenuates; eauto using intersect_subset.
    + destruct (no_cap_live _ _ Hc) as [e ->]. by exists t.
  - unfold revoke. destruct (cap_of t h) as [[o r]|] eqn:Hc.
    + destruct (rights_object_at _ _ _ _ Hc) as (-> & _ & _).
      destruct (free_evolves t h o r Hwf Hh Hc) as (t' & -> & ? & _ & Hmap).
      exists t'. split; [done|]. split; [done|]. intros _. by eapply free_attenuates.
    + destruct (no_cap_live _ _ Hc) as [e ->]. by exists t.
  - unfold detach. destruct (cap_of t h) as [[o r]|] eqn:Hc.
    + destruct (rights_object_at _ _ _ _ Hc) as (-> & -> & ->). simpl.
      destruct (free_evolves t h o r Hwf Hh Hc) as (t' & -> & ? & _ & Hmap).
      exists t'. split; [done|]. split; [done|]. intros _. by eapply free_attenuates.
    + destruct (no_cap_live _ _ Hc) as [e ->]. by exists t.
  - unfold transfer_to. destruct (cap_of t h) as [[o r]|] eqn:Hc.
    + destruct (rights_object_at _ _ _ _ Hc) as (-> & -> & ->). simpl. unfold attach.
      destruct (alloc_evolves dst r o Hok) as ([m|] & dst' & E & _ & _); simpl;
        rewrite E; simpl; [|by exists t].
      destruct (free_evolves t h o r Hwf Hh Hc) as (t' & -> & ? & _ & Hmap).
      exists t'. split; [done|]. split; [done|]. intros _. by eapply free_attenuates.
    + destruct (no_cap_live _ _ Hc) as [e ->]. by exists t.
Qed.

(** A client's operations: well-formed arguments, 64-bit raw handles. *)
Definition op_valid (c : op O) : Prop :=
  op_ok c /\ forall h, op_handle c = Some h -> is_u64 h.

Lemma run_spec cs t :
  wf t -> Forall op_valid cs ->
  exists t', run cs t = Val t' /\ evolves t t' /\ (Forall derives cs -> attenuates t t').
Proof.
  intros Hwf Hcs. revert t Hwf. induction Hcs as [|c cs [Hok Hh] _ IH]; intros t Hwf; simpl.
  { exists t. split; [done|]. split; [by apply evolves_refl | intros; apply attenuates_refl]. }
  destruct (exec_spec c t Hwf Hok Hh) as (t1 & -> & Hev & Hat). simpl.
  destruct (IH t1 (ev_wf _ _ Hev)) as (t2 & -> & Hev2 & Hat2).
  exists t2. split; [done|]. split; [by eapply evolves_trans|].
  intros [? ?]%Forall_cons. eapply attenuates_trans; eauto.
Qed.

Lemma with_capacity_wf c : 0 <= c <= 2 ^ 32 -> wf (with_capacity (O := O) c).
Proof. intros. split; simpl; [done | set_solver | apply NoDup_nil_2 | zl | done]. Qed.
End caps.

(** ** Properties *)

Section properties.
Context {O : Type}.
Implicit Types (t dst : CapTable O) (h : Z) (o : O).

(**  [narrow] and [dup] refine insertion into the finite map from
    handles to (object, rights) that a table stands for: on a handle that resolves to
    (o, r) they either report a full table and change nothing, or add exactly one
    binding, under a 64-bit handle that is not NULL, resolves to nothing and was never
    spent, to the same object with rights [r & mask] (for [dup], [r]); on any other
    handle they return [None] and change nothing.  They never panic. *)
Theorem caps_narrow_dup_refine_insert t h mask (Hwf : wf t) :
  exists ret t' retd td,
    narrow t h mask = Val (ret, t') /\ dup t h = Val (retd, td) /\ wf t' /\ wf td /\
    match cap_of t h with
    | None => ret = None /\ t' = t /\ retd = None /\ td = t
    | Some (o, r) =>
        (ret = None <-> full t) /\ (retd = None <-> full t) /\
        (ret = None -> t' = t) /\ (retd = None -> td = t) /\
        (forall n, ret = Some n ->
           is_u64 n /\ n <> Handle.NULL /\ ~ spent t n /\ cap_of t n = None /\
           forall h', is_u64 h' -> cap_of t' h' =
             if decide (h' = n) then Some (o, Rights.intersect r mask) else cap_of t h') /\
        (forall n, retd = Some n ->
           is_u64 n /\ n <> Handle.NULL /\ ~ spent t n /\ cap_of t n = None /\
           forall h', is_u64 h' -> cap_of td h' =
             if decide (h' = n) then Some (o, r) else cap_of t h')
    end.
Proof.
  unfold narrow, dup. destruct (cap_of t h) as [[o r]|] eqn:Hc.
  - destruct (rights_object_at _ _ _ _ Hc) as (-> & -> & ->). simpl.
    destruct (alloc_evolves t (Rights.intersect r mask) o Hwf) as (ret & t' & -> & [] & H1).
    destruct (alloc_evolves t r o Hwf) as (retd & td & -> & [] & H2).
    exists ret, t', retd, td. destruct ret, retd; naive_solver.
  - destruct (no_cap_live _ _ Hc) as [e ->]. by exists None, t, None, t.
Qed.

(**  [revoke] and [detach] refine deletion from that map: on a handle
    that resolves they succeed, remove that handle's binding and no other, mark the
    handle spent, and [detach] hands out the object with its rights; on a handle that
    does not resolve they return [Stale] when its slot exists and [BadCap] when it does
    not, and change nothing.  They never panic. *)
Theorem caps_revoke_detach_refine_delete t h (Hwf : wf t) (Hh : is_u64 h) :
  match cap_of t h with
  | Some (o, r) =>
      exists t', revoke t h = Val (Ok, t') /\ detach t h = Val (inl (o, r), t') /\
        wf t' /\ spent t' h /\
        forall h', is_u64 h' -> cap_of t' h' = if decide (h' = h) then None else cap_of t h'
  | None =>
      let e := if decide (Handle.slot h < zlen (slots t)) then Stale else BadCap in
      revoke t h = Val (e, t) /\ detach t h = Val (inr e, t)
  end.
Proof.
  unfold revoke, detach. destruct (cap_of t h) as [[o r]|] eqn:Hc.
  - destruct (rights_object_at _ _ _ _ Hc) as (-> & -> & ->). simpl.
    destruct (free_evolves t h o r Hwf Hh Hc) as (t' & -> & [] & ? & ?). by exists t'.
  - pose proof (live_cap_of t h) as Hl. rewrite Hc in Hl. by rewrite Hl.
Qed.

(**  [transfer_to] is all-or-nothing over the two tables: when it returns a
    handle, the source binding is gone and spent, the destination gained exactly that
    one binding with the same object and rights; when it returns [None] -- the handle
    does not resolve, or the destination is full -- both tables are unchanged, so the
    object is never lost. *)
Theorem caps_transfer_atomic t dst h (Hwf : wf t) (Hdst : wf dst) (Hh : is_u64 h) :
  exists ret t' dst', transfer_to t h dst = Val (ret, t', dst') /\ wf t' /\ wf dst' /\
    match ret with
    | Some m => exists o r, cap_of t h = Some (o, r) /\ ~ full dst /\ is_u64 m /\
        cap_of dst m = None /\ spent t' h /\
        (forall h', is_u64 h' ->
           cap_of t' h' = if decide (h' = h) then None else cap_of t h') /\
        (forall h', is_u64 h' ->
           cap_of dst' h' = if decide (h' = m) then Some (o, r) else cap_of dst h')
    | None => t' = t /\ dst' = dst /\ (cap_of t h = None \/ full dst)
    end.
Proof.
  unfold transfer_to, attach. destruct (cap_of t h) as [[o r]|] eqn:Hc.
  - destruct (rights_object_at _ _ _ _ Hc) as (-> & -> & ->). simpl.
    destruct (alloc_evolves dst r o Hdst) as ([m|] & dst' & -> & Hev & H1); simpl.
    + destruct (free_evolves t h o r Hwf Hh Hc) as (t' & -> & Hev' & ? & ?). simpl.
      exists (Some m), t', dst'. destruct Hev, Hev'. naive_solver.
    + destruct H1 as [? ->]. exists None, t, dst. auto 10.
  - destruct (no_cap_live _ _ Hc) as [e ->]. exists None, t, dst. auto 10.
Qed.

(** C26:  Use-after-revoke is detected for ever: once a handle that resolved has
    stopped resolving, no later sequence of operations on the table -- slot reuse and
    generation overflow included -- makes it resolve again; it is reported [Stale]. *)
Theorem caps_dead_handle_stays_stale t h c cs1 cs2 t1 t2
    (Hwf : wf t) (Hh : is_u64 h) (Hissued : cap_of t h = Some c)
    (Hcs1 : Forall op_valid cs1) (Hcs2 : Forall op_valid cs2)
    (H1 : run cs1 t = Val t1) (H2 : run cs2 t1 = Val t2)
    (Hdead : forall i, live t1 h <> inl i) :
  live t2 h = inr Stale.
Proof.
  destruct (run_spec cs1 t Hwf Hcs1) as (t1' & E1 & Hev1 & _).
  rewrite H1 in E1. injection E1 as <-.
  destruct (run_spec cs2 t1 (ev_wf _ _ Hev1) Hcs2) as (t2' & E2 & Hev2 & _).
  rewrite H2 in E2. injection E2 as <-.
  destruct (ev_keep _ _ Hev1 h c Hissued) as [Hc|Hs].
  { pose proof (live_cap_of t1 h) as Hl. rewrite Hc in Hl. by destruct (Hdead _ Hl). }
  apply (ev_spent _ _ Hev2) in Hs. pose proof (live_cap_of t2 h) as Hl.
  rewrite (spent_no_cap _ _ Hs) in Hl. rewrite Hl, decide_True; [done|].
  destruct Hs as (s & Hs & _). apply lookup_lt_Some in Hs.
  pose proof (slot_u32 h). unfold in_u, zlen in *. lia.
Qed.

(**  A table never widens authority: any sequence of derive and give-up
    operations (dup, narrow, revoke, detach, transfer), of any length and with arbitrary
    64-bit handles, runs without a panic, keeps the table well-formed, and every (object,
    rights) pair any handle resolves to afterwards has rights that are a subset of the
    rights some handle already held on the same object. *)
Theorem caps_history_never_widens t cs
    (Hwf : wf t) (Hcs : Forall op_valid cs) (Hd : Forall derives cs) :
  exists t', run cs t = Val t' /\ wf t' /\ zlen (slots t') <= cap t /\
    forall h o r', is_u64 h -> cap_of t' h = Some (o, r') ->
      exists h0 r, is_u64 h0 /\ cap_of t h0 = Some (o, r) /\ Rights.is_subset_of r' r = true.
Proof.
  destruct (run_spec cs t Hwf Hcs) as (t' & E & [Hwf' Hcap _ _] & Hat). exists t'.
  pose proof (wf_cap _ Hwf'). split; [done|]. split; [done|]. split; [lia|].
  exact (Hat Hd).
Qed.
End properties.

(** ** Witnesses *)

(** One live capability on object 5 with READ | WRITE | DUP, one freed slot. *)
Definition demo : CapTable Z :=
  mkTable [mkSlot 1 11 (Some 5); mkSlot 3 0 None] [1] 4.
Definition demo_h : Z := 2 ^ 32.

Lemma demo_wf : wf demo.
Proof.
  split; simpl; [| | apply NoDup_singleton | unfold zlen; simpl; lia |].
  - repeat constructor; vm_compute; congruence.
  - intros i ->%list_elem_of_singleton. split; [lia|]. by eexists.
  - intros i s Hi. destruct (Z.to_nat i) as [|[|n]] eqn:E; simpl; intros; simplify_eq/=.
    left. apply list_elem_of_singleton. lia.
Qed.

Lemma caps_narrow_dup_refine_insert_witness :
  cap_of demo demo_h = Some (5, 11) /\ exists ret t', narrow demo demo_h 1 = Val (ret, t').
Proof.
  split; [reflexivity|].
  destruct (caps_narrow_dup_refine_insert demo demo_h 1 demo_wf) as (r & t & _ & _ & H & _).
  exists r, t. exact H.
Defined.

Lemma caps_revoke_detach_refine_delete_witness :
  exists t', revoke demo demo_h = Val (Ok, t').
Proof.
  destruct (caps_revoke_detach_refine_delete demo demo_h demo_wf) as (t' & H & _).
  { unfold in_u, demo_h. lia. }
  exists t'. exact H.
Defined.

Lemma caps_transfer_atomic_witness :
  exists ret t' dst', transfer_to demo demo_h (with_capacity 1) = Val (ret, t', dst').
Proof.
  destruct (caps_transfer_atomic demo (with_capacity 1) demo_h demo_wf)
    as (r & t & d & H & _).
  - apply with_capacity_wf. lia.
  - unfold in_u, demo_h. lia.
  - exists r, t, d. exact H.
Defined.

(** The demo table after revoking its live handle, then filled again. *)
Definition demo_revoked : CapTable Z :=
  match run [OpRevoke demo_h] demo with Val t => t | Panic => demo end.
Definition demo_refilled : CapTable Z :=
  match run [OpAlloc 1 9; OpAlloc 1 9] demo_revoked with Val t => t | Panic => demo end.

Lemma caps_dead_handle_stays_stale_witness :
  run [OpRevoke demo_h] demo = Val demo_revoked /\
  run [OpAlloc 1 9; OpAlloc 1 9] demo_revoked = Val demo_refilled /\
  live demo_refilled demo_h = inr Stale.
Proof.
  split; [reflexivity|]. split; [reflexivity|].
  apply (caps_dead_handle_stays_stale demo demo_h (5, 11) [OpRevoke demo_h]
    [OpAlloc 1 9; OpAlloc 1 9] demo_revoked demo_refilled demo_wf); try done.
  - apply Forall_singleton. split; simpl; [done|]. intros ? [= <-]. unfold in_u, demo_h. lia.
  - repeat (apply Forall_cons; split; [split; simpl; [unfold in_u; lia | done]|]).
    apply Forall_nil_2.
Defined.

Lemma caps_history_never_widens_witness :
  exists t', run [OpNarrow demo_h 3; OpDup demo_h; OpRevoke demo_h] demo = Val t'.
Proof.
  destruct (caps_history_never_widens demo [OpNarrow demo_h 3; OpDup demo_h; OpRevoke demo_h]
    demo_wf) as (t' & H & _).
  - repeat (apply Forall_cons; split;
      [split; simpl; intros; simplify_eq; try done; unfold in_u, demo_h; lia|]).
    apply Forall_nil_2.
  - repeat (apply Forall_cons; split; [done|]). apply Forall_nil_2.
  - exists t'. exact H.
Defined.
