(* ===== verification/IpcFrame.v ===== *)
(** * IPC message frame and bounded ring: [crates/tb-encode/src/ipc_frame.rs]. *)
From Stdlib Require Import ZArith Lia.
From stdpp Require Import base numbers option tactics sets list.
From S2P Require Import Prelude.
Open Scope Z_scope.

Definition FRAME_SIZE : Z := 16.
Definition FLAG_CAP_PRESENT : Z := 1.
Definition FLAG_KNOWN_MASK : Z := FLAG_CAP_PRESENT.

Record MessageFrame := mkFrame {
  payload : Z;
  cap_present : bool;
  rights : Z;
}.

Inductive FrameError :=
| ShortBuffer (need got : Z)
| ReservedBitsSet.

Definition encode (self : MessageFrame) : res (list Z) :=
  let out := zrepeat FRAME_SIZE 0 in
  out ← blit out 0 8 (to_le 8 (payload self));
  out ← blit out 8 12 (to_le 4 (rights self));
  upd out 12 (if cap_present self then FLAG_CAP_PRESENT else 0).

Definition decode (bs : list Z) : res (MessageFrame + FrameError) :=
  if decide (zlen bs < FRAME_SIZE) then Val (inr (ShortBuffer FRAME_SIZE (zlen bs)))
  else
    flags ← idx bs 12;
    if decide (Z.land flags (bit_not 8 FLAG_KNOWN_MASK) <> 0) then Val (inr ReservedBitsSet)
    else
      b13 ← idx bs 13;
      b14 ← idx bs 14;
      b15 ← idx bs 15;
      if decide (b13 <> 0 \/ b14 <> 0 \/ b15 <> 0) then Val (inr ReservedBitsSet)
      else
        p ← slice bs 0 8;
        r ← slice bs 8 12;
        Val (inl (mkFrame (of_le p) (negb (Z.land flags FLAG_CAP_PRESENT =? 0)) (of_le r))).

(** ** The ring *)

Record BoundedRing (T : Type) := mkRing {
  buf : list T;
  head : Z;
  len : Z;
}.
Arguments mkRing {T}.
Arguments buf {T}.
Arguments head {T}.
Arguments len {T}.

Section ring.
Context {T : Type} (default : T) (N : Z).
Implicit Types r : BoundedRing T.

Definition new : BoundedRing T := mkRing (zrepeat N default) 0 0.
Definition capacity : Z := N.
Definition is_empty r : bool := len r =? 0.
Definition is_full r : bool := len r =? N.

Definition push r (v : T) : res (bool * BoundedRing T) :=
  if decide (len r = N) then Val (false, r)
  else
    tail ← urem (head r + len r) N;
    buf' ← upd (buf r) tail v;
    Val (true, mkRing buf' (head r) (len r + 1)).

Definition pop r : res (option T * BoundedRing T) :=
  if decide (len r = 0) then Val (None, r)
  else
    v ← idx (buf r) (head r);
    head' ← urem (head r + 1) N;
    Val (Some v, mkRing (buf r) head' (len r - 1)).
End ring.

(** ** Specification *)

(** The wire layout of a frame. *)
Definition layout (f : MessageFrame) : list Z :=
  to_le 8 (payload f) ++ to_le 4 (rights f) ++
  [if cap_present f then 1 else 0; 0; 0; 0].

Definition frame_ok (f : MessageFrame) : Prop := is_u64 (payload f) /\ is_u32 (rights f).

(** A client's calls on a ring, the ring's answers, and an unbounded queue's answers. *)
Inductive call (T : Type) := Push (v : T) | Pop | Len.
Arguments Push {T}.
Arguments Pop {T}.
Arguments Len {T}.
Inductive answer (T : Type) := Pushed (ok : bool) | Popped (v : option T) | Length (n : Z).
Arguments Pushed {T}.
Arguments Popped {T}.
Arguments Length {T}.

Section trace.
Context {T : Type} (default : T) (N : Z).

Fixpoint ring_trace (cs : list (call T)) (r : BoundedRing T) : res (list (answer T)) :=
  match cs with
  | [] => Val []
  | Push v :: cs => '(ok, r) ← push N r v; as_ ← ring_trace cs r; Val (Pushed ok :: as_)
  | Pop :: cs => '(v, r) ← pop N r; as_ ← ring_trace cs r; Val (Popped v :: as_)
  | Len :: cs => as_ ← ring_trace cs r; Val (Length (len r) :: as_)
  end.

Fixpoint queue_trace (cs : list (call T)) (q : list T) : list (answer T) :=
  match cs with
  | [] => []
  | Push v :: cs =>
      if decide (zlen q < N) then Pushed true :: queue_trace cs (q ++ [v])
      else Pushed false :: queue_trace cs q
  | Pop :: cs =>
      match q with
      | [] => Popped None :: queue_trace cs []
      | v :: q' => Popped (Some v) :: queue_trace cs q'
      end
  | Len :: cs => Length (zlen q) :: queue_trace cs q
  end.

(** The ring's cells hold the queue, from [head] on, modulo the capacity. *)
Record represents (r : BoundedRing T) (q : list T) : Prop := {
  rep_buf : zlen (buf r) = N;
  rep_len : len r = zlen q;
  rep_cap : zlen q <= N;
  rep_head : 0 <= head r /\ (head r < N \/ N = 0);
  rep_cells : forall k, 0 <= k < zlen q ->
    buf r !! Z.to_nat ((head r + k) mod N) = q !! Z.to_nat k;
}.
End trace.

(** ** Lemmas *)

Lemma flags_known b :
  is_u8 b -> (Z.land b (bit_not 8 FLAG_KNOWN_MASK) = 0 <-> b = 0 \/ b = 1).
Proof.
  intros Hb.
  pose proof (byte_forall (fun b => Bool.eqb (Z.land b (bit_not 8 FLAG_KNOWN_MASK) =? 0)
    ((b =? 0) || (b =? 1))) b eq_refl Hb) as H.
  apply Bool.eqb_prop in H.
  rewrite <-Z.eqb_eq, H, orb_true_iff, !Z.eqb_eq. done.
Qed.

Lemma zlen_layout f : zlen (layout f) = FRAME_SIZE.
Proof. unfold layout, FRAME_SIZE. zl. Qed.

Lemma encode_layout f : encode f = Val (layout f).
Proof.
  unfold encode, FRAME_SIZE. rewrite blit_ok by zl. cbn [mbind res_bind].
  rewrite blit_ok by zl. cbn [mbind res_bind]. rewrite upd_ok by zl.
  unfold layout, FLAG_CAP_PRESENT. by destruct (cap_present f).
Qed.

Lemma represents_new {T} (d : T) N : 0 <= N -> represents N (new d N) [].
Proof. intros. split; simpl; zl. Qed.

Lemma push_represents {T} N (r : BoundedRing T) q v :
  represents N r q -> zlen q < N ->
  exists r', push N r v = Val (true, r') /\ represents N r' (q ++ [v]).
Proof.
  intros [Hb Hl Hc Hh Hq] Hlt. pose proof (zlen_nonneg q).
  pose proof (Z.mod_pos_bound (head r + len r) N) as Hm.
  unfold push, urem. rewrite decide_False by lia. rewrite decide_False by lia. simpl.
  rewrite upd_ok by lia. simpl. eexists. split; [done|].
  split; simpl; [by rewrite zlen_insert | zl | zl | done |].
  intros k Hk. rewrite zlen_app in Hk. change (zlen [v]) with 1 in Hk.
  destruct (decide (k = zlen q)) as [->|].
  - rewrite <-Hl, list_lookup_insert_eq by (unfold zlen in *; lia).
    rewrite Hl. unfold zlen. rewrite Nat2Z.id. symmetry. by apply list_lookup_middle.
  - assert ((head r + len r) mod N <> (head r + k) mod N).
    { intros E. assert ((len r - k) mod N = 0) as E2.
      { replace (len r - k) with ((head r + len r) - (head r + k)) by lia.
        rewrite Zminus_mod, E, Z.sub_diag. done. }
      rewrite Z.mod_small in E2; lia. }
    pose proof (Z.mod_pos_bound (head r + k) N).
    rewrite list_lookup_insert_ne by lia. rewrite Hq by lia.
    symmetry. apply lookup_app_l. unfold zlen in *. lia.
Qed.

Lemma pop_represents {T} N (r : BoundedRing T) v q :
  represents N r (v :: q) ->
  exists r', pop N r = Val (Some v, r') /\ represents N r' q.
Proof.
  intros [Hb Hl Hc Hh Hq]. rewrite zlen_cons in *. pose proof (zlen_nonneg q).
  unfold pop, urem. rewrite decide_False by lia.
  assert (buf r !! Z.to_nat (head r) = Some v) as Hv.
  { specialize (Hq 0). rewrite Z.add_0_r, Z.mod_small in Hq by lia. by apply Hq; lia. }
  rewrite (idx_Some _ _ v) by (done || lia). cbn [mbind res_bind].
  rewrite decide_False by lia. cbn [mbind res_bind].
  eexists. split; [done|].
  pose proof (Z.mod_pos_bound (head r + 1) N).
  split; cbn [buf head len]; [done | lia | lia | lia |].
  intros k Hk. rewrite Zplus_mod_idemp_l.
  replace (head r + 1 + k) with (head r + (k + 1)) by lia. rewrite Hq by lia.
  by replace (Z.to_nat (k + 1)) with (S (Z.to_nat k)) by lia.
Qed.

Lemma ring_trace_represents {T} N (cs : list (call T)) (r : BoundedRing T) q :
  represents N r q -> ring_trace N cs r = Val (queue_trace N cs q).
Proof.
  revert r q. induction cs as [|[v| |] cs IH]; intros r q Hr; [done| | |]; simpl.
  - pose proof (rep_cap _ _ _ Hr). case_decide as Hlt.
    + destruct (push_represents _ _ _ v Hr Hlt) as (r' & -> & Hr'). cbn.
      by rewrite (IH _ _ Hr').
    + unfold push. rewrite decide_True by (rewrite (rep_len _ _ _ Hr); lia). cbn.
      by rewrite (IH _ _ Hr).
  - destruct q as [|v q].
    + unfold pop. rewrite decide_True by (by rewrite (rep_len _ _ _ Hr)). cbn.
      by rewrite (IH _ _ Hr).
    + destruct (pop_represents _ _ _ _ Hr) as (r' & -> & Hr'). cbn. by rewrite (IH _ _ Hr').
  - by rewrite (IH _ _ Hr), (rep_len _ _ _ Hr).
Qed.

Lemma decode_app f rest :
  frame_ok f -> decode (layout f ++ rest) = Val (inl f).
Proof.
  intros [Hp Hr]. unfold decode. rewrite decide_False.
  2:{ rewrite zlen_app, zlen_layout. zl. }
  unfold layout. rewrite <-!app_assoc.
  assert (forall k tl, 12 <= k ->
    idx (to_le 8 (payload f) ++ to_le 4 (rights f) ++ tl) k = idx tl (k - 12)) as Hidx.
  { intros. rewrite !idx_app_ge by zl. autorewrite with zlen. f_equal. lia. }
  rewrite !Hidx by lia.
  change (idx ([if cap_present f then 1 else 0; 0; 0; 0] ++ rest) (12 - 12))
    with (Val (if cap_present f then 1 else 0)).
  change (idx ([if cap_present f then 1 else 0; 0; 0; 0] ++ rest) (13 - 12)) with (Val 0).
  change (idx ([if cap_present f then 1 else 0; 0; 0; 0] ++ rest) (14 - 12)) with (Val 0).
  change (idx ([if cap_present f then 1 else 0; 0; 0; 0] ++ rest) (15 - 12)) with (Val 0).
  cbn [mbind res_bind]. rewrite decide_False
    by (destruct (cap_present f); intros Hn; apply Hn; reflexivity).
  cbn [mbind res_bind]. rewrite decide_False by lia.
  rewrite !slice_ok by zl. cbn [mbind res_bind].
  rewrite zsub_app_eq by zl. rewrite zsub_app_mid by zl.
  rewrite !of_to_le_id by done. by destruct f as [? [] ?].
Qed.

Lemma decode_inv bs f :
  bytes bs -> decode bs = Val (inl f) -> frame_ok f /\ exists rest, bs = layout f ++ rest.
Proof.
  intros Hbs. unfold decode, FRAME_SIZE. case_decide as Hlen; [done|].
  destruct (zsplit 8 bs) as (p & bs1 & -> & Hp); [lia|]. rewrite zlen_app in Hlen.
  destruct (zsplit 4 bs1) as (r & bs2 & -> & Hr); [lia|]. rewrite zlen_app in Hlen.
  destruct bs2 as [|b12 [|b13 [|b14 [|b15 rest]]]];
    rewrite ?zlen_cons, ?zlen_nil in Hlen; try lia.
  apply Forall_app in Hbs as [Hbp [Hbr Hb]%Forall_app].
  apply Forall_cons in Hb as [H12 Hb].
  assert (forall k, 12 <= k -> idx (p ++ r ++ b12 :: b13 :: b14 :: b15 :: rest) k =
    idx (b12 :: b13 :: b14 :: b15 :: rest) (k - 12)) as Hidx.
  { intros. rewrite !idx_app_ge by lia. f_equal. lia. }
  rewrite !Hidx by lia.
  change (idx (b12 :: b13 :: b14 :: b15 :: rest) (12 - 12)) with (Val b12).
  change (idx (b12 :: b13 :: b14 :: b15 :: rest) (13 - 12)) with (Val b13).
  change (idx (b12 :: b13 :: b14 :: b15 :: rest) (14 - 12)) with (Val b14).
  change (idx (b12 :: b13 :: b14 :: b15 :: rest) (15 - 12)) with (Val b15).
  cbn [mbind res_bind]. case_decide as Hf; [done|].
  case_decide as Hz; [done|].
  rewrite !slice_ok by zl. cbn [mbind res_bind]. intros [= <-].
  rewrite zsub_app_eq, zsub_app_mid by zl. unfold layout, frame_ok. cbn.
  pose proof (of_le_bound _ Hbp) as Hbp'. rewrite Hp in Hbp'.
  pose proof (of_le_bound _ Hbr) as Hbr'. rewrite Hr in Hbr'.
  split; [done|]. exists rest.
  rewrite (to_of_le_n 8 p), (to_of_le_n 4 r) by done. rewrite <-!app_assoc. do 2 f_equal.
  apply flags_known in Hf; [|done].
  assert (b13 = 0 /\ b14 = 0 /\ b15 = 0) as (-> & -> & ->) by lia.
  by destruct Hf as [-> | ->].
Qed.

(** ** Properties *)

(**  [encode] and [decode] are inverse on the frames the types admit:
    [encode] never panics and writes the documented 16-byte layout; [decode] returns a
    frame exactly when the buffer starts with that frame's encoding, so it accepts no
    other byte string, and never panics: a short buffer gives [ShortBuffer] with its
    length, and any reserved flag bit or trailing byte gives [ReservedBitsSet]. *)
Theorem ipc_frame_decode_inverts_encode :
  (forall f, encode f = Val (layout f)) /\
  (forall bs f, bytes bs ->
     decode bs = Val (inl f) <-> frame_ok f /\ exists rest, bs = layout f ++ rest) /\
  (forall bs, bytes bs -> exists r, decode bs = Val r /\
     (zlen bs < FRAME_SIZE <-> r = inr (ShortBuffer FRAME_SIZE (zlen bs))) /\
     (r = inr ReservedBitsSet <->
        FRAME_SIZE <= zlen bs /\ ~ exists f rest, frame_ok f /\ bs = layout f ++ rest)).
Proof.
  split; [apply encode_layout|].
  assert (forall bs f, bytes bs ->
     decode bs = Val (inl f) <-> frame_ok f /\ exists rest, bs = layout f ++ rest) as Hiff.
  { intros bs f Hbs. split; [by apply decode_inv|]. intros [Hf [rest ->]]. by apply decode_app. }
  split; [done|]. intros bs Hbs.
  assert (exists r, decode bs = Val r /\ (zlen bs < FRAME_SIZE <->
    r = inr (ShortBuffer FRAME_SIZE (zlen bs))) /\ (zlen bs < FRAME_SIZE \/
    r = inr ReservedBitsSet \/ exists f, r = inl f)) as (r & Hr & Hs & Hcases).
  { unfold decode, FRAME_SIZE. case_decide; [eexists; split; [done|]; by split; [|left]|].
    destruct (idx_ok bs 12) as [x12 ->]; [lia|].
    destruct (idx_ok bs 13) as [x13 ->]; [lia|].
    destruct (idx_ok bs 14) as [x14 ->]; [lia|].
    destruct (idx_ok bs 15) as [x15 ->]; [lia|].
    rewrite !slice_ok by lia. cbn [mbind res_bind].
    repeat case_decide; eexists; (split; [done|]);
      (split; [split; [intros; exfalso; lia | done]|]); eauto. }
  exists r. split; [done|]. split; [done|]. split.
  - intros ->. split.
    + destruct (decide (zlen bs < FRAME_SIZE)) as [H|]; [|lia]. by apply Hs in H.
    + intros (f & rest & Hf & Hl).
      assert (decode bs = Val (inl f)) by (apply Hiff; eauto). congruence.
  - intros [Hlen Hno]. destruct Hcases as [|[|[f ->]]]; [lia | done |].
    apply Hiff in Hr as [Hf [rest Hl]]; [|done]. destruct Hno. eauto.
Qed.

(**  The ring is a bounded FIFO queue: for every capacity, every sequence
    of pushes, pops and length queries from an empty ring runs without a panic and returns
    the answers of an abstract queue that refuses a push exactly when it holds [N]
    elements; the head may wrap any number of times. *)
Theorem ring_simulates_bounded_queue {T} (d : T) N (cs : list (call T)) (HN : 0 <= N) :
  ring_trace N cs (new d N) = Val (queue_trace N cs []).
Proof. apply ring_trace_represents, represents_new; done. Qed.

(** ** Witnesses *)

Lemma ring_simulates_bounded_queue_witness :
  ring_trace 2 [Push 7; Push 8; Push 9; Pop; Push 10; Pop; Pop; Pop; Len] (new 0 2) =
  Val [Pushed true; Pushed true; Pushed false; Popped (Some 7); Pushed true;
       Popped (Some 8); Popped (Some 10); Popped None; Length 0].
Proof. rewrite (ring_simulates_bounded_queue 0 2); [reflexivity | lia]. Defined.
