(* ===== verification/Khash.v ===== *)
(** * BLAKE2s-256: [crates/tb-encode/src/khash.rs]. *)
From Stdlib Require Import ZArith Lia.
From stdpp Require Import base numbers option tactics sets list.
From S2P Require Import Prelude.
Open Scope Z_scope.

Definition KHASH_KEY_LEN : Z := 32.
Definition KHASH_TAG_LEN : Z := 32.
Definition BLOCK_LEN : Z := 64.
Definition ROUNDS : Z := 10.

Definition IV : list Z :=
  [0x6A09E667; 0xBB67AE85; 0x3C6EF372; 0xA54FF53A;
   0x510E527F; 0x9B05688C; 0x1F83D9AB; 0x5BE0CD19].

Definition SIGMA : list (list Z) :=
  [[0; 1; 2; 3; 4; 5; 6; 7; 8; 9; 10; 11; 12; 13; 14; 15];
   [14; 10; 4; 8; 9; 15; 13; 6; 1; 12; 0; 2; 11; 7; 5; 3];
   [11; 8; 12; 0; 5; 2; 15; 13; 10; 14; 3; 6; 7; 1; 9; 4];
   [7; 9; 3; 1; 13; 12; 11; 14; 2; 6; 5; 10; 4; 0; 15; 8];
   [9; 0; 5; 7; 2; 4; 10; 15; 14; 1; 11; 12; 6; 8; 3; 13];
   [2; 12; 6; 10; 0; 11; 8; 3; 4; 13; 7; 5; 15; 14; 1; 9];
   [12; 5; 1; 15; 14; 13; 4; 10; 0; 7; 6; 3; 9; 2; 8; 11];
   [13; 11; 7; 14; 12; 1; 3; 9; 5; 0; 15; 4; 8; 6; 2; 10];
   [6; 15; 14; 9; 11; 3; 0; 8; 12; 2; 13; 7; 1; 4; 10; 5];
   [10; 2; 8; 4; 7; 6; 1; 5; 15; 11; 9; 14; 3; 12; 13; 0]].

(** [v[x] = v[x] + v[y] + z], wrapping. *)
Definition g_add (v : list Z) (x y z : Z) : res (list Z) :=
  vx ← idx v x; vy ← idx v y; upd v x (wrapping_add 32 (wrapping_add 32 vx vy) z).
(** [v[x] = v[x] + v[y]], wrapping. *)
Definition g_add2 (v : list Z) (x y : Z) : res (list Z) :=
  vx ← idx v x; vy ← idx v y; upd v x (wrapping_add 32 vx vy).
(** [v[x] = (v[x] ^ v[y]).rotate_right(n)]. *)
Definition g_rot (v : list Z) (x y n : Z) : res (list Z) :=
  vx ← idx v x; vy ← idx v y; upd v x (rotate_right 32 (Z.lxor vx vy) n).

Definition g (v : list Z) (a b c d x y : Z) : res (list Z) :=
  v ← g_add v a b x;
  v ← g_rot v d a 16;
  v ← g_add2 v c d;
  v ← g_rot v b c 12;
  v ← g_add v a b y;
  v ← g_rot v d a 8;
  v ← g_add2 v c d;
  g_rot v b c 7.

(** One [g] call of a round: the message words are picked by [SIGMA[r]]. *)
Definition mix (m s v : list Z) (a b c d i j : Z) : res (list Z) :=
  si ← idx s i; x ← idx m si; sj ← idx s j; y ← idx m sj; g v a b c d x y.

Definition round (m : list Z) (r : Z) (v : list Z) : res (list Z) :=
  s ← idx SIGMA r;
  v ← mix m s v 0 4 8 12 0 1;
  v ← mix m s v 1 5 9 13 2 3;
  v ← mix m s v 2 6 10 14 4 5;
  v ← mix m s v 3 7 11 15 6 7;
  v ← mix m s v 0 5 10 15 8 9;
  v ← mix m s v 1 6 11 12 10 11;
  v ← mix m s v 2 7 8 13 12 13;
  mix m s v 3 4 9 14 14 15.

Definition compress (h block : list Z) (t : Z) (last : bool) : res (list Z) :=
  m ← for_up 0 16 (fun w m =>
        let base := w * 4 in
        bs ← gather block [base; base + 1; base + 2; base + 3];
        upd m w (of_le bs)) (zrepeat 16 0);
  v ← for_up 0 8 (fun i v =>
        hi ← idx h i; v ← upd v i hi;
        ivi ← idx IV i; upd v (i + 8) ivi) (zrepeat 16 0);
  v12 ← idx v 12; v ← upd v 12 (Z.lxor v12 (wrap 32 t));
  v13 ← idx v 13; v ← upd v 13 (Z.lxor v13 (wrap 32 (Z.shiftr t 32)));
  v ← (if last then v14 ← idx v 14; upd v 14 (bit_not 32 v14) else Val v);
  v ← for_up 0 ROUNDS (round m) v;
  for_up 0 8 (fun j h =>
    hj ← idx h j; vj ← idx v j; vj8 ← idx v (j + 8);
    upd h j (Z.lxor hj (Z.lxor vj vj8))) h.

Definition digest_bytes (h : list Z) : res (list Z) :=
  for_up 0 8 (fun w out =>
    hw ← idx h w;
    let b := to_le 4 hw in
    let base := w * 4 in
    b0 ← idx b 0; out ← upd out base b0;
    b1 ← idx b 1; out ← upd out (base + 1) b1;
    b2 ← idx b 2; out ← upd out (base + 2) b2;
    b3 ← idx b 3; upd out (base + 3) b3) (zrepeat KHASH_TAG_LEN 0).

(** The loop over every block but the last; the remainder strictly decreases, so the
    message length is enough fuel. *)
Fixpoint full_blocks (fuel : nat) (msg h : list Z) (t off : Z) : res (list Z * Z * Z) :=
  if decide (zlen msg - off > BLOCK_LEN) then
    match fuel with
    | O => Panic
    | S fuel' =>
        block ← copy_in BLOCK_LEN msg off (zrepeat BLOCK_LEN 0);
        let t := wrapping_add 64 t BLOCK_LEN in
        h ← compress h block t false;
        full_blocks fuel' msg h t (off + BLOCK_LEN)
    end
  else Val (h, t, off).

Definition blake2s (key : option (list Z)) (msg : list Z) : res (list Z) :=
  let kk := match key with Some _ => KHASH_KEY_LEN | None => 0 end in
  h0 ← idx IV 0;
  h ← upd IV 0 (Z.lxor h0 (Z.lxor (Z.lxor 0x01010000 (Z.shiftl kk 8)) KHASH_TAG_LEN));
  let rest h t :=
    '(h, t, off) ← full_blocks (length msg) msg h t 0;
    let rem := zlen msg - off in
    block ← copy_in rem msg off (zrepeat BLOCK_LEN 0);
    let t := wrapping_add 64 t rem in
    h ← compress h block t true;
    digest_bytes h in
  match key with
  | Some k =>
      block ← copy_loop KHASH_KEY_LEN k 0 (zrepeat BLOCK_LEN 0);
      let t := BLOCK_LEN in
      let key_is_final := bool_decide (msg = []) in
      h ← compress h block t key_is_final;
      if key_is_final then digest_bytes h else rest h t
  | None =>
      if bool_decide (msg = []) then
        h ← compress h (zrepeat BLOCK_LEN 0) 0 true;
        digest_bytes h
      else rest h 0
  end.

Definition khash (key msg : list Z) : res (list Z) := blake2s (Some key) msg.
Definition uhash (msg : list Z) : res (list Z) := blake2s None msg.

Definition KAT_ABC_UNKEYED : list Z :=
  [0x50; 0x8C; 0x5E; 0x8C; 0x32; 0x7C; 0x14; 0xE2;
   0xE1; 0xA7; 0x2B; 0xA3; 0x4E; 0xEB; 0x45; 0x2F;
   0x37; 0x45; 0x8B; 0x20; 0x9E; 0xD6; 0x3A; 0x29;
   0x4D; 0x99; 0x9B; 0x4C; 0x86; 0x67; 0x59; 0x82].
Definition KAT_KEYED_EMPTY : list Z :=
  [0x48; 0xA8; 0x99; 0x7D; 0xA4; 0x07; 0x87; 0x6B;
   0x3D; 0x79; 0xC0; 0xD9; 0x23; 0x25; 0xAD; 0x3B;
   0x89; 0xCB; 0xB7; 0x54; 0xD8; 0x6A; 0xB7; 0x1A;
   0xEE; 0x04; 0x7A; 0xD3; 0x45; 0xFD; 0x2C; 0x49].
Definition KAT_KEYED_65 : list Z :=
  [0x21; 0xFE; 0x0C; 0xEB; 0x00; 0x52; 0xBE; 0x7F;
   0xB0; 0xF0; 0x04; 0x18; 0x7C; 0xAC; 0xD7; 0xDE;
   0x67; 0xFA; 0x6E; 0xB0; 0x93; 0x8D; 0x92; 0x76;
   0x77; 0xF2; 0x39; 0x8C; 0x13; 0x23; 0x17; 0xA8].
Definition KAT_KEY : list Z :=
  [0x00; 0x01; 0x02; 0x03; 0x04; 0x05; 0x06; 0x07;
   0x08; 0x09; 0x0A; 0x0B; 0x0C; 0x0D; 0x0E; 0x0F;
   0x10; 0x11; 0x12; 0x13; 0x14; 0x15; 0x16; 0x17;
   0x18; 0x19; 0x1A; 0x1B; 0x1C; 0x1D; 0x1E; 0x1F].
Definition kat_msg_65 : res (list Z) :=
  for_up 0 65 (fun i m => upd m i (wrap 8 i)) (zrepeat 65 0).

Definition kat_ok : res bool :=
  abc ← uhash [0x61; 0x62; 0x63];
  keyed_empty ← khash KAT_KEY [];
  m65 ← kat_msg_65;
  keyed_65 ← khash KAT_KEY m65;
  for_up 0 KHASH_TAG_LEN (fun i ok =>
    if ok : bool then
      a ← idx abc i; ka ← idx KAT_ABC_UNKEYED i;
      if a =? ka then
        e ← idx keyed_empty i; ke ← idx KAT_KEYED_EMPTY i;
        if e =? ke then
          k ← idx keyed_65 i; kk ← idx KAT_KEYED_65 i; Val (k =? kk)
        else Val false
      else Val false
    else Val false) true.

Example kat : kat_ok = Val true.
Proof. vm_compute. reflexivity. Qed.

(** ** Specification: RFC 7693, section 3.3 *)

Definition pad_block (b : list Z) : list Z := b ++ zrepeat (BLOCK_LEN - zlen b) 0.

(** The message cut into 64-byte blocks, the last one zero-padded. *)
Fixpoint data_blocks (fuel : nat) (msg : list Z) : list (list Z) :=
  match fuel, msg with
  | S fuel', _ :: _ => pad_block (ztake BLOCK_LEN msg) :: data_blocks fuel' (zdrop BLOCK_LEN msg)
  | _, _ => []
  end.

Definition rfc_blocks (key : option (list Z)) (msg : list Z) : list (list Z) :=
  match (match key with Some k => [pad_block k] | None => [] end) ++ data_blocks (length msg) msg with
  | [] => [pad_block []]
  | ds => ds
  end.

(** [F] over the blocks: [(i+1) * bb] for block [i], the total input length for the last. *)
Fixpoint rfc_fold (total : Z) (h : list Z) (i : Z) (ds : list (list Z)) : res (list Z) :=
  match ds with
  | [] => Val h
  | [d] => compress h d total true
  | d :: ds' => h' ← compress h d ((i + 1) * BLOCK_LEN) false; rfc_fold total h' (i + 1) ds'
  end.

Definition rfc7693 (key : option (list Z)) (msg : list Z) : res (list Z) :=
  let kk := match key with Some _ => KHASH_KEY_LEN | None => 0 end in
  let total := match key with Some _ => zlen msg + BLOCK_LEN | None => zlen msg end in
  h0 ← idx IV 0;
  h ← upd IV 0 (Z.lxor h0 (Z.lxor (Z.lxor 0x01010000 (Z.shiftl kk 8)) KHASH_TAG_LEN));
  h ← rfc_fold total h 0 (rfc_blocks key msg);
  Val (concat (map (to_le 4) h)).

(** ** Lemmas: totality *)

Lemma g_runs v a b c d x y :
  zlen v = 16 -> 0 <= a < 16 -> 0 <= b < 16 -> 0 <= c < 16 -> 0 <= d < 16 ->
  runs (g v a b c d x y) (fun v' => zlen v' = 16).
Proof.
  intros. unfold g.
  assert (forall v x y z, zlen v = 16 -> 0 <= x < 16 -> 0 <= y < 16 ->
    runs (g_add v x y z) (fun v' => zlen v' = 16)) as Hadd.
  { intros. unfold g_add. repeat run_step. zl. }
  assert (forall v x y, zlen v = 16 -> 0 <= x < 16 -> 0 <= y < 16 ->
    runs (g_add2 v x y) (fun v' => zlen v' = 16)) as Hadd2.
  { intros. unfold g_add2. repeat run_step. zl. }
  assert (forall v x y n, zlen v = 16 -> 0 <= x < 16 -> 0 <= y < 16 ->
    runs (g_rot v x y n) (fun v' => zlen v' = 16)) as Hrot.
  { intros. unfold g_rot. repeat run_step. zl. }
  repeat (eapply runs_bind; [first [apply Hadd | apply Hadd2 | apply Hrot]; done | intros ? ?]).
  by apply Hrot.
Qed.

Lemma mix_runs m s v a b c d i j :
  zlen m = 16 -> zlen v = 16 -> zlen s = 16 -> Forall (fun k => 0 <= k < 16) s ->
  0 <= a < 16 -> 0 <= b < 16 -> 0 <= c < 16 -> 0 <= d < 16 -> 0 <= i < 16 -> 0 <= j < 16 ->
  runs (mix m s v a b c d i j) (fun v' => zlen v' = 16).
Proof.
  intros Hm Hv Hs HF ??????. unfold mix.
  apply runs_idx; [lia|]. intros si Hsi. pose proof (Forall_lookup_1 _ _ _ _ HF Hsi).
  apply runs_idx; [simpl in *; lia|]. intros.
  apply runs_idx; [lia|]. intros sj Hsj. pose proof (Forall_lookup_1 _ _ _ _ HF Hsj).
  apply runs_idx; [simpl in *; lia|]. intros. by apply g_runs.
Qed.

Lemma SIGMA_ok : Forall (fun s => zlen s = 16 /\ Forall (fun k => 0 <= k < 16) s) SIGMA.
Proof. repeat constructor; simpl; lia. Qed.

Lemma round_runs m r v :
  zlen m = 16 -> zlen v = 16 -> 0 <= r < ROUNDS ->
  runs (round m r v) (fun v' => zlen v' = 16).
Proof.
  intros Hm Hv Hr. unfold round. apply runs_idx; [done|]. intros s Hs.
  destruct (Forall_lookup_1 _ _ _ _ SIGMA_ok Hs) as [Hs16 Hsk].
  repeat (eapply runs_bind; [apply mix_runs; done || lia | intros ? ?]).
  apply mix_runs; done || lia.
Qed.

Lemma compress_runs h block t last :
  zlen h = 8 -> zlen block = BLOCK_LEN ->
  runs (compress h block t last) (fun h' => zlen h' = 8).
Proof.
  intros Hh Hb. unfold BLOCK_LEN in Hb. unfold compress.
  eapply runs_bind.
  { apply (for_up_inv (fun _ m => zlen m = 16)); [lia | done |].
    intros w m Hw Hm. gather_tac (w * 4) 4%nat. run_step. zl. }
  intros m Hm. eapply runs_bind.
  { apply (for_up_inv (fun _ v => zlen v = 16)); [lia | done |].
    intros i v Hi Hv. repeat run_step; [|zl].
    change (zlen IV) with 8. lia. }
  intros v Hv. do 4 run_step. eapply (runs_bind _ _ (fun v => zlen v = 16)).
  { destruct last; repeat run_step; zl. }
  intros v2 Hv2. eapply runs_bind.
  { apply (for_up_inv (fun _ v => zlen v = 16)); [done | done |].
    intros r v3 Hr Hv3. by apply round_runs. }
  intros v3 Hv3. apply (for_up_inv (fun _ h => zlen h = 8)); [lia | done |].
  intros j h' Hj Hh'. repeat run_step. zl.
Qed.

(** ** Lemmas: the driver *)

Lemma digest_bytes_eq h : zlen h = 8 -> digest_bytes h = Val (concat (map (to_le 4) h)).
Proof.
  intros Hh. destruct h as [|? [|? [|? [|? [|? [|? [|? [|? [|]]]]]]]]];
    rewrite ?zlen_cons, ?zlen_nil in Hh; try lia; [reflexivity|].
  match type of Hh with context [zlen ?l] => pose proof (zlen_nonneg l) end. lia.
Qed.

Lemma digest_length h : zlen h = 8 ->
  zlen (concat (map (to_le 4) h)) = 32 /\ bytes (concat (map (to_le 4) h)).
Proof.
  intros Hh. split.
  - assert (forall l : list Z, zlen (concat (map (to_le 4) l)) = 4 * zlen l) as H.
    { induction l as [|x l IH]; [done|]. cbn [map concat]. rewrite zlen_app, zlen_cons, IH. zl. }
    rewrite H. lia.
  - clear Hh. induction h; cbn [map concat]; auto with bytes.
Qed.

Lemma data_blocks_cons fuel msg :
  0 < zlen msg -> zlen msg <= Z.of_nat fuel ->
  data_blocks fuel msg =
    pad_block (ztake BLOCK_LEN msg) :: data_blocks (pred fuel) (zdrop BLOCK_LEN msg).
Proof.
  intros H0 Hf. destruct fuel as [|fuel]; [lia|]. destruct msg; [done|]. done.
Qed.

Lemma data_blocks_nil fuel msg : zlen msg = 0 -> data_blocks fuel msg = [].
Proof. intros H. apply zlen_0 in H as ->. by destruct fuel. Qed.

Lemma rfc_fold_cons total h i d fuel msg :
  0 < zlen msg -> zlen msg <= Z.of_nat fuel ->
  rfc_fold total h i (d :: data_blocks fuel msg) =
    (h' ← compress h d ((i + 1) * BLOCK_LEN) false;
     rfc_fold total h' (i + 1) (data_blocks fuel msg)).
Proof. intros H0 Hf. by rewrite (data_blocks_cons fuel) by done. Qed.

(** The block loop and the final block, from an offset on, are the fold over the
    remaining data blocks. *)
Lemma full_blocks_fold fuel fuel2 msg h i off t total :
  zlen h = 8 -> 0 <= off < zlen msg -> t = i * BLOCK_LEN -> 0 <= i ->
  t + (zlen msg - off) = total -> total < 2 ^ 64 ->
  zlen msg - off <= Z.of_nat fuel -> zlen msg - off <= Z.of_nat fuel2 ->
  ('(h, t, off) ← full_blocks fuel msg h t off;
   let rem := zlen msg - off in
   block ← copy_in rem msg off (zrepeat BLOCK_LEN 0);
   h ← compress h block (wrapping_add 64 t rem) true;
   digest_bytes h) =
  (h ← rfc_fold total h i (data_blocks fuel2 (zdrop off msg));
   Val (concat (map (to_le 4) h))).
Proof.
  revert fuel2 h i off t. induction fuel as [|fuel IH]; intros fuel2 h i off t
    Hh Hoff Ht Hi Htot Hmax Hf Hf2; [lia|].
  rewrite (data_blocks_cons fuel2) by zl. cbn [full_blocks].
  unfold wrapping_add. case_decide as Hgt; unfold BLOCK_LEN in Hgt.
  - rewrite copy_in_ok by (unfold BLOCK_LEN in *; zl). cbn [mbind res_bind].
    rewrite (zdrop_all BLOCK_LEN (zrepeat _ _)), app_nil_r by (unfold BLOCK_LEN; zl).
    rewrite rfc_fold_cons by (unfold BLOCK_LEN in *; zl).
    rewrite wrap_small by (unfold in_u, BLOCK_LEN in *; lia).
    rewrite zdrop_zdrop by (unfold BLOCK_LEN; lia).
    replace (pad_block (ztake BLOCK_LEN (zdrop off msg))) with (zsub off BLOCK_LEN msg).
    2:{ unfold pad_block. rewrite zlen_ztake, zlen_zdrop, Z.min_l by (unfold BLOCK_LEN; lia).
        unfold BLOCK_LEN. by rewrite app_nil_r. }
    replace ((i + 1) * BLOCK_LEN) with (t + BLOCK_LEN) by lia.
    rewrite !bind_assoc. eapply runs_eq.
    { apply compress_runs; [done|]. unfold BLOCK_LEN. zl. }
    intros h' Hh'. apply IH; unfold BLOCK_LEN in *; lia.
  - cbn [mbind res_bind]. rewrite copy_in_ok by (unfold BLOCK_LEN in *; zl). cbn [mbind res_bind].
    rewrite (data_blocks_nil (pred fuel2)) by (unfold BLOCK_LEN; zl). cbn [rfc_fold].
    rewrite wrap_small by (unfold in_u, BLOCK_LEN in *; lia). rewrite Htot.
    rewrite zdrop_zrepeat by lia.
    replace (pad_block (ztake BLOCK_LEN (zdrop off msg)))
      with (zsub off (zlen msg - off) msg ++ zrepeat (BLOCK_LEN - (zlen msg - off)) 0).
    2:{ unfold pad_block, zsub. rewrite !ztake_all by (unfold BLOCK_LEN; zl).
        do 2 f_equal. unfold BLOCK_LEN. zl. }
    eapply runs_eq.
    { apply compress_runs; [done|]. unfold BLOCK_LEN in *. zl. }
    intros h' Hh'. by apply digest_bytes_eq.
Qed.

(** What the initial chaining value is, keyed or not. *)
Lemma init_runs w : exists h, upd IV 0 w = Val h /\ zlen h = 8.
Proof. eexists. split; [by apply upd_ok | done]. Qed.

Lemma blake2s_rfc key msg :
  match key with Some k => zlen k = KHASH_KEY_LEN | None => True end ->
  zlen msg < 2 ^ 63 -> blake2s key msg = rfc7693 key msg.
Proof.
  intros Hk Hmsg. unfold blake2s, rfc7693, rfc_blocks.
  change (idx IV 0) with (Val 0x6A09E667). cbn [mbind res_bind].
  match goal with |- context [upd IV 0 ?w] => destruct (init_runs w) as (h & -> & Hh) end.
  cbn [mbind res_bind].
  assert (forall m : list Z, m <> [] -> 0 < zlen m) as Hpos.
  { intros [|x m] ?; [done|]. rewrite zlen_cons. pose proof (zlen_nonneg m). lia. }
  destruct key as [k|]; unfold KHASH_KEY_LEN in *.
  - rewrite copy_loop_front by (unfold BLOCK_LEN; zl). cbn [mbind res_bind].
    rewrite (ztake_all 32 k), zdrop_zrepeat by lia.
    replace (k ++ zrepeat (BLOCK_LEN - 32) 0) with (pad_block k) by (unfold pad_block; by rewrite Hk).
    assert (zlen (pad_block k) = BLOCK_LEN) as Hpk.
    { unfold pad_block, BLOCK_LEN. zl. }
    destruct (decide (msg = [])) as [->|Hne].
    + rewrite bool_decide_true by done. cbn [length data_blocks app rfc_fold].
      change (zlen [] + BLOCK_LEN) with BLOCK_LEN.
      eapply runs_eq; [by apply compress_runs|]. intros. by apply digest_bytes_eq.
    + rewrite bool_decide_false by done. specialize (Hpos msg Hne). cbn [app].
      rewrite rfc_fold_cons by (unfold zlen in *; lia).
      rewrite bind_assoc. change ((0 + 1) * BLOCK_LEN) with BLOCK_LEN.
      eapply runs_eq; [by apply compress_runs|]. intros h' Hh'.
      rewrite (full_blocks_fold _ (length msg) msg h' 1 0 BLOCK_LEN (zlen msg + BLOCK_LEN));
        [by rewrite zdrop_0 | ..]; unfold BLOCK_LEN, zlen in *; lia.
  - destruct (decide (msg = [])) as [->|Hne].
    + rewrite bool_decide_true by done. cbn [length data_blocks app rfc_fold].
      change (pad_block []) with (zrepeat BLOCK_LEN 0). change (zlen []) with 0.
      eapply runs_eq; [by apply compress_runs|]. intros. by apply digest_bytes_eq.
    + rewrite bool_decide_false by done. specialize (Hpos msg Hne). cbn [app].
      assert (match data_blocks (length msg) msg with [] => [pad_block []] | ds => ds end
              = data_blocks (length msg) msg) as ->.
      { rewrite data_blocks_cons by (unfold zlen in *; lia). done. }
      rewrite (full_blocks_fold _ (length msg) msg h 0 0 0 (zlen msg));
        [by rewrite zdrop_0 | ..]; unfold BLOCK_LEN, zlen in *; lia.
Qed.

(** The hash never panics, whatever the message length. *)
Lemma full_blocks_runs fuel msg h t off :
  zlen h = 8 -> 0 <= off -> zlen msg - off <= Z.of_nat fuel -> (off < zlen msg \/ msg = [] /\ off = 0) ->
  runs (full_blocks fuel msg h t off) (fun r => let '(h', _, off') := r in
    zlen h' = 8 /\ 0 <= off' /\ 0 <= zlen msg - off' <= BLOCK_LEN).
Proof.
  revert h t off. induction fuel as [|fuel IH]; intros h t off Hh Ho Hf Hlt; cbn [full_blocks];
    case_decide as Hgt; unfold BLOCK_LEN in Hgt.
  - lia.
  - apply runs_val. destruct Hlt as [|[-> ->]]; unfold BLOCK_LEN; zl.
  - rewrite copy_in_ok by (unfold BLOCK_LEN in *; zl). cbn [mbind res_bind].
    eapply runs_bind; [apply compress_runs; [done | unfold BLOCK_LEN; zl]|].
    intros h' Hh'. apply IH; [done | | | left]; unfold BLOCK_LEN; lia.
  - apply runs_val. destruct Hlt as [|[-> ->]]; unfold BLOCK_LEN; zl.
Qed.

Lemma digest_bytes_runs h : zlen h = 8 -> runs (digest_bytes h) (fun d => zlen d = 32 /\ bytes d).
Proof. intros Hh. rewrite digest_bytes_eq by done. by apply runs_val, digest_length. Qed.

Lemma blake2s_runs key msg :
  match key with Some k => zlen k = KHASH_KEY_LEN | None => True end ->
  runs (blake2s key msg) (fun d => zlen d = 32 /\ bytes d).
Proof.
  intros Hk. unfold blake2s. change (idx IV 0) with (Val 0x6A09E667). cbn [mbind res_bind].
  match goal with |- context [upd IV 0 ?w] => destruct (init_runs w) as (h & -> & Hh) end.
  cbn [mbind res_bind].
  assert (forall h t, zlen h = 8 ->
    runs ('(h, t, off) ← full_blocks (length msg) msg h t 0;
          block ← copy_in (zlen msg - off) msg off (zrepeat BLOCK_LEN 0);
          h ← compress h block (wrapping_add 64 t (zlen msg - off)) true;
          digest_bytes h) (fun d => zlen d = 32 /\ bytes d)) as Hrest.
  { intros h' t Hh'. eapply runs_bind.
    { apply full_blocks_runs; [done | lia | unfold zlen; lia |].
      destruct msg; [by right | left; zl]. }
    intros [[h2 t2] off] (Hh2 & Ho & Hr).
    rewrite copy_in_ok by (unfold BLOCK_LEN in *; zl). cbn [mbind res_bind].
    eapply runs_bind; [apply compress_runs; [done | unfold BLOCK_LEN in *; zl]|].
    intros; by apply digest_bytes_runs. }
  destruct key as [k|].
  - unfold KHASH_KEY_LEN in *.
    rewrite copy_loop_front by (unfold BLOCK_LEN; zl). cbn [mbind res_bind].
    eapply runs_bind; [apply compress_runs; [done | unfold BLOCK_LEN; zl]|].
    intros h' Hh'. case_bool_decide; [by apply digest_bytes_runs | by apply Hrest].
  - case_bool_decide; [|by apply Hrest].
    eapply runs_bind; [by apply compress_runs|]. intros; by apply digest_bytes_runs.
Qed.

#[global] Instance uhash_digest : Digest uhash.
Proof. intros msg. by apply blake2s_runs. Qed.

Lemma khash_digest key : zlen key = KHASH_KEY_LEN -> Digest (khash key).
Proof. intros Hk msg. by apply blake2s_runs. Qed.

(** ** Properties *)

(** C27: the one-shot hash computes RFC 7693 BLAKE2s-256.  For every message a 64-bit byte
    counter can count, keyed with a 32-byte key or unkeyed, the incremental block loop
    (with its buffer reuse, its wrapping counter, its special cases for the empty message
    and for a key block that is also the last block) never panics, returns 32 bytes, and
    returns exactly what the specification's fold over zero-padded blocks returns; and
    the three vectors of the boot self-test are reproduced. *)
Theorem blake2s_computes_rfc7693 (key : option (list Z)) (msg : list Z)
  (Hkey : match key with Some k => zlen k = KHASH_KEY_LEN | None => True end)
  (Hmsg : zlen msg < 2 ^ 63) :
  blake2s key msg = rfc7693 key msg /\
  (exists d, blake2s key msg = Val d /\ zlen d = KHASH_TAG_LEN /\ bytes d) /\
  kat_ok = Val true.
Proof. split; [by apply blake2s_rfc | split; [by apply blake2s_runs | by vm_compute]]. Qed.

Lemma blake2s_computes_rfc7693_witness :
  khash KAT_KEY [] = rfc7693 (Some KAT_KEY) [] /\ rfc7693 (Some KAT_KEY) [] = Val KAT_KEYED_EMPTY /\
  uhash [0x61; 0x62; 0x63] = rfc7693 None [0x61; 0x62; 0x63].
Proof.
  split; [|split].
  - apply (blake2s_computes_rfc7693 (Some KAT_KEY) []); [reflexivity | vm_compute; reflexivity].
  - vm_compute. reflexivity.
  - apply (blake2s_computes_rfc7693 None [0x61; 0x62; 0x63]);
      [exact I | vm_compute; reflexivity].
Defined.
