(* ===== verification/Sha256.v ===== *)
(** * SHA-256: [crates/tb-encode/src/sha256.rs].

    The compression function, the one-shot hash, the streaming state ([new], [update],
    [finalize]) and the boot known-answer test; against them the FIPS 180-4 definition
    (pad, cut into 64-byte blocks, fold).  Both drivers compute it. *)
From Stdlib Require Import ZArith Lia.
From stdpp Require Import base numbers option tactics sets list.
From S2P Require Import Prelude.
Open Scope Z_scope.

Definition SHA256_DIGEST_LEN : Z := 32.
Definition BLOCK_LEN : Z := 64.

Definition H0 : list Z :=
  [0x6A09E667; 0xBB67AE85; 0x3C6EF372; 0xA54FF53A;
   0x510E527F; 0x9B05688C; 0x1F83D9AB; 0x5BE0CD19].

Definition K : list Z :=
  [0x428A2F98; 0x71374491; 0xB5C0FBCF; 0xE9B5DBA5;
   0x3956C25B; 0x59F111F1; 0x923F82A4; 0xAB1C5ED5;
   0xD807AA98; 0x12835B01; 0x243185BE; 0x550C7DC3;
   0x72BE5D74; 0x80DEB1FE; 0x9BDC06A7; 0xC19BF174;
   0xE49B69C1; 0xEFBE4786; 0x0FC19DC6; 0x240CA1CC;
   0x2DE92C6F; 0x4A7484AA; 0x5CB0A9DC; 0x76F988DA;
   0x983E5152; 0xA831C66D; 0xB00327C8; 0xBF597FC7;
   0xC6E00BF3; 0xD5A79147; 0x06CA6351; 0x14292967;
   0x27B70A85; 0x2E1B2138; 0x4D2C6DFC; 0x53380D13;
   0x650A7354; 0x766A0ABB; 0x81C2C92E; 0x92722C85;
   0xA2BFE8A1; 0xA81A664B; 0xC24B8B70; 0xC76C51A3;
   0xD192E819; 0xD6990624; 0xF40E3585; 0x106AA070;
   0x19A4C116; 0x1E376C08; 0x2748774C; 0x34B0BCB5;
   0x391C0CB3; 0x4ED8AA4A; 0x5B9CCA4F; 0x682E6FF3;
   0x748F82EE; 0x78A5636F; 0x84C87814; 0x8CC70208;
   0x90BEFFFA; 0xA4506CEB; 0xBEF9A3F7; 0xC67178F2].

Definition rotr (v n : Z) : Z := rotate_right 32 v n.

(** The eight working variables of a round. *)
Record vars := { v_a : Z; v_b : Z; v_c : Z; v_d : Z; v_e : Z; v_f : Z; v_g : Z; v_hh : Z }.

Definition compress (h block : list Z) : res (list Z) :=
  w ← for_up 0 16 (fun t w =>
        let base := t * 4 in
        bs ← gather block [base; base + 1; base + 2; base + 3];
        upd w t (of_be bs)) (zrepeat 64 0);
  w ← for_up 16 64 (fun t w =>
        w15 ← idx w (t - 15);
        let s0 := Z.lxor (Z.lxor (rotr w15 7) (rotr w15 18)) (Z.shiftr w15 3) in
        w2 ← idx w (t - 2);
        let s1 := Z.lxor (Z.lxor (rotr w2 17) (rotr w2 19)) (Z.shiftr w2 10) in
        w16 ← idx w (t - 16);
        w7 ← idx w (t - 7);
        upd w t (wrapping_add 32 (wrapping_add 32 (wrapping_add 32 w16 s0) w7) s1)) w;
  a ← idx h 0; b ← idx h 1; c ← idx h 2; d ← idx h 3;
  e ← idx h 4; f ← idx h 5; g ← idx h 6; hh ← idx h 7;
  v ← for_up 0 64 (fun i v =>
        let '(Build_vars a b c d e f g hh) := v in
        let big_s1 := Z.lxor (Z.lxor (rotr e 6) (rotr e 11)) (rotr e 25) in
        let ch := Z.lxor (Z.land e f) (Z.land (bit_not 32 e) g) in
        ki ← idx K i;
        wi ← idx w i;
        let t1 := wrapping_add 32 (wrapping_add 32 (wrapping_add 32
                    (wrapping_add 32 hh big_s1) ch) ki) wi in
        let big_s0 := Z.lxor (Z.lxor (rotr a 2) (rotr a 13)) (rotr a 22) in
        let maj := Z.lxor (Z.lxor (Z.land a b) (Z.land a c)) (Z.land b c) in
        let t2 := wrapping_add 32 big_s0 maj in
        Val (Build_vars (wrapping_add 32 t1 t2) a b c (wrapping_add 32 d t1) e f g))
      (Build_vars a b c d e f g hh);
  h0 ← idx h 0; h ← upd h 0 (wrapping_add 32 h0 (v_a v));
  h1 ← idx h 1; h ← upd h 1 (wrapping_add 32 h1 (v_b v));
  h2 ← idx h 2; h ← upd h 2 (wrapping_add 32 h2 (v_c v));
  h3 ← idx h 3; h ← upd h 3 (wrapping_add 32 h3 (v_d v));
  h4 ← idx h 4; h ← upd h 4 (wrapping_add 32 h4 (v_e v));
  h5 ← idx h 5; h ← upd h 5 (wrapping_add 32 h5 (v_f v));
  h6 ← idx h 6; h ← upd h 6 (wrapping_add 32 h6 (v_g v));
  h7 ← idx h 7; upd h 7 (wrapping_add 32 h7 (v_hh v)).

Definition digest_bytes (h : list Z) : res (list Z) :=
  for_up 0 8 (fun i out =>
    hi ← idx h i;
    let b := to_be 4 hi in
    let base := i * 4 in
    b0 ← idx b 0; out ← upd out base b0;
    b1 ← idx b 1; out ← upd out (base + 1) b1;
    b2 ← idx b 2; out ← upd out (base + 2) b2;
    b3 ← idx b 3; upd out (base + 3) b3) (zrepeat SHA256_DIGEST_LEN 0).

(** The loop over every full block; the remainder strictly decreases, so the message
    length is enough fuel. *)
Fixpoint full_blocks (fuel : nat) (msg h : list Z) (off : Z) : res (list Z * Z) :=
  if decide (zlen msg - off >= BLOCK_LEN) then
    match fuel with
    | O => Panic
    | S fuel' =>
        block ← copy_in BLOCK_LEN msg off (zrepeat BLOCK_LEN 0);
        h ← compress h block;
        full_blocks fuel' msg h (off + BLOCK_LEN)
    end
  else Val (h, off).

Definition sha256 (msg : list Z) : res (list Z) :=
  '(h, off) ← full_blocks (length msg) msg H0 0;
  let rem := zlen msg - off in
  let bit_len := wrapping_mul 64 (zlen msg) 8 in
  block ← copy_in rem msg off (zrepeat BLOCK_LEN 0);
  block ← upd block rem 0x80;
  '(h, block) ← (if decide (rem >= 56)
                 then h ← compress h block; Val (h, zrepeat BLOCK_LEN 0)
                 else Val (h, block));
  let lb := to_be 8 bit_len in
  block ← copy_loop 8 lb 56 block;
  h ← compress h block;
  digest_bytes h.

(** The streaming state. *)
Record Sha256 := { s_h : list Z; s_block : list Z; s_buf_len : Z; s_total_len : Z }.

Definition new : Sha256 :=
  {| s_h := H0; s_block := zrepeat BLOCK_LEN 0; s_buf_len := 0; s_total_len := 0 |}.

Definition default : Sha256 := new.

(** One turn of [update]'s loop: store a byte, and flush the block when it fills. *)
Definition absorb (s : Sha256) (byte : Z) : res Sha256 :=
  block ← upd (s_block s) (s_buf_len s) byte;
  let buf_len := s_buf_len s + 1 in
  if decide (buf_len = BLOCK_LEN) then
    h ← compress (s_h s) block;
    Val {| s_h := h; s_block := block; s_buf_len := 0; s_total_len := s_total_len s |}
  else
    Val {| s_h := s_h s; s_block := block; s_buf_len := buf_len; s_total_len := s_total_len s |}.

Definition update (s : Sha256) (data : list Z) : res Sha256 :=
  s ← for_up 0 (zlen data) (fun i s => b ← idx data i; absorb s b) s;
  Val {| s_h := s_h s; s_block := s_block s; s_buf_len := s_buf_len s;
         s_total_len := wrapping_add 64 (s_total_len s) (zlen data) |}.

(** [while self.buf_len < limit { self.block[self.buf_len] = 0; self.buf_len += 1 }] *)
Definition zero_fill (block : list Z) (buf_len limit : Z) : res (list Z) :=
  for_up buf_len limit (fun i b => upd b i 0) block.

Definition finalize (s : Sha256) : res (list Z) :=
  let bit_len := wrapping_mul 64 (s_total_len s) 8 in
  block ← upd (s_block s) (s_buf_len s) 0x80;
  let buf_len := s_buf_len s + 1 in
  '(h, block, buf_len) ←
    (if decide (buf_len > 56) then
       block ← zero_fill block buf_len BLOCK_LEN;
       h ← compress (s_h s) block;
       Val (h, block, 0)
     else Val (s_h s, block, buf_len));
  block ← zero_fill block buf_len 56;
  let lb := to_be 8 bit_len in
  block ← copy_loop 8 lb 56 block;
  h ← compress h block;
  digest_bytes h.

Definition KAT_ABC : list Z :=
  [0xBA; 0x78; 0x16; 0xBF; 0x8F; 0x01; 0xCF; 0xEA;
   0x41; 0x41; 0x40; 0xDE; 0x5D; 0xAE; 0x22; 0x23;
   0xB0; 0x03; 0x61; 0xA3; 0x96; 0x17; 0x7A; 0x9C;
   0xB4; 0x10; 0xFF; 0x61; 0xF2; 0x00; 0x15; 0xAD].
Definition KAT_EMPTY : list Z :=
  [0xE3; 0xB0; 0xC4; 0x42; 0x98; 0xFC; 0x1C; 0x14;
   0x9A; 0xFB; 0xF4; 0xC8; 0x99; 0x6F; 0xB9; 0x24;
   0x27; 0xAE; 0x41; 0xE4; 0x64; 0x9B; 0x93; 0x4C;
   0xA4; 0x95; 0x99; 0x1B; 0x78; 0x52; 0xB8; 0x55].
Definition KAT_ABC2 : list Z :=
  [0x24; 0x8D; 0x6A; 0x61; 0xD2; 0x06; 0x38; 0xB8;
   0xE5; 0xC0; 0x26; 0x93; 0x0C; 0x3E; 0x60; 0x39;
   0xA3; 0x3C; 0xE4; 0x59; 0x64; 0xFF; 0x21; 0x67;
   0xF6; 0xEC; 0xED; 0xD4; 0x19; 0xDB; 0x06; 0xC1].
(** [b"abcdbcdecdefdefgefghfghighijhijkijkljklmklmnlmnomnopnopq"] *)
Definition KAT_ABC2_MSG : list Z :=
  [97; 98; 99; 100; 98; 99; 100; 101; 99; 100; 101; 102; 100; 101; 102; 103;
   101; 102; 103; 104; 102; 103; 104; 105; 103; 104; 105; 106; 104; 105; 106; 107;
   105; 106; 107; 108; 106; 107; 108; 109; 107; 108; 109; 110; 108; 109; 110; 111;
   109; 110; 111; 112; 110; 111; 112; 113].

Definition kat_ok : res bool :=
  abc ← sha256 [0x61; 0x62; 0x63];
  empty ← sha256 [];
  abc2 ← sha256 KAT_ABC2_MSG;
  for_up 0 SHA256_DIGEST_LEN (fun i ok =>
    if ok : bool then
      a ← idx abc i; ka ← idx KAT_ABC i;
      if a =? ka then
        e ← idx empty i; ke ← idx KAT_EMPTY i;
        if e =? ke then
          c ← idx abc2 i; kc ← idx KAT_ABC2 i; Val (c =? kc)
        else Val false
      else Val false
    else Val false) true.

Example sha256_kat : kat_ok = Val true.
Proof. vm_compute. reflexivity. Qed.

(** ** Specification: FIPS 180-4, sections 5.1.1 and 6.2 *)

(** The message, a [0x80] byte, as few zeros as complete a block, the bit length. *)
Definition fips_pad (msg : list Z) : list Z :=
  msg ++ [0x80] ++ zrepeat ((55 - zlen msg) mod 64) 0 ++ to_be 8 (wrapping_mul 64 (zlen msg) 8).

Fixpoint fold_blocks (k : nat) (h msg : list Z) : res (list Z) :=
  match k with
  | O => Val h
  | S k' => h' ← compress h (ztake BLOCK_LEN msg); fold_blocks k' h' (zdrop BLOCK_LEN msg)
  end.

Definition fips180 (msg : list Z) : res (list Z) :=
  let p := fips_pad msg in
  h ← fold_blocks (Z.to_nat (zlen p / BLOCK_LEN)) H0 p;
  Val (concat (map (to_be 4) h)).

(** ** Lemmas: totality *)

Lemma sha256_compress_runs h block :
  zlen h = 8 -> zlen block = BLOCK_LEN -> runs (compress h block) (fun h' => zlen h' = 8).
Proof.
  intros Hh Hb. unfold BLOCK_LEN in Hb. unfold compress.
  eapply runs_bind.
  { apply (for_up_inv (fun _ w => zlen w = 64)); [lia | done |].
    intros t w Ht Hw. gather_tac (t * 4) 4%nat. run_step. zl. }
  intros w Hw. eapply runs_bind.
  { apply (for_up_inv (fun _ w => zlen w = 64)); [lia | done |].
    intros t w' Ht Hw'. repeat run_step. zl. }
  intros w' Hw'. do 8 run_step. eapply runs_bind.
  { apply (for_up_inv (fun _ _ => True)); [lia | done |].
    intros i [] Hi _. apply runs_idx; [done|]. intros ki _. by repeat run_step. }
  intros v _. repeat run_step. zl.
Qed.

Lemma sha256_digest_bytes_eq h : zlen h = 8 -> digest_bytes h = Val (concat (map (to_be 4) h)).
Proof.
  intros Hh. destruct h as [|? [|? [|? [|? [|? [|? [|? [|? [|]]]]]]]]];
    rewrite ?zlen_cons, ?zlen_nil in Hh; try lia; [reflexivity|].
  match type of Hh with context [zlen ?l] => pose proof (zlen_nonneg l) end. lia.
Qed.

Lemma sha256_digest_length h : zlen h = 8 ->
  zlen (concat (map (to_be 4) h)) = 32 /\ bytes (concat (map (to_be 4) h)).
Proof.
  intros Hh. split.
  - assert (forall l : list Z, zlen (concat (map (to_be 4) l)) = 4 * zlen l) as H.
    { induction l as [|x l IH]; [done|]. cbn [map concat]. rewrite zlen_app, zlen_cons, IH. zl. }
    rewrite H. lia.
  - clear Hh. induction h; cbn [map concat]; auto with bytes.
Qed.

Lemma fold_blocks_runs k h msg :
  zlen h = 8 -> BLOCK_LEN * Z.of_nat k <= zlen msg ->
  runs (fold_blocks k h msg) (fun h' => zlen h' = 8).
Proof.
  revert h msg. induction k as [|k IH]; intros h msg Hh Hm; [by apply runs_val|].
  unfold BLOCK_LEN in Hm. cbn [fold_blocks].
  eapply runs_bind; [apply sha256_compress_runs; [done | unfold BLOCK_LEN; zl]|].
  intros h' Hh'. apply IH; [done|]. unfold BLOCK_LEN. zl.
Qed.

(** ** Lemmas: the block fold *)

Lemma fold_blocks_app k1 k2 h m1 m2 :
  zlen m1 = BLOCK_LEN * Z.of_nat k1 ->
  fold_blocks (k1 + k2) h (m1 ++ m2) = (h' ← fold_blocks k1 h m1; fold_blocks k2 h' m2).
Proof.
  revert h m1. induction k1 as [|k1 IH]; intros h m1 Hm.
  - apply zlen_0 in Hm as ->. done.
  - unfold BLOCK_LEN in Hm. cbn [Nat.add fold_blocks].
    rewrite ztake_app_le, zdrop_app_le by (unfold BLOCK_LEN; lia).
    rewrite bind_assoc. destruct (compress _ _); [|done]. cbn [mbind res_bind].
    apply IH. unfold BLOCK_LEN. zl.
Qed.

Lemma fold_blocks_one h b : zlen b = BLOCK_LEN -> fold_blocks 1 h b = compress h b.
Proof.
  intros Hb. cbn [fold_blocks]. rewrite ztake_all by lia. by destruct (compress h b).
Qed.

(** The padded message, split at its last whole block. *)
Lemma fips_pad_short full rest :
  zlen full mod 64 = 0 -> zlen rest < 56 ->
  fips_pad (full ++ rest) = full ++ (rest ++ [0x80] ++ zrepeat (55 - zlen rest) 0 ++
    to_be 8 (wrapping_mul 64 (zlen (full ++ rest)) 8)).
Proof.
  intros Hf Hr. unfold fips_pad. rewrite <-app_assoc. do 4 f_equal.
  f_equal. rewrite zlen_app. pose proof (zlen_nonneg rest).
  rewrite (Z.div_mod (zlen full) 64), Hf by lia.
  replace (55 - (64 * (zlen full / 64) + 0 + zlen rest))
    with (55 - zlen rest + (- (zlen full / 64)) * 64) by lia.
  rewrite Z.mod_add by lia. apply Z.mod_small. lia.
Qed.

Lemma fips_pad_long full rest :
  zlen full mod 64 = 0 -> 56 <= zlen rest < 64 ->
  fips_pad (full ++ rest) = full ++ (rest ++ [0x80] ++ zrepeat (63 - zlen rest) 0) ++
    (zrepeat 56 0 ++ to_be 8 (wrapping_mul 64 (zlen (full ++ rest)) 8)).
Proof.
  intros Hf Hr. unfold fips_pad.
  assert (zrepeat ((55 - zlen (full ++ rest)) mod 64) 0
          = zrepeat (63 - zlen rest) 0 ++ zrepeat 56 (0:Z)) as ->.
  { unfold zrepeat. rewrite <-replicate_add, <-Z2Nat.inj_add by lia. do 2 f_equal.
    rewrite zlen_app, (Z.div_mod (zlen full) 64), Hf by lia.
    replace (55 - (64 * (zlen full / 64) + 0 + zlen rest))
      with (119 - zlen rest + (- (zlen full / 64) - 1) * 64) by lia.
    rewrite Z.mod_add, Z.mod_small by lia. lia. }
  by rewrite <-!app_assoc.
Qed.

(** What both drivers do once the whole blocks are absorbed: the last block (or two). *)
Definition last_blocks (h rest len8 : list Z) : res (list Z) :=
  if decide (zlen rest < 56) then
    compress h (rest ++ [0x80] ++ zrepeat (55 - zlen rest) 0 ++ len8)
  else
    h' ← compress h (rest ++ [0x80] ++ zrepeat (63 - zlen rest) 0);
    compress h' (zrepeat 56 0 ++ len8).

Lemma fips180_split full rest k h :
  zlen full = BLOCK_LEN * Z.of_nat k -> zlen rest < 64 -> fold_blocks k H0 full = Val h ->
  fips180 (full ++ rest) =
    (h ← last_blocks h rest (to_be 8 (wrapping_mul 64 (zlen (full ++ rest)) 8));
     Val (concat (map (to_be 4) h))).
Proof.
  intros Hf Hr Hh. unfold fips180, last_blocks. unfold BLOCK_LEN in *.
  assert (zlen full mod 64 = 0) as Hmod.
  { rewrite Hf, Z.mul_comm. apply Z.mod_mul. lia. }
  case_decide as Hd.
  - rewrite fips_pad_short by done.
    match goal with |- context [fold_blocks _ _ (full ++ ?b)] => set (blk := b) end.
    assert (zlen blk = 64) as Hblk by (unfold blk; zl).
    replace (Z.to_nat (zlen (full ++ blk) / 64)) with (k + 1)%nat.
    2:{ rewrite zlen_app, Hf, Hblk. replace (64 * Z.of_nat k + 64) with ((Z.of_nat k + 1) * 64) by lia.
        rewrite Z.div_mul by lia. lia. }
    rewrite fold_blocks_app by done. rewrite Hh. rewrite !bind_val.
    by rewrite fold_blocks_one.
  - rewrite fips_pad_long by lia.
    match goal with |- context [fold_blocks _ _ (full ++ ?b ++ ?c)] => set (b1 := b); set (b2 := c) end.
    assert (zlen b1 = 64) as H1 by (unfold b1; zl).
    assert (zlen b2 = 64) as H2 by (unfold b2; zl).
    replace (Z.to_nat (zlen (full ++ b1 ++ b2) / 64)) with (k + (1 + 1))%nat.
    2:{ rewrite !zlen_app, Hf, H1, H2. replace (64 * Z.of_nat k + (64 + 64)) with ((Z.of_nat k + 2) * 64) by lia.
        rewrite Z.div_mul by lia. lia. }
    rewrite fold_blocks_app by done. rewrite Hh. rewrite !bind_val.
    rewrite fold_blocks_app by done. rewrite !bind_assoc, fold_blocks_one by done.
    destruct (compress h b1); [|done]. rewrite !bind_val. by rewrite fold_blocks_one.
Qed.

Lemma last_blocks_runs h rest len8 :
  zlen h = 8 -> zlen rest < 64 -> zlen len8 = 8 ->
  runs (last_blocks h rest len8) (fun h' => zlen h' = 8).
Proof.
  intros Hh Hr Hl. unfold last_blocks. case_decide.
  - apply sha256_compress_runs; [done|]. unfold BLOCK_LEN. zl.
  - eapply runs_bind; [apply sha256_compress_runs; [done | unfold BLOCK_LEN; zl]|].
    intros h' Hh'. apply sha256_compress_runs; [done|]. unfold BLOCK_LEN. zl.
Qed.

Lemma H0_fold_runs k m h :
  zlen m = BLOCK_LEN * Z.of_nat k -> fold_blocks k H0 m = Val h -> zlen h = 8.
Proof.
  intros Hm E. destruct (fold_blocks_runs k H0 m) as (h' & E' & H); [done | lia|].
  rewrite E in E'. by injection E' as ->.
Qed.

Lemma fold_blocks_total k m :
  zlen m = BLOCK_LEN * Z.of_nat k -> exists h, fold_blocks k H0 m = Val h /\ zlen h = 8.
Proof. intros Hm. apply fold_blocks_runs; [done | lia]. Qed.

(** Every message is whole blocks and a remainder shorter than a block. *)
Lemma block_split (m : list Z) :
  exists full rest k, m = full ++ rest /\ zlen full = BLOCK_LEN * Z.of_nat k /\ zlen rest < 64.
Proof.
  pose proof (zlen_nonneg m). pose proof (Z.div_mod (zlen m) 64 ltac:(lia)).
  pose proof (Z.mod_pos_bound (zlen m) 64 ltac:(lia)).
  pose proof (Z.div_pos (zlen m) 64 ltac:(lia) ltac:(lia)).
  destruct (zsplit (64 * (zlen m / 64)) m) as (full & rest & -> & Hf); [lia|].
  exists full, rest, (Z.to_nat (zlen (full ++ rest) / 64)). unfold BLOCK_LEN.
  split; [done|]. rewrite zlen_app in *. split; lia.
Qed.

(** ** Lemmas: the one-shot driver *)

Lemma sha256_full_blocks_fold fuel full rest pre h k :
  zlen full = BLOCK_LEN * Z.of_nat k -> zlen rest < 64 -> zlen full <= Z.of_nat fuel ->
  full_blocks fuel (pre ++ full ++ rest) h (zlen pre) =
    (h' ← fold_blocks k h full; Val (h', zlen pre + zlen full)).
Proof.
  revert fuel full pre h. induction k as [|k IH]; intros fuel full pre h Hf Hr Hfu.
  - assert (full = []) as -> by (apply zlen_0; lia).
    destruct fuel; cbn [full_blocks fold_blocks];
      (rewrite decide_False by (unfold BLOCK_LEN; zl)); rewrite bind_val; do 2 f_equal; zl.
  - unfold BLOCK_LEN in Hf. destruct (zsplit 64 full) as (b & full' & -> & Hb); [lia|].
    rewrite zlen_app in Hf, Hfu. pose proof (zlen_nonneg full').
    destruct fuel as [|fuel]; [lia|]. cbn [full_blocks fold_blocks].
    rewrite decide_True by (unfold BLOCK_LEN; zl).
    rewrite copy_in_ok by (unfold BLOCK_LEN; zl). rewrite bind_val.
    rewrite (zdrop_all BLOCK_LEN (zrepeat _ _)), app_nil_r by (unfold BLOCK_LEN; zl).
    rewrite ztake_app_eq, zdrop_app_eq by done. rewrite <-(app_assoc b).
    rewrite zsub_app_mid by done. rewrite bind_assoc.
    destruct (compress h b) as [h'|]; [|done]. rewrite !bind_val.
    rewrite app_assoc. replace (zlen pre + BLOCK_LEN) with (zlen (pre ++ b)) by (unfold BLOCK_LEN; zl).
    rewrite IH by (try (unfold BLOCK_LEN; lia); lia).
    destruct (fold_blocks k h' full'); [|done]. rewrite !bind_val. do 2 f_equal. zl.
Qed.

Lemma sha256_fips msg : sha256 msg = fips180 msg.
Proof.
  destruct (block_split msg) as (full & rest & k & -> & Hf & Hr).
  destruct (fold_blocks_total k full Hf) as (h & Hfold & Hh).
  rewrite (fips180_split full rest k h) by done.
  unfold sha256. rewrite (sha256_full_blocks_fold _ full rest [] H0 k); [|done|done|].
  2:{ rewrite length_app. unfold zlen. lia. }
  rewrite Hfold, !bind_val. cbn [app]. change (zlen []) with 0. rewrite Z.add_0_l.
  set (len8 := to_be 8 _). assert (zlen len8 = 8) as Hl8 by (unfold len8; zl).
  replace (zlen (full ++ rest) - zlen full) with (zlen rest) by zl.
  unfold BLOCK_LEN in *. pose proof (zlen_nonneg rest). pose proof (zlen_nonneg full).
  rewrite copy_in_ok by (zl; lia).
  replace (zsub (zlen full) (zlen rest) (full ++ rest)) with rest.
  2:{ symmetry. rewrite <-(app_nil_r rest) at 2. by apply zsub_app_mid. }
  rewrite bind_val, zdrop_zrepeat, upd_next, bind_val by zl.
  rewrite zdrop_zrepeat by lia.
  unfold last_blocks. case_decide as Hd; [rewrite decide_False by lia | rewrite decide_True by lia].
  - destruct (sha256_compress_runs h ((rest ++ [0x80]) ++ zrepeat (64 - zlen rest - 1) 0)) as (h1 & E1 & Hh1);
      [done | unfold BLOCK_LEN; zl|].
    replace ((rest ++ [0x80]) ++ zrepeat (64 - zlen rest - 1) 0)
      with (rest ++ [0x80] ++ zrepeat (63 - zlen rest) (0:Z)) in *
      by (rewrite <-app_assoc; do 3 f_equal; lia).
    rewrite E1, !bind_val.
    change (zrepeat 64 0) with (zrepeat 56 0 ++ zrepeat 8 (0:Z)).
    rewrite copy_loop_next by zl. rewrite bind_val, ztake_all, zdrop_all, app_nil_r by zl.
    eapply runs_eq; [apply sha256_compress_runs; [done | unfold BLOCK_LEN; zl]|].
    intros; by apply sha256_digest_bytes_eq.
  - rewrite !bind_val.
    replace (zrepeat (64 - zlen rest - 1) 0) with (zrepeat (55 - zlen rest) 0 ++ zrepeat 8 (0:Z)).
    2:{ unfold zrepeat. rewrite <-replicate_add. f_equal. lia. }
    rewrite app_assoc, copy_loop_next by zl. rewrite bind_val, ztake_all, zdrop_all, app_nil_r by zl.
    rewrite <-!app_assoc.
    eapply runs_eq; [apply sha256_compress_runs; [done | unfold BLOCK_LEN; zl]|].
    intros; by apply sha256_digest_bytes_eq.
Qed.

(** ** Lemmas: the streaming driver *)

(** The state after absorbing [m]: whole blocks compressed, the remainder buffered. *)
Definition absorbed (m : list Z) (s : Sha256) : Prop :=
  exists full rest tl k,
    m = full ++ rest /\ zlen full = BLOCK_LEN * Z.of_nat k /\
    fold_blocks k H0 full = Val (s_h s) /\
    s_block s = rest ++ tl /\ zlen (s_block s) = BLOCK_LEN /\
    s_buf_len s = zlen rest /\ zlen rest < 64.

Lemma new_absorbed : absorbed [] new.
Proof. exists [], [], (zrepeat BLOCK_LEN 0), O. done. Qed.

Lemma absorb_ok m s b :
  absorbed m s ->
  runs (absorb s b) (fun s' => absorbed (m ++ [b]) s' /\ s_total_len s' = s_total_len s).
Proof.
  intros (full & rest & tl & k & -> & Hf & Hfold & Hb & Hbl & Hn & Hr).
  unfold absorb, BLOCK_LEN in *. rewrite Hb, Hn in *. pose proof (zlen_nonneg rest).
  rewrite upd_next by zl. rewrite bind_val. case_decide as Hd.
  - assert (zdrop 1 tl = []) as -> by (apply zdrop_all; zl). rewrite app_nil_r.
    destruct (sha256_compress_runs (s_h s) (rest ++ [b])) as (h' & E & Hh');
      [by eapply H0_fold_runs | unfold BLOCK_LEN; zl|].
    rewrite E, bind_val. apply runs_val. split; [|done].
    exists (full ++ rest ++ [b]), [], (rest ++ [b]), (k + 1)%nat.
    cbn [s_h s_block s_buf_len]. rewrite !app_nil_r, <-app_assoc.
    repeat split; unfold BLOCK_LEN; try done; [zl | | zl].
    rewrite fold_blocks_app, Hfold, bind_val by done.
    rewrite fold_blocks_one; [done | unfold BLOCK_LEN; zl].
  - apply runs_val. split; [|done]. exists full, (rest ++ [b]), (zdrop 1 tl), k.
    cbn [s_h s_block s_buf_len]. rewrite <-app_assoc. repeat split; unfold BLOCK_LEN; try done; zl.
Qed.

Lemma update_ok m s data :
  absorbed m s ->
  runs (update s data) (fun s' => absorbed (m ++ data) s' /\
    s_total_len s' = wrapping_add 64 (s_total_len s) (zlen data)).
Proof.
  intros Hs. unfold update. eapply runs_bind.
  { apply (for_up_inv (fun i s' => absorbed (m ++ ztake i data) s' /\ s_total_len s' = s_total_len s)
      0 (zlen data)).
    - apply zlen_nonneg.
    - unfold ztake. cbn. by rewrite app_nil_r.
    - intros i s' Hi [Hs' Ht]. destruct (idx_ok data i Hi) as [b Hb].
      rewrite Hb, bind_val. eapply runs_mono; [by apply absorb_ok|].
      intros s2 [H2 Ht2]. split; [|by rewrite Ht2].
      replace (ztake (i + 1) data) with (ztake i data ++ [b]); [by rewrite app_assoc|].
      symmetry. apply (zsub_snoc data 0 i); [lia..|done]. }
  intros s' [Hs' Ht]. rewrite ztake_all in Hs' by lia. apply runs_val.
  by split; [|cbn [s_total_len]; rewrite Ht].
Qed.

Lemma zero_fill_ok pre n tl limit :
  zlen pre = n -> limit - n <= zlen tl ->
  zero_fill (pre ++ tl) n limit = Val (pre ++ zrepeat (limit - n) 0 ++ zdrop (Z.max 0 (limit - n)) tl).
Proof.
  intros Hn Hl. unfold zero_fill. destruct (decide (limit <= n)).
  { rewrite for_up_done by done. rewrite Z.max_l by lia. unfold zrepeat.
    by replace (Z.to_nat (limit - n)) with O by lia. }
  destruct (for_up_inv (fun i b => b = (pre ++ zrepeat (i - n) 0) ++ zdrop (i - n) tl)
    n limit (fun i b => upd b i 0) (pre ++ tl)) as (b & -> & ->); [lia | | |].
  - rewrite Z.sub_diag. by rewrite app_nil_r.
  - intros i b Hi ->. rewrite upd_next by zl. apply runs_val.
    rewrite zdrop_zdrop by lia. replace (i - n + 1) with (i + 1 - n) by lia.
    rewrite <-(app_assoc pre). do 2 f_equal.
    unfold zrepeat. replace (Z.to_nat (i + 1 - n)) with (S (Z.to_nat (i - n))) by lia.
    by rewrite replicate_S_end.
  - by rewrite <-app_assoc, Z.max_r by lia.
Qed.

Lemma finalize_fips m s :
  absorbed m s -> s_total_len s = wrap 64 (zlen m) -> finalize s = fips180 m.
Proof.
  intros (full & rest & tl & k & -> & Hf & Hfold & Hb & Hbl & Hn & Hr) Ht.
  pose proof (H0_fold_runs _ _ _ Hf Hfold) as Hh.
  rewrite (fips180_split full rest k (s_h s)) by done.
  unfold finalize. rewrite Ht, Hb, Hn in *. unfold BLOCK_LEN in *. pose proof (zlen_nonneg rest).
  replace (wrapping_mul 64 (wrap 64 (zlen (full ++ rest))) 8)
    with (wrapping_mul 64 (zlen (full ++ rest)) 8)
    by (unfold wrapping_mul, wrap; by rewrite Z.mul_mod_idemp_l by lia).
  set (len8 := to_be 8 _). assert (zlen len8 = 8) as Hl8 by (unfold len8; zl).
  rewrite upd_next, bind_val by zl. unfold last_blocks.
  case_decide as Hd; [rewrite decide_False by lia | rewrite decide_True by lia].
  - rewrite zero_fill_ok, bind_val by zl. rewrite Z.max_r by lia.
    rewrite (zdrop_all _ (zdrop 1 tl)), app_nil_r by zl. rewrite <-app_assoc.
    replace (64 - (zlen rest + 1)) with (63 - zlen rest) by lia.
    destruct (sha256_compress_runs (s_h s) (rest ++ [0x80] ++ zrepeat (63 - zlen rest) 0)) as (h1 & E1 & Hh1);
      [done | unfold BLOCK_LEN; zl|].
    rewrite E1, !bind_val.
    match goal with |- context [zero_fill ?b 0 56] =>
      change (zero_fill b 0 56) with (zero_fill ([] ++ b) 0 56) end.
    rewrite zero_fill_ok, bind_val by zl. cbn [app].
    rewrite copy_loop_next by zl.
    rewrite bind_val, ztake_all, (zdrop_all 8), app_nil_r by zl.
    eapply runs_eq; [apply sha256_compress_runs; [done | unfold BLOCK_LEN; zl]|].
    intros; by apply sha256_digest_bytes_eq.
  - rewrite bind_val. rewrite zero_fill_ok, bind_val by zl.
    rewrite app_assoc, copy_loop_next by zl.
    rewrite bind_val, ztake_all, (zdrop_all 8), app_nil_r by zl.
    replace (((rest ++ [0x80]) ++ zrepeat (56 - (zlen rest + 1)) 0) ++ len8)
      with (rest ++ [0x80] ++ zrepeat (55 - zlen rest) 0 ++ len8)
      by (rewrite <-!app_assoc; do 4 f_equal; lia).
    eapply runs_eq; [apply sha256_compress_runs; [done | unfold BLOCK_LEN; zl]|].
    intros; by apply sha256_digest_bytes_eq.
Qed.

Lemma fips180_runs msg : runs (fips180 msg) (fun d => zlen d = 32 /\ bytes d).
Proof.
  destruct (block_split msg) as (full & rest & k & -> & Hf & Hr).
  destruct (fold_blocks_total k full Hf) as (h & Hfold & Hh).
  rewrite (fips180_split full rest k h) by done.
  eapply runs_bind; [apply last_blocks_runs; [done | done | zl]|].
  intros h' Hh'. by apply runs_val, sha256_digest_length.
Qed.

#[global] Instance sha256_digest : Digest sha256.
Proof. intros msg. rewrite sha256_fips. apply fips180_runs. Qed.

(** Absorbing a sequence of pieces one [update] at a time. *)
Fixpoint updates (s : Sha256) (pieces : list (list Z)) : res Sha256 :=
  match pieces with
  | [] => Val s
  | p :: ps => s' ← update s p; updates s' ps
  end.

Lemma updates_ok pieces m s :
  absorbed m s -> s_total_len s = wrap 64 (zlen m) ->
  runs (updates s pieces) (fun s' => absorbed (m ++ concat pieces) s' /\
    s_total_len s' = wrap 64 (zlen (m ++ concat pieces))).
Proof.
  revert m s. induction pieces as [|p ps IH]; intros m s Hs Ht; cbn [updates concat].
  { apply runs_val. by rewrite app_nil_r. }
  eapply runs_bind; [by apply update_ok|]. intros s' [Hs' Ht'].
  rewrite app_assoc. apply IH; [done|]. rewrite Ht', Ht, zlen_app.
  unfold wrapping_add, wrap. by rewrite Z.add_mod_idemp_l.
Qed.

(** ** Properties *)

(** C28: the one-shot [sha256] computes FIPS 180-4 SHA-256 on every message: its full-block
    loop, its single or double final block and its bit-length wrap agree with padding the
    whole message and folding the compression over 64-byte blocks; it never panics,
    returns 32 bytes, and reproduces the three vectors of the boot self-test. *)
Theorem sha256_computes_fips180 (msg : list Z) :
  sha256 msg = fips180 msg /\
  (exists d, sha256 msg = Val d /\ zlen d = SHA256_DIGEST_LEN /\ bytes d) /\
  kat_ok = Val true.
Proof. split; [apply sha256_fips | split; [apply sha256_digest | by vm_compute]]. Qed.

(** Streaming equals one-shot.  However a message is cut into pieces (empty ones
    included), a fresh state that absorbs them in order never panics and finalizes to the
    digest [sha256] gives for their concatenation. *)
Theorem sha256_streaming_is_one_shot (pieces : list (list Z)) :
  (s ← updates new pieces; finalize s) = sha256 (concat pieces) /\
  (exists d, (s ← updates new pieces; finalize s) = Val d /\ zlen d = SHA256_DIGEST_LEN).
Proof.
  destruct (updates_ok pieces [] new new_absorbed eq_refl) as (s & -> & Hs & Ht).
  rewrite bind_val, (finalize_fips (concat pieces)), sha256_fips by done. split; [done|].
  destruct (fips180_runs (concat pieces)) as (d & -> & ? & ?). by exists d.
Qed.
