(* ===== verification/Blkfmt.v ===== *)
(** * On-disk and virtio-blk codecs: [crates/tb-encode/src/blkfmt.rs].

    The request header, the FNV-1a checksums, the fixed partition, the superblock, the
    record frame and the Episode body.  Decoders are total and fail closed. *)
From Stdlib Require Import ZArith Lia.
From stdpp Require Import base numbers option tactics sets list.
From S2P Require Import Prelude.
Open Scope Z_scope.

Definition T_IN : Z := 0.
Definition T_OUT : Z := 1.
Definition T_FLUSH : Z := 4.

Definition S_OK : Z := 0.
Definition S_IOERR : Z := 1.
Definition S_UNSUPP : Z := 2.

Definition REQ_HEADER_LEN : Z := 16.

Definition req_header_encode (req_type sector : Z) : res (list Z) :=
  let out := zrepeat REQ_HEADER_LEN 0 in
  let t := to_le 4 req_type in
  let s := to_le 8 sector in
  t0 ← idx t 0; out ← upd out 0 t0;
  t1 ← idx t 1; out ← upd out 1 t1;
  t2 ← idx t 2; out ← upd out 2 t2;
  t3 ← idx t 3; out ← upd out 3 t3;
  s0 ← idx s 0; out ← upd out 8 s0;
  s1 ← idx s 1; out ← upd out 9 s1;
  s2 ← idx s 2; out ← upd out 10 s2;
  s3 ← idx s 3; out ← upd out 11 s3;
  s4 ← idx s 4; out ← upd out 12 s4;
  s5 ← idx s 5; out ← upd out 13 s5;
  s6 ← idx s 6; out ← upd out 14 s6;
  s7 ← idx s 7; upd out 15 s7.

Definition req_header_decode (bytes : list Z) : res (Z * Z) :=
  t ← gather bytes [0; 1; 2; 3];
  s ← gather bytes [8; 9; 10; 11; 12; 13; 14; 15];
  Val (of_le t, of_le s).

Definition req_type_is_known (t : Z) : bool := (t =? T_IN) || (t =? T_OUT) || (t =? T_FLUSH).

Definition status_decode (b : Z) : Z :=
  if b =? S_OK then S_OK else if b =? S_UNSUPP then S_UNSUPP else S_IOERR.

Definition FNV64_OFFSET : Z := 0xcbf29ce484222325.
Definition FNV64_PRIME : Z := 0x00000100000001b3.
Definition FNV32_OFFSET : Z := 0x811c9dc5.
Definition FNV32_PRIME : Z := 0x01000193.

Definition fnv1a64 (data : list Z) : res Z :=
  for_up 0 (zlen data) (fun i h =>
    b ← idx data i; Val (wrapping_mul 64 (Z.lxor h b) FNV64_PRIME)) FNV64_OFFSET.

Definition fnv1a32 (data : list Z) : res Z :=
  for_up 0 (zlen data) (fun i h =>
    b ← idx data i; Val (wrapping_mul 32 (Z.lxor h b) FNV32_PRIME)) FNV32_OFFSET.

Definition SECTOR_SIZE : Z := 512.
Definition SB_SECTOR : Z := 0.
Definition EP_FIRST : Z := 1.
Definition EP_COUNT : Z := 4095.
Definition SEM_FIRST : Z := 4096.
Definition SEM_COUNT : Z := 2048.
Definition WM_FIRST : Z := 6144.
Definition WM_COUNT : Z := 2048.
Definition REGION_EPISODIC : Z := 0.
Definition REGION_SEMANTIC : Z := 1.
Definition REGION_WORKING : Z := 2.

Definition region_extent (region_tag : Z) : option (Z * Z) :=
  if region_tag =? REGION_EPISODIC then Some (EP_FIRST, EP_COUNT)
  else if region_tag =? REGION_SEMANTIC then Some (SEM_FIRST, SEM_COUNT)
  else if region_tag =? REGION_WORKING then Some (WM_FIRST, WM_COUNT)
  else None.

Definition record_sector (region_tag log_head : Z) : option Z :=
  '(first, count) ← region_extent region_tag;
  let idx := log_head / SECTOR_SIZE in
  if count <=? idx then None else Some (wrapping_add 64 first idx).

(** [b"YUVAMEM0"], from the brand crate. *)
Definition SB_MAGIC : list Z := [0x59; 0x55; 0x56; 0x41; 0x4D; 0x45; 0x4D; 0x30].
Definition SB_VERSION : Z := 1.
Definition SB_CKSUM_OFF : Z := 504.

Record Superblock := {
  sb_version : Z;
  sb_gen : Z;
  sb_log_head : list Z;
  sb_record_count : list Z;
}.

Definition superblock_encode (gen : Z) (log_head record_count : list Z) : res (list Z) :=
  let s := zrepeat 512 0 in
  s ← blit s 0 8 SB_MAGIC;
  s ← blit s 8 12 (to_le 4 SB_VERSION);
  s ← blit s 16 24 (to_le 8 gen);
  l0 ← idx log_head 0; s ← blit s 24 32 (to_le 8 l0);
  l1 ← idx log_head 1; s ← blit s 32 40 (to_le 8 l1);
  l2 ← idx log_head 2; s ← blit s 40 48 (to_le 8 l2);
  r0 ← idx record_count 0; s ← blit s 48 56 (to_le 8 r0);
  r1 ← idx record_count 1; s ← blit s 56 64 (to_le 8 r1);
  r2 ← idx record_count 2; s ← blit s 64 72 (to_le 8 r2);
  body ← slice s 0 SB_CKSUM_OFF;
  ck ← fnv1a64 body;
  blit s SB_CKSUM_OFF 512 (to_le 8 ck).

Definition rd_u64 (s : list Z) (off : Z) : res Z :=
  b ← gather s [off; off + 1; off + 2; off + 3; off + 4; off + 5; off + 6; off + 7];
  Val (of_le b).

Definition superblock_decode (s : list Z) : res (option Superblock) :=
  magic ← for_up_opt 0 8 (fun i _ =>
            a ← idx s i; m ← idx SB_MAGIC i;
            Val (if negb (a =? m) then None else Some tt)) tt;
  match magic with
  | None => Val None
  | Some _ =>
      v ← gather s [8; 9; 10; 11];
      let version := of_le v in
      if negb (version =? SB_VERSION) then Val None else
      body ← slice s 0 SB_CKSUM_OFF;
      want ← fnv1a64 body;
      got ← rd_u64 s SB_CKSUM_OFF;
      if negb (want =? got) then Val None else
      gen ← rd_u64 s 16;
      l0 ← rd_u64 s 24; l1 ← rd_u64 s 32; l2 ← rd_u64 s 40;
      r0 ← rd_u64 s 48; r1 ← rd_u64 s 56; r2 ← rd_u64 s 64;
      Val (Some {| sb_version := version; sb_gen := gen;
                   sb_log_head := [l0; l1; l2]; sb_record_count := [r0; r1; r2] |})
  end.

Definition FRAME_HEADER_LEN : Z := 24.
Definition EPISODE_LEN : Z := 48.
Definition MAX_PAYLOAD : Z := SECTOR_SIZE - FRAME_HEADER_LEN.

Record FrameHeader := { fh_region_tag : Z; fh_len : Z; fh_seq : Z; fh_payload_crc : Z }.

Definition frame_header_encode (region_tag len seq payload_crc : Z) : res (list Z) :=
  let h := zrepeat 24 0 in
  h ← upd h 0 region_tag;
  h ← blit h 2 4 (to_le 2 len);
  h ← blit h 4 12 (to_le 8 seq);
  blit h 12 16 (to_le 4 payload_crc).

Definition frame_header_decode (h : list Z) : res FrameHeader :=
  tag ← idx h 0;
  len ← gather h [2; 3];
  seq ← gather h [4; 5; 6; 7; 8; 9; 10; 11];
  crc ← gather h [12; 13; 14; 15];
  Val {| fh_region_tag := tag; fh_len := of_le len; fh_seq := of_le seq;
         fh_payload_crc := of_le crc |}.

(** The new contents of [out] and the returned flag. *)
Definition record_frame_encode (region_tag seq : Z) (payload out : list Z)
  : res (list Z * bool) :=
  if MAX_PAYLOAD <? zlen payload then Val (out, false) else
  crc ← fnv1a32 payload;
  hdr ← frame_header_encode region_tag (wrap 16 (zlen payload)) seq crc;
  out ← for_up 0 512 (fun i o => upd o i 0) out;
  out ← blit out 0 FRAME_HEADER_LEN hdr;
  out ← blit out FRAME_HEADER_LEN (FRAME_HEADER_LEN + zlen payload) payload;
  Val (out, true).

Definition record_frame_decode (sector : list Z) : res (option (FrameHeader * Z)) :=
  h0 ← slice sector 0 FRAME_HEADER_LEN;
  hb ← blit (zrepeat 24 0) 0 24 h0;
  h ← frame_header_decode hb;
  let len := fh_len h in
  if MAX_PAYLOAD <? len then Val None else
  let start := FRAME_HEADER_LEN in
  let e := start + len in
  p ← slice sector start e;
  crc ← fnv1a32 p;
  if negb (crc =? fh_payload_crc h) then Val None else Val (Some (h, start)).

Record EpisodeBody := {
  ep_id : Z; ep_content_tok : Z; ep_value : Z; ep_t_created : Z; ep_t_invalid : Z;
  ep_producing_task : Z;
}.

Definition episode_encode (e : EpisodeBody) : res (list Z) :=
  let b := zrepeat EPISODE_LEN 0 in
  b ← blit b 0 8 (to_le 8 (ep_id e));
  b ← blit b 8 16 (to_le 8 (ep_content_tok e));
  b ← blit b 16 24 (to_le 8 (ep_value e));
  b ← blit b 24 32 (to_le 8 (ep_t_created e));
  b ← blit b 32 40 (to_le 8 (ep_t_invalid e));
  blit b 40 44 (to_le 4 (ep_producing_task e)).

Definition episode_decode (b : list Z) : res EpisodeBody :=
  let rd8 o := bs ← gather b [o; o + 1; o + 2; o + 3; o + 4; o + 5; o + 6; o + 7];
               Val (of_le bs) in
  id ← rd8 0; ct ← rd8 8; v ← rd8 16; tc ← rd8 24; ti ← rd8 32;
  pt ← gather b [40; 41; 42; 43];
  Val {| ep_id := id; ep_content_tok := ct; ep_value := v; ep_t_created := tc;
         ep_t_invalid := ti; ep_producing_task := of_le pt |}.

(** ** Lemmas: FNV-1a *)

(** The checksum loop as a fold, at width [w]. *)
Definition fnv (w prime : Z) (h : Z) (data : list Z) : Z :=
  fold_left (fun h b => wrapping_mul w (Z.lxor h b) prime) data h.

Lemma fnv1a64_eq data : fnv1a64 data = Val (fnv 64 FNV64_PRIME FNV64_OFFSET data).
Proof. apply (for_up_fold (fun h b => wrapping_mul 64 (Z.lxor h b) FNV64_PRIME)). Qed.
Lemma fnv1a32_eq data : fnv1a32 data = Val (fnv 32 FNV32_PRIME FNV32_OFFSET data).
Proof. apply (for_up_fold (fun h b => wrapping_mul 32 (Z.lxor h b) FNV32_PRIME)). Qed.

Section fnv.
(** An odd multiplier: it has an inverse modulo [2^w]. *)
Context (w p q : Z) (Hw : 8 <= w) (Hq : (p * q) mod 2 ^ w = 1 mod 2 ^ w).

Lemma wrapping_mul_inj a b :
  in_u w a -> in_u w b -> wrapping_mul w a p = wrapping_mul w b p -> a = b.
Proof.
  intros Ha Hb E. unfold wrapping_mul, wrap in E.
  assert (forall x, in_u w x -> x = ((x * p) mod 2 ^ w * q) mod 2 ^ w) as H.
  { intros x Hx. unfold in_u in Hx.
    rewrite Z.mul_mod_idemp_l, <-Z.mul_assoc, <-Z.mul_mod_idemp_r, Hq, Z.mul_mod_idemp_r by lia.
    rewrite Z.mul_1_r. symmetry. by apply Z.mod_small. }
  rewrite (H a), (H b), E by done. done.
Qed.

Lemma fnv_in_u h data : in_u w h -> in_u w (fnv w p h data).
Proof.
  revert h. induction data as [|b data IH]; intros h Hh; [done|].
  apply IH. apply wrap_in_u. lia.
Qed.

Lemma fnv_inj h1 h2 data :
  in_u w h1 -> in_u w h2 -> bytes data -> fnv w p h1 data = fnv w p h2 data -> h1 = h2.
Proof.
  revert h1 h2. induction data as [|b data IH]; intros h1 h2 H1 H2 Hd E; [done|].
  apply Forall_cons in Hd as [Hb Hd]. apply (in_u_mono _ 8 w Hw) in Hb.
  apply IH in E; [|apply wrap_in_u; lia..|done].
  apply wrapping_mul_inj in E; [|apply lxor_in_u; done || lia..].
  by apply lxor_cancel_r in E.
Qed.

(** Any one-byte change changes the checksum. *)
Lemma fnv_corrupt1 h s s' :
  in_u w h -> bytes s -> corrupt1 s s' -> fnv w p h s <> fnv w p h s'.
Proof.
  intros Hh Hs (pre & a & b & tl & -> & -> & Hab & Hb) E.
  apply Forall_app in Hs as [Hpre [Ha Htl]%Forall_cons].
  unfold fnv in E. rewrite !fold_left_app in E. cbn [fold_left] in E.
  fold (fnv w p h pre) in E. pose proof (fnv_in_u h pre Hh) as Hi.
  apply (in_u_mono _ 8 w Hw) in Ha, Hb.
  apply fnv_inj in E; [|apply wrap_in_u; lia..|done].
  apply wrapping_mul_inj in E; [|apply lxor_in_u; done || lia..].
  rewrite !(Z.lxor_comm (fnv _ _ _ _)) in E. apply lxor_cancel_r in E. done.
Qed.
End fnv.

Lemma fnv64_corrupt1 s s' : bytes s -> corrupt1 s s' ->
  fnv 64 FNV64_PRIME FNV64_OFFSET s <> fnv 64 FNV64_PRIME FNV64_OFFSET s'.
Proof. intros. by apply (fnv_corrupt1 64 FNV64_PRIME 0xce965057aff6957b). Qed.
Lemma fnv32_corrupt1 s s' : bytes s -> corrupt1 s s' ->
  fnv 32 FNV32_PRIME FNV32_OFFSET s <> fnv 32 FNV32_PRIME FNV32_OFFSET s'.
Proof. intros. by apply (fnv_corrupt1 32 FNV32_PRIME 0x359c449b). Qed.
Lemma fnv64_in_u s : is_u64 (fnv 64 FNV64_PRIME FNV64_OFFSET s).
Proof. by apply fnv_in_u. Qed.
Lemma fnv32_in_u s : is_u32 (fnv 32 FNV32_PRIME FNV32_OFFSET s).
Proof. by apply fnv_in_u. Qed.

(** ** Lemmas: the superblock *)

Definition sb_body (gen l0 l1 l2 r0 r1 r2 : Z) : list Z :=
  SB_MAGIC ++ to_le 4 SB_VERSION ++ zrepeat 4 0 ++ to_le 8 gen ++ to_le 8 l0 ++ to_le 8 l1 ++
  to_le 8 l2 ++ to_le 8 r0 ++ to_le 8 r1 ++ to_le 8 r2 ++ zrepeat 432 0.

Lemma zlen_SB_MAGIC : zlen SB_MAGIC = 8.
Proof. done. Qed.
#[local] Hint Rewrite zlen_SB_MAGIC : zlen.
Lemma SB_MAGIC_bytes : bytes SB_MAGIC.
Proof. unfold SB_MAGIC, in_u. repeat constructor; lia. Qed.


Lemma superblock_encode_eq gen l0 l1 l2 r0 r1 r2 :
  superblock_encode gen [l0; l1; l2] [r0; r1; r2] =
    let body := sb_body gen l0 l1 l2 r0 r1 r2 in
    Val (body ++ to_le 8 (fnv 64 FNV64_PRIME FNV64_OFFSET body)).
Proof.
  unfold superblock_encode. change (zrepeat 512 0) with ([] ++ zrepeat 512 (0 : Z)).
  fill. rewrite slice_ok by (unfold SB_CKSUM_OFF; zl). rewrite bind_val, fnv1a64_eq, bind_val.
  change (zrepeat 440 0) with (zrepeat 432 0 ++ zrepeat 8 (0 : Z)). rewrite (app_assoc _ (zrepeat 432 0)).
  rewrite zsub_app_eq by zlen_const. fill. rewrite <-!app_assoc. done.
Qed.

Lemma rd_u64_eq s off : 0 <= off -> off + 8 <= zlen s -> rd_u64 s off = Val (of_le (zsub off 8 s)).
Proof. intros. unfold rd_u64. gather_tac off 8%nat. done. Qed.

Definition sb_valid (s : list Z) : Prop :=
  zsub 0 8 s = SB_MAGIC /\ of_le (zsub 8 4 s) = SB_VERSION /\
  fnv 64 FNV64_PRIME FNV64_OFFSET (zsub 0 504 s) = of_le (zsub 504 8 s).
#[global] Instance sb_valid_dec s : Decision (sb_valid s).
Proof. unfold sb_valid. apply _. Defined.

Definition sb_fields (s : list Z) : Superblock :=
  {| sb_version := SB_VERSION; sb_gen := of_le (zsub 16 8 s);
     sb_log_head := [of_le (zsub 24 8 s); of_le (zsub 32 8 s); of_le (zsub 40 8 s)];
     sb_record_count := [of_le (zsub 48 8 s); of_le (zsub 56 8 s); of_le (zsub 64 8 s)] |}.

Lemma superblock_decode_eq s : zlen s = 512 ->
  superblock_decode s = Val (if decide (sb_valid s) then Some (sb_fields s) else None).
Proof.
  intros Hs. unfold superblock_decode, sb_valid.
  pose proof (match_loop s SB_MAGIC) as Hml. rewrite zlen_SB_MAGIC in Hml.
  rewrite Hml, bind_val by lia.
  change (ztake 8 s) with (zsub 0 8 s).
  destruct (decide (zsub 0 8 s = SB_MAGIC)) as [Hm|Hm];
    [|by rewrite decide_False by (by intros [? _])].
  gather_tac 8 4%nat. rewrite bind_val.
  destruct (Z.eqb_spec (of_le (zsub 8 4 s)) SB_VERSION) as [Hv|Hv]; cbn [negb];
    [|by rewrite decide_False by (by intros (_ & ? & _))].
  rewrite slice_ok by (unfold SB_CKSUM_OFF; lia). rewrite bind_val, fnv1a64_eq, bind_val.
  rewrite !rd_u64_eq by (unfold SB_CKSUM_OFF; lia). rewrite !bind_val.
  change (SB_CKSUM_OFF - 0) with 504. change SB_CKSUM_OFF with 504.
  destruct (Z.eqb_spec (fnv 64 FNV64_PRIME FNV64_OFFSET (zsub 0 504 s)) (of_le (zsub 504 8 s)))
    as [Hc|Hc]; cbn [negb]; [|by rewrite decide_False by (by intros (_ & _ & ?))].
  rewrite decide_True by done. by rewrite Hv.
Qed.

Lemma sb_body_length gen l0 l1 l2 r0 r1 r2 : zlen (sb_body gen l0 l1 l2 r0 r1 r2) = 504.
Proof. unfold sb_body. zlen_const. Qed.

Lemma superblock_roundtrip_eq gen l0 l1 l2 r0 r1 r2 s :
  is_u64 gen -> is_u64 l0 -> is_u64 l1 -> is_u64 l2 -> is_u64 r0 -> is_u64 r1 -> is_u64 r2 ->
  superblock_encode gen [l0; l1; l2] [r0; r1; r2] = Val s ->
  zlen s = 512 /\ bytes s /\
  superblock_decode s = Val (Some {| sb_version := SB_VERSION; sb_gen := gen;
    sb_log_head := [l0; l1; l2]; sb_record_count := [r0; r1; r2] |}).
Proof.
  intros ???????. rewrite superblock_encode_eq. cbv zeta. intros <-%Val_inj.
  set (body := sb_body gen l0 l1 l2 r0 r1 r2).
  assert (zlen body = 504) as Hb by apply sb_body_length.
  split; [zl|]. split.
  { unfold body, sb_body. byte_chunks. apply SB_MAGIC_bytes. }
  rewrite superblock_decode_eq by zl. rewrite decide_True.
  2:{ unfold sb_valid. rewrite (zsub_app_eq 504) by done.
    rewrite (zsub_skip 504 8 body _ 504 0), (zsub_all 8 (to_le 8 _)) by zl.
    rewrite of_to_le_id by apply fnv64_in_u.
    unfold body, sb_body. rewrite <-!app_assoc. fields.
    split; [reflexivity | split; [by rewrite of_to_le | reflexivity]]. }
  assert (forall tl, sb_fields (body ++ tl) = {| sb_version := SB_VERSION; sb_gen := gen;
    sb_log_head := [l0; l1; l2]; sb_record_count := [r0; r1; r2] |}) as ->; [|reflexivity].
  intros tl. unfold sb_fields, body, sb_body. rewrite <-!app_assoc. fields.
  by rewrite !of_to_le_id.
Qed.

Lemma superblock_corrupt s s' sb :
  zlen s = 512 -> bytes s -> superblock_decode s = Val (Some sb) -> corrupt1 s s' ->
  superblock_decode s' = Val None.
Proof.
  intros Hs Hb Hd Hc. pose proof (corrupt1_len _ _ Hc). pose proof (corrupt1_bytes _ _ Hc Hb) as Hb'.
  rewrite superblock_decode_eq in Hd |- * by lia.
  case_decide as Hv; [|done]. destruct Hv as (_ & _ & Hv).
  rewrite decide_False; [done|]. intros (_ & _ & Hv').
  destruct (zsplit 504 s) as (body & ck & -> & Hbl); [lia|].
  rewrite zlen_app in Hs. assert (zlen ck = 8) by lia.
  rewrite (zsub_app_eq 504), (zsub_skip 504 8 body ck 504 0), zsub_all in Hv by done.
  apply Forall_app in Hb as [Hbb Hbc].
  apply corrupt1_app in Hc as [(body' & -> & Hc)|(ck' & -> & Hc)];
    pose proof (corrupt1_len _ _ Hc);
    rewrite (zsub_app_eq 504), (zsub_skip 504 8 _ _ 504 0), zsub_all in Hv' by (done || lia).
  - apply (fnv64_corrupt1 _ _ Hbb Hc). by rewrite Hv, Hv'.
  - apply (corrupt1_neq _ _ Hc). apply Forall_app in Hb' as [_ Hbc'].
    rewrite <-(to_of_le_n 8 ck), <-(to_of_le_n 8 ck') by (done || lia). by rewrite <-Hv, <-Hv'.
Qed.

(** ** Lemmas: the record frame *)

Definition frame_header_bytes (h : FrameHeader) : list Z :=
  [fh_region_tag h] ++ zrepeat 1 0 ++ to_le 2 (fh_len h) ++ to_le 8 (fh_seq h) ++
  to_le 4 (fh_payload_crc h) ++ zrepeat 8 0.

Lemma frame_header_encode_eq tag len seq crc :
  frame_header_encode tag len seq crc =
    Val (frame_header_bytes {| fh_region_tag := tag; fh_len := len; fh_seq := seq;
                               fh_payload_crc := crc |}).
Proof.
  unfold frame_header_encode. change (zrepeat 24 0) with ([] ++ zrepeat 24 (0 : Z)).
  fill. by rewrite <-!app_assoc.
Qed.

Definition frame_header_of (h : list Z) (tag : Z) : FrameHeader :=
  {| fh_region_tag := tag; fh_len := of_le (zsub 2 2 h); fh_seq := of_le (zsub 4 8 h);
     fh_payload_crc := of_le (zsub 12 4 h) |}.

Lemma frame_header_decode_eq h tag : 24 <= zlen h -> idx h 0 = Val tag ->
  frame_header_decode h = Val (frame_header_of h tag).
Proof.
  intros Hh Ht. unfold frame_header_decode. rewrite Ht, bind_val.
  gather_tac 2 2%nat. rewrite bind_val. gather_tac 4 8%nat. rewrite bind_val.
  gather_tac 12 4%nat. done.
Qed.

(** Decoding any sector: the header is its first 24 bytes, the payload follows. *)
Definition frame_payload (s : list Z) (h : FrameHeader) : list Z := zsub 24 (fh_len h) s.

Lemma record_frame_decode_eq s tag : zlen s = 512 -> bytes s -> idx s 0 = Val tag ->
  let h := frame_header_of s tag in
  record_frame_decode s =
    Val (if decide (fh_len h <= MAX_PAYLOAD /\
                    fnv 32 FNV32_PRIME FNV32_OFFSET (frame_payload s h) = fh_payload_crc h)
         then Some (h, 24) else None).
Proof.
  intros Hs Hb Ht h. unfold record_frame_decode.
  destruct (zsplit 24 s) as (hd & tl & -> & Hhd); [lia|].
  assert (0 <= fh_len h) as Hnn.
  { unfold h, frame_header_of. cbn [fh_len].
    destruct (of_le_bound (zsub 2 2 (hd ++ tl))); [by apply zsub_bytes | lia]. }
  unfold FRAME_HEADER_LEN. rewrite slice_ok by zl. rewrite bind_val.
  rewrite (zsub_app_eq (24 - 0)) by lia.
  rewrite blit_ok by zl. rewrite bind_val.
  change (ztake 0 (zrepeat 24 0)) with (@nil Z). change (zdrop 24 (zrepeat 24 0)) with (@nil Z).
  rewrite app_nil_r. cbn [app].
  rewrite (frame_header_decode_eq hd tag); [|lia|].
  2:{ rewrite <-Ht. symmetry. apply idx_app_lt. lia. }
  rewrite bind_val.
  assert (frame_header_of hd tag = h) as ->.
  { unfold h, frame_header_of, zsub. by rewrite !zdrop_app_le, !ztake_app_le by zl. }
  fold h. destruct (Z.ltb_spec MAX_PAYLOAD (fh_len h)) as [Hl|Hl].
  { rewrite decide_False; [done|]. intros [? _]. lia. }
  unfold MAX_PAYLOAD, SECTOR_SIZE, FRAME_HEADER_LEN in Hl.
  rewrite slice_ok, bind_val, fnv1a32_eq, bind_val by lia.
  unfold frame_payload. replace (24 + fh_len h - 24) with (fh_len h) by lia.
  destruct (Z.eqb_spec (fnv 32 FNV32_PRIME FNV32_OFFSET (zsub 24 (fh_len h) (hd ++ tl)))
    (fh_payload_crc h)) as [Hc|Hc]; cbn [negb].
  - by rewrite decide_True.
  - by rewrite decide_False by (by intros [_ ?]).
Qed.

Definition frame_bytes (h : FrameHeader) (payload : list Z) : list Z :=
  frame_header_bytes h ++ payload ++ zrepeat (MAX_PAYLOAD - zlen payload) 0.

Definition frame_header_for (tag seq : Z) (payload : list Z) : FrameHeader :=
  {| fh_region_tag := tag; fh_len := zlen payload; fh_seq := seq;
     fh_payload_crc := fnv 32 FNV32_PRIME FNV32_OFFSET payload |}.

(** The clearing loop of [record_frame_encode]. *)
Lemma clear_loop (out : list Z) : zlen out = 512 ->
  for_up 0 512 (fun i o => upd o i 0) out = Val (zrepeat 512 0).
Proof.
  intros Ho. destruct (for_up_inv (fun i o => o = zrepeat i 0 ++ zdrop i out) 0 512
    (fun i o => upd o i 0) out) as (o & -> & ->); [lia | done | |].
  - intros i o Hi ->. rewrite upd_next by zl. apply runs_val.
    rewrite zdrop_zdrop by lia. f_equal. unfold zrepeat.
    replace (Z.to_nat (i + 1)) with (S (Z.to_nat i)) by lia. by rewrite replicate_S_end.
  - by rewrite zdrop_all, app_nil_r by lia.
Qed.

Lemma record_frame_encode_eq tag seq payload out :
  zlen out = 512 -> zlen payload <= MAX_PAYLOAD ->
  record_frame_encode tag seq payload out =
    Val (frame_bytes (frame_header_for tag seq payload) payload, true).
Proof.
  intros Ho Hp. unfold record_frame_encode. rewrite (proj2 (Z.ltb_ge _ _)) by lia.
  rewrite fnv1a32_eq, bind_val, frame_header_encode_eq, bind_val, clear_loop, bind_val by done.
  unfold MAX_PAYLOAD, SECTOR_SIZE, FRAME_HEADER_LEN in *. pose proof (zlen_nonneg payload).
  rewrite wrap_small by (unfold in_u; lia).
  change (zrepeat 512 0) with ([] ++ zrepeat 512 (0 : Z)).
  rewrite blit_next by (try (by rewrite zlen_nil); unfold frame_header_bytes; zl). rewrite bind_val.
  rewrite zdrop_zrepeat by lia. rewrite blit_next by (unfold frame_header_bytes; zl).
  rewrite bind_val, zdrop_zrepeat by lia. cbn [app]. unfold frame_bytes.
  rewrite <-app_assoc. do 5 f_equal. unfold MAX_PAYLOAD, SECTOR_SIZE, FRAME_HEADER_LEN. lia.
Qed.

Lemma frame_header_roundtrip h tl :
  is_u16 (fh_len h) -> is_u64 (fh_seq h) -> is_u32 (fh_payload_crc h) ->
  frame_header_of (frame_header_bytes h ++ tl) (fh_region_tag h) = h.
Proof.
  intros. unfold frame_header_of, frame_header_bytes. rewrite <-!app_assoc. fields.
  rewrite !of_to_le_id by done. by destruct h.
Qed.

Lemma record_frame_corrupt s s' i h off :
  zlen s = 512 -> bytes s -> record_frame_decode s = Val (Some (h, off)) -> corrupt_at i s s' ->
  12 <= i < 16 \/ 24 <= i < 24 + fh_len h -> record_frame_decode s' = Val None.
Proof.
  intros Hs Hb Hd Hc Hi. pose proof (corrupt_at_corrupt1 _ _ _ Hc) as Hc1.
  pose proof (corrupt1_len _ _ Hc1). pose proof (corrupt1_bytes _ _ Hc1 Hb) as Hb'.
  destruct (idx_ok s 0) as [tag Ht]; [lia|].
  pose proof (idx_corrupt_out _ _ _ 0 Hc ltac:(lia)) as Ht'. rewrite Ht in Ht'.
  rewrite (record_frame_decode_eq s tag) in Hd by done.
  rewrite (record_frame_decode_eq s' tag) by (done || lia).
  case_decide as Hv; [|done]. injection Hd as Hh _. rewrite <-Hh in Hi. clear h Hh.
  destruct Hv as [Hl Hcrc].
  assert (fh_len (frame_header_of s' tag) = fh_len (frame_header_of s tag)) as Hlen.
  { unfold frame_header_of. cbn [fh_len]. by rewrite (zsub_corrupt_out i s s') by (done || lia). }
  rewrite decide_False; [done|]. rewrite Hlen. intros [_ Hcrc'].
  unfold frame_payload in Hcrc, Hcrc'. rewrite Hlen in Hcrc'.
  unfold MAX_PAYLOAD, SECTOR_SIZE, FRAME_HEADER_LEN in Hl.
  assert (0 <= fh_len (frame_header_of s tag)) as Hnn.
  { destruct (of_le_bound (zsub 2 2 s)); [by apply zsub_bytes | done]. }
  destruct Hi as [Hi|Hi].
  - rewrite (zsub_corrupt_out i s s') in Hcrc' by (done || lia). rewrite Hcrc in Hcrc'.
    unfold frame_header_of in Hcrc'. cbn [fh_payload_crc] in Hcrc'.
    apply (corrupt1_neq _ _ (zsub_corrupt_in i s s' 12 4 Hc ltac:(lia) ltac:(lia))).
    rewrite <-(to_of_le_n 4 (zsub 12 4 s)), <-(to_of_le_n 4 (zsub 12 4 s'))
      by (try apply zsub_bytes; done || zl). by rewrite Hcrc'.
  - apply (fnv32_corrupt1 (zsub 24 (fh_len (frame_header_of s tag)) s)
                          (zsub 24 (fh_len (frame_header_of s tag)) s')).
    + by apply zsub_bytes.
    + apply (zsub_corrupt_in i); done || lia.
    + rewrite Hcrc, Hcrc'. unfold frame_header_of. cbn [fh_payload_crc].
      by rewrite (zsub_corrupt_out i s s') by (done || lia).
Qed.

(** ** Lemmas: the request header and the Episode body *)

Lemma req_header_encode_eq t s :
  req_header_encode t s = Val (to_le 4 t ++ zrepeat 4 0 ++ to_le 8 s).
Proof. reflexivity. Qed.

Lemma req_header_decode_eq b : zlen b = 16 ->
  req_header_decode b = Val (of_le (zsub 0 4 b), of_le (zsub 8 8 b)).
Proof.
  intros Hb. unfold req_header_decode. gather_tac 0 4%nat. rewrite bind_val.
  gather_tac 8 8%nat. done.
Qed.

Definition episode_bytes (e : EpisodeBody) : list Z :=
  to_le 8 (ep_id e) ++ to_le 8 (ep_content_tok e) ++ to_le 8 (ep_value e) ++
  to_le 8 (ep_t_created e) ++ to_le 8 (ep_t_invalid e) ++ to_le 4 (ep_producing_task e) ++
  zrepeat 4 0.

Definition episode_wf (e : EpisodeBody) : Prop :=
  is_u64 (ep_id e) /\ is_u64 (ep_content_tok e) /\ is_u64 (ep_value e) /\
  is_u64 (ep_t_created e) /\ is_u64 (ep_t_invalid e) /\ is_u32 (ep_producing_task e).

Lemma episode_encode_eq e : episode_encode e = Val (episode_bytes e).
Proof.
  unfold episode_encode, EPISODE_LEN. change (zrepeat 48 0) with ([] ++ zrepeat 48 (0 : Z)).
  fill. by rewrite <-!app_assoc.
Qed.

Lemma episode_decode_eq b : zlen b = 48 ->
  episode_decode b = Val {|
    ep_id := of_le (zsub 0 8 b); ep_content_tok := of_le (zsub 8 8 b);
    ep_value := of_le (zsub 16 8 b); ep_t_created := of_le (zsub 24 8 b);
    ep_t_invalid := of_le (zsub 32 8 b); ep_producing_task := of_le (zsub 40 4 b) |}.
Proof.
  intros Hb. unfold episode_decode. cbv zeta.
  gather_tac 0 8%nat. rewrite !bind_val. gather_tac 8 8%nat. rewrite !bind_val.
  gather_tac 16 8%nat. rewrite !bind_val. gather_tac 24 8%nat. rewrite !bind_val.
  gather_tac 32 8%nat. rewrite !bind_val. gather_tac 40 4%nat. done.
Qed.

Lemma episode_roundtrip_eq e : episode_wf e -> episode_decode (episode_bytes e) = Val e.
Proof.
  intros (?&?&?&?&?&?). rewrite episode_decode_eq by (unfold episode_bytes; zl).
  unfold episode_bytes. fields. rewrite !of_to_le_id by done. by destruct e.
Qed.

(** ** Lemmas: the partition *)

Lemma region_extent_inv tag f c : region_extent tag = Some (f, c) ->
  (tag, f, c) = (0, 1, 4095) \/ (tag, f, c) = (1, 4096, 2048) \/ (tag, f, c) = (2, 6144, 2048).
Proof.
  unfold region_extent, REGION_EPISODIC, REGION_SEMANTIC, REGION_WORKING.
  destruct (Z.eqb_spec tag 0) as [->|]; [intros [= <- <-]; auto|].
  destruct (Z.eqb_spec tag 1) as [->|]; [intros [= <- <-]; auto|].
  destruct (Z.eqb_spec tag 2) as [->|]; [intros [= <- <-]; auto | done].
Qed.

Lemma record_sector_inv tag head s : 0 <= head -> record_sector tag head = Some s ->
  exists f c, region_extent tag = Some (f, c) /\ head / SECTOR_SIZE < c /\ s = f + head / SECTOR_SIZE.
Proof.
  intros Hh. unfold record_sector. destruct (region_extent tag) as [[f c]|] eqn:E; [|done].
  cbn. destruct (Z.leb_spec c (head / SECTOR_SIZE)) as [|Hlt]; [done|]. intros [= <-].
  exists f, c. repeat split; [done|]. unfold wrapping_add.
  pose proof (Z.div_pos head SECTOR_SIZE Hh eq_refl).
  apply region_extent_inv in E as [[= -> -> ->]|[[= -> -> ->]|[= -> -> ->]]];
    apply wrap_small; unfold in_u; lia.
Qed.

(** ** Properties *)

(** The superblock codec.  Decoding what [superblock_encode] writes returns exactly
    the generation and watermarks that were encoded; and a sector that decodes at all is
    protected byte for byte: change any single byte of its 512 (magic, reserved bytes,
    fields or checksum) and the decoder returns [None], because every step of FNV-1a-64
    is injective. *)
Theorem superblock_codec (gen l0 l1 l2 r0 r1 r2 : Z)
  (Hgen : is_u64 gen) (Hl : is_u64 l0 /\ is_u64 l1 /\ is_u64 l2)
  (Hr : is_u64 r0 /\ is_u64 r1 /\ is_u64 r2) :
  (exists s, superblock_encode gen [l0; l1; l2] [r0; r1; r2] = Val s /\
     zlen s = 512 /\ bytes s /\
     superblock_decode s = Val (Some {| sb_version := SB_VERSION; sb_gen := gen;
       sb_log_head := [l0; l1; l2]; sb_record_count := [r0; r1; r2] |})) /\
  (forall s s' sb, zlen s = 512 -> bytes s -> superblock_decode s = Val (Some sb) ->
     corrupt1 s s' -> superblock_decode s' = Val None).
Proof.
  destruct Hl as (?&?&?), Hr as (?&?&?). split; [|intros; by eapply superblock_corrupt].
  eexists. split; [apply superblock_encode_eq|].
  apply (superblock_roundtrip_eq gen l0 l1 l2 r0 r1 r2); [assumption.. | apply superblock_encode_eq].
Qed.

Lemma superblock_codec_witness :
  exists s, superblock_encode 7 [512; 1024; 0] [1; 2; 0] = Val s /\ zlen s = 512 /\ bytes s /\
    superblock_decode s = Val (Some {| sb_version := 1; sb_gen := 7;
      sb_log_head := [512; 1024; 0]; sb_record_count := [1; 2; 0] |}).
Proof. apply (superblock_codec 7 512 1024 0 1 2 0); unfold in_u; lia. Defined.

(** C29: the record frame.  An oversized payload is refused and the sector left as it was;
    any other payload is framed so that the decoder returns the header (tag, length,
    sequence, checksum) and the payload sits at the offset it reports.  A torn write is
    caught: in a sector that decodes, changing any one byte of the payload or of its
    checksum makes the decoder return [None]. *)
Theorem record_frame_codec (tag seq : Z) (payload out : list Z)
  (Htag : is_u8 tag) (Hseq : is_u64 seq) (Hp : bytes payload) (Hout : zlen out = 512) :
  (MAX_PAYLOAD < zlen payload -> record_frame_encode tag seq payload out = Val (out, false)) /\
  (zlen payload <= MAX_PAYLOAD ->
     exists s h, record_frame_encode tag seq payload out = Val (s, true) /\ zlen s = 512 /\ bytes s /\
       record_frame_decode s = Val (Some (h, FRAME_HEADER_LEN)) /\
       fh_region_tag h = tag /\ fh_len h = zlen payload /\ fh_seq h = seq /\
       zsub FRAME_HEADER_LEN (fh_len h) s = payload) /\
  (forall s s' h off i, zlen s = 512 -> bytes s -> record_frame_decode s = Val (Some (h, off)) ->
     corrupt_at i s s' -> 12 <= i < 16 \/ off <= i < off + fh_len h ->
     record_frame_decode s' = Val None).
Proof.
  split; [|split].
  - intros Hbig. unfold record_frame_encode. by rewrite (proj2 (Z.ltb_lt _ _)).
  - intros Hsmall. pose proof (zlen_nonneg payload).
    set (h := frame_header_for tag seq payload). exists (frame_bytes h payload), h.
    rewrite record_frame_encode_eq by done.
    assert (zlen (frame_bytes h payload) = 512) as Hlen.
    { unfold frame_bytes, frame_header_bytes, MAX_PAYLOAD, SECTOR_SIZE, FRAME_HEADER_LEN in *. zl. }
    assert (bytes (frame_bytes h payload)) as Hb.
    { unfold frame_bytes, frame_header_bytes. byte_chunks. by apply Forall_singleton. }
    assert (frame_header_of (frame_bytes h payload) tag = h) as Hh.
    { apply (frame_header_roundtrip h); cbn [fh_len fh_seq fh_payload_crc h frame_header_for];
        [|done | apply fnv32_in_u].
      unfold in_u, MAX_PAYLOAD, SECTOR_SIZE, FRAME_HEADER_LEN in *. lia. }
    assert (frame_payload (frame_bytes h payload) h = payload) as Hpay.
    { unfold frame_payload, frame_bytes. rewrite (zsub_skip 24 _ _ _ 24 0) by (reflexivity || done).
      by apply zsub_app_eq. }
    repeat split; try done.
    rewrite (record_frame_decode_eq _ tag) by done. cbv zeta. rewrite Hh, decide_True; [done|].
    split; [done|]. by rewrite Hpay.
  - intros s s' h off i Hs Hb Hd Hc Hi. eapply record_frame_corrupt; try done.
    destruct (idx_ok s 0) as [t Ht]; [lia|]. rewrite (record_frame_decode_eq s t) in Hd by done.
    cbv zeta in Hd. case_decide; [|done]. injection Hd as <- <-. done.
Qed.

Lemma record_frame_codec_witness :
  exists s h, record_frame_encode 1 9 [10; 20; 30] (zrepeat 512 0) = Val (s, true) /\ zlen s = 512 /\
    bytes s /\ record_frame_decode s = Val (Some (h, FRAME_HEADER_LEN)) /\
    fh_region_tag h = 1 /\ fh_len h = 3 /\ fh_seq h = 9 /\
    zsub FRAME_HEADER_LEN (fh_len h) s = [10; 20; 30].
Proof.
  apply (record_frame_codec 1 9 [10; 20; 30] (zrepeat 512 0));
    [unfold in_u; lia | unfold in_u; lia | repeat constructor; unfold in_u; lia | reflexivity |
     vm_compute; discriminate].
Defined.

(** The fixed partition.  Every region's extent lies behind the superblock and inside
    the 4 MiB image, a record's sector lies inside its own region's extent (the [u64] sum
    never wraps), a log head past the ceiling is refused, and two records share a sector
    only if they are in the same region at the same sector of its log. *)
Theorem partition_is_disjoint (tag1 tag2 head1 head2 s1 s2 : Z)
  (Hh1 : is_u64 head1) (Hh2 : is_u64 head2)
  (H1 : record_sector tag1 head1 = Some s1) (H2 : record_sector tag2 head2 = Some s2) :
  (exists first count, region_extent tag1 = Some (first, count) /\
     SB_SECTOR < first <= s1 /\ s1 < first + count <= 8192 /\ s1 = first + head1 / SECTOR_SIZE) /\
  (s1 = s2 -> tag1 = tag2 /\ head1 / SECTOR_SIZE = head2 / SECTOR_SIZE) /\
  (forall tag head first count, region_extent tag = Some (first, count) ->
     count * SECTOR_SIZE <= head -> record_sector tag head = None) /\
  (forall tag head, region_extent tag = None -> record_sector tag head = None).
Proof.
  apply record_sector_inv in H1 as (f1 & c1 & E1 & Hc1 & ->); [|by destruct Hh1].
  apply record_sector_inv in H2 as (f2 & c2 & E2 & Hc2 & ->); [|by destruct Hh2].
  pose proof (Z.div_pos head1 SECTOR_SIZE ltac:(by destruct Hh1) eq_refl).
  pose proof (Z.div_pos head2 SECTOR_SIZE ltac:(by destruct Hh2) eq_refl).
  split; [|split; [|split]].
  - exists f1, c1. split; [done|]. unfold SB_SECTOR.
    apply region_extent_inv in E1 as [[= -> -> ->]|[[= -> -> ->]|[= -> -> ->]]]; lia.
  - apply region_extent_inv in E1 as [[= -> -> ->]|[[= -> -> ->]|[= -> -> ->]]];
      apply region_extent_inv in E2 as [[= -> -> ->]|[[= -> -> ->]|[= -> -> ->]]]; lia.
  - intros tag head f c E Hfull. unfold record_sector. rewrite E. cbn.
    destruct (Z.leb_spec c (head / SECTOR_SIZE)) as [|Hlt]; [done|].
    exfalso. apply Z.lt_nge in Hlt. apply Hlt, Z.div_le_lower_bound; unfold SECTOR_SIZE in *; lia.
  - intros tag head E. unfold record_sector. by rewrite E.
Qed.

Lemma partition_is_disjoint_witness :
  exists first count, region_extent 1 = Some (first, count) /\
    SB_SECTOR < first <= 4098 /\ 4098 < first + count <= 8192 /\ 4098 = first + 1024 / SECTOR_SIZE.
Proof.
  apply (partition_is_disjoint 1 0 1024 1024 4098 3); try reflexivity; unfold in_u; lia.
Defined.

(** The two fixed-layout wire records.  A virtio-blk request header decodes to the
    type and sector it was built from; an Episode body decodes to the record that was
    encoded, and re-encoding a decoded body with a zero pad gives the same 48 bytes;
    every device status byte decodes into the closed set, unknown ones to an error. *)
Theorem blk_records_roundtrip (t sector : Z) (e : EpisodeBody) (b : list Z)
  (Ht : is_u32 t) (Hsec : is_u64 sector) (He : episode_wf e)
  (Hb : bytes b) (Hblen : zlen b = EPISODE_LEN) (Hpad : zsub 44 4 b = zrepeat 4 0) :
  (out ← req_header_encode t sector; req_header_decode out) = Val (t, sector) /\
  (out ← episode_encode e; episode_decode out) = Val e /\
  (e ← episode_decode b; episode_encode e) = Val b /\
  (forall st, status_decode st = S_OK <-> st = S_OK) /\
  (forall st, st <> S_OK -> st <> S_UNSUPP -> status_decode st = S_IOERR).
Proof.
  unfold EPISODE_LEN in Hblen. split; [|split; [|split; [|split]]].
  - rewrite req_header_encode_eq, bind_val, req_header_decode_eq by zl. fields.
    by rewrite !of_to_le_id.
  - by rewrite episode_encode_eq, bind_val, episode_roundtrip_eq.
  - rewrite episode_decode_eq, bind_val, episode_encode_eq by done. f_equal.
    unfold episode_bytes. cbn [ep_id ep_content_tok ep_value ep_t_created ep_t_invalid ep_producing_task].
    rewrite <-Hpad, !to_of_le_n by (try apply zsub_bytes; done || zl).
    rejoin.
  - intros st. unfold status_decode, S_OK, S_UNSUPP, S_IOERR.
    destruct (Z.eqb_spec st 0); [done|]. destruct (Z.eqb_spec st 2); lia.
  - intros st H1 H2. unfold status_decode. by rewrite !(proj2 (Z.eqb_neq _ _)).
Qed.

Lemma blk_records_roundtrip_witness :
  (out ← req_header_encode T_OUT 4097; req_header_decode out) = Val (T_OUT, 4097) /\
  (e ← episode_decode (zrepeat 48 0); episode_encode e) = Val (zrepeat 48 0).
Proof.
  pose proof (blk_records_roundtrip T_OUT 4097 (Build_EpisodeBody 1 2 3 4 0 6) (zrepeat 48 0)) as H.
  destruct H as (H1 & _ & H2 & _);
    [unfold in_u, T_OUT; lia | unfold in_u; lia | unfold episode_wf, in_u; cbn; lia
    | repeat constructor; unfold in_u; lia | reflexivity | reflexivity | split; assumption].
Defined.
