(* ===== verification/Prov.v ===== *)
(** * Provenance ledger: [crates/tb-encode/src/prov.rs], and its seam in
    [crates/tb-hal/src/mem/organ.rs].

    The canonical entry encoding, the entry digest, the chain fold, the inclusion
    verifier, and the per-agent ledger state that appends to them.  Tamper evidence is
    proved as a reduction: two ledgers with one head either are the same ledger or exhibit
    a collision of the digest (or a preimage of the all-zero genesis head).  The reduction
    is proved once, for any entry type with an injective canonical encoding ([Canon]); the
    experience corpus and the scheduler's decision log are further instances. *)
From Stdlib Require Import ZArith Lia.
From stdpp Require Import base numbers option tactics sets list.
From S2P Require Import Prelude Khash.
Open Scope Z_scope.

Definition PROV_HASH_LEN : Z := 32.
Definition CANON_PREFIX_LEN : Z := 1 + 1 + 8 + 8 + 8 + 8.
Definition CANON_PARENT_LEN : Z := PROV_HASH_LEN.
Definition MIX_DOMAIN : Z := 0xC3.

Definition kind_WRITE : Z := 1.
Definition kind_FORGET : Z := 2.
Definition kind_SKILL_ADMIT : Z := 3.
Definition kind_CONDUCT_DECISION : Z := 4.

Record ProvEntry := {
  kind : Z;
  payload_tok : Z;
  tier : Z;
  writer_cap_id : Z;
  t_created : Z;
  parent_ids : list (list Z);
}.

Definition canon_len (entry : ProvEntry) : Z :=
  saturating_add usize_bits CANON_PREFIX_LEN
    (saturating_mul usize_bits (zlen (parent_ids entry)) PROV_HASH_LEN).

(** The number of bytes written (0: the buffer is too small) and the buffer after. *)
Definition canon (entry : ProvEntry) (out : list Z) : res (list Z * Z) :=
  let n := zlen (parent_ids entry) in
  let total := canon_len entry in
  if zlen out <? total then Val (out, 0) else
  out ← upd out 0 (kind entry);
  out ← upd out 1 (tier entry);
  let pt := to_le 8 (payload_tok entry) in
  let wc := to_le 8 (writer_cap_id entry) in
  let tc := to_le 8 (t_created entry) in
  let np := to_le 8 n in
  out ← for_up 0 8 (fun i out =>
    p ← idx pt i; out ← upd out (2 + i) p;
    w ← idx wc i; out ← upd out (10 + i) w;
    t ← idx tc i; out ← upd out (18 + i) t;
    k ← idx np i; upd out (26 + i) k) out;
  out ← for_up 0 n (fun p out =>
    let base := CANON_PREFIX_LEN + p * PROV_HASH_LEN in
    for_up 0 PROV_HASH_LEN (fun b out =>
      par ← idx (parent_ids entry) p; x ← idx par b; upd out (base + b) x) out) out;
  Val (out, total).

Definition prov_hash (bytes : list Z) : res (list Z) := uhash bytes.

Definition chain_mix (head entry_id : list Z) : res (list Z) :=
  let buf := zrepeat (1 + PROV_HASH_LEN + PROV_HASH_LEN) 0 in
  buf ← upd buf 0 MIX_DOMAIN;
  buf ← for_up 0 PROV_HASH_LEN (fun i buf =>
    h ← idx head i; buf ← upd buf (1 + i) h;
    e ← idx entry_id i; upd buf (1 + PROV_HASH_LEN + i) e) buf;
  prov_hash buf.

Definition genesis : list Z := zrepeat PROV_HASH_LEN 0.

Definition recompute (leaf : list Z) (siblings : list (list Z)) : res (list Z) :=
  let acc := genesis in
  acc ← chain_mix acc leaf;
  for_up 0 (zlen siblings) (fun i acc => s ← idx siblings i; chain_mix acc s) acc.

Definition verify_inclusion (leaf : list Z) (siblings : list (list Z)) (head : list Z) : res bool :=
  r ← recompute leaf siblings; Val (bool_decide (r = head)).

(** [None] when the scratch buffer is too small; the scratch buffer after is not used by
    any caller and is not returned. *)
Definition append (head : list Z) (entry : ProvEntry) (scratch : list Z)
  : res (option (list Z * list Z)) :=
  '(scratch, n) ← canon entry scratch;
  if n =? 0 then Val None else
  b ← slice scratch 0 n;
  entry_id ← prov_hash b;
  new_head ← chain_mix head entry_id;
  Val (Some (new_head, entry_id)).

Definition head_witness (head : list Z) : res Z :=
  for_up 0 4 (fun l acc =>
    let base := l * 8 in
    w ← copy_in 8 head base (zrepeat 8 0);
    Val (Z.lxor acc (of_le w))) 0.

(** ** The ledger fields of the memory organ *)

Definition PROV_SCRATCH : Z := 256.

Record Organ := { chain_head : list Z; ledger_ids : list (list Z); clock : Z }.

Definition ledger_append (o : Organ) (k payload_tok tier writer_cap_id : Z) (parents : list (list Z))
  : res (Organ * option (list Z)) :=
  let entry := {| kind := k; payload_tok := payload_tok; tier := tier;
                  writer_cap_id := writer_cap_id; t_created := clock o; parent_ids := parents |} in
  let scratch := zrepeat PROV_SCRATCH 0 in
  a ← append (chain_head o) entry scratch;
  match a with
  | None => Val (o, None)
  | Some (new_head, id) =>
      Val ({| chain_head := new_head; ledger_ids := ledger_ids o ++ [id]; clock := clock o |}, Some id)
  end.

(** ** Lemmas: the digest and the fold *)

(** The definitions below compute on concrete inputs; proofs never unfold the hash. *)
#[local] Opaque uhash.

Abbreviation is_digest := (fun d => zlen d = PROV_HASH_LEN /\ bytes d).

#[global] Instance prov_hash_digest : Digest prov_hash := uhash_digest.

(** The 65 bytes a fold step hashes. *)
Definition mix_input (head id : list Z) : list Z := [MIX_DOMAIN] ++ head ++ id.

Lemma chain_mix_eq head id :
  zlen head = PROV_HASH_LEN -> zlen id = PROV_HASH_LEN ->
  chain_mix head id = prov_hash (mix_input head id).
Proof.
  intros Hh Hi. unfold chain_mix, PROV_HASH_LEN in *.
  change (upd (zrepeat (1 + 32 + 32) 0) 0 MIX_DOMAIN)
    with (Val ([MIX_DOMAIN] ++ zrepeat 32 0 ++ zrepeat 32 (0 : Z))).
  rewrite bind_val.
  destruct (for_up_inv (fun i b => b = [MIX_DOMAIN] ++ filled i head (zrepeat 32 0) ++
      filled i id (zrepeat 32 0)) 0 32
    (fun i buf => h ← idx head i; buf ← upd buf (1 + i) h;
                  e ← idx id i; upd buf (1 + 32 + i) e)
    ([MIX_DOMAIN] ++ zrepeat 32 0 ++ zrepeat 32 (0 : Z))) as (b & -> & ->); [lia | done | | ].
  - intros i b Hi' ->. destruct (idx_ok head i) as [x Hx]; [lia|].
    destruct (idx_ok id i) as [y Hy]; [lia|]. rewrite Hx, Hy, !bind_val.
    rewrite (upd_filled _ _ _ _ _ _ 1 32) by (done || zl). rewrite bind_val, app_assoc.
    rewrite <-(app_nil_r (filled i id _)).
    rewrite bind_val, (upd_filled _ _ _ _ _ _ 33 32)
      by first [lia | done | by rewrite zlen_app, (zlen_filled _ _ _ 32) by (done || lia)].
    apply runs_val. by rewrite app_nil_r, <-app_assoc.
  - rewrite bind_val, !filled_all by done. done.
Qed.

Lemma mix_input_inj h1 i1 h2 i2 :
  zlen h1 = zlen h2 -> mix_input h1 i1 = mix_input h2 i2 -> h1 = h2 /\ i1 = i2.
Proof.
  intros Hl E. unfold mix_input in E. apply app_inv_head in E.
  apply app_inj_1; [unfold zlen in Hl; lia | done].
Qed.

Lemma chain_mix_runs head id :
  zlen head = PROV_HASH_LEN -> zlen id = PROV_HASH_LEN -> runs (chain_mix head id) is_digest.
Proof. intros. rewrite chain_mix_eq by done. apply prov_hash_digest. Qed.

(** ** The chain fold, and what equal heads mean *)

Definition fold_chain (head : list Z) (ids : list (list Z)) : res (list Z) :=
  fold_res chain_mix head ids.

Lemma fold_chain_nil head : fold_chain head [] = Val head.
Proof. done. Qed.
Lemma fold_chain_cons head id ids :
  fold_chain head (id :: ids) = (h ← chain_mix head id; fold_chain h ids).
Proof. unfold fold_chain. by rewrite fold_res_cons. Qed.

Definition res_or {A} (d : A) (m : res A) : A := match m with Val a => a | Panic => d end.

(** The byte strings the fold hashes on the way. *)
Fixpoint chain_inputs (head : list Z) (ids : list (list Z)) {struct ids} : list (list Z) :=
  match ids with
  | [] => []
  | id :: ids' =>
      mix_input head id :: chain_inputs (res_or [] (chain_mix head id)) ids'
  end.

(** Two different strings, one from each side, with one digest. *)
Definition collision (xs ys : list (list Z)) : Prop :=
  exists x y, x ∈ xs /\ y ∈ ys /\ x <> y /\ prov_hash x = prov_hash y.
(** A string whose digest is the all-zero genesis head. *)
Definition zero_preimage (xs : list (list Z)) : Prop :=
  exists x, x ∈ xs /\ prov_hash x = Val genesis.

Lemma collision_mono xs ys xs' ys' :
  (forall x, x ∈ xs -> x ∈ xs') -> (forall y, y ∈ ys -> y ∈ ys') ->
  collision xs ys -> collision xs' ys'.
Proof. intros Hx Hy (x & y & ? & ? & ? & ?). exists x, y. auto. Qed.
Lemma zero_preimage_mono xs xs' :
  (forall x, x ∈ xs -> x ∈ xs') -> zero_preimage xs -> zero_preimage xs'.
Proof. intros Hx (x & ? & ?). exists x. auto. Qed.

Lemma genesis_digest : is_digest genesis.
Proof. split; [done|]. apply zrepeat_Forall. unfold in_u. lia. Qed.

Lemma fold_chain_runs head ids : is_digest head -> Forall is_digest ids ->
  runs (fold_chain head ids) is_digest.
Proof.
  revert head. induction ids as [|id ids IH]; intros head Hh Hids; rewrite ?fold_chain_nil, ?fold_chain_cons.
  { by apply runs_val. }
  apply Forall_cons in Hids as [Hid Hids]. destruct Hh, Hid.
  eapply runs_bind; [by apply chain_mix_runs | intros; by apply IH].
Qed.

Lemma fold_chain_snoc head ids id :
  fold_chain head (ids ++ [id]) = (h ← fold_chain head ids; chain_mix h id).
Proof. apply fold_res_snoc. Qed.

Lemma chain_inputs_snoc head ids id h : fold_chain head ids = Val h ->
  chain_inputs head (ids ++ [id]) = chain_inputs head ids ++ [mix_input h id].
Proof.
  revert head. induction ids as [|x ids IH]; intros head Hf; cbn [chain_inputs app] in *; rewrite ?fold_chain_nil, ?fold_chain_cons in Hf.
  { by injection Hf as ->. }
  destruct (chain_mix head x); [|done]. rewrite bind_val in Hf. cbn [res_or]. by rewrite IH.
Qed.

(** The last step of a fold: its input was hashed to the head. *)
Lemma fold_chain_last ids id head :
  Forall is_digest (ids ++ [id]) -> fold_chain genesis (ids ++ [id]) = Val head ->
  exists h, is_digest h /\ is_digest id /\ fold_chain genesis ids = Val h /\
    prov_hash (mix_input h id) = Val head /\
    chain_inputs genesis (ids ++ [id]) = chain_inputs genesis ids ++ [mix_input h id].
Proof.
  rewrite Forall_app, Forall_singleton. intros [Hids Hid] Hf.
  destruct (fold_chain_runs genesis ids genesis_digest Hids) as (h & Eh & Hh).
  exists h. rewrite fold_chain_snoc, Eh, bind_val in Hf.
  destruct Hh, Hid. rewrite chain_mix_eq in Hf by done. repeat split; try done.
  by apply chain_inputs_snoc.
Qed.

(** Equal heads: the same sequence of ids, or a collision or a zero preimage among the
    strings the two folds hashed. *)
Lemma fold_chain_binding ids1 ids2 head :
  Forall is_digest ids1 -> Forall is_digest ids2 ->
  fold_chain genesis ids1 = Val head -> fold_chain genesis ids2 = Val head ->
  ids1 = ids2 \/ collision (chain_inputs genesis ids1) (chain_inputs genesis ids2) \/
  zero_preimage (chain_inputs genesis ids1 ++ chain_inputs genesis ids2).
Proof.
  revert ids2 head. induction ids1 as [|id1 ids1 IH] using rev_ind; intros ids2 head H1 H2 E1 E2.
  - injection E1 as <-. destruct ids2 as [|id2 ids2 _] using rev_ind; [by left|].
    right; right. destruct (fold_chain_last _ _ _ H2 E2) as (h & _ & _ & _ & Hz & ->).
    exists (mix_input h id2). split; [set_solver | done].
  - destruct (fold_chain_last _ _ _ H1 E1) as (h1 & Hh1 & Hi1 & F1 & Z1 & In1).
    destruct ids2 as [|id2 ids2 _] using rev_ind.
    { right; right. injection E2 as <-. rewrite In1. exists (mix_input h1 id1).
      split; [set_solver | done]. }
    destruct (fold_chain_last _ _ _ H2 E2) as (h2 & Hh2 & Hi2 & F2 & Z2 & In2).
    rewrite In1, In2. destruct (decide (mix_input h1 id1 = mix_input h2 id2)) as [E|Hne].
    + destruct Hh1 as [Hl1 _], Hh2 as [Hl2 _].
      apply mix_input_inj in E as [<- <-]; [|by rewrite Hl1, Hl2].
      apply Forall_app in H1 as [H1 _]. apply Forall_app in H2 as [H2 _].
      destruct (IH ids2 h1 H1 H2 F1 F2) as [->|[Hc|Hz]]; [by left | right; left | right; right].
      * eapply collision_mono; [| |exact Hc]; set_solver.
      * eapply zero_preimage_mono; [|exact Hz]; set_solver.
    + right; left. exists (mix_input h1 id1), (mix_input h2 id2).
      split; [set_solver | split; [set_solver | split; [done | by rewrite Z1, Z2]]].
Qed.

Lemma recompute_eq leaf siblings : recompute leaf siblings = fold_chain genesis (leaf :: siblings).
Proof.
  unfold recompute. rewrite fold_chain_cons. destruct (chain_mix genesis leaf) as [acc|]; [|done].
  rewrite !bind_val.
  apply for_up_fold_res.
Qed.

Lemma verify_inclusion_true leaf siblings head :
  verify_inclusion leaf siblings head = Val true <-> fold_chain genesis (leaf :: siblings) = Val head.
Proof.
  unfold verify_inclusion. rewrite recompute_eq.
  destruct (fold_chain genesis (leaf :: siblings)) as [r|]; [|done]. rewrite bind_val.
  split; [|by intros [= ->]; rewrite bool_decide_true].
  intros [=Hb]. by apply bool_decide_eq_true in Hb as ->.
Qed.

(** ** Interface: a ledger entry type

    What a hash-chain ledger needs of its entries: an encoder that fails closed on a small
    buffer, otherwise writes the canonical bytes and reports their length, and canonical
    bytes that determine the entry. *)
Class Canon (E : Type) (enc : E -> list Z -> res (list Z * Z)) := {
  canon_ok : E -> Prop;
  canon_bytes : E -> list Z;
  canon_pos : forall e, 0 < zlen (canon_bytes e);
  canon_small : forall e out, canon_ok e ->
    zlen out < zlen (canon_bytes e) -> enc e out = Val (out, 0);
  canon_fits : forall e out, canon_ok e ->
    zlen (canon_bytes e) <= zlen out ->
    enc e out = Val (canon_bytes e ++ zdrop (zlen (canon_bytes e)) out, zlen (canon_bytes e));
  canon_inj : forall e1 e2, canon_ok e1 -> canon_ok e2 ->
    canon_bytes e1 = canon_bytes e2 -> e1 = e2;
}.

Section ledger.
Context {E : Type} {enc : E -> list Z -> res (list Z * Z)} `{Canon E enc}.

(** The step every ledger of the kernel takes: encode, digest, fold. *)
Definition chain_append (head : list Z) (e : E) (scratch : list Z)
  : res (option (list Z * list Z)) :=
  '(scratch, n) ← enc e scratch;
  if n =? 0 then Val None else
  b ← slice scratch 0 n;
  entry_id ← prov_hash b;
  new_head ← chain_mix head entry_id;
  Val (Some (new_head, entry_id)).

Lemma chain_append_small head e scratch : canon_ok e ->
  zlen scratch < zlen (canon_bytes e) -> chain_append head e scratch = Val None.
Proof. intros Hok Hs. unfold chain_append. by rewrite canon_small. Qed.

Lemma chain_append_fits head e scratch : canon_ok e ->
  zlen (canon_bytes e) <= zlen scratch ->
  chain_append head e scratch =
    (id ← prov_hash (canon_bytes e); h ← chain_mix head id; Val (Some (h, id))).
Proof.
  intros Hok Hs. pose proof (canon_pos e). unfold chain_append.
  rewrite canon_fits, bind_val by done. rewrite (proj2 (Z.eqb_neq _ _)) by lia.
  rewrite slice_ok, bind_val by (rewrite ?zlen_app; zl).
  by rewrite zsub_app_eq by lia.
Qed.

Lemma chain_append_runs head e scratch : is_digest head -> canon_ok e ->
  zlen (canon_bytes e) <= zlen scratch ->
  exists h id, chain_append head e scratch = Val (Some (h, id)) /\ is_digest h /\ is_digest id /\
    prov_hash (canon_bytes e) = Val id /\ chain_mix head id = Val h.
Proof.
  intros [Hh _] Hok Hs. destruct (prov_hash_digest (canon_bytes e)) as (id & Eid & Hid).
  destruct (chain_mix_runs head id Hh (proj1 Hid)) as (h & Eh & Hhd).
  exists h, id. rewrite chain_append_fits, Eid, bind_val, Eh by done. done.
Qed.

(** The ids of a sequence of entries. *)
Definition ids_of (es : list E) (ids : list (list Z)) : Prop :=
  Forall2 (fun e id => prov_hash (canon_bytes e) = Val id) es ids.

Lemma ids_of_digests es ids : ids_of es ids -> Forall is_digest ids.
Proof.
  induction 1 as [|e id es ids Hid _ IH]; constructor; [|done].
  destruct (prov_hash_digest (canon_bytes e)) as (d & Ed & Hd). rewrite Hid in Ed.
  by injection Ed as ->.
Qed.

Lemma ids_of_inj es1 es2 ids : Forall canon_ok es1 -> Forall canon_ok es2 ->
  ids_of es1 ids -> ids_of es2 ids ->
  es1 = es2 \/ collision (map canon_bytes es1) (map canon_bytes es2).
Proof.
  intros H1 H2 I1. revert es2 H2. induction I1 as [|e1 id es1 ids Hid1 _ IH]; intros es2 H2 I2.
  { left. by inversion I2. }
  inversion I2 as [|e2 ? es2' ? Hid2 I2']; subst.
  apply Forall_cons in H1 as [Hok1 H1]. apply Forall_cons in H2 as [Hok2 H2].
  destruct (decide (canon_bytes e1 = canon_bytes e2)) as [Eq|Hne].
  - apply canon_inj in Eq as <-; [|done..].
    destruct (IH H1 es2' H2 I2') as [->|Hc]; [by left | right].
    eapply collision_mono; [| |exact Hc]; cbn; set_solver.
  - right. exists (canon_bytes e1), (canon_bytes e2). cbn.
    split; [set_solver | split; [set_solver | split; [done | by rewrite Hid1, Hid2]]].
Qed.

(** A whole ledger, from the genesis head: the head and the ids in append order. *)
Definition ledger (scratch : list Z) (es : list E) : res (option (list Z * list (list Z))) :=
  fold_res (fun s e =>
    match s with
    | None => Val None
    | Some (head, ids) =>
        a ← chain_append head e scratch;
        Val (match a with None => None | Some (h, id) => Some (h, ids ++ [id]) end)
    end) (Some (genesis, [])) es.

(** The strings a ledger hashes: its canonical entries and the inputs of its fold. *)
Definition ledger_inputs (es : list E) (ids : list (list Z)) : list (list Z) :=
  map canon_bytes es ++ chain_inputs genesis ids.

Lemma ledger_inv scratch es head ids : Forall canon_ok es ->
  ledger scratch es = Val (Some (head, ids)) ->
  ids_of es ids /\ fold_chain genesis ids = Val head.
Proof.
  unfold ledger. revert head ids. induction es as [|e es IH] using rev_ind; intros head ids Hok.
  { intros [= <- <-]. split; [constructor | done]. }
  apply Forall_app in Hok as [Hok Hok1]. rewrite Forall_singleton in Hok1.
  rewrite fold_res_snoc. destruct (fold_res _ _ es) as [[[h0 ids0]|]|]; [|done|done].
  rewrite bind_val. destruct (IH h0 ids0 Hok eq_refl) as [Hids Hf].
  destruct (decide (zlen (canon_bytes e) <= zlen scratch)) as [Hs|Hs].
  - destruct (chain_append_runs h0 e scratch) as (h & id & -> & _ & _ & Eid & Eh); [|done|done|].
    { destruct (fold_chain_runs genesis ids0 genesis_digest) as (x & Ex & Hx).
      { by eapply ids_of_digests. }
      rewrite Hf in Ex. by injection Ex as ->. }
    intros [= <- <-]. split; [by apply Forall2_app; [|constructor]|].
    by rewrite fold_chain_snoc, Hf, bind_val.
  - rewrite chain_append_small by (done || lia). done.
Qed.

Lemma ledger_binding scratch1 scratch2 es1 es2 head ids1 ids2 :
  Forall canon_ok es1 -> Forall canon_ok es2 ->
  ledger scratch1 es1 = Val (Some (head, ids1)) -> ledger scratch2 es2 = Val (Some (head, ids2)) ->
  es1 = es2 \/ collision (ledger_inputs es1 ids1) (ledger_inputs es2 ids2) \/
  zero_preimage (ledger_inputs es1 ids1 ++ ledger_inputs es2 ids2).
Proof.
  intros H1 H2 E1 E2. apply ledger_inv in E1 as [I1 F1]; [|done]. apply ledger_inv in E2 as [I2 F2]; [|done].
  unfold ledger_inputs.
  destruct (fold_chain_binding ids1 ids2 head) as [->|[Hc|Hz]];
    [by eapply ids_of_digests | by eapply ids_of_digests | done | done | | |].
  - destruct (ids_of_inj es1 es2 ids2) as [->|Hc]; [done..|by left | right; left].
    eapply collision_mono; [| |exact Hc]; set_solver.
  - right; left. eapply collision_mono; [| |exact Hc]; set_solver.
  - right; right. eapply zero_preimage_mono; [|exact Hz]; set_solver.
Qed.

Lemma ledger_total scratch es : Forall canon_ok es ->
  Forall (fun e => zlen (canon_bytes e) <= zlen scratch) es ->
  exists head ids, ledger scratch es = Val (Some (head, ids)) /\ is_digest head.
Proof.
  unfold ledger. induction es as [|e es IH] using rev_ind; intros Hok Hs.
  { exists genesis, []. split; [done | apply genesis_digest]. }
  apply Forall_app in Hok as [Hok Hok1]. apply Forall_app in Hs as [Hs Hs1].
  rewrite Forall_singleton in Hok1, Hs1. destruct (IH Hok Hs) as (h0 & ids0 & E0 & Hh0).
  destruct (chain_append_runs h0 e scratch) as (h & id & E1 & Hh & _); [done..|].
  exists h, (ids0 ++ [id]). by rewrite fold_res_snoc, E0, bind_val, E1.
Qed.
End ledger.

(** ** Provenance entries as a ledger entry type *)

Record entry_ok (e : ProvEntry) : Prop := {
  ok_kind : is_u8 (kind e);
  ok_tier : is_u8 (tier e);
  ok_payload_tok : is_u64 (payload_tok e);
  ok_writer_cap_id : is_u64 (writer_cap_id e);
  ok_t_created : is_u64 (t_created e);
  ok_parents : Forall is_digest (parent_ids e);
  (** a slice of ids fits the address space *)
  ok_count : zlen (parent_ids e) < 2 ^ 58;
}.

Definition entry_bytes (e : ProvEntry) : list Z :=
  [kind e; tier e] ++ to_le 8 (payload_tok e) ++ to_le 8 (writer_cap_id e) ++
  to_le 8 (t_created e) ++ to_le 8 (zlen (parent_ids e)) ++ concat (parent_ids e).

Lemma zlen_concat_digests ids : Forall is_digest ids -> zlen (concat ids) = 32 * zlen ids.
Proof.
  induction 1 as [|x ids [Hx _] _ IH]; [done|]. cbn [concat]. rewrite zlen_app, zlen_cons, IH, Hx.
  unfold PROV_HASH_LEN. lia.
Qed.

Lemma concat_digests_inj ids1 ids2 :
  Forall is_digest ids1 -> Forall is_digest ids2 -> zlen ids1 = zlen ids2 ->
  concat ids1 = concat ids2 -> ids1 = ids2.
Proof.
  intros H1. revert ids2. induction H1 as [|x ids1 [Hx _] _ IH]; intros ids2 H2 Hl E.
  - symmetry. apply zlen_0. by rewrite <-Hl.
  - destruct ids2 as [|y ids2]; [rewrite zlen_cons in Hl; pose proof (zlen_nonneg ids1); zl|].
    apply Forall_cons in H2 as [[Hy _] H2]. cbn [concat] in E.
    apply zapp_inj in E as [-> E]; [|by rewrite Hx, Hy]. f_equal. apply IH; [done| |done].
    rewrite !zlen_cons in Hl. lia.
Qed.

Lemma entry_bytes_length e : entry_ok e -> zlen (entry_bytes e) = 34 + 32 * zlen (parent_ids e).
Proof.
  intros Hok. unfold entry_bytes. autorewrite with zlen.
  rewrite zlen_concat_digests by apply Hok. lia.
Qed.

Lemma canon_len_eq e : entry_ok e -> canon_len e = zlen (entry_bytes e).
Proof.
  intros Hok. rewrite entry_bytes_length by done. destruct Hok.
  pose proof (zlen_nonneg (parent_ids e)).
  unfold canon_len, saturating_add, saturating_mul, u_max, usize_bits, CANON_PREFIX_LEN, PROV_HASH_LEN.
  lia.
Qed.

Lemma zlen_u64 {A} (l : list A) : zlen l < 2 ^ 58 -> is_u64 (zlen l).
Proof. intros. pose proof (zlen_nonneg l). unfold in_u. lia. Qed.

Lemma entry_bytes_inj e1 e2 : entry_ok e1 -> entry_ok e2 -> entry_bytes e1 = entry_bytes e2 -> e1 = e2.
Proof.
  intros H1 H2 E. unfold entry_bytes in E. chunks_inj E.
  destruct H1, H2, e1 as [k1 p1 t1 w1 c1 l1], e2 as [k2 p2 t2 w2 c2 l2]; cbn in *.
  repeat match goal with H : to_le 8 _ = to_le 8 _ |- _ =>
    apply to_le8_inj in H; [|first [assumption | apply zlen_u64; assumption]..] end.
  match goal with H : [_; _] = [_; _] |- _ => injection H as -> -> end.
  assert (l1 = l2) as -> by (by apply concat_digests_inj). by subst.
Qed.

(** The interleaved loop over the four scalar fields. *)
Lemma scalar_loop (a b : Z) (pt wc tc np o1 o2 o3 o4 rest : list Z) :
  zlen pt = 8 -> zlen wc = 8 -> zlen tc = 8 -> zlen np = 8 ->
  zlen o1 = 8 -> zlen o2 = 8 -> zlen o3 = 8 -> zlen o4 = 8 ->
  for_up 0 8 (fun i out =>
    p ← idx pt i; out ← upd out (2 + i) p;
    w ← idx wc i; out ← upd out (10 + i) w;
    t ← idx tc i; out ← upd out (18 + i) t;
    k ← idx np i; upd out (26 + i) k) ([a; b] ++ o1 ++ o2 ++ o3 ++ o4 ++ rest)
  = Val ([a; b] ++ pt ++ wc ++ tc ++ np ++ rest).
Proof.
  intros Hp Hw Ht Hn H1 H2 H3 H4.
  destruct (for_up_inv (fun i out => out = [a; b] ++ filled i pt o1 ++ filled i wc o2 ++
      filled i tc o3 ++ filled i np o4 ++ rest) 0 8
    (fun i out =>
      p ← idx pt i; out ← upd out (2 + i) p;
      w ← idx wc i; out ← upd out (10 + i) w;
      t ← idx tc i; out ← upd out (18 + i) t;
      k ← idx np i; upd out (26 + i) k) ([a; b] ++ o1 ++ o2 ++ o3 ++ o4 ++ rest))
    as (out & -> & ->); [lia | done | |].
  - intros i out Hi ->.
    destruct (idx_ok pt i) as [p Ep]; [lia|]. destruct (idx_ok wc i) as [w Ew]; [lia|].
    destruct (idx_ok tc i) as [t Et]; [lia|]. destruct (idx_ok np i) as [k Ek]; [lia|].
    rewrite Ep, bind_val. rewrite (upd_filled _ _ pt o1 i p 2 8), bind_val by done.
    rewrite Ew, bind_val, app_assoc, (upd_filled _ _ wc o2 i w 10 8), bind_val
      by first [lia | done | rewrite zlen_app, (zlen_filled _ _ _ 8) by (done || lia); done].
    rewrite Et, bind_val, app_assoc, (upd_filled _ _ tc o3 i t 18 8), bind_val
      by first [lia | done | rewrite !zlen_app, !(zlen_filled _ _ _ 8) by (done || lia); done].
    rewrite Ek, bind_val, app_assoc, (upd_filled _ _ np o4 i k 26 8)
      by first [lia | done | rewrite !zlen_app, !(zlen_filled _ _ _ 8) by (done || lia); done].
    apply runs_val. by rewrite <-!app_assoc.
  - by rewrite !filled_all by done.
Qed.

(** The loop over the parent ids. *)
Lemma parents_loop (ps : list (list Z)) pre rest :
  Forall is_digest ps -> zlen pre = CANON_PREFIX_LEN -> 32 * zlen ps <= zlen rest ->
  for_up 0 (zlen ps) (fun p out =>
    let base := CANON_PREFIX_LEN + p * PROV_HASH_LEN in
    for_up 0 PROV_HASH_LEN (fun b out => par ← idx ps p; x ← idx par b; upd out (base + b) x) out)
    (pre ++ rest)
  = Val (pre ++ concat ps ++ zdrop (32 * zlen ps) rest).
Proof.
  intros Hps Hpre Hr.
  destruct (for_up_inv (fun p out => out =
      (pre ++ concat (ztake p ps)) ++ zdrop (32 * p) rest) 0 (zlen ps)
    (fun p out =>
      let base := CANON_PREFIX_LEN + p * PROV_HASH_LEN in
      for_up 0 PROV_HASH_LEN (fun b out => par ← idx ps p; x ← idx par b; upd out (base + b) x) out)
    (pre ++ rest)) as (out & -> & ->); [zl | by rewrite app_nil_r | |].
  - intros p out Hp ->. destruct (idx_ok ps p Hp) as [par Epar].
    assert (is_digest par) as [Hl Hb].
    { apply idx_val_inv in Epar as [_ Epar]. exact (Forall_lookup_1 _ _ _ _ Hps Epar). }
    assert (zlen (concat (ztake p ps)) = 32 * p) as Hc.
    { rewrite zlen_concat_digests by (by apply Forall_take). zl. }
    cbv zeta. rewrite (for_up_ext _ _ _ (fun b out =>
      x ← idx par b; upd out (CANON_PREFIX_LEN + p * PROV_HASH_LEN + b) x)).
    2:{ intros b o _. by rewrite Epar, bind_val. }
    fold (copy_loop PROV_HASH_LEN par (CANON_PREFIX_LEN + p * PROV_HASH_LEN)
      ((pre ++ concat (ztake p ps)) ++ zdrop (32 * p) rest)).
    unfold PROV_HASH_LEN in *. rewrite copy_loop_next by (rewrite ?zlen_app; zl).
    apply runs_val. rewrite (ztake_all 32 par) by lia. rewrite zdrop_zdrop by lia.
    replace (32 * p + 32) with (32 * (p + 1)) by lia. f_equal. rewrite <-app_assoc. f_equal.
    replace (ztake (p + 1) ps) with (ztake p ps ++ [par]); [by rewrite concat_app; cbn; rewrite app_nil_r|].
    symmetry. apply (zsub_snoc ps 0 p); [lia..|done].
  - by rewrite ztake_all, <-app_assoc by lia.
Qed.

Lemma canon_eq e out : entry_ok e -> zlen (entry_bytes e) <= zlen out ->
  canon e out = Val (entry_bytes e ++ zdrop (zlen (entry_bytes e)) out, zlen (entry_bytes e)).
Proof.
  intros Hok Hl. unfold canon. rewrite canon_len_eq by done.
  rewrite (proj2 (Z.ltb_ge _ _)) by lia.
  rewrite entry_bytes_length in * by done. pose proof (zlen_nonneg (parent_ids e)).
  assert (exists x y o1 o2 o3 o4 rest, out = [x; y] ++ o1 ++ o2 ++ o3 ++ o4 ++ rest /\
    zlen o1 = 8 /\ zlen o2 = 8 /\ zlen o3 = 8 /\ zlen o4 = 8) as
    (x & y & o1 & o2 & o3 & o4 & rest & -> & H1 & H2 & H3 & H4).
  { destruct out as [|x [|y out]]; [zl | zl |]. rewrite !zlen_cons in Hl.
    destruct (zsplit 8 out) as (o1 & t1 & -> & H1); [lia|]. rewrite zlen_app in Hl.
    destruct (zsplit 8 t1) as (o2 & t2 & -> & H2); [lia|]. rewrite zlen_app in Hl.
    destruct (zsplit 8 t2) as (o3 & t3 & -> & H3); [lia|]. rewrite zlen_app in Hl.
    destruct (zsplit 8 t3) as (o4 & t4 & -> & H4); [lia|].
    by exists x, y, o1, o2, o3, o4, t4. }
  cbn [app]. rewrite upd_0, bind_val, upd_1, bind_val. cbv zeta.
  change (kind e :: tier e :: o1 ++ o2 ++ o3 ++ o4 ++ rest)
    with ([kind e; tier e] ++ o1 ++ o2 ++ o3 ++ o4 ++ rest).
  rewrite scalar_loop, bind_val by (done || zl).
  set (pre := [kind e; tier e] ++ to_le 8 (payload_tok e) ++ to_le 8 (writer_cap_id e) ++
    to_le 8 (t_created e) ++ to_le 8 (zlen (parent_ids e))).
  change (for_up 0 (zlen (parent_ids e)) _ _) with
    (for_up 0 (zlen (parent_ids e)) (fun p out =>
      let base := CANON_PREFIX_LEN + p * PROV_HASH_LEN in
      for_up 0 PROV_HASH_LEN (fun b out =>
        par ← idx (parent_ids e) p; x ← idx par b; upd out (base + b) x) out) (pre ++ rest)).
  autorewrite with zlen in Hl.
  rewrite parents_loop; [|apply Hok|done|lia]. rewrite bind_val.
  change (x :: y :: o1 ++ o2 ++ o3 ++ o4 ++ rest) with ([x; y] ++ o1 ++ o2 ++ o3 ++ o4 ++ rest).
  replace (zdrop (34 + 32 * zlen (parent_ids e)) ([x; y] ++ o1 ++ o2 ++ o3 ++ o4 ++ rest))
    with (zdrop (32 * zlen (parent_ids e)) rest).
  { unfold entry_bytes, pre. by rewrite <-!app_assoc. }
  rewrite !app_assoc, zdrop_app_ge by (autorewrite with zlen; lia).
  f_equal. autorewrite with zlen. lia.
Qed.

#[global] Instance ProvEntry_canon : Canon ProvEntry canon.
Proof.
  refine {| canon_ok := entry_ok; canon_bytes := entry_bytes |}.
  - intros e. unfold entry_bytes. cbn [app]. rewrite zlen_cons.
    match goal with |- 0 < 1 + zlen ?l => pose proof (zlen_nonneg l) end. lia.
  - intros e out Hok Hs. unfold canon. rewrite canon_len_eq by done.
    by rewrite (proj2 (Z.ltb_lt _ _)).
  - intros. by apply canon_eq.
  - intros. by apply entry_bytes_inj.
Defined.

Lemma append_chain head e scratch : append head e scratch = chain_append (enc := canon) head e scratch.
Proof. done. Qed.

(** The ledger of a sequence of provenance entries, by repeated [append] from genesis. *)
Definition append_all (scratch : list Z) (es : list ProvEntry)
  : res (option (list Z * list (list Z))) :=
  fold_res (fun s e =>
    match s with
    | None => Val None
    | Some (head, ids) =>
        a ← append head e scratch;
        Val (match a with None => None | Some (h, id) => Some (h, ids ++ [id]) end)
    end) (Some (genesis, [])) es.

Lemma append_all_ledger scratch es : append_all scratch es = ledger (enc := canon) scratch es.
Proof. done. Qed.

(** ** The organ's ledger *)

Record organ_ok (o : Organ) : Prop := {
  ok_clock : is_u64 (clock o);
  ok_ids : Forall is_digest (ledger_ids o);
  ok_head : fold_chain genesis (ledger_ids o) = Val (chain_head o);
}.

Lemma organ_head_digest o : organ_ok o -> is_digest (chain_head o).
Proof.
  intros Ho. destruct (fold_chain_runs genesis (ledger_ids o) genesis_digest (ok_ids o Ho)) as (h & E & Hh).
  rewrite (ok_head o Ho) in E. by injection E as ->.
Qed.

Lemma ledger_append_eq o k tok t cap ps :
  let e := Build_ProvEntry k tok t cap (clock o) ps in
  organ_ok o -> entry_ok e ->
  (zlen (entry_bytes e) <= PROV_SCRATCH ->
   exists h id, is_digest h /\ is_digest id /\ prov_hash (entry_bytes e) = Val id /\
     chain_mix (chain_head o) id = Val h /\
     ledger_append o k tok t cap ps =
       Val ({| chain_head := h; ledger_ids := ledger_ids o ++ [id]; clock := clock o |}, Some id)) /\
  (PROV_SCRATCH < zlen (entry_bytes e) -> ledger_append o k tok t cap ps = Val (o, None)).
Proof.
  intros e Ho He. unfold ledger_append. fold e. cbv zeta. split; intros Hl.
  - destruct (chain_append_runs (enc := canon) (chain_head o) e (zrepeat PROV_SCRATCH 0))
      as (h & id & E & Hh & Hid & Eid & Emix); [by apply organ_head_digest | done | |].
    { cbn [canon_bytes ProvEntry_canon]. rewrite zlen_zrepeat. lia. }
    exists h, id. repeat split; try apply Hh; try apply Hid; [done..|].
    by rewrite append_chain, E, bind_val.
  - rewrite append_chain, chain_append_small; [done | done |].
    cbn [canon_bytes ProvEntry_canon]. rewrite zlen_zrepeat. unfold PROV_SCRATCH in *. lia.
Qed.

(** ** Properties *)

(** C30: the ledger head binds the whole history.  Two ledgers grown by [append] from the
    genesis head that end in the same 32-byte head contain the same entries in the same
    order (every field and every parent edge), unless the strings the two runs hashed
    contain two different ones with the same BLAKE2s digest, or one hashing to the
    all-zero head.  So reordering, dropping, inserting or editing a committed entry
    without finding such a pair changes the head. *)
Theorem prov_head_binds_history (scratch1 scratch2 : list Z) (es1 es2 : list ProvEntry)
  (head : list Z) (ids1 ids2 : list (list Z))
  (H1 : Forall entry_ok es1) (H2 : Forall entry_ok es2)
  (E1 : append_all scratch1 es1 = Val (Some (head, ids1)))
  (E2 : append_all scratch2 es2 = Val (Some (head, ids2))) :
  es1 = es2 \/
  (exists x y, x ∈ map entry_bytes es1 ++ chain_inputs genesis ids1 /\
     y ∈ map entry_bytes es2 ++ chain_inputs genesis ids2 /\ x <> y /\ prov_hash x = prov_hash y) \/
  (exists x, (x ∈ map entry_bytes es1 ++ chain_inputs genesis ids1 \/
              x ∈ map entry_bytes es2 ++ chain_inputs genesis ids2) /\ prov_hash x = Val genesis).
Proof.
  rewrite append_all_ledger in E1, E2.
  destruct (ledger_binding (H := ProvEntry_canon) scratch1 scratch2 es1 es2 head ids1 ids2 H1 H2 E1 E2)
    as [->|[Hc|(x & Hx & Hz)]]; [by left | by right; left | right; right].
  exists x. split; [by apply elem_of_app | done].
Qed.

(** The organ's ledger seam.  From any state whose head is the fold of its ids, an
    append with at most six parents (the 256-byte scratch) never panics, extends the id
    list by exactly the new entry's id, leaves the clock alone, restores the invariant,
    and the inclusion verifier accepts the whole id list against the new head; with more
    parents it fails closed and changes nothing. *)
Theorem ledger_append_commits (o : Organ) (k tok t cap : Z) (ps : list (list Z))
  (Ho : organ_ok o) (He : entry_ok (Build_ProvEntry k tok t cap (clock o) ps)) :
  (zlen ps <= 6 ->
   exists o' id leaf siblings,
     ledger_append o k tok t cap ps = Val (o', Some id) /\ organ_ok o' /\
     ledger_ids o' = ledger_ids o ++ [id] /\ clock o' = clock o /\
     prov_hash (entry_bytes (Build_ProvEntry k tok t cap (clock o) ps)) = Val id /\
     ledger_ids o' = leaf :: siblings /\
     verify_inclusion leaf siblings (chain_head o') = Val true) /\
  (6 < zlen ps -> ledger_append o k tok t cap ps = Val (o, None)).
Proof.
  pose proof (entry_bytes_length _ He) as Hl. cbn [parent_ids] in Hl.
  destruct (ledger_append_eq o k tok t cap ps Ho He) as [Hfit Hbig]. unfold PROV_SCRATCH in *.
  split; [intros Hps | intros Hps; apply Hbig; lia].
  destruct Hfit as (h & id & Hh & Hid & Eid & Emix & E); [lia|].
  set (o' := Build_Organ h (ledger_ids o ++ [id]) (clock o)) in *.
  assert (fold_chain genesis (ledger_ids o') = Val (chain_head o')) as Hfold.
  { cbn [ledger_ids chain_head o']. by rewrite fold_chain_snoc, (ok_head o Ho). }
  destruct (ledger_ids o') as [|leaf siblings] eqn:Eids; [by destruct (ledger_ids o)|].
  exists o', id, leaf, siblings. split; [done|]. split.
  { constructor; [apply Ho | | by rewrite Eids].
    cbn [ledger_ids o']. apply Forall_app_2; [apply Ho | by apply Forall_singleton]. }
  repeat split; try done. by apply verify_inclusion_true.
Qed.

(** Inclusion proofs are sound.  Against the head of a well-formed ledger the verifier
    accepts a leaf and siblings only if they are exactly the ledger's ids in order, unless
    the strings hashed contain a collision or a preimage of the zero head; it never
    panics. *)
Theorem inclusion_proof_sound (o : Organ) (leaf : list Z) (siblings : list (list Z))
  (Ho : organ_ok o) (Hleaf : is_digest leaf) (Hsib : Forall is_digest siblings) :
  (exists b, verify_inclusion leaf siblings (chain_head o) = Val b) /\
  (verify_inclusion leaf siblings (chain_head o) = Val true ->
   leaf :: siblings = ledger_ids o \/
   collision (chain_inputs genesis (leaf :: siblings)) (chain_inputs genesis (ledger_ids o)) \/
   zero_preimage (chain_inputs genesis (leaf :: siblings) ++ chain_inputs genesis (ledger_ids o))).
Proof.
  split.
  - unfold verify_inclusion. rewrite recompute_eq.
    destruct (fold_chain_runs genesis (leaf :: siblings) genesis_digest) as (r & -> & _);
      [by constructor | by eexists].
  - intros Hv%verify_inclusion_true. apply (fold_chain_binding _ _ (chain_head o));
      [by constructor | apply Ho | done | apply Ho].
Qed.

(** The canonical encoding.  It fails closed on a buffer shorter than the canonical
    length; otherwise it writes exactly the documented layout (tags, three scalars and the
    parent count little-endian, then the parents verbatim), leaves the rest of the buffer
    alone, reports that length, and determines the entry: two entries with one encoding
    are equal. *)
Theorem prov_canon_layout (e : ProvEntry) (out : list Z) (He : entry_ok e) :
  canon_len e = CANON_PREFIX_LEN + CANON_PARENT_LEN * zlen (parent_ids e) /\
  (zlen out < canon_len e -> canon e out = Val (out, 0)) /\
  (canon_len e <= zlen out ->
     canon e out = Val (([kind e; tier e] ++ to_le 8 (payload_tok e) ++ to_le 8 (writer_cap_id e) ++
       to_le 8 (t_created e) ++ to_le 8 (zlen (parent_ids e)) ++ concat (parent_ids e)) ++
       zdrop (canon_len e) out, canon_len e)) /\
  (forall e' out1 out2 n, entry_ok e' -> 0 < n -> canon e out1 = Val (out2, n) ->
     forall out1' out2', canon e' out1' = Val (out2', n) -> zsub 0 n out2 = zsub 0 n out2' -> e = e').
Proof.
  rewrite canon_len_eq by done. split; [|split; [|split]].
  - rewrite entry_bytes_length by done. done.
  - intros Hs. unfold canon. rewrite canon_len_eq by done. by rewrite (proj2 (Z.ltb_lt _ _)).
  - intros Hs. by apply canon_eq.
  - assert (forall e out out' n, entry_ok e -> 0 < n -> canon e out = Val (out', n) ->
      zsub 0 n out' = entry_bytes e) as H.
    { clear. intros e out out' n He Hn.
      destruct (decide (zlen (entry_bytes e) <= zlen out)) as [Hl|Hl].
      - rewrite canon_eq by done. intros [<- <-]%Val_inj%pair_equal_spec. by apply zsub_app_eq.
      - unfold canon. rewrite canon_len_eq, (proj2 (Z.ltb_lt _ _)) by (done || lia).
        intros [_ <-]%Val_inj%pair_equal_spec. lia. }
    intros e' out1 out2 n He' Hn E1 out1' out2' E2 Eq. apply entry_bytes_inj; [done..|].
    by rewrite <-(H e out1 out2 n), <-(H e' out1' out2' n).
Qed.

(** ** Witnesses *)

Definition sample_entry (n : Z) (parents : list (list Z)) : ProvEntry :=
  {| kind := kind_WRITE; payload_tok := n; tier := 2; writer_cap_id := 7; t_created := 40;
     parent_ids := parents |}.

Lemma sample_entry_ok n ps : is_u64 n -> Forall is_digest ps -> zlen ps < 2 ^ 58 ->
  entry_ok (sample_entry n ps).
Proof. intros. constructor; cbn; try done; unfold in_u; try (split; lia); lia. Qed.

Lemma prov_head_binds_history_witness :
  exists head ids,
    append_all (zrepeat 256 0) [sample_entry 1 []; sample_entry 2 [genesis]] = Val (Some (head, ids)) /\
    zlen head = 32 /\
    ([sample_entry 1 []; sample_entry 2 [genesis]] = [sample_entry 1 []; sample_entry 2 [genesis]] \/
     (exists x y, x ∈ map entry_bytes [sample_entry 1 []; sample_entry 2 [genesis]] ++ chain_inputs genesis ids /\
       y ∈ map entry_bytes [sample_entry 1 []; sample_entry 2 [genesis]] ++ chain_inputs genesis ids /\
       x <> y /\ prov_hash x = prov_hash y) \/
     (exists x, (x ∈ map entry_bytes [sample_entry 1 []; sample_entry 2 [genesis]] ++ chain_inputs genesis ids \/
                 x ∈ map entry_bytes [sample_entry 1 []; sample_entry 2 [genesis]] ++ chain_inputs genesis ids) /\
        prov_hash x = Val genesis)).
Proof.
  assert (Forall entry_ok [sample_entry 1 []; sample_entry 2 [genesis]]) as Hok.
  { repeat constructor; cbn; try done; unfold in_u; lia. }
  eexists _, _. split; [vm_compute; reflexivity|]. split; [vm_compute; reflexivity|].
  eapply (prov_head_binds_history (zrepeat 256 0) (zrepeat 256 0)); [exact Hok | exact Hok | |];
    vm_compute; reflexivity.
Defined.

Definition sample_organ : Organ :=
  {| chain_head := res_or [] (fold_chain genesis [genesis]); ledger_ids := [genesis]; clock := 40 |}.

Lemma sample_organ_ok : organ_ok sample_organ.
Proof.
  constructor; [unfold in_u; cbn; lia | apply Forall_singleton, genesis_digest |].
  vm_compute. reflexivity.
Qed.

Lemma ledger_append_commits_witness :
  zlen (parent_ids (sample_entry 3 [genesis])) <= 6 /\
  exists o' id leaf siblings,
    ledger_append sample_organ kind_WRITE 3 2 7 [genesis] = Val (o', Some id) /\ organ_ok o' /\
    ledger_ids o' = ledger_ids sample_organ ++ [id] /\ clock o' = clock sample_organ /\
    prov_hash (entry_bytes (sample_entry 3 [genesis])) = Val id /\
    ledger_ids o' = leaf :: siblings /\ verify_inclusion leaf siblings (chain_head o') = Val true.
Proof.
  split; [vm_compute; discriminate|].
  apply (ledger_append_commits sample_organ kind_WRITE 3 2 7 [genesis]);
    [exact sample_organ_ok | | vm_compute; discriminate].
  apply (sample_entry_ok 3 [genesis]);
    [unfold in_u; lia | apply Forall_singleton, genesis_digest | vm_compute; reflexivity].
Defined.

Lemma inclusion_proof_sound_witness :
  verify_inclusion genesis [] (chain_head sample_organ) = Val true /\
  (exists b, verify_inclusion genesis [] (chain_head sample_organ) = Val b).
Proof.
  split; [vm_compute; reflexivity|].
  apply (inclusion_proof_sound sample_organ genesis []);
    [exact sample_organ_ok | exact genesis_digest | constructor].
Defined.

Lemma prov_canon_layout_witness :
  canon_len (sample_entry 3 [genesis]) = 66 /\
  canon (sample_entry 3 [genesis]) (zrepeat 65 0) = Val (zrepeat 65 0, 0).
Proof.
  destruct (prov_canon_layout (sample_entry 3 [genesis]) (zrepeat 65 0)) as (H1 & H2 & _).
  - apply sample_entry_ok;
      [unfold in_u; lia | apply Forall_singleton, genesis_digest | vm_compute; reflexivity].
  - split; [rewrite H1; reflexivity | apply H2; reflexivity].
Defined.
