(* ===== verification/Corpus.v ===== *)
(** * Experience corpus codec: [crates/tb-encode/src/corpus.rs].

    The fixed-width record, its encoder and fail-closed decoder, and the fold of records
    into the corpus head, which reuses the provenance chain ([Prov]). *)
From Stdlib Require Import ZArith Lia.
From stdpp Require Import base numbers option tactics sets list.
From S2P Require Import Prelude Prov.
Open Scope Z_scope.

Definition CORPUS_SCHEMA_V1 : Z := 1.

Definition EPISODIC_CONSOLIDATION : Z := 1.
Definition OPERATOR_TURN : Z := 2.
Definition LABELED_OUTCOME : Z := 3.
Definition example_kind_is_valid (v : Z) : bool :=
  (v =? EPISODIC_CONSOLIDATION) || (v =? OPERATOR_TURN) || (v =? LABELED_OUTCOME).

Definition M13_MEM : Z := 1.
Definition M17_REFLECT : Z := 2.
Definition M25_OPERATOR : Z := 3.
Definition M31_INFER : Z := 4.
Definition source_stream_is_valid (v : Z) : bool :=
  (v =? M13_MEM) || (v =? M17_REFLECT) || (v =? M25_OPERATOR) || (v =? M31_INFER).

Definition REJECTED : Z := 0.
Definition ACCEPTED : Z := 1.
Definition curation_verdict_is_valid (v : Z) : bool := (v =? REJECTED) || (v =? ACCEPTED).

Inductive OutcomeLabel : Type :=
| Unset
| Positive (v : Z)
| Negative (v : Z).

Definition tag (o : OutcomeLabel) : Z :=
  match o with Unset => 0 | Positive _ => 1 | Negative _ => 2 end.

Definition payload (o : OutcomeLabel) : Z :=
  match o with Unset => 0 | Positive v | Negative v => v end.

Definition from_parts (tag payload : Z) : option OutcomeLabel :=
  if tag =? 0 then Some Unset
  else if tag =? 1 then Some (Positive payload)
  else if tag =? 2 then Some (Negative payload)
  else None.

Record CorpusRecord := {
  schema_version : Z;
  example_kind : Z;
  source_stream : Z;
  curation_verdict : Z;
  content_tok : Z;
  aux_tok : Z;
  t_created : Z;
  source_head : list Z;
  outcome : OutcomeLabel;
  curation_score_q : Z;
}.

Definition CORPUS_CANON_LEN : Z := 1 + 1 + 1 + 1 + 8 + 8 + 8 + PROV_HASH_LEN + 1 + 8 + 2.

Definition OFF_SCHEMA_VERSION : Z := 0.
Definition OFF_EXAMPLE_KIND : Z := 1.
Definition OFF_SOURCE_STREAM : Z := 2.
Definition OFF_CURATION_VERDICT : Z := 3.
Definition OFF_CONTENT_TOK : Z := 4.
Definition OFF_AUX_TOK : Z := 12.
Definition OFF_T_CREATED : Z := 20.
Definition OFF_SOURCE_HEAD : Z := 28.
Definition OFF_OUTCOME_TAG : Z := 60.
Definition OFF_OUTCOME_PAYLOAD : Z := 61.
Definition OFF_CURATION_SCORE : Z := 69.

Definition canon_len (_ : CorpusRecord) : Z := CORPUS_CANON_LEN.

Definition write_u64 (out : list Z) (off v : Z) : res (list Z) := copy_loop 8 (to_le 8 v) off out.
Definition write_i64 (out : list Z) (off v : Z) : res (list Z) := write_u64 out off (wrap 64 v).
Definition write_i16 (out : list Z) (off v : Z) : res (list Z) :=
  let b := to_le 2 (wrap 16 v) in
  b0 ← idx b 0; out ← upd out off b0;
  b1 ← idx b 1; upd out (off + 1) b1.
Definition read_u64 (buf : list Z) (off : Z) : res Z :=
  b ← gather buf [off; off + 1; off + 2; off + 3; off + 4; off + 5; off + 6; off + 7];
  Val (of_le b).
Definition read_i64 (buf : list Z) (off : Z) : res Z := v ← read_u64 buf off; Val (to_signed 64 v).
Definition read_i16 (buf : list Z) (off : Z) : res Z :=
  b ← gather buf [off; off + 1]; Val (to_signed 16 (of_le b)).

Definition canon (rec : CorpusRecord) (out : list Z) : res (list Z * Z) :=
  if zlen out <? CORPUS_CANON_LEN then Val (out, 0) else
  out ← upd out OFF_SCHEMA_VERSION (schema_version rec);
  out ← upd out OFF_EXAMPLE_KIND (example_kind rec);
  out ← upd out OFF_SOURCE_STREAM (source_stream rec);
  out ← upd out OFF_CURATION_VERDICT (curation_verdict rec);
  out ← write_u64 out OFF_CONTENT_TOK (content_tok rec);
  out ← write_u64 out OFF_AUX_TOK (aux_tok rec);
  out ← write_u64 out OFF_T_CREATED (t_created rec);
  out ← copy_loop PROV_HASH_LEN (source_head rec) OFF_SOURCE_HEAD out;
  out ← upd out OFF_OUTCOME_TAG (tag (outcome rec));
  out ← write_i64 out OFF_OUTCOME_PAYLOAD (payload (outcome rec));
  out ← write_i16 out OFF_CURATION_SCORE (curation_score_q rec);
  Val (out, CORPUS_CANON_LEN).

Definition decode (buf : list Z) : res (option CorpusRecord) :=
  if zlen buf <? CORPUS_CANON_LEN then Val None else
  schema_version ← idx buf OFF_SCHEMA_VERSION;
  if negb (schema_version =? CORPUS_SCHEMA_V1) then Val None else
  example_kind ← idx buf OFF_EXAMPLE_KIND;
  if negb (example_kind_is_valid example_kind) then Val None else
  source_stream ← idx buf OFF_SOURCE_STREAM;
  if negb (source_stream_is_valid source_stream) then Val None else
  curation_verdict ← idx buf OFF_CURATION_VERDICT;
  if negb (curation_verdict_is_valid curation_verdict) then Val None else
  content_tok ← read_u64 buf OFF_CONTENT_TOK;
  aux_tok ← read_u64 buf OFF_AUX_TOK;
  t_created ← read_u64 buf OFF_T_CREATED;
  source_head ← copy_in PROV_HASH_LEN buf OFF_SOURCE_HEAD (zrepeat PROV_HASH_LEN 0);
  outcome_tag ← idx buf OFF_OUTCOME_TAG;
  outcome_payload ← read_i64 buf OFF_OUTCOME_PAYLOAD;
  match from_parts outcome_tag outcome_payload with
  | None => Val None
  | Some outcome =>
      curation_score_q ← read_i16 buf OFF_CURATION_SCORE;
      Val (Some {| schema_version := schema_version; example_kind := example_kind;
                   source_stream := source_stream; curation_verdict := curation_verdict;
                   content_tok := content_tok; aux_tok := aux_tok; t_created := t_created;
                   source_head := source_head; outcome := outcome;
                   curation_score_q := curation_score_q |})
  end.

Definition corpus_append (head : list Z) (rec : CorpusRecord) (scratch : list Z)
  : res (option (list Z * list Z)) :=
  '(scratch, n) ← canon rec scratch;
  if n =? 0 then Val None else
  b ← slice scratch 0 n;
  record_id ← prov_hash b;
  new_head ← chain_mix head record_id;
  Val (Some (new_head, record_id)).

(** ** Lemmas: the encoder *)

Record record_ok (r : CorpusRecord) : Prop := {
  ok_version : is_u8 (schema_version r);
  ok_kind : is_u8 (example_kind r);
  ok_stream : is_u8 (source_stream r);
  ok_verdict : is_u8 (curation_verdict r);
  ok_content : is_u64 (content_tok r);
  ok_aux : is_u64 (aux_tok r);
  ok_created : is_u64 (t_created r);
  ok_source : zlen (source_head r) = PROV_HASH_LEN /\ bytes (source_head r);
  ok_payload : in_i 64 (payload (outcome r));
  ok_score : in_i 16 (curation_score_q r);
}.

(** The closed vocabularies the decoder enforces. *)
Definition vocab_ok (r : CorpusRecord) : bool :=
  (schema_version r =? CORPUS_SCHEMA_V1) && example_kind_is_valid (example_kind r) &&
  source_stream_is_valid (source_stream r) && curation_verdict_is_valid (curation_verdict r).

Definition record_prefix (r : CorpusRecord) : list Z :=
  [schema_version r; example_kind r; source_stream r; curation_verdict r] ++
  to_le 8 (content_tok r) ++ to_le 8 (aux_tok r) ++ to_le 8 (t_created r) ++ source_head r.
Definition record_bytes (r : CorpusRecord) : list Z :=
  record_prefix r ++ [tag (outcome r)] ++ to_le 8 (wrap 64 (payload (outcome r))) ++
  to_le 2 (wrap 16 (curation_score_q r)).

Lemma corpus_canon_eq r out : record_ok r -> CORPUS_CANON_LEN <= zlen out ->
  canon r out = Val (record_bytes r ++ zdrop CORPUS_CANON_LEN out, CORPUS_CANON_LEN).
Proof.
  intros Hok Hl. pose proof (proj1 (ok_source r Hok)) as Hs. unfold canon.
  rewrite (proj2 (Z.ltb_ge _ _)) by done.
  unfold CORPUS_CANON_LEN, PROV_HASH_LEN, write_i64, write_u64, write_i16 in *. cbv zeta.
  change out with ([] ++ zdrop 0 out) at 1.
  writes. unfold record_bytes, record_prefix.
  match goal with |- context [to_le 2 ?x] =>
    change (to_le 2 x) with ([x mod 256] ++ [(x / 256) mod 256]) end.
  by rewrite <-!app_assoc.
Qed.

Lemma record_prefix_length r : record_ok r -> zlen (record_prefix r) = 60.
Proof.
  intros Hok. pose proof (proj1 (ok_source r Hok)) as Hs. unfold record_prefix, PROV_HASH_LEN in *.
  zlen_const.
Qed.

Lemma record_bytes_length r : record_ok r -> zlen (record_bytes r) = CORPUS_CANON_LEN.
Proof.
  intros Hok. unfold record_bytes. rewrite zlen_app, record_prefix_length by done. zlen_const.
Qed.

(** ** Lemmas: the decoder *)

Definition record_of (buf : list Z) (v k s c : Z) (o : OutcomeLabel) : CorpusRecord :=
  {| schema_version := v; example_kind := k; source_stream := s; curation_verdict := c;
     content_tok := of_le (zsub 4 8 buf); aux_tok := of_le (zsub 12 8 buf);
     t_created := of_le (zsub 20 8 buf); source_head := zsub 28 32 buf; outcome := o;
     curation_score_q := to_signed 16 (of_le (zsub 69 2 buf)) |}.

Lemma read_u64_eq buf off : 0 <= off -> off + 8 <= zlen buf ->
  read_u64 buf off = Val (of_le (zsub off 8 buf)).
Proof. intros. unfold read_u64. gather_tac off 8%nat. done. Qed.

Lemma decode_eq buf v k s c t : CORPUS_CANON_LEN <= zlen buf ->
  idx buf 0 = Val v -> idx buf 1 = Val k -> idx buf 2 = Val s -> idx buf 3 = Val c ->
  idx buf 60 = Val t ->
  decode buf = Val
    (if (v =? CORPUS_SCHEMA_V1) && example_kind_is_valid k && source_stream_is_valid s &&
        curation_verdict_is_valid c
     then o ← from_parts t (to_signed 64 (of_le (zsub 61 8 buf))); Some (record_of buf v k s c o)
     else None).
Proof.
  intros Hl E0 E1 E2 E3 E60. unfold decode. rewrite (proj2 (Z.ltb_ge _ _)) by done.
  unfold CORPUS_CANON_LEN, PROV_HASH_LEN in Hl.
  unfold OFF_SCHEMA_VERSION, OFF_EXAMPLE_KIND, OFF_SOURCE_STREAM, OFF_CURATION_VERDICT,
    OFF_CONTENT_TOK, OFF_AUX_TOK, OFF_T_CREATED, OFF_SOURCE_HEAD, OFF_OUTCOME_TAG,
    OFF_OUTCOME_PAYLOAD, OFF_CURATION_SCORE, read_i64, read_i16, PROV_HASH_LEN.
  rewrite E0, bind_val. destruct (v =? CORPUS_SCHEMA_V1); [|done]. cbn [negb andb].
  rewrite E1, bind_val. destruct (example_kind_is_valid k); [|done]. cbn [negb andb].
  rewrite E2, bind_val. destruct (source_stream_is_valid s); [|done]. cbn [negb andb].
  rewrite E3, bind_val. destruct (curation_verdict_is_valid c); [|done]. cbn [negb andb].
  rewrite !read_u64_eq, !bind_val by lia. rewrite copy_in_ok, bind_val by zl.
  rewrite E60, !bind_val. rewrite zdrop_all, app_nil_r by zl.
  destruct (from_parts _ _) as [o|]; [|done]. gather_tac 69 2%nat. done.
Qed.

Lemma from_parts_tag_payload o : from_parts (tag o) (payload o) = Some o.
Proof. by destruct o. Qed.

Lemma decode_canon r tl : record_ok r -> vocab_ok r = true ->
  decode (record_bytes r ++ tl) = Val (Some r).
Proof.
  intros Hok Hv. pose proof (proj1 (ok_source r Hok)) as Hs.
  pose proof (record_prefix_length r Hok) as Hp. pose proof (record_bytes_length r Hok) as Hl.
  pose proof (zlen_nonneg tl).
  rewrite (decode_eq _ (schema_version r) (example_kind r) (source_stream r) (curation_verdict r)
    (tag (outcome r))); [|rewrite zlen_app; lia|done|done|done|done|].
  2:{ unfold record_bytes. rewrite <-!app_assoc. by apply idx_app_eq. }
  fold (vocab_ok r). rewrite Hv.
  unfold record_of, record_bytes, record_prefix, PROV_HASH_LEN in *. rewrite <-!app_assoc. fields.
  destruct Hok. rewrite !of_to_le_id by (try done; by apply wrap_in_u).
  rewrite !to_signed_wrap by done. rewrite from_parts_tag_payload. by destruct r.
Qed.

Lemma from_parts_inv t p o : from_parts t p = Some o ->
  tag o = t /\ (t = 0 /\ o = Unset \/ (t = 1 \/ t = 2) /\ payload o = p).
Proof.
  unfold from_parts. destruct (Z.eqb_spec t 0) as [->|]; [intros [= <-]; auto|].
  destruct (Z.eqb_spec t 1) as [->|]; [intros [= <-]; auto|].
  destruct (Z.eqb_spec t 2) as [->|]; [intros [= <-]; auto | done].
Qed.

(** What a successful decode of arbitrary bytes means. *)
Lemma corpus_decode_inv buf r : bytes buf -> decode buf = Val (Some r) ->
  CORPUS_CANON_LEN <= zlen buf /\ record_ok r /\ vocab_ok r = true /\
  idx buf 60 = Val (tag (outcome r)) /\
  record_prefix r = zsub 0 60 buf /\
  to_le 2 (wrap 16 (curation_score_q r)) = zsub 69 2 buf /\
  (tag (outcome r) <> 0 -> to_le 8 (wrap 64 (payload (outcome r))) = zsub 61 8 buf).
Proof.
  intros Hb Hd. assert (CORPUS_CANON_LEN <= zlen buf) as Hl.
  { unfold decode in Hd. destruct (Z.ltb_spec (zlen buf) CORPUS_CANON_LEN); [done | lia]. }
  unfold CORPUS_CANON_LEN, PROV_HASH_LEN in Hl.
  assert (forall i, 0 <= i < 71 -> exists x, idx buf i = Val x /\ is_u8 x) as Hidx.
  { intros i Hi. apply (idx_runs buf i is_u8); [lia | done]. }
  destruct (Hidx 0) as (v & E0 & Hv); [lia|]. destruct (Hidx 1) as (k & E1 & Hk); [lia|].
  destruct (Hidx 2) as (s & E2 & Hs); [lia|]. destruct (Hidx 3) as (c & E3 & Hc); [lia|].
  destruct (Hidx 60) as (t & E60 & Ht); [lia|].
  rewrite (decode_eq buf v k s c t Hl E0 E1 E2 E3 E60) in Hd. apply Val_inj in Hd.
  destruct ((v =? CORPUS_SCHEMA_V1) && _ && _ && _) eqn:Hvoc; [|done].
  destruct (from_parts t _) as [o|] eqn:Ho; [|done]. cbn in Hd. injection Hd as <-.
  apply from_parts_inv in Ho as [Htag Ho]. cbn [outcome record_of].
  assert (forall off n, zlen (zsub off n buf) = Z.of_nat (Z.to_nat n) ->
    bytes (zsub off n buf)) as Hzb by (intros; by apply zsub_bytes).
  assert (is_u64 (of_le (zsub 61 8 buf))) as H61.
  { replace 64 with (8 * zlen (zsub 61 8 buf)) by zl. apply of_le_bound. by apply zsub_bytes. }
  assert (is_u16 (of_le (zsub 69 2 buf))) as H69.
  { replace 16 with (8 * zlen (zsub 69 2 buf)) by zl. apply of_le_bound. by apply zsub_bytes. }
  assert (forall off, 0 <= off -> off + 8 <= 71 -> is_u64 (of_le (zsub off 8 buf))) as H8.
  { intros off ??. replace 64 with (8 * zlen (zsub off 8 buf)) by zl.
    apply of_le_bound. by apply zsub_bytes. }
  split; [done|]. split.
  { constructor; cbn [schema_version example_kind source_stream curation_verdict content_tok aux_tok
      t_created source_head outcome curation_score_q record_of]; try done; try (apply H8; lia).
    - split; [unfold PROV_HASH_LEN; zl | by apply zsub_bytes].
    - destruct Ho as [[_ ->]|[_ ->]]; [by cbn | by apply to_signed_in_i].
    - by apply to_signed_in_i. }
  split; [done|]. rewrite Htag. split; [done|]. split; [|split].
  - unfold record_prefix. cbn [schema_version example_kind source_stream curation_verdict content_tok
      aux_tok t_created source_head record_of].
    rewrite !to_of_le_n by (try (by apply zsub_bytes); zl).
    apply zsub_one in E0, E1, E2, E3.
    change [v; k; s; c] with ([v] ++ [k] ++ [s] ++ [c]). rewrite <-E0, <-E1, <-E2, <-E3.
    rewrite <-!app_assoc. rewrite !zsub_join by (done || lia). done.
  - cbn [curation_score_q record_of]. rewrite wrap_to_signed by done.
    apply to_of_le_n; [by apply zsub_bytes | zl].
  - intros Hne. destruct Ho as [[-> _]|[_ ->]]; [done|]. rewrite wrap_to_signed by done.
    apply to_of_le_n; [by apply zsub_bytes | zl].
Qed.

#[global] Instance CorpusRecord_canon : Canon CorpusRecord canon.
Proof.
  refine {| canon_ok := record_ok; canon_bytes := record_bytes |}.
  - intros r. unfold record_bytes, record_prefix. rewrite <-app_assoc. cbn [app]. rewrite zlen_cons.
    match goal with |- 0 < 1 + zlen ?l => pose proof (zlen_nonneg l) end. lia.
  - intros r out Hok Hs. rewrite record_bytes_length in Hs by done. unfold canon.
    by rewrite (proj2 (Z.ltb_lt _ _)).
  - intros r out Hok Hs. rewrite record_bytes_length in * by done. by apply corpus_canon_eq.
  - intros r1 r2 H1 H2 E.
    pose proof (proj1 (ok_source r1 H1)) as S1. pose proof (proj1 (ok_source r2 H2)) as S2.
    unfold record_bytes, record_prefix in E. rewrite <-!app_assoc in E. chunks_inj E.
    destruct H1, H2, r1 as [v1 k1 s1 c1 ct1 ax1 tc1 sh1 o1 q1], r2 as [v2 k2 s2 c2 ct2 ax2 tc2 sh2 o2 q2].
    cbn [schema_version example_kind source_stream curation_verdict content_tok aux_tok
      t_created source_head outcome curation_score_q] in *.
    repeat match goal with H : to_le 8 _ = to_le 8 _ |- _ =>
      apply to_le8_inj in H; [|first [assumption | by apply wrap_in_u]..] end.
    apply to_le2_inj in E; [|by apply wrap_in_u..].
    assert (o1 = o2) as ->.
    { assert (payload o1 = payload o2) as Hp.
      { rewrite <-(to_signed_wrap 64 (payload o1)), <-(to_signed_wrap 64 (payload o2)) by done. congruence. }
      assert (Some o1 = Some o2) as [=]; [|done].
      rewrite <-(from_parts_tag_payload o1), <-(from_parts_tag_payload o2). congruence. }
    assert (q1 = q2) as -> by (rewrite <-(to_signed_wrap 16 q1), <-(to_signed_wrap 16 q2) by done; congruence).
    congruence.
Defined.

Lemma corpus_append_chain head r scratch :
  corpus_append head r scratch = chain_append (enc := canon) head r scratch.
Proof. done. Qed.

(** Schema stability: a record with another outcome. *)
Definition with_outcome (r : CorpusRecord) (o : OutcomeLabel) : CorpusRecord :=
  {| schema_version := schema_version r; example_kind := example_kind r;
     source_stream := source_stream r; curation_verdict := curation_verdict r;
     content_tok := content_tok r; aux_tok := aux_tok r; t_created := t_created r;
     source_head := source_head r; outcome := o; curation_score_q := curation_score_q r |}.

Lemma record_ok_with_outcome r o : record_ok r -> in_i 64 (payload o) -> record_ok (with_outcome r o).
Proof. intros [] ?. by constructor. Qed.

Lemma zsub_prefix_record r : record_ok r -> zsub 0 60 (record_bytes r) = record_prefix r.
Proof. intros Hok. unfold record_bytes. by rewrite zsub_app_eq by (by apply record_prefix_length). Qed.

Lemma zsub_score_record r : record_ok r ->
  zsub 69 2 (record_bytes r) = to_le 2 (wrap 16 (curation_score_q r)).
Proof.
  intros Hok. pose proof (record_prefix_length r Hok). unfold record_bytes. by fields.
Qed.

(** ** Properties *)

(** The record codec.  [canon] fails closed on a short buffer and otherwise writes 71
    bytes and nothing else; decoding them returns the very record whenever its four
    closed-set fields are in their vocabularies, and [None] whenever one is not; and the
    layout is stable: giving a record another outcome changes no byte before offset 60
    and no byte from 69 on. *)
Theorem corpus_codec (r : CorpusRecord) (out tl : list Z) (o : OutcomeLabel)
  (Hr : record_ok r) (Ho : in_i 64 (payload o)) :
  (zlen out < CORPUS_CANON_LEN -> canon r out = Val (out, 0) /\ decode out = Val None) /\
  (CORPUS_CANON_LEN <= zlen out -> exists written,
     canon r out = Val (written ++ zdrop CORPUS_CANON_LEN out, CORPUS_CANON_LEN) /\
     zlen written = CORPUS_CANON_LEN /\
     decode (written ++ tl) = Val (if vocab_ok r then Some r else None) /\
     (forall out', CORPUS_CANON_LEN <= zlen out' -> exists written',
        canon (with_outcome r o) out' = Val (written' ++ zdrop CORPUS_CANON_LEN out', CORPUS_CANON_LEN) /\
        zlen written' = CORPUS_CANON_LEN /\
        zsub 0 OFF_OUTCOME_TAG written' = zsub 0 OFF_OUTCOME_TAG written /\
        zsub OFF_CURATION_SCORE 2 written' = zsub OFF_CURATION_SCORE 2 written)).
Proof.
  split.
  - intros Hs. unfold canon, decode. by rewrite (proj2 (Z.ltb_lt _ _)).
  - intros Hl. exists (record_bytes r). split; [by apply corpus_canon_eq|].
    split; [by apply record_bytes_length|]. split.
    + destruct (vocab_ok r) eqn:Hv; [by apply decode_canon|].
      pose proof (record_prefix_length r Hr). pose proof (record_bytes_length r Hr). pose proof (zlen_nonneg tl).
      rewrite (decode_eq _ (schema_version r) (example_kind r) (source_stream r)
        (curation_verdict r) (tag (outcome r))); [|rewrite zlen_app; lia|done|done|done|done|].
      * fold (vocab_ok r). by rewrite Hv.
      * unfold record_bytes. rewrite <-!app_assoc. by apply idx_app_eq.
    + intros out' Hl'. exists (record_bytes (with_outcome r o)).
      pose proof (record_ok_with_outcome r o Hr Ho) as Hr'.
      split; [by apply corpus_canon_eq|]. split; [by apply record_bytes_length|].
      unfold OFF_OUTCOME_TAG, OFF_CURATION_SCORE.
      by rewrite !zsub_prefix_record, !zsub_score_record by done.
Qed.

Definition sample_record : CorpusRecord :=
  {| schema_version := 1; example_kind := 2; source_stream := 3; curation_verdict := 1;
     content_tok := 77; aux_tok := 0; t_created := 5; source_head := genesis; outcome := Unset;
     curation_score_q := -3 |}.

Lemma sample_record_ok : record_ok sample_record.
Proof. constructor; cbn; try (unfold in_u, in_i; lia). exact genesis_digest. Qed.

Lemma corpus_codec_witness :
  exists written,
    canon sample_record (zrepeat 71 0) = Val (written ++ zdrop CORPUS_CANON_LEN (zrepeat 71 0), CORPUS_CANON_LEN) /\
    zlen written = CORPUS_CANON_LEN /\ decode (written ++ [9]) = Val (Some sample_record).
Proof.
  destruct (corpus_codec sample_record (zrepeat 71 0) [9] (Positive (-12))) as (_ & H).
  - exact sample_record_ok.
  - cbn. unfold in_i. lia.
  - destruct H as (w & H1 & H2 & H3 & _); [vm_compute; discriminate|].
    exists w. split; [exact H1 | split; [exact H2 | exact H3]].
Defined.

(** What a successful decode of arbitrary bytes guarantees, and what it does not.  The
    record is well formed, inside the closed vocabularies, and re-encodes to a record that
    decodes to itself; re-encoding reproduces the very bytes exactly when the outcome tag
    is not [Unset] or the payload slot of an [Unset] outcome is zero (a non-zero payload
    under an [Unset] tag is accepted and dropped). *)
Theorem corpus_decode_reencode (buf : list Z) (r : CorpusRecord)
  (Hbuf : bytes buf) (Hdec : decode buf = Val (Some r)) :
  record_ok r /\ vocab_ok r = true /\
  (exists out, canon r (zrepeat CORPUS_CANON_LEN 0) = Val (out, CORPUS_CANON_LEN) /\
     decode out = Val (Some r) /\
     (out = zsub 0 CORPUS_CANON_LEN buf <->
      idx buf OFF_OUTCOME_TAG <> Val 0 \/ zsub OFF_OUTCOME_PAYLOAD 8 buf = zrepeat 8 0)).
Proof.
  destruct (corpus_decode_inv buf r Hbuf Hdec) as (Hl & Hr & Hv & E60 & Hp & Hq & Hpay).
  split; [done|]. split; [done|]. exists (record_bytes r).
  rewrite corpus_canon_eq by (done || by rewrite zlen_zrepeat). rewrite zdrop_all, app_nil_r by (by rewrite zlen_zrepeat).
  split; [done|]. split.
  { rewrite <-(app_nil_r (record_bytes r)). by apply decode_canon. }
  unfold OFF_OUTCOME_TAG, OFF_OUTCOME_PAYLOAD, CORPUS_CANON_LEN, PROV_HASH_LEN in *.
  assert (zsub 0 71 buf = zsub 0 60 buf ++ [tag (outcome r)] ++ zsub 61 8 buf ++ zsub 69 2 buf) as Esplit.
  { rewrite <-(zsub_one _ _ _ E60). by rewrite !zsub_join by (done || lia). }
  change (1 + 1 + 1 + 1 + 8 + 8 + 8 + 32 + 1 + 8 + 2) with 71. rewrite Esplit.
  unfold record_bytes. rewrite Hp, Hq, E60.
  destruct (decide (tag (outcome r) = 0)) as [Ht|Ht].
  - assert (outcome r = Unset) as -> by (by destruct (outcome r)). cbn [tag payload].
    change (to_le 8 (wrap 64 0)) with (zrepeat 8 (0 : Z)). split.
    + intros E. right. apply app_inv_head in E. apply app_inv_head in E.
      apply zapp_inj in E as [E _]; [done | zl].
    + intros [Hne|Hz]; [done | by rewrite Hz].
  - rewrite (Hpay Ht). split; [|done]. intros _. left. by intros [= ?].
Qed.

Lemma corpus_decode_reencode_witness :
  let buf := zsub 0 61 (record_bytes sample_record) ++ [1] ++ zsub 62 9 (record_bytes sample_record) in
  decode buf = Val (Some sample_record) /\ record_ok sample_record /\
  exists out, canon sample_record (zrepeat CORPUS_CANON_LEN 0) = Val (out, CORPUS_CANON_LEN) /\ out <> buf.
Proof.
  cbv zeta. set (buf := _ ++ _). assert (decode buf = Val (Some sample_record)) as Hd by (vm_compute; reflexivity).
  destruct (corpus_decode_reencode buf sample_record) as (H1 & _ & out & H3 & _ & H5).
  - repeat (constructor; [unfold in_u; vm_compute; split; [discriminate | reflexivity]|]). constructor.
  - exact Hd.
  - split; [exact Hd|]. split; [exact H1|]. exists out. split; [exact H3|].
    intros ->. destruct H5 as [H5 _]. destruct H5 as [H5|H5]; [reflexivity | |].
    + apply H5. reflexivity.
    + vm_compute in H5. discriminate.
Defined.

(** The corpus head after a sequence of records, by repeated [corpus_append]. *)
Definition corpus_append_all (scratch : list Z) (rs : list CorpusRecord)
  : res (option (list Z * list (list Z))) :=
  fold_res (fun s r =>
    match s with
    | None => Val None
    | Some (head, ids) =>
        a ← corpus_append head r scratch;
        Val (match a with None => None | Some (h, id) => Some (h, ids ++ [id]) end)
    end) (Some (genesis, [])) rs.

(** The corpus head binds the corpus.  With a 71-byte scratch every sequence of
    well-formed records is committed to a head without panic; and two sequences with one
    head are the same sequence, record for record and field for field, unless the strings
    hashed contain a collision or a preimage of the zero head. *)
Theorem corpus_head_binds_history (scratch : list Z) (rs1 rs2 : list CorpusRecord)
  (Hs : CORPUS_CANON_LEN <= zlen scratch) (H1 : Forall record_ok rs1) (H2 : Forall record_ok rs2) :
  exists head1 ids1 head2 ids2,
    corpus_append_all scratch rs1 = Val (Some (head1, ids1)) /\
    corpus_append_all scratch rs2 = Val (Some (head2, ids2)) /\
    zlen head1 = PROV_HASH_LEN /\ zlen ids1 = zlen rs1 /\
    (head1 = head2 -> rs1 = rs2 \/
       collision (map record_bytes rs1 ++ chain_inputs genesis ids1)
                 (map record_bytes rs2 ++ chain_inputs genesis ids2) \/
       zero_preimage ((map record_bytes rs1 ++ chain_inputs genesis ids1) ++
                      (map record_bytes rs2 ++ chain_inputs genesis ids2))).
Proof.
  assert (forall rs, Forall record_ok rs ->
    Forall (fun r => zlen (canon_bytes (Canon := CorpusRecord_canon) r) <= zlen scratch) rs) as Hfit.
  { intros rs Hrs. eapply Forall_impl; [exact Hrs|]. intros r Hr. cbn [canon_bytes CorpusRecord_canon].
    by rewrite record_bytes_length. }
  destruct (ledger_total (H := CorpusRecord_canon) scratch rs1 H1 (Hfit rs1 H1)) as (h1 & ids1 & E1 & D1).
  destruct (ledger_total (H := CorpusRecord_canon) scratch rs2 H2 (Hfit rs2 H2)) as (h2 & ids2 & E2 & _).
  exists h1, ids1, h2, ids2. split; [exact E1|]. split; [exact E2|]. split; [apply D1|].
  split.
  { apply (ledger_inv (H := CorpusRecord_canon)) in E1 as [I _]; [|done].
    unfold zlen. by rewrite (Forall2_length _ _ _ I). }
  intros <-. exact (ledger_binding (H := CorpusRecord_canon) scratch scratch rs1 rs2 h1 ids1 ids2 H1 H2 E1 E2).
Qed.

Lemma corpus_head_binds_history_witness :
  exists head1 ids1 head2 ids2,
    corpus_append_all (zrepeat 71 0) [sample_record] = Val (Some (head1, ids1)) /\
    corpus_append_all (zrepeat 71 0) [with_outcome sample_record (Positive 1)] = Val (Some (head2, ids2)) /\
    zlen head1 = PROV_HASH_LEN.
Proof.
  destruct (corpus_head_binds_history (zrepeat 71 0) [sample_record]
    [with_outcome sample_record (Positive 1)]) as (h1 & i1 & h2 & i2 & E1 & E2 & L & _).
  - vm_compute. discriminate.
  - constructor; [exact sample_record_ok | constructor].
  - constructor; [|constructor]. apply record_ok_with_outcome; [exact sample_record_ok|].
    unfold in_i. cbn. lia.
  - exists h1, i1, h2, i2. split; [exact E1 | split; [exact E2 | exact L]].
Defined.
