(* ===== verification/Tpsched.v ===== *)
(** * Two-VMID time-partition scheduler: [crates/tb-encode/src/tpsched.rs].

    The slot function, the deadline and frame arithmetic, and the fixed-width decision
    record, an instance of the provenance chain's entry interface ([Prov.Canon]). *)
From Stdlib Require Import ZArith Lia.
From stdpp Require Import base numbers option tactics sets list.
From S2P Require Import Prelude Prov.
Open Scope Z_scope.

Definition N_SLOTS : Z := 2.
Definition MIN_SLOT_TICKS : Z := 1.

Record FramePlan := { slot_ticks : list Z; vmid : list Z }.

Definition next_slot (current : Z) : Z :=
  if N_SLOTS <=? current then 0 else (current + 1) mod N_SLOTS.

Definition slot_deadline_delta (plan : FramePlan) (slot : Z) : res Z :=
  if N_SLOTS <=? slot then Val MIN_SLOT_TICKS else
  t ← idx (slot_ticks plan) slot;
  Val (if t <? MIN_SLOT_TICKS then MIN_SLOT_TICKS else t).

Definition frame_total (plan : FramePlan) : res Z :=
  for_up 0 N_SLOTS (fun s acc =>
    d ← slot_deadline_delta plan s; Val (saturating_add 64 acc d)) 0.

Record SchedDecision := {
  frame_seq : Z; slot : Z; vmid_from : Z; vmid_to : Z; t_logical : Z;
}.

Definition SCHED_CANON_LEN : Z := 8 + 1 + 2 + 2 + 8.
Definition OFF_FRAME_SEQ : Z := 0.
Definition OFF_SLOT : Z := 8.
Definition OFF_VMID_FROM : Z := 9.
Definition OFF_VMID_TO : Z := 11.
Definition OFF_TLOGICAL : Z := 13.

Definition canon_len (_ : SchedDecision) : Z := SCHED_CANON_LEN.

Definition canon (rec : SchedDecision) (out : list Z) : res (list Z * Z) :=
  if zlen out <? SCHED_CANON_LEN then Val (out, 0) else
  let fs := to_le 8 (frame_seq rec) in
  let vf := to_le 2 (vmid_from rec) in
  let vt := to_le 2 (vmid_to rec) in
  let tl := to_le 8 (t_logical rec) in
  out ← for_up 0 8 (fun i out =>
    f ← idx fs i; out ← upd out (OFF_FRAME_SEQ + i) f;
    t ← idx tl i; upd out (OFF_TLOGICAL + i) t) out;
  out ← upd out OFF_SLOT (slot rec);
  f0 ← idx vf 0; out ← upd out OFF_VMID_FROM f0;
  f1 ← idx vf 1; out ← upd out (OFF_VMID_FROM + 1) f1;
  t0 ← idx vt 0; out ← upd out OFF_VMID_TO t0;
  t1 ← idx vt 1; out ← upd out (OFF_VMID_TO + 1) t1;
  Val (out, SCHED_CANON_LEN).

Definition decode (buf : list Z) : res (option SchedDecision) :=
  if zlen buf <? SCHED_CANON_LEN then Val None else
  fs ← gather buf [OFF_FRAME_SEQ; OFF_FRAME_SEQ + 1; OFF_FRAME_SEQ + 2; OFF_FRAME_SEQ + 3;
                   OFF_FRAME_SEQ + 4; OFF_FRAME_SEQ + 5; OFF_FRAME_SEQ + 6; OFF_FRAME_SEQ + 7];
  tl ← gather buf [OFF_TLOGICAL; OFF_TLOGICAL + 1; OFF_TLOGICAL + 2; OFF_TLOGICAL + 3;
                   OFF_TLOGICAL + 4; OFF_TLOGICAL + 5; OFF_TLOGICAL + 6; OFF_TLOGICAL + 7];
  s ← idx buf OFF_SLOT;
  vf ← gather buf [OFF_VMID_FROM; OFF_VMID_FROM + 1];
  vt ← gather buf [OFF_VMID_TO; OFF_VMID_TO + 1];
  Val (Some {| frame_seq := of_le fs; slot := s; vmid_from := of_le vf; vmid_to := of_le vt;
               t_logical := of_le tl |}).

(** ** Lemmas: the codec *)

Record decision_ok (d : SchedDecision) : Prop := {
  ok_seq : is_u64 (frame_seq d);
  ok_slot : is_u8 (slot d);
  ok_from : is_u16 (vmid_from d);
  ok_to : is_u16 (vmid_to d);
  ok_time : is_u64 (t_logical d);
}.

Definition decision_bytes (d : SchedDecision) : list Z :=
  to_le 8 (frame_seq d) ++ [slot d] ++ to_le 2 (vmid_from d) ++ to_le 2 (vmid_to d) ++
  to_le 8 (t_logical d).

Lemma decision_bytes_length d : zlen (decision_bytes d) = SCHED_CANON_LEN.
Proof. unfold decision_bytes. zlen_const. Qed.

(** The interleaved loop: the sequence number at offset 0, the clock at offset 13. *)
Lemma clock_loop (fs tl o1 mid o2 rest : list Z) :
  zlen fs = 8 -> zlen tl = 8 -> zlen o1 = 8 -> zlen mid = 5 -> zlen o2 = 8 ->
  for_up 0 8 (fun i out =>
    f ← idx fs i; out ← upd out (OFF_FRAME_SEQ + i) f;
    t ← idx tl i; upd out (OFF_TLOGICAL + i) t) (o1 ++ mid ++ o2 ++ rest)
  = Val (fs ++ mid ++ tl ++ rest).
Proof.
  intros Hf Ht H1 Hm H2.
  destruct (for_up_inv (fun i out => out = [] ++ filled i fs o1 ++ mid ++ filled i tl o2 ++ rest) 0 8
    (fun i out =>
      f ← idx fs i; out ← upd out (OFF_FRAME_SEQ + i) f;
      t ← idx tl i; upd out (OFF_TLOGICAL + i) t) (o1 ++ mid ++ o2 ++ rest))
    as (out & -> & ->); [lia | done | |].
  - intros i out Hi ->. destruct (idx_ok fs i) as [f Ef]; [lia|]. destruct (idx_ok tl i) as [t Et]; [lia|].
    rewrite Ef, bind_val, (upd_filled _ _ fs o1 i f 0 8), bind_val by done.
    rewrite Et, bind_val, (app_assoc _ mid), (app_assoc []).
    rewrite (upd_filled _ _ tl o2 i t 13 8)
      by first [lia | done | rewrite !zlen_app, !(zlen_filled _ _ _ 8) by (done || lia); rewrite zlen_nil; lia].
    apply runs_val. by rewrite <-!app_assoc.
  - by rewrite !filled_all by done.
Qed.

Lemma vmid_writes {B} d (fs out : list Z) (k : list Z -> res B) :
  zlen fs = 8 -> 5 <= zlen out ->
  (out ← upd (fs ++ out) OFF_SLOT (slot d);
   f0 ← idx (to_le 2 (vmid_from d)) 0; out ← upd out OFF_VMID_FROM f0;
   f1 ← idx (to_le 2 (vmid_from d)) 1; out ← upd out (OFF_VMID_FROM + 1) f1;
   t0 ← idx (to_le 2 (vmid_to d)) 0; out ← upd out OFF_VMID_TO t0;
   t1 ← idx (to_le 2 (vmid_to d)) 1; out ← upd out (OFF_VMID_TO + 1) t1; k out) =
  k (fs ++ ([slot d] ++ to_le 2 (vmid_from d) ++ to_le 2 (vmid_to d)) ++ zdrop 5 out).
Proof.
  intros Hf Ho. rewrite <-(zdrop_0 out) at 1.
  unfold OFF_SLOT, OFF_VMID_FROM, OFF_VMID_TO. writes.
  rewrite <-!app_assoc. done.
Qed.

Lemma tpsched_canon_eq d out : SCHED_CANON_LEN <= zlen out ->
  canon d out = Val (decision_bytes d ++ zdrop SCHED_CANON_LEN out, SCHED_CANON_LEN).
Proof.
  intros Hl. unfold canon. rewrite (proj2 (Z.ltb_ge _ _)) by done. unfold SCHED_CANON_LEN in *.
  destruct (zsplit 8 out) as (o1 & t1 & -> & H1); [lia|]. rewrite zlen_app in Hl.
  destruct (zsplit 5 t1) as (mid & t2 & -> & Hm); [lia|]. rewrite zlen_app in Hl.
  destruct (zsplit 8 t2) as (o2 & rest & -> & H2); [lia|]. cbv zeta.
  rewrite clock_loop, bind_val by (done || zl).
  rewrite !app_assoc, (zdrop_app_eq _ ((o1 ++ mid) ++ o2)) by zl. rewrite <-!app_assoc.
  rewrite (vmid_writes d (to_le 8 (frame_seq d)) (mid ++ to_le 8 (t_logical d) ++ rest)) by zl.
  cbv beta. rewrite zdrop_app_eq by done. unfold decision_bytes. by rewrite <-!app_assoc.
Qed.

Lemma canon_small_eq d out : zlen out < SCHED_CANON_LEN -> canon d out = Val (out, 0).
Proof. intros Hs. unfold canon. by rewrite (proj2 (Z.ltb_lt _ _)). Qed.

Lemma decision_bytes_inj d1 d2 : decision_ok d1 -> decision_ok d2 ->
  decision_bytes d1 = decision_bytes d2 -> d1 = d2.
Proof.
  intros [] [] E. unfold decision_bytes in E. chunks_inj E. destruct d1, d2.
  cbn [frame_seq slot vmid_from vmid_to t_logical] in *.
  apply to_le8_inj in E as ->; [|done..].
  repeat match goal with
    | H : to_le 8 _ = to_le 8 _ |- _ => apply to_le8_inj in H; [|assumption..]
    | H : to_le 2 _ = to_le 2 _ |- _ => apply to_le2_inj in H; [|assumption..]
    end.
  congruence.
Qed.

#[global] Instance SchedDecision_canon : Canon SchedDecision canon.
Proof.
  refine {| canon_ok := decision_ok; canon_bytes := decision_bytes |}.
  - intros d. by rewrite decision_bytes_length.
  - intros d out _. rewrite decision_bytes_length. apply canon_small_eq.
  - intros d out _. rewrite decision_bytes_length. apply tpsched_canon_eq.
  - apply decision_bytes_inj.
Defined.

Lemma tpsched_decode_eq buf s : SCHED_CANON_LEN <= zlen buf -> idx buf 8 = Val s ->
  decode buf = Val (Some {| frame_seq := of_le (zsub 0 8 buf); slot := s;
    vmid_from := of_le (zsub 9 2 buf); vmid_to := of_le (zsub 11 2 buf);
    t_logical := of_le (zsub 13 8 buf) |}).
Proof.
  intros Hl Es. unfold decode. rewrite (proj2 (Z.ltb_ge _ _)) by done.
  unfold SCHED_CANON_LEN, OFF_FRAME_SEQ, OFF_TLOGICAL, OFF_SLOT, OFF_VMID_FROM, OFF_VMID_TO in *.
  gather_tac 0 8%nat. rewrite bind_val. gather_tac 13 8%nat. rewrite bind_val.
  rewrite Es, bind_val. gather_tac 9 2%nat. rewrite bind_val. gather_tac 11 2%nat. done.
Qed.

(** ** Properties *)

(** The schedule is fair and its frame is conserved.  From any slot value, even an
    out-of-range one, each of the two slots is entered within the next two switches;
    a slot in range is never its own successor.  Every slot's deadline is at least one
    tick and never longer than the frame, and the frame is exactly the saturating sum of
    the two deadlines, so no slot starves and none monopolises. *)
Theorem tpsched_fair_and_conserved (a b current s : Z)
  (Ha : is_u64 a) (Hb : is_u64 b) (Hc : 0 <= current) (Hs : 0 <= s < N_SLOTS) :
  let plan v := {| slot_ticks := [a; b]; vmid := v |} in
  (exists k, (1 <= k <= 2)%nat /\ Nat.iter k next_slot current = s) /\
  0 <= next_slot current < N_SLOTS /\ next_slot s <> s /\ next_slot (next_slot s) = s /\
  (forall v, exists d0 d1 total,
     slot_deadline_delta (plan v) 0 = Val d0 /\ slot_deadline_delta (plan v) 1 = Val d1 /\
     frame_total (plan v) = Val total /\
     total = Z.min (d0 + d1) (u_max 64) /\ d0 = Z.max 1 a /\ d1 = Z.max 1 b /\
     MIN_SLOT_TICKS <= d0 <= total /\ MIN_SLOT_TICKS <= d1 <= total /\ N_SLOTS <= total).
Proof.
  intros plan. unfold N_SLOTS in *.
  assert (forall c, 0 <= c -> next_slot c = if decide (c = 0) then 1 else 0) as Hn.
  { intros c Hc'. unfold next_slot, N_SLOTS. destruct (Z.leb_spec 2 c); case_decide; try lia.
    - by subst.
    - by replace c with 1 by lia. }
  split; [|split; [|split; [|split]]].
  - destruct (decide (next_slot current = s)) as [E|E]; [exists 1%nat; split; [lia | done]|].
    exists 2%nat. split; [lia|]. cbn [Nat.iter nat_rect]. rewrite (Hn current) in * by done.
    rewrite Hn by (case_decide; lia). repeat case_decide; lia.
  - rewrite Hn by done. case_decide; lia.
  - rewrite Hn by lia. case_decide; lia.
  - by assert (s = 0 \/ s = 1) as [->| ->] by lia.
  - intros v. exists (Z.max 1 a), (Z.max 1 b), (Z.min (Z.max 1 a + Z.max 1 b) (u_max 64)).
    assert (slot_deadline_delta (plan v) 0 = Val (Z.max 1 a)) as E0.
    { unfold slot_deadline_delta. change (N_SLOTS <=? 0) with false.
      change (idx (slot_ticks (plan v)) 0) with (Val a). cbv iota. rewrite bind_val.
      unfold MIN_SLOT_TICKS. f_equal. destruct (Z.ltb_spec a 1); lia. }
    assert (slot_deadline_delta (plan v) 1 = Val (Z.max 1 b)) as E1.
    { unfold slot_deadline_delta. change (N_SLOTS <=? 1) with false.
      change (idx (slot_ticks (plan v)) 1) with (Val b). cbv iota. rewrite bind_val.
      unfold MIN_SLOT_TICKS. f_equal. destruct (Z.ltb_spec b 1); lia. }
    assert (frame_total (plan v) = Val (Z.min (Z.max 1 a + Z.max 1 b) (u_max 64))) as ->.
    { unfold frame_total, N_SLOTS. rewrite for_up_step, E0, !bind_val by lia.
      rewrite for_up_step by lia. change (0 + 1) with 1. rewrite E1, !bind_val, for_up_done by lia. f_equal.
      unfold saturating_add, in_u, u_max in *. lia. }
    unfold MIN_SLOT_TICKS, in_u, u_max in *. repeat split; try done; lia.
Qed.

Lemma tpsched_fair_and_conserved_witness :
  (exists k, (1 <= k <= 2)%nat /\ Nat.iter k next_slot 9 = 1) /\ 0 <= next_slot 9 < N_SLOTS.
Proof.
  destruct (tpsched_fair_and_conserved 0 500 9 1) as (H1 & H2 & _);
    [unfold in_u; lia | unfold in_u; lia | lia | unfold N_SLOTS; lia | split; [exact H1 | exact H2]].
Defined.

(** The decision codec is a bijection between decisions and 21-byte strings.  [canon]
    fails closed on a short buffer and otherwise writes 21 bytes and leaves the rest;
    decoding them returns the decision; and any 21 bytes decode to a well-formed decision
    that encodes back to exactly those bytes, so the record determines the bytes folded
    into the schedule head and conversely. *)
Theorem sched_codec_bijective (d : SchedDecision) (out buf : list Z)
  (Hd : decision_ok d) (Hb : bytes buf) :
  (zlen out < SCHED_CANON_LEN -> canon d out = Val (out, 0) /\ decode out = Val None) /\
  (SCHED_CANON_LEN <= zlen out -> exists out',
     canon d out = Val (out', SCHED_CANON_LEN) /\ zlen out' = zlen out /\
     zdrop SCHED_CANON_LEN out' = zdrop SCHED_CANON_LEN out /\ decode out' = Val (Some d)) /\
  (zlen buf = SCHED_CANON_LEN -> exists d',
     decode buf = Val (Some d') /\ decision_ok d' /\
     canon d' (zrepeat SCHED_CANON_LEN 0) = Val (buf, SCHED_CANON_LEN)).
Proof.
  split; [|split].
  - intros Hs. split; [by apply canon_small_eq|]. unfold decode. by rewrite (proj2 (Z.ltb_lt _ _)).
  - intros Hl. exists (decision_bytes d ++ zdrop SCHED_CANON_LEN out).
    pose proof (decision_bytes_length d) as Hlen.
    split; [by apply tpsched_canon_eq|]. split; [rewrite zlen_app, zlen_zdrop, Hlen; unfold SCHED_CANON_LEN in *; lia|].
    split; [by apply zdrop_app_eq|].
    rewrite (tpsched_decode_eq _ (slot d)).
    + unfold decision_bytes. rewrite <-!app_assoc. fields. destruct Hd.
      rewrite !of_to_le_id by done. by destruct d.
    + rewrite zlen_app, Hlen. pose proof (zlen_nonneg (zdrop SCHED_CANON_LEN out)). lia.
    + unfold decision_bytes. rewrite <-!app_assoc. by apply idx_app_eq.
  - intros Hl. unfold SCHED_CANON_LEN in Hl.
    destruct (idx_runs buf 8 is_u8) as (s & Es & Hs); [lia | done|].
    assert (forall off n, 0 <= off -> 0 <= n -> off + n <= 21 -> in_u (8 * n) (of_le (zsub off n buf))) as Hin.
    { intros off n ???. replace n with (zlen (zsub off n buf)) at 1 by zl.
      apply of_le_bound. by apply zsub_bytes. }
    eexists. split; [apply tpsched_decode_eq; [by rewrite Hl | exact Es]|]. split.
    + constructor; cbn [frame_seq slot vmid_from vmid_to t_logical]; try done;
        [apply (Hin 0 8) | apply (Hin 9 2) | apply (Hin 11 2) | apply (Hin 13 8)]; lia.
    + rewrite tpsched_canon_eq, zdrop_all, app_nil_r by (by rewrite ?zlen_zrepeat). do 2 f_equal.
      unfold decision_bytes. cbn [frame_seq slot vmid_from vmid_to t_logical].
      rewrite !to_of_le_n by (try (by apply zsub_bytes); zl).
      rewrite <-(zsub_one _ _ _ Es). rejoin.
Qed.

Lemma sched_codec_bijective_witness :
  exists out', canon (Build_SchedDecision 5 1 7 8 99) (zrepeat 30 0) = Val (out', SCHED_CANON_LEN) /\
    decode out' = Val (Some (Build_SchedDecision 5 1 7 8 99)).
Proof.
  destruct (sched_codec_bijective (Build_SchedDecision 5 1 7 8 99) (zrepeat 30 0) []) as (_ & H & _).
  - constructor; cbn; unfold in_u; lia.
  - constructor.
  - destruct H as (o & H1 & _ & _ & H4); [vm_compute; discriminate|].
    exists o. split; [exact H1 | exact H4].
Defined.
