(* ===== verification/OpframeRx.v ===== *)
(** * Operator-inbound command codec: [crates/tb-encode/src/opframe_rx.rs].

    The command frame, its canonical (MAC'd) encoding, the wire decoder, the
    derive-then-MAC over keyed BLAKE2s ([Khash]), the conjunctive acceptance gate, and the
    sealer a verifier runs. *)
From Stdlib Require Import ZArith Lia.
From stdpp Require Import base numbers option tactics sets list.
From S2P Require Import Prelude Khash.
Open Scope Z_scope.

Definition PROV_HASH_LEN : Z := 32.
(** [b"YUVA-OPCMD-KDF-V1"] and [b"YUVA-KEY-EVOLVE-V1"], from the brand crate. *)
Definition KDF_DOMAIN : list Z := [89; 85; 86; 65; 45; 79; 80; 67; 77; 68; 45; 75; 68; 70; 45; 86; 49].
Definition EVOLVE_DOMAIN : list Z := [89; 85; 86; 65; 45; 75; 69; 89; 45; 69; 86; 79; 76; 86; 69; 45; 86; 49].
Definition CMD_VER : Z := 1.
Definition CMD_MAGIC : Z := 0x5957.
Definition KEY_LEN : Z := 32.
Definition MAC_LEN : Z := 16.

Definition CHALLENGE_REQ : Z := 1.
Definition ACTIVATE_CMD : Z := 2.
Definition NOP : Z := 3.

Record CmdFrame := {
  kind : Z;
  nonce_echo : Z;
  op_head_bind : list Z;
  seq : Z;
  cred_a_id : Z;
  cred_b_id : Z;
  payload : list Z;
  mac : list Z;
}.

Definition CMD_HEADER_LEN : Z := 2 + 1 + 1 + 1 + 8 + PROV_HASH_LEN + 8 + 2 + 2 + 4.
Definition OFF_MAGIC : Z := 0.
Definition OFF_VER : Z := 2.
Definition OFF_KIND : Z := 3.
Definition OFF_RESERVED : Z := 4.
Definition OFF_NONCE : Z := 5.
Definition OFF_HEAD_BIND : Z := 13.
Definition OFF_SEQ : Z := 45.
Definition OFF_CRED_A : Z := 53.
Definition OFF_CRED_B : Z := 55.
Definition OFF_PAYLOAD_LEN : Z := 57.
Definition OFF_PAYLOAD : Z := 61.

Definition canon_len (frame : CmdFrame) : Z :=
  saturating_add usize_bits CMD_HEADER_LEN (zlen (payload frame)).
Definition wire_len (frame : CmdFrame) : Z := saturating_add usize_bits (canon_len frame) MAC_LEN.

Definition kind_known (k : Z) : bool := (k =? CHALLENGE_REQ) || (k =? ACTIVATE_CMD) || (k =? NOP).
Definition frame_is_encodable (frame : CmdFrame) : bool := kind_known (kind frame).

Definition write_u16 (out : list Z) (off v : Z) : res (list Z) :=
  let b := to_le 2 v in
  b0 ← idx b 0; out ← upd out off b0;
  b1 ← idx b 1; upd out (off + 1) b1.
Definition write_u32 (out : list Z) (off v : Z) : res (list Z) := copy_loop 4 (to_le 4 v) off out.
Definition write_u64 (out : list Z) (off v : Z) : res (list Z) := copy_loop 8 (to_le 8 v) off out.
Definition read_u16 (buf : list Z) (off : Z) : res Z :=
  b ← gather buf [off; off + 1]; Val (of_le b).
Definition read_u32 (buf : list Z) (off : Z) : res Z :=
  b ← gather buf [off; off + 1; off + 2; off + 3]; Val (of_le b).
Definition read_u64 (buf : list Z) (off : Z) : res Z :=
  b ← gather buf [off; off + 1; off + 2; off + 3; off + 4; off + 5; off + 6; off + 7];
  Val (of_le b).

Definition canon (frame : CmdFrame) (out : list Z) : res (list Z * Z) :=
  if negb (frame_is_encodable frame) then Val (out, 0) else
  let plen := zlen (payload frame) in
  if u_max 32 <? plen then Val (out, 0) else
  let total := canon_len frame in
  if zlen out <? total then Val (out, 0) else
  out ← write_u16 out OFF_MAGIC CMD_MAGIC;
  out ← upd out OFF_VER CMD_VER;
  out ← upd out OFF_KIND (kind frame);
  out ← upd out OFF_RESERVED 0;
  out ← write_u64 out OFF_NONCE (nonce_echo frame);
  out ← copy_loop PROV_HASH_LEN (op_head_bind frame) OFF_HEAD_BIND out;
  out ← write_u64 out OFF_SEQ (seq frame);
  out ← write_u16 out OFF_CRED_A (cred_a_id frame);
  out ← write_u16 out OFF_CRED_B (cred_b_id frame);
  out ← write_u32 out OFF_PAYLOAD_LEN (wrap 32 plen);
  out ← copy_loop plen (payload frame) OFF_PAYLOAD out;
  Val (out, total).

Definition decode (buf : list Z) : res (option CmdFrame) :=
  if zlen buf <? CMD_HEADER_LEN + MAC_LEN then Val None else
  magic ← read_u16 buf OFF_MAGIC;
  if negb (magic =? CMD_MAGIC) then Val None else
  ver ← idx buf OFF_VER;
  if negb (ver =? CMD_VER) then Val None else
  reserved ← idx buf OFF_RESERVED;
  if negb (reserved =? 0) then Val None else
  kind ← idx buf OFF_KIND;
  if negb (kind_known kind) then Val None else
  nonce_echo ← read_u64 buf OFF_NONCE;
  op_head_bind ← copy_in PROV_HASH_LEN buf OFF_HEAD_BIND (zrepeat PROV_HASH_LEN 0);
  seq ← read_u64 buf OFF_SEQ;
  cred_a_id ← read_u16 buf OFF_CRED_A;
  cred_b_id ← read_u16 buf OFF_CRED_B;
  plen ← read_u32 buf OFF_PAYLOAD_LEN;
  match checked_add usize_bits OFF_PAYLOAD plen with
  | None => Val None
  | Some canon_end =>
      match checked_add usize_bits canon_end MAC_LEN with
      | None => Val None
      | Some wire_end =>
          if zlen buf <? wire_end then Val None else
          mac ← copy_in MAC_LEN buf canon_end (zrepeat MAC_LEN 0);
          payload ← slice buf OFF_PAYLOAD canon_end;
          Val (Some {| kind := kind; nonce_echo := nonce_echo; op_head_bind := op_head_bind;
                       seq := seq; cred_a_id := cred_a_id; cred_b_id := cred_b_id;
                       payload := payload; mac := mac |})
      end
  end.

Definition key_evolve (key : list Z) : res (list Z) := khash key EVOLVE_DOMAIN.

Definition compute_mac (key_a key_b canon_bytes : list Z) : res (list Z) :=
  let kdf_msg := zrepeat (zlen KDF_DOMAIN + KEY_LEN) 0 in
  kdf_msg ← copy_loop (zlen KDF_DOMAIN) KDF_DOMAIN 0 kdf_msg;
  kdf_msg ← copy_loop KEY_LEN key_b (zlen KDF_DOMAIN) kdf_msg;
  k_s ← khash key_a kdf_msg;
  tag ← khash k_s canon_bytes;
  copy_in MAC_LEN tag 0 (zrepeat MAC_LEN 0).

Inductive CmdVerdict : Type :=
| Accept
| Malformed
| NotActivate
| RejectStale
| RejectWrongHead
| RejectSingleCred
| RejectBadMac.

Definition verify_decoded (frame : CmdFrame) (expected_nonce : Z) (live_head : list Z)
  (mac_ok : bool) : CmdVerdict :=
  if negb (kind frame =? ACTIVATE_CMD) then NotActivate
  else if negb (nonce_echo frame =? expected_nonce) then RejectStale
  else if negb (bool_decide (op_head_bind frame = live_head)) then RejectWrongHead
  else if cred_a_id frame =? cred_b_id frame then RejectSingleCred
  else if negb mac_ok then RejectBadMac
  else Accept.

(** The verdict and the scratch buffer after. *)
Definition decode_and_verify (buf : list Z) (expected_nonce : Z) (live_head key_a key_b scratch : list Z)
  : res (CmdVerdict * list Z) :=
  o ← decode buf;
  match o with
  | None => Val (Malformed, scratch)
  | Some frame =>
      '(scratch, n) ← canon frame scratch;
      mac_ok ← (if n =? 0 then Val false else
                b ← slice scratch 0 n;
                m ← compute_mac key_a key_b b;
                Val (bool_decide (m = mac frame)));
      Val (verify_decoded frame expected_nonce live_head mac_ok, scratch)
  end.

(** The buffer after and the number of bytes written. *)
Definition seal (frame : CmdFrame) (key_a key_b out : list Z) : res (list Z * Z) :=
  let total := wire_len frame in
  if zlen out <? total then Val (out, 0) else
  '(out, n) ← canon frame out;
  if n =? 0 then Val (out, 0) else
  b ← slice out 0 n;
  m ← compute_mac key_a key_b b;
  out ← copy_loop MAC_LEN m n out;
  Val (out, n + MAC_LEN).

(** ** Lemmas: the encoder *)

Record frame_ok (f : CmdFrame) : Prop := {
  ok_kind : kind_known (kind f) = true;
  ok_nonce : is_u64 (nonce_echo f);
  ok_head : zlen (op_head_bind f) = PROV_HASH_LEN /\ bytes (op_head_bind f);
  ok_seq : is_u64 (seq f);
  ok_cred_a : is_u16 (cred_a_id f);
  ok_cred_b : is_u16 (cred_b_id f);
  ok_plen : zlen (payload f) <= u_max 32;
  ok_payload : bytes (payload f);
  ok_mac : zlen (mac f) = MAC_LEN /\ bytes (mac f);
}.

Definition cmd_header (f : CmdFrame) : list Z :=
  to_le 2 CMD_MAGIC ++ [CMD_VER; kind f; 0] ++ to_le 8 (nonce_echo f) ++ op_head_bind f ++
  to_le 8 (seq f) ++ to_le 2 (cred_a_id f) ++ to_le 2 (cred_b_id f) ++
  to_le 4 (zlen (payload f)).
(** The MAC'd bytes. *)
Definition cmd_bytes (f : CmdFrame) : list Z := cmd_header f ++ payload f.

Lemma cmd_header_length f : zlen (op_head_bind f) = PROV_HASH_LEN -> zlen (cmd_header f) = 61.
Proof. intros Hh. unfold cmd_header, PROV_HASH_LEN in *. zlen_const. Qed.

Lemma cmd_bytes_length f : zlen (op_head_bind f) = PROV_HASH_LEN ->
  zlen (cmd_bytes f) = CMD_HEADER_LEN + zlen (payload f).
Proof. intros Hh. unfold cmd_bytes. rewrite zlen_app, cmd_header_length by done. done. Qed.

Lemma opframerx_canon_len_eq f : zlen (payload f) <= u_max 32 -> canon_len f = CMD_HEADER_LEN + zlen (payload f).
Proof.
  intros Hp. unfold canon_len, saturating_add, u_max, usize_bits, CMD_HEADER_LEN, PROV_HASH_LEN in *. lia.
Qed.

Lemma opframerx_canon_eq f out :
  kind_known (kind f) = true -> zlen (op_head_bind f) = PROV_HASH_LEN ->
  zlen (payload f) <= u_max 32 -> canon_len f <= zlen out ->
  canon f out = Val (cmd_bytes f ++ zdrop (canon_len f) out, canon_len f).
Proof.
  intros Hk Hh Hp Hl. unfold canon, frame_is_encodable. rewrite Hk. cbn [negb].
  rewrite (proj2 (Z.ltb_ge _ _)) by done. cbv zeta. rewrite (proj2 (Z.ltb_ge _ _)) by done.
  rewrite opframerx_canon_len_eq in * by done. pose proof (zlen_nonneg (payload f)).
  unfold CMD_HEADER_LEN, PROV_HASH_LEN, u_max, write_u16, write_u32, write_u64 in *. cbv zeta.
  rewrite (wrap_small 32) by (unfold in_u; lia).
  change out with ([] ++ zdrop 0 out) at 1.
  unfold OFF_MAGIC, OFF_VER, OFF_KIND, OFF_RESERVED, OFF_NONCE, OFF_HEAD_BIND, OFF_SEQ, OFF_CRED_A,
    OFF_CRED_B, OFF_PAYLOAD_LEN, OFF_PAYLOAD.
  writes. rewrite copy_loop_next by (try zlen_const; zl).
  rewrite bind_val, ztake_all, zdrop_zdrop by lia. unfold cmd_bytes, cmd_header.
  rewrite <-!app_assoc. reflexivity.
Qed.

(** ** Lemmas: the decoder *)

Definition frame_of (buf : list Z) (k : Z) : CmdFrame :=
  let plen := of_le (zsub 57 4 buf) in
  {| kind := k; nonce_echo := of_le (zsub 5 8 buf); op_head_bind := zsub 13 32 buf;
     seq := of_le (zsub 45 8 buf); cred_a_id := of_le (zsub 53 2 buf);
     cred_b_id := of_le (zsub 55 2 buf); payload := zsub 61 plen buf;
     mac := zsub (61 + plen) 16 buf |}.

Lemma of_le_zsub_in_u buf off n : bytes buf -> 0 <= off -> 0 <= n -> off + n <= zlen buf ->
  in_u (8 * n) (of_le (zsub off n buf)).
Proof.
  intros Hb ???. replace n with (zlen (zsub off n buf)) at 1 by zl.
  apply of_le_bound. by apply zsub_bytes.
Qed.

Lemma opframerx_decode_eq buf v r k : bytes buf -> CMD_HEADER_LEN + MAC_LEN <= zlen buf ->
  idx buf 2 = Val v -> idx buf 4 = Val r -> idx buf 3 = Val k ->
  decode buf = Val
    (if (of_le (zsub 0 2 buf) =? CMD_MAGIC) && (v =? CMD_VER) && (r =? 0) && kind_known k &&
        (77 + of_le (zsub 57 4 buf) <=? zlen buf)
     then Some (frame_of buf k) else None).
Proof.
  intros Hb Hl Ev Er Ek. unfold decode. rewrite (proj2 (Z.ltb_ge _ _)) by done.
  pose proof (of_le_zsub_in_u buf 57 4 Hb) as Hp.
  unfold CMD_HEADER_LEN, PROV_HASH_LEN, MAC_LEN, KEY_LEN in *.
  unfold OFF_MAGIC, OFF_VER, OFF_KIND, OFF_RESERVED, OFF_NONCE, OFF_HEAD_BIND, OFF_SEQ, OFF_CRED_A,
    OFF_CRED_B, OFF_PAYLOAD_LEN, OFF_PAYLOAD, read_u16, read_u32, read_u64.
  specialize (Hp ltac:(lia) ltac:(lia) ltac:(lia)).
  gather_tac 0 2%nat. rewrite !bind_val. destruct (_ =? CMD_MAGIC); [|done]. cbn [negb andb].
  rewrite Ev, bind_val. destruct (v =? CMD_VER); [|done]. cbn [negb andb].
  rewrite Er, bind_val. destruct (r =? 0); [|done]. cbn [negb andb].
  rewrite Ek, bind_val. destruct (kind_known k); [|done]. cbn [negb andb].
  gather_tac 5 8%nat. rewrite !bind_val. rewrite copy_in_ok, bind_val by zl.
  rewrite (zdrop_all 32), app_nil_r by zl.
  gather_tac 45 8%nat. rewrite !bind_val. gather_tac 53 2%nat. rewrite !bind_val.
  gather_tac 55 2%nat. rewrite !bind_val. gather_tac 57 4%nat. rewrite !bind_val.
  unfold frame_of. set (plen := of_le (zsub 57 4 buf)) in *. cbv zeta.
  unfold checked_add, u_max, usize_bits. rewrite decide_True by (unfold in_u in Hp; lia).
  rewrite decide_True by (unfold in_u in Hp; lia).
  destruct (Z.leb_spec (77 + plen) (zlen buf)) as [Hw|Hw];
    [rewrite (proj2 (Z.ltb_ge _ _)) by lia | by rewrite (proj2 (Z.ltb_lt _ _)) by lia].
  unfold in_u in Hp. rewrite copy_in_ok, bind_val by zl.
  rewrite slice_ok, bind_val by lia. rewrite zdrop_all, app_nil_r by zl.
  by replace (61 + plen - 61) with plen by lia.
Qed.

Lemma decode_total buf : bytes buf -> exists o, decode buf = Val o.
Proof.
  intros Hb. destruct (decide (CMD_HEADER_LEN + MAC_LEN <= zlen buf)) as [Hl|Hl].
  - unfold CMD_HEADER_LEN, PROV_HASH_LEN, MAC_LEN in Hl.
    destruct (idx_ok buf 2) as [v Ev]; [lia|]. destruct (idx_ok buf 4) as [r Er]; [lia|].
    destruct (idx_ok buf 3) as [k Ek]; [lia|]. eexists. by eapply opframerx_decode_eq.
  - exists None. unfold decode. by rewrite (proj2 (Z.ltb_lt _ _)) by lia.
Qed.

(** Decoding is exactly parsing: the frames a wire decodes to are the well-formed ones whose
    canonical bytes and MAC it starts with. *)
Lemma decode_some buf f : bytes buf ->
  decode buf = Val (Some f) <-> frame_ok f /\ exists tl, buf = cmd_bytes f ++ mac f ++ tl.
Proof.
  intros Hb. split.
  - intros Hd. assert (CMD_HEADER_LEN + MAC_LEN <= zlen buf) as Hl.
    { unfold decode in Hd. destruct (Z.ltb_spec (zlen buf) (CMD_HEADER_LEN + MAC_LEN)); [done | lia]. }
    pose proof Hl as Hl'. unfold CMD_HEADER_LEN, PROV_HASH_LEN, MAC_LEN in Hl'.
    destruct (idx_ok buf 2) as [v Ev]; [lia|]. destruct (idx_ok buf 4) as [r Er]; [lia|].
    destruct (idx_ok buf 3) as [k Ek]; [lia|].
    rewrite (opframerx_decode_eq buf v r k) in Hd by done. apply Val_inj in Hd.
    destruct (_ && _ && _ && _ && _) eqn:Hc in Hd; [|done]. injection Hd as <-.
    rewrite !andb_true_iff, !Z.eqb_eq, Z.leb_le in Hc. destruct Hc as [[[[Hm ->] ->] Hk] Hw].
    pose proof (of_le_zsub_in_u buf 57 4 Hb) as Hp. specialize (Hp ltac:(lia) ltac:(lia) ltac:(lia)).
    assert (forall off n, bytes (zsub off n buf)) as Hz by (intros; by apply zsub_bytes).
    unfold in_u in Hp. set (plen := of_le (zsub 57 4 buf)) in *.
    assert (zlen (zsub 61 plen buf) = plen) as Hplen by zl.
    split.
    + constructor; unfold frame_of; fold plen;
        cbn [kind nonce_echo op_head_bind seq cred_a_id cred_b_id payload mac]; try done;
        try (split; [unfold PROV_HASH_LEN, MAC_LEN; zl | done]).
      * apply (of_le_zsub_in_u buf 5 8); done || lia.
      * apply (of_le_zsub_in_u buf 45 8); done || lia.
      * apply (of_le_zsub_in_u buf 53 2); done || lia.
      * apply (of_le_zsub_in_u buf 55 2); done || lia.
      * unfold u_max. lia.
    + exists (zdrop (77 + plen) buf). unfold cmd_bytes, cmd_header, frame_of; fold plen.
      cbn [kind nonce_echo op_head_bind seq cred_a_id cred_b_id payload mac].
      rewrite Hplen. unfold plen at 1. rewrite <-Hm.
      rewrite !to_of_le_n by (done || zl).
      apply zsub_one in Ev, Er, Ek. change [CMD_VER; k; 0] with ([CMD_VER] ++ [k] ++ [0]).
      rewrite <-Ev, <-Er, <-Ek, <-!app_assoc.
      replace (zdrop (77 + plen) buf) with (zsub (77 + plen) (zlen buf - (77 + plen)) buf).
      2:{ unfold zsub. apply ztake_all. zl. }
      rewrite !zsub_join by lia. symmetry. apply zsub_all. lia.
  - intros [Hok [tl ->]]. pose proof (proj1 (ok_head f Hok)) as Hh. pose proof (proj1 (ok_mac f Hok)) as Hmac.
    pose proof (cmd_bytes_length f Hh) as Hlen. pose proof (zlen_nonneg tl).
    pose proof (zlen_nonneg (payload f)). pose proof (ok_plen f Hok) as Hplen.
    unfold CMD_HEADER_LEN, PROV_HASH_LEN, MAC_LEN, u_max in *.
    rewrite (opframerx_decode_eq _ CMD_VER 0 (kind f));
      [|done | rewrite !zlen_app; unfold CMD_HEADER_LEN, PROV_HASH_LEN, MAC_LEN; lia | done..].
    assert (of_le (zsub 57 4 (cmd_bytes f ++ mac f ++ tl)) = zlen (payload f)) as Ep.
    { unfold cmd_bytes, cmd_header. rewrite <-!app_assoc. fields. apply of_to_le_id. unfold in_u. lia. }
    rewrite Ep. assert (of_le (zsub 0 2 (cmd_bytes f ++ mac f ++ tl)) = CMD_MAGIC) as -> by done.
    rewrite (ok_kind f Hok), !Z.eqb_refl. cbn [andb].
    rewrite (proj2 (Z.leb_le _ _)) by (rewrite !zlen_app; lia).
    unfold frame_of. rewrite Ep.
    rewrite (zsub_app_mid (61 + zlen (payload f)) 16) by lia.
    assert (zsub 61 (zlen (payload f)) (cmd_bytes f ++ mac f ++ tl) = payload f) as ->.
    { unfold cmd_bytes. rewrite <-app_assoc. apply zsub_app_mid; [by apply cmd_header_length | done]. }
    unfold cmd_bytes, cmd_header. rewrite <-!app_assoc. fields.
    destruct Hok. rewrite !of_to_le_id by done. by destruct f.
Qed.

(** ** Lemmas: the MAC *)

#[local] Opaque khash.

Abbreviation is_key := (fun k => zlen k = KEY_LEN).

Lemma compute_mac_eq ka kb cb : is_key ka -> is_key kb ->
  compute_mac ka kb cb =
    (k_s ← khash ka (KDF_DOMAIN ++ kb); tag ← khash k_s cb; Val (zsub 0 MAC_LEN tag)).
Proof.
  intros Ha Hb. unfold compute_mac, KEY_LEN in *.
  change (zlen KDF_DOMAIN) with 17. change (17 + 32) with 49.
  rewrite copy_loop_front by (change (zlen KDF_DOMAIN) with 17; zl). rewrite bind_val.
  change (ztake 17 KDF_DOMAIN) with KDF_DOMAIN. rewrite zdrop_zrepeat by lia.
  rewrite copy_loop_next by (try done; zl). rewrite bind_val.
  rewrite ztake_all, zdrop_all, app_nil_r by zl.
  eapply runs_eq; [by apply khash_digest|]. intros ks [Hks _].
  eapply runs_eq; [by apply khash_digest|]. intros tag [Ht _].
  unfold MAC_LEN. rewrite copy_in_ok by zl. by rewrite zdrop_all, app_nil_r by zl.
Qed.

Lemma compute_mac_runs ka kb cb : is_key ka -> is_key kb ->
  runs (compute_mac ka kb cb) (fun m => zlen m = MAC_LEN /\ bytes m).
Proof.
  intros Ha Hb. rewrite compute_mac_eq by done.
  eapply runs_bind; [by apply khash_digest|]. intros ks [Hks _].
  eapply runs_bind; [by apply khash_digest|]. intros tag [Ht Htb].
  apply runs_val. unfold MAC_LEN. split; [zl | by apply zsub_bytes].
Qed.

(** ** Lemmas: verification *)

(** Every conjunct of acceptance, as one predicate on the decoded frame. *)
Definition acceptable (f : CmdFrame) (nonce : Z) (head ka kb : list Z) : Prop :=
  kind f = ACTIVATE_CMD /\ nonce_echo f = nonce /\ op_head_bind f = head /\
  cred_a_id f <> cred_b_id f /\ compute_mac ka kb (cmd_bytes f) = Val (mac f).

Lemma verify_decoded_accept f nonce head ok :
  verify_decoded f nonce head ok = Accept <->
  kind f = ACTIVATE_CMD /\ nonce_echo f = nonce /\ op_head_bind f = head /\
  cred_a_id f <> cred_b_id f /\ ok = true.
Proof.
  unfold verify_decoded. destruct (Z.eqb_spec (kind f) ACTIVATE_CMD); cbn [negb]; [|naive_solver].
  destruct (Z.eqb_spec (nonce_echo f) nonce); cbn [negb]; [|naive_solver].
  case_bool_decide; cbn [negb]; [|naive_solver].
  destruct (Z.eqb_spec (cred_a_id f) (cred_b_id f)); [naive_solver|].
  destruct ok; cbn [negb]; naive_solver.
Qed.

Lemma cmd_wire_bytes f tl : frame_ok f -> bytes tl -> bytes (cmd_bytes f ++ mac f ++ tl).
Proof.
  intros Hok Htl. pose proof (ok_kind f Hok) as Hk.
  unfold kind_known, CHALLENGE_REQ, ACTIVATE_CMD, NOP in Hk. rewrite !orb_true_iff, !Z.eqb_eq in Hk.
  pose proof (proj2 (ok_head f Hok)). pose proof (ok_payload f Hok). pose proof (proj2 (ok_mac f Hok)).
  unfold cmd_bytes, cmd_header. byte_chunks.
  repeat constructor; unfold CMD_VER; lia.
Qed.

(** The verdict on a wire that parses, with scratch enough for the MAC'd bytes or not. *)
Lemma decode_and_verify_parsed f tl nonce head ka kb scratch :
  frame_ok f -> bytes tl -> is_key ka -> is_key kb ->
  exists ok scratch',
    decode_and_verify (cmd_bytes f ++ mac f ++ tl) nonce head ka kb scratch =
      Val (verify_decoded f nonce head ok, scratch') /\
    (ok = true <-> canon_len f <= zlen scratch /\ compute_mac ka kb (cmd_bytes f) = Val (mac f)).
Proof.
  intros Hok Htl Ha Hb. unfold decode_and_verify.
  pose proof (cmd_wire_bytes f tl Hok Htl) as Hbytes.
  rewrite (proj2 (decode_some _ f Hbytes)) by (split; [done | by exists tl]). rewrite bind_val.
  pose proof (proj1 (ok_head f Hok)) as Hh. pose proof (ok_plen f Hok) as Hp.
  pose proof (cmd_bytes_length f Hh) as Hlen. pose proof (opframerx_canon_len_eq f Hp) as Hc.
  pose proof (zlen_nonneg (payload f)).
  destruct (decide (canon_len f <= zlen scratch)) as [Hs|Hs].
  - rewrite opframerx_canon_eq, bind_val by (done || apply Hok).
    rewrite (proj2 (Z.eqb_neq _ _)) by (unfold CMD_HEADER_LEN, PROV_HASH_LEN in *; lia).
    rewrite slice_ok, bind_val by (rewrite ?zlen_app; unfold CMD_HEADER_LEN, PROV_HASH_LEN in *; zl).
    rewrite zsub_app_eq by lia.
    destruct (compute_mac_runs ka kb (cmd_bytes f) Ha Hb) as (m & Em & Hm). rewrite Em, !bind_val.
    eexists _, _. split; [done|]. rewrite bool_decide_eq_true. split; [intros ->; done|].
    intros [_ E]. by injection E.
  - exists false, scratch. split; [|split; [done | intros [? _]; lia]].
    unfold canon, frame_is_encodable. rewrite (ok_kind f Hok). cbn [negb].
    rewrite (proj2 (Z.ltb_ge _ _)) by done. cbv zeta. by rewrite (proj2 (Z.ltb_lt _ _)) by lia.
Qed.

(** ** Properties *)

(** The wire decoder parses exactly the canonical form.  It never panics on any
    bytes, and it returns a frame if and only if that frame is well formed and the wire
    starts with its canonical bytes followed by its MAC; hence no two frames share a wire,
    and what is MAC'd is what was parsed. *)
Theorem cmd_decode_iff_canonical (buf : list Z) (f : CmdFrame) (Hbuf : bytes buf) :
  (exists o, decode buf = Val o) /\
  (decode buf = Val (Some f) <-> frame_ok f /\ exists tl, buf = cmd_bytes f ++ mac f ++ tl) /\
  (forall out, frame_ok f -> canon_len f <= zlen out ->
     canon f out = Val (cmd_bytes f ++ zdrop (canon_len f) out, canon_len f)) /\
  (forall f' tl tl', frame_ok f -> frame_ok f' ->
     cmd_bytes f ++ mac f ++ tl = cmd_bytes f' ++ mac f' ++ tl' -> bytes tl -> f = f').
Proof.
  split; [by apply decode_total|]. split; [by apply decode_some|]. split.
  - intros out Hok Hl. apply opframerx_canon_eq; [apply Hok | apply Hok | apply Hok | done].
  - intros f' tl tl' H1 H2 E Htl.
    pose proof (cmd_wire_bytes f tl H1 Htl) as Hb.
    pose proof (proj2 (decode_some _ f Hb) (conj H1 (ex_intro _ tl eq_refl))) as D1.
    pose proof (proj2 (decode_some _ f' Hb) (conj H2 (ex_intro _ tl' E))) as D2.
    rewrite D1 in D2. by injection D2.
Qed.

(** C31: the acceptance gate is exactly the conjunction it claims.  Verification never
    panics, and it accepts a wire if and only if the wire parses to a frame that is an
    activation, echoes the expected nonce, binds the live head, names two different
    credentials, and carries the MAC recomputed under both keys over the parsed bytes
    (with scratch enough to hold them); a wire that does not parse is [Malformed]. *)
Theorem cmd_accept_iff (buf : list Z) (nonce : Z) (head ka kb scratch : list Z)
  (Hbuf : bytes buf) (Ha : zlen ka = KEY_LEN) (Hb : zlen kb = KEY_LEN) :
  (exists v s, decode_and_verify buf nonce head ka kb scratch = Val (v, s)) /\
  ((exists s, decode_and_verify buf nonce head ka kb scratch = Val (Accept, s)) <->
   exists f tl, frame_ok f /\ buf = cmd_bytes f ++ mac f ++ tl /\ canon_len f <= zlen scratch /\
     kind f = ACTIVATE_CMD /\ nonce_echo f = nonce /\ op_head_bind f = head /\
     cred_a_id f <> cred_b_id f /\ compute_mac ka kb (cmd_bytes f) = Val (mac f)) /\
  ((forall f tl, frame_ok f -> buf <> cmd_bytes f ++ mac f ++ tl) ->
   decode_and_verify buf nonce head ka kb scratch = Val (Malformed, scratch)).
Proof.
  destruct (decode_total buf Hbuf) as [[f|] Hd].
  - pose proof Hd as Hd'. apply decode_some in Hd' as [Hok [tl ->]]; [|done].
    assert (bytes tl) as Htl by (rewrite !Forall_app in Hbuf; apply Hbuf).
    destruct (decode_and_verify_parsed f tl nonce head ka kb scratch Hok Htl Ha Hb) as (ok & s' & E & Hmac).
    rewrite E. split; [by eexists _, _|]. split; [|intros Hno; by destruct (Hno f tl)]. split.
    + intros [s [= Hv <-]]. apply verify_decoded_accept in Hv as (H1 & H2 & H3 & H4 & H5).
      apply Hmac in H5 as [H5 H6]. by exists f, tl.
    + intros (f' & tl' & Hok' & Ewire & Hs & Hacc). exists s'. do 2 f_equal.
      assert (f' = f) as ->.
      { pose proof (proj2 (decode_some _ f' Hbuf) (conj Hok' (ex_intro _ tl' Ewire))) as D.
        rewrite Hd in D. by injection D. }
      apply verify_decoded_accept. destruct Hacc as (H1 & H2 & H3 & H4 & H5).
      repeat split; try done. by apply Hmac.
  - assert (decode_and_verify buf nonce head ka kb scratch = Val (Malformed, scratch)) as E.
    { unfold decode_and_verify. by rewrite Hd. }
    rewrite E. split; [by eexists _, _|]. split; [|done]. split; [intros [s [=]]|].
    intros (f & tl & Hok & Ewire & _). exfalso.
    pose proof (proj2 (decode_some _ f Hbuf) (conj Hok (ex_intro _ tl Ewire))) as D.
    rewrite Hd in D. by injection D.
Qed.

Lemma seal_eq f ka kb out : frame_ok f -> is_key ka -> is_key kb -> wire_len f <= zlen out ->
  exists m, compute_mac ka kb (cmd_bytes f) = Val m /\ zlen m = MAC_LEN /\ bytes m /\
    seal f ka kb out = Val (cmd_bytes f ++ m ++ zdrop (wire_len f) out, wire_len f).
Proof.
  intros Hok Ha Hb Hl. pose proof (proj1 (ok_head f Hok)) as Hh. pose proof (ok_plen f Hok) as Hp.
  pose proof (opframerx_canon_len_eq f Hp) as Hc. pose proof (cmd_bytes_length f Hh) as Hlen.
  pose proof (zlen_nonneg (payload f)).
  assert (wire_len f = canon_len f + MAC_LEN) as Hw.
  { unfold wire_len, saturating_add. rewrite Hc.
    unfold u_max, usize_bits, CMD_HEADER_LEN, PROV_HASH_LEN, MAC_LEN in *. lia. }
  destruct (compute_mac_runs ka kb (cmd_bytes f) Ha Hb) as (m & Em & Hm & Hmb).
  exists m. split; [done|]. split; [done|]. split; [done|].
  unfold seal. rewrite (proj2 (Z.ltb_ge _ _)) by done.
  assert (0 < canon_len f) as Hpos by (unfold CMD_HEADER_LEN, PROV_HASH_LEN in *; lia).
  unfold MAC_LEN in *. rewrite opframerx_canon_eq, bind_val by (try apply Hok; lia).
  rewrite (proj2 (Z.eqb_neq _ _)) by lia.
  rewrite slice_ok, bind_val by (rewrite ?zlen_app; zl). rewrite zsub_app_eq, Em, bind_val by lia.
  rewrite copy_loop_next, bind_val by zl. rewrite ztake_all, zdrop_zdrop by lia.
  rewrite <-Hw, <-app_assoc. done.
Qed.

(** Sealing then verifying.  [seal] writes nothing when the buffer is too short or
    the kind unknown; otherwise it writes the canonical bytes and a MAC, and verifying
    that wire under the same keys gives exactly the first failing check in the documented
    order (kind, nonce, head, distinct credentials), and [Accept] when none fails.
    Evolving a key always yields another 32-byte key. *)
Theorem cmd_seal_then_verify (f : CmdFrame) (nonce : Z) (head ka kb out scratch : list Z)
  (Hf : frame_ok f) (Ha : zlen ka = KEY_LEN) (Hb : zlen kb = KEY_LEN)
  (Hs : canon_len f <= zlen scratch) :
  (zlen out < wire_len f -> seal f ka kb out = Val (out, 0)) /\
  (wire_len f <= zlen out -> bytes out ->
   exists out', seal f ka kb out = Val (out', wire_len f) /\ zlen out' = zlen out /\
     exists s', decode_and_verify out' nonce head ka kb scratch =
       Val (if negb (kind f =? ACTIVATE_CMD) then NotActivate
            else if negb (nonce_echo f =? nonce) then RejectStale
            else if negb (bool_decide (op_head_bind f = head)) then RejectWrongHead
            else if cred_a_id f =? cred_b_id f then RejectSingleCred
            else Accept, s')) /\
  (exists k', key_evolve ka = Val k' /\ zlen k' = KEY_LEN /\ bytes k').
Proof.
  split; [|split].
  - intros Hl. unfold seal. by rewrite (proj2 (Z.ltb_lt _ _)).
  - intros Hl Hout. destruct (seal_eq f ka kb out Hf Ha Hb Hl) as (m & Em & Hm & Hmb & Es).
    eexists. split; [exact Es|]. pose proof (cmd_bytes_length f (proj1 (ok_head f Hf))) as Hlen.
    pose proof (opframerx_canon_len_eq f (ok_plen f Hf)) as Hc. pose proof (zlen_nonneg (payload f)).
    split.
    { rewrite !zlen_app, zlen_zdrop. unfold wire_len, saturating_add in *. rewrite Hc in *.
      pose proof (ok_plen f Hf).
      unfold u_max, usize_bits, CMD_HEADER_LEN, PROV_HASH_LEN, MAC_LEN in *. lia. }
    set (f' := {| kind := kind f; nonce_echo := nonce_echo f; op_head_bind := op_head_bind f;
      seq := seq f; cred_a_id := cred_a_id f; cred_b_id := cred_b_id f; payload := payload f;
      mac := m |}).
    assert (frame_ok f') as Hf' by (destruct Hf; by constructor).
    destruct (decode_and_verify_parsed f' (zdrop (wire_len f) out) nonce head ka kb scratch)
      as (ok & s' & E & Hok); [done | by apply zdrop_bytes | done | done |].
    exists s'. change (cmd_bytes f ++ m ++ zdrop (wire_len f) out)
      with (cmd_bytes f' ++ mac f' ++ zdrop (wire_len f) out). rewrite E.
    assert (ok = true) as -> by (by apply Hok). done.
  - by apply khash_digest.
Qed.

(** ** Witnesses *)

Definition sample_frame : CmdFrame :=
  {| kind := ACTIVATE_CMD; nonce_echo := 99; op_head_bind := zrepeat 32 7; seq := 1; cred_a_id := 1;
     cred_b_id := 2; payload := [4; 5]; mac := zrepeat 16 0 |}.

Lemma sample_frame_ok : frame_ok sample_frame.
Proof.
  constructor; cbn [kind nonce_echo op_head_bind seq cred_a_id cred_b_id payload mac sample_frame];
    try reflexivity; try (unfold in_u; lia).
  - split; [reflexivity | apply zrepeat_Forall; unfold in_u; lia].
  - vm_compute. discriminate.
  - repeat constructor; unfold in_u; lia.
  - split; [reflexivity | apply zrepeat_Forall; unfold in_u; lia].
Qed.

Lemma cmd_decode_iff_canonical_witness :
  decode (cmd_bytes sample_frame ++ mac sample_frame ++ [1; 2]) = Val (Some sample_frame).
Proof.
  apply (cmd_decode_iff_canonical (cmd_bytes sample_frame ++ mac sample_frame ++ [1; 2]) sample_frame).
  - apply cmd_wire_bytes; [exact sample_frame_ok | repeat constructor; unfold in_u; lia].
  - split; [exact sample_frame_ok | exists [1; 2]; reflexivity].
Defined.

Lemma cmd_accept_iff_witness :
  exists v s, decode_and_verify (cmd_bytes sample_frame ++ mac sample_frame ++ []) 99 (zrepeat 32 7)
    (zrepeat 32 1) (zrepeat 32 2) (zrepeat 80 0) = Val (v, s).
Proof.
  apply (cmd_accept_iff (cmd_bytes sample_frame ++ mac sample_frame ++ []) 99 (zrepeat 32 7)
    (zrepeat 32 1) (zrepeat 32 2) (zrepeat 80 0)); [|reflexivity|reflexivity].
  apply cmd_wire_bytes; [exact sample_frame_ok | constructor].
Defined.

Lemma cmd_seal_then_verify_witness :
  exists out', seal sample_frame (zrepeat 32 1) (zrepeat 32 2) (zrepeat 90 0) = Val (out', 79) /\
    exists s', decode_and_verify out' 99 (zrepeat 32 7) (zrepeat 32 1) (zrepeat 32 2) (zrepeat 63 0)
      = Val (Accept, s').
Proof.
  destruct (cmd_seal_then_verify sample_frame 99 (zrepeat 32 7) (zrepeat 32 1) (zrepeat 32 2)
    (zrepeat 90 0) (zrepeat 63 0)) as (_ & H & _);
    [exact sample_frame_ok | reflexivity | reflexivity | vm_compute; discriminate |].
  destruct H as (out' & H1 & _ & s' & H2); [vm_compute; discriminate | apply zrepeat_Forall; unfold in_u; lia |].
  exists out'. split; [exact H1 | exists s'; exact H2].
Defined.
