(* ===== verification/Provhead.v ===== *)
(** * Multi-sector signed-head codec: [crates/tb-encode/src/provhead.rs].

    A record of up to six sectors, each stamped with a generation tag and a checksum,
    around a logical blob with a record-spanning checksum; the decoder validates every
    sector and fails closed; the selector picks the newer of two ping-pong slots. *)
From Stdlib Require Import ZArith Lia.
From stdpp Require Import base numbers option tactics sets list.
From S2P Require Import Prelude Blkfmt.
Open Scope Z_scope.

Definition SECTOR : Z := 512.
Definition SEC_META : Z := 8.
Definition SEC_PAYLOAD : Z := SECTOR - SEC_META.
(** [b"YH"] *)
Definition PROV_MAGIC : list Z := [0x59; 0x48].
Definition PROV_VERSION : Z := 1.
Definition HEAD_LEN : Z := 32.
Definition I_LEN : Z := 16.
Definition ROOT_LEN : Z := 32.
Definition SIG_CAP : Z := 2508.
Definition BLOB_FIXED : Z := 2 + 1 + 1 + 8 + 4 + 2 + HEAD_LEN + I_LEN + ROOT_LEN.
Definition BLOB_CRC : Z := 8.
Definition BLOB_CAP : Z := BLOB_FIXED + SIG_CAP + BLOB_CRC.
Definition div_ceil (a b : Z) : Z := (a + b - 1) / b.
Definition MAX_SECTORS : Z := div_ceil BLOB_CAP SEC_PAYLOAD.
Definition SLAB_BYTES : Z := MAX_SECTORS * SECTOR.

Definition OFF_MAGIC : Z := 0.
Definition OFF_VERSION : Z := 2.
Definition OFF_GEN : Z := 4.
Definition OFF_Q : Z := 12.
Definition OFF_SIGLEN : Z := 16.
Definition OFF_HEAD : Z := 18.
Definition OFF_I : Z := OFF_HEAD + HEAD_LEN.
Definition OFF_ROOT : Z := OFF_I + I_LEN.
Definition OFF_SIG : Z := OFF_ROOT + ROOT_LEN.

Record DecodedHead := {
  dh_gen : Z;
  dh_q : Z;
  dh_siglen : Z;
  dh_head : list Z;
  dh_i_id : list Z;
  dh_pubroot : list Z;
  dh_n_sectors : Z;
}.

Definition sectors_for (siglen : Z) : option Z :=
  if SIG_CAP <? siglen then None
  else Some (div_ceil (BLOB_FIXED + siglen + BLOB_CRC) SEC_PAYLOAD).

Definition put_u16 (b : list Z) (off v : Z) : res (list Z) :=
  let x := to_le 2 v in
  x0 ← idx x 0; b ← upd b off x0;
  x1 ← idx x 1; upd b (off + 1) x1.
Definition put_u32 (b : list Z) (off v : Z) : res (list Z) := copy_loop 4 (to_le 4 v) off b.
Definition put_u64 (b : list Z) (off v : Z) : res (list Z) := copy_loop 8 (to_le 8 v) off b.
Definition rd_u16 (b : list Z) (off : Z) : res Z :=
  x ← gather b [off; off + 1]; Val (of_le x).
Definition rd_u32 (b : list Z) (off : Z) : res Z :=
  x ← gather b [off; off + 1; off + 2; off + 3]; Val (of_le x).
Definition rd_u64 (b : list Z) (off : Z) : res Z :=
  x ← gather b [off; off + 1; off + 2; off + 3; off + 4; off + 5; off + 6; off + 7];
  Val (of_le x).

Definition fnv1a32_chain (h : Z) (data : list Z) : res Z :=
  for_up 0 (zlen data) (fun i h =>
    b ← idx data i; Val (wrapping_mul 32 (Z.lxor h b) 0x01000193)) h.

Definition sector_crc (sector : list Z) : res Z :=
  t ← slice sector 0 4;
  h ← fnv1a32 t;
  p ← slice sector SEC_META SECTOR;
  fnv1a32_chain h p.

(** One turn of the sector loop of [encode]: clear, stamp, fill, checksum.  The copying
    loop runs while [i < SEC_PAYLOAD && pstart + i < l]. *)
Definition encode_sector (blob : list Z) (l gen_tag s : Z) (out : list Z) : res (list Z) :=
  let sbase := s * SECTOR in
  out ← fill_span SECTOR sbase 0 out;
  out ← put_u32 out sbase gen_tag;
  let pstart := s * SEC_PAYLOAD in
  out ← copy_span (Z.min SEC_PAYLOAD (l - pstart)) blob pstart (sbase + SEC_META) out;
  sec ← slice out sbase (sbase + SECTOR);
  crc ← sector_crc sec;
  put_u32 out (sbase + 4) crc.

(** The number of bytes written and the two buffers after. *)
Definition encode (gen q : Z) (head i_id pubroot sig blob out : list Z)
  : res (list Z * list Z * Z) :=
  let siglen := zlen sig in
  match sectors_for siglen with
  | None => Val (blob, out, 0)
  | Some n_sectors =>
      let l := BLOB_FIXED + siglen + BLOB_CRC in
      if (zlen blob <? l) || (zlen out <? n_sectors * SECTOR) then Val (blob, out, 0) else
      blob ← fill_span l 0 0 blob;
      m0 ← idx PROV_MAGIC 0; blob ← upd blob OFF_MAGIC m0;
      m1 ← idx PROV_MAGIC 1; blob ← upd blob (OFF_MAGIC + 1) m1;
      blob ← upd blob OFF_VERSION PROV_VERSION;
      blob ← put_u64 blob OFF_GEN gen;
      blob ← put_u32 blob OFF_Q q;
      blob ← put_u16 blob OFF_SIGLEN (wrap 16 siglen);
      blob ← copy_loop HEAD_LEN head OFF_HEAD blob;
      blob ← copy_loop I_LEN i_id OFF_I blob;
      blob ← copy_loop ROOT_LEN pubroot OFF_ROOT blob;
      blob ← copy_loop siglen sig OFF_SIG blob;
      body ← slice blob 0 (l - BLOB_CRC);
      span ← fnv1a64 body;
      blob ← put_u64 blob (l - BLOB_CRC) span;
      let gen_tag := Z.land gen 0xffffffff in
      out ← for_up 0 n_sectors (encode_sector blob l gen_tag) out;
      Val (blob, out, n_sectors * SECTOR)
  end.

(** One turn of the sector loop of [decode]: [None] is its early return. *)
Definition decode_sector (sectors : list Z) (l gen_tag s : Z) (blob : list Z)
  : res (option (list Z)) :=
  let sbase := s * SECTOR in
  sec ← slice sectors sbase (sbase + SECTOR);
  crc ← sector_crc sec;
  stored ← rd_u32 sec 4;
  if negb (crc =? stored) then Val None else
  tag ← rd_u32 sec 0;
  if negb (tag =? gen_tag) then Val None else
  let pstart := s * SEC_PAYLOAD in
  blob ← copy_span (Z.min SEC_PAYLOAD (l - pstart)) sec SEC_META pstart blob;
  Val (Some blob).

(** On success the metadata and the reassembled blob (which holds the signature); what a
    failed decode leaves in the scratch blob is not returned: no caller reads it. *)
Definition decode (sectors blob : list Z) : res (option (DecodedHead * list Z)) :=
  if zlen sectors <? SECTOR then Val None else
  s0 ← slice sectors 0 SECTOR;
  m0 ← idx s0 (SEC_META + OFF_MAGIC); p0 ← idx PROV_MAGIC 0;
  if negb (m0 =? p0) then Val None else
  m1 ← idx s0 (SEC_META + OFF_MAGIC + 1); p1 ← idx PROV_MAGIC 1;
  if negb (m1 =? p1) then Val None else
  v ← idx s0 (SEC_META + OFF_VERSION);
  if negb (v =? PROV_VERSION) then Val None else
  hdr ← slice s0 SEC_META SECTOR;
  gen ← rd_u64 hdr OFF_GEN;
  q ← rd_u32 hdr OFF_Q;
  siglen ← rd_u16 hdr OFF_SIGLEN;
  match sectors_for siglen with
  | None => Val None
  | Some n_sectors =>
      let l := BLOB_FIXED + siglen + BLOB_CRC in
      if (zlen sectors <? n_sectors * SECTOR) || (zlen blob <? l) then Val None else
      let gen_tag := Z.land gen 0xffffffff in
      o ← for_up_opt 0 n_sectors (decode_sector sectors l gen_tag) blob;
      match o with
      | None => Val None
      | Some blob =>
          body ← slice blob 0 (l - BLOB_CRC);
          span ← fnv1a64 body;
          stored ← rd_u64 blob (l - BLOB_CRC);
          if negb (span =? stored) then Val None else
          head ← copy_in HEAD_LEN blob OFF_HEAD (zrepeat HEAD_LEN 0);
          i_id ← copy_in I_LEN blob OFF_I (zrepeat I_LEN 0);
          pubroot ← copy_in ROOT_LEN blob OFF_ROOT (zrepeat ROOT_LEN 0);
          Val (Some ({| dh_gen := gen; dh_q := q; dh_siglen := wrap 16 siglen; dh_head := head;
                        dh_i_id := i_id; dh_pubroot := pubroot; dh_n_sectors := n_sectors |}, blob))
      end
  end.

(** [&mut sector]: the refreshed sector. *)
Definition refresh_sector_crc (sector : list Z) : res (list Z) :=
  s ← slice sector 0 SECTOR;
  crc ← sector_crc s;
  put_u32 sector 4 crc.

Definition pick_newer (a_gen b_gen : option Z) : option bool :=
  match a_gen, b_gen with
  | None, None => None
  | Some _, None => Some false
  | None, Some _ => Some true
  | Some ga, Some gb => Some (ga <? gb)
  end.

(** ** Lemmas: one sector *)

Abbreviation crc32 := (fnv 32 FNV32_PRIME FNV32_OFFSET).
Abbreviation crc64 := (fnv 64 FNV64_PRIME FNV64_OFFSET).

Lemma fnv1a32_chain_eq h data : fnv1a32_chain h data = Val (fnv 32 FNV32_PRIME h data).
Proof. apply (for_up_fold (fun h b => wrapping_mul 32 (Z.lxor h b) 0x01000193)). Qed.

Lemma sector_crc_eq sec : zlen sec = 512 ->
  sector_crc sec = Val (crc32 (zsub 0 4 sec ++ zsub 8 504 sec)).
Proof.
  intros Hs. unfold sector_crc, SEC_META, SECTOR. rewrite !slice_ok, bind_val by lia.
  rewrite fnv1a32_eq, !bind_val.
  rewrite fnv1a32_chain_eq. unfold fnv. by rewrite fold_left_app.
Qed.

(** A sector image: generation tag, checksum over tag and payload, payload. *)
Definition sector_of (tag : Z) (p : list Z) : list Z :=
  to_le 4 tag ++ to_le 4 (crc32 (to_le 4 tag ++ p)) ++ p.

(** The payload of sector [s] of a blob, zero-padded. *)
Definition chunk (blob : list Z) (s : Z) : list Z :=
  let p := zsub (504 * s) 504 blob in p ++ zrepeat (504 - zlen p) 0.

Lemma zlen_chunk blob s : zlen (chunk blob s) = 504.
Proof. unfold chunk. zl. Qed.
Lemma zlen_sector_of tag p : zlen p = 504 -> zlen (sector_of tag p) = 512.
Proof. intros Hp. unfold sector_of. zl. Qed.

Lemma encode_sector_eq blob bt l tag s pre tl :
  0 <= s -> 504 * s < l -> zlen blob = l -> zlen pre = 512 * s -> 512 <= zlen tl ->
  encode_sector (blob ++ bt) l tag s (pre ++ tl) =
    Val (pre ++ sector_of tag (chunk blob s) ++ zdrop 512 tl).
Proof.
  intros Hs Hl Hb Hpre Htl. unfold encode_sector, SECTOR, SEC_META, SEC_PAYLOAD, put_u32, SECTOR, SEC_META.
  replace (s * 512) with (512 * s) by lia. replace (s * (512 - 8)) with (504 * s) by lia.
  change (512 - 8) with 504. cbv zeta.
  rewrite fill_span_next, bind_val by lia. rewrite <-(app_assoc pre).
  change (zrepeat 512 0) with (zrepeat 4 0 ++ zrepeat 4 0 ++ zrepeat 504 (0 : Z)).
  set (m := Z.min 504 (l - 504 * s)). set (rest := zdrop 512 tl).
  rewrite <-(app_assoc (zrepeat 4 0)), copy_loop_next by zl. rewrite bind_val, ztake_all by zl.
  rewrite (zdrop_app_eq 4) by done. rewrite <-(app_assoc (zrepeat 4 0)), (app_assoc _ (zrepeat 4 0)).
  rewrite copy_span_next by zl. rewrite bind_val, zdrop_app_le, zdrop_zrepeat by zl.
  assert (zsub (504 * s) m (blob ++ bt) = zsub (504 * s) 504 blob) as Em.
  { unfold zsub, m. rewrite zdrop_app_le, ztake_app_le by zl. destruct (decide (504 <= l - 504 * s)).
    - by rewrite Z.min_l by lia.
    - rewrite Z.min_r by lia. by rewrite !ztake_all by zl. }
  rewrite Em. assert (zlen (zsub (504 * s) 504 blob) = m) as Hm by (unfold m; zl).
  assert (chunk blob s = zsub (504 * s) 504 blob ++ zrepeat (504 - m) 0) as Hch.
  { unfold chunk. by rewrite Hm. }
  match goal with |- context [slice ?o _ _] =>
    replace o with (pre ++ (to_le 4 tag ++ zrepeat 4 0 ++ chunk blob s) ++ rest)
      by (rewrite Hch, <-!app_assoc; done) end.
  pose proof (zlen_chunk blob s) as Hc.
  rewrite slice_ok by zl. rewrite bind_val, (zsub_app_mid (512 * s)) by zl.
  rewrite sector_crc_eq, bind_val by zl.
  rewrite (zsub_app_eq 4), (zsub_skip 8 504 _ _ 4 4), (zsub_skip 4 504 _ _ 4 0), zsub_all by (done || zl).
  rewrite <-(app_assoc (to_le 4 tag)), (app_assoc pre), <-(app_assoc (zrepeat 4 0)).
  rewrite copy_loop_next by zl. rewrite ztake_all, zdrop_app_eq by zl.
  unfold sector_of. by rewrite <-!app_assoc.
Qed.

(** The first [k] sector images of a blob. *)
Fixpoint image (tag : Z) (blob : list Z) (k : nat) : list Z :=
  match k with
  | O => []
  | S k' => image tag blob k' ++ sector_of tag (chunk blob (Z.of_nat k'))
  end.

Lemma zlen_image tag blob k : zlen (image tag blob k) = 512 * Z.of_nat k.
Proof.
  induction k as [|k IH]; [done|]. cbn [image].
  rewrite zlen_app, IH, zlen_sector_of by apply zlen_chunk. lia.
Qed.

Lemma image_sector tag blob k s tl : 0 <= s < Z.of_nat k ->
  zsub (512 * s) 512 (image tag blob k ++ tl) = sector_of tag (chunk blob s).
Proof.
  induction k as [|k IH] in tl |- *; intros Hs; [lia|]. cbn [image]. rewrite <-app_assoc.
  destruct (decide (s = Z.of_nat k)) as [->|].
  - apply zsub_app_mid; [by rewrite zlen_image | apply zlen_sector_of, zlen_chunk].
  - apply IH. lia.
Qed.

Lemma encode_loop blob bt l tag n out :
  zlen blob = l -> 0 <= n -> 504 * (n - 1) < l -> 512 * n <= zlen out ->
  for_up 0 n (encode_sector (blob ++ bt) l tag) out =
    Val (image tag blob (Z.to_nat n) ++ zdrop (512 * n) out).
Proof.
  intros Hb Hn Hl Ho.
  destruct (for_up_inv (fun s o => o = image tag blob (Z.to_nat s) ++ zdrop (512 * s) out) 0 n
    (encode_sector (blob ++ bt) l tag) out) as (o & E & ->); [lia | done | | done].
  intros s o Hs ->. rewrite encode_sector_eq by (rewrite ?zlen_image; zl).
  apply runs_val. rewrite zdrop_zdrop by lia.
  replace (Z.to_nat (s + 1)) with (S (Z.to_nat s)) by lia. cbn [image].
  rewrite Z2Nat.id by lia. rewrite <-app_assoc. by replace (512 * s + 512) with (512 * (s + 1)) by lia.
Qed.

(** ** Lemmas: the blob *)

Definition blob_body (gen q : Z) (head i_id pubroot sig : list Z) : list Z :=
  PROV_MAGIC ++ [PROV_VERSION; 0] ++ to_le 8 gen ++ to_le 4 q ++ to_le 2 (zlen sig) ++
  head ++ i_id ++ pubroot ++ sig.
Definition blob_of (gen q : Z) (head i_id pubroot sig : list Z) : list Z :=
  let body := blob_body gen q head i_id pubroot sig in body ++ to_le 8 (crc64 body).

Record fields_ok (gen q : Z) (head i_id pubroot sig : list Z) : Prop := {
  ok_gen : is_u64 gen;
  ok_q : is_u32 q;
  ok_head : zlen head = HEAD_LEN /\ bytes head;
  ok_i : zlen i_id = I_LEN /\ bytes i_id;
  ok_root : zlen pubroot = ROOT_LEN /\ bytes pubroot;
  ok_sig : bytes sig;
}.

Lemma blob_body_length gen q head i_id pubroot sig : fields_ok gen q head i_id pubroot sig ->
  zlen (blob_body gen q head i_id pubroot sig) = 98 + zlen sig.
Proof.
  intros [_ _ [Hh _] [Hi _] [Hr _] _]. unfold blob_body, HEAD_LEN, I_LEN, ROOT_LEN in *.
  autorewrite with zlen. rewrite Hh, Hi, Hr. change (zlen PROV_MAGIC) with 2. lia.
Qed.

Lemma land_low32 v : Z.land v 0xffffffff = v mod 2 ^ 32.
Proof. change 0xffffffff with (Z.ones 32). by apply Z.land_ones. Qed.

Lemma sectors_for_eq siglen : 0 <= siglen <= SIG_CAP ->
  exists n, sectors_for siglen = Some n /\ 1 <= n <= MAX_SECTORS /\
    504 * (n - 1) < BLOB_FIXED + siglen + BLOB_CRC <= 504 * n.
Proof.
  intros Hs. unfold sectors_for. rewrite (proj2 (Z.ltb_ge _ _)) by lia.
  unfold div_ceil, SEC_PAYLOAD, SECTOR, SEC_META, BLOB_FIXED, BLOB_CRC, HEAD_LEN, I_LEN, ROOT_LEN, SIG_CAP in *.
  eexists. split; [done|]. change (512 - 8) with 504. change MAX_SECTORS with 6.
  set (l := 2 + 1 + 1 + 8 + 4 + 2 + 32 + 16 + 32 + siglen + 8).
  pose proof (Z.div_mod (l + 504 - 1) 504 ltac:(lia)).
  pose proof (Z.mod_pos_bound (l + 504 - 1) 504 ltac:(lia)).
  unfold l in *. lia.
Qed.

Lemma sectors_for_cap siglen n : sectors_for siglen = Some n -> siglen <= SIG_CAP.
Proof. unfold sectors_for. destruct (Z.ltb_spec SIG_CAP siglen); [done | lia]. Qed.

Lemma encode_eq gen q head i_id pubroot sig blob out n :
  fields_ok gen q head i_id pubroot sig -> sectors_for (zlen sig) = Some n ->
  BLOB_FIXED + zlen sig + BLOB_CRC <= zlen blob -> n * SECTOR <= zlen out ->
  let b := blob_of gen q head i_id pubroot sig in
  encode gen q head i_id pubroot sig blob out =
    Val (b ++ zdrop (zlen b) blob, image (gen mod 2 ^ 32) b (Z.to_nat n) ++ zdrop (512 * n) out, n * SECTOR).
Proof.
  intros Hok Hn Hbl Hout b0. remember b0 as b eqn:Eb. unfold b0 in Eb. clear b0. pose proof (blob_body_length _ _ _ _ _ _ Hok) as Hbody.
  pose proof (zlen_nonneg sig). pose proof (sectors_for_cap _ _ Hn) as Hcap.
  assert (zlen b = 106 + zlen sig) as Hlb by (rewrite Eb; unfold blob_of; zl).
  destruct (sectors_for_eq (zlen sig)) as (n' & En & Hn1 & Hn2); [lia|].
  rewrite Hn in En. injection En as <-.
  pose proof (proj1 (ok_head _ _ _ _ _ _ Hok)) as Hh. pose proof (proj1 (ok_i _ _ _ _ _ _ Hok)) as Hi.
  pose proof (proj1 (ok_root _ _ _ _ _ _ Hok)) as Hr.
  unfold encode. rewrite Hn. cbv zeta. rewrite !(proj2 (Z.ltb_ge _ _)) by done. cbn [orb].
  unfold BLOB_FIXED, BLOB_CRC, HEAD_LEN, I_LEN, ROOT_LEN, SIG_CAP, SECTOR in *.
  set (l := 2 + 1 + 1 + 8 + 4 + 2 + 32 + 16 + 32 + zlen sig + 8) in *.
  assert (l = 106 + zlen sig) as Hl by (unfold l; lia). clearbody l. subst l.
  change (fill_span (106 + zlen sig) 0 0 blob) with (fill_span (106 + zlen sig) 0 0 ([] ++ blob)).
  rewrite fill_span_next, bind_val by (done || lia). cbn [app].
  set (X := zrepeat (106 + zlen sig) 0 ++ zdrop (106 + zlen sig) blob).
  assert (zlen X = zlen blob) as HX by (unfold X; zl).
  assert (idx X 3 = Val 0) as HX3.
  { unfold X, zrepeat. replace (Z.to_nat (106 + zlen sig)) with (4 + Z.to_nat (102 + zlen sig))%nat by lia.
    done. }
  assert (zdrop (106 + zlen sig) X = zdrop (106 + zlen sig) blob) as HXd.
  { unfold X. apply zdrop_app_eq. zl. }
  clearbody X.
  change X with ([] ++ zdrop 0 X) at 1.
  unfold put_u64, put_u32, put_u16, OFF_MAGIC, OFF_VERSION, OFF_GEN, OFF_Q, OFF_SIGLEN, OFF_SIG,
    OFF_ROOT, OFF_I, OFF_HEAD, HEAD_LEN, I_LEN, ROOT_LEN.
  rewrite (wrap_small 16) by (unfold in_u; lia).
  cbv zeta. unfold PROV_MAGIC. do 12 write_step. rewrite (zdrop_idx _ _ _ HX3), app_assoc. change (3 + 1) with 4.
  writes. rewrite copy_loop_next by first [zlen_const | zl].
  rewrite bind_val, ztake_all, zdrop_zdrop by lia.
  match goal with |- context [slice (?c ++ zdrop _ X)] =>
    replace c with (blob_body gen q head i_id pubroot sig)
      by (unfold blob_body, PROV_MAGIC; rewrite <-!app_assoc; reflexivity) end.
  rewrite slice_ok by zl. rewrite bind_val, fnv1a64_eq, bind_val, zsub_app_eq by lia.
  rewrite copy_loop_next by zl. rewrite bind_val, (ztake_all 8), zdrop_zdrop by zl.
  change (blob_body gen q head i_id pubroot sig ++ to_le 8 (crc64 (blob_body gen q head i_id pubroot sig)))
    with (blob_of gen q head i_id pubroot sig).
  rewrite <-Eb, land_low32, encode_loop, bind_val by lia.
  replace (98 + zlen sig + 8) with (106 + zlen sig) by lia. by rewrite HXd, Hlb.
Qed.

(** ** Lemmas: decoding *)

Lemma provhead_rd_u64_eq b off : 0 <= off -> off + 8 <= zlen b -> rd_u64 b off = Val (of_le (zsub off 8 b)).
Proof. intros. unfold rd_u64. gather_tac off 8%nat. done. Qed.
Lemma rd_u32_eq b off : 0 <= off -> off + 4 <= zlen b -> rd_u32 b off = Val (of_le (zsub off 4 b)).
Proof. intros. unfold rd_u32. gather_tac off 4%nat. done. Qed.
Lemma rd_u16_eq b off : 0 <= off -> off + 2 <= zlen b -> rd_u16 b off = Val (of_le (zsub off 2 b)).
Proof. intros. unfold rd_u16. gather_tac off 2%nat. done. Qed.

Definition sec (sectors : list Z) (s : Z) : list Z := zsub (512 * s) 512 sectors.

Definition sector_ok (sectors : list Z) (tag s : Z) : bool :=
  let x := sec sectors s in
  (crc32 (zsub 0 4 x ++ zsub 8 504 x) =? of_le (zsub 4 4 x)) && (of_le (zsub 0 4 x) =? tag).

(** The payloads of the first [k] sectors. *)
Fixpoint payloads (sectors : list Z) (k : nat) : list Z :=
  match k with
  | O => []
  | S k' => payloads sectors k' ++ zsub 8 504 (sec sectors (Z.of_nat k'))
  end.

Lemma zlen_sec sectors s : 0 <= s -> 512 * s + 512 <= zlen sectors -> zlen (sec sectors s) = 512.
Proof. intros. unfold sec. zl. Qed.

Lemma zlen_payloads sectors k : 512 * Z.of_nat k <= zlen sectors ->
  zlen (payloads sectors k) = 504 * Z.of_nat k.
Proof.
  induction k as [|k IH]; intros Hl; [done|]. cbn [payloads].
  rewrite zlen_app, IH, zlen_zsub, zlen_sec by lia. lia.
Qed.

(** The scratch blob after the first [s] sectors. *)
Definition blob_at (sectors blob : list Z) (l s : Z) : list Z :=
  ztake (Z.min l (504 * s)) (payloads sectors (Z.to_nat s)) ++ zdrop (Z.min l (504 * s)) blob.

Lemma decode_sector_eq sectors blob l tag n s :
  0 <= s < n -> 504 * (n - 1) < l -> 512 * n <= zlen sectors -> l <= zlen blob ->
  decode_sector sectors l tag s (blob_at sectors blob l s) =
    Val (if sector_ok sectors tag s then Some (blob_at sectors blob l (s + 1)) else None).
Proof.
  intros Hs Hl Hsec Hb. unfold decode_sector, SECTOR, SEC_META, SEC_PAYLOAD, SECTOR, SEC_META, rd_u32.
  replace (s * 512) with (512 * s) by lia. cbv zeta. rewrite slice_ok, bind_val by lia.
  replace (512 * s + 512 - 512 * s) with 512 by lia. fold (sec sectors s).
  pose proof (zlen_sec sectors s ltac:(lia) ltac:(lia)) as Hx.
  unfold sector_ok. set (x := sec sectors s) in *. rewrite sector_crc_eq, bind_val by done.
  gather_tac 4 4%nat. rewrite !bind_val. destruct (_ =? of_le (zsub 4 4 x)); [|done]. cbn [negb andb].
  gather_tac 0 4%nat. rewrite !bind_val. destruct (_ =? tag); [|done]. cbn [negb].
  change (512 - 8) with 504. replace (s * 504) with (504 * s) by lia. unfold blob_at.
  rewrite (Z.min_r l (504 * s)) by lia.
  pose proof (zlen_payloads sectors (Z.to_nat s) ltac:(lia)) as Hpl. rewrite Z2Nat.id in Hpl by lia.
  rewrite (ztake_all (504 * s)) by lia.
  rewrite copy_span_next by zl. rewrite bind_val, zdrop_zdrop by lia. do 2 f_equal.
  replace (Z.to_nat (s + 1)) with (S (Z.to_nat s)) by lia. cbn [payloads].
  rewrite Z2Nat.id by lia. fold x. rewrite ztake_app_ge by lia. f_equal.
  - f_equal. unfold zsub. rewrite Hpl. destruct (decide (l <= 504 * (s + 1))).
    + rewrite Z.min_r, Z.min_l by lia. unfold ztake. rewrite take_take. f_equal. lia.
    + rewrite Z.min_l, Z.min_r by lia. unfold ztake. rewrite take_take. f_equal. lia.
  - f_equal. lia.
Qed.

(** The gates of the decoder, in order. *)
Definition header_ok (sectors : list Z) : Prop := zsub 8 3 sectors = PROV_MAGIC ++ [PROV_VERSION].
Definition hdr_gen (sectors : list Z) : Z := of_le (zsub 12 8 sectors).
Definition hdr_q (sectors : list Z) : Z := of_le (zsub 20 4 sectors).
Definition hdr_siglen (sectors : list Z) : Z := of_le (zsub 24 2 sectors).

Record accepted (sectors blob : list Z) (n : Z) : Prop := {
  acc_size : SECTOR <= zlen sectors;
  acc_header : header_ok sectors;
  acc_count : sectors_for (hdr_siglen sectors) = Some n;
  acc_sectors : n * SECTOR <= zlen sectors;
  acc_blob : BLOB_FIXED + hdr_siglen sectors + BLOB_CRC <= zlen blob;
  acc_each : forall s, 0 <= s < n -> sector_ok sectors (hdr_gen sectors mod 2 ^ 32) s = true;
  acc_span : let p := payloads sectors (Z.to_nat n) in
    crc64 (zsub 0 (98 + hdr_siglen sectors) p) = of_le (zsub (98 + hdr_siglen sectors) 8 p);
}.

Definition decoded (sectors : list Z) (n : Z) : DecodedHead :=
  let p := payloads sectors (Z.to_nat n) in
  {| dh_gen := hdr_gen sectors; dh_q := hdr_q sectors; dh_siglen := hdr_siglen sectors;
     dh_head := zsub 18 32 p; dh_i_id := zsub 50 16 p; dh_pubroot := zsub 66 32 p;
     dh_n_sectors := n |}.

(** The decoder up to the sector loop. *)
Lemma decode_header sectors blob : bytes sectors -> SECTOR <= zlen sectors ->
  decode sectors blob =
    if decide (header_ok sectors) then
      match sectors_for (hdr_siglen sectors) with
      | None => Val None
      | Some n =>
          let l := BLOB_FIXED + hdr_siglen sectors + BLOB_CRC in
          if (zlen sectors <? n * SECTOR) || (zlen blob <? l) then Val None else
          o ← for_up_opt 0 n (decode_sector sectors l (hdr_gen sectors mod 2 ^ 32)) blob;
          match o with
          | None => Val None
          | Some blob =>
              body ← slice blob 0 (l - BLOB_CRC);
              span ← fnv1a64 body;
              stored ← rd_u64 blob (l - BLOB_CRC);
              if negb (span =? stored) then Val None else
              head ← copy_in HEAD_LEN blob OFF_HEAD (zrepeat HEAD_LEN 0);
              i_id ← copy_in I_LEN blob OFF_I (zrepeat I_LEN 0);
              pubroot ← copy_in ROOT_LEN blob OFF_ROOT (zrepeat ROOT_LEN 0);
              Val (Some ({| dh_gen := hdr_gen sectors; dh_q := hdr_q sectors;
                            dh_siglen := hdr_siglen sectors; dh_head := head;
                            dh_i_id := i_id; dh_pubroot := pubroot; dh_n_sectors := n |}, blob))
          end
      end
    else Val None.
Proof.
  intros Hb Hl. unfold decode. rewrite (proj2 (Z.ltb_ge _ _)) by done. unfold SECTOR in Hl.
  change (slice sectors 0 SECTOR) with (slice sectors 0 512).
  rewrite (slice_ok sectors 0 512), bind_val by lia.
  change (512 - 0) with 512. set (s0 := zsub 0 512 sectors).
  assert (zlen s0 = 512) as Hs0 by (unfold s0; zl).
  unfold SEC_META, OFF_MAGIC, OFF_VERSION. unfold header_ok.
  destruct (idx_ok sectors 8) as [x0 E0]; [lia|]. destruct (idx_ok sectors 9) as [x1 E1]; [lia|].
  destruct (idx_ok sectors 10) as [x2 E2]; [lia|].
  assert (zsub 8 3 sectors = [x0; x1; x2]) as ->.
  { apply zsub_one in E0, E1, E2. change [x0; x1; x2] with ([x0] ++ [x1] ++ [x2]).
    rewrite <-E0, <-E1, <-E2. by rewrite !zsub_join by lia. }
  change (PROV_MAGIC ++ [PROV_VERSION]) with [0x59; 0x48; PROV_VERSION].
  unfold s0. rewrite !idx_zsub by lia. fold s0.
  change (0 + (8 + 0)) with 8. change (0 + (8 + 0 + 1)) with 9. change (0 + (8 + 2)) with 10.
  rewrite E0, bind_val. change (idx PROV_MAGIC 0) with (Val 0x59). rewrite bind_val.
  destruct (Z.eqb_spec x0 0x59) as [->|Hne]; cbn [negb];
    [|by rewrite decide_False by (by intros [= ? _ _])].
  rewrite E1, bind_val. change (idx PROV_MAGIC 1) with (Val 0x48). rewrite bind_val.
  destruct (Z.eqb_spec x1 0x48) as [->|Hne]; cbn [negb];
    [|by rewrite decide_False by (by intros [= ? _])].
  rewrite E2, bind_val.
  destruct (Z.eqb_spec x2 PROV_VERSION) as [->|Hne]; cbn [negb];
    [|by rewrite decide_False by (by intros [= ?])].
  rewrite decide_True by done.
  change (slice s0 8 SECTOR) with (slice s0 8 512). rewrite (slice_ok s0 8 512), bind_val by lia.
  change (512 - 8) with 504. unfold s0. rewrite zsub_zsub by lia. change (0 + 8) with 8.
  set (hdr := zsub 8 504 sectors). assert (zlen hdr = 504) as Hh by (unfold hdr; zl).
  unfold OFF_GEN, OFF_Q, OFF_SIGLEN.
  rewrite (provhead_rd_u64_eq hdr 4), (rd_u32_eq hdr 12), (rd_u16_eq hdr 16), !bind_val by lia.
  unfold hdr. rewrite !zsub_zsub by lia.
  change (of_le (zsub (8 + 4) 8 sectors)) with (hdr_gen sectors).
  change (of_le (zsub (8 + 12) 4 sectors)) with (hdr_q sectors).
  change (of_le (zsub (8 + 16) 2 sectors)) with (hdr_siglen sectors). rewrite land_low32.
  destruct (sectors_for (hdr_siglen sectors)) as [n|] eqn:En; [|done]. cbv zeta.
  rewrite (wrap_small 16); [done|].
  unfold hdr_siglen. replace 16 with (8 * zlen (zsub 24 2 sectors)) by zl.
  apply of_le_bound. by apply zsub_bytes.
Qed.

Lemma all_or_one (ok : Z -> bool) n :
  (forall s, 0 <= s < n -> ok s = true) \/ (exists s, 0 <= s < n /\ ok s = false).
Proof.
  destruct (forallb ok (map Z.of_nat (seq 0 (Z.to_nat n)))) eqn:E.
  - left. intros s Hs. rewrite forallb_forall in E. apply E, in_map_iff.
    exists (Z.to_nat s). rewrite in_seq. lia.
  - right. apply not_true_iff_false in E. rewrite forallb_forall in E.
    destruct (decide (Exists (fun s => ok s = false) (map Z.of_nat (seq 0 (Z.to_nat n))))) as [Hex|Hno].
    + apply Exists_exists in Hex as (s & Hs & Hf). exists s. split; [|done].
      apply list_elem_of_fmap in Hs as (k & -> & Hk). apply elem_of_seq in Hk. lia.
    + exfalso. apply E. intros s Hs. apply not_false_iff_true. intros Hf. apply Hno, Exists_exists.
      exists s. split; [by apply list_elem_of_In | done].
Qed.

Definition rec_len (sectors : list Z) : Z := BLOB_FIXED + hdr_siglen sectors + BLOB_CRC.
Definition reassembled (sectors blob : list Z) (n : Z) : list Z :=
  ztake (rec_len sectors) (payloads sectors (Z.to_nat n)) ++ zdrop (rec_len sectors) blob.

(** The decoder succeeds exactly when every gate holds, and never panics. *)
Lemma decode_cases sectors blob : bytes sectors ->
  (exists n, accepted sectors blob n /\
     decode sectors blob = Val (Some (decoded sectors n, reassembled sectors blob n))) \/
  (decode sectors blob = Val None /\ forall n, ~ accepted sectors blob n).
Proof.
  intros Hb. destruct (decide (SECTOR <= zlen sectors)) as [Hsz|Hsz].
  2:{ right. split; [|intros n []; lia]. unfold decode. by rewrite (proj2 (Z.ltb_lt _ _)) by lia. }
  rewrite decode_header by done. destruct (decide (header_ok sectors)) as [Hh|Hh];
    [|by right; split; [|intros n []]].
  destruct (sectors_for (hdr_siglen sectors)) as [n|] eqn:En;
    [|right; split; [done|]; intros n []; congruence].
  assert (0 <= hdr_siglen sectors) as Hsl0.
  { unfold hdr_siglen. destruct (of_le_bound (zsub 24 2 sectors)); [by apply zsub_bytes | done]. }
  assert (hdr_siglen sectors <= SIG_CAP) as Hsl.
  { by apply (sectors_for_cap _ n). }
  destruct (sectors_for_eq (hdr_siglen sectors)) as (n' & En' & Hn & Hl); [lia|].
  rewrite En in En'. injection En' as <-. cbv zeta. fold (rec_len sectors) in *.
  destruct (Z.ltb_spec (zlen sectors) (n * SECTOR)) as [Hs|Hs];
    [right; split; [done|]; intros m []; assert (m = n) as -> by congruence; lia|].
  destruct (Z.ltb_spec (zlen blob) (rec_len sectors)) as [Hbl|Hbl];
    [right; split; [done|]; intros m []; unfold rec_len in *; lia|]. cbn [orb].
  set (tag := hdr_gen sectors mod 2 ^ 32). unfold SECTOR in Hs.
  assert (0 <= rec_len sectors) as Hrl0.
  { unfold rec_len, BLOB_FIXED, BLOB_CRC, HEAD_LEN, I_LEN, ROOT_LEN. lia. }
  assert (blob_at sectors blob (rec_len sectors) 0 = blob) as Hb0.
  { unfold blob_at. rewrite Z.mul_0_r, Z.min_r by done. done. }
  assert (forall i, 0 <= i < n ->
    decode_sector sectors (rec_len sectors) tag i (blob_at sectors blob (rec_len sectors) i) =
    Val (if sector_ok sectors tag i then Some (blob_at sectors blob (rec_len sectors) (i + 1)) else None))
    as Hstep by (intros i Hi; apply (decode_sector_eq _ _ _ _ n); lia).
  destruct (all_or_one (sector_ok sectors tag) n) as [Hall|(s & Hsn & Hbad)].
  2:{ pose proof (for_up_opt_fail _ _ _ 0 n s Hstep Hsn Hbad) as Hloop.
      rewrite Hb0 in Hloop. rewrite Hloop.
      right. split; [done|]. intros m []. assert (m = n) as -> by congruence.
      fold tag in acc_each0. rewrite acc_each0 in Hbad by done. done. }
  pose proof (for_up_opt_all _ _ _ 0 n ltac:(lia) Hstep Hall) as Hloop.
  rewrite Hb0 in Hloop. rewrite Hloop.
  rewrite bind_val. unfold blob_at. rewrite Z.min_l by lia. fold (reassembled sectors blob n).
  pose proof (zlen_payloads sectors (Z.to_nat n) ltac:(lia)) as Hp. rewrite Z2Nat.id in Hp by lia.
  set (p := payloads sectors (Z.to_nat n)) in *.
  assert (rec_len sectors = 106 + hdr_siglen sectors) as Hrl.
  { unfold rec_len, BLOB_FIXED, BLOB_CRC, HEAD_LEN, I_LEN, ROOT_LEN. lia. }
  assert (zlen (reassembled sectors blob n) = zlen blob) as Hrb by (unfold reassembled; fold p; zl).
  assert (forall off k, 0 <= off -> off + k <= rec_len sectors ->
    zsub off k (reassembled sectors blob n) = zsub off k p) as Hsub.
  { intros off k ??. unfold reassembled. fold p. unfold zsub.
    destruct (decide (0 <= k)); [|unfold ztake; by replace (Z.to_nat k) with O by lia].
    rewrite zdrop_app_le, ztake_app_le by zl.
    change (zsub off k (ztake (rec_len sectors) p) = zsub off k p).
    change (ztake (rec_len sectors) p) with (zsub 0 (rec_len sectors) p). rewrite zsub_zsub by lia. done. }
  unfold BLOB_CRC. rewrite slice_ok, bind_val by lia. rewrite fnv1a64_eq, bind_val.
  rewrite provhead_rd_u64_eq, bind_val by lia. rewrite !Hsub by lia.
  replace (rec_len sectors - 8 - 0) with (98 + hdr_siglen sectors) by lia.
  replace (rec_len sectors - 8) with (98 + hdr_siglen sectors) by lia.
  destruct (Z.eqb_spec (crc64 (zsub 0 (98 + hdr_siglen sectors) p))
    (of_le (zsub (98 + hdr_siglen sectors) 8 p))) as [Hc|Hc]; cbn [negb].
  - left. exists n. split; [constructor; done|].
    unfold HEAD_LEN, I_LEN, ROOT_LEN, OFF_ROOT, OFF_I, OFF_HEAD, I_LEN, HEAD_LEN.
    rewrite !copy_in_ok by zl. rewrite !bind_val, !zdrop_all, !app_nil_r by zl.
    rewrite !Hsub by lia. done.
  - right. split; [done|]. intros m []. assert (m = n) as -> by congruence. cbv zeta in acc_span0.
    fold p in acc_span0. done.
Qed.

(** ** Lemmas: the written sectors read back *)

Lemma zsub_pad (b : list Z) off n k : 0 <= off -> 0 <= n -> off + n <= zlen b + k ->
  zsub off n (b ++ zrepeat k 0) = zsub off n b ++ zrepeat (n - zlen (zsub off n b)) 0.
Proof.
  intros Ho Hn Hk. destruct (decide (off + n <= zlen b)).
  - unfold zsub. rewrite zdrop_app_le, ztake_app_le by zl.
    replace (n - _) with 0 by zl. by rewrite app_nil_r.
  - destruct (decide (off <= zlen b)).
    + unfold zsub at 1. rewrite zdrop_app_le, ztake_app_ge by zl. f_equal.
      * unfold zsub. by rewrite ztake_all by zl.
      * rewrite ztake_zrepeat by zl. f_equal. zl.
    + rewrite zsub_app_ge by lia. unfold zsub.
      rewrite zdrop_zrepeat, ztake_zrepeat by zl.
      assert (zdrop off b = []) as -> by (apply zlen_0; zl).
      rewrite ztake_nil. cbn [app]. f_equal. zl.
Qed.

Lemma chunk_pad blob s k : 0 <= s -> 504 * s + 504 <= zlen blob + k ->
  chunk blob s = zsub (504 * s) 504 (blob ++ zrepeat k 0).
Proof. intros. unfold chunk. by rewrite zsub_pad by lia. Qed.

Lemma payloads_image tag blob n k tl : (k <= n)%nat ->
  payloads (image tag blob n ++ tl) k = zsub 0 (504 * Z.of_nat k) (blob ++ zrepeat (504 * Z.of_nat n) 0).
Proof.
  intros Hk. induction k as [|k IH]; [done|]. cbn [payloads].
  rewrite IH by lia. unfold sec. rewrite image_sector by lia. unfold sector_of.
  pose proof (zlen_chunk blob (Z.of_nat k)).
  rewrite (zsub_skip 8 504 _ _ 4 4), (zsub_skip 4 504 _ _ 4 0), (zsub_all 504) by (done || zl).
  pose proof (zlen_nonneg blob).
  rewrite (chunk_pad _ _ (504 * Z.of_nat n)) by lia.
  rewrite zsub_join by zl. f_equal. lia.
Qed.

Lemma payloads_prefix sectors k off n : 0 <= off -> 0 <= n -> off + n <= 504 ->
  512 * Z.of_nat (S k) <= zlen sectors ->
  zsub off n (payloads sectors (S k)) = zsub (8 + off) n sectors.
Proof.
  intros Ho Hn Hf. induction k as [|k IH]; intros Hl.
  - cbn [payloads app]. unfold sec. by rewrite !zsub_zsub by lia.
  - cbn [payloads] in *. rewrite <-IH by lia. unfold zsub.
    pose proof (zlen_payloads sectors (S k) ltac:(lia)) as Hp. cbn [payloads] in Hp.
    by rewrite zdrop_app_le, ztake_app_le by zl.
Qed.

Lemma sector_ok_image tag blob n s tl : is_u32 tag -> 0 <= s < Z.of_nat n ->
  sector_ok (image tag blob n ++ tl) tag s = true.
Proof.
  intros Ht Hs. unfold sector_ok, sec. rewrite image_sector by done. unfold sector_of. cbv zeta.
  pose proof (zlen_chunk blob s).
  rewrite (zsub_app_eq 4), (zsub_skip 8 504 _ _ 4 4), (zsub_skip 4 504 _ _ 4 0), (zsub_skip 4 4 _ _ 4 0),
    (zsub_app_eq 4), zsub_all by (done || zl).
  rewrite !of_to_le_id by (done || apply fnv32_in_u). by rewrite !Z.eqb_refl.
Qed.

Lemma image_bytes tag blob n : bytes blob -> bytes (image tag blob n).
Proof.
  intros Hb. induction n as [|n IH]; [apply Forall_nil_2|]. cbn [image]. unfold sector_of, chunk.
  byte_chunks. by apply zsub_bytes.
Qed.

Lemma blob_of_bytes gen q head i_id pubroot sig :
  fields_ok gen q head i_id pubroot sig -> bytes (blob_of gen q head i_id pubroot sig).
Proof.
  intros [_ _ [_ ?] [_ ?] [_ ?] ?]. unfold blob_of, blob_body, PROV_MAGIC. byte_chunks.
  all: repeat (apply Forall_cons; split; [unfold PROV_VERSION, in_u; lia|]); apply Forall_nil_2.
Qed.

(** What the payloads of a written image hold. *)
Lemma payloads_written tag blob n tl off k :
  0 <= off -> 0 <= k -> off + k <= zlen blob -> zlen blob <= 504 * Z.of_nat n ->
  zsub off k (payloads (image tag blob n ++ tl) n) = zsub off k blob.
Proof.
  intros Ho Hk Hl Hn. rewrite payloads_image by lia. rewrite zsub_zsub by lia.
  unfold zsub. by rewrite Z.add_0_l, zdrop_app_le, ztake_app_le by zl.
Qed.

(** A sector-0 header field of a written image. *)
Lemma header_written tag blob n tl off k :
  0 <= off -> 0 <= k -> off + k <= zlen blob -> off + k <= 504 -> (0 < n)%nat ->
  zlen blob <= 504 * Z.of_nat n ->
  zsub (8 + off) k (image tag blob n ++ tl) = zsub off k blob.
Proof.
  intros Ho Hk Hl Hs Hn Hb. destruct n as [|n]; [lia|].
  rewrite <-(payloads_prefix _ n) by (rewrite ?zlen_app, ?zlen_image; zl).
  by apply payloads_written.
Qed.

Section written.
Context (gen q : Z) (head i_id pubroot sig : list Z) (Hok : fields_ok gen q head i_id pubroot sig).

Lemma zlen_blob_of : zlen (blob_of gen q head i_id pubroot sig) = 106 + zlen sig.
Proof. pose proof (blob_body_length _ _ _ _ _ _ Hok). unfold blob_of. zl. Qed.

(** The fields of the blob, at their offsets. *)
Lemma blob_fields :
  let b := blob_of gen q head i_id pubroot sig in
  zsub 0 3 b = PROV_MAGIC ++ [PROV_VERSION] /\ zsub 4 8 b = to_le 8 gen /\ zsub 12 4 b = to_le 4 q /\
  zsub 16 2 b = to_le 2 (zlen sig) /\ zsub 18 32 b = head /\ zsub 50 16 b = i_id /\
  zsub 66 32 b = pubroot /\ zsub 98 (zlen sig) b = sig /\
  zsub 0 (98 + zlen sig) b = blob_body gen q head i_id pubroot sig /\
  zsub (98 + zlen sig) 8 b = to_le 8 (crc64 (blob_body gen q head i_id pubroot sig)).
Proof.
  pose proof (blob_body_length _ _ _ _ _ _ Hok) as Hb. cbv zeta.
  destruct Hok as [_ _ [Hh _] [Hi _] [Hr _] _]. unfold HEAD_LEN, I_LEN, ROOT_LEN in *.
  pose proof (zlen_nonneg sig).
  split; [reflexivity|]. unfold blob_of. split_and!.
  8: by apply zsub_app_eq.
  8: { rewrite (zsub_skip (98 + zlen sig) 8 _ _ (98 + zlen sig) 0), zsub_all by (done || zl). done. }
  7: { unfold blob_body, PROV_MAGIC. rewrite !app_assoc, <-(app_assoc _ sig).
    rewrite (zsub_skip 98 _ _ _ 98 0) by (done || zl). by apply zsub_app_eq. }
  all: unfold blob_body; rewrite <-!app_assoc; unfold PROV_MAGIC; fields; reflexivity.
Qed.
End written.

(** The metadata a written record carries. *)
Definition meta (gen q : Z) (head i_id pubroot sig : list Z) (n : Z) : DecodedHead :=
  {| dh_gen := gen; dh_q := q; dh_siglen := zlen sig; dh_head := head; dh_i_id := i_id;
     dh_pubroot := pubroot; dh_n_sectors := n |}.

(** A written record decodes to what was written, whatever follows it on the disk. *)
Lemma written_decodes gen q head i_id pubroot sig n tl blob2 :
  fields_ok gen q head i_id pubroot sig -> sectors_for (zlen sig) = Some n -> bytes tl ->
  BLOB_FIXED + zlen sig + BLOB_CRC <= zlen blob2 ->
  let b := blob_of gen q head i_id pubroot sig in
  exists bf,
    decode (image (gen mod 2 ^ 32) b (Z.to_nat n) ++ tl) blob2 =
      Val (Some (meta gen q head i_id pubroot sig n, bf)) /\
    zlen bf = zlen blob2 /\ zsub OFF_SIG (zlen sig) bf = sig.
Proof.
  intros Hok Hn Htl Hb2 b0. remember b0 as b eqn:Eb. unfold b0 in Eb. clear b0.
  pose proof (sectors_for_cap _ _ Hn) as Hcap. pose proof (zlen_nonneg sig).
  destruct (sectors_for_eq (zlen sig)) as (n' & En & Hn1 & Hn2); [lia|].
  rewrite Hn in En. injection En as <-.
  pose proof (zlen_blob_of _ _ _ _ _ _ Hok) as Hlb. rewrite <-Eb in Hlb.
  destruct (blob_fields _ _ _ _ _ _ Hok) as (F1 & F2 & F3 & F4 & F5 & F6 & F7 & F8 & F9 & F10).
  rewrite <-Eb in F1, F2, F3, F4, F5, F6, F7, F8, F9, F10.
  set (S := image (gen mod 2 ^ 32) b (Z.to_nat n) ++ tl).
  assert (bytes S) as HS.
  { apply Forall_app; split; [|done]. apply image_bytes. rewrite Eb. by apply blob_of_bytes. }
  unfold BLOB_FIXED, BLOB_CRC, HEAD_LEN, I_LEN, ROOT_LEN in *.
  assert (512 * n <= zlen S) as HlS by (unfold S; rewrite zlen_app, zlen_image; zl).
  assert (forall off k, 0 <= off -> 0 <= k -> off + k <= zlen b ->
    zsub off k (payloads S (Z.to_nat n)) = zsub off k b) as Hp.
  { intros. apply payloads_written; lia. }
  assert (forall off k, 0 <= off -> 0 <= k -> off + k <= 106 ->
    zsub (8 + off) k S = zsub off k b) as Hh.
  { intros. apply header_written; lia. }
  assert (hdr_siglen S = zlen sig) as Esl.
  { unfold hdr_siglen. rewrite (Hh 16), F4 by lia. apply of_to_le_id. unfold in_u, SIG_CAP in *. lia. }
  assert (hdr_gen S = gen) as Eg.
  { unfold hdr_gen. rewrite (Hh 4), F2 by lia. apply of_to_le_id, Hok. }
  assert (accepted S blob2 n) as Hacc.
  { constructor; rewrite ?Esl, ?Eg.
    - unfold SECTOR. lia.
    - unfold header_ok. by rewrite (Hh 0), F1 by lia.
    - done.
    - unfold SECTOR. lia.
    - unfold BLOB_FIXED, BLOB_CRC, HEAD_LEN, I_LEN, ROOT_LEN. lia.
    - intros s Hs. apply sector_ok_image; [by apply wrap_in_u | lia].
    - cbv zeta. rewrite !Hp, F9, F10 by lia. by rewrite of_to_le_id by apply fnv64_in_u. }
  destruct (decode_cases S blob2 HS) as [(m & Hm & E)|[_ Hno]]; [|by apply Hno in Hacc].
  assert (m = n) as -> by (destruct Hm, Hacc; congruence).
  exists (reassembled S blob2 n). rewrite E. split_and!.
  - unfold decoded, meta. rewrite !Hp, F5, F6, F7, Esl, Eg by lia.
    unfold hdr_q. rewrite (Hh 12), F3, of_to_le_id by (lia || apply Hok). done.
  - unfold reassembled, rec_len, BLOB_FIXED, BLOB_CRC, HEAD_LEN, I_LEN, ROOT_LEN. rewrite Esl.
    pose proof (zlen_payloads S (Z.to_nat n) ltac:(lia)). zl.
  - unfold reassembled, rec_len, BLOB_FIXED, BLOB_CRC, HEAD_LEN, I_LEN, ROOT_LEN. rewrite Esl.
    pose proof (zlen_payloads S (Z.to_nat n) ltac:(lia)).
    change OFF_SIG with 98. unfold zsub. rewrite zdrop_app_le, ztake_app_le by zl.
    match goal with |- ztake ?k (zdrop ?o (ztake ?m ?p)) = _ =>
      change (zsub o k (zsub 0 m p) = sig) end.
    rewrite zsub_zsub by lia. rewrite Z.add_0_l, Hp by lia. done.
Qed.

(** ** Lemmas: torn and mixed sectors *)

Lemma corrupt1_app_l l1 l1' l2 : corrupt1 l1 l1' -> corrupt1 (l1 ++ l2) (l1' ++ l2).
Proof.
  intros (pre & a & b & tl & -> & -> & ? & ?). exists pre, a, b, (tl ++ l2). by rewrite <-!app_assoc.
Qed.
Lemma corrupt1_app_r l1 l2 l2' : corrupt1 l2 l2' -> corrupt1 (l1 ++ l2) (l1 ++ l2').
Proof.
  intros (pre & a & b & tl & -> & -> & ? & ?). exists (l1 ++ pre), a, b, tl. by rewrite <-!app_assoc.
Qed.

(** The checksum catches any one-byte change of a sector, whatever tag is asked for. *)
Lemma sector_corrupt sectors sectors' i s tag tag' :
  bytes sectors -> corrupt_at i sectors sectors' -> 0 <= s ->
  512 * s <= i < 512 * s + 512 -> 512 * s + 512 <= zlen sectors ->
  sector_ok sectors tag s = true -> sector_ok sectors' tag' s = false.
Proof.
  intros Hb Hc Hs Hi Hl Hok. apply not_true_iff_false. unfold sector_ok in *. cbv zeta in *.
  intros H'. apply andb_prop in Hok as [Hok%Z.eqb_eq _], H' as [H'%Z.eqb_eq _].
  unfold sec in *. rewrite !zsub_zsub in Hok, H' by lia.
  pose proof (corrupt1_len _ _ (corrupt_at_corrupt1 _ _ _ Hc)) as Hlen.
  pose proof (corrupt1_bytes _ _ (corrupt_at_corrupt1 _ _ _ Hc) Hb) as Hb'.
  assert (bytes (zsub (512 * s + 0) 4 sectors ++ zsub (512 * s + 8) 504 sectors)) as Hbs
    by (apply Forall_app; split; by apply zsub_bytes).
  destruct (decide (512 * s + 4 <= i < 512 * s + 8)) as [Hin|Hout].
  - rewrite (zsub_corrupt_out i sectors sectors' (512 * s + 0)) in H' by (done || lia).
    rewrite (zsub_corrupt_out i sectors sectors' (512 * s + 8)) in H' by (done || lia).
    pose proof (zsub_corrupt_in i sectors sectors' (512 * s + 4) 4 Hc ltac:(lia) ltac:(lia)) as Hd.
    apply (corrupt1_neq _ _ Hd).
    rewrite <-(to_of_le_n 4 (zsub _ 4 sectors)), <-(to_of_le_n 4 (zsub _ 4 sectors'))
      by first [by apply zsub_bytes | zl]. by rewrite <-Hok, <-H'.
  - rewrite (zsub_corrupt_out i sectors sectors' (512 * s + 4)) in H' by (done || lia).
    rewrite <-Hok in H'. symmetry in H'. revert H'. apply fnv32_corrupt1; [done|].
    destruct (decide (i < 512 * s + 4)).
    + rewrite (zsub_corrupt_out i sectors sectors' (512 * s + 8)) by (done || lia).
      apply corrupt1_app_l. apply (zsub_corrupt_in i); [done | lia | lia].
    + rewrite (zsub_corrupt_out i sectors sectors' (512 * s + 0)) by (done || lia).
      apply corrupt1_app_r. apply (zsub_corrupt_in i); [done | lia | lia].
Qed.

(** A header field lies in sector 0. *)
Lemma header_unchanged sectors sectors' i off k : corrupt_at i sectors sectors' -> 512 <= i ->
  0 <= off -> 0 <= k -> off + k <= 512 -> zsub off k sectors' = zsub off k sectors.
Proof. intros. apply (zsub_corrupt_out i); [done..|lia]. Qed.

Lemma decode_corrupt sectors sectors' blob blob' i d bf : bytes sectors ->
  decode sectors blob = Val (Some (d, bf)) -> corrupt_at i sectors sectors' ->
  i < dh_n_sectors d * SECTOR -> decode sectors' blob' = Val None.
Proof.
  intros Hb Hd Hc Hi. pose proof (corrupt_at_corrupt1 _ _ _ Hc) as Hc1.
  assert (0 <= i) as Hi0 by (destruct Hc as (? & ? & ? & ? & _ & _ & _ & _ & <-); apply zlen_nonneg).
  destruct (decode_cases sectors blob Hb) as [(n & Hn & E)|[E _]]; rewrite E in Hd; [|done].
  apply Val_inj in Hd. injection Hd as Hd _. rewrite <-Hd in Hi. cbn [dh_n_sectors decoded] in Hi.
  destruct (decode_cases sectors' blob') as [(m & Hm & _)|[-> _]];
    [by apply (corrupt1_bytes sectors) | exfalso | done].
  unfold SECTOR in *. pose proof (corrupt1_len _ _ Hc1) as Hlen.
  pose proof (sectors_for_eq (hdr_siglen sectors')) as Hm1. destruct Hm1 as (m' & Em & Hm1 & _).
  { split; [|by eapply sectors_for_cap, Hm]. apply of_le_bound, zsub_bytes.
    by apply (corrupt1_bytes sectors). }
  rewrite (acc_count _ _ _ Hm) in Em. injection Em as <-.
  assert (512 * (i / 512) <= i < 512 * (i / 512) + 512) as Hs.
  { pose proof (Z.div_mod i 512). pose proof (Z.mod_pos_bound i 512). lia. }
  pose proof (Z.div_pos i 512 Hi0 ltac:(lia)) as Hs0. pose proof (acc_sectors _ _ _ Hn). unfold SECTOR in *.
  assert (i / 512 < n) as Hin by lia.
  pose proof (acc_each _ _ _ Hn _ (conj Hs0 Hin)) as Hok.
  assert (i / 512 < m) as Him.
  { destruct (decide (512 <= i)) as [Hge|]; [|assert (i / 512 = 0) by lia; lia].
    assert (hdr_siglen sectors' = hdr_siglen sectors) as Esl
      by (unfold hdr_siglen; by rewrite (header_unchanged sectors sectors' i) by (done || lia)).
    pose proof (acc_count _ _ _ Hm) as Em. rewrite Esl, (acc_count _ _ _ Hn) in Em.
    injection Em as <-. done. }
  pose proof (acc_each _ _ _ Hm _ (conj Hs0 Him)) as Hok'.
  rewrite (sector_corrupt sectors sectors' i _ (hdr_gen sectors mod 2 ^ 32)) in Hok';
    [done..|lia|done|lia|done].
Qed.

Lemma decode_tags sectors blob d bf s : bytes sectors ->
  decode sectors blob = Val (Some (d, bf)) -> 0 <= s < dh_n_sectors d ->
  of_le (zsub (512 * s) 4 sectors) = dh_gen d mod 2 ^ 32.
Proof.
  intros Hb Hd Hs. destruct (decode_cases sectors blob Hb) as [(n & Hn & E)|[E _]];
    rewrite E in Hd; [|done].
  apply Val_inj in Hd. injection Hd as Hd _. rewrite <-Hd in Hs |- *. cbn [dh_n_sectors dh_gen decoded] in *.
  pose proof (acc_each _ _ _ Hn _ Hs) as Hok. unfold sector_ok in Hok.
  apply andb_prop in Hok as [_ Hok%Z.eqb_eq]. unfold sec in Hok. rewrite zsub_zsub in Hok by lia.
  by rewrite Z.add_0_r in Hok.
Qed.

(** ** Properties *)

(** Encoding a signed head writes its sector images and nothing else, and decoding them
    gives back every field and the signature, whatever follows the record on the disk; a
    signature over the cap or a buffer too small for the record writes nothing and returns 0. *)
Theorem provhead_roundtrip (gen q : Z) (head i_id pubroot sig blob out : list Z)
    (Hok : fields_ok gen q head i_id pubroot sig) :
  let l := BLOB_FIXED + zlen sig + BLOB_CRC in
  (sectors_for (zlen sig) = None <-> SIG_CAP < zlen sig) /\
  match sectors_for (zlen sig) with
  | Some n =>
      if decide (l <= zlen blob /\ n * SECTOR <= zlen out) then
        exists blob' out',
          encode gen q head i_id pubroot sig blob out = Val (blob', out', n * SECTOR) /\
          zlen out' = zlen out /\ zdrop (n * SECTOR) out' = zdrop (n * SECTOR) out /\
          forall tl blob2, bytes tl -> l <= zlen blob2 ->
            exists bf,
              decode (ztake (n * SECTOR) out' ++ tl) blob2 =
                Val (Some (meta gen q head i_id pubroot sig n, bf)) /\
              zsub OFF_SIG (zlen sig) bf = sig
      else encode gen q head i_id pubroot sig blob out = Val (blob, out, 0)
  | None => encode gen q head i_id pubroot sig blob out = Val (blob, out, 0)
  end.
Proof.
  cbv zeta. split; [unfold sectors_for; destruct (Z.ltb_spec SIG_CAP (zlen sig)); split; (done || lia)|].
  destruct (sectors_for (zlen sig)) as [n|] eqn:En; [|unfold encode; by rewrite En].
  case_decide as Hfit.
  2:{ unfold encode. rewrite En. cbv zeta. destruct (Z.ltb_spec (zlen blob) (BLOB_FIXED + zlen sig + BLOB_CRC)); [done|].
    destruct (Z.ltb_spec (zlen out) (n * SECTOR)); [done|]. lia. }
  destruct Hfit as [Hbl Hout]. do 2 eexists. split; [by apply encode_eq|].
  assert (1 <= n) as Hn1.
  { destruct (sectors_for_eq (zlen sig)) as (m & Em & ? & _);
      [pose proof (zlen_nonneg sig); pose proof (sectors_for_cap _ _ En); lia|].
    rewrite En in Em. injection Em as ->. lia. }
  unfold SECTOR in *. split; [|split].
  - rewrite zlen_app, zlen_image. zl.
  - rewrite (Z.mul_comm 512 n). apply zdrop_app_eq. rewrite zlen_image. lia.
  - intros tl blob2 Htl Hb2. rewrite ztake_app_eq by (rewrite zlen_image; lia).
    destruct (written_decodes gen q head i_id pubroot sig n tl blob2) as (bf & E & _ & Es); [done..|].
    by exists bf.
Qed.

(** C32: decoding is total, and a record it accepts is consistent: changing any one byte of
    its sectors makes every later decode fail, and every sector carries the low half of the
    record's generation, so a slab mixing two generations is refused. *)
Theorem provhead_torn_slot_rejected (sectors blob : list Z) (Hb : bytes sectors) :
  exists r, decode sectors blob = Val r /\
    match r with
    | None => True
    | Some (d, bf) =>
        1 <= dh_n_sectors d <= MAX_SECTORS /\ dh_n_sectors d * SECTOR <= zlen sectors /\
        (forall i sectors' blob', corrupt_at i sectors sectors' -> i < dh_n_sectors d * SECTOR ->
           decode sectors' blob' = Val None) /\
        (forall s, 0 <= s < dh_n_sectors d ->
           of_le (zsub (512 * s) 4 sectors) = dh_gen d mod 2 ^ 32)
    end.
Proof.
  destruct (decode_cases sectors blob Hb) as [(n & Hn & E)|[E _]]; [|by exists None].
  exists (Some (decoded sectors n, reassembled sectors blob n)). split; [done|].
  destruct (sectors_for_eq (hdr_siglen sectors)) as (m & Em & Hm & _).
  { split; [by apply of_le_bound, zsub_bytes | by eapply sectors_for_cap, Hn]. }
  rewrite (acc_count _ _ _ Hn) in Em. injection Em as <-.
  split_and!; [apply Hm.. | by apply Hn | |].
  - intros i sectors' blob' Hc Hi. by eapply decode_corrupt.
  - intros s Hs. by eapply decode_tags.
Qed.

(** ** Witnesses *)

Definition demo_head : list Z := zrepeat 32 7.
Definition demo_id : list Z := zrepeat 16 9.
Definition demo_root : list Z := zrepeat 32 11.
Definition demo_sig : list Z := [1; 2; 3].

Lemma demo_ok : fields_ok (2 ^ 32 + 5) 4 demo_head demo_id demo_root demo_sig.
Proof.
  constructor; [unfold in_u; lia | unfold in_u; lia | ..].
  1-3: split; [reflexivity|]; apply zrepeat_Forall; unfold in_u; lia.
  repeat (apply Forall_cons; split; [unfold in_u; lia|]). apply Forall_nil_2.
Qed.

Lemma provhead_roundtrip_witness :
  exists blob' out',
    encode (2 ^ 32 + 5) 4 demo_head demo_id demo_root demo_sig (zrepeat 200 0) (zrepeat 600 1) =
      Val (blob', out', 512) /\ zlen out' = 600.
Proof.
  pose proof (provhead_roundtrip (2 ^ 32 + 5) 4 demo_head demo_id demo_root demo_sig
    (zrepeat 200 0) (zrepeat 600 1) demo_ok) as [_ H].
  change (sectors_for (zlen demo_sig)) with (Some 1) in H. cbv beta iota in H.
  rewrite decide_True in H by (split; vm_compute; congruence).
  destruct H as (b & o & H & Hl & _). exists b, o. split; [exact H | exact Hl].
Defined.

(** The sector [encode] writes for the sample. *)
Definition demo_sector : list Z :=
  match encode (2 ^ 32 + 5) 4 demo_head demo_id demo_root demo_sig (zrepeat 200 0) (zrepeat 512 0) with
  | Val (_, o, _) => o
  | Panic => []
  end.

Lemma demo_sector_bytes : bytes demo_sector.
Proof.
  assert (forallb (fun b => (0 <=? b) && (b <? 256)) demo_sector = true) as H by (vm_compute; reflexivity).
  apply Forall_forall. intros x Hx. rewrite forallb_forall in H.
  specialize (H x (proj1 (list_elem_of_In _ _) Hx)). unfold in_u. lia.
Qed.

Lemma provhead_torn_slot_rejected_witness :
  exists d bf, decode demo_sector (zrepeat 200 0) = Val (Some (d, bf)) /\
    forall sectors', corrupt_at 511 demo_sector sectors' -> decode sectors' (zrepeat 200 0) = Val None.
Proof.
  destruct (provhead_torn_slot_rejected demo_sector (zrepeat 200 0) demo_sector_bytes) as ([[d bf]|] & E & H).
  - exists d, bf. split; [exact E|]. intros s Hs. destruct H as (Hn & _ & H & _).
    apply (H 511 s (zrepeat 200 0) Hs). unfold SECTOR. lia.
  - exfalso. vm_compute in E. discriminate.
Defined.
