(* ===== verification/Pmm.v ===== *)
(** * Physical frame allocator: [crates/tb-hal/src/pmm.rs].

    The boot-map sink, the seeding of the intrusive free-frame stack, and the two
    operations.  Memory is the first word of every frame, a function of its address;
    [frame_alloc] and [frame_free] are [alloc] and [free] under the cell's lock, which is
    never contended.  The map reader of the architecture and the linker symbols of the
    image are arguments of [init]. *)
From Stdlib Require Import ZArith Lia.
From stdpp Require Import base numbers option tactics sets list.
From S2P Require Import Prelude.
Open Scope Z_scope.

Definition FRAME : Z := 4096.
Definition MAX_RANGES : Z := 16.
Definition MAX_RESV : Z := 64.

Record PhysRange := mkRange { base : Z; len : Z }.
Definition ZERO : PhysRange := mkRange 0 0.
Definition end_ (r : PhysRange) : Z := saturating_add 64 (base r) (len r).

(** ** The sink the architecture fills *)

Record RegionSink := mkSink {
  s_usable : list PhysRange;
  s_usable_len : Z;
  s_reserved : list PhysRange;
  s_reserved_len : Z;
  s_overflow : bool;
}.

Definition sink_new : RegionSink :=
  mkSink (zrepeat MAX_RANGES ZERO) 0 (zrepeat MAX_RESV ZERO) 0 false.

Definition push_usable (s : RegionSink) (base len : Z) : res RegionSink :=
  if len =? 0 then Val s
  else if s_usable_len s <? MAX_RANGES then
    u ← upd (s_usable s) (s_usable_len s) (mkRange base len);
    Val (mkSink u (s_usable_len s + 1) (s_reserved s) (s_reserved_len s) (s_overflow s))
  else Val s.

Definition push_reserved (s : RegionSink) (base len : Z) : res RegionSink :=
  if len =? 0 then Val s
  else if s_reserved_len s <? MAX_RESV then
    r ← upd (s_reserved s) (s_reserved_len s) (mkRange base len);
    Val (mkSink (s_usable s) (s_usable_len s) r (s_reserved_len s + 1) (s_overflow s))
  else Val (mkSink (s_usable s) (s_usable_len s) (s_reserved s) (s_reserved_len s) true).

(** What a map reader does to the sink: a sequence of pushes. *)
Inductive push := Usable (base len : Z) | Reserved (base len : Z).
Definition push_one (s : RegionSink) (p : push) : res RegionSink :=
  match p with Usable b l => push_usable s b l | Reserved b l => push_reserved s b l end.

(** ** Arithmetic *)

Definition align_up (x a : Z) : Z := Z.land (saturating_add 64 x (a - 1)) (bit_not 64 (a - 1)).
Definition align_down (x a : Z) : Z := Z.land x (bit_not 64 (a - 1)).

(** ** Memory: the link word of each frame *)

Definition memory : Type := Z -> Z.
Definition write_link (m : memory) (frame_pa next : Z) : memory :=
  fun a => if a =? frame_pa then next else m a.
Definition read_link (m : memory) (frame_pa : Z) : Z := m frame_pa.

(** ** The allocator *)

Record PmmState := mkPmm {
  head : Z;
  usable : list PhysRange;
  usable_len : Z;
  reserved : list PhysRange;
  reserved_len : Z;
  total_frames : Z;
  free_count : Z;
  initialized : bool;
}.

Definition new : PmmState :=
  mkPmm 0 (zrepeat MAX_RANGES ZERO) 0 (zrepeat MAX_RESV ZERO) 0 0 0 false.

Definition is_reserved_frame (st : PmmState) (f : Z) : res bool :=
  let fe := saturating_add 64 f FRAME in
  any_up (reserved_len st) (fun i =>
    r ← idx (reserved st) i; Val ((f <? end_ r) && (base r <? fe))).

Definition addr_in_usable (st : PmmState) (pa : Z) : res bool :=
  any_up (usable_len st) (fun i =>
    r ← idx (usable st) i; Val ((base r <=? pa) && (pa <? end_ r))).

Definition addr_reserved (st : PmmState) (pa : Z) : res bool :=
  any_up (reserved_len st) (fun i =>
    r ← idx (reserved st) i; Val ((base r <=? pa) && (pa <? end_ r))).

Definition frame_in_usable (st : PmmState) (pa : Z) : res bool :=
  match checked_add 64 pa FRAME with
  | None => Val false
  | Some pe =>
      any_up (usable_len st) (fun i =>
        r ← idx (usable st) i; Val ((base r <=? pa) && (pe <=? end_ r)))
  end.

(** [while f < e { ...; f += FRAME }] on the stack top, the count and memory. *)
Fixpoint seed_range (fuel : nat) (st : PmmState) (f e : Z) (s : Z * Z * memory)
  : res (Z * Z * memory) :=
  if f <? e then
    match fuel with
    | O => Panic
    | S fuel' =>
        let '(hd, total, m) := s in
        resv ← (if f =? 0 then Val true else is_reserved_frame st f);
        s ← (if (resv : bool) then Val s
             else total' ← add_u 64 total 1; Val (f, total', write_link m f hd));
        f' ← add_u 64 f FRAME;
        seed_range fuel' st f' e s
    end
  else Val s.

Definition seed (st : PmmState) (m : memory) : res (PmmState * memory) :=
  '(hd, total, m) ← for_up 0 (usable_len st) (fun i s =>
    r ← idx (usable st) i;
    let f := align_up (base r) FRAME in
    let e := align_down (end_ r) FRAME in
    seed_range (Z.to_nat ((e - f) / FRAME + 1)) st f e s) (0, 0, m);
  Val (mkPmm hd (usable st) (usable_len st) (reserved st) (reserved_len st) total total
         (initialized st), m).

(** [pushes] is what the map reader reports, [img_start, img_end) the kernel image. *)
Definition init (pushes : list push) (img_start img_end : Z) (st : PmmState) (m : memory)
  : res (PmmState * memory) :=
  if initialized st then Val (st, m) else
  sink ← fold_res push_one sink_new pushes;
  sink ← (if img_start <? img_end then push_reserved sink img_start (img_end - img_start)
          else Val sink);
  if s_overflow sink then
    Val (mkPmm (head st) (usable st) (usable_len st) (reserved st) (reserved_len st)
           (total_frames st) (free_count st) true, m)
  else
    su ← slice (s_usable sink) 0 (s_usable_len sink);
    u ← blit (usable st) 0 (s_usable_len sink) su;
    sr ← slice (s_reserved sink) 0 (s_reserved_len sink);
    r ← blit (reserved st) 0 (s_reserved_len sink) sr;
    let st := mkPmm (head st) u (s_usable_len sink) r (s_reserved_len sink) (total_frames st)
                (free_count st) (initialized st) in
    '(st, m) ← seed st m;
    Val (mkPmm (head st) (usable st) (usable_len st) (reserved st) (reserved_len st)
           (total_frames st) (free_count st) true, m).

Definition set_top (st : PmmState) (hd count : Z) : PmmState :=
  mkPmm hd (usable st) (usable_len st) (reserved st) (reserved_len st) (total_frames st) count
    (initialized st).

Definition alloc (st : PmmState) (m : memory) : res (PmmState * option Z) :=
  if head st =? 0 then Val (st, None)
  else
    let pa := head st in
    let next := read_link m pa in
    count ← sub_u (free_count st) 1;
    Val (set_top st next count, Some pa).

Definition free (st : PmmState) (m : memory) (pa : Z) : res (PmmState * memory * bool) :=
  if (pa =? 0) || negb (pa mod FRAME =? 0) then Val (st, m, false) else
  inu ← frame_in_usable st pa;
  if negb inu then Val (st, m, false) else
  resv ← is_reserved_frame st pa;
  if (resv : bool) then Val (st, m, false) else
  if total_frames st <=? free_count st then Val (st, m, false) else
  if head st =? pa then Val (st, m, false) else
  count ← add_u 64 (free_count st) 1;
  Val (set_top st pa count, write_link m pa (head st), true).

(** ** Specification: which frames are free *)

(** The frame at [f] lies inside one of the ranges, touches no reservation, and is not the
    empty-stack sentinel. *)
Definition fits (rs : list PhysRange) (f : Z) : bool :=
  existsb (fun r => (base r <=? f) && (f + FRAME <=? end_ r)) rs.
Definition touches (rs : list PhysRange) (f : Z) : bool :=
  existsb (fun r => (f <? end_ r) && (base r <? saturating_add 64 f FRAME)) rs.
Definition usable_frame (us rs : list PhysRange) (f : Z) : Prop :=
  0 < f /\ f mod FRAME = 0 /\ fits us f = true /\ touches rs f = false.

Definition ranges_ok (rs : list PhysRange) : Prop :=
  Forall (fun r => is_u64 (base r) /\ is_u64 (len r)) rs.

(** The frames of one range, ascending; the seeded ones. *)
Definition range_frames (r : PhysRange) : list Z :=
  let f := align_up (base r) FRAME in
  let n := (align_down (end_ r) FRAME - f) / FRAME in
  map (fun k => f + FRAME * k) (seqZ 0 n).
Definition seedable (rs : list PhysRange) (f : Z) : bool := negb (f =? 0) && negb (touches rs f).
Definition seeded (us rs : list PhysRange) : list Z :=
  List.filter (seedable rs) (concat (map range_frames us)).

(** The links from [h] spell the stack [l]. *)
Fixpoint chain (m : memory) (h : Z) (l : list Z) : Prop :=
  match l with
  | [] => h = 0
  | x :: l' => h = x /\ x <> 0 /\ chain m (m x) l'
  end.

Definition live_usable (st : PmmState) : list PhysRange := ztake (usable_len st) (usable st).
Definition live_reserved (st : PmmState) : list PhysRange := ztake (reserved_len st) (reserved st).

(** The state describes the frame pool [F] with free stack [l] (top first). *)
Record pool (st : PmmState) (m : memory) (F l : list Z) : Prop := {
  pool_len : 0 <= usable_len st <= zlen (usable st) /\ 0 <= reserved_len st <= zlen (reserved st);
  pool_frames : forall f, f ∈ F <-> usable_frame (live_usable st) (live_reserved st) f;
  pool_ok : ranges_ok (live_usable st) /\ ranges_ok (live_reserved st);
  pool_chain : chain m (head st) l;
  pool_sub : forall f, f ∈ l -> f ∈ F;
  pool_nodup : NoDup l;
  pool_F : NoDup F;
  pool_total : total_frames st = zlen F;
  pool_free : free_count st = zlen l;
}.

(** ** Lemmas: the frame arithmetic *)

Lemma land_mask x : is_u64 x -> Z.land x (bit_not 64 (FRAME - 1)) = FRAME * (x / FRAME).
Proof. apply (land_not_low 12). lia. Qed.

Lemma end_u64 r : is_u64 (base r) -> is_u64 (len r) -> base r <= end_ r < 2 ^ 64.
Proof. unfold end_, saturating_add, u_max, in_u. lia. Qed.

Lemma align_down_eq x : is_u64 x -> align_down x FRAME = FRAME * (x / FRAME).
Proof. intros. by apply land_mask. Qed.

Lemma align_up_eq x : is_u64 x ->
  align_up x FRAME = FRAME * (Z.min (x + 4095) (2 ^ 64 - 1) / FRAME).
Proof.
  intros Hx. unfold align_up, saturating_add, u_max. change (FRAME - 1) with 4095.
  change 4095 with (FRAME - 1). rewrite land_mask; [by unfold FRAME|].
  unfold in_u, FRAME in *. lia.
Qed.

Lemma aligned_iff f : f mod FRAME = 0 <-> exists k, f = FRAME * k.
Proof.
  unfold FRAME. split.
  - intros H. exists (f / 4096). pose proof (Z.div_mod f 4096). lia.
  - intros [k ->]. rewrite Z.mul_comm. by apply Z.mod_mul.
Qed.

(** Exactly the aligned frames inside the range. *)
Lemma elem_of_range_frames r f : is_u64 (base r) -> is_u64 (len r) ->
  f ∈ range_frames r <-> f mod FRAME = 0 /\ base r <= f /\ f + FRAME <= end_ r.
Proof.
  intros Hb Hl. pose proof (end_u64 r Hb Hl) as He. unfold range_frames.
  rewrite align_down_eq, align_up_eq by (done || unfold in_u in *; lia).
  rewrite aligned_iff, list_elem_of_fmap. setoid_rewrite elem_of_seqZ.
  unfold FRAME, in_u in *.
  set (a := Z.min (base r + 4095) (2 ^ 64 - 1) / 4096). set (b := end_ r / 4096).
  assert ((4096 * b - 4096 * a) / 4096 = b - a) as ->.
  { replace (4096 * b - 4096 * a) with ((b - a) * 4096) by lia. by apply Z.div_mul. }
  assert (forall k, a <= k < b <-> base r <= 4096 * k /\ 4096 * k + 4096 <= end_ r) as Hk.
  { intros k. unfold a, b. pose proof (Z.div_mod (end_ r) 4096). pose proof (Z.mod_pos_bound (end_ r) 4096).
    pose proof (Z.div_mod (Z.min (base r + 4095) (2 ^ 64 - 1)) 4096).
    pose proof (Z.mod_pos_bound (Z.min (base r + 4095) (2 ^ 64 - 1)) 4096). lia. }
  split.
  - intros (k & -> & Hkk). assert (a <= a + k < b) as [??]%Hk by lia.
    split; [exists (a + k); lia|]. lia.
  - intros ((k & ->) & H1 & H2). assert (a <= k < b) by (apply Hk; lia). exists (k - a). lia.
Qed.

Lemma range_frames_NoDup r : NoDup (range_frames r).
Proof.
  unfold range_frames. apply NoDup_fmap_2; [|apply NoDup_seqZ].
  intros x y. unfold FRAME. lia.
Qed.

Lemma fits_iff us f : fits us f = true <->
  exists r, r ∈ us /\ base r <= f /\ f + FRAME <= end_ r.
Proof.
  unfold fits. rewrite existsb_exists. split.
  - intros (r & Hr%list_elem_of_In & H). exists r. split; [done|]. lia.
  - intros (r & Hr & H). exists r. split; [by apply list_elem_of_In|]. lia.
Qed.

Lemma elem_of_seeded us rs f : ranges_ok us -> f ∈ seeded us rs <-> usable_frame us rs f.
Proof.
  intros Hus. unfold seeded, usable_frame. rewrite list_elem_of_In, filter_In, <-list_elem_of_In.
  rewrite list_elem_of_In, in_concat. setoid_rewrite <-list_elem_of_In.
  setoid_rewrite list_elem_of_fmap. rewrite fits_iff.
  unfold seedable. rewrite andb_true_iff, !negb_true_iff, Z.eqb_neq.
  unfold ranges_ok in Hus. rewrite Forall_forall in Hus. split.
  - intros ((x & (r & -> & Hr) & Hf) & H0 & Ht). destruct (Hus r Hr).
    apply elem_of_range_frames in Hf as (Ha & Hb & He); [|done..].
    split_and!; [unfold in_u in *; lia | done | by exists r | done].
  - intros (H0 & Ha & (r & Hr & Hb & He) & Ht). split; [|split; [lia | done]].
    exists (range_frames r). split; [by exists r|].
    destruct (Hus r Hr). by apply elem_of_range_frames.
Qed.

(** ** Lemmas: the searches *)

Section searches.
Context (st : PmmState)
  (Hu : 0 <= usable_len st <= zlen (usable st)) (Hr : 0 <= reserved_len st <= zlen (reserved st)).

Lemma is_reserved_frame_eq f : is_reserved_frame st f = Val (touches (live_reserved st) f).
Proof. unfold is_reserved_frame. by rewrite any_up_existsb. Qed.

Lemma frame_in_usable_eq f : ranges_ok (live_usable st) ->
  frame_in_usable st f = Val (fits (live_usable st) f).
Proof.
  intros Hok. unfold frame_in_usable, checked_add, u_max. case_decide as Hc.
  - by rewrite any_up_existsb.
  - f_equal. symmetry. apply not_true_iff_false. rewrite fits_iff. intros (r & Hin & Hb & He).
    unfold ranges_ok in Hok. rewrite Forall_forall in Hok. destruct (Hok r Hin) as [H1 H2].
    pose proof (end_u64 r H1 H2). unfold FRAME in *. lia.
Qed.
End searches.

(** ** Lemmas: the stack *)

Lemma chain_write m h l x v : x ∉ l -> chain m h l -> chain (write_link m x v) h l.
Proof.
  revert h. induction l as [|y l IH]; intros h Hx Hc; [done|].
  apply not_elem_of_cons in Hx as [Hne Hx]. destruct Hc as (-> & Hy & Hc).
  cbn [chain]. split; [done|]. split; [done|]. apply IH; [done|].
  unfold write_link. by rewrite (proj2 (Z.eqb_neq y x)) by congruence.
Qed.

Lemma chain_push m h l x : x ∉ l -> x <> 0 -> chain m h l -> chain (write_link m x h) x (x :: l).
Proof.
  intros Hx H0 Hc. cbn [chain]. split; [done|]. split; [done|].
  unfold write_link at 2. rewrite Z.eqb_refl. by apply chain_write.
Qed.

(** Distinct frames of a 64-bit address space are few enough to count in a [usize]. *)
Lemma frames_bound l B : NoDup l -> 0 <= B ->
  (forall f, f ∈ l -> 0 <= f < FRAME * B /\ f mod FRAME = 0) -> zlen l <= B.
Proof.
  intros Hnd HB Hl.
  assert (l ⊆+ map (fun k => FRAME * k) (seqZ 0 B)) as Hsub.
  { apply NoDup_submseteq; [done|]. intros f [Hf [k ->]%aligned_iff]%Hl.
    apply list_elem_of_fmap. exists k. split; [done|]. apply elem_of_seqZ. unfold FRAME in *. lia. }
  apply submseteq_length in Hsub. rewrite length_map, length_seqZ in Hsub. unfold zlen. lia.
Qed.

(** ** Lemmas: seeding *)

Fixpoint frames_from (f : Z) (n : nat) : list Z :=
  match n with O => [] | S n' => f :: frames_from (f + FRAME) n' end.

Lemma frames_from_eq f n : frames_from f n = map (fun k => f + FRAME * k) (seqZ 0 (Z.of_nat n)).
Proof.
  assert (forall a, frames_from (f + FRAME * a) n = map (fun k => f + FRAME * k) (seqZ a (Z.of_nat n))) as H.
  { induction n as [|n IH]; intros a; [done|]. cbn [frames_from].
    rewrite (seqZ_cons a) by lia. cbn [map]. f_equal.
    replace (Z.pred (Z.of_nat (S n))) with (Z.of_nat n) by lia. rewrite <-IH. f_equal. unfold FRAME. lia. }
  rewrite <-H. f_equal. lia.
Qed.

Section seeding.
Context (st : PmmState) (Hr : 0 <= reserved_len st <= zlen (reserved st)).

Notation ok := (seedable (live_reserved st)).
Notation frame f := (0 <= f < 2 ^ 64 /\ f mod FRAME = 0) (only parsing).

Lemma frame_step f : f mod FRAME = 0 -> (f + FRAME) mod FRAME = 0.
Proof. rewrite !aligned_iff. intros [k ->]. exists (k + 1). unfold FRAME. lia. Qed.

Lemma seed_range_spec n : forall fuel f e hd m l,
  (n <= fuel)%nat -> 0 <= f -> f mod FRAME = 0 -> e < 2 ^ 64 ->
  e = f + FRAME * Z.of_nat n \/ (n = O /\ e <= f) ->
  NoDup (rev (List.filter ok (frames_from f n)) ++ l) ->
  (forall x, x ∈ l -> frame x) -> chain m hd l ->
  exists hd' m', seed_range fuel st f e (hd, zlen l, m) =
      Val (hd', zlen (rev (List.filter ok (frames_from f n)) ++ l), m') /\
    chain m' hd' (rev (List.filter ok (frames_from f n)) ++ l).
Proof.
  induction n as [|n IH]; intros fuel f e hd m l Hfuel Hf0 Hfa He Hfe Hnd Hfr Hc.
  { assert (f <? e = false) as Hlt by (apply Z.ltb_ge; lia).
    destruct fuel; cbn [seed_range]; rewrite Hlt; eauto. }
  destruct Hfe as [Hfe|[? _]]; [|lia].
  destruct fuel as [|fuel]; [lia|]. cbn [seed_range]. unfold FRAME in *.
  rewrite (proj2 (Z.ltb_lt f e)) by lia.
  assert ((if f =? 0 then Val true else is_reserved_frame st f) = Val (negb (ok f))) as Hres.
  { unfold seedable. destruct (f =? 0); [done|]. rewrite is_reserved_frame_eq by done.
    cbn [negb andb]. by rewrite negb_involutive. }
  cbv zeta. rewrite Hres, bind_val. cbn [frames_from List.filter] in Hnd |- *.
  destruct (ok f) eqn:Hok; cbn [negb].
  - cbn [rev] in Hnd |- *. rewrite <-app_assoc in Hnd |- *. cbn [app] in Hnd |- *.
    assert (NoDup (f :: l)) as Hfl by by apply NoDup_app in Hnd as (_ & _ & ?).
    assert (forall x, x ∈ f :: l -> 0 <= x < 2 ^ 64 /\ x mod 4096 = 0) as Hfr'.
    { intros x [->|Hx]%elem_of_cons; [split; [lia | done] | by apply Hfr]. }
    pose proof (frames_bound _ (2 ^ 52) Hfl ltac:(lia) Hfr') as Hbound. rewrite zlen_cons in Hbound.
    rewrite (add_u_ok 64 (zlen l)), !bind_val, add_u_ok, bind_val by lia.
    replace (zlen l + 1) with (zlen (f :: l)) by zl.
    apply NoDup_cons in Hfl as [Hnin _].
    apply IH; [lia | unfold FRAME; lia | by apply frame_step | done | left; unfold FRAME; lia | done | done |].
    apply chain_push; [done | | done]. unfold seedable in Hok. lia.
  - rewrite bind_val, add_u_ok, bind_val by lia.
    apply IH; [lia | unfold FRAME; lia | by apply frame_step | done | left; unfold FRAME; lia | done..].
Qed.

Definition seed_step (s : Z * Z * memory) (r : PhysRange) : res (Z * Z * memory) :=
  let f := align_up (base r) FRAME in
  let e := align_down (end_ r) FRAME in
  seed_range (Z.to_nat ((e - f) / FRAME + 1)) st f e s.

Lemma range_frames_from r : range_frames r =
  frames_from (align_up (base r) FRAME)
    (Z.to_nat ((align_down (end_ r) FRAME - align_up (base r) FRAME) / FRAME)).
Proof.
  rewrite frames_from_eq. unfold range_frames.
  destruct (Z.le_gt_cases 0 ((align_down (end_ r) FRAME - align_up (base r) FRAME) / FRAME)).
  - by rewrite Z2Nat.id.
  - rewrite !seqZ_nil by lia. done.
Qed.

Lemma seed_step_spec r hd m l : is_u64 (base r) -> is_u64 (len r) ->
  NoDup (rev (List.filter ok (range_frames r)) ++ l) -> (forall x, x ∈ l -> frame x) -> chain m hd l ->
  exists hd' m', seed_step (hd, zlen l, m) r =
      Val (hd', zlen (rev (List.filter ok (range_frames r)) ++ l), m') /\
    chain m' hd' (rev (List.filter ok (range_frames r)) ++ l).
Proof.
  intros Hb Hl. pose proof (end_u64 r Hb Hl) as He. rewrite range_frames_from. unfold seed_step.
  rewrite align_down_eq, align_up_eq by (done || unfold in_u in *; lia).
  set (a := Z.min (base r + 4095) (2 ^ 64 - 1) / 4096). set (b := end_ r / 4096).
  change (Z.min (base r + 4095) (2 ^ 64 - 1) / FRAME) with a. change (end_ r / FRAME) with b.
  assert ((FRAME * b - FRAME * a) / FRAME = b - a) as ->.
  { replace (FRAME * b - FRAME * a) with ((b - a) * FRAME) by lia. by apply Z.div_mul. }
  intros Hnd Hfr Hc.
  assert (0 <= a) by (unfold a; apply Z.div_pos; unfold in_u in *; lia).
  assert (FRAME * b <= end_ r) by (unfold b; apply Z.mul_div_le; lia).
  apply seed_range_spec; [ | unfold FRAME; lia | rewrite aligned_iff; by exists a | lia | | done..].
  - lia.
  - destruct (Z.le_gt_cases a b); [left; rewrite Z2Nat.id by lia; unfold FRAME; lia|].
    right. unfold FRAME. lia.
Qed.

Lemma seed_fold us : forall hd m l, ranges_ok us ->
  NoDup (rev (List.filter ok (concat (map range_frames us))) ++ l) ->
  (forall x, x ∈ l -> frame x) -> chain m hd l ->
  exists hd' m', fold_res seed_step (hd, zlen l, m) us =
      Val (hd', zlen (rev (List.filter ok (concat (map range_frames us))) ++ l), m') /\
    chain m' hd' (rev (List.filter ok (concat (map range_frames us))) ++ l).
Proof.
  induction us as [|r us IH]; intros hd m l Hok Hnd Hfr Hc; [by exists hd, m|].
  apply Forall_cons in Hok as [[Hb Hl] Hok].
  cbn [map concat] in Hnd |- *. rewrite List.filter_app, rev_app_distr, <-app_assoc in Hnd |- *.
  rewrite fold_res_cons.
  destruct (seed_step_spec r hd m l Hb Hl) as (hd' & m' & -> & Hc'); [|done..|].
  { by apply NoDup_app in Hnd as (_ & _ & ?). }
  rewrite bind_val. apply IH; [done..| |done].
  intros x [Hx|Hx]%elem_of_app; [|by apply Hfr].
  rewrite list_elem_of_In, <-in_rev, filter_In, <-list_elem_of_In in Hx. destruct Hx as [Hx _].
  apply elem_of_range_frames in Hx as (Ha & H1 & H2); [|done..].
  pose proof (end_u64 r Hb Hl). unfold in_u, FRAME in *. split; [lia | done].
Qed.
End seeding.

(** ** Lemmas: the sink *)

Definition usables (ps : list push) : list PhysRange :=
  omap (fun p => match p with Usable b l => if l =? 0 then None else Some (mkRange b l) | _ => None end) ps.
Definition reserveds (ps : list push) : list PhysRange :=
  omap (fun p => match p with Reserved b l => if l =? 0 then None else Some (mkRange b l) | _ => None end) ps.

(** The sink after reporting the usable ranges [us] and the reservations [rs]. *)
Definition sink_of (us rs : list PhysRange) : RegionSink :=
  mkSink (ztake MAX_RANGES us ++ zrepeat (MAX_RANGES - zlen us) ZERO) (Z.min (zlen us) MAX_RANGES)
    (ztake MAX_RESV rs ++ zrepeat (MAX_RESV - zlen rs) ZERO) (Z.min (zlen rs) MAX_RESV)
    (MAX_RESV <? zlen rs).

(** Storing the next element of a zero-padded table. *)
Lemma upd_table {A} (z x : A) (l : list A) n : zlen l < n ->
  upd (ztake n l ++ zrepeat (n - zlen l) z) (zlen l) x =
    Val (ztake n (l ++ [x]) ++ zrepeat (n - zlen (l ++ [x])) z).
Proof.
  intros Hl. rewrite !ztake_all by zl. rewrite upd_next by zl.
  rewrite zdrop_zrepeat by lia. do 3 f_equal. zl.
Qed.

Lemma zrepeat_neg {A} n (x : A) : n <= 0 -> zrepeat n x = [].
Proof. intros. unfold zrepeat. by replace (Z.to_nat n) with O by lia. Qed.

Lemma ztake_full {A} n (l : list A) x : n <= zlen l -> ztake n (l ++ [x]) = ztake n l.
Proof. intros. by rewrite ztake_app_le. Qed.

Lemma push_usable_spec us rs b l :
  push_usable (sink_of us rs) b l =
    Val (sink_of (us ++ if l =? 0 then [] else [mkRange b l]) rs).
Proof.
  unfold push_usable. destruct (l =? 0); [by rewrite app_nil_r|].
  unfold sink_of at 1 2 3 4 5 6 7. cbn [s_usable s_usable_len s_reserved s_reserved_len s_overflow].
  destruct (Z.ltb_spec (Z.min (zlen us) MAX_RANGES) MAX_RANGES) as [Hlt|Hge].
  - rewrite Z.min_l by lia. rewrite upd_table, bind_val by lia. unfold sink_of. f_equal. f_equal. zl.
  - unfold sink_of. rewrite ztake_full by lia.
    replace (Z.min (zlen (us ++ [mkRange b l])) MAX_RANGES) with (Z.min (zlen us) MAX_RANGES) by zl.
    by rewrite (zrepeat_neg (_ - zlen us)), (zrepeat_neg (_ - zlen (us ++ _))) by zl.
Qed.

Lemma push_reserved_spec us rs b l :
  push_reserved (sink_of us rs) b l =
    Val (sink_of us (rs ++ if l =? 0 then [] else [mkRange b l])).
Proof.
  unfold push_reserved. destruct (l =? 0); [by rewrite app_nil_r|].
  unfold sink_of at 1 2 3 4 5 6 7 8 9 10. cbn [s_usable s_usable_len s_reserved s_reserved_len s_overflow].
  destruct (Z.ltb_spec (Z.min (zlen rs) MAX_RESV) MAX_RESV) as [Hlt|Hge].
  - rewrite (Z.min_l (zlen rs)) by lia. rewrite upd_table, bind_val by lia. unfold sink_of. f_equal. f_equal; [zl|].
    rewrite !(proj2 (Z.ltb_ge _ _)) by zl. done.
  - unfold sink_of. rewrite ztake_full by lia.
    replace (Z.min (zlen (rs ++ [mkRange b l])) MAX_RESV) with (Z.min (zlen rs) MAX_RESV) by zl.
    rewrite (proj2 (Z.ltb_lt MAX_RESV (zlen (rs ++ [_])))) by zl.
    by rewrite (zrepeat_neg (_ - zlen rs)), (zrepeat_neg (_ - zlen (rs ++ _))) by zl.
Qed.

Lemma collect_spec ps us rs :
  fold_res push_one (sink_of us rs) ps = Val (sink_of (us ++ usables ps) (rs ++ reserveds ps)).
Proof.
  revert us rs. induction ps as [|p ps IH]; intros us rs; [cbn; by rewrite !app_nil_r|].
  rewrite fold_res_cons. destruct p as [b l|b l]; cbn [push_one].
  - rewrite push_usable_spec, bind_val, IH. cbn. destruct (l =? 0); by rewrite <-!app_assoc.
  - rewrite push_reserved_spec, bind_val, IH. cbn. destruct (l =? 0); by rewrite <-!app_assoc.
Qed.

Lemma sink_new_eq : sink_new = sink_of [] [].
Proof. reflexivity. Qed.

(** The first 16 usable ranges and the first 64 reservations survive. *)
Lemma zlen_table {A} (z : A) (l : list A) n : 0 <= n -> zlen (ztake n l ++ zrepeat (n - zlen l) z) = n.
Proof. intros. zl. Qed.

Lemma ztake_table {A} (z : A) (l : list A) n k : 0 <= n -> k = Z.min (zlen l) n ->
  ztake k (ztake n l ++ zrepeat (n - zlen l) z) = ztake n l.
Proof. intros Hn ->. apply ztake_app_eq. zl. Qed.

(** ** Lemmas: the pool after boot *)

(** No two ranges overlap. *)
Fixpoint disjoint (rs : list PhysRange) : Prop :=
  match rs with
  | [] => True
  | r :: rs' => Forall (fun r' => end_ r <= base r' \/ end_ r' <= base r) rs' /\ disjoint rs'
  end.

Lemma frames_disjoint us : ranges_ok us -> disjoint us -> NoDup (concat (map range_frames us)).
Proof.
  induction us as [|r us IH]; intros Hok Hd; [constructor|].
  apply Forall_cons in Hok as [[Hb Hl] Hok]. destruct Hd as [Hr Hd]. cbn [map concat].
  apply NoDup_app. split; [apply range_frames_NoDup|]. split; [|by apply IH].
  intros f Hf Hf2. apply elem_of_range_frames in Hf as (_ & H1 & H2); [|done..].
  rewrite list_elem_of_In, in_concat in Hf2. destruct Hf2 as (x & Hx & Hf2).
  apply list_elem_of_In in Hx, Hf2. apply list_elem_of_fmap in Hx as (r' & -> & Hin).
  unfold ranges_ok in Hok. rewrite Forall_forall in Hok, Hr.
  destruct (Hok r' Hin) as [Hb' Hl']. pose proof (Hr r' Hin).
  apply elem_of_range_frames in Hf2 as (_ & H3 & H4); [unfold FRAME in *; lia | done..].
Qed.

Lemma seeded_NoDup us rs : ranges_ok us -> disjoint us -> NoDup (seeded us rs).
Proof.
  intros Hok Hd. apply NoDup_ListNoDup, List.NoDup_filter, NoDup_ListNoDup.
  by apply frames_disjoint.
Qed.

Lemma seed_spec st m :
  0 <= usable_len st <= zlen (usable st) -> 0 <= reserved_len st <= zlen (reserved st) ->
  ranges_ok (live_usable st) -> ranges_ok (live_reserved st) -> disjoint (live_usable st) ->
  let F := seeded (live_usable st) (live_reserved st) in
  exists hd m', seed st m =
      Val (mkPmm hd (usable st) (usable_len st) (reserved st) (reserved_len st) (zlen F) (zlen F)
             (initialized st), m') /\
    chain m' hd (rev F).
Proof.
  intros Hu Hr Hoku Hokr Hd F. unfold seed. rewrite (for_up_fold_take (seed_step st)) by done.
  destruct (seed_fold st Hr (live_usable st) 0 m []) as (hd & m' & E & Hc); [done| | |done|].
  - rewrite app_nil_r. apply NoDup_ListNoDup, NoDup_rev, NoDup_ListNoDup. by apply seeded_NoDup.
  - intros x Hx. by apply not_elem_of_nil in Hx.
  - rewrite app_nil_r in Hc, E. change (zlen (@nil Z)) with 0 in E. unfold live_usable in E.
    rewrite E, bind_val. exists hd, m'. split; [|exact Hc].
    assert (forall l : list Z, zlen (rev l) = zlen l) as Hrev by (intros; unfold zlen; by rewrite length_rev).
    rewrite Hrev. done.
Qed.

(** The reservations [init] works with: those reported, then the kernel image. *)
Definition all_reserved (ps : list push) (img_start img_end : Z) : list PhysRange :=
  reserveds ps ++ if img_start <? img_end then [mkRange img_start (img_end - img_start)] else [].

Lemma init_eq ps a b m :
  init ps a b new m =
    if MAX_RESV <? zlen (all_reserved ps a b) then
      Val (mkPmm 0 (usable new) 0 (reserved new) 0 0 0 true, m)
    else
      let us := ztake MAX_RANGES (usables ps) in
      let rs := all_reserved ps a b in
      let st := mkPmm 0 (us ++ zrepeat (MAX_RANGES - zlen us) ZERO) (zlen us)
                  (rs ++ zrepeat (MAX_RESV - zlen rs) ZERO) (zlen rs) 0 0 false in
      '(st, m) ← seed st m;
      Val (mkPmm (head st) (usable st) (usable_len st) (reserved st) (reserved_len st)
             (total_frames st) (free_count st) true, m).
Proof.
  unfold init. cbn [initialized new]. rewrite sink_new_eq, collect_spec, bind_val. cbn [app].
  assert ((if a <? b then push_reserved (sink_of (usables ps) (reserveds ps)) a (b - a)
           else Val (sink_of (usables ps) (reserveds ps))) =
          Val (sink_of (usables ps) (all_reserved ps a b))) as ->.
  { unfold all_reserved. destruct (Z.ltb_spec a b); [|by rewrite app_nil_r].
    rewrite push_reserved_spec. by rewrite (proj2 (Z.eqb_neq (b - a) 0)) by lia. }
  rewrite bind_val. set (us := usables ps). set (rs := all_reserved ps a b).
  unfold sink_of. cbn [s_usable s_usable_len s_reserved s_reserved_len s_overflow].
  destruct (Z.ltb_spec MAX_RESV (zlen rs)) as [Hgt|Hle]; [done|].
  unfold MAX_RANGES, MAX_RESV in *. pose proof (zlen_nonneg us). pose proof (zlen_nonneg rs).
  assert (forall n (z : PhysRange) l, 0 <= n -> zsub 0 (Z.min (zlen l) n) (ztake n l ++ zrepeat (n - zlen l) z) = ztake n l) as Hz.
  { intros. unfold zsub. rewrite zdrop_0. by apply ztake_table. }
  rewrite (slice_ok _ 0 (Z.min (zlen us) 16)), bind_val, Z.sub_0_r, Hz by zl.
  cbn [usable reserved new]. unfold MAX_RANGES, MAX_RESV.
  rewrite (blit_ok _ 0 (Z.min (zlen us) 16)), bind_val by zl.
  rewrite (slice_ok _ 0 (Z.min (zlen rs) 64)), bind_val, Z.sub_0_r, Hz by zl.
  rewrite (blit_ok _ 0 (Z.min (zlen rs) 64)), bind_val by zl.
  cbv zeta. cbn [head total_frames free_count initialized]. rewrite (ztake_all 64 rs) by lia.
  rewrite (Z.min_l (zlen rs)) by lia.
  rewrite !zdrop_zrepeat by lia. change (ztake 0 ?l) with (@nil PhysRange). cbn [app].
  replace (zlen (ztake 16 us)) with (Z.min (zlen us) 16) by zl.
  done.
Qed.

Lemma ranges_ok_app l1 l2 : ranges_ok (l1 ++ l2) <-> ranges_ok l1 /\ ranges_ok l2.
Proof. apply Forall_app. Qed.

(** What [init] leaves behind, on a map that fits the reservation table. *)
Lemma init_pool ps a b m :
  let us := ztake MAX_RANGES (usables ps) in
  let rs := all_reserved ps a b in
  zlen rs <= MAX_RESV -> ranges_ok us -> ranges_ok rs -> disjoint us ->
  exists st m', init ps a b new m = Val (st, m') /\ initialized st = true /\
    live_usable st = us /\ live_reserved st = rs /\
    pool st m' (seeded us rs) (rev (seeded us rs)).
Proof.
  intros us rs Hrs Hoku Hokr Hd. rewrite init_eq. fold rs. rewrite (proj2 (Z.ltb_ge _ _)) by done.
  cbv zeta. fold us. set (st0 := mkPmm _ _ _ _ _ _ _ _).
  assert (zlen us <= 16) as Hu16 by (unfold us, MAX_RANGES; zl).
  unfold MAX_RANGES, MAX_RESV in *. pose proof (zlen_nonneg us). pose proof (zlen_nonneg rs).
  assert (live_usable st0 = us) as Elu by (by apply ztake_app_eq).
  assert (live_reserved st0 = rs) as Elr by (by apply ztake_app_eq).
  destruct (seed_spec st0 m) as (hd & m' & E & Hc);
    [subst st0; cbn; zl | subst st0; cbn; zl | by rewrite ?Elu, ?Elr.. |].
  rewrite E, bind_val. cbv zeta in Hc. rewrite Elu, Elr in *. eexists _, m'. split; [done|].
  split; [done|]. split; [exact Elu|]. split; [exact Elr|].
  constructor; cbn [usable_len usable reserved_len reserved head total_frames free_count st0].
  - split; zl.
  - intros f. unfold live_usable, live_reserved. cbn [usable_len usable reserved_len reserved].
    change (ztake (zlen us) _) with (live_usable st0). change (ztake (zlen rs) _) with (live_reserved st0).
    rewrite Elu, Elr. by apply elem_of_seeded.
  - unfold live_usable, live_reserved. cbn [usable_len usable reserved_len reserved].
    change (ztake (zlen us) _) with (live_usable st0). change (ztake (zlen rs) _) with (live_reserved st0).
    by rewrite Elu, Elr.
  - done.
  - intros f. by rewrite !list_elem_of_In, <-in_rev.
  - apply NoDup_ListNoDup, NoDup_rev, NoDup_ListNoDup. by apply seeded_NoDup.
  - by apply seeded_NoDup.
  - done.
  - unfold zlen. by rewrite length_rev.
Qed.

(** ** Lemmas: the operations on a pool *)

Section pool.
Context (F : list Z).

Lemma pool_set_top st m m' l hd l' :
  pool st m F l -> chain m' hd l' -> (forall f, f ∈ l' -> f ∈ F) -> NoDup l' ->
  pool (set_top st hd (zlen l')) m' F l'.
Proof. intros [] ???. by constructor. Qed.

Lemma alloc_pool st m l : pool st m F l ->
  alloc st m = Val (match l with
                    | [] => (st, None)
                    | x :: l' => (set_top st (m x) (zlen l'), Some x)
                    end) /\
  match l with [] => True | x :: l' => pool (set_top st (m x) (zlen l')) m F l' end.
Proof.
  intros Hp. unfold alloc. pose proof (pool_chain _ _ _ _ Hp) as Hc.
  pose proof (pool_free _ _ _ _ Hp) as Hf. destruct l as [|x l]; cbn [chain] in Hc.
  { by rewrite Hc. }
  destruct Hc as (Hh & Hx & Hc). rewrite Hh. rewrite (proj2 (Z.eqb_neq x 0)) by done.
  rewrite Hf, sub_u_ok, bind_val by zl. replace (zlen (x :: l) - 1) with (zlen l) by zl.
  split; [done|]. apply (pool_set_top st m m (x :: l)); [done..| |].
  - intros f Hfl. apply (pool_sub _ _ _ _ Hp). by right.
  - by eapply NoDup_cons, (pool_nodup _ _ _ _ Hp).
Qed.

(** The buried double free the stack cannot see: [pa] is free, but not on top. *)
Definition buried (l : list Z) (pa : Z) : Prop := pa ∈ tail l /\ zlen l < zlen F.

Lemma free_pool st m l pa : pool st m F l -> ~ buried l pa ->
  if decide (pa ∈ F /\ pa ∉ l) then
    free st m pa = Val (set_top st pa (zlen (pa :: l)), write_link m pa (head st), true) /\
    pool (set_top st pa (zlen (pa :: l))) (write_link m pa (head st)) F (pa :: l)
  else free st m pa = Val (st, m, false).
Proof.
  intros Hp Hb. pose proof (pool_frames _ _ _ _ Hp pa) as HF.
  destruct (pool_len _ _ _ _ Hp) as [Hul Hrl]. destruct (pool_ok _ _ _ _ Hp) as [Huo Hro].
  assert (forall l', NoDup l' -> (forall f, f ∈ l' -> f ∈ F) -> zlen l' <= zlen F) as Hsz.
  { intros l' Hnd Hsub. unfold zlen. apply inj_le, submseteq_length, NoDup_submseteq; auto. }
  assert (zlen F <= 2 ^ 52) as Hsmall.
  { apply frames_bound; [apply Hp | lia |]. intros f (H0 & Ha & Hfit & _)%(pool_frames _ _ _ _ Hp).
    apply fits_iff in Hfit as (r & Hr & H1 & H2). unfold ranges_ok in Huo. rewrite Forall_forall in Huo.
    destruct (Huo r Hr) as [Hb1 Hb2]. pose proof (end_u64 r Hb1 Hb2). unfold FRAME in *. split; [lia|done]. }
  unfold free. rewrite frame_in_usable_eq, is_reserved_frame_eq by done. rewrite !bind_val.
  pose proof (pool_chain _ _ _ _ Hp) as Hc.
  rewrite (pool_total _ _ _ _ Hp), (pool_free _ _ _ _ Hp).
  case_decide as Hd.
  - destruct Hd as [HpF Hpl]. apply HF in HpF as Hu. destruct Hu as (H0 & Ha & Hfit & Ht).
    assert (NoDup (pa :: l)) as Hnd by (apply NoDup_cons; split; [done | apply Hp]).
    assert (forall f, f ∈ pa :: l -> f ∈ F) as Hsub.
    { intros f [->|Hf]%elem_of_cons; [done | by apply (pool_sub _ _ _ _ Hp)]. }
    specialize (Hsz _ Hnd Hsub). rewrite zlen_cons in Hsz.
    rewrite (proj2 (Z.eqb_neq pa 0)), (proj2 (Z.eqb_eq (pa mod FRAME) 0)) by (done || lia).
    cbn [orb negb]. rewrite Hfit, Ht. cbn [negb]. rewrite (proj2 (Z.leb_gt _ _)) by lia.
    assert (head st <> pa) as Hhd.
    { destruct l as [|x l]; cbn [chain] in Hc; [lia|]. destruct Hc as (-> & _). intros ->. apply Hpl. by left. }
    rewrite (proj2 (Z.eqb_neq _ _)) by done. rewrite add_u_ok, bind_val by lia.
    replace (zlen l + 1) with (zlen (pa :: l)) by zl. split; [done|].
    apply (pool_set_top st m _ l); [done| |done..]. apply chain_push; [done | lia | done].
  - destruct (Z.eqb_spec pa 0) as [->|H0]; [done|]. cbn [orb].
    destruct (Z.eqb_spec (pa mod FRAME) 0) as [Ha|]; [|done]. cbn [negb].
    destruct (fits (live_usable st) pa) eqn:Hfit; [|done]. cbn [negb].
    destruct (touches (live_reserved st) pa) eqn:Ht; [done|].
    assert (0 < pa) as Hpos.
    { apply fits_iff in Hfit as (r & Hr & H1 & H2). unfold ranges_ok in Huo. rewrite Forall_forall in Huo.
      destruct (Huo r Hr). unfold in_u in *. lia. }
    assert (pa ∈ F) as HpF by (by apply HF). assert (pa ∈ l) as Hpl.
    { destruct (decide (pa ∈ l)); [done|]. destruct Hd; auto. }
    destruct (Z.leb_spec (zlen F) (zlen l)); [done|].
    destruct (Z.eqb_spec (head st) pa) as [|Hne]; [done|]. exfalso. apply Hb.
    destruct l as [|x l]; [by apply not_elem_of_nil in Hpl|]. cbn [chain] in Hc.
    destruct Hc as (Hhd & _). split; [|done]. cbn [tail].
    apply elem_of_cons in Hpl as [->|]; [|done]. congruence.
Qed.
End pool.

(** ** Histories of calls, and the abstract pool *)

(** [Store pa v]: the holder of the frame [pa] overwrites its first word. *)
Inductive call := Alloc | Free (pa : Z) | Store (pa v : Z).
Inductive answer := Got (pa : option Z) | Freed (ok : bool) | Stored.

Definition step (c : call) (s : PmmState * memory) : res (answer * (PmmState * memory)) :=
  let '(st, m) := s in
  match c with
  | Alloc => '(st, o) ← alloc st m; Val (Got o, (st, m))
  | Free pa => '(st, m, ok) ← free st m pa; Val (Freed ok, (st, m))
  | Store pa v => Val (Stored, (st, write_link m pa v))
  end.

Fixpoint run (cs : list call) (s : PmmState * memory) : res (list answer * (PmmState * memory)) :=
  match cs with
  | [] => Val ([], s)
  | c :: cs' => '(a, s) ← step c s; '(l, s) ← run cs' s; Val (a :: l, s)
  end.

(** The abstract allocator: a stack [l] of the free frames among [F]. *)
Definition pool_step (F : list Z) (c : call) (l : list Z) : answer * list Z :=
  match c with
  | Alloc => match l with [] => (Got None, []) | x :: l' => (Got (Some x), l') end
  | Free pa => if decide (pa ∈ F /\ pa ∉ l) then (Freed true, pa :: l) else (Freed false, l)
  | Store _ _ => (Stored, l)
  end.
Fixpoint pool_run (F : list Z) (cs : list call) (l : list Z) : list answer * list Z :=
  match cs with
  | [] => ([], l)
  | c :: cs' => let '(a, l) := pool_step F c l in let '(r, l) := pool_run F cs' l in (a :: r, l)
  end.

(** A client that writes only to frames it holds and never frees a buried free frame. *)
Definition call_ok (F : list Z) (c : call) (l : list Z) : Prop :=
  match c with Alloc => True | Free pa => ~ buried F l pa | Store pa _ => pa ∉ l end.
Fixpoint calls_ok (F : list Z) (cs : list call) (l : list Z) : Prop :=
  match cs with
  | [] => True
  | c :: cs' => call_ok F c l /\ calls_ok F cs' (snd (pool_step F c l))
  end.

#[global] Instance call_ok_dec F c l : Decision (call_ok F c l).
Proof. destruct c; simpl; unfold buried; apply _. Defined.
#[global] Instance calls_ok_dec F cs l : Decision (calls_ok F cs l).
Proof. revert l. induction cs; intros l; simpl; apply _. Defined.

Lemma step_pool F st m l c : pool st m F l -> call_ok F c l ->
  exists st' m', step c (st, m) = Val (fst (pool_step F c l), (st', m')) /\
    pool st' m' F (snd (pool_step F c l)).
Proof.
  intros Hp Hok. destruct c as [|pa|pa v]; cbn [step pool_step].
  - destruct (alloc_pool F st m l Hp) as [-> H]. rewrite bind_val. destruct l; eauto.
  - pose proof (free_pool F st m l pa Hp Hok) as H. case_decide.
    + destruct H as [-> H]. rewrite bind_val. eauto.
    + rewrite H, bind_val. eauto.
  - eexists _, _. split; [done|]. destruct Hp. constructor; try done. by apply chain_write.
Qed.

Lemma run_pool F cs st m l : pool st m F l -> calls_ok F cs l ->
  exists st' m', run cs (st, m) = Val (fst (pool_run F cs l), (st', m')) /\
    pool st' m' F (snd (pool_run F cs l)).
Proof.
  revert st m l. induction cs as [|c cs IH]; intros st m l Hp Hok; [by exists st, m|].
  destruct Hok as [Hc Hok]. cbn [run pool_run].
  destruct (step_pool F st m l c Hp Hc) as (st' & m' & -> & Hp'). rewrite bind_val.
  destruct (pool_step F c l) as [a l1]. cbn [fst snd] in *.
  destruct (IH st' m' l1 Hp' Hok) as (st2 & m2 & -> & Hp2). rewrite bind_val.
  destruct (pool_run F cs l1) as [r l2]. cbn [fst snd] in *. eauto.
Qed.

Lemma touches_iff rs f : f + FRAME < 2 ^ 64 ->
  touches rs f = false <-> forall r, r ∈ rs -> end_ r <= f \/ f + FRAME <= base r.
Proof.
  intros Hf. unfold touches. rewrite <-not_true_iff_false, existsb_exists.
  assert (saturating_add 64 f FRAME = f + FRAME) as -> by (unfold saturating_add, u_max; lia).
  split.
  - intros Hno r Hr. destruct (decide (end_ r <= f \/ f + FRAME <= base r)); [done|].
    destruct Hno. exists r. split; [by apply list_elem_of_In | lia].
  - intros Hall (r & Hr%list_elem_of_In & H). specialize (Hall r Hr). lia.
Qed.

(** ** Properties *)

(** Boot seeds the stack with exactly the frames it may hand out.  From the ranges the map
    reader reports (the first 16 usable ones, pairwise disjoint) and all the reservations plus
    the kernel image, [init] never panics and leaves free, once each and counted exactly, the
    aligned non-zero frames that lie inside one usable range and touch no reservation; more
    than 64 reservations leave an empty allocator that answers [None]; and a second [init] is
    a no-op. *)
Theorem pmm_seeds_exactly_the_usable_frames (ps : list push) (a b : Z) (m : memory) :
  let us := ztake MAX_RANGES (usables ps) in
  let rs := all_reserved ps a b in
  forall (Hus : ranges_ok us) (Hrs : ranges_ok rs) (Hd : disjoint us),
  exists st m', init ps a b new m = Val (st, m') /\
    (forall ps' a' b', init ps' a' b' st m' = Val (st, m')) /\
    (MAX_RESV < zlen rs -> total_frames st = 0 /\ free_count st = 0 /\ alloc st m' = Val (st, None)) /\
    (zlen rs <= MAX_RESV -> exists F,
       pool st m' F (rev F) /\ NoDup F /\ total_frames st = zlen F /\ free_count st = zlen F /\
       forall f, f ∈ F <->
         0 < f /\ f mod FRAME = 0 /\ (exists r, r ∈ us /\ base r <= f /\ f + FRAME <= end_ r) /\
         (forall r, r ∈ rs -> end_ r <= f \/ f + FRAME <= base r)).
Proof.
  intros us rs Hus Hrs Hd. destruct (decide (MAX_RESV < zlen rs)) as [Hgt|Hle].
  - eexists _, m. split; [rewrite init_eq; fold rs; by rewrite (proj2 (Z.ltb_lt _ _))|].
    split; [done|]. split; [done|]. lia.
  - destruct (init_pool ps a b m) as (st & m' & E & Hi & Hlu & Hlr & Hp); [by apply Z.nlt_ge | done..|].
    exists st, m'. split; [done|]. split; [intros; unfold init; by rewrite Hi|]. split; [lia|].
    intros _. exists (seeded us rs). split; [done|]. split; [apply Hp|]. split; [apply Hp|].
    split; [rewrite (pool_free _ _ _ _ Hp); unfold zlen; by rewrite length_rev|].
    intros f. rewrite elem_of_seeded by done. unfold usable_frame. rewrite fits_iff.
    assert ((exists r, r ∈ us /\ base r <= f /\ f + FRAME <= end_ r) -> f + FRAME < 2 ^ 64) as Hlt.
    { intros (r & Hr & _ & H). unfold ranges_ok in Hus. rewrite Forall_forall in Hus.
      destruct (Hus r Hr) as [Hb Hl]. pose proof (end_u64 r Hb Hl). lia. }
    split; intros (? & ? & Hf & Ht); (split_and!; [done..|]); apply Hlt in Hf; by apply touches_iff.
Qed.

(** C33: the intrusive stack is a frame pool.  For every history of allocations, frees and
    stores by a client that stores only into frames it holds (it never frees a frame that is
    already free below the top, the misuse the O(1) stack cannot see), the allocator never
    panics and answers as the abstract pool: an allocation returns the most recently freed
    frame, or [None] exactly when every frame is held; a free succeeds exactly for a held frame
    of the pool, and every other address (misaligned, null, reserved, out of range, or free) is
    refused without a change.  The pool keeps its invariant, so no frame is held twice. *)
Theorem pmm_refines_frame_pool (F l : list Z) (st : PmmState) (m : memory) (cs : list call)
    (Hp : pool st m F l) (Hcs : calls_ok F cs l) :
  exists st' m', run cs (st, m) = Val (fst (pool_run F cs l), (st', m')) /\
    pool st' m' F (snd (pool_run F cs l)).
Proof. by apply run_pool. Qed.

(** The seeding does not deduplicate.  A boot map that reports one frame in two usable
    ranges seeds it twice: the count is two and two allocations in a row return the same
    frame. *)
Theorem pmm_overlapping_ranges_alias :
  exists st m' st1 st2,
    init [Usable 4096 4096; Usable 4096 4096] 0 0 new (fun _ => 0) = Val (st, m') /\
    total_frames st = 2 /\
    alloc st m' = Val (st1, Some 4096) /\ alloc st1 m' = Val (st2, Some 4096).
Proof. do 4 eexists. split; [reflexivity|]. split_and!; reflexivity. Qed.

(** ** Witnesses *)

(** Two usable ranges, one reservation inside the first, the image at the second's start. *)
Definition demo_map : list push :=
  [Usable 4096 20480; Reserved 8192 100; Usable 65536 12288; Reserved 0 0].
Definition demo_pool : PmmState * memory :=
  match init demo_map 65536 65600 new (fun _ => 0) with Val s => s | Panic => (new, fun _ => 0) end.

Lemma demo_disjoint : disjoint (ztake MAX_RANGES (usables demo_map)).
Proof.
  change (disjoint [mkRange 4096 20480; mkRange 65536 12288]). split; [|split; [constructor | done]].
  apply Forall_singleton. left. vm_compute. congruence.
Qed.

Lemma pmm_seeds_exactly_the_usable_frames_witness :
  exists st m', init demo_map 65536 65600 new (fun _ => 0) = Val (st, m') /\
    exists F, total_frames st = zlen F /\ 4096 ∈ F.
Proof.
  destruct (pmm_seeds_exactly_the_usable_frames demo_map 65536 65600 (fun _ => 0))
    as (st & m' & E & _ & _ & H).
  - repeat (apply Forall_cons; split; [split; unfold in_u; simpl; lia|]). apply Forall_nil_2.
  - repeat (apply Forall_cons; split; [split; unfold in_u; simpl; lia|]). apply Forall_nil_2.
  - exact demo_disjoint.
  - exists st, m'. split; [exact E|]. destruct H as (F & _ & _ & Ht & _ & HF); [vm_compute; congruence|].
    exists F. split; [exact Ht|]. apply HF. split_and!; [lia | reflexivity | |].
    + exists (mkRange 4096 20480). split; [left | vm_compute; split; congruence].
    + intros r Hr. change (r ∈ [mkRange 8192 100; mkRange 65536 64]) in Hr.
      rewrite !elem_of_cons in Hr.
      destruct Hr as [-> | [-> | Hr]]; [right | right | by apply not_elem_of_nil in Hr];
        vm_compute; congruence.
Defined.

Lemma demo_pool_ok : pool (fst demo_pool) (snd demo_pool) [4096; 12288; 16384; 20480; 69632; 73728]
  [73728; 69632; 20480; 16384; 12288; 4096].
Proof.
  destruct (init_pool demo_map 65536 65600 (fun _ => 0)) as (st & m' & E & _ & _ & _ & Hp).
  - vm_compute. congruence.
  - repeat (apply Forall_cons; split; [split; unfold in_u; simpl; lia|]). apply Forall_nil_2.
  - repeat (apply Forall_cons; split; [split; unfold in_u; simpl; lia|]). apply Forall_nil_2.
  - exact demo_disjoint.
  - unfold demo_pool. rewrite E. exact Hp.
Qed.

Lemma pmm_refines_frame_pool_witness :
  exists st' m',
    run [Alloc; Store 73728 5; Alloc; Free 73728; Free 8192; Free 73728; Alloc] demo_pool =
      Val ([Got (Some 73728); Stored; Got (Some 69632); Freed true; Freed false; Freed false;
            Got (Some 73728)], (st', m')).
Proof.
  destruct (pmm_refines_frame_pool [4096; 12288; 16384; 20480; 69632; 73728]
    [73728; 69632; 20480; 16384; 12288; 4096] (fst demo_pool) (snd demo_pool)
    [Alloc; Store 73728 5; Alloc; Free 73728; Free 8192; Free 73728; Alloc] demo_pool_ok)
    as (st' & m' & E & _).
  - apply (bool_decide_unpack _). vm_compute. exact I.
  - exists st', m'. exact E.
Defined.
