(* ===== verification/Heap.v ===== *)
(** * Kernel heap: [crates/tb-hal/src/heap.rs].

    The intrusive, address-ordered free list with two-sided coalescing, first-fit
    allocation with front and back splitting, and the grow-on-miss window.  Memory holds the
    free-block headers by address; dereferencing an address that holds none is a [Panic], so
    a theorem that an operation returns a [Val] says it only follows links to headers.  The
    page mapper of the architecture is an argument of [grow]. *)
From Stdlib Require Import ZArith Lia.
From stdpp Require Import base numbers option tactics sets list gmap.
From S2P Require Import Prelude.
Open Scope Z_scope.

Definition ARENA_BYTES : Z := 2 * 1024 * 1024.
Definition PAGE : Z := 4096.
Definition GROW_CHUNK_PAGES : Z := 256.

(** The in-place header of a free region; [next] is 0 at the tail. *)
Record FreeBlock := mkBlk { size : Z; next : Z }.
Definition MIN_BLOCK : Z := 16.
Definition HEADER_ALIGN : Z := 8.

Abbreviation memory := (gmap Z FreeBlock).
Definition deref (m : memory) (p : Z) : res FreeBlock :=
  match m !! p with Some h => Val h | None => Panic end.

(** A requested size and alignment. *)
Record Layout := mkLayout { l_size : Z; l_align : Z }.

Definition align_up_checked (addr align : Z) : option Z :=
  match checked_add 64 addr (align - 1) with
  | None => None
  | Some s => Some (Z.land s (bit_not 64 (align - 1)))
  end.

Definition required (layout : Layout) : option (Z * Z) :=
  let align := if HEADER_ALIGN <? l_align layout then l_align layout else HEADER_ALIGN in
  let raw := if MIN_BLOCK <? l_size layout then l_size layout else MIN_BLOCK in
  match align_up_checked raw HEADER_ALIGN with
  | None => None
  | Some size => Some (size, align)
  end.

(** The back half of [fit]: the end and the tail gap. *)
Definition fit_tail (block_start block_size size alloc_start front : Z) : res (option (Z * Z)) :=
  match checked_add 64 alloc_start size with
  | None => Val None
  | Some alloc_end =>
      block_end ← add_u 64 block_start block_size;
      if block_end <? alloc_end then Val None else
      back ← sub_u block_end alloc_end;
      if negb (back =? 0) && (back <? MIN_BLOCK) then Val None else Val (Some (alloc_start, front))
  end.

Definition fit (block_start block_size size align : Z) : res (option (Z * Z)) :=
  match align_up_checked block_start align with
  | None => Val None
  | Some alloc_start =>
      front ← sub_u alloc_start block_start;
      if negb (front =? 0) && (front <? MIN_BLOCK) then
        match checked_add 64 block_start MIN_BLOCK with
        | None => Val None
        | Some s =>
            match align_up_checked s align with
            | None => Val None
            | Some alloc_start =>
                front ← sub_u alloc_start block_start;
                fit_tail block_start block_size size alloc_start front
            end
        end
      else fit_tail block_start block_size size alloc_start front
  end.

Record HeapState := mkHeap {
  head : Z;
  arena_start : Z;
  arena_size : Z;
  initialized : bool;
  used : Z;
  high_water : Z;
  window_enabled : bool;
  window_base : Z;
  window_next : Z;
  window_end : Z;
  window_bytes : Z;
}.

Definition new : HeapState := mkHeap 0 0 0 false 0 0 false 0 0 0 0.

Definition set_head (st : HeapState) (h : Z) : HeapState :=
  mkHeap h (arena_start st) (arena_size st) (initialized st) (used st) (high_water st)
    (window_enabled st) (window_base st) (window_next st) (window_end st) (window_bytes st).
Definition set_used (st : HeapState) (u hw : Z) : HeapState :=
  mkHeap (head st) (arena_start st) (arena_size st) (initialized st) u hw
    (window_enabled st) (window_base st) (window_next st) (window_end st) (window_bytes st).
Definition set_window (st : HeapState) (n b : Z) : HeapState :=
  mkHeap (head st) (arena_start st) (arena_size st) (initialized st) (used st) (high_water st)
    (window_enabled st) (window_base st) n (window_end st) b.

(** [while !cur.is_null() && cur < addr { prev = cur; cur = cur.next }] *)
Fixpoint find_prev (fuel : nat) (m : memory) (addr prev cur : Z) : res (Z * Z) :=
  if negb (cur =? 0) && (cur <? addr) then
    match fuel with
    | O => Panic
    | S fuel' => h ← deref m cur; find_prev fuel' m addr cur (next h)
    end
  else Val (prev, cur).

(** A list visits each header at most once, so the number of headers is enough fuel. *)
Definition list_fuel (m : memory) : nat := S (base.size m).

(** Coalesce forward: node + cur if they abut. *)
Definition join_next (m : memory) (addr sz cur : Z) : res memory :=
  abut ← (if cur =? 0 then Val false else e ← add_u 64 addr sz; Val (e =? cur));
  if (abut : bool) then
    hn ← deref m addr; hc ← deref m cur;
    s ← add_u 64 (size hn) (size hc);
    Val (<[addr := mkBlk s (next hc)]> m)
  else Val m.

(** Coalesce backward: prev + node if they abut. *)
Definition join_prev (m : memory) (prev addr : Z) : res memory :=
  if prev =? 0 then Val m
  else
    hp ← deref m prev;
    e ← add_u 64 prev (size hp);
    if e =? addr then
      hn ← deref m addr;
      s ← add_u 64 (size hp) (size hn);
      Val (<[prev := mkBlk s (next hn)]> m)
    else Val m.

Definition insert_free_region (st : HeapState) (m : memory) (addr sz : Z)
  : res (HeapState * memory) :=
  '(prev, cur) ← find_prev (list_fuel m) m addr 0 (head st);
  let node := addr in
  let m := <[node := mkBlk sz cur]> m in
  '(st, m) ← (if prev =? 0 then Val (set_head st node, m)
              else h ← deref m prev; Val (st, <[prev := mkBlk (size h) node]> m));
  m ← join_next m addr sz cur;
  m ← join_prev m prev addr;
  Val (st, m).

Definition init (st : HeapState) (m : memory) (start sz : Z) : res (HeapState * memory) :=
  if initialized st then Val (st, m) else
  match align_up_checked start HEADER_ALIGN with
  | None => Val (st, m)
  | Some aligned =>
      lost ← sub_u aligned start;
      rest ← sub_u sz lost;
      let usable := Z.land rest (bit_not 64 (HEADER_ALIGN - 1)) in
      let st := mkHeap 0 aligned usable true 0 0 (window_enabled st) (window_base st)
                  (window_next st) (window_end st) (window_bytes st) in
      if MIN_BLOCK <=? usable then insert_free_region st m aligned usable else Val (st, m)
  end.

(** The first-fit pass from [cur] on, [prev] being the block before it. *)
Fixpoint try_fit_from (fuel : nat) (st : HeapState) (m : memory) (sz align prev cur : Z)
  : res (HeapState * memory * option Z) :=
  if cur =? 0 then Val (st, m, None)
  else
    match fuel with
    | O => Panic
    | S fuel' =>
        h ← deref m cur;
        f ← fit cur (size h) sz align;
        match f with
        | Some (alloc_start, front) =>
            '(st, m) ← (if prev =? 0 then Val (set_head st (next h), m)
                        else hp ← deref m prev; Val (st, <[prev := mkBlk (size hp) (next h)]> m));
            block_end ← add_u 64 cur (size h);
            alloc_end ← add_u 64 alloc_start sz;
            '(st, m) ← (if negb (front =? 0) then insert_free_region st m cur front else Val (st, m));
            back ← sub_u block_end alloc_end;
            '(st, m) ← (if negb (back =? 0) then insert_free_region st m alloc_end back
                        else Val (st, m));
            u ← add_u 64 (used st) sz;
            Val (set_used st u (if high_water st <? u then u else high_water st), m, Some alloc_start)
        | None => try_fit_from fuel' st m sz align cur (next h)
        end
    end.

Definition try_fit (st : HeapState) (m : memory) (sz align : Z)
  : res (HeapState * memory * option Z) :=
  try_fit_from (list_fuel m) st m sz align 0 (head st).

Definition window_init (st : HeapState) (b sz : Z) : HeapState :=
  if window_enabled st then st
  else mkHeap (head st) (arena_start st) (arena_size st) (initialized st) (used st)
         (high_water st) true b b (saturating_add 64 b sz) 0.

(** What the heap asks of the architecture: where its window lies, and a mapper that backs
    one page of it with a frame or reports that the frames ran out.  The promise, on the
    states of the machine that are well formed, is that mapping a page of the window does
    not panic and leaves the machine well formed. *)
Class PageMapper (Env : Type) := {
  heap_window : Z * Z;
  map_one_heap_page : Env -> Z -> res (bool * Env);
  mapper_ok : Env -> Prop;
  heap_window_ok : 0 < fst heap_window /\ (PAGE | fst heap_window) /\ 0 <= snd heap_window /\
    fst heap_window + snd heap_window < 2 ^ 64;
  mapper_runs : forall env va, mapper_ok env -> (PAGE | va) ->
    fst heap_window <= va < fst heap_window + snd heap_window ->
    runs (map_one_heap_page env va) (fun r => mapper_ok (snd r));
}.

Section mapper.
Context {Env : Type} `{PageMapper Env}.

(** [while mapped < n { va = ..; if !map_one_heap_page(va) { break } mapped += 1 }] *)
Fixpoint map_heap_frames (k : nat) (env : Env) (start_va mapped : Z) : res (Z * Env) :=
  match k with
  | O => Val (mapped, env)
  | S k' =>
      va ← add_u 64 start_va (mapped * PAGE);
      '(ok, env) ← map_one_heap_page env va;
      if (ok : bool) then map_heap_frames k' env start_va (mapped + 1) else Val (mapped, env)
  end.

Definition grow (st : HeapState) (m : memory) (env : Env) (min_bytes : Z)
  : res (HeapState * memory * Env * bool) :=
  if negb (window_enabled st) then Val (st, m, env, false) else
  let remaining := Z.max 0 (window_end st - window_next st) in
  if remaining <? PAGE then Val (st, m, env, false) else
  sum ← add_u 64 min_bytes PAGE; sum ← sub_u sum 1;
  let need_pages := sum / PAGE in
  let want_pages := if GROW_CHUNK_PAGES <? need_pages then need_pages else GROW_CHUNK_PAGES in
  let room_pages := remaining / PAGE in
  let req_pages := if room_pages <? want_pages then room_pages else want_pages in
  if req_pages =? 0 then Val (st, m, env, false) else
  '(mapped, env) ← map_heap_frames (Z.to_nat req_pages) env (window_next st) 0;
  if mapped =? 0 then Val (st, m, env, false) else
  let bytes := mapped * PAGE in
  let region := window_next st in
  n ← add_u 64 (window_next st) bytes;
  b ← add_u 64 (window_bytes st) bytes;
  '(st, m) ← insert_free_region (set_window st n b) m region bytes;
  Val (st, m, env, true).

(** First fit, else grow and retry.  Every successful grow moves the window cursor by at
    least a page, so the pages left in the window bound the retries. *)
Fixpoint alloc_loop (fuel : nat) (st : HeapState) (m : memory) (env : Env) (sz align : Z)
  : res (HeapState * memory * Env * Z) :=
  match fuel with
  | O => Panic
  | S fuel' =>
      '(st, m, o) ← try_fit st m sz align;
      match (o : option Z) with
      | Some ptr => Val (st, m, env, ptr)
      | None =>
          '(st, m, env, grown) ← grow st m env sz;
          if (grown : bool) then alloc_loop fuel' st m env sz align else Val (st, m, env, 0)
      end
  end.

Definition retry_fuel (st : HeapState) : nat :=
  S (Z.to_nat (Z.max 0 (window_end st - window_next st) / PAGE)).

Definition alloc (st : HeapState) (m : memory) (env : Env) (layout : Layout)
  : res (HeapState * memory * Env * Z) :=
  match required layout with
  | None => Val (st, m, env, 0)
  | Some (sz, align) => alloc_loop (retry_fuel st) st m env sz align
  end.
End mapper.

Definition dealloc (st : HeapState) (m : memory) (ptr : Z) (layout : Layout)
  : res (HeapState * memory) :=
  if ptr =? 0 then Val (st, m) else
  match required layout with
  | None => Val (st, m)
  | Some (sz, _) =>
      '(st, m) ← insert_free_region st m ptr sz;
      Val (set_used st (Z.max 0 (used st - sz)) (high_water st), m)
  end.

(** ** Specification: the free list as a set of regions *)

Abbreviation block := (Z * Z)%type.

(** The links from [h] to [e] spell the blocks [bs]. *)
Fixpoint lseg (m : memory) (h : Z) (bs : list block) (e : Z) : Prop :=
  match bs with
  | [] => h = e
  | (a, n) :: t => h = a /\ exists nx, m !! a = Some (mkBlk n nx) /\ lseg m nx t e
  end.

Definition blk_ok (a n : Z) : Prop :=
  0 < a /\ a mod 8 = 0 /\ n mod 8 = 0 /\ MIN_BLOCK <= n /\ a + n < 2 ^ 64.

(** Blocks above [lo], ascending, never touching one another. *)
Fixpoint wf_from (lo : Z) (bs : list block) : Prop :=
  match bs with
  | [] => True
  | (a, n) :: t => lo < a /\ blk_ok a n /\ wf_from (a + n) t
  end.
Fixpoint last_end (lo : Z) (bs : list block) : Z :=
  match bs with [] => lo | (a, n) :: t => last_end (a + n) t end.
Fixpoint last_addr (p : Z) (bs : list block) : Z :=
  match bs with [] => p | (a, _) :: t => last_addr a t end.

(** The byte [x] lies in one of the regions. *)
Fixpoint covers (bs : list block) (x : Z) : Prop :=
  match bs with [] => False | (a, n) :: t => a <= x < a + n \/ covers t x end.
Fixpoint total (bs : list block) : Z :=
  match bs with [] => 0 | (_, n) :: t => n + total t end.

(** The free list of a state. *)
Definition free_list (st : HeapState) (m : memory) (bs : list block) : Prop :=
  lseg m (head st) bs 0 /\ wf_from 0 bs.

(** ** Lemmas: regions *)

Lemma last_end_ge lo bs : wf_from lo bs -> lo <= last_end lo bs.
Proof.
  revert lo. induction bs as [|[a n] t IH]; intros lo H; cbn in *; [lia|].
  destruct H as (? & (? & _ & _ & ? & _) & H). apply IH in H. unfold MIN_BLOCK in *. lia.
Qed.

Lemma wf_app lo l1 l2 : wf_from lo (l1 ++ l2) <-> wf_from lo l1 /\ wf_from (last_end lo l1) l2.
Proof. revert lo. induction l1 as [|[a n] t IH]; intros lo; cbn; [tauto|]. rewrite IH. tauto. Qed.

Lemma last_end_app lo l1 l2 : last_end lo (l1 ++ l2) = last_end (last_end lo l1) l2.
Proof. revert lo. induction l1 as [|[a n] t IH]; intros lo; cbn; [done|]. apply IH. Qed.

Lemma wf_weaken lo lo' bs : lo' <= lo -> wf_from lo bs -> wf_from lo' bs.
Proof. destruct bs as [|[a n] t]; cbn; [done|]. intros ? (? & ? & ?). split; [lia | done]. Qed.

Lemma covers_app l1 l2 x : covers (l1 ++ l2) x <-> covers l1 x \/ covers l2 x.
Proof. induction l1 as [|[a n] t IH]; cbn; [tauto|]. rewrite IH. tauto. Qed.

Lemma covers_bounds lo bs x : wf_from lo bs -> covers bs x -> lo < x < last_end lo bs.
Proof.
  revert lo. induction bs as [|[a n] t IH]; intros lo Hw Hc; cbn in *; [done|].
  destruct Hw as (Hlo & (Ha & _ & _ & Hn & _) & Hw). unfold MIN_BLOCK in *. destruct Hc as [Hc|Hc].
  - apply last_end_ge in Hw. lia.
  - pose proof (IH _ Hw Hc). lia.
Qed.

Lemma total_app l1 l2 : total (l1 ++ l2) = total l1 + total l2.
Proof. induction l1 as [|[a n] t IH]; cbn; lia. Qed.
Lemma total_nonneg lo bs : wf_from lo bs -> 0 <= total bs.
Proof.
  revert lo. induction bs as [|[a n] t IH]; intros lo H; cbn in *; [lia|].
  destruct H as (_ & (_ & _ & _ & ? & _) & H). pose proof (IH _ H). unfold MIN_BLOCK in *. lia.
Qed.

(** A coalesced list is determined by the bytes it covers. *)
Lemma wf_ext lo1 lo2 l1 l2 : wf_from lo1 l1 -> wf_from lo2 l2 ->
  (forall x, covers l1 x <-> covers l2 x) -> l1 = l2.
Proof.
  revert lo1 lo2 l2. induction l1 as [|[a n] t IH]; intros lo1 lo2 l2 H1 H2 Hx.
  { destruct l2 as [|[b k] u]; [done|]. destruct H2 as (_ & (? & _ & _ & ? & _) & _).
    unfold MIN_BLOCK in *. destruct (proj2 (Hx b)). cbn. left. lia. }
  destruct l2 as [|[b k] u].
  { destruct H1 as (_ & (? & _ & _ & ? & _) & _). unfold MIN_BLOCK in *. destruct (proj1 (Hx a)). cbn. left. lia. }
  cbn in H1, H2. destruct H1 as (L1 & (A1 & _ & _ & N1 & _) & W1), H2 as (L2 & (A2 & _ & _ & N2 & _) & W2).
  unfold MIN_BLOCK in *.
  assert (forall x, covers t x -> a + n < x) as C1 by (intros x Hc; by apply (covers_bounds _ _ _ W1)).
  assert (forall x, covers u x -> b + k < x) as C2 by (intros x Hc; by apply (covers_bounds _ _ _ W2)).
  cbn in Hx.
  assert (a = b) as ->.
  { assert (a <= a < a + n) as Ha by lia. assert (b <= b < b + k) as Hb by lia.
    destruct (proj1 (Hx a) (or_introl Ha)) as [H1|H1%C2];
      destruct (proj2 (Hx b) (or_introl Hb)) as [H2|H2%C1]; lia. }
  assert (n = k) as ->.
  { destruct (Z.lt_trichotomy n k) as [Hlt|[|Hlt]]; [|done|].
    - assert (b <= b + n < b + k) as Hb by lia.
      destruct (proj2 (Hx (b + n)) (or_introl Hb)) as [?|Hc]; [lia|]. apply C1 in Hc. lia.
    - assert (b <= b + k < b + n) as Hb by lia.
      destruct (proj1 (Hx (b + k)) (or_introl Hb)) as [?|Hc]; [lia|]. apply C2 in Hc. lia. }
  f_equal. apply (IH (b + k) (b + k)); [done..|]. intros x. split; intros Hc.
  - pose proof (C1 x Hc). destruct (proj1 (Hx x) (or_intror Hc)); [lia|done].
  - pose proof (C2 x Hc). destruct (proj2 (Hx x) (or_intror Hc)); [lia|done].
Qed.

(** ** Lemmas: list segments *)

Lemma lseg_app m h l1 l2 e : lseg m h (l1 ++ l2) e <-> exists c, lseg m h l1 c /\ lseg m c l2 e.
Proof.
  revert h. induction l1 as [|[a n] t IH]; intros h; cbn.
  - split; [intros H; by exists h | by intros (c & -> & H)].
  - setoid_rewrite IH. split.
    + intros (-> & nx & Hm & c & H1 & H2). eauto 10.
    + intros (c & (-> & nx & Hm & H1) & H2). eauto 10.
Qed.

(** Headers outside the segment do not matter. *)
Lemma lseg_ext m m' h bs e : (forall a n, (a, n) ∈ bs -> m' !! a = m !! a) ->
  lseg m h bs e -> lseg m' h bs e.
Proof.
  revert h. induction bs as [|[a n] t IH]; intros h Hm; cbn; [done|].
  intros (-> & nx & Ha & H). split; [done|]. exists nx. rewrite (Hm a n) by left.
  split; [done|]. apply IH; [|done]. intros b k Hb. apply (Hm b k). by right.
Qed.

Lemma wf_elem lo bs a n : wf_from lo bs -> (a, n) ∈ bs -> lo < a /\ blk_ok a n /\ a + n <= last_end lo bs.
Proof.
  revert lo. induction bs as [|[b k] t IH]; intros lo Hw Hin; [by apply not_elem_of_nil in Hin|].
  cbn in *. destruct Hw as (Hlo & Hok & Hw). apply elem_of_cons in Hin as [[= -> ->]|Hin].
  - pose proof (last_end_ge _ _ Hw). done.
  - apply (IH (b + k)) in Hin; [|done]. destruct Hok as (_ & _ & _ & ? & _). unfold MIN_BLOCK in *.
    destruct Hin as (? & ? & ?). split; [lia | done].
Qed.

Lemma covers_elem bs a n : (a, n) ∈ bs -> 0 < n -> covers bs a.
Proof.
  induction bs as [|[b k] t IH]; intros Hin Hn; [by apply not_elem_of_nil in Hin|].
  apply elem_of_cons in Hin as [[= -> ->]|Hin]; [left; lia | right; auto].
Qed.

(** The headers of a list are distinct, so their number bounds its length. *)
Lemma lseg_length m h bs e lo : lseg m h bs e -> wf_from lo bs -> (length bs <= base.size m)%nat.
Proof.
  intros Hl Hw.
  assert (NoDup bs.*1) as Hnd.
  { clear Hl h e. revert lo Hw. induction bs as [|[a n] t IH]; intros lo Hw; cbn in *; [constructor|].
    destruct Hw as (Hlo & (_ & _ & _ & ? & _) & Hw). apply NoDup_cons. split; [|by eapply IH].
    intros Hin. apply list_elem_of_fmap in Hin as ([b k] & -> & Hin). cbn in *.
    apply (wf_elem _ _ _ _ Hw) in Hin. unfold MIN_BLOCK in *. lia. }
  assert ((list_to_set bs.*1 : gset Z) ⊆ dom m) as Hsub.
  { clear Hnd Hw. revert h Hl. induction bs as [|[a n] t IH]; intros h Hl; cbn in *; [set_solver|].
    destruct Hl as (-> & nx & Ha & Hl). apply IH in Hl. apply elem_of_dom_2 in Ha. set_solver. }
  apply subseteq_size in Hsub. rewrite (size_dom (D:=gset Z) m), size_list_to_set, length_fmap in Hsub by done. done.
Qed.

Lemma deref_eq m p h : m !! p = Some h -> deref m p = Val h.
Proof. intros E. unfold deref. by rewrite E. Qed.

(** ** Insertion *)

Lemma find_prev_spec m addr bs : forall fuel h lo prev,
  lseg m h bs 0 -> wf_from lo bs -> 0 <= lo -> (length bs <= fuel)%nat ->
  ~ covers bs addr ->
  exists l1 l2 c, bs = l1 ++ l2 /\ lseg m h l1 c /\ lseg m c l2 0 /\
    find_prev fuel m addr prev h = Val (last_addr prev l1, c) /\
    (l1 = [] \/ last_end lo l1 <= addr) /\ wf_from addr l2.
Proof.
  induction bs as [|[a n] t IH]; intros fuel h lo prev Hl Hw Hlo Hf Hx; cbn in Hl.
  { subst h. exists [], [], 0. destruct fuel; cbn; auto 10. }
  destruct Hl as (-> & nx & Ha & Hl). cbn in Hw, Hf. destruct Hw as (Hla & Hok & Hw).
  pose proof Hok as (? & _ & _ & Hn & _). unfold MIN_BLOCK in Hn.
  assert (~ a <= addr < a + n) as Hna by (intros Hc; apply Hx; by left).
  destruct (Z.ltb_spec a addr) as [Hlt|Hge].
  - destruct fuel as [|fuel]; [lia|].
    destruct (IH fuel nx (a + n) a Hl Hw) as (l1 & l2 & c & -> & H1 & H2 & E & Hend & Hw2);
      [lia | lia | intros Hc; apply Hx; by right |].
    exists ((a, n) :: l1), l2, c. split; [done|]. split; [cbn; eauto|]. split; [done|].
    split; [|split; [right; cbn|done]].
    + cbn [find_prev]. rewrite (proj2 (Z.eqb_neq a 0)), (proj2 (Z.ltb_lt a addr)) by lia.
      cbn. by rewrite (deref_eq _ _ _ Ha), bind_val.
    + destruct Hend as [->|]; cbn; lia.
  - exists [], ((a, n) :: t), a. split; [done|]. split; [done|]. split; [cbn; eauto|].
    split; [|split; [by left|]].
    + destruct fuel; cbn; rewrite (proj2 (Z.ltb_ge a addr)) by lia; by rewrite andb_false_r.
    + cbn. split; [|done]. destruct (Z.eq_dec a addr); lia.
Qed.

Lemma join_next_spec m a n c l :
  m !! a = Some (mkBlk n c) -> lseg m c l 0 -> blk_ok a n -> wf_from (a + n - 1) l ->
  exists n' nx l', join_next m a n c = Val (<[a := mkBlk n' nx]> m) /\ lseg m nx l' 0 /\
    blk_ok a n' /\ wf_from (a + n') l' /\ n <= n' /\
    (forall x, covers ((a, n') :: l') x <-> covers ((a, n) :: l) x) /\
    total ((a, n') :: l') = total ((a, n) :: l).
Proof.
  intros Ha Hl (H0 & A8 & N8 & Hn & Hb) Hw. pose proof Hn as Hn'. unfold MIN_BLOCK in Hn'. unfold join_next.
  destruct l as [|[b k] t].
  { cbn in Hl. subst c. exists n, 0, []. rewrite insert_id by done. by cbn. }
  cbn in Hl. destruct Hl as (-> & nx & Hb' & Hl). cbn in Hw. destruct Hw as (Hlo & Hok & Hw).
  pose proof Hok as (_ & B8 & K8 & Hk & Hbk). unfold MIN_BLOCK in Hk.
  rewrite (proj2 (Z.eqb_neq b 0)), add_u_ok, !bind_val by lia.
  destruct (Z.eqb_spec (a + n) b) as [E|Hne].
  - exists (n + k), nx, t. rewrite (deref_eq _ _ _ Ha), bind_val, (deref_eq _ _ _ Hb'), bind_val. cbn [size].
    rewrite add_u_ok, bind_val by lia. split; [done|]. split; [done|].
    split; [unfold blk_ok, MIN_BLOCK; rewrite Zplus_mod, N8, K8; repeat split; lia|].
    split; [by rewrite Z.add_assoc, E|]. split; [lia|]. split; [|cbn; lia].
    intros x. cbn. split; [intros [?|?]; [|tauto] | intros [?|[?|?]]; [left; lia | left; lia | tauto]].
    destruct (Z.lt_ge_cases x b); [left; lia | right; left; lia].
  - exists n, b, ((b, k) :: t). rewrite insert_id by done. split; [done|]. split; [cbn; eauto|].
    split; [done|]. split; [cbn; split; [lia | done]|]. done.
Qed.

Lemma set_head_id st : set_head st (head st) = st.
Proof. by destruct st. Qed.

(** What an insertion promises: it does not leave the list, the free bytes are joined by
    the region's, and no other memory is written. *)
Definition inserted (st : HeapState) (m : memory) (addr n : Z) (bs : list block)
  (r : HeapState * memory) : Prop :=
  exists h' bs', fst r = set_head st h' /\ free_list (fst r) (snd r) bs' /\
    (forall x, covers bs' x <-> addr <= x < addr + n \/ covers bs x) /\
    total bs' = n + total bs /\
    (forall p, ~ covers bs' p -> snd r !! p = m !! p).

Lemma insert_head_spec st m addr n c l2 :
  wf_from (addr + n - 1) l2 -> lseg m c l2 0 -> blk_ok addr n ->
  runs ('(st, m) ← Val (set_head st addr, <[addr := mkBlk n c]> m);
        m ← join_next m addr n c; m ← join_prev m 0 addr; Val (st, m))
    (inserted st m addr n l2).
Proof.
  intros Hw Hl Hok. rewrite bind_val. pose proof Hok as (H0 & _ & _ & Hn & _). unfold MIN_BLOCK in Hn.
  destruct (join_next_spec (<[addr := mkBlk n c]> m) addr n c l2) as
    (n' & nx & l' & -> & Hl' & Hok' & Hw' & Hle & Hcov & Htot); [by simplify_map_eq | | done | done |].
  { eapply lseg_ext; [|done]. intros a k Hin. apply (wf_elem _ _ _ _ Hw) in Hin.
    rewrite lookup_insert_ne by lia. done. }
  rewrite !bind_val. apply runs_val. exists addr, ((addr, n') :: l'). cbn.
  split; [done|]. split; [split; cbn|].
  - split; [done|]. exists nx. split; [by simplify_map_eq|].
    eapply lseg_ext; [|done]. intros a k Hin. apply (wf_elem _ _ _ _ Hw') in Hin.
    rewrite (lookup_insert_ne _ addr) by lia. done.
  - done.
  - split; [done|]. split; [done|]. intros p Hp.
    rewrite !lookup_insert_ne by (intros ->; apply Hp; left; lia). done.
Qed.

Lemma insert_mid_spec st m addr n c l0 p q l2 :
  lseg m (head st) (l0 ++ [(p, q)]) c -> wf_from 0 (l0 ++ [(p, q)]) -> p + q <= addr ->
  wf_from (addr + n - 1) l2 -> lseg m c l2 0 -> blk_ok addr n ->
  runs ('(st, m) ← (h ← deref (<[addr := mkBlk n c]> m) p;
                    Val (st, <[p := mkBlk (size h) addr]> (<[addr := mkBlk n c]> m)));
        m ← join_next m addr n c; m ← join_prev m p addr; Val (st, m))
    (inserted st m addr n ((l0 ++ [(p, q)]) ++ l2)).
Proof.
  intros (d & Hl0 & -> & c' & Hp & ->)%lseg_app (Hw0 & Hlo & Hokp & _)%wf_app Hpa Hw Hl Hok.
  pose proof Hok as (H0 & A8 & N8 & Hn & Han). pose proof Hokp as (P0 & P8 & Q8 & Hq & _).
  unfold MIN_BLOCK in Hn, Hq. pose proof (last_end_ge _ _ Hw0) as Hge.
  rewrite (deref_eq _ p (mkBlk q c)) by (rewrite lookup_insert_ne by lia; done). rewrite !bind_val. cbn [size].
  set (m2 := <[p := mkBlk q addr]> (<[addr := mkBlk n c]> m)).
  destruct (join_next_spec m2 addr n c l2) as
    (n' & nx & l' & -> & Hl' & Hok' & Hw' & Hle & Hcov & Htot).
  { unfold m2. rewrite lookup_insert_ne by lia. by simplify_map_eq. }
  { eapply lseg_ext; [|done]. intros a k Hin. apply (wf_elem _ _ _ _ Hw) in Hin.
    unfold m2. rewrite !lookup_insert_ne by lia. done. }
  { done. }
  { done. }
  rewrite bind_val. unfold join_prev. rewrite (proj2 (Z.eqb_neq p 0)) by lia.
  pose proof Hok' as (_ & _ & N8' & Hn' & Han').
  assert ((<[addr := mkBlk n' nx]> m2) !! p = Some (mkBlk q addr)) as Hp3
    by (rewrite lookup_insert_ne by lia; unfold m2; by simplify_map_eq).
  rewrite (deref_eq _ _ _ Hp3), bind_val. cbn [size]. rewrite add_u_ok, bind_val by lia.
  assert (forall m3, (forall x, x <> p -> x <> addr -> m3 !! x = m !! x) -> lseg m3 (head st) l0 p) as Hpre.
  { intros m3 Hm3. eapply lseg_ext; [|done]. intros a k Hin. apply (wf_elem _ _ _ _ Hw0) in Hin.
    destruct Hin as (? & (_ & _ & _ & Hk & _) & ?). unfold MIN_BLOCK in Hk. apply Hm3; lia. }
  assert (forall m3, (forall x, addr < x -> m3 !! x = m2 !! x) -> lseg m3 nx l' 0) as Hpost.
  { intros m3 Hm3. eapply lseg_ext; [|done]. intros a k Hin. apply (wf_elem _ _ _ _ Hw') in Hin.
    apply Hm3; lia. }
  destruct (Z.eqb_spec (p + q) addr) as [E|Hne].
  - rewrite (deref_eq _ addr (mkBlk n' nx)), bind_val by by simplify_map_eq. cbn [size next].
    rewrite add_u_ok, !bind_val by lia. apply runs_val.
    exists (head st), (l0 ++ (p, q + n') :: l'). cbn. split; [by rewrite set_head_id|].
    split; [split|split; [|split]].
    + apply lseg_app. exists p. split; [apply Hpre | cbn; split; [done|]; exists nx; split; [by simplify_map_eq | apply Hpost]].
      * intros x ??. unfold m2. rewrite !lookup_insert_ne by done. done.
      * intros x ?. rewrite !lookup_insert_ne by lia. done.
    + apply wf_app. split; [done|]. cbn. split; [done|].
      split; [unfold blk_ok, MIN_BLOCK; rewrite Zplus_mod, Q8, N8'; repeat split; lia|].
      by rewrite Z.add_assoc, E.
    + intros x. specialize (Hcov x). rewrite !covers_app. cbn in *.
      assert (p <= x < p + (q + n') <-> p <= x < p + q \/ addr <= x < addr + n') as -> by lia. tauto.
    + rewrite !total_app. cbn in *. lia.
    + intros x. rewrite covers_app. cbn. intros Hx. unfold m2.
      rewrite !lookup_insert_ne by (intros ->; apply Hx; right; left; lia). done.
  - rewrite bind_val. apply runs_val.
    exists (head st), (l0 ++ (p, q) :: (addr, n') :: l'). cbn. split; [by rewrite set_head_id|].
    split; [split|split; [|split]].
    + apply lseg_app. exists p. split; [apply Hpre | cbn; split; [done|]; exists addr; split; [done|]; split; [done|];
        exists nx; split; [by simplify_map_eq | apply Hpost]].
      * intros x ??. unfold m2. rewrite !lookup_insert_ne by done. done.
      * intros x ?. rewrite !lookup_insert_ne by lia. done.
    + apply wf_app. split; [done|]. cbn. split; [done|]. split; [done|]. split; [lia | done].
    + intros x. specialize (Hcov x). rewrite !covers_app. cbn in *. tauto.
    + rewrite !total_app. cbn in *. lia.
    + intros x. rewrite covers_app. cbn. intros Hx. unfold m2.
      rewrite lookup_insert_ne by (intros ->; apply Hx; right; right; left; lia).
      rewrite lookup_insert_ne by (intros ->; apply Hx; right; left; lia).
      rewrite lookup_insert_ne by (intros ->; apply Hx; right; right; left; lia). done.
Qed.

Lemma last_addr_app p l a n : last_addr p (l ++ [(a, n)]) = a.
Proof. revert p. induction l as [|[b k] t IH]; intros p; cbn; [done | apply IH]. Qed.

Lemma insert_spec st m bs addr n :
  free_list st m bs -> blk_ok addr n -> (forall x, addr <= x < addr + n -> ~ covers bs x) ->
  runs (insert_free_region st m addr n) (inserted st m addr n bs).
Proof.
  intros [Hl Hw] Hok Hx. pose proof Hok as (H0 & _ & _ & Hn & _). unfold MIN_BLOCK in Hn.
  unfold insert_free_region.
  destruct (find_prev_spec m addr bs (list_fuel m) (head st) 0 0 Hl Hw) as
    (l1 & l2 & c & -> & H1 & H2 & -> & Hend & Hw2).
  { lia. } { pose proof (lseg_length _ _ _ _ _ Hl Hw). unfold list_fuel. lia. }
  { apply Hx. lia. }
  rewrite bind_val.
  assert (wf_from (addr + n - 1) l2) as Hw2'.
  { destruct l2 as [|[b k] t]; [done|]. cbn in *. destruct Hw2 as (? & Hb & ?). split; [|done].
    destruct (Z.le_gt_cases (addr + n) b); [lia|]. exfalso. apply (Hx b); [lia|].
    apply covers_app. right. left. destruct Hb as (_ & _ & _ & Hk & _). unfold MIN_BLOCK in Hk. lia. }
  destruct l1 as [|[p q] l0 _] using rev_ind.
  - cbn in H1. subst c. cbn [last_addr]. change (0 =? 0) with true. cbn iota beta zeta. by apply insert_head_spec.
  - rewrite last_addr_app.
    apply wf_app in Hw as [Hw _]. pose proof Hw as Hw'. apply wf_app in Hw' as (_ & _ & (? & _) & _).
    rewrite (proj2 (Z.eqb_neq p 0)) by lia.
    apply insert_mid_spec; try done.
    destruct Hend as [E|Hend]; [by destruct l0|]. by rewrite last_end_app in Hend.
Qed.

(** ** Placement in a block *)

Lemma align_up_spec addr k : is_u64 addr -> 0 <= k <= 64 ->
  match align_up_checked addr (2 ^ k) with
  | Some a => addr <= a < 2 ^ 64 /\ (2 ^ k | a) /\ (forall s, addr <= s -> (2 ^ k | s) -> a <= s)
  | None => forall s, addr <= s < 2 ^ 64 -> ~ (2 ^ k | s)
  end.
Proof.
  intros Ha Hk. unfold align_up_checked, checked_add. pose proof (Z.pow_pos_nonneg 2 k ltac:(lia) ltac:(lia)) as Hp.
  unfold u_max, in_u in *. case_decide as Hd.
  - rewrite land_not_low by (unfold in_u; lia).
    set (q := (addr + (2 ^ k - 1)) / 2 ^ k).
    assert (addr <= 2 ^ k * q <= addr + (2 ^ k - 1)) as Hq.
    { unfold q. pose proof (Z.div_mod (addr + (2 ^ k - 1)) (2 ^ k)). pose proof (Z.mod_pos_bound (addr + (2 ^ k - 1)) (2 ^ k)). lia. }
    split; [lia|]. split; [by exists q; rewrite Z.mul_comm|].
    intros s Hs [c ->]. assert (q < c + 1) by nia. nia.
  - intros s Hs [c ->].
    assert (2 ^ 64 = 2 ^ (64 - k) * 2 ^ k) as E by (rewrite <- Z.pow_add_r by lia; f_equal; lia).
    assert (c < 2 ^ (64 - k)) by nia. nia.
Qed.

(** The start addresses the two splits leave whole: aligned, each gap empty or able to
    hold a header. *)
Definition fits (b n sz align s : Z) : Prop :=
  (s = b \/ b + MIN_BLOCK <= s) /\ (align | s) /\
  (s + sz = b + n \/ s + sz + MIN_BLOCK <= b + n).

Definition fit_result (b n sz align : Z) (o : option (Z * Z)) : Prop :=
  match o with
  | Some (s, front) => front = s - b /\ fits b n sz align s /\ forall s', fits b n sz align s' -> s <= s'
  | None => forall s, ~ fits b n sz align s
  end.

Definition size_ok (sz : Z) : Prop := MIN_BLOCK <= sz < 2 ^ 64 /\ (8 | sz).

Lemma fit_tail_spec b n sz k s : blk_ok b n -> size_ok sz -> 3 <= k <= 63 ->
  b <= s < 2 ^ 64 -> (2 ^ k | s) -> (s = b \/ b + MIN_BLOCK <= s) ->
  (forall s', b <= s' -> (s' = b \/ b + MIN_BLOCK <= s') -> (2 ^ k | s') -> s <= s') ->
  runs (fit_tail b n sz s (s - b)) (fit_result b n sz (2 ^ k)).
Proof.
  intros (B0 & B8 & N8 & Hn & Hbn) ((Hsz & Hsz') & Hsz8) Hk Hs Hds Hfront Hmin.
  unfold MIN_BLOCK in *. unfold fit_tail, checked_add, u_max.
  assert (8 | 2 ^ k) as H8 by (exists (2 ^ (k - 3)); change 8 with (2 ^ 3); rewrite <- Z.pow_add_r by lia; f_equal; lia).
  assert (8 | b + n - (s + sz)) as Hback.
  { apply Z.divide_sub_r; apply Z.divide_add_r; try done; [by apply Z.mod_divide | by apply Z.mod_divide|].
    by transitivity (2 ^ k). }
  case_decide as Hd; [|apply runs_val; intros s' (H1 & H2 & H3); unfold MIN_BLOCK in *;
    assert (s <= s') by (apply Hmin; [lia | done | done]); lia].
  rewrite add_u_ok, bind_val by lia.
  destruct (Z.ltb_spec (b + n) (s + sz)) as [Hlt|Hge].
  { apply runs_val. intros s' (H1 & H2 & H3). unfold MIN_BLOCK in *.
    assert (s <= s') by (apply Hmin; [lia | done | done]). lia. }
  rewrite sub_u_ok, bind_val by lia.
  destruct (negb (b + n - (s + sz) =? 0) && (b + n - (s + sz) <? MIN_BLOCK)) eqn:E.
  - apply andb_true_iff in E as [E1%negb_true_iff%Z.eqb_neq E2%Z.ltb_lt]. unfold MIN_BLOCK in E2.
    apply runs_val. intros s' (H1 & H2 & H3). unfold MIN_BLOCK in *.
    assert (s <= s') as Hle by (apply Hmin; [lia | done | done]).
    assert (s' = s \/ s + 16 <= s') as [->|Hfar]; [|lia|].
    { destruct (decide (s' = s)); [by left|]. right. destruct (decide (k = 3)) as [->|Hk3].
      - assert (s <= b) by (apply Hmin; [lia | by left | by apply Z.mod_divide]). lia.
      - assert (16 | s' - s) as [c Hc].
        { apply Z.divide_sub_r; (transitivity (2 ^ k); [|done]); exists (2 ^ (k - 4));
            change 16 with (2 ^ 4); rewrite <- Z.pow_add_r by lia; f_equal; lia. }
        nia. }
    destruct Hback as [c Hc]. lia.
  - apply runs_val. split; [done|]. split.
    + split; [done|]. split; [done|]. unfold MIN_BLOCK.
      apply andb_false_iff in E as [E1%negb_false_iff%Z.eqb_eq|E2%Z.ltb_ge]; [left; lia | right; unfold MIN_BLOCK in E2; lia].
    + intros s' (H1 & H2 & H3). unfold MIN_BLOCK in *. apply Hmin; [lia | done | done].
Qed.

Lemma fit_spec b n sz k : blk_ok b n -> size_ok sz -> 3 <= k <= 63 ->
  runs (fit b n sz (2 ^ k)) (fit_result b n sz (2 ^ k)).
Proof.
  intros Hok Hsz Hk. pose proof Hok as (B0 & _ & _ & Hn & Hbn). unfold MIN_BLOCK in Hn.
  destruct Hsz as ((S1 & S2) & S3) eqn:Es. unfold MIN_BLOCK in S1. unfold fit.
  pose proof (align_up_spec b k ltac:(unfold in_u; lia) ltac:(lia)) as Ha.
  destruct (align_up_checked b (2 ^ k)) as [a|].
  2: { apply runs_val. intros s (H1 & H2 & H3). unfold MIN_BLOCK in *. apply (Ha s); [lia | done]. }
  destruct Ha as (Hab & Hda & Hmin). rewrite sub_u_ok, bind_val by lia.
  destruct (negb (a - b =? 0) && (a - b <? MIN_BLOCK)) eqn:E.
  - apply andb_true_iff in E as [E1%negb_true_iff%Z.eqb_neq E2%Z.ltb_lt].
    unfold checked_add, u_max, MIN_BLOCK in *. rewrite decide_True by lia.
    pose proof (align_up_spec (b + 16) k ltac:(unfold in_u; lia) ltac:(lia)) as Ha2.
    assert (forall s, s = b -> ~ (2 ^ k | s)) as Hnb by (intros s -> Hd; assert (a <= b) by (apply Hmin; [lia | done]); lia).
    destruct (align_up_checked (b + 16) (2 ^ k)) as [a2|].
    2: { apply runs_val. intros s (H1 & H2 & H3). unfold MIN_BLOCK in *. destruct H1 as [H1|H1].
         - by apply (Hnb s).
         - apply (Ha2 s); [lia | done]. }
    destruct Ha2 as (Hab2 & Hda2 & Hmin2). rewrite sub_u_ok, bind_val by lia.
    apply fit_tail_spec; try done; [lia | right; unfold MIN_BLOCK; lia |].
    intros s' Hs' [->|H1] Hd; [by destruct (Hnb b)|]. by apply Hmin2.
  - apply fit_tail_spec; try done.
    + apply andb_false_iff in E as [E1%negb_false_iff%Z.eqb_eq|E2%Z.ltb_ge]; unfold MIN_BLOCK in *; lia.
    + intros s' Hs' _ Hd. by apply Hmin.
Qed.

(** ** First fit *)

Lemma set_head_head st h h' : set_head (set_head st h) h' = set_head st h'.
Proof. done. Qed.

(** Returning a gap, when there is one. *)
Lemma insert_gap_spec st m bs a g :
  free_list st m bs -> (g <> 0 -> blk_ok a g) -> (forall x, a <= x < a + g -> ~ covers bs x) ->
  runs (if negb (g =? 0) then insert_free_region st m a g else Val (st, m)) (inserted st m a g bs).
Proof.
  intros Hf Hok Hx. destruct (Z.eqb_spec g 0) as [->|Hne]; cbn [negb].
  - apply runs_val. exists (head st), bs. cbn. rewrite set_head_id. split; [done|]. split; [done|].
    split; [intros x; split; [tauto | intros [?|?]; [lia | done]] | done].
  - apply insert_spec; auto.
Qed.

Lemma unlink_spec st m l1 b n nx l2 :
  free_list st m (l1 ++ (b, n) :: l2) -> m !! b = Some (mkBlk n nx) ->
  runs (if last_addr 0 l1 =? 0 then Val (set_head st nx, m)
        else hp ← deref m (last_addr 0 l1); Val (st, <[last_addr 0 l1 := mkBlk (size hp) nx]> m))
    (fun r => exists h', fst r = set_head st h' /\ free_list (fst r) (snd r) (l1 ++ l2) /\
       forall p, ~ covers l1 p -> snd r !! p = m !! p).
Proof.
  intros [(c & Hl1 & -> & nx' & Hb & Hl2)%lseg_app Hw] Hb'. rewrite Hb in Hb'. injection Hb' as ->.
  apply wf_app in Hw as (Hw1 & Hlo & (_ & _ & _ & Hn & _) & Hw2). unfold MIN_BLOCK in Hn.
  assert (wf_from 0 (l1 ++ l2)) as Hw.
  { apply wf_app. split; [done|]. eapply wf_weaken; [|done]. lia. }
  destruct l1 as [|[p q] l0 _] using rev_ind.
  { cbn. apply runs_val. exists nx. done. }
  rewrite last_addr_app. apply lseg_app in Hl1 as (d & Hl0 & -> & c' & Hp & ->).
  apply wf_app in Hw1 as (Hw0 & Hpl & (P0 & _ & _ & Hq & _) & _). unfold MIN_BLOCK in Hq.
  rewrite last_end_app in Hlo. cbn in Hlo.
  rewrite (proj2 (Z.eqb_neq p 0)) by lia. rewrite (deref_eq _ _ _ Hp), bind_val. cbn [size].
  apply runs_val. exists (head st). cbn. rewrite set_head_id. split; [done|]. split; [split; [|done]|].
  - rewrite <- app_assoc. apply lseg_app. exists p. split; [|cbn; split; [done|]; exists nx; split; [by simplify_map_eq|]].
    + eapply lseg_ext; [|done]. intros a k Hin. apply (wf_elem _ _ _ _ Hw0) in Hin.
      destruct Hin as (_ & (_ & _ & _ & Hk & _) & ?). unfold MIN_BLOCK in Hk. rewrite lookup_insert_ne by lia. done.
    + eapply lseg_ext; [|done]. intros a k Hin. apply (wf_elem _ _ _ _ Hw2) in Hin.
      rewrite lookup_insert_ne by lia. done.
  - intros x Hx. rewrite lookup_insert_ne; [done|]. intros ->. apply Hx. apply covers_app. right. left. lia.
Qed.

(** The outcome of a first-fit pass over the free bytes [bs]: the lowest admissible start
    and the state that lost exactly its bytes, or the state as it was. *)
Definition pass_result (st : HeapState) (m : memory) (bs : list block) (sz align : Z)
  (r : HeapState * memory * option Z) : Prop :=
  match r with
  | (st', m', Some s) =>
      exists b n h' bs', (b, n) ∈ bs /\ fits b n sz align s /\ b <= s /\ s + sz <= b + n /\
        (forall b' n' s', (b', n') ∈ bs -> fits b' n' sz align s' -> s <= s') /\
        st' = set_used (set_head st h') (used st + sz) (Z.max (high_water st) (used st + sz)) /\
        free_list st' m' bs' /\
        (forall x, covers bs' x <-> covers bs x /\ ~ s <= x < s + sz) /\
        total bs' = total bs - sz /\
        (forall p, ~ covers bs p -> m' !! p = m !! p)
  | (st', m', None) => st' = st /\ m' = m /\ forall b n s, (b, n) ∈ bs -> ~ fits b n sz align s
  end.

Lemma total_elem lo bs b n : wf_from lo bs -> (b, n) ∈ bs -> n <= total bs.
Proof.
  revert lo. induction bs as [|[c k] t IH]; intros lo Hw Hin; [by apply not_elem_of_nil in Hin|].
  cbn in *. destruct Hw as (_ & (_ & _ & _ & Hk & _) & Hw). unfold MIN_BLOCK in Hk.
  pose proof (total_nonneg _ _ Hw). apply elem_of_cons in Hin as [[= -> ->]|Hin]; [lia|].
  pose proof (IH _ Hw Hin). lia.
Qed.

Lemma fits_bounds b n sz align s : fits b n sz align s -> 0 <= sz -> b <= s /\ s + sz <= b + n.
Proof. unfold fits, MIN_BLOCK. lia. Qed.

(** Splitting a block around the allocation. *)
Lemma carve_spec st m l1 b n l2 sz k s :
  free_list st m (l1 ++ l2) -> wf_from 0 (l1 ++ (b, n) :: l2) -> size_ok sz -> 3 <= k ->
  fits b n sz (2 ^ k) s ->
  runs ('(st, m) ← (if negb (s - b =? 0) then insert_free_region st m b (s - b) else Val (st, m));
        back ← sub_u (b + n) (s + sz);
        (if negb (back =? 0) then insert_free_region st m (s + sz) back else Val (st, m)))
    (fun r => exists h' bs', fst r = set_head st h' /\ free_list (fst r) (snd r) bs' /\
       (forall x, covers bs' x <-> covers (l1 ++ (b, n) :: l2) x /\ ~ s <= x < s + sz) /\
       total bs' = total (l1 ++ (b, n) :: l2) - sz /\
       (forall p, ~ covers (l1 ++ (b, n) :: l2) p -> snd r !! p = m !! p)).
Proof.
  intros Hf Hw ((Hsz & Hsz') & Hsz8) Hk Hfit. pose proof (fits_bounds _ _ _ _ _ Hfit) as Hbd.
  unfold MIN_BLOCK in Hsz. specialize (Hbd ltac:(lia)).
  pose proof (wf_elem 0 _ b n Hw) as (_ & (B0 & B8 & N8 & Hn & Hbn) & _); [apply elem_of_app; right; left|].
  destruct Hfit as (Hfr & Hdiv & Hbk). unfold MIN_BLOCK in *.
  assert (8 | s) as Hs8.
  { transitivity (2 ^ k); [|done]. exists (2 ^ (k - 3)). change 8 with (2 ^ 3). rewrite <- Z.pow_add_r by lia. f_equal. lia. }
  apply Z.mod_divide in B8, N8; [|lia..].
  assert (forall x, b <= x < b + n -> ~ covers (l1 ++ l2) x) as Hout.
  { apply wf_app in Hw as (Hw1 & Hlo & _ & Hw2). intros x Hx [Hc|Hc]%covers_app.
    - apply (covers_bounds _ _ _ Hw1) in Hc. lia.
    - apply (covers_bounds _ _ _ Hw2) in Hc. lia. }
  eapply runs_bind.
  { apply (insert_gap_spec st m (l1 ++ l2)); [done | |].
    - intros Hne. unfold blk_ok, MIN_BLOCK. rewrite !Z.mod_divide by lia.
      split; [lia|]. split; [done|]. split; [by apply Z.divide_sub_r|]. lia.
    - intros x Hx. apply Hout. lia. }
  intros [st1 m1] (h1 & bs1 & E1 & Hf1 & Hc1 & Ht1 & Hm1). cbn [fst snd] in *. subst st1.
  rewrite sub_u_ok, bind_val by lia.
  eapply runs_mono.
  { apply (insert_gap_spec _ m1 bs1); [done | |].
    - intros Hne. unfold blk_ok, MIN_BLOCK. rewrite !Z.mod_divide by lia.
      split; [lia|]. split; [by apply Z.divide_add_r|].
      split; [apply Z.divide_sub_r; by apply Z.divide_add_r|]. lia.
    - intros x Hx [?|Hc]%Hc1; [lia|]. apply (Hout x); [lia | done]. }
  intros [st2 m2] (h2 & bs2 & E2 & Hf2 & Hc2 & Ht2 & Hm2). cbn [fst snd] in *. subst st2.
  rewrite set_head_head in *. exists h2, bs2. split; [done|]. split; [done|].
  assert (forall x, covers bs2 x <-> covers (l1 ++ (b, n) :: l2) x /\ ~ s <= x < s + sz) as Hcov.
  { intros x. rewrite Hc2, Hc1, !covers_app. cbn. specialize (Hout x). rewrite covers_app in Hout.
    assert (b <= x < b + n <-> b <= x < s \/ s <= x < s + sz \/ s + sz <= x < b + n) as Hsplit by lia.
    assert (~ (s <= x < s + sz /\ (b <= x < s \/ s + sz <= x < b + n))) by lia.
    replace (b + (s - b)) with s by lia.
    replace (s + sz + (b + n - (s + sz))) with (b + n) by lia. tauto. }
  split; [done|]. split; [rewrite Ht2, Ht1, !total_app; cbn; lia|].
  intros p Hp. rewrite Hm2, Hm1; [done | | by rewrite Hcov; tauto].
  rewrite Hc1. intros [?|Hc]; apply Hp; apply covers_app; [right; left; lia|].
  apply covers_app in Hc as [?|?]; [by left | right; by right].
Qed.

Lemma try_fit_from_spec st m sz k l2 : forall l1 fuel,
  free_list st m (l1 ++ l2) -> size_ok sz -> 3 <= k <= 63 -> 0 <= used st ->
  used st + total (l1 ++ l2) < 2 ^ 64 -> (length l2 <= fuel)%nat ->
  (forall b n s, (b, n) ∈ l1 -> ~ fits b n sz (2 ^ k) s) ->
  forall cur, lseg m (head st) l1 cur -> lseg m cur l2 0 ->
  runs (try_fit_from fuel st m sz (2 ^ k) (last_addr 0 l1) cur)
    (pass_result st m (l1 ++ l2) sz (2 ^ k)).
Proof.
  induction l2 as [|[b n] l2 IH]; intros l1 fuel Hf Hsz Hk Hu Hut Hfuel Hno cur H1 H2.
  { cbn in H2. subst cur. destruct fuel; cbn; rewrite app_nil_r; apply runs_val; done. }
  cbn in H2. destruct H2 as (-> & nx & Hb & H2). pose proof Hf as [Hl Hw].
  pose proof (wf_elem 0 _ b n Hw) as (_ & Hok & _); [apply elem_of_app; right; left|].
  pose proof Hok as (B0 & _ & _ & Hn & Hbn). unfold MIN_BLOCK in Hn.
  destruct fuel as [|fuel]; [cbn in Hfuel; lia|]. cbn [try_fit_from].
  rewrite (proj2 (Z.eqb_neq b 0)), (deref_eq _ _ _ Hb), bind_val by lia. cbn [size next].
  eapply runs_bind; [by apply fit_spec|]. intros [[s front]|] Hres.
  - destruct Hres as (-> & Hfit & Hmin). pose proof Hsz as ((S1 & S2) & S3). unfold MIN_BLOCK in S1.
    pose proof (fits_bounds _ _ _ _ _ Hfit ltac:(lia)) as Hbd.
    eapply runs_bind; [by eapply unlink_spec|]. intros [st1 m1] (h1 & E1 & Hf1 & Hm1). cbn [fst snd] in *. subst st1.
    rewrite !add_u_ok, !bind_val by lia.
    destruct (carve_spec (set_head st h1) m1 l1 b n l2 sz k s) as ([st2 m2] & E & h2 & bs' & E4 & Hf2 & Hc & Ht & Hm);
      [done | done | done | lia | done |]. cbn [fst snd] in *. subst st2.
    destruct (bind_val_inv _ _ _ E) as ([st3 m3] & -> & E2). rewrite bind_val.
    destruct (bind_val_inv _ _ _ E2) as (back & -> & E3). rewrite bind_val. rewrite E3, bind_val.
    change (used (set_head (set_head st h1) h2)) with (used st).
    pose proof (total_elem 0 _ b n Hw ltac:(apply elem_of_app; right; left)).
    rewrite add_u_ok, bind_val by lia. apply runs_val.
    exists b, n, h2, bs'. split; [apply elem_of_app; right; left|]. split; [done|]. split; [lia|]. split; [lia|].
    split; [|split; [|split; [done|split; [done|split; [done|]]]]].
    + intros b' n' s' Hin Hfit'. apply elem_of_app in Hin as [Hin|Hin]; [by apply Hno in Hfit'|].
      apply elem_of_cons in Hin as [[= -> ->]|Hin]; [by apply Hmin|].
      apply fits_bounds in Hfit'; [|lia]. apply wf_app in Hw as (_ & _ & _ & Hw).
      apply (wf_elem _ _ _ _ Hw) in Hin. lia.
    + cbn. unfold set_head, set_used. cbn. f_equal. destruct (Z.ltb_spec (high_water st) (used st + sz)); lia.
    + intros p Hp. rewrite Hm, Hm1; [done | | done]. intros Hc1. apply Hp. apply covers_app. by left.
  - replace b with (last_addr 0 (l1 ++ [(b, n)])) at 1 by apply last_addr_app.
    assert (l1 ++ (b, n) :: l2 = (l1 ++ [(b, n)]) ++ l2) as Ea by by rewrite <- app_assoc.
    rewrite Ea in Hf, Hut |- *.
    apply IH; try done; [cbn in Hfuel; lia | |].
    + intros b' n' s Hin. apply elem_of_app in Hin as [Hin|Hin]; [by apply Hno|].
      apply list_elem_of_singleton in Hin as [= -> ->]. apply Hres.
    + apply lseg_app. exists b. cbn. eauto.
Qed.

Lemma try_fit_spec st m bs sz k :
  free_list st m bs -> size_ok sz -> 3 <= k <= 63 -> 0 <= used st -> used st + total bs < 2 ^ 64 ->
  runs (try_fit st m sz (2 ^ k)) (pass_result st m bs sz (2 ^ k)).
Proof.
  intros Hf Hsz Hk Hu Hut. pose proof Hf as [Hl Hw].
  apply (try_fit_from_spec st m sz k bs [] (list_fuel m)); try done.
  - pose proof (lseg_length _ _ _ _ _ Hl Hw). unfold list_fuel. lia.
  - intros b n s Hin. by apply not_elem_of_nil in Hin.
Qed.

(** ** Requests *)

(** What [core::alloc::Layout] guarantees of a layout. *)
Definition layout_ok (ly : Layout) : Prop :=
  0 <= l_size ly /\ l_size ly + l_align ly <= 2 ^ 63 /\ exists k, 0 <= k <= 63 /\ l_align ly = 2 ^ k.

Lemma required_spec ly sz al : layout_ok ly -> required ly = Some (sz, al) ->
  size_ok sz /\ l_size ly <= sz <= 2 ^ 63 /\ exists k, 3 <= k <= 63 /\ al = 2 ^ k /\ (l_align ly | al).
Proof.
  intros (Hs & Hsa & k & Hk & Ha) E.
  assert (0 < l_align ly) by (rewrite Ha; apply Z.pow_pos_nonneg; lia). unfold required in E. rewrite Ha in *.
  set (raw := if MIN_BLOCK <? l_size ly then l_size ly else MIN_BLOCK) in E.
  assert (16 <= raw /\ is_u64 raw /\ l_size ly <= raw <= 2 ^ 63) as (R1 & R2 & R3).
  { unfold raw, MIN_BLOCK, in_u in *. destruct (Z.ltb_spec 16 (l_size ly)); lia. }
  pose proof (align_up_spec raw 3 R2 ltac:(lia)) as H8. change (2 ^ 3) with HEADER_ALIGN in H8.
  destruct (align_up_checked raw HEADER_ALIGN) as [s|]; [|done]. injection E as <- <-.
  destruct H8 as (H1 & H2 & H3).
  assert (s <= 2 ^ 63) by (apply H3; [lia | by exists (2 ^ 60)]).
  split; [split; [unfold MIN_BLOCK; lia | done]|]. split; [lia|].
  unfold HEADER_ALIGN. destruct (Z.ltb_spec 8 (2 ^ k)) as [Hlt|Hge].
  - exists k. split; [|done]. split; [|lia]. apply Z.lt_le_incl. apply (Z.pow_lt_mono_r_iff 2); [lia.. | change (2 ^ 2) with 4; lia].
  - exists 3. split; [lia|]. split; [done|]. exists (2 ^ (3 - k)).
    assert (k <= 3) by (apply (Z.pow_le_mono_r_iff 2); [lia.. | change (2 ^ 3) with 8; lia]).
    rewrite <- Z.pow_add_r by lia. by replace (3 - k + k) with 3 by lia.
Qed.

(** ** The invariant of the heap *)

Section invariant.
Context {Env : Type} `{PageMapper Env}.
Implicit Types (env : Env).
(** The arena the heap was laid over. *)
Context (arena : block).

(** The regions handed out and not returned, with the layout each was requested with. *)
Definition region (e : Z * Layout) : block :=
  (fst e, match required (snd e) with Some (sz, _) => sz | None => 0 end).
Definition regs (live : list (Z * Layout)) : list block := map region live.

Definition live_ok (e : Z * Layout) : Prop :=
  layout_ok (snd e) /\ (exists r, required (snd e) = Some r) /\
  blk_ok (fst e) (snd (region e)) /\ (l_align (snd e) | fst e).

(** No two regions share a byte. *)
Fixpoint separate (rs : list block) : Prop :=
  match rs with
  | [] => True
  | (a, n) :: t => (forall x, a <= x < a + n -> ~ covers t x) /\ separate t
  end.

(** The bytes the heap owns: the arena and the mapped part of the window. *)
Definition owned (st : HeapState) (x : Z) : Prop :=
  arena_start st <= x < arena_start st + arena_size st \/ window_base st <= x < window_next st.

Definition geometry (st : HeapState) : Prop :=
  (arena_start st, arena_size st) = arena /\ blk_ok (arena_start st) (arena_size st) /\
  (window_enabled st = false -> window_base st = window_next st) /\
  0 <= window_base st <= window_next st /\ window_next st <= window_end st < 2 ^ 64 /\
  window_bytes st = window_next st - window_base st /\
  (8 | window_base st) /\ (8 | window_next st) /\
  (arena_start st + arena_size st <= window_base st \/ window_end st <= arena_start st) /\
  (window_enabled st = true -> window_base st = fst heap_window /\
     window_end st <= fst heap_window + snd heap_window /\ (PAGE | window_next st)).

Definition heap_ok (st : HeapState) (m : memory) (bs : list block) (live : list (Z * Layout)) : Prop :=
  free_list st m bs /\ Forall live_ok live /\ separate (regs live) /\
  (forall x, covers (regs live) x -> ~ covers bs x) /\
  (forall x, owned st x <-> covers (regs live) x \/ covers bs x) /\
  used st = total (regs live) /\ used st + total bs = arena_size st + window_bytes st /\
  used st <= high_water st.

Definition heap_inv (st : HeapState) (m : memory) (live : list (Z * Layout)) : Prop :=
  geometry st /\ exists bs, heap_ok st m bs live.

(** The allocator did not write into memory it has handed out. *)
Definition keeps (live : list (Z * Layout)) (m m' : memory) : Prop :=
  forall x, covers (regs live) x -> m' !! x = m !! x.

Lemma live_total live : Forall live_ok live -> 0 <= total (regs live).
Proof.
  induction 1 as [|e t (_ & _ & (_ & _ & _ & Hn & _) & _) _ IH]; cbn; [lia|].
  unfold region, MIN_BLOCK in Hn. cbn in Hn. unfold regs in IH. lia.
Qed.

Lemma separate_app l1 l2 : separate (l1 ++ l2) <->
  separate l1 /\ separate l2 /\ forall x, covers l1 x -> ~ covers l2 x.
Proof.
  induction l1 as [|[a n] t IH]; cbn; [naive_solver|]. rewrite IH. setoid_rewrite covers_app. naive_solver.
Qed.

Lemma heap_total st m bs live : geometry st -> heap_ok st m bs live ->
  0 <= used st /\ used st + total bs < 2 ^ 64.
Proof.
  intros Hg (_ & Hlive & _ & _ & _ & Hu & Ht & _). pose proof (live_total _ Hlive).
  unfold geometry, blk_ok, MIN_BLOCK in Hg. lia.
Qed.

(** A successful pass hands out a fresh region. *)
Lemma pass_fresh st m bs live sz k st' m' s ly :
  geometry st -> heap_ok st m bs live -> layout_ok ly -> required ly = Some (sz, 2 ^ k) ->
  pass_result st m bs sz (2 ^ k) (st', m', Some s) ->
  heap_inv st' m' ((s, ly) :: live) /\ 0 < s /\ (l_align ly | s) /\ keeps live m m' /\
  (forall x, s <= x < s + l_size ly -> owned st' x /\ ~ covers (regs live) x).
Proof.
  intros Hg (Hf & Hlive & Hsep & Hdisj & Hown & Hu & Ht & Hhw) Hly Hreq
    (b & n & h' & bs' & Hin & Hfit & Hbs & Hse & _ & -> & Hf' & Hcov & Htot & Hm).
  destruct (required_spec _ _ _ Hly Hreq) as (Hsz & Hle & k' & Hk' & Ek & Hdiv).
  pose proof (wf_elem 0 _ _ _ (proj2 Hf) Hin) as (Hb0 & (_ & B8 & N8 & Hn & Hbn) & _).
  assert (forall x, s <= x < s + sz -> covers bs x) as Hsub.
  { intros x Hx. clear -Hin Hx Hbs Hse. induction bs as [|[c q] t IH]; [by apply not_elem_of_nil in Hin|].
    apply elem_of_cons in Hin as [[= -> ->]|Hin]; [left; lia | right; auto]. }
  assert (2 ^ k | s) as Hks by apply Hfit.
  assert (8 | 2 ^ k) as H8.
  { rewrite Ek. exists (2 ^ (k' - 3)). change 8 with (2 ^ 3). rewrite <- Z.pow_add_r by lia. f_equal. lia. }
  assert (l_align ly | s) as Hal by (by transitivity (2 ^ k)).
  assert (region (s, ly) = (s, sz)) as Hr by (unfold region; cbn; by rewrite Hreq).
  destruct Hsz as (Hsz & Hsz8). unfold MIN_BLOCK in Hsz.
  split; [|split; [lia|split; [done|split]]].
  - split; [exact Hg|]. exists bs'. split; [done|]. cbn [regs map]. rewrite Hr. split; [|split; [|split; [|split; [|split]]]].
    + constructor; [|done]. split; [done|]. split; [by eexists|]. split; [|done]. rewrite Hr. cbn.
      unfold blk_ok, MIN_BLOCK. rewrite !Z.mod_divide by lia. split; [lia|].
      split; [by transitivity (2 ^ k)|]. split; [done | lia].
    + cbn. split; [|done]. intros x Hx Hc. apply (Hdisj x Hc). by apply Hsub.
    + intros x. rewrite Hcov. cbn. specialize (Hdisj x). unfold regs in Hdisj. tauto.
    + intros x. change (owned _ x) with (owned st x). rewrite Hown, Hcov. cbn. specialize (Hsub x).
      unfold regs. destruct (decide (s <= x < s + sz)); tauto.
    + cbn. unfold regs in Hu. lia.
    + cbn. rewrite Htot. unfold regs in Hu. lia.
  - intros x Hx. apply Hm. by apply Hdisj.
  - intros x Hx. change (owned _ x) with (owned st x). rewrite Hown. split; [right; apply Hsub; lia|].
    intros Hc. apply (Hdisj x Hc). apply Hsub. lia.
Qed.

Lemma map_heap_frames_count start_va k : forall env mapped,
  mapper_ok env -> 0 <= mapped -> fst heap_window <= start_va -> (PAGE | start_va) ->
  start_va + (mapped + Z.of_nat k) * PAGE <= fst heap_window + snd heap_window ->
  runs (map_heap_frames k env start_va mapped)
    (fun r => mapped <= fst r <= mapped + Z.of_nat k /\ mapper_ok (snd r)).
Proof.
  pose proof heap_window_ok as (_ & _ & _ & Hw).
  induction k as [|k IH]; intros env mapped He Hm Hlo Hd Hb; cbn [map_heap_frames];
    [apply runs_val; cbn; split; [lia | done]|].
  rewrite Nat2Z.inj_succ in *.
  rewrite add_u_ok, bind_val by (unfold PAGE in *; lia).
  eapply runs_bind; [apply mapper_runs; [done | apply Z.divide_add_r; [done | apply Z.divide_factor_r] | unfold PAGE in *; lia]|].
  intros [[] env'] He'.
  - eapply runs_mono; [apply IH; try done; lia|]. cbn beta. intros a [Ha ?]. split; [lia | done].
  - apply runs_val. cbn in *. split; [lia | done].
Qed.

Definition grow_result (st : HeapState) (m : memory) (live : list (Z * Layout))
  (r : HeapState * memory * Env * bool) : Prop :=
  match r with
  | (st', m', env', true) =>
      mapper_ok env' /\ heap_inv st' m' live /\ keeps live m m' /\
      window_next st + PAGE <= window_next st' /\ window_end st' = window_end st
  | (st', m', env', false) => mapper_ok env' /\ st' = st /\ m' = m
  end.

Lemma geometry_grow st n : geometry st -> window_enabled st = true -> (PAGE | n) ->
  window_next st <= n <= window_end st ->
  geometry (set_window st n (window_bytes st + (n - window_next st))).
Proof.
  unfold geometry. cbn. intros (? & ? & ? & ? & ? & ? & ? & ? & ? & G10) Hen Hn ?.
  assert (8 | n) by (transitivity PAGE; [by exists 512 | done]).
  rewrite Hen in *. specialize (G10 eq_refl). do 3 (split; [done|]). repeat split; (try tauto); lia.
Qed.

Lemma donate_spec st m live bytes : heap_inv st m live -> window_enabled st = true ->
  (PAGE | bytes) -> PAGE <= bytes -> window_next st + bytes <= window_end st ->
  runs (insert_free_region (set_window st (window_next st + bytes) (window_bytes st + bytes)) m (window_next st) bytes)
    (fun r => heap_inv (fst r) (snd r) live /\ keeps live m (snd r) /\
       window_next (fst r) = window_next st + bytes /\ window_end (fst r) = window_end st).
Proof.
  intros (Hg & bs & Hf & Hlive & Hsep & Hdisj & Hown & Hu & Ht & Hhw) Hen Hpg Hb Hend.
  pose proof Hg as (G1 & G2 & G3 & G4 & G5 & G6 & G7 & G8 & G9 & G10).
  destruct (G10 Hen) as (W1 & W2 & W3). pose proof heap_window_ok as (W4 & _).
  assert (8 | bytes) as H8 by (transitivity PAGE; [by exists 512 | done]).
  assert (0 < bytes) by (unfold PAGE in Hb; lia).
  assert (forall x, window_next st <= x < window_next st + bytes -> ~ owned st x) as Hno by (unfold owned; lia).
  eapply runs_mono.
  { apply insert_spec; [exact Hf | |].
    - unfold blk_ok, MIN_BLOCK. rewrite !Z.mod_divide by lia. repeat split; try done; unfold PAGE in *; lia.
    - intros x Hx Hc. apply (Hno x Hx). apply Hown. by right. }
  intros [st' m'] (h' & bs' & E & Hf' & Hcov & Htot & Hm). cbn [fst snd] in *. subst st'.
  split; [|split; [|done]].
  - split; [|exists bs'; split; [exact Hf'|]].
    + change (geometry (set_window st (window_next st + bytes) (window_bytes st + bytes))).
      replace (window_bytes st + bytes) with (window_bytes st + (window_next st + bytes - window_next st)) by lia.
      apply geometry_grow; try done; [by apply Z.divide_add_r | lia].
    + do 2 (split; [done|]). split; [|split; [|split; [done|split; [cbn; lia | done]]]].
      * intros x Hc. rewrite Hcov. intros [Hx|Hx]; [|by apply (Hdisj x)].
        apply (Hno x Hx). apply Hown. by left.
      * intros x. rewrite Hcov. specialize (Hown x). unfold owned in *. cbn.
        assert (window_base st <= x < window_next st + bytes <->
          window_base st <= x < window_next st \/ window_next st <= x < window_next st + bytes) by lia. tauto.
  - intros x Hx. apply Hm. rewrite Hcov. intros [Hc|Hc]; [|by apply (Hdisj x)].
    apply (Hno x Hc). apply Hown. by left.
Qed.

Lemma grow_spec st m live env sz : mapper_ok env -> heap_inv st m live -> 0 <= sz <= 2 ^ 63 ->
  runs (grow st m env sz) (grow_result st m live).
Proof.
  intros Henv Hinv Hsz. unfold grow. destruct (window_enabled st) eqn:Hen; cbn [negb]; [|by apply runs_val].
  pose proof Hinv as ((G1 & G2 & G3 & G4 & G5 & G6 & G7 & G8 & G9 & G10) & _).
  destruct (G10 Hen) as (W1 & W2 & W3). pose proof heap_window_ok as (W4 & W5 & W6 & W7).
  rewrite Z.max_r by lia.
  destruct (Z.ltb_spec (window_end st - window_next st) PAGE) as [|Hroom]; [by apply runs_val|].
  unfold PAGE in *. rewrite add_u_ok, bind_val, sub_u_ok, bind_val by lia. cbv zeta.
  set (want := if GROW_CHUNK_PAGES <? _ then _ else _). set (req := if _ <? want then _ else want).
  set (rem := window_end st - window_next st) in *.
  assert (4096 * (rem / 4096) <= rem) as Hroom' by (apply Z.mul_div_le; lia).
  assert (req <= rem / 4096) as Hreq by (unfold req; destruct (Z.ltb_spec (rem / 4096) want); lia).
  destruct (Z.eqb_spec req 0) as [|Hne]; [by apply runs_val|].
  destruct (Z.le_gt_cases 0 req) as [Hr0|Hr0].
  2: { replace (Z.to_nat req) with 0%nat by lia. cbn. by apply runs_val. }
  eapply runs_bind; [apply (map_heap_frames_count (window_next st) (Z.to_nat req) env 0); try done; unfold PAGE; lia|].
  intros [mapped env'] [Hmap Henv']. cbn [fst snd] in Hmap, Henv'.
  destruct (Z.eqb_spec mapped 0) as [|Hm0]; [by apply runs_val|].
  rewrite !add_u_ok, !bind_val by lia.
  eapply runs_bind; [apply donate_spec; [done | done | by apply Z.divide_factor_r | unfold PAGE; lia | lia]|].
  intros [st' m'] (Hi & Hk & Hn & He). apply runs_val. cbn in *. unfold PAGE.
  do 3 (split; [done|]). split; [lia | done].
Qed.
(** No block of the free list has room for the request. *)
Definition no_room (st : HeapState) (m : memory) (sz align : Z) : Prop :=
  exists bs, free_list st m bs /\ forall b n s, (b, n) ∈ bs -> ~ fits b n sz align s.

(** A request is answered by a fresh aligned region of the heap, or by null once no block
    has room and growing has failed; either way the invariant holds and memory handed out
    before is untouched. *)
Definition alloc_result (live : list (Z * Layout)) (m : memory) (ly : Layout)
  (r : HeapState * memory * Env * Z) : Prop :=
  match r with
  | (st', m', env', p) =>
      mapper_ok env' /\ keeps live m m' /\
      ((p = 0 /\ heap_inv st' m' live /\
        (required ly = None \/ exists sz al env0, required ly = Some (sz, al) /\
           no_room st' m' sz al /\ grow st' m' env0 sz = Val (st', m', env', false)))
       \/ (0 < p /\ (l_align ly | p) /\ heap_inv st' m' ((p, ly) :: live) /\
           forall x, p <= x < p + l_size ly -> owned st' x /\ ~ covers (regs live) x))
  end.

Lemma keeps_trans live m1 m2 m3 : keeps live m1 m2 -> keeps live m2 m3 -> keeps live m1 m3.
Proof. intros H1 H2 x Hx. by rewrite (H2 x Hx), (H1 x Hx). Qed.

Lemma alloc_loop_spec ly sz k live : layout_ok ly -> required ly = Some (sz, 2 ^ k) -> 3 <= k <= 63 ->
  forall fuel st m env, mapper_ok env -> heap_inv st m live ->
  Z.max 0 (window_end st - window_next st) / PAGE < Z.of_nat fuel ->
  runs (alloc_loop fuel st m env sz (2 ^ k)) (alloc_result live m ly).
Proof.
  intros Hly Hreq Hk. destruct (required_spec _ _ _ Hly Hreq) as (Hsz & Hle & _).
  induction fuel as [|fuel IH]; intros st m env Henv Hinv Hfuel.
  { exfalso. pose proof (Z.div_pos (Z.max 0 (window_end st - window_next st)) PAGE ltac:(lia) ltac:(done)). lia. }
  pose proof Hinv as (Hg & bs & Hok). pose proof (heap_total _ _ _ _ Hg Hok) as [Hu0 Ht].
  pose proof Hok as (Hf & _). cbn [alloc_loop].
  eapply runs_bind; [by apply (try_fit_spec st m bs)|]. intros [[st1 m1] [s|]] Hpass.
  - apply runs_val. destruct (pass_fresh _ _ _ _ _ _ _ _ _ _ Hg Hok Hly Hreq Hpass) as (Hi & Hs & Ha & Hke & Hx).
    do 2 (split; [done|]). right. done.
  - destruct Hpass as (-> & -> & Hno).
    destruct (grow_spec st m live env sz Henv Hinv ltac:(unfold size_ok, MIN_BLOCK in Hsz; lia)) as ([[[st2 m2] env2] b] & Eg & Hgr).
    rewrite Eg, bind_val. destruct b; cbn in Hgr.
    + destruct Hgr as (He2 & Hi & Hke & Hnext & Hend). eapply runs_mono; [apply (IH st2 m2 env2 He2 Hi)|].
      * rewrite Hend. unfold PAGE in *.
        pose proof Hinv as ((_ & _ & _ & _ & G5 & _) & _). pose proof Hi as ((_ & _ & _ & _ & G5' & _) & _).
        rewrite Z.max_r in Hfuel |- * by lia.
        pose proof (Z.div_le_mono (window_end st - window_next st2) (window_end st - window_next st - 1 * 4096) 4096 ltac:(lia) ltac:(lia)) as Hd.
        replace (window_end st - window_next st - 1 * 4096) with (window_end st - window_next st + (-1) * 4096) in Hd by lia.
        rewrite Z.div_add in Hd by lia. lia.
      * intros [[[st' m'] env'] p] (He' & Hk2 & Hr). split; [done|]. split; [by eapply keeps_trans|]. done.
    + destruct Hgr as (He2 & -> & ->). apply runs_val. do 2 (split; [done|]). left. split; [done|]. split; [done|]. right.
      exists sz, (2 ^ k), env. split; [done|]. split; [by exists bs | done].
Qed.

Lemma heap_alloc_spec st m env ly live :
  mapper_ok env -> heap_inv st m live -> layout_ok ly ->
  runs (alloc st m env ly) (alloc_result live m ly).
Proof.
  intros Henv Hinv Hly. unfold alloc. destruct (required ly) as [[sz al]|] eqn:Hreq.
  - destruct (required_spec _ _ _ Hly Hreq) as (_ & _ & k & Hk & -> & _).
    apply (alloc_loop_spec ly sz k live Hly Hreq Hk); [done..|]. unfold retry_fuel.
    rewrite Nat2Z.inj_succ, Z2Nat.id by (apply Z.div_pos; unfold PAGE; lia). lia.
  - apply runs_val. do 2 (split; [done|]). left. split; [done|]. split; [done | by left].
Qed.

Lemma heap_dealloc_spec st m l1 p ly l2 :
  heap_inv st m (l1 ++ (p, ly) :: l2) ->
  runs (dealloc st m p ly) (fun r => heap_inv (fst r) (snd r) (l1 ++ l2) /\ keeps (l1 ++ l2) m (snd r) /\
    window_base (fst r) = window_base st /\ window_next (fst r) = window_next st).
Proof.
  intros (Hg & bs & Hf & Hlive & Hsep & Hdisj & Hown & Hu & Ht & Hhw).
  apply Forall_app in Hlive as [Hl1 [(Hly & [[sz al] Hreq] & Hok & _) Hl2]%Forall_cons].
  unfold regs in *. rewrite map_app in *. cbn [map] in *. fold (regs l1) (regs l2) in *.
  assert (region (p, ly) = (p, sz)) as Hr by (unfold region; cbn; cbn in Hreq; by rewrite Hreq).
  rewrite Hr in *. cbn in Hok, Hreq. apply separate_app in Hsep as (Hs1 & (Hs2 & Hs3) & Hs4).
  pose proof Hok as (H0 & _ & _ & Hn & _). unfold MIN_BLOCK in Hn.
  unfold dealloc. rewrite (proj2 (Z.eqb_neq p 0)), Hreq by lia.
  eapply runs_bind.
  { apply (insert_spec st m bs p sz Hf Hok). intros x Hx. apply Hdisj. apply covers_app. right. by left. }
  intros [st' m'] (h' & bs' & E & Hf' & Hcov & Htot & Hm). cbn [fst snd] in *. subst st'.
  apply runs_val. cbn [fst snd].
  assert (forall x, covers (regs l1 ++ regs l2) x -> ~ covers bs' x) as Hdisj'.
  { intros x Hc. rewrite Hcov. intros [Hx|Hx].
    - apply covers_app in Hc as [Hc|Hc]; [by apply (Hs4 x Hc); left | by apply (Hs2 x Hx)].
    - apply (Hdisj x); [|done]. rewrite covers_app in *. cbn. tauto. }
  assert (Forall live_ok (l1 ++ l2)) as Hlive' by by apply Forall_app.
  assert (regs (l1 ++ l2) = regs l1 ++ regs l2) as Hregs by (unfold regs; apply map_app).
  rewrite total_app in Hu. cbn in Hu.
  pose proof (live_total _ Hl1). pose proof (live_total _ Hl2).
  split.
  - split; [exact Hg|]. exists bs'. split; [exact Hf'|]. split; [done|]. rewrite Hregs.
    split; [|split; [done|split; [|split; [|split]]]].
    + apply separate_app. split; [done|]. split; [done|]. intros x Hc1 Hc2. apply (Hs4 x Hc1). by right.
    + intros x. change (owned _ x) with (owned st x). rewrite Hown, Hcov, !covers_app. cbn. tauto.
    + cbn. rewrite total_app. lia.
    + cbn. lia.
    + cbn. lia.
  - split; [|done]. intros x Hx. rewrite Hregs in Hx. apply Hm. by apply Hdisj'.
Qed.
End invariant.

(** ** Histories *)

(** The heap, the memory, the machine and the regions handed out. *)
Record World (Env : Type) := mkWorld
  { w_st : HeapState; w_m : memory; w_env : Env; w_live : list (Z * Layout) }.
Arguments mkWorld {Env} w_st w_m w_env w_live.
Arguments w_st {Env} w.
Arguments w_m {Env} w.
Arguments w_env {Env} w.
Arguments w_live {Env} w.

(** What can happen to a heap: requests, returns of regions handed out (null included),
    stores by the owners into their own regions, anything elsewhere in the machine that keeps
    it well formed, and the enabling of the architecture's window, clear of the arena. *)
Inductive hstep {Env} `{PageMapper Env} : World Env -> World Env -> Prop :=
| hs_alloc st m env live ly st' m' env' p :
    layout_ok ly -> alloc st m env ly = Val (st', m', env', p) ->
    hstep (mkWorld st m env live) (mkWorld st' m' env' (if p =? 0 then live else (p, ly) :: live))
| hs_dealloc st m env l1 p ly l2 st' m' :
    dealloc st m p ly = Val (st', m') ->
    hstep (mkWorld st m env (l1 ++ (p, ly) :: l2)) (mkWorld st' m' env (l1 ++ l2))
| hs_dealloc_null st m env live ly st' m' :
    dealloc st m 0 ly = Val (st', m') ->
    hstep (mkWorld st m env live) (mkWorld st' m' env live)
| hs_write st m env live m' :
    (forall x, ~ covers (regs live) x -> m' !! x = m !! x) ->
    hstep (mkWorld st m env live) (mkWorld st m' env live)
| hs_env st m env live env' :
    mapper_ok env' -> hstep (mkWorld st m env live) (mkWorld st m env' live)
| hs_window st m env live :
    (arena_start st + arena_size st <= fst heap_window \/
       fst heap_window + snd heap_window <= arena_start st) ->
    hstep (mkWorld st m env live)
      (mkWorld (window_init st (fst heap_window) (snd heap_window)) m env live).

Definition w_ok {Env} `{PageMapper Env} (arena : block) (w : World Env) : Prop :=
  mapper_ok (w_env w) /\ heap_inv arena (w_st w) (w_m w) (w_live w).

(** Two regions handed out, at two positions, share no byte. *)
Definition pairwise_disjoint (live : list (Z * Layout)) : Prop :=
  forall i j e1 e2, i <> j -> live !! i = Some e1 -> live !! j = Some e2 ->
  forall x, fst (region e1) <= x < fst (region e1) + snd (region e1) ->
  ~ fst (region e2) <= x < fst (region e2) + snd (region e2).

#[local] Arguments region : simpl never.

Lemma covers_lookup live j e x : live !! j = Some e ->
  fst (region e) <= x < fst (region e) + snd (region e) -> covers (regs live) x.
Proof.
  revert j. induction live as [|e' t IH]; intros j Hj Hx; [done|]. cbn.
  destruct (region e') as [a n] eqn:Er. destruct j as [|j]; cbn in Hj.
  - injection Hj as ->. rewrite Er in Hx. by left.
  - right. by eapply IH.
Qed.

Lemma separate_pairwise live : separate (regs live) -> pairwise_disjoint live.
Proof.
  unfold pairwise_disjoint. induction live as [|e t IH]; intros Hs i j e1 e2 Hij Hi Hj x Hx Hx'; [done|].
  cbn in Hs. destruct (region e) as [a n] eqn:Er. destruct Hs as [Hs Hs'].
  destruct i as [|i], j as [|j]; cbn in Hi, Hj; [done| | |by eapply (IH Hs' i j); eauto].
  - injection Hi as ->. rewrite Er in Hx. apply (Hs x Hx). by eapply covers_lookup.
  - injection Hj as ->. rewrite Er in Hx'. apply (Hs x Hx'). by eapply covers_lookup.
Qed.

Lemma window_init_inv {Env} `{PageMapper Env} arena st m live : heap_inv arena st m live ->
  (arena_start st + arena_size st <= fst heap_window \/
     fst heap_window + snd heap_window <= arena_start st) ->
  heap_inv arena (window_init st (fst heap_window) (snd heap_window)) m live.
Proof.
  intros (Hg & bs & Hok) Hout. unfold window_init. pose proof heap_window_ok as (W1 & W2 & W3 & W4).
  destruct (window_enabled st) eqn:Hen; [by split; [|exists bs]|].
  destruct Hg as (G1 & G2 & G3 & G4 & G5 & G6 & G7 & G8 & G9 & G10). specialize (G3 Hen).
  assert (8 | fst heap_window) by (transitivity PAGE; [by exists 512 | done]).
  unfold saturating_add, u_max. split.
  - unfold geometry. cbn. do 3 (split; [done|]). repeat split; try done; lia.
  - exists bs. destruct Hok as (H1 & H2 & H3 & H4 & H5 & H6 & H7 & H8).
    do 4 (split; [done|]). split; [|cbn; split; [done|split; [lia|done]]].
    intros x. rewrite <- H5. unfold owned. cbn. lia.
Qed.

Lemma write_inv {Env} `{PageMapper Env} arena st m m' live : heap_inv arena st m live ->
  (forall x, ~ covers (regs live) x -> m' !! x = m !! x) -> heap_inv arena st m' live.
Proof.
  intros (Hg & bs & [Hl Hw] & H2 & H3 & H4 & H5) Hm. split; [done|]. exists bs.
  split; [split; [|done]|by auto]. eapply lseg_ext; [|done]. intros a n Hin. apply Hm.
  intros Hc. apply (H4 a Hc). apply (covers_elem _ _ n Hin).
  apply (wf_elem _ _ _ _ Hw) in Hin as (_ & (_ & _ & _ & Hn & _) & _). unfold MIN_BLOCK in Hn. lia.
Qed.

Lemma hstep_inv {Env} `{PageMapper Env} arena w w' : w_ok arena w -> hstep w w' -> w_ok arena w'.
Proof.
  unfold w_ok. intros [Henv Hok] Hs. destruct Hs as [st m env live ly st' m' env' p Hly E|st m env l1 p ly l2 st' m' E|
    st m env live ly st' m' E|st m env live m' Hm|st m env live env' Henv'|st m env live Hwok]; cbn in *; try done.
  - destruct (heap_alloc_spec arena st m env ly live Henv Hok Hly) as (r & E' & Hr).
    rewrite E in E'. injection E' as <-. destruct Hr as (He' & _ & [(-> & Hi & _)|(Hp & _ & Hi & _)]); [done|].
    by rewrite (proj2 (Z.eqb_neq p 0)) by lia.
  - destruct (heap_dealloc_spec arena st m l1 p ly l2 Hok) as (r & E' & Hr & _).
    rewrite E in E'. by injection E' as <-.
  - cbn in E. by injection E as <- <-.
  - split; [done|]. by eapply write_inv.
  - split; [done|]. by apply window_init_inv.
Qed.

Lemma init_spec {Env} `{PageMapper Env} m start sz : 0 < start -> 32 <= sz -> start + sz < 2 ^ 64 ->
  exists a u, start <= a < start + 8 /\ sz - 16 < u <= sz /\ a + u <= start + sz /\
  runs (init new m start sz) (fun r => heap_inv (a, u) (fst r) (snd r) [] /\
    window_enabled (fst r) = false /\ free_list (fst r) (snd r) [(a, u)]).
Proof.
  intros Hs Hz Hsz. unfold init. cbn [initialized new].
  pose proof (align_up_spec start 3 ltac:(unfold in_u; lia) ltac:(lia)) as Ha. change (2 ^ 3) with HEADER_ALIGN in Ha.
  destruct (align_up_checked start HEADER_ALIGN) as [a|] eqn:Ea.
  2: { exfalso. unfold HEADER_ALIGN in Ha. apply (Ha (8 * ((start + 7) / 8))); [|by apply Z.divide_factor_l].
       pose proof (Z.div_mod (start + 7) 8). pose proof (Z.mod_pos_bound (start + 7) 8). lia. }
  destruct Ha as (Ha & Hd & Hmin). unfold HEADER_ALIGN in Hd, Hmin.
  assert (a < start + 8) as Ha8.
  { pose proof (Z.div_mod (start + 7) 8). pose proof (Z.mod_pos_bound (start + 7) 8).
    pose proof (Hmin (8 * ((start + 7) / 8)) ltac:(lia) (Z.divide_factor_l _ _)). lia. }
  rewrite sub_u_ok, bind_val, sub_u_ok, bind_val by lia.
  change (HEADER_ALIGN - 1) with (2 ^ 3 - 1). rewrite land_not_low by (unfold in_u; lia). change (2 ^ 3) with 8.
  set (u := 8 * ((sz - (a - start)) / 8)).
  assert (sz - (a - start) - 8 < u <= sz - (a - start)) as Hu.
  { unfold u. pose proof (Z.div_mod (sz - (a - start)) 8). pose proof (Z.mod_pos_bound (sz - (a - start)) 8). lia. }
  assert (blk_ok a u) as Hok.
  { unfold blk_ok, MIN_BLOCK. rewrite !Z.mod_divide by lia. split; [lia|]. split; [done|]. split; [apply Z.divide_factor_l|]. lia. }
  exists a, u. split; [lia|]. split; [lia|]. split; [lia|].
  cbv zeta. rewrite (proj2 (Z.leb_le MIN_BLOCK u)) by (unfold MIN_BLOCK; lia).
  eapply runs_mono.
  { apply (insert_spec _ m [] a u); [split; done | done | intros x _ []]. }
  intros [st' m'] (h' & bs & E & Hf & Hcov & Htot & _). cbn [fst snd] in *. subst st'. cbn in Htot.
  assert (bs = [(a, u)]) as ->.
  { apply (wf_ext 0 0); [apply Hf | cbn; split; [lia | done]|]. intros x. rewrite Hcov. cbn. tauto. }
  split; [|done]. split.
  - unfold geometry. cbn. split; [done|]. split; [done|]. split; [done|]. repeat split; try lia; by exists 0.
  - exists [(a, u)]. split; [done|]. split; [constructor|]. split; [done|]. split; [done|].
    split; [|cbn; lia]. intros x. unfold owned. cbn. lia.
Qed.

Lemma reachable_ok {Env} `{PageMapper Env} arena w w' :
  w_ok arena w -> rtc hstep w w' -> w_ok arena w'.
Proof. intros Hok Hr. induction Hr; [done|]. eauto using hstep_inv. Qed.

Lemma free_list_unique st m l1 l2 : free_list st m l1 -> free_list st m l2 -> l1 = l2.
Proof.
  intros [H1 W1] [H2 W2]. revert H1 W1 H2 W2. generalize (head st) as h. generalize 0 at 2 4 as lo.
  intros lo h. revert h lo l2.
  induction l1 as [|[a n] t IH]; intros h lo [|[b k] u] H1 W1 H2 W2; cbn in *; [done| | |].
  - destruct H2 as (-> & _), W2 as (_ & (? & _) & _). lia.
  - destruct H1 as (-> & _), W1 as (_ & (? & _) & _). lia.
  - destruct H1 as (-> & nx & E1 & H1), H2 as (-> & ny & E2 & H2). rewrite E1 in E2. injection E2 as -> ->.
    f_equal. eapply IH; [exact H1 | apply W1 | exact H2 | apply W2].
Qed.

(** ** Theorems *)

(** C34: allocation always returns (no panic, and the retry loop ends within the pages
    left in the window), and it answers with a fresh region, aligned as asked and wholly
    inside the heap's memory, or with null only when no free block has room for the request
    and the window could not grow; memory already handed out is never written. *)
Theorem heap_alloc_correct {Env} `{PageMapper Env} arena st m (env : Env) ly live :
  mapper_ok env -> heap_inv arena st m live -> layout_ok ly ->
  runs (alloc st m env ly) (alloc_result arena live m ly).
Proof. apply heap_alloc_spec. Qed.

(** C35: whatever the kernel does with the heap after it is laid over an arena — requests,
    returns, stores into its own regions, growth into the window — the regions handed out
    never overlap, the accounting is the sum of their sizes, and no request and no return
    of a region handed out can panic or run on. *)
Theorem heap_histories_safe {Env} `{PageMapper Env} m start sz st0 m0 (env : Env) w :
  0 < start -> 32 <= sz -> start + sz < 2 ^ 64 -> init new m start sz = Val (st0, m0) ->
  mapper_ok env -> rtc hstep (mkWorld st0 m0 env []) w ->
  pairwise_disjoint (w_live w) /\
  (forall e x, e ∈ w_live w -> fst (region e) <= x < fst (region e) + snd (region e) -> owned (w_st w) x) /\
  used (w_st w) = total (regs (w_live w)) /\
  (forall ly, layout_ok ly -> exists r, alloc (w_st w) (w_m w) (w_env w) ly = Val r) /\
  (forall p ly, (p, ly) ∈ w_live w -> exists r, dealloc (w_st w) (w_m w) p ly = Val r).
Proof.
  intros Hs Hz Hsz Hinit Henv Hrtc.
  destruct (init_spec m start sz Hs Hz Hsz) as (a & u & _ & _ & _ & r & Hr & Hinv & _).
  rewrite Hinit in Hr. injection Hr as <-.
  assert (w_ok (a, u) w) as Hok.
  { eapply reachable_ok; [|exact Hrtc]. exact (conj Henv Hinv). }
  pose proof Hok as (Henvw & Hg & bs & Hf & Hlive & Hsep & Hdisj & Hown & Hu & _).
  split; [by apply separate_pairwise|]. split; [|split; [done|split]].
  - intros e x [i Hi]%list_elem_of_lookup Hx. apply Hown. left. by eapply covers_lookup.
  - intros ly Hly. destruct (heap_alloc_spec _ _ _ (w_env w) ly _ Henvw (proj2 Hok) Hly) as (r & E & _). eauto.
  - intros p ly (l1 & l2 & E)%list_elem_of_split. unfold w_ok in Hok. rewrite E in Hok.
    destruct (heap_dealloc_spec _ _ _ _ _ _ _ (proj2 Hok)) as (r & E' & _). eauto.
Qed.

(** Nothing leaks and nothing stays split: when every region has been returned, the
    accounting is zero and the free list is again the one block the arena began as. *)
Theorem heap_all_returned_restores {Env} `{PageMapper Env} m start sz st0 m0 (env : Env) w :
  0 < start -> 32 <= sz -> start + sz < 2 ^ 64 -> init new m start sz = Val (st0, m0) ->
  mapper_ok env -> rtc hstep (mkWorld st0 m0 env []) w -> w_live w = [] -> window_enabled (w_st w) = false ->
  used (w_st w) = 0 /\ head (w_st w) = arena_start st0 /\
  w_m w !! head (w_st w) = Some (mkBlk (arena_size st0) 0).
Proof.
  intros Hs Hz Hsz Hinit Henv Hrtc Hnil Hen.
  destruct (init_spec m start sz Hs Hz Hsz) as (a & u & _ & _ & _ & r & Hr & Hinv & _).
  rewrite Hinit in Hr. injection Hr as <-. cbn [fst snd] in Hinv.
  assert (w_ok (a, u) w) as (_ & Hg & bs & Hf & _ & _ & _ & Hown & Hu & _).
  { eapply reachable_ok; [|exact Hrtc]. exact (conj Henv Hinv). }
  rewrite Hnil in *. destruct Hinv as ((Ha0 & _) & _). destruct Hg as (Ha & Hok & Hw & _). specialize (Hw Hen).
  injection Ha0 as <- <-. injection Ha as Ha Hu'. rewrite Ha, Hu' in *.
  assert (bs = [(arena_start st0, arena_size st0)]) as ->.
  { apply (wf_ext 0 0); [apply Hf | cbn; split; [unfold blk_ok in Hok; lia | done]|].
    intros x. specialize (Hown x). unfold owned in Hown. rewrite Ha, Hu' in Hown. cbn in *. lia || (split; [intros Hc; left|]; [|intros [Hc|[]]]; intuition lia). }
  destruct Hf as [(Hh & nx & Hm & ->) _]. rewrite Hh. done.
Qed.

(** A request some free block has room for gets the lowest address that fits, without
    growing; and returning it gives back the very free list there was before. *)
Theorem heap_first_fit_roundtrip {Env} `{PageMapper Env} arena st m (env : Env) ly live bs sz al b n s :
  heap_inv arena st m live -> layout_ok ly -> free_list st m bs ->
  required ly = Some (sz, al) -> (b, n) ∈ bs -> fits b n sz al s ->
  exists st' m' p, alloc st m env ly = Val (st', m', env, p) /\
    (exists b' n', (b', n') ∈ bs /\ fits b' n' sz al p) /\
    (forall b' n' s', (b', n') ∈ bs -> fits b' n' sz al s' -> p <= s') /\
    exists st'' m'', dealloc st' m' p ly = Val (st'', m'') /\
      free_list st'' m'' bs /\ used st'' = used st.
Proof.
  intros Hinv Hly Hf Hreq Hin Hfit. pose proof Hinv as (Hg & bs0 & Hok).
  assert (bs0 = bs) as -> by (eapply free_list_unique; [apply Hok | exact Hf]).
  destruct (heap_total _ _ _ _ _ Hg Hok) as [Hu Ht].
  destruct (required_spec _ _ _ Hly Hreq) as (Hsz & _ & k & Hk & -> & _).
  destruct (try_fit_spec st m bs sz k Hf Hsz Hk Hu Ht) as ([[st' m'] [p|]] & E & Hpass).
  2: { destruct Hpass as (_ & _ & Hno). by destruct (Hno _ _ _ Hin Hfit). }
  destruct (pass_fresh _ _ _ _ _ _ _ _ _ _ _ Hg Hok Hly Hreq Hpass) as (Hinv' & _).
  destruct (heap_dealloc_spec _ _ _ [] p ly live Hinv') as ([st'' m''] & E' & Hinv'' & _ & Hwb & Hwn).
  destruct Hpass as (b' & n' & h & bs' & Hin' & Hfit' & _ & _ & Hmin & -> & _). cbn in Hwb, Hwn, Hinv''.
  exists (set_used (set_head st h) (used st + sz) (Z.max (high_water st) (used st + sz))), m', p.
  split; [unfold alloc; rewrite Hreq; unfold retry_fuel; cbn [alloc_loop]; by rewrite E|].
  split; [eauto|]. split; [done|]. exists st'', m''. split; [done|].
  destruct Hinv'' as (Hg'' & bs'' & Hf'' & _ & _ & Hd'' & Ho'' & Hu'' & _).
  destruct Hok as (_ & _ & _ & Hd & Ho & Hu0 & _).
  split; [|by rewrite Hu'', Hu0].
  assert (bs'' = bs) as ->; [|done].
  apply (wf_ext 0 0); [apply Hf'' | apply Hf|]. intros x.
  assert (owned st'' x <-> owned st x) as Heq.
  { unfold owned. rewrite Hwb, Hwn. destruct Hg as (Ha & _), Hg'' as (Ha'' & _).
    rewrite <- Ha in Ha''. by injection Ha'' as -> ->. }
  specialize (Ho x). specialize (Ho'' x). specialize (Hd x). specialize (Hd'' x). cbn in *. tauto.
Qed.

(** ** Witnesses *)

(** A machine with so many frames left, its window at 1 MiB. *)
Definition take_frame (k : nat) (_ : Z) : res (bool * nat) :=
  match k with O => Val (false, O) | S k' => Val (true, k') end.
Lemma take_frame_runs (k : nat) va : runs (take_frame k va) (fun _ => True).
Proof. destruct k; by apply runs_val. Qed.
#[local] Instance frames_left : PageMapper nat.
Proof.
  refine {| heap_window := (1048576, 65536); map_one_heap_page := take_frame; mapper_ok _ := True |}.
  - cbn. split; [lia|]. split; [by exists 256 | lia].
  - intros env va _ _ _. apply take_frame_runs.
Defined.

Definition ex_arena : HeapState * memory :=
  (mkHeap 4096 4096 1024 true 0 0 false 0 0 0 0, {[4096 := mkBlk 1024 0]}).
Definition ex_layout : Layout := mkLayout 100 64.
(** The arena after one request: 104 bytes at its start are out. *)
Definition ex_one : HeapState * memory * nat * Z :=
  (mkHeap 4200 4096 1024 true 104 104 false 0 0 0 0,
   {[4096 := mkBlk 1024 0; 4200 := mkBlk 920 0]}, 3%nat, 4096).

Lemma ex_init : init new ∅ 4096 1024 = Val ex_arena.
Proof. vm_compute. reflexivity. Qed.
Lemma ex_alloc : alloc (fst ex_arena) (snd ex_arena) 3%nat ex_layout = Val ex_one.
Proof. vm_compute. reflexivity. Qed.
Lemma ex_layout_ok : layout_ok ex_layout.
Proof. split; [cbn; lia|]. split; [cbn; lia|]. by exists 6. Qed.
Lemma ex_list : free_list (fst ex_arena) (snd ex_arena) [(4096, 1024)].
Proof. split; [by cbn; eauto|]. cbn. unfold blk_ok, MIN_BLOCK. repeat split; lia. Qed.
Lemma ex_inv : heap_inv (4096, 1024) (fst ex_arena) (snd ex_arena) [].
Proof.
  split; [unfold geometry, blk_ok, MIN_BLOCK; cbn; repeat split; try lia; by exists 0|].
  exists [(4096, 1024)]. split; [apply ex_list|]. do 3 (split; [done|]).
  split; [intros x; unfold owned; cbn; lia|]. cbn. lia.
Qed.

Definition ex_w0 : World nat := mkWorld (fst ex_arena) (snd ex_arena) 3%nat [].
Definition ex_w1 : World nat :=
  mkWorld (fst (fst (fst ex_one))) (snd (fst (fst ex_one))) 3%nat [(4096, ex_layout)].
Lemma ex_step1 : hstep ex_w0 ex_w1.
Proof. apply (hs_alloc _ _ _ [] ex_layout _ _ _ 4096 ex_layout_ok ex_alloc). Qed.
Definition ex_back : HeapState * memory :=
  (mkHeap 4096 4096 1024 true 0 104 false 0 0 0 0,
   {[4096 := mkBlk 1024 0; 4200 := mkBlk 920 0]}).
Definition ex_w2 : World nat := mkWorld (fst ex_back) (snd ex_back) 3%nat [].
Lemma ex_step2 : hstep ex_w1 ex_w2.
Proof. apply (hs_dealloc _ _ _ [] 4096 ex_layout []). vm_compute. reflexivity. Qed.

Lemma heap_alloc_correct_witness :
  runs (alloc (fst ex_arena) (snd ex_arena) 3%nat ex_layout)
    (alloc_result (4096, 1024) [] (snd ex_arena) ex_layout).
Proof. exact (@heap_alloc_correct nat frames_left _ _ _ 3%nat _ _ I ex_inv ex_layout_ok). Defined.

Lemma heap_histories_safe_witness :
  pairwise_disjoint (w_live ex_w1) /\ used (w_st ex_w1) = 104.
Proof.
  destruct (@heap_histories_safe nat frames_left ∅ 4096 1024 (fst ex_arena) (snd ex_arena) 3%nat ex_w1
    ltac:(lia) ltac:(lia) ltac:(lia) ex_init I (rtc_once _ _ ex_step1)) as (H1 & _ & H2 & _).
  split; [exact H1 | reflexivity].
Defined.

Lemma heap_all_returned_restores_witness :
  used (w_st ex_w2) = 0 /\ w_m ex_w2 !! 4096 = Some (mkBlk 1024 0).
Proof.
  destruct (@heap_all_returned_restores nat frames_left ∅ 4096 1024 (fst ex_arena) (snd ex_arena) 3%nat ex_w2
    ltac:(lia) ltac:(lia) ltac:(lia) ex_init I (rtc_l _ _ _ _ ex_step1 (rtc_once _ _ ex_step2))
    eq_refl eq_refl) as (H1 & _ & H3).
  split; [exact H1 | exact H3].
Defined.

Lemma heap_first_fit_roundtrip_witness :
  exists st' m' p, alloc (fst ex_arena) (snd ex_arena) 3%nat ex_layout = Val (st', m', 3%nat, p) /\
    exists st'' m'', dealloc st' m' p ex_layout = Val (st'', m'') /\ free_list st'' m'' [(4096, 1024)].
Proof.
  destruct (heap_first_fit_roundtrip (4096, 1024) (fst ex_arena) (snd ex_arena) 3%nat ex_layout []
    [(4096, 1024)] 104 64 4096 1024 4096 ex_inv ex_layout_ok ex_list eq_refl
    (list_elem_of_here _ _))
    as (st' & m' & p & E & _ & _ & st'' & m'' & E' & Hf & _).
  { split; [by left|]. split; [by exists 64 | right; unfold MIN_BLOCK; lia]. }
  exists st', m', p. split; [exact E|]. exists st'', m''. split; [exact E' | exact Hf].
Defined.
