(* ===== verification/Mmu.v ===== *)
(** * x86_64 page tables: [crates/tb-encode/src/paging.rs], [crates/tb-hal/src/arch/x86_64/mmu.rs].

    The four-level tables in identity-mapped physical memory: the entry codec, the
    build-on-demand walk over frames of the allocator of [Pmm], mapping and unmapping in an
    explicit root, and the mapper behind the heap's window, which is an instance of the
    interface of [Heap].  The translation-lookaside buffer is not modelled: [invlpg] and the
    flush of a control-register write have no effect here. *)
From Stdlib Require Import ZArith Lia.
From stdpp Require Import base numbers option tactics sets list gmap.
From S2P Require Import Prelude Pmm Heap.
Open Scope Z_scope.

(** ** Entries *)

Definition PAGE_SIZE : Z := 4096.
Definition ENTRIES : Z := 512.
Definition SHIFT_512G : Z := 39.
Definition SHIFT_1G : Z := 30.
Definition SHIFT_2M : Z := 21.
Definition SHIFT_4K : Z := 12.
Definition ENTRY_ADDR_MASK : Z := 0x0000FFFFFFFFF000.

Definition level_index (va shift : Z) : Z := Z.land (Z.shiftr va shift) (ENTRIES - 1).
Definition make_entry (pa attrs : Z) : Z := Z.lor (Z.land pa ENTRY_ADDR_MASK) attrs.
Definition entry_addr (entry : Z) : Z := Z.land entry ENTRY_ADDR_MASK.
Definition entry_is_valid (entry : Z) : bool := negb (Z.land entry 1 =? 0).

Definition PTE_P : Z := Z.shiftl 1 0.
Definition PTE_RW : Z := Z.shiftl 1 1.
Definition PTE_US : Z := Z.shiftl 1 2.
Definition PTE_PWT : Z := Z.shiftl 1 3.
Definition PTE_PCD : Z := Z.shiftl 1 4.
Definition PTE_NX : Z := Z.shiftl 1 63.
Definition PTE_ADDR_MASK : Z := 0x000FFFFFFFFFF000.

(** ** The machine: the frame allocator, 64-bit words by physical address, the live root *)

Record Machine := mkM { pmm : PmmState; mem : Pmm.memory; cr3 : Z }.
Definition set_mem (s : Machine) (m : Pmm.memory) : Machine := mkM (pmm s) m (cr3 s).

(** [read_volatile(parent.add(idx))] and [write_volatile(parent.add(idx), v)] *)
Definition slot (parent i : Z) : Z := parent + 8 * i.
Definition store (m : Pmm.memory) (a v : Z) : Pmm.memory := fun x => if x =? a then v else m x.
Definition read_slot (s : Machine) (parent i : Z) : Z := mem s (slot parent i).
Definition write_slot (s : Machine) (parent i v : Z) : Machine :=
  set_mem s (store (mem s) (slot parent i) v).

Definition frame_alloc (s : Machine) : res (Machine * option Z) :=
  '(p, o) ← Pmm.alloc (pmm s) (mem s); Val (mkM p (mem s) (cr3 s), o).

Definition HEAP_WINDOW_BASE : Z := 0x0000010000000000.
Definition HEAP_WINDOW_SIZE : Z := 0x40000000.

Definition zero_table (s : Machine) (table : Z) : res Machine :=
  for_up 0 ENTRIES (fun i s => Val (write_slot s table i 0)) s.

Definition ensure_table (s : Machine) (parent i : Z) : res (Machine * option Z) :=
  let entry := read_slot s parent i in
  if entry_is_valid entry then Val (s, Some (entry_addr entry)) else
  '(s, o) ← frame_alloc s;
  match o with
  | None => Val (s, None)
  | Some frame =>
      s ← zero_table s frame;
      Val (write_slot s parent i (make_entry frame (Z.lor PTE_P PTE_RW)), Some frame)
  end.

Definition ensure_table_user (s : Machine) (parent i : Z) : res (Machine * option Z) :=
  let entry := read_slot s parent i in
  if entry_is_valid entry then
    let s := if Z.land entry PTE_US =? 0 then write_slot s parent i (Z.lor entry PTE_US) else s in
    Val (s, Some (entry_addr entry))
  else
  '(s, o) ← frame_alloc s;
  match o with
  | None => Val (s, None)
  | Some frame =>
      s ← zero_table s frame;
      Val (write_slot s parent i (make_entry frame (Z.lor (Z.lor PTE_P PTE_RW) PTE_US)), Some frame)
  end.

(** [match ensure(parent, i) { Some(t) => t, None => return false }] *)
Definition or_false (e : res (Machine * option Z)) (k : Machine -> Z -> res (Machine * bool))
  : res (Machine * bool) :=
  '(s, o) ← e; match o with Some t => k s t | None => Val (s, false) end.

Definition map_one_page (s : Machine) (pml4 va : Z) : res (Machine * bool) :=
  or_false (ensure_table s pml4 (level_index va SHIFT_512G)) (fun s pdpt =>
  or_false (ensure_table s pdpt (level_index va SHIFT_1G)) (fun s pd =>
  or_false (ensure_table s pd (level_index va SHIFT_2M)) (fun s pt =>
  or_false (frame_alloc s) (fun s data =>
    Val (write_slot s pt (level_index va SHIFT_4K)
           (make_entry data (Z.lor (Z.lor PTE_P PTE_RW) PTE_NX)), true))))).

Definition live_root (s : Machine) : Z := Z.land (cr3 s) PTE_ADDR_MASK.

Definition map_one_device_page (s : Machine) (pml4 va pa : Z) : res (Machine * bool) :=
  or_false (ensure_table s pml4 (level_index va SHIFT_512G)) (fun s pdpt =>
  or_false (ensure_table s pdpt (level_index va SHIFT_1G)) (fun s pd =>
  or_false (ensure_table s pd (level_index va SHIFT_2M)) (fun s pt =>
    Val (write_slot s pt (level_index va SHIFT_4K)
           (make_entry pa (Z.lor (Z.lor (Z.lor (Z.lor PTE_P PTE_RW) PTE_PWT) PTE_PCD) PTE_NX)),
         true)))).
Definition map_device_page (s : Machine) (va pa : Z) : res (Machine * bool) :=
  map_one_device_page s (live_root s) va pa.

Definition address_space_new (s : Machine) : res (Machine * option Z) :=
  '(s, o) ← frame_alloc s;
  match o with
  | None => Val (s, None)
  | Some root =>
      let src := live_root s in
      s ← for_up 0 ENTRIES (fun i s => Val (write_slot s root i (read_slot s src i))) s;
      Val (s, Some root)
  end.

Definition map_in_root (s : Machine) (root_pa va pa : Z) (writable : bool) : res (Machine * bool) :=
  or_false (ensure_table s root_pa (level_index va SHIFT_512G)) (fun s pdpt =>
  or_false (ensure_table s pdpt (level_index va SHIFT_1G)) (fun s pd =>
  or_false (ensure_table s pd (level_index va SHIFT_2M)) (fun s pt =>
    let attrs := Z.lor PTE_P PTE_NX in
    let attrs := if writable then Z.lor attrs PTE_RW else attrs in
    Val (write_slot s pt (level_index va SHIFT_4K) (make_entry pa attrs), true)))).

Definition map_user_in_root (s : Machine) (root_pa va pa : Z) (writable exec : bool)
  : res (Machine * bool) :=
  or_false (ensure_table_user s root_pa (level_index va SHIFT_512G)) (fun s pdpt =>
  or_false (ensure_table_user s pdpt (level_index va SHIFT_1G)) (fun s pd =>
  or_false (ensure_table_user s pd (level_index va SHIFT_2M)) (fun s pt =>
    let attrs := Z.lor PTE_P PTE_US in
    let attrs := if writable then Z.lor attrs PTE_RW else attrs in
    let attrs := if exec then attrs else Z.lor attrs PTE_NX in
    Val (write_slot s pt (level_index va SHIFT_4K) (make_entry pa attrs), true)))).

Definition switch_root (s : Machine) (root_pa : Z) : Machine :=
  mkM (pmm s) (mem s) (Z.land root_pa PTE_ADDR_MASK).
Definition current_root (s : Machine) : Z := live_root s.

Definition walk_next (s : Machine) (parent i : Z) : option Z :=
  let entry := read_slot s parent i in
  if entry_is_valid entry then Some (entry_addr entry) else None.

Definition unmap_in_root (s : Machine) (root_pa va : Z) : Machine * option Z :=
  match
    pdpt ← walk_next s root_pa (level_index va SHIFT_512G);
    pd ← walk_next s pdpt (level_index va SHIFT_1G);
    walk_next s pd (level_index va SHIFT_2M)
  with
  | None => (s, None)
  | Some pt =>
      let entry := read_slot s pt (level_index va SHIFT_4K) in
      if Z.land entry PTE_P =? 0 then (s, None) else
      (write_slot s pt (level_index va SHIFT_4K) 0, Some (entry_addr entry))
  end.

Definition va_to_pa_in_root (s : Machine) (root_pa va : Z) : option Z :=
  pdpt ← walk_next s root_pa (level_index va SHIFT_512G);
  pd ← walk_next s pdpt (level_index va SHIFT_1G);
  pt ← walk_next s pd (level_index va SHIFT_2M);
  let entry := read_slot s pt (level_index va SHIFT_4K) in
  if Z.land entry PTE_P =? 0 then None else Some (entry_addr entry).

(** ** Specification: spaces of tables *)

Definition idx_ok (i : Z) : Prop := 0 <= i < ENTRIES.

(** The chain of tables a list of indices leads to. *)
Fixpoint walk (s : Machine) (t : Z) (ix : list Z) : option Z :=
  match ix with
  | [] => Some t
  | i :: ix' => match walk_next s t i with Some t' => walk s t' ix' | None => None end
  end.

Definition indices (va : Z) : list Z :=
  [level_index va SHIFT_512G; level_index va SHIFT_1G; level_index va SHIFT_2M; level_index va SHIFT_4K].

(** The word that maps the page of [va]. *)
Definition leaf_word (s : Machine) (root va : Z) : option Z :=
  match walk s root [level_index va SHIFT_512G; level_index va SHIFT_1G; level_index va SHIFT_2M] with
  | Some pt => Some (read_slot s pt (level_index va SHIFT_4K))
  | None => None
  end.

(** The page of a virtual address: its 36 translated bits. *)
Definition page (va : Z) : Z := (va / PAGE_SIZE) mod 2 ^ 36.

(** A frame that may hold a table. *)
Definition frame_ok (t : Z) : Prop := 0 < t /\ t mod FRAME = 0 /\ t + FRAME <= 2 ^ 48.
Definition in_frame (t a : Z) : Prop := t <= a < t + FRAME.

Section spaces.
(** The slots of the root the space owns (the others are shared, or map large pages), and
    the frames of the pool. *)
Context (P : Z -> Prop) (F : list Z).

(** Slot [i] of the table [t] belongs to the space, the table having level [l]. *)
Definition owned_slot (lv : gmap Z Z) (t l i : Z) : Prop :=
  lv !! t = Some l /\ idx_ok i /\ (l = 4 -> P i).

(** The tables of the space with their levels: one root, entries that lead one level down,
    and no table reached from two slots. *)
Record tables (s : Machine) (root : Z) (lv : gmap Z Z) : Prop := {
  t_root : forall t, lv !! t = Some 4 <-> t = root;
  t_frame : forall t l, lv !! t = Some l -> frame_ok t /\ 1 <= l <= 4;
  t_down : forall t l i c, owned_slot lv t l i -> 2 <= l -> walk_next s t i = Some c -> lv !! c = Some (l - 1);
  t_tree : forall t l i t' l' i' c, owned_slot lv t l i -> owned_slot lv t' l' i' -> 2 <= l -> 2 <= l' ->
    walk_next s t i = Some c -> walk_next s t' i' = Some c -> t = t' /\ i = i';
}.

(** A machine with a space: the free frames [l] are none of its tables. *)
Record space (s : Machine) (root : Z) (lv : gmap Z Z) (l : list Z) : Prop := {
  sp_pool : pool (pmm s) (mem s) F l;
  sp_tables : tables s root lv;
  sp_fresh : forall f, f ∈ l -> lv !! f = None;
  sp_frames : forall f, f ∈ F -> f + FRAME <= 2 ^ 48;
}.

(** [s'] follows from [s] by adding tables: nothing else of memory changes, and every
    address of the space translates as before. *)
Record grown (s : Machine) (root : Z) (lv : gmap Z Z) (l : list Z)
  (s' : Machine) (lv' : gmap Z Z) (l' : list Z) : Prop := {
  g_space : space s' root lv' l';
  g_lv : lv ⊆ lv';
  g_l : exists k, l' = drop k l;
  g_new : forall t n, lv' !! t = Some n -> lv !! t = Some n \/ t ∈ l;
  g_cr3 : cr3 s' = cr3 s;
  g_keep : forall t n i c, owned_slot lv t n i -> walk_next s t i = Some c -> walk_next s' t i = Some c;
  g_leaf : forall t i, lv !! t = Some 1 -> idx_ok i -> read_slot s' t i = read_slot s t i;
  g_mem : forall a, (forall t, is_Some (lv' !! t) -> ~ in_frame t a) -> mem s' a = mem s a;
  g_walk : forall ix, length ix = 4%nat -> Forall idx_ok ix -> (forall i, ix !! 0%nat = Some i -> P i) ->
    walk s' root ix = walk s root ix;
}.
End spaces.
Arguments owned_slot P lv t l i.

(** ** Lemmas: entries *)

Lemma level_index_eq va k : 0 <= k -> level_index va k = (va / 2 ^ k) mod 512.
Proof.
  intros. unfold level_index, ENTRIES. change (512 - 1) with (Z.ones 9).
  rewrite Z.land_ones, Z.shiftr_div_pow2 by lia. done.
Qed.

Lemma level_index_ok va k : 0 <= k -> idx_ok (level_index va k).
Proof. intros. rewrite level_index_eq by done. unfold idx_ok, ENTRIES. by apply Z.mod_pos_bound. Qed.

Lemma indices_page va va' : indices va = indices va' -> page va = page va'.
Proof.
  unfold indices, SHIFT_512G, SHIFT_1G, SHIFT_2M, SHIFT_4K. rewrite !level_index_eq by lia.
  intros [= H1 H2 H3 H4]. unfold page, PAGE_SIZE.
  assert (forall v, (v / 4096) mod 2 ^ 36 =
    ((v / 2 ^ 39) mod 512) * 2 ^ 27 + ((v / 2 ^ 30) mod 512) * 2 ^ 18 +
    ((v / 2 ^ 21) mod 512) * 2 ^ 9 + (v / 2 ^ 12) mod 512) as E; [|rewrite !E; lia].
  intros v. change 4096 with (2 ^ 12). 
  assert (v / 2 ^ 21 = v / 2 ^ 12 / 512) as -> by (rewrite Z.div_div by lia; f_equal; lia).
  assert (v / 2 ^ 30 = v / 2 ^ 12 / 512 / 512) as -> by (rewrite !Z.div_div by lia; f_equal; lia).
  assert (v / 2 ^ 39 = v / 2 ^ 12 / 512 / 512 / 512) as -> by (rewrite !Z.div_div by lia; f_equal; lia).
  generalize (v / 2 ^ 12). intros x.
  change (2 ^ 36) with (512 * (512 * (512 * 512))). rewrite !Z.rem_mul_r by lia. lia.
Qed.

Lemma land_addr_mask f : Z.land f ENTRY_ADDR_MASK = (f / 4096) mod 2 ^ 36 * 4096.
Proof.
  change ENTRY_ADDR_MASK with (Z.shiftl (Z.ones 36) 12).
  apply Z.bits_inj'. intros n Hn. rewrite Z.land_spec. change 4096 with (2 ^ 12).
  rewrite <- (Z.shiftl_mul_pow2 _ 12), Z.shiftl_spec, Z.shiftl_spec by lia.
  destruct (Z.lt_ge_cases n 12).
  - rewrite !(Z.testbit_neg_r _ (n - 12)) by lia. by rewrite andb_false_r.
  - rewrite <- Z.land_ones, Z.land_spec, <- Z.shiftr_div_pow2, Z.shiftr_spec by lia.
    by replace (n - 12 + 12) with n by lia.
Qed.

Lemma land_frame f : frame_ok f -> Z.land f ENTRY_ADDR_MASK = f.
Proof. unfold frame_ok, FRAME. intros (H1 & H2 & H3). rewrite land_addr_mask.
  assert (0 <= f / 4096 < 2 ^ 36) by (Z.to_euclidean_division_equations; lia).
  rewrite Z.mod_small by done. Z.to_euclidean_division_equations; lia. Qed.

Lemma entry_addr_make pa attrs : Z.land attrs ENTRY_ADDR_MASK = 0 ->
  entry_addr (make_entry pa attrs) = Z.land pa ENTRY_ADDR_MASK.
Proof.
  intros Ha. unfold entry_addr, make_entry. rewrite Z.land_lor_distr_l, Ha, Z.lor_0_r.
  by rewrite <- Z.land_assoc, Z.land_diag.
Qed.

Lemma entry_valid_make pa attrs : Z.testbit attrs 0 = true -> entry_is_valid (make_entry pa attrs) = true.
Proof.
  intros Ha. unfold entry_is_valid, make_entry. rewrite Z.land_lor_distr_l.
  apply negb_true_iff, Z.eqb_neq. intros E. apply (f_equal (fun z => Z.testbit z 0)) in E.
  rewrite Z.lor_spec, !Z.land_spec, Ha in E. by rewrite orb_true_r in E.
Qed.

(** ** Lemmas: slots and walks *)

Lemma slot_inj t t' i i' : frame_ok t -> frame_ok t' -> idx_ok i -> idx_ok i' ->
  slot t i = slot t' i' -> t = t' /\ i = i'.
Proof.
  unfold frame_ok, FRAME, idx_ok, ENTRIES, slot. intros (_ & H1 & _) (_ & H2 & _) ?? E.
  Z.to_euclidean_division_equations; lia.
Qed.

Lemma slot_in_frame t i : idx_ok i -> in_frame t (slot t i).
Proof. unfold idx_ok, ENTRIES, in_frame, FRAME, slot. lia. Qed.

Lemma frames_apart t t' a : frame_ok t -> frame_ok t' -> in_frame t a -> in_frame t' a -> t = t'.
Proof.
  unfold frame_ok, in_frame, FRAME. intros (_ & H1 & _) (_ & H2 & _) ??.
  Z.to_euclidean_division_equations; lia.
Qed.

Lemma walk_next_ext s s' t i : read_slot s' t i = read_slot s t i -> walk_next s' t i = walk_next s t i.
Proof. intros E. unfold walk_next. by rewrite E. Qed.

Lemma read_write_eq s t i v : read_slot (write_slot s t i v) t i = v.
Proof. unfold read_slot, write_slot, store. cbn. by rewrite Z.eqb_refl. Qed.
Lemma read_write_ne s t i v t' i' : slot t' i' <> slot t i ->
  read_slot (write_slot s t i v) t' i' = read_slot s t' i'.
Proof. intros Hne. unfold read_slot, write_slot, store. cbn. by rewrite (proj2 (Z.eqb_neq _ _)). Qed.

Lemma walk_app s t ix1 ix2 :
  walk s t (ix1 ++ ix2) = match walk s t ix1 with Some t' => walk s t' ix2 | None => None end.
Proof. revert t. induction ix1 as [|i ix1 IH]; intros t; cbn; [done|]. by destruct (walk_next s t i). Qed.

(** A change of memory keeps a translation when every step along it is kept, or led nowhere
    and now leads to an empty table with steps still to go. *)
Lemma walk_ext s s' ix : forall t,
  (forall pre i post t', ix = pre ++ i :: post -> walk s t pre = Some t' ->
     walk_next s' t' i = walk_next s t' i \/
     (walk_next s t' i = None /\ post <> [] /\ Forall idx_ok post /\
      exists c, walk_next s' t' i = Some c /\ forall j, idx_ok j -> walk_next s' c j = None)) ->
  walk s' t ix = walk s t ix.
Proof.
  induction ix as [|i ix IH]; intros t H; [done|]. cbn [walk].
  destruct (H [] i ix t eq_refl eq_refl) as [E|(E & Hne & Hok & c & Ec & Hz)].
  - rewrite E. destruct (walk_next s t i) as [c|] eqn:Ec; [|done].
    apply IH. intros pre j post t' -> Ht'. apply (H (i :: pre) j post t'); [done|]. cbn. by rewrite Ec.
  - rewrite E, Ec. destruct ix as [|j ix]; [done|]. cbn. apply Forall_cons in Hok as [Hj _]. by rewrite (Hz j Hj).
Qed.

Lemma va_to_pa_walk s root va : va_to_pa_in_root s root va = walk s root (indices va).
Proof.
  unfold va_to_pa_in_root, indices. cbn [walk].
  destruct (walk_next s root _) as [t3|]; [|done]. cbn.
  destruct (walk_next s t3 _) as [t2|]; [|done]. cbn.
  destruct (walk_next s t2 _) as [t1|]; [|done]. cbn.
  unfold walk_next at 1, entry_is_valid. change PTE_P with 1. by destruct (_ =? 0).
Qed.

Lemma va_to_pa_leaf s root va : va_to_pa_in_root s root va =
  match leaf_word s root va with
  | Some e => if entry_is_valid e then Some (entry_addr e) else None
  | None => None
  end.
Proof.
  rewrite va_to_pa_walk. unfold leaf_word, indices. cbn [walk].
  destruct (walk_next s root _) as [t3|]; [|done]. destruct (walk_next s t3 _) as [t2|]; [|done].
  destruct (walk_next s t2 _) as [t1|]; [|done]. unfold walk_next. by destruct (entry_is_valid _).
Qed.

Lemma indices_ok va : Forall idx_ok (indices va).
Proof. repeat (constructor; [by apply level_index_ok|]). constructor. Qed.

Section lemmas.
Context (P : Z -> Prop) (F : list Z).
Implicit Types (s : Machine) (lv : gmap Z Z) (l : list Z).

(** The tables along a walk have the levels it passes. *)
Lemma walk_level s root lv pre : forall t n t', tables P s root lv -> lv !! t = Some n ->
  Forall idx_ok pre -> (n = 4 -> forall i, pre !! 0%nat = Some i -> P i) ->
  Z.of_nat (length pre) < n -> walk s t pre = Some t' -> lv !! t' = Some (n - Z.of_nat (length pre)).
Proof.
  induction pre as [|i pre IH]; intros t n t' Ht Hlv Hok HP Hlen Hw; cbn [walk length] in *.
  { injection Hw as <-. by rewrite Z.sub_0_r. }
  destruct (walk_next s t i) as [c|] eqn:Ec; [|done]. apply Forall_cons in Hok as [Hi Hok].
  assert (lv !! c = Some (n - 1)) as Hc.
  { apply (t_down _ _ _ _ Ht t n i c); [|lia|done]. split; [done|]. split; [done|]. intros Hn. by apply (HP Hn). }
  assert (n <= 4) as Hn4 by (apply (t_frame _ _ _ _ Ht) in Hlv as [_ ?]; lia).
  rewrite (IH c (n - 1) t' Ht Hc Hok); [f_equal; lia | lia | lia | done].
Qed.

(** Two walks of one length from the root meet only if they are the same walk. *)
Lemma walk_inj s root lv pre : forall pre' t, tables P s root lv ->
  length pre = length pre' -> (length pre <= 3)%nat -> Forall idx_ok pre -> Forall idx_ok pre' ->
  (forall i, pre !! 0%nat = Some i -> P i) -> (forall i, pre' !! 0%nat = Some i -> P i) ->
  walk s root pre = Some t -> walk s root pre' = Some t -> pre = pre'.
Proof.
  induction pre as [|i pre IH] using rev_ind; intros pre' t Ht Hlen Hle Hok Hok' HP HP' Hw Hw'.
  { by destruct pre'. }
  destruct pre' as [|i' pre' _] using rev_ind; [rewrite length_app in Hlen; cbn in Hlen; lia|].
  rewrite !length_app in *. cbn in Hlen, Hle.
  rewrite walk_app in Hw, Hw'. destruct (walk s root pre) as [a|] eqn:Ea; [|done].
  destruct (walk s root pre') as [a'|] eqn:Ea'; [|done]. cbn in Hw, Hw'.
  destruct (walk_next s a i) as [b|] eqn:Eb; [|done]. destruct (walk_next s a' i') as [b'|] eqn:Eb'; [|done].
  injection Hw as ->. injection Hw' as ->.
  apply Forall_app in Hok as [Hok [Hi _]%Forall_cons]. apply Forall_app in Hok' as [Hok' [Hi' _]%Forall_cons].
  assert (lv !! root = Some 4) as Hroot by by apply (t_root _ _ _ _ Ht).
  assert (forall q, q = pre \/ q = pre' -> forall x, q !! 0%nat = Some x -> P x) as HPq.
  { intros q [->| ->] x Hx; [apply HP | apply HP']; by apply lookup_app_l_Some. }
  pose proof (walk_level s root lv pre root 4 a Ht Hroot Hok (fun _ => HPq _ (or_introl eq_refl)) ltac:(lia) Ea) as La.
  pose proof (walk_level s root lv pre' root 4 a' Ht Hroot Hok' (fun _ => HPq _ (or_intror eq_refl)) ltac:(lia) Ea') as La'.
  destruct (t_tree _ _ _ _ Ht a (4 - Z.of_nat (length pre)) i a' (4 - Z.of_nat (length pre')) i' t) as [-> ->]; try done.
  - split; [done|]. split; [done|]. intros Hl. assert (pre = []) as -> by (destruct pre; [done|cbn in Hl; lia]). by apply HP.
  - split; [done|]. split; [done|]. intros Hl. assert (pre' = []) as -> by (destruct pre'; [done|cbn in Hl; lia]). by apply HP'.
  - lia.
  - lia.
  - f_equal. apply (IH pre' a'); try done; [lia..| |]; apply HPq; tauto.
Qed.

(** ** Frames *)

Lemma chain_ext (m m' : Pmm.memory) h l : (forall f, f ∈ l -> m' f = m f) -> chain m h l -> chain m' h l.
Proof.
  revert h. induction l as [|x l IH]; intros h Hm Hc; [done|]. cbn in *. destruct Hc as (-> & Hx & Hc).
  split; [done|]. split; [done|]. rewrite (Hm x) by left. apply IH; [|done]. intros f Hf. apply Hm. by right.
Qed.

Lemma pool_ext st m m' l : pool st m F l -> (forall f, f ∈ l -> m' f = m f) -> pool st m' F l.
Proof. intros [] Hm. constructor; try done. by eapply chain_ext. Qed.

Lemma space_frame s root lv l f : space P F s root lv l -> f ∈ l -> frame_ok f /\ lv !! f = None.
Proof.
  intros Hs Hf. split; [|by apply (sp_fresh _ _ _ _ _ _ Hs)].
  pose proof (sp_pool _ _ _ _ _ _ Hs) as Hp. apply (pool_sub _ _ _ _ Hp) in Hf as HF.
  apply (sp_frames _ _ _ _ _ _ Hs) in HF as H48. apply (pool_frames _ _ _ _ Hp) in HF as (? & ? & _). done.
Qed.

Lemma space_table s root lv l t n : space P F s root lv l -> lv !! t = Some n -> frame_ok t.
Proof. intros Hs Ht. by apply (t_frame _ _ _ _ (sp_tables _ _ _ _ _ _ Hs)) in Ht as [? _]. Qed.

Lemma frame_alloc_spec s root lv l : space P F s root lv l ->
  match l with
  | [] => frame_alloc s = Val (s, None)
  | x :: l' => exists p, frame_alloc s = Val (mkM p (mem s) (cr3 s), Some x) /\ pool p (mem s) F l'
  end.
Proof.
  intros Hs. destruct (alloc_pool F _ _ _ (sp_pool _ _ _ _ _ _ Hs)) as [E Hp]. unfold frame_alloc.
  rewrite E. destruct l; [by destruct s | by eexists].
Qed.

Lemma zero_table_spec s t : frame_ok t ->
  runs (zero_table s t) (fun s' => pmm s' = pmm s /\ cr3 s' = cr3 s /\
    (forall i, idx_ok i -> read_slot s' t i = 0) /\ (forall a, ~ in_frame t a -> mem s' a = mem s a)).
Proof.
  intros Ht. unfold zero_table.
  eapply runs_mono; [apply (for_up_inv (fun i s' => pmm s' = pmm s /\ cr3 s' = cr3 s /\
    (forall j, 0 <= j < i -> read_slot s' t j = 0) /\ (forall a, ~ in_frame t a -> mem s' a = mem s a)))|].
  - done.
  - repeat split; try done. intros j. lia.
  - intros i s' Hi (H1 & H2 & H3 & H4). apply runs_val. repeat split; try done.
    + intros j Hj. destruct (decide (j = i)) as [->|Hne]; [apply read_write_eq|].
      rewrite read_write_ne; [apply H3; lia|]. unfold slot. lia.
    + intros a Ha. cbn. unfold store. rewrite (proj2 (Z.eqb_neq _ _)); [by apply H4|].
      intros ->. apply Ha. by apply slot_in_frame.
  - cbn beta. intros s' (? & ? & ? & ?). done.
Qed.

(** ** Adding tables *)

Lemma grown_refl s root lv l : space P F s root lv l -> grown P F s root lv l s lv l.
Proof. intros Hs. constructor; try done; [by exists 0%nat | auto]. Qed.

Lemma grown_trans s root lv l s1 lv1 l1 s2 lv2 l2 :
  grown P F s root lv l s1 lv1 l1 -> grown P F s1 root lv1 l1 s2 lv2 l2 -> grown P F s root lv l s2 lv2 l2.
Proof.
  intros [A1 A2 [k ->] A4 A5 A6 A9 A7 A8] [B1 B2 [k' ->] B4 B5 B6 B9 B7 B8]. constructor; try done.
  - by transitivity lv1.
  - exists (k + k')%nat. by rewrite drop_drop.
  - intros t n [?|Hin]%B4; [by apply A4|]. right. rewrite <- (take_drop k l). apply elem_of_app. by right.
  - by rewrite B5.
  - intros t n i c (Hlv & Hi & HP) Hc. apply (B6 t n); [split; [|done]; by eapply lookup_weaken|].
    by apply (A6 t n).
  - intros t i Ht Hi. rewrite B9, A9; [done..| |done]. by eapply lookup_weaken.
  - intros a Ha. rewrite B7, A7; [done| |done]. intros t [n Ht]. apply Ha. exists n. by eapply lookup_weaken.
  - intros ix H1 H2 H3. by rewrite B8, A8.
Qed.

(** A change of one space's words that moves no link keeps the space as it is. *)
Lemma grown_relink s root lv l s' : space P F s root lv l ->
  pmm s' = pmm s -> cr3 s' = cr3 s ->
  (forall t n i, lv !! t = Some n -> idx_ok i -> walk_next s' t i = walk_next s t i) ->
  (forall t i, lv !! t = Some 1 -> idx_ok i -> read_slot s' t i = read_slot s t i) ->
  (forall a, (forall t, is_Some (lv !! t) -> ~ in_frame t a) -> mem s' a = mem s a) ->
  grown P F s root lv l s' lv l.
Proof.
  intros Hs Hp Hc Hw Hleaf Hm. pose proof Hs as [S1 S2 S3 S4]. constructor; try done.
  - constructor; try done.
    + rewrite Hp. eapply pool_ext; [done|]. intros f Hf. apply Hm. intros t [n Ht] Hin.
      destruct (space_frame _ _ _ _ _ Hs Hf) as [Hok Hno].
      assert (t = f) as -> by (eapply frames_apart; [by eapply space_table | done | done | unfold in_frame, FRAME; lia]).
      congruence.
    + destruct S2 as [T1 T2 T3 T4]. constructor; try done.
      * intros t n i c Ho Hn. destruct Ho as (H1 & H2 & H3). rewrite (Hw t n i) by done. by apply (T3 t n i).
      * intros t n i t' n' i' c (H1 & H2 & H3) (H1' & H2' & H3') ??.
        rewrite (Hw t n i), (Hw t' n' i') by done. by apply T4 with n n'.
  - by exists 0%nat.
  - auto.
  - intros t n i c (H1 & H2 & _) H. by rewrite (Hw t n i).
  - intros ix Hlen Hok HP. apply walk_ext. intros pre i post t' -> Ht'. left.
    rewrite length_app in Hlen. cbn in Hlen. apply Forall_app in Hok as [Hok [Hi _]%Forall_cons].
    apply (Hw _ (4 - Z.of_nat (length pre))); [|done].
    apply (walk_level s root lv pre root 4 t'); try done; [by apply (t_root _ _ _ _ S2) | | lia].
    intros _ j Hj. apply HP. by apply lookup_app_l_Some.
Qed.

(** Linking a fresh, zeroed table where there was none. *)
Lemma grown_link s root lv x l parent n i attrs s' :
  space P F s root lv (x :: l) -> owned_slot P lv parent n i -> 2 <= n ->
  walk_next s parent i = None ->
  pool (pmm s') (mem s') F l -> cr3 s' = cr3 s ->
  Z.land attrs ENTRY_ADDR_MASK = 0 -> Z.testbit attrs 0 = true ->
  read_slot s' parent i = make_entry x attrs ->
  (forall j, idx_ok j -> read_slot s' x j = 0) ->
  (forall a, ~ in_frame x a -> a <> slot parent i -> mem s' a = mem s a) ->
  grown P F s root lv (x :: l) s' (<[x := n - 1]> lv) l /\ walk_next s' parent i = Some x.
Proof.
  intros Hs Ho Hn Hnone Hp Hc Ha Hb Hlink Hz Hm. pose proof Ho as (Hlv & Hi & HP).
  destruct (space_frame _ _ _ _ x Hs) as [Hx Hfx]; [by left|].
  assert (walk_next s' parent i = Some x) as Hnew.
  { unfold walk_next. rewrite Hlink, entry_valid_make, entry_addr_make by done. by rewrite land_frame. }
  assert (forall j, idx_ok j -> walk_next s' x j = None) as Hnox.
  { intros j Hj. unfold walk_next. rewrite Hz by done. done. }
  assert (forall t n j, lv !! t = Some n -> idx_ok j -> (t, j) <> (parent, i) -> walk_next s' t j = walk_next s t j) as Hold.
  { intros t k j Ht Hj Hne. apply walk_next_ext. unfold read_slot. apply Hm.
    - intros Hin. assert (t = x); [|congruence].
      eapply frames_apart; [by eapply space_table | done | by apply slot_in_frame | done].
    - intros E. apply slot_inj in E as [-> ->]; [done | by eapply space_table.. | done | done]. }
  pose proof Hs as [S1 S2 S3 S4]. pose proof S2 as [T1 T2 T3 T4].
  assert (parent <> x) as Hpx by congruence.
  assert (n <= 4) as Hn4 by (apply T2 in Hlv as [_ ?]; lia).
  assert (forall t k j c, owned_slot P (<[x := n - 1]> lv) t k j -> 2 <= k -> walk_next s' t j = Some c ->
    (t = parent /\ j = i /\ k = n /\ c = x) \/ (owned_slot P lv t k j /\ walk_next s t j = Some c /\ c <> x)) as Hcase.
  { intros t k j c (Ht & Hj & HPj) Hk Hw. destruct (decide (t = x)) as [->|Hne]; [by rewrite Hnox in Hw|].
    rewrite lookup_insert_ne in Ht by done. destruct (decide ((t, j) = (parent, i))) as [[= -> ->]|Hne'].
    - left. rewrite Hnew in Hw. injection Hw as <-. rewrite Hlv in Ht. by injection Ht as ->.
    - right. rewrite (Hold t k j) in Hw by done. split; [done|]. split; [done|]. intros ->.
      assert (lv !! x = Some (k - 1)) as E by by apply (T3 t k j). congruence. }
  split; [|done]. constructor; try done.
  - constructor; try done.
    + constructor.
      * intros t. destruct (decide (t = x)) as [->|Hne]; [|by rewrite lookup_insert_ne].
        rewrite lookup_insert_eq. split; [intros [= E]; lia | intros ->]. assert (lv !! root = Some 4) by by apply T1. congruence.
      * intros t k Ht. destruct (decide (t = x)) as [->|Hne]; [|rewrite lookup_insert_ne in Ht by done; eauto].
        rewrite lookup_insert_eq in Ht. injection Ht as <-. split; [done | lia].
      * intros t k j c Hoj Hk Hw. destruct (Hcase t k j c Hoj Hk Hw) as [(-> & -> & -> & ->)|(H1 & H2 & H3)].
        -- by rewrite lookup_insert_eq.
        -- rewrite lookup_insert_ne by done. by apply (T3 t k j).
      * intros t k j t' k' j' c Hoj Hoj' Hk Hk' Hw Hw'.
        destruct (Hcase t k j c Hoj Hk Hw) as [(-> & -> & _ & ->)|(H1 & H2 & H3)],
          (Hcase t' k' j' _ Hoj' Hk' Hw') as [(-> & -> & _ & E)|(H1' & H2' & H3')]; try done.
        by apply (T4 t k j t' k' j' c).
    + intros f Hf. pose proof (pool_nodup _ _ _ _ S1) as [Hnx _]%NoDup_cons.
      rewrite lookup_insert_ne by congruence. apply S3. by right.
  - apply insert_subseteq. done.
  - by exists 1%nat.
  - intros t k. destruct (decide (t = x)) as [->|Hne]; [right; by left | rewrite lookup_insert_ne by done; by left].
  - intros t k j c (Ht & Hj & _) Hw. destruct (decide ((t, j) = (parent, i))) as [[= -> ->]|Hne]; [congruence|].
    by rewrite (Hold t k j).
  - intros t j Ht Hj. unfold read_slot. apply Hm.
    + intros Hin. assert (t = x); [|congruence].
      eapply frames_apart; [by eapply space_table | done | by apply slot_in_frame | done].
    + intros E. apply slot_inj in E as [-> ->]; [|by eapply space_table..|done|done].
      rewrite Hlv in Ht. injection Ht as ->. lia.
  - intros a Hout. apply Hm; [apply Hout; exists (n - 1); apply lookup_insert_eq|].
    intros ->. apply (Hout parent); [|by apply slot_in_frame]. exists n. by rewrite lookup_insert_ne.
  - intros ix Hlen Hok HPx. apply walk_ext. intros pre j post t' -> Ht'.
    rewrite length_app in Hlen. cbn in Hlen. apply Forall_app in Hok as [Hok [Hj Hok']%Forall_cons].
    assert (lv !! t' = Some (4 - Z.of_nat (length pre))) as Hl.
    { apply (walk_level s root lv pre root 4 t'); try done; [by apply T1 | | lia].
      intros _ q Hq. apply HPx. by apply lookup_app_l_Some. }
    destruct (decide ((t', j) = (parent, i))) as [[= -> ->]|Hne]; [right | left; by eapply Hold].
    split; [done|]. split; [destruct post; [|done]; cbn in Hlen; rewrite Hlv in Hl; injection Hl as ->; lia|].
    split; [done|]. by exists x.
Qed.

(** ** The walks that build *)

(** What a step of a building walk promises: the child table, in a space that only grew;
    or nothing at all when the frames have run out. *)
Definition ensure_ok (ens : Machine -> Z -> Z -> res (Machine * option Z)) : Prop :=
  forall s root lv l parent n i, space P F s root lv l -> owned_slot P lv parent n i -> 2 <= n ->
  runs (ens s parent i) (fun r =>
    match snd r with
    | None => l = [] /\ fst r = s
    | Some c => exists lv' l', grown P F s root lv l (fst r) lv' l' /\ walk_next (fst r) parent i = Some c
    end).

Lemma create_spec s root lv l parent n i attrs :
  space P F s root lv l -> owned_slot P lv parent n i -> 2 <= n -> walk_next s parent i = None ->
  Z.land attrs ENTRY_ADDR_MASK = 0 -> Z.testbit attrs 0 = true ->
  runs ('(s, o) ← frame_alloc s;
        match o with
        | None => Val (s, None)
        | Some frame => s ← zero_table s frame; Val (write_slot s parent i (make_entry frame attrs), Some frame)
        end)
    (fun r => match snd r with
      | None => l = [] /\ fst r = s
      | Some c => exists lv' l', grown P F s root lv l (fst r) lv' l' /\ walk_next (fst r) parent i = Some c
      end).
Proof.
  intros Hs Ho Hn Hnone Ha Hb. pose proof (frame_alloc_spec _ _ _ _ Hs) as E. destruct l as [|x l].
  { rewrite E, bind_val. by apply runs_val. }
  destruct E as (p & -> & Hp). rewrite bind_val.
  destruct (space_frame _ _ _ _ x Hs) as [Hx Hfx]; [by left|]. pose proof Ho as (Hlv & Hi & _).
  eapply runs_bind; [by apply zero_table_spec|]. intros s1 (E1 & E2 & Hz & Hm). cbn in E1, E2, Hm.
  apply runs_val. cbn [fst snd]. exists (<[x := n - 1]> lv), l.
  assert (forall j, idx_ok j -> slot x j <> slot parent i) as Hne.
  { intros j Hj E. apply slot_inj in E as [-> _]; [congruence | done | by eapply space_table | done | done]. }
  apply (grown_link s root lv x l parent n i attrs); try done.
  - cbn. rewrite E1. eapply pool_ext; [done|]. intros f Hf. unfold store. cbn.
    pose proof (pool_nodup _ _ _ _ (sp_pool _ _ _ _ _ _ Hs)) as [Hnx _]%NoDup_cons.
    destruct (space_frame _ _ _ _ f Hs) as [Hf1 Hf2]; [by right|].
    rewrite (proj2 (Z.eqb_neq _ _)).
    + apply Hm. intros Hin. assert (f = x) as ->; [|done].
      eapply frames_apart; [done | done | | exact Hin]. unfold in_frame, FRAME. lia.
    + intros Ef. assert (f = parent) as ->; [|congruence].
      eapply frames_apart; [done | by eapply space_table | | rewrite Ef; by apply slot_in_frame]. unfold in_frame, FRAME. lia.
  - apply read_write_eq.
  - intros j Hj. rewrite read_write_ne by by apply Hne. by apply Hz.
  - intros a Hout Ha'. cbn. unfold store. rewrite (proj2 (Z.eqb_neq _ _)) by done. by apply Hm.
Qed.

Lemma ensure_table_ok : ensure_ok ensure_table.
Proof.
  intros s root lv l parent n i Hs Ho Hn. unfold ensure_table.
  destruct (entry_is_valid (read_slot s parent i)) eqn:Ev.
  - apply runs_val. exists lv, l. split; [by apply grown_refl|]. cbn. unfold walk_next. by rewrite Ev.
  - apply (create_spec s root lv l parent n i); try done. unfold walk_next. by rewrite Ev.
Qed.

Lemma lor_us_entry e : entry_is_valid (Z.lor e PTE_US) = entry_is_valid e /\
  entry_addr (Z.lor e PTE_US) = entry_addr e.
Proof.
  unfold entry_is_valid, entry_addr. rewrite !Z.land_lor_distr_l.
  change (Z.land PTE_US 1) with 0. change (Z.land PTE_US ENTRY_ADDR_MASK) with 0. by rewrite !Z.lor_0_r.
Qed.

Lemma ensure_table_user_ok : ensure_ok ensure_table_user.
Proof.
  intros s root lv l parent n i Hs Ho Hn. unfold ensure_table_user. pose proof Ho as (Hlv & Hi & _).
  destruct (entry_is_valid (read_slot s parent i)) eqn:Ev.
  - apply runs_val. exists lv, l. cbn [fst snd].
    set (s' := if _ =? 0 then _ else s).
    assert (forall t j, walk_next s' t j = walk_next s t j) as Hw.
    { intros t j. unfold s'. destruct (_ =? 0); [|done]. unfold walk_next.
      destruct (decide (slot t j = slot parent i)) as [E|Hne]; [|by rewrite read_write_ne].
      assert (forall s, read_slot s t j = read_slot s parent i) as Er by (intros s0; unfold read_slot; by rewrite E).
      rewrite !Er, read_write_eq. destruct (lor_us_entry (read_slot s parent i)) as [-> ->]. done. }
    split; [|rewrite Hw; unfold walk_next; by rewrite Ev].
    apply grown_relink; try done.
    + unfold s'. by destruct (_ =? 0).
    + unfold s'. by destruct (_ =? 0).
    + intros t j Ht Hj. unfold s'. destruct (_ =? 0); [|done]. apply read_write_ne.
      intros E. apply slot_inj in E as [-> ->]; [|by eapply space_table..|done|done].
      rewrite Hlv in Ht. injection Ht as ->. lia.
    + intros a Ha. unfold s'. destruct (_ =? 0); [|done]. cbn. unfold store.
      rewrite (proj2 (Z.eqb_neq _ _)); [done|]. intros ->. apply (Ha parent); [by eexists | by apply slot_in_frame].
  - apply (create_spec s root lv l parent n i); try done. unfold walk_next. by rewrite Ev.
Qed.

Lemma grown_owned s root lv l s' lv' l' t n i : grown P F s root lv l s' lv' l' ->
  owned_slot P lv t n i -> owned_slot P lv' t n i.
Proof. intros Hg (H1 & H2 & H3). split; [|done]. eapply lookup_weaken; [done | apply (g_lv _ _ _ _ _ _ _ _ _ Hg)]. Qed.

Lemma child_owned s root lv l t n i c j : space P F s root lv l -> owned_slot P lv t n i -> 2 <= n <= 4 ->
  walk_next s t i = Some c -> idx_ok j -> owned_slot P lv c (n - 1) j.
Proof.
  intros Hs Ho Hn Hc Hj. split; [|split; [done | lia]].
  apply (t_down _ _ _ _ (sp_tables _ _ _ _ _ _ Hs) t n i c); [done | lia | done].
Qed.

(** The three steps every mapper shares, then what it does with the last table. *)
Lemma descend_spec ens s root lv l va k Q : ensure_ok ens -> space P F s root lv l ->
  P (level_index va SHIFT_512G) ->
  (forall s' lv' l' pt, grown P F s root lv l s' lv' l' ->
     walk s' root [level_index va SHIFT_512G; level_index va SHIFT_1G; level_index va SHIFT_2M] = Some pt ->
     runs (k s' pt) Q) ->
  (forall s' lv', grown P F s root lv l s' lv' [] -> Q (s', false)) ->
  runs (or_false (ens s root (level_index va SHIFT_512G)) (fun s pdpt =>
        or_false (ens s pdpt (level_index va SHIFT_1G)) (fun s pd =>
        or_false (ens s pd (level_index va SHIFT_2M)) k))) Q.
Proof.
  intros Hens Hs HP Hk Hno.
  set (i4 := level_index va SHIFT_512G) in *. set (i3 := level_index va SHIFT_1G) in *. set (i2 := level_index va SHIFT_2M) in *.
  assert (idx_ok i4 /\ idx_ok i3 /\ idx_ok i2) as (O4 & O3 & O2) by (split_and!; by apply level_index_ok).
  assert (owned_slot P lv root 4 i4) as Ho4 by (split; [by apply (t_root _ _ _ _ (sp_tables _ _ _ _ _ _ Hs)) | done]).
  eapply runs_bind; [by apply (Hens s root lv l root 4 i4)|]. intros [s1 [t3|]]; cbn [fst snd].
  2: { intros [-> ->]. apply runs_val. apply (Hno s lv). by apply grown_refl. }
  intros (lv1 & l1 & G1 & W1). pose proof (g_space _ _ _ _ _ _ _ _ _ G1) as S1.
  assert (owned_slot P lv1 root 4 i4) as Ho4' by by eapply grown_owned.
  assert (owned_slot P lv1 t3 3 i3) as Ho3 by (apply (child_owned s1 root lv1 l1 root 4 i4); done || lia).
  eapply runs_bind; [by apply (Hens s1 root lv1 l1 t3 3 i3)|]. intros [s2 [t2|]]; cbn [fst snd].
  2: { intros [-> ->]. apply runs_val. by apply (Hno s1 lv1). }
  intros (lv2 & l2 & G2 & W2). pose proof (g_space _ _ _ _ _ _ _ _ _ G2) as S2.
  assert (owned_slot P lv2 t3 3 i3) as Ho3' by by eapply grown_owned.
  assert (owned_slot P lv2 t2 2 i2) as Ho2 by (apply (child_owned s2 root lv2 l2 t3 3 i3); done || lia).
  pose proof (grown_trans _ _ _ _ _ _ _ _ _ _ G1 G2) as G12.
  eapply runs_bind; [by apply (Hens s2 root lv2 l2 t2 2 i2)|]. intros [s3 [t1|]]; cbn [fst snd].
  2: { intros [-> ->]. apply runs_val. by apply (Hno s2 lv2). }
  intros (lv3 & l3 & G3 & W3). apply (Hk s3 lv3 l3).
  - by eapply grown_trans.
  - cbn [walk].
    rewrite (g_keep _ _ _ _ _ _ _ _ _ G3 root 4 i4 t3); [|by eapply grown_owned | by apply (g_keep _ _ _ _ _ _ _ _ _ G2 root 4)].
    rewrite (g_keep _ _ _ _ _ _ _ _ _ G3 t3 3 i3 t2); [|done | done]. by rewrite W3.
Qed.

(** Writing one leaf. *)
Lemma leaf_spec s root lv l va pt p l' e : space P F s root lv l -> P (level_index va SHIFT_512G) ->
  walk s root [level_index va SHIFT_512G; level_index va SHIFT_1G; level_index va SHIFT_2M] = Some pt ->
  pool p (mem s) F l' -> (forall f, f ∈ l' -> f ∈ l) ->
  let s' := write_slot (mkM p (mem s) (cr3 s)) pt (level_index va SHIFT_4K) e in
  space P F s' root lv l' /\ lv !! pt = Some 1 /\
  walk s' root [level_index va SHIFT_512G; level_index va SHIFT_1G; level_index va SHIFT_2M] = Some pt /\
  (forall va', P (level_index va' SHIFT_512G) -> page va' <> page va ->
     leaf_word s' root va' = leaf_word s root va').
Proof.
  intros Hs HP Hpt Hp Hl' s'. pose proof Hs as [S1 S2 S3 S4].
  set (up := [_; _; _]) in *. set (i1 := level_index va SHIFT_4K) in *.
  assert (Forall idx_ok up) as Hup by (repeat (constructor; [by apply level_index_ok|]); constructor).
  assert (idx_ok i1) as Hi1 by by apply level_index_ok.
  assert (lv !! pt = Some 1) as Hl1.
  { replace 1 with (4 - Z.of_nat (length up)) by done. apply (walk_level s root lv up root 4 pt); try done; [by apply (t_root _ _ _ _ S2)|].
    intros _ i [= <-]. done. }
  assert (frame_ok pt) as Hokpt by by eapply space_table.
  assert (forall t n j, lv !! t = Some n -> idx_ok j -> (t, j) <> (pt, i1) -> walk_next s' t j = walk_next s t j) as Hold.
  { intros t n j Ht Hj Hne. apply walk_next_ext. unfold s'. rewrite read_write_ne; [done|].
    intros E. apply slot_inj in E as [-> ->]; [done | by eapply space_table | done | done | done]. }
  assert (forall ix, (length ix <= 3)%nat -> Forall idx_ok ix -> (forall i, ix !! 0%nat = Some i -> P i) ->
    walk s' root ix = walk s root ix) as Hupper.
  { intros ix Hlen Hok HPx. apply walk_ext. intros pre j post t' -> Ht'. left.
    rewrite length_app in Hlen. cbn in Hlen. apply Forall_app in Hok as [Hok [Hj _]%Forall_cons].
    assert (lv !! t' = Some (4 - Z.of_nat (length pre))) as Hlv.
    { apply (walk_level s root lv pre root 4 t'); try done; [by apply (t_root _ _ _ _ S2) | | lia].
      intros _ q Hq. apply HPx. by apply lookup_app_l_Some. }
    eapply Hold; [done | done|]. intros [= -> ->]. rewrite Hl1 in Hlv. injection Hlv as Hlv. lia. }
  split; [|split; [done|split]].
  - constructor; try done.
    + eapply pool_ext; [done|]. intros f Hf. cbn. unfold store. rewrite (proj2 (Z.eqb_neq _ _)); [done|].
      intros E. apply Hl' in Hf. destruct (space_frame _ _ _ _ f Hs Hf) as [Hf1 Hf2].
      assert (f = pt) as ->; [|congruence].
      eapply frames_apart; [done | done | | rewrite E; by apply slot_in_frame]. unfold in_frame, FRAME. lia.
    + assert (forall t n i, owned_slot P lv t n i -> 2 <= n -> walk_next s' t i = walk_next s t i) as Hsame.
      { intros t n i (H1 & H2 & _) Hn. apply (Hold t n i); [done | done|]. intros [= -> ->]. rewrite Hl1 in H1. injection H1 as <-. lia. }
      destruct S2 as [T1 T2 T3 T4]. constructor; try done.
      * intros t n i c Ho Hn. rewrite (Hsame t n i) by done. by apply T3.
      * intros t n i t' n' i' c Ho Ho' Hn Hn'. rewrite (Hsame t n i), (Hsame t' n' i') by done. by apply T4 with n n'.
    + intros f Hf. apply S3. by apply Hl'.
  - rewrite Hupper; try done. intros i [= <-]. done.
  - intros va' HP' Hne. unfold leaf_word.
    assert (Forall idx_ok [level_index va' SHIFT_512G; level_index va' SHIFT_1G; level_index va' SHIFT_2M]) as Hup'
      by (repeat (constructor; [by apply level_index_ok|]); constructor).
    rewrite Hupper; [|done | done | intros i [= <-]; done].
    destruct (walk s root [_; _; _]) as [t'|] eqn:Ht'; [|done]. f_equal.
    assert (lv !! t' = Some 1) as Hlv.
    { replace 1 with (4 - Z.of_nat 3) by done.
      apply (walk_level s root lv [level_index va' SHIFT_512G; level_index va' SHIFT_1G; level_index va' SHIFT_2M] root 4 t');
        try done; [by apply (t_root _ _ _ _ S2) | intros _ i [= <-]; done]. }
    unfold s'. rewrite read_write_ne; [done|]. intros E.
    apply slot_inj in E as [-> E]; [|by eapply space_table | done | by apply level_index_ok | done].
    apply Hne, indices_page. unfold indices.
    assert ([level_index va' SHIFT_512G; level_index va' SHIFT_1G; level_index va' SHIFT_2M] = up) as Eup.
    { apply (walk_inj s root lv _ up pt); try done; [intros i [= <-]; done | intros i [= <-]; done]. }
    unfold up in Eup. injection Eup as -> -> ->. unfold i1 in E. by rewrite E.
Qed.

(** ** Mapping and unmapping *)

(** No word outside the tables of the space and the free frames has changed. *)
Definition confined s lv l (s' : Machine) : Prop :=
  forall a, (forall t, is_Some (lv !! t) \/ t ∈ l -> ~ in_frame t a) -> mem s' a = mem s a.

(** [s'] is [s] with the page of [va] translating to [o], everything else as it was. *)
Definition remapped s root lv l s' lv' l' va (o : option Z) : Prop :=
  space P F s' root lv' l' /\ (exists k, l' = drop k l) /\
  (forall t n, lv' !! t = Some n -> lv !! t = Some n \/ t ∈ l) /\ lv ⊆ lv' /\
  va_to_pa_in_root s' root va = o /\
  (forall va', P (level_index va' SHIFT_512G) -> page va' <> page va ->
     va_to_pa_in_root s' root va' = va_to_pa_in_root s root va' /\
     forall e, leaf_word s root va' = Some e -> leaf_word s' root va' = Some e) /\
  confined s lv l s' /\ cr3 s' = cr3 s.

Lemma grown_leaf_word s root lv l s' lv' l' va e : space P F s root lv l -> grown P F s root lv l s' lv' l' ->
  P (level_index va SHIFT_512G) -> leaf_word s root va = Some e -> leaf_word s' root va = Some e.
Proof.
  intros Hs Hg HP. unfold leaf_word. cbn [walk].
  assert (owned_slot P lv root 4 (level_index va SHIFT_512G)) as O4
    by (split; [by apply (t_root _ _ _ _ (sp_tables _ _ _ _ _ _ Hs)) | split; [by apply level_index_ok | done]]).
  destruct (walk_next s root _) as [t3|] eqn:E3; [|done]. rewrite (g_keep _ _ _ _ _ _ _ _ _ Hg root 4 _ t3) by done.
  assert (owned_slot P lv t3 3 (level_index va SHIFT_1G)) as O3
    by (apply (child_owned s root lv l root 4 (level_index va SHIFT_512G)); try done; first [lia | by apply level_index_ok]).
  destruct (walk_next s t3 _) as [t2|] eqn:E2; [|done]. rewrite (g_keep _ _ _ _ _ _ _ _ _ Hg t3 3 _ t2) by done.
  assert (owned_slot P lv t2 2 (level_index va SHIFT_2M)) as O2
    by (apply (child_owned s root lv l t3 3 (level_index va SHIFT_1G)); try done; first [lia | by apply level_index_ok]).
  destruct (walk_next s t2 _) as [t1|] eqn:E1; [|done]. rewrite (g_keep _ _ _ _ _ _ _ _ _ Hg t2 2 _ t1) by done.
  destruct (child_owned s root lv l t2 2 _ t1 (level_index va SHIFT_4K) Hs O2) as (O1 & Oi & _); [lia | done | by apply level_index_ok|].
  by rewrite (g_leaf _ _ _ _ _ _ _ _ _ Hg t1).
Qed.

Lemma grown_confined s root lv l s' lv' l' : grown P F s root lv l s' lv' l' -> confined s lv l s'.
Proof.
  intros [G1 G2 G3 G4 G5 G6 G9 G7 G8] a Ha. apply G7. intros t [n Ht]. apply Ha.
  apply G4 in Ht as [Ht|Ht]; [left; by eexists | by right].
Qed.

Lemma confined_leaf s root lv l s' lv' l' pt p i e : space P F s root lv l -> grown P F s root lv l s' lv' l' ->
  lv' !! pt = Some 1 -> idx_ok i -> confined s lv l (write_slot (mkM p (mem s') (cr3 s')) pt i e).
Proof.
  intros Hs Hg Hpt Hi a Ha. cbn. unfold store. rewrite (proj2 (Z.eqb_neq _ _)).
  - by apply (grown_confined _ _ _ _ _ _ _ Hg).
  - intros ->. apply (Ha pt); [|by apply slot_in_frame].
    apply (g_new _ _ _ _ _ _ _ _ _ Hg) in Hpt as [H|H]; [left; by eexists | by right].
Qed.

(** The whole of a mapper: the shared walk, then a leaf written with the frames left. *)
Lemma mapped_leaf s root lv l va s' lv' l1 l' pt p e :
  space P F s root lv l -> P (level_index va SHIFT_512G) -> grown P F s root lv l s' lv' l1 ->
  walk s' root [level_index va SHIFT_512G; level_index va SHIFT_1G; level_index va SHIFT_2M] = Some pt ->
  pool p (mem s') F l' -> (exists k, l' = drop k l1) -> entry_is_valid e = true ->
  let s'' := write_slot (mkM p (mem s') (cr3 s')) pt (level_index va SHIFT_4K) e in
  remapped s root lv l s'' lv' l' va (Some (entry_addr e)) /\ leaf_word s'' root va = Some e.
Proof.
  intros Hs HP Hg Hpt Hp [k Hk] He s''. pose proof (g_space _ _ _ _ _ _ _ _ _ Hg) as S1.
  destruct (leaf_spec s' root lv' l1 va pt p l' e S1 HP Hpt Hp) as (H1 & H2 & H3 & H4).
  { intros f Hf. subst l'. rewrite <- (take_drop k l1). apply elem_of_app. by right. }
  assert (leaf_word s'' root va = Some e) as Hleaf by (unfold leaf_word, s''; rewrite H3; f_equal; apply read_write_eq).
  split; [|done]. split; [done|]. split; [|split; [apply (g_new _ _ _ _ _ _ _ _ _ Hg)|split; [apply (g_lv _ _ _ _ _ _ _ _ _ Hg)|]]].
  { destruct (g_l _ _ _ _ _ _ _ _ _ Hg) as [k' ->]. exists (k' + k)%nat. by rewrite Hk, drop_drop. }
  split; [by rewrite va_to_pa_leaf, Hleaf, He|]. split; [|split].
  - intros va' HP' Hne. unfold s''. rewrite va_to_pa_leaf, H4 by done. split.
    + rewrite <- va_to_pa_leaf, !va_to_pa_walk.
      apply (g_walk _ _ _ _ _ _ _ _ _ Hg); [done | apply indices_ok | intros i [= <-]; done].
    + intros e'. by eapply grown_leaf_word.
  - by apply (confined_leaf s root lv l s' lv' l1); try done; apply level_index_ok.
  - apply (g_cr3 _ _ _ _ _ _ _ _ _ Hg).
Qed.

(** The answer of a mapper: done, or out of frames with every translation kept. *)
Definition map_result s root lv l va (pa : Z) (leaf : Z) (r : Machine * bool) : Prop :=
  exists lv' l',
  if snd r then remapped s root lv l (fst r) lv' l' va (Some pa) /\ leaf_word (fst r) root va = Some leaf
  else l' = [] /\ grown P F s root lv l (fst r) lv' l'.

Lemma map_spec ens s root lv l va pa attrs : ensure_ok ens -> space P F s root lv l ->
  P (level_index va SHIFT_512G) -> Z.land pa ENTRY_ADDR_MASK = pa ->
  Z.land attrs ENTRY_ADDR_MASK = 0 -> Z.testbit attrs 0 = true ->
  runs (or_false (ens s root (level_index va SHIFT_512G)) (fun s pdpt =>
        or_false (ens s pdpt (level_index va SHIFT_1G)) (fun s pd =>
        or_false (ens s pd (level_index va SHIFT_2M)) (fun s pt =>
          Val (write_slot s pt (level_index va SHIFT_4K) (make_entry pa attrs), true)))))
    (map_result s root lv l va pa (make_entry pa attrs)).
Proof.
  intros Hens Hs HP Hpa Ha Hb. apply (descend_spec ens s root lv l va); try done.
  - intros s' lv' l' pt Hg Hpt. apply runs_val. exists lv', l'. cbn [fst snd].
    rewrite <- Hpa at 2. rewrite <- (entry_addr_make pa attrs Ha).
    replace s' with (mkM (pmm s') (mem s') (cr3 s')) at 1 3 by by destruct s'.
    apply (mapped_leaf s root lv l va s' lv' l' l' pt); try done.
    + apply (sp_pool _ _ _ _ _ _ (g_space _ _ _ _ _ _ _ _ _ Hg)).
    + by exists 0%nat.
    + by apply entry_valid_make.
  - intros s' lv' Hg. by exists lv', [].
Qed.

Lemma unmap_spec s root lv l va : space P F s root lv l -> P (level_index va SHIFT_512G) ->
  snd (unmap_in_root s root va) = va_to_pa_in_root s root va /\
  remapped s root lv l (fst (unmap_in_root s root va)) lv l va None.
Proof.
  intros Hs HP.
  assert (forall o, va_to_pa_in_root s root va = o -> o = None -> remapped s root lv l s lv l va None) as Hsame.
  { intros o <- E. unfold remapped. split; [done|]. split; [by exists 0%nat|]. split; [auto|]. done. }
  pose proof (va_to_pa_leaf s root va) as Hv. unfold leaf_word in Hv. unfold unmap_in_root.
  destruct (walk s root [_; _; _]) as [pt|] eqn:Hw; pose proof Hw as Hpt; cbn [walk] in Hw.
  2: { assert ((pdpt ← walk_next s root (level_index va SHIFT_512G);
                pd ← walk_next s pdpt (level_index va SHIFT_1G); walk_next s pd (level_index va SHIFT_2M)) = None) as ->.
       { destruct (walk_next s root _) as [t3|]; [|done]. cbn. destruct (walk_next s t3 _) as [t2|]; [|done]. cbn.
         by destruct (walk_next s t2 _). }
       split; [done|]. by apply (Hsame None). }
  assert ((pdpt ← walk_next s root (level_index va SHIFT_512G);
           pd ← walk_next s pdpt (level_index va SHIFT_1G); walk_next s pd (level_index va SHIFT_2M)) = Some pt) as ->.
  { destruct (walk_next s root _) as [t3|]; [|done]. cbn. destruct (walk_next s t3 _) as [t2|]; [|done]. cbn.
    by destruct (walk_next s t2 _). }
  unfold entry_is_valid in Hv. change PTE_P with 1.
  destruct (Z.land (read_slot s pt (level_index va SHIFT_4K)) 1 =? 0); cbn in Hv |- *.
  { split; [done|]. by apply (Hsame None). }
  split; [done|].
  change (remapped s root lv l (write_slot (mkM (pmm s) (mem s) (cr3 s)) pt (level_index va SHIFT_4K) 0) lv l va None).
  destruct (leaf_spec s root lv l va pt (pmm s) l 0 Hs HP Hpt (sp_pool _ _ _ _ _ _ Hs)) as (H1 & H2 & H3 & H4); [done|].
  split; [done|]. split; [by exists 0%nat|]. split; [auto|]. split; [done|]. split.
  - rewrite va_to_pa_leaf. unfold leaf_word. by rewrite H3, read_write_eq.
  - split; [|split; [|done]].
    { intros va' HP' Hne. rewrite !va_to_pa_leaf, H4 by done. done. }
    apply (confined_leaf s root lv l s lv l); [done | by apply grown_refl | done | by apply level_index_ok].
Qed.
End lemmas.

(** ** The heap's mapper *)

Lemma take_frames s root lv l va P F : space P F s root lv l -> P (level_index va SHIFT_512G) ->
  let leaf x := make_entry x (Z.lor (Z.lor PTE_P PTE_RW) PTE_NX) in
  runs (map_one_page s root va) (fun r => exists lv' l',
    if snd r then exists x, remapped P F s root lv l (fst r) lv' l' va (Some x) /\
      leaf_word (fst r) root va = Some (leaf x) /\ x ∈ l /\ x ∉ l' /\ frame_ok x
    else l' = [] /\ grown P F s root lv l (fst r) lv' l').
Proof.
  intros Hs HP leaf. unfold map_one_page. apply (descend_spec P F ensure_table s root lv l va);
    [apply ensure_table_ok | done | done | |].
  2: { intros s' lv' Hg. by exists lv', []. }
  intros s1 lv1 l1 pt Hg Hpt. pose proof (g_space _ _ _ _ _ _ _ _ _ Hg) as S1.
  pose proof (frame_alloc_spec P F s1 root lv1 l1 S1) as E. unfold or_false. destruct l1 as [|x l'].
  { rewrite E, bind_val. apply runs_val. by exists lv1, []. }
  destruct E as (p & -> & Hp). rewrite bind_val. apply runs_val. exists lv1, l'. cbn [fst snd]. exists x.
  destruct (space_frame P F s1 root lv1 (x :: l') x S1) as [Hx _]; [by left|].
  destruct (mapped_leaf P F s root lv l va s1 lv1 (x :: l') l' pt p (leaf x)) as [H1 H2]; try done.
  - by exists 1%nat.
  - by apply entry_valid_make.
  - unfold leaf in H1 at 2. rewrite entry_addr_make, land_frame in H1 by done. split; [exact H1|]. split; [exact H2|].
    destruct (g_l _ _ _ _ _ _ _ _ _ Hg) as [k Hk].
    split; [rewrite <- (take_drop k l), <- Hk; apply elem_of_app; right; by left|].
    pose proof (pool_nodup _ _ _ _ (sp_pool _ _ _ _ _ _ S1)) as [Hnx _]%NoDup_cons. done.
Qed.

(** The window lies in one slot of the root, the one the live space owns. *)
Definition heap_slot (i : Z) : Prop := i = 2.
Definition live_space (s : Machine) : Prop :=
  exists F lv l, space heap_slot F s (live_root s) lv l.

Lemma window_slot va : HEAP_WINDOW_BASE <= va < HEAP_WINDOW_BASE + HEAP_WINDOW_SIZE ->
  heap_slot (level_index va SHIFT_512G).
Proof.
  unfold HEAP_WINDOW_BASE, HEAP_WINDOW_SIZE, heap_slot, SHIFT_512G. intros Hva. rewrite level_index_eq by lia.
  change (2 ^ 39) with 549755813888. Z.to_euclidean_division_equations; lia.
Qed.

Lemma live_space_kept s va : live_space s -> heap_slot (level_index va SHIFT_512G) ->
  runs ('(s, b) ← map_one_page s (live_root s) va; Val (b, s)) (fun r => live_space (snd r)).
Proof.
  intros (F & lv & l & Hs) HP. eapply runs_bind; [by apply (take_frames s (live_root s) lv l va heap_slot F)|].
  intros [s' b] (lv' & l' & H). apply runs_val. cbn [fst snd] in *. exists F, lv', l'. unfold live_root. destruct b.
  - destruct H as (x & (H1 & _ & _ & _ & _ & _ & _ & ->) & _). exact H1.
  - destruct H as (_ & Hg). rewrite (g_cr3 _ _ _ _ _ _ _ _ _ Hg). apply (g_space _ _ _ _ _ _ _ _ _ Hg).
Qed.

(** The heap's interface, discharged: [map_one_heap_page] under the live root. *)
#[export] Instance x86_mapper : PageMapper Machine.
Proof.
  refine {| heap_window := (HEAP_WINDOW_BASE, HEAP_WINDOW_SIZE);
            map_one_heap_page s va := '(s, b) ← map_one_page s (live_root s) va; Val (b, s);
            mapper_ok := live_space |}.
  - cbn. unfold HEAP_WINDOW_BASE, HEAP_WINDOW_SIZE, PAGE. split; [lia|]. split; [by exists 268435456 | lia].
  - intros s va Hs _ Hva. apply live_space_kept; [done | by apply window_slot].
Defined.

(** ** Isolation *)

Lemma other_space s root lv l P F s' l' lv1 : space P F s root lv l ->
  pool (pmm s') (mem s') F l' -> (forall f, f ∈ l' -> f ∈ l) -> confined s lv1 l s' -> lv1 ##ₘ lv ->
  (forall t n, lv1 !! t = Some n -> frame_ok t) ->
  space P F s' root lv l' /\
  forall va, P (level_index va SHIFT_512G) -> va_to_pa_in_root s' root va = va_to_pa_in_root s root va.
Proof.
  intros Hs Hp Hl Hc Hdisj Hok1. pose proof Hs as [S1 S2 S3 S4].
  assert (forall t n i, lv !! t = Some n -> idx_ok i -> walk_next s' t i = walk_next s t i) as Hw.
  { intros t n i Ht Hi. apply walk_next_ext. unfold read_slot. apply Hc. intros t' Ht' Hin.
    assert (t' = t) as ->.
    { eapply frames_apart; [| by eapply space_table | exact Hin | by apply slot_in_frame].
      destruct Ht' as [[n' Ht']|Ht']; [by eapply Hok1 | by eapply space_frame]. }
    destruct Ht' as [[n' Ht']|Ht']; [by eapply map_disjoint_spec | by rewrite S3 in Ht]. }
  split.
  - constructor; try done; [|intros f Hf; by apply S3, Hl].
    destruct S2 as [T1 T2 T3 T4]. constructor; try done.
    + intros t n i c (H1 & H2 & H3). rewrite (Hw t n i) by done. by apply T3.
    + intros t n i t' n' i' c (H1 & H2 & H3) (H1' & H2' & H3') ??.
      rewrite (Hw t n i), (Hw t' n' i') by done. by apply T4 with n n'.
  - intros va HP. rewrite !va_to_pa_walk. apply walk_ext. intros pre j post t' E Ht'. left.
    pose proof (indices_ok va) as Hok. pose proof (f_equal (@length Z) E) as Hlen. rewrite E in Hok.
    rewrite length_app in Hlen. cbn in Hlen. apply Forall_app in Hok as [Hok [Hj _]%Forall_cons].
    apply (Hw t' (4 - Z.of_nat (length pre))); [|done].
    apply (walk_level P s root lv pre root 4 t'); try done; [by apply (t_root _ _ _ _ S2) | | lia].
    intros _ i Hi. assert (indices va !! 0%nat = Some i) as Hh by (rewrite E; by apply lookup_app_l_Some). by injection Hh as <-.
Qed.

(** Two spaces over one pool of frames, with no table in common. *)
Definition two_spaces (P1 P2 : Z -> Prop) (F : list Z) (s : Machine) (r1 : Z) (lv1 : gmap Z Z)
  (r2 : Z) (lv2 : gmap Z Z) (l : list Z) : Prop :=
  space P1 F s r1 lv1 l /\ space P2 F s r2 lv2 l /\ lv1 ##ₘ lv2.

(** The second space as it was, the two still apart. *)
Definition still_apart (P1 P2 : Z -> Prop) (F : list Z) (s : Machine) (r1 : Z) (lv1 : gmap Z Z)
  (r2 : Z) (lv2 : gmap Z Z) (l : list Z) (s' : Machine) : Prop :=
  exists lv1' l', two_spaces P1 P2 F s' r1 lv1' r2 lv2 l' /\
    forall va, P2 (level_index va SHIFT_512G) -> va_to_pa_in_root s' r2 va = va_to_pa_in_root s r2 va.

Lemma apart_intro P1 P2 F s r1 lv1 r2 lv2 l s' lv1' l' : two_spaces P1 P2 F s r1 lv1 r2 lv2 l ->
  space P1 F s' r1 lv1' l' -> (exists k, l' = drop k l) ->
  (forall t n, lv1' !! t = Some n -> lv1 !! t = Some n \/ t ∈ l) -> confined s lv1 l s' ->
  still_apart P1 P2 F s r1 lv1 r2 lv2 l s'.
Proof.
  intros (H1 & H2 & Hd) H1' [k ->] Hnew Hc. exists lv1', (drop k l).
  destruct (other_space s r2 lv2 l P2 F s' (drop k l) lv1 H2) as [H3 H4]; try done.
  - apply (sp_pool _ _ _ _ _ _ H1').
  - intros f Hf. rewrite <- (take_drop k l). apply elem_of_app. by right.
  - intros t n Ht. by eapply (space_table P1 F s r1 lv1).
  - split; [|done]. split; [done|]. split; [done|]. apply map_disjoint_spec. intros t n n' Ht Ht'.
    apply Hnew in Ht as [Ht|Ht]; [by eapply map_disjoint_spec|]. by rewrite (sp_fresh _ _ _ _ _ _ H2 t Ht) in Ht'.
Qed.

(** ** A new address space *)

Lemma copy_spec s src x : frame_ok src -> frame_ok x -> src <> x ->
  runs (for_up 0 ENTRIES (fun i s => Val (write_slot s x i (read_slot s src i))) s)
    (fun s' => pmm s' = pmm s /\ cr3 s' = cr3 s /\
      (forall i, idx_ok i -> read_slot s' x i = read_slot s src i) /\
      (forall a, ~ in_frame x a -> mem s' a = mem s a)).
Proof.
  intros Hsrc Hx Hne.
  eapply runs_mono; [apply (for_up_inv (fun i s' => pmm s' = pmm s /\ cr3 s' = cr3 s /\
    (forall j, 0 <= j < i -> read_slot s' x j = read_slot s src j) /\ (forall a, ~ in_frame x a -> mem s' a = mem s a)))|].
  - done.
  - repeat split; try done. intros j. lia.
  - intros i s' Hi (H1 & H2 & H3 & H4). apply runs_val. repeat split; try done.
    + intros j Hj. destruct (decide (j = i)) as [->|Hji].
      * rewrite read_write_eq. apply H4. intros Hin. apply Hne.
        eapply frames_apart; [done | done | by apply slot_in_frame | done].
      * rewrite read_write_ne; [apply H3; lia|]. unfold slot. lia.
    + intros a Ha. cbn. unfold store. rewrite (proj2 (Z.eqb_neq _ _)); [by apply H4|].
      intros ->. apply Ha. by apply slot_in_frame.
  - cbn beta. intros s' (? & ? & ? & ?). done.
Qed.

(** The slots the live root leaves empty: the private half of a new root. *)
Definition private (s : Machine) (i : Z) : Prop := walk_next s (live_root s) i = None.

Definition new_space_result (P : Z -> Prop) (F : list Z) (s : Machine) (lv : gmap Z Z) (l : list Z)
  (r : Machine * option Z) : Prop :=
  match snd r with
  | None => l = [] /\ fst r = s
  | Some root => exists l', l = root :: l' /\
      two_spaces P (private s) F (fst r) (live_root s) lv root {[root := 4]} l' /\
      (forall i, idx_ok i -> read_slot (fst r) root i = read_slot s (live_root s) i) /\
      (forall va, P (level_index va SHIFT_512G) ->
         va_to_pa_in_root (fst r) (live_root s) va = va_to_pa_in_root s (live_root s) va) /\
      (forall va, private s (level_index va SHIFT_512G) -> va_to_pa_in_root (fst r) root va = None) /\
      cr3 (fst r) = cr3 s
  end.

Lemma address_space_new_spec P F s lv l : space P F s (live_root s) lv l ->
  runs (address_space_new s) (new_space_result P F s lv l).
Proof.
  intros Hs. unfold address_space_new. pose proof (frame_alloc_spec P F s _ _ _ Hs) as E. destruct l as [|x l].
  { rewrite E, bind_val. by apply runs_val. }
  destruct E as (p & -> & Hp). rewrite bind_val. cbn zeta.
  change (live_root (mkM p (mem s) (cr3 s))) with (live_root s).
  destruct (space_frame P F s _ _ _ x Hs) as [Hx Hfx]; [by left|].
  assert (lv !! live_root s = Some 4) as Hroot by by apply (t_root _ _ _ _ (sp_tables _ _ _ _ _ _ Hs)).
  pose proof (space_table P F _ _ _ _ _ _ Hs Hroot) as Hrok.
  eapply runs_bind; [apply (copy_spec _ (live_root s) x); congruence || done|].
  intros s' (E1 & E2 & Hcp & Hm). cbn in E1, E2, Hm. apply runs_val. unfold new_space_result. cbn [fst snd].
  pose proof (pool_nodup _ _ _ _ (sp_pool _ _ _ _ _ _ Hs)) as [Hnx _]%NoDup_cons.
  assert (pool (pmm s') (mem s') F l) as Hp'.
  { rewrite E1. eapply pool_ext; [done|]. intros f Hf. apply Hm. intros Hin.
    destruct (space_frame P F s _ _ _ f Hs) as [Hf1 _]; [by right|].
    assert (f = x) as ->; [|done]. eapply frames_apart; [done | done | | exact Hin]. unfold in_frame, FRAME. lia. }
  destruct (other_space s (live_root s) lv (x :: l) P F s' l {[x := 4]} Hs Hp') as [H1 H2].
  { intros f Hf. by right. }
  { intros a Ha. apply Hm. apply Ha. left. exists 4. by simplify_map_eq. }
  { apply map_disjoint_singleton_l. done. }
  { intros t n [<- _]%lookup_singleton_Some. done. }
  exists l. split; [done|].
  assert (forall i, idx_ok i -> walk_next s' x i = walk_next s (live_root s) i) as Hw.
  { intros i Hi. unfold walk_next. by rewrite Hcp. }
  assert (forall t n i, owned_slot (private s) {[x := 4]} t n i -> walk_next s' t i = None) as Hempty.
  { intros t n i (Ht & Hi & HP). apply lookup_singleton_Some in Ht as [<- <-]. rewrite Hw by done. by apply HP. }
  split; [|split; [|split; [exact H2|split; [|done]]]].
  - split; [done|]. split; [|by apply map_disjoint_singleton_r]. constructor; [done | constructor | |].
    + intros t. split; [by intros [-> _]%lookup_singleton_Some | intros ->; by simplify_map_eq].
    + intros t n [<- <-]%lookup_singleton_Some. split; [done | lia].
    + intros t n i c Ho _ Hc. by rewrite (Hempty t n i) in Hc.
    + intros t n i t' n' i' c Ho _ _ _ Hc. by rewrite (Hempty t n i) in Hc.
    + intros f Hf. apply lookup_singleton_None. congruence.
    + apply (sp_frames _ _ _ _ _ _ Hs).
  - intros i Hi. by rewrite Hcp.
  - intros va Hva. rewrite va_to_pa_walk. unfold indices. cbn [walk].
    rewrite Hw by by apply level_index_ok. unfold private in Hva. by rewrite Hva.
Qed.

(** ** The heap's window *)

Definition heap_leaf (x : Z) : Z := make_entry x (Z.lor (Z.lor PTE_P PTE_RW) PTE_NX).

(** The frames [fr], taken from the pool, back the pages from [va] on. *)
Record backed (F : list Z) (s : Machine) (lv : gmap Z Z) (l : list Z) (va : Z)
  (s' : Machine) (l' : list Z) (fr : list Z) : Prop := {
  b_space : exists lv', space heap_slot F s' (live_root s') lv' l';
  b_root : cr3 s' = cr3 s;
  b_nodup : NoDup fr;
  b_fresh : forall x, x ∈ fr -> x ∈ l /\ x ∉ l' /\ frame_ok x;
  b_sub : exists k, l' = drop k l;
  b_leaf : forall j x, fr !! j = Some x -> leaf_word s' (live_root s) (va + Z.of_nat j * PAGE) = Some (heap_leaf x);
  b_rest : forall va', heap_slot (level_index va' SHIFT_512G) ->
    (forall j, (j < length fr)%nat -> page va' <> page (va + Z.of_nat j * PAGE)) ->
    va_to_pa_in_root s' (live_root s) va' = va_to_pa_in_root s (live_root s) va' /\
    forall e, leaf_word s (live_root s) va' = Some e -> leaf_word s' (live_root s) va' = Some e;
}.

Lemma window_pages va j j' : (PAGE | va) -> 0 <= va -> 0 <= j -> 0 <= j' ->
  va + j * PAGE < 2 ^ 48 -> va + j' * PAGE < 2 ^ 48 ->
  page (va + j * PAGE) = page (va + j' * PAGE) -> j = j'.
Proof.
  unfold PAGE, page, PAGE_SIZE. intros [q ->] H0 Hj Hj' Hb Hb'.
  replace (q * 4096 + j * 4096) with ((q + j) * 4096) in * by lia.
  replace (q * 4096 + j' * 4096) with ((q + j') * 4096) in * by lia.
  rewrite !Z.div_mul by lia. rewrite !Z.mod_small by lia. lia.
Qed.

Lemma heap_page_spec F s lv l va : space heap_slot F s (live_root s) lv l ->
  HEAP_WINDOW_BASE <= va < HEAP_WINDOW_BASE + HEAP_WINDOW_SIZE ->
  runs (map_one_heap_page s va) (fun r => exists lv' l',
    if fst r then exists x, remapped heap_slot F s (live_root s) lv l (snd r) lv' l' va (Some x) /\
      leaf_word (snd r) (live_root s) va = Some (heap_leaf x) /\ x ∈ l /\ x ∉ l' /\ frame_ok x
    else l' = [] /\ grown heap_slot F s (live_root s) lv l (snd r) lv' l').
Proof.
  intros Hs Hva. eapply runs_bind; [apply (take_frames s (live_root s) lv l va heap_slot F Hs (window_slot va Hva))|].
  intros [s' b] H. by apply runs_val.
Qed.

Lemma backed_none F s lv l va s' lv' : grown heap_slot F s (live_root s) lv l s' lv' [] ->
  space heap_slot F s (live_root s) lv l -> backed F s lv l va s' [] [].
Proof.
  intros Hg Hs. pose proof (g_cr3 _ _ _ _ _ _ _ _ _ Hg) as Hc. constructor; try done.
  - exists lv'. unfold live_root. rewrite Hc. apply (g_space _ _ _ _ _ _ _ _ _ Hg).
  - constructor.
  - by intros x ?%not_elem_of_nil.
  - apply (g_l _ _ _ _ _ _ _ _ _ Hg).
  - intros va' HP _. rewrite !va_to_pa_walk. split.
    + apply (g_walk _ _ _ _ _ _ _ _ _ Hg); [done | apply indices_ok | intros i [= <-]; done].
    + intros e. by eapply grown_leaf_word.
Qed.

Lemma backed_cons F s lv l va s1 lv1 l1 x s2 l2 fr : 0 <= va -> (PAGE | va) ->
  va + (1 + Z.of_nat (length fr)) * PAGE <= HEAP_WINDOW_BASE + HEAP_WINDOW_SIZE -> HEAP_WINDOW_BASE <= va ->
  remapped heap_slot F s (live_root s) lv l s1 lv1 l1 va (Some x) ->
  leaf_word s1 (live_root s) va = Some (heap_leaf x) -> x ∈ l -> x ∉ l1 -> frame_ok x ->
  backed F s1 lv1 l1 (va + PAGE) s2 l2 fr -> backed F s lv l va s2 l2 (x :: fr).
Proof.
  intros Hva Hd Hend Hlo (R1 & [k Hk] & R3 & R4 & R5 & R6 & R7 & R8) Hleaf Hx Hx1 Hok [B1 B2 B3 B4 [k' Hk'] B6 B7].
  assert (HEAP_WINDOW_BASE + HEAP_WINDOW_SIZE < 2 ^ 48) as H48 by (unfold HEAP_WINDOW_BASE, HEAP_WINDOW_SIZE; lia).
  assert (live_root s1 = live_root s) as Hroot by (unfold live_root; by rewrite R8).
  assert (forall f, f ∈ l2 -> f ∈ l1) as Hsub.
  { intros f Hf. rewrite <- (take_drop k' l1), <- Hk'. apply elem_of_app. by right. }
  rewrite Hroot in *. constructor.
  - done.
  - by rewrite B2.
  - apply NoDup_cons. split; [|done]. intros Hin. by apply B4 in Hin as (? & _).
  - intros f [->|Hf]%elem_of_cons; [split; [done|]; split; [by intros Hf%Hsub | done]|].
    apply B4 in Hf as (H1 & H2 & H3). split; [|done]. rewrite <- (take_drop k l), <- Hk. apply elem_of_app. by right.
  - exists (k + k')%nat. by rewrite Hk', Hk, drop_drop.
  - intros [|j] y Hy; cbn in Hy.
    + injection Hy as <-. rewrite Z.mul_0_l, Z.add_0_r. apply B7; [| |done].
      * apply window_slot. unfold PAGE in *. lia.
      * intros j Hj E. replace (va + PAGE + Z.of_nat j * PAGE) with (va + (1 + Z.of_nat j) * PAGE) in E by (unfold PAGE; lia).
        replace va with (va + 0 * PAGE) in E at 1 by lia.
        assert (0 = 1 + Z.of_nat j); [|lia].
        by apply (window_pages va); try lia; try done; unfold PAGE in *; lia.
    + rewrite <- (B6 j y Hy). f_equal. unfold PAGE. lia.
  - intros va' HP' Hne.
    destruct (B7 va' HP') as [B7a B7b].
    { intros j Hj. specialize (Hne (S j) ltac:(cbn; lia)). rewrite Nat2Z.inj_succ in Hne.
      by replace (va + PAGE + Z.of_nat j * PAGE) with (va + Z.succ (Z.of_nat j) * PAGE) by (unfold PAGE; lia). }
    destruct (R6 va' HP') as [R6a R6b].
    { specialize (Hne 0%nat ltac:(cbn; lia)). by rewrite Z.mul_0_l, Z.add_0_r in Hne. }
    split; [by rewrite B7a|]. auto.
Qed.

Lemma map_heap_frames_spec F k : forall s lv l va mapped,
  space heap_slot F s (live_root s) lv l -> (PAGE | va) ->
  HEAP_WINDOW_BASE <= va -> 0 <= mapped ->
  va + (mapped + Z.of_nat k) * PAGE <= HEAP_WINDOW_BASE + HEAP_WINDOW_SIZE ->
  runs (map_heap_frames k s va mapped) (fun r => exists l' fr,
    fst r = mapped + zlen fr /\ (length fr <= k)%nat /\ ((length fr < k)%nat -> l' = []) /\
    backed F s lv l (va + mapped * PAGE) (snd r) l' fr).
Proof.
  assert (HEAP_WINDOW_BASE + HEAP_WINDOW_SIZE < 2 ^ 48) as H48 by (unfold HEAP_WINDOW_BASE, HEAP_WINDOW_SIZE; lia).
  assert (0 <= HEAP_WINDOW_BASE) as HB by (unfold HEAP_WINDOW_BASE; lia).
  induction k as [|k IH]; intros s lv l va mapped Hs Hd Hlo Hm Hhi; cbn [map_heap_frames].
  { apply runs_val. exists l, []. cbn. split; [rewrite zlen_nil; lia|]. split; [lia|]. split; [lia|].
    constructor; [by exists lv | done | constructor | by intros x ?%not_elem_of_nil | by exists 0%nat | done | done]. }
  rewrite Nat2Z.inj_succ in Hhi.
  rewrite add_u_ok, bind_val by (unfold PAGE in *; lia).
  eapply runs_bind; [apply (heap_page_spec F s lv l _ Hs); unfold PAGE in *; lia|].
  intros [[] s1] (lv1 & l1 & H); cbn [fst snd] in H.
  - destruct H as (x & Hr & Hleaf & Hx & Hx1 & Hok). pose proof Hr as (R1 & _ & _ & _ & _ & _ & _ & R8).
    assert (live_root s1 = live_root s) as Hroot by (unfold live_root; by rewrite R8).
    rewrite <- Hroot in R1.
    eapply runs_mono; [apply (IH s1 lv1 l1 va (mapped + 1) R1 Hd); lia|].
    intros [n s2] (l2 & fr & E & Hlen & Hout & Hb). cbn [fst snd] in *.
    exists l2, (x :: fr). split; [rewrite zlen_cons; lia|]. split; [cbn; lia|]. split; [intros ?; apply Hout; cbn in *; lia|].
    apply (backed_cons F s lv l (va + mapped * PAGE) s1 lv1 l1 x); try done; try (unfold PAGE in *; lia).
    + apply Z.divide_add_r; [done | apply Z.divide_factor_r].
    + by replace (va + mapped * PAGE + PAGE) with (va + (mapped + 1) * PAGE) by lia.
  - destruct H as (-> & Hg). apply runs_val. exists [], []. cbn. split; [rewrite zlen_nil; lia|]. split; [lia|]. split; [done|].
    by apply (backed_none F s lv l _ s1 lv1).
Qed.

(** ** Theorems *)

(** After [map]: the page translates to [pa] with the given leaf word and nothing else of the
    space moved, and unmapping it hands [pa] back and leaves every translation of the space as
    it was before the mapping, the page's own gone. *)
Definition maps_and_unmaps P F (s : Machine) root lv l va pa leaf (r : Machine * bool) : Prop :=
  map_result P F s root lv l va pa leaf r /\
  (snd r = true ->
     snd (unmap_in_root (fst r) root va) = Some pa /\
     va_to_pa_in_root (fst (unmap_in_root (fst r) root va)) root va = None /\
     forall va', P (level_index va' SHIFT_512G) -> page va' <> page va ->
       va_to_pa_in_root (fst (unmap_in_root (fst r) root va)) root va' = va_to_pa_in_root s root va').

Lemma maps_intro P F s root lv l va pa leaf m : space P F s root lv l -> P (level_index va SHIFT_512G) ->
  runs m (map_result P F s root lv l va pa leaf) ->
  runs m (maps_and_unmaps P F s root lv l va pa leaf).
Proof.
  intros Hs HP Hm. eapply runs_mono; [exact Hm|]. intros [s' b] Hr. split; [done|]. cbn [fst snd]. intros ->.
  destruct Hr as (lv' & l' & (R1 & _ & _ & _ & R5 & R6 & _) & _). cbn [fst snd] in *.
  destruct (unmap_spec P F s' root lv' l' va R1 HP) as (U1 & _ & _ & _ & _ & U5 & U6 & _).
  split; [by rewrite U1|]. split; [done|]. intros va' HP' Hne.
  destruct (U6 va' HP' Hne) as [-> _]. by apply R6.
Qed.

Definition pa_ok (pa : Z) : Prop := 0 <= pa < 2 ^ 48 /\ pa mod FRAME = 0.

Lemma land_pa pa : pa_ok pa -> Z.land pa ENTRY_ADDR_MASK = pa.
Proof.
  unfold pa_ok, FRAME. intros [H1 H2]. rewrite land_addr_mask.
  assert (0 <= pa / 4096 < 2 ^ 36) by (Z.to_euclidean_division_equations; lia).
  rewrite Z.mod_small by done. Z.to_euclidean_division_equations; lia.
Qed.

(** C36: mapping in an explicit root does what it says and nothing more.  On a well-formed
    space, [map_in_root], [map_user_in_root] and the device
    mapper never panic; they succeed unless the frames
    run out (and then no translation has changed), the page then translates to the frame with
    exactly the permissions asked for (never executable and never user-accessible through
    [map_in_root]), no other page of the space moves, and [unmap_in_root] returns the frame
    and undoes the mapping. *)
Theorem mmu_map_unmap_in_root P F s root lv l va pa (writable exec : bool) :
  space P F s root lv l -> P (level_index va SHIFT_512G) -> pa_ok pa ->
  runs (map_in_root s root va pa writable)
    (maps_and_unmaps P F s root lv l va pa
       (make_entry pa (if writable then 2 ^ 63 + 3 else 2 ^ 63 + 1))) /\
  runs (map_user_in_root s root va pa writable exec)
    (maps_and_unmaps P F s root lv l va pa
       (make_entry pa ((if exec then 0 else 2 ^ 63) + (if writable then 7 else 5)))) /\
  runs (map_one_device_page s root va pa)
    (maps_and_unmaps P F s root lv l va pa (make_entry pa (2 ^ 63 + 27))).
Proof.
  intros Hs HP Hpa%land_pa. split; [|split]; apply maps_intro; try done.
  - replace (if writable then 2 ^ 63 + 3 else 2 ^ 63 + 1)
      with (if writable then Z.lor (Z.lor PTE_P PTE_NX) PTE_RW else Z.lor PTE_P PTE_NX) by by destruct writable.
    apply (map_spec P F ensure_table s root lv l va pa); try done; [apply ensure_table_ok | by destruct writable..].
  - replace ((if exec then 0 else 2 ^ 63) + (if writable then 7 else 5))
      with (let attrs := Z.lor PTE_P PTE_US in
            let attrs := if writable then Z.lor attrs PTE_RW else attrs in
            if exec then attrs else Z.lor attrs PTE_NX) by by destruct writable, exec.
    apply (map_spec P F ensure_table_user s root lv l va pa); try done; [apply ensure_table_user_ok | by destruct writable, exec..].
  - apply (map_spec P F ensure_table s root lv l va pa (2 ^ 63 + 27)); try done. apply ensure_table_ok.
Qed.

(** C37: memory isolation.  With two address spaces over one frame pool that share no table,
    mapping (supervisor or user) and unmapping in one changes no translation of the other, and
    leaves them two well-formed spaces that share no table, so this holds for ever after. *)
Theorem mmu_spaces_stay_isolated P1 P2 F s r1 lv1 r2 lv2 l va pa (writable exec : bool) :
  two_spaces P1 P2 F s r1 lv1 r2 lv2 l -> P1 (level_index va SHIFT_512G) -> pa_ok pa ->
  runs (map_in_root s r1 va pa writable) (fun r => still_apart P1 P2 F s r1 lv1 r2 lv2 l (fst r)) /\
  runs (map_user_in_root s r1 va pa writable exec) (fun r => still_apart P1 P2 F s r1 lv1 r2 lv2 l (fst r)) /\
  still_apart P1 P2 F s r1 lv1 r2 lv2 l (fst (unmap_in_root s r1 va)).
Proof.
  intros Htwo HP Hpa. pose proof Htwo as (H1 & _ & _).
  assert (forall r leaf, map_result P1 F s r1 lv1 l va pa leaf r -> still_apart P1 P2 F s r1 lv1 r2 lv2 l (fst r)) as Hres.
  { intros [s' b] leaf (lv' & l' & H). cbn [fst snd] in H. destruct b.
    - destruct H as ((R1 & R2 & R3 & _ & _ & _ & R7 & _) & _). by eapply apart_intro.
    - destruct H as (-> & Hg). eapply apart_intro; [done | apply (g_space _ _ _ _ _ _ _ _ _ Hg) | apply (g_l _ _ _ _ _ _ _ _ _ Hg) |
        apply (g_new _ _ _ _ _ _ _ _ _ Hg) | by eapply grown_confined]. }
  apply land_pa in Hpa. split; [|split].
  - eapply runs_mono; [|intros r Hr; by eapply Hres].
    apply (map_spec P1 F ensure_table s r1 lv1 l va pa); try done; [apply ensure_table_ok | by destruct writable..].
  - eapply runs_mono; [|intros r Hr; by eapply Hres].
    apply (map_spec P1 F ensure_table_user s r1 lv1 l va pa); try done; [apply ensure_table_user_ok | by destruct writable, exec..].
  - destruct (unmap_spec P1 F s r1 lv1 l va H1 HP) as (_ & R1 & R2 & R3 & _ & _ & _ & R7 & _). by eapply apart_intro.
Qed.

(** A new address space is born isolated.  [address_space_new] takes one frame (or
    reports that there is none) for a root whose every slot reads as the live root's, so the
    kernel half is shared; the slots the live root leaves empty form a space of their own in
    which nothing translates and which shares no table with the live space, whose
    translations have not changed. *)
Theorem mmu_new_space_isolated P F s lv l : space P F s (live_root s) lv l ->
  runs (address_space_new s) (new_space_result P F s lv l).
Proof. apply address_space_new_spec. Qed.

(** Growth of the heap is backed.  Mapping [k] pages of the heap's window under the live
    root never panics; it backs a prefix of them, all [k] unless the frames ran out, each with
    a frame of its own taken from the pool, writable, never executable and kernel-only; no
    other page of the window moves, and the machine stays well formed for the next growth. *)
Theorem mmu_heap_window_backed F s lv l va k :
  space heap_slot F s (live_root s) lv l -> (PAGE | va) -> HEAP_WINDOW_BASE <= va ->
  va + Z.of_nat k * PAGE <= HEAP_WINDOW_BASE + HEAP_WINDOW_SIZE ->
  runs (map_heap_frames k s va 0) (fun r => exists l' fr,
    fst r = zlen fr /\ fst r <= Z.of_nat k /\ (fst r < Z.of_nat k -> l' = []) /\
    backed F s lv l va (snd r) l' fr).
Proof.
  intros Hs Hd Hlo Hhi. eapply runs_mono.
  { apply (map_heap_frames_spec F k s lv l va 0); try done; lia. }
  intros r (l' & fr & E & Hlen & Hout & Hb). rewrite Z.mul_0_l, Z.add_0_r in Hb. exists l', fr.
  unfold zlen in *. split; [lia|]. split; [lia|]. split; [intros ?; apply Hout; lia | done].
Qed.

(** ** Witnesses *)

(** The roots at 1 MiB and 1 MiB + 4 KiB, empty, the first live. *)
Definition ex_machine : Machine := mkM (fst demo_pool) (snd demo_pool) 1048576.
Definition ex_F : list Z := [4096; 12288; 16384; 20480; 69632; 73728].
Definition ex_l : list Z := [73728; 69632; 20480; 16384; 12288; 4096].

Lemma ex_space (P : Z -> Prop) r : frame_ok r -> r ∉ ex_l ->
  (forall i, P i -> walk_next ex_machine r i = None) -> space P ex_F ex_machine r {[r := 4]} ex_l.
Proof.
  intros Hr Hnot Hempty. constructor.
  - exact demo_pool_ok.
  - constructor.
    + intros t. split; [by intros [-> _]%lookup_singleton_Some | intros ->; by simplify_map_eq].
    + intros t n [<- <-]%lookup_singleton_Some. split; [done | lia].
    + intros t n i c ([<- <-]%lookup_singleton_Some & _ & HP) _ Hc. by rewrite Hempty in Hc by by apply HP.
    + intros t n i t' n' i' c ([<- <-]%lookup_singleton_Some & _ & HP) _ _ _ Hc. by rewrite Hempty in Hc by by apply HP.
  - intros f Hf. apply lookup_singleton_None. congruence.
  - intros f Hf. assert (f <= 73728); [|unfold FRAME; lia].
    revert f Hf. apply Forall_forall. repeat constructor; lia.
Qed.

Lemma ex_live : space heap_slot ex_F ex_machine (live_root ex_machine) {[live_root ex_machine := 4]} ex_l.
Proof.
  apply ex_space.
  - vm_compute. repeat split; congruence || discriminate.
  - apply (bool_decide_unpack _). vm_compute. exact I.
  - intros i ->. vm_compute. reflexivity.
Qed.

Lemma ex_two : two_spaces heap_slot (fun i => i = 3) ex_F ex_machine 1048576 {[1048576 := 4]} 1052672 {[1052672 := 4]} ex_l.
Proof.
  split; [exact ex_live|]. split.
  - apply ex_space.
    + vm_compute. repeat split; congruence || discriminate.
    + apply (bool_decide_unpack _). vm_compute. exact I.
    + intros i ->. vm_compute. reflexivity.
  - apply map_disjoint_singleton_l. by rewrite lookup_singleton_ne.
Qed.

Lemma mmu_map_unmap_in_root_witness :
  runs (map_in_root ex_machine (live_root ex_machine) HEAP_WINDOW_BASE 0x200000 true)
    (maps_and_unmaps heap_slot ex_F ex_machine (live_root ex_machine) {[live_root ex_machine := 4]} ex_l
       HEAP_WINDOW_BASE 0x200000 (make_entry 0x200000 (2 ^ 63 + 3))).
Proof.
  apply (mmu_map_unmap_in_root heap_slot ex_F ex_machine _ _ ex_l HEAP_WINDOW_BASE 0x200000 true true ex_live).
  - reflexivity.
  - vm_compute. repeat split; congruence.
Defined.

Lemma mmu_spaces_stay_isolated_witness :
  let apart := still_apart heap_slot (fun i => i = 3) ex_F ex_machine 1048576 {[1048576 := 4]}
                 1052672 {[1052672 := 4]} ex_l in
  runs (map_in_root ex_machine 1048576 HEAP_WINDOW_BASE 0x200000 true) (fun r => apart (fst r)) /\
  apart (fst (unmap_in_root ex_machine 1048576 HEAP_WINDOW_BASE)).
Proof.
  destruct (mmu_spaces_stay_isolated heap_slot (fun i => i = 3) ex_F ex_machine 1048576 _ 1052672 _ ex_l
           HEAP_WINDOW_BASE 0x200000 true true ex_two) as (H1 & _ & H2).
  - reflexivity.
  - vm_compute. repeat split; congruence.
  - split; [exact H1 | exact H2].
Defined.

Lemma mmu_new_space_isolated_witness :
  runs (address_space_new ex_machine)
    (new_space_result heap_slot ex_F ex_machine {[live_root ex_machine := 4]} ex_l).
Proof. exact (mmu_new_space_isolated heap_slot ex_F ex_machine _ ex_l ex_live). Defined.

Lemma mmu_heap_window_backed_witness :
  runs (map_heap_frames 2 ex_machine HEAP_WINDOW_BASE 0) (fun r => exists l' fr,
    fst r = zlen fr /\ fst r <= 2 /\ (fst r < 2 -> l' = []) /\
    backed ex_F ex_machine {[live_root ex_machine := 4]} ex_l HEAP_WINDOW_BASE (snd r) l' fr).
Proof.
  apply (mmu_heap_window_backed ex_F ex_machine _ ex_l HEAP_WINDOW_BASE 2 ex_live).
  - exists 268435456. reflexivity.
  - reflexivity.
  - vm_compute. congruence.
Defined.
