(* ===== verification/BlockDev.v ===== *)
(** * Interface: the block driver

    What the durable stores rely on of the architecture's virtio-blk driver
    ([blk_probe], [blk_read], [blk_write], [blk_flush] of [crates/tb-hal/src/arch/]), and a
    concrete disk that loses power after a number of writes. *)
From Stdlib Require Import ZArith Lia.
From stdpp Require Import base numbers option tactics sets list.
From S2P Require Import Prelude.
Open Scope Z_scope.


(** The architecture's block driver.  [sectors_of] is what the disk holds; a read returns it,
    and a write that fails may or may not have happened, but a sector is never torn: so a
    power cut in the middle of a commit is a write that fails. *)
Class BlockDevice (D : Type) := {
  blk_probe : D -> option Z;
  blk_read : D -> Z -> option (list Z);
  blk_write : D -> Z -> list Z -> D * bool;
  blk_flush : D -> bool;
  sectors_of : D -> Z -> list Z;
  sectors_ok : forall d s, zlen (sectors_of d s) = 512 /\ bytes (sectors_of d s);
  blk_read_ok : forall d cap s, blk_probe d = Some cap -> 0 <= s < cap ->
    blk_read d s = Some (sectors_of d s);
  blk_write_ok : forall d s b d' ok, zlen b = 512 -> bytes b -> blk_write d s b = (d', ok) ->
    blk_probe d' = blk_probe d /\ (forall x, x <> s -> sectors_of d' x = sectors_of d x) /\
    (sectors_of d' s = b \/ (ok = false /\ sectors_of d' s = sectors_of d s));
}.

(** ** A disk whose power goes after a given number of writes *)

Definition whole (b : list Z) : bool := (zlen b =? 512) && forallb (fun x => (0 <=? x) && (x <? 256)) b.

Record Disk := mkDisk { fuse : nat; stored : list (Z * list Z) }.

Fixpoint stored_at (m : list (Z * list Z)) (s : Z) : list Z :=
  match m with
  | [] => zrepeat 512 0
  | (x, b) :: m' => if (x =? s) && whole b then b else stored_at m' s
  end.

Definition disk_write (d : Disk) (s : Z) (b : list Z) : Disk * bool :=
  match fuse d with O => (d, false) | S k => (mkDisk k ((s, b) :: stored d), true) end.

Lemma whole_ok b : whole b = true <-> zlen b = 512 /\ bytes b.
Proof.
  unfold whole. rewrite andb_true_iff, Z.eqb_eq, forallb_forall, Forall_forall. split.
  - intros [Hl Hb]. split; [done|]. intros x Hx%list_elem_of_In. specialize (Hb x Hx). unfold in_u. lia.
  - intros [Hl Hb]. split; [done|]. intros x Hx%list_elem_of_In. specialize (Hb x Hx). unfold in_u in Hb. lia.
Qed.

Lemma stored_ok m s : zlen (stored_at m s) = 512 /\ bytes (stored_at m s).
Proof.
  induction m as [|[x b] m IH]; cbn [stored_at].
  - split; [done|]. apply zrepeat_Forall. unfold in_u. lia.
  - destruct (x =? s); [|done]. cbn [andb]. destruct (whole b) eqn:E; [by apply whole_ok | done].
Qed.

#[export] Program Instance Disk_device : BlockDevice Disk := {|
  blk_probe d := Some 16384;
  blk_read d s := Some (stored_at (stored d) s);
  blk_write := disk_write;
  blk_flush d := true;
  sectors_of d := stored_at (stored d);
|}.
Next Obligation. intros. apply stored_ok. Qed.
Next Obligation. done. Qed.
Next Obligation.
  intros [k m] s b d' ok Hl Hb Hw. unfold disk_write in Hw. cbn [fuse stored] in *.
  destruct k as [|k]; injection Hw as <- <-; cbn [stored stored_at]; [by auto|]. split; [done|]. split.
  - intros x Hx. by rewrite (proj2 (Z.eqb_neq _ _)) by congruence.
  - left. by rewrite Z.eqb_refl, (proj2 (whole_ok b)).
Qed.
