(* ===== verification/CorpusPersist.v ===== *)
(** * The durable corpus: [corpus_persist] of [crates/tb-hal/src/mem/organ/selftests.rs].

    Boot after boot, the two slots of the corpus region are read, the newer consistent one
    is validated, this boot's records are appended, and the result is written to the staler
    slot.  It composes the record codec ([Corpus]), the fold ([Prov]) and the sector codec
    ([Provhead]) over a block device, which is an interface. *)
From Stdlib Require Import ZArith Lia.
From stdpp Require Import base numbers option tactics sets list.
From S2P Require Import Prelude BlockDev Prov Corpus Provhead.
Open Scope Z_scope.

Definition CORPUS_PERSIST_DOMAIN : list Z :=
  [0x59; 0x55; 0x56; 0x41; 0x2D; 0x43; 0x4F; 0x52; 0x50; 0x55; 0x53; 0x2D; 0x4D; 0x33; 0x39; 0].
Definition CORPUS_PERSIST_MAX_RECORDS : Z := SIG_CAP / CORPUS_CANON_LEN.
Definition CORPUS_PERSIST_BASE : Z := 12288.

Record CorpusPersistProof := mkProof {
  present : bool;
  persisted : bool;
  survived : bool;
  head_matches : bool;
  head_disk : Z;
  records_disk : Z;
  records_total : Z;
}.

Section device.
Context {D : Type} `{BlockDevice D}.

(** [while s < MAX_SECTORS { blk_read(base + s, &mut sec)?; dst[..] = sec; s += 1 }] *)
Definition m33_read_slab (d : D) (base : Z) (dst : list Z) : res (option (list Z)) :=
  for_up_opt 0 MAX_SECTORS (fun s dst =>
    match blk_read d (base + s) with
    | None => Val None
    | Some sec =>
        let off := s * SECTOR in
        dst ← blit dst off (off + SECTOR) sec; Val (Some dst)
    end) dst.

Fixpoint write_sectors (k : nat) (d : D) (base : Z) (bytes : list Z) (s : Z) : res (D * bool) :=
  match k with
  | O => Val (d, true)
  | S k' =>
      sec ← slice bytes (s * SECTOR) ((s + 1) * SECTOR);
      let '(d, ok) := blk_write d (base + s) sec in
      if (ok : bool) then write_sectors k' d base bytes (s + 1) else Val (d, false)
  end.
Definition m33_write_slab (d : D) (base : Z) (bytes : list Z) : res (D * bool) :=
  write_sectors (Z.to_nat (zlen bytes / SECTOR)) d base bytes 0.

Definition decode_slot (slab : option (list Z)) : res (option (DecodedHead * list Z)) :=
  match slab with
  | Some s => Provhead.decode s (zrepeat BLOB_CAP 0)
  | None => Val None
  end.

(** Unpack, decode and digest the packed records; [None] where one does not decode. *)
Definition unpack (blob : list Z) (count : Z) : res (option (list (list Z) * list (list Z))) :=
  for_up_opt 0 count (fun i '(recs, ids) =>
    let base := OFF_SIG + i * CORPUS_CANON_LEN in
    rb ← slice blob base (base + CORPUS_CANON_LEN);
    r ← Corpus.decode rb;
    match r with
    | None => Val None
    | Some _ => id ← prov_hash rb; Val (Some (recs ++ [rb], ids ++ [id]))
    end) ([], []).

Definition first_and_rest (ids : list (list Z)) : res (list Z * list (list Z)) :=
  match ids with [] => Panic | x :: l => Val (x, l) end.
Definition recompute_ids (ids : list (list Z)) : res (list Z) :=
  '(x, l) ← first_and_rest ids; recompute x l.

(** The records of a decoded slab, if it is a corpus slab whose fold head checks. *)
Definition validated (rec : DecodedHead) (blob : list Z) : res (option (list (list Z))) :=
  let count := dh_q rec in
  let siglen := dh_siglen rec in
  if bool_decide (dh_i_id rec = CORPUS_PERSIST_DOMAIN) && (0 <? count) &&
     (count <=? CORPUS_PERSIST_MAX_RECORDS) && (count * CORPUS_CANON_LEN =? siglen) then
    u ← unpack blob count;
    match u with
    | None => Val None
    | Some (recs, ids) =>
        if bool_decide (ids = []) then Val None else
        h ← recompute_ids ids;
        if bool_decide (h = dh_head rec) then Val (Some recs) else Val None
    end
  else Val None.

(** What two decoded slots hold: the winning slot, its generation, and its record and
    records when they validate. *)
Definition recover (da db : option (DecodedHead * list Z))
  : res (option bool * Z * option (DecodedHead * list (list Z))) :=
  let gen x := match x with Some (rec, _) => Some (dh_gen rec) | None => None end in
  let winner := pick_newer (gen da) (gen db) in
  match winner with
  | None => Val (winner, 0, None)
  | Some is_b =>
      match (if (is_b : bool) then db else da) with
      | None => Val (winner, 0, None)
      | Some (rec, blob) =>
          v ← validated rec blob;
          Val (winner, dh_gen rec, match v with Some recs => Some (rec, recs) | None => None end)
      end
  end.

Definition read_back (d : D) : res (option bool * Z * option (DecodedHead * list (list Z))) :=
  slab_a ← m33_read_slab d CORPUS_PERSIST_BASE (zrepeat SLAB_BYTES 0);
  slab_b ← m33_read_slab d (CORPUS_PERSIST_BASE + MAX_SECTORS) (zrepeat SLAB_BYTES 0);
  da ← decode_slot slab_a;
  db ← decode_slot slab_b;
  recover da db.

(** Prior records and this boot's, bounded to the most recent. *)
Definition accumulate (prior cur : list (list Z)) : list (list Z) :=
  let acc := prior ++ cur in
  if CORPUS_PERSIST_MAX_RECORDS <? zlen acc then zdrop (zlen acc - CORPUS_PERSIST_MAX_RECORDS) acc
  else acc.

Definition hash_all (acc : list (list Z)) : res (list (list Z)) :=
  fold_res (fun ids rb => id ← prov_hash rb; Val (ids ++ [id])) [] acc.

Definition target_of (winner : option bool) : Z :=
  match winner with
  | Some false => CORPUS_PERSIST_BASE + MAX_SECTORS
  | Some true => CORPUS_PERSIST_BASE
  | None => CORPUS_PERSIST_BASE
  end.

(** [cur] is what [corpus_seed_and_consolidate] returned: this boot's records and head. *)
Definition corpus_persist (d : D) (in_guest : bool) (cur : option (list (list Z) * list Z))
  : res (D * CorpusPersistProof) :=
  let r0 := mkProof false false false false 0 0 0 in
  if in_guest then Val (d, r0) else
  match cur with
  | None => Val (d, r0)
  | Some (cur_records, cur_head) =>
      if bool_decide (cur_records = []) then Val (d, r0) else
      w ← head_witness cur_head;
      match blk_probe d with
      | None => Val (d, mkProof false false false false w 0 0)
      | Some cap =>
          if cap <? CORPUS_PERSIST_BASE + 2 * MAX_SECTORS then
            Val (d, mkProof false false false false w 0 0) else
          '(winner, prior_gen, prior) ← read_back d;
          w ← match (prior : option (DecodedHead * list (list Z))) with
              | Some (rec, _) => head_witness (dh_head rec) | None => Val w end;
          let survived := match prior with Some _ => true | None => false end in
          let on_disk := match prior with Some (rec, _) => dh_q rec | None => 0 end in
          let prior_records := match prior with Some (_, recs) => recs | None => [] end in
          let acc := accumulate prior_records cur_records in
          acc_ids ← hash_all acc;
          acc_head ← recompute_ids acc_ids;
          let sig := concat acc in
          let new_gen := wrapping_add 64 prior_gen 1 in
          '(wblob, wslab, n) ← Provhead.encode new_gen (zlen acc) acc_head CORPUS_PERSIST_DOMAIN
             (zrepeat ROOT_LEN 0) sig (zrepeat BLOB_CAP 0) (zrepeat SLAB_BYTES 0);
          '(d, ok) ← (if 0 <? n then b ← slice wslab 0 n; m33_write_slab d (target_of winner) b
                      else Val (d, false));
          let persisted := (ok : bool) && blk_flush d in
          Val (d, mkProof true persisted survived survived w on_disk (zlen acc))
      end
  end.
End device.

(** ** Specification *)

(** A run of [k] sectors of the disk. *)
Fixpoint span (c : Z -> list Z) (base : Z) (k : nat) : list Z :=
  match k with O => [] | S k' => span c base k' ++ c (base + Z.of_nat k') end.

(** A packed record a boot may hold: the canonical length, and the decoder accepts it. *)
Definition good_record (rb : list Z) : Prop :=
  zlen rb = CORPUS_CANON_LEN /\ bytes rb /\ exists r, Corpus.decode rb = Val (Some r).

(** The generation tag in a sector's first four bytes. *)
Definition sector_tag (sec : list Z) : Z := of_le (zsub 0 4 sec).

(** ** Lemmas: sectors *)

Section spans.
Context (c : Z -> list Z) (Hc : forall s, zlen (c s) = 512 /\ bytes (c s)).

Lemma zlen_span base k : zlen (span c base k) = 512 * Z.of_nat k.
Proof.
  induction k as [|k IH]; [done|]. cbn [span]. rewrite zlen_app, IH, (proj1 (Hc _)). unfold SECTOR. lia.
Qed.

Lemma span_bytes base k : bytes (span c base k).
Proof.
  induction k as [|k IH]; [apply Forall_nil_2|]. cbn [span]. apply Forall_app. split; [done | apply Hc].
Qed.

Lemma zsub_span base k s off n : 0 <= s < Z.of_nat k -> 0 <= off -> 0 <= n -> off + n <= 512 ->
  zsub (512 * s + off) n (span c base k) = zsub off n (c (base + s)).
Proof.
  intros Hs Ho Hn Hf. induction k as [|k IH]; [lia|]. cbn [span]. pose proof (zlen_span base k) as Hl.
  destruct (decide (s = Z.of_nat k)) as [->|Hne].
  - apply (zsub_skip _ _ _ _ (512 * Z.of_nat k)); [done | lia | done].
  - rewrite <- IH by lia. unfold zsub. rewrite zdrop_app_le, ztake_app_le by zl. done.
Qed.
End spans.

Lemma span_ext c c' base k : (forall s, 0 <= s < Z.of_nat k -> c' (base + s) = c (base + s)) ->
  span c' base k = span c base k.
Proof.
  induction k as [|k IH]; intros H; [done|]. cbn [span]. rewrite IH, H by (intros; try apply H; lia). done.
Qed.

(** A buffer is the span its sectors spell. *)
Lemma span_of c base k l : zlen l = 512 * Z.of_nat k ->
  (forall s, 0 <= s < Z.of_nat k -> c (base + s) = zsub (512 * s) 512 l) -> span c base k = l.
Proof.
  revert l. induction k as [|k IH]; intros l Hl H.
  { symmetry. apply zlen_0. lia. }
  cbn [span]. rewrite (IH (ztake (512 * Z.of_nat k) l)).
  - rewrite H by lia. rewrite <- (ztake_zdrop (512 * Z.of_nat k) l) at 3. f_equal.
    unfold zsub. apply ztake_all. zl.
  - zl.
  - intros s Hs. rewrite H by lia. rewrite <- (ztake_zdrop (512 * Z.of_nat k) l) at 1. unfold zsub.
    by rewrite zdrop_app_le, ztake_app_le by zl.
Qed.

Lemma zsub_concat (k i : Z) (l : list (list Z)) x : 0 <= k -> Forall (fun y => zlen y = k) l ->
  0 <= i -> l !! Z.to_nat i = Some x -> zsub (k * i) k (concat l) = x.
Proof.
  intros Hk Hl Hi. revert i Hi. induction Hl as [|y l Hy Hl IH]; intros i Hi Hx; [done|]. cbn [concat].
  destruct (decide (i = 0)) as [->|Hne].
  - injection Hx as ->. rewrite Z.mul_0_r. by apply zsub_app_eq.
  - replace (Z.to_nat i) with (S (Z.to_nat (i - 1))) in Hx by lia. cbn in Hx.
    rewrite <- (IH (i - 1)) by (done || lia). unfold zsub. rewrite zdrop_app_ge by nia. do 2 f_equal. lia.
Qed.

Lemma zlen_concat (k : Z) (l : list (list Z)) : Forall (fun y => zlen y = k) l -> zlen (concat l) = k * zlen l.
Proof.
  induction 1 as [|y l Hy Hl IH]; [unfold zlen; cbn; lia|]. cbn [concat].
  rewrite zlen_app, zlen_cons, Hy, IH. lia.
Qed.

Section device_lemmas.
Context {D : Type} `{BlockDevice D}.

Lemma m33_read_slab_eq d cap base dst : blk_probe d = Some cap -> 0 <= base -> base + MAX_SECTORS <= cap ->
  zlen dst = SLAB_BYTES -> m33_read_slab d base dst = Val (Some (span (sectors_of d) base 6)).
Proof.
  intros Hp Hb Hcap Hd. change MAX_SECTORS with 6 in *. change SLAB_BYTES with 3072 in *. unfold m33_read_slab.
  change MAX_SECTORS with 6.
  set (st := fun i => span (sectors_of d) base (Z.to_nat i) ++ zdrop (512 * i) dst).
  replace dst with (st 0) at 1 by by (unfold st; cbn [span Z.to_nat app]; rewrite Z.mul_0_r, zdrop_0).
  rewrite (for_up_opt_all _ (fun _ => true) st 0 6); [|lia| |done].
  - unfold st. change (Z.to_nat 6) with 6%nat. change (512 * 6) with 3072. rewrite zdrop_all by lia. by rewrite app_nil_r.
  - intros i Hi. rewrite (blk_read_ok d cap) by (done || lia). cbv zeta. unfold SECTOR, st.
    destruct (sectors_ok d (base + i)) as [Hs _]. unfold SECTOR in Hs.
    rewrite blit_next; [|rewrite zlen_span by apply sectors_ok; lia | lia | zl].
    rewrite bind_val. do 2 f_equal. replace (Z.to_nat (i + 1)) with (S (Z.to_nat i)) by lia. cbn [span].
    rewrite Z2Nat.id by lia. f_equal. rewrite zdrop_zdrop by lia. f_equal. lia.
Qed.

(** A slab write leaves the first [j] sectors new and the others old, all new if it answers
    that it succeeded. *)
Lemma write_sectors_spec k base b : forall d s, bytes b -> 0 <= s -> 512 * (s + Z.of_nat k) <= zlen b ->
  runs (write_sectors k d base b s) (fun r => blk_probe (fst r) = blk_probe d /\
    exists j, 0 <= j <= Z.of_nat k /\ (snd r = true -> j = Z.of_nat k) /\
      forall x, sectors_of (fst r) x =
        if decide (base + s <= x < base + s + j) then zsub (512 * (x - base)) 512 b else sectors_of d x).
Proof.
  induction k as [|k IH]; intros d s Hb Hs Hl; cbn [write_sectors].
  { apply runs_val. split; [done|]. exists 0. split; [lia|]. split; [done|]. intros x. cbn. by rewrite decide_False by lia. }
  rewrite Nat2Z.inj_succ in Hl. unfold SECTOR. rewrite slice_ok, bind_val by lia.
  replace ((s + 1) * 512 - s * 512) with 512 by lia. rewrite (Z.mul_comm s 512).
  assert (zlen (zsub (512 * s) 512 b) = SECTOR) as Hz by (unfold SECTOR; zl).
  destruct (blk_write d (base + s) (zsub (512 * s) 512 b)) as [d1 ok] eqn:Ew.
  destruct (blk_write_ok _ _ _ _ _ Hz (zsub_bytes _ _ _ Hb) Ew) as (Hp & Hoth & Hat).
  destruct ok.
  - destruct Hat as [Hat|[? _]]; [|done].
    eapply runs_mono; [apply (IH d1 (s + 1)); [done | lia | lia]|].
    intros [d2 ok2] (Hp2 & j & Hj & Hok & Hx). cbn [fst snd] in *. split; [by rewrite Hp2|].
    exists (j + 1). split; [lia|]. split; [intros ?%Hok; lia|]. intros x. rewrite Hx.
    destruct (decide (x = base + s)) as [->|Hne].
    + rewrite decide_False, decide_True by lia. rewrite Hat. do 2 f_equal. lia.
    + rewrite Hoth by done. do 2 case_decide; done || lia.
  - apply runs_val. split; [done|]. cbn [fst snd]. destruct Hat as [Hat|[_ Hat]].
    + exists 1. split; [lia|]. split; [done|]. intros x. case_decide.
      * assert (x = base + s) as -> by lia. rewrite Hat. do 2 f_equal. lia.
      * apply Hoth. lia.
    + exists 0. split; [lia|]. split; [done|]. intros x. rewrite decide_False by lia.
      destruct (decide (x = base + s)) as [->|Hne]; [done | by apply Hoth].
Qed.
End device_lemmas.

(** ** Lemmas: slots *)

(** A slot whose first sector is of a new record and some later one of another generation
    does not decode. *)
Lemma torn_slot gen q head i_id pubroot sig n slab blob j :
  fields_ok gen q head i_id pubroot sig -> sectors_for (zlen sig) = Some n -> bytes slab ->
  zsub 0 512 slab = zsub 0 512 (image (gen mod 2 ^ 32) (blob_of gen q head i_id pubroot sig) (Z.to_nat n)) ->
  0 < j < n -> of_le (zsub (512 * j) 4 slab) <> gen mod 2 ^ 32 -> Provhead.decode slab blob = Val None.
Proof.
  intros Hok Hn Hb Hfirst Hj Htag.
  destruct (decode_cases slab blob Hb) as [(n' & Hacc & _)|[E _]]; [exfalso|done].
  set (b := blob_of gen q head i_id pubroot sig) in *.
  pose proof (zlen_blob_of _ _ _ _ _ _ Hok) as Hlb. fold b in Hlb. pose proof (zlen_nonneg sig).
  pose proof (sectors_for_cap _ _ Hn) as Hcap.
  destruct (sectors_for_eq (zlen sig)) as (m & Em & Hm & Hmb); [lia|]. rewrite Hn in Em. injection Em as <-.
  assert (forall off k, 0 <= off -> 0 <= k -> off + k <= 98 ->
    zsub (8 + off) k slab = zsub off k b) as Hfield.
  { intros off k Ho Hk Hf.
    rewrite <- (header_written (gen mod 2 ^ 32) b (Z.to_nat n) [] off k) by (unfold BLOB_FIXED, BLOB_CRC, HEAD_LEN, I_LEN, ROOT_LEN in *; lia).
    rewrite app_nil_r.
    transitivity (zsub (8 + off) k (zsub 0 512 slab)); [by rewrite zsub_zsub by lia|].
    rewrite Hfirst. by rewrite zsub_zsub by lia. }
  destruct (blob_fields _ _ _ _ _ _ Hok) as (_ & Fg & _ & Fs & _). fold b in Fg, Fs.
  assert (hdr_gen slab = gen) as Hgen.
  { pose proof (Hfield 4 8 ltac:(lia) ltac:(lia) ltac:(lia)) as E. change (8 + 4) with 12 in E.
    unfold hdr_gen. rewrite E, Fg. apply of_to_le_id, Hok. }
  assert (hdr_siglen slab = zlen sig) as Hsig.
  { pose proof (Hfield 16 2 ltac:(lia) ltac:(lia) ltac:(lia)) as E. change (8 + 16) with 24 in E.
    unfold hdr_siglen. rewrite E, Fs. apply of_to_le_id.
    unfold in_u, SIG_CAP in *. change (2 ^ (8 * Z.of_nat 2)) with 65536. lia. }
  pose proof (acc_count _ _ _ Hacc) as Hc. rewrite Hsig, Hn in Hc. injection Hc as <-.
  pose proof (acc_each _ _ _ Hacc j ltac:(lia)) as Ho. unfold sector_ok in Ho.
  apply andb_prop in Ho as [_ Ho%Z.eqb_eq]. unfold sec in Ho. rewrite zsub_zsub, Z.add_0_r, Hgen in Ho by lia. done.
Qed.

Lemma corpus_decode_total rb : bytes rb -> exists r, Corpus.decode rb = Val r.
Proof.
  intros Hb. destruct (Z.lt_ge_cases (zlen rb) CORPUS_CANON_LEN) as [Hl|Hl].
  { exists None. unfold Corpus.decode. by rewrite (proj2 (Z.ltb_lt _ _)). }
  unfold CORPUS_CANON_LEN, Prov.PROV_HASH_LEN in Hl.
  destruct (idx_ok rb 0) as [v E0]; [lia|]. destruct (idx_ok rb 1) as [k E1]; [lia|].
  destruct (idx_ok rb 2) as [s E2]; [lia|]. destruct (idx_ok rb 3) as [c E3]; [lia|].
  destruct (idx_ok rb 60) as [t E60]; [lia|].
  eexists. by apply (decode_eq rb v k s c t).
Qed.

Abbreviation is_digest := (fun d => zlen d = Prov.PROV_HASH_LEN /\ bytes d).

(** The digests of the records, in order. *)
Lemma hash_all_spec acc : exists ids, hash_all acc = Val ids /\ zlen ids = zlen acc /\
  Forall is_digest ids /\
  forall i rb id, acc !! i = Some rb -> ids !! i = Some id -> prov_hash rb = Val id.
Proof.
  unfold hash_all. induction acc as [|rb acc (ids & E & Hl & Hd & Hi)] using rev_ind.
  { exists []. repeat split; done || constructor. }
  rewrite fold_res_snoc, E, bind_val. destruct (prov_hash_digest rb) as (id & Eid & Hid). rewrite Eid, bind_val.
  exists (ids ++ [id]). split; [done|]. split; [zl|]. split; [apply Forall_app; split; [done | by constructor]|].
  assert (length ids = length acc) as Hl' by (unfold zlen in Hl; lia).
  intros i rb' id' H1 H2. destruct (decide (i < length acc)%nat).
  - rewrite lookup_app_l in H1, H2 by lia. eauto.
  - rewrite lookup_app_r in H1, H2 by lia. rewrite Hl' in H2.
    destruct (i - length acc)%nat; [|done]. injection H1 as <-. by injection H2 as <-.
Qed.

Lemma recompute_ids_runs ids : ids <> [] -> Forall is_digest ids ->
  exists h, recompute_ids ids = Val h /\ is_digest h.
Proof.
  intros Hne Hd. destruct ids as [|x l]; [done|]. unfold recompute_ids. cbn [first_and_rest]. rewrite bind_val.
  rewrite recompute_eq. apply (fold_chain_runs genesis (x :: l)); [|done].
  split; [reflexivity | apply zrepeat_Forall; unfold in_u; lia].
Qed.

Lemma good_len acc : Forall good_record acc -> Forall (fun y => zlen y = 71) acc.
Proof. intros Hg. eapply Forall_impl; [exact Hg|]. intros y (Hy & _). exact Hy. Qed.

(** Unpacking what was packed. *)
Lemma unpack_packed blob acc ids : Forall good_record acc -> OFF_SIG + 71 * zlen acc <= zlen blob ->
  zsub OFF_SIG (71 * zlen acc) blob = concat acc -> hash_all acc = Val ids ->
  unpack blob (zlen acc) = Val (Some (acc, ids)).
Proof.
  intros Hg Hl Hs Hh. change OFF_SIG with 98 in *. destruct (hash_all_spec acc) as (ids' & Eh & Hlen & Hd & Hi). rewrite Hh in Eh. injection Eh as <-.
  unfold unpack. pose proof (zlen_nonneg acc).
  set (st := fun i => (ztake i acc, ztake i ids)).
  change (([], []) : list (list Z) * list (list Z)) with (st 0).
  rewrite (for_up_opt_all _ (fun _ => true) st 0 (zlen acc)); [|lia| |done].
  { unfold st. rewrite !ztake_all by lia. done. }
  intros i Hi'. unfold st.
  destruct (lookup_lt_is_Some_2 acc (Z.to_nat i)) as [rb Erb]; [unfold zlen in Hi'; lia|].
  destruct (lookup_lt_is_Some_2 ids (Z.to_nat i)) as [id Eid]; [unfold zlen in Hlen, Hi'; lia|].
  assert (zsub (98 + 71 * i) 71 blob = rb) as Hz.
  { rewrite <- (zsub_concat 71 i acc rb), <- Hs by (done || lia || by apply good_len).
    rewrite zsub_zsub by lia. done. }
  cbv zeta. change CORPUS_CANON_LEN with 71. change OFF_SIG with 98. rewrite (Z.mul_comm i 71).
  rewrite slice_ok, bind_val by lia. replace (98 + 71 * i + 71 - (98 + 71 * i)) with 71 by lia. rewrite Hz.
  destruct (proj1 (Forall_lookup _ _) Hg _ _ Erb) as (_ & _ & r & ->). rewrite bind_val.
  rewrite (Hi _ _ _ Erb Eid), bind_val. do 3 f_equal.
  - unfold ztake. replace (Z.to_nat (i + 1)) with (S (Z.to_nat i)) by lia. by rewrite (take_S_r _ _ rb).
  - unfold ztake. replace (Z.to_nat (i + 1)) with (S (Z.to_nat i)) by lia. by rewrite (take_S_r _ _ id).
Qed.

(** Unpacking never panics on a blob of bytes, and keeps only good records. *)
Lemma unpack_good blob count : bytes blob -> 0 <= count -> OFF_SIG + 71 * count <= zlen blob ->
  exists r, unpack blob count = Val r /\
    match r with
    | Some (recs, ids) => Forall good_record recs /\ zlen recs = count /\ zlen ids = count /\ Forall is_digest ids
    | None => True
    end.
Proof.
  intros Hb Hc Hl. change OFF_SIG with 98 in Hl.
  apply (for_up_opt_inv (fun i '(recs, ids) => Forall good_record recs /\ zlen recs = i /\ zlen ids = i /\ Forall is_digest ids)); [done | repeat split; constructor |].
  intros i [recs ids] Hi (H1 & H2 & H3 & H4). cbv zeta. change OFF_SIG with 98. change CORPUS_CANON_LEN with 71.
  rewrite slice_ok, bind_val by lia. replace (98 + i * 71 + 71 - (98 + i * 71)) with 71 by lia.
  set (rb := zsub (98 + i * 71) 71 blob). assert (bytes rb) as Hrb by by apply zsub_bytes.
  destruct (corpus_decode_total rb Hrb) as (r & Er). rewrite Er, bind_val.
  destruct r as [r|]; [|apply runs_val; done].
  destruct (prov_hash_digest rb) as (id & Eid & Hid). rewrite Eid, bind_val. apply runs_val.
  split; [apply Forall_app; split; [done|]; constructor; [|done]; split; [unfold rb, CORPUS_CANON_LEN, Prov.PROV_HASH_LEN; zl | eauto]|].
  split; [zl|]. split; [zl|]. apply Forall_app. split; [done | by constructor].
Qed.

(** ** Lemmas: recovery *)

Lemma validated_written gen acc ids head root n bf : acc <> [] -> zlen acc <= CORPUS_PERSIST_MAX_RECORDS ->
  Forall good_record acc -> hash_all acc = Val ids -> recompute_ids ids = Val head ->
  zlen bf = BLOB_CAP -> zsub OFF_SIG (zlen (concat acc)) bf = concat acc ->
  validated (meta gen (zlen acc) head CORPUS_PERSIST_DOMAIN root (concat acc) n) bf = Val (Some acc).
Proof.
  intros Hne Hmax Hg Hh Hr Hbf Hs. pose proof (zlen_concat 71 acc (good_len _ Hg)) as Hl.
  assert (0 < zlen acc) as Hpos by (destruct acc; [done | rewrite zlen_cons; pose proof (zlen_nonneg acc); lia]).
  unfold validated. cbn [dh_q dh_siglen dh_i_id dh_head meta].
  rewrite bool_decide_true by done. rewrite (proj2 (Z.ltb_lt _ _)), (proj2 (Z.leb_le _ _)) by done.
  change CORPUS_CANON_LEN with 71. rewrite Hl in *. rewrite (Z.mul_comm (zlen acc) 71), Z.eqb_refl. cbn [andb].
  change CORPUS_PERSIST_MAX_RECORDS with 35 in Hmax. change BLOB_CAP with 2614 in Hbf.
  rewrite (unpack_packed bf acc ids) by (done || change OFF_SIG with 98; lia). rewrite bind_val.
  rewrite bool_decide_false.
  2: { intros ->. destruct (hash_all_spec acc) as (ids' & E & Hlen & _). rewrite Hh in E. injection E as <-. change (zlen []) with 0 in Hlen. lia. }
  rewrite Hr, bind_val. by rewrite bool_decide_true.
Qed.

Definition valid_out (rec : DecodedHead) (v : option (list (list Z))) : Prop :=
  match v with
  | Some recs => (Forall good_record recs /\ 0 < zlen recs <= CORPUS_PERSIST_MAX_RECORDS) /\ is_digest (dh_head rec)
  | None => True
  end.
Definition valid_prior (prior : option (DecodedHead * list (list Z))) : Prop :=
  match prior with Some (rec, recs) => valid_out rec (Some recs) | None => True end.

Lemma payloads_bytes slab k : bytes slab -> bytes (payloads slab k).
Proof.
  intros Hb. induction k as [|k IH]; [apply Forall_nil_2|]. cbn [payloads]. apply Forall_app. split; [done|].
  by apply zsub_bytes, zsub_bytes.
Qed.

Lemma validated_total slab rec bf : bytes slab ->
  Provhead.decode slab (zrepeat BLOB_CAP 0) = Val (Some (rec, bf)) ->
  is_u64 (dh_gen rec) /\ exists v, validated rec bf = Val v /\ valid_out rec v.
Proof.
  intros Hb Hd. destruct (decode_cases slab (zrepeat BLOB_CAP 0) Hb) as [(n & Hacc & E)|[E _]]; rewrite E in Hd; [|done].
  injection Hd as <- <-. cbn [dh_gen decoded]. split.
  { unfold hdr_gen. pose proof (of_le_bound (zsub 12 8 slab) (zsub_bytes _ _ _ Hb)) as Hg.
    replace (8 * zlen (zsub 12 8 slab)) with 64 in Hg; [done|].
    pose proof (acc_size _ _ _ Hacc). unfold SECTOR in *. zl. }
  unfold validated. cbn [dh_q dh_siglen dh_i_id decoded].
  destruct (bool_decide _ && _ && _ && _) eqn:Ec; [|by exists None].
  repeat apply andb_prop in Ec as [Ec ?]. apply Z.ltb_lt in H1. apply Z.leb_le in H0. apply Z.eqb_eq in H.
  change CORPUS_CANON_LEN with 71 in H. change CORPUS_PERSIST_MAX_RECORDS with 35 in H0.
  pose proof (sectors_for_cap _ _ (acc_count _ _ _ Hacc)) as Hcap.
  set (bf := reassembled slab (zrepeat BLOB_CAP 0) n).
  assert (bytes bf) as Hbf.
  { unfold bf, reassembled. apply Forall_app. split; [by apply ztake_bytes, payloads_bytes|].
    apply zdrop_bytes, zrepeat_Forall. unfold in_u. lia. }
  assert (zlen bf = 2614) as Hlbf.
  { unfold bf, reassembled. pose proof (acc_blob _ _ _ Hacc) as Hab. rewrite zlen_zrepeat in Hab.
    change BLOB_CAP with 2614 in *. rewrite Z.max_r in Hab by lia.
    destruct (sectors_for_eq (hdr_siglen slab)) as (m & Em & Hm & Hmb); [lia|].
    rewrite (acc_count _ _ _ Hacc) in Em. injection Em as <-.
    pose proof (acc_sectors _ _ _ Hacc) as Hse. unfold SECTOR in Hse.
    pose proof (zlen_payloads slab (Z.to_nat n) ltac:(lia)) as Hp. rewrite Z2Nat.id in Hp by lia.
    assert (rec_len slab = 106 + hdr_siglen slab) by (unfold rec_len, BLOB_FIXED, BLOB_CRC, HEAD_LEN, I_LEN, ROOT_LEN; lia).
    unfold BLOB_FIXED, BLOB_CRC, HEAD_LEN, I_LEN, ROOT_LEN in *. zl. }
  destruct (unpack_good bf (hdr_q slab) Hbf ltac:(lia)) as (r & -> & Hr).
  { change OFF_SIG with 98. unfold SIG_CAP in Hcap. lia. }
  rewrite bind_val. destruct r as [[recs ids]|]; [|by exists None].
  destruct Hr as (Hg & Hl & Hli & Hd'). rewrite bool_decide_false by (intros ->; change (zlen []) with 0 in Hli; lia).
  destruct (recompute_ids_runs ids) as (h & -> & Hh); [intros ->; change (zlen []) with 0 in Hli; lia | exact Hd' |].
  rewrite bind_val. clear Ec. case_bool_decide as Heq; [|by exists None]. exists (Some recs). split; [done|].
  split; [|rewrite <- Heq; exact Hh]. split; [exact Hg|]. change CORPUS_PERSIST_MAX_RECORDS with 35. lia.
Qed.

(** Is the staler slot, the one to be written, slot B? *)
Definition writes_b (w : option bool) : bool := match w with Some false => true | _ => false end.

(** Losing the staler slot loses nothing. *)
Lemma recover_torn a b w g prior : recover a b = Val (w, g, prior) ->
  recover (if writes_b w then a else None) (if writes_b w then None else b) = Val (w, g, prior).
Proof.
  unfold recover. destruct a as [[ra ba]|], b as [[rb bb]|]; cbn; [|intros Hr|intros Hr|intros Hr].
  - destruct (dh_gen ra <? dh_gen rb) eqn:E; cbn; intros Hr.
    + destruct (validated rb bb) as [v|] eqn:Ev; [|done]. rewrite bind_val in Hr. injection Hr as <- <- <-.
      cbn. by rewrite Ev, bind_val.
    + destruct (validated ra ba) as [v|] eqn:Ev; [|done]. rewrite bind_val in Hr. injection Hr as <- <- <-.
      cbn. by rewrite Ev, bind_val.
  - destruct (validated ra ba) as [v|] eqn:Ev; [|done]. rewrite bind_val in Hr. injection Hr as <- <- <-.
    cbn. by rewrite Ev, bind_val.
  - destruct (validated rb bb) as [v|] eqn:Ev; [|done]. rewrite bind_val in Hr. injection Hr as <- <- <-.
    cbn. by rewrite Ev, bind_val.
  - by injection Hr as <- <- <-.
Qed.

(** A record of the next generation in the staler slot wins. *)
Lemma recover_new a b w g prior rec bf recs : recover a b = Val (w, g, prior) ->
  dh_gen rec = g + 1 -> validated rec bf = Val (Some recs) ->
  recover (if writes_b w then a else Some (rec, bf)) (if writes_b w then Some (rec, bf) else b) =
    Val (Some (writes_b w), g + 1, Some (rec, recs)).
Proof.
  unfold recover. intros Hr Hg Hv. destruct a as [[ra ba]|], b as [[rb bb]|]; cbn in *.
  - destruct (dh_gen ra <? dh_gen rb) eqn:E; cbn in Hr.
    + destruct (validated rb bb) as [v|]; [|done]. rewrite bind_val in Hr. injection Hr as <- <- <-. cbn.
      assert ((dh_gen rec <? dh_gen rb) = false) as -> by (apply Z.ltb_ge; lia).
      cbn. by rewrite Hv, bind_val, Hg.
    + destruct (validated ra ba) as [v|]; [|done]. rewrite bind_val in Hr. injection Hr as <- <- <-. cbn.
      assert ((dh_gen ra <? dh_gen rec) = true) as -> by (apply Z.ltb_lt; lia).
      cbn. by rewrite Hv, bind_val, Hg.
  - destruct (validated ra ba) as [v|]; [|done]. rewrite bind_val in Hr. injection Hr as <- <- <-. cbn.
    assert ((dh_gen ra <? dh_gen rec) = true) as -> by (apply Z.ltb_lt; lia).
    cbn. by rewrite Hv, bind_val, Hg.
  - destruct (validated rb bb) as [v|]; [|done]. rewrite bind_val in Hr. injection Hr as <- <- <-. cbn.
    assert ((dh_gen rec <? dh_gen rb) = false) as -> by (apply Z.ltb_ge; lia).
    cbn. by rewrite Hv, bind_val, Hg.
  - injection Hr as <- <- <-. cbn. by rewrite Hv, bind_val, Hg.
Qed.

Lemma recover_total a b :
  (forall x, a = Some x \/ b = Some x -> is_u64 (dh_gen (fst x)) /\ exists v, validated (fst x) (snd x) = Val v /\ valid_out (fst x) v) ->
  exists w g prior, recover a b = Val (w, g, prior) /\ is_u64 g /\ valid_prior prior.
Proof.
  intros Hx. unfold recover.
  assert (forall is_b : bool, exists g prior,
    match (if is_b then b else a) with
    | Some (rec, blob) => v ← validated rec blob;
        Val (Some is_b, dh_gen rec, match v with Some recs => Some (rec, recs) | None => None end)
    | None => Val (Some is_b, 0, None) end = Val (Some is_b, g, prior) /\ is_u64 g /\ valid_prior prior) as Hb.
  { intros is_b. destruct (if is_b then b else a) as [[rec bf]|] eqn:E.
    - destruct (Hx (rec, bf)) as (Hg & v & Hv & Ho); [destruct is_b; auto|]. cbn [fst snd] in *. rewrite Hv, bind_val.
      do 2 eexists. split; [done|]. split; [done|]. by destruct v.
    - exists 0, None. split; [done|]. split; [|done]. unfold in_u. lia. }
  destruct (pick_newer _ _) as [is_b|].
  - destruct (Hb is_b) as (g & prior & E & H). exists (Some is_b), g, prior. done.
  - exists None, 0, None. split; [done|]. split; [|done]. unfold in_u. lia.
Qed.

Section crash.
Context {D : Type} `{BlockDevice D}.
Implicit Types (d : D).

Definition slot_a d : list Z := span (sectors_of d) CORPUS_PERSIST_BASE 6.
Definition slot_b d : list Z := span (sectors_of d) (CORPUS_PERSIST_BASE + MAX_SECTORS) 6.

Lemma read_back_eq d cap : blk_probe d = Some cap -> CORPUS_PERSIST_BASE + 2 * MAX_SECTORS <= cap ->
  read_back d = (da ← Provhead.decode (slot_a d) (zrepeat BLOB_CAP 0);
                 db ← Provhead.decode (slot_b d) (zrepeat BLOB_CAP 0); recover da db).
Proof.
  intros Hp Hc. change CORPUS_PERSIST_BASE with 12288 in *. change MAX_SECTORS with 6 in *. unfold read_back.
  change CORPUS_PERSIST_BASE with 12288. change MAX_SECTORS with 6.
  rewrite (m33_read_slab_eq d cap 12288), bind_val by (done || change MAX_SECTORS with 6; lia).
  rewrite (m33_read_slab_eq d cap (12288 + 6)), bind_val by (done || change MAX_SECTORS with 6; lia). done.
Qed.

Lemma slot_decodes c base : (forall s, zlen (c s) = 512 /\ bytes (c s)) ->
  exists o, Provhead.decode (span c base 6) (zrepeat BLOB_CAP 0) = Val o /\
    forall x, o = Some x -> is_u64 (dh_gen (fst x)) /\ exists v, validated (fst x) (snd x) = Val v /\ valid_out (fst x) v.
Proof.
  intros Hc. pose proof (span_bytes c Hc base 6) as Hb.
  assert (exists o, Provhead.decode (span c base 6) (zrepeat BLOB_CAP 0) = Val o) as [o E].
  { destruct (decode_cases _ (zrepeat BLOB_CAP 0) Hb) as [(n & _ & E)|[E _]]; eauto. }
  exists o. split; [done|]. intros [rec bf] ->. by apply (validated_total (span c base 6)).
Qed.

Lemma read_back_total d cap : blk_probe d = Some cap -> CORPUS_PERSIST_BASE + 2 * MAX_SECTORS <= cap ->
  exists w g prior, read_back d = Val (w, g, prior) /\ is_u64 g /\ valid_prior prior.
Proof.
  intros Hp Hc. rewrite (read_back_eq d cap Hp Hc).
  destruct (slot_decodes (sectors_of d) CORPUS_PERSIST_BASE) as (a & Ea & Ha); [apply sectors_ok|].
  destruct (slot_decodes (sectors_of d) (CORPUS_PERSIST_BASE + MAX_SECTORS)) as (b & Eb & Hb); [apply sectors_ok|].
  unfold slot_a, slot_b. rewrite Ea, bind_val, Eb, bind_val. apply recover_total. intros x [->| ->]; auto.
Qed.

Lemma accumulate_good prior cur : Forall good_record prior -> Forall good_record cur -> cur <> [] ->
  Forall good_record (accumulate prior cur) /\ accumulate prior cur <> [] /\
  0 < zlen (accumulate prior cur) <= CORPUS_PERSIST_MAX_RECORDS.
Proof.
  intros Hp Hc Hne. change CORPUS_PERSIST_MAX_RECORDS with 35. unfold accumulate.
  change CORPUS_PERSIST_MAX_RECORDS with 35.
  assert (Forall good_record (prior ++ cur)) as Hg by by apply Forall_app.
  assert (0 < zlen (prior ++ cur)) as Hl.
  { destruct cur; [done|]. rewrite zlen_app, zlen_cons. pose proof (zlen_nonneg prior). pose proof (zlen_nonneg cur). lia. }
  destruct (Z.ltb_spec 35 (zlen (prior ++ cur))) as [Hlt|Hle].
  - assert (zlen (zdrop (zlen (prior ++ cur) - 35) (prior ++ cur)) = 35) as E by (rewrite zlen_zdrop; lia).
    split; [by apply Forall_drop|]. split; [intros Hn; rewrite Hn in E; change (zlen []) with 0 in E; lia | lia].
  - split; [done|]. split; [intros Hn; rewrite Hn in Hl; change (zlen []) with 0 in Hl; lia | lia].
Qed.

(** The staler slot after a write of [b] that reached its first [j] sectors. *)
Lemma slot_after d d' base b j n : zlen b = 512 * Z.of_nat n -> (n <= 6)%nat -> 0 <= j <= Z.of_nat n ->
  (forall x, sectors_of d' x =
     if decide (base + 0 <= x < base + 0 + j) then zsub (512 * (x - base)) 512 b else sectors_of d x) ->
  (j = 0 -> span (sectors_of d') base 6 = span (sectors_of d) base 6) /\
  (0 < j -> zsub 0 512 (span (sectors_of d') base 6) = zsub 0 512 b) /\
  (j < 6 -> zsub (512 * j) 4 (span (sectors_of d') base 6) = zsub 0 4 (sectors_of d (base + j))) /\
  (j = Z.of_nat n -> span (sectors_of d') base 6 =
     b ++ zdrop (512 * Z.of_nat n) (span (sectors_of d) base 6)).
Proof.
  intros Hb Hn Hj Hx. pose proof (sectors_ok d') as Hok'. pose proof (sectors_ok d) as Hok.
  pose proof (zlen_span _ Hok base 6) as Hl.
  split; [|split; [|split]].
  - intros ->. apply span_ext. intros s Hs. rewrite Hx. by rewrite decide_False by lia.
  - intros Hj0. pose proof (zsub_span _ Hok' base 6 0 0 512) as E. change (512 * 0 + 0) with 0 in E.
    rewrite E by lia. rewrite Hx, decide_True by lia. replace (512 * (base + 0 - base)) with 0 by lia.
    rewrite zsub_zsub by lia. done.
  - intros Hj6. pose proof (zsub_span _ Hok' base 6 j 0 4) as E. rewrite Z.add_0_r in E. rewrite E by lia.
    by rewrite Hx, decide_False by lia.
  - intros ->. apply span_of; [zl|]. intros s Hs. rewrite Hx.
    destruct (decide (s < Z.of_nat n)) as [Hlt|Hge].
    + rewrite decide_True by lia. replace (base + s - base) with s by lia. unfold zsub.
      by rewrite zdrop_app_le, ztake_app_le by zl.
    + rewrite decide_False by lia. unfold zsub. rewrite zdrop_app_ge by lia. rewrite zdrop_zdrop by lia.
      pose proof (zsub_span _ Hok base 6 s 0 512) as E. rewrite Z.add_0_r in E. unfold zsub in E.
      replace (512 * Z.of_nat n + (512 * s - zlen b)) with (512 * s) by lia. rewrite E by lia.
      rewrite zdrop_0. symmetry. apply ztake_all. rewrite (proj1 (Hok _)). done.
Qed.

Lemma head_witness_runs head : zlen head = 32 -> exists w, head_witness head = Val w.
Proof.
  intros Hl. unfold head_witness.
  destruct (for_up_inv (fun _ _ => True) 0 4 (fun l acc =>
    w ← copy_in 8 head (l * 8) (zrepeat 8 0); Val (Z.lxor acc (of_le w))) 0) as (w & E & _); [lia | done | | eauto].
  intros i acc Hi _. rewrite copy_in_ok by (rewrite ?zlen_zrepeat; lia). rewrite bind_val. by apply runs_val.
Qed.

(** Committing a new record to the staler slot: whatever prefix of its sectors lands, the
    two slots read as before, or as the new record if all of them landed. *)
Section commit.
Context (d d' : D) (cap : Z) (w : option bool) (g : Z) (prior : option (DecodedHead * list (list Z))).
Context (Hp : blk_probe d = Some cap) (Hp' : blk_probe d' = Some cap).
Context (Hcap : CORPUS_PERSIST_BASE + 2 * MAX_SECTORS <= cap) (Hrb : read_back d = Val (w, g, prior)).

Definition target_slot (e : D) : list Z := span (sectors_of e) (target_of w) 6.

Lemma slots_after :
  (forall x, ~ (target_of w <= x < target_of w + MAX_SECTORS) -> sectors_of d' x = sectors_of d x) ->
  exists a b, recover a b = Val (w, g, prior) /\
    Provhead.decode (target_slot d) (zrepeat BLOB_CAP 0) = Val (if writes_b w then b else a) /\
    read_back d' = (o ← Provhead.decode (target_slot d') (zrepeat BLOB_CAP 0);
                    recover (if writes_b w then a else o) (if writes_b w then o else b)).
Proof.
  intros Hx. change MAX_SECTORS with 6 in Hx. rewrite (read_back_eq d cap Hp Hcap) in Hrb.
  destruct (slot_decodes (sectors_of d) CORPUS_PERSIST_BASE) as (a & Ea & _); [apply sectors_ok|].
  destruct (slot_decodes (sectors_of d) (CORPUS_PERSIST_BASE + MAX_SECTORS)) as (b & Eb & _); [apply sectors_ok|].
  unfold slot_a, slot_b in Hrb. rewrite Ea, bind_val, Eb, bind_val in Hrb. exists a, b. split; [exact Hrb|].
  rewrite (read_back_eq d' cap Hp' Hcap). unfold target_slot, slot_a, slot_b.
  change MAX_SECTORS with 6 in *. change CORPUS_PERSIST_BASE with 12288 in *.
  destruct w as [[|]|]; cbn [writes_b target_of] in *; change MAX_SECTORS with 6 in *; change CORPUS_PERSIST_BASE with 12288 in *.
  2: { rewrite (span_ext (sectors_of d) (sectors_of d') 12288 6), Ea, bind_val by (intros; apply Hx; lia). done. }
  all: rewrite (span_ext (sectors_of d) (sectors_of d') (12288 + 6) 6), Eb by (intros; apply Hx; lia); done.
Qed.

Lemma commit_slot q head i_id root sig n j recs :
  fields_ok (g + 1) q head i_id root sig -> sectors_for (zlen sig) = Some n -> 0 <= j <= n ->
  let b := image ((g + 1) mod 2 ^ 32) (blob_of (g + 1) q head i_id root sig) (Z.to_nat n) in
  (forall x, sectors_of d' x =
     if decide (target_of w + 0 <= x < target_of w + 0 + j) then zsub (512 * (x - target_of w)) 512 b
     else sectors_of d x) ->
  (forall s, 1 <= s < MAX_SECTORS ->
     sector_tag (sectors_of d (target_of w + s)) <> (g + 1) mod 2 ^ 32) ->
  (forall bf, zlen bf = BLOB_CAP -> zsub OFF_SIG (zlen sig) bf = sig ->
     validated (meta (g + 1) q head i_id root sig n) bf = Val (Some recs)) ->
  (j = n /\ exists rec, read_back d' = Val (Some (writes_b w), g + 1, Some (rec, recs))) \/
  (j < n /\ read_back d' = read_back d).
Proof.
  intros Hok Hn Hj b Hx Htag Hval.
  pose proof (zlen_nonneg sig). pose proof (sectors_for_cap _ _ Hn) as Hs.
  destruct (sectors_for_eq (zlen sig)) as (m & Em & Hm & Hmb); [lia|]. rewrite Hn in Em. injection Em as <-.
  change MAX_SECTORS with 6 in Hm, Htag.
  assert (zlen b = 512 * Z.of_nat (Z.to_nat n)) as Hlb by apply zlen_image.
  destruct slots_after as (a & o & Hr & Ho & E).
  { intros x Hne. change MAX_SECTORS with 6 in Hne. by rewrite Hx, decide_False by lia. }
  rewrite E, Hrb. clear E.
  destruct (slot_after d d' (target_of w) b j (Z.to_nat n) Hlb ltac:(lia) ltac:(lia) Hx) as (Hs0 & Hs1 & Hs2 & Hs3).
  assert (bytes (target_slot d)) as Hbt by apply span_bytes, sectors_ok.
  assert (bytes (target_slot d')) as Hbt' by apply span_bytes, sectors_ok.
  destruct (decide (j = n)) as [->|Hne]; [left|right; split; [lia|]].
  - split; [done|]. eexists. unfold target_slot in *. rewrite Hs3 by lia.
    destruct (written_decodes (g + 1) q head i_id root sig n
      (zdrop (512 * Z.of_nat (Z.to_nat n)) (span (sectors_of d) (target_of w) 6)) (zrepeat BLOB_CAP 0) Hok Hn)
      as (bf & Ed & Hlbf & Hsig); [by apply zdrop_bytes | unfold BLOB_CAP; rewrite zlen_zrepeat; lia |].
    fold b in Ed. rewrite Ed, bind_val. rewrite zlen_zrepeat in Hlbf. change BLOB_CAP with 2614 in Hlbf.
    eapply recover_new; [exact Hr | done |]. by apply Hval.
  - destruct (decide (j = 0)) as [->|Hj0].
    + unfold target_slot in *. rewrite Hs0, Ho, bind_val by done. rewrite <- Hr. by destruct w as [[|]|].
    + rewrite (torn_slot (g + 1) q head i_id root sig n (target_slot d') _ j); [|done..| |lia|].
      * rewrite bind_val. by apply recover_torn.
      * by apply Hs1; lia.
      * unfold target_slot. rewrite Hs2 by lia. apply Htag. lia.
Qed.
End commit.
End crash.

(** The record a boot commits is encodable, and what its head folds is what it packs. *)
Lemma record_ok g acc ids head : 0 <= g < 2 ^ 64 -> Forall good_record acc ->
  0 < zlen acc <= CORPUS_PERSIST_MAX_RECORDS -> hash_all acc = Val ids -> is_digest head ->
  fields_ok g (zlen acc) head CORPUS_PERSIST_DOMAIN (zrepeat ROOT_LEN 0) (concat acc) /\
  zlen (concat acc) <= SIG_CAP.
Proof.
  intros Hg Ha Hl Hh [Hlen Hby]. change CORPUS_PERSIST_MAX_RECORDS with 35 in Hl. split.
  - constructor; [done | unfold in_u; lia | done | split; [done|] | split; [done|] |].
    + unfold CORPUS_PERSIST_DOMAIN. repeat (apply Forall_cons; split; [unfold in_u; lia|]). apply Forall_nil_2.
    + apply zrepeat_Forall. unfold in_u. lia.
    + apply Forall_concat. eapply Forall_impl; [exact Ha|]. intros x (_ & Hx & _). exact Hx.
  - rewrite (zlen_concat 71 acc (good_len _ Ha)). unfold SIG_CAP. lia.
Qed.

Section persist.
Context {D : Type} `{BlockDevice D}.

Lemma commit_total (d : D) target b : bytes b -> (512 | zlen b) ->
  exists d' ok, m33_write_slab d target b = Val (d', ok) /\ blk_probe d' = blk_probe d /\
    exists j, 0 <= j <= zlen b / 512 /\ (ok = true -> j = zlen b / 512) /\
      forall x, sectors_of d' x =
        if decide (target + 0 <= x < target + 0 + j) then zsub (512 * (x - target)) 512 b else sectors_of d x.
Proof.
  intros Hb [k Hk]. pose proof (zlen_nonneg b). unfold m33_write_slab. change SECTOR with 512.
  rewrite Hk, Z.div_mul by done.
  destruct (write_sectors_spec (Z.to_nat k) target b d 0) as ([d' ok] & E & Hp & j & Hj & Ht & Hx); [done | done | lia |].
  cbn [fst snd] in *. exists d', ok. split; [done|]. split; [done|]. exists j. rewrite Z2Nat.id in * by lia. done.
Qed.

(** C24: a boot's commit to the durable corpus survives a power cut at any sector.  On any
    block device whose sectors are written whole or not at all, reading the two slots back
    always succeeds and yields only valid records; and provided the slot about to be written
    does not already hold, past its first sector, a sector tagged with the new generation,
    [corpus_persist] never panics, touches no sector outside the staler slot, reports what
    was recovered, and leaves a disk that reads back either as the new generation holding
    the old records followed by this boot's (the most recent 35), or exactly as before; when
    it reports success, as the new one. *)
Theorem corpus_persist_crash_safe (d : D) (cap : Z) (cur : list (list Z)) (cur_head : list Z)
    (Hp : blk_probe d = Some cap) (Hcap : CORPUS_PERSIST_BASE + 2 * MAX_SECTORS <= cap)
    (Hcur : Forall good_record cur) (Hne : cur <> []) (Hhead : zlen cur_head = 32) :
  exists w g prior, read_back d = Val (w, g, prior) /\ valid_prior prior /\
    (g + 1 < 2 ^ 64 ->
     (forall s, 1 <= s < MAX_SECTORS ->
        sector_tag (sectors_of d (target_of w + s)) <> (g + 1) mod 2 ^ 32) ->
     let acc := accumulate (match prior with Some (_, recs) => recs | None => [] end) cur in
     exists d' r, corpus_persist d false (Some (cur, cur_head)) = Val (d', r) /\
       present r = true /\ survived r = bool_decide (is_Some prior) /\ records_total r = zlen acc /\
       (forall s, ~ (target_of w <= s < target_of w + MAX_SECTORS) -> sectors_of d' s = sectors_of d s) /\
       ((exists rec, read_back d' = Val (Some (writes_b w), g + 1, Some (rec, acc))) \/
        (persisted r = false /\ read_back d' = read_back d))).
Proof.
  destruct (read_back_total d cap Hp Hcap) as (w & g & prior & Hrb & Hg0 & Hv).
  exists w, g, prior. split; [done|]. split; [done|]. intros Hg Htag. cbv zeta.
  set (recs := match prior with Some (_, recs) => recs | None => [] end).
  assert (Forall good_record recs) as Hrecs by (unfold recs; destruct prior as [[? ?]|]; [apply Hv | constructor]).
  destruct (accumulate_good recs cur Hrecs Hcur Hne) as (Ha & Hane & Hal).
  remember (accumulate recs cur) as acc eqn:Eacc.
  destruct (hash_all_spec acc) as (ids & Eids & Hidl & Hidd & _).
  destruct (recompute_ids_runs ids) as (ah & Eah & Hah).
  { intros ->. change (zlen []) with 0 in Hidl. lia. } { exact Hidd. }
  assert (0 <= g + 1 < 2 ^ 64) as Hgr by (unfold in_u in Hg0; lia).
  destruct (record_ok (g + 1) acc ids ah Hgr Ha Hal Eids Hah) as [Hok Hsig].
  destruct (sectors_for_eq (zlen (concat acc))) as (n & En & Hn & Hnb); [pose proof (zlen_nonneg (concat acc)); lia|].
  change MAX_SECTORS with 6 in Hn.
  destruct (head_witness_runs cur_head Hhead) as [w0 Ew0].
  assert (exists w1, match prior with Some (rec, _) => head_witness (dh_head rec) | None => Val w0 end = Val w1) as [w1 Ew1].
  { destruct prior as [[rec ?]|]; [apply head_witness_runs, Hv | eauto]. }
  set (b := image ((g + 1) mod 2 ^ 32) (blob_of (g + 1) (zlen acc) ah CORPUS_PERSIST_DOMAIN (zrepeat ROOT_LEN 0) (concat acc)) (Z.to_nat n)).
  assert (zlen b = 512 * n) as Hlb by (unfold b; rewrite zlen_image; lia).
  assert (bytes b) as Hbb by (apply image_bytes, blob_of_bytes, Hok).
  destruct (commit_total d (target_of w) b Hbb) as (d' & ok & Ew & Hp' & j & Hj & Hjok & Hx); [exists n; lia|].
  rewrite Hlb, (Z.mul_comm 512 n), Z.div_mul in Hj, Hjok by done.
  exists d'. eexists. split.
  { unfold corpus_persist. rewrite bool_decide_false by done. rewrite Ew0, bind_val, Hp.
    rewrite (proj2 (Z.ltb_ge _ _)) by done. rewrite Hrb, bind_val, Ew1, bind_val. cbv zeta. fold recs.
    rewrite <- Eacc, Eids, bind_val, Eah, bind_val.
    assert (wrapping_add 64 g 1 = g + 1) as -> by (unfold wrapping_add, wrap; apply Z.mod_small; lia).
    rewrite (encode_eq _ _ _ _ _ _ _ _ n Hok En), bind_val by
      (rewrite zlen_zrepeat; unfold BLOB_CAP, SLAB_BYTES; change MAX_SECTORS with 6; unfold SECTOR; lia).
    unfold SECTOR. rewrite (proj2 (Z.ltb_lt _ _)) by lia. fold b.
    rewrite slice_ok by zl. rewrite bind_val, Z.sub_0_r, zsub_app_eq, Ew, bind_val by lia. done. }
  cbn [present survived persisted records_total].
  split; [done|]. split; [destruct prior; symmetry; [by apply bool_decide_true | by apply bool_decide_false; intros [? ?]]|].
  split; [done|]. split.
  { intros s Hs. change MAX_SECTORS with 6 in Hs. by rewrite Hx, decide_False by lia. }
  rewrite Hp in Hp'.
  destruct (commit_slot d d' cap w g prior Hp Hp' Hcap Hrb (zlen acc) ah CORPUS_PERSIST_DOMAIN (zrepeat ROOT_LEN 0)
    (concat acc) n j acc Hok En Hj Hx Htag) as [[-> Hnew]|[Hlt Hold]].
  { intros bf Hbf Hs. eapply validated_written; [done | lia | done | exact Eids | exact Eah | done | done]. }
  - by left.
  - right. split; [|done]. destruct ok; [specialize (Hjok eq_refl); lia | done].
Qed.
End persist.

(** ** Witnesses *)

Definition demo_cur : list (list Z) := zrepeat 8 (record_bytes sample_record).

Lemma demo_cur_ok : Forall good_record demo_cur.
Proof.
  apply zrepeat_Forall. split; [vm_compute; reflexivity|]. split.
  - repeat (apply Forall_cons; split; [unfold in_u; vm_compute; split; [discriminate | reflexivity]|]). apply Forall_nil_2.
  - exists sample_record. vm_compute. reflexivity.
Qed.

(** The power goes after the first of the two sectors of the first boot's record: the disk
    reads back as it was, or as the whole record. *)
Lemma corpus_persist_crash_safe_witness :
  exists d' r, corpus_persist (mkDisk 1 []) false (Some (demo_cur, zrepeat 32 7)) = Val (d', r) /\
    records_total r = 8 /\
    ((exists rec, read_back d' = Val (Some false, 1, Some (rec, demo_cur))) \/
     (persisted r = false /\ read_back d' = Val (None, 0, None))).
Proof.
  destruct (corpus_persist_crash_safe (mkDisk 1 []) 16384 demo_cur (zrepeat 32 7)) as (w & g & prior & E & _ & H).
  - reflexivity.
  - vm_compute. discriminate.
  - exact demo_cur_ok.
  - discriminate.
  - reflexivity.
  - assert (read_back (mkDisk 1 []) = Val (None, 0, None)) as E0 by (vm_compute; reflexivity).
    rewrite E0 in E. injection E as <- <- <-.
    destruct H as (d' & r & Er & _ & _ & Ht & _ & Hr).
    + reflexivity.
    + intros s _. vm_compute. discriminate.
    + exists d', r. rewrite E0 in Hr. split; [exact Er|]. split; [exact Ht | exact Hr].
Defined.
