(* ===== verification/Engine.v ===== *)
(** * The durable record store: [crates/tb-hal/src/mem/engine.rs].

    The storage seam of the memory organ ([BackingStore]), its RAM default, and the
    log-structured store on a block device: staged appends, the two-phase commit whose
    one-sector superblock write is the commit point, and the replaying mount.  The disk is
    explicit: an operation that writes returns the device after it. *)
From Stdlib Require Import ZArith Lia.
From stdpp Require Import base numbers option tactics sets list.
From S2P Require Import Prelude BlockDev Blkfmt.
Open Scope Z_scope.

Inductive Region := Episodic | Semantic | Working.
Inductive MemErr := Full | NotFound | Io.

(** What the organ's tiers ask of a store. *)
Class BackingStore (S : Type) := {
  bs_append : S -> Region -> list Z -> res (S * (Z + MemErr));
  bs_read_at : S -> Region -> Z -> list Z -> res (list Z * (Z + MemErr));
  bs_flush : S -> res (S * (unit + MemErr));
  bs_epoch : S -> Z;
}.

(** ** The RAM store *)

Module Ram.
Record RamStore := mkRam { ep : list Z; sem : list Z; wm : list Z; ram_epoch : Z }.
Definition default : RamStore := mkRam [] [] [] 0.

Definition region_buf (s : RamStore) (r : Region) : list Z :=
  match r with Episodic => ep s | Semantic => sem s | Working => wm s end.

Definition append (s : RamStore) (r : Region) (bytes : list Z) : res (RamStore * (Z + MemErr)) :=
  let off := zlen (region_buf s r) in
  let b := region_buf s r ++ bytes in
  let e := wrapping_add 64 (ram_epoch s) 1 in
  Val (match r with
       | Episodic => mkRam b (sem s) (wm s) e
       | Semantic => mkRam (ep s) b (wm s) e
       | Working => mkRam (ep s) (sem s) b e
       end, inl off).

Definition read_at (s : RamStore) (r : Region) (off : Z) (buf : list Z) : res (list Z * (Z + MemErr)) :=
  let src := region_buf s r in
  if zlen src <? off then Val (buf, inr NotFound) else
  let n := Z.min (zlen buf) (zlen src - off) in
  p ← slice src off (off + n);
  buf ← blit buf 0 n p;
  Val (buf, inl n).

Definition flush (s : RamStore) : res (RamStore * (unit + MemErr)) := Val (s, inl tt).
Definition epoch (s : RamStore) : Z := ram_epoch s.
End Ram.

#[export] Instance RamStore_backing : BackingStore Ram.RamStore := {|
  bs_append := Ram.append; bs_read_at := Ram.read_at; bs_flush := Ram.flush; bs_epoch := Ram.epoch |}.

(** ** The durable store *)

Definition region_tag (r : Region) : Z :=
  match r with Episodic => REGION_EPISODIC | Semantic => REGION_SEMANTIC | Working => REGION_WORKING end.
Definition region_index (r : Region) : Z := match r with Episodic => 0 | Semantic => 1 | Working => 2 end.

(** Per-region fields are three-element arrays; a staged payload is a [Vec] of its own. *)
Record VirtioBlkStore := mkStore {
  gen : Z;
  log_head : list Z;
  record_count : list Z;
  seq : list Z;
  staged : list (list (list Z));
  image : list (list Z);
  appends_since_mount : Z;
}.

Section store.
Context {D : Type} `{BlockDevice D}.

(** One region's replay: [None] is the early [Err(Io)]; otherwise the last sequence number
    and the image.  [fuel] is the extent's size, which the index cannot pass. *)
Fixpoint replay_loop (fuel : nat) (d : D) (tag count i : Z) (last_seq : option Z) (img : list Z)
  : res (option (option Z * list Z)) :=
  if count <=? i then Val (Some (last_seq, img)) else
  match fuel with
  | O => Panic
  | S fuel =>
      head ← mul_u 64 i SECTOR_SIZE;
      match record_sector tag head with
      | None => Val (Some (last_seq, img))
      | Some sector =>
          match blk_read d sector with
          | None => Val None
          | Some sec =>
              f ← record_frame_decode sec;
              match f with
              | Some (h, off) =>
                  if match last_seq with Some p => fh_seq h <=? p | None => false end
                  then Val (Some (last_seq, img)) else
                  p ← slice sec off (off + fh_len h);
                  i ← add_u 64 i 1;
                  replay_loop fuel d tag count i (Some (fh_seq h)) (img ++ p)
              | None => Val (Some (last_seq, img))
              end
          end
      end
  end.

(** Every extent is smaller. *)
Definition REPLAY_FUEL : nat := 4096.

Definition replay (d : D) (s : VirtioBlkStore) : res (option VirtioBlkStore) :=
  for_up_opt 0 3 (fun r s =>
    count ← idx (record_count s) r;
    img ← idx (image s) r;
    o ← replay_loop REPLAY_FUEL d r count 0 None img;
    match o with
    | None => Val None
    | Some (last_seq, img) =>
        n ← match last_seq with Some x => add_u 64 x 1 | None => Val 0 end;
        im ← upd (image s) r img;
        sq ← upd (seq s) r n;
        Val (Some (mkStore (gen s) (log_head s) (record_count s) sq (staged s) im (appends_since_mount s)))
    end) s.

Definition write_superblock (d : D) (s : VirtioBlkStore) (g : Z) : res (D * VirtioBlkStore * (unit + MemErr)) :=
  sb ← superblock_encode g (log_head s) (record_count s);
  let '(d, ok) := blk_write d SB_SECTOR sb in
  if negb ok then Val (d, s, inr Io) else
  if negb (blk_flush d) then Val (d, s, inr Io) else
  Val (d, mkStore g (log_head s) (record_count s) (seq s) (staged s) (image s) (appends_since_mount s), inl tt).

Definition mount (d : D) : res (D * (VirtioBlkStore + MemErr)) :=
  let s := mkStore 0 [0; 0; 0] [0; 0; 0] [0; 0; 0] [[]; []; []] [[]; []; []] 0 in
  match blk_read d SB_SECTOR with
  | None => Val (d, inr Io)
  | Some sec =>
      o ← superblock_decode sec;
      match o with
      | Some sb =>
          r ← replay d (mkStore (sb_gen sb) (sb_log_head sb) (sb_record_count sb) (seq s) (staged s) (image s)
                          (appends_since_mount s));
          Val (d, match r with Some s => inl s | None => inr Io end)
      | None =>
          '(d, s, r) ← write_superblock d s 0;
          Val (d, match r with inl _ => inl s | inr e => inr e end)
      end
  end.

Definition staged_len (vs : list (list Z)) : Z := fold_left (fun a v => a + zlen v) vs 0.

Definition append (s : VirtioBlkStore) (region : Region) (bytes : list Z)
  : res (VirtioBlkStore * (Z + MemErr)) :=
  let r := region_index region in
  if MAX_PAYLOAD <? zlen bytes then Val (s, inr Full) else
  rc ← idx (record_count s) r; st ← idx (staged s) r;
  next_sector_idx ← add_u 64 rc (zlen st);
  match region_extent (region_tag region) with
  | None => Val (s, inr Io)
  | Some (_, count) =>
      if count <=? next_sector_idx then Val (s, inr Full) else
      img ← idx (image s) r;
      off ← add_u 64 (zlen img) (staged_len st);
      st ← upd (staged s) r (st ++ [bytes]);
      Val (mkStore (gen s) (log_head s) (record_count s) (seq s) st (image s)
             (wrapping_add 64 (appends_since_mount s) 1), inl off)
  end.

(** [b = v[rem]] in the staged payloads, 0 past them. *)
Fixpoint staged_byte (vs : list (list Z)) (rem : Z) : res Z :=
  match vs with
  | [] => Val 0
  | v :: vs' => if rem <? zlen v then idx v rem else rem ← sub_u rem (zlen v); staged_byte vs' rem
  end.

Definition read_at (s : VirtioBlkStore) (region : Region) (off : Z) (buf : list Z)
  : res (list Z * (Z + MemErr)) :=
  let r := region_index region in
  img ← idx (image s) r; st ← idx (staged s) r;
  let start := off in
  let img_len := zlen img in
  total ← add_u 64 img_len (staged_len st);
  if total <? start then Val (buf, inr NotFound) else
  let n := Z.min (zlen buf) (total - start) in
  buf ← for_up 0 n (fun written buf =>
    let pos := start + written in
    byte ← (if pos <? img_len then idx img pos else staged_byte st (pos - img_len));
    upd buf written byte) buf;
  Val (buf, inl n).

(** Phase 1 for one region: the payloads from log position [i] on. *)
Fixpoint write_frames (d : D) (tag sq i : Z) (payloads : list (list Z)) (sec : list Z)
  : res (D * Z * list Z * option MemErr) :=
  match payloads with
  | [] => Val (d, sq, sec, None)
  | payload :: rest =>
      head ← mul_u 64 i SECTOR_SIZE;
      match record_sector tag head with
      | None => Val (d, sq, sec, Some Full)
      | Some sector =>
          '(sec, ok) ← record_frame_encode tag sq payload sec;
          if negb ok then Val (d, sq, sec, Some Io) else
          let '(d, ok) := blk_write d sector sec in
          if negb ok then Val (d, sq, sec, Some Io) else
          i ← add_u 64 i 1;
          write_frames d tag (wrapping_add 64 sq 1) i rest sec
      end
  end.

Definition set_seq (s : VirtioBlkStore) (sq : list Z) : VirtioBlkStore :=
  mkStore (gen s) (log_head s) (record_count s) sq (staged s) (image s) (appends_since_mount s).

(** Phase 1: the regions in order, stopping at the first error. *)
Fixpoint flush_frames (k : nat) (r : Z) (d : D) (s : VirtioBlkStore) (sec : list Z)
  : res (D * VirtioBlkStore * option MemErr) :=
  match k with
  | O => Val (d, s, None)
  | S k =>
      i ← idx (record_count s) r; st ← idx (staged s) r; sq ← idx (seq s) r;
      '(d, sq, sec, e) ← write_frames d r sq i st sec;
      sqs ← upd (seq s) r sq;
      let s := set_seq s sqs in
      match e with
      | Some e => Val (d, s, Some e)
      | None => flush_frames k (r + 1) d s sec
      end
  end.

(** The staged payloads become the committed image and the watermarks advance. *)
Definition fold_staged (s : VirtioBlkStore) : res VirtioBlkStore :=
  for_up 0 3 (fun r s =>
    st ← idx (staged s) r;
    none ← upd (staged s) r [];
    let s := mkStore (gen s) (log_head s) (record_count s) (seq s) none (image s) (appends_since_mount s) in
    fold_res (fun s payload =>
      img ← idx (image s) r; im ← upd (image s) r (img ++ payload);
      c ← idx (record_count s) r; c ← add_u 64 c 1; cs ← upd (record_count s) r c;
      l ← idx (log_head s) r; l ← add_u 64 l SECTOR_SIZE; ls ← upd (log_head s) r l;
      Val (mkStore (gen s) ls cs (seq s) (staged s) im (appends_since_mount s))) s st) s.

Definition flush (d : D) (s : VirtioBlkStore) : res (D * VirtioBlkStore * (unit + MemErr)) :=
  let sec := zrepeat 512 0 in
  '(d, s, e) ← flush_frames 3 0 d s sec;
  match e with
  | Some e => Val (d, s, inr e)
  | None =>
      if negb (blk_flush d) then Val (d, s, inr Io) else
      s ← fold_staged s;
      let next_gen := wrapping_add 64 (gen s) 1 in
      write_superblock d s next_gen
  end.

Definition epoch (s : VirtioBlkStore) : Z :=
  Z.lor (wrap 64 (Z.shiftl (gen s) 32)) (Z.land (appends_since_mount s) 0xFFFFFFFF).
End store.

#[export] Instance VirtioBlkStore_backing {D} `{BlockDevice D} : BackingStore (D * VirtioBlkStore) := {|
  bs_append '(d, s) r b := '(s, x) ← append s r b; Val ((d, s), x);
  bs_read_at '(d, s) r off buf := read_at s r off buf;
  bs_flush '(d, s) := '(d, s, x) ← flush d s; Val ((d, s), x);
  bs_epoch '(d, s) := epoch s |}.

(** What the organ needs of a store beyond the operations: appending and flushing return, in
    a state for which this goes on. *)
Class BackingTotal (S : Type) `{BackingStore S} := {
  bs_ok : S -> Prop;
  bs_append_total : forall s r b, bs_ok s -> runs (bs_append s r b) (fun '(s', _) => bs_ok s');
  bs_flush_total : forall s, bs_ok s -> runs (bs_flush s) (fun '(s', _) => bs_ok s');
}.

#[export] Program Instance RamStore_total : BackingTotal Ram.RamStore := {| bs_ok s := True |}.
Next Obligation. intros s r b _. by apply runs_val. Qed.
Next Obligation. intros s _. by apply runs_val. Qed.

(** A whole boot on a blank disk: three appends, a commit, and a fresh mount. *)
Definition demo_boot : res (list (list Z) * list Z * Z) :=
  '(d, m) ← mount (mkDisk 20 []);
  match m with
  | inr _ => Panic
  | inl s =>
      '(s, _) ← append s Episodic [1; 2]; '(s, _) ← append s Working [9]; '(s, _) ← append s Episodic [3];
      '(d, s, _) ← flush d s;
      '(d, m) ← mount d;
      match m with inl s => Val (image s, record_count s, gen s) | inr _ => Panic end
  end.
Example demo_boot_runs : demo_boot = Val ([[1; 2; 3]; []; [9]], [2; 0; 1], 1).
Proof. vm_compute. reflexivity. Qed.

(** ** Specification: committed logs *)

(** A three-element array as a function of the region's index. *)
Definition arr {A} (f : Z -> A) : list A := [f 0; f 1; f 2].
Definition fset {A} (f : Z -> A) (r : Z) (v : A) : Z -> A := fun x => if decide (x = r) then v else f x.

Lemma zlen_arr {A} (f : Z -> A) : zlen (arr f) = 3.
Proof. done. Qed.
Lemma region_cases r : 0 <= r < 3 -> r = 0 \/ r = 1 \/ r = 2.
Proof. lia. Qed.
Lemma idx_arr {A} (f : Z -> A) r : 0 <= r < 3 -> idx (arr f) r = Val (f r).
Proof. by intros [->|[->| ->]]%region_cases. Qed.
Lemma upd_arr {A} (f : Z -> A) r v : 0 <= r < 3 -> upd (arr f) r v = Val (arr (fset f r v)).
Proof. by intros [->|[->| ->]]%region_cases. Qed.
Lemma fset_eq {A} (f : Z -> A) r v : fset f r v r = v.
Proof. unfold fset. by rewrite decide_True. Qed.
Lemma fset_ne {A} (f : Z -> A) r v x : x <> r -> fset f r v x = f x.
Proof. intros. unfold fset. by rewrite decide_False. Qed.
Lemma arr_ext {A} (f g : Z -> A) : (forall r, 0 <= r < 3 -> f r = g r) -> arr f = arr g.
Proof. intros H. unfold arr. by rewrite !H by lia. Qed.

Definition first_of (r : Z) : Z := if r =? 0 then EP_FIRST else if r =? 1 then SEM_FIRST else WM_FIRST.
Definition count_of (r : Z) : Z := if r =? 0 then EP_COUNT else if r =? 1 then SEM_COUNT else WM_COUNT.

(** A committed record: its sequence number and its payload. *)
Abbreviation entry := (Z * list Z)%type.
Definition payloads (es : list entry) : list Z := concat (map snd es).
(** The entries a commit makes of staged payloads. *)
Fixpoint stamp (q : Z) (ps : list (list Z)) : list entry :=
  match ps with [] => [] | p :: ps' => (q, p) :: stamp (q + 1) ps' end.

Definition frame_on (sec : list Z) (e : entry) : Prop :=
  exists h, record_frame_decode sec = Val (Some (h, 24)) /\ fh_seq h = e.1 /\ fh_len h = zlen e.2 /\
    zsub 24 (zlen e.2) sec = e.2.

(** The sectors [c] of a disk hold the log [es] of region [r], sequence numbers rising and
    below [q]. *)
Record log_on (c : Z -> list Z) (r : Z) (es : list entry) (q : Z) : Prop := {
  log_fits : zlen es <= count_of r;
  log_frames : forall i e, es !! i = Some e -> frame_on (c (first_of r + Z.of_nat i)) e;
  log_rising : forall i e e', es !! i = Some e -> es !! S i = Some e' -> e.1 < e'.1;
  log_below : forall i e, es !! i = Some e -> 0 <= e.1 < q;
}.

(** The store with logs [P], staged payloads [S] and next sequence numbers [Q]. *)
Definition store_of (g : Z) (P : Z -> list entry) (Q : Z -> Z) (S : Z -> list (list Z)) (n : Z) : VirtioBlkStore :=
  mkStore g (arr (fun r => 512 * zlen (P r))) (arr (fun r => zlen (P r))) (arr Q) (arr S)
    (arr (fun r => payloads (P r))) n.

Definition payload_ok (p : list Z) : Prop := bytes p /\ zlen p <= MAX_PAYLOAD.

Section durable.
Context {D : Type} `{BlockDevice D}.
Implicit Types (d : D).

(** The durable state: logs [P] of which the superblock commits the first [C] records under
    generation [g0]. *)
Record store_inv d (P : Z -> list entry) (Q : Z -> Z) (S : Z -> list (list Z)) (C : Z -> Z) (g0 : Z) : Prop := {
  inv_cap : exists cap, blk_probe d = Some cap /\ 8192 <= cap;
  inv_gen : is_u64 g0;
  inv_sb : superblock_decode (sectors_of d 0) =
    Val (Some {| sb_version := SB_VERSION; sb_gen := g0;
                 sb_log_head := arr (fun r => 512 * C r); sb_record_count := arr C |});
  inv_committed : forall r, 0 <= r < 3 -> 0 <= C r <= zlen (P r);
  inv_log : forall r, 0 <= r < 3 -> log_on (sectors_of d) r (P r) (Q r);
  inv_staged : forall r, 0 <= r < 3 -> Forall payload_ok (S r) /\ zlen (P r) + zlen (S r) <= count_of r;
  inv_seq : forall r, 0 <= r < 3 -> 0 <= Q r;
}.

(** ** Lemmas: frames *)

Lemma frame_roundtrip tag q p : is_u8 tag -> is_u64 q -> payload_ok p ->
  frame_on (frame_bytes (frame_header_for tag q p) p) (q, p) /\
  zlen (frame_bytes (frame_header_for tag q p) p) = 512 /\ bytes (frame_bytes (frame_header_for tag q p) p).
Proof.
  intros Ht Hq [Hb Hl]. pose proof (zlen_nonneg p). set (h := frame_header_for tag q p).
  assert (zlen (frame_bytes h p) = 512) as Hlen.
  { unfold frame_bytes, frame_header_bytes, MAX_PAYLOAD, SECTOR_SIZE, FRAME_HEADER_LEN in *. zl. }
  assert (bytes (frame_bytes h p)) as Hby.
  { unfold frame_bytes, frame_header_bytes. byte_chunks. by apply Forall_singleton. }
  split; [|done].
  assert (frame_header_of (frame_bytes h p) tag = h) as Hh.
  { apply (frame_header_roundtrip h); cbn [fh_len fh_seq fh_payload_crc h frame_header_for];
      [|done | apply fnv32_in_u]. unfold in_u, MAX_PAYLOAD, SECTOR_SIZE, FRAME_HEADER_LEN in *. lia. }
  assert (zsub 24 (zlen p) (frame_bytes h p) = p) as Hpay.
  { unfold frame_bytes. rewrite (zsub_skip 24 _ _ _ 24 0) by (reflexivity || done). by apply zsub_app_eq. }
  exists h. cbn [fst snd]. rewrite (record_frame_decode_eq _ tag) by done. rewrite Hh.
  rewrite decide_True; [done|]. unfold frame_payload. cbn [h frame_header_for fh_len fh_payload_crc]. by rewrite Hpay.
Qed.

Lemma record_sector_at r i : 0 <= r < 3 -> 0 <= i < count_of r -> record_sector r (i * 512) = Some (first_of r + i).
Proof.
  intros Hr Hi. unfold record_sector, SECTOR_SIZE. rewrite Z.div_mul by done.
  assert (region_extent r = Some (first_of r, count_of r)) as -> by (by apply region_cases in Hr as [->|[->| ->]]).
  cbn. rewrite (proj2 (Z.leb_gt _ _)) by lia. f_equal. apply wrap_small. unfold in_u, first_of, count_of in *.
  unfold EP_FIRST, SEM_FIRST, WM_FIRST, EP_COUNT, SEM_COUNT, WM_COUNT in *.
  destruct (r =? 0), (r =? 1); lia.
Qed.

Lemma extents r : 0 <= r < 3 -> 1 <= first_of r /\ 0 < count_of r <= 4095 /\ first_of r + count_of r <= 8192 /\
  forall r', 0 <= r' < 3 -> r' <> r -> first_of r + count_of r <= first_of r' \/ first_of r' + count_of r' <= first_of r.
Proof.
  intros Hr. split; [|split; [|split]]; [..|intros r' Hr' Hne; apply region_cases in Hr'];
    apply region_cases in Hr; destruct Hr as [->|[->| ->]];
    try (destruct Hr' as [->|[->| ->]]); try done;
    unfold first_of, count_of, EP_FIRST, SEM_FIRST, WM_FIRST, EP_COUNT, SEM_COUNT, WM_COUNT; cbn [Z.eqb Pos.eqb]; lia.
Qed.

Lemma log_on_ext c c' r es q : log_on c r es q ->
  (forall i, 0 <= i < zlen es -> c' (first_of r + i) = c (first_of r + i)) -> log_on c' r es q.
Proof.
  intros [H1 H2 H3 H4] Hc. constructor; [done| |done|done]. intros i e Hi.
  rewrite Hc; [eauto|]. pose proof (lookup_lt_Some _ _ _ Hi). unfold zlen. lia.
Qed.

Lemma log_on_below c r es q q' : log_on c r es q -> q <= q' -> log_on c r es q'.
Proof. intros [H1 H2 H3 H4] Hq. constructor; [done..|]. intros i e Hi. specialize (H4 i e Hi). lia. Qed.

Lemma log_on_snoc c r es q p : log_on c r es q -> 0 <= q -> zlen es < count_of r ->
  frame_on (c (first_of r + zlen es)) (q, p) -> log_on c r (es ++ [(q, p)]) (q + 1).
Proof.
  intros [H1 H2 H3 H4] Hq Hl Hf. constructor.
  - rewrite zlen_app, zlen_cons, zlen_nil. lia.
  - intros i e Hi. apply lookup_app_Some in Hi as [Hi|[Hge Hi]]; [eauto|].
    destruct (i - length es)%nat eqn:En; [|done]. injection Hi as <-. unfold zlen in Hf. replace i with (length es) by lia. done.
  - intros i e e' Hi Hi'. apply lookup_app_Some in Hi' as [Hi'|[Hge Hi']].
    + rewrite lookup_app_l in Hi by (pose proof (lookup_lt_Some _ _ _ Hi'); lia). eauto.
    + destruct (S i - length es)%nat eqn:En; [|done]. injection Hi' as <-.
      rewrite lookup_app_l in Hi by lia. apply H4 in Hi. cbn [fst]. lia.
  - intros i e Hi. apply lookup_app_Some in Hi as [Hi|[Hge Hi]]; [apply H4 in Hi; lia|].
    destruct (i - length es)%nat eqn:En; [|done]. injection Hi as <-. cbn [fst]. lia.
Qed.

Lemma log_on_take c r es q n : log_on c r es q -> log_on c r (ztake n es) q.
Proof.
  intros [H1 H2 H3 H4]. unfold ztake.
  assert (forall i e, take (Z.to_nat n) es !! i = Some e -> es !! i = Some e) as Ht.
  { intros i e Hi. by apply lookup_take_Some in Hi as [? _]. }
  constructor; [pose proof (zlen_ztake n es) as Hz; unfold ztake in Hz; pose proof (zlen_nonneg es); lia | eauto | eauto | eauto].
Qed.

(** ** Lemmas: mounting replays the committed logs *)

Lemma replay_loop_log d r es q cap count : 0 <= r < 3 -> blk_probe d = Some cap -> 8192 <= cap ->
  log_on (sectors_of d) r es q -> count <= zlen es ->
  forall fuel i last img, 0 <= i <= count -> count - i < Z.of_nat fuel ->
  (forall p e, last = Some p -> es !! Z.to_nat i = Some e -> p < e.1) ->
  exists last', replay_loop fuel d r count i last img = Val (Some (last', img ++ payloads (zsub i (count - i) es))) /\
    (i = count -> last' = last) /\ (i < count -> exists e, es !! Z.to_nat (count - 1) = Some e /\ last' = Some e.1).
Proof.
  intros Hr Hp Hcap Hlog Hc. induction fuel as [|fuel IH]; intros i last img Hi Hf Hlast; [lia|].
  cbn [replay_loop]. destruct (Z.leb_spec count i) as [Hge|Hlt].
  { assert (i = count) as -> by lia. exists last. split; [|split; [done|lia]].
    unfold zsub, ztake. rewrite Z.sub_diag. cbn. by rewrite app_nil_r. }
  destruct (lookup_lt_is_Some_2 es (Z.to_nat i)) as [e Ee]; [unfold zlen in *; lia|].
  pose proof (log_fits _ _ _ _ Hlog) as Hfit. destruct (extents r Hr) as (E1 & E2 & E3 & _).
  rewrite mul_u_ok, bind_val by (unfold SECTOR_SIZE; lia). unfold SECTOR_SIZE. rewrite record_sector_at by lia.
  rewrite (blk_read_ok d cap) by (done || lia).
  destruct (log_frames _ _ _ _ Hlog _ _ Ee) as (h & Hd & Hs & Hl & Hpay). rewrite Z2Nat.id in Hd, Hpay by lia.
  rewrite Hd, bind_val.
  assert (match last with Some p => fh_seq h <=? p | None => false end = false) as ->.
  { destruct last as [p|]; [|done]. apply Z.leb_gt. rewrite Hs. by eapply Hlast. }
  assert (0 <= zlen e.2 /\ 24 + zlen e.2 <= 512) as [Hnn Hle].
  { split; [apply zlen_nonneg|]. pose proof (f_equal zlen Hpay) as Hz. rewrite zlen_zsub in Hz.
    rewrite (proj1 (sectors_ok _ _)) in Hz. pose proof (zlen_nonneg e.2).
    destruct (Z.le_gt_cases (24 + zlen e.2) 512); [done|].
    destruct (idx_ok (sectors_of d (first_of r + i)) 0) as [tag Ht]; [rewrite (proj1 (sectors_ok _ _)); lia|].
    rewrite (record_frame_decode_eq _ tag) in Hd by (apply sectors_ok || done).
    case_decide as Hv; [|done]. injection Hd as <-. unfold MAX_PAYLOAD, SECTOR_SIZE, FRAME_HEADER_LEN in Hv. lia. }
  rewrite Hl, slice_ok, bind_val by (rewrite ?(proj1 (sectors_ok _ _)); lia).
  replace (24 + zlen e.2 - 24) with (zlen e.2) by lia. rewrite Hpay. rewrite add_u_ok, bind_val by lia.
  destruct (IH (i + 1) (Some (fh_seq h)) (img ++ e.2)) as (last' & -> & H1 & H2); [lia | lia | |].
  { intros p e' [= <-] He'. rewrite Hs. replace (Z.to_nat (i + 1)) with (S (Z.to_nat i)) in He' by lia.
    by eapply (log_rising _ _ _ _ Hlog). }
  exists last'. split; [|split; [lia|]].
  - do 2 f_equal. rewrite <- app_assoc. do 2 f_equal.
    assert (zsub i (count - i) es = e :: zsub (i + 1) (count - (i + 1)) es) as ->; [|done].
    unfold zsub, zdrop. rewrite (drop_S es e (Z.to_nat i)) by done.
    unfold ztake. replace (Z.to_nat (count - i)) with (S (Z.to_nat (count - (i + 1)))) by lia.
    by replace (Z.to_nat (i + 1)) with (S (Z.to_nat i)) by lia.
  - intros _. destruct (decide (i + 1 = count)) as [Heq|Hne]; [|apply H2; lia].
    exists e. rewrite H1 by done. rewrite <- Heq. replace (i + 1 - 1) with i by lia. by rewrite Hs.
Qed.

(** The next sequence number a mount computes. *)
Definition next_seq (es : list entry) : Z := match last es with Some e => e.1 + 1 | None => 0 end.

Lemma next_seq_take es e n : 0 < n -> es !! Z.to_nat (n - 1) = Some e -> next_seq (ztake n es) = e.1 + 1.
Proof.
  intros Hn He. unfold next_seq, ztake. replace (Z.to_nat n) with (S (Z.to_nat (n - 1))) by lia.
  by rewrite (take_S_r _ _ e), last_snoc by done.
Qed.

Lemma mount_inv d P Q S C g0 : store_inv d P Q S C g0 -> (forall r, 0 <= r < 3 -> Q r < 2 ^ 64) ->
  mount d = Val (d, inl (store_of g0 (fun r => ztake (C r) (P r)) (fun r => next_seq (ztake (C r) (P r))) (fun _ => []) 0)).
Proof.
  intros Hinv HQ. destruct (inv_cap _ _ _ _ _ _ Hinv) as (cap & Hp & Hcap). unfold mount.
  rewrite (blk_read_ok d cap) by (done || (unfold SB_SECTOR; lia)). unfold SB_SECTOR.
  rewrite (inv_sb _ _ _ _ _ _ Hinv), bind_val. cbn [sb_gen sb_log_head sb_record_count seq staged image appends_since_mount].
  assert (forall r n sq im lh, 0 <= r < 3 ->
    (let s := mkStore g0 lh (arr C) (arr sq) n (arr im) 0 in
     im r = [] ->
     (count ← idx (record_count s) r; img ← idx (image s) r;
      o ← replay_loop REPLAY_FUEL d r count 0 None img;
      match o with
      | None => Val None
      | Some (last_seq, img) =>
          n ← match last_seq with Some x => add_u 64 x 1 | None => Val 0 end;
          im ← upd (image s) r img; sq ← upd (seq s) r n;
          Val (Some (mkStore (gen s) (log_head s) (record_count s) sq (staged s) im (appends_since_mount s)))
      end) =
     Val (Some (mkStore g0 lh (arr C) (arr (fset sq r (next_seq (ztake (C r) (P r))))) n
                  (arr (fset im r (payloads (ztake (C r) (P r))))) 0)))) as Hstep.
  { intros r n sq im lh Hr s Him. unfold s. cbn [record_count image seq gen log_head staged appends_since_mount].
    pose proof (inv_committed _ _ _ _ _ _ Hinv r Hr) as HC. pose proof (inv_log _ _ _ _ _ _ Hinv r Hr) as HL.
    rewrite !idx_arr, !bind_val, Him by done.
    destruct (extents r Hr) as (_ & E2 & _ & _). pose proof (log_fits _ _ _ _ HL).
    destruct (replay_loop_log d r (P r) (Q r) cap (C r) Hr Hp Hcap HL ltac:(lia) REPLAY_FUEL 0 None []) as (l & -> & H1 & H2);
      [lia | unfold REPLAY_FUEL; lia | done |].
    rewrite bind_val. cbn [app].
    assert (match l with Some x => add_u 64 x 1 | None => Val 0 end = Val (next_seq (ztake (C r) (P r)))) as ->.
    { destruct (decide (0 = C r)) as [He|Hne].
      - rewrite (H1 He), <- He. done.
      - destruct (H2 ltac:(lia)) as (e & Ee & ->). rewrite (next_seq_take (P r) e) by (done || lia).
        pose proof (log_below _ _ _ _ HL _ _ Ee). specialize (HQ r Hr). by rewrite add_u_ok by lia. }
    rewrite bind_val, !upd_arr, !bind_val by done. unfold zsub. by rewrite Z.sub_0_r. }
  unfold replay, for_up_opt. change (Z.to_nat (3 - 0)) with 3%nat. cbn [loop_opt].
  change [0; 0; 0] with (arr (fun _ : Z => 0)). change [[]; []; []] with (arr (fun _ : Z => @nil Z)) at 2.
  rewrite (Hstep 0), bind_val by (done || lia). change (0 + 1) with 1.
  rewrite (Hstep 1), bind_val by (done || lia). change (1 + 1) with 2.
  rewrite (Hstep 2), bind_val by (done || lia). rewrite bind_val. unfold store_of. do 3 f_equal.
  assert (forall r, 0 <= r < 3 -> zlen (ztake (C r) (P r)) = C r) as Hlen.
  { intros r Hr. pose proof (inv_committed _ _ _ _ _ _ Hinv r Hr). rewrite zlen_ztake. lia. }
  f_equal; try done; apply arr_ext; intros r Hr; by rewrite Hlen by done.
Qed.

Lemma mount_keeps d P Q S C g0 : store_inv d P Q S C g0 ->
  store_inv d (fun r => ztake (C r) (P r)) (fun r => next_seq (ztake (C r) (P r))) (fun _ => []) C g0.
Proof.
  intros Hinv. constructor; try apply Hinv.
  - intros r Hr. pose proof (inv_committed _ _ _ _ _ _ Hinv r Hr). rewrite zlen_ztake. lia.
  - intros r Hr. pose proof (inv_log _ _ _ _ _ _ Hinv r Hr) as HL. pose proof (log_on_take _ _ _ _ (C r) HL) as [H1 H2 H3 H4].
    constructor; [done..|]. intros i e Hi. split; [by eapply H4|]. unfold next_seq.
    set (es := ztake (C r) (P r)) in *. clearbody es. clear - H3 Hi.
    assert (forall k i e e', es !! i = Some e -> es !! (i + k)%nat = Some e' -> e.1 <= e'.1) as Hmono.
    { induction k as [|k IH]; intros j x x' Hj Hj'.
      - rewrite Nat.add_0_r in Hj'. rewrite Hj in Hj'. by injection Hj' as ->.
      - destruct (lookup_lt_is_Some_2 es (j + k)) as [y Hy]; [pose proof (lookup_lt_Some _ _ _ Hj'); lia|].
        transitivity y.1; [by eapply IH|]. replace (j + S k)%nat with (S (j + k)) in Hj' by lia.
        pose proof (H3 _ _ _ Hy Hj'). lia. }
    pose proof (lookup_lt_Some _ _ _ Hi) as Hlt. rewrite last_lookup.
    destruct (lookup_lt_is_Some_2 es (pred (length es))) as [y Hy]; [lia|]. rewrite Hy.
    specialize (Hmono (pred (length es) - i)%nat i e y Hi). replace (i + (pred (length es) - i))%nat with (pred (length es)) in Hmono by lia.
    specialize (Hmono Hy). lia.
  - intros r Hr. split; [constructor|]. pose proof (inv_committed _ _ _ _ _ _ Hinv r Hr).
    pose proof (log_fits _ _ _ _ (inv_log _ _ _ _ _ _ Hinv r Hr)). rewrite zlen_ztake. change (zlen []) with 0. lia.
  - intros r Hr. unfold next_seq. destruct (last _) as [e|] eqn:El; [|done].
    rewrite last_lookup in El. apply (log_below _ _ _ _ (log_on_take _ _ _ _ (C r) (inv_log _ _ _ _ _ _ Hinv r Hr))) in El. lia.
Qed.

(** ** Lemmas: the two-phase commit *)

Lemma zlen_stamp q ps : zlen (stamp q ps) = zlen ps.
Proof. revert q. induction ps as [|p ps IH]; intros q; [done|]. cbn [stamp]. by rewrite !zlen_cons, IH. Qed.
Lemma payloads_stamp q ps : payloads (stamp q ps) = concat ps.
Proof. unfold payloads. revert q. induction ps as [|p ps IH]; intros q; [done|]. cbn. by rewrite IH. Qed.
Lemma payloads_app es es' : payloads (es ++ es') = payloads es ++ payloads es'.
Proof. unfold payloads. by rewrite map_app, concat_app. Qed.

Lemma write_frames_spec r ps : 0 <= r < 3 -> Forall payload_ok ps -> forall d es q sec,
  log_on (sectors_of d) r es q -> 0 <= q -> q + zlen ps < 2 ^ 64 -> zlen es + zlen ps <= count_of r ->
  zlen sec = 512 ->
  runs (write_frames d r q (zlen es) ps sec) (fun '(d', q', sec', e) =>
    blk_probe d' = blk_probe d /\ zlen sec' = 512 /\ q <= q' <= q + zlen ps /\
    (forall x, ~ (first_of r + zlen es <= x < first_of r + zlen es + zlen ps) ->
       sectors_of d' x = sectors_of d x) /\
    (e = None -> q' = q + zlen ps /\ log_on (sectors_of d') r (es ++ stamp q ps) q')).
Proof.
  intros Hr. destruct (extents r Hr) as (E1 & E2 & E3 & _).
  induction ps as [|p ps IH]; intros Hps d es q sec HL Hq Hq64 Hfit Hsec; cbn [write_frames].
  { apply runs_val. change (zlen []) with 0. split; [done|]. split; [done|]. split; [lia|]. split; [done|].
    intros _. split; [lia|]. cbn [stamp]. by rewrite app_nil_r. }
  apply Forall_cons in Hps as [Hp Hps]. rewrite zlen_cons in Hq64, Hfit |- *.
  pose proof (zlen_nonneg es). pose proof (zlen_nonneg ps).
  rewrite mul_u_ok, bind_val by (unfold SECTOR_SIZE; lia). unfold SECTOR_SIZE. rewrite record_sector_at by lia.
  destruct Hp as [Hpb Hpl]. rewrite record_frame_encode_eq, bind_val by done. cbn [negb].
  assert (is_u8 r) as Hr8 by (unfold in_u; lia). assert (is_u64 q) as Hq' by (unfold in_u; lia).
  destruct (frame_roundtrip r q p Hr8 Hq' (conj Hpb Hpl)) as (Hf & Hfl & Hfb).
  set (fb := frame_bytes _ p) in *. destruct (blk_write d (first_of r + zlen es) fb) as [d1 ok] eqn:Ew.
  destruct (blk_write_ok _ _ _ _ _ Hfl Hfb Ew) as (Hpr & Hoth & Hat). destruct ok; cbn [negb].
  2: { apply runs_val. split; [done|]. split; [done|]. split; [lia|]. split; [|done]. intros x Hx. apply Hoth. lia. }
  destruct Hat as [Hat|[? _]]; [|done]. rewrite add_u_ok, bind_val by lia.
  assert (wrapping_add 64 q 1 = q + 1) as -> by (apply wrap_small; unfold in_u; lia).
  assert (log_on (sectors_of d1) r (es ++ [(q, p)]) (q + 1)) as HL1.
  { apply log_on_snoc; [|done|lia|by rewrite Hat]. eapply log_on_ext; [exact HL|]. intros i Hi. apply Hoth. lia. }
  replace (zlen es + 1) with (zlen (es ++ [(q, p)])) by (rewrite zlen_app; done).
  eapply runs_mono; [apply (IH Hps d1 (es ++ [(q, p)]) (q + 1) fb HL1); rewrite ?zlen_app, ?zlen_cons, ?zlen_nil; lia|].
  rewrite zlen_app, zlen_cons, zlen_nil.
  intros [[[d2 q2] sec2] e] (Hpr2 & Hs2 & Hq2 & Hx2 & He). split; [by rewrite Hpr2|]. split; [done|]. split; [lia|].
  split; [intros x Hx; rewrite Hx2 by lia; apply Hoth; lia|]. intros ->. destruct (He eq_refl) as [-> HL2].
  split; [lia|]. cbn [stamp]. by rewrite <- app_assoc in HL2.
Qed.

Lemma set_seq_store g P Q S n Q' : set_seq (store_of g P Q S n) (arr Q') = store_of g P Q' S n.
Proof. done. Qed.

Lemma flush_frames_spec g P S n k : forall r d Q sec, 0 <= r -> r + Z.of_nat k = 3 -> zlen sec = 512 ->
  (forall x, r <= x < 3 -> log_on (sectors_of d) x (P x) (Q x) /\ 0 <= Q x /\ Q x + zlen (S x) < 2 ^ 64 /\
     Forall payload_ok (S x) /\ zlen (P x) + zlen (S x) <= count_of x) ->
  runs (flush_frames k r d (store_of g P Q S n) sec) (fun '(d', s', e) =>
    exists Q', s' = store_of g P Q' S n /\ blk_probe d' = blk_probe d /\
      (forall x, 0 <= x < r -> Q' x = Q x) /\ (forall x, r <= x < 3 -> Q x <= Q' x <= Q x + zlen (S x)) /\
      (forall y, (forall x, r <= x < 3 -> ~ (first_of x + zlen (P x) <= y < first_of x + zlen (P x) + zlen (S x))) ->
         sectors_of d' y = sectors_of d y) /\
      (e = None -> forall x, r <= x < 3 -> log_on (sectors_of d') x (P x ++ stamp (Q x) (S x)) (Q' x))).
Proof.
  induction k as [|k IH]; intros r d Q sec Hr Hk Hsec Hpre; cbn [flush_frames].
  { apply runs_val. exists Q. split; [done|]. split; [done|]. split; [done|]. split; [lia|]. split; [done|]. intros; lia. }
  assert (0 <= r < 3) as Hr3 by lia. destruct (Hpre r ltac:(lia)) as (HL & Hq & Hq64 & Hps & Hfit).
  cbn [record_count staged seq store_of]. rewrite !idx_arr, !bind_val by done.
  eapply runs_bind; [apply (write_frames_spec r (S r) Hr3 Hps d (P r) (Q r) sec HL Hq Hq64 Hfit Hsec)|].
  intros [[[d1 q1] sec1] e1] (Hpr1 & Hs1 & Hq1 & Hx1 & He1).
  cbn [seq store_of]. rewrite upd_arr, bind_val by done. cbv zeta. rewrite set_seq_store.
  destruct (extents r Hr3) as (_ & _ & _ & Hdis).
  destruct e1 as [e|].
  { apply runs_val. exists (fset (Q) r q1). split; [done|]. split; [done|].
    split; [intros x Hx; by rewrite fset_ne by lia|]. split.
    - intros x Hx. destruct (decide (x = r)) as [->|Hne]; [rewrite fset_eq; lia|]. rewrite fset_ne by done.
      pose proof (zlen_nonneg (S x)). lia.
    - split; [|done]. intros y Hy. apply Hx1, Hy. lia. }
  destruct (He1 eq_refl) as [-> HL1].
  eapply runs_mono; [apply (IH (r + 1) d1 (fset Q r (Q r + zlen (S r))) sec1); [lia | lia | done |]|].
  - intros x Hx. rewrite fset_ne by lia. destruct (Hpre x ltac:(lia)) as (HLx & ? & ? & ? & Hfx). split; [|done].
    eapply log_on_ext; [exact HLx|]. intros i Hi. apply Hx1. destruct (Hdis x ltac:(lia) ltac:(lia)) as [|];
      pose proof (zlen_nonneg (P r)); pose proof (zlen_nonneg (S r)); pose proof (zlen_nonneg (S x)); lia.
  - intros [[d2 s2] e2] (Q2 & -> & Hpr2 & Hlo & Hhi & Hx2 & He2). exists Q2.
    assert (Q2 r = Q r + zlen (S r)) as Hq2 by (rewrite Hlo, fset_eq by lia; done).
    split; [done|]. split; [by rewrite Hpr2|]. split; [intros x Hx; by rewrite Hlo, fset_ne by lia|]. split; [|split].
    + intros x Hx. destruct (decide (x = r)) as [->|Hne]; [pose proof (zlen_nonneg (S r)); lia|].
      specialize (Hhi x ltac:(lia)). rewrite fset_ne in Hhi by done. done.
    + intros y Hy. rewrite Hx2, Hx1; [done | apply Hy; lia|]. intros x Hx. apply Hy. lia.
    + intros -> x Hx. destruct (decide (x = r)) as [->|Hne].
      * rewrite Hq2. eapply log_on_ext; [exact HL1|]. intros i Hi. rewrite zlen_app, zlen_stamp in Hi. apply Hx2.
        intros x' Hx'. destruct (Hpre x' ltac:(lia)) as (_ & _ & _ & _ & Hfx).
        destruct (Hdis x' ltac:(lia) ltac:(lia)) as [|]; pose proof (zlen_nonneg (P x')); pose proof (zlen_nonneg (S x')); lia.
      * specialize (He2 eq_refl x ltac:(lia)). by rewrite fset_ne in He2 by done.
Qed.

Lemma fold_region r g lh rc sq st im n ps : 0 <= r < 3 -> 0 <= rc r -> rc r + zlen ps <= 4095 -> lh r = 512 * rc r ->
  fold_res (fun s payload =>
    img ← idx (image s) r; im ← upd (image s) r (img ++ payload);
    c ← idx (record_count s) r; c ← add_u 64 c 1; cs ← upd (record_count s) r c;
    l ← idx (log_head s) r; l ← add_u 64 l SECTOR_SIZE; ls ← upd (log_head s) r l;
    Val (mkStore (gen s) ls cs (seq s) (staged s) im (appends_since_mount s)))
    (mkStore g (arr lh) (arr rc) sq st (arr im) n) ps =
  Val (mkStore g (arr (fset lh r (512 * (rc r + zlen ps)))) (arr (fset rc r (rc r + zlen ps))) sq st
         (arr (fset im r (im r ++ concat ps))) n).
Proof.
  intros Hr. revert lh rc im. induction ps as [|p ps IH]; intros lh rc im Hrc Hb Hlh.
  { cbn [fold_res concat]. change (zlen []) with 0. rewrite Z.add_0_r, <- Hlh, app_nil_r.
    do 2 f_equal; apply arr_ext; intros x _; unfold fset; by case_decide; subst. }
  rewrite fold_res_cons. rewrite zlen_cons in *. pose proof (zlen_nonneg ps). cbn [image record_count log_head gen seq staged appends_since_mount].
  rewrite (idx_arr im r), bind_val, (upd_arr im r), bind_val, (idx_arr rc r), bind_val by done.
  rewrite (add_u_ok 64 (rc r) 1), bind_val, (upd_arr rc r), bind_val, (idx_arr lh r), bind_val by (done || lia).
  rewrite (add_u_ok 64 (lh r) SECTOR_SIZE), bind_val, (upd_arr lh r), !bind_val by (done || unfold SECTOR_SIZE; lia).
  rewrite IH; rewrite ?fset_eq; [|lia|lia|unfold SECTOR_SIZE; lia]. cbn [concat]. rewrite <- app_assoc.
  replace (rc r + 1 + zlen ps) with (rc r + (1 + zlen ps)) by lia.
  do 2 f_equal; apply arr_ext; intros x _; unfold fset; by case_decide.
Qed.

Lemma fold_staged_eq g P Q0 Q S n : (forall r, 0 <= r < 3 -> zlen (P r) + zlen (S r) <= count_of r) ->
  fold_staged (store_of g P Q S n) = Val (store_of g (fun r => P r ++ stamp (Q0 r) (S r)) Q (fun _ => []) n).
Proof.
  intros Hfit.
  assert (forall r lh rc st im, 0 <= r < 3 -> st r = S r -> rc r = zlen (P r) -> lh r = 512 * rc r ->
    (let s := mkStore g (arr lh) (arr rc) (arr Q) (arr st) (arr im) n in
     st ← idx (staged s) r; none ← upd (staged s) r [];
     let s := mkStore (gen s) (log_head s) (record_count s) (seq s) none (image s) (appends_since_mount s) in
     fold_res (fun s payload =>
      img ← idx (image s) r; im ← upd (image s) r (img ++ payload);
      c ← idx (record_count s) r; c ← add_u 64 c 1; cs ← upd (record_count s) r c;
      l ← idx (log_head s) r; l ← add_u 64 l SECTOR_SIZE; ls ← upd (log_head s) r l;
      Val (mkStore (gen s) ls cs (seq s) (staged s) im (appends_since_mount s))) s st) =
    Val (mkStore g (arr (fset lh r (512 * (zlen (P r) + zlen (S r))))) (arr (fset rc r (zlen (P r) + zlen (S r)))) (arr Q)
           (arr (fset st r [])) (arr (fset im r (im r ++ concat (S r)))) n)) as Hstep.
  { intros r lh rc st im Hr Hst Hrc Hlh. cbv zeta. cbn [staged gen log_head record_count seq image appends_since_mount].
    rewrite idx_arr, bind_val, upd_arr, bind_val by done. cbv zeta.
    destruct (extents r Hr) as (_ & E2 & _ & _). specialize (Hfit r Hr). pose proof (zlen_nonneg (P r)).
    rewrite Hst, fold_region by (done || lia). by rewrite Hrc. }
  unfold fold_staged, for_up. change (Z.to_nat (3 - 0)) with 3%nat. cbn [loop_nat]. unfold store_of at 1.
  rewrite (Hstep 0), bind_val by (done || lia). change (0 + 1) with 1.
  rewrite (Hstep 1), bind_val by (done || lia). change (1 + 1) with 2.
  rewrite (Hstep 2), bind_val by (done || lia). unfold store_of.
  do 2 f_equal; apply arr_ext; intros r Hr; unfold fset;
    rewrite ?zlen_app, ?zlen_stamp, ?payloads_app, ?payloads_stamp;
    destruct (region_cases r Hr) as [->|[->| ->]]; done.
Qed.

Lemma write_superblock_spec d g P Q S n g1 : is_u64 g1 -> (forall r, 0 <= r < 3 -> zlen (P r) <= count_of r) ->
  exists d' s' r, write_superblock d (store_of g P Q S n) g1 = Val (d', s', r) /\ blk_probe d' = blk_probe d /\
    (forall x, x <> 0 -> sectors_of d' x = sectors_of d x) /\
    (s' = store_of g1 P Q S n \/ s' = store_of g P Q S n) /\
    ((r <> inl tt /\ sectors_of d' 0 = sectors_of d 0) \/
     (superblock_decode (sectors_of d' 0) = Val (Some {| sb_version := SB_VERSION; sb_gen := g1;
        sb_log_head := arr (fun r => 512 * zlen (P r)); sb_record_count := arr (fun r => zlen (P r)) |}))) /\
    (r = inl tt -> s' = store_of g1 P Q S n).
Proof.
  intros Hg HP. unfold write_superblock. cbn [log_head record_count store_of].
  assert (forall r, 0 <= r < 3 -> is_u64 (zlen (P r)) /\ is_u64 (512 * zlen (P r))) as Hu.
  { intros r Hr. specialize (HP r Hr). destruct (extents r Hr) as (_ & ? & _). pose proof (zlen_nonneg (P r)). unfold in_u. lia. }
  pose proof (Hu 0 ltac:(lia)) as [? ?]. pose proof (Hu 1 ltac:(lia)) as [? ?]. pose proof (Hu 2 ltac:(lia)) as [? ?].
  pose proof (superblock_encode_eq g1 (512 * zlen (P 0)) (512 * zlen (P 1)) (512 * zlen (P 2)) (zlen (P 0)) (zlen (P 1)) (zlen (P 2))) as Ee.
  cbv zeta in Ee.
  change (superblock_encode g1 (arr (fun r => 512 * zlen (P r))) (arr (fun r => zlen (P r)))) with
    (superblock_encode g1 [512 * zlen (P 0); 512 * zlen (P 1); 512 * zlen (P 2)] [zlen (P 0); zlen (P 1); zlen (P 2)]).
  rewrite Ee, bind_val.
  destruct (superblock_roundtrip_eq g1 (512 * zlen (P 0)) (512 * zlen (P 1)) (512 * zlen (P 2)) (zlen (P 0)) (zlen (P 1)) (zlen (P 2)) _
    Hg ltac:(assumption) ltac:(assumption) ltac:(assumption) ltac:(assumption) ltac:(assumption) ltac:(assumption) Ee) as (Hl & Hb & Hd).
  set (sb := _ ++ _) in *. clearbody sb. unfold SB_SECTOR. destruct (blk_write d 0 sb) as [d1 ok] eqn:Ew.
  destruct (blk_write_ok _ _ _ _ _ Hl Hb Ew) as (Hp & Hoth & Hat). exists d1. destruct ok; cbn [negb].
  - destruct Hat as [Hat|[? _]]; [|done]. destruct (blk_flush d1); cbn [negb]; do 2 eexists; (split; [reflexivity|]).
    + split; [done|]. split; [done|]. split; [by left|]. split; [right; rewrite Hat; exact Hd | done].
    + split; [done|]. split; [done|]. split; [by right|]. split; [right; rewrite Hat; exact Hd | done].
  - do 2 eexists; (split; [reflexivity|]). split; [done|]. split; [done|]. split; [by right|]. split; [|done].
    destruct Hat as [Hat|[_ Hat]]; [right; rewrite Hat; exact Hd | left; by split].
Qed.

(** The bytes a region's readers see: the committed image and the staged payloads. *)
Definition stream (P : Z -> list entry) (S : Z -> list (list Z)) (r : Z) : list Z := payloads (P r) ++ concat (S r).

(** What a commit does to the durable state. *)
Lemma flush_inv d g P Q S n C g0 : store_inv d P Q S C g0 -> 0 <= g -> g + 1 < 2 ^ 64 ->
  (forall r, 0 <= r < 3 -> Q r + zlen (S r) < 2 ^ 64) ->
  exists d' ng P' Q' S' C' g0' res, flush d (store_of g P Q S n) = Val (d', store_of ng P' Q' S' n, res) /\
    store_inv d' P' Q' S' C' g0' /\ (forall r, 0 <= r < 3 -> Q' r < 2 ^ 64 /\ stream P' S' r = stream P S r) /\
    ((C' = C /\ g0' = g0 /\ res <> inl tt /\ forall r, 0 <= r < 3 -> ztake (C r) (P' r) = ztake (C r) (P r)) \/
     (g0' = g + 1 /\ forall r, 0 <= r < 3 -> C' r = zlen (P' r) /\ payloads (P' r) = stream P S r)) /\
    (res = inl tt -> ng = g + 1).
Proof.
  intros Hinv Hg0 Hg HQ. destruct (inv_cap _ _ _ _ _ _ Hinv) as (cap & Hp & Hcap).
  destruct (flush_frames_spec g P S n 3 0 d Q (zrepeat 512 0)) as ([[d1 s1] e] & E & Q1 & -> & Hp1 & _ & HQ1 & Hx1 & He); [lia | lia | done | |].
  { intros x Hx. destruct (inv_staged _ _ _ _ _ _ Hinv x ltac:(lia)). split; [by apply (inv_log _ _ _ _ _ _ Hinv); lia|].
    split; [by apply (inv_seq _ _ _ _ _ _ Hinv); lia|]. split; [apply HQ; lia | done]. }
  unfold flush. rewrite E, bind_val.
  assert (forall y, y <= 0 \/ (exists x, 0 <= x < 3 /\ first_of x <= y < first_of x + zlen (P x)) ->
    sectors_of d1 y = sectors_of d y) as Hkeep.
  { intros y Hy. apply Hx1. intros x Hx. destruct (extents x ltac:(lia)) as (F1 & F2 & F3 & F4).
    destruct (inv_staged _ _ _ _ _ _ Hinv x ltac:(lia)) as [_ Hfx]. pose proof (zlen_nonneg (P x)). pose proof (zlen_nonneg (S x)).
    destruct Hy as [Hy|(x' & Hx' & Hy)]; [lia|]. destruct (decide (x' = x)) as [->|Hne]; [lia|].
    destruct (inv_staged _ _ _ _ _ _ Hinv x' ltac:(lia)) as [_ Hfx']. pose proof (zlen_nonneg (S x')).
    destruct (F4 x' ltac:(lia) Hne); lia. }
  assert (forall x, 0 <= x < 3 -> log_on (sectors_of d1) x (P x) (Q1 x)) as HL1.
  { intros x Hx. eapply log_on_below; [|by apply HQ1; lia]. eapply log_on_ext; [by apply (inv_log _ _ _ _ _ _ Hinv); lia|].
    intros i Hi. apply Hkeep. right. exists x. lia. }
  assert (store_inv d1 P Q1 S C g0) as Hinv1.
  { constructor; try apply Hinv; [exists cap; by rewrite Hp1 | by rewrite Hkeep by (left; lia); apply Hinv | done |].
    intros x Hx. pose proof (inv_seq _ _ _ _ _ _ Hinv x Hx). specialize (HQ1 x Hx). lia. }
  assert (forall x, 0 <= x < 3 -> Q1 x < 2 ^ 64) as HQ64.
  { intros x Hx. specialize (HQ1 x Hx). specialize (HQ x Hx). lia. }
  destruct e as [e|].
  { exists d1, g, P, Q1, S, C, g0, (inr e). split; [done|]. split; [done|]. split; [by auto|]. split; [left; done | done]. }
  destruct (blk_flush d1) eqn:Ef; cbn [negb].
  2: { exists d1, g, P, Q1, S, C, g0, (inr Io). split; [done|]. split; [done|]. split; [by auto|]. split; [left; done | done]. }
  assert (forall r, 0 <= r < 3 -> zlen (P r) + zlen (S r) <= count_of r) as Hfit by (intros r Hr; apply (inv_staged _ _ _ _ _ _ Hinv r Hr)).
  rewrite (fold_staged_eq g P Q Q1 S n Hfit), bind_val. cbn [gen store_of].
  assert (wrapping_add 64 g 1 = g + 1) as -> by (apply wrap_small; unfold in_u; lia).
  set (P1 := fun r => P r ++ stamp (Q r) (S r)).
  assert (forall r, zlen (P1 r) = zlen (P r) + zlen (S r)) as HlP by (intros r; unfold P1; by rewrite zlen_app, zlen_stamp).
  assert (forall r, payloads (P1 r) = stream P S r) as HpP by (intros r; unfold P1, stream; by rewrite payloads_app, payloads_stamp).
  destruct (write_superblock_spec d1 g P1 Q1 (fun _ => []) n (g + 1)) as (d2 & s2 & res & Ew & Hp2 & Hx2 & Hs2 & Hsb & Hres).
  { unfold in_u. lia. } { intros r Hr. rewrite HlP. by apply Hfit. }
  unfold store_of in Ew at 1. cbv beta in Ew. unfold store_of at 1. rewrite Ew.
  assert (forall x, 0 <= x < 3 -> log_on (sectors_of d2) x (P1 x) (Q1 x)) as HL2.
  { intros x Hx. eapply log_on_ext; [by apply (He eq_refl); lia|]. intros i Hi. apply Hx2. destruct (extents x ltac:(lia)). lia. }
  assert (exists ng, s2 = store_of ng P1 Q1 (fun _ => []) n /\ (res = inl tt -> ng = g + 1)) as (ng & -> & Hng).
  { destruct Hs2 as [->| ->]; [exists (g + 1); split; reflexivity|]. exists g. split; [reflexivity|].
    intros Hr. exact (f_equal gen (Hres Hr)). }
  assert (forall x, 0 <= x < 3 -> Q1 x < 2 ^ 64 /\ stream P1 (fun _ => []) x = stream P S x) as Hstr.
  { intros x Hx. split; [auto|]. unfold stream at 1. cbn [concat]. by rewrite app_nil_r, HpP. }
  assert (forall C' g0', is_u64 g0' -> (forall r, 0 <= r < 3 -> 0 <= C' r <= zlen (P1 r)) ->
    superblock_decode (sectors_of d2 0) = Val (Some {| sb_version := SB_VERSION; sb_gen := g0';
      sb_log_head := arr (fun r => 512 * C' r); sb_record_count := arr C' |}) ->
    store_inv d2 P1 Q1 (fun _ => []) C' g0') as Hmk.
  { intros C' g0' Hg' HC' Hd'. constructor;
      [exists cap; rewrite Hp2, Hp1; exact (conj Hp Hcap) | exact Hg' | exact Hd' | exact HC' | exact HL2 | | apply Hinv1].
    intros r Hr. split; [constructor|]. rewrite HlP. change (zlen []) with 0. specialize (Hfit r Hr). lia. }
  destruct Hsb as [[Hr0 Hsb]|Hsb].
  - exists d2, ng, P1, Q1, (fun _ => []), C, g0, res. split; [done|]. split; [|split; [done|]; split; [left|done]].
    + apply Hmk; [apply Hinv | |by rewrite Hsb, Hkeep by (left; lia); apply Hinv].
      intros r Hr. pose proof (inv_committed _ _ _ _ _ _ Hinv r Hr). rewrite HlP. pose proof (zlen_nonneg (S r)). lia.
    + split; [done|]. split; [done|]. split; [done|]. intros r Hr. unfold P1. apply ztake_app_le. apply (inv_committed _ _ _ _ _ _ Hinv r Hr).
  - exists d2, ng, P1, Q1, (fun _ => []), (fun r => zlen (P1 r)), (g + 1), res. split; [done|].
    split; [|split; [done|]; split; [right|done]].
    + apply Hmk; [unfold in_u; lia | intros r Hr; pose proof (zlen_nonneg (P1 r)); lia | done].
    + split; [done|]. intros r Hr. split; [done | apply HpP].
Qed.
End durable.


(** ** Lemmas: the live stream *)

Lemma staged_len_concat vs : staged_len vs = zlen (concat vs).
Proof.
  unfold staged_len. assert (forall a, fold_left (fun a v => a + zlen v) vs a = a + zlen (concat vs)) as ->; [|lia].
  induction vs as [|v vs IH]; intros a; cbn [fold_left concat]; [change (zlen []) with 0; lia|].
  rewrite IH, zlen_app. lia.
Qed.

Lemma staged_byte_idx vs rem : 0 <= rem < zlen (concat vs) -> staged_byte vs rem = idx (concat vs) rem.
Proof.
  revert rem. induction vs as [|v vs IH]; intros rem; cbn [concat staged_byte]; [change (zlen []) with 0; lia|].
  rewrite zlen_app. intros Hr. destruct (Z.ltb_spec rem (zlen v)); [by rewrite idx_app_lt by lia|].
  rewrite sub_u_ok, bind_val, IH, idx_app_ge by lia. done.
Qed.

Lemma region_index_range r : 0 <= region_index r < 3.
Proof. destruct r; cbn; lia. Qed.

Lemma region_extent_of r : region_extent (region_tag r) = Some (first_of (region_index r), count_of (region_index r)).
Proof. by destruct r. Qed.

(** ** Properties *)

(** C25: a commit is atomic and durable.  On any disk whose writes may fail (a power cut) but
    never tear a sector, from any state of the store whose logs the disk holds: [flush] never
    panics; a mount of the disk it leaves finds, in all three regions together, either exactly
    what a mount found before it, or every committed and staged byte under the next
    generation; the first only if [flush] reported an error; and the live store goes on
    showing its callers the same bytes, in a state from which all of this holds again. *)
Theorem store_commit_atomic {D} `{BlockDevice D} (d : D) g P Q S n C g0 :
  store_inv d P Q S C g0 -> 0 <= g -> g + 1 < 2 ^ 64 -> (forall r, 0 <= r < 3 -> Q r + zlen (S r) < 2 ^ 64) ->
  exists d' s' res m, flush d (store_of g P Q S n) = Val (d', s', res) /\ mount d' = Val (d', inl m) /\
    ((res <> inl tt /\ mount d = Val (d, inl m)) \/ (gen m = g + 1 /\ image m = arr (stream P S))) /\
    exists ng P' Q' S' C' g0', s' = store_of ng P' Q' S' n /\ (res = inl tt -> ng = g + 1) /\
      store_inv d' P' Q' S' C' g0' /\ arr (stream P' S') = arr (stream P S).
Proof.
  intros Hinv Hg0 Hg HQ. destruct (flush_inv d g P Q S n C g0 Hinv Hg0 Hg HQ)
    as (d' & ng & P' & Q' & S' & C' & g0' & r & Ef & Hinv' & Hq' & Hcase & Hng).
  assert (arr (stream P' S') = arr (stream P S)) as Hstr by (apply arr_ext; intros x Hx; apply (Hq' x Hx)).
  exists d', (store_of ng P' Q' S' n), r. eexists. split; [exact Ef|].
  split; [apply (mount_inv d' P' Q' S' C' g0' Hinv'); intros x Hx; apply (Hq' x Hx)|]. split.
  2: { exists ng, P', Q', S', C', g0'. by rewrite Hstr. }
  destruct Hcase as [(-> & -> & Hr & Hpre)|(-> & Hall)].
  - left. split; [done|]. rewrite (mount_inv d P Q S C g0 Hinv).
    + unfold store_of. do 4 f_equal; apply arr_ext; intros x Hx; by rewrite Hpre.
    + intros x Hx. specialize (HQ x Hx). pose proof (zlen_nonneg (S x)). lia.
  - right. cbn [gen image store_of]. split; [done|]. apply arr_ext. intros x Hx. destruct (Hall x Hx) as [-> <-].
    by rewrite ztake_all by lia.
Qed.

(** What callers see of the store.  [append] stages a payload exactly when it fits a frame
    and the region has a sector left, and answers with the stream's length; [read_at] fills
    the buffer with the stream's bytes (committed and staged alike) from an offset on, as far
    as both go, and refuses an offset past the end. *)
Theorem store_append_read g P Q S n region bs off buf :
  let r := region_index region in
  zlen (P r) + zlen (S r) <= count_of r -> zlen (stream P S r) < 2 ^ 64 -> 0 <= off ->
  append (store_of g P Q S n) region bs =
    Val (if decide (zlen bs <= MAX_PAYLOAD /\ zlen (P r) + zlen (S r) < count_of r)
         then (store_of g P Q (fset S r (S r ++ [bs])) (wrap 64 (n + 1)), inl (zlen (stream P S r)))
         else (store_of g P Q S n, inr Full)) /\
  read_at (store_of g P Q S n) region off buf =
    Val (if decide (off <= zlen (stream P S r))
         then let k := Z.min (zlen buf) (zlen (stream P S r) - off) in
              (zsub off k (stream P S r) ++ zdrop k buf, inl k)
         else (buf, inr NotFound)).
Proof.
  intros r Hfit Hlen Hoff. assert (0 <= r < 3) as Hr by apply region_index_range.
  destruct (extents r Hr) as (_ & E2 & _ & _). pose proof (zlen_nonneg (P r)). pose proof (zlen_nonneg (S r)).
  assert (zlen (stream P S r) = zlen (payloads (P r)) + zlen (concat (S r))) as Hsl by (unfold stream; by rewrite zlen_app).
  pose proof (zlen_nonneg (payloads (P r))). pose proof (zlen_nonneg (concat (S r))). split.
  - unfold append. fold r. cbn [record_count staged image gen log_head seq appends_since_mount store_of].
    rewrite !idx_arr by done. destruct (Z.ltb_spec MAX_PAYLOAD (zlen bs)); [by rewrite decide_False by lia|].
    rewrite !bind_val. cbv beta. rewrite (add_u_ok 64 (zlen (P r)) (zlen (S r))) by lia. rewrite bind_val, region_extent_of. fold r.
    destruct (Z.leb_spec (count_of r) (zlen (P r) + zlen (S r))); [by rewrite decide_False by lia|].
    rewrite decide_True by lia.
    rewrite staged_len_concat, add_u_ok by lia. rewrite bind_val, upd_arr, bind_val, Hsl by done. done.
  - unfold read_at. fold r. cbn [image staged store_of]. rewrite !idx_arr, !bind_val, staged_len_concat by done.
    rewrite add_u_ok, bind_val, <- Hsl by lia.
    destruct (Z.ltb_spec (zlen (stream P S r)) off); [by rewrite decide_False by lia|]. rewrite decide_True by lia.
    set (k := Z.min _ _). pose proof (zlen_nonneg buf).
    rewrite (for_up_ext 0 k _ (fun i d => b ← idx (stream P S r) (off + i); upd d i b) buf).
    + change (for_up 0 k _ buf) with (copy_in k (stream P S r) off buf). by rewrite copy_in_ok by lia.
    + intros i d Hi. f_equal. unfold stream. destruct (Z.ltb_spec (off + i) (zlen (payloads (P r)))).
      * by rewrite idx_app_lt by lia.
      * rewrite idx_app_ge by lia. apply staged_byte_idx. lia.
Qed.

(** ** Witnesses *)

(** A formatted disk that has three writes left, no records, two payloads staged. *)
Definition demo_disk : Disk := mkDisk 3 [(0, match superblock_encode 0 [0; 0; 0] [0; 0; 0] with Val s => s | Panic => [] end)].
Definition demo_staged (r : Z) : list (list Z) := if r =? 0 then [[1; 2]; [3]] else [].

Lemma demo_inv : store_inv demo_disk (fun _ => []) (fun _ => 0) demo_staged (fun _ => 0) 0.
Proof.
  constructor.
  - exists 16384. split; [reflexivity | lia].
  - unfold in_u. lia.
  - vm_compute. reflexivity.
  - intros r _. change (zlen []) with 0. lia.
  - intros r Hr. destruct (extents r Hr) as (_ & ? & _). constructor; [change (zlen []) with 0; lia | intros i e; rewrite lookup_nil; discriminate..].
  - intros r Hr. destruct (extents r Hr) as (_ & ? & _). apply region_cases in Hr. split.
    + destruct Hr as [->|[->| ->]]; apply Forall_forall; intros p Hp%list_elem_of_In; cbn in Hp;
        repeat destruct Hp as [<-|Hp]; try done; (split; [repeat apply Forall_cons_2; try apply Forall_nil_2; unfold in_u; lia | vm_compute; discriminate]).
    + destruct Hr as [->|[->| ->]]; vm_compute; discriminate.
  - intros r _. cbn. lia.
Qed.

Lemma store_commit_atomic_witness : exists d' s' res m,
  flush demo_disk (store_of 0 (fun _ => []) (fun _ => 0) demo_staged 2) = Val (d', s', res) /\ mount d' = Val (d', inl m) /\
    ((res <> inl tt /\ mount demo_disk = Val (demo_disk, inl m)) \/ (gen m = 1 /\ image m = [[1; 2; 3]; []; []])) /\
    exists ng P' Q' S' C' g0', s' = store_of ng P' Q' S' 2 /\ (res = inl tt -> ng = 1) /\
      store_inv d' P' Q' S' C' g0' /\ arr (stream P' S') = [[1; 2; 3]; []; []].
Proof.
  apply (store_commit_atomic demo_disk 0 (fun _ => []) (fun _ => 0) demo_staged 2 (fun _ => 0) 0 demo_inv); [lia | lia |].
  intros r Hr. destruct (region_cases r Hr) as [->|[->| ->]]; vm_compute; reflexivity.
Defined.

Lemma store_append_read_witness :
  append (store_of 0 (fun _ => []) (fun _ => 0) demo_staged 2) Episodic [7; 8] =
    Val (store_of 0 (fun _ => []) (fun _ => 0) (fset demo_staged 0 [[1; 2]; [3]; [7; 8]]) 3, inl 3) /\
  read_at (store_of 0 (fun _ => []) (fun _ => 0) demo_staged 2) Episodic 1 [0; 0; 0; 0] = Val ([2; 3; 0; 0], inl 2).
Proof. apply (store_append_read 0 (fun _ => []) (fun _ => 0) demo_staged 2 Episodic [7; 8] 1 [0; 0; 0; 0]); [vm_compute; discriminate | vm_compute; reflexivity | lia]. Defined.
