(* ===== verification/Memscore.v ===== *)
(** * Fixed-point scoring: [crates/tb-encode/src/memscore.rs], [recall.rs], [kancell.rs],
    [explore.rs] and [quantize_feature] of [exp.rs].

    The integer arithmetic behind the memory organ's decisions: the logarithm, the
    base-level activation, min-max normalisation, the BM25 terms and the piecewise-linear
    policy cell.  An [i64] operation that leaves its range is a [Panic]; the theorems say
    within which inputs none does, and that each score is bounded and monotone. *)
From Stdlib Require Import ZArith Lia.
From stdpp Require Import base numbers option tactics sets list.
From S2P Require Import Prelude.
Open Scope Z_scope.

(** ** Signed 64-bit arithmetic *)

Definition i64 (v : Z) : res Z := if decide (in_i 64 v) then Val v else Panic.
Definition i32 (v : Z) : res Z := if decide (in_i 32 v) then Val v else Panic.
(** [v << n] on [i32]: the shift amount must be below the width. *)
Definition shl_i32 (v n : Z) : res Z :=
  if decide (0 <= n < 32) then Val (to_signed 32 (wrap 32 (Z.shiftl v n))) else Panic.
Definition div_i64 (a b : Z) : res Z :=
  if decide (b = 0 \/ (a = - 2 ^ 63 /\ b = -1)) then Panic else Val (Z.quot a b).
Definition leading_zeros (w x : Z) : Z := if decide (x = 0) then w else w - 1 - Z.log2 x.
Definition rotate_left (w v n : Z) : Z := wrap w (Z.lor (Z.shiftl v n) (Z.shiftr v (w - n))).
Definition saturate_i (w v : Z) : Z := Z.max (- 2 ^ (w - 1)) (Z.min v (2 ^ (w - 1) - 1)).
Definition clamp (v lo hi : Z) : Z := if v <? lo then lo else if hi <? v then hi else v.

(** ** [memscore.rs] *)

Definition SCALE : Z := 1000.
Definition LN2_FIXED : Z := 693.
Definition SKILL_XFORM_SEED : Z := 0x9E3779B97F4A7C15.
Definition SKILL_XFORM_MUL : Z := 0x00000100000001B3.

Definition log2_fixed (x : Z) : res Z :=
  if x <=? 1 then Val 0 else
  let ip := 63 - leading_zeros 64 x in
  let pow := Z.shiftl 1 ip in
  d ← sub_u x pow;
  n ← i64 (to_signed 64 d * SCALE);
  frac ← div_i64 n (to_signed 64 pow);
  a ← i64 (ip * SCALE);
  i64 (a + frac).

Definition ln_fixed (x : Z) : res Z :=
  l ← log2_fixed x; m ← i64 (l * LN2_FIXED); div_i64 m SCALE.

Definition bla_raw (count age : Z) : res Z :=
  c ← add_u 64 count 1; c ← mul_u 64 2 c; freq ← ln_fixed c;
  a ← add_u 64 age 1; r ← ln_fixed a; recency ← div_i64 r 2;
  i64 (freq - recency).

Definition skill_transform (body input : Z) : Z :=
  let h := Z.lxor body SKILL_XFORM_SEED in
  let h := rotate_left 64 h (Z.land input 63) in
  let h := Z.lxor h (wrapping_mul 64 input SKILL_XFORM_MUL) in
  Z.lxor (rotate_left 64 h 17) (Z.shiftr body 7).

Definition minmax (vals : list Z) (i : Z) : res Z :=
  v0 ← idx vals 0;
  let '(lo, hi) := fold_left (fun '(lo, hi) v =>
    (if v <? lo then v else lo, if hi <? v then v else hi)) vals (v0, v0) in
  if hi =? lo then Val 0 else
  v ← idx vals i;
  d ← i64 (v - lo); m ← i64 (d * SCALE); w ← i64 (hi - lo);
  div_i64 m w.

(** ** [recall.rs] *)

Definition BM25_K1 : Z := 1200.
Definition BM25_B : Z := 750.
Definition TF_NORM_CEIL : Z := BM25_K1 + SCALE.

Definition bm25_idf (df n_docs : Z) : res Z :=
  let n := Z.max n_docs 1 in
  let d := clamp df 1 n in
  a ← mul_u 64 2 n; a ← add_u 64 a 2; x ← ln_fixed a;
  b ← mul_u 64 2 d; b ← add_u 64 b 1; y ← ln_fixed b;
  r ← i64 (x - y);
  Val (Z.max r 0).

Definition bm25_tf_norm (tf doc_len avg_len : Z) : res Z :=
  let tf := to_signed 64 tf in
  let dl := to_signed 64 doc_len in
  let avgl := to_signed 64 (Z.max avg_len 1) in
  q ← div_i64 dl avgl;
  bq ← i64 (BM25_B * q); s ← i64 (SCALE - BM25_B); norm ← i64 (s + bq);
  k ← i64 (BM25_K1 + SCALE); numer ← i64 (tf * k);
  t ← i64 (tf * SCALE); kn ← i64 (BM25_K1 * norm); kn ← div_i64 kn SCALE; denom ← i64 (t + kn);
  ns ← i64 (numer * SCALE);
  div_i64 ns denom.

Definition bm25_term_score (tf df n_docs doc_len avg_len : Z) : res Z :=
  a ← bm25_idf df n_docs; b ← bm25_tf_norm tf doc_len avg_len;
  m ← i64 (a * b); div_i64 m SCALE.

Definition bm25_doc_score (query : list (Z * Z)) (n_docs doc_len avg_len : Z) : res Z :=
  fold_res (fun acc '(tf, df) =>
    t ← bm25_term_score tf df n_docs doc_len avg_len; Val (saturate_i 64 (acc + t))) 0 query.

(** ** [kancell.rs] *)

Definition KAN_KNOTS : Z := 9.
Definition KAN_FEATURES : Z := 4.
Definition KAN_KNOT_MAX : Z := 8000.
Definition DEMOTE_BAND : Z * Z := (-34000, 34000).
Definition GRID_LO : Z := 0.
Definition GRID_STEP_LOG2 : Z := 7.

Definition kan_spline_eval (knots : list Z) (x_q grid_lo grid_step_log2 : Z) : res Z :=
  step ← shl_i32 1 grid_step_log2;
  let span := saturate_i 32 (step * (KAN_KNOTS - 1)) in
  let grid_hi := saturate_i 32 (grid_lo + span) in
  let xc := if x_q <? grid_lo then grid_lo else if grid_hi <? x_q then grid_hi else x_q in
  off ← i32 (xc - grid_lo);
  let seg := wrap 64 (Z.shiftr off grid_step_log2) in
  let seg := if KAN_KNOTS - 1 <=? seg then KAN_KNOTS - 2 else seg in
  y0 ← idx knots seg;
  y1 ← idx knots (seg + 1);
  let seg_lo := saturate_i 32 (grid_lo + saturate_i 32 (seg * step)) in
  frac ← i32 (xc - seg_lo);
  let dy := saturate_i 32 (y1 - y0) in
  let slope_num := saturate_i 32 (dy * frac) in
  let interp := Z.shiftr slope_num grid_step_log2 in
  Val (saturate_i 32 (y0 + interp)).

Definition kan_score (table : list (list Z)) (feats : list Z) (flag_terms bias : Z) : res Z :=
  acc ← for_up 0 KAN_FEATURES (fun j acc =>
    row ← idx table j; x ← idx feats j;
    y ← kan_spline_eval row x GRID_LO GRID_STEP_LOG2;
    Val (saturate_i 64 (acc + y))) bias;
  let acc := saturate_i 64 (acc + flag_terms) in
  let '(lo, hi) := DEMOTE_BAND in
  Val (if acc <? lo then lo else if hi <? acc then hi else acc).

(** One row's knot deltas against its sign: [None] is the loop's [return false]. *)
Definition row_monotone (row : list Z) (s : Z) : res (option unit) :=
  for_up_opt 0 (KAN_KNOTS - 1) (fun k _ =>
    b ← idx row (k + 1); a ← idx row k;
    let d := b - a in
    if (0 <? s) && (d <? 0) then Val None
    else if (s <? 0) && (0 <? d) then Val None else Val (Some tt)) tt.
Definition kan_table_is_monotone (table : list (list Z)) (signs : list Z) : res bool :=
  o ← for_up_opt 0 KAN_FEATURES (fun j _ =>
    s ← idx signs j; row ← idx table j; row_monotone row s) tt;
  Val (match o with Some _ => true | None => false end).

Definition kan_table_overflow_safe (table : list (list Z)) : res bool :=
  o ← for_up_opt 0 KAN_FEATURES (fun j _ =>
    row ← idx table j;
    for_up_opt 0 KAN_KNOTS (fun k _ =>
      v ← idx row k;
      if (- KAN_KNOT_MAX <=? v) && (v <=? KAN_KNOT_MAX) then Val (Some tt) else Val None) tt) tt;
  Val (match o with Some _ => true | None => false end).

(** ** [quantize_feature] of [exp.rs], [explore_propensity_q] of [explore.rs] *)

Definition quantize_feature (raw : Z) : Z :=
  let step := Z.shiftl 1 GRID_STEP_LOG2 in
  let span := saturate_i 64 (step * (9 - 1)) in
  let lo := GRID_LO in
  let hi := saturate_i 64 (lo + span) in
  if raw <? lo then lo else if hi <? raw then hi else raw.

Definition PROPENSITY_SCALE : Z := 1000.

Definition explore_propensity_q (eps_num eps_den m : Z) (is_greedy : bool) : Z :=
  if m =? 0 then 0
  else if m =? 1 then PROPENSITY_SCALE
  else if (eps_den =? 0) || (eps_num =? 0) then (if is_greedy then PROPENSITY_SCALE else 0)
  else
    let scale := PROPENSITY_SCALE in
    let num := saturating_mul 64 scale eps_num in
    let den := saturating_mul 64 eps_den m in
    let other_q := num / den in
    let eps_mass := saturating_mul 64 scale eps_num / eps_den in
    let greedy_q := saturating_add 64 (Z.max 0 (scale - eps_mass)) other_q in
    let chosen := if is_greedy then greedy_q else Z.max other_q 1 in
    if scale <? chosen then scale else chosen.

(** ** Lemmas: checked operations *)

Lemma i64_ok v : - 2 ^ 63 <= v < 2 ^ 63 -> i64 v = Val v.
Proof. intros. unfold i64, in_i. by rewrite decide_True. Qed.
Lemma i32_ok v : - 2 ^ 31 <= v < 2 ^ 31 -> i32 v = Val v.
Proof. intros. unfold i32, in_i. by rewrite decide_True. Qed.
Lemma div_i64_ok a b : 0 <= a -> 0 < b -> div_i64 a b = Val (a / b).
Proof. intros. unfold div_i64. rewrite decide_False by lia. by rewrite Z.quot_div_nonneg. Qed.
Lemma to_signed_small v : 0 <= v < 2 ^ 63 -> to_signed 64 v = v.
Proof. intros. unfold to_signed. change (2 ^ (64 - 1)) with (2 ^ 63). destruct (Z.ltb_spec v (2 ^ 63)); lia. Qed.

(** The next checked operation of a goal [op ≫= k = r] (or [op = r]), its range discharged
    by linear arithmetic. *)
Ltac checked_op :=
  match goal with
  | |- (i64 ?v ≫= _) = _ => rewrite (i64_ok v) by lia
  | |- i64 ?v = _ => rewrite (i64_ok v) by lia
  | |- (div_i64 ?a ?b ≫= _) = _ => rewrite (div_i64_ok a b) by lia
  | |- div_i64 ?a ?b = _ => rewrite (div_i64_ok a b) by lia
  | |- (add_u 64 ?a ?b ≫= _) = _ => rewrite (add_u_ok 64 a b) by lia
  | |- (sub_u ?a ?b ≫= _) = _ => rewrite (sub_u_ok a b) by lia
  | |- (mul_u 64 ?a ?b ≫= _) = _ => rewrite (mul_u_ok 64 a b) by lia
  end.
Ltac checked := checked_op; rewrite ?bind_val.

(** ** The logarithm *)

(** [log2_fixed] where the code's intermediates fit: the integer part and a linear
    fraction. *)
Definition log2_q (x : Z) : Z :=
  if x <=? 1 then 0 else Z.log2 x * 1000 + (x - 2 ^ Z.log2 x) * 1000 / 2 ^ Z.log2 x.
Definition ln_q (x : Z) : Z := log2_q x * 693 / 1000.

(** The largest argument the fraction's scaling by 1000 leaves in range. *)
Definition LOG_MAX : Z := 2 ^ 53.

Lemma log2_frac x : 1 < x -> 0 <= (x - 2 ^ Z.log2 x) * 1000 / 2 ^ Z.log2 x < 1000.
Proof.
  intros Hx. destruct (Z.log2_spec x) as [H1 H2]; [lia|]. rewrite Z.pow_succ_r in H2 by apply Z.log2_nonneg.
  split; [apply Z.div_pos; lia | apply Z.div_lt_upper_bound; lia].
Qed.

Lemma log2_fixed_eq x : x <= LOG_MAX -> log2_fixed x = Val (log2_q x).
Proof.
  unfold LOG_MAX, log2_fixed, log2_q. intros Hm. destruct (Z.leb_spec x 1); [done|].
  unfold leading_zeros. rewrite decide_False by lia. replace (63 - (64 - 1 - Z.log2 x)) with (Z.log2 x) by lia.
  rewrite Z.shiftl_1_l. pose proof (log2_frac x ltac:(lia)) as Hf.
  destruct (Z.log2_spec x) as [H1 H2]; [lia|]. rewrite Z.pow_succ_r in H2 by apply Z.log2_nonneg.
  assert (0 <= Z.log2 x <= 53) as Hl.
  { split; [apply Z.log2_nonneg|]. change 53 with (Z.log2 (2 ^ 53)). by apply Z.log2_le_mono. }
  checked. rewrite (to_signed_small (x - _)) by lia. unfold SCALE.
  checked. rewrite to_signed_small by lia. checked. checked. by checked.
Qed.

Lemma log2_q_nonneg x : 0 <= log2_q x.
Proof.
  unfold log2_q. destruct (Z.leb_spec x 1); [done|]. pose proof (log2_frac x ltac:(lia)).
  pose proof (Z.log2_nonneg x). lia.
Qed.

Lemma log2_q_mono x y : x <= y -> log2_q x <= log2_q y.
Proof.
  intros Hxy. destruct (Z.le_gt_cases x 1) as [Hx|Hx].
  { unfold log2_q at 1. rewrite (proj2 (Z.leb_le _ _)) by done. apply log2_q_nonneg. }
  unfold log2_q. rewrite !(proj2 (Z.leb_gt _ _)) by lia.
  pose proof (log2_frac x Hx). pose proof (log2_frac y ltac:(lia)).
  pose proof (Z.log2_le_mono x y Hxy). destruct (decide (Z.log2 x = Z.log2 y)) as [->|]; [|lia].
  apply Z.add_le_mono_l. apply Z.div_le_mono; [|lia]. pose proof (Z.log2_nonneg y). lia.
Qed.

Lemma log2_q_bound x : x <= LOG_MAX -> log2_q x <= 53000.
Proof. intros. change 53000 with (log2_q LOG_MAX). by apply log2_q_mono. Qed.

Lemma ln_fixed_eq x : x <= LOG_MAX -> ln_fixed x = Val (ln_q x).
Proof.
  intros Hx. pose proof (log2_q_nonneg x). pose proof (log2_q_bound x Hx).
  unfold ln_fixed, ln_q, LN2_FIXED, SCALE. rewrite log2_fixed_eq, bind_val by done.
  checked. by checked.
Qed.

Lemma ln_q_mono x y : x <= y -> ln_q x <= ln_q y.
Proof. intros. apply Z.div_le_mono; [lia|]. pose proof (log2_q_mono x y). lia. Qed.

Lemma ln_q_bound x : x <= LOG_MAX -> 0 <= ln_q x <= 36729.
Proof.
  intros. pose proof (log2_q_nonneg x). pose proof (log2_q_bound x). unfold ln_q.
  split; [apply Z.div_pos; lia | change 36729 with (53000 * 693 / 1000); apply Z.div_le_mono; lia].
Qed.

(** ** Base-level activation *)

(** The largest age the arithmetic of [bla_raw] admits. *)
Definition AGE_MAX : Z := 2 ^ 53 - 1.
Definition bla_q (count age : Z) : Z := ln_q (2 * (count + 1)) - ln_q (age + 1) / 2.

Lemma bla_raw_eq count age : is_u32 count -> 0 <= age <= AGE_MAX -> bla_raw count age = Val (bla_q count age).
Proof.
  unfold in_u, AGE_MAX, bla_raw. intros Hc Ha. checked. checked.
  rewrite ln_fixed_eq, bind_val by (unfold LOG_MAX; lia). checked. rewrite ln_fixed_eq, bind_val by (unfold LOG_MAX; lia).
  pose proof (ln_q_bound (2 * (count + 1))) as H1. pose proof (ln_q_bound (age + 1)) as H2. unfold LOG_MAX in *.
  checked. unfold bla_q.
  assert (0 <= ln_q (age + 1) / 2 <= 36729) by (split; [apply Z.div_pos; lia | apply Z.div_le_upper_bound; lia]).
  by checked.
Qed.

Lemma bla_q_bound count age : is_u32 count -> 0 <= age <= AGE_MAX -> - 34000 <= bla_q count age <= 34000.
Proof.
  unfold in_u, AGE_MAX, bla_q. intros Hc Ha.
  assert (ln_q (2 * (count + 1)) <= ln_q (2 ^ 33)) as Hf by (apply ln_q_mono; lia).
  change (ln_q (2 ^ 33)) with 22869 in Hf.
  pose proof (ln_q_bound (2 * (count + 1))) as H1. pose proof (ln_q_bound (age + 1)) as H2. unfold LOG_MAX in *.
  assert (0 <= ln_q (age + 1) / 2 <= 18364) by
    (split; [apply Z.div_pos; lia | change 18364 with (36729 / 2); apply Z.div_le_mono; lia]).
  lia.
Qed.

Lemma bla_q_age count a1 a2 : a1 <= a2 -> bla_q count a2 <= bla_q count a1.
Proof.
  intros. unfold bla_q. assert (ln_q (a1 + 1) / 2 <= ln_q (a2 + 1) / 2); [|lia].
  apply Z.div_le_mono; [lia|]. apply ln_q_mono. lia.
Qed.

Lemma bla_q_count c1 c2 age : c1 <= c2 -> bla_q c1 age <= bla_q c2 age.
Proof. intros. unfold bla_q. pose proof (ln_q_mono (2 * (c1 + 1)) (2 * (c2 + 1))). lia. Qed.

(** ** Min-max normalisation *)

Definition list_min (v : Z) (vals : list Z) : Z := fold_right Z.min v vals.
Definition list_max (v : Z) (vals : list Z) : Z := fold_right Z.max v vals.

Lemma minmax_fold vals lo hi : lo <= hi ->
  fold_left (fun '(lo, hi) v => (if v <? lo then v else lo, if hi <? v then v else hi)) vals (lo, hi) =
  (list_min lo vals, list_max hi vals).
Proof.
  assert (forall v l a, list_min (Z.min a v) l = Z.min v (list_min a l) /\
                        list_max (Z.max a v) l = Z.max v (list_max a l)) as Hc.
  { intros v l a. unfold list_min, list_max. induction l as [|x l [IH1 IH2]]; cbn; [lia|]. rewrite IH1, IH2. lia. }
  revert lo hi. induction vals as [|v vals IH]; intros lo hi Hle; [done|]. cbn [fold_left].
  assert ((if v <? lo then v else lo) = Z.min lo v) as -> by (destruct (Z.ltb_spec v lo); lia).
  assert ((if hi <? v then v else hi) = Z.max hi v) as -> by (destruct (Z.ltb_spec hi v); lia).
  rewrite IH by lia.
  destruct (Hc v vals lo) as [-> _]. destruct (Hc v vals hi) as [_ ->]. done.
Qed.

Lemma list_min_le v vals x : x ∈ v :: vals -> list_min v vals <= x.
Proof.
  unfold list_min. induction vals as [|y vals IH]; cbn; intros Hx.
  - apply list_elem_of_singleton in Hx as ->. lia.
  - apply elem_of_cons in Hx as [->|[->|Hx]%elem_of_cons]; [| lia |].
    + transitivity (list_min v vals); [unfold list_min; lia | apply IH; set_solver].
    + transitivity (list_min v vals); [unfold list_min; lia | apply IH; set_solver].
Qed.
Lemma list_max_ge v vals x : x ∈ v :: vals -> x <= list_max v vals.
Proof.
  unfold list_max. induction vals as [|y vals IH]; cbn; intros Hx.
  - apply list_elem_of_singleton in Hx as ->. lia.
  - apply elem_of_cons in Hx as [->|[->|Hx]%elem_of_cons]; [| lia |].
    + transitivity (list_max v vals); [apply IH; set_solver | unfold list_max; lia].
    + transitivity (list_max v vals); [apply IH; set_solver | unfold list_max; lia].
Qed.
Lemma list_min_in v vals : list_min v vals ∈ v :: vals.
Proof.
  unfold list_min. induction vals as [|y vals IH]; cbn; [set_solver|].
  destruct (Z.min_spec y (fold_right Z.min v vals)) as [[_ ->]|[_ ->]]; set_solver.
Qed.
Lemma list_max_in v vals : list_max v vals ∈ v :: vals.
Proof.
  unfold list_max. induction vals as [|y vals IH]; cbn; [set_solver|].
  destruct (Z.max_spec y (fold_right Z.max v vals)) as [[_ ->]|[_ ->]]; set_solver.
Qed.

(** The normalised value where nothing overflows. *)
Definition minmax_q (vals : list Z) (i : Z) : Z :=
  let lo := list_min (default 0 (head vals)) vals in
  let hi := list_max (default 0 (head vals)) vals in
  if hi =? lo then 0 else (default 0 (vals !! Z.to_nat i) - lo) * 1000 / (hi - lo).

(** Components this far from zero leave every intermediate of [minmax] in range. *)
Definition COMPONENT_MAX : Z := 2 ^ 52.
Abbreviation component := (fun v => - COMPONENT_MAX <= v <= COMPONENT_MAX).

Lemma minmax_extremes vals x : Forall component vals -> x ∈ vals ->
  let lo := list_min (default 0 (head vals)) vals in
  let hi := list_max (default 0 (head vals)) vals in
  - COMPONENT_MAX <= lo <= x /\ x <= hi <= COMPONENT_MAX.
Proof.
  intros Hc Hx. cbv zeta. destruct vals as [|v vals]; [by apply elem_of_nil in Hx|]. cbn [head default option_map from_option]. unfold id.
  pose proof (list_min_le v (v :: vals) x) as H1. pose proof (list_max_ge v (v :: vals) x) as H2.
  pose proof (list_min_in v (v :: vals)) as H3. pose proof (list_max_in v (v :: vals)) as H4.
  assert (forall y, y ∈ v :: v :: vals -> component y) as Hy.
  { intros y Hy. rewrite Forall_forall in Hc. apply Hc. set_solver. }
  apply Hy in H3. apply Hy in H4. specialize (H1 ltac:(set_solver)). specialize (H2 ltac:(set_solver)). lia.
Qed.

Lemma minmax_eq vals i : Forall component vals -> 0 <= i < zlen vals -> minmax vals i = Val (minmax_q vals i).
Proof.
  intros Hc Hi. unfold minmax, minmax_q. destruct (idx_ok vals i Hi) as [x Ex].
  destruct (idx_val_inv _ _ _ Ex) as [_ El]. rewrite El. cbn [default]. unfold id.
  assert (idx vals 0 = Val (default 0 (head vals))) as E0 by (destruct vals; [destruct Hi; unfold zlen in *; cbn in *; lia | done]).
  rewrite E0, bind_val, minmax_fold by lia. rewrite Ex, bind_val.
  assert (x ∈ vals) as Hx by by eapply list_elem_of_lookup_2.
  destruct (minmax_extremes vals x Hc Hx) as [H1 H2].
  set (lo := list_min _ _) in *. set (hi := list_max _ _) in *. unfold COMPONENT_MAX, SCALE in *.
  destruct (Z.eqb_spec hi lo); [done|]. checked. checked. checked. by checked.
Qed.

Lemma minmax_q_bound vals i : Forall component vals -> 0 <= i < zlen vals -> 0 <= minmax_q vals i <= SCALE.
Proof.
  intros Hc Hi. unfold minmax_q, SCALE. destruct (idx_ok vals i Hi) as [x Ex].
  destruct (idx_val_inv _ _ _ Ex) as [_ El]. rewrite El. cbn [default]. unfold id.
  assert (x ∈ vals) as Hx by by eapply list_elem_of_lookup_2.
  destruct (minmax_extremes vals x Hc Hx) as [H1 H2].
  set (lo := list_min _ _) in *. set (hi := list_max _ _) in *.
  destruct (Z.eqb_spec hi lo); [lia|].
  split; [apply Z.div_pos; lia | apply Z.div_le_upper_bound; lia].
Qed.

(** Normalising keeps the order. *)
Lemma minmax_q_mono vals i j x y : Forall component vals -> 0 <= i -> 0 <= j ->
  vals !! Z.to_nat i = Some x -> vals !! Z.to_nat j = Some y -> x <= y -> minmax_q vals i <= minmax_q vals j.
Proof.
  intros Hc Hi Hj Ex Ey Hxy. unfold minmax_q. rewrite Ex, Ey. cbn [default]. unfold id.
  destruct (minmax_extremes vals x Hc) as [H1 H2]; [by eapply list_elem_of_lookup_2|].
  set (lo := list_min _ _) in *. set (hi := list_max _ _) in *.
  destruct (Z.eqb_spec hi lo); [lia|]. apply Z.div_le_mono; lia.
Qed.

(** ** BM25 *)

(** The largest corpus [bm25_idf] admits without overflow. *)
Definition DOCS_MAX : Z := 2 ^ 52 - 1.
Definition idf_q (df n_docs : Z) : Z :=
  let n := Z.max n_docs 1 in Z.max (ln_q (2 * n + 2) - ln_q (2 * clamp df 1 n + 1)) 0.

Lemma clamp_spec v lo hi : lo <= hi -> clamp v lo hi = Z.max lo (Z.min v hi).
Proof. unfold clamp. destruct (Z.ltb_spec v lo), (Z.ltb_spec hi v); lia. Qed.

Lemma bm25_idf_eq df n_docs : 0 <= n_docs <= DOCS_MAX -> bm25_idf df n_docs = Val (idf_q df n_docs).
Proof.
  unfold DOCS_MAX, bm25_idf, idf_q. cbv zeta. intros Hn. rewrite clamp_spec by lia.
  set (n := Z.max n_docs 1) in *. set (k := Z.max 1 (Z.min df n)).
  checked. checked. rewrite ln_fixed_eq, bind_val by (unfold LOG_MAX; lia).
  checked. checked. rewrite ln_fixed_eq, bind_val by (unfold LOG_MAX; lia).
  pose proof (ln_q_bound (2 * n + 2)) as H1. pose proof (ln_q_bound (2 * k + 1)) as H2. unfold LOG_MAX in *.
  by checked.
Qed.

Lemma idf_q_df df1 df2 n_docs : df1 <= df2 -> idf_q df2 n_docs <= idf_q df1 n_docs.
Proof.
  intros. unfold idf_q. cbv zeta. rewrite !clamp_spec by lia.
  pose proof (ln_q_mono (2 * Z.max 1 (Z.min df1 (Z.max n_docs 1)) + 1) (2 * Z.max 1 (Z.min df2 (Z.max n_docs 1)) + 1)). lia.
Qed.

Lemma idf_q_bound df n_docs : 0 <= n_docs <= DOCS_MAX -> 0 <= idf_q df n_docs <= 36729.
Proof.
  unfold DOCS_MAX, idf_q. cbv zeta. intros. rewrite clamp_spec by lia. set (n := Z.max n_docs 1) in *.
  pose proof (ln_q_bound (2 * n + 2)). pose proof (ln_q_bound (2 * Z.max 1 (Z.min df n) + 1)). unfold LOG_MAX in *. lia.
Qed.

(** ** The policy cell *)

Record row_ok (knots : list Z) : Prop := {
  row_len : zlen knots = KAN_KNOTS;
  row_i16 : Forall (in_i 16) knots;
}.

(** Piecewise-linear interpolation with the fraction rounded down. *)
Definition knot (knots : list Z) (i : Z) : Z := knots !!! Z.to_nat i.
Definition spline_q (knots : list Z) (x : Z) : Z :=
  let xc := clamp x 0 1024 in
  let seg := Z.min (xc / 128) 7 in
  knot knots seg + (knot knots (seg + 1) - knot knots seg) * (xc - 128 * seg) / 128.

Lemma idx_total (l : list Z) i : 0 <= i < zlen l -> idx l i = Val (l !!! Z.to_nat i).
Proof.
  intros Hi. apply idx_Some; [lia|]. apply list_lookup_lookup_total_lt. unfold zlen in Hi. lia.
Qed.

Lemma knot_i16 knots i : row_ok knots -> 0 <= i < 9 -> - 32768 <= knot knots i < 32768.
Proof.
  intros [Hl Hk] Hi. unfold KAN_KNOTS in Hl. assert (in_i 16 (knot knots i)) as H; [|unfold in_i in H; lia].
  eapply Forall_lookup_1; [exact Hk|]. apply list_lookup_lookup_total_lt. unfold zlen in Hl. lia.
Qed.

Lemma saturate_i_id w v : in_i w v -> saturate_i w v = v.
Proof. unfold in_i, saturate_i. lia. Qed.

(** Where in its segment the clamped feature lies. *)
Lemma segment x : let xc := clamp x 0 1024 in let seg := Z.min (xc / 128) 7 in
  0 <= xc <= 1024 /\ 0 <= seg <= 7 /\ 0 <= xc - 128 * seg <= 128.
Proof.
  cbv zeta. rewrite clamp_spec by lia. set (xc := Z.max _ _). assert (0 <= xc <= 1024) as Hx by lia.
  pose proof (Z.div_mod xc 128 ltac:(lia)). pose proof (Z.mod_pos_bound xc 128 ltac:(lia)). lia.
Qed.

Lemma interp_bound a b f : - 65536 <= b - a <= 65536 -> 0 <= f <= 128 ->
  Z.min a b <= a + (b - a) * f / 128 <= Z.max a b.
Proof.
  intros Hd Hf. pose proof (Z.div_mod ((b - a) * f) 128 ltac:(lia)). pose proof (Z.mod_pos_bound ((b - a) * f) 128 ltac:(lia)).
  destruct (Z.le_ge_cases 0 (b - a)); nia.
Qed.

Lemma kan_spline_eval_eq knots x : row_ok knots ->
  kan_spline_eval knots x GRID_LO GRID_STEP_LOG2 = Val (spline_q knots x).
Proof.
  intros Hr. pose proof (row_len _ Hr) as Hl. unfold kan_spline_eval, GRID_LO, GRID_STEP_LOG2, KAN_KNOTS in *.
  change (shl_i32 1 7) with (Val 128). rewrite bind_val.
  change (saturate_i 32 (128 * (9 - 1))) with 1024. change (saturate_i 32 (0 + 1024)) with 1024. cbv zeta.
  destruct (segment x) as (Hx & Hs & Hf). unfold spline_q. cbv zeta.
  change (if x <? 0 then 0 else if 1024 <? x then 1024 else x) with (clamp x 0 1024).
  set (xc := clamp x 0 1024) in *. rewrite i32_ok, bind_val, Z.sub_0_r by lia.
  rewrite Z.shiftr_div_pow2 by lia. change (2 ^ 7) with 128.
  rewrite wrap_small by (unfold in_u; pose proof (Z.div_mod xc 128 ltac:(lia)); pose proof (Z.mod_pos_bound xc 128 ltac:(lia)); lia).
  assert ((if 9 - 1 <=? xc / 128 then 9 - 2 else xc / 128) = Z.min (xc / 128) 7) as ->.
  { destruct (Z.leb_spec (9 - 1) (xc / 128)); lia. }
  set (seg := Z.min (xc / 128) 7) in *. rewrite !idx_total, !bind_val by lia. fold (knot knots seg) (knot knots (seg + 1)).
  pose proof (knot_i16 knots seg Hr ltac:(lia)). pose proof (knot_i16 knots (seg + 1) Hr ltac:(lia)).
  rewrite (saturate_i_id 32 (seg * 128)) by (unfold in_i; lia).
  rewrite (saturate_i_id 32 (0 + _)) by (unfold in_i; lia). rewrite i32_ok, bind_val by lia.
  replace (xc - (0 + seg * 128)) with (xc - 128 * seg) by lia.
  rewrite (saturate_i_id 32 (knot _ _ - _)) by (unfold in_i; lia).
  rewrite (saturate_i_id 32 (_ * _)) by (unfold in_i; nia).
  rewrite Z.shiftr_div_pow2 by lia. change (2 ^ 7) with 128.
  pose proof (interp_bound (knot knots seg) (knot knots (seg + 1)) (xc - 128 * seg) ltac:(lia) Hf).
  by rewrite saturate_i_id by (unfold in_i; lia).
Qed.

Lemma spline_q_bound knots x : row_ok knots -> - 32768 <= spline_q knots x < 32768.
Proof.
  intros Hr. unfold spline_q. cbv zeta. destruct (segment x) as (Hx & Hs & Hf).
  set (seg := Z.min _ 7) in *. pose proof (knot_i16 knots seg Hr ltac:(lia)). pose proof (knot_i16 knots (seg + 1) Hr ltac:(lia)).
  pose proof (interp_bound (knot knots seg) (knot knots (seg + 1)) _ ltac:(lia) Hf). lia.
Qed.

(** A row of sign [s]: its knots never step against the sign. *)
Definition monotone_row (s : Z) (knots : list Z) : Prop :=
  forall k, 0 <= k < 8 -> 0 <= s * (knot knots (k + 1) - knot knots k).

Lemma monotone_row_chain s knots i j : monotone_row s knots -> 0 <= i -> i <= j -> j <= 8 ->
  s * knot knots i <= s * knot knots j.
Proof.
  intros Hm Hi Hij. revert j Hij. apply (Z.right_induction (fun j => j <= 8 -> s * knot knots i <= s * knot knots j)).
  - solve_proper.
  - intros _. lia.
  - intros j Hj IH Hj8. specialize (IH ltac:(lia)). specialize (Hm j ltac:(lia)). unfold Z.succ. lia.
Qed.

Lemma interp_mono s a b f g : s = 1 \/ s = -1 -> 0 <= s * (b - a) -> 0 <= f <= g -> g <= 128 ->
  s * a <= s * (a + (b - a) * f / 128) <= s * (a + (b - a) * g / 128) /\
  s * (a + (b - a) * g / 128) <= s * b.
Proof.
  intros Hs Hd Hf Hg. pose proof (Z.div_mod ((b - a) * f) 128 ltac:(lia)). pose proof (Z.mod_pos_bound ((b - a) * f) 128 ltac:(lia)).
  pose proof (Z.div_mod ((b - a) * g) 128 ltac:(lia)). pose proof (Z.mod_pos_bound ((b - a) * g) 128 ltac:(lia)).
  destruct Hs as [->| ->].
  - pose proof (Z.div_le_mono ((b - a) * f) ((b - a) * g) 128 ltac:(lia) ltac:(nia)). nia.
  - pose proof (Z.div_le_mono ((b - a) * g) ((b - a) * f) 128 ltac:(lia) ltac:(nia)). nia.
Qed.

Lemma spline_q_mono s knots x y : s = 1 \/ s = -1 -> monotone_row s knots -> x <= y ->
  s * spline_q knots x <= s * spline_q knots y.
Proof.
  intros Hs Hm Hxy. unfold spline_q. cbv zeta. destruct (segment x) as (Hx & Hsx & Hfx). destruct (segment y) as (Hy & Hsy & Hfy).
  assert (clamp x 0 1024 <= clamp y 0 1024) as Hc by (rewrite !clamp_spec by lia; lia).
  set (xc := clamp x 0 1024) in *. set (yc := clamp y 0 1024) in *.
  assert (Z.min (xc / 128) 7 <= Z.min (yc / 128) 7) as Hseg by (pose proof (Z.div_le_mono xc yc 128 ltac:(lia) Hc); lia).
  set (sx := Z.min (xc / 128) 7) in *. set (sy := Z.min (yc / 128) 7) in *.
  destruct (decide (sx = sy)) as [->|Hne].
  - by apply interp_mono; [|apply Hm; lia|lia|lia].
  - destruct (interp_mono s (knot knots sx) (knot knots (sx + 1)) (xc - 128 * sx) (xc - 128 * sx) Hs) as [_ H1]; [apply Hm; lia|lia|lia|].
    destruct (interp_mono s (knot knots sy) (knot knots (sy + 1)) (yc - 128 * sy) (yc - 128 * sy) Hs) as [[H2 _] _]; [apply Hm; lia|lia|lia|].
    pose proof (monotone_row_chain s knots (sx + 1) sy Hm ltac:(lia) ltac:(lia) ltac:(lia)). lia.
Qed.

Record table_ok (table : list (list Z)) : Prop := {
  table_len : zlen table = KAN_FEATURES;
  table_rows : Forall row_ok table;
}.

Definition row_of (table : list (list Z)) (j : Z) : list Z := table !!! Z.to_nat j.
Definition feat (feats : list Z) (j : Z) : Z := feats !!! Z.to_nat j.
Definition term_q (table : list (list Z)) (feats : list Z) (j : Z) : Z := spline_q (row_of table j) (feat feats j).
Definition kan_q (table : list (list Z)) (feats : list Z) (flag_terms bias : Z) : Z :=
  clamp (bias + term_q table feats 0 + term_q table feats 1 + term_q table feats 2 + term_q table feats 3 + flag_terms)
    (-34000) 34000.

Lemma row_of_ok table j : table_ok table -> 0 <= j < 4 -> row_ok (row_of table j).
Proof.
  intros [Hl Hr] Hj. unfold KAN_FEATURES in Hl. eapply Forall_lookup_1; [exact Hr|].
  apply list_lookup_lookup_total_lt. unfold zlen in Hl. lia.
Qed.

Lemma kan_score_eq table feats flag_terms bias : table_ok table -> zlen feats = KAN_FEATURES ->
  in_i 32 flag_terms -> in_i 32 bias -> kan_score table feats flag_terms bias = Val (kan_q table feats flag_terms bias).
Proof.
  intros Ht Hf Hfl Hb. pose proof (table_len _ Ht) as Hl. unfold in_i, KAN_FEATURES in *.
  assert (forall j acc, 0 <= j < 4 -> - 2 ^ 60 <= acc <= 2 ^ 60 ->
    (row ← idx table j; x ← idx feats j; y ← kan_spline_eval row x GRID_LO GRID_STEP_LOG2; Val (saturate_i 64 (acc + y))) =
      Val (acc + term_q table feats j) /\ - 32768 <= term_q table feats j < 32768) as Hstep.
  { intros j acc Hj Ha. pose proof (row_of_ok table j Ht Hj) as Hr.
    pose proof (spline_q_bound (row_of table j) (feat feats j) Hr) as Hq.
    assert (idx table j = Val (row_of table j)) as ->.
    { apply idx_Some; [lia|]. apply list_lookup_lookup_total_lt. unfold zlen in Hl. lia. }
    rewrite bind_val, idx_total, bind_val by lia. fold (feat feats j). rewrite kan_spline_eval_eq, bind_val by done.
    rewrite saturate_i_id by (unfold in_i; lia). done. }
  unfold kan_score, KAN_FEATURES.
  rewrite for_up_step by lia. destruct (Hstep 0 bias ltac:(lia) ltac:(lia)) as [-> H0].
  rewrite bind_val, for_up_step by lia. change (0 + 1) with 1.
  destruct (Hstep 1 (bias + term_q table feats 0) ltac:(lia) ltac:(lia)) as [-> H1].
  rewrite bind_val, for_up_step by lia. change (1 + 1) with 2.
  destruct (Hstep 2 (bias + term_q table feats 0 + term_q table feats 1) ltac:(lia) ltac:(lia)) as [-> H2].
  rewrite bind_val, for_up_step by lia. change (2 + 1) with 3.
  destruct (Hstep 3 (bias + term_q table feats 0 + term_q table feats 1 + term_q table feats 2) ltac:(lia) ltac:(lia)) as [-> H3].
  rewrite bind_val, for_up_done, bind_val by lia. rewrite saturate_i_id by (unfold in_i; lia). done.
Qed.

(** A loop over [unit] that stops at the first index failing a test. *)
Lemma loop_opt_forallb (p : Z -> bool) body k : forall lo,
  (forall i, lo <= i < lo + Z.of_nat k -> body i tt = Val (if p i then Some tt else None)) ->
  loop_opt k lo body tt = Val (if forallb p (seqZ lo (Z.of_nat k)) then Some tt else None).
Proof.
  induction k as [|k IH]; intros lo Hb; [done|]. cbn [loop_opt]. rewrite Hb, bind_val by lia.
  rewrite seqZ_cons by lia. cbn [forallb]. destruct (p lo); [|done]. cbn [andb].
  replace (Z.pred (Z.of_nat (S k))) with (Z.of_nat k) by lia. rewrite <- Z.add_1_r. apply IH. intros i Hi. apply Hb. lia.
Qed.

Lemma for_up_opt_forallb (p : Z -> bool) body n : 0 <= n ->
  (forall i, 0 <= i < n -> body i tt = Val (if p i then Some tt else None)) ->
  for_up_opt 0 n body tt = Val (if forallb p (seqZ 0 n) then Some tt else None).
Proof.
  intros Hn Hb. unfold for_up_opt. rewrite Z.sub_0_r. rewrite (loop_opt_forallb p).
  - by rewrite Z2Nat.id by done.
  - intros i Hi. apply Hb. lia.
Qed.

Lemma forallb_seqZ (p : Z -> bool) n : forallb p (seqZ 0 n) = true <-> forall i, 0 <= i < n -> p i = true.
Proof.
  rewrite forallb_forall. split; intros H i Hi; apply H.
  - apply list_elem_of_In, elem_of_seqZ. lia.
  - apply list_elem_of_In, elem_of_seqZ in Hi. lia.
Qed.

Definition step_ok (row : list Z) (s k : Z) : bool :=
  let d := knot row (k + 1) - knot row k in
  negb ((0 <? s) && (d <? 0)) && negb ((s <? 0) && (0 <? d)).

Lemma row_monotone_eq row s : row_ok row ->
  row_monotone row s = Val (if forallb (step_ok row s) (seqZ 0 8) then Some tt else None).
Proof.
  intros Hr. pose proof (row_len _ Hr) as Hl. unfold row_monotone, KAN_KNOTS in *. change (9 - 1) with 8.
  apply for_up_opt_forallb; [lia|]. intros k Hk. rewrite !idx_total, !bind_val by lia.
  fold (knot row k) (knot row (k + 1)). cbv zeta. unfold step_ok.
  destruct ((0 <? s) && _), ((s <? 0) && _); done.
Qed.

Definition sign (signs : list Z) (j : Z) : Z := signs !!! Z.to_nat j.

Lemma kan_table_is_monotone_eq table signs : table_ok table -> zlen signs = KAN_FEATURES ->
  kan_table_is_monotone table signs =
    Val (forallb (fun j => forallb (step_ok (row_of table j) (sign signs j)) (seqZ 0 8)) (seqZ 0 4)).
Proof.
  intros Ht Hs. pose proof (table_len _ Ht) as Hl. unfold kan_table_is_monotone, KAN_FEATURES in *.
  rewrite (for_up_opt_forallb (fun j => forallb (step_ok (row_of table j) (sign signs j)) (seqZ 0 8))); [|lia|].
  - rewrite bind_val. by destruct (forallb _ (seqZ 0 4)).
  - intros j Hj. rewrite idx_total, bind_val by lia. fold (sign signs j).
    assert (idx table j = Val (row_of table j)) as ->.
    { apply idx_Some; [lia|]. apply list_lookup_lookup_total_lt. unfold zlen in Hl. lia. }
    rewrite bind_val. apply row_monotone_eq. by apply row_of_ok.
Qed.

Lemma steps_monotone row s : s = 1 \/ s = -1 ->
  forallb (step_ok row s) (seqZ 0 8) = true <-> monotone_row s row.
Proof.
  intros Hs. rewrite forallb_seqZ. unfold monotone_row, step_ok. cbv zeta.
  split; intros H k Hk; specialize (H k Hk); destruct Hs as [-> | ->]; cbn [Z.ltb Z.compare] in *;
    destruct (Z.ltb_spec (knot row (k + 1) - knot row k) 0), (Z.ltb_spec 0 (knot row (k + 1) - knot row k)); cbn in *; done || lia.
Qed.

(** ** Properties *)

(** C38: the recall score's components never leave their range.  For every access count and
    every age up to [2^53 - 1] the activation does not overflow, lies within +-34000, never
    rises with age and never falls with use; normalising any component list (activations,
    term weights, importances) gives a value in [0, 1000] and keeps the order; the inverse
    document frequency of any corpus up to [2^52 - 1] documents is non-negative and never
    rises with the document frequency. *)
Theorem scoring_bounded_and_monotone :
  (forall count age, is_u32 count -> 0 <= age <= AGE_MAX ->
     exists b, bla_raw count age = Val b /\ - 34000 <= b <= 34000 /\
       (forall age' b', age <= age' <= AGE_MAX -> bla_raw count age' = Val b' -> b' <= b) /\
       (forall count' b', is_u32 count' -> count <= count' -> bla_raw count' age = Val b' -> b <= b')) /\
  (forall vals i, Forall component vals -> 0 <= i < zlen vals ->
     exists s, minmax vals i = Val s /\ 0 <= s <= SCALE /\
       (forall j x y s', vals !! Z.to_nat i = Some x -> vals !! Z.to_nat j = Some y -> 0 <= j -> x <= y ->
          minmax vals j = Val s' -> s <= s')) /\
  (forall df n_docs, 0 <= n_docs <= DOCS_MAX ->
     exists w, bm25_idf df n_docs = Val w /\ 0 <= w /\
       (forall df' w', df <= df' -> bm25_idf df' n_docs = Val w' -> w' <= w)).
Proof.
  split; [|split].
  - intros count age Hc Ha. exists (bla_q count age). rewrite bla_raw_eq by done. split; [done|].
    split; [by apply bla_q_bound|]. split.
    + intros age' b' Ha' E. rewrite bla_raw_eq in E by (done || lia). injection E as <-. apply bla_q_age. lia.
    + intros c' b' Hc' Hle E. rewrite bla_raw_eq in E by done. injection E as <-. by apply bla_q_count.
  - intros vals i Hc Hi. exists (minmax_q vals i). rewrite minmax_eq by done. split; [done|].
    split; [by apply minmax_q_bound|]. intros j x y s' Ex Ey Hj Hxy E.
    rewrite minmax_eq in E; [|done|pose proof (lookup_lt_Some _ _ _ Ey); unfold zlen; lia].
    injection E as <-. eapply minmax_q_mono; [done | lia | lia | done | done | done].
  - intros df n Hn. exists (idf_q df n). rewrite bm25_idf_eq by done. split; [done|].
    split; [by apply idf_q_bound|]. intros df' w' Hle E. rewrite bm25_idf_eq in E by done. injection E as <-. by apply idf_q_df.
Qed.

(** The policy cell is safe whatever table it is given, and its load-time check is
    sound.  On any table of 16-bit knots and any features, flags and bias, the score does
    not panic and lies in the demote band; and if [kan_table_is_monotone] accepts the table
    for a sign vector, raising a feature of sign 1 (resp. -1) never lowers (resp. raises)
    the score. *)
Theorem kan_cell_safe_and_check_sound (table : list (list Z)) (signs feats : list Z) (flag_terms bias : Z)
    (Ht : table_ok table) (Hs : zlen signs = KAN_FEATURES) (Hf : zlen feats = KAN_FEATURES)
    (Hfl : in_i 32 flag_terms) (Hb : in_i 32 bias) :
  exists v mono, kan_score table feats flag_terms bias = Val v /\
    fst DEMOTE_BAND <= v <= snd DEMOTE_BAND /\
    kan_table_is_monotone table signs = Val mono /\
    (mono = true -> forall j s x' v', 0 <= j < KAN_FEATURES -> s = 1 \/ s = -1 -> sign signs j = s ->
       feat feats j <= x' ->
       kan_score table (<[Z.to_nat j := x']> feats) flag_terms bias = Val v' -> s * v <= s * v').
Proof.
  exists (kan_q table feats flag_terms bias). eexists. rewrite kan_score_eq by done. split; [done|].
  split; [unfold kan_q, DEMOTE_BAND; cbn [fst snd]; rewrite clamp_spec by lia; lia|].
  split; [by apply kan_table_is_monotone_eq|]. intros Hm j s x' v' Hj Hsg Es Hx E.
  rewrite kan_score_eq in E by (done || by rewrite zlen_insert). injection E as <-.
  rewrite forallb_seqZ in Hm. specialize (Hm j Hj). rewrite Es in Hm. apply steps_monotone in Hm; [|done].
  unfold KAN_FEATURES in *.
  assert (s * term_q table feats j <= s * term_q table (<[Z.to_nat j:=x']> feats) j) as Hterm.
  { unfold term_q. assert (feat (<[Z.to_nat j:=x']> feats) j = x') as ->.
    { unfold feat. apply list_lookup_total_insert_eq. unfold zlen in Hf. lia. }
    by apply spline_q_mono. }
  assert (forall i, 0 <= i < 4 -> i <> j -> term_q table (<[Z.to_nat j:=x']> feats) i = term_q table feats i) as Hoth.
  { intros i Hi Hne. unfold term_q, feat. by rewrite list_lookup_total_insert_ne by lia. }
  unfold kan_q. rewrite !clamp_spec by lia.
  assert (s * (term_q table feats 0 + term_q table feats 1 + term_q table feats 2 + term_q table feats 3) <=
    s * (term_q table (<[Z.to_nat j:=x']> feats) 0 + term_q table (<[Z.to_nat j:=x']> feats) 1 +
         term_q table (<[Z.to_nat j:=x']> feats) 2 + term_q table (<[Z.to_nat j:=x']> feats) 3)) as Hsum.
  { assert (j = 0 \/ j = 1 \/ j = 2 \/ j = 3) as Hcase by lia.
    destruct Hcase as [->|[->|[->| ->]]].
    - rewrite (Hoth 1), (Hoth 2), (Hoth 3) by lia. lia.
    - rewrite (Hoth 0), (Hoth 2), (Hoth 3) by lia. lia.
    - rewrite (Hoth 0), (Hoth 1), (Hoth 3) by lia. lia.
    - rewrite (Hoth 0), (Hoth 1), (Hoth 2) by lia. lia. }
  destruct Hsg as [-> | ->]; lia.
Qed.

Example log2_3 : log2_fixed 3 = Val 1500. Proof. reflexivity. Qed.
Example ln_2 : ln_fixed 2 = Val 693. Proof. reflexivity. Qed.
Example minmax_ex : minmax [10; 20; 30; 40] 1 = Val 333. Proof. reflexivity. Qed.

Lemma scoring_bounded_and_monotone_witness :
  (exists b, bla_raw 3 100 = Val b /\ - 34000 <= b <= 34000) /\ (exists s, minmax [10; 20; 30; 40] 1 = Val s /\ 0 <= s <= SCALE) /\
  (exists w, bm25_idf 2 10 = Val w /\ 0 <= w).
Proof.
  destruct scoring_bounded_and_monotone as (H1 & H2 & H3). split; [|split].
  - destruct (H1 3 100) as (b & ? & ? & _); [unfold in_u; lia | unfold AGE_MAX; lia |]. by exists b.
  - destruct (H2 [10; 20; 30; 40] 1) as (b & ? & ? & _); [repeat apply Forall_cons_2; try apply Forall_nil_2; unfold COMPONENT_MAX; lia | done |].
    by exists b.
  - destruct (H3 2 10) as (b & ? & ? & _); [unfold DOCS_MAX; lia|]. by exists b.
Defined.

(** Two decreasing rows, an increasing one and a flat one. *)
Definition demo_table : list (list Z) :=
  [[4000; 3500; 3000; 2400; 1800; 1200; 600; 100; -400]; [800; 700; 600; 500; 400; 300; 200; 100; 0];
   [-400; 100; 600; 1200; 1800; 2400; 3000; 3500; 4000]; [500; 500; 500; 500; 500; 500; 500; 500; 500]].

Lemma kan_cell_safe_and_check_sound_witness :
  exists v mono, kan_score demo_table [64; 300; 900; 5] 8000 (-10) = Val v /\
    fst DEMOTE_BAND <= v <= snd DEMOTE_BAND /\ kan_table_is_monotone demo_table [-1; -1; 1; 0] = Val mono /\
    (mono = true -> forall j s x' v', 0 <= j < KAN_FEATURES -> s = 1 \/ s = -1 -> sign [-1; -1; 1; 0] j = s ->
       feat [64; 300; 900; 5] j <= x' ->
       kan_score demo_table (<[Z.to_nat j := x']> [64; 300; 900; 5]) 8000 (-10) = Val v' -> s * v <= s * v').
Proof.
  apply kan_cell_safe_and_check_sound; [|done|done|unfold in_i; lia|unfold in_i; lia].
  split; [done|]. repeat apply Forall_cons_2; try apply Forall_nil_2; (split; [done|]);
    repeat apply Forall_cons_2; try apply Forall_nil_2; unfold in_i; lia.
Defined.
