(* ===== verification/Exp.v ===== *)
(** * Experience log: [crates/tb-encode/src/exp.rs].

    The fixed-width experience record and its codec, an instance of the provenance chain's
    entry interface ([Prov.Canon]), and the drop-oldest ring of recorded rows. *)
From Stdlib Require Import ZArith Lia.
From stdpp Require Import base numbers option tactics sets list.
From S2P Require Import Prelude Prov Memscore.
Open Scope Z_scope.

Definition FORGET_DECISION : Z := 1.
Definition RECALL_TOUCH : Z := 2.
Definition DETERMINISTIC : Z := 0.
Definition SOFT_GREEDY : Z := 1.
Definition PROPENSITY_DETERMINISTIC_Q : Z := 1000.

Inductive OutcomeLabel : Type :=
| Unset
| ReRecalled (v : Z)
| Evicted (v : Z).

Definition tag (o : OutcomeLabel) : Z :=
  match o with Unset => 0 | ReRecalled _ => 1 | Evicted _ => 2 end.
Definition payload (o : OutcomeLabel) : Z :=
  match o with Unset => 0 | ReRecalled v | Evicted v => v end.
Definition from_parts (tag payload : Z) : option OutcomeLabel :=
  if tag =? 0 then Some Unset
  else if tag =? 1 then Some (ReRecalled payload)
  else if tag =? 2 then Some (Evicted payload)
  else None.

Record ExperienceRecord := {
  decision_id : Z;
  xp_kind : Z;
  feats : list Z;
  envelope_verdict : Z;
  action_taken : Z;
  kan_score_shadow : Z;
  logging_propensity_q : Z;
  logging_policy_kind : Z;
  xp_outcome : OutcomeLabel;
  margin_q : Z;
}.

Definition EXP_CANON_LEN : Z := 8 + 1 + (4 * 4) + 1 + 1 + 8 + 2 + 1 + 1 + 8 + 2.
Definition OFF_DECISION_ID : Z := 0.
Definition OFF_KIND : Z := 8.
Definition OFF_FEATS : Z := 9.
Definition OFF_ENVELOPE : Z := 25.
Definition OFF_ACTION : Z := 26.
Definition OFF_SHADOW : Z := 27.
Definition OFF_PROPENSITY : Z := 35.
Definition OFF_POLICY_KIND : Z := 37.
Definition OFF_OUTCOME_TAG : Z := 38.
Definition OFF_OUTCOME_PAYLOAD : Z := 39.
Definition OFF_MARGIN : Z := 47.

Definition write_u64 (out : list Z) (off v : Z) : res (list Z) := copy_loop 8 (to_le 8 v) off out.
Definition write_i64 (out : list Z) (off v : Z) : res (list Z) := write_u64 out off (wrap 64 v).
Definition write_i32 (out : list Z) (off v : Z) : res (list Z) := copy_loop 4 (to_le 4 (wrap 32 v)) off out.
Definition write_u16 (out : list Z) (off v : Z) : res (list Z) :=
  let b := to_le 2 v in
  b0 ← idx b 0; out ← upd out off b0;
  b1 ← idx b 1; upd out (off + 1) b1.
Definition write_i16 (out : list Z) (off v : Z) : res (list Z) := write_u16 out off (wrap 16 v).

Definition read_u64 (buf : list Z) (off : Z) : res Z :=
  b ← gather buf [off; off + 1; off + 2; off + 3; off + 4; off + 5; off + 6; off + 7];
  Val (of_le b).
Definition read_i64 (buf : list Z) (off : Z) : res Z := v ← read_u64 buf off; Val (to_signed 64 v).
Definition read_i32 (buf : list Z) (off : Z) : res Z :=
  b ← gather buf [off; off + 1; off + 2; off + 3]; Val (to_signed 32 (of_le b)).
Definition read_u16 (buf : list Z) (off : Z) : res Z :=
  b ← gather buf [off; off + 1]; Val (of_le b).
Definition read_i16 (buf : list Z) (off : Z) : res Z := v ← read_u16 buf off; Val (to_signed 16 v).

Definition canon_len (_ : ExperienceRecord) : Z := EXP_CANON_LEN.

Definition canon (rec : ExperienceRecord) (out : list Z) : res (list Z * Z) :=
  if zlen out <? EXP_CANON_LEN then Val (out, 0) else
  out ← write_u64 out OFF_DECISION_ID (decision_id rec);
  out ← upd out OFF_KIND (xp_kind rec);
  out ← for_up 0 KAN_FEATURES (fun j out =>
    v ← idx (feats rec) j; write_i32 out (OFF_FEATS + j * 4) v) out;
  out ← upd out OFF_ENVELOPE (envelope_verdict rec);
  out ← upd out OFF_ACTION (action_taken rec);
  out ← write_i64 out OFF_SHADOW (kan_score_shadow rec);
  out ← write_u16 out OFF_PROPENSITY (logging_propensity_q rec);
  out ← upd out OFF_POLICY_KIND (logging_policy_kind rec);
  out ← upd out OFF_OUTCOME_TAG (tag (xp_outcome rec));
  out ← write_i64 out OFF_OUTCOME_PAYLOAD (payload (xp_outcome rec));
  out ← write_i16 out OFF_MARGIN (margin_q rec);
  Val (out, EXP_CANON_LEN).

Definition decode (buf : list Z) : res (option ExperienceRecord) :=
  if zlen buf <? EXP_CANON_LEN then Val None else
  decision_id ← read_u64 buf OFF_DECISION_ID;
  kind ← idx buf OFF_KIND;
  feats ← for_up 0 KAN_FEATURES (fun j feats =>
    v ← read_i32 buf (OFF_FEATS + j * 4); upd feats j v) (zrepeat KAN_FEATURES 0);
  envelope_verdict ← idx buf OFF_ENVELOPE;
  action_taken ← idx buf OFF_ACTION;
  kan_score_shadow ← read_i64 buf OFF_SHADOW;
  logging_propensity_q ← read_u16 buf OFF_PROPENSITY;
  logging_policy_kind ← idx buf OFF_POLICY_KIND;
  outcome_tag ← idx buf OFF_OUTCOME_TAG;
  outcome_payload ← read_i64 buf OFF_OUTCOME_PAYLOAD;
  match from_parts outcome_tag outcome_payload with
  | None => Val None
  | Some outcome =>
      margin_q ← read_i16 buf OFF_MARGIN;
      Val (Some {| decision_id := decision_id; xp_kind := kind; feats := feats;
                   envelope_verdict := envelope_verdict; action_taken := action_taken;
                   kan_score_shadow := kan_score_shadow;
                   logging_propensity_q := logging_propensity_q;
                   logging_policy_kind := logging_policy_kind; xp_outcome := outcome;
                   margin_q := margin_q |})
  end.

Definition replay_shadow (table : list (list Z)) (feats : list Z) (flag_terms bias : Z) : res Z :=
  kan_score table feats flag_terms bias.

(** ** The ring *)

Module Ring.
Section ring.
Context (CAP LEN : Z).

Record ExpRing := mkRing { rows : list (list Z); head : Z; len : Z }.

Definition new : ExpRing := mkRing (zrepeat CAP (zrepeat LEN 0)) 0 0.
Definition is_empty (r : ExpRing) : bool := len r =? 0.
Definition is_full (r : ExpRing) : bool := len r =? CAP.

Definition push (r : ExpRing) (row : list Z) : res (ExpRing * bool) :=
  if CAP =? 0 then Val (r, false) else
  if len r <? CAP then
    s ← add_u usize_bits (head r) (len r); slot ← urem s CAP;
    rows ← upd (rows r) slot row;
    Val (mkRing rows (head r) (len r + 1), false)
  else
    rows ← upd (rows r) (head r) row;
    h ← add_u usize_bits (head r) 1; h ← urem h CAP;
    Val (mkRing rows h (len r), true).

Definition get (r : ExpRing) (i : Z) : res (option (list Z)) :=
  if (len r <=? i) || (CAP =? 0) then Val None else
  s ← add_u usize_bits (head r) i; slot ← urem s CAP;
  row ← idx (rows r) slot; Val (Some row).
End ring.
End Ring.

(** ** Lemmas: the codec *)

Record xp_ok (r : ExperienceRecord) : Prop := {
  ok_decision : is_u64 (decision_id r);
  ok_kind : is_u8 (xp_kind r);
  ok_feats : zlen (feats r) = KAN_FEATURES /\ Forall (in_i 32) (feats r);
  ok_envelope : is_u8 (envelope_verdict r);
  ok_action : is_u8 (action_taken r);
  ok_shadow : in_i 64 (kan_score_shadow r);
  ok_propensity : is_u16 (logging_propensity_q r);
  ok_policy : is_u8 (logging_policy_kind r);
  ok_outcome : in_i 64 (payload (xp_outcome r));
  ok_margin : in_i 16 (margin_q r);
}.

Definition feats_bytes (fs : list Z) : list Z := concat (map (fun v => to_le 4 (wrap 32 v)) fs).

Definition xp_bytes (r : ExperienceRecord) : list Z :=
  to_le 8 (decision_id r) ++ [xp_kind r] ++ feats_bytes (feats r) ++
  [envelope_verdict r] ++ [action_taken r] ++ to_le 8 (wrap 64 (kan_score_shadow r)) ++
  to_le 2 (logging_propensity_q r) ++ [logging_policy_kind r] ++ [tag (xp_outcome r)] ++
  to_le 8 (wrap 64 (payload (xp_outcome r))) ++ to_le 2 (wrap 16 (margin_q r)).

Lemma four_feats (fs : list Z) : zlen fs = KAN_FEATURES -> exists a b c d, fs = [a; b; c; d].
Proof.
  unfold KAN_FEATURES, zlen. intros H. destruct fs as [|a [|b [|c [|d [|e fs]]]]]; cbn in H; try lia.
  by exists a, b, c, d.
Qed.

Lemma zlen_feats_bytes (fs : list Z) : zlen fs = KAN_FEATURES -> zlen (feats_bytes fs) = 16.
Proof. intros (a & b & c & d & ->)%four_feats. unfold feats_bytes. cbn [map concat]. zlen_const. Qed.

Lemma write_u16_ascend (pre : list Z) k (out : list Z) v : zlen pre = k -> k + 2 <= zlen out ->
  write_u16 (pre ++ zdrop k out) k v = Val ((pre ++ to_le 2 v) ++ zdrop (k + 2) out).
Proof.
  intros Hp Ho. unfold write_u16. change (to_le 2 v) with ([v mod 256] ++ [(v / 256) mod 256]). cbv zeta.
  change (idx ([v mod 256] ++ [(v / 256) mod 256]) 0) with (Val (v mod 256)). rewrite bind_val.
  pose proof (zlen_nonneg pre).
  rewrite (upd_ascend pre k out k _ (k + 1)), bind_val by lia.
  change (idx ([v mod 256] ++ [(v / 256) mod 256]) 1) with (Val ((v / 256) mod 256)). rewrite bind_val.
  rewrite (upd_ascend _ (k + 1) out (k + 1) _ (k + 2)) by (rewrite ?zlen_app; zl). by rewrite app_assoc.
Qed.

Lemma feats_loop (fs pre out : list Z) : zlen fs = KAN_FEATURES -> zlen pre = 9 -> 25 <= zlen out ->
  for_up 0 KAN_FEATURES (fun j out => v ← idx fs j; write_i32 out (OFF_FEATS + j * 4) v) (pre ++ zdrop 9 out) =
  Val ((pre ++ feats_bytes fs) ++ zdrop 25 out).
Proof.
  intros (a & b & c & d & ->)%four_feats Hp Hl. unfold KAN_FEATURES, OFF_FEATS, write_i32.
  rewrite for_up_step by lia. change (idx [a; b; c; d] (0)) with (Val a). rewrite bind_val.
  change (9 + (0) * 4) with 9. rewrite (copy_ascend 4 _ 9 _ 9 out 13), bind_val by (done || lia || zlen_const).
  rewrite for_up_step by lia. change (idx [a; b; c; d] (0 + 1)) with (Val b). rewrite bind_val.
  change (9 + (0 + 1) * 4) with 13. rewrite (copy_ascend 4 _ 13 _ 13 out 17), bind_val by (done || lia || zlen_const).
  rewrite for_up_step by lia. change (idx [a; b; c; d] (0 + 1 + 1)) with (Val c). rewrite bind_val.
  change (9 + (0 + 1 + 1) * 4) with 17. rewrite (copy_ascend 4 _ 17 _ 17 out 21), bind_val by (done || lia || zlen_const).
  rewrite for_up_step by lia. change (idx [a; b; c; d] (0 + 1 + 1 + 1)) with (Val d). rewrite bind_val.
  change (9 + (0 + 1 + 1 + 1) * 4) with 21. rewrite (copy_ascend 4 _ 21 _ 21 out 25), bind_val by (done || lia || zlen_const).
  rewrite for_up_done by lia.
  unfold feats_bytes. cbn [map concat]. rewrite app_nil_r. by rewrite <- !app_assoc.
Qed.

Lemma xp_bytes_length r : xp_ok r -> zlen (xp_bytes r) = EXP_CANON_LEN.
Proof.
  intros Hok. pose proof (zlen_feats_bytes _ (proj1 (ok_feats r Hok))) as Hf. unfold xp_bytes.
  change EXP_CANON_LEN with 49. zlen_const.
Qed.

Lemma exp_canon_eq r out : xp_ok r -> EXP_CANON_LEN <= zlen out ->
  canon r out = Val (xp_bytes r ++ zdrop EXP_CANON_LEN out, EXP_CANON_LEN).
Proof.
  intros Hok Hl. pose proof (proj1 (ok_feats r Hok)) as Hf. pose proof (zlen_feats_bytes _ Hf) as Hfb. unfold canon.
  rewrite (proj2 (Z.ltb_ge _ _)) by done. change EXP_CANON_LEN with 49 in *.
  unfold write_i64, write_u64, write_i16. change out with ([] ++ zdrop 0 out) at 1.
  unfold OFF_DECISION_ID. erewrite copy_ascend by write_side. rewrite bind_val.
  erewrite upd_ascend by write_side. rewrite bind_val.
  rewrite feats_loop, bind_val by (done || lia || zlen_const).
  erewrite upd_ascend by write_side. rewrite bind_val. erewrite upd_ascend by write_side. rewrite bind_val.
  erewrite copy_ascend by write_side. rewrite bind_val.
  unfold OFF_PROPENSITY. change (27 + 8) with 35.
  rewrite write_u16_ascend, bind_val by (lia || zlen_const).
  erewrite upd_ascend by write_side. rewrite bind_val. erewrite upd_ascend by write_side. rewrite bind_val.
  erewrite copy_ascend by write_side. rewrite bind_val.
  unfold OFF_MARGIN. change (OFF_OUTCOME_PAYLOAD + 8) with 47.
  rewrite write_u16_ascend, bind_val by (lia || zlen_const).
  unfold xp_bytes. change ([] ++ to_le 8 (decision_id r)) with (to_le 8 (decision_id r)). by rewrite <- !app_assoc.
Qed.

(** ** Lemmas: the decoder *)

Definition xp_of (buf : list Z) (k e a p t : Z) (o : OutcomeLabel) : ExperienceRecord :=
  {| decision_id := of_le (zsub 0 8 buf); xp_kind := k;
     feats := map (fun j => to_signed 32 (of_le (zsub (9 + j * 4) 4 buf))) [0; 1; 2; 3];
     envelope_verdict := e; action_taken := a;
     kan_score_shadow := to_signed 64 (of_le (zsub 27 8 buf));
     logging_propensity_q := of_le (zsub 35 2 buf); logging_policy_kind := p; xp_outcome := o;
     margin_q := to_signed 16 (of_le (zsub 47 2 buf)) |}.

Lemma xp_read_u64 buf off : 0 <= off -> off + 8 <= zlen buf -> read_u64 buf off = Val (of_le (zsub off 8 buf)).
Proof. intros. unfold read_u64. gather_tac off 8%nat. done. Qed.
Lemma xp_read_i32 buf off : 0 <= off -> off + 4 <= zlen buf ->
  read_i32 buf off = Val (to_signed 32 (of_le (zsub off 4 buf))).
Proof. intros. unfold read_i32. gather_tac off 4%nat. done. Qed.
Lemma xp_read_u16 buf off : 0 <= off -> off + 2 <= zlen buf -> read_u16 buf off = Val (of_le (zsub off 2 buf)).
Proof. intros. unfold read_u16. gather_tac off 2%nat. done. Qed.

Lemma exp_decode_eq buf k e a p t : EXP_CANON_LEN <= zlen buf ->
  idx buf 8 = Val k -> idx buf 25 = Val e -> idx buf 26 = Val a -> idx buf 37 = Val p -> idx buf 38 = Val t ->
  decode buf = Val (o ← from_parts t (to_signed 64 (of_le (zsub 39 8 buf))); Some (xp_of buf k e a p t o)).
Proof.
  intros Hl E8 E25 E26 E37 E38. unfold decode. rewrite (proj2 (Z.ltb_ge _ _)) by done.
  change EXP_CANON_LEN with 49 in Hl.
  unfold OFF_DECISION_ID, OFF_KIND, OFF_ENVELOPE, OFF_ACTION, OFF_SHADOW, OFF_PROPENSITY, OFF_POLICY_KIND,
    OFF_OUTCOME_TAG, OFF_OUTCOME_PAYLOAD, OFF_MARGIN, read_i64, read_i16.
  rewrite (xp_read_u64 buf 0), bind_val by lia. rewrite E8, bind_val.
  assert (for_up 0 KAN_FEATURES (fun j feats =>
    v ← read_i32 buf (OFF_FEATS + j * 4); upd feats j v) (zrepeat KAN_FEATURES 0) =
    Val (map (fun j => to_signed 32 (of_le (zsub (9 + j * 4) 4 buf))) [0; 1; 2; 3])) as ->.
  { unfold KAN_FEATURES, OFF_FEATS. change (zrepeat 4 0) with [0; 0; 0; 0].
    rewrite for_up_step, xp_read_i32, bind_val by lia. rewrite upd_ok, bind_val by (split; [lia | reflexivity]).
    rewrite for_up_step, xp_read_i32, bind_val by lia. rewrite upd_ok, bind_val by (split; [lia | reflexivity]).
    rewrite for_up_step, xp_read_i32, bind_val by lia. rewrite upd_ok, bind_val by (split; [lia | reflexivity]).
    rewrite for_up_step, xp_read_i32, bind_val by lia. rewrite upd_ok, bind_val by (split; [lia | reflexivity]).
    by rewrite for_up_done by lia. }
  rewrite bind_val, E25, bind_val, E26, bind_val. rewrite (xp_read_u64 buf 27), !bind_val by lia.
  rewrite (xp_read_u16 buf 35), bind_val by lia. rewrite E37, bind_val, E38, bind_val. rewrite (xp_read_u64 buf 39), !bind_val by lia.
  destruct (from_parts _ _) as [o|]; [|done]. rewrite (xp_read_u16 buf 47), !bind_val by lia. done.
Qed.

Lemma xp_from_parts o : from_parts (tag o) (payload o) = Some o.
Proof. by destruct o. Qed.

(** The byte at a constant offset of a concatenation of chunks of constant lengths. *)
Ltac idx_chunks :=
  repeat rewrite idx_app_ge by (first [rewrite zlen_to_le; vm_compute; congruence | vm_compute; congruence]);
  rewrite ?zlen_to_le; reflexivity.

(** The encoded record, chunk by chunk. *)
Lemma xp_chunks r tl f0 f1 f2 f3 : feats r = [f0; f1; f2; f3] ->
  xp_bytes r ++ tl =
    to_le 8 (decision_id r) ++ [xp_kind r] ++ to_le 4 (wrap 32 f0) ++ to_le 4 (wrap 32 f1) ++
    to_le 4 (wrap 32 f2) ++ to_le 4 (wrap 32 f3) ++ [envelope_verdict r] ++ [action_taken r] ++
    to_le 8 (wrap 64 (kan_score_shadow r)) ++ to_le 2 (logging_propensity_q r) ++
    [logging_policy_kind r] ++ [tag (xp_outcome r)] ++ to_le 8 (wrap 64 (payload (xp_outcome r))) ++
    to_le 2 (wrap 16 (margin_q r)) ++ tl.
Proof. intros Ef. unfold xp_bytes, feats_bytes. rewrite Ef. cbn [map concat]. by rewrite app_nil_r, <- !app_assoc. Qed.

Lemma exp_decode_canon r tl : xp_ok r -> decode (xp_bytes r ++ tl) = Val (Some r).
Proof.
  intros Hok. pose proof (xp_bytes_length r Hok) as Hl. pose proof (zlen_nonneg tl).
  destruct (four_feats _ (proj1 (ok_feats r Hok))) as (f0 & f1 & f2 & f3 & Ef).
  pose proof (proj2 (ok_feats r Hok)) as Hf. rewrite Ef in Hf.
  assert (in_i 32 f0 /\ in_i 32 f1 /\ in_i 32 f2 /\ in_i 32 f3) as (H0 & H1 & H2 & H3).
  { rewrite !Forall_cons in Hf. destruct Hf as (? & ? & ? & ? & _). done. }
  rewrite (exp_decode_eq _ (xp_kind r) (envelope_verdict r) (action_taken r) (logging_policy_kind r) (tag (xp_outcome r)));
    [|rewrite zlen_app; lia | rewrite (xp_chunks r tl f0 f1 f2 f3 Ef); idx_chunks..].
  unfold xp_of. cbn [map]. change (9 + 0 * 4) with 9. change (9 + 1 * 4) with 13. change (9 + 2 * 4) with 17. change (9 + 3 * 4) with 21.
  rewrite (xp_chunks r tl f0 f1 f2 f3 Ef). fields.
  destruct Hok. rewrite !of_to_le_id by (try done; by apply wrap_in_u).
  rewrite !to_signed_wrap by done. rewrite xp_from_parts. cbn [mbind option_bind]. rewrite <- Ef. by destruct r.
Qed.

#[global] Instance ExperienceRecord_canon : Canon ExperienceRecord canon.
Proof.
  refine {| canon_ok := xp_ok; canon_bytes := xp_bytes |}.
  - intros r. unfold xp_bytes. rewrite zlen_app, zlen_to_le.
    match goal with |- 0 < _ + zlen ?l => pose proof (zlen_nonneg l) end. lia.
  - intros r out Hok Hs. rewrite xp_bytes_length in Hs by done. unfold canon. by rewrite (proj2 (Z.ltb_lt _ _)).
  - intros r out Hok Hs. rewrite xp_bytes_length in * by done. by apply exp_canon_eq.
  - intros r1 r2 H1 H2 E. pose proof (exp_decode_canon r1 [] H1) as D1. rewrite E, (exp_decode_canon r2 [] H2) in D1.
    by injection D1 as ->.
Defined.

(** ** Lemmas: the ring holds the most recent rows *)

Section ring_lemmas.
Context (CAP LEN : Z) (HC : 0 < CAP < 2 ^ 62).

(** The rows in order, oldest first. *)
Definition ring_holds (r : Ring.ExpRing) (q : list (list Z)) : Prop :=
  zlen (Ring.rows r) = CAP /\ 0 <= Ring.head r < CAP /\ Ring.len r = zlen q /\ zlen q <= CAP /\
  forall i row, q !! i = Some row -> Ring.rows r !! Z.to_nat ((Ring.head r + Z.of_nat i) mod CAP) = Some row.

Lemma ring_new : ring_holds (Ring.new CAP LEN) [].
Proof.
  unfold ring_holds, Ring.new. cbn. rewrite zlen_zrepeat. split; [lia|]. split; [lia|]. split; [done|].
  split; [unfold zlen; cbn; lia|]. intros i row Hi. by rewrite lookup_nil in Hi.
Qed.

Definition ring_push (q : list (list Z)) (row : list Z) : list (list Z) :=
  if zlen q <? CAP then q ++ [row] else tail q ++ [row].

Lemma ring_push_ok r q row : ring_holds r q ->
  exists r', Ring.push CAP r row = Val (r', negb (zlen q <? CAP)) /\ ring_holds r' (ring_push q row).
Proof.
  intros (Hr & Hh & Hl & Hq & Hrow). unfold Ring.push, ring_push. rewrite (proj2 (Z.eqb_neq _ _)) by lia. rewrite Hl.
  assert (forall a i, 0 <= a < CAP -> 0 <= i < CAP -> (a + i) mod CAP = a -> i = 0) as Hzero.
  { intros a i Ha Hi E. destruct (Z.lt_ge_cases (a + i) CAP).
    - rewrite Z.mod_small in E by lia. lia.
    - rewrite <- (Z.mod_add _ (-1)), Z.mod_small in E by lia. lia. }
  destruct (Z.ltb_spec (zlen q) CAP) as [Hlt|Hge]; cbn [negb].
  - unfold usize_bits. rewrite add_u_ok, bind_val by (pose proof (zlen_nonneg q); lia). unfold urem.
    rewrite decide_False, bind_val by lia. pose proof (Z.mod_pos_bound (Ring.head r + zlen q) CAP ltac:(lia)).
    rewrite upd_ok, bind_val by lia. eexists. split; [done|]. unfold ring_holds. cbn [Ring.rows Ring.head Ring.len]. split; [by rewrite zlen_insert|].
    split; [done|]. split; [rewrite zlen_app, zlen_cons, zlen_nil; lia|]. split; [zl|].
    intros i x Hi. apply lookup_app_Some in Hi as [Hi|[Hge Hi]].
    + pose proof (lookup_lt_Some _ _ _ Hi). rewrite list_lookup_insert_ne; [by apply Hrow|].
      intros E. assert ((Ring.head r + Z.of_nat i) mod CAP = (Ring.head r + zlen q) mod CAP) as E'.
      { pose proof (Z.mod_pos_bound (Ring.head r + Z.of_nat i) CAP ltac:(lia)). lia. }
      assert ((Z.of_nat i + (zlen q - Z.of_nat i)) mod CAP = Z.of_nat i mod CAP) as E2.
      { replace (Z.of_nat i + (zlen q - Z.of_nat i)) with (Ring.head r + zlen q - Ring.head r) by lia.
        rewrite <- Zminus_mod_idemp_l, <- E', Zminus_mod_idemp_l. f_equal. lia. }
      unfold zlen in *. rewrite (Z.mod_small (Z.of_nat i)) in E2 by lia.
      apply Hzero in E2; lia.
    + destruct (i - length q)%nat eqn:En; [|done]. injection Hi as <-.
      replace (Z.of_nat i) with (zlen q) by (unfold zlen; lia). apply list_lookup_insert_eq.
      unfold zlen in Hr. lia.
  - rewrite upd_ok, bind_val by lia. unfold usize_bits. rewrite add_u_ok, bind_val by lia. unfold urem.
    rewrite decide_False, bind_val by lia. eexists. split; [done|]. pose proof (Z.mod_pos_bound (Ring.head r + 1) CAP ltac:(lia)).
    destruct q as [|x0 q]; [unfold zlen in *; cbn in *; lia|]. rewrite zlen_cons in *. cbn [tail].
    unfold ring_holds. cbn [Ring.rows Ring.head Ring.len]. split; [by rewrite zlen_insert|]. split; [lia|]. split; [rewrite zlen_app, zlen_cons, zlen_nil; lia|]. split; [zl|].
    intros i x Hi. rewrite Zplus_mod_idemp_l. replace (Ring.head r + 1 + Z.of_nat i) with (Ring.head r + Z.of_nat (S i)) by lia.
    apply lookup_app_Some in Hi as [Hi|[Hgi Hi]].
    + pose proof (lookup_lt_Some _ _ _ Hi). rewrite list_lookup_insert_ne; [by apply Hrow|].
      intros E. pose proof (Z.mod_pos_bound (Ring.head r + Z.of_nat (S i)) CAP ltac:(lia)).
      assert (Z.of_nat (S i) = 0); [|lia]. apply (Hzero (Ring.head r)); [done | unfold zlen in *; lia | lia].
    + destruct (i - length q)%nat eqn:En; [|done]. injection Hi as <-.
      replace (Z.of_nat (S i)) with CAP by (unfold zlen in *; lia).
      rewrite <- (Z.mod_add _ (-1)) by lia. replace (Ring.head r + CAP + -1 * CAP) with (Ring.head r) by lia.
      rewrite Z.mod_small by lia. apply list_lookup_insert_eq. unfold zlen in Hr. lia.
Qed.

Lemma ring_get_ok r q i : ring_holds r q -> 0 <= i -> Ring.get CAP r i = Val (q !! Z.to_nat i).
Proof.
  intros (Hr & Hh & Hl & Hq & Hrow) Hi. unfold Ring.get. rewrite Hl. rewrite (proj2 (Z.eqb_neq CAP 0)) by lia.
  rewrite orb_false_r. destruct (Z.leb_spec (zlen q) i).
  - symmetry. f_equal. apply lookup_ge_None_2. unfold zlen in *. lia.
  - unfold usize_bits. rewrite add_u_ok, bind_val by lia. unfold urem. rewrite decide_False, bind_val by lia.
    destruct (lookup_lt_is_Some_2 q (Z.to_nat i)) as [x Ex]; [unfold zlen in *; lia|]. rewrite Ex.
    pose proof (Hrow _ _ Ex) as Hx. rewrite Z2Nat.id in Hx by lia.
    rewrite (idx_Some _ _ x), bind_val; [done | apply Z.mod_pos_bound; lia | done].
Qed.
End ring_lemmas.
