(* ===== verification/OrganLogs.v ===== *)
(** * The organ's logs: [crates/tb-hal/src/mem/organ.rs], its ledger fields.

    The experience log and the experience corpus of the memory organ, each a running head,
    the ids it folds, and what it retains; the exploration coin.  All three logs of the
    organ (with the provenance ledger of [Prov]) are described by one relation, [chain_log]:
    the ids are the digests of a list of well-formed entries and the head is their fold. *)
From Stdlib Require Import ZArith Lia.
From stdpp Require Import base numbers option tactics sets list.
From S2P Require Import Prelude Prov Corpus Memscore Exp.
Open Scope Z_scope.

Definition EPS_NUM : Z := 1.
Definition EPS_DEN : Z := 16.
Definition AGENT_SEED : Z := 0x9E3779B97F4A7C15.
Definition EXPLORE_CLEARED_M : Z := 2.
Definition EXPLORE_SINGLETON_M : Z := 1.
Definition XP_CAP : Z := 64.
Definition CORPUS_CURATION_MIN_SALIENCE : Z := 2.

Definition KAN_TABLE : list (list Z) :=
  [[4000; 3500; 3000; 2400; 1800; 1200; 600; 100; -400];
   [-400; 100; 600; 1200; 1800; 2400; 3000; 3500; 4000];
   [200; 200; 150; 150; 100; 100; 50; 50; 0];
   [0; 0; 0; 0; 0; 0; 0; 0; 0]].
Definition KAN_SIGNS : list Z := [-1; 1; -1; 0].
Definition KAN_BIAS : Z := 0.
Definition KAN_FLAG_TERMS : Z := 0.
Definition XP_SHADOW_FLAG_TERMS : Z := KAN_FLAG_TERMS.
Definition XP_SHADOW_BIAS : Z := KAN_BIAS.

(** ** The exploration coin *)

Definition explore_is_greedy (decision_id m : Z) : res bool :=
  if m <=? 1 then Val true else
  did ← blit (zrepeat PROV_HASH_LEN 0) 0 8 (to_le 8 decision_id);
  seed ← blit (zrepeat PROV_HASH_LEN 0) 0 8 (to_le 8 AGENT_SEED);
  head ← chain_mix seed did;
  witness ← head_witness head;
  a ← urem witness (Z.max EPS_DEN 1);
  coin ← urem a (Z.max m 1);
  Val (coin =? 0).

(** ** The experience log *)

Record XpLog := mkXp { xp_head : list Z; xp_ring : Ring.ExpRing; xp_ids : list (list Z) }.
Definition xp_new : XpLog := mkXp (zrepeat PROV_HASH_LEN 0) (Ring.new XP_CAP EXP_CANON_LEN) [].

Definition xp_record (x : XpLog) (rec : ExperienceRecord) : res (XpLog * option (list Z)) :=
  let row := zrepeat EXP_CANON_LEN 0 in
  '(row, n) ← Exp.canon rec row;
  if n =? 0 then Val (x, None) else
  id ← prov_hash row;
  head ← chain_mix (xp_head x) id;
  '(ring, _) ← Ring.push XP_CAP (xp_ring x) row;
  Val (mkXp head ring (xp_ids x ++ [id]), Some id).

Definition xp_ring_row (x : XpLog) (i : Z) : res (option (list Z)) := Ring.get XP_CAP (xp_ring x) i.
Definition xp_ring_len (x : XpLog) : Z := Ring.len (xp_ring x).

(** ** The experience corpus *)

Record CorpusLog := mkCorpus {
  corpus_head : list Z;
  corpus_ids : list (list Z);
  corpus_records : list (list Z);
  corpus_accepted : Z;
  corpus_rejected : Z;
}.
Definition corpus_new : CorpusLog := mkCorpus (zrepeat PROV_HASH_LEN 0) [] [] 0 0.

Definition corpus_curate (content_tok salience : Z) : Z :=
  if negb (content_tok =? 0) && (CORPUS_CURATION_MIN_SALIENCE <=? salience) then ACCEPTED else REJECTED.

(** The tail the three emitters share: fold the record, remember its id and its bytes (what
    [corpus_append] leaves in the scratch buffer), count the verdict. *)
Definition corpus_commit (c : CorpusLog) (rec : CorpusRecord) (verdict : Z) : res CorpusLog :=
  let scratch := zrepeat CORPUS_CANON_LEN 0 in
  a ← corpus_append (corpus_head c) rec scratch;
  match a with
  | None => Val c
  | Some (new_head, id) =>
      '(scratch, _) ← Corpus.canon rec scratch;
      Val (mkCorpus new_head (corpus_ids c ++ [id]) (corpus_records c ++ [scratch])
             (if verdict =? ACCEPTED then saturating_add 64 (corpus_accepted c) 1 else corpus_accepted c)
             (if verdict =? ACCEPTED then corpus_rejected c else saturating_add 64 (corpus_rejected c) 1))
  end.

(** The record each emitter stamps with the organ's clock and provenance head. *)
Definition corpus_example (kind stream verdict content_tok aux_tok clock : Z) (head : list Z)
    (outcome : Corpus.OutcomeLabel) : CorpusRecord :=
  {| schema_version := CORPUS_SCHEMA_V1; example_kind := kind; source_stream := stream;
     curation_verdict := verdict; content_tok := content_tok; aux_tok := aux_tok;
     Corpus.t_created := clock; source_head := head; outcome := outcome; curation_score_q := 0 |}.

Definition corpus_emit_consolidation (c : CorpusLog) (clock : Z) (chain_head : list Z)
    (content_tok aux_tok source_stream salience : Z) : res CorpusLog :=
  let verdict := corpus_curate content_tok salience in
  corpus_commit c (corpus_example EPISODIC_CONSOLIDATION source_stream verdict content_tok aux_tok clock chain_head Corpus.Unset)
    verdict.

Definition corpus_emit_operator_turn (c : CorpusLog) (clock : Z) (chain_head : list Z)
    (content_tok aux_tok verdict : Z) : res CorpusLog :=
  corpus_commit c (corpus_example OPERATOR_TURN M25_OPERATOR verdict content_tok aux_tok clock chain_head Corpus.Unset)
    verdict.

Definition corpus_emit_labeled_outcome (c : CorpusLog) (clock : Z) (chain_head : list Z)
    (decision_id : Z) (outcome : Corpus.OutcomeLabel) : res CorpusLog :=
  corpus_commit c (corpus_example LABELED_OUTCOME M13_MEM ACCEPTED decision_id 0 clock chain_head outcome) ACCEPTED.

Definition corpus_counts (c : CorpusLog) : Z * Z := (corpus_accepted c, corpus_rejected c).

(** ** Specification: the log of a list of entries *)

Section chain_log.
Context {E : Type} {enc : E -> list Z -> res (list Z * Z)} `{Canon E enc}.

Record chain_log (head : list Z) (ids : list (list Z)) (es : list E) : Prop := {
  log_entries : Forall canon_ok es;
  log_ids : ids_of es ids;
  log_head : fold_chain genesis ids = Val head;
}.

Lemma chain_log_nil : chain_log genesis [] [].
Proof. by constructor; [constructor | constructor |]. Qed.

Lemma log_digests head ids es : chain_log head ids es -> Forall is_digest ids.
Proof. intros [_ Hi _]. by eapply ids_of_digests. Qed.

Lemma log_head_digest head ids es : chain_log head ids es -> is_digest head.
Proof.
  intros HL. destruct (fold_chain_runs genesis ids genesis_digest (log_digests _ _ _ HL)) as (h & Eh & Hh).
  rewrite (log_head _ _ _ HL) in Eh. by injection Eh as ->.
Qed.

Lemma log_length head ids es : chain_log head ids es -> zlen ids = zlen es.
Proof. intros [_ Hi _]. unfold zlen. by rewrite (Forall2_length _ _ _ Hi). Qed.

(** One more entry: what the log's append computes, and the log after. *)
Lemma chain_log_snoc head ids es e : chain_log head ids es -> canon_ok e ->
  exists h id, is_digest h /\ is_digest id /\ prov_hash (canon_bytes e) = Val id /\
    chain_mix head id = Val h /\ chain_log h (ids ++ [id]) (es ++ [e]).
Proof.
  intros HL He. pose proof (log_head_digest _ _ _ HL) as [Hh _].
  destruct (prov_hash_digest (canon_bytes e)) as (id & Eid & Hid).
  destruct (chain_mix_runs head id Hh (proj1 Hid)) as (h & Eh & Hhd).
  exists h, id. split; [done|]. split; [done|]. split; [done|]. split; [done|]. constructor.
  - apply Forall_app_2; [apply HL | by apply Forall_singleton].
  - apply Forall2_app; [apply HL | by constructor].
  - by rewrite fold_chain_snoc, (log_head _ _ _ HL).
Qed.

(** The inclusion verifier accepts the whole log. *)
Lemma chain_log_included head leaf siblings es : chain_log head (leaf :: siblings) es ->
  verify_inclusion leaf siblings head = Val true.
Proof. intros HL. apply verify_inclusion_true, HL. Qed.
End chain_log.

(** The last [n] of a list. *)
Definition recent {A} (n : Z) (l : list A) : list A := zdrop (zlen l - n) l.

Lemma recent_snoc {A} n (l : list A) x : 0 < n ->
  recent n (l ++ [x]) = (if zlen (recent n l) <? n then recent n l ++ [x] else tail (recent n l) ++ [x]).
Proof.
  intros Hn. unfold recent. pose proof (zlen_nonneg l). rewrite zlen_app, zlen_cons, zlen_nil, zlen_zdrop.
  destruct (Z.ltb_spec (Z.max 0 (zlen l - Z.max 0 (zlen l - n))) n) as [Hlt|Hge].
  - unfold zdrop. replace (Z.to_nat (zlen l + (1 + 0) - n)) with 0%nat by lia. replace (Z.to_nat (zlen l - n)) with 0%nat by lia. done.
  - replace (zlen l + (1 + 0) - n) with (zlen l - n + 1) by lia. rewrite zdrop_app_le by lia. f_equal.
    unfold zdrop. assert (forall y : list A, tail y = drop 1 y) as -> by (by intros []). rewrite drop_drop. f_equal. lia.
Qed.

(** An experience log, a corpus: the records they hold. *)
Record xp_log (x : XpLog) (rs : list ExperienceRecord) : Prop := {
  xp_chain : chain_log (H := ExperienceRecord_canon) (xp_head x) (xp_ids x) rs;
  xp_window : ring_holds XP_CAP (xp_ring x) (recent XP_CAP (map xp_bytes rs));
}.

Definition is_accepted (r : CorpusRecord) : bool := curation_verdict r =? ACCEPTED.
Record corpus_log (c : CorpusLog) (rs : list CorpusRecord) : Prop := {
  corpus_chain : chain_log (H := CorpusRecord_canon) (corpus_head c) (corpus_ids c) rs;
  corpus_bytes : corpus_records c = map record_bytes rs;
  corpus_acc : corpus_accepted c = Z.min (zlen (List.filter is_accepted rs)) (u_max 64);
  corpus_rej : corpus_rejected c = Z.min (zlen (List.filter (fun r => negb (is_accepted r)) rs)) (u_max 64);
}.

Lemma xp_new_log : xp_log xp_new [].
Proof. constructor; [apply chain_log_nil | apply ring_new; unfold XP_CAP; lia]. Qed.

Lemma corpus_new_log : corpus_log corpus_new [].
Proof. constructor; [apply chain_log_nil | done..]. Qed.

Lemma xp_record_ok x rs rec : xp_log x rs -> xp_ok rec ->
  exists x' id, xp_record x rec = Val (x', Some id) /\ xp_log x' (rs ++ [rec]).
Proof.
  intros [Hc Hr] Hok. destruct (chain_log_snoc _ _ _ rec Hc Hok) as (h & id & _ & _ & Eid & Eh & HL).
  unfold xp_record. rewrite exp_canon_eq, bind_val by (done || rewrite zlen_zrepeat; vm_compute; discriminate).
  change (EXP_CANON_LEN =? 0) with false. cbv iota.
  change (zdrop EXP_CANON_LEN (zrepeat EXP_CANON_LEN 0)) with (@nil Z). rewrite app_nil_r.
  cbn [canon_bytes ExperienceRecord_canon] in Eid. rewrite Eid, bind_val, Eh, bind_val.
  destruct (ring_push_ok XP_CAP ltac:(unfold XP_CAP; lia) _ _ (xp_bytes rec) Hr) as (r' & -> & Hr').
  rewrite bind_val. do 2 eexists. split; [done|]. constructor; [done|]. cbn [xp_ring].
  rewrite map_app. cbn [map]. rewrite recent_snoc by done. exact Hr'.
Qed.

Lemma corpus_commit_ok c rs rec verdict : corpus_log c rs -> record_ok rec -> verdict = curation_verdict rec ->
  runs (corpus_commit c rec verdict) (fun c' => corpus_log c' (rs ++ [rec])).
Proof.
  intros [Hc Hb Ha Hj] Hok ->. destruct (chain_log_snoc _ _ _ rec Hc Hok) as (h & id & _ & _ & Eid & Eh & HL).
  assert (CORPUS_CANON_LEN <= zlen (zrepeat CORPUS_CANON_LEN 0)) as Hs by (vm_compute; discriminate).
  unfold corpus_commit. rewrite corpus_append_chain, chain_append_fits;
    [|done | cbn [canon_bytes CorpusRecord_canon]; by rewrite record_bytes_length].
  rewrite Eid, bind_val, Eh, !bind_val. rewrite corpus_canon_eq, bind_val by done.
  change (zdrop CORPUS_CANON_LEN (zrepeat CORPUS_CANON_LEN 0)) with (@nil Z). rewrite app_nil_r.
  apply runs_val. constructor; cbn [Corpus.curation_verdict corpus_head corpus_ids corpus_records corpus_accepted corpus_rejected].
  - done.
  - by rewrite Hb, map_app.
  - change (curation_verdict rec =? ACCEPTED) with (is_accepted rec).
    rewrite List.filter_app, zlen_app, Ha. cbn [List.filter].
    destruct (is_accepted rec); rewrite ?zlen_cons, ?zlen_nil; unfold saturating_add, u_max; lia.
  - change (curation_verdict rec =? ACCEPTED) with (is_accepted rec).
    rewrite List.filter_app, zlen_app, Hj. cbn [List.filter].
    destruct (is_accepted rec); cbn [negb]; rewrite ?zlen_cons, ?zlen_nil; unfold saturating_add, u_max; lia.
Qed.

Lemma corpus_example_ok k s v tok aux clk head o :
  is_u8 k -> is_u8 s -> is_u8 v -> is_u64 tok -> is_u64 aux -> is_u64 clk -> is_digest head ->
  in_i 64 (Corpus.payload o) -> record_ok (corpus_example k s v tok aux clk head o).
Proof. intros. by constructor. Qed.

Lemma corpus_curate_u8 tok sal : is_u8 (corpus_curate tok sal).
Proof. unfold corpus_curate, in_u. destruct (_ && _); vm_compute; split; congruence. Qed.

Lemma corpus_emit_consolidation_ok c rs clk head tok aux stream sal :
  corpus_log c rs -> is_u64 clk -> is_digest head -> is_u64 tok -> is_u64 aux -> is_u8 stream ->
  runs (corpus_emit_consolidation c clk head tok aux stream sal) (fun c' => corpus_log c'
    (rs ++ [corpus_example EPISODIC_CONSOLIDATION stream (corpus_curate tok sal) tok aux clk head Corpus.Unset])).
Proof.
  intros. apply corpus_commit_ok; [done | | done].
  apply corpus_example_ok; try done. apply corpus_curate_u8.
Qed.

Lemma explore_is_greedy_runs d m : is_u64 d -> 0 <= m -> runs (explore_is_greedy d m) (fun _ => True).
Proof.
  intros Hd Hm. unfold explore_is_greedy. destruct (m <=? 1); [by apply runs_val|].
  assert (forall v, exists h, blit (zrepeat PROV_HASH_LEN 0) 0 8 (to_le 8 v) = Val h /\ zlen h = PROV_HASH_LEN) as Hb.
  { intros v. rewrite blit_ok; [|lia|vm_compute; discriminate|by rewrite zlen_to_le].
    eexists. split; [done|]. autorewrite with zlen. done. }
  destruct (Hb d) as (x & -> & Hx). destruct (Hb AGENT_SEED) as (y & -> & Hy). rewrite !bind_val.
  eapply runs_bind; [by apply chain_mix_runs|]. intros h [Hh _].
  assert (runs (head_witness h) (fun _ => True)) as Hw.
  { unfold head_witness. eapply runs_mono; [apply (for_up_inv (fun _ _ => True)); [lia | done |]|done].
    intros i s Hi _. cbv zeta. unfold PROV_HASH_LEN in *. rewrite copy_in_ok, bind_val by (try lia; rewrite zlen_zrepeat; lia).
    by apply runs_val. }
  eapply runs_bind; [exact Hw|]. intros w _. unfold urem. rewrite decide_False, bind_val by (unfold EPS_DEN; lia).
  rewrite decide_False, bind_val by lia. by apply runs_val.
Qed.

(** ** The observation every access and every decision records *)

Lemma KAN_TABLE_ok : table_ok KAN_TABLE.
Proof.
  split; [done|]. unfold KAN_TABLE. repeat apply Forall_cons_2; try apply Forall_nil_2; (split; [done|]);
    repeat apply Forall_cons_2; try apply Forall_nil_2; unfold in_i; lia.
Qed.
