(* ===== verification/Organ.v ===== *)
(** * The memory organ: [MemSubstrate] of [crates/tb-hal/src/mem/organ.rs].

    An agent's tiered memory: context registers, working graph, the append-only episodic
    journal, the lexically indexed semantic store, the recently-retrieved ring, the write
    quota; and the operations an agent has on it (write, read, recall).  Consolidation is
    [Consolidate], the skill tier [Skills], histories of calls [OrganHistory].

    The record groups the source's fields: the provenance head, ids and clock are
    [Prov.Organ] ([led]), the experience log [OrganLogs.XpLog] ([xp]), the corpus fields
    [OrganLogs.CorpusLog] ([corp]).  The backing store is any [Engine.BackingStore]; the
    [BTreeMap] of postings is an association list sorted by token. *)
From Stdlib Require Import ZArith Lia Sorting.Sorted.
From stdpp Require Import base numbers option tactics sets list.
From S2P Require Import Prelude Engine Prov Corpus Memscore Exp OrganLogs.
Open Scope Z_scope.

Definition N_REG : Z := 8.
Definition F_FINST : Z := 4.
Definition NODE_QUOTA : Z := 256.
Definition TOKEN_QUOTA : Z := 2 ^ 20.
Definition XP_ACTION_TOUCH : Z := 2.
Definition XP_ENV_TOUCH : Z := 2.
Definition TIER_HOT : Z := 3.
Definition TIER_COLD : Z := 5.

(** ** Data *)

Record Register := mkReg { name_tok : Z; reg_kind : Z; reg_value : Z }.

Inductive Support := ISupport | OSupport.
Record WmNode := mkNode { n_id : Z; attr_tok : Z; val : Z; edges : list Z; support : Support }.
Record WorkingGraph := mkGraph { nodes : list WmNode; root : Z }.
Definition gc (g : WorkingGraph) : WorkingGraph :=
  if NODE_QUOTA <? zlen (nodes g) then mkGraph (ztake NODE_QUOTA (nodes g)) (root g) else g.

Record Episode := mkEp {
  e_id : Z; e_content_tok : Z; e_value : Z; e_t_created : Z; e_t_invalid : Z; e_producing_task : Z }.
Record EpisodicJournal := mkJournal { log : list Episode; next_id : Z }.

Record MemRecord := mkRec {
  r_id : Z; r_token : Z; r_importance : Z; r_count : Z; r_last_ts : list Z; r_last_idx : Z;
  r_t_created : Z; r_t_invalid : Z; r_c_succ : Z; r_c_use : Z;
  r_links : list (Z * Z); r_tier : Z; r_provenance : Z }.

(** Postings by token, tokens ascending. *)
Abbreviation Lexical := (list (Z * list Z)).
Fixpoint lex_push (k v : Z) (m : Lexical) : Lexical :=
  match m with
  | [] => [(k, [v])]
  | (k', vs) :: m' =>
      if k <? k' then (k, [v]) :: m
      else if k =? k' then (k', vs ++ [v]) :: m'
      else (k', vs) :: lex_push k v m'
  end.
Fixpoint lex_get (k : Z) (m : Lexical) : option (list Z) :=
  match m with
  | [] => None
  | (k', vs) :: m' => if k =? k' then Some vs else lex_get k m'
  end.
Definition lex_values (m : Lexical) : list (list Z) := map snd m.

Record SemanticStore := mkSem { records : list MemRecord; lexical : Lexical; num_docs : Z; total_len : Z }.

Record Finsts := mkFinsts { ring : list (option (Z * Z)); f_head : Z }.
Definition finsts_clear : Finsts := mkFinsts (zrepeat F_FINST None) 0.
Definition finsts_contains (f : Finsts) (id : Z) : bool :=
  existsb (fun s => match s with Some (i, _) => i =? id | None => false end) (ring f).
Definition finsts_push (f : Finsts) (id ts : Z) : res Finsts :=
  slot ← urem (f_head f) F_FINST;
  r ← upd (ring f) slot (Some (id, ts));
  Val (mkFinsts r (wrapping_add usize_bits (f_head f) 1)).

Record Quota := mkQuota { tokens_written : Z; q_records : Z }.

Record SkillRecord := mkSkill {
  s_id : Z; body_tok : Z; desc_tok : Z; iface_tok : Z; embedding : Z; s_c_succ : Z; s_c_use : Z;
  util : Z; lineage : list Z; s_tier : Z; s_provenance : Z }.
Definition SKILL_PROPOSED : Z := 0.
Definition SKILL_ADMITTED : Z := 1.
Record ProceduralStore := mkProc { skills : list SkillRecord; s_next_id : Z; best_score : Z }.

Section organ.
Context {B : Type} `{BackingStore B}.

Record MemSubstrate := mkSub {
  t0 : list (option Register);
  t1 : WorkingGraph;
  t2 : EpisodicJournal;
  t3 : SemanticStore;
  finsts : Finsts;
  quota : Quota;
  backing : B;
  imp_accum : Z;
  last_consolidated_epoch : Z;
  consol_cursor : Z;
  t4 : ProceduralStore;
  led : Prov.Organ;
  xp : XpLog;
  corp : CorpusLog;
}.

Definition set_t0 (o : MemSubstrate) (v : list (option Register)) : MemSubstrate :=
  mkSub v (t1 o) (t2 o) (t3 o) (finsts o) (quota o) (backing o) (imp_accum o) (last_consolidated_epoch o) (consol_cursor o) (t4 o) (led o) (xp o) (corp o).
Definition set_t1 (o : MemSubstrate) (v : WorkingGraph) : MemSubstrate :=
  mkSub (t0 o) v (t2 o) (t3 o) (finsts o) (quota o) (backing o) (imp_accum o) (last_consolidated_epoch o) (consol_cursor o) (t4 o) (led o) (xp o) (corp o).
Definition set_t2 (o : MemSubstrate) (v : EpisodicJournal) : MemSubstrate :=
  mkSub (t0 o) (t1 o) v (t3 o) (finsts o) (quota o) (backing o) (imp_accum o) (last_consolidated_epoch o) (consol_cursor o) (t4 o) (led o) (xp o) (corp o).
Definition set_t3 (o : MemSubstrate) (v : SemanticStore) : MemSubstrate :=
  mkSub (t0 o) (t1 o) (t2 o) v (finsts o) (quota o) (backing o) (imp_accum o) (last_consolidated_epoch o) (consol_cursor o) (t4 o) (led o) (xp o) (corp o).
Definition set_finsts (o : MemSubstrate) (v : Finsts) : MemSubstrate :=
  mkSub (t0 o) (t1 o) (t2 o) (t3 o) v (quota o) (backing o) (imp_accum o) (last_consolidated_epoch o) (consol_cursor o) (t4 o) (led o) (xp o) (corp o).
Definition set_quota (o : MemSubstrate) (v : Quota) : MemSubstrate :=
  mkSub (t0 o) (t1 o) (t2 o) (t3 o) (finsts o) v (backing o) (imp_accum o) (last_consolidated_epoch o) (consol_cursor o) (t4 o) (led o) (xp o) (corp o).
Definition set_backing (o : MemSubstrate) (v : B) : MemSubstrate :=
  mkSub (t0 o) (t1 o) (t2 o) (t3 o) (finsts o) (quota o) v (imp_accum o) (last_consolidated_epoch o) (consol_cursor o) (t4 o) (led o) (xp o) (corp o).
Definition set_imp_accum (o : MemSubstrate) (v : Z) : MemSubstrate :=
  mkSub (t0 o) (t1 o) (t2 o) (t3 o) (finsts o) (quota o) (backing o) v (last_consolidated_epoch o) (consol_cursor o) (t4 o) (led o) (xp o) (corp o).
Definition set_last_consolidated_epoch (o : MemSubstrate) (v : Z) : MemSubstrate :=
  mkSub (t0 o) (t1 o) (t2 o) (t3 o) (finsts o) (quota o) (backing o) (imp_accum o) v (consol_cursor o) (t4 o) (led o) (xp o) (corp o).
Definition set_consol_cursor (o : MemSubstrate) (v : Z) : MemSubstrate :=
  mkSub (t0 o) (t1 o) (t2 o) (t3 o) (finsts o) (quota o) (backing o) (imp_accum o) (last_consolidated_epoch o) v (t4 o) (led o) (xp o) (corp o).
Definition set_t4 (o : MemSubstrate) (v : ProceduralStore) : MemSubstrate :=
  mkSub (t0 o) (t1 o) (t2 o) (t3 o) (finsts o) (quota o) (backing o) (imp_accum o) (last_consolidated_epoch o) (consol_cursor o) v (led o) (xp o) (corp o).
Definition set_led (o : MemSubstrate) (v : Prov.Organ) : MemSubstrate :=
  mkSub (t0 o) (t1 o) (t2 o) (t3 o) (finsts o) (quota o) (backing o) (imp_accum o) (last_consolidated_epoch o) (consol_cursor o) (t4 o) v (xp o) (corp o).
Definition set_xp (o : MemSubstrate) (v : XpLog) : MemSubstrate :=
  mkSub (t0 o) (t1 o) (t2 o) (t3 o) (finsts o) (quota o) (backing o) (imp_accum o) (last_consolidated_epoch o) (consol_cursor o) (t4 o) (led o) v (corp o).
Definition set_corp (o : MemSubstrate) (v : CorpusLog) : MemSubstrate :=
  mkSub (t0 o) (t1 o) (t2 o) (t3 o) (finsts o) (quota o) (backing o) (imp_accum o) (last_consolidated_epoch o) (consol_cursor o) (t4 o) (led o) (xp o) v.

Definition clock (o : MemSubstrate) : Z := Prov.clock (led o).
Definition set_clock (o : MemSubstrate) (c : Z) : MemSubstrate :=
  set_led o (Prov.Build_Organ (chain_head (led o)) (ledger_ids (led o)) c).
Definition tick (o : MemSubstrate) : MemSubstrate := set_clock o (wrapping_add 64 (clock o) 1).

Definition new (b : B) : MemSubstrate :=
  mkSub (zrepeat N_REG None) (mkGraph [] 0) (mkJournal [] 0) (mkSem [] [] 0 0)
    (mkFinsts (zrepeat F_FINST None) 0) (mkQuota 0 0) b 0 0 0 (mkProc [] 0 0)
    (Prov.Build_Organ (zrepeat PROV_HASH_LEN 0) [] 1) xp_new corpus_new.

Definition epoch (o : MemSubstrate) : Z := bs_epoch (backing o).

(** ** The ledger seam *)

Definition parent_of_head (o : MemSubstrate) : list (list Z) :=
  match last (ledger_ids (led o)) with Some id => [id] | None => [] end.

Definition ledger (o : MemSubstrate) (kind payload_tok tier writer_cap_id : Z) (parents : list (list Z))
  : res (MemSubstrate * option (list Z)) :=
  '(l, id) ← ledger_append (led o) kind payload_tok tier writer_cap_id parents;
  Val (set_led o l, id).

Definition xp_observe (o : MemSubstrate) (rec : ExperienceRecord) : res MemSubstrate :=
  '(x, _) ← xp_record (xp o) rec; Val (set_xp o x).

(** ** Writing *)

Definition push_record (o : MemSubstrate) (token value importance provenance : Z) (links : list (Z * Z))
  : res (MemSubstrate * option Z) :=
  let imp := clamp importance 1 10 in
  if TOKEN_QUOTA <? saturating_add 64 (tokens_written (quota o)) 1 then Val (o, None) else
  let id := next_id (t2 o) in
  let o := set_t2 o (mkJournal (log (t2 o) ++ [mkEp id token value (clock o) 0 0])
                       (wrapping_add 64 (next_id (t2 o)) 1)) in
  let ridx := wrap 32 (zlen (records (t3 o))) in
  let o := set_t3 o (mkSem (records (t3 o) ++ [mkRec id token imp 0 (zrepeat 10 0) 0 (clock o) 0 0 0 links TIER_HOT provenance])
                       (lex_push token ridx (lexical (t3 o)))
                       (saturating_add 32 (num_docs (t3 o)) 1) (saturating_add 64 (total_len (t3 o)) 1)) in
  let o := set_quota o (mkQuota (saturating_add 64 (tokens_written (quota o)) 1)
                          (saturating_add 32 (q_records (quota o)) 1)) in
  '(b, _) ← bs_append (backing o) Episodic (to_le 8 id);
  Val (tick (set_backing o b), Some id).

Definition add (o : MemSubstrate) (key value packed : Z) : res (MemSubstrate * option Z) :=
  let imp := clamp (Z.land packed 0xFF) 1 10 in
  let o := set_imp_accum o (saturating_add 32 (imp_accum o) imp) in
  push_record o key value imp 0 [].

(** The first element that satisfies [p] replaced, and what it was. *)
Fixpoint update_first {A} (p : A -> bool) (f : A -> A) (l : list A) : list A * option A :=
  match l with
  | [] => ([], None)
  | x :: l' => if p x then (f x :: l', Some x) else let '(l'', o) := update_first p f l' in (x :: l'', o)
  end.

Definition rec_invalidate (clk : Z) (r : MemRecord) : MemRecord :=
  mkRec (r_id r) (r_token r) (r_importance r) (r_count r) (r_last_ts r) (r_last_idx r) (r_t_created r) clk
    (r_c_succ r) (r_c_use r) (r_links r) (r_tier r) (r_provenance r).
Definition ep_invalidate (clk : Z) (e : Episode) : Episode :=
  mkEp (e_id e) (e_content_tok e) (e_value e) (e_t_created e) clk (e_producing_task e).

Definition set_records (o : MemSubstrate) (rs : list MemRecord) : MemSubstrate :=
  set_t3 o (mkSem rs (lexical (t3 o)) (num_docs (t3 o)) (total_len (t3 o))).
Definition set_log (o : MemSubstrate) (l : list Episode) : MemSubstrate :=
  set_t2 o (mkJournal l (next_id (t2 o))).

Definition delete (o : MemSubstrate) (key : Z) : MemSubstrate * option Z :=
  let '(rs, found) := update_first (fun r => (r_token r =? key) && (r_t_invalid r =? 0))
                        (rec_invalidate (clock o)) (reverse (records (t3 o))) in
  let o := set_records o (reverse rs) in
  let o := match found with
           | Some r => set_log o (map (fun e => if e_id e =? r_id r then ep_invalidate (clock o) e else e) (log (t2 o)))
           | None => o
           end in
  (tick o, option_map r_id found).

Definition write (o : MemSubstrate) (op key value packed : Z) : res (MemSubstrate * option Z) :=
  '(o, r) ← (if (op =? 0) || (op =? 1) then add o key value packed
             else if op =? 2 then Val (delete o key)
             else Val (o, Some 0));
  if op <=? 2 then
    match r with
    | Some rid =>
        '(o, _) ← ledger o kind_WRITE key (Z.land packed 0xFF) rid (parent_of_head o);
        Val (o, r)
    | None => Val (o, r)
    end
  else Val (o, r).

(** ** Reading *)

Definition read (o : MemSubstrate) (id : Z) : option Z :=
  option_map e_value (List.find (fun e => e_id e =? id) (log (t2 o))).

(** The observation of an access: quantised age and count, and what the dormant policy cell
    would have scored. *)
Definition touch_record (id age count : Z) : res ExperienceRecord :=
  let feats := [quantize_feature (to_signed 64 age); quantize_feature count; 0; 0] in
  shadow ← kan_score KAN_TABLE feats XP_SHADOW_FLAG_TERMS XP_SHADOW_BIAS;
  Val {| decision_id := id; xp_kind := RECALL_TOUCH; feats := feats; envelope_verdict := XP_ENV_TOUCH;
         action_taken := XP_ACTION_TOUCH; kan_score_shadow := shadow;
         logging_propensity_q := PROPENSITY_DETERMINISTIC_Q; logging_policy_kind := DETERMINISTIC;
         xp_outcome := Exp.Unset; margin_q := 0 |}.

Definition saturating_sub (a b : Z) : Z := Z.max 0 (a - b).

Definition read_touch (o : MemSubstrate) (id : Z) : res (MemSubstrate * option Z) :=
  match read o id with
  | None => Val (o, None)
  | Some v =>
      let '(touch_age, touch_count) :=
        match List.find (fun r => r_id r =? id) (records (t3 o)) with
        | Some r => (saturating_sub (clock o) (r_t_created r), r_count r)
        | None => (0, 0)
        end in
      touch ← touch_record id touch_age touch_count;
      o ← xp_observe o touch;
      Val (o, Some v)
  end.

(** ** Recall *)

(** Stage 1: the postings' live, hot records outside the recently-retrieved ring. *)
Definition candidates (o : MemSubstrate) (postings : list Z) : res (list Z) :=
  fold_res (fun cand ri =>
    r ← idx (records (t3 o)) ri;
    Val (if negb (r_t_invalid r =? 0) then cand
         else if negb (r_tier r =? TIER_HOT) then cand
         else if finsts_contains (finsts o) (r_id r) then cand
         else cand ++ [ri])) [] postings.

(** Stage 2: the three component vectors over the candidates. *)
Definition components (o : MemSubstrate) (idf : Z) (cand : list Z) : res (list Z * list Z * list Z) :=
  fold_res (fun '(bla, rel, imp) ci =>
    r ← idx (records (t3 o)) ci;
    age ← add_u 64 (saturating_sub (clock o) (r_t_created r)) 1;
    b ← bla_raw (r_count r) age;
    Val (bla ++ [b], rel ++ [idf], imp ++ [r_importance r])) ([], [], []) cand.

Definition best_of (bla rel imp : list Z) (n : Z) : res (Z * Z) :=
  for_up 0 n (fun k '(best_i, best_score) =>
    a ← minmax bla k; b ← minmax rel k; ab ← i64 (a + b); c ← minmax imp k; s ← i64 (ab + c);
    Val (if best_score <? s then (k, s) else (best_i, best_score))) (0, - 2 ^ 63).

Definition rec_touch (clk : Z) (r : MemRecord) : res MemRecord :=
  slot ← urem (r_last_idx r) 10;
  ts ← upd (r_last_ts r) slot clk;
  Val (mkRec (r_id r) (r_token r) (r_importance r) (saturating_add 32 (r_count r) 1) ts
         (wrapping_add usize_bits (r_last_idx r) 1) (r_t_created r) (r_t_invalid r) (r_c_succ r) (r_c_use r)
         (r_links r) (r_tier r) (r_provenance r)).

Definition recall (o : MemSubstrate) (query cursor : Z) : res (MemSubstrate * option Z) :=
  let o := if cursor =? 0 then set_finsts o finsts_clear else o in
  match lex_get query (lexical (t3 o)) with
  | None => Val (o, None)
  | Some postings =>
      cand ← candidates o postings;
      if zlen cand =? 0 then Val (o, None) else
      let n_docs := Z.max (num_docs (t3 o)) 1 in
      let df := zlen postings in
      idf ← bm25_idf df n_docs;
      '(bla, rel, imp) ← components o idf cand;
      '(best_i, _) ← best_of bla rel imp (zlen cand);
      widx ← idx cand best_i;
      w ← idx (records (t3 o)) widx;
      let wid := r_id w in
      w' ← rec_touch (clock o) w;
      rs ← upd (records (t3 o)) widx w';
      let o := set_records o rs in
      regs ← upd (t0 o) 1 (Some (mkReg query 1 wid));
      f ← finsts_push (finsts o) wid (clock o);
      let o := set_finsts (set_t0 o regs) f in
      r ← idx (records (t3 o)) widx;
      touch ← touch_record wid (saturating_sub (clock o) (r_t_created r)) (r_count r);
      o ← xp_observe o touch;
      Val (tick o, Some wid)
  end.
End organ.
Arguments MemSubstrate B : clear implicits.

(** Two memories of one token: the more important one is recalled first, then the other. *)
Definition demo_recall : res (option Z * option Z * option Z * option Z) :=
  let o := new Ram.default in
  '(o, _) ← write o 0 77 100 3; '(o, _) ← write o 0 77 200 9;
  '(o, a) ← recall o 77 0; '(o, b) ← recall o 77 1; '(o, c) ← recall o 77 1;
  Val (a, b, c, read o 0).
Example demo_recall_runs : demo_recall = Val (Some 1, Some 0, None, Some 100).
Proof. vm_compute. reflexivity. Qed.

(** ** Specification: the index of a sequence of tokens *)

(** Where token [k] occurs, counting from [i]. *)
Fixpoint positions_from (i k : Z) (toks : list Z) : list Z :=
  match toks with
  | [] => []
  | t :: ts => if t =? k then i :: positions_from (i + 1) k ts else positions_from (i + 1) k ts
  end.
Definition positions : Z -> list Z -> list Z := positions_from 0.

(** The postings that indexing the tokens one by one builds. *)
Definition index_of (toks : list Z) : Lexical :=
  fst (fold_left (fun '(m, i) t => (lex_push t i m, i + 1)) toks ([], 0)).

Lemma positions_from_snoc i k ts t : positions_from i k (ts ++ [t]) =
  positions_from i k ts ++ (if t =? k then [i + zlen ts] else []).
Proof.
  revert i. induction ts as [|x ts IH]; intros i; cbn [positions_from app].
  - change (zlen []) with 0. rewrite Z.add_0_r. by destruct (t =? k).
  - rewrite IH, zlen_cons. replace (i + 1 + zlen ts) with (i + (1 + zlen ts)) by lia. by destruct (x =? k).
Qed.

Lemma positions_from_elem i k ts j : j ∈ positions_from i k ts <-> i <= j /\ ts !! Z.to_nat (j - i) = Some k.
Proof.
  revert i. induction ts as [|x ts IH]; intros i; cbn [positions_from].
  - rewrite lookup_nil. set_solver.
  - assert (i <= j /\ (x :: ts) !! Z.to_nat (j - i) = Some k <->
      (j = i /\ x = k) \/ (i + 1 <= j /\ ts !! Z.to_nat (j - (i + 1)) = Some k)) as ->.
    { destruct (decide (j = i)) as [->|Hne].
      - rewrite Z.sub_diag. cbn. split; [intros [_ [= ->]]; by left | intros [[_ ->]|[? _]]; [by split | lia]].
      - split.
        + intros [Hle Hl]. right. split; [lia|]. replace (Z.to_nat (j - i)) with (Datatypes.S (Z.to_nat (j - (i + 1)))) in Hl by lia. exact Hl.
        + intros [[? _]|[Hle Hl]]; [lia|]. split; [lia|]. replace (Z.to_nat (j - i)) with (Datatypes.S (Z.to_nat (j - (i + 1)))) by lia. exact Hl. }
    destruct (Z.eqb_spec x k) as [->|Hne]; cbv iota; rewrite ?elem_of_cons, IH; intuition congruence.
Qed.

Lemma positions_elem k ts j : j ∈ positions k ts <-> 0 <= j /\ ts !! Z.to_nat j = Some k.
Proof. unfold positions. by rewrite positions_from_elem, Z.sub_0_r. Qed.

Lemma positions_from_sorted i k ts : StronglySorted Z.lt (positions_from i k ts).
Proof.
  revert i. induction ts as [|x ts IH]; intros i; cbn [positions_from]; [constructor|].
  destruct (x =? k); [|apply IH]. constructor; [apply IH|]. apply Forall_forall. intros j Hj.
  apply positions_from_elem in Hj. lia.
Qed.

Lemma index_of_snoc ts t : index_of (ts ++ [t]) = lex_push t (zlen ts) (index_of ts).
Proof.
  unfold index_of. rewrite fold_left_app. cbn [fold_left].
  assert (forall l m i, snd (fold_left (fun '(m, i) t => (lex_push t i m, i + 1)) l (m, i)) = i + zlen l) as Hi.
  { intros l. induction l as [|x l IH]; intros m i; cbn [fold_left snd]; [change (zlen []) with 0; lia|].
    rewrite IH, zlen_cons. lia. }
  specialize (Hi ts [] 0). destruct (fold_left _ ts ([], 0)) as [m i]. cbn [fst snd] in *. by rewrite Hi.
Qed.

(** The keys of a map in ascending order. *)
Abbreviation lex_sorted := (fun m : Lexical => StronglySorted Z.lt (map fst m)).

Lemma lex_push_sorted k v m : lex_sorted m -> lex_sorted (lex_push k v m) /\
  (forall y, y ∈ map fst (lex_push k v m) -> y = k \/ y ∈ map fst m).
Proof.
  induction m as [|[k' vs] m IH]; cbn [lex_push map fst]; intros Hs.
  - split; [repeat constructor | set_solver].
  - apply StronglySorted_inv in Hs as [Hs Hf]. destruct (Z.ltb_spec k k') as [Hlt|Hge]; cbn [map fst].
    + split; [|set_solver]. constructor; [by constructor|]. constructor; [done|].
      eapply Forall_impl; [exact Hf|]. cbn. lia.
    + destruct (Z.eqb_spec k k') as [->|Hne]; cbn [map fst]; [split; [by constructor | set_solver]|].
      destruct (IH Hs) as [IH1 IH2]. split; [|set_solver]. constructor; [done|]. apply Forall_forall.
      intros y Hy. apply IH2 in Hy as [->|Hy]; [lia|]. rewrite Forall_forall in Hf. by apply Hf.
Qed.

Lemma lex_get_absent k m : k ∉ map fst m -> lex_get k m = None.
Proof.
  induction m as [|[k' vs] m IH]; cbn [lex_get map fst]; [done|]. intros Hk.
  rewrite (proj2 (Z.eqb_neq k k')) by set_solver. apply IH. set_solver.
Qed.

Lemma lex_get_push q k v m : lex_sorted m ->
  lex_get q (lex_push k v m) = if q =? k then Some (default [] (lex_get k m) ++ [v]) else lex_get q m.
Proof.
  induction m as [|[k' vs] m IH]; cbn [lex_push map fst]; intros Hs; cbn [lex_get].
  { by destruct (q =? k). }
  apply StronglySorted_inv in Hs as [Hs Hf]. rewrite Forall_forall in Hf.
  destruct (Z.ltb_spec k k') as [Hlt|Hge]; cbn [lex_get].
  - destruct (Z.eqb_spec q k) as [->|]; [|done]. rewrite (proj2 (Z.eqb_neq k k')) by lia.
    rewrite lex_get_absent; [done|]. intros Hk%Hf. lia.
  - destruct (Z.eqb_spec k k') as [->|Hne]; cbn [lex_get].
    + by destruct (Z.eqb_spec q k').
    + destruct (Z.eqb_spec q k') as [->|Hqk]; [by rewrite (proj2 (Z.eqb_neq k' k)) by done | by apply IH].
Qed.

Lemma index_of_sorted ts : lex_sorted (index_of ts).
Proof.
  induction ts as [|t ts IH] using rev_ind; [constructor|]. rewrite index_of_snoc. by apply lex_push_sorted.
Qed.

(** The index is exact: a token's postings are its positions, and an absent token has none. *)
Lemma index_of_get k ts : lex_get k (index_of ts) =
  match positions k ts with [] => None | p :: ps => Some (p :: ps) end.
Proof.
  induction ts as [|t ts IH] using rev_ind; [done|].
  rewrite index_of_snoc, lex_get_push by apply index_of_sorted. unfold positions in *.
  rewrite positions_from_snoc, Z.add_0_l, Z.eqb_sym. destruct (Z.eqb_spec t k) as [->|Hne].
  - rewrite IH. by destruct (positions_from 0 k ts).
  - by rewrite app_nil_r.
Qed.

Lemma lex_get_values vs m : vs ∈ lex_values m -> lex_sorted m -> exists k, lex_get k m = Some vs.
Proof.
  induction m as [|[k' vs'] m IH]; cbn [lex_values map fst snd]; [set_solver|]. intros [->|Hin]%elem_of_cons Hs.
  - exists k'. cbn. by rewrite Z.eqb_refl.
  - apply StronglySorted_inv in Hs as [Hs Hf]. destruct (IH Hin Hs) as [k Hk]. exists k. cbn.
    destruct (Z.eqb_spec k k') as [->|]; [|done]. rewrite Forall_forall in Hf.
    assert (k' ∈ map fst m) as Hk'; [|apply Hf in Hk'; lia].
    destruct (decide (k' ∈ map fst m)) as [|Hno]; [done|]. by rewrite lex_get_absent in Hk.
Qed.

Lemma index_values vs ts : vs ∈ lex_values (index_of ts) -> exists k, vs = positions k ts /\ vs <> [].
Proof.
  intros Hv. destruct (lex_get_values _ _ Hv (index_of_sorted ts)) as [k Hk]. exists k.
  rewrite index_of_get in Hk. destruct (positions k ts); [done|]. by injection Hk as <-.
Qed.

Lemma index_values_eq ts : lex_values (index_of ts) = map (fun k => positions k ts) (map fst (index_of ts)).
Proof.
  pose proof (index_of_sorted ts) as Hs. assert (forall k, lex_get k (index_of ts) = Some (positions k ts) \/ k ∉ map fst (index_of ts)) as Hg.
  { intros k. pose proof (index_of_get k ts) as Hk. destruct (positions k ts) eqn:E; [|left; by rewrite Hk].
    right. intros Hin. clear Hs E. revert Hk Hin. generalize (index_of ts) as m. intros m.
    induction m as [|[k' vs] m IH]; cbn [lex_get map fst]; [set_solver|]. destruct (Z.eqb_spec k k'); [done|]. set_solver. }
  revert Hs Hg. generalize (index_of ts) as m. intros m. induction m as [|[k vs] m IH]; [done|].
  cbn [map fst lex_values snd]. intros Hs Hg. f_equal.
  - destruct (Hg k) as [Hk|Hk]; [|set_solver]. cbn in Hk. rewrite Z.eqb_refl in Hk. by injection Hk.
  - apply StronglySorted_inv in Hs as [Hs Hf]. apply (IH Hs). intros j. rewrite Forall_forall in Hf.
    destruct (decide (j ∈ map fst m)) as [Hj|Hj]; [left | by right]. destruct (Hg j) as [Hk|Hk]; [|set_solver].
    cbn in Hk. rewrite (proj2 (Z.eqb_neq j k)) in Hk by (apply Hf in Hj; lia). done.
Qed.

Lemma index_keys ts : NoDup (map fst (index_of ts)) /\ forall k, k ∈ ts -> k ∈ map fst (index_of ts).
Proof.
  split.
  - pose proof (index_of_sorted ts) as Hs. induction Hs as [|k l _ IH Hf]; constructor; [|done].
    rewrite Forall_forall in Hf. intros Hk%Hf. lia.
  - intros k [i Hi]%list_elem_of_lookup_1. destruct (decide (k ∈ map fst (index_of ts))) as [|Hno]; [done|].
    apply lex_get_absent in Hno. rewrite index_of_get in Hno.
    assert (Z.of_nat i ∈ positions k ts) as Hin by (apply positions_elem; split; [lia | by rewrite Nat2Z.id]).
    destruct (positions k ts); [set_solver | done].
Qed.
