(* ===== verification/OrganSpec.v ===== *)
(** * What the memory organ promises: invariant, and the specification of write, read and
    recall.

    [organ_inv o L X K]: the organ is well formed and its three logs hold the provenance
    entries [L], the observations [X] and the corpus records [K].  Every operation is
    specified by what it does to the tiers and by what it appends to the three logs. *)
From Stdlib Require Import ZArith Lia Sorting.Sorted.
From stdpp Require Import base numbers option tactics sets list.
From S2P Require Import Prelude Engine Prov Corpus Memscore Exp OrganLogs Organ.
Open Scope Z_scope.

(** The age of a memory is within the scores' range while the clock is below this. *)
Definition CLOCK_MAX : Z := 2 ^ 53 - 2.

(** ** Specification *)

Record rec_ok (clk : Z) (r : MemRecord) : Prop := {
  rk_token : is_u64 (r_token r);
  rk_imp : 1 <= r_importance r <= 10;
  rk_count : is_u32 (r_count r);
  rk_ts : zlen (r_last_ts r) = 10;
  rk_idx : 0 <= r_last_idx r;
  rk_created : 0 <= r_t_created r < clk;
  (** nothing ever bumps a memory's utility counters *)
  rk_util : r_c_succ r = 0 /\ r_c_use r = 0;
}.

Record ep_ok (clk : Z) (e : Episode) : Prop := {
  ek_token : is_u64 (e_content_tok e);
  ek_value : is_u64 (e_value e);
  ek_created : 0 <= e_t_created e < clk;
}.

Definition same_memory (e : Episode) (r : MemRecord) : Prop :=
  e_id e = r_id r /\ e_content_tok e = r_token r /\ e_t_created e = r_t_created r.

(** Journal and semantic store in lockstep. *)
Record store_ok (clk : Z) (j : EpisodicJournal) (s : SemanticStore) : Prop := {
  st_eps : Forall (ep_ok clk) (log j);
  st_recs : Forall (rec_ok clk) (records s);
  st_join : Forall2 same_memory (log j) (records s);
  st_ids : map e_id (log j) = seqZ 0 (zlen (log j));
  st_next : next_id j = zlen (log j);
  st_lex : lexical s = index_of (map r_token (records s));
  st_docs : num_docs s = zlen (log j);
  st_total : total_len s = zlen (log j);
  st_cap : zlen (log j) <= TOKEN_QUOTA;
}.

Record skill_ok (s : SkillRecord) : Prop := {
  sk_body : is_u64 (body_tok s);
  sk_succ : is_u32 (s_c_succ s);
  sk_use : is_u32 (s_c_use s);
  sk_wins : s_c_succ s <= s_c_use s;
  sk_util : is_u32 (util s);
  sk_tier : s_tier s = 0 \/ s_tier s = 1;
}.

Record skills_ok (p : ProceduralStore) : Prop := {
  sk_all : Forall skill_ok (skills p);
  sk_ids : map s_id (skills p) = seqZ 0 (zlen (skills p));
  sk_next : s_next_id p = zlen (skills p);
  sk_best : is_u32 (best_score p);
}.

Section organ_spec.
Context {B : Type} `{BackingTotal B}.

Record organ_inv (o : MemSubstrate B) (L : list ProvEntry) (X : list ExperienceRecord) (K : list CorpusRecord) : Prop := {
  inv_ledger : chain_log (H := ProvEntry_canon) (chain_head (led o)) (ledger_ids (led o)) L;
  inv_clock : 1 <= clock o;
  inv_xp : xp_log (xp o) X;
  inv_corpus : corpus_log (corp o) K;
  inv_store : store_ok (clock o) (t2 o) (t3 o);
  inv_quota : tokens_written (quota o) = zlen (log (t2 o)) + zlen (skills (t4 o)) /\
              q_records (quota o) = zlen (log (t2 o)) /\ tokens_written (quota o) <= TOKEN_QUOTA;
  inv_regs : zlen (t0 o) = N_REG;
  inv_finsts : zlen (ring (finsts o)) = F_FINST /\ 0 <= f_head (finsts o);
  inv_backing : bs_ok (backing o);
  inv_imp : is_u32 (imp_accum o);
  inv_cursor : is_u64 (consol_cursor o);
  inv_skills : skills_ok (t4 o);
}.

(** The journal only grows: entries are never lost and change in their tombstone alone. *)
Definition ep_kept (e e' : Episode) : Prop :=
  e_id e' = e_id e /\ e_content_tok e' = e_content_tok e /\ e_value e' = e_value e /\
  e_t_created e' = e_t_created e /\ e_producing_task e' = e_producing_task e.
Definition journal_grows (l l' : list Episode) : Prop :=
  exists l1 l2, l' = l1 ++ l2 /\ Forall2 ep_kept l l1.

(** A semantic record keeps what indexes it. *)
Definition rec_kept (clk : Z) (r r' : MemRecord) : Prop :=
  r_id r' = r_id r /\ r_token r' = r_token r /\ r_t_created r' = r_t_created r /\ rec_ok clk r'.

(** No skill is promoted. *)
Definition no_promotion (p p' : ProceduralStore) : Prop :=
  best_score p' = best_score p /\
  forall i s', skills p' !! i = Some s' -> s_tier s' = SKILL_ADMITTED -> exists s, skills p !! i = Some s /\ s_tier s = SKILL_ADMITTED.

(** One call: the invariant holds again, no skill is promoted, the logs are extended, the journal only grows, and
    the clock advances by at most [n]. *)
Record advances (n : Z) (o : MemSubstrate B) (L : list ProvEntry) (X : list ExperienceRecord) (K : list CorpusRecord)
    (o' : MemSubstrate B) (L' : list ProvEntry) (X' : list ExperienceRecord) (K' : list CorpusRecord) : Prop := {
  adv_inv : organ_inv o' (L ++ L') (X ++ X') (K ++ K');
  adv_skills : no_promotion (t4 o) (t4 o');
  adv_journal : journal_grows (log (t2 o)) (log (t2 o'));
  adv_clock : clock o <= clock o' <= clock o + n;
}.

(** ** Lemmas: the orders *)

Lemma ep_kept_refl l : Forall2 ep_kept l l.
Proof. induction l; constructor; [by unfold ep_kept | done]. Qed.

Lemma ep_kept_trans l1 l2 l3 : Forall2 ep_kept l1 l2 -> Forall2 ep_kept l2 l3 -> Forall2 ep_kept l1 l3.
Proof.
  intros H1. revert l3. induction H1 as [|x y l1 l2 Hxy H1 IH]; intros l3 H3; inversion H3; subst; constructor; [|by apply IH].
  unfold ep_kept in *. intuition congruence.
Qed.

Lemma journal_grows_kept l l' : Forall2 ep_kept l l' -> journal_grows l l'.
Proof. intros Hk. exists l', []. by rewrite app_nil_r. Qed.
Lemma journal_grows_refl l : journal_grows l l.
Proof. apply journal_grows_kept, ep_kept_refl. Qed.
Lemma journal_grows_snoc l e : journal_grows l (l ++ [e]).
Proof. exists l, [e]. split; [done | apply ep_kept_refl]. Qed.
Lemma journal_grows_trans l1 l2 l3 : journal_grows l1 l2 -> journal_grows l2 l3 -> journal_grows l1 l3.
Proof.
  intros (a & b & -> & Ha) (c & d & -> & Hc). apply Forall2_app_inv_l in Hc as (c1 & c2 & Hc1 & Hc2 & ->).
  exists c1, (c2 ++ d). split; [by rewrite app_assoc | by eapply ep_kept_trans].
Qed.

Lemma journal_grows_lookup l l' i e : journal_grows l l' -> l !! i = Some e ->
  exists e', l' !! i = Some e' /\ ep_kept e e'.
Proof.
  intros (a & b & -> & Ha) Hi. destruct (Forall2_lookup_l _ _ _ _ _ Ha Hi) as (e' & He' & Hk).
  exists e'. split; [by apply lookup_app_l_Some | done].
Qed.

Lemma no_promotion_refl p : no_promotion p p.
Proof. split; [done|]. intros i s Hi Ht. by exists s. Qed.
Lemma no_promotion_trans p q r : no_promotion p q -> no_promotion q r -> no_promotion p r.
Proof.
  intros [B1 P1] [B2 P2]. split; [congruence|]. intros i s Hi Ht. destruct (P2 i s Hi Ht) as (s1 & H1 & T1). by apply (P1 i s1).
Qed.

Lemma advances_inv n o L X K o' L' X' K' : advances n o L X K o' L' X' K' -> organ_inv o' (L ++ L') (X ++ X') (K ++ K').
Proof. apply adv_inv. Qed.

Lemma advances_refl o L X K : organ_inv o L X K -> advances 0 o L X K o [] [] [].
Proof. intros Ho. constructor; [by rewrite !app_nil_r | apply no_promotion_refl | apply journal_grows_refl | lia]. Qed.

Lemma advances_trans n m o L X K o1 L1 X1 K1 o2 L2 X2 K2 :
  advances n o L X K o1 L1 X1 K1 -> advances m o1 (L ++ L1) (X ++ X1) (K ++ K1) o2 L2 X2 K2 ->
  advances (n + m) o L X K o2 (L1 ++ L2) (X1 ++ X2) (K1 ++ K2).
Proof.
  intros [H1 P1 J1 C1] [H2 P2 J2 C2]. constructor; [by rewrite !app_assoc | by eapply no_promotion_trans | by eapply journal_grows_trans | lia].
Qed.

Lemma advances_weaken n m o L X K o' L' X' K' : n <= m -> advances n o L X K o' L' X' K' -> advances m o L X K o' L' X' K'.
Proof. intros Hn [H1 P1 J1 C1]. constructor; [done | done | done | lia]. Qed.

(** ** Lemmas: the store *)

Lemma rec_ok_mono c c' r : c <= c' -> rec_ok c r -> rec_ok c' r.
Proof. intros Hc []. constructor; try done. lia. Qed.
Lemma ep_ok_mono c c' e : c <= c' -> ep_ok c e -> ep_ok c' e.
Proof. intros Hc []. constructor; try done. lia. Qed.

Lemma store_ok_mono c c' j s : c <= c' -> store_ok c j s -> store_ok c' j s.
Proof.
  intros Hc []. constructor; try done.
  - eapply Forall_impl; [done|]. intros. by eapply ep_ok_mono.
  - eapply Forall_impl; [done|]. intros. by eapply rec_ok_mono.
Qed.

Lemma store_ids c j s : store_ok c j s -> map r_id (records s) = seqZ 0 (zlen (log j)).
Proof.
  intros Hs. rewrite <- (st_ids _ _ _ Hs). pose proof (st_join _ _ _ Hs) as Hj. clear Hs.
  induction Hj as [|e r l rs (Hid & _) _ IH]; cbn [map]; [done|]. by rewrite Hid, IH.
Qed.

Lemma store_len c j s : store_ok c j s -> zlen (records s) = zlen (log j).
Proof. intros Hs. unfold zlen. by rewrite (Forall2_length _ _ _ (st_join _ _ _ Hs)). Qed.

Lemma ids_lookup {A} (f : A -> Z) l n i x : map f l = seqZ 0 n -> l !! i = Some x -> f x = Z.of_nat i.
Proof.
  intros Hm Hi. assert (map f l !! i = Some (f x)) as Hl by (by rewrite list_lookup_fmap, Hi).
  rewrite Hm in Hl. apply lookup_seqZ in Hl. lia.
Qed.

Lemma store_rec_id c j s i r : store_ok c j s -> records s !! i = Some r -> r_id r = Z.of_nat i.
Proof. intros Hs. eapply ids_lookup. by eapply store_ids. Qed.

(** Records changed in place. *)
Lemma store_ok_records c j s rs : store_ok c j s -> Forall2 (rec_kept c) (records s) rs ->
  store_ok c j (mkSem rs (lexical s) (num_docs s) (total_len s)).
Proof.
  intros Hs Hk. constructor; cbn [records lexical num_docs total_len]; try apply Hs.
  - clear Hs. induction Hk as [|r r' l rs (_ & _ & _ & Hok) _ IH]; by constructor.
  - pose proof (st_join _ _ _ Hs) as Hj. clear Hs. revert Hj. generalize (log j).
    induction Hk as [|r r' rl rl' (Hi & Ht & Hc & _) _ IH]; intros l0 Hj; inversion Hj; subst; constructor; [|by apply IH].
    unfold same_memory in *. intuition congruence.
  - rewrite (st_lex _ _ _ Hs). f_equal. clear Hs. induction Hk as [|r r' l rs (_ & Ht & _) _ IH]; cbn [map]; [done|].
    by rewrite Ht, IH.
Qed.

(** Tombstones in the journal. *)
Lemma store_ok_log c j s l : store_ok c j s -> Forall2 ep_kept (log j) l -> store_ok c (mkJournal l (next_id j)) s.
Proof.
  intros Hs Hk. assert (zlen l = zlen (log j)) as Hl by (unfold zlen; by rewrite (Forall2_length _ _ _ Hk)).
  assert (map e_id l = map e_id (log j)) as Hm.
  { clear Hs Hl. induction Hk as [|e e' l0 l (Hid & _) _ IH]; cbn [map]; [done|]. by rewrite Hid, IH. }
  constructor; cbn [log next_id]; rewrite ?Hl, ?Hm; try apply Hs.
  - pose proof (st_eps _ _ _ Hs) as He. clear - Hk He. induction Hk as [|e e' l0 l (_ & Ht & Hv & Hc & _) _ IH]; [constructor|].
    apply Forall_cons in He as [[H1 H2 H3] He]. constructor; [|by apply IH]. constructor; by rewrite ?Ht, ?Hv, ?Hc.
  - pose proof (st_join _ _ _ Hs) as Hj. clear - Hk Hj. revert Hj. generalize (records s). induction Hk as [|e e' l0 l He _ IH];
      intros rs Hj; inversion Hj; subst; constructor; [|by apply IH]. unfold same_memory, ep_kept in *. intuition congruence.
Qed.

(** ** Appending a memory *)

(** The organ after a memory has been appended. *)
Definition pushed (o : MemSubstrate B) (token value imp provenance : Z) (links : list (Z * Z)) (b : B) : MemSubstrate B :=
  let n := zlen (log (t2 o)) in
  set_clock
    (set_backing
      (set_quota
        (set_t3 (set_t2 o (mkJournal (log (t2 o) ++ [mkEp n token value (clock o) 0 0]) (n + 1)))
           (mkSem (records (t3 o) ++ [mkRec n token imp 0 (zrepeat 10 0) 0 (clock o) 0 0 0 links TIER_HOT provenance])
              (lex_push token n (lexical (t3 o))) (n + 1) (n + 1)))
        (mkQuota (tokens_written (quota o) + 1) (n + 1)))
      b) (clock o + 1).

Lemma tick_eq (o : MemSubstrate B) : 0 <= clock o < CLOCK_MAX -> tick o = set_clock o (clock o + 1).
Proof. intros Hc. unfold tick, wrapping_add, CLOCK_MAX in *. by rewrite wrap_small by (unfold in_u; lia). Qed.

Lemma clamp_range v : 1 <= clamp v 1 10 <= 10.
Proof. rewrite clamp_spec by lia. lia. Qed.

Lemma push_record_eq o L X K token value imp prov links :
  organ_inv o L X K -> clock o < CLOCK_MAX -> tokens_written (quota o) < TOKEN_QUOTA ->
  exists b, bs_ok b /\ push_record o token value imp prov links =
    Val (pushed o token value (clamp imp 1 10) prov links b, Some (zlen (log (t2 o)))).
Proof.
  intros Ho Hc Hq. pose proof (inv_store _ _ _ _ Ho) as Hs. pose proof (inv_quota _ _ _ _ Ho) as (Hq1 & Hq2 & _).
  pose proof (inv_clock _ _ _ _ Ho). pose proof (zlen_nonneg (log (t2 o))). pose proof (zlen_nonneg (skills (t4 o))).
  unfold push_record, TOKEN_QUOTA in *.
  assert (forall a, 0 <= a <= 2 ^ 20 -> saturating_add 64 a 1 = a + 1) as Hsat64 by (intros; unfold saturating_add, u_max; lia).
  assert (forall a, 0 <= a <= 2 ^ 20 -> saturating_add 32 a 1 = a + 1) as Hsat32 by (intros; unfold saturating_add, u_max; lia).
  rewrite Hsat64 by lia. rewrite (proj2 (Z.ltb_ge _ _)) by lia. cbv zeta.
  destruct (bs_append_total (backing o) Episodic (to_le 8 (next_id (t2 o))) (inv_backing _ _ _ _ Ho)) as ([b x] & Eb & Hb).
  cbn [backing set_quota set_t3 set_t2]. rewrite Eb, bind_val. exists b. split; [done|].
  rewrite tick_eq by (change (0 <= clock o < CLOCK_MAX); lia).
  cbn [t2 t3 quota log next_id num_docs total_len tokens_written q_records set_t2 set_t3 set_quota].
  rewrite (st_next _ _ _ Hs), (st_docs _ _ _ Hs), (st_total _ _ _ Hs), (store_len _ _ _ Hs), Hq2.
  rewrite Hsat64, !Hsat32, Hsat64 by lia. unfold wrapping_add. rewrite !wrap_small by (unfold in_u; lia). done.
Qed.

Lemma push_record_full o token value imp prov links : tokens_written (quota o) = TOKEN_QUOTA ->
  push_record o token value imp prov links = Val (o, None).
Proof. intros Hq. unfold push_record. by rewrite Hq. Qed.

Lemma pushed_inv o L X K token value imp prov links b :
  organ_inv o L X K -> tokens_written (quota o) < TOKEN_QUOTA -> bs_ok b ->
  is_u64 token -> is_u64 value -> 1 <= imp <= 10 -> organ_inv (pushed o token value imp prov links b) L X K.
Proof.
  intros Ho Hq Hb Ht Hv Hi. pose proof (inv_store _ _ _ _ Ho) as Hs. pose proof (inv_quota _ _ _ _ Ho) as (Hq1 & Hq2 & _).
  pose proof (inv_clock _ _ _ _ Ho) as Hc. pose proof (store_len _ _ _ Hs) as Hl. pose proof (zlen_nonneg (log (t2 o))).
  pose proof (zlen_nonneg (skills (t4 o))).
  destruct (store_ok_mono (clock o) (clock o + 1) _ _ ltac:(lia) Hs) as [S1 S2 S3 S4 S5 S6 S7 S8 S9].
  constructor; try apply Ho; unfold pushed; cbv zeta.
  - change (1 <= clock o + 1). lia.
  - change (store_ok (clock o + 1) (mkJournal (log (t2 o) ++ [mkEp (zlen (log (t2 o))) token value (clock o) 0 0]) (zlen (log (t2 o)) + 1))
      (mkSem (records (t3 o) ++ [mkRec (zlen (log (t2 o))) token imp 0 (zrepeat 10 0) 0 (clock o) 0 0 0 links TIER_HOT prov])
         (lex_push token (zlen (log (t2 o))) (lexical (t3 o))) (zlen (log (t2 o)) + 1) (zlen (log (t2 o)) + 1))).
    constructor; cbn [log next_id records lexical num_docs total_len].
    + apply Forall_app_2; [done|]. apply Forall_singleton. constructor; cbn; [done | done | lia].
    + apply Forall_app_2; [done|]. apply Forall_singleton. constructor; cbn; try done; unfold in_u; lia.
    + apply Forall2_app; [done|]. by repeat constructor.
    + rewrite map_app, S4, (zlen_app (log (t2 o))). change (zlen [_]) with 1. rewrite (seqZ_app 0 (zlen (log (t2 o))) 1) by lia. done.
    + by rewrite zlen_app, zlen_cons, zlen_nil.
    + rewrite map_app. cbn [map r_token]. rewrite index_of_snoc, <- S6. f_equal. unfold zlen in *. by rewrite length_map.
    + by rewrite zlen_app, zlen_cons, zlen_nil.
    + by rewrite zlen_app, zlen_cons, zlen_nil.
    + rewrite zlen_app, zlen_cons, zlen_nil. unfold TOKEN_QUOTA in *. lia.
  - cbn [quota tokens_written q_records t2 log t4 set_clock set_led set_backing set_quota set_t3 set_t2].
    rewrite zlen_app, zlen_cons, zlen_nil. unfold TOKEN_QUOTA in *. lia.
  - done.
Qed.

(** ** The ledger seam and the observations *)

Definition ledger_entry (o : MemSubstrate B) (kind tok tier cap : Z) : ProvEntry :=
  Build_ProvEntry kind tok tier cap (clock o) (parent_of_head o).

Lemma parent_of_head_digests o L X K : organ_inv o L X K ->
  Forall is_digest (parent_of_head o) /\ zlen (parent_of_head o) <= 1.
Proof.
  intros Ho. pose proof (log_digests _ _ _ (inv_ledger _ _ _ _ Ho)) as Hd. unfold parent_of_head.
  destruct (last (ledger_ids (led o))) as [id|] eqn:El; [|split; [constructor | done]].
  split; [|done]. apply Forall_singleton. rewrite Forall_forall in Hd. apply Hd. apply last_Some in El as [l ->].
  set_solver.
Qed.

Lemma ledger_ok o L X K kind tok tier cap :
  organ_inv o L X K -> clock o < CLOCK_MAX -> is_u8 kind -> is_u8 tier -> is_u64 tok -> is_u64 cap ->
  exists l id, ledger o kind tok tier cap (parent_of_head o) = Val (set_led o l, Some id) /\ Prov.clock l = clock o /\
    organ_inv (set_led o l) (L ++ [ledger_entry o kind tok tier cap]) X K.
Proof.
  intros Ho Hc Hk Ht Htok Hcap. destruct (parent_of_head_digests _ _ _ _ Ho) as [Hd Hn].
  pose proof (inv_ledger _ _ _ _ Ho) as HL. pose proof (inv_clock _ _ _ _ Ho).
  assert (entry_ok (ledger_entry o kind tok tier cap)) as He.
  { constructor; try done; cbn [Prov.t_created parent_ids ledger_entry]; [unfold in_u, CLOCK_MAX in *; lia | lia]. }
  assert (organ_ok (led o)) as Hok.
  { constructor; [unfold in_u, CLOCK_MAX, clock in *; lia | exact (log_digests _ _ _ HL) | apply HL]. }
  destruct (ledger_append_eq (led o) kind tok tier cap (parent_of_head o) Hok He) as [Hfit _].
  destruct Hfit as (h & id & _ & _ & Eid & Eh & E).
  { change (Build_ProvEntry kind tok tier cap (Prov.clock (led o)) (parent_of_head o)) with (ledger_entry o kind tok tier cap).
    rewrite entry_bytes_length by done. unfold PROV_SCRATCH. cbn [parent_ids ledger_entry]. lia. }
  destruct (chain_log_snoc _ _ _ (ledger_entry o kind tok tier cap) HL He) as (h' & id' & _ & _ & Eid' & Eh' & HL').
  cbn [canon_bytes ProvEntry_canon] in Eid'. change (Prov.clock (led o)) with (clock o) in *.
  unfold ledger_entry in Eid'. rewrite Eid in Eid'. injection Eid' as <-. rewrite Eh in Eh'. injection Eh' as <-.
  exists (Prov.Build_Organ h (ledger_ids (led o) ++ [id]) (clock o)), id. unfold ledger. rewrite E, bind_val.
  split; [done|]. split; [done|]. constructor; try apply Ho. done.
Qed.

Lemma quantize_range v : 0 <= quantize_feature v <= 1024.
Proof.
  unfold quantize_feature. cbv zeta. change (saturate_i 64 (GRID_LO + saturate_i 64 (Z.shiftl 1 GRID_STEP_LOG2 * (9 - 1)))) with 1024.
  unfold GRID_LO. destruct (Z.ltb_spec v 0); [lia|]. destruct (Z.ltb_spec 1024 v); lia.
Qed.

(** The shadow score of two quantised features. *)
Lemma shadow_eq a b : kan_score KAN_TABLE [quantize_feature a; quantize_feature b; 0; 0] XP_SHADOW_FLAG_TERMS XP_SHADOW_BIAS =
    Val (kan_q KAN_TABLE [quantize_feature a; quantize_feature b; 0; 0] 0 0) /\
  in_i 64 (kan_q KAN_TABLE [quantize_feature a; quantize_feature b; 0; 0] 0 0).
Proof.
  split; [apply kan_score_eq; [apply KAN_TABLE_ok | done | unfold in_i; cbn; lia | unfold in_i; cbn; lia]|].
  unfold kan_q, in_i. rewrite clamp_spec by lia. lia.
Qed.

Lemma feats_ok a b : zlen [quantize_feature a; quantize_feature b; 0; 0] = KAN_FEATURES /\
  Forall (in_i 32) [quantize_feature a; quantize_feature b; 0; 0].
Proof.
  split; [done|]. pose proof (quantize_range a). pose proof (quantize_range b).
  repeat apply Forall_cons_2; try apply Forall_nil_2; unfold in_i; lia.
Qed.

(** What an access to memory [id] records. *)
Definition touch_of (id age count : Z) : ExperienceRecord :=
  let feats := [quantize_feature age; quantize_feature count; 0; 0] in
  {| decision_id := id; xp_kind := RECALL_TOUCH; feats := feats; envelope_verdict := XP_ENV_TOUCH;
     action_taken := XP_ACTION_TOUCH; kan_score_shadow := kan_q KAN_TABLE feats 0 0;
     logging_propensity_q := PROPENSITY_DETERMINISTIC_Q; logging_policy_kind := DETERMINISTIC;
     xp_outcome := Exp.Unset; margin_q := 0 |}.

Lemma touch_record_eq id age count : 0 <= age < 2 ^ 63 -> touch_record id age count = Val (touch_of id age count).
Proof.
  intros Ha. unfold touch_record. rewrite to_signed_small by done. cbv zeta. by rewrite (proj1 (shadow_eq age count)), bind_val.
Qed.

Lemma touch_of_ok id age count : is_u64 id -> xp_ok (touch_of id age count).
Proof.
  intros Hid. constructor; cbn [decision_id xp_kind feats envelope_verdict action_taken kan_score_shadow logging_propensity_q
    logging_policy_kind xp_outcome margin_q touch_of]; try done; [apply feats_ok | apply shadow_eq].
Qed.

Lemma xp_observe_ok o L X K rec : organ_inv o L X K -> xp_ok rec ->
  exists x, xp_observe o rec = Val (set_xp o x) /\ organ_inv (set_xp o x) L (X ++ [rec]) K.
Proof.
  intros Ho Hr. destruct (xp_record_ok _ _ rec (inv_xp _ _ _ _ Ho) Hr) as (x & id & E & Hx).
  exists x. unfold xp_observe. rewrite E, bind_val. split; [done|]. constructor; try apply Ho. done.
Qed.

(** ** Writing *)

Lemma update_first_spec {A} (p : A -> bool) f l l' x : update_first p f l = (l', x) ->
  match x with
  | Some x => exists pre tl, l = pre ++ x :: tl /\ p x = true /\ Forall (fun y => p y = false) pre /\ l' = pre ++ f x :: tl
  | None => l' = l /\ Forall (fun y => p y = false) l
  end.
Proof.
  revert l'. induction l as [|y l IH]; intros l'; cbn [update_first].
  { intros [= <- <-]. by split. }
  destruct (p y) eqn:Ep.
  - intros [= <- <-]. by exists [], l.
  - destruct (update_first p f l) as [l1 o]. intros [= <- <-]. specialize (IH l1 eq_refl). destruct o as [x|].
    + destruct IH as (pre & tl & -> & Hp & Hpre & ->). exists (y :: pre), tl. by repeat split; [..|constructor].
    + destruct IH as [-> Hf]. split; [done | by constructor].
Qed.

(** The organ after the tombstoning of record [x], the last live one of its token. *)
Definition buried (o : MemSubstrate B) (pre : list MemRecord) (x : MemRecord) (tl : list MemRecord) : MemSubstrate B :=
  set_clock
    (set_log (set_records o (pre ++ rec_invalidate (clock o) x :: tl))
       (map (fun e => if e_id e =? r_id x then ep_invalidate (clock o) e else e) (log (t2 o))))
    (clock o + 1).

Definition live_of (key : Z) (r : MemRecord) : bool := (r_token r =? key) && (r_t_invalid r =? 0).

Lemma delete_spec o key : 0 <= clock o < CLOCK_MAX ->
  (Forall (fun r => live_of key r = false) (records (t3 o)) /\ delete o key = (set_clock o (clock o + 1), None)) \/
  (exists pre x tl, records (t3 o) = pre ++ x :: tl /\ live_of key x = true /\ Forall (fun r => live_of key r = false) tl /\
     delete o key = (buried o pre x tl, Some (r_id x))).
Proof.
  intros Hc. unfold delete. destruct (update_first _ _ _) as [rs f] eqn:E. apply update_first_spec in E. destruct f as [x|].
  - destruct E as (pre & tl & Er & Hp & Hpre & ->). right. exists (reverse tl), x, (reverse pre).
    assert (records (t3 o) = reverse tl ++ x :: reverse pre) as Erec.
    { rewrite <- (reverse_involutive (records (t3 o))), Er, reverse_app, reverse_cons, <- app_assoc. done. }
    split; [done|]. split; [done|]. split; [by apply Forall_reverse|].
    rewrite tick_eq by (change (0 <= clock o < CLOCK_MAX); lia).
    rewrite reverse_app, reverse_cons, <- app_assoc. done.
  - destruct E as [-> Hf]. left. split; [by apply Forall_reverse in Hf; rewrite reverse_involutive in Hf|].
    rewrite reverse_involutive, tick_eq by (change (0 <= clock o < CLOCK_MAX); lia).
    unfold set_records. by destruct o as [? ? ? [] ? ? ? ? ? ? ? ? ? ?].
Qed.

Lemma rec_kept_refl c l : Forall (rec_ok c) l -> Forall2 (rec_kept c) l l.
Proof. induction 1; constructor; [by split | done]. Qed.

(** One record changed in place. *)
Lemma rec_kept_at c pre x x' tl : Forall (rec_ok c) (pre ++ x :: tl) -> rec_kept c x x' ->
  Forall2 (rec_kept c) (pre ++ x :: tl) (pre ++ x' :: tl).
Proof.
  rewrite Forall_app, Forall_cons. intros (H1 & _ & H2) Hx. apply Forall2_app; [by apply rec_kept_refl|].
  constructor; [done | by apply rec_kept_refl].
Qed.

Lemma rec_invalidate_kept c clk r : rec_ok c r -> rec_kept c r (rec_invalidate clk r).
Proof. intros []. split; [done|]. split; [done|]. split; [done|]. by constructor. Qed.

Lemma ep_invalidate_kept (p : Episode -> bool) clk l : Forall2 ep_kept l (map (fun e => if p e then ep_invalidate clk e else e) l).
Proof. induction l as [|e l IH]; cbn [map]; constructor; [by destruct (p e) | done]. Qed.

(** Changes of the store alone, followed by a tick. *)
Lemma set_store_inv o L X K j s c : organ_inv o L X K -> store_ok c j s -> clock o <= c -> zlen (log j) = zlen (log (t2 o)) ->
  organ_inv (set_clock (set_t3 (set_t2 o j) s) c) L X K.
Proof.
  intros Ho Hs Hc Hl. pose proof (inv_clock _ _ _ _ Ho). constructor; try apply Ho; [|done|].
  - change (1 <= c). lia.
  - change (tokens_written (quota o) = zlen (log j) + zlen (skills (t4 o)) /\ q_records (quota o) = zlen (log j) /\
      tokens_written (quota o) <= TOKEN_QUOTA). rewrite Hl. apply Ho.
Qed.

Lemma buried_inv o L X K pre x tl : organ_inv o L X K -> records (t3 o) = pre ++ x :: tl -> organ_inv (buried o pre x tl) L X K.
Proof.
  intros Ho Er. pose proof (inv_store _ _ _ _ Ho) as Hs. pose proof (ep_invalidate_kept (fun e => e_id e =? r_id x) (clock o) (log (t2 o))) as Hk. cbv beta in Hk.
  apply (set_store_inv o L X K _ _ _ Ho); [|lia|cbn [log]; unfold zlen; by rewrite length_map].
  eapply store_ok_mono; [|apply store_ok_log; [apply store_ok_records; [exact Hs|]|exact Hk]]; [lia|].
  pose proof (st_recs _ _ _ Hs) as Hr. rewrite Er in *. apply rec_kept_at; [done|]. apply rec_invalidate_kept.
  by apply Forall_app in Hr as [_ [Hr _]%Forall_cons].
Qed.

Lemma tick_inv o L X K : organ_inv o L X K -> organ_inv (set_clock o (clock o + 1)) L X K.
Proof.
  intros Ho. pose proof (set_store_inv o L X K (t2 o) (t3 o) (clock o + 1) Ho) as Hi.
  assert (set_t3 (set_t2 o (t2 o)) (t3 o) = o) as E by (by destruct o). rewrite E in Hi. apply Hi; [|lia|done].
  eapply store_ok_mono; [|apply Ho]. lia.
Qed.

(** The salience a write carries, and the accumulator after it. *)
Definition salience (packed : Z) : Z := clamp (Z.land packed 0xFF) 1 10.
Definition accumulated (o : MemSubstrate B) (packed : Z) : MemSubstrate B :=
  set_imp_accum o (saturating_add 32 (imp_accum o) (salience packed)).

Lemma accumulated_inv o L X K packed : organ_inv o L X K -> organ_inv (accumulated o packed) L X K.
Proof.
  intros Ho. constructor; try apply Ho. pose proof (inv_imp _ _ _ _ Ho) as Hi. pose proof (clamp_range (Z.land packed 0xFF)).
  change (is_u32 (saturating_add 32 (imp_accum o) (salience packed))). unfold salience, saturating_add, u_max, in_u in *. lia.
Qed.

Lemma clamp_idem v : clamp (clamp v 1 10) 1 10 = clamp v 1 10.
Proof. rewrite !clamp_spec by lia. lia. Qed.

Lemma land_ff_u8 v : is_u8 (Z.land v 0xFF).
Proof. unfold in_u. change 0xFF with (Z.ones 8). rewrite Z.land_ones by lia. apply Z.mod_pos_bound. lia. Qed.

Definition is_add (op : Z) : bool := (op =? 0) || (op =? 1).

Lemma write_full o op key value packed : is_add op = true -> tokens_written (quota o) = TOKEN_QUOTA ->
  write o op key value packed = Val (accumulated o packed, None).
Proof.
  intros Hop Hq. unfold write. fold (is_add op). rewrite Hop. unfold add. cbv zeta.
  change (set_imp_accum o (saturating_add 32 (imp_accum o) (clamp (Z.land packed 255) 1 10))) with (accumulated o packed).
  rewrite push_record_full, bind_val by done. by destruct (op <=? 2).
Qed.

Lemma write_add o L X K op key value packed : organ_inv o L X K -> clock o + 1 < CLOCK_MAX -> is_u64 key -> is_u64 value ->
  is_add op = true -> tokens_written (quota o) < TOKEN_QUOTA ->
  let n := zlen (log (t2 o)) in
  exists b l, let o1 := pushed (accumulated o packed) key value (salience packed) 0 [] b in
    bs_ok b /\ write o op key value packed = Val (set_led o1 l, Some n) /\ Prov.clock l = clock o + 1 /\
    organ_inv (set_led o1 l) (L ++ [ledger_entry o1 kind_WRITE key (Z.land packed 0xFF) n]) X K.
Proof.
  intros Ho Hc Hk Hv Hop Hq n. pose proof (accumulated_inv _ _ _ _ packed Ho) as Ho1.
  destruct (push_record_eq _ _ _ _ key value (salience packed) 0 [] Ho1) as (b & Hb & E); [change (clock o < CLOCK_MAX); lia | done|].
  unfold salience in E at 2. rewrite clamp_idem in E. fold (salience packed) in E.
  pose proof (pushed_inv _ _ _ _ key value (salience packed) 0 [] b Ho1 Hq Hb Hk Hv (clamp_range _)) as Ho2.
  set (o1 := pushed _ _ _ _ _ _ b) in *.
  pose proof (inv_store _ _ _ _ Ho) as Hs. pose proof (st_cap _ _ _ Hs). pose proof (zlen_nonneg (log (t2 o))).
  assert (is_u64 n) as Hn by (unfold in_u, n, TOKEN_QUOTA in *; lia).
  destruct (ledger_ok o1 L X K kind_WRITE key (Z.land packed 0xFF) n Ho2) as (l & id & El & Hcl & Ho3);
    [change (clock o + 1 < CLOCK_MAX); lia | done | apply land_ff_u8 | done | done |].
  exists b, l. split; [done|]. split; [|by split].
  unfold write. fold (is_add op). rewrite Hop. unfold add. cbv zeta.
  change (set_imp_accum o (saturating_add 32 (imp_accum o) (clamp (Z.land packed 255) 1 10))) with (accumulated o packed).
  change (clamp (Z.land packed 255) 1 10) with (salience packed). rewrite E, bind_val.
  assert (op <=? 2 = true) as -> by (unfold is_add in Hop; lia).
  change (zlen (log (t2 (accumulated o packed)))) with n. rewrite El. done.
Qed.

Lemma write_delete o L X K key value packed pre x tl : organ_inv o L X K -> clock o + 1 < CLOCK_MAX -> is_u64 key ->
  records (t3 o) = pre ++ x :: tl -> live_of key x = true -> Forall (fun r => live_of key r = false) tl ->
  exists l, let o1 := buried o pre x tl in
    write o 2 key value packed = Val (set_led o1 l, Some (r_id x)) /\ Prov.clock l = clock o + 1 /\
    organ_inv (set_led o1 l) (L ++ [ledger_entry o1 kind_WRITE key (Z.land packed 0xFF) (r_id x)]) X K.
Proof.
  intros Ho Hc Hk Er Hx Htl. pose proof (inv_clock _ _ _ _ Ho). pose proof (buried_inv _ _ _ _ _ _ _ Ho Er) as Ho1.
  pose proof (inv_store _ _ _ _ Ho) as Hs.
  assert (is_u64 (r_id x)) as Hid.
  { assert (records (t3 o) !! length pre = Some x) as Hl by (rewrite Er; by apply list_lookup_middle).
    rewrite (store_rec_id _ _ _ _ _ Hs Hl). pose proof (lookup_lt_Some _ _ _ Hl). pose proof (store_len _ _ _ Hs).
    pose proof (st_cap _ _ _ Hs). unfold in_u, TOKEN_QUOTA, zlen in *. lia. }
  destruct (ledger_ok (buried o pre x tl) L X K kind_WRITE key (Z.land packed 0xFF) (r_id x) Ho1) as (l & id & El & Hcl & Ho3);
    [change (clock o + 1 < CLOCK_MAX); lia | done | apply land_ff_u8 | done | done |].
  exists l. split; [|by split]. unfold write. change ((2 =? 0) || (2 =? 1)) with false. change (2 =? 2) with true. change (2 <=? 2) with true. cbv iota.
  destruct (delete_spec o key) as [[Hno _]|(pre' & x' & tl' & Er' & Hx' & Htl' & E)]; [lia | |].
  { exfalso. rewrite Er in Hno. apply Forall_app in Hno as [_ [Hno _]%Forall_cons]. congruence. }
  assert (pre' = pre /\ x' = x /\ tl' = tl) as (-> & -> & ->).
  { clear - Er Er' Hx Hx' Htl Htl'. rewrite Er in Er'. clear Er. revert pre' Er'. induction pre as [|y pre IH]; intros [|y' pre'] Er'; cbn in Er'; simplify_eq/=.
    - done.
    - exfalso. apply Forall_app in Htl as [_ [Htl _]%Forall_cons]. congruence.
    - exfalso. apply Forall_app in Htl' as [_ [Htl' _]%Forall_cons]. congruence.
    - destruct (IH pre') as (-> & -> & ->); done. }
  rewrite E, bind_val, El. done.
Qed.

Lemma write_delete_none o key value packed : 0 <= clock o < CLOCK_MAX ->
  Forall (fun r => live_of key r = false) (records (t3 o)) ->
  write o 2 key value packed = Val (set_clock o (clock o + 1), None).
Proof.
  intros Hc Hno. unfold write. change ((2 =? 0) || (2 =? 1)) with false. change (2 =? 2) with true. change (2 <=? 2) with true. cbv iota. destruct (delete_spec o key Hc) as [[_ ->]|(pre & x & tl & Er & Hx & _)]; [done|].
  rewrite Er in Hno. apply Forall_app in Hno as [_ [Hno _]%Forall_cons]. congruence.
Qed.

Lemma write_noop o op key value packed : 2 < op -> write o op key value packed = Val (o, Some 0).
Proof.
  intros Hop. unfold write. rewrite !(proj2 (Z.eqb_neq op _)) by lia. cbn [orb].
  change (Val ?a ≫= ?f) with (f a). cbv beta iota. by rewrite (proj2 (Z.leb_gt op 2)) by lia.
Qed.

(** ** Recall *)

#[local] Instance MemRecord_inhabited : Inhabited MemRecord := populate (mkRec 0 0 0 0 [] 0 0 0 0 0 [] 0 0).
Definition rec_at (o : MemSubstrate B) (i : Z) : MemRecord := records (t3 o) !!! Z.to_nat i.
Definition tokens (o : MemSubstrate B) : list Z := map r_token (records (t3 o)).

Lemma rec_at_idx o i : 0 <= i < zlen (records (t3 o)) -> idx (records (t3 o)) i = Val (rec_at o i).
Proof.
  intros Hi. apply idx_Some; [lia|]. apply list_lookup_lookup_total_lt. unfold zlen in Hi. lia.
Qed.

Lemma rec_at_ok o L X K i : organ_inv o L X K -> 0 <= i < zlen (records (t3 o)) ->
  rec_ok (clock o) (rec_at o i) /\ r_id (rec_at o i) = i.
Proof.
  intros Ho Hi. assert (records (t3 o) !! Z.to_nat i = Some (rec_at o i)) as Hl.
  { apply list_lookup_lookup_total_lt. unfold zlen in Hi. lia. }
  pose proof (inv_store _ _ _ _ Ho) as Hs. split.
  - exact (Forall_lookup_1 _ _ _ _ (st_recs _ _ _ Hs) Hl).
  - rewrite (store_rec_id _ _ _ _ _ Hs Hl). lia.
Qed.

(** Live, hot, and not just retrieved. *)
Definition is_cand (o : MemSubstrate B) (i : Z) : bool :=
  let r := rec_at o i in
  (r_t_invalid r =? 0) && (r_tier r =? TIER_HOT) && negb (finsts_contains (finsts o) (r_id r)).

Lemma candidates_eq o ps : Forall (fun i => 0 <= i < zlen (records (t3 o))) ps ->
  candidates o ps = Val (List.filter (is_cand o) ps).
Proof.
  intros Hps. unfold candidates.
  enough (forall acc, fold_res (fun cand ri =>
    r ← idx (records (t3 o)) ri;
    Val (if negb (r_t_invalid r =? 0) then cand
         else if negb (r_tier r =? TIER_HOT) then cand
         else if finsts_contains (finsts o) (r_id r) then cand
         else cand ++ [ri])) acc ps = Val (acc ++ List.filter (is_cand o) ps)) as Hall by apply (Hall []).
  induction Hps as [|i ps Hi _ IH]; intros acc; [cbn; by rewrite app_nil_r|].
  rewrite fold_res_cons, rec_at_idx, bind_val by done. cbn [List.filter].
  assert (is_cand o i = (r_t_invalid (rec_at o i) =? 0) && (r_tier (rec_at o i) =? TIER_HOT) &&
    negb (finsts_contains (finsts o) (r_id (rec_at o i)))) as -> by done.
  destruct (r_t_invalid _ =? 0); cbn [negb andb]; [|rewrite bind_val; apply IH].
  destruct (r_tier _ =? TIER_HOT); cbn [negb andb]; [|rewrite bind_val; apply IH].
  destruct (finsts_contains _ _); cbn [negb andb]; rewrite bind_val, IH; [done|]. by rewrite <- app_assoc.
Qed.

(** The activation of the memory at position [i]. *)
Definition activation (o : MemSubstrate B) (i : Z) : Z :=
  bla_q (r_count (rec_at o i)) (clock o - r_t_created (rec_at o i) + 1).

Lemma components_eq o L X K idf cand : organ_inv o L X K -> clock o < CLOCK_MAX ->
  Forall (fun i => 0 <= i < zlen (records (t3 o))) cand ->
  components o idf cand = Val (map (activation o) cand, map (fun _ => idf) cand, map (fun i => r_importance (rec_at o i)) cand).
Proof.
  intros Ho Hc Hcand. unfold components.
  enough (forall a b c, fold_res (fun '(bla, rel, imp) ci =>
    r ← idx (records (t3 o)) ci; age ← add_u 64 (saturating_sub (clock o) (r_t_created r)) 1;
    b ← bla_raw (r_count r) age; Val (bla ++ [b], rel ++ [idf], imp ++ [r_importance r])) (a, b, c) cand =
    Val (a ++ map (activation o) cand, b ++ map (fun _ => idf) cand, c ++ map (fun i => r_importance (rec_at o i)) cand)) as Hall
    by (by rewrite Hall).
  induction Hcand as [|i ps Hi _ IH]; intros a b c; [cbn; by rewrite !app_nil_r|].
  rewrite fold_res_cons, rec_at_idx, bind_val by done. destruct (rec_at_ok _ _ _ _ _ Ho Hi) as [[] _].
  unfold saturating_sub, CLOCK_MAX in *. rewrite Z.max_r by lia. rewrite add_u_ok, bind_val by lia.
  rewrite bla_raw_eq, bind_val by (done || (unfold AGE_MAX; lia)). rewrite bind_val, IH. cbn [map]. by rewrite <- !app_assoc.
Qed.

(** [k] is the first of the [n] positions where [s] is largest. *)
Definition first_best (s : Z -> Z) (n k : Z) : Prop :=
  0 <= k < n /\ (forall j, 0 <= j < n -> s j <= s k) /\ (forall j, 0 <= j < k -> s j < s k).

Lemma minmax_q_const {A} (l : list A) c k : 0 <= k < zlen l -> minmax_q (map (fun _ => c) l) k = 0.
Proof.
  intros Hk. destruct l as [|x l]; [change (zlen []) with 0 in Hk; lia|]. unfold minmax_q. cbn [map head default]. unfold id.
  assert (forall l : list A, list_min c (map (fun _ => c) l) = c /\ list_max c (map (fun _ => c) l) = c) as Hc.
  { intros l'. unfold list_min, list_max. induction l' as [|y l' [IH1 IH2]]; cbn [map fold_right]; [done|]. rewrite IH1, IH2. lia. }
  destruct (Hc (x :: l)) as [H1 H2]. cbn [map] in H1, H2. rewrite H1, H2. by rewrite Z.eqb_refl.
Qed.

Lemma best_of_eq bla rel imp n : 0 < n -> zlen bla = n -> zlen rel = n -> zlen imp = n ->
  Forall component bla -> Forall component rel -> Forall component imp ->
  exists k s, best_of bla rel imp n = Val (k, s) /\
    first_best (fun k => minmax_q bla k + minmax_q rel k + minmax_q imp k) n k.
Proof.
  intros Hn H1 H2 H3 C1 C2 C3. unfold best_of. set (sc := fun k => minmax_q bla k + minmax_q rel k + minmax_q imp k).
  destruct (for_up_inv (fun k '(b, s) => (k = 0 /\ s = - 2 ^ 63) \/ (s = sc b /\ first_best sc k b)) 0 n
    (fun k '(best_i, best_score) =>
      a ← minmax bla k; b ← minmax rel k; ab ← i64 (a + b); c ← minmax imp k; s ← i64 (ab + c);
      Val (if best_score <? s then (k, s) else (best_i, best_score))) (0, - 2 ^ 63)) as ([b s] & E & Hb); [lia | by left | |].
  - intros k [b s] Hk Hi. rewrite !minmax_eq by (done || lia). rewrite !bind_val.
    pose proof (minmax_q_bound bla k C1 ltac:(lia)). pose proof (minmax_q_bound rel k C2 ltac:(lia)).
    pose proof (minmax_q_bound imp k C3 ltac:(lia)). unfold SCALE, i64 in *.
    rewrite decide_True, bind_val by (unfold in_i; lia). rewrite bind_val, decide_True, bind_val by (unfold in_i; lia).
    change (minmax_q bla k + minmax_q rel k + minmax_q imp k) with (sc k). assert (0 <= sc k) as Hsc by (unfold sc; lia).
    apply runs_val. destruct (Z.ltb_spec s (sc k)) as [Hlt|Hge].
    + right. split; [done|]. destruct Hi as [[-> ->]|[-> (Hb & Hmax & Hfst)]]; (split; [lia|]); split; intros j Hj.
      * assert (j = 0) as -> by lia. lia.
      * lia.
      * destruct (decide (j = k)) as [->|]; [lia|]. specialize (Hmax j ltac:(lia)). lia.
      * specialize (Hmax j ltac:(lia)). lia.
    + right. destruct Hi as [[-> ->]|[-> (Hb & Hmax & Hfst)]]; [lia|]. split; [done|]. split; [lia|]. split; intros j Hj.
      * destruct (decide (j = k)) as [->|]; [lia|]. apply Hmax. lia.
      * apply Hfst. lia.
  - exists b, s. split; [done|]. destruct Hb as [[-> _]|[_ Hb]]; [lia | done].
Qed.

(** The record after an access, and the organ after a recall of memory [w]. *)
Definition touched (clk : Z) (r : MemRecord) : MemRecord :=
  mkRec (r_id r) (r_token r) (r_importance r) (saturating_add 32 (r_count r) 1)
    (<[Z.to_nat (r_last_idx r mod 10) := clk]> (r_last_ts r)) (wrapping_add 64 (r_last_idx r) 1)
    (r_t_created r) (r_t_invalid r) (r_c_succ r) (r_c_use r) (r_links r) (r_tier r) (r_provenance r).

Definition recalled (o : MemSubstrate B) (query w : Z) (x : XpLog) : MemSubstrate B :=
  set_clock
    (set_xp
      (set_finsts
        (set_t0 (set_records o (<[Z.to_nat w := touched (clock o) (rec_at o w)]> (records (t3 o))))
           (<[1%nat := Some (mkReg query 1 w)]> (t0 o)))
        (mkFinsts (<[Z.to_nat (f_head (finsts o) mod F_FINST) := Some (w, clock o)]> (ring (finsts o)))
           (wrapping_add 64 (f_head (finsts o)) 1))) x) (clock o + 1).

(** All that a recall of memory [w] does to [o], whose ring is that of [o0]. *)
Record recall_effects (o o0 : MemSubstrate B) (query w : Z) (o' : MemSubstrate B) : Prop := {
  re_register : t0 o' = <[1%nat := Some (mkReg query 1 w)]> (t0 o);
  re_ring : finsts o' = mkFinsts (<[Z.to_nat (f_head (finsts o0) mod F_FINST) := Some (w, clock o)]> (ring (finsts o0)))
    (wrapping_add 64 (f_head (finsts o0)) 1);
  re_records : t3 o' = mkSem (<[Z.to_nat w := touched (clock o) (rec_at o w)]> (records (t3 o))) (lexical (t3 o)) (num_docs (t3 o)) (total_len (t3 o));
  re_working : t1 o' = t1 o;
  re_journal : t2 o' = t2 o;
  re_skills : t4 o' = t4 o;
  re_corpus : corp o' = corp o;
  re_backing : backing o' = backing o;
  re_quota : quota o' = quota o;
  re_importance : imp_accum o' = imp_accum o;
  re_epoch : last_consolidated_epoch o' = last_consolidated_epoch o;
  re_cursor : consol_cursor o' = consol_cursor o;
  re_clock : clock o' = clock o + 1;
  re_chain : chain_head (led o') = chain_head (led o);
  re_ids : ledger_ids (led o') = ledger_ids (led o);
}.

Lemma rec_touch_eq c clk r : rec_ok c r -> rec_touch clk r = Val (touched clk r) /\ rec_kept c r (touched clk r).
Proof.
  intros [H1 H2 H3 H4 H5 H6 H7]. pose proof (Z.mod_pos_bound (r_last_idx r) 10 ltac:(lia)). split.
  - unfold rec_touch, urem. rewrite decide_False, bind_val by lia. by rewrite upd_ok, bind_val by lia.
  - split; [done|]. split; [done|]. split; [done|]. constructor; cbn; try done.
    + unfold saturating_add, u_max, in_u in *. lia.
    + by rewrite zlen_insert.
    + unfold wrapping_add. pose proof (wrap_in_u 64 (r_last_idx r + 1)). unfold in_u in *. lia.
Qed.

Lemma finsts_push_eq f id ts : zlen (ring f) = F_FINST -> 0 <= f_head f ->
  finsts_push f id ts = Val (mkFinsts (<[Z.to_nat (f_head f mod F_FINST) := Some (id, ts)]> (ring f)) (wrapping_add 64 (f_head f) 1)).
Proof.
  intros Hr Hh. unfold finsts_push, urem, F_FINST in *. pose proof (Z.mod_pos_bound (f_head f) 4 ltac:(lia)).
  rewrite decide_False, bind_val by lia. by rewrite upd_ok, bind_val by lia.
Qed.

Lemma kept_insert c l i (r r' : MemRecord) : Forall (rec_ok c) l -> l !! i = Some r -> rec_kept c r r' ->
  Forall2 (rec_kept c) l (<[i := r']> l).
Proof.
  intros Hl Hi Hr. rewrite <- (take_drop_middle _ _ _ Hi) at 1.
  assert (Forall (rec_ok c) (take i l ++ r :: drop (Datatypes.S i) l)) as Hl' by (by rewrite take_drop_middle).
  rewrite insert_take_drop by (by eapply lookup_lt_Some). by apply rec_kept_at.
Qed.

Lemma recalled_effects o query w x (cursor : Z) : let o0 := if cursor =? 0 then set_finsts o finsts_clear else o in
  recall_effects o o0 query w (recalled o0 query w x).
Proof. intros o0. unfold o0. by destruct (cursor =? 0). Qed.

Lemma cleared_inv o L X K (cursor : Z) : organ_inv o L X K -> organ_inv (if cursor =? 0 then set_finsts o finsts_clear else o) L X K.
Proof. intros Ho. destruct (cursor =? 0); [|done]. by constructor; try apply Ho. Qed.

Lemma postings_of o L X K query : organ_inv o L X K ->
  lex_get query (lexical (t3 o)) = match positions query (tokens o) with [] => None | p :: ps => Some (p :: ps) end.
Proof. intros Ho. rewrite (st_lex _ _ _ (inv_store _ _ _ _ Ho)). apply index_of_get. Qed.

Lemma positions_in_range (o : MemSubstrate B) query : Forall (fun i => 0 <= i < zlen (records (t3 o))) (positions query (tokens o)).
Proof.
  apply Forall_forall. intros i Hi. apply positions_elem in Hi as [Hi Hl]. apply lookup_lt_Some in Hl. unfold tokens in Hl.
  rewrite length_map in Hl. unfold zlen. lia.
Qed.

(** The hot, live memories of a token outside the ring, and their scores. *)
Definition cands (o : MemSubstrate B) (query : Z) : list Z := List.filter (is_cand o) (positions query (tokens o)).
Definition recall_score (o : MemSubstrate B) (cand : list Z) (k : Z) : Z :=
  minmax_q (map (activation o) cand) k + minmax_q (map (fun i => r_importance (rec_at o i)) cand) k.

Lemma recall_none o L X K query cursor : organ_inv o L X K ->
  let o0 := if cursor =? 0 then set_finsts o finsts_clear else o in
  cands o0 query = [] -> recall o query cursor = Val (o0, None).
Proof.
  intros Ho o0 Hc. pose proof (cleared_inv _ _ _ _ cursor Ho) as Ho0. fold o0 in Ho0. unfold recall. fold o0. cbv zeta.
  rewrite (postings_of _ _ _ _ _ Ho0). unfold cands in Hc. pose proof (positions_in_range o0 query) as Hr.
  destruct (positions query (tokens o0)) as [|p ps]; [done|]. rewrite candidates_eq, Hc, bind_val by done. done.
Qed.

Lemma recall_some o L X K query cursor : organ_inv o L X K -> clock o + 1 < CLOCK_MAX ->
  let o0 := if cursor =? 0 then set_finsts o finsts_clear else o in
  cands o0 query <> [] ->
  exists k w x, cands o0 query !! Z.to_nat k = Some w /\ first_best (recall_score o0 (cands o0 query)) (zlen (cands o0 query)) k /\
    0 <= w < zlen (records (t3 o)) /\ is_cand o0 w = true /\ tokens o !! Z.to_nat w = Some query /\
    recall o query cursor = Val (recalled o0 query w x, Some w) /\
    organ_inv (recalled o0 query w x) L
      (X ++ [touch_of w (clock o - r_t_created (rec_at o w)) (saturating_add 32 (r_count (rec_at o w)) 1)]) K.
Proof.
  intros Ho Hclk o0 Hne. pose proof (cleared_inv _ _ _ _ cursor Ho) as Ho0. fold o0 in Ho0.
  assert (clock o0 = clock o /\ t3 o0 = t3 o /\ rec_at o0 = rec_at o /\ tokens o0 = tokens o) as (Ec & Et & Er & Ek) by (unfold o0; by destruct (cursor =? 0)).
  set (cand := cands o0 query) in *.
  pose proof (positions_in_range o0 query) as Hr.
  assert (Forall (fun i => 0 <= i < zlen (records (t3 o0))) cand) as Hcr.
  { unfold cand, cands. apply Forall_forall. intros i Hi%list_elem_of_In%List.filter_In. destruct Hi as [Hi%list_elem_of_In _].
    rewrite Forall_forall in Hr. by apply Hr. }
  assert (forall i, i ∈ cand -> is_cand o0 i = true /\ tokens o !! Z.to_nat i = Some query) as Hci.
  { intros i Hi%list_elem_of_In%List.filter_In. destruct Hi as [Hi%list_elem_of_In Hc]. split; [done|].
    rewrite <- Ek. exact (proj2 (proj1 (positions_elem _ _ _) Hi)). }
  assert (0 < zlen cand) as Hpos by (destruct cand; [done | rewrite zlen_cons; pose proof (zlen_nonneg cand); lia]).
  assert (Forall component (map (activation o0) cand)) as C1.
  { apply Forall_map. eapply Forall_impl; [exact Hcr|]. intros i Hi. destruct (rec_at_ok _ _ _ _ _ Ho0 Hi) as [[] _].
    cbn. unfold activation. pose proof (bla_q_bound (r_count (rec_at o0 i)) (clock o0 - r_t_created (rec_at o0 i) + 1)) as Hb.
    unfold AGE_MAX, CLOCK_MAX, COMPONENT_MAX in *. specialize (Hb ltac:(done) ltac:(lia)). lia. }
  assert (Forall component (map (fun i => r_importance (rec_at o0 i)) cand)) as C3.
  { apply Forall_map. eapply Forall_impl; [exact Hcr|]. intros i Hi. destruct (rec_at_ok _ _ _ _ _ Ho0 Hi) as [[] _].
    cbn. unfold COMPONENT_MAX. lia. }
  pose proof (inv_store _ _ _ _ Ho0) as Hs. pose proof (st_cap _ _ _ Hs) as Hcap. pose proof (zlen_nonneg (log (t2 o0))).
  set (df := zlen (positions query (tokens o0))). set (nd := Z.max (num_docs (t3 o0)) 1).
  assert (0 <= nd <= DOCS_MAX) as Hnd by (unfold nd, DOCS_MAX, TOKEN_QUOTA in *; rewrite (st_docs _ _ _ Hs); lia).
  assert (Forall component (map (fun _ => idf_q df nd) cand)) as C2.
  { apply Forall_map, Forall_forall. intros i _. pose proof (idf_q_bound df nd Hnd). cbn. unfold COMPONENT_MAX. lia. }
  destruct (best_of_eq _ _ _ (zlen cand) Hpos ltac:(unfold zlen; by rewrite length_map) ltac:(unfold zlen; by rewrite length_map)
    ltac:(unfold zlen; by rewrite length_map) C1 C2 C3) as (k & s & Eb & Hk).
  assert (first_best (recall_score o0 cand) (zlen cand) k) as Hbest.
  { destruct Hk as (Hk & Hmax & Hfst). split; [done|]. unfold recall_score.
    split; intros j Hj; [specialize (Hmax j Hj) | specialize (Hfst j Hj)]; cbn in *;
      rewrite !minmax_q_const in * by lia; lia. }
  destruct (idx_ok cand k (proj1 Hbest)) as [w Ew]. pose proof (idx_val_inv _ _ _ Ew) as [_ Elw].
  pose proof (Forall_lookup_1 _ _ _ _ Hcr Elw) as Hw. cbn in Hw. destruct (rec_at_ok _ _ _ _ _ Ho0 Hw) as [Hrok Hrid].
  destruct (Hci w (list_elem_of_lookup_2 _ _ _ Elw)) as [Hcw Htw].
  destruct (rec_touch_eq _ (clock o0) _ Hrok) as [Etouch Hkept].
  set (rs := <[Z.to_nat w := touched (clock o0) (rec_at o0 w)]> (records (t3 o0))).
  assert (idx rs w = Val (touched (clock o0) (rec_at o0 w))) as Eidx.
  { apply idx_Some; [lia|]. apply list_lookup_insert_eq. unfold zlen in Hw. lia. }
  set (o1 := set_finsts (set_t0 (set_records o0 rs) (<[1%nat := Some (mkReg query 1 w)]> (t0 o0)))
     (mkFinsts (<[Z.to_nat (f_head (finsts o0) mod F_FINST) := Some (w, clock o0)]> (ring (finsts o0))) (wrapping_add 64 (f_head (finsts o0)) 1))).
  assert (records (t3 o0) !! Z.to_nat w = Some (rec_at o0 w)) as Elr by (apply list_lookup_lookup_total_lt; unfold zlen in Hw; lia).
  assert (organ_inv o1 L X K) as Ho1.
  { constructor; try apply Ho0.
    - change (store_ok (clock o0) (t2 o0) (mkSem rs (lexical (t3 o0)) (num_docs (t3 o0)) (total_len (t3 o0)))).
      apply store_ok_records; [done|]. eapply kept_insert; [apply Hs | done | done].
    - change (zlen (<[1%nat := Some (mkReg query 1 w)]> (t0 o0)) = N_REG). rewrite zlen_insert. apply Ho0.
    - destruct (inv_finsts _ _ _ _ Ho0). cbn. rewrite zlen_insert. split; [done|]. unfold wrapping_add.
      pose proof (wrap_in_u 64 (f_head (finsts o0) + 1)). unfold in_u in *. lia. }
  assert (lex_get query (lexical (t3 o0)) = Some (positions query (tokens o0))) as Epost.
  { rewrite (postings_of _ _ _ _ _ Ho0). unfold cand, cands in Hne. by destruct (positions query (tokens o0)). }
  set (rec := touch_of w (clock o - r_t_created (rec_at o w)) (saturating_add 32 (r_count (rec_at o w)) 1)).
  assert (xp_ok rec) as Hxp.
  { apply touch_of_ok. pose proof (store_len _ _ _ Hs). unfold in_u, TOKEN_QUOTA in *. lia. }
  destruct (xp_observe_ok _ _ _ _ rec Ho1 Hxp) as (x & Ex & Ho2).
  exists k, w, x. split; [done|]. split; [done|]. split; [by rewrite <- Et|]. split; [done|]. split; [done|]. split.
  - unfold recall. fold o0. cbv zeta. rewrite Epost, candidates_eq, bind_val by exact Hr.
    fold (cands o0 query). fold cand. rewrite (proj2 (Z.eqb_neq (zlen cand) 0)) by lia.
    fold df. fold nd. rewrite (bm25_idf_eq df nd Hnd), bind_val.
    rewrite (components_eq o0 L X K (idf_q df nd) cand Ho0 ltac:(rewrite Ec; lia) Hcr), bind_val.
    rewrite Eb, bind_val, Ew, bind_val. rewrite (rec_at_idx o0 w Hw), bind_val, Etouch, bind_val.
    rewrite upd_ok, bind_val by lia. fold rs. cbn [t0 set_records set_t3].
    rewrite upd_ok, bind_val by (rewrite (inv_regs _ _ _ _ Ho0); unfold N_REG; lia). rewrite Hrid.
    change (finsts (set_records o0 rs)) with (finsts o0). change (clock (set_records o0 rs)) with (clock o0).
    rewrite finsts_push_eq, bind_val by apply (inv_finsts _ _ _ _ Ho0). change (Z.to_nat 1) with 1%nat. fold o1.
    change (records (t3 o1)) with rs.
    rewrite Eidx, bind_val.
    cbn [touched r_t_created r_count]. change (clock o1) with (clock o0). destruct Hrok. unfold saturating_sub, CLOCK_MAX in *.
    rewrite Z.max_r, touch_record_eq, bind_val by lia. rewrite Ec, Er. fold rec. rewrite Ex, bind_val.
    rewrite tick_eq by (change (0 <= clock o0 < CLOCK_MAX); unfold CLOCK_MAX; lia). done.
  - exact (tick_inv _ _ _ _ Ho2).
Qed.

(** ** Reading *)

Lemma find_by_id {A} (f : A -> Z) l id : map f l = seqZ 0 (zlen l) ->
  List.find (fun x => f x =? id) l = if decide (0 <= id) then l !! Z.to_nat id else None.
Proof.
  enough (forall base, map f l = seqZ base (zlen l) ->
    List.find (fun x => f x =? id) l = if decide (base <= id) then l !! Z.to_nat (id - base) else None) as Hall.
  { intros Hm. rewrite (Hall 0 Hm), Z.sub_0_r. done. }
  induction l as [|x l IH]; intros base Hm; cbn [List.find]; [by destruct (decide _)|].
  rewrite zlen_cons, seqZ_cons in Hm by (pose proof (zlen_nonneg l); lia). cbn [map] in Hm. injection Hm as Hx Hm.
  replace (Z.pred (1 + zlen l)) with (zlen l) in Hm by lia. rewrite (IH _ Hm), Hx.
  destruct (Z.eqb_spec base id) as [->|Hne].
  - by rewrite decide_True, Z.sub_diag by lia.
  - destruct (decide (Z.succ base <= id)).
    + rewrite decide_True by lia. by replace (Z.to_nat (id - base)) with (Datatypes.S (Z.to_nat (id - Z.succ base))) by lia.
    + by rewrite decide_False by lia.
Qed.

Lemma read_eq o L X K id : organ_inv o L X K -> 0 <= id -> read o id = e_value <$> log (t2 o) !! Z.to_nat id.
Proof.
  intros Ho Hid. unfold read. rewrite (find_by_id e_id) by apply (st_ids _ _ _ (inv_store _ _ _ _ Ho)).
  by rewrite decide_True by done.
Qed.

Lemma read_touch_some o L X K id v : organ_inv o L X K -> clock o < CLOCK_MAX -> 0 <= id -> read o id = Some v ->
  exists x, read_touch o id = Val (set_xp o x, Some v) /\ 0 <= id < zlen (records (t3 o)) /\
    organ_inv (set_xp o x) L (X ++ [touch_of id (clock o - r_t_created (rec_at o id)) (r_count (rec_at o id))]) K.
Proof.
  intros Ho Hc Hid Hv. pose proof (inv_store _ _ _ _ Ho) as Hs. pose proof (store_len _ _ _ Hs) as Hl.
  pose proof (st_cap _ _ _ Hs) as Hcap. unfold TOKEN_QUOTA in Hcap.
  assert (0 <= id < zlen (records (t3 o))) as Hr.
  { rewrite (read_eq _ _ _ _ _ Ho Hid) in Hv. apply fmap_Some in Hv as (e & He & _). apply lookup_lt_Some in He.
    rewrite Hl. unfold zlen. lia. }
  destruct (rec_at_ok _ _ _ _ _ Ho Hr) as [[] Hrid]. unfold CLOCK_MAX in *.
  destruct (xp_observe_ok o L X K (touch_of id (clock o - r_t_created (rec_at o id)) (r_count (rec_at o id))) Ho) as (x & Ex & Ho').
  { apply touch_of_ok. unfold in_u. lia. }
  exists x. split; [|by split]. unfold read_touch. rewrite Hv.
  rewrite (find_by_id r_id) by (rewrite Hl; exact (store_ids _ _ _ Hs)). rewrite decide_True by done.
  assert (records (t3 o) !! Z.to_nat id = Some (rec_at o id)) as -> by (apply list_lookup_lookup_total_lt; unfold zlen in Hr; lia).
  unfold saturating_sub. rewrite Z.max_r, touch_record_eq, bind_val by lia. by rewrite Ex, bind_val.
Qed.

(** ** Every call advances *)

Lemma write_advances o L X K op key value packed :
  organ_inv o L X K -> clock o + 1 < CLOCK_MAX -> 0 <= op -> is_u64 key -> is_u64 value ->
  runs (write o op key value packed) (fun '(o', _) => exists L', advances 1 o L X K o' L' [] []).
Proof.
  intros Ho Hc Hop Hk Hv. pose proof (inv_clock _ _ _ _ Ho). pose proof (inv_quota _ _ _ _ Ho) as (_ & _ & Hq).
  assert (forall o', organ_inv o' L X K -> t4 o' = t4 o -> log (t2 o') = log (t2 o) -> clock o <= clock o' <= clock o + 1 -> advances 1 o L X K o' [] [] []) as Hquiet.
  { intros o' Ho' E4 El Hc'. constructor; [by rewrite !app_nil_r | rewrite E4; apply no_promotion_refl | rewrite El; apply journal_grows_refl | done]. }
  destruct (is_add op) eqn:Ea.
  { destruct (decide (tokens_written (quota o) = TOKEN_QUOTA)) as [Hfull|Hlt].
    - rewrite write_full by done. apply runs_val. exists []. apply Hquiet; [by apply accumulated_inv | done | done |].
      change (clock (accumulated o packed)) with (clock o). lia.
    - destruct (write_add o L X K op key value packed Ho Hc Hk Hv Ea ltac:(lia)) as (b & l & _ & E & Ec & Ho').
      rewrite E. apply runs_val. eexists [_]. constructor; [by rewrite !app_nil_r | apply no_promotion_refl | apply journal_grows_snoc|].
      change (clock o <= Prov.clock l <= clock o + 1). lia. }
  destruct (decide (op = 2)) as [->|Hne].
  - destruct (delete_spec o key) as [[Hno _]|(pre & x & tl & Er & Hx & Htl & _)]; [lia | |].
    + rewrite write_delete_none by (done || lia). apply runs_val. exists []. apply Hquiet; [by apply tick_inv | done | done |].
      change (clock (set_clock o (clock o + 1))) with (clock o + 1). lia.
    + destruct (write_delete o L X K key value packed pre x tl Ho Hc Hk Er Hx Htl) as (l & E & Ec & Ho').
      rewrite E. apply runs_val. eexists [_]. constructor; [by rewrite !app_nil_r | apply no_promotion_refl | | change (clock o <= Prov.clock l <= clock o + 1); lia].
      apply journal_grows_kept, ep_invalidate_kept.
  - rewrite write_noop by (unfold is_add in Ea; lia). apply runs_val. exists []. apply Hquiet; [done | done | done | lia].
Qed.

Lemma read_touch_advances o L X K id : organ_inv o L X K -> clock o < CLOCK_MAX -> 0 <= id ->
  runs (read_touch o id) (fun '(o', r) => r = read o id /\ exists X', advances 0 o L X K o' [] X' []).
Proof.
  intros Ho Hc Hid. destruct (read o id) as [v|] eqn:Ev.
  - destruct (read_touch_some o L X K id v Ho Hc Hid Ev) as (x & E & _ & Ho'). rewrite E. apply runs_val. split; [done|].
    eexists [_]. constructor; [by rewrite !app_nil_r | apply no_promotion_refl | apply journal_grows_refl | change (clock (set_xp o x)) with (clock o); lia].
  - unfold read_touch. rewrite Ev. apply runs_val. split; [done|]. exists []. by apply advances_refl.
Qed.

Lemma recall_advances o L X K query cursor : organ_inv o L X K -> clock o + 1 < CLOCK_MAX ->
  runs (recall o query cursor) (fun '(o', _) => exists X', advances 1 o L X K o' [] X' []).
Proof.
  intros Ho Hc. set (o0 := if cursor =? 0 then set_finsts o finsts_clear else o).
  assert (clock o0 = clock o /\ log (t2 o0) = log (t2 o) /\ t4 o0 = t4 o) as (Ec & El & E4) by (unfold o0; by destruct (cursor =? 0)).
  destruct (decide (cands o0 query = [])) as [He|Hne].
  - rewrite (recall_none o L X K query cursor Ho He). apply runs_val. exists [].
    constructor; [rewrite !app_nil_r; by apply cleared_inv | fold o0; rewrite E4; apply no_promotion_refl | fold o0; rewrite El; apply journal_grows_refl | fold o0; lia].
  - destruct (recall_some o L X K query cursor Ho Hc Hne) as (k & w & x & _ & _ & _ & _ & _ & E & Ho').
    fold o0 in E, Ho'. rewrite E. apply runs_val. eexists [_]. constructor; [by rewrite !app_nil_r | | |].
    + change (t4 (recalled o0 query w x)) with (t4 o0). rewrite E4. apply no_promotion_refl.
    + change (log (t2 (recalled o0 query w x))) with (log (t2 o0)). rewrite El. apply journal_grows_refl.
    + change (clock (recalled o0 query w x)) with (clock o0 + 1). lia.
Qed.

(** The empty organ. *)
Lemma new_inv (b : B) : bs_ok b -> organ_inv (new b) [] [] [].
Proof.
  intros Hb. constructor; try done.
  - apply chain_log_nil.
  - apply xp_new_log.
  - apply corpus_new_log.
Qed.
End organ_spec.

(** ** Properties *)

(** The write call, on every branch.  An append past the write quota is refused and
    changes nothing but the salience accumulator; otherwise the memory is appended to the
    journal and, hot and with a salience clamped to 1..10, to the semantic store, its id is
    the journal's length, a read of that id at once returns the value, and one ledger entry
    parented on the previous one names it.  A delete tombstones exactly the newest live
    memory of the token, in both tiers, and is ledgered; with none it only ticks the clock.
    Other operation codes change nothing. *)
Theorem organ_write_spec {B} `{BackingTotal B} (o : MemSubstrate B) L X K op key value packed :
  organ_inv o L X K -> clock o + 1 < CLOCK_MAX -> is_u64 key -> is_u64 value -> 0 <= op ->
  let n := zlen (log (t2 o)) in
  (is_add op = true -> tokens_written (quota o) = TOKEN_QUOTA ->
     write o op key value packed = Val (accumulated o packed, None)) /\
  (is_add op = true -> tokens_written (quota o) <> TOKEN_QUOTA ->
     exists o' e, write o op key value packed = Val (o', Some n) /\ organ_inv o' (L ++ [e]) X K /\
       log (t2 o') = log (t2 o) ++ [mkEp n key value (clock o) 0 0] /\
       records (t3 o') = records (t3 o) ++
         [mkRec n key (salience packed) 0 (zrepeat 10 0) 0 (clock o) 0 0 0 [] TIER_HOT 0] /\
       read o' n = Some value /\ clock o' = clock o + 1 /\
       tokens_written (quota o') = tokens_written (quota o) + 1 /\
       Prov.kind e = kind_WRITE /\ payload_tok e = key /\ writer_cap_id e = n /\ parent_ids e = parent_of_head o) /\
  (op = 2 ->
     (Forall (fun r => live_of key r = false) (records (t3 o)) ->
        write o op key value packed = Val (set_clock o (clock o + 1), None)) /\
     (forall pre x tl, records (t3 o) = pre ++ x :: tl -> live_of key x = true ->
        Forall (fun r => live_of key r = false) tl ->
        exists o' e, write o op key value packed = Val (o', Some (r_id x)) /\ organ_inv o' (L ++ [e]) X K /\
          records (t3 o') = pre ++ rec_invalidate (clock o) x :: tl /\
          log (t2 o') = map (fun e => if e_id e =? r_id x then ep_invalidate (clock o) e else e) (log (t2 o)) /\
          clock o' = clock o + 1 /\ Prov.kind e = kind_WRITE /\ payload_tok e = key /\ writer_cap_id e = r_id x)) /\
  (2 < op -> write o op key value packed = Val (o, Some 0)).
Proof.
  intros Ho Hc Hk Hv Hop n. pose proof (inv_clock _ _ _ _ Ho). pose proof (inv_quota _ _ _ _ Ho) as (_ & _ & Hq).
  split; [|split; [|split]].
  - intros. by apply write_full.
  - intros Ha Hfull. destruct (write_add o L X K op key value packed Ho Hc Hk Hv Ha ltac:(lia)) as (b & l & _ & E & Ec & Ho').
    do 2 eexists. split; [exact E|]. split; [exact Ho'|]. split; [done|]. split; [done|]. split; [|by repeat split].
    pose proof (zlen_nonneg (log (t2 o))). rewrite (read_eq _ _ _ _ _ Ho') by done.
    cbn [set_led t2 pushed set_clock set_backing set_quota set_t3 set_t2 log accumulated set_imp_accum].
    unfold n, zlen. by rewrite Nat2Z.id, list_lookup_middle.
  - intros ->. split; [intros; apply write_delete_none; [lia | done]|]. intros pre x tl Er Hx Htl.
    destruct (write_delete o L X K key value packed pre x tl Ho Hc Hk Er Hx Htl) as (l & E & Ec & Ho').
    do 2 eexists. split; [exact E|]. split; [exact Ho'|]. by repeat split.
  - intros. by apply write_noop.
Qed.

(** C39: recall returns the best memory and observes it.  Among the token's memories that are
    live, hot and outside the recently-retrieved ring (which a zero cursor clears), it
    returns the first one whose normalised activation plus normalised importance is largest
    — the relevance term is the same for all candidates of one token and normalises to 0 —
    and nothing when there is none.  Its only effects are one more access on that record,
    the retrieval register, which names the query and the memory found, the entry of both at
    the ring's head, one observation in the experience log and a tick: the other records and
    registers, the lexical index, the working graph, the journal, the skills, the quota and
    backing, the accumulated importance, the consolidation state, the provenance chain and
    the corpus are untouched. *)
Theorem organ_recall_spec {B} `{BackingTotal B} (o : MemSubstrate B) L X K query cursor :
  organ_inv o L X K -> clock o + 1 < CLOCK_MAX ->
  let o0 := if cursor =? 0 then set_finsts o finsts_clear else o in
  (cands o0 query = [] -> recall o query cursor = Val (o0, None)) /\
  (cands o0 query <> [] ->
     exists k w o', cands o0 query !! Z.to_nat k = Some w /\
       first_best (recall_score o0 (cands o0 query)) (zlen (cands o0 query)) k /\
       tokens o !! Z.to_nat w = Some query /\ r_t_invalid (rec_at o w) = 0 /\ r_tier (rec_at o w) = TIER_HOT /\
       finsts_contains (finsts o0) w = false /\
       recall o query cursor = Val (o', Some w) /\
       organ_inv o' L (X ++ [touch_of w (clock o - r_t_created (rec_at o w)) (saturating_add 32 (r_count (rec_at o w)) 1)]) K /\
       records (t3 o') = <[Z.to_nat w := touched (clock o) (rec_at o w)]> (records (t3 o)) /\
       finsts_contains (finsts o') w = true /\ log (t2 o') = log (t2 o) /\ clock o' = clock o + 1 /\
       chain_head (led o') = chain_head (led o) /\ corp o' = corp o /\ recall_effects o o0 query w o').
Proof.
  intros Ho Hc o0. split; [by apply (recall_none o L X K)|]. intros Hne.
  destruct (recall_some o L X K query cursor Ho Hc Hne) as (k & w & x & Ek & Hb & Hw & Hcand & Ht & E & Ho'). fold o0 in Ek, Hb, Hcand, E, Ho'.
  assert (clock o0 = clock o /\ t3 o0 = t3 o /\ rec_at o0 w = rec_at o w /\ log (t2 o0) = log (t2 o) /\ led o0 = led o /\ corp o0 = corp o)
    as (Ec & Et & Er & El & Eh & Eo) by (unfold o0; by destruct (cursor =? 0)).
  exists k, w, (recalled o0 query w x). split; [done|]. split; [done|]. split; [done|].
  unfold is_cand in Hcand. rewrite Er in Hcand. apply andb_true_iff in Hcand as [[Hi Htier]%andb_true_iff Hf].
  apply Z.eqb_eq in Hi, Htier. apply negb_true_iff in Hf. destruct (rec_at_ok o L X K w Ho Hw) as [_ Hid]. rewrite Hid in Hf.
  split; [done|]. split; [done|]. split; [done|]. split; [exact E|]. split; [exact Ho'|].
  split; [cbn; by rewrite Ec, Et, Er|]. split.
  { assert (zlen (ring (finsts o0)) = F_FINST /\ 0 <= f_head (finsts o0)) as [Hr Hh] by apply (cleared_inv _ _ _ _ cursor Ho).
    unfold finsts_contains. apply existsb_exists. exists (Some (w, clock o0)). rewrite Z.eqb_refl. split; [|done].
    apply list_elem_of_In. cbn. apply list_elem_of_insert. unfold zlen, F_FINST in *.
    pose proof (Z.mod_pos_bound (f_head (finsts o0)) 4 ltac:(lia)). lia. }
  split; [exact El|]. split; [cbn; change (clock o0 + 1 = clock o + 1); by rewrite Ec|]. split; [cbn; by rewrite Eh|].
  split; [exact Eo|]. apply recalled_effects.
Qed.

(** ** Witnesses *)

Lemma organ_write_spec_witness : let o := new Ram.default in
  exists o' e, write o 0 77 100 3 = Val (o', Some 0) /\ organ_inv o' [e] [] [] /\ read o' 0 = Some 100 /\ payload_tok e = 77.
Proof.
  intros o. destruct (organ_write_spec o [] [] [] 0 77 100 3) as (_ & Hadd & _).
  - by apply new_inv.
  - vm_compute. reflexivity.
  - unfold in_u. lia.
  - unfold in_u. lia.
  - lia.
  - destruct (Hadd eq_refl ltac:(vm_compute; discriminate)) as (o' & e & E & Ho & _ & _ & Hr & _ & _ & _ & Hp & _).
    exists o', e. split; [exact E|]. split; [exact Ho|]. split; [exact Hr | exact Hp].
Defined.

Lemma organ_recall_spec_witness : exists (o : MemSubstrate Ram.RamStore) o' L X K,
  organ_inv o L X K /\ recall o 77 0 = Val (o', Some 0) /\ read o 0 = Some 100.
Proof.
  destruct (write_add (new Ram.default) [] [] [] 0 77 100 3) as (b & l & _ & _ & Hl & Ho);
    [by apply new_inv | vm_compute; reflexivity | unfold in_u; lia | unfold in_u; lia | reflexivity | vm_compute; reflexivity |].
  set (e := ledger_entry _ _ _ _ _) in Ho. clearbody e. set (o := set_led _ _) in Ho.
  destruct (organ_recall_spec o ([] ++ [e]) [] [] 77 0 Ho) as (_ & Hsome).
  { change (Prov.clock l + 1 < CLOCK_MAX). rewrite Hl. vm_compute. reflexivity. }
  assert (cands (set_finsts o finsts_clear) 77 = [0]) as Ec by (vm_compute; reflexivity).
  change (if 0 =? 0 then set_finsts o finsts_clear else o) with (set_finsts o finsts_clear) in Hsome. rewrite Ec in Hsome.
  destruct Hsome as (k & w & o' & Ek & [Hk _] & _ & _ & _ & _ & E & _); [discriminate|].
  change (zlen [0]) with 1 in Hk. assert (k = 0) as -> by lia. injection Ek as <-.
  exists o, o', ([] ++ [e]), [], []. split; [exact Ho|]. split; [exact E | vm_compute; reflexivity].
Defined.
