(* ===== verification/Consolidate.v ===== *)
(** * Consolidation: the maintenance half of [MemSubstrate],
    [crates/tb-hal/src/mem/organ.rs].

    Distillation of near-duplicates, reflection, the forgetting sweep, the cycle that runs
    the three, and the selector [consolidate] behind the agent's call. *)
From Stdlib Require Import ZArith Lia.
From stdpp Require Import base numbers option tactics sets list.
From S2P Require Import Prelude Engine Prov Corpus Memscore Exp OrganLogs Organ.
Open Scope Z_scope.

Definition XP_ACTION_KEEP : Z := 0.
Definition XP_ACTION_DEMOTE : Z := 1.
Definition XP_ENV_PINNED : Z := 0.
Definition XP_ENV_DEMOTABLE : Z := 1.
Definition IMP_ACCUM_THRESHOLD : Z := 150.
Definition THETA_DEMOTE : Z := -1000.
Definition IMP_PIN : Z := 8.
Definition UTIL_PIN : Z := 600.
Definition MIN_AGE : Z := 16.
Definition SWEEP_BATCH : Z := 64.
Definition DISTILL_BATCH : Z := 32.
Definition REFLECT_WINDOW : Z := 16.
Definition REFLECT_IMP : Z := 5.
Definition REFLECT_SEED : Z := 0x9E3779B97F4A7C15.
Definition LINK_CITES : Z := 0.
Definition LINK_SUPERSEDES : Z := 2.
Definition KAN_ACTIVE : bool := false.

(** Field updates of a semantic record. *)
Definition rec_set_links (r : MemRecord) (ls : list (Z * Z)) : MemRecord :=
  mkRec (r_id r) (r_token r) (r_importance r) (r_count r) (r_last_ts r) (r_last_idx r) (r_t_created r)
    (r_t_invalid r) (r_c_succ r) (r_c_use r) ls (r_tier r) (r_provenance r).
Definition rec_set_provenance (r : MemRecord) (p : Z) : MemRecord :=
  mkRec (r_id r) (r_token r) (r_importance r) (r_count r) (r_last_ts r) (r_last_idx r) (r_t_created r)
    (r_t_invalid r) (r_c_succ r) (r_c_use r) (r_links r) (r_tier r) p.
Definition rec_set_importance (r : MemRecord) (i : Z) : MemRecord :=
  mkRec (r_id r) (r_token r) i (r_count r) (r_last_ts r) (r_last_idx r) (r_t_created r)
    (r_t_invalid r) (r_c_succ r) (r_c_use r) (r_links r) (r_tier r) (r_provenance r).
Definition rec_set_tier (r : MemRecord) (t : Z) : MemRecord :=
  mkRec (r_id r) (r_token r) (r_importance r) (r_count r) (r_last_ts r) (r_last_idx r) (r_t_created r)
    (r_t_invalid r) (r_c_succ r) (r_c_use r) (r_links r) t (r_provenance r).

Section consolidate.
Context {B : Type} `{BackingStore B}.

Definition over_threshold (o : MemSubstrate B) : bool := IMP_ACCUM_THRESHOLD <=? imp_accum o.

Definition corpus_emit (o : MemSubstrate B) (content_tok source_stream salience : Z) : res (MemSubstrate B) :=
  c ← corpus_emit_consolidation (corp o) (clock o) (chain_head (led o)) content_tok 0 source_stream salience;
  Val (set_corp o c).

(** ** Distillation *)

(** Phase A, one token's cluster: the survivor and the losers, if there are two live hot
    records. *)
Definition better (r s : MemRecord) : bool :=
  (r_importance s <? r_importance r)
  || ((r_importance r =? r_importance s) && (r_t_created s <? r_t_created r))
  || ((r_importance r =? r_importance s) && (r_t_created r =? r_t_created s) && (r_id r <? r_id s)).

Definition plan_cluster (recs : list MemRecord) (postings : list Z) : res (option (Z * list Z)) :=
  live ← fold_res (fun live ri =>
    r ← idx recs ri;
    Val (if (r_t_invalid r =? 0) && (r_tier r =? TIER_HOT) then live ++ [ri] else live)) [] postings;
  if zlen live <? 2 then Val None else
  s0 ← idx live 0;
  surv ← fold_res (fun surv ix =>
    r ← idx recs ix; s ← idx recs surv; Val (if better r s then ix else surv)) s0 live;
  Val (Some (surv, List.filter (fun ix => negb (ix =? surv)) live)).

Fixpoint plan_loop (recs : list MemRecord) (values : list (list Z)) (plan : list (Z * list Z))
  : res (list (Z * list Z)) :=
  match values with
  | [] => Val plan
  | postings :: values' =>
      c ← plan_cluster recs postings;
      match c with
      | None => plan_loop recs values' plan
      | Some c =>
          let plan := plan ++ [c] in
          if DISTILL_BATCH <=? zlen plan then Val plan else plan_loop recs values' plan
      end
  end.

(** Phase B, one loser: the derived duplicate is tombstoned, the survivor linked to it. *)
Definition distill_loser (surv : Z) (o : MemSubstrate B) (loser : Z) : res (MemSubstrate B) :=
  l ← idx (records (t3 o)) loser;
  rs ← upd (records (t3 o)) loser (rec_invalidate (clock o) l);
  s ← idx rs surv; rs ← upd rs surv (rec_set_links s (r_links s ++ [(LINK_SUPERSEDES, r_id l)]));
  s ← idx rs surv; rs ← upd rs surv (rec_set_links s (r_links s ++ [(LINK_CITES, r_id l)]));
  Val (set_records o rs).

Definition distill_cluster (p : MemSubstrate B * Z) (c : Z * list Z) : res (MemSubstrate B * Z) :=
  let '(o, merged) := p in
  let '(surv, losers) := c in
  '(o, merged) ← fold_res (fun '(o, merged) loser =>
    o ← distill_loser surv o loser; merged ← add_u 64 merged 1; Val (o, merged)) (o, merged) losers;
  s ← idx (records (t3 o)) surv;
  rs ← upd (records (t3 o)) surv (rec_set_provenance s 2);
  let o := set_records o rs in
  s ← idx (records (t3 o)) surv;
  o ← corpus_emit o (r_token s) M13_MEM (r_importance s);
  Val (o, merged).

Definition distill (o : MemSubstrate B) : res (MemSubstrate B * Z) :=
  plan ← plan_loop (records (t3 o)) (lex_values (lexical (t3 o))) [];
  '(o, merged) ← fold_res distill_cluster (o, 0) plan;
  Val (if 0 <? merged then tick o else o, merged).

(** ** Reflection *)

Definition skipped (r : MemRecord) : bool :=
  negb (r_t_invalid r =? 0) || negb (r_tier r =? TIER_HOT) || (r_provenance r =? 1).
Definition mix_digest (digest : Z) (r : MemRecord) : Z :=
  Z.lxor (Z.lxor (rotate_left 64 digest 7) (r_token r)) (r_importance r).

(** The two loops over the records, newest first, as the source has them. *)
Fixpoint digest_loop (rs : list MemRecord) (digest n : Z) : Z :=
  match rs with
  | [] => digest
  | r :: rs' =>
      if skipped r then digest_loop rs' digest n else
      let digest := mix_digest digest r in
      let n := n + 1 in
      if REFLECT_WINDOW <=? n then digest else digest_loop rs' digest n
  end.
Definition reflect_digest (o : MemSubstrate B) : Z := digest_loop (reverse (records (t3 o))) REFLECT_SEED 0.

Fixpoint reflect_loop (rs : list MemRecord) (cites : list Z) (digest : Z) : list Z * Z :=
  match rs with
  | [] => (cites, digest)
  | r :: rs' =>
      if skipped r then reflect_loop rs' cites digest else
      let digest := mix_digest digest r in
      let cites := cites ++ [r_id r] in
      if REFLECT_WINDOW <=? zlen cites then (cites, digest) else reflect_loop rs' cites digest
  end.

(** The cited source resists forgetting: its first match gains importance. *)
Definition strengthen (rs : list MemRecord) (cid : Z) : list MemRecord :=
  fst (update_first (fun r => r_id r =? cid)
         (fun r => rec_set_importance r (Z.min (saturating_add 8 (r_importance r) 1) 10)) rs).

Definition reflect_inner (o : MemSubstrate B) (model_token : Z) : res (MemSubstrate B * option Z) :=
  let '(cites, digest) := reflect_loop (reverse (records (t3 o))) [] REFLECT_SEED in
  if zlen cites =? 0 then Val (o, None) else
  let insight_token := if negb (model_token =? 0) then model_token else digest in
  let links := map (fun id => (LINK_CITES, id)) cites in
  '(o, new_id) ← push_record o insight_token insight_token REFLECT_IMP 1 links;
  match new_id with
  | None => Val (o, None)
  | Some new_id =>
      let o := set_records o (fold_left strengthen cites (records (t3 o))) in
      o ← corpus_emit o insight_token M17_REFLECT REFLECT_IMP;
      Val (o, Some new_id)
  end.

(** ** Forgetting *)

(** One record under the clock-hand: the observation, if it is past the grace window, and
    whether it is demoted. *)
Definition forget_decide (clk : Z) (r : MemRecord) : res (option ExperienceRecord * bool) :=
  if negb (r_t_invalid r =? 0) || negb (r_tier r =? TIER_HOT) then Val (None, false) else
  let age := saturating_sub clk (r_t_created r) in
  if age <? MIN_AGE then Val (None, false) else
  bla ← bla_raw (r_count r) age;
  a ← i64 (r_c_succ r + 1); a ← i64 (a * SCALE); b ← i64 (r_c_use r + 2); util ← div_i64 a b;
  let safe_to_demote := (bla <? THETA_DEMOTE) && (r_importance r <? IMP_PIN) && (util <? UTIL_PIN) in
  let feats := [quantize_feature (to_signed 64 age); quantize_feature (r_count r); 0; 0] in
  shadow ← kan_score KAN_TABLE feats XP_SHADOW_FLAG_TERMS XP_SHADOW_BIAS;
  let action := if safe_to_demote then XP_ACTION_DEMOTE else XP_ACTION_KEEP in
  let verdict := if safe_to_demote then XP_ENV_DEMOTABLE else XP_ENV_PINNED in
  d ← i64 (bla - THETA_DEMOTE);
  let margin := clamp d (- 2 ^ 15) (2 ^ 15 - 1) in
  let m := if safe_to_demote then EXPLORE_CLEARED_M else EXPLORE_SINGLETON_M in
  is_greedy ← explore_is_greedy (r_id r) m;
  let propensity_q := explore_propensity_q EPS_NUM EPS_DEN m is_greedy in
  let policy_kind := if 1 <? m then SOFT_GREEDY else DETERMINISTIC in
  let xp_obs := {| decision_id := r_id r; xp_kind := FORGET_DECISION; feats := feats; envelope_verdict := verdict;
                   action_taken := action; kan_score_shadow := shadow; logging_propensity_q := propensity_q;
                   logging_policy_kind := policy_kind; xp_outcome := Exp.Unset; margin_q := margin |} in
  let demote := if KAN_ACTIVE && safe_to_demote then safe_to_demote && (shadow <? THETA_DEMOTE) else safe_to_demote in
  Val (Some xp_obs, demote).

Definition forget_step (len : Z) (s : MemSubstrate B * Z * Z) : res (MemSubstrate B * Z * Z) :=
  let '(o, ix, n) := s in
  r ← idx (records (t3 o)) ix;
  '(xp_obs, demote) ← forget_decide (clock o) r;
  o ← match xp_obs with Some rec => xp_observe o rec | None => Val o end;
  '(o, n) ← (if (demote : bool) then
    t ← idx (records (t3 o)) ix;
    rs ← upd (records (t3 o)) ix (rec_set_tier t TIER_COLD);
    let o := set_records o rs in
    n ← add_u 64 n 1;
    '(o, _) ← ledger o kind_FORGET (r_token t) TIER_COLD (r_id t) (parent_of_head o);
    Val (o, n)
  else Val (o, n));
  ix ← urem (ix + 1) len;
  Val (o, ix, n).

Definition forget_sweep (o : MemSubstrate B) : res (MemSubstrate B * Z) :=
  let len := zlen (records (t3 o)) in
  if len =? 0 then Val (o, 0) else
  start ← urem (consol_cursor o) len;
  let budget := if SWEEP_BATCH <? len then SWEEP_BATCH else len in
  '(o, _, n) ← for_up 0 budget (fun _ s => forget_step len s) (o, start, 0);
  c ← add_u 64 start budget; c ← urem c len;
  Val (set_consol_cursor o c, n).

(** ** The cycle and the selector *)

Definition consolidation_cycle (o : MemSubstrate B) : res (MemSubstrate B * Z) :=
  '(o, n) ← distill o;
  '(o, r) ← reflect_inner o 0;
  n ← match r with Some _ => add_u 64 n 1 | None => Val n end;
  '(o, f) ← forget_sweep o;
  n ← add_u 64 n f;
  let o := set_last_consolidated_epoch (set_imp_accum o 0) (clock o) in
  '(b, _) ← bs_flush (backing o);
  Val (set_backing o b, n).

Definition consolidate (o : MemSubstrate B) (op a b c : Z) : res (MemSubstrate B * Z) :=
  if op =? 0 then
    let hit r := (r_id r =? a) && (r_t_invalid r =? 0) in
    let n := zlen (List.filter hit (records (t3 o))) in
    let o := set_records o (map (fun r => if hit r then rec_invalidate (clock o) r else r) (records (t3 o))) in
    let o := set_log o (map (fun e => if (e_id e =? a) && (e_t_invalid e =? 0) then ep_invalidate (clock o) e else e)
                          (log (t2 o))) in
    '(bk, _) ← bs_flush (backing o);
    Val (tick (set_backing o bk), n)
  else if op =? 1 then
    let '(rs, found) := update_first (fun r => r_id r =? a)
                          (fun r => rec_set_links r (r_links r ++ [(wrap 8 c, b)])) (records (t3 o)) in
    Val (set_records o rs, match found with Some _ => 1 | None => 0 end)
  else if op =? 2 then Val (set_t1 o (gc (t1 o)), 0)
  else if op =? 3 then consolidation_cycle o
  else if op =? 4 then '(o, r) ← reflect_inner o a; Val (o, default 0 r)
  else if op =? 5 then forget_sweep o
  else if op =? 6 then Val (o, reflect_digest o)
  else if op =? 7 then Val (o, imp_accum o)
  else if op =? 8 then
    Val (o, match List.find (fun r => r_id r =? a) (records (t3 o)) with Some r => zlen (r_links r) | None => 0 end)
  else Val (o, 0).
End consolidate.

(** Three memories of a token distil to the most important, a reflection cites it, and a
    sweep finds them all within the grace window. *)
Definition demo_cycle : res (Z * option Z * Z * list (Z * Z)) :=
  let o := new Ram.default in
  '(o, _) ← write o 0 77 100 3; '(o, _) ← write o 0 77 200 9; '(o, _) ← write o 0 77 300 4;
  '(o, n) ← consolidate o 3 0 0 0;
  '(o, a) ← recall o 77 0;
  '(o, k) ← consolidate o 8 1 0 0;
  Val (n, a, k, match records (t3 o) !! 1%nat with Some r => r_links r | None => [] end).
Example demo_cycle_runs : demo_cycle = Val (3, Some 1, 4, [(2, 0); (0, 0); (2, 2); (0, 2)]).
Proof. vm_compute. reflexivity. Qed.
