(* ===== verification/ConsolidateSpec.v ===== *)
(** * What consolidation does: specifications of [Consolidate].

    Each maintenance operation in closed form on the records, with what it appends to the
    three logs. *)
From Stdlib Require Import ZArith Lia.
From stdpp Require Import base numbers option tactics sets list.
From S2P Require Import Prelude Engine Prov Corpus Memscore Exp OrganLogs Organ OrganSpec Consolidate.
Open Scope Z_scope.

#[local] Existing Instance MemRecord_inhabited.

Section consolidate_spec.
Context {B : Type} `{BackingTotal B}.
Implicit Types (o : MemSubstrate B) (L : list ProvEntry) (X : list ExperienceRecord) (K : list CorpusRecord).

(** ** Changing the records *)

Lemma set_records_inv o L X K rs : organ_inv o L X K -> Forall2 (rec_kept (clock o)) (records (t3 o)) rs ->
  organ_inv (set_records o rs) L X K.
Proof.
  intros Ho Hk. constructor; try apply Ho.
  change (store_ok (clock o) (t2 o) (mkSem rs (lexical (t3 o)) (num_docs (t3 o)) (total_len (t3 o)))).
  apply store_ok_records; [apply Ho | done].
Qed.

Lemma recs_ok o L X K : organ_inv o L X K -> Forall (rec_ok (clock o)) (records (t3 o)).
Proof. intros Ho. apply (inv_store _ _ _ _ Ho). Qed.

(** Records changed by a function of their position. *)
Lemma rec_kept_by c (l l' : list MemRecord) (f : nat -> MemRecord -> MemRecord) : Forall (rec_ok c) l ->
  (forall i r, l !! i = Some r -> rec_kept c r (f i r)) -> (forall i, l' !! i = f i <$> l !! i) -> Forall2 (rec_kept c) l l'.
Proof.
  intros Hl Hf Hl'. apply Forall2_same_length_lookup. split.
  - assert (forall i, is_Some (l' !! i) <-> is_Some (l !! i)) as Hs by (intros i; rewrite Hl'; apply fmap_is_Some).
    destruct (Nat.lt_trichotomy (length l) (length l')) as [Hlt|[He|Hlt]]; [|done|].
    + apply lookup_lt_is_Some in Hlt. apply Hs, lookup_lt_is_Some in Hlt. lia.
    + apply lookup_lt_is_Some in Hlt. apply Hs, lookup_lt_is_Some in Hlt. lia.
  - intros i r r' Hi Hi'. rewrite Hl', Hi in Hi'. injection Hi' as <-. by apply Hf.
Qed.

Lemma kept_links c r ls : rec_ok c r -> rec_kept c r (rec_set_links r ls).
Proof. intros []. split; [done|]. split; [done|]. split; [done|]. by constructor. Qed.
Lemma kept_provenance c r p : rec_ok c r -> rec_kept c r (rec_set_provenance r p).
Proof. intros []. split; [done|]. split; [done|]. split; [done|]. by constructor. Qed.
Lemma kept_tier c r t : rec_ok c r -> rec_kept c r (rec_set_tier r t).
Proof. intros []. split; [done|]. split; [done|]. split; [done|]. by constructor. Qed.
Lemma kept_importance c r i : rec_ok c r -> 1 <= i <= 10 -> rec_kept c r (rec_set_importance r i).
Proof. intros [] Hi. split; [done|]. split; [done|]. split; [done|]. by constructor. Qed.

Lemma rec_kept_trans c r1 r2 r3 : rec_kept c r1 r2 -> rec_kept c r2 r3 -> rec_kept c r1 r3.
Proof. unfold rec_kept. intuition congruence. Qed.

(** ** The corpus seam *)

Definition example_of o (tok stream salience : Z) : CorpusRecord :=
  corpus_example EPISODIC_CONSOLIDATION stream (corpus_curate tok salience) tok 0 (clock o) (chain_head (led o)) Corpus.Unset.

Lemma corpus_emit_ok o L X K tok stream sal : organ_inv o L X K -> clock o < CLOCK_MAX -> is_u64 tok -> is_u8 stream ->
  exists c, corpus_emit o tok stream sal = Val (set_corp o c) /\ organ_inv (set_corp o c) L X (K ++ [example_of o tok stream sal]).
Proof.
  intros Ho Hc Ht Hs. pose proof (inv_clock _ _ _ _ Ho). unfold CLOCK_MAX in *.
  destruct (corpus_emit_consolidation_ok (corp o) K (clock o) (chain_head (led o)) tok 0 stream sal (inv_corpus _ _ _ _ Ho))
    as (c & E & Hlog); [unfold in_u; lia | exact (log_head_digest _ _ _ (inv_ledger _ _ _ _ Ho)) | done | unfold in_u; lia | done |].
  exists c. unfold corpus_emit. rewrite E, bind_val. split; [done|]. constructor; try apply Ho. done.
Qed.

(** ** Distillation: the plan *)

Definition live_hot (recs : list MemRecord) (i : Z) : bool :=
  let r := recs !!! Z.to_nat i in (r_t_invalid r =? 0) && (r_tier r =? TIER_HOT).

Lemma recs_idx (recs : list MemRecord) i : 0 <= i < zlen recs -> idx recs i = Val (recs !!! Z.to_nat i).
Proof. intros Hi. apply idx_Some; [lia|]. apply list_lookup_lookup_total_lt. unfold zlen in Hi. lia. Qed.

(** A cluster: the live hot memories of one posting list, at least two, and the best of
    them. *)
Record cluster_of (recs : list MemRecord) (postings : list Z) (c : Z * list Z) : Prop := {
  cl_live : 2 <= zlen (List.filter (live_hot recs) postings);
  cl_surv : fst c ∈ List.filter (live_hot recs) postings;
  cl_best : forall i, i ∈ List.filter (live_hot recs) postings -> better (recs !!! Z.to_nat i) (recs !!! Z.to_nat (fst c)) = false;
  cl_losers : snd c = List.filter (fun i => negb (i =? fst c)) (List.filter (live_hot recs) postings);
}.

(** [better] is a strict order: a new champion is not beaten by what the old one beat. *)
Lemma better_champion r s t : better r t = false -> better s t = true -> better r s = false.
Proof. unfold better. lia. Qed.
Lemma better_irrefl r : better r r = false.
Proof. unfold better. lia. Qed.

Lemma live_filter_eq recs ps : Forall (fun i => 0 <= i < zlen recs) ps ->
  fold_res (fun live ri =>
    r ← idx recs ri;
    Val (if (r_t_invalid r =? 0) && (r_tier r =? TIER_HOT) then live ++ [ri] else live)) [] ps =
  Val (List.filter (live_hot recs) ps).
Proof.
  intros Hps. enough (forall acc, fold_res (fun live ri =>
    r ← idx recs ri; Val (if (r_t_invalid r =? 0) && (r_tier r =? TIER_HOT) then live ++ [ri] else live)) acc ps =
    Val (acc ++ List.filter (live_hot recs) ps)) as Hall by apply (Hall []).
  induction Hps as [|i ps Hi _ IH]; intros acc; [cbn; by rewrite app_nil_r|].
  rewrite fold_res_cons, recs_idx, bind_val, bind_val, IH by done. cbn [List.filter]. unfold live_hot at 2.
  destruct (_ && _); [by rewrite <- app_assoc | done].
Qed.

Lemma champion_eq recs live s0 : Forall (fun i => 0 <= i < zlen recs) live -> 0 <= s0 < zlen recs ->
  exists surv, fold_res (fun surv ix =>
      r ← idx recs ix; s ← idx recs surv; Val (if better r s then ix else surv)) s0 live = Val surv /\
    (surv = s0 \/ surv ∈ live) /\ better (recs !!! Z.to_nat s0) (recs !!! Z.to_nat surv) = false /\
    forall i, i ∈ live -> better (recs !!! Z.to_nat i) (recs !!! Z.to_nat surv) = false.
Proof.
  intros Hl. revert s0. induction Hl as [|i live Hi _ IH]; intros s0 Hs.
  - exists s0. split; [done|]. split; [by left|]. split; [apply better_irrefl | set_solver].
  - rewrite fold_res_cons, !recs_idx, !bind_val by done.
    destruct (better (recs !!! Z.to_nat i) (recs !!! Z.to_nat s0)) eqn:Eb.
    + destruct (IH i Hi) as (surv & E & Hin & Hb & Hall). exists surv. split; [exact E|]. split; [set_solver|].
      assert (better (recs !!! Z.to_nat s0) (recs !!! Z.to_nat i) = false) as Hsi by (unfold better in *; lia).
      split; [|set_solver]. clear - Hb Eb. unfold better in *. lia.
    + destruct (IH s0 Hs) as (surv & E & Hin & Hb & Hall). exists surv. split; [exact E|]. split; [set_solver|]. split; [done|].
      intros j [->|Hj]%elem_of_cons; [|by apply Hall]. clear - Hb Eb. unfold better in *. lia.
Qed.

Lemma plan_cluster_eq recs ps : Forall (fun i => 0 <= i < zlen recs) ps ->
  exists c, plan_cluster recs ps = Val c /\
    match c with
    | Some c => cluster_of recs ps c
    | None => zlen (List.filter (live_hot recs) ps) < 2
    end.
Proof.
  intros Hps. unfold plan_cluster. rewrite live_filter_eq, bind_val by done. set (live := List.filter (live_hot recs) ps).
  destruct (Z.ltb_spec (zlen live) 2) as [Hlt|Hge]; [by exists None|].
  assert (Forall (fun i => 0 <= i < zlen recs) live) as Hl.
  { apply Forall_forall. intros i Hi%list_elem_of_In%List.filter_In. rewrite Forall_forall in Hps.
    apply Hps, list_elem_of_In, Hi. }
  destruct (idx_ok live 0) as [s0 Es]; [lia|]. pose proof (idx_val_inv _ _ _ Es) as [_ El].
  pose proof (list_elem_of_lookup_2 _ _ _ El) as Hs0. rewrite Es, bind_val.
  assert (0 <= s0 < zlen recs) as Hs by (rewrite Forall_forall in Hl; by apply Hl).
  destruct (champion_eq recs live s0 Hl Hs) as (surv & -> & Hin & _ & Hall). rewrite bind_val.
  eexists. split; [done|]. constructor; cbn [fst snd]; [done | | done | done].
  by destruct Hin as [->|Hin].
Qed.

(** The plan is the clusters of the first tokens, in order: of all of them, unless it stopped
    at [DISTILL_BATCH]. *)
Lemma plan_loop_eq recs (f : Z -> list Z) keys plan0 : (forall k, Forall (fun i => 0 <= i < zlen recs) (f k)) ->
  zlen plan0 < DISTILL_BATCH ->
  exists toks plan, plan_loop recs (map f keys) plan0 = Val (plan0 ++ plan) /\
    toks `sublist_of` keys /\ Forall2 (fun k c => cluster_of recs (f k) c) toks plan /\ zlen (plan0 ++ plan) <= DISTILL_BATCH /\
    (zlen (plan0 ++ plan) < DISTILL_BATCH ->
       Forall (fun k => k ∈ toks \/ zlen (List.filter (live_hot recs) (f k)) < 2) keys).
Proof.
  intros Hf. revert plan0. induction keys as [|k keys IH]; intros plan0 Hp; cbn [plan_loop map].
  { exists [], []. rewrite app_nil_r. split; [done|]. split; [constructor|]. split; [constructor|]. split; [lia | constructor]. }
  destruct (plan_cluster_eq recs (f k) (Hf k)) as (c & -> & Hc). rewrite bind_val. destruct c as [c|].
  - destruct (Z.leb_spec DISTILL_BATCH (zlen (plan0 ++ [c]))) as [Hge|Hlt].
    + exists [k], [c]. split; [done|]. split; [by apply sublist_skip, sublist_nil_l|]. split; [by constructor; [|constructor]|].
      rewrite zlen_app in *. change (zlen [c]) with 1 in *. split; lia.
    + destruct (IH (plan0 ++ [c]) Hlt) as (ks & plan & -> & Hsub & Hall & Hn & Hmore). rewrite <- app_assoc in *.
      exists (k :: ks), (c :: plan). split; [done|]. split; [by apply sublist_skip|]. split; [by constructor|]. split; [done|].
      intros Hs. constructor; [left; set_solver|]. eapply Forall_impl; [by apply Hmore|]. cbn. set_solver.
  - destruct (IH plan0 Hp) as (ks & plan & -> & Hsub & Hall & Hn & Hmore). exists ks, plan. split; [done|].
    split; [by apply sublist_cons|]. split; [done|]. split; [done|]. intros Hs. constructor; [by right | by apply Hmore].
Qed.

(** ** Distillation: the merge *)

(** [f] at position [j], nothing elsewhere. *)
Definition at_pos (j : Z) (f : MemRecord -> MemRecord) (i : nat) (r : MemRecord) : MemRecord :=
  if Z.of_nat i =? j then f r else r.

Lemma upd_at (l : list MemRecord) j f : 0 <= j < zlen l -> upd l j (f (l !!! Z.to_nat j)) = Val (imap (at_pos j f) l).
Proof.
  intros Hj. rewrite upd_ok by done. f_equal. apply list_eq. intros i. rewrite list_lookup_imap. unfold at_pos.
  destruct (decide (Z.to_nat j = i)) as [<-|Hne].
  - rewrite list_lookup_insert_eq by (unfold zlen in Hj; lia).
    rewrite (list_lookup_lookup_total_lt l) by (unfold zlen in Hj; lia). cbn. by rewrite Z2Nat.id, Z.eqb_refl by lia.
  - rewrite list_lookup_insert_ne by done. destruct (l !! i); cbn; [|done].
    by rewrite (proj2 (Z.eqb_neq _ _)) by lia.
Qed.

Lemma imap_imap (f g : nat -> MemRecord -> MemRecord) l : imap g (imap f l) = imap (fun i r => g i (f i r)) l.
Proof. apply list_eq. intros i. rewrite !list_lookup_imap. by destruct (l !! i). Qed.

Lemma zlen_imap (f : nat -> MemRecord -> MemRecord) l : zlen (imap f l) = zlen l.
Proof. unfold zlen. by rewrite length_imap. Qed.

Lemma imap_total (f : nat -> MemRecord -> MemRecord) l j : 0 <= j < zlen l ->
  imap f l !!! Z.to_nat j = f (Z.to_nat j) (l !!! Z.to_nat j).
Proof.
  intros Hj. apply list_lookup_total_correct. rewrite list_lookup_imap.
  by rewrite (list_lookup_lookup_total_lt l) by (unfold zlen in Hj; lia).
Qed.

Lemma at_pos_eq j f r : 0 <= j -> at_pos j f (Z.to_nat j) r = f r.
Proof. intros. unfold at_pos. by rewrite Z2Nat.id, Z.eqb_refl by done. Qed.

Definition link_pair (l : Z) : list (Z * Z) := [(LINK_SUPERSEDES, l); (LINK_CITES, l)].
Definition lose (clk surv l : Z) (i : nat) (r : MemRecord) : MemRecord :=
  at_pos surv (fun r => rec_set_links r (r_links r ++ link_pair l)) i (at_pos l (rec_invalidate clk) i r).
Definition distilled_cluster (clk : Z) (c : Z * list Z) (i : nat) (r : MemRecord) : MemRecord :=
  at_pos (fst c) (fun r => rec_set_provenance r 2) i (fold_left (fun r l => lose clk (fst c) l i r) (snd c) r).
Definition distilled (clk : Z) (plan : list (Z * list Z)) (i : nat) (r : MemRecord) : MemRecord :=
  fold_left (fun r c => distilled_cluster clk c i r) plan r.

Lemma at_pos_kept c j f i r : rec_ok c r -> (rec_ok c r -> rec_kept c r (f r)) -> rec_kept c r (at_pos j f i r).
Proof. intros Hr Hf. unfold at_pos. destruct (_ =? _); [by apply Hf | by split]. Qed.

Lemma lose_kept clk surv l i r : rec_ok clk r -> rec_kept clk r (lose clk surv l i r).
Proof.
  intros Hr. assert (rec_kept clk r (at_pos l (rec_invalidate clk) i r)) as Hk by (apply at_pos_kept; [done | apply rec_invalidate_kept]).
  eapply rec_kept_trans; [exact Hk|]. apply at_pos_kept; [apply Hk | intros; by apply kept_links].
Qed.

Lemma distilled_cluster_kept clk c i r : rec_ok clk r -> rec_kept clk r (distilled_cluster clk c i r).
Proof.
  intros Hr. unfold distilled_cluster. destruct c as [surv losers]. cbn [fst snd].
  assert (rec_kept clk r (fold_left (fun r l => lose clk surv l i r) losers r)) as Hk.
  { revert r Hr. induction losers as [|l ls IH]; intros r Hr; cbn [fold_left]; [by split|].
    pose proof (lose_kept clk surv l i r Hr) as Hk. eapply rec_kept_trans; [exact Hk | apply IH, Hk]. }
  eapply rec_kept_trans; [exact Hk|]. apply at_pos_kept; [apply Hk | intros; by apply kept_provenance].
Qed.

Lemma distilled_kept clk plan i r : rec_ok clk r -> rec_kept clk r (distilled clk plan i r).
Proof.
  unfold distilled. revert r. induction plan as [|c plan IH]; intros r Hr; cbn [fold_left]; [by split|].
  pose proof (distilled_cluster_kept clk c i r Hr) as Hk. eapply rec_kept_trans; [exact Hk | apply IH, Hk].
Qed.

Lemma imap_kept o L X K f : organ_inv o L X K -> (forall i r, rec_ok (clock o) r -> rec_kept (clock o) r (f i r)) ->
  organ_inv (set_records o (imap f (records (t3 o)))) L X K.
Proof.
  intros Ho Hf. apply set_records_inv; [done|]. apply (rec_kept_by _ _ _ f); [by apply (recs_ok _ _ _ _ Ho) | |].
  - intros i r Hi. apply Hf. exact (Forall_lookup_1 _ _ _ _ (recs_ok _ _ _ _ Ho) Hi).
  - intros i. apply list_lookup_imap.
Qed.

Lemma set_records_twice o rs rs' : set_records (set_records o rs) rs' = set_records o rs'.
Proof. done. Qed.

Lemma rec_id_at o L X K i : organ_inv o L X K -> 0 <= i < zlen (records (t3 o)) -> r_id (records (t3 o) !!! Z.to_nat i) = i.
Proof. intros Ho Hi. apply (rec_at_ok o L X K i Ho Hi). Qed.

Lemma distill_loser_eq o L X K surv l : organ_inv o L X K ->
  0 <= surv < zlen (records (t3 o)) -> 0 <= l < zlen (records (t3 o)) ->
  distill_loser surv o l = Val (set_records o (imap (lose (clock o) surv l) (records (t3 o)))).
Proof.
  intros Ho Hs Hl. unfold distill_loser. rewrite recs_idx, bind_val by done.
  rewrite (upd_at _ l (rec_invalidate (clock o))), bind_val by done.
  rewrite recs_idx, bind_val by (by rewrite zlen_imap).
  rewrite (rec_id_at o L X K l Ho Hl).
  rewrite (upd_at _ surv (fun r => rec_set_links r (r_links r ++ [(LINK_SUPERSEDES, l)]))), bind_val by (by rewrite zlen_imap).
  rewrite imap_imap, recs_idx, bind_val by (by rewrite zlen_imap).
  rewrite (upd_at _ surv (fun r => rec_set_links r (r_links r ++ [(LINK_CITES, l)]))), bind_val by (by rewrite zlen_imap).
  rewrite imap_imap. do 2 f_equal. apply list_eq. intros i. rewrite !list_lookup_imap. destruct (records (t3 o) !! i); cbn; [|done].
  f_equal. unfold lose, at_pos. destruct (Z.of_nat i =? surv); [|done]. unfold rec_set_links, link_pair. cbn [r_links]. by rewrite <- app_assoc.
Qed.

Lemma losers_eq surv losers : forall o L X K m, organ_inv o L X K -> 0 <= surv < zlen (records (t3 o)) ->
  Forall (fun l => 0 <= l < zlen (records (t3 o))) losers -> 0 <= m -> m + zlen losers < 2 ^ 64 ->
  fold_res (fun '(o, merged) loser => o ← distill_loser surv o loser; merged ← add_u 64 merged 1; Val (o, merged)) (o, m) losers =
    Val (set_records o (imap (fun i r => fold_left (fun r l => lose (clock o) surv l i r) losers r) (records (t3 o))), m + zlen losers).
Proof.
  induction losers as [|l losers IH]; intros o L X K m Ho Hs Hl Hm Hb.
  { cbn [fold_res fold_left]. change (zlen []) with 0. rewrite Z.add_0_r. do 2 f_equal.
    assert (imap (fun _ r => r) (records (t3 o)) = records (t3 o)) as -> by (apply list_eq; intros i; rewrite list_lookup_imap; by destruct (_ !! i)).
    by destruct o as [? ? ? [] ? ? ? ? ? ? ? ? ? ?]. }
  apply Forall_cons in Hl as [Hl Hls]. rewrite zlen_cons in *. pose proof (zlen_nonneg losers).
  rewrite fold_res_cons. rewrite (distill_loser_eq o L X K), bind_val by done. rewrite add_u_ok, !bind_val by lia.
  pose proof (imap_kept o L X K (lose (clock o) surv l) Ho (fun i r Hr => lose_kept (clock o) surv l i r Hr)) as Ho1.
  rewrite (IH _ L X K); [|done|by change (records _) with (imap (lose (clock o) surv l) (records (t3 o))); rewrite zlen_imap| |lia|lia].
  - change (records (t3 (set_records o ?rs))) with rs. change (clock (set_records o ?rs)) with (clock o).
    rewrite set_records_twice, imap_imap. cbn [fold_left]. do 2 f_equal. lia.
  - change (records (t3 (set_records o ?rs))) with rs. by rewrite zlen_imap.
Qed.

(** What a cluster touches, and what it changes there. *)
Definition members (c : Z * list Z) : list Z := fst c :: snd c.
Definition survived (c : Z * list Z) (r : MemRecord) : MemRecord :=
  rec_set_provenance (rec_set_links r (r_links r ++ concat (map link_pair (snd c)))) 2.

Lemma distilled_same clk c i r : r_token (distilled_cluster clk c i r) = r_token r /\
  r_importance (distilled_cluster clk c i r) = r_importance r.
Proof.
  unfold distilled_cluster, at_pos. destruct c as [surv ls]. cbn [fst snd].
  assert (r_token (fold_left (fun r l => lose clk surv l i r) ls r) = r_token r /\
    r_importance (fold_left (fun r l => lose clk surv l i r) ls r) = r_importance r) as [H1 H2].
  { revert r. induction ls as [|l ls IH]; intros r; cbn [fold_left]; [done|]. destruct (IH (lose clk surv l i r)) as [-> ->].
    unfold lose, at_pos. by destruct (_ =? l), (_ =? surv). }
  by destruct (_ =? surv).
Qed.

Lemma distilled_cluster_other clk c (i : nat) r : Z.of_nat i ∉ members c -> distilled_cluster clk c i r = r.
Proof.
  destruct c as [surv ls]. unfold members, distilled_cluster, at_pos. cbn [fst snd]. intros Hi.
  rewrite (proj2 (Z.eqb_neq _ surv)) by set_solver. revert r. induction ls as [|l ls IH]; intros r; cbn [fold_left]; [done|].
  rewrite IH by set_solver. unfold lose, at_pos. by rewrite !(proj2 (Z.eqb_neq _ _)) by set_solver.
Qed.

Lemma distilled_cluster_surv clk c (i : nat) r : fst c = Z.of_nat i -> Z.of_nat i ∉ snd c ->
  distilled_cluster clk c i r = survived c r.
Proof.
  destruct c as [surv ls]. unfold distilled_cluster, survived. cbn [fst snd]. intros -> Hi. unfold at_pos at 1. rewrite Z.eqb_refl.
  f_equal. revert r Hi. induction ls as [|l ls IH]; intros r Hi; cbn [fold_left map concat].
  - rewrite app_nil_r. by destruct r.
  - rewrite IH by set_solver. unfold lose, at_pos. rewrite Z.eqb_refl, (proj2 (Z.eqb_neq _ l)) by set_solver.
    unfold rec_set_links. cbn [r_links r_id r_token r_importance r_count r_last_ts r_last_idx r_t_created r_t_invalid r_c_succ r_c_use r_tier r_provenance].
    by rewrite <- app_assoc.
Qed.

Lemma distilled_cluster_lost clk c (i : nat) r : Z.of_nat i <> fst c -> Z.of_nat i ∈ snd c ->
  distilled_cluster clk c i r = rec_invalidate clk r.
Proof.
  destruct c as [surv ls]. unfold distilled_cluster. cbn [fst snd]. intros Hs. unfold at_pos.
  rewrite (proj2 (Z.eqb_neq _ surv)) by done.
  assert (forall r, Z.of_nat i ∈ ls -> fold_left (fun r l => lose clk surv l i r) ls r = rec_invalidate clk r) as Hall; [|apply Hall].
  assert (forall l r, lose clk surv l i r = if Z.of_nat i =? l then rec_invalidate clk r else r) as Hl.
  { intros l r'. unfold lose, at_pos. by rewrite (proj2 (Z.eqb_neq _ surv)) by done. }
  assert (forall r, fold_left (fun r l => lose clk surv l i r) ls (rec_invalidate clk r) = rec_invalidate clk r) as Hidem.
  { intros r'. clear - Hl. induction ls as [|l ls IH]; cbn [fold_left]; [done|]. rewrite Hl. by destruct (_ =? l). }
  intros r'. revert Hidem. induction ls as [|l ls IH]; intros Hidem Hi; [set_solver|]. cbn [fold_left].
  assert (forall r, fold_left (fun r l => lose clk surv l i r) ls (rec_invalidate clk r) = rec_invalidate clk r) as Hidem'.
  { intros r''. clear - Hl. induction ls as [|l' ls IH]; cbn [fold_left]; [done|]. rewrite Hl. by destruct (_ =? l'). }
  rewrite Hl. destruct (Z.eqb_spec (Z.of_nat i) l) as [<-|Hne]; [apply Hidem'|]. apply IH; [done | set_solver].
Qed.

Lemma distilled_none clk plan (i : nat) r : (forall c, c ∈ plan -> Z.of_nat i ∉ members c) -> distilled clk plan i r = r.
Proof.
  unfold distilled. revert r. induction plan as [|c plan IH]; intros r Hp; cbn [fold_left]; [done|].
  rewrite distilled_cluster_other by (apply Hp; set_solver). apply IH. set_solver.
Qed.

(** Clusters that share no memory: each is distilled on its own. *)
Definition disjoint_plan (plan : list (Z * list Z)) : Prop :=
  forall a b c d, plan !! a = Some c -> plan !! b = Some d -> a <> b -> forall x, x ∈ members c -> x ∉ members d.

Lemma distilled_one clk plan c (i : nat) r : disjoint_plan plan -> c ∈ plan -> Z.of_nat i ∈ members c ->
  distilled clk plan i r = distilled_cluster clk c i r.
Proof.
  intros Hd Hc Hi. apply list_elem_of_lookup_1 in Hc as [k Hk]. rewrite <- (take_drop_middle _ _ _ Hk) at 1.
  assert (forall j d, plan !! j = Some d -> j <> k -> Z.of_nat i ∉ members d) as Hother by (intros j d Hj Hne Hin; exact (Hd _ _ _ _ Hj Hk Hne _ Hin Hi)).
  unfold distilled. rewrite fold_left_app. cbn [fold_left]. fold (distilled clk (take k plan) i r).
  rewrite (distilled_none clk (take k plan)).
  - apply (distilled_none clk (drop (Datatypes.S k) plan)). intros d [j Hj]%list_elem_of_lookup_1. rewrite lookup_drop in Hj.
    apply (Hother _ _ Hj). lia.
  - intros d [j Hj]%list_elem_of_lookup_1. apply lookup_take_Some in Hj as [Hj Hlt]. apply (Hother _ _ Hj). lia.
Qed.

(** ** Distillation: the run *)

(** The corpus record of a cluster: its survivor's token and importance. *)
Definition distilled_example o (c : Z * list Z) : CorpusRecord :=
  example_of o (r_token (records (t3 o) !!! Z.to_nat (fst c))) M13_MEM (r_importance (records (t3 o) !!! Z.to_nat (fst c))).
Definition in_range (rs : list MemRecord) (c : Z * list Z) : Prop := Forall (fun i => 0 <= i < zlen rs) (members c).

Lemma distill_cluster_eq o L X K m c : organ_inv o L X K -> clock o < CLOCK_MAX -> in_range (records (t3 o)) c ->
  0 <= m -> m + zlen (snd c) < 2 ^ 64 ->
  exists k, let o' := set_corp (set_records o (imap (distilled_cluster (clock o) c) (records (t3 o)))) k in
    distill_cluster (o, m) c = Val (o', m + zlen (snd c)) /\ organ_inv o' L X (K ++ [distilled_example o c]).
Proof.
  intros Ho Hc Hin Hm Hb. destruct c as [surv losers]. apply Forall_cons in Hin as [Hs Hl]. cbn [fst snd] in Hs, Hl, Hb.
  unfold distill_cluster. rewrite (losers_eq surv losers o L X K m) by done. rewrite bind_val.
  set (rs1 := imap _ (records (t3 o))). change (records (t3 (set_records o ?rs))) with rs.
  assert (zlen rs1 = zlen (records (t3 o))) as Hz by apply zlen_imap.
  rewrite recs_idx, bind_val by (by rewrite Hz). rewrite (upd_at rs1 surv (fun r => rec_set_provenance r 2)), bind_val by (by rewrite Hz).
  rewrite set_records_twice. change (records (t3 (set_records o ?rs))) with rs.
  assert (imap (at_pos surv (fun r => rec_set_provenance r 2)) rs1 = imap (distilled_cluster (clock o) (surv, losers)) (records (t3 o))) as ->
    by (unfold rs1; by rewrite imap_imap).
  rewrite recs_idx, bind_val by (by rewrite zlen_imap). rewrite imap_total by done.
  destruct (distilled_same (clock o) (surv, losers) (Z.to_nat surv) (records (t3 o) !!! Z.to_nat surv)) as [-> ->].
  pose proof (imap_kept o L X K _ Ho (fun i r Hr => distilled_cluster_kept (clock o) (surv, losers) i r Hr)) as Ho1.
  assert (rec_ok (clock o) (records (t3 o) !!! Z.to_nat surv)) as Hrok by apply (rec_at_ok o L X K surv Ho Hs).
  destruct (corpus_emit_ok _ L X K (r_token (records (t3 o) !!! Z.to_nat surv)) M13_MEM (r_importance (records (t3 o) !!! Z.to_nat surv)) Ho1)
    as (k & E & Ho2); [done | apply Hrok | unfold M13_MEM, in_u; lia |].
  exists k. rewrite E. split; [done | exact Ho2].
Qed.

Lemma distill_fold_eq plan : forall o L X K m, organ_inv o L X K -> clock o < CLOCK_MAX ->
  Forall (in_range (records (t3 o))) plan -> 0 <= m -> m + zlen (concat (map snd plan)) < 2 ^ 64 ->
  exists k, let o' := set_corp (set_records o (imap (distilled (clock o) plan) (records (t3 o)))) k in
    fold_res distill_cluster (o, m) plan = Val (o', m + zlen (concat (map snd plan))) /\
    organ_inv o' L X (K ++ map (distilled_example o) plan).
Proof.
  induction plan as [|c plan IH]; intros o L X K m Ho Hc Hin Hm Hb.
  { exists (corp o). cbn [fold_res map concat]. change (zlen []) with 0. rewrite Z.add_0_r, app_nil_r.
    assert (imap (distilled (clock o) []) (records (t3 o)) = records (t3 o)) as ->
      by (apply list_eq; intros i; rewrite list_lookup_imap; by destruct (_ !! i)).
    assert (set_corp (set_records o (records (t3 o))) (corp o) = o) as -> by (by destruct o as [? ? ? [] ? ? ? ? ? ? ? ? ? ?]). done. }
  apply Forall_cons in Hin as [Hic Hin]. cbn [map concat] in Hb |- *. rewrite zlen_app in Hb.
  pose proof (zlen_nonneg (concat (map snd plan))). pose proof (zlen_nonneg (snd c)).
  destruct (distill_cluster_eq o L X K m c Ho Hc Hic Hm ltac:(lia)) as (k1 & E1 & Ho1).
  rewrite fold_res_cons, E1, bind_val. set (o1 := set_corp _ k1) in *.
  assert (records (t3 o1) = imap (distilled_cluster (clock o) c) (records (t3 o))) as Er by done.
  destruct (IH o1 L X (K ++ [distilled_example o c]) (m + zlen (snd c)) Ho1 Hc) as (k2 & E2 & Ho2).
  - rewrite Er. eapply Forall_impl; [exact Hin|]. unfold in_range. by rewrite zlen_imap.
  - lia.
  - lia.
  - exists k2. rewrite E2. assert (imap (distilled (clock o1) plan) (records (t3 o1)) = imap (distilled (clock o) (c :: plan)) (records (t3 o))) as Ei
      by (rewrite Er, imap_imap; done).
    rewrite Ei in *. rewrite zlen_app, Z.add_assoc. split; [done|].
    assert (map (distilled_example o1) plan = map (distilled_example o) plan) as Em.
    { apply List.map_ext_in. intros d Hd%list_elem_of_In. rewrite Forall_forall in Hin. specialize (Hin d Hd).
      apply Forall_cons in Hin as [Hd0 _]. unfold distilled_example. rewrite Er, !imap_total by done.
      destruct (distilled_same (clock o) c (Z.to_nat (fst d)) (records (t3 o) !!! Z.to_nat (fst d))) as [-> ->]. done. }
    rewrite <- app_assoc, Em in Ho2. exact Ho2.
Qed.

(** The plan distillation follows: clusters of distinct tokens, at most a batch of them, and
    of every token with two live hot memories unless the batch is full. *)
Record plan_of o (toks : list Z) (plan : list (Z * list Z)) : Prop := {
  pl_toks : NoDup toks;
  pl_clusters : Forall2 (fun k c => cluster_of (records (t3 o)) (positions k (tokens o)) c) toks plan;
  pl_batch : zlen plan <= DISTILL_BATCH;
  pl_all : zlen plan < DISTILL_BATCH -> forall k, k ∈ toks \/ zlen (List.filter (live_hot (records (t3 o))) (positions k (tokens o))) < 2;
}.

Lemma cluster_members recs ps c i : cluster_of recs ps c -> i ∈ members c <-> i ∈ List.filter (live_hot recs) ps.
Proof.
  intros [_ Hs _ Hl]. unfold members. rewrite Hl, elem_of_cons. split.
  - intros [->|Hi]; [done|]. by apply list_elem_of_In, List.filter_In, proj1, list_elem_of_In in Hi.
  - intros Hi. destruct (Z.eqb_spec i (fst c)) as [->|Hne]; [by left | right].
    apply list_elem_of_In, List.filter_In. split; [by apply list_elem_of_In|]. by rewrite (proj2 (Z.eqb_neq _ _)).
Qed.

Lemma plan_member o toks plan a c x : plan_of o toks plan -> plan !! a = Some c -> x ∈ members c ->
  exists k, toks !! a = Some k /\ x ∈ positions k (tokens o) /\ live_hot (records (t3 o)) x = true.
Proof.
  intros Hp Hc Hx. destruct (Forall2_lookup_r _ _ _ _ _ (pl_clusters _ _ _ Hp) Hc) as (k & Hk & Hcl).
  exists k. split; [done|]. apply (cluster_members _ _ _ _ Hcl) in Hx. apply list_elem_of_In, List.filter_In in Hx.
  by rewrite list_elem_of_In.
Qed.

Lemma plan_disjoint o toks plan : plan_of o toks plan -> disjoint_plan plan.
Proof.
  intros Hp a b c d Ha Hb Hne x Hx Hy. destruct (plan_member _ _ _ _ _ _ Hp Ha Hx) as (k & Hk & Hkx & _).
  destruct (plan_member _ _ _ _ _ _ Hp Hb Hy) as (j & Hj & Hjx & _).
  apply positions_elem in Hkx as [_ Hkx], Hjx as [_ Hjx]. rewrite Hkx in Hjx. injection Hjx as <-.
  apply Hne. eapply NoDup_lookup; [apply Hp | done | done].
Qed.

Lemma plan_in_range o toks plan : plan_of o toks plan -> Forall (in_range (records (t3 o))) plan.
Proof.
  intros Hp. apply Forall_forall. intros c [a Hc]%list_elem_of_lookup_1. apply Forall_forall. intros x Hx.
  destruct (plan_member _ _ _ _ _ _ Hp Hc Hx) as (k & _ & Hk & _). pose proof (positions_in_range o k) as Hr.
  rewrite Forall_forall in Hr. by apply Hr.
Qed.

Lemma zlen_positions_from i k ts : zlen (positions_from i k ts) <= zlen ts.
Proof.
  revert i. induction ts as [|t ts IH]; intros i; cbn [positions_from]; [done|]. specialize (IH (i + 1)).
  rewrite zlen_cons. destruct (t =? k); rewrite ?zlen_cons; lia.
Qed.

Lemma zlen_filter {A} (p : A -> bool) l : zlen (List.filter p l) <= zlen l.
Proof. induction l as [|x l IH]; cbn [List.filter]; [done|]. destruct (p x); rewrite !zlen_cons; lia. Qed.

Lemma plan_losers_bound o toks plan : plan_of o toks plan -> zlen (records (t3 o)) <= TOKEN_QUOTA ->
  zlen (concat (map snd plan)) < 2 ^ 63.
Proof.
  intros Hp Hn. enough (zlen (concat (map snd plan)) <= zlen plan * TOKEN_QUOTA) as Hb.
  { pose proof (pl_batch _ _ _ Hp). unfold DISTILL_BATCH, TOKEN_QUOTA in *. lia. }
  pose proof (pl_clusters _ _ _ Hp) as Hc. clear Hp. induction Hc as [|k c toks plan Hc _ IH]; [done|].
  cbn [map concat]. rewrite zlen_app, zlen_cons, (cl_losers _ _ _ Hc).
  pose proof (zlen_filter (fun i => negb (i =? fst c)) (List.filter (live_hot (records (t3 o))) (positions k (tokens o)))).
  pose proof (zlen_filter (live_hot (records (t3 o))) (positions k (tokens o))). pose proof (zlen_positions_from 0 k (tokens o)).
  unfold positions, tokens in *. assert (zlen (map r_token (records (t3 o))) = zlen (records (t3 o))) by (unfold zlen; by rewrite length_map). lia.
Qed.

Lemma plan_runs o L X K : organ_inv o L X K ->
  exists toks plan, plan_loop (records (t3 o)) (lex_values (lexical (t3 o))) [] = Val plan /\ plan_of o toks plan.
Proof.
  intros Ho. rewrite (st_lex _ _ _ (inv_store _ _ _ _ Ho)), index_values_eq. fold (tokens o).
  destruct (index_keys (tokens o)) as [Hnd Hkeys].
  destruct (plan_loop_eq (records (t3 o)) (fun k => positions k (tokens o)) (map fst (index_of (tokens o))) [])
    as (toks & plan & -> & Hsub & Hcl & Hn & Hall); [apply positions_in_range | done |].
  exists toks, plan. split; [done|]. constructor; [|done|done|].
  - by eapply sublist_NoDup.
  - intros Hlt k. destruct (decide (k ∈ tokens o)) as [Hk|Hk].
    + specialize (Hall Hlt). rewrite Forall_forall in Hall. apply Hall, Hkeys, Hk.
    + right. assert (positions k (tokens o) = []) as ->; [|done]. destruct (positions k (tokens o)) as [|x l] eqn:E; [done|].
      exfalso. apply Hk. assert (x ∈ positions k (tokens o)) as Hx by (rewrite E; set_solver).
      apply positions_elem in Hx as [_ Hx]. by eapply list_elem_of_lookup_2.
Qed.

Lemma distill_eq o L X K : organ_inv o L X K -> clock o + 1 < CLOCK_MAX ->
  exists toks plan k, plan_of o toks plan /\
    let merged := zlen (concat (map snd plan)) in
    let o1 := set_corp (set_records o (imap (distilled (clock o) plan) (records (t3 o)))) k in
    let o' := if 0 <? merged then set_clock o1 (clock o + 1) else o1 in
    distill o = Val (o', merged) /\ organ_inv o' L X (K ++ map (distilled_example o) plan).
Proof.
  intros Ho Hc. destruct (plan_runs o L X K Ho) as (toks & plan & E & Hp).
  pose proof (inv_store _ _ _ _ Ho) as Hs. pose proof (store_len _ _ _ Hs). pose proof (st_cap _ _ _ Hs).
  pose proof (plan_losers_bound o toks plan Hp ltac:(lia)) as Hb. pose proof (inv_clock _ _ _ _ Ho).
  destruct (distill_fold_eq plan o L X K 0 Ho ltac:(lia) (plan_in_range _ _ _ Hp) ltac:(lia) ltac:(lia)) as (k & Ek & Ho').
  exists toks, plan, k. split; [done|]. cbv zeta. unfold distill. rewrite E, bind_val, Ek, bind_val, Z.add_0_l.
  set (o1 := set_corp _ k) in *. rewrite tick_eq by (change (0 <= clock o < CLOCK_MAX); lia). change (clock o1) with (clock o).
  split; [done|]. destruct (0 <? _); [|exact Ho']. exact (tick_inv _ _ _ _ Ho').
Qed.

Lemma plan_survivor o toks plan c : plan_of o toks plan -> c ∈ plan -> fst c ∉ snd c.
Proof.
  intros Hp [a Ha]%list_elem_of_lookup_1. destruct (Forall2_lookup_r _ _ _ _ _ (pl_clusters _ _ _ Hp) Ha) as (k & _ & Hcl).
  rewrite (cl_losers _ _ _ Hcl). intros Hin. apply list_elem_of_In, List.filter_In in Hin as [_ Hin]. by rewrite Z.eqb_refl in Hin.
Qed.

(** A memory live after distillation was live before, and lost no cluster. *)
Lemma distilled_live o L X K toks plan i : organ_inv o L X K -> plan_of o toks plan -> 0 <= i < zlen (records (t3 o)) ->
  live_hot (imap (distilled (clock o) plan) (records (t3 o))) i = true ->
  live_hot (records (t3 o)) i = true /\ forall c, c ∈ plan -> i ∉ snd c.
Proof.
  intros Ho Hp Hi. unfold live_hot. rewrite imap_total by done. set (r := records (t3 o) !!! Z.to_nat i).
  pose proof (plan_disjoint _ _ _ Hp) as Hd. intros Hl. assert (forall c, c ∈ plan -> i ∉ snd c) as Hno.
  { intros c Hc Hin. rewrite (distilled_one _ _ c) in Hl by (done || (unfold members; rewrite Z2Nat.id by lia; set_solver)).
    rewrite distilled_cluster_lost in Hl.
    - apply andb_true_iff in Hl as [Hl _]. cbn in Hl. pose proof (inv_clock _ _ _ _ Ho). change (Prov.clock (led o)) with (clock o) in *. lia.
    - rewrite Z2Nat.id by lia. intros ->. by apply (plan_survivor o toks plan c Hp).
    - by rewrite Z2Nat.id by lia. }
  split; [|done].
  assert (r_t_invalid (distilled (clock o) plan (Z.to_nat i) r) = r_t_invalid r /\ r_tier (distilled (clock o) plan (Z.to_nat i) r) = r_tier r) as [<- <-]; [|done].
  destruct (decide (i ∈ map fst plan)) as [(c & Hs & Hc)%list_elem_of_fmap_1|Hns].
  - rewrite (distilled_one _ _ c) by (done || (unfold members; rewrite Z2Nat.id by lia; set_solver)).
    rewrite distilled_cluster_surv; [done | by rewrite Z2Nat.id by lia | rewrite Z2Nat.id by lia; by apply Hno].
  - rewrite distilled_none; [done|]. intros c Hc. rewrite Z2Nat.id by lia. unfold members.
    intros [He|Hin]%elem_of_cons; [by apply Hns, list_elem_of_fmap_2' with c | by apply (Hno c Hc)].
Qed.

Lemma plan_unique o L X K toks plan i j : organ_inv o L X K -> plan_of o toks plan -> zlen plan < DISTILL_BATCH ->
  0 <= i < zlen (records (t3 o)) -> 0 <= j < zlen (records (t3 o)) -> r_token (rec_at o i) = r_token (rec_at o j) ->
  live_hot (imap (distilled (clock o) plan) (records (t3 o))) i = true ->
  live_hot (imap (distilled (clock o) plan) (records (t3 o))) j = true -> i = j.
Proof.
  intros Ho Hp Hlt Hi Hj Ht Li Lj. destruct (distilled_live o L X K toks plan i Ho Hp Hi Li) as [Li' Ni].
  destruct (distilled_live o L X K toks plan j Ho Hp Hj Lj) as [Lj' Nj].
  set (tok := r_token (rec_at o i)) in *.
  assert (forall x, 0 <= x < zlen (records (t3 o)) -> r_token (rec_at o x) = tok -> live_hot (records (t3 o)) x = true ->
    x ∈ List.filter (live_hot (records (t3 o))) (positions tok (tokens o))) as Hmem.
  { intros x Hx Hxt Hxl. apply list_elem_of_In, List.filter_In. split; [|done]. apply list_elem_of_In, positions_elem. split; [lia|].
    unfold tokens. rewrite list_lookup_fmap, (list_lookup_lookup_total_lt (records (t3 o))) by (unfold zlen in Hx; lia).
    cbn. f_equal. exact Hxt. }
  pose proof (Hmem i Hi eq_refl Li') as Mi. pose proof (Hmem j Hj (eq_sym Ht) Lj') as Mj.
  destruct (pl_all _ _ _ Hp Hlt tok) as [Hin|Hfew].
  - apply list_elem_of_lookup_1 in Hin as [a Ha]. destruct (Forall2_lookup_l _ _ _ _ _ (pl_clusters _ _ _ Hp) Ha) as (c & Hc & Hcl).
    apply (cluster_members _ _ _ _ Hcl) in Mi, Mj. pose proof (list_elem_of_lookup_2 _ _ _ Hc) as Hcp. unfold members in *.
    apply elem_of_cons in Mi as [->|Mi]; [|by destruct (Ni c Hcp)]. apply elem_of_cons in Mj as [->|Mj]; [done | by destruct (Nj c Hcp)].
  - destruct (List.filter _ _) as [|x [|y l]]; [set_solver | set_solver|]. rewrite !zlen_cons in Hfew. pose proof (zlen_nonneg l). lia.
Qed.

(** ** Reflection *)

(** The memories a reflection covers: the newest [REFLECT_WINDOW] that are live, hot and not
    themselves reflections. *)
Definition window o : list MemRecord :=
  ztake REFLECT_WINDOW (List.filter (fun r => negb (skipped r)) (reverse (records (t3 o)))).
Definition cites_of o : list Z := map r_id (window o).
Definition digest_of o : Z := fold_left mix_digest (window o) REFLECT_SEED.
Definition insight_of o (model_token : Z) : Z := if negb (model_token =? 0) then model_token else digest_of o.

Lemma ztake_cons {A} n (x : A) l : 0 < n -> ztake n (x :: l) = x :: ztake (n - 1) l.
Proof. intros Hn. unfold ztake. by replace (Z.to_nat n) with (Datatypes.S (Z.to_nat (n - 1))) by lia. Qed.

Lemma digest_loop_eq rs d n : n < REFLECT_WINDOW ->
  digest_loop rs d n = fold_left mix_digest (ztake (REFLECT_WINDOW - n) (List.filter (fun r => negb (skipped r)) rs)) d.
Proof.
  revert d n. induction rs as [|r rs IH]; intros d n Hn; cbn [digest_loop List.filter]; [by rewrite ztake_nil|].
  destruct (skipped r); cbn [negb]; [by apply IH|]. rewrite ztake_cons by lia. cbn [fold_left]. cbv zeta.
  destruct (Z.leb_spec REFLECT_WINDOW (n + 1)) as [Hge|Hlt].
  - by replace (REFLECT_WINDOW - n - 1) with 0 by lia.
  - rewrite IH by done. by replace (REFLECT_WINDOW - n - 1) with (REFLECT_WINDOW - (n + 1)) by lia.
Qed.

Lemma reflect_loop_eq rs cs d : zlen cs < REFLECT_WINDOW ->
  let w := ztake (REFLECT_WINDOW - zlen cs) (List.filter (fun r => negb (skipped r)) rs) in
  reflect_loop rs cs d = (cs ++ map r_id w, fold_left mix_digest w d).
Proof.
  revert cs d. induction rs as [|r rs IH]; intros cs d Hn w; subst w; cbn [reflect_loop List.filter].
  { rewrite ztake_nil. cbn [map fold_left]. by rewrite app_nil_r. }
  destruct (skipped r); cbn [negb]; [by apply IH|]. rewrite ztake_cons by lia. cbn [fold_left map]. cbv zeta.
  assert (zlen (cs ++ [r_id r]) = zlen cs + 1) as Hz by (rewrite zlen_app; done).
  destruct (Z.leb_spec REFLECT_WINDOW (zlen (cs ++ [r_id r]))) as [Hge|Hlt].
  - by replace (REFLECT_WINDOW - zlen cs - 1) with 0 by lia.
  - rewrite IH by done. rewrite <- app_assoc, Hz.
    by replace (REFLECT_WINDOW - zlen cs - 1) with (REFLECT_WINDOW - (zlen cs + 1)) by lia.
Qed.

(** The digest a caller reads is the one a reflection folds. *)
Lemma reflect_digest_eq o : reflect_digest o = digest_of o.
Proof. apply digest_loop_eq. done. Qed.

Lemma reflect_loop_window o : reflect_loop (reverse (records (t3 o))) [] REFLECT_SEED = (cites_of o, digest_of o).
Proof. rewrite reflect_loop_eq by done. done. Qed.

Lemma window_elem o r : r ∈ window o -> r ∈ records (t3 o) /\ skipped r = false.
Proof.
  unfold window, ztake. intros Hr. apply (subseteq_take (Z.to_nat REFLECT_WINDOW)) in Hr. apply list_elem_of_In, List.filter_In in Hr as [Hr Hs].
  apply list_elem_of_In in Hr. rewrite elem_of_reverse in Hr. split; [done|]. by apply negb_true_iff in Hs.
Qed.

Lemma digest_u64 o L X K : organ_inv o L X K -> is_u64 (digest_of o).
Proof.
  intros Ho. unfold digest_of. assert (Forall (rec_ok (clock o)) (window o)) as Hw.
  { apply Forall_forall. intros r Hr%window_elem. pose proof (recs_ok _ _ _ _ Ho) as Hr'. rewrite Forall_forall in Hr'. apply Hr', Hr. }
  assert (is_u64 REFLECT_SEED) as Hseed by (unfold in_u, REFLECT_SEED; lia). revert Hw Hseed. generalize (window o) as w.
  generalize REFLECT_SEED as d. intros d w Hw. revert d. induction Hw as [|r w Hr _ IH]; intros d Hd; cbn [fold_left]; [done|].
  apply IH. unfold mix_digest. destruct Hr. apply lxor_in_u; [lia | apply lxor_in_u; [lia | | done] | unfold in_u in *; lia].
  apply wrap_in_u. lia.
Qed.

(** The cited sources gain importance. *)
Definition bumped (r : MemRecord) : MemRecord := rec_set_importance r (Z.min (saturating_add 8 (r_importance r) 1) 10).
Definition strengthened (cites : list Z) (i : nat) (r : MemRecord) : MemRecord :=
  if decide (Z.of_nat i ∈ cites) then bumped r else r.

Lemma update_first_id (l : list MemRecord) j f : forall base, map r_id l = seqZ base (zlen l) ->
  fst (update_first (fun r => r_id r =? j) f l) = imap (at_pos (j - base) f) l.
Proof.
  induction l as [|r l IH]; intros base Hm; cbn [update_first]; [done|].
  rewrite zlen_cons, seqZ_cons in Hm by (pose proof (zlen_nonneg l); lia). cbn [map] in Hm. injection Hm as Hr Hm.
  replace (Z.pred (1 + zlen l)) with (zlen l) in Hm by lia.
  assert (forall k, imap (at_pos (j - base) f) (r :: l) = at_pos (j - base) f 0 r :: k <-> imap (at_pos (j - Z.succ base) f) l = k) as Hi.
  { intros k. rewrite imap_cons. assert (imap (at_pos (j - base) f ∘ Datatypes.S) l = imap (at_pos (j - Z.succ base) f) l) as ->.
    { apply list_eq. intros i. rewrite !list_lookup_imap. destruct (l !! i); cbn; [|done]. f_equal. unfold at_pos.
      assert ((Z.of_nat (Datatypes.S i) =? j - base) = (Z.of_nat i =? j - Z.succ base)) as -> by (apply eq_true_iff_eq; rewrite !Z.eqb_eq; lia). done. }
    split; [by intros [= ->] | by intros ->]. }
  symmetry. unfold at_pos in Hi at 2. rewrite Hr. destruct (Z.eqb_spec base j) as [->|Hne].
  - change (Z.of_nat 0) with 0 in Hi. rewrite Z.sub_diag, Z.eqb_refl in Hi. cbn [fst]. rewrite Z.sub_diag. apply Hi.
    apply list_eq. intros i. rewrite list_lookup_imap. destruct (l !! i); cbn; [|done]. f_equal. unfold at_pos.
    by rewrite (proj2 (Z.eqb_neq _ _)) by lia.
  - rewrite (proj2 (Z.eqb_neq (Z.of_nat 0) (j - base))) in Hi by lia.
    pose proof (IH _ Hm) as IH'. destruct (update_first _ _ l) as [l' x]. cbn [fst] in *. by apply Hi.
Qed.

Lemma map_imap_same (f : MemRecord -> Z) g l : (forall i r, f (g i r) = f r) -> map f (imap g l) = map f l.
Proof.
  intros Hf. apply list_eq. intros i. rewrite !list_lookup_fmap, list_lookup_imap. destruct (l !! i); cbn; [|done]. by rewrite Hf.
Qed.

Lemma strengthen_eq (l : list MemRecord) cid : map r_id l = seqZ 0 (zlen l) -> strengthen l cid = imap (at_pos cid bumped) l.
Proof. intros Hm. unfold strengthen. rewrite (update_first_id _ _ _ 0 Hm), Z.sub_0_r. done. Qed.

Lemma strengthen_all (l : list MemRecord) cites : map r_id l = seqZ 0 (zlen l) -> NoDup cites ->
  fold_left strengthen cites l = imap (strengthened cites) l.
Proof.
  revert l. induction cites as [|c cites IH]; intros l Hm Hnd; cbn [fold_left].
  - apply list_eq. intros i. rewrite list_lookup_imap. by destruct (l !! i).
  - apply NoDup_cons in Hnd as [Hc Hnd]. rewrite strengthen_eq by done. rewrite IH; [|rewrite zlen_imap, <- Hm|done].
    + rewrite imap_imap. apply list_eq. intros i. rewrite !list_lookup_imap. destruct (l !! i) as [r|]; cbn; [|done]. f_equal.
      unfold strengthened, at_pos. destruct (Z.eqb_spec (Z.of_nat i) c) as [->|Hne].
      * rewrite decide_False by done. by rewrite decide_True by set_solver.
      * destruct (decide (Z.of_nat i ∈ cites)); [by rewrite decide_True by set_solver | by rewrite decide_False by set_solver].
    + apply map_imap_same. intros i r. unfold at_pos. by destruct (_ =? c).
Qed.

Lemma ids_NoDup (l : list MemRecord) : map r_id l = seqZ 0 (zlen l) -> NoDup (map r_id l).
Proof. intros ->. apply NoDup_seqZ. Qed.

Lemma filter_sublist {A} (p : A -> bool) l : List.filter p l `sublist_of` l.
Proof. induction l as [|x l IH]; cbn [List.filter]; [constructor|]. destruct (p x); by constructor. Qed.

Lemma sublist_map {A C} (f : A -> C) l l' : l `sublist_of` l' -> map f l `sublist_of` map f l'.
Proof. induction 1; cbn [map]; by constructor. Qed.

Lemma cites_facts o L X K : organ_inv o L X K -> NoDup (cites_of o) /\ Forall (fun i => 0 <= i < zlen (records (t3 o))) (cites_of o).
Proof.
  intros Ho. pose proof (store_ids _ _ _ (inv_store _ _ _ _ Ho)) as Hm. rewrite <- (store_len _ _ _ (inv_store _ _ _ _ Ho)) in Hm.
  split.
  - eapply sublist_NoDup; [|apply sublist_map; etransitivity; [apply sublist_take | apply filter_sublist]].
    change (NoDup (r_id <$> reverse (records (t3 o)))). rewrite fmap_reverse, reverse_Permutation. by apply ids_NoDup.
  - apply Forall_map, Forall_forall. intros r [Hr _]%window_elem. apply list_elem_of_lookup_1 in Hr as [i Hi]. cbn.
    rewrite (ids_lookup r_id _ _ _ _ Hm Hi). apply lookup_lt_Some in Hi. unfold zlen. lia.
Qed.

Lemma strengthened_kept c cites i r : rec_ok c r -> rec_kept c r (strengthened cites i r).
Proof.
  intros Hr. unfold strengthened. destruct (decide _); [|by split]. apply kept_importance; [done|]. destruct Hr.
  unfold saturating_add, u_max. lia.
Qed.

(** The insight record a reflection appends. *)
Definition insight_rec o (tok : Z) : MemRecord :=
  mkRec (zlen (log (t2 o))) tok REFLECT_IMP 0 (zrepeat 10 0) 0 (clock o) 0 0 0
    (map (fun id => (LINK_CITES, id)) (cites_of o)) TIER_HOT 1.

Lemma reflect_none o mt : window o = [] -> reflect_inner o mt = Val (o, None).
Proof. intros Hw. unfold reflect_inner. rewrite reflect_loop_window. unfold cites_of. by rewrite Hw. Qed.

Lemma cites_nonempty o : window o <> [] -> zlen (cites_of o) =? 0 = false.
Proof.
  unfold cites_of. destruct (window o) as [|r w]; [done|]. intros _. cbn [map]. rewrite zlen_cons.
  pose proof (zlen_nonneg (map r_id w)). lia.
Qed.

Lemma reflect_full o mt : window o <> [] -> tokens_written (quota o) = TOKEN_QUOTA -> reflect_inner o mt = Val (o, None).
Proof.
  intros Hw Hq. unfold reflect_inner. rewrite reflect_loop_window, cites_nonempty by done. cbv zeta.
  by rewrite push_record_full, bind_val.
Qed.

Lemma reflect_some o L X K mt : organ_inv o L X K -> clock o + 1 < CLOCK_MAX -> is_u64 mt ->
  window o <> [] -> tokens_written (quota o) < TOKEN_QUOTA ->
  let tok := insight_of o mt in
  exists b k, let o1 := pushed o tok tok REFLECT_IMP 1 (map (fun id => (LINK_CITES, id)) (cites_of o)) b in
    let o' := set_corp (set_records o1 (imap (strengthened (cites_of o)) (records (t3 o) ++ [insight_rec o tok]))) k in
    reflect_inner o mt = Val (o', Some (zlen (log (t2 o)))) /\
    organ_inv o' L X (K ++ [example_of o1 tok M17_REFLECT REFLECT_IMP]).
Proof.
  intros Ho Hc Hmt Hw Hq tok. assert (is_u64 tok) as Htok.
  { unfold tok, insight_of. destruct (negb _); [done | by eapply digest_u64]. }
  set (links := map (fun id => (LINK_CITES, id)) (cites_of o)).
  destruct (push_record_eq o L X K tok tok REFLECT_IMP 1 links Ho) as (b & Hb & E); [lia | done|].
  change (clamp REFLECT_IMP 1 10) with REFLECT_IMP in E.
  assert (organ_inv (pushed o tok tok REFLECT_IMP 1 links b) L X K) as Ho1 by (apply pushed_inv; [done | done | done | done | done | unfold REFLECT_IMP; lia]).
  set (o1 := pushed o tok tok REFLECT_IMP 1 links b) in *.
  assert (records (t3 o1) = records (t3 o) ++ [insight_rec o tok]) as Er by done.
  pose proof (store_ids _ _ _ (inv_store _ _ _ _ Ho1)) as Hm. rewrite <- (store_len _ _ _ (inv_store _ _ _ _ Ho1)) in Hm.
  pose proof (imap_kept o1 L X K (strengthened (cites_of o)) Ho1 (fun i r Hr => strengthened_kept _ _ i r Hr)) as Ho2.
  destruct (corpus_emit_ok _ L X K tok M17_REFLECT REFLECT_IMP Ho2) as (k & Ek & Ho3);
    [change (clock o + 1 < CLOCK_MAX); lia | done | unfold M17_REFLECT, in_u; lia |].
  rewrite Er in *. exists b, k. cbv zeta. fold links. fold o1. split; [|exact Ho3].
  unfold reflect_inner. rewrite reflect_loop_window, cites_nonempty by done. cbv zeta.
  change (if negb (mt =? 0) then mt else digest_of o) with tok. fold links. rewrite E, bind_val. cbv beta iota. rewrite Er.
  rewrite (strengthen_all _ _ Hm) by (by apply (cites_facts o L X K)). rewrite Ek. done.
Qed.

(** ** Forgetting *)

(** Demotable: live, hot, past the grace window, inactive and unimportant.  (The utility
    guard never fires: a memory's counters are 0, its utility 500.) *)
Definition demotable (clk : Z) (r : MemRecord) : bool :=
  (r_t_invalid r =? 0) && (r_tier r =? TIER_HOT) && (MIN_AGE <=? clk - r_t_created r) &&
  (bla_q (r_count r) (clk - r_t_created r) <? THETA_DEMOTE) && (r_importance r <? IMP_PIN).
Definition examined (clk : Z) (r : MemRecord) : bool :=
  (r_t_invalid r =? 0) && (r_tier r =? TIER_HOT) && (MIN_AGE <=? clk - r_t_created r).

(** The coin of a decision, and the observation of an examined memory. *)
Definition coin_of (id m : Z) : bool := match explore_is_greedy id m with Val b => b | _ => true end.
Definition decision_of (clk : Z) (r : MemRecord) : ExperienceRecord :=
  let age := clk - r_t_created r in
  let d := demotable clk r in
  let m := if d then EXPLORE_CLEARED_M else EXPLORE_SINGLETON_M in
  let feats := [quantize_feature age; quantize_feature (r_count r); 0; 0] in
  {| decision_id := r_id r; xp_kind := FORGET_DECISION; feats := feats;
     envelope_verdict := if d then XP_ENV_DEMOTABLE else XP_ENV_PINNED;
     action_taken := if d then XP_ACTION_DEMOTE else XP_ACTION_KEEP;
     kan_score_shadow := kan_q KAN_TABLE feats 0 0;
     logging_propensity_q := explore_propensity_q EPS_NUM EPS_DEN m (coin_of (r_id r) m);
     logging_policy_kind := if d then SOFT_GREEDY else DETERMINISTIC;
     xp_outcome := Exp.Unset; margin_q := clamp (bla_q (r_count r) age - THETA_DEMOTE) (- 2 ^ 15) (2 ^ 15 - 1) |}.

Lemma decision_ok clk r : is_u64 (r_id r) -> xp_ok (decision_of clk r).
Proof.
  intros Hid. constructor; cbn [decision_id xp_kind feats envelope_verdict action_taken kan_score_shadow logging_propensity_q
    logging_policy_kind xp_outcome margin_q decision_of]; try done.
  - apply feats_ok.
  - destruct (demotable clk r); done.
  - destruct (demotable clk r); done.
  - apply shadow_eq.
  - destruct (demotable clk r), (coin_of _ _); by vm_compute.
  - destruct (demotable clk r); done.
  - rewrite clamp_spec by lia. unfold in_i. lia.
Qed.

Lemma forget_decide_eq clk r : rec_ok clk r -> clk < CLOCK_MAX -> is_u64 (r_id r) ->
  forget_decide clk r = Val (if examined clk r then Some (decision_of clk r) else None, demotable clk r).
Proof.
  intros [Htok Himp Hcnt Hts Hidx Hcr [Hcs Hcu]] Hc Hid. unfold forget_decide, demotable, examined. unfold CLOCK_MAX in *.
  destruct (r_t_invalid r =? 0) eqn:Ei; cbn [negb orb andb]; [|done].
  destruct (r_tier r =? TIER_HOT) eqn:Et; cbn [negb orb andb]; [|done]. cbv zeta.
  unfold saturating_sub. rewrite Z.max_r by lia. set (age := clk - r_t_created r).
  assert (0 <= age < 2 ^ 53) as Hage by (unfold age; lia). rewrite Z.leb_antisym. destruct (Z.ltb_spec age MIN_AGE); cbn [negb andb]; [done|].
  rewrite bla_raw_eq, bind_val by (done || (unfold AGE_MAX; lia)). rewrite Hcs, Hcu.
  change (i64 (0 + 1)) with (Val 1). rewrite bind_val. change (i64 (1 * SCALE)) with (Val 1000). rewrite bind_val.
  change (i64 (0 + 2)) with (Val 2). rewrite bind_val. change (div_i64 1000 2) with (Val 500). rewrite bind_val.
  change (500 <? UTIL_PIN) with true. rewrite andb_true_r. rewrite to_signed_small by lia.
  rewrite (proj1 (shadow_eq age (r_count r))), bind_val.
  pose proof (bla_q_bound (r_count r) age Hcnt ltac:(unfold AGE_MAX; lia)) as Hb.
  unfold i64 at 1. rewrite decide_True, bind_val by (unfold in_i, THETA_DEMOTE; lia).
  assert (demotable clk r = (bla_q (r_count r) age <? THETA_DEMOTE) && (r_importance r <? IMP_PIN)) as Ed.
  { unfold demotable. fold age. by rewrite Ei, Et, (proj2 (Z.leb_le MIN_AGE age)) by done. }
  unfold decision_of. fold age. rewrite Ed. set (d := _ && _).
  destruct (explore_is_greedy_runs (r_id r) (if d then EXPLORE_CLEARED_M else EXPLORE_SINGLETON_M) Hid ltac:(by destruct d)) as (g & Eg & _).
  unfold coin_of. rewrite Eg, bind_val. by destruct d.
Qed.

(** The clock-hand: the positions it visits, and the records after it. *)
Definition visited (start len n : Z) : list Z := map (fun j => (start + j) mod len) (seqZ 0 n).
Definition cold (r : MemRecord) : MemRecord := rec_set_tier r TIER_COLD.
Definition swept (clk : Z) (vs : list Z) (i : nat) (r : MemRecord) : MemRecord :=
  if decide (Z.of_nat i ∈ vs) then (if demotable clk r then cold r else r) else r.

Lemma visited_succ start len n : 0 <= n -> visited start len (n + 1) = visited start len n ++ [(start + n) mod len].
Proof. intros Hn. unfold visited. by rewrite (seqZ_app 0 n 1), map_app by lia. Qed.

Lemma visited_fresh start len n : 0 <= n < len -> (start + n) mod len ∉ visited start len n.
Proof.
  intros Hn Hin. apply list_elem_of_In, in_map_iff in Hin as (k & Ek & Hk%list_elem_of_In). apply elem_of_seqZ in Hk.
  pose proof (Z.div_mod (start + k) len ltac:(lia)). pose proof (Z.div_mod (start + n) len ltac:(lia)).
  assert (n - k = len * ((start + n) / len - (start + k) / len)) by lia.
  destruct (Z.le_gt_cases ((start + n) / len - (start + k) / len) 0); nia.
Qed.

Lemma swept_kept clk vs i r : rec_ok clk r -> rec_kept clk r (swept clk vs i r).
Proof. intros Hr. unfold swept. destruct (decide _), (demotable clk r); by (apply kept_tier || split). Qed.

Lemma swept_snoc clk vs p (l : list MemRecord) : p ∉ vs ->
  imap (swept clk (vs ++ [p])) l = imap (at_pos p (fun r => if demotable clk r then cold r else r)) (imap (swept clk vs) l).
Proof.
  intros Hp. rewrite imap_imap. apply list_eq. intros i. rewrite !list_lookup_imap. destruct (l !! i) as [r|]; cbn; [|done]. f_equal.
  unfold swept, at_pos. destruct (Z.eqb_spec (Z.of_nat i) p) as [->|Hne].
  - by rewrite decide_True, decide_False by set_solver.
  - destruct (decide (Z.of_nat i ∈ vs)); [by rewrite decide_True by set_solver | by rewrite decide_False by set_solver].
Qed.

(** What the sweep appends to the ledger for a demoted memory. *)
Definition forget_note (clk : Z) (r : MemRecord) (e : ProvEntry) : Prop :=
  Prov.kind e = kind_FORGET /\ payload_tok e = r_token r /\ tier e = TIER_COLD /\ writer_cap_id e = r_id r /\
  Prov.t_created e = clk.
Definition at_each (rs : list MemRecord) (vs : list Z) : list MemRecord := map (fun i => rs !!! Z.to_nat i) vs.

Lemma forget_step_eq o L X K len ix n : organ_inv o L X K -> clock o < CLOCK_MAX -> len = zlen (records (t3 o)) ->
  0 <= ix < len -> 0 <= n < 2 ^ 63 ->
  let r := records (t3 o) !!! Z.to_nat ix in
  exists x l L', let o' := set_led (set_xp (set_records o
      (imap (at_pos ix (fun r => if demotable (clock o) r then cold r else r)) (records (t3 o)))) x) l in
    forget_step len (o, ix, n) = Val (o', (ix + 1) mod len, n + (if demotable (clock o) r then 1 else 0)) /\
    Prov.clock l = clock o /\
    Forall2 (forget_note (clock o)) (if demotable (clock o) r then [r] else []) L' /\
    organ_inv o' (L ++ L') (X ++ (if examined (clock o) r then [decision_of (clock o) r] else [])) K.
Proof.
  intros Ho Hc -> Hix Hn r. destruct (rec_at_ok o L X K ix Ho Hix) as [Hrok Hrid]. change (rec_at o ix) with r in *.
  pose proof (inv_store _ _ _ _ Ho) as Hs. pose proof (st_cap _ _ _ Hs) as Hcap. rewrite <- (store_len _ _ _ Hs) in Hcap.
  assert (is_u64 (r_id r)) as Hid by (rewrite Hrid; unfold in_u, TOKEN_QUOTA in *; lia).
  unfold forget_step. rewrite recs_idx, bind_val by done. fold r. rewrite (forget_decide_eq (clock o) r Hrok Hc Hid), bind_val.
  assert (exists x, (if examined (clock o) r then xp_observe o (decision_of (clock o) r) else Val o) = Val (set_xp o x) /\
    organ_inv (set_xp o x) L (X ++ (if examined (clock o) r then [decision_of (clock o) r] else [])) K) as (x & Ex & Ho1).
  { destruct (examined (clock o) r).
    - apply xp_observe_ok; [done | by apply decision_ok].
    - exists (xp o). rewrite app_nil_r. assert (set_xp o (xp o) = o) as -> by (by destruct o). done. }
  assert (urem (ix + 1) (zlen (records (t3 o))) = Val ((ix + 1) mod zlen (records (t3 o)))) as Eu
    by (unfold urem; by rewrite decide_False by lia).
  assert (match (if examined (clock o) r then Some (decision_of (clock o) r) else None) with
    | Some rec => xp_observe o rec | None => Val o end = Val (set_xp o x)) as -> by (destruct (examined (clock o) r); exact Ex).
  rewrite bind_val.
  assert (r = records (t3 o) !!! Z.to_nat ix) as Er by done. clearbody r.
  pose proof (imap_kept (set_xp o x) L _ K (at_pos ix (fun r => if demotable (clock o) r then cold r else r)) Ho1) as Ho2.
  specialize (Ho2 ltac:(intros i r' Hr'; apply at_pos_kept; [done|]; intros _; destruct (demotable (clock o) r'); by (apply kept_tier || split))).
  destruct (demotable (clock o) r) eqn:Ed.
  - change (records (t3 (set_xp o x))) with (records (t3 o)) in *. rewrite recs_idx, bind_val by done. rewrite <- Er.
    assert (upd (records (t3 o)) ix (rec_set_tier r TIER_COLD) =
      Val (imap (at_pos ix (fun r => if demotable (clock o) r then cold r else r)) (records (t3 o)))) as ->.
    { rewrite <- upd_at by done. rewrite <- Er, Ed. done. }
    rewrite bind_val, add_u_ok, bind_val by lia. cbv zeta.
    destruct (ledger_ok _ _ _ _ kind_FORGET (r_token r) TIER_COLD (r_id r) Ho2 Hc) as (l & id & El & Hcl & Ho3);
      [vm_compute; split; congruence | unfold TIER_COLD, in_u; lia | apply Hrok | done |].
    rewrite El, bind_val. cbv beta iota. rewrite bind_val. cbv beta iota. rewrite Eu, bind_val.
    exists x, l. eexists [_]. split; [done|]. split; [exact Hcl|]. split; [|exact Ho3]. by constructor; [|constructor].
  - cbv beta iota. rewrite Z.add_0_r. exists x, (led o), []. rewrite app_nil_r.
    assert (imap (at_pos ix (fun r => if demotable (clock o) r then cold r else r)) (records (t3 o)) = records (t3 o)) as Erec.
    { apply list_eq. intros i. rewrite list_lookup_imap. unfold at_pos. destruct (records (t3 o) !! i) as [r'|] eqn:Ei; cbn; [|done].
      f_equal. destruct (Z.eqb_spec (Z.of_nat i) ix) as [<-|]; [|done].
      rewrite Nat2Z.id in Er. rewrite (list_lookup_total_correct _ _ _ Ei) in Er. subst r'. by rewrite Ed. }
    rewrite Erec. change (records (t3 (set_xp o x))) with (records (t3 o)) in Ho2. rewrite Erec in Ho2.
    assert (set_led (set_xp (set_records o (records (t3 o))) x) (led o) = set_xp o x) as -> by (by destruct o as [? ? ? [] ? ? ? ? ? ? ? ? ? ?]).
    split; [|split; [done|split; [constructor|exact Ho1]]]. rewrite bind_val. cbv beta iota. by rewrite Eu, bind_val.
Qed.

Lemma at_each_snoc rs vs i : at_each rs (vs ++ [i]) = at_each rs vs ++ [rs !!! Z.to_nat i].
Proof. apply map_app. Qed.

Lemma filter_snoc {A} (p : A -> bool) l x : List.filter p (l ++ [x]) = List.filter p l ++ (if p x then [x] else []).
Proof. apply List.filter_app. Qed.

(** The sweep after [n] steps. *)
Lemma forget_loop_eq o L X K start n : organ_inv o L X K -> clock o < CLOCK_MAX ->
  let len := zlen (records (t3 o)) in
  0 <= start < len -> 0 <= n <= len ->
  let vs := visited start len n in
  let seen := at_each (records (t3 o)) vs in
  exists x l L', let o' := set_led (set_xp (set_records o (imap (swept (clock o) vs) (records (t3 o)))) x) l in
    for_up 0 n (fun _ s => forget_step len s) (o, start, 0) =
      Val (o', (start + n) mod len, zlen (List.filter (demotable (clock o)) seen)) /\
    Prov.clock l = clock o /\
    Forall2 (forget_note (clock o)) (List.filter (demotable (clock o)) seen) L' /\
    organ_inv o' (L ++ L') (X ++ map (decision_of (clock o)) (List.filter (examined (clock o)) seen)) K.
Proof.
  intros Ho Hc len Hst Hn. assert (len <= TOKEN_QUOTA) as Hcap.
  { pose proof (inv_store _ _ _ _ Ho) as Hs. unfold len. rewrite (store_len _ _ _ Hs). apply Hs. }
  destruct (for_up_inv (fun j s => exists x l L',
    let o' := set_led (set_xp (set_records o (imap (swept (clock o) (visited start len j)) (records (t3 o)))) x) l in
    let seen := at_each (records (t3 o)) (visited start len j) in
    s = (o', (start + j) mod len, zlen (List.filter (demotable (clock o)) seen)) /\ Prov.clock l = clock o /\
    Forall2 (forget_note (clock o)) (List.filter (demotable (clock o)) seen) L' /\
    organ_inv o' (L ++ L') (X ++ map (decision_of (clock o)) (List.filter (examined (clock o)) seen)) K)
    0 n (fun _ s => forget_step len s) (o, start, 0)) as (s & E & Hs).
  - lia.
  - exists (xp o), (led o), []. cbv zeta. change (visited start len 0) with (@nil Z). cbn [at_each map List.filter].
    rewrite !app_nil_r, Z.add_0_r, Z.mod_small by lia.
    assert (imap (swept (clock o) []) (records (t3 o)) = records (t3 o)) as ->.
    { apply list_eq. intros i. rewrite list_lookup_imap. by destruct (_ !! i). }
    assert (set_led (set_xp (set_records o (records (t3 o))) (xp o)) (led o) = o) as -> by (by destruct o as [? ? ? [] ? ? ? ? ? ? ? ? ? ?]).
    done.
  - intros j s Hj (x & l & L' & -> & Hcl & HL & Hi). cbv zeta in HL, Hi. set (vs := visited start len j) in *. set (p := (start + j) mod len).
    assert (0 <= p < len) as Hp by (apply Z.mod_pos_bound; lia).
    set (o1 := set_led _ l) in *. assert (clock o1 = clock o) as Ec by exact Hcl.
    assert (records (t3 o1) = imap (swept (clock o) vs) (records (t3 o))) as Er by done.
    assert (records (t3 o1) !!! Z.to_nat p = records (t3 o) !!! Z.to_nat p) as Ep.
    { rewrite Er, imap_total by done. unfold swept. rewrite decide_False; [done|]. rewrite Z2Nat.id by lia.
      apply visited_fresh. lia. }
    assert (zlen (at_each (records (t3 o)) vs) = j) as Hz.
    { unfold at_each, vs, visited, zlen. rewrite !length_map, length_seqZ. lia. }
    pose proof (zlen_filter (demotable (clock o)) (at_each (records (t3 o)) vs)) as Hf. unfold TOKEN_QUOTA in *.
    pose proof (zlen_nonneg (List.filter (demotable (clock o)) (at_each (records (t3 o)) vs))).
    destruct (forget_step_eq o1 _ _ K len p (zlen (List.filter (demotable (clock o)) (at_each (records (t3 o)) vs))) Hi)
      as (x' & l' & L1 & E1 & Hcl' & HL1 & Hi'); [by rewrite Ec | by rewrite Er, zlen_imap | done | lia |].
    rewrite Ep, Ec, Er in *. rewrite E1. apply runs_val. exists x', l', (L' ++ L1). cbv zeta.
    rewrite visited_succ, at_each_snoc, !filter_snoc by lia. fold vs p. rewrite swept_snoc by (apply visited_fresh; lia). rewrite map_app, !app_assoc. split; [|split; [done|split]].
    + f_equal; [f_equal|].
      * unfold p. rewrite Z.add_mod_idemp_l by lia. f_equal. lia.
      * rewrite zlen_app. by destruct (demotable _ _).
    + by apply Forall2_app.
    + replace (map (decision_of (clock o)) (if examined (clock o) (records (t3 o) !!! Z.to_nat p) then [records (t3 o) !!! Z.to_nat p] else []))
        with (if examined (clock o) (records (t3 o) !!! Z.to_nat p) then [decision_of (clock o) (records (t3 o) !!! Z.to_nat p)] else [])
        by (by destruct (examined _ _)). exact Hi'.
  - destruct Hs as (x & l & L' & -> & Hs). by exists x, l, L'.
Qed.

Lemma urem_ok a b : b <> 0 -> urem a b = Val (a mod b).
Proof. intros Hb. unfold urem. by rewrite decide_False. Qed.

Lemma forget_empty o : records (t3 o) = [] -> forget_sweep o = Val (o, 0).
Proof. intros Hr. unfold forget_sweep. by rewrite Hr. Qed.

Lemma forget_sweep_eq o L X K : organ_inv o L X K -> clock o < CLOCK_MAX -> records (t3 o) <> [] ->
  let len := zlen (records (t3 o)) in
  let budget := Z.min SWEEP_BATCH len in
  let vs := visited (consol_cursor o mod len) len budget in
  let seen := at_each (records (t3 o)) vs in
  exists x l L', let o' := set_consol_cursor (set_led (set_xp (set_records o (imap (swept (clock o) vs) (records (t3 o)))) x) l)
      ((consol_cursor o mod len + budget) mod len) in
    forget_sweep o = Val (o', zlen (List.filter (demotable (clock o)) seen)) /\ Prov.clock l = clock o /\
    Forall2 (forget_note (clock o)) (List.filter (demotable (clock o)) seen) L' /\
    organ_inv o' (L ++ L') (X ++ map (decision_of (clock o)) (List.filter (examined (clock o)) seen)) K.
Proof.
  intros Ho Hc Hne len budget. assert (0 < len <= TOKEN_QUOTA) as Hlen.
  { pose proof (inv_store _ _ _ _ Ho) as Hs. pose proof (st_cap _ _ _ Hs) as Hcap. rewrite <- (store_len _ _ _ Hs) in Hcap. fold len in Hcap.
    split; [|done]. unfold len. destruct (records (t3 o)) as [|r rs]; [done|]. rewrite zlen_cons. pose proof (zlen_nonneg rs). lia. }
  pose proof (Z.mod_pos_bound (consol_cursor o) len ltac:(lia)) as Hst. unfold TOKEN_QUOTA in *.
  assert (0 <= budget <= len /\ budget <= 64) as [Hb Hb'] by (unfold budget, SWEEP_BATCH; lia).
  destruct (forget_loop_eq o L X K (consol_cursor o mod len) budget Ho Hc Hst Hb) as (x & l & L' & E & Hcl & HL & Hi).
  exists x, l, L'. cbv zeta in *. fold len in E, HL, Hi |- *. split; [|split; [done|split; [done|]]].
  - unfold forget_sweep. fold len. rewrite (proj2 (Z.eqb_neq len 0)) by lia. rewrite urem_ok, bind_val by lia.
    assert ((if SWEEP_BATCH <? len then SWEEP_BATCH else len) = budget) as -> by (unfold budget; destruct (Z.ltb_spec SWEEP_BATCH len); lia).
    rewrite E, bind_val. cbv beta iota. rewrite add_u_ok, bind_val by lia.
    rewrite urem_ok, bind_val by lia. done.
  - constructor; try apply Hi. change (is_u64 ((consol_cursor o mod len + budget) mod len)).
    pose proof (Z.mod_pos_bound (consol_cursor o mod len + budget) len ltac:(lia)). unfold in_u. lia.
Qed.

Lemma visited_all start len i : 0 <= start < len -> 0 <= i < len -> i ∈ visited start len len.
Proof.
  intros Hs Hi. apply list_elem_of_In, in_map_iff. exists ((i - start) mod len). split.
  - rewrite Z.add_mod_idemp_r by lia. replace (start + (i - start)) with i by lia. by apply Z.mod_small.
  - apply list_elem_of_In, elem_of_seqZ. pose proof (Z.mod_pos_bound (i - start) len). lia.
Qed.

(** ** Every call advances *)

Lemma distill_advances o L X K : organ_inv o L X K -> clock o + 1 < CLOCK_MAX ->
  runs (distill o) (fun '(o', n) => 0 <= n < 2 ^ 63 /\ exists K', advances 1 o L X K o' [] [] K').
Proof.
  intros Ho Hc. destruct (distill_eq o L X K Ho Hc) as (toks & plan & k & Hp & E & Ho'). rewrite E. apply runs_val.
  pose proof (inv_store _ _ _ _ Ho) as Hs. pose proof (store_len _ _ _ Hs). pose proof (st_cap _ _ _ Hs).
  pose proof (plan_losers_bound o toks plan Hp ltac:(lia)) as Hb. pose proof (zlen_nonneg (concat (map snd plan))). split; [lia|].
  eexists. constructor; [rewrite (app_nil_r L), (app_nil_r X); exact Ho' | | |].
  - destruct (0 <? _); apply no_promotion_refl.
  - destruct (0 <? _); apply journal_grows_refl.
  - destruct (0 <? _); [change (clock o <= clock o + 1 <= clock o + 1) | change (clock o <= clock o <= clock o + 1)]; lia.
Qed.

Lemma reflect_advances o L X K mt : organ_inv o L X K -> clock o + 1 < CLOCK_MAX -> is_u64 mt ->
  runs (reflect_inner o mt) (fun '(o', r) => exists K', advances 1 o L X K o' [] [] K').
Proof.
  intros Ho Hc Hmt. assert (runs (Val (o, @None Z)) (fun '(o', _) => exists K', advances 1 o L X K o' [] [] K')) as Hnone.
  { apply runs_val. exists []. eapply advances_weaken; [|by apply advances_refl]. lia. }
  destruct (decide (window o = [])) as [Hw|Hw]; [by rewrite reflect_none|].
  pose proof (inv_quota _ _ _ _ Ho) as (_ & _ & Hq).
  destruct (decide (tokens_written (quota o) = TOKEN_QUOTA)) as [Hf|Hf]; [by rewrite reflect_full|].
  destruct (reflect_some o L X K mt Ho Hc Hmt Hw ltac:(lia)) as (b & k & E & Ho'). rewrite E. apply runs_val.
  eexists. constructor; [rewrite (app_nil_r L), (app_nil_r X); exact Ho' | apply no_promotion_refl | apply journal_grows_snoc|].
  change (clock o <= clock o + 1 <= clock o + 1). lia.
Qed.

Lemma forget_advances o L X K : organ_inv o L X K -> clock o < CLOCK_MAX ->
  runs (forget_sweep o) (fun '(o', n) => 0 <= n < 2 ^ 63 /\ exists L' X', advances 0 o L X K o' L' X' []).
Proof.
  intros Ho Hc. destruct (decide (records (t3 o) = [])) as [He|Hne].
  - rewrite forget_empty by done. apply runs_val. split; [lia|]. exists [], []. by apply advances_refl.
  - destruct (forget_sweep_eq o L X K Ho Hc Hne) as (x & l & L' & E & Hcl & _ & Ho'). rewrite E. apply runs_val. split.
    + pose proof (inv_store _ _ _ _ Ho) as Hs. pose proof (st_cap _ _ _ Hs) as Hcap. rewrite <- (store_len _ _ _ Hs) in Hcap.
      match goal with |- context [List.filter ?p ?l] => pose proof (zlen_filter p l) as Hf; pose proof (zlen_nonneg (List.filter p l)) end.
      unfold at_each, visited, zlen in *. rewrite !length_map, length_seqZ in Hf. unfold SWEEP_BATCH in *. lia.
    + eexists L', _. constructor; [rewrite (app_nil_r K); exact Ho' | apply no_promotion_refl | apply journal_grows_refl|].
      change (clock o <= Prov.clock l <= clock o + 0). rewrite Hcl. lia.
Qed.

Lemma backing_flush_inv o L X K : organ_inv o L X K -> exists b x, bs_flush (backing o) = Val (b, x) /\ organ_inv (set_backing o b) L X K.
Proof.
  intros Ho. destruct (bs_flush_total (backing o) (inv_backing _ _ _ _ Ho)) as ([b x] & E & Hb). exists b, x.
  split; [done|]. constructor; try apply Ho. done.
Qed.

Lemma cycle_advances o L X K : organ_inv o L X K -> clock o + 2 < CLOCK_MAX ->
  runs (consolidation_cycle o) (fun '(o', _) => imp_accum o' = 0 /\ exists L' X' K', advances 2 o L X K o' L' X' K').
Proof.
  intros Ho Hc. unfold consolidation_cycle. eapply runs_bind; [apply (distill_advances o L X K Ho); lia|].
  intros [o1 n1] (Hn1 & K1 & A1). pose proof (adv_inv _ _ _ _ _ _ _ _ _ A1) as I1. pose proof (adv_clock _ _ _ _ _ _ _ _ _ A1).
  eapply runs_bind; [apply (reflect_advances o1 _ _ _ 0 I1); [lia | unfold in_u; lia]|].
  intros [o2 r] (K2 & A2). pose proof (adv_inv _ _ _ _ _ _ _ _ _ A2) as I2. pose proof (adv_clock _ _ _ _ _ _ _ _ _ A2).
  assert (exists n2, match r with Some _ => add_u 64 n1 1 | None => Val n1 end = Val n2 /\ 0 <= n2 <= 2 ^ 63) as (n2 & En & Hn2)
    by (destruct r; [rewrite add_u_ok by lia|]; eexists; (split; [done | lia])).
  rewrite En, bind_val. eapply runs_bind; [apply (forget_advances o2 _ _ _ I2); lia|].
  intros [o3 f] (Hf & L3 & X3 & A3). rewrite add_u_ok, bind_val by lia. cbv zeta.
  set (o4 := set_last_consolidated_epoch (set_imp_accum o3 0) (clock o3)).
  pose proof (advances_trans _ _ _ _ _ _ _ _ _ _ _ _ _ _ A1 A2) as A12.
  assert (advances 0 o2 (L ++ [] ++ []) (X ++ [] ++ []) (K ++ K1 ++ K2) o3 L3 X3 []) as A3' by (rewrite !app_assoc; exact A3).
  pose proof (advances_trans _ _ _ _ _ _ _ _ _ _ _ _ _ _ A12 A3') as A. pose proof (adv_inv _ _ _ _ _ _ _ _ _ A) as I3.
  assert (organ_inv o4 (L ++ ([] ++ []) ++ L3) (X ++ ([] ++ []) ++ X3) (K ++ (K1 ++ K2) ++ [])) as I4.
  { constructor; try apply I3. change (is_u32 0). unfold in_u. lia. }
  destruct (backing_flush_inv _ _ _ _ I4) as (b & x & Eb & I5). rewrite Eb. apply runs_val. split; [done|].
  do 3 eexists. constructor; [exact I5 | exact (adv_skills _ _ _ _ _ _ _ _ _ A) | exact (adv_journal _ _ _ _ _ _ _ _ _ A)|]. pose proof (adv_clock _ _ _ _ _ _ _ _ _ A).
  change (clock o <= clock o3 <= clock o + 2). lia.
Qed.

Lemma kept_map c (f : MemRecord -> MemRecord) l : Forall (rec_ok c) l -> (forall r, rec_ok c r -> rec_kept c r (f r)) ->
  Forall2 (rec_kept c) l (map f l).
Proof. intros Hl Hf. induction Hl; cbn [map]; constructor; [by apply Hf | done]. Qed.

(** The explicit tombstone: every live memory of the id, in both tiers. *)
Lemma invalidate_advances o L X K a b c : organ_inv o L X K -> clock o + 1 < CLOCK_MAX ->
  runs (consolidate o 0 a b c) (fun '(o', _) => advances 1 o L X K o' [] [] []).
Proof.
  intros Ho Hc. unfold consolidate. change (0 =? 0) with true. cbv iota zeta. set (hit := fun r => _ && _).
  set (rs := map _ (records (t3 o))). pose proof (inv_clock _ _ _ _ Ho).
  assert (organ_inv (set_records o rs) L X K) as I1.
  { apply set_records_inv; [done|]. apply kept_map; [by apply (recs_ok o L X K)|]. intros r Hr.
    change (rec_kept (clock o) r (if hit r then rec_invalidate (clock o) r else r)). destruct (hit r); [by apply rec_invalidate_kept | by split]. }
  pose proof (ep_invalidate_kept (fun e => (e_id e =? a) && (e_t_invalid e =? 0)) (clock o) (log (t2 o))) as Hk. cbv beta in Hk.
  set (l := map _ (log (t2 o))) in *. change (log (t2 (set_records o rs))) with (log (t2 o)).
  change (clock (set_records o rs)) with (clock o). fold l.
  assert (organ_inv (set_log (set_records o rs) l) L X K) as I2.
  { assert (zlen l = zlen (log (t2 o))) as Hz by (unfold l, zlen; by rewrite length_map).
    constructor; try apply I1.
    - apply (store_ok_log _ (t2 o)); [apply (inv_store _ _ _ _ I1) | done].
    - change (tokens_written (quota o) = zlen l + zlen (skills (t4 o)) /\ q_records (quota o) = zlen l /\ tokens_written (quota o) <= TOKEN_QUOTA).
      rewrite Hz. apply Ho. }
  destruct (backing_flush_inv _ _ _ _ I2) as (bk & x & Eb & I3). rewrite Eb. apply runs_val.
  rewrite tick_eq by (change (0 <= clock o < CLOCK_MAX); lia). constructor.
  - rewrite !app_nil_r. exact (tick_inv _ _ _ _ I3).
  - apply no_promotion_refl.
  - apply journal_grows_kept. exact Hk.
  - change (clock o <= clock o + 1 <= clock o + 1). lia.
Qed.

Lemma update_first_kept c p (f : MemRecord -> MemRecord) l l' x : update_first p f l = (l', x) -> Forall (rec_ok c) l ->
  (forall r, rec_ok c r -> rec_kept c r (f r)) -> Forall2 (rec_kept c) l l'.
Proof.
  intros E Hl Hf. apply update_first_spec in E. destruct x as [x|].
  - destruct E as (pre & tl & -> & _ & _ & ->). apply rec_kept_at; [done|]. apply Hf.
    by apply Forall_app in Hl as [_ [Hl _]%Forall_cons].
  - destruct E as [-> _]. by apply rec_kept_refl.
Qed.

Lemma consolidate_advances o L X K op a b c : organ_inv o L X K -> clock o + 2 < CLOCK_MAX -> is_u64 a ->
  runs (consolidate o op a b c) (fun '(o', _) => exists L' X' K', advances 2 o L X K o' L' X' K').
Proof.
  intros Ho Hc Ha.
  assert (forall o' n, organ_inv o' L X K -> t4 o' = t4 o -> log (t2 o') = log (t2 o) -> clock o' = clock o ->
    runs (Val (o', n : Z)) (fun '(o', _) => exists L' X' K', advances 2 o L X K o' L' X' K')) as Hquiet.
  { intros o' n Hi E4 El Ec. apply runs_val. exists [], [], []. constructor; [by rewrite !app_nil_r | rewrite E4; apply no_promotion_refl | rewrite El; apply journal_grows_refl | lia]. }
  destruct (Z.eqb_spec op 0) as [->|Hop].
  { eapply runs_mono; [apply (invalidate_advances o L X K); [done | lia]|]. intros [o' n] A. exists [], [], []. by eapply advances_weaken; [|exact A]; lia. }
  unfold consolidate. rewrite (proj2 (Z.eqb_neq op 0)) by done.
  destruct (op =? 1).
  { destruct (update_first _ _ _) as [rs f] eqn:E. apply Hquiet; [|done|done|done]. apply set_records_inv; [done|].
    apply (update_first_kept _ _ _ _ _ _ E); [by apply (recs_ok o L X K)|]. intros r Hr. by apply kept_links. }
  destruct (op =? 2); [by apply Hquiet; [constructor; apply Ho|..]|].
  destruct (op =? 3). { eapply runs_mono; [by apply (cycle_advances o L X K)|]. intros [o' n] [_ Hi]. exact Hi. }
  destruct (op =? 4).
  { eapply runs_bind; [apply (reflect_advances o L X K a Ho); [lia | done]|]. intros [o' r] (K' & A). apply runs_val.
    exists [], [], K'. by eapply advances_weaken; [|exact A]; lia. }
  destruct (op =? 5).
  { eapply runs_mono; [apply (forget_advances o L X K Ho); lia|]. intros [o' n] (_ & L' & X' & A).
    exists L', X', []. by eapply advances_weaken; [|exact A]; lia. }
  destruct (op =? 6); [by apply Hquiet|]. destruct (op =? 7); [by apply Hquiet|]. destruct (op =? 8); by apply Hquiet.
Qed.
End consolidate_spec.

(** ** Properties *)

(** C40: distillation merges duplicates and loses nothing but them.  It finds clusters of at
    least two live hot memories of one token, distinct tokens, at most a batch; it tombstones
    every member but the most important one (the newest, then the lowest id, among equals),
    which gets a supersedes and a cites edge to each, is marked distilled, and is offered to
    the corpus; it returns the number tombstoned.  Every other memory, the journal, the
    provenance ledger and the experience log are untouched, and unless the batch filled, no
    token keeps two live hot memories. *)
Theorem distill_spec {B} `{BackingTotal B} (o : MemSubstrate B) L X K :
  organ_inv o L X K -> clock o + 1 < CLOCK_MAX ->
  exists toks plan o', plan_of o toks plan /\
    let merged := zlen (concat (map snd plan)) in
    distill o = Val (o', merged) /\ organ_inv o' L X (K ++ map (distilled_example o) plan) /\
    clock o' = clock o + (if 0 <? merged then 1 else 0) /\ log (t2 o') = log (t2 o) /\
    zlen (records (t3 o')) = zlen (records (t3 o)) /\
    (forall (i : nat) r, records (t3 o) !! i = Some r ->
       (forall c, c ∈ plan -> fst c = Z.of_nat i -> records (t3 o') !! i = Some (survived c r)) /\
       (forall c, c ∈ plan -> Z.of_nat i ∈ snd c -> records (t3 o') !! i = Some (rec_invalidate (clock o) r)) /\
       ((forall c, c ∈ plan -> Z.of_nat i ∉ members c) -> records (t3 o') !! i = Some r)) /\
    (zlen plan < DISTILL_BATCH -> forall i j, 0 <= i < zlen (records (t3 o)) -> 0 <= j < zlen (records (t3 o)) ->
       r_token (rec_at o i) = r_token (rec_at o j) ->
       live_hot (records (t3 o')) i = true -> live_hot (records (t3 o')) j = true -> i = j).
Proof.
  intros Ho Hc. destruct (distill_eq o L X K Ho Hc) as (toks & plan & k & Hp & E & Ho'). cbv zeta in E, Ho'.
  set (o1 := if 0 <? _ then _ else _) in *.
  assert (clock o1 = clock o + (if 0 <? zlen (concat (map snd plan)) then 1 else 0) /\ log (t2 o1) = log (t2 o) /\
    records (t3 o1) = imap (distilled (clock o) plan) (records (t3 o))) as (Ec & El & Er)
    by (unfold o1; destruct (0 <? _); (split; [|done]); [done | change (clock o = clock o + 0); lia]).
  exists toks, plan, o1. split; [done|]. cbv zeta. split; [exact E|]. split; [exact Ho'|]. split; [exact Ec|]. split; [exact El|].
  rewrite Er. split; [apply zlen_imap|]. clear E Ho' Ec El Er. clearbody o1.
  pose proof (plan_disjoint o toks plan Hp) as Hd. split.
  - intros i r Hi. rewrite list_lookup_imap, Hi. cbn. split; [|split].
    + intros c Hin Hs. rewrite (distilled_one _ _ c) by (done || (unfold members; set_solver)).
      rewrite distilled_cluster_surv; [done | done|]. rewrite <- Hs. by apply (plan_survivor o toks plan).
    + intros c Hin Hl. rewrite (distilled_one _ _ c) by (done || (unfold members; set_solver)).
      rewrite distilled_cluster_lost; [done | | done]. intros He. rewrite He in Hl. by apply (plan_survivor o toks plan) in Hl.
    + intros Hno. by rewrite distilled_none.
  - intros Hlt i j Hi Hj Ht Li Lj. exact (plan_unique o L X K toks plan i j Ho Hp Hlt Hi Hj Ht Li Lj).
Qed.

(** A reflection summarises exactly the memories it cites.  Over the newest sixteen live
    hot memories that are not themselves reflections, it appends one hot memory whose links
    cite each of them and whose token is the caller's, or the digest the caller can read
    beforehand; each cited memory gains one importance, capped at 10, nothing else changes,
    and one curated record reaches the corpus.  With nothing to reflect on, or at the write
    quota, it changes nothing and says so. *)
Theorem reflect_spec {B} `{BackingTotal B} (o : MemSubstrate B) L X K mt :
  organ_inv o L X K -> clock o + 1 < CLOCK_MAX -> is_u64 mt ->
  let n := zlen (log (t2 o)) in
  let tok := if mt =? 0 then reflect_digest o else mt in
  (window o = [] \/ tokens_written (quota o) = TOKEN_QUOTA -> reflect_inner o mt = Val (o, None)) /\
  (window o <> [] -> tokens_written (quota o) <> TOKEN_QUOTA ->
     exists o' e, reflect_inner o mt = Val (o', Some n) /\ organ_inv o' L X (K ++ [e]) /\
       content_tok e = tok /\ source_stream e = M17_REFLECT /\ clock o' = clock o + 1 /\ read o' n = Some tok /\
       log (t2 o') = log (t2 o) ++ [mkEp n tok tok (clock o) 0 0] /\
       records (t3 o') !! Z.to_nat n = Some (insight_rec o tok) /\
       (forall (i : nat) r, records (t3 o) !! i = Some r -> records (t3 o') !! i =
          Some (if decide (Z.of_nat i ∈ map r_id (window o)) then bumped r else r))).
Proof.
  intros Ho Hc Hmt n tok. pose proof (inv_quota _ _ _ _ Ho) as (_ & _ & Hq).
  assert (insight_of o mt = tok) as Etok by (unfold insight_of, tok; rewrite reflect_digest_eq; by destruct (mt =? 0)).
  split.
  - intros [Hw|Hf]; [by apply reflect_none|]. destruct (decide (window o = [])); [by apply reflect_none | by apply reflect_full].
  - intros Hw Hf. destruct (reflect_some o L X K mt Ho Hc Hmt Hw ltac:(lia)) as (b & k & E & Ho'). rewrite Etok in *.
    pose proof (store_len _ _ _ (inv_store _ _ _ _ Ho)) as Hl. pose proof (zlen_nonneg (log (t2 o))).
    assert (Z.to_nat n = length (records (t3 o))) as En by (unfold n; rewrite <- Hl; unfold zlen; lia).
    do 2 eexists. split; [exact E|]. split; [exact Ho'|]. split; [done|]. split; [done|]. split; [done|]. split.
    { rewrite (read_eq _ _ _ _ _ Ho') by done. cbn [set_corp t2 set_records set_t3 pushed set_clock set_led set_backing set_quota set_t2 log].
      unfold n, zlen. by rewrite Nat2Z.id, list_lookup_middle. }
    split; [done|]. change (records (t3 (set_corp (set_records ?o ?rs) ?k))) with rs. destruct (cites_facts o L X K Ho) as [_ Hcr].
    split.
    + rewrite list_lookup_imap, En, list_lookup_middle by done. cbn. unfold strengthened. rewrite decide_False; [done|].
      intros Hin. rewrite Forall_forall in Hcr. apply Hcr in Hin. unfold zlen in Hin. lia.
    + intros i r Hi. by rewrite list_lookup_imap, (lookup_app_l_Some _ _ _ _ Hi).
Qed.

(** The forgetting sweep forgets only what the envelope clears.  It examines the next
    sixty-four memories in cyclic order (all of them, when there are no more); it moves to
    the cold tier exactly those that are live, hot, sixteen ticks old, below the activation
    threshold and less important than the pin, and writes one ledger note for each, in order;
    every live hot memory past the grace window leaves one observation; it returns the number
    moved.  Nothing else in any tier, and nothing of the journal or the corpus, changes. *)
Theorem forget_sweep_spec {B} `{BackingTotal B} (o : MemSubstrate B) L X K :
  organ_inv o L X K -> clock o < CLOCK_MAX -> records (t3 o) <> [] ->
  let len := zlen (records (t3 o)) in
  let vs := visited (consol_cursor o mod len) len (Z.min SWEEP_BATCH len) in
  let seen := at_each (records (t3 o)) vs in
  exists o' L', forget_sweep o = Val (o', zlen (List.filter (demotable (clock o)) seen)) /\
    Forall2 (forget_note (clock o)) (List.filter (demotable (clock o)) seen) L' /\
    organ_inv o' (L ++ L') (X ++ map (decision_of (clock o)) (List.filter (examined (clock o)) seen)) K /\
    clock o' = clock o /\ log (t2 o') = log (t2 o) /\ corp o' = corp o /\
    (forall (i : nat) r, records (t3 o) !! i = Some r -> records (t3 o') !! i =
       Some (if decide (Z.of_nat i ∈ vs) then (if demotable (clock o) r then cold r else r) else r)) /\
    (len <= SWEEP_BATCH -> forall i, 0 <= i < len -> i ∈ vs) /\
    consol_cursor o' = (consol_cursor o mod len + Z.min SWEEP_BATCH len) mod len.
Proof.
  intros Ho Hc Hne len vs seen. destruct (forget_sweep_eq o L X K Ho Hc Hne) as (x & l & L' & E & Hcl & HL & Ho').
  cbv zeta in E, HL, Ho'. fold len in E, HL, Ho'. fold vs in E, HL, Ho'. fold seen in E, HL, Ho'.
  do 2 eexists. split; [exact E|]. split; [exact HL|]. split; [exact Ho'|]. split; [exact Hcl|]. split; [done|]. split; [done|].
  split; [|split; [|done]].
  - intros i r Hi. change (records (t3 (set_consol_cursor (set_led (set_xp (set_records o ?rs) x) l) ?c))) with rs.
    by rewrite list_lookup_imap, Hi.
  - intros Hle i Hi. unfold vs. rewrite Z.min_r by lia. apply visited_all; [apply Z.mod_pos_bound; lia | done].
Qed.

(** ** Witnesses *)

(** Two memories of one token, written one after the other. *)
Lemma two_memories : exists (o : MemSubstrate Ram.RamStore) L, organ_inv o L [] [] /\ clock o = 3 /\
  map r_token (records (t3 o)) = [77; 77] /\ window o = reverse (records (t3 o)) /\ tokens_written (quota o) = 2.
Proof.
  destruct (write_add (new Ram.default) [] [] [] 0 77 100 3) as (b & l & _ & _ & Hl & Ho);
    [by apply new_inv | vm_compute; reflexivity | unfold in_u; lia | unfold in_u; lia | reflexivity | vm_compute; reflexivity |].
  set (e := ledger_entry _ _ _ _ _) in Ho. clearbody e. set (o := set_led _ l) in Ho.
  assert (clock o = 2) as Hc by (change (Prov.clock l = 2); by rewrite Hl).
  destruct (write_add o ([] ++ [e]) [] [] 0 77 200 9) as (b' & l' & _ & _ & Hl' & Ho');
    [done | rewrite Hc; by vm_compute | unfold in_u; lia | unfold in_u; lia | reflexivity | vm_compute; reflexivity |].
  set (e' := ledger_entry _ _ _ _ _) in Ho'. clearbody e'. do 2 eexists. split; [exact Ho'|].
  split; [change (Prov.clock l' = 3); rewrite Hl', Hc; done|]. by vm_compute.
Qed.

Lemma distill_spec_witness : exists (o o' : MemSubstrate Ram.RamStore) L n, organ_inv o L [] [] /\
  map r_token (records (t3 o)) = [77; 77] /\ distill o = Val (o', n) /\ log (t2 o') = log (t2 o).
Proof.
  destruct two_memories as (o & L & Ho & Hc & Hr & _).
  destruct (distill_spec o L [] [] Ho) as (toks & plan & o' & Hp & E & Ho' & _ & Hlog & _); [rewrite Hc; by vm_compute|].
  exists o, o', L. eexists. split; [exact Ho|]. split; [exact Hr|]. split; [exact E | exact Hlog].
Defined.

Lemma reflect_spec_witness : exists (o o' : MemSubstrate Ram.RamStore) L, organ_inv o L [] [] /\
  reflect_inner o 5 = Val (o', Some (zlen (log (t2 o)))) /\ read o' (zlen (log (t2 o))) = Some 5.
Proof.
  destruct two_memories as (o & L & Ho & Hc & Hr & Hw & Hq).
  destruct (reflect_spec o L [] [] 5 Ho) as (_ & Hs); [rewrite Hc; by vm_compute | unfold in_u; lia |].
  destruct Hs as (o' & e & E & _ & _ & _ & _ & Hrd & _).
  - rewrite Hw. intros He. destruct (records (t3 o)) as [|x l]; [discriminate|]. rewrite reverse_cons in He.
    by destruct (reverse l).
  - rewrite Hq. by vm_compute.
  - exists o, o', L. split; [exact Ho|]. split; [exact E | exact Hrd].
Defined.

Lemma forget_sweep_spec_witness : exists (o o' : MemSubstrate Ram.RamStore) L n, organ_inv o L [] [] /\
  forget_sweep o = Val (o', n) /\ log (t2 o') = log (t2 o).
Proof.
  destruct two_memories as (o & L & Ho & Hc & Hr & _).
  destruct (forget_sweep_spec o L [] [] Ho) as (o' & L' & E & _ & _ & _ & Hlog & _).
  - rewrite Hc. by vm_compute.
  - by destruct (records (t3 o)).
  - exists o, o', L. eexists. split; [exact Ho|]. split; [exact E | exact Hlog].
Defined.
