(* ===== verification/Skills.v ===== *)
(** * The procedural tier: skills of [MemSubstrate], [crates/tb-hal/src/mem/organ.rs].

    An agent proposes skills ([write_proc]); only the frozen harness admits one
    ([skill_admit]), on a held-out score ([seed_heldout], [score_candidate]) that beats every
    score admitted before. *)
From Stdlib Require Import ZArith Lia.
From stdpp Require Import base numbers option tactics sets list.
From S2P Require Import Prelude Engine Prov Corpus Memscore Exp OrganLogs Organ OrganSpec.
Open Scope Z_scope.

Definition SKILL_PROV_EMIT_EXTERNAL : Z := Z.shiftl 1 0.
Definition UTIL_ALPHA_DIV : Z := 5.

(** Field updates of a skill, and of the store. *)
Definition skill_set_counts (s : SkillRecord) (succ use ut : Z) : SkillRecord :=
  mkSkill (s_id s) (body_tok s) (desc_tok s) (iface_tok s) (embedding s) succ use ut (lineage s) (s_tier s) (s_provenance s).
Definition skill_push_lineage (s : SkillRecord) (p : Z) : SkillRecord :=
  mkSkill (s_id s) (body_tok s) (desc_tok s) (iface_tok s) (embedding s) (s_c_succ s) (s_c_use s) (util s)
    (lineage s ++ [p]) (s_tier s) (s_provenance s).
Definition skill_set_tier (s : SkillRecord) (t : Z) : SkillRecord :=
  mkSkill (s_id s) (body_tok s) (desc_tok s) (iface_tok s) (embedding s) (s_c_succ s) (s_c_use s) (util s)
    (lineage s) t (s_provenance s).

Section skills.
Context {B : Type} `{BackingStore B}.

Definition set_skills (o : MemSubstrate B) (ss : list SkillRecord) : MemSubstrate B :=
  set_t4 o (mkProc ss (s_next_id (t4 o)) (best_score (t4 o))).

Definition skill_idx (o : MemSubstrate B) (id : Z) : option Z :=
  Z.of_nat ∘ fst <$> list_find (fun s => s_id s = id) (skills (t4 o)).

Definition skill_add_class (o : MemSubstrate B) (body desc packed prov : Z) : res (MemSubstrate B * option Z) :=
  if TOKEN_QUOTA <? saturating_add 64 (tokens_written (quota o)) 1 then Val (o, None) else
  let id := s_next_id (t4 o) in
  let s := mkSkill id body desc (Z.land packed 0xFFFFFFFF) (Z.shiftr packed 32) 0 0 0 [] SKILL_PROPOSED prov in
  let o := set_t4 o (mkProc (skills (t4 o) ++ [s]) (wrapping_add 64 id 1) (best_score (t4 o))) in
  let o := tick (set_quota o (mkQuota (saturating_add 64 (tokens_written (quota o)) 1) (q_records (quota o)))) in
  '(o, _) ← ledger o kind_SKILL_ADMIT body prov id (parent_of_head o);
  Val (o, Some id).

Definition skill_add (o : MemSubstrate B) (body desc packed : Z) : res (MemSubstrate B * option Z) :=
  skill_add_class o body desc packed 0.
Definition skill_add_ext (o : MemSubstrate B) (body desc packed : Z) : res (MemSubstrate B * option Z) :=
  skill_add_class o body desc packed SKILL_PROV_EMIT_EXTERNAL.

Definition skill_is_high_impact (o : MemSubstrate B) (id : Z) : res (option bool) :=
  match skill_idx o id with
  | None => Val None
  | Some i => s ← idx (skills (t4 o)) i; Val (Some (negb (Z.land (s_provenance s) SKILL_PROV_EMIT_EXTERNAL =? 0)))
  end.

Definition skill_bump_util (o : MemSubstrate B) (id reward : Z) : res (MemSubstrate B * option Z) :=
  match skill_idx o id with
  | None => Val (o, None)
  | Some i =>
      s ← idx (skills (t4 o)) i;
      let use := saturating_add 32 (s_c_use s) 1 in
      let succ := if negb (reward =? 0) then saturating_add 32 (s_c_succ s) 1 else s_c_succ s in
      a ← i64 (succ + 1); a ← i64 (a * SCALE); b ← i64 (use + 2); u ← div_i64 a b;
      let ut := wrap 32 (Z.max u 0) in
      ss ← upd (skills (t4 o)) i (skill_set_counts s succ use ut);
      Val (tick (set_skills o ss), Some ut)
  end.

Definition skill_read_body (o : MemSubstrate B) (id : Z) : res (option Z) :=
  match skill_idx o id with
  | None => Val None
  | Some i => s ← idx (skills (t4 o)) i; Val (Some (body_tok s))
  end.
Definition skill_read_tier (o : MemSubstrate B) (id : Z) : res (option Z) :=
  match skill_idx o id with
  | None => Val None
  | Some i => s ← idx (skills (t4 o)) i; Val (Some (s_tier s))
  end.

Definition skill_link (o : MemSubstrate B) (id parent : Z) : res (MemSubstrate B * option Z) :=
  match skill_idx o id with
  | None => Val (o, None)
  | Some i =>
      s ← idx (skills (t4 o)) i;
      ss ← upd (skills (t4 o)) i (skill_push_lineage s parent);
      let o := tick (set_skills o ss) in
      s ← idx (skills (t4 o)) i;
      Val (o, Some (zlen (lineage s)))
  end.

Definition write_proc (o : MemSubstrate B) (op a b c : Z) : res (MemSubstrate B * option Z) :=
  if op =? 0 then skill_add o a b c
  else if op =? 1 then skill_bump_util o a b
  else if op =? 2 then r ← skill_read_body o a; Val (o, r)
  else if op =? 3 then skill_link o a b
  else if op =? 4 then r ← skill_read_tier o a; Val (o, r)
  else if op =? 5 then skill_add_ext o a b c
  else Val (o, Some 0).

(** ** The harness's side *)

Definition skill_get (o : MemSubstrate B) (id : Z) : res (option (Z * Z)) :=
  match skill_idx o id with
  | None => Val None
  | Some i => s ← idx (skills (t4 o)) i; Val (Some (body_tok s, s_tier s))
  end.

Definition skill_admit (o : MemSubstrate B) (id score : Z) : res (MemSubstrate B * bool) :=
  let best := best_score (t4 o) in
  match skill_idx o id with
  | None => Val (o, false)
  | Some i =>
      let o := tick o in
      s ← idx (skills (t4 o)) i;
      if best <? score then
        let use := saturating_add 32 (s_c_use s) 1 in
        let succ := saturating_add 32 (s_c_succ s) 1 in
        d ← i64 (score - util s); q ← div_i64 d UTIL_ALPHA_DIV; u ← i64 (util s + q);
        let s := skill_push_lineage (skill_set_counts (skill_set_tier s SKILL_ADMITTED) succ use (wrap 32 (Z.max u 0))) score in
        ss ← upd (skills (t4 o)) i s;
        Val (set_t4 o (mkProc ss (s_next_id (t4 o)) score), true)
      else
        ss ← upd (skills (t4 o)) i (skill_push_lineage s 0);
        Val (set_skills o ss, false)
  end.

Definition skill_count_admitted (o : MemSubstrate B) : Z :=
  zlen (List.filter (fun s => s_tier s =? SKILL_ADMITTED) (skills (t4 o))).

Definition skill_lineage_len (o : MemSubstrate B) (id : Z) : res Z :=
  match skill_idx o id with
  | None => Val 0
  | Some i => s ← idx (skills (t4 o)) i; Val (zlen (lineage s))
  end.

Definition heldout_input (base k : Z) : Z :=
  wrapping_add 64 (wrapping_mul 64 (wrapping_add 64 base k) 0x00100001) 0x51.

Definition seed_heldout (o : MemSubstrate B) (target base n : Z) : res (MemSubstrate B) :=
  for_up 0 n (fun k o =>
    let input := heldout_input base k in
    let expected := skill_transform target input in
    '(o, _) ← push_record o input expected 5 0 [];
    Val o) o.

Definition score_candidate (o : MemSubstrate B) (body : Z) : res Z :=
  '(total, hit) ← fold_res (fun '(total, hit) e =>
    if negb (e_t_invalid e =? 0) then Val (total, hit) else
    total ← i64 (total + 1);
    if skill_transform body (e_content_tok e) =? e_value e then hit ← i64 (hit + 1); Val (total, hit)
    else Val (total, hit)) (0, 0) (log (t2 o));
  if total =? 0 then Val 0 else
  a ← i64 (hit * SCALE); q ← div_i64 a total; Val (wrap 32 q).
End skills.

(** A target seeded on a fresh organ scores full marks, an untrained body none; the second
    admission must beat the first. *)
Definition demo_skills : res (Z * Z * bool * bool * Z) :=
  let o := new Ram.default in
  o ← seed_heldout o 42 7 8;
  a ← score_candidate o 42; b ← score_candidate o 43;
  let o := new Ram.default in
  '(o, _) ← write_proc o 0 42 1 2; '(o, _) ← write_proc o 5 43 1 2;
  '(o, x) ← skill_admit o 0 a; '(o, y) ← skill_admit o 1 a;
  Val (a, b, x, y, skill_count_admitted o).
Example demo_skills_runs : demo_skills = Val (1000, 0, true, false, 1).
Proof. vm_compute. reflexivity. Qed.

(** ** Specification *)

Section skills_spec.
Context {B : Type} `{BackingTotal B}.
Implicit Types (o : MemSubstrate B) (L : list ProvEntry) (X : list ExperienceRecord) (K : list CorpusRecord).

#[local] Instance SkillRecord_inhabited : Inhabited SkillRecord := populate (mkSkill 0 0 0 0 0 0 0 0 [] 0 0).
Definition skill_at o (id : Z) : SkillRecord := skills (t4 o) !!! Z.to_nat id.
Definition has_skill o (id : Z) : Prop := 0 <= id < zlen (skills (t4 o)).

Lemma skill_lookup o id : has_skill o id -> skills (t4 o) !! Z.to_nat id = Some (skill_at o id).
Proof. unfold has_skill, zlen. intros Hi. apply list_lookup_lookup_total_lt. lia. Qed.

Lemma skill_get_ok o L X K id : organ_inv o L X K -> has_skill o id ->
  idx (skills (t4 o)) id = Val (skill_at o id) /\ skill_ok (skill_at o id) /\ s_id (skill_at o id) = id.
Proof.
  intros Ho Hi. pose proof (skill_lookup o id Hi) as Hl. pose proof (inv_skills _ _ _ _ Ho) as Hs. split; [|split].
  - apply idx_Some; [apply Hi | done].
  - exact (Forall_lookup_1 _ _ _ _ (sk_all _ Hs) Hl).
  - rewrite (ids_lookup s_id _ _ _ _ (sk_ids _ Hs) Hl). destruct Hi. lia.
Qed.

(** A skill's id is its position. *)
Lemma skill_idx_eq o L X K id : organ_inv o L X K -> skill_idx o id = if decide (0 <= id < zlen (skills (t4 o))) then Some id else None.
Proof.
  intros Ho. pose proof (sk_ids _ (inv_skills _ _ _ _ Ho)) as Hm. unfold skill_idx.
  destruct (list_find _ _) as [[i s]|] eqn:E; cbn.
  - apply list_find_Some in E as (Hi & Hs & _). rewrite <- Hs, (ids_lookup s_id _ _ _ _ Hm Hi) in *.
    apply lookup_lt_Some in Hi. unfold zlen. by rewrite decide_True by lia.
  - apply list_find_None in E. destruct (decide _) as [Hi|]; [|done]. destruct (skill_get_ok o L X K id Ho Hi) as (_ & _ & Hid).
    rewrite Forall_forall in E. exfalso. apply (E (skill_at o id)); [|done]. eapply list_elem_of_lookup_2. by apply skill_lookup.
Qed.

Lemma skill_idx_some o L X K id : organ_inv o L X K -> has_skill o id -> skill_idx o id = Some id.
Proof. intros Ho Hi. rewrite (skill_idx_eq o L X K id Ho). by rewrite decide_True. Qed.
Lemma skill_idx_none o L X K id : organ_inv o L X K -> ~ has_skill o id -> skill_idx o id = None.
Proof. intros Ho Hi. rewrite (skill_idx_eq o L X K id Ho). by rewrite decide_False. Qed.

(** One skill replaced. *)
Definition skill_put o (id : Z) (s : SkillRecord) : MemSubstrate B := set_skills o (<[Z.to_nat id := s]> (skills (t4 o))).

Lemma skill_put_inv o L X K id s best : organ_inv o L X K -> has_skill o id -> skill_ok s -> s_id s = id -> is_u32 best ->
  organ_inv (set_t4 o (mkProc (<[Z.to_nat id := s]> (skills (t4 o))) (s_next_id (t4 o)) best)) L X K.
Proof.
  intros Ho Hi Hs Hid Hb. destruct (inv_skills _ _ _ _ Ho) as [Ha Hm Hn _]. constructor; try apply Ho.
  - change (tokens_written (quota o) = zlen (log (t2 o)) + zlen (<[Z.to_nat id:=s]> (skills (t4 o))) /\
      q_records (quota o) = zlen (log (t2 o)) /\ tokens_written (quota o) <= TOKEN_QUOTA). rewrite zlen_insert. apply Ho.
  - constructor; cbn [t4 set_t4 skills s_next_id best_score]; rewrite ?zlen_insert; [by apply Forall_insert | | done | done].
    rewrite <- Hm. change (s_id <$> <[Z.to_nat id:=s]> (skills (t4 o)) = s_id <$> skills (t4 o)).
    rewrite list_fmap_insert. apply list_insert_id. rewrite list_lookup_fmap, skill_lookup by done. cbn. f_equal.
    rewrite Hid. by apply (skill_get_ok o L X K id Ho Hi).
Qed.

Lemma upd_skill o id s : has_skill o id -> upd (skills (t4 o)) id s = Val (<[Z.to_nat id := s]> (skills (t4 o))).
Proof. intros Hi. by apply upd_ok. Qed.

(** *** The agent's calls *)

Definition proposed o (body desc packed prov : Z) : SkillRecord :=
  mkSkill (zlen (skills (t4 o))) body desc (Z.land packed 0xFFFFFFFF) (Z.shiftr packed 32) 0 0 0 [] SKILL_PROPOSED prov.

Lemma skill_add_full o body desc packed prov : tokens_written (quota o) = TOKEN_QUOTA ->
  skill_add_class o body desc packed prov = Val (o, None).
Proof. intros Hq. unfold skill_add_class. by rewrite Hq. Qed.

Lemma skill_add_ok o L X K body desc packed prov : organ_inv o L X K -> clock o + 1 < CLOCK_MAX -> is_u64 body -> is_u8 prov ->
  tokens_written (quota o) < TOKEN_QUOTA ->
  exists l e, let o' := set_led (set_quota (set_t4 o
      (mkProc (skills (t4 o) ++ [proposed o body desc packed prov]) (zlen (skills (t4 o)) + 1) (best_score (t4 o))))
      (mkQuota (tokens_written (quota o) + 1) (q_records (quota o)))) l in
    skill_add_class o body desc packed prov = Val (o', Some (zlen (skills (t4 o)))) /\ Prov.clock l = clock o + 1 /\
    organ_inv o' (L ++ [e]) X K /\ Prov.kind e = kind_SKILL_ADMIT /\ payload_tok e = body /\ tier e = prov /\
    writer_cap_id e = zlen (skills (t4 o)) /\ parent_ids e = parent_of_head o.
Proof.
  intros Ho Hc Hb Hp Hq. pose proof (inv_clock _ _ _ _ Ho) as Hck. pose proof (inv_quota _ _ _ _ Ho) as (Hq1 & Hq2 & _).
  destruct (inv_skills _ _ _ _ Ho) as [Ha Hm Hn Hbest]. pose proof (zlen_nonneg (skills (t4 o))). pose proof (zlen_nonneg (log (t2 o))).
  unfold skill_add_class, TOKEN_QUOTA in *.
  assert (saturating_add 64 (tokens_written (quota o)) 1 = tokens_written (quota o) + 1) as -> by (unfold saturating_add, u_max; lia).
  rewrite (proj2 (Z.ltb_ge _ _)) by lia. cbv zeta. rewrite Hn. fold (proposed o body desc packed prov).
  assert (wrapping_add 64 (zlen (skills (t4 o))) 1 = zlen (skills (t4 o)) + 1) as ->
    by (unfold wrapping_add; rewrite wrap_small by (unfold in_u; lia); done).
  cbn [quota set_t4]. assert (saturating_add 64 (tokens_written (quota o)) 1 = tokens_written (quota o) + 1) as -> by (unfold saturating_add, u_max; lia).
  set (o1 := set_quota (set_t4 o _) _). rewrite tick_eq by (change (0 <= clock o < CLOCK_MAX); lia).
  assert (organ_inv o1 L X K) as Ho1.
  { constructor; try apply Ho.
    - change (tokens_written (quota o) + 1 = zlen (log (t2 o)) + zlen (skills (t4 o) ++ [proposed o body desc packed prov]) /\
        q_records (quota o) = zlen (log (t2 o)) /\ tokens_written (quota o) + 1 <= TOKEN_QUOTA).
      rewrite zlen_app, zlen_cons, zlen_nil. unfold TOKEN_QUOTA. lia.
    - constructor; cbn [o1 t4 set_t4 set_quota skills s_next_id best_score]; rewrite ?zlen_app, ?zlen_cons, ?zlen_nil; [| | done | done].
      + apply Forall_app_2; [done|]. apply Forall_singleton. constructor; cbn; unfold in_u, SKILL_PROPOSED; lia || done || by left.
      + rewrite map_app, Hm. change (1 + zlen []) with 1. by rewrite (seqZ_app 0 (zlen (skills (t4 o))) 1) by lia. }
  pose proof (tick_inv _ _ _ _ Ho1) as Ho2. change (clock o1) with (clock o) in *.
  destruct (ledger_ok _ L X K kind_SKILL_ADMIT body prov (zlen (skills (t4 o))) Ho2) as (l & id & El & Hcl & Ho3);
    [done | vm_compute; split; congruence | done | done | unfold in_u; lia |].
  rewrite El. exists l. eexists. split; [done|]. split; [exact Hcl|]. split; [exact Ho3|]. done.
Qed.

(** The utility of a skill used [use] times, [succ] of them with success. *)
Definition utility (succ use : Z) : Z := ((succ + 1) * SCALE) / (use + 2).
Definition bumped_skill (s : SkillRecord) (reward : Z) : SkillRecord :=
  let use := saturating_add 32 (s_c_use s) 1 in
  let succ := if negb (reward =? 0) then saturating_add 32 (s_c_succ s) 1 else s_c_succ s in
  skill_set_counts s succ use (utility succ use).

Lemma utility_bound succ use : 0 <= succ <= use -> 0 <= utility succ use <= SCALE.
Proof.
  intros Hs. unfold utility, SCALE. split; [apply Z.div_pos; lia|]. apply Z.lt_succ_r. apply Z.div_lt_upper_bound; lia.
Qed.

Lemma bumped_skill_ok s reward : skill_ok s -> skill_ok (bumped_skill s reward).
Proof.
  intros [H1 H2 H3 H4 H5 H6]. assert (forall x, is_u32 x -> is_u32 (saturating_add 32 x 1)) as Hsat by (intros x; unfold saturating_add, u_max, in_u; lia).
  assert (0 <= (if negb (reward =? 0) then saturating_add 32 (s_c_succ s) 1 else s_c_succ s) <= saturating_add 32 (s_c_use s) 1) as Hle.
  { unfold saturating_add, u_max, in_u in *. destruct (negb _); lia. }
  constructor; cbn [bumped_skill skill_set_counts body_tok s_c_succ s_c_use util s_tier]; try done.
  - destruct (negb _); [by apply Hsat | done].
  - by apply Hsat.
  - apply Hle.
  - pose proof (utility_bound _ _ Hle). unfold SCALE, in_u in *. lia.
Qed.

Lemma skill_bump_ok o L X K id reward : organ_inv o L X K -> clock o < CLOCK_MAX -> has_skill o id ->
  let s := bumped_skill (skill_at o id) reward in let o' := set_clock (skill_put o id s) (clock o + 1) in
  skill_bump_util o id reward = Val (o', Some (util s)) /\ organ_inv o' L X K.
Proof.
  intros Ho Hc Hi s o'. destruct (skill_get_ok o L X K id Ho Hi) as (Ei & Hok & Hid). pose proof (inv_clock _ _ _ _ Ho).
  pose proof (bumped_skill_ok _ reward Hok) as Hok'. split.
  - unfold skill_bump_util. rewrite (skill_idx_some o L X K id Ho Hi), Ei, bind_val. cbv zeta.
    subst s. unfold bumped_skill in *. set (use := saturating_add 32 (s_c_use (skill_at o id)) 1) in *. set (succ := if negb (reward =? 0) then _ else _) in *.
    assert (0 <= succ <= use /\ use < 2 ^ 32) as [Hs Hu].
    { destruct Hok as [_ H2 H3 H4 _ _]. unfold succ, use, saturating_add, u_max, in_u in *. destruct (negb _); lia. }
    pose proof (utility_bound _ _ Hs) as Hut. unfold SCALE in Hut.
    rewrite (i64_ok (succ + 1)), bind_val by lia. rewrite (i64_ok ((succ + 1) * SCALE)), bind_val by (unfold SCALE; lia).
    rewrite (i64_ok (use + 2)), bind_val by lia.
    rewrite div_i64_ok, bind_val by (unfold SCALE; lia). fold (utility succ use). rewrite Z.max_l, wrap_small by (unfold in_u; lia).
    rewrite upd_skill, bind_val by done. by rewrite tick_eq by (change (0 <= clock o < CLOCK_MAX); lia).
  - apply (tick_inv (skill_put o id s)). apply (skill_put_inv o L X K id s (best_score (t4 o)) Ho Hi Hok' Hid). apply (inv_skills _ _ _ _ Ho).
Qed.

Lemma skill_link_ok o L X K id parent : organ_inv o L X K -> clock o < CLOCK_MAX -> has_skill o id ->
  let s := skill_push_lineage (skill_at o id) parent in let o' := set_clock (skill_put o id s) (clock o + 1) in
  skill_link o id parent = Val (o', Some (zlen (lineage s))) /\ organ_inv o' L X K.
Proof.
  intros Ho Hc Hi s o'. destruct (skill_get_ok o L X K id Ho Hi) as (Ei & Hok & Hid). pose proof (inv_clock _ _ _ _ Ho).
  assert (skill_ok s) as Hok' by (destruct Hok; by constructor). split.
  - unfold skill_link. rewrite (skill_idx_some o L X K id Ho Hi), Ei, bind_val, upd_skill, bind_val by done. cbv zeta.
    rewrite tick_eq by (change (0 <= clock o < CLOCK_MAX); lia). fold s.
    change (clock (set_skills o (<[Z.to_nat id := s]> (skills (t4 o))))) with (clock o). change (set_clock _ _) with o'.
    assert (idx (skills (t4 o')) id = Val s) as E; [|rewrite E; done].
    apply idx_Some; [apply Hi|]. apply list_lookup_insert_eq. unfold has_skill, zlen in Hi. lia.
  - apply (tick_inv (skill_put o id s)). apply (skill_put_inv o L X K id s (best_score (t4 o)) Ho Hi Hok' Hid). apply (inv_skills _ _ _ _ Ho).
Qed.

(** What the agent can never do to a skill: promote it, or touch the watermark. *)
Definition unpromoted o o' : Prop :=
  best_score (t4 o') = best_score (t4 o) /\
  forall i s', skills (t4 o') !! i = Some s' ->
    match skills (t4 o) !! i with
    | Some s => s_tier s' = s_tier s /\ body_tok s' = body_tok s /\ s_provenance s' = s_provenance s
    | None => s_tier s' = SKILL_PROPOSED /\ util s' = 0
    end.

Lemma unpromoted_no_promotion o o' : unpromoted o o' -> no_promotion (t4 o) (t4 o').
Proof.
  intros [Hb Hun]. split; [done|]. intros i s' Hl Ht. specialize (Hun i s' Hl). destruct (skills (t4 o) !! i) as [s|] eqn:E.
  - exists s. split; [done|]. by destruct Hun as [<- _].
  - destruct Hun as [Hp _]. rewrite Ht in Hp. discriminate.
Qed.

Lemma unpromoted_refl o : unpromoted o o.
Proof. split; [done|]. intros i s ->. done. Qed.

Lemma unpromoted_put o id s c : has_skill o id -> s_tier s = s_tier (skill_at o id) -> body_tok s = body_tok (skill_at o id) ->
  s_provenance s = s_provenance (skill_at o id) -> unpromoted o (set_clock (skill_put o id s) c).
Proof.
  intros Hi Ht Hb Hp. split; [done|]. intros i s'. change (skills (t4 (set_clock (skill_put o id s) c))) with (<[Z.to_nat id := s]> (skills (t4 o))).
  intros Hl. destruct (decide (i = Z.to_nat id)) as [->|Hne].
  - rewrite list_lookup_insert_eq in Hl by (unfold has_skill, zlen in Hi; lia). injection Hl as <-. by rewrite skill_lookup.
  - rewrite list_lookup_insert_ne in Hl by done. by rewrite Hl.
Qed.

(** Each of the agent's calls runs, and promotes nothing. *)
Lemma skill_add_class_advances o L X K body desc packed prov : organ_inv o L X K -> clock o + 1 < CLOCK_MAX -> is_u64 body -> is_u8 prov ->
  runs (skill_add_class o body desc packed prov) (fun '(o', _) => unpromoted o o' /\ exists L', advances 1 o L X K o' L' [] []).
Proof.
  intros Ho Hc Hb Hp. pose proof (inv_quota _ _ _ _ Ho) as (_ & _ & Hq).
  destruct (decide (tokens_written (quota o) = TOKEN_QUOTA)) as [Hf|Hf].
  - rewrite skill_add_full by done. apply runs_val. split; [apply unpromoted_refl|]. exists [].
    eapply advances_weaken; [|by apply advances_refl]. lia.
  - destruct (skill_add_ok o L X K body desc packed prov Ho Hc Hb Hp ltac:(lia)) as (l & e & E & Hcl & Ho' & _). rewrite E. apply runs_val.
    set (o1 := set_led _ l) in *. assert (unpromoted o o1) as Hun.
    { split; [done|]. intros i s'. cbn [o1 set_led t4 set_quota set_t4 skills]. intros Hl. apply lookup_app_Some in Hl as [Hl|[Hge Hl]].
      - by rewrite Hl.
      - rewrite (proj2 (lookup_ge_None _ _)) by done. apply list_lookup_singleton_Some in Hl as [_ <-]. done. }
    split; [done|]. exists [e]. constructor; [by rewrite !app_nil_r | apply unpromoted_no_promotion, Hun | apply journal_grows_refl|]. change (clock o <= Prov.clock l <= clock o + 1). lia.
Qed.

Lemma quiet_advances o L X K o' : unpromoted o o' -> organ_inv o' L X K -> log (t2 o') = log (t2 o) -> clock o' = clock o + 1 -> advances 1 o L X K o' [] [] [].
Proof. intros Hun Ho' El Ec. constructor; [by rewrite !app_nil_r | by apply unpromoted_no_promotion | rewrite El; apply journal_grows_refl | lia]. Qed.

Lemma write_proc_advances o L X K op a b c : organ_inv o L X K -> clock o + 1 < CLOCK_MAX -> is_u64 a ->
  runs (write_proc o op a b c) (fun '(o', _) => unpromoted o o' /\ exists L', advances 1 o L X K o' L' [] []).
Proof.
  intros Ho Hc Ha.
  assert (forall r : option Z, runs (Val (o, r)) (fun '(o', _) => unpromoted o o' /\ exists L', advances 1 o L X K o' L' [] [])) as Hsame.
  { intros r. apply runs_val. split; [apply unpromoted_refl|]. exists []. eapply advances_weaken; [|by apply advances_refl]. lia. }
  unfold write_proc. destruct (op =? 0); [by apply skill_add_class_advances|]. destruct (op =? 1).
  { destruct (decide (has_skill o a)) as [Hi|Hn]; [|unfold skill_bump_util; by rewrite (skill_idx_none o L X K a Ho Hn)].
    destruct (skill_bump_ok o L X K a b Ho ltac:(lia) Hi) as [-> Ho']. apply runs_val. split; [by apply unpromoted_put|].
    exists []. by apply quiet_advances; [apply unpromoted_put|..]. }
  destruct (op =? 2).
  { unfold skill_read_body. destruct (decide (has_skill o a)) as [Hi|Hn]; [|rewrite (skill_idx_none o L X K a Ho Hn); apply Hsame].
    rewrite (skill_idx_some o L X K a Ho Hi), (proj1 (skill_get_ok o L X K a Ho Hi)). apply Hsame. }
  destruct (op =? 3).
  { destruct (decide (has_skill o a)) as [Hi|Hn]; [|unfold skill_link; by rewrite (skill_idx_none o L X K a Ho Hn)].
    destruct (skill_link_ok o L X K a b Ho ltac:(lia) Hi) as [-> Ho']. apply runs_val. split; [by apply unpromoted_put|].
    exists []. by apply quiet_advances; [apply unpromoted_put|..]. }
  destruct (op =? 4).
  { unfold skill_read_tier. destruct (decide (has_skill o a)) as [Hi|Hn]; [|rewrite (skill_idx_none o L X K a Ho Hn); apply Hsame].
    rewrite (skill_idx_some o L X K a Ho Hi), (proj1 (skill_get_ok o L X K a Ho Hi)). apply Hsame. }
  destruct (op =? 5); [by apply skill_add_class_advances | apply Hsame].
Qed.

Lemma write_proc_records o op a b c o' r : write_proc o op a b c = Val (o', r) -> records (t3 o') = records (t3 o).
Proof.
  unfold write_proc, skill_add, skill_add_ext, skill_add_class, skill_bump_util, skill_read_body, skill_read_tier, skill_link.
  assert (forall o0 o1 (r0 r1 : option Z), Val (o0, r0) = Val (o1, r1) -> records (t3 o0) = records (t3 o) -> records (t3 o1) = records (t3 o)) as Hv
    by (intros o0 o1 r0 r1 [= <- _]; done).
  assert (forall o0 k t p cap ps o1 id, ledger o0 k t p cap ps = Val (o1, id) -> records (t3 o1) = records (t3 o0)) as Hled.
  { intros. apply bind_val_inv in H1 as ([l i] & _ & [= <- _]). done. }
  repeat case_match; intros E; repeat (apply bind_val_inv in E as (? & ? & E)); repeat case_match; simplify_eq/=; try done;
    by rewrite (Hled _ _ _ _ _ _ _ _ ltac:(eassumption)).
Qed.

(** *** Admission *)

Definition admitted_skill (s : SkillRecord) (score : Z) : SkillRecord :=
  skill_push_lineage (skill_set_counts (skill_set_tier s SKILL_ADMITTED) (saturating_add 32 (s_c_succ s) 1)
    (saturating_add 32 (s_c_use s) 1) (Z.max 0 (util s + Z.quot (score - util s) UTIL_ALPHA_DIV))) score.

Lemma admitted_skill_ok s score : skill_ok s -> is_u32 score ->
  skill_ok (admitted_skill s score) /\ - 2 ^ 40 < Z.quot (score - util s) UTIL_ALPHA_DIV < 2 ^ 40.
Proof.
  intros [H1 H2 H3 H4 H5 H6] Hsc. unfold in_u in *. assert (- 2 ^ 40 < Z.quot (score - util s) UTIL_ALPHA_DIV < 2 ^ 40 /\
    util s + Z.quot (score - util s) UTIL_ALPHA_DIV <= Z.max (util s) score) as [Hq Hm].
  { unfold UTIL_ALPHA_DIV. destruct (Z.le_gt_cases 0 (score - util s)).
    - rewrite Z.quot_div_nonneg by lia. pose proof (Z.div_le_upper_bound (score - util s) 5 (score - util s)).
      pose proof (Z.div_pos (score - util s) 5). lia.
    - replace (score - util s) with (- (util s - score)) by lia. rewrite Z.quot_opp_l, Z.quot_div_nonneg by lia.
      pose proof (Z.div_le_upper_bound (util s - score) 5 (util s - score)). pose proof (Z.div_pos (util s - score) 5). lia. }
  split; [|done]. assert (forall x, 0 <= x < 2 ^ 32 -> 0 <= saturating_add 32 x 1 < 2 ^ 32) as Hsat by (intros x; unfold saturating_add, u_max; lia).
  constructor; cbn [admitted_skill skill_push_lineage skill_set_counts skill_set_tier body_tok s_c_succ s_c_use util s_tier]; unfold in_u.
  - done.
  - by apply Hsat.
  - by apply Hsat.
  - unfold saturating_add, u_max. lia.
  - lia.
  - by right.
Qed.

Lemma skill_admit_ok o L X K id score : organ_inv o L X K -> clock o < CLOCK_MAX -> has_skill o id -> is_u32 score ->
  let adm := best_score (t4 o) <? score in
  let s := if adm then admitted_skill (skill_at o id) score else skill_push_lineage (skill_at o id) 0 in
  let o' := set_t4 (set_clock o (clock o + 1))
              (mkProc (<[Z.to_nat id := s]> (skills (t4 o))) (s_next_id (t4 o)) (if adm then score else best_score (t4 o))) in
  skill_admit o id score = Val (o', adm) /\ organ_inv o' L X K.
Proof.
  intros Ho Hc Hi Hsc adm s o'. destruct (skill_get_ok o L X K id Ho Hi) as (Ei & Hok & Hid). pose proof (inv_clock _ _ _ _ Ho).
  destruct (admitted_skill_ok _ score Hok Hsc) as [Hadm Hq].
  assert (skill_ok s /\ s_id s = id) as [Hs Hsid] by (unfold s; destruct adm; (split; [|done]); [done | destruct Hok; by constructor]).
  pose proof (tick_inv _ _ _ _ Ho) as Ho1. split.
  - unfold skill_admit. rewrite (skill_idx_some o L X K id Ho Hi). cbv zeta. rewrite tick_eq by lia.
    change (skills (t4 (set_clock o (clock o + 1)))) with (skills (t4 o)). rewrite Ei, bind_val. fold adm. subst s o'. destruct adm.
    + destruct Hok as [_ _ _ _ Hu _]. unfold in_u in Hu, Hsc. rewrite i64_ok, bind_val by lia. unfold div_i64. rewrite decide_False, bind_val by (unfold UTIL_ALPHA_DIV; lia).
      rewrite i64_ok, bind_val by lia. rewrite Z.max_comm. rewrite wrap_small by (destruct Hadm as [_ _ _ _ Hu' _]; exact Hu').
      fold (admitted_skill (skill_at o id) score). rewrite upd_skill, bind_val by done. done.
    + rewrite upd_skill, bind_val by done. done.
  - apply (skill_put_inv (set_clock o (clock o + 1)) L X K id s); [done | done | done | done|]. destruct adm; [done|]. apply (inv_skills _ _ _ _ Ho).
Qed.

(** *** The held-out evaluation *)

Definition live_eps o : list Episode := List.filter (fun e => e_t_invalid e =? 0) (log (t2 o)).
Definition predicts (body : Z) (e : Episode) : bool := skill_transform body (e_content_tok e) =? e_value e.
Definition hits o (body : Z) : list Episode := List.filter (predicts body) (live_eps o).

Lemma zlen_filter_le {A} (p : A -> bool) l : zlen (List.filter p l) <= zlen l.
Proof. induction l as [|x l IH]; cbn [List.filter]; [done|]. destruct (p x); rewrite !zlen_cons; lia. Qed.

Lemma score_count_eq body (l : list Episode) t h : 0 <= t -> 0 <= h -> t + zlen l < 2 ^ 62 -> h + zlen l < 2 ^ 62 ->
  fold_res (fun '(total, hit) e =>
    if negb (e_t_invalid e =? 0) then Val (total, hit) else
    total ← i64 (total + 1);
    if skill_transform body (e_content_tok e) =? e_value e then hit ← i64 (hit + 1); Val (total, hit)
    else Val (total, hit)) (t, h) l =
  Val (t + zlen (List.filter (fun e => e_t_invalid e =? 0) l),
       h + zlen (List.filter (predicts body) (List.filter (fun e => e_t_invalid e =? 0) l))).
Proof.
  revert t h. induction l as [|e l IH]; intros t h Ht Hh Hb Hb'; [cbn; change (zlen []) with 0; by rewrite !Z.add_0_r|].
  rewrite zlen_cons in *. pose proof (zlen_nonneg l). rewrite fold_res_cons. cbn [List.filter].
  destruct (e_t_invalid e =? 0); cbn [negb]; [|rewrite bind_val; apply IH; lia].
  rewrite (i64_ok (t + 1)), bind_val by lia. cbn [List.filter]. unfold predicts at 1.
  destruct (skill_transform body (e_content_tok e) =? e_value e).
  - rewrite (i64_ok (h + 1)), bind_val by lia. rewrite bind_val, IH by lia. rewrite !zlen_cons. f_equal. f_equal; lia.
  - rewrite bind_val, IH by lia. rewrite !zlen_cons. f_equal. f_equal; lia.
Qed.

Definition score_of o (body : Z) : Z := zlen (hits o body) * SCALE / zlen (live_eps o).

Lemma score_candidate_eq o L X K body : organ_inv o L X K -> score_candidate o body = Val (score_of o body) /\ 0 <= score_of o body <= SCALE.
Proof.
  intros Ho. pose proof (st_cap _ _ _ (inv_store _ _ _ _ Ho)) as Hcap. unfold TOKEN_QUOTA in Hcap.
  pose proof (zlen_filter_le (fun e => e_t_invalid e =? 0) (log (t2 o))) as Hl. fold (live_eps o) in Hl.
  pose proof (zlen_filter_le (predicts body) (live_eps o)) as Hh. fold (hits o body) in Hh.
  pose proof (zlen_nonneg (hits o body)). pose proof (zlen_nonneg (live_eps o)).
  unfold score_candidate. rewrite score_count_eq, bind_val by lia. rewrite !Z.add_0_l. fold (live_eps o). fold (hits o body).
  unfold score_of. destruct (Z.eqb_spec (zlen (live_eps o)) 0) as [E|Hne].
  - rewrite E, Zdiv_0_r. split; [done | unfold SCALE; lia].
  - assert (0 <= zlen (hits o body) * SCALE / zlen (live_eps o) <= SCALE) as Hb.
    { unfold SCALE. split; [apply Z.div_pos; lia|]. apply Z.lt_succ_r, Z.div_lt_upper_bound; lia. }
    unfold SCALE in *. rewrite i64_ok, bind_val by lia. rewrite div_i64_ok, bind_val by lia.
    rewrite wrap_small by (unfold in_u; lia). done.
Qed.

Lemma filter_all {A} (p : A -> bool) l : Forall (fun x => p x = true) l -> List.filter p l = l.
Proof. induction 1 as [|x l Hx _ IH]; cbn [List.filter]; [done|]. by rewrite Hx, IH. Qed.

Lemma score_full o body : live_eps o <> [] -> Forall (fun e => predicts body e = true) (live_eps o) -> score_of o body = SCALE.
Proof.
  intros Hne Hall. unfold score_of, hits. rewrite filter_all by done. rewrite Z.mul_comm. apply Z.div_mul.
  destruct (live_eps o) as [|e l]; [done|]. rewrite zlen_cons. pose proof (zlen_nonneg l). lia.
Qed.

(** The episodes a seeding appends. *)
Definition heldout o (target base n : Z) : list Episode :=
  map (fun k => mkEp (zlen (log (t2 o)) + k) (heldout_input base k) (skill_transform target (heldout_input base k)) (clock o + k) 0 0)
    (seqZ 0 n).

Lemma skill_transform_u64 body input : is_u64 body -> is_u64 (skill_transform body input).
Proof.
  intros Hb. unfold skill_transform. apply lxor_in_u; [lia | apply wrap_in_u; lia|]. unfold in_u in *. rewrite Z.shiftr_div_pow2 by lia.
  assert (0 <= body / 2 ^ 7 <= body) by (split; [apply Z.div_pos; lia | apply Z.div_le_upper_bound; lia]). lia.
Qed.

Lemma heldout_input_u64 base k : is_u64 (heldout_input base k).
Proof. apply wrap_in_u. lia. Qed.

Lemma seed_heldout_ok o L X K target base n : organ_inv o L X K -> is_u64 target -> 0 <= n -> clock o + n < CLOCK_MAX ->
  tokens_written (quota o) + n <= TOKEN_QUOTA ->
  runs (seed_heldout o target base n) (fun o' => organ_inv o' L X K /\ log (t2 o') = log (t2 o) ++ heldout o target base n /\
    clock o' = clock o + n /\ t4 o' = t4 o).
Proof.
  intros Ho Ht Hn Hc Hq. unfold seed_heldout.
  eapply runs_mono; [apply (for_up_inv (fun k o' => organ_inv o' L X K /\ log (t2 o') = log (t2 o) ++ heldout o target base k /\
    clock o' = clock o + k /\ t4 o' = t4 o /\ tokens_written (quota o') = tokens_written (quota o) + k))|].
  - done.
  - change (heldout o target base 0) with (@nil Episode). rewrite app_nil_r. split; [done|]. split; [done|]. split; [lia|]. split; [done | lia].
  - intros k o' Hk (Hi & El & Ec & E4 & Eq). cbv zeta.
    destruct (push_record_eq o' L X K (heldout_input base k) (skill_transform target (heldout_input base k)) 5 0 [] Hi) as (b & Hb & E); [lia | lia|].
    rewrite E, bind_val. apply runs_val. assert (1 <= clamp 5 1 10 <= 10) as H5 by (vm_compute; split; congruence).
    split; [|split; [|split; [|split]]].
    + apply pushed_inv; [done | lia | done | apply heldout_input_u64 | by apply skill_transform_u64 | done].
    + change (log (t2 (pushed o' ?a ?b ?c ?d ?e ?f))) with (log (t2 o') ++ [mkEp (zlen (log (t2 o'))) a b (clock o') 0 0]).
      assert (zlen (log (t2 o')) = zlen (log (t2 o)) + k) as Ez by (rewrite El, zlen_app; unfold heldout, zlen; rewrite length_map, length_seqZ; lia).
      rewrite Ez, El, Ec, <- app_assoc. f_equal. unfold heldout. rewrite (seqZ_app 0 k 1), map_app by lia. done.
    + change (clock o' + 1 = clock o + (k + 1)). lia.
    + done.
    + change (tokens_written (quota o') + 1 = tokens_written (quota o) + (k + 1)). lia.
  - intros o' (Hi & El & Ec & E4 & _). done.
Qed.
End skills_spec.

(** ** Properties *)

(** Only the harness promotes a skill, and only for progress.  Admission of an existing
    skill succeeds exactly when its score is strictly above the best admitted so far, which
    then becomes the watermark: the skill is marked admitted and its score joins its lineage.
    A refused one keeps its tier and utility and gets a zero in its lineage.  An unknown id
    changes nothing; no other skill, memory or log changes either. *)
Theorem skill_admit_spec {B} `{BackingTotal B} (o : MemSubstrate B) L X K id score :
  organ_inv o L X K -> clock o < CLOCK_MAX -> is_u32 score ->
  (~ has_skill o id -> skill_admit o id score = Val (o, false)) /\
  (has_skill o id -> exists o' s, let adm := best_score (t4 o) <? score in
     skill_admit o id score = Val (o', adm) /\ organ_inv o' L X K /\
     skills (t4 o') = <[Z.to_nat id := s]> (skills (t4 o)) /\
     best_score (t4 o') = Z.max (best_score (t4 o)) score /\
     s_tier s = (if adm then SKILL_ADMITTED else s_tier (skill_at o id)) /\
     lineage s = lineage (skill_at o id) ++ [if adm then score else 0] /\
     (adm = false -> util s = util (skill_at o id)) /\ body_tok s = body_tok (skill_at o id) /\
     log (t2 o') = log (t2 o) /\ records (t3 o') = records (t3 o) /\ clock o' = clock o + 1).
Proof.
  intros Ho Hc Hsc. split.
  - intros Hn. unfold skill_admit. by rewrite (skill_idx_none o L X K id Ho Hn).
  - intros Hi. destruct (skill_admit_ok o L X K id score Ho Hc Hi Hsc) as [E Ho'].
    do 2 eexists. cbv zeta. split; [exact E|]. split; [exact Ho'|]. split; [done|]. split.
    { cbn [t4 set_t4 best_score]. destruct (Z.ltb_spec (best_score (t4 o)) score); lia. }
    destruct (best_score (t4 o) <? score); by repeat split.
Qed.

(** An agent's proposals are inert and bounded.  Proposing a skill appends one, proposed,
    with no utility, of the class asked for, and ledgers it, until the write quota is reached
    and then changes nothing.  Whatever call an agent makes it runs; no existing skill
    changes tier, body or class, any new one is a proposal, the watermark stands, and
    memories and observations are untouched. *)
Theorem write_proc_spec {B} `{BackingTotal B} (o : MemSubstrate B) L X K op a b c :
  organ_inv o L X K -> clock o + 1 < CLOCK_MAX -> is_u64 a ->
  runs (write_proc o op a b c) (fun '(o', r) => unpromoted o o' /\ records (t3 o') = records (t3 o) /\
    (exists L', advances 1 o L X K o' L' [] []) /\
    (op = 0 \/ op = 5 -> tokens_written (quota o) = TOKEN_QUOTA -> o' = o /\ r = None) /\
    (op = 0 \/ op = 5 -> tokens_written (quota o) <> TOKEN_QUOTA ->
       let n := zlen (skills (t4 o)) in let prov := if op =? 5 then SKILL_PROV_EMIT_EXTERNAL else 0 in
       r = Some n /\ skills (t4 o') = skills (t4 o) ++ [proposed o a b c prov] /\
       skill_is_high_impact o' n = Val (Some (op =? 5)) /\
       exists e, organ_inv o' (L ++ [e]) X K /\ Prov.kind e = kind_SKILL_ADMIT /\ payload_tok e = a /\
         tier e = prov /\ writer_cap_id e = n)).
Proof.
  intros Ho Hc Ha. destruct (write_proc_advances o L X K op a b c Ho Hc Ha) as ([o' r] & E & Hun & Hadv).
  exists (o', r). split; [exact E|]. split; [exact Hun|]. pose proof (write_proc_records o op a b c o' r E) as Hrec. split; [exact Hrec|].
  split; [exact Hadv|]. pose proof (inv_quota _ _ _ _ Ho) as (_ & _ & Hq). clear Hun Hadv Hrec.
  assert (op = 0 \/ op = 5 -> write_proc o op a b c = skill_add_class o a b c (if op =? 5 then SKILL_PROV_EMIT_EXTERNAL else 0)) as Eop
    by (intros [->| ->]; done). split.
  - intros Hop Hf. rewrite (Eop Hop), skill_add_full in E by done. by injection E as <- <-.
  - intros Hop Hf n prov. rewrite (Eop Hop) in E. fold prov in E. clear Eop.
    assert (is_u8 prov) as Hp by (unfold prov; destruct (op =? 5); vm_compute; split; congruence).
    destruct (skill_add_ok o L X K a b c prov Ho Hc Ha Hp ltac:(lia)) as (l & e & E' & _ & Ho' & Hk & Ht & Htier & Hcap & _).
    rewrite E in E'. injection E' as -> ->. split; [done|]. split; [done|]. split; [|by exists e].
    set (o1 := set_led _ l) in *.
    assert (has_skill o1 n) as Hn by (unfold has_skill; change (skills (t4 o1)) with (skills (t4 o) ++ [proposed o a b c prov]);
      rewrite zlen_app; change (zlen [proposed o a b c prov]) with 1; unfold n; pose proof (zlen_nonneg (skills (t4 o))); lia).
    unfold skill_is_high_impact. rewrite (skill_idx_some o1 _ _ _ n Ho' Hn), (proj1 (skill_get_ok o1 _ _ _ n Ho' Hn)), bind_val.
    assert (skill_at o1 n = proposed o a b c prov) as ->.
    { apply list_lookup_total_correct. change (skills (t4 o1)) with (skills (t4 o) ++ [proposed o a b c prov]).
      unfold n, zlen. by rewrite Nat2Z.id, list_lookup_middle. }
    by destruct Hop as [->| ->].
Qed.

(** The held-out score is the share of live episodes a body predicts, in thousandths,
    rounded down, and 0 with no episode; seeding [n] cases of a target, with room for them,
    appends exactly those, and if the journal held no live case against the target, the
    target scores full marks on them. *)
Theorem heldout_score_spec {B} `{BackingTotal B} (o : MemSubstrate B) L X K target base n :
  organ_inv o L X K -> is_u64 target -> 0 < n -> clock o + n < CLOCK_MAX -> tokens_written (quota o) + n <= TOKEN_QUOTA ->
  Forall (fun e => predicts target e = true) (live_eps o) ->
  runs (seed_heldout o target base n) (fun o' => organ_inv o' L X K /\ log (t2 o') = log (t2 o) ++ heldout o target base n /\
    skills (t4 o') = skills (t4 o) /\ score_candidate o' target = Val SCALE /\
    forall body, score_candidate o' body = Val (zlen (hits o' body) * SCALE / zlen (live_eps o')) /\
      0 <= zlen (hits o' body) * SCALE / zlen (live_eps o') <= SCALE).
Proof.
  intros Ho Ht Hn Hc Hq Hall. eapply runs_mono; [apply (seed_heldout_ok o L X K target base n); (done || lia)|].
  intros o' (Ho' & El & _ & E4). split; [done|]. split; [done|]. split; [by rewrite E4|]. split; [|intros body; by apply (score_candidate_eq o' L X K)].
  rewrite (proj1 (score_candidate_eq o' L X K target Ho')). f_equal.
  assert (live_eps o' = live_eps o ++ heldout o target base n) as Elive.
  { unfold live_eps. rewrite El, List.filter_app. f_equal. apply filter_all, Forall_map, Forall_forall. intros k _. done. }
  apply score_full; rewrite Elive.
  - intros [_ He]%app_nil. unfold heldout in He. rewrite seqZ_cons in He by lia. discriminate.
  - apply Forall_app_2; [done|]. apply Forall_map, Forall_forall. intros k _. unfold predicts. cbn [e_content_tok e_value]. apply Z.eqb_refl.
Qed.

(** ** Witnesses *)

Lemma one_skill : exists (o : MemSubstrate Ram.RamStore) L, organ_inv o L [] [] /\ clock o = 2 /\ has_skill o 0 /\
  best_score (t4 o) = 0.
Proof.
  destruct (skill_add_ok (new Ram.default) [] [] [] 42 1 2 0) as (l & e & _ & Hl & Ho & _);
    [by apply new_inv | by vm_compute | unfold in_u; lia | unfold in_u; lia | by vm_compute |].
  do 2 eexists. split; [exact Ho|]. split; [exact Hl|]. split; [by vm_compute | done].
Qed.

Lemma skill_admit_spec_witness : exists (o o' : MemSubstrate Ram.RamStore) L, organ_inv o L [] [] /\
  skill_admit o 0 700 = Val (o', true) /\ best_score (t4 o') = 700.
Proof.
  destruct one_skill as (o & L & Ho & Hc & Hi & Hb).
  destruct (skill_admit_spec o L [] [] 0 700 Ho) as (_ & Hs); [rewrite Hc; by vm_compute | unfold in_u; lia |].
  destruct (Hs Hi) as (o' & s & E & Ho' & _ & Hbest & _). exists o, o', L. split; [exact Ho|].
  rewrite Hb in E, Hbest. split; [exact E | exact Hbest].
Defined.

Lemma write_proc_spec_witness : exists o' : MemSubstrate Ram.RamStore, write_proc (new Ram.default) 5 42 1 2 = Val (o', Some 0) /\
  skill_is_high_impact o' 0 = Val (Some true).
Proof.
  destruct (write_proc_spec (new Ram.default) [] [] [] 5 42 1 2) as ([o' r] & E & _ & _ & _ & _ & Hadd).
  - by apply new_inv.
  - vm_compute. reflexivity.
  - unfold in_u. lia.
  - destruct (Hadd (or_intror eq_refl)) as (-> & _ & Hh & _); [vm_compute; discriminate|].
    exists o'. split; [exact E | exact Hh].
Defined.

Lemma heldout_score_spec_witness : exists o' : MemSubstrate Ram.RamStore, seed_heldout (new Ram.default) 42 7 8 = Val o' /\
  score_candidate o' 42 = Val 1000.
Proof.
  destruct (heldout_score_spec (new Ram.default) [] [] [] 42 7 8) as (o' & E & _ & _ & _ & Hs & _).
  - by apply new_inv.
  - unfold in_u. lia.
  - lia.
  - vm_compute. reflexivity.
  - vm_compute. discriminate.
  - constructor.
  - exists o'. split; [exact E | exact Hs].
Defined.
