(* ===== verification/OrganHistory.v ===== *)
(** * Histories of the memory organ: what holds after any sequence of calls.

    [run cs o]: the calls [cs] one after the other, with their replies.  Every history below
    the clock's horizon runs without panic, the three logs stay committed, the journal keeps
    every memory ever acknowledged, and only strictly improving skills are ever admitted. *)
From Stdlib Require Import ZArith Lia Sorting.Sorted.
From stdpp Require Import base numbers option tactics sets list.
From S2P Require Import Prelude Engine Prov Corpus Memscore Exp OrganLogs Organ OrganSpec Consolidate ConsolidateSpec Skills.
Open Scope Z_scope.

(** The calls that reach an organ: the agent's five, and the harness's two. *)
Inductive call :=
  | Write (op key value packed : Z)
  | Read (id : Z)
  | Recall (query cursor : Z)
  | Consolidate (op a b c : Z)
  | WriteProc (op a b c : Z)
  | Admit (id score : Z)
  | Emit (content_tok source_stream salience : Z).

Inductive reply :=
  | Scalar (v : option Z)
  | Verdict (admitted : bool)
  | Done.

Definition call_ok (c : call) : Prop :=
  match c with
  | Write op key value packed => 0 <= op /\ is_u64 key /\ is_u64 value
  | Read id => 0 <= id
  | Recall _ _ => True
  | Consolidate op a b c => is_u64 a
  | WriteProc op a b c => is_u64 a
  | Admit id score => is_u32 score
  | Emit tok stream sal => is_u64 tok /\ is_u8 stream
  end.

Section history.
Context {B : Type} `{BackingStore B}.

Definition step (o : MemSubstrate B) (c : call) : res (MemSubstrate B * reply) :=
  match c with
  | Write op key value packed => '(o, r) ← write o op key value packed; Val (o, Scalar r)
  | Read id => '(o, r) ← read_touch o id; Val (o, Scalar r)
  | Recall query cursor => '(o, r) ← recall o query cursor; Val (o, Scalar r)
  | Consolidate op a b c => '(o, n) ← consolidate o op a b c; Val (o, Scalar (Some n))
  | WriteProc op a b c => '(o, r) ← write_proc o op a b c; Val (o, Scalar r)
  | Admit id score => '(o, b) ← skill_admit o id score; Val (o, Verdict b)
  | Emit tok stream sal => o ← corpus_emit o tok stream sal; Val (o, Done)
  end.

Fixpoint run (cs : list call) (o : MemSubstrate B) : res (MemSubstrate B * list reply) :=
  match cs with
  | [] => Val (o, [])
  | c :: cs => '(o, r) ← step o c; '(o, rs) ← run cs o; Val (o, r :: rs)
  end.
End history.

(** The admissions of a history, with their skill and score. *)
Fixpoint admissions (cs : list call) (rs : list reply) : list (Z * Z) :=
  match cs, rs with
  | Admit id score :: cs, Verdict true :: rs => (id, score) :: admissions cs rs
  | _ :: cs, _ :: rs => admissions cs rs
  | _, _ => []
  end.

(** ** Lemmas *)

Section history_spec.
Context {B : Type} `{BackingTotal B}.
Implicit Types (o : MemSubstrate B) (L : list ProvEntry) (X : list ExperienceRecord) (K : list CorpusRecord).

(** What one call, or a history of at most [n] ticks, guarantees. *)
Record proceeds (n : Z) (adm : list (Z * Z)) o L X K o' L' X' K' : Prop := {
  pr_inv : organ_inv o' (L ++ L') (X ++ X') (K ++ K');
  pr_journal : journal_grows (log (t2 o)) (log (t2 o'));
  pr_clock : clock o <= clock o' <= clock o + n;
  pr_best : best_score (t4 o') = List.last (map snd adm) (best_score (t4 o));
  pr_sorted : StronglySorted Z.lt (best_score (t4 o) :: map snd adm);
  pr_admitted : forall i s', skills (t4 o') !! i = Some s' -> s_tier s' = SKILL_ADMITTED ->
    (exists s, skills (t4 o) !! i = Some s /\ s_tier s = SKILL_ADMITTED) \/ Z.of_nat i ∈ map fst adm;
}.

Lemma advances_proceeds n o L X K o' L' X' K' : advances n o L X K o' L' X' K' -> proceeds n [] o L X K o' L' X' K'.
Proof.
  intros [Hi [Hb Hp] Hj Hc]. constructor; [done | done | done | done | by repeat constructor|].
  intros i s' Hl Ht. left. by apply (Hp i s').
Qed.

Lemma last_cons (x : Z) l d : List.last (x :: l) d = List.last l x.
Proof. revert x d. induction l as [|y l IH]; intros x d; [done|]. exact (eq_trans (IH y d) (eq_sym (IH y x))). Qed.

Lemma last_app (xs ys : list Z) b : List.last (xs ++ ys) b = List.last ys (List.last xs b).
Proof. revert b. induction xs as [|x xs IH]; intros b; [done|]. cbn [app]. by rewrite !last_cons, IH. Qed.

Lemma sorted_app b xs ys : StronglySorted Z.lt (b :: xs) -> StronglySorted Z.lt (List.last xs b :: ys) ->
  StronglySorted Z.lt (b :: xs ++ ys).
Proof.
  revert b. induction xs as [|x xs IH]; intros b Hx Hy; [done|]. apply StronglySorted_inv in Hx as [Hx Hf].
  rewrite last_cons in Hy. specialize (IH x Hx Hy). constructor; [exact IH|]. apply Forall_cons in Hf as [Hbx _].
  apply StronglySorted_inv in IH as [_ Hall]. constructor; [done|]. eapply Forall_impl; [exact Hall|]. cbn. lia.
Qed.

Lemma proceeds_trans n m a1 a2 o L X K o1 L1 X1 K1 o2 L2 X2 K2 :
  proceeds n a1 o L X K o1 L1 X1 K1 -> proceeds m a2 o1 (L ++ L1) (X ++ X1) (K ++ K1) o2 L2 X2 K2 ->
  proceeds (n + m) (a1 ++ a2) o L X K o2 (L1 ++ L2) (X1 ++ X2) (K1 ++ K2).
Proof.
  intros [I1 J1 C1 B1 S1 P1] [I2 J2 C2 B2 S2 P2]. constructor.
  - by rewrite !app_assoc.
  - by eapply journal_grows_trans.
  - lia.
  - by rewrite map_app, last_app, <- B1.
  - rewrite map_app. apply sorted_app; [done | by rewrite <- B1].
  - intros i s' Hl Ht. rewrite map_app, elem_of_app. destruct (P2 i s' Hl Ht) as [(s & Hs & Hst)|]; [|tauto].
    destruct (P1 i s Hs Hst) as [|]; tauto.
Qed.

Lemma proceeds_weaken n m adm o L X K o' L' X' K' : n <= m -> proceeds n adm o L X K o' L' X' K' -> proceeds m adm o L X K o' L' X' K'.
Proof. intros Hn []. constructor; try done. lia. Qed.

(** The admission of a skill. *)
Lemma admit_proceeds o L X K id score : organ_inv o L X K -> clock o < CLOCK_MAX -> is_u32 score ->
  runs (skill_admit o id score) (fun '(o', adm) => proceeds 1 (if adm then [(id, score)] else []) o L X K o' [] [] []).
Proof.
  intros Ho Hc Hsc. destruct (decide (has_skill o id)) as [Hi|Hn].
  - destruct (skill_admit_ok o L X K id score Ho Hc Hi Hsc) as [-> Ho']. apply runs_val.
    set (adm := best_score (t4 o) <? score) in *. set (s := if adm then _ else _) in *.
    assert (adm = false -> s_tier s = s_tier (skill_at o id)) as Hs by (unfold s; by intros ->).
    assert ((if adm then best_score (t4 o) < score else True)) as Hlt by (unfold adm; destruct (Z.ltb_spec (best_score (t4 o)) score); done).
    clearbody s. constructor.
    + rewrite !app_nil_r. exact Ho'.
    + apply journal_grows_refl.
    + change (clock o <= clock o + 1 <= clock o + 1). lia.
    + by destruct adm.
    + destruct adm; cbn [map]; repeat constructor. exact Hlt.
    + intros i s'. cbn [t4 set_t4 skills]. intros Hl Ht. destruct (decide (i = Z.to_nat id)) as [->|Hne].
      * rewrite list_lookup_insert_eq in Hl by (unfold has_skill, zlen in Hi; lia). injection Hl as ->.
        destruct adm; [right; cbn; rewrite Z2Nat.id by apply Hi; set_solver | left]. exists (skill_at o id).
        split; [by apply skill_lookup | by rewrite <- Hs].
      * rewrite list_lookup_insert_ne in Hl by done. left. by exists s'.
  - unfold skill_admit. rewrite (skill_idx_none o L X K id Ho Hn). apply runs_val.
    eapply proceeds_weaken; [|apply advances_proceeds; by apply advances_refl]. lia.
Qed.

Lemma step_proceeds o L X K c : organ_inv o L X K -> clock o + 2 < CLOCK_MAX -> call_ok c ->
  runs (step o c) (fun '(o', r) => exists L' X' K', proceeds 2 (admissions [c] [r]) o L X K o' L' X' K').
Proof.
  intros Ho Hc Hok.
  assert (forall n o' L' X' K', n <= 2 -> advances n o L X K o' L' X' K' -> exists L' X' K', proceeds 2 [] o L X K o' L' X' K') as Hadv.
  { intros n o' L' X' K' Hn Ha. exists L', X', K'. eapply proceeds_weaken; [exact Hn | by apply advances_proceeds]. }
  destruct c; cbn [step call_ok] in *.
  - destruct Hok as (Hop & Hk & Hv). eapply runs_bind; [by apply (write_advances o L X K); (done || lia)|].
    intros [o' r] (L' & Ha). apply runs_val. by eapply Hadv; [|exact Ha]; lia.
  - eapply runs_bind; [by apply (read_touch_advances o L X K); (done || lia)|].
    intros [o' r] (_ & X' & Ha). apply runs_val. by eapply Hadv; [|exact Ha]; lia.
  - eapply runs_bind; [by apply (recall_advances o L X K); (done || lia)|].
    intros [o' r] (X' & Ha). apply runs_val. by eapply Hadv; [|exact Ha]; lia.
  - eapply runs_bind; [by apply (consolidate_advances o L X K)|].
    intros [o' n] (L' & X' & K' & Ha). apply runs_val. by eapply Hadv; [|exact Ha]; lia.
  - eapply runs_bind; [by apply (write_proc_advances o L X K); (done || lia)|].
    intros [o' r] (_ & L' & Ha). apply runs_val. by eapply Hadv; [|exact Ha]; lia.
  - eapply runs_bind; [by apply (admit_proceeds o L X K); (done || lia)|].
    intros [o' b] Hp. apply runs_val. exists [], [], []. eapply proceeds_weaken; [|destruct b; exact Hp]. lia.
  - destruct Hok as [Ht Hs]. destruct (corpus_emit_ok o L X K content_tok source_stream salience Ho ltac:(lia) Ht Hs) as (k & -> & Ho').
    rewrite bind_val. apply runs_val. eapply (Hadv 0); [lia|]. constructor; [by rewrite (app_nil_r L), (app_nil_r X) | | |].
    + apply no_promotion_refl.
    + apply journal_grows_refl.
    + change (clock o <= clock o <= clock o + 0). lia.
Qed.

Lemma admissions_cons c r cs rs : admissions (c :: cs) (r :: rs) = admissions [c] [r] ++ admissions cs rs.
Proof. by destruct c, r as [| [|] |]. Qed.

Lemma run_proceeds cs : forall o L X K, organ_inv o L X K -> clock o + 2 * zlen cs < CLOCK_MAX -> Forall call_ok cs ->
  runs (run cs o) (fun '(o', rs) => zlen rs = zlen cs /\
    exists L' X' K', proceeds (2 * zlen cs) (admissions cs rs) o L X K o' L' X' K').
Proof.
  induction cs as [|c cs IH]; intros o L X K Ho Hc Hok; cbn [run].
  - apply runs_val. split; [done|]. exists [], [], []. apply advances_proceeds. by apply advances_refl.
  - apply Forall_cons in Hok as [Hok Hoks]. rewrite zlen_cons in *. pose proof (zlen_nonneg cs).
    eapply runs_bind; [by apply (step_proceeds o L X K); (done || lia)|]. intros [o1 r] (L1 & X1 & K1 & P1).
    eapply runs_bind; [apply (IH o1 _ _ _ (pr_inv _ _ _ _ _ _ _ _ _ _ P1)); [pose proof (pr_clock _ _ _ _ _ _ _ _ _ _ P1); lia | done]|].
    intros [o2 rs] (Hl & L2 & X2 & K2 & P2). apply runs_val. rewrite zlen_cons. split; [lia|].
    do 3 eexists. rewrite admissions_cons. replace (2 * (1 + zlen cs)) with (2 + 2 * zlen cs) by lia. by eapply proceeds_trans.
Qed.
End history_spec.

Section from_boot.
Context {B : Type} `{BackingTotal B} (b : B).

(** A history from an empty organ. *)
Lemma boot_proceeds cs o rs : bs_ok b -> 2 * zlen cs + 1 < CLOCK_MAX -> Forall call_ok cs -> run cs (new b) = Val (o, rs) ->
  exists L X K, proceeds (2 * zlen cs) (admissions cs rs) (new b) [] [] [] o L X K.
Proof.
  intros Hb Hc Hok E. destruct (run_proceeds cs (new b) [] [] [] (new_inv b Hb)) as ([o' rs'] & E' & _ & L & X & K & P);
    [change (clock (new b)) with 1; lia | done |].
  rewrite E in E'. injection E' as <- <-. by exists L, X, K.
Qed.

Lemma run_app cs1 cs2 (o : MemSubstrate B) : run (cs1 ++ cs2) o =
  ('(o, rs1) ← run cs1 o; '(o, rs2) ← run cs2 o; Val (o, rs1 ++ rs2)).
Proof.
  revert o. induction cs1 as [|c cs1 IH]; intros o; cbn [run app].
  - rewrite bind_val. by destruct (run cs2 o) as [[o' rs]|].
  - destruct (step o c) as [[o1 r]|]; [|done]. rewrite !bind_val, IH. destruct (run cs1 o1) as [[o2 rs1]|]; [|done].
    rewrite !bind_val. by destruct (run cs2 o2) as [[o3 rs2]|].
Qed.
End from_boot.

(** ** Properties *)

(** C22: any history of calls from boot, short of the clock's horizon, runs to its end
    without a panic, and the organ stays well formed with its three logs committed: each
    head is the fold of the digests of the entries so far, the corpus bytes are their
    records', and what a later call sees of a log extends what an earlier one saw. *)
Theorem organ_history_committed {B} `{BackingTotal B} (b : B) cs1 cs2 :
  bs_ok b -> 2 * zlen (cs1 ++ cs2) + 1 < CLOCK_MAX -> Forall call_ok (cs1 ++ cs2) ->
  runs (run cs1 (new b)) (fun '(o1, rs1) => zlen rs1 = zlen cs1 /\ runs (run cs2 o1) (fun '(o2, rs2) => zlen rs2 = zlen cs2 /\
    exists L1 L2 X1 X2 K1 K2, organ_inv o1 L1 X1 K1 /\ organ_inv o2 (L1 ++ L2) (X1 ++ X2) (K1 ++ K2) /\
      ids_of (H := ProvEntry_canon) (L1 ++ L2) (ledger_ids (led o2)) /\
      fold_chain genesis (ledger_ids (led o2)) = Val (chain_head (led o2)) /\
      fold_chain genesis (xp_ids (xp o2)) = Val (xp_head (xp o2)) /\
      fold_chain genesis (corpus_ids (corp o2)) = Val (corpus_head (corp o2)) /\
      corpus_records (corp o2) = map record_bytes (K1 ++ K2))).
Proof.
  intros Hb Hc Hok. rewrite zlen_app in Hc. apply Forall_app in Hok as [Hok1 Hok2].
  pose proof (zlen_nonneg cs1). pose proof (zlen_nonneg cs2).
  destruct (run_proceeds cs1 (new b) [] [] [] (new_inv b Hb)) as ([o1 rs1] & E1 & Hl1 & L1 & X1 & K1 & P1);
    [change (clock (new b)) with 1; lia | done |].
  rewrite E1. apply runs_val. split; [done|]. pose proof (pr_inv _ _ _ _ _ _ _ _ _ _ P1) as I1.
  pose proof (pr_clock _ _ _ _ _ _ _ _ _ _ P1) as C1. change (clock (new b)) with 1 in C1.
  destruct (run_proceeds cs2 o1 _ _ _ I1) as ([o2 rs2] & E2 & Hl2 & L2 & X2 & K2 & P2); [lia | done |].
  rewrite E2. apply runs_val. split; [done|]. pose proof (pr_inv _ _ _ _ _ _ _ _ _ _ P2) as I2.
  exists L1, L2, X1, X2, K1, K2. split; [exact I1|]. split; [exact I2|].
  split; [apply (log_ids _ _ _ (inv_ledger _ _ _ _ I2))|]. split; [apply (log_head _ _ _ (inv_ledger _ _ _ _ I2))|].
  split; [apply (log_head _ _ _ (xp_chain _ _ (inv_xp _ _ _ _ I2)))|].
  split; [apply (log_head _ _ _ (corpus_chain _ _ (inv_corpus _ _ _ _ I2)))|]. apply (corpus_bytes _ _ (inv_corpus _ _ _ _ I2)).
Qed.

(** C23: an acknowledged memory is never lost.  Once a write has answered with an id, reading
    that id returns the value written, whatever calls follow: deletes, distillation,
    forgetting and explicit invalidation tombstone, and nothing erases. *)
Theorem organ_history_lossless {B} `{BackingTotal B} (b : B) cs1 cs2 op key value packed n o1 rs1 o2 o3 rs2 :
  bs_ok b -> 2 * zlen (cs1 ++ Write op key value packed :: cs2) + 1 < CLOCK_MAX ->
  Forall call_ok (cs1 ++ Write op key value packed :: cs2) -> is_add op = true ->
  run cs1 (new b) = Val (o1, rs1) -> step o1 (Write op key value packed) = Val (o2, Scalar (Some n)) ->
  run cs2 o2 = Val (o3, rs2) -> read o3 n = Some value.
Proof.
  intros Hb Hc Hok Ha E1 E2 E3. rewrite zlen_app, zlen_cons in Hc. apply Forall_app in Hok as [Hok1 [Hok Hok2]%Forall_cons].
  pose proof (zlen_nonneg cs1). pose proof (zlen_nonneg cs2).
  destruct (boot_proceeds b cs1 o1 rs1 Hb ltac:(lia) Hok1 E1) as (L1 & X1 & K1 & P1).
  pose proof (pr_inv _ _ _ _ _ _ _ _ _ _ P1) as I1. pose proof (pr_clock _ _ _ _ _ _ _ _ _ _ P1) as C1. change (clock (new b)) with 1 in C1.
  destruct Hok as (Hop & Hk & Hv). cbn [step] in E2. apply bind_val_inv in E2 as ([o2' r] & Ew & [= -> ->]).
  destruct (decide (tokens_written (quota o1) = TOKEN_QUOTA)) as [Hf|Hf]; [by rewrite write_full in Ew|].
  pose proof (inv_quota _ _ _ _ I1) as (_ & _ & Hq).
  destruct (write_add o1 _ _ _ op key value packed I1 ltac:(lia) Hk Hv Ha ltac:(lia)) as (bk & l & _ & Ew' & Hl & I2).
  rewrite Ew in Ew'. injection Ew' as -> ->. set (o2 := set_led _ l) in *.
  assert (log (t2 o2) !! Z.to_nat (zlen (log (t2 o1))) = Some (mkEp (zlen (log (t2 o1))) key value (clock o1) 0 0)) as Hn.
  { change (log (t2 o2)) with (log (t2 o1) ++ [mkEp (zlen (log (t2 o1))) key value (clock o1) 0 0]).
    unfold zlen. by rewrite Nat2Z.id, list_lookup_middle. }
  destruct (run_proceeds cs2 o2 _ _ _ I2) as ([o3' rs'] & E3' & _ & L3 & X3 & K3 & P3);
    [change (Prov.clock l + 2 * zlen cs2 < CLOCK_MAX); lia | done |].
  rewrite E3 in E3'. injection E3' as <- <-. pose proof (pr_inv _ _ _ _ _ _ _ _ _ _ P3) as I3.
  rewrite (read_eq _ _ _ _ _ I3) by apply zlen_nonneg.
  destruct (journal_grows_lookup _ _ _ _ (pr_journal _ _ _ _ _ _ _ _ _ _ P3) Hn) as (e & -> & _ & _ & Hval & _). cbn. by rewrite Hval.
Qed.

(** Trust only ratchets.  In any history the scores of the skills admitted are strictly
    increasing, the watermark is the last of them, and a skill is marked admitted only if
    some admission of that very skill succeeded: no call an agent can make promotes one. *)
Theorem organ_history_admissions {B} `{BackingTotal B} (b : B) cs o rs :
  bs_ok b -> 2 * zlen cs + 1 < CLOCK_MAX -> Forall call_ok cs -> run cs (new b) = Val (o, rs) ->
  StronglySorted Z.lt (0 :: map snd (admissions cs rs)) /\
  best_score (t4 o) = List.last (map snd (admissions cs rs)) 0 /\
  (forall id, has_skill o id -> s_tier (skill_at o id) = SKILL_ADMITTED -> id ∈ map fst (admissions cs rs)).
Proof.
  intros Hb Hc Hok E. destruct (boot_proceeds b cs o rs Hb Hc Hok E) as (L & X & K & P).
  split; [apply (pr_sorted _ _ _ _ _ _ _ _ _ _ P)|]. split; [apply (pr_best _ _ _ _ _ _ _ _ _ _ P)|].
  intros id Hi Ht. destruct (pr_admitted _ _ _ _ _ _ _ _ _ _ P _ _ (skill_lookup o id Hi) Ht) as [(s & Hs & _)|Hin]; [discriminate|].
  rewrite Z2Nat.id in Hin by apply Hi. done.
Qed.

(** ** Witnesses *)

Definition demo_calls : list call :=
  [Write 0 77 100 3; WriteProc 0 42 1 2; Admit 0 700; Write 0 77 200 9; Consolidate 3 0 0 0].

Lemma demo_calls_ok : Forall call_ok demo_calls.
Proof. repeat apply Forall_cons_2; try apply Forall_nil_2; cbn; unfold in_u; lia. Qed.

Lemma organ_history_committed_witness : exists (o : MemSubstrate Ram.RamStore) rs L X K,
  run demo_calls (new Ram.default) = Val (o, rs) /\ organ_inv o L X K.
Proof.
  destruct (organ_history_committed Ram.default [] demo_calls)
    as ([o1 rs1] & E1 & _ & [o2 rs2] & E2 & _ & L1 & L2 & X1 & X2 & K1 & K2 & _ & Hi & _);
    [done | by vm_compute | exact demo_calls_ok |].
  injection E1 as <- <-. do 5 eexists. split; [exact E2 | exact Hi].
Defined.

(** A write, then an invalidation and a delete of it. *)
Lemma demo_write_then : exists (o2 o3 : MemSubstrate Ram.RamStore) rs, step (new Ram.default) (Write 0 77 100 3) = Val (o2, Scalar (Some 0)) /\
  run [Consolidate 0 0 0 0; Write 2 77 0 0] o2 = Val (o3, rs).
Proof.
  destruct (write_add (new Ram.default) [] [] [] 0 77 100 3) as (b & l & _ & Ew & Hl & Ho);
    [by apply new_inv | by vm_compute | unfold in_u; lia | unfold in_u; lia | done | by vm_compute |].
  set (o2 := set_led _ l) in *.
  destruct (run_proceeds [Consolidate 0 0 0 0; Write 2 77 0 0] o2 _ _ _ Ho) as ([o3 rs] & E & _).
  - change (Prov.clock l + 2 * 2 < CLOCK_MAX). rewrite Hl. by vm_compute.
  - repeat apply Forall_cons_2; try apply Forall_nil_2; cbn; unfold in_u; lia.
  - exists o2, o3, rs. split; [|exact E]. cbn [step]. by rewrite Ew.
Qed.

Lemma organ_history_lossless_witness : exists (o2 o3 : MemSubstrate Ram.RamStore) rs,
  step (new Ram.default) (Write 0 77 100 3) = Val (o2, Scalar (Some 0)) /\
  run [Consolidate 0 0 0 0; Write 2 77 0 0] o2 = Val (o3, rs) /\ read o3 0 = Some 100.
Proof.
  destruct demo_write_then as (o2 & o3 & rs & E2 & E3). exists o2, o3, rs. split; [exact E2|]. split; [exact E3|].
  refine (organ_history_lossless Ram.default [] [Consolidate 0 0 0 0; Write 2 77 0 0] 0 77 100 3 0 _ [] o2 o3 rs _ _ _ eq_refl eq_refl E2 E3).
  - exact I.
  - reflexivity.
  - cbn [app]. repeat apply Forall_cons_2; try apply Forall_nil_2; cbn; unfold in_u; lia.
Defined.

Lemma organ_history_admissions_witness : exists (o : MemSubstrate Ram.RamStore) rs,
  run demo_calls (new Ram.default) = Val (o, rs) /\ best_score (t4 o) = List.last (map snd (admissions demo_calls rs)) 0.
Proof.
  destruct (run_proceeds demo_calls (new Ram.default) [] [] []) as ([o rs] & E & _); [by apply new_inv | by vm_compute | exact demo_calls_ok |].
  exists o, rs. split; [exact E|].
  apply (organ_history_admissions Ram.default demo_calls o rs); [exact I | reflexivity | exact demo_calls_ok | exact E].
Defined.
