(* ===== verification/Abi.v ===== *)
(** * The numbered system-call surface: the method space of [crates/tb-hal/src/caps.rs] and
    its frozen registry, [crates/tb-encode/src/abi.rs].

    The registry is an independent copy of the method numbers, the right each requires and
    the bits of each right; [abi_registry_selfcheck] compares it with the live surface at
    boot.  The comparison is written over an arbitrary surface ([surface]) so that what it
    detects can be stated, and then run on the kernel's. *)
From Stdlib Require Import ZArith Lia String.
From stdpp Require Import base numbers option tactics sets list strings.
From S2P Require Import Prelude Caps.
Open Scope Z_scope.

(** ** The live surface *)

Definition M_OBJECT_INSPECT : Z := 0.
Definition M_HANDLE_DUP : Z := 1.
Definition M_HANDLE_NARROW : Z := 2.
Definition M_HANDLE_TRANSFER : Z := 3.
Definition M_HANDLE_REVOKE : Z := 4.
Definition M_HANDLE_CLOSE : Z := 5.
Definition M_AGENT_SPAWN : Z := 16.
Definition M_MODEL_INVOKE : Z := 17.
Definition M_MEM_WRITE_PROC : Z := 18.
Definition M_MEM_RECALL : Z := 19.
Definition M_MEM_CONSOLIDATE : Z := 20.
Definition M_EMIT_EXTERNAL : Z := 21.
Definition M_BUDGET_DELEGATE : Z := 22.
Definition M_MEM_WRITE : Z := 23.
Definition M_MEM_READ : Z := 24.
Definition M_CHAN_SEND : Z := 25.
Definition M_CHAN_RECV : Z := 26.
Definition M_CHAN_CLOSE : Z := 27.
Definition M_BLOCK_MAP : Z := 28.
Definition M_BLOCK_UNMAP : Z := 29.
Definition M_BLOCK_WRITE : Z := 30.
Definition M_BLOCK_READ : Z := 31.
Definition M_MODEL_INVOKE_BYTES : Z := 32.

Definition required_right (method : Z) : option Z :=
  if method =? M_OBJECT_INSPECT then Some Rights.READ else
  if method =? M_HANDLE_DUP then Some Rights.DUP else
  if method =? M_HANDLE_NARROW then Some Rights.NONE else
  if method =? M_HANDLE_TRANSFER then Some Rights.TRANSFER else
  if method =? M_HANDLE_REVOKE then Some Rights.REVOKE else
  if method =? M_HANDLE_CLOSE then Some Rights.NONE else
  if method =? M_AGENT_SPAWN then Some Rights.SPAWN_AGENT else
  if method =? M_MODEL_INVOKE then Some Rights.INVOKE_MODEL else
  if method =? M_MEM_WRITE_PROC then Some Rights.WRITE_PROCEDURAL else
  if method =? M_MEM_RECALL then Some Rights.RECALL else
  if method =? M_MEM_CONSOLIDATE then Some Rights.CONSOLIDATE else
  if method =? M_MEM_WRITE then Some Rights.WRITE else
  if method =? M_MEM_READ then Some Rights.READ else
  if method =? M_CHAN_SEND then Some Rights.WRITE else
  if method =? M_CHAN_RECV then Some Rights.READ else
  if method =? M_CHAN_CLOSE then Some Rights.NONE else
  if method =? M_BLOCK_MAP then Some Rights.READ else
  if method =? M_BLOCK_UNMAP then Some Rights.REVOKE else
  if method =? M_BLOCK_WRITE then Some Rights.WRITE else
  if method =? M_BLOCK_READ then Some Rights.READ else
  if method =? M_MODEL_INVOKE_BYTES then Some Rights.INVOKE_MODEL else
  if method =? M_EMIT_EXTERNAL then Some Rights.EMIT_EXTERNAL else
  if method =? M_BUDGET_DELEGATE then Some Rights.DELEGATE_BUDGET else
  None.

Definition live_method_id (name : string) : option Z :=
  if String.eqb name "M_OBJECT_INSPECT" then Some M_OBJECT_INSPECT else
  if String.eqb name "M_HANDLE_DUP" then Some M_HANDLE_DUP else
  if String.eqb name "M_HANDLE_NARROW" then Some M_HANDLE_NARROW else
  if String.eqb name "M_HANDLE_TRANSFER" then Some M_HANDLE_TRANSFER else
  if String.eqb name "M_HANDLE_REVOKE" then Some M_HANDLE_REVOKE else
  if String.eqb name "M_HANDLE_CLOSE" then Some M_HANDLE_CLOSE else
  if String.eqb name "M_AGENT_SPAWN" then Some M_AGENT_SPAWN else
  if String.eqb name "M_MODEL_INVOKE" then Some M_MODEL_INVOKE else
  if String.eqb name "M_MEM_WRITE_PROC" then Some M_MEM_WRITE_PROC else
  if String.eqb name "M_MEM_RECALL" then Some M_MEM_RECALL else
  if String.eqb name "M_MEM_CONSOLIDATE" then Some M_MEM_CONSOLIDATE else
  if String.eqb name "M_EMIT_EXTERNAL" then Some M_EMIT_EXTERNAL else
  if String.eqb name "M_BUDGET_DELEGATE" then Some M_BUDGET_DELEGATE else
  if String.eqb name "M_MEM_WRITE" then Some M_MEM_WRITE else
  if String.eqb name "M_MEM_READ" then Some M_MEM_READ else
  if String.eqb name "M_CHAN_SEND" then Some M_CHAN_SEND else
  if String.eqb name "M_CHAN_RECV" then Some M_CHAN_RECV else
  if String.eqb name "M_CHAN_CLOSE" then Some M_CHAN_CLOSE else
  if String.eqb name "M_BLOCK_MAP" then Some M_BLOCK_MAP else
  if String.eqb name "M_BLOCK_UNMAP" then Some M_BLOCK_UNMAP else
  if String.eqb name "M_BLOCK_WRITE" then Some M_BLOCK_WRITE else
  if String.eqb name "M_BLOCK_READ" then Some M_BLOCK_READ else
  if String.eqb name "M_MODEL_INVOKE_BYTES" then Some M_MODEL_INVOKE_BYTES else
  None.

Definition live_right_bits (name : string) : option Z :=
  if String.eqb name "NONE" then Some Rights.NONE else
  if String.eqb name "READ" then Some Rights.READ else
  if String.eqb name "WRITE" then Some Rights.WRITE else
  if String.eqb name "TRANSFER" then Some Rights.TRANSFER else
  if String.eqb name "DUP" then Some Rights.DUP else
  if String.eqb name "REVOKE" then Some Rights.REVOKE else
  if String.eqb name "INVOKE_MODEL" then Some Rights.INVOKE_MODEL else
  if String.eqb name "SPAWN_AGENT" then Some Rights.SPAWN_AGENT else
  if String.eqb name "WRITE_PROCEDURAL" then Some Rights.WRITE_PROCEDURAL else
  if String.eqb name "RECALL" then Some Rights.RECALL else
  if String.eqb name "CONSOLIDATE" then Some Rights.CONSOLIDATE else
  if String.eqb name "EMIT_EXTERNAL" then Some Rights.EMIT_EXTERNAL else
  if String.eqb name "DELEGATE_BUDGET" then Some Rights.DELEGATE_BUDGET else
  if String.eqb name "APPROVE_HIGH_IMPACT" then Some Rights.APPROVE_HIGH_IMPACT else
  None.

(** ** The frozen registry *)

Record AbiVersion := mkVersion { cap_major : Z; cap_minor : Z; wire : Z }.
Definition YUVA_ABI_VERSION : AbiVersion := mkVersion 1 0 1.
Definition PLANES : Z := 2.

Definition FROZEN_METHODS : list (Z * string * Z) :=
  [(0, "M_OBJECT_INSPECT"%string, 1); (1, "M_HANDLE_DUP"%string, 8); (2, "M_HANDLE_NARROW"%string, 0);
   (3, "M_HANDLE_TRANSFER"%string, 4); (4, "M_HANDLE_REVOKE"%string, 16); (5, "M_HANDLE_CLOSE"%string, 0);
   (16, "M_AGENT_SPAWN"%string, 64); (17, "M_MODEL_INVOKE"%string, 32); (18, "M_MEM_WRITE_PROC"%string, 128);
   (19, "M_MEM_RECALL"%string, 256); (20, "M_MEM_CONSOLIDATE"%string, 512); (21, "M_EMIT_EXTERNAL"%string, 1024);
   (22, "M_BUDGET_DELEGATE"%string, 2048); (23, "M_MEM_WRITE"%string, 2); (24, "M_MEM_READ"%string, 1);
   (25, "M_CHAN_SEND"%string, 2); (26, "M_CHAN_RECV"%string, 1); (27, "M_CHAN_CLOSE"%string, 0);
   (28, "M_BLOCK_MAP"%string, 1); (29, "M_BLOCK_UNMAP"%string, 16); (30, "M_BLOCK_WRITE"%string, 2);
   (31, "M_BLOCK_READ"%string, 1); (32, "M_MODEL_INVOKE_BYTES"%string, 32)].

Definition METHOD_CEILING : Z := 32.

Definition FROZEN_RIGHTS : list (Z * string) :=
  [(0, "NONE"%string); (1, "READ"%string); (2, "WRITE"%string); (4, "TRANSFER"%string); (8, "DUP"%string);
   (16, "REVOKE"%string); (32, "INVOKE_MODEL"%string); (64, "SPAWN_AGENT"%string);
   (128, "WRITE_PROCEDURAL"%string); (256, "RECALL"%string); (512, "CONSOLIDATE"%string);
   (1024, "EMIT_EXTERNAL"%string); (2048, "DELEGATE_BUDGET"%string); (4096, "APPROVE_HIGH_IMPACT"%string)].

Definition FROZEN_WIRE_MAGICS : list (Z * string) :=
  [(0x5956, "MAGIC_OPFRAME"%string); (0x5957, "MAGIC_OPFRAME_RX"%string);
   (0x5958, "MAGIC_INFERWIRE"%string); (0x5959, "MAGIC_ATTEST"%string)].

Definition EXPECT_OK : Z := 0.
Definition EXPECT_DENIED : Z := 1.
Definition EXPECT_BADMETHOD : Z := 2.

(** (method, granted rights, expected outcome) *)
Definition CONFORMANCE_CAP_VECTORS : list (Z * Z * Z) :=
  [(0, 1, EXPECT_OK); (21, 1, EXPECT_DENIED); (18, 1, EXPECT_DENIED); (16, 1, EXPECT_DENIED);
   (0xDEAD, 0x1FFF, EXPECT_BADMETHOD)].

(** The compile-time assertions on the literals: the magics are pairwise distinct, the ids
    strictly increase and end at the ceiling. *)
Definition magics_disjoint (t : list (Z * string)) : bool :=
  (zlen t =? 4) && bool_decide (NoDup (map fst t)).
Fixpoint ids_from (last : Z) (t : list (Z * string * Z)) : option Z :=
  match t with
  | [] => Some last
  | (id, _, _) :: t => if last <? id then ids_from id t else None
  end.
Definition ids_increasing (t : list (Z * string * Z)) (ceiling : Z) : bool :=
  match t with
  | (0, _, _) :: t => bool_decide (ids_from 0 t = Some ceiling)
  | _ => false
  end.

(** ** The boot-time cross-check *)

Inductive AbiSelfcheck :=
  | AbiOk (count : Z)
  | MethodIdDrift (id : Z)
  | RequiredRightDrift (id : Z)
  | CeilingDrift (max_id : Z)
  | MethodCountDrift (live_count : Z)
  | RightsBitDrift (bits : Z)
  | CeilingOpen (id : Z).

(** The two sides of the comparison. *)
Record surface := mkSurface {
  method_of : string -> option Z;
  right_of : Z -> option Z;
  bits_of : string -> option Z;
  methods : list (Z * string * Z);
  rights_table : list (Z * string);
  ceiling : Z;
}.

Section selfcheck.
Context (s : surface).

(** (1) and (2), with the running maximum. *)
Fixpoint check_methods (rows : list (Z * string * Z)) (max_id : Z) : Z + AbiSelfcheck :=
  match rows with
  | [] => inl max_id
  | (id, name, bits) :: rows =>
      if bool_decide (method_of s name = Some id) then
        if bool_decide (right_of s id = Some bits)
        then check_methods rows (if max_id <? id then id else max_id)
        else inr (RequiredRightDrift id)
      else inr (MethodIdDrift id)
  end.

(** (3b) [n] numbers from [m] on. *)
Fixpoint count_live (n : nat) (m live_count : Z) : Z :=
  match n with
  | O => live_count
  | S n => count_live n (m + 1) (match right_of s m with Some _ => live_count + 1 | None => live_count end)
  end.

(** (3c) *)
Fixpoint first_live (n : nat) (over : Z) : option Z :=
  match n with
  | O => None
  | S n => match right_of s over with Some _ => Some over | None => first_live n (over + 1) end
  end.

(** (4) *)
Fixpoint first_bit_drift (rows : list (Z * string)) : option Z :=
  match rows with
  | [] => None
  | (fbits, rname) :: rows =>
      if bool_decide (bits_of s rname = Some fbits) then first_bit_drift rows else Some fbits
  end.

Definition selfcheck : AbiSelfcheck :=
  match check_methods (methods s) 0 with
  | inr e => e
  | inl max_id =>
      if negb (max_id =? ceiling s) then CeilingDrift max_id else
      let live_count := count_live (Z.to_nat (ceiling s + 1)) 0 0 in
      if negb (live_count =? wrap 32 (zlen (methods s))) then MethodCountDrift live_count else
      match first_live 16 (ceiling s + 1) with
      | Some over => CeilingOpen over
      | None =>
          match first_bit_drift (rights_table s) with
          | Some fbits => RightsBitDrift fbits
          | None => AbiOk (wrap 32 (zlen (methods s)))
          end
      end
  end.
End selfcheck.

Definition kernel_surface : surface :=
  mkSurface live_method_id required_right live_right_bits FROZEN_METHODS FROZEN_RIGHTS METHOD_CEILING.
Definition abi_registry_selfcheck : AbiSelfcheck := selfcheck kernel_surface.

(** ** Lemmas *)

Definition ids (t : list (Z * string * Z)) : list Z := map (fun '(id, _, _) => id) t.

Lemma ids_from_spec t last mx : ids_from last t = Some mx ->
  last <= mx /\ NoDup (ids t) /\ Forall (fun id => last < id <= mx) (ids t) /\ foldl Z.max last (ids t) = mx.
Proof.
  revert last. induction t as [|[[id name] b] t IH]; intros last; cbn [ids_from ids map foldl].
  { intros [= ->]. split; [lia|]. repeat split; constructor. }
  destruct (Z.ltb_spec last id) as [Hlt|]; [|done]. intros E. destruct (IH id E) as (Hle & Hnd & Hall & Hmax).
  split; [lia|]. split.
  { constructor; [|done]. intros Hin%(proj1 (Forall_forall _ _) Hall). lia. }
  split; [constructor; [lia|]; eapply Forall_impl; [exact Hall|]; cbn; lia|]. by rewrite Z.max_r by lia.
Qed.

Lemma ids_increasing_spec t c : ids_increasing t c = true ->
  0 <= c /\ NoDup (ids t) /\ Forall (fun id => 0 <= id <= c) (ids t) /\ foldl Z.max 0 (ids t) = c.
Proof.
  destruct t as [|[[[|p|p] name] b] t]; try done. unfold ids_increasing. intros E%bool_decide_eq_true_1.
  destruct (ids_from_spec t 0 c E) as (Hle & Hnd & Hall & Hmax). split; [done|]. cbn [ids map foldl].
  split; [constructor; [intros Hin%(proj1 (Forall_forall _ _) Hall); lia | done]|].
  split; [|done]. constructor; [lia|]. eapply Forall_impl; [exact Hall|]. cbn. lia.
Qed.

Section selfcheck_spec.
Context (s : surface).

Definition row_ok (r : Z * string * Z) : Prop :=
  let '(id, name, bits) := r in method_of s name = Some id /\ right_of s id = Some bits.

Lemma check_methods_spec rows mx :
  match check_methods s rows mx with
  | inl mx' => Forall row_ok rows /\ mx' = foldl Z.max mx (ids rows)
  | inr e => (forall n, e <> AbiOk n) /\ ~ Forall row_ok rows
  end.
Proof.
  revert mx. induction rows as [|[[id name] b] rows IH]; intros mx; cbn [check_methods]; [by split|].
  case_bool_decide as H1; [|split; [done | intros [[? _] _]%Forall_cons; done]].
  case_bool_decide as H2; [|split; [done | intros [[_ ?] _]%Forall_cons; done]].
  replace (if mx <? id then id else mx) with (Z.max mx id) by (destruct (Z.ltb_spec mx id); lia).
  specialize (IH (Z.max mx id)). destruct (check_methods s rows _).
  - destruct IH as [Hr ->]. split; [by constructor | done].
  - destruct IH as [He Hn]. split; [done|]. intros [_ Hr]%Forall_cons. done.
Qed.

Definition live_in (m n : Z) : list Z := filter (fun k => is_Some (right_of s k)) (seqZ m n).

Lemma count_live_spec n m c : count_live s n m c = c + zlen (live_in m (Z.of_nat n)).
Proof.
  revert m c. induction n as [|n IH]; intros m c; cbn [count_live].
  { change (live_in m (Z.of_nat 0)) with (@nil Z). rewrite zlen_nil. lia. }
  rewrite IH. unfold live_in at 2. rewrite seqZ_cons by lia. rewrite filter_cons.
  replace (Z.pred (Z.of_nat (S n))) with (Z.of_nat n) by lia. change (filter _ (seqZ (Z.succ m) (Z.of_nat n))) with (live_in (m + 1) (Z.of_nat n)).
  destruct (right_of s m) as [r|] eqn:E.
  - rewrite decide_True by (exists r; done). rewrite zlen_cons. lia.
  - rewrite decide_False by (intros [r Hr]; congruence). lia.
Qed.

Lemma first_live_none n over : first_live s n over = None <-> forall m, over <= m < over + Z.of_nat n -> right_of s m = None.
Proof.
  revert over. induction n as [|n IH]; intros over; cbn [first_live]; [split; [lia | done]|].
  destruct (right_of s over) as [r|] eqn:E.
  { split; [done|]. intros Hall. rewrite Hall in E by lia. done. }
  rewrite IH. split; intros Hall m Hm; [|apply Hall; lia].
  destruct (decide (m = over)) as [->|]; [done | apply Hall; lia].
Qed.

Lemma first_bit_drift_none rows :
  first_bit_drift s rows = None <-> Forall (fun '(b, name) => bits_of s name = Some b) rows.
Proof.
  induction rows as [|[b name] rows IH]; cbn [first_bit_drift]; [by split|].
  rewrite Forall_cons, <- IH. case_bool_decide; [tauto|]. split; [done | intros [? _]; done].
Qed.

Lemma live_in_elem m n k : k ∈ live_in m n <-> is_Some (right_of s k) /\ m <= k < m + n.
Proof. unfold live_in. by rewrite list_elem_of_filter, elem_of_seqZ. Qed.

(** Rows that are live and as many live numbers as rows: no number is live but the rows'. *)
Lemma live_ids_exact c : NoDup (ids (methods s)) -> Forall (fun id => 0 <= id <= c) (ids (methods s)) -> Forall row_ok (methods s) ->
  (zlen (live_in 0 (c + 1)) = zlen (methods s) <-> forall m, 0 <= m <= c -> is_Some (right_of s m) -> m ∈ ids (methods s)).
Proof.
  intros Hnd Hr Hok.
  assert (forall m, m ∈ ids (methods s) -> m ∈ live_in 0 (c + 1)) as Hsub.
  { intros m Hm. apply live_in_elem. rewrite Forall_forall in Hr. rewrite Forall_forall in Hok. pose proof (Hr m Hm).
    apply list_elem_of_fmap_1 in Hm as ([[id name] b] & -> & Hin). destruct (Hok _ Hin) as [_ E]. split; [by eexists | lia]. }
  assert (NoDup (live_in 0 (c + 1))) as Hnd' by (apply NoDup_filter, NoDup_seqZ).
  assert (length (ids (methods s)) = length (methods s)) as Hlen by apply length_map.
  unfold zlen. split.
  - intros E m Hm Hs. assert (ids (methods s) ≡ₚ live_in 0 (c + 1)) as ->.
    { apply submseteq_length_Permutation; [by apply NoDup_submseteq | lia]. }
    apply live_in_elem. split; [done | lia].
  - intros Hall. rewrite <- Hlen. f_equal. apply Permutation_length, NoDup_Permutation; [done | done |].
    intros m. split; [|apply Hsub]. intros [Hs Hm]%live_in_elem. apply Hall; [lia | done].
Qed.
End selfcheck_spec.

(** When the check passes, given that the compile-time assertions hold. *)
Lemma selfcheck_ok (s : surface) n : foldl Z.max 0 (ids (methods s)) = ceiling s -> 0 <= zlen (methods s) < 2 ^ 32 -> 0 <= ceiling s ->
  (selfcheck s = AbiOk n <->
   n = zlen (methods s) /\ Forall (row_ok s) (methods s) /\ zlen (live_in s 0 (ceiling s + 1)) = zlen (methods s) /\
   (forall m, ceiling s + 1 <= m < ceiling s + 17 -> right_of s m = None) /\
   Forall (fun '(b, name) => bits_of s name = Some b) (rights_table s)).
Proof.
  intros Hmax Hlen H0. unfold selfcheck. pose proof (check_methods_spec s (methods s) 0) as Hcm.
  destruct (check_methods s (methods s) 0) as [mx|e].
  2: { destruct Hcm as [He Hn]. split; [intros E; by destruct (He n) | intros (_ & ? & _); done]. }
  destruct Hcm as [Hok ->]. rewrite Hmax, Z.eqb_refl. cbn [negb]. rewrite wrap_small by done.
  rewrite count_live_spec, Z.add_0_l, Z2Nat.id by lia. cbv zeta.
  pose proof (first_live_none s 16 (ceiling s + 1)) as Hfl. change (Z.of_nat 16) with 16 in Hfl.
  replace (ceiling s + 1 + 16) with (ceiling s + 17) in Hfl by lia.
  pose proof (first_bit_drift_none s (rights_table s)) as Hfb.
  destruct (Z.eqb_spec (zlen (live_in s 0 (ceiling s + 1))) (zlen (methods s))); cbn [negb]; [|by split; [|intros (_ & _ & ? & _)]].
  destruct (first_live s 16 (ceiling s + 1)) as [over|].
  { split; [done|]. intros (_ & _ & _ & Ho & _). by apply Hfl in Ho. }
  destruct (first_bit_drift s (rights_table s)) as [b|].
  { split; [done|]. intros (_ & _ & _ & _ & Hb). by apply Hfb in Hb. }
  split; [intros [= <-]|intros (-> & _); done]. split; [done|]. split; [done|]. split; [done|]. split; [by apply Hfl | by apply Hfb].
Qed.

Lemma frozen_rows_live : Forall (row_ok kernel_surface) FROZEN_METHODS.
Proof. by apply (proj1 (selfcheck_ok kernel_surface 23 eq_refl ltac:(done) ltac:(done)) eq_refl). Qed.

Lemma required_right_row m r : required_right m = Some r -> exists name, (m, name, r) ∈ FROZEN_METHODS.
Proof.
  unfold required_right. repeat match goal with |- context [m =? ?c] => destruct (Z.eqb_spec m c) as [->|_] end;
    [intros [= <-]; eexists; apply list_elem_of_In; repeat first [left; reflexivity | right].. | done].
Qed.

(** ** Properties *)

(** What the boot cross-check establishes, for any live surface and any registry whose
    ids strictly increase to the ceiling.  It passes exactly when every frozen method name
    carries its frozen number, every frozen right has its live bits, and, for every number
    up to sixteen past the ceiling, the method is live with a given right if and only if a
    frozen row says so: renumbering, relaxing a right, adding a method below or just above
    the ceiling and removing one are all detected. *)
Theorem abi_selfcheck_exact (s : surface) n :
  ids_increasing (methods s) (ceiling s) = true -> ceiling s < 2 ^ 31 ->
  (selfcheck s = AbiOk n <->
   n = zlen (methods s) /\
   (forall id name b, (id, name, b) ∈ methods s -> method_of s name = Some id) /\
   (forall m r, 0 <= m <= ceiling s + 16 -> right_of s m = Some r <-> exists name, (m, name, r) ∈ methods s) /\
   (forall b name, (b, name) ∈ rights_table s -> bits_of s name = Some b)).
Proof.
  intros Hinc Hc. destruct (ids_increasing_spec _ _ Hinc) as (H0 & Hnd & Hr & Hmax).
  assert (0 <= zlen (methods s) < 2 ^ 32) as Hlen.
  { split; [apply zlen_nonneg|]. assert (length (ids (methods s)) <= length (seqZ 0 (ceiling s + 1)))%nat as Hl.
    { apply submseteq_length, NoDup_submseteq; [done|]. intros m Hm. rewrite Forall_forall in Hr. pose proof (Hr m Hm). apply elem_of_seqZ. lia. }
    unfold ids in Hl. rewrite length_map, length_seqZ in Hl. unfold zlen. lia. }
  assert (forall id name b, (id, name, b) ∈ methods s -> id ∈ ids (methods s)) as Hids.
  { intros id name b Hin. by apply (list_elem_of_fmap_2 (fun '(id, _, _) => id)) in Hin. }
  assert (forall m, m ∈ ids (methods s) -> exists name b, (m, name, b) ∈ methods s) as Hrow.
  { intros m ([[id name] b] & -> & Hin)%list_elem_of_fmap_1. eauto. }
  rewrite selfcheck_ok by done. rewrite Forall_forall, (Forall_forall _ (rights_table s)). split.
  - intros (-> & Hok & Hcount & Hopen & Hbits). split; [done|].
    split; [intros id name b Hin; apply (Hok _ Hin)|]. split; [|intros b name Hin; apply (Hbits _ Hin)].
    intros m r Hm. split; [|intros [name Hin]; apply (Hok _ Hin)]. intros E.
    destruct (decide (m <= ceiling s)) as [Hle|]; [|rewrite Hopen in E by lia; done].
    destruct (Hrow m) as (name & b & Hin).
    { apply (proj1 (live_ids_exact s (ceiling s) Hnd Hr (proj2 (Forall_forall _ _) Hok)) Hcount); [lia | by exists r]. }
    exists name. destruct (Hok _ Hin) as [_ E']. rewrite E in E'. by injection E' as ->.
  - intros (-> & Hname & Hright & Hbits).
    assert (forall x, x ∈ methods s -> row_ok s x) as Hok.
    { intros [[id name] b] Hin. split; [by eapply Hname|]. apply Hright; [|by exists name].
      rewrite Forall_forall in Hr. pose proof (Hr id (Hids _ _ _ Hin)). lia. }
    split; [done|]. split; [done|]. split.
    + apply (live_ids_exact s (ceiling s) Hnd Hr); [by apply Forall_forall|].
      intros m Hm [r E]. apply Hright in E as [name Hin]; [|lia]. by eapply Hids.
    + split; [|by intros [b name] Hin; apply Hbits]. intros m Hm. destruct (right_of s m) as [r|] eqn:E; [|done].
      apply Hright in E as [name Hin]; [|lia]. rewrite Forall_forall in Hr. pose proof (Hr m (Hids _ _ _ Hin)). lia.
Qed.

(** The kernel's own method space is closed and is the frozen one: the boot check passes
    on its 23 rows, and every number of whatever size is a method with a given right if and
    only if a row of the registry says so. *)
Theorem abi_surface_frozen m r :
  abi_registry_selfcheck = AbiOk 23 /\ (required_right m = Some r <-> exists name, (m, name, r) ∈ FROZEN_METHODS).
Proof.
  assert (abi_registry_selfcheck = AbiOk 23) as Eok by (vm_compute; reflexivity). split; [done|].
  split; [apply required_right_row|].
  intros [name Hin]. pose proof frozen_rows_live as Hl. rewrite Forall_forall in Hl. apply (Hl _ Hin).
Qed.

(** ** Witnesses *)

(** A surface whose right for one method was relaxed does not pass. *)
Lemma abi_selfcheck_exact_witness :
  selfcheck (mkSurface live_method_id (fun m => if m =? M_EMIT_EXTERNAL then Some Rights.NONE else required_right m)
               live_right_bits FROZEN_METHODS FROZEN_RIGHTS METHOD_CEILING) <> AbiOk 23.
Proof.
  intros E. apply abi_selfcheck_exact in E as (_ & _ & Hr & _); [|reflexivity | reflexivity].
  destruct (proj1 (Hr 21 0 ltac:(by vm_compute)) eq_refl) as [name Hin]. apply list_elem_of_In in Hin.
  repeat destruct Hin as [Hin|Hin]; try discriminate Hin. exact Hin.
Defined.
