(* ===== verification/Sched.v ===== *)
(** * The preemptive round-robin scheduler of [crates/tb-hal/src/lib.rs].

    The run queue, the run state of each task, the saved stack pointers, the address-space
    roots and the two registers a switch programs (the page-table root and the kernel-stack
    pointer) are one record.  [ctx_switch] is assembly: the stack pointer it saves for the
    outgoing task is an argument, and control passing to the incoming one is the change of
    [CURRENT_TASK].  [task_api_fatal], which reports and halts, is a [Panic]. *)
From Stdlib Require Import ZArith Lia.
From stdpp Require Import base numbers option tactics sets list.
From S2P Require Import Prelude Mmu.
Open Scope Z_scope.

Definition MAX_TASKS : Z := 12.
Definition MIN_STACK_WORDS : Z := 64.
Definition TASK_RUNNABLE : Z := 0.
Definition TASK_BLOCKED : Z := 1.
(** [usize::MAX], an empty run-queue entry. *)
Definition NO_TASK : Z := u_max usize_bits.

Record Sched := mkSched {
  TASK_SP : list Z;
  CURRENT_TASK : Z;
  NEXT_TASK_SLOT : Z;
  RUNQUEUE : list Z;
  RUNQUEUE_LEN : Z;
  INVOLUNTARY_SWITCHES : Z;
  TASK_STATE : list Z;
  TASK_AS : list Z;
  TASK_KSTACK_TOP : list Z;
  BOOT_ROOT : Z;
  hw_root : Z;
  hw_rsp0 : Z;
}.

(** The statics' initial values, under the root the boot code installed. *)
Definition boot (root : Z) : Sched :=
  mkSched (zrepeat MAX_TASKS 0) 0 1 (zrepeat MAX_TASKS NO_TASK) 0 0 (zrepeat MAX_TASKS TASK_RUNNABLE)
    (zrepeat MAX_TASKS 0) (zrepeat MAX_TASKS 0) 0 root 0.

Definition set_sp (s : Sched) (v : list Z) : Sched :=
  mkSched v (CURRENT_TASK s) (NEXT_TASK_SLOT s) (RUNQUEUE s) (RUNQUEUE_LEN s) (INVOLUNTARY_SWITCHES s) (TASK_STATE s) (TASK_AS s) (TASK_KSTACK_TOP s) (BOOT_ROOT s) (hw_root s) (hw_rsp0 s).
Definition set_current (s : Sched) (v : Z) : Sched :=
  mkSched (TASK_SP s) v (NEXT_TASK_SLOT s) (RUNQUEUE s) (RUNQUEUE_LEN s) (INVOLUNTARY_SWITCHES s) (TASK_STATE s) (TASK_AS s) (TASK_KSTACK_TOP s) (BOOT_ROOT s) (hw_root s) (hw_rsp0 s).
Definition set_next_slot (s : Sched) (v : Z) : Sched :=
  mkSched (TASK_SP s) (CURRENT_TASK s) v (RUNQUEUE s) (RUNQUEUE_LEN s) (INVOLUNTARY_SWITCHES s) (TASK_STATE s) (TASK_AS s) (TASK_KSTACK_TOP s) (BOOT_ROOT s) (hw_root s) (hw_rsp0 s).
Definition set_queue (s : Sched) (q : list Z) (len : Z) : Sched :=
  mkSched (TASK_SP s) (CURRENT_TASK s) (NEXT_TASK_SLOT s) q len (INVOLUNTARY_SWITCHES s) (TASK_STATE s) (TASK_AS s) (TASK_KSTACK_TOP s) (BOOT_ROOT s) (hw_root s) (hw_rsp0 s).
Definition set_switches (s : Sched) (v : Z) : Sched :=
  mkSched (TASK_SP s) (CURRENT_TASK s) (NEXT_TASK_SLOT s) (RUNQUEUE s) (RUNQUEUE_LEN s) v (TASK_STATE s) (TASK_AS s) (TASK_KSTACK_TOP s) (BOOT_ROOT s) (hw_root s) (hw_rsp0 s).
Definition set_state (s : Sched) (v : list Z) : Sched :=
  mkSched (TASK_SP s) (CURRENT_TASK s) (NEXT_TASK_SLOT s) (RUNQUEUE s) (RUNQUEUE_LEN s) (INVOLUNTARY_SWITCHES s) v (TASK_AS s) (TASK_KSTACK_TOP s) (BOOT_ROOT s) (hw_root s) (hw_rsp0 s).
Definition set_as (s : Sched) (v : list Z) : Sched :=
  mkSched (TASK_SP s) (CURRENT_TASK s) (NEXT_TASK_SLOT s) (RUNQUEUE s) (RUNQUEUE_LEN s) (INVOLUNTARY_SWITCHES s) (TASK_STATE s) v (TASK_KSTACK_TOP s) (BOOT_ROOT s) (hw_root s) (hw_rsp0 s).
Definition set_kstack_top (s : Sched) (v : list Z) : Sched :=
  mkSched (TASK_SP s) (CURRENT_TASK s) (NEXT_TASK_SLOT s) (RUNQUEUE s) (RUNQUEUE_LEN s) (INVOLUNTARY_SWITCHES s) (TASK_STATE s) (TASK_AS s) v (BOOT_ROOT s) (hw_root s) (hw_rsp0 s).
Definition set_boot_root (s : Sched) (v : Z) : Sched :=
  mkSched (TASK_SP s) (CURRENT_TASK s) (NEXT_TASK_SLOT s) (RUNQUEUE s) (RUNQUEUE_LEN s) (INVOLUNTARY_SWITCHES s) (TASK_STATE s) (TASK_AS s) (TASK_KSTACK_TOP s) v (hw_root s) (hw_rsp0 s).
Definition set_hw_root (s : Sched) (v : Z) : Sched :=
  mkSched (TASK_SP s) (CURRENT_TASK s) (NEXT_TASK_SLOT s) (RUNQUEUE s) (RUNQUEUE_LEN s) (INVOLUNTARY_SWITCHES s) (TASK_STATE s) (TASK_AS s) (TASK_KSTACK_TOP s) (BOOT_ROOT s) v (hw_rsp0 s).
Definition set_hw_rsp0 (s : Sched) (v : Z) : Sched :=
  mkSched (TASK_SP s) (CURRENT_TASK s) (NEXT_TASK_SLOT s) (RUNQUEUE s) (RUNQUEUE_LEN s) (INVOLUNTARY_SWITCHES s) (TASK_STATE s) (TASK_AS s) (TASK_KSTACK_TOP s) (BOOT_ROOT s) (hw_root s) v.

(** ** Tasks and switches *)

(** [sp] is the stack pointer [arch::task_stack_init] fabricates at the top of the stack. *)
Definition task_create (s : Sched) (stack_words sp : Z) : res (Sched * Z) :=
  if stack_words <? MIN_STACK_WORDS then Panic else
  let slot := NEXT_TASK_SLOT s in
  let s := set_next_slot s (wrapping_add usize_bits slot 1) in
  if MAX_TASKS <=? slot then Panic else
  v ← upd (TASK_SP s) slot sp;
  Val (set_sp s v, slot).

Definition switch_address_space (s : Sched) (prev next : Z) : res Sched :=
  prev_as ← idx (TASK_AS s) prev;
  next_as ← idx (TASK_AS s) next;
  if prev_as =? next_as then Val s else
  let target := if next_as =? 0 then BOOT_ROOT s else next_as in
  if target =? 0 then Val s else
  Val (set_hw_root s (Z.land target PTE_ADDR_MASK)).

Definition switch_kernel_stack (s : Sched) (next : Z) : res Sched :=
  top ← idx (TASK_KSTACK_TOP s) next;
  Val (if top =? 0 then s else set_hw_rsp0 s top).

(** [saved] is the stack pointer [ctx_switch] saves for the outgoing task. *)
Definition yield_to (saved : Z) (s : Sched) (next : Z) : res Sched :=
  if MAX_TASKS <=? next then Panic else
  let prev := CURRENT_TASK s in
  if prev =? next then Val s else
  next_sp ← idx (TASK_SP s) next;
  if next_sp =? 0 then Panic else
  let s := set_current s next in
  s ← switch_address_space s prev next;
  s ← switch_kernel_stack s next;
  v ← upd (TASK_SP s) prev saved;
  Val (set_sp s v).

Definition task_set_address_space (s : Sched) (task root : Z) : res Sched :=
  if MAX_TASKS <=? task then Panic else
  v ← upd (TASK_AS s) task root;
  Val (set_as s v).

(** ** The run queue *)

Definition scheduler_init (s : Sched) : res Sched :=
  q ← upd (RUNQUEUE s) 0 (CURRENT_TASK s);
  Val (set_queue s q 1).

(** Append a slot to the queue: the end of [scheduler_spawn] and of [agent_spawn]. *)
Definition enqueue (s : Sched) (slot : Z) : res Sched :=
  let len := RUNQUEUE_LEN s in
  if MAX_TASKS <=? len then Panic else
  q ← upd (RUNQUEUE s) len slot;
  Val (set_queue s q (len + 1)).

Definition scheduler_spawn (s : Sched) (stack_words sp : Z) : res (Sched * Z) :=
  '(s, task) ← task_create s stack_words sp;
  s ← enqueue s task;
  Val (s, task).

Definition task_is_blocked (s : Sched) (t : Z) : res bool :=
  if t <? MAX_TASKS then (st ← idx (TASK_STATE s) t; Val (st =? TASK_BLOCKED)) else Val false.

Definition sched_wake_task (s : Sched) (slot : Z) : res Sched :=
  if slot <? MAX_TASKS then (v ← upd (TASK_STATE s) slot TASK_RUNNABLE; Val (set_state s v)) else Val s.

(** The position of the current task in the queue, the head when it is not there:
    [n] entries from [i] on. *)
Fixpoint find_pos (s : Sched) (n : nat) (i : Z) : res Z :=
  match n with
  | O => Val 0
  | S n => x ← idx (RUNQUEUE s) i; if x =? CURRENT_TASK s then Val i else find_pos s n (i + 1)
  end.

(** [cand != usize::MAX && cand < MAX_TASKS && TASK_STATE[cand] == TASK_RUNNABLE] *)
Definition runnable (s : Sched) (cand : Z) : res bool :=
  if cand =? NO_TASK then Val false else
  if negb (cand <? MAX_TASKS) then Val false else
  st ← idx (TASK_STATE s) cand;
  Val (st =? TASK_RUNNABLE).

(** The first acceptable successor: [n] steps from [step] on. *)
Fixpoint scan (s : Sched) (ok : Z -> res bool) (pos : Z) (n : nat) (step : Z) : res (option Z) :=
  match n with
  | O => Val None
  | S n =>
      cand ← idx (RUNQUEUE s) ((pos + step) mod RUNQUEUE_LEN s);
      b ← ok cand;
      match b with true => Val (Some cand) | false => scan s ok pos n (step + 1) end
  end.

Definition schedule (saved : Z) (s : Sched) : res Sched :=
  let len := RUNQUEUE_LEN s in
  if len <? 2 then Val s else
  let current := CURRENT_TASK s in
  pos ← find_pos s (Z.to_nat len) 0;
  found ← scan s (runnable s) pos (Z.to_nat len) 1;
  let next := match found with Some cand => cand | None => current end in
  if next =? current then Val s else
  let s := set_switches s (wrapping_add 64 (INVOLUNTARY_SWITCHES s) 1) in
  yield_to saved s next.

Definition block_current_and_yield (saved : Z) (s : Sched) : res Sched :=
  let current := CURRENT_TASK s in
  s ← (if current <? MAX_TASKS then (v ← upd (TASK_STATE s) current TASK_BLOCKED; Val (set_state s v)) else Val s);
  let len := RUNQUEUE_LEN s in
  pos ← find_pos s (Z.to_nat len) 0;
  found ← scan s (fun cand => if cand =? current then Val false else runnable s cand) pos (Z.to_nat len) 1;
  match found with
  | Some cand => yield_to saved s cand
  | None => Panic
  end.

(** ** Specification *)

Definition queue (s : Sched) : list Z := ztake (RUNQUEUE_LEN s) (RUNQUEUE s).
Definition state_of (s : Sched) (t : Z) : option Z := TASK_STATE s !! Z.to_nat t.
Definition task_ok (t : Z) : Prop := 0 <= t < MAX_TASKS.

Record sched_ok (s : Sched) : Prop := {
  so_sp : zlen (TASK_SP s) = MAX_TASKS;
  so_rq : zlen (RUNQUEUE s) = MAX_TASKS;
  so_state : zlen (TASK_STATE s) = MAX_TASKS;
  so_as : zlen (TASK_AS s) = MAX_TASKS;
  so_kstack : zlen (TASK_KSTACK_TOP s) = MAX_TASKS;
  so_len : 0 <= RUNQUEUE_LEN s <= MAX_TASKS;
  so_next : 1 <= NEXT_TASK_SLOT s < 2 ^ 63;
  so_range : Forall (fun t => task_ok t /\ t < NEXT_TASK_SLOT s) (queue s);
  so_nodup : NoDup (queue s);
  so_current : CURRENT_TASK s ∈ queue s;
  so_saved : forall t, t ∈ queue s -> t <> CURRENT_TASK s -> exists sp, TASK_SP s !! Z.to_nat t = Some sp /\ sp <> 0;
}.

(** [t] is [d] places after the current task, cyclically. *)
Definition ahead (s : Sched) (t d : Z) : Prop :=
  exists p, 0 <= p < RUNQUEUE_LEN s /\ queue s !! Z.to_nat p = Some (CURRENT_TASK s) /\
    queue s !! Z.to_nat ((p + d) mod RUNQUEUE_LEN s) = Some t.

(** ** Lemmas *)

Lemma queue_len s : sched_ok s -> zlen (queue s) = RUNQUEUE_LEN s.
Proof. intros []. unfold queue. rewrite zlen_ztake. lia. Qed.

Lemma queue_idx s p t : sched_ok s -> 0 <= p < RUNQUEUE_LEN s -> queue s !! Z.to_nat p = Some t -> idx (RUNQUEUE s) p = Val t.
Proof.
  intros Hs Hp E. apply idx_Some; [lia|]. unfold queue, ztake in E. rewrite lookup_take in E. by case_decide.
Qed.

Lemma queue_at s p : sched_ok s -> 0 <= p < RUNQUEUE_LEN s -> exists t, queue s !! Z.to_nat p = Some t /\ t ∈ queue s.
Proof.
  intros Hs Hp. destruct (lookup_lt_is_Some_2 (queue s) (Z.to_nat p)) as [t Ht].
  { pose proof (queue_len s Hs). unfold zlen in *. lia. }
  exists t. split; [done | by eapply list_elem_of_lookup_2].
Qed.

Lemma queue_pos s t : sched_ok s -> t ∈ queue s -> exists p, 0 <= p < RUNQUEUE_LEN s /\ queue s !! Z.to_nat p = Some t.
Proof.
  intros Hs Ht. apply list_elem_of_lookup_1 in Ht as [p Hp]. pose proof (lookup_lt_Some _ _ _ Hp). pose proof (queue_len s Hs).
  exists (Z.of_nat p). rewrite Nat2Z.id. unfold zlen in *. split; [lia | done].
Qed.

Lemma queue_task s t : sched_ok s -> t ∈ queue s -> task_ok t.
Proof. intros Hs Ht. pose proof (so_range s Hs) as Hr. rewrite Forall_forall in Hr. by apply Hr. Qed.

Lemma find_pos_from s p n i : sched_ok s -> queue s !! Z.to_nat p = Some (CURRENT_TASK s) -> 0 <= i <= p -> p < i + Z.of_nat n ->
  i + Z.of_nat n = RUNQUEUE_LEN s -> find_pos s n i = Val p.
Proof.
  intros Hs Hp. revert i. induction n as [|n IH]; intros i Hi Hn Hl; [lia|]. cbn [find_pos].
  destruct (queue_at s i Hs ltac:(lia)) as (x & Hx & _). rewrite (queue_idx s i x) by (done || lia). rewrite bind_val.
  destruct (Z.eqb_spec x (CURRENT_TASK s)) as [->|Hne].
  - assert (Z.to_nat i = Z.to_nat p) by (eapply NoDup_lookup; [apply (so_nodup s Hs) | done | done]). f_equal. lia.
  - apply IH; [|lia..]. split; [lia|]. destruct (decide (i = p)) as [->|]; [congruence | lia].
Qed.

Lemma find_pos_eq s p : sched_ok s -> 0 <= p < RUNQUEUE_LEN s -> queue s !! Z.to_nat p = Some (CURRENT_TASK s) ->
  find_pos s (Z.to_nat (RUNQUEUE_LEN s)) 0 = Val p.
Proof. intros Hs Hp Hq. apply find_pos_from; (done || lia). Qed.

Lemma runnable_eq s t : sched_ok s -> task_ok t -> runnable s t = Val (bool_decide (state_of s t = Some TASK_RUNNABLE)).
Proof.
  intros Hs Ht. unfold runnable, task_ok, MAX_TASKS in *. rewrite (proj2 (Z.eqb_neq t NO_TASK)) by (vm_compute; lia).
  rewrite (proj2 (Z.ltb_lt t 12)) by lia. cbn [negb].
  destruct (Prelude.idx_ok (TASK_STATE s) t) as [v Hv]; [rewrite (so_state s Hs); unfold MAX_TASKS; lia|].
  rewrite Hv, bind_val. apply idx_val_inv in Hv as [_ Hv]. unfold state_of. rewrite Hv.
  destruct (Z.eqb_spec v TASK_RUNNABLE) as [->|Hne]; [by rewrite bool_decide_true | by rewrite bool_decide_false by congruence].
Qed.

Definition task_at (s : Sched) (k : Z) : option Z := queue s !! Z.to_nat (k mod RUNQUEUE_LEN s).

Lemma scan_eq s ok (P : Z -> bool) pos n step : sched_ok s -> 0 < RUNQUEUE_LEN s -> (forall c, c ∈ queue s -> ok c = Val (P c)) ->
  exists r, scan s ok pos n step = Val r /\
    match r with
    | Some c => exists k, step <= k < step + Z.of_nat n /\ task_at s (pos + k) = Some c /\ P c = true /\
        forall j c', step <= j < k -> task_at s (pos + j) = Some c' -> P c' = false
    | None => forall j c', step <= j < step + Z.of_nat n -> task_at s (pos + j) = Some c' -> P c' = false
    end.
Proof.
  intros Hs Hl Hok. revert step. induction n as [|n IH]; intros step; cbn [scan].
  { exists None. split; [done|]. lia. }
  pose proof (Z.mod_pos_bound (pos + step) (RUNQUEUE_LEN s) Hl) as Hm.
  destruct (queue_at s _ Hs Hm) as (c & Hc & Hin). rewrite (queue_idx s _ c), bind_val by done. rewrite (Hok c Hin), bind_val.
  destruct (P c) eqn:HP.
  - exists (Some c). split; [done|]. exists step. split; [lia|]. split; [done|]. split; [done|]. lia.
  - destruct (IH (step + 1)) as (r & -> & Hr). exists r. split; [done|]. destruct r as [c'|].
    + destruct Hr as (k & Hk & Ht & Hp & Hmin). exists k. split; [lia|]. split; [done|]. split; [done|].
      intros j c2 Hj Hat. destruct (decide (j = step)) as [->|]; [unfold task_at in Hat; rewrite Hc in Hat; by injection Hat as <- | by apply (Hmin j c2); [lia|]].
    + intros j c2 Hj Hat. destruct (decide (j = step)) as [->|]; [unfold task_at in Hat; rewrite Hc in Hat; by injection Hat as <- | by apply (Hr j c2); [lia|]].
Qed.

(** What a switch to another task of the queue does. *)
Record switched (s : Sched) (t : Z) (s' : Sched) : Prop := {
  sw_ok : sched_ok s';
  sw_current : CURRENT_TASK s' = t;
  sw_queue : queue s' = queue s /\ RUNQUEUE_LEN s' = RUNQUEUE_LEN s;
  sw_state : TASK_STATE s' = TASK_STATE s;
}.

Lemma switch_registers s prev next : zlen (TASK_AS s) = MAX_TASKS -> zlen (TASK_KSTACK_TOP s) = MAX_TASKS -> task_ok prev -> task_ok next ->
  exists root sp0, (s' ← switch_address_space s prev next; switch_kernel_stack s' next) = Val (set_hw_rsp0 (set_hw_root s root) sp0).
Proof.
  intros Has Hks Hp Hn. unfold switch_address_space.
  destruct (Prelude.idx_ok (TASK_AS s) prev) as [a Ha]; [by rewrite Has|].
  destruct (Prelude.idx_ok (TASK_AS s) next) as [b Hb]; [by rewrite Has|]. rewrite Ha, Hb, !bind_val.
  destruct (Prelude.idx_ok (TASK_KSTACK_TOP s) next) as [k Hk]; [by rewrite Hks|].
  assert (forall root, exists sp0, switch_kernel_stack (set_hw_root s root) next = Val (set_hw_rsp0 (set_hw_root s root) sp0)) as Hroot.
  { intros root. unfold switch_kernel_stack. cbn [TASK_KSTACK_TOP set_hw_root]. rewrite Hk, bind_val.
    destruct (k =? 0); [exists (hw_rsp0 s); by destruct s | by exists k]. }
  assert (set_hw_root s (hw_root s) = s) as Hid by by destruct s.
  pose proof (Hroot (hw_root s)) as Hsame. rewrite Hid in Hsame.
  cbv zeta. destruct (a =? b); [exists (hw_root s); rewrite Hid; exact Hsame|].
  destruct ((if b =? 0 then BOOT_ROOT s else b) =? 0); [exists (hw_root s); rewrite Hid; exact Hsame|].
  eexists. apply Hroot.
Qed.

Lemma yield_to_switched saved s t : sched_ok s -> saved <> 0 -> t ∈ queue s -> exists s', yield_to saved s t = Val s' /\ switched s t s'.
Proof.
  intros Hs Hsv Ht. pose proof (queue_task s t Hs Ht) as Htok. pose proof (queue_task s _ Hs (so_current s Hs)) as Hcok.
  unfold yield_to. rewrite (proj2 (Z.leb_gt MAX_TASKS t)) by (unfold task_ok in Htok; lia). cbv zeta.
  destruct (Z.eqb_spec (CURRENT_TASK s) t) as [<-|Hne]; [exists s; split; [done | by constructor]|].
  destruct (so_saved s Hs t Ht ltac:(done)) as (sp & Hsp & Hnz).
  rewrite (idx_Some _ _ _ (proj1 Htok) Hsp), bind_val, (proj2 (Z.eqb_neq sp 0) Hnz).
  pose proof (switch_registers (set_current s t) (CURRENT_TASK s) t (so_as s Hs) (so_kstack s Hs) Hcok Htok) as (root & sp0 & E).
  apply bind_val_inv in E as (s1 & -> & E). rewrite bind_val, E, bind_val. cbn [TASK_SP set_hw_rsp0 set_hw_root set_current].
  unfold task_ok, MAX_TASKS in *. rewrite upd_ok by (rewrite (so_sp s Hs); unfold MAX_TASKS; lia). rewrite bind_val. eexists. split; [done|].
  destruct Hs. constructor; [constructor|..]; cbn; try done; [by rewrite zlen_insert|].
  intros t' Ht' Hne'. destruct (decide (t' = CURRENT_TASK s)) as [->|Hne2].
  - exists saved. split; [|done]. apply list_lookup_insert_eq. unfold zlen, MAX_TASKS in *. lia.
  - rewrite list_lookup_insert_ne by (pose proof (queue_task s t' ltac:(by constructor) Ht') as [? _]; lia). by apply so_saved0.
Qed.

Lemma set_state_ok s v : sched_ok s -> zlen v = MAX_TASKS -> sched_ok (set_state s v).
Proof. intros [] Hv. by constructor. Qed.
Lemma set_switches_ok s v : sched_ok s -> sched_ok (set_switches s v).
Proof. intros []. by constructor. Qed.

Lemma schedule_toward saved s t d : sched_ok s -> saved <> 0 -> t ∈ queue s -> state_of s t = Some TASK_RUNNABLE -> t <> CURRENT_TASK s ->
  0 < d < RUNQUEUE_LEN s -> ahead s t d ->
  exists s', schedule saved s = Val s' /\ sched_ok s' /\ queue s' = queue s /\
    (CURRENT_TASK s' = t \/ exists d', 0 < d' < d /\ ahead s' t d').
Proof.
  intros Hs Hsv Ht Hrun Hne Hd (p & Hp & Hcur & Hat). unfold schedule. rewrite (proj2 (Z.ltb_ge (RUNQUEUE_LEN s) 2)) by lia. cbv zeta.
  rewrite (find_pos_eq s p), bind_val by done.
  destruct (scan_eq s (runnable s) (fun c => bool_decide (state_of s c = Some TASK_RUNNABLE)) p (Z.to_nat (RUNQUEUE_LEN s)) 1)
    as (r & -> & Hr); [done | lia | intros c Hc; apply runnable_eq; [done | by eapply queue_task] |].
  rewrite Z2Nat.id in Hr by lia. rewrite bind_val. destruct r as [c|].
  2: { specialize (Hr d t ltac:(lia) Hat). cbv beta in Hr. by rewrite bool_decide_true in Hr. }
  destruct Hr as (k & Hk & Hck & Hc & Hmin).
  assert (k <= d) as Hkd. { destruct (Z.le_gt_cases k d) as [|Hgt]; [done|]. specialize (Hmin d t ltac:(lia) Hat). cbv beta in Hmin. by rewrite bool_decide_true in Hmin. }
  assert (c ∈ queue s) as Hcq by (by eapply list_elem_of_lookup_2).
  assert (c <> CURRENT_TASK s) as Hcne.
  { intros ->. assert (Z.to_nat p = Z.to_nat ((p + k) mod RUNQUEUE_LEN s)) as E by (eapply NoDup_lookup; [apply (so_nodup s Hs) | done | done]).
    pose proof (Z.mod_pos_bound (p + k) (RUNQUEUE_LEN s) ltac:(lia)).
    assert ((p + k) mod RUNQUEUE_LEN s = p) as E' by lia. pose proof (Z.div_mod (p + k) (RUNQUEUE_LEN s) ltac:(lia)) as Hdm. rewrite E' in Hdm.
    clear -Hdm Hk Hkd Hd. revert Hdm. generalize ((p + k) / RUNQUEUE_LEN s) as q. intros q Hdm. assert (q <= 0 \/ 1 <= q) as [|] by lia; nia. }
  rewrite (proj2 (Z.eqb_neq c (CURRENT_TASK s)) Hcne).
  destruct (yield_to_switched saved (set_switches s (wrapping_add 64 (INVOLUNTARY_SWITCHES s) 1)) c) as (s' & -> & Hsw);
    [by apply set_switches_ok | done | done |].
  destruct Hsw as [Hok' Hc' [Hq' Hl'] _]. exists s'. split; [done|]. split; [done|]. split; [exact Hq'|].
  destruct (decide (k = d)) as [->|Hkd'].
  { left. rewrite Hc'. unfold task_at in Hck. rewrite Hat in Hck. by injection Hck. }
  right. exists (d - k). split; [lia|]. exists ((p + k) mod RUNQUEUE_LEN s).
  change (RUNQUEUE_LEN s') with (RUNQUEUE_LEN s') in *. cbn in Hl'. rewrite Hl', Hc', Hq'. split; [apply Z.mod_pos_bound; lia|].
  split; [exact Hck|]. rewrite Zplus_mod_idemp_l. replace (p + k + (d - k)) with (p + d) by lia. exact Hat.
Qed.

(** The timer's handler always returns, whatever the run states. *)
Lemma schedule_ok saved s : sched_ok s -> saved <> 0 -> runs (schedule saved s) (fun s' => sched_ok s' /\ queue s' = queue s /\ TASK_STATE s' = TASK_STATE s).
Proof.
  intros Hs Hsv. unfold schedule. destruct (Z.ltb_spec (RUNQUEUE_LEN s) 2); [by apply runs_val|]. cbv zeta.
  destruct (queue_pos s _ Hs (so_current s Hs)) as (p & Hp & Ep). rewrite (find_pos_eq s p), bind_val by done.
  destruct (scan_eq s (runnable s) (fun c => bool_decide (state_of s c = Some TASK_RUNNABLE)) p (Z.to_nat (RUNQUEUE_LEN s)) 1)
    as (r & -> & Hr); [done | lia | intros c Hc; apply runnable_eq; [done | by eapply queue_task] |].
  rewrite bind_val. destruct r as [c|]; [|rewrite Z.eqb_refl; by apply runs_val].
  destruct Hr as (k & _ & Hck & _). assert (c ∈ queue s) as Hcq by (by eapply list_elem_of_lookup_2).
  destruct (c =? CURRENT_TASK s); [by apply runs_val|].
  destruct (yield_to_switched saved (set_switches s (wrapping_add 64 (INVOLUNTARY_SWITCHES s) 1)) c) as (s' & E & [? _ [? _] ?]);
    [by apply set_switches_ok | done | done |]. by exists s'.
Qed.

(** Ticks, before each of which the tasks changed each other's run states. *)
Fixpoint ticks (ts : list (Z * list Z)) (s : Sched) : res Sched :=
  match ts with
  | [] => Val s
  | (saved, states) :: ts => s ← schedule saved (set_state s states); ticks ts s
  end.

Definition turn_ok (t : Z) (x : Z * list Z) : Prop :=
  x.1 <> 0 /\ zlen x.2 = MAX_TASKS /\ x.2 !! Z.to_nat t = Some TASK_RUNNABLE.

Lemma ticks_reach t (d : nat) : forall ts s, sched_ok s -> t ∈ queue s -> Forall (turn_ok t) ts ->
  (CURRENT_TASK s = t \/ 0 < Z.of_nat d < RUNQUEUE_LEN s /\ ahead s t (Z.of_nat d)) -> Z.of_nat d <= zlen ts ->
  exists ts1 ts2 s', ts = ts1 ++ ts2 /\ ticks ts1 s = Val s' /\ CURRENT_TASK s' = t /\ sched_ok s'.
Proof.
  induction d as [d IH] using lt_wf_ind. intros ts s Hs Ht Hts Hd Hlen.
  destruct (decide (CURRENT_TASK s = t)) as [|Hne]; [exists [], ts, s; by split|]. destruct Hd as [|[Hd Ha]]; [done|].
  destruct ts as [|[saved states] ts]; [rewrite zlen_nil in Hlen; lia|]. apply Forall_cons in Hts as [(Hsv & Hst & Hrun) Hts].
  rewrite zlen_cons in Hlen. cbn [fst snd] in *.
  destruct (schedule_toward saved (set_state s states) t (Z.of_nat d)) as (s1 & E & Hs1 & Hq & Hnext); try done; [by apply set_state_ok|].
  change (queue (set_state s states)) with (queue s) in Hq.
  assert (RUNQUEUE_LEN s1 = RUNQUEUE_LEN s) as Hl by (rewrite <- (queue_len s1), <- (queue_len s), Hq by done; done).
  destruct Hnext as [Hc|(d' & Hd' & Ha')].
  - exists [(saved, states)], ts, s1. cbn [ticks app]. rewrite E. by split.
  - destruct (IH (Z.to_nat d') ltac:(lia) ts s1) as (ts1 & ts2 & s' & -> & E1 & Hc & Hok); [done | by rewrite Hq | done | | lia |].
    + right. rewrite Z2Nat.id by lia. split; [lia | done].
    + exists ((saved, states) :: ts1), ts2, s'. cbn [ticks app]. rewrite E, bind_val. by split.
Qed.

Lemma ahead_of s t : sched_ok s -> t ∈ queue s -> t <> CURRENT_TASK s -> exists d, 0 < d < RUNQUEUE_LEN s /\ ahead s t d.
Proof.
  intros Hs Ht Hne. destruct (queue_pos s t Hs Ht) as (q & Hq & Eq). destruct (queue_pos s _ Hs (so_current s Hs)) as (p & Hp & Ep).
  exists ((q - p) mod RUNQUEUE_LEN s). pose proof (Z.mod_pos_bound (q - p) (RUNQUEUE_LEN s) ltac:(lia)) as Hm.
  assert ((q - p) mod RUNQUEUE_LEN s <> 0).
  { intros E. apply Z.mod_divide in E as [k E]; [|lia]. assert (k = 0) by nia. assert (q = p) by lia. congruence. }
  split; [lia|]. exists p. split; [done|]. split; [done|]. rewrite Zplus_mod_idemp_r. replace (p + (q - p)) with q by lia. by rewrite Z.mod_small.
Qed.

(** The boot state and what enlarges the queue. *)
Lemma scheduler_init_ok root : exists s, scheduler_init (boot root) = Val s /\ sched_ok s /\ queue s = [0] /\ NEXT_TASK_SLOT s = 1 /\ CURRENT_TASK s = 0 /\
  TASK_STATE s = zrepeat MAX_TASKS TASK_RUNNABLE.
Proof.
  eexists. split; [vm_compute; reflexivity|]. split; [|by split].
  constructor; cbn; unfold MAX_TASKS, task_ok; try done; try lia.
  - apply Forall_singleton. unfold MAX_TASKS. lia.
  - by apply NoDup_singleton.
  - by apply list_elem_of_singleton.
  - by intros t ->%list_elem_of_singleton.
Qed.

Lemma queue_room s : sched_ok s -> RUNQUEUE_LEN s <= NEXT_TASK_SLOT s.
Proof.
  intros Hs. rewrite <- (queue_len s Hs). unfold zlen.
  assert (length (queue s) <= length (seqZ 0 (NEXT_TASK_SLOT s)))%nat as Hl.
  { apply submseteq_length, NoDup_submseteq; [apply (so_nodup s Hs)|]. intros x Hx. pose proof (so_range s Hs) as Hr.
    rewrite Forall_forall in Hr. destruct (Hr x Hx) as [[? _] ?]. apply elem_of_seqZ. lia. }
  pose proof (so_next s Hs). rewrite length_seqZ in Hl. lia.
Qed.

Lemma scheduler_spawn_ok s words sp : sched_ok s -> MIN_STACK_WORDS <= words -> sp <> 0 -> NEXT_TASK_SLOT s < MAX_TASKS ->
  exists s', scheduler_spawn s words sp = Val (s', NEXT_TASK_SLOT s) /\ sched_ok s' /\ queue s' = queue s ++ [NEXT_TASK_SLOT s] /\
    NEXT_TASK_SLOT s' = NEXT_TASK_SLOT s + 1 /\ CURRENT_TASK s' = CURRENT_TASK s /\ TASK_STATE s' = TASK_STATE s.
Proof.
  intros Hs Hw Hsp Hn. pose proof (queue_room s Hs) as Hroom. pose proof (so_next s Hs). pose proof (queue_len s Hs) as Hql.
  unfold MAX_TASKS in *. pose proof (so_rq s Hs) as Hrq. unfold MAX_TASKS in Hrq.
  unfold scheduler_spawn, task_create, enqueue, MAX_TASKS. rewrite (proj2 (Z.ltb_ge words MIN_STACK_WORDS)) by lia. cbv zeta.
  rewrite (proj2 (Z.leb_gt 12 (NEXT_TASK_SLOT s))) by lia. cbn [TASK_SP set_next_slot].
  rewrite upd_ok, !bind_val by (rewrite (so_sp s Hs); unfold MAX_TASKS; lia). cbn [RUNQUEUE_LEN RUNQUEUE set_sp set_next_slot].
  rewrite (proj2 (Z.leb_gt 12 (RUNQUEUE_LEN s))) by lia. pose proof (so_len s Hs). rewrite upd_ok, bind_val by lia.
  unfold wrapping_add, usize_bits. rewrite wrap_small by (unfold in_u; lia). eexists. split; [done|].
  assert (forall s', RUNQUEUE s' = <[Z.to_nat (RUNQUEUE_LEN s) := NEXT_TASK_SLOT s]> (RUNQUEUE s) -> RUNQUEUE_LEN s' = RUNQUEUE_LEN s + 1 ->
    queue s' = queue s ++ [NEXT_TASK_SLOT s]) as Hq.
  { intros s' E1 E2. unfold queue, ztake. rewrite E1, E2. replace (Z.to_nat (RUNQUEUE_LEN s + 1)) with (Datatypes.S (Z.to_nat (RUNQUEUE_LEN s))) by lia.
    rewrite (take_S_r _ _ (NEXT_TASK_SLOT s)) by (apply list_lookup_insert_eq; unfold zlen in *; lia). by rewrite take_insert_ge by lia. }
  split; [|split; [by apply Hq | by split]].
  match goal with |- sched_ok ?x => pose proof (Hq x eq_refl eq_refl) as Hq' end.
  destruct Hs. constructor; rewrite ?Hq'; cbn; unfold MAX_TASKS in *; rewrite ?zlen_insert; try done; try lia.
  - apply Forall_app. split; [|repeat constructor; unfold MAX_TASKS; lia]. eapply Forall_impl; [done|]. intros x [? ?]. split; [done | lia].
  - apply NoDup_app. split; [done|]. split; [|apply NoDup_singleton]. intros x Hx ->%list_elem_of_singleton.
    rewrite Forall_forall in so_range0. destruct (so_range0 _ Hx). lia.
  - apply elem_of_app. by left.
  - intros t' [Hin| ->%list_elem_of_singleton]%elem_of_app Hne.
    + rewrite list_lookup_insert_ne; [by apply so_saved0|]. rewrite Forall_forall in so_range0. destruct (so_range0 _ Hin) as [[? _] ?]. lia.
    + exists sp. split; [|done]. apply list_lookup_insert_eq. unfold zlen in *. lia.
Qed.

Lemma block_current_cases (saved : Z) (s : Sched) : sched_ok s -> saved <> 0 ->
  (exists t, t ∈ queue s /\ t <> CURRENT_TASK s /\ state_of s t = Some TASK_RUNNABLE /\
     exists s', block_current_and_yield saved s = Val s' /\ sched_ok s' /\ queue s' = queue s /\ CURRENT_TASK s' = t /\
       TASK_STATE s' = <[Z.to_nat (CURRENT_TASK s) := TASK_BLOCKED]> (TASK_STATE s)) \/
  ((forall t, t ∈ queue s -> t <> CURRENT_TASK s -> state_of s t <> Some TASK_RUNNABLE) /\ block_current_and_yield saved s = Panic).
Proof.
  intros Hs Hsv. pose proof (queue_task s _ Hs (so_current s Hs)) as Hc. unfold block_current_and_yield. cbv zeta.
  rewrite (proj2 (Z.ltb_lt (CURRENT_TASK s) MAX_TASKS)) by (unfold task_ok in Hc; lia).
  rewrite upd_ok, bind_val by (rewrite (so_state s Hs); exact Hc). set (s1 := set_state s _).
  assert (sched_ok s1) as Hs1 by (apply set_state_ok; [done | by rewrite zlen_insert, (so_state s Hs)]).
  destruct (queue_pos s1 _ Hs1 (so_current s1 Hs1)) as (p & Hp & Ep). rewrite bind_val, (find_pos_eq s1 p), bind_val by done.
  set (P := fun c => negb (c =? CURRENT_TASK s) && bool_decide (state_of s c = Some TASK_RUNNABLE)).
  assert (forall c, task_ok c -> c <> CURRENT_TASK s -> state_of s1 c = state_of s c) as Hst.
  { intros c Hcc Hne. unfold state_of. cbn. apply list_lookup_insert_ne. unfold task_ok in *. lia. }
  destruct (scan_eq s1 (fun cand => if cand =? CURRENT_TASK s then Val false else runnable s1 cand) P p (Z.to_nat (RUNQUEUE_LEN s1)) 1)
    as (r & -> & Hr); [done | lia | |].
  { intros c Hcq. pose proof (queue_task s1 c Hs1 Hcq). unfold P. destruct (Z.eqb_spec c (CURRENT_TASK s)); [done|].
    rewrite runnable_eq by done. by rewrite Hst. }
  rewrite Z2Nat.id, bind_val in * by lia. destruct r as [c|]; [left | right].
  - destruct Hr as (k & Hk & Hck & HP & _). apply andb_true_iff in HP as [Hne Hrun]. apply negb_true_iff, Z.eqb_neq in Hne. apply bool_decide_eq_true_1 in Hrun.
    assert (c ∈ queue s) as Hcq by (change (c ∈ queue s1); by eapply list_elem_of_lookup_2).
    exists c. split; [done|]. split; [done|]. split; [done|]. destruct (yield_to_switched saved s1 c) as (s' & -> & [? ? [? _] ?]); [done | done | done |].
    exists s'. by split.
  - split; [|done]. intros t Ht Hne Hrun. destruct (ahead_of s1 t Hs1 Ht Hne) as (d & Hd & p' & Hp' & Ep' & Et).
    assert (p' = p) as -> by (assert (Z.to_nat p' = Z.to_nat p) by (eapply NoDup_lookup; [apply (so_nodup s1 Hs1) | done | done]); lia).
    specialize (Hr d t ltac:(lia) Et). unfold P in Hr. apply Z.eqb_neq in Hne. rewrite Hne, bool_decide_true in Hr by done. done.
Qed.

(** ** Properties *)

(** No runnable task starves.  Whatever the tasks do to one another's run state between
    ticks, a task of the queue that stays runnable is running after fewer ticks than the
    queue is long, and no tick panics. *)
Theorem schedule_fair (s : Sched) t (ts : list (Z * list Z)) : sched_ok s -> t ∈ queue s -> Forall (turn_ok t) ts ->
  RUNQUEUE_LEN s - 1 <= zlen ts ->
  exists ts1 ts2 s', ts = ts1 ++ ts2 /\ ticks ts1 s = Val s' /\ CURRENT_TASK s' = t /\ sched_ok s'.
Proof.
  intros Hs Ht Hts Hlen. destruct (decide (t = CURRENT_TASK s)) as [->|Hne].
  { exists [], ts, s. by split. }
  destruct (ahead_of s t Hs Ht Hne) as (d & Hd & Ha). apply (ticks_reach t (Z.to_nat d)); [done | done | done | | lia].
  right. rewrite Z2Nat.id by lia. by split.
Qed.

(** Parking the current task takes it off the run queue and hands the processor to a
    runnable task of the queue that is not itself; it reports a deadlock, and only then,
    when no other task of the queue is runnable. *)
Theorem block_current_hands_over (saved : Z) (s : Sched) : sched_ok s -> saved <> 0 ->
  (exists t, t ∈ queue s /\ t <> CURRENT_TASK s /\ state_of s t = Some TASK_RUNNABLE /\
     exists s', block_current_and_yield saved s = Val s' /\ sched_ok s' /\ queue s' = queue s /\ CURRENT_TASK s' = t /\
       TASK_STATE s' = <[Z.to_nat (CURRENT_TASK s) := TASK_BLOCKED]> (TASK_STATE s)) \/
  ((forall t, t ∈ queue s -> t <> CURRENT_TASK s -> state_of s t <> Some TASK_RUNNABLE) /\ block_current_and_yield saved s = Panic).
Proof. apply block_current_cases. Qed.

(** ** Witnesses *)

(** The bootstrap task and two more. *)
Lemma three_tasks : exists s, sched_ok s /\ queue s = [0; 1; 2] /\ CURRENT_TASK s = 0 /\ RUNQUEUE_LEN s = 3 /\
  TASK_STATE s = zrepeat MAX_TASKS TASK_RUNNABLE.
Proof.
  destruct (scheduler_init_ok 4096) as (s0 & _ & H0 & Q0 & N0 & C0 & T0).
  destruct (scheduler_spawn_ok s0 64 4096) as (s1 & _ & H1 & Q1 & N1 & C1 & T1); [done | done | done | by rewrite N0|].
  destruct (scheduler_spawn_ok s1 64 8192) as (s2 & _ & H2 & Q2 & N2 & C2 & T2); [done | done | done | by rewrite N1, N0|].
  assert (queue s2 = [0; 1; 2]) as Q by by rewrite Q2, Q1, Q0, N1, N0.
  exists s2. split; [done|]. split; [done|]. split; [congruence|]. split; [by rewrite <- (queue_len s2 H2), Q | congruence].
Qed.

Lemma schedule_fair_witness : exists s ts1 s', sched_ok s /\ CURRENT_TASK s = 0 /\ ticks ts1 s = Val s' /\ CURRENT_TASK s' = 2.
Proof.
  destruct three_tasks as (s & Hs & Hq & Hc & Hl & Hst).
  destruct (schedule_fair s 2 (replicate 2 (8, zrepeat MAX_TASKS TASK_RUNNABLE))) as (ts1 & ts2 & s' & _ & E & Hc' & _);
    [exact Hs | rewrite Hq; apply list_elem_of_In; cbn; tauto | | rewrite Hl; apply Z.le_refl |].
  - apply Forall_forall. intros x Hx. apply elem_of_replicate in Hx as [-> _]. split; [discriminate | split; reflexivity].
  - exists s, ts1, s'. split; [exact Hs|]. split; [exact Hc|]. split; [exact E | exact Hc'].
Defined.

Lemma block_current_hands_over_witness : exists s s' t, sched_ok s /\ block_current_and_yield 8 s = Val s' /\ CURRENT_TASK s' = t /\ t <> 0.
Proof.
  destruct three_tasks as (s & Hs & Hq & Hc & Hl & Hst).
  destruct (block_current_hands_over 8 s Hs ltac:(discriminate)) as [(t & Ht & Hne & _ & s' & E & _ & _ & Hc' & _)|[Hno _]].
  - exists s, s', t. rewrite Hc in Hne. split; [exact Hs|]. split; [exact E|]. split; [exact Hc' | exact Hne].
  - exfalso. apply (Hno 1); [rewrite Hq; apply list_elem_of_In; cbn; tauto | rewrite Hc; discriminate | unfold state_of; rewrite Hst; reflexivity].
Defined.
