(* ===== verification/Ipc.v ===== *)
(** * The inter-agent channel core: [crates/tb-hal/src/ipc.rs].

    Two endpoints share one channel: a bounded queue per direction, an open flag per side
    and the task parked on each queue.  [O] is the identity of a kernel object, so that a
    message in transit carries an object and the rights it travels with.  An operation
    returns the channel after it; a [side] that is not 0 or 1 is an index out of bounds. *)
From Stdlib Require Import ZArith Lia.
From stdpp Require Import base numbers option tactics sets list.
From S2P Require Import Prelude.
Open Scope Z_scope.

Definition MAX_PAYLOAD : Z := 4096.
Definition NO_WAITER : Z := u_max 32.

Record Message (O : Type) := mkMsg {
  payload : Z;
  msg_bytes : option (list Z);
  msg_cap : option (O * Z);
}.
Arguments mkMsg {O}.
Arguments payload {O}.
Arguments msg_bytes {O}.
Arguments msg_cap {O}.

Record Ring (O : Type) := mkRing { q : list (Message O); r_cap : Z }.
Arguments mkRing {O}.
Arguments q {O}.
Arguments r_cap {O}.

Record Channel (O : Type) := mkChan {
  dir : list (Ring O);
  open : list bool;
  waiter : list Z;
}.
Arguments mkChan {O}.
Arguments dir {O}.
Arguments open {O}.
Arguments waiter {O}.

Section channel.
Context {O : Type}.
Implicit Types (c : Channel O) (m : Message O).

Definition byte_len m : Z := match msg_bytes m with Some b => zlen b | None => 0 end.

Definition create (bound : Z) : Channel O :=
  mkChan [mkRing [] bound; mkRing [] bound] [true; true] [NO_WAITER; NO_WAITER].

Definition outbox c (side : Z) : res (Ring O) := idx (dir c) side.
Definition inbox c (side : Z) : res (Ring O) := idx (dir c) (1 - side).
Definition peer_open c (side : Z) : res bool := idx (open c) (1 - side).

Definition close_side c (side : Z) : res (Channel O) :=
  v ← upd (open c) side false;
  Val (mkChan (dir c) v (waiter c)).

Definition set_waiter c (ring task : Z) : res (Channel O) :=
  v ← upd (waiter c) (Z.land ring 1) task;
  Val (mkChan (dir c) (open c) v).

Definition take_waiter c (ring : Z) : res (Channel O * option Z) :=
  t ← idx (waiter c) (Z.land ring 1);
  v ← upd (waiter c) (Z.land ring 1) NO_WAITER;
  Val (mkChan (dir c) (open c) v, if t =? NO_WAITER then None else Some t).

(** [chan.outbox(side).borrow_mut().q.push_back(m)] *)
Definition push_back c (side : Z) m : res (Channel O) :=
  r ← outbox c side;
  v ← upd (dir c) side (mkRing (q r ++ [m]) (r_cap r));
  Val (mkChan v (open c) (waiter c)).

(** [chan.inbox(side).borrow_mut().q.pop_front()] *)
Definition pop_front c (side : Z) : res (Channel O * option (Message O)) :=
  r ← inbox c side;
  match q r with
  | [] => Val (c, None)
  | m :: tl =>
      v ← upd (dir c) (1 - side) (mkRing tl (r_cap r));
      Val (mkChan v (open c) (waiter c), Some m)
  end.

(** [chan.inbox(side).borrow_mut().q.push_front(m)] *)
Definition push_front c (side : Z) m : res (Channel O) :=
  r ← inbox c side;
  v ← upd (dir c) (1 - side) (mkRing (m :: q r) (r_cap r));
  Val (mkChan v (open c) (waiter c)).
End channel.

(** ** Specification *)

Section spec.
Context {O : Type}.
Implicit Types (c : Channel O) (m : Message O).

Definition side_ok (side : Z) : Prop := side = 0 \/ side = 1.

(** The direction out of side 0, then the one out of side 1. *)
Record chan_view := mkView {
  q0 : list (Message O); q1 : list (Message O); cap0 : Z; cap1 : Z;
  open0 : bool; open1 : bool; wait0 : Z; wait1 : Z;
}.
Definition chan_of_view (v : chan_view) : Channel O :=
  mkChan [mkRing (q0 v) (cap0 v); mkRing (q1 v) (cap1 v)] [open0 v; open1 v] [wait0 v; wait1 v].

Definition chan_ok c : Prop := zlen (dir c) = 2 /\ zlen (open c) = 2 /\ zlen (waiter c) = 2.

Lemma chan_view_of c : chan_ok c -> exists v, c = chan_of_view v.
Proof.
  destruct c as [d o w]. intros (Hd & Ho & Hw). cbn in *.
  destruct d as [|[q0 c0] [|[q1 c1] [|]]]; try (unfold zlen in Hd; simpl in Hd; lia).
  destruct o as [|o0 [|o1 [|]]]; try (unfold zlen in Ho; simpl in Ho; lia).
  destruct w as [|w0 [|w1 [|]]]; try (unfold zlen in Hw; simpl in Hw; lia).
  by exists (mkView q0 q1 c0 c1 o0 o1 w0 w1).
Qed.

Lemma chan_of_view_ok v : chan_ok (chan_of_view v).
Proof. done. Qed.

(** The queue, bound, open flag and parked task of one direction. *)
Definition queue_of c (s : Z) : list (Message O) := match dir c !! Z.to_nat s with Some r => q r | None => [] end.
Definition cap_of_ring c (s : Z) : Z := match dir c !! Z.to_nat s with Some r => r_cap r | None => 0 end.
Definition is_open c (s : Z) : bool := match open c !! Z.to_nat s with Some b => b | None => false end.
Definition parked c (s : Z) : Z := match waiter c !! Z.to_nat s with Some t => t | None => NO_WAITER end.

(** The channel with one direction's queue replaced. *)
Definition with_queue c (s : Z) (l : list (Message O)) : Channel O :=
  mkChan (<[Z.to_nat s := mkRing l (cap_of_ring c s)]> (dir c)) (open c) (waiter c).
Definition with_waiter c (s t : Z) : Channel O := mkChan (dir c) (open c) (<[Z.to_nat s := t]> (waiter c)).
Definition with_closed c (s : Z) : Channel O := mkChan (dir c) (<[Z.to_nat s := false]> (open c)) (waiter c).
End spec.

(** ** Lemmas *)

Ltac chan_cases c side H Hs :=
  destruct (chan_view_of c H) as [[] ->]; destruct Hs as [-> | ->]; cbn; try done.

Section lemmas.
Context {O : Type}.
Implicit Types (c : Channel O) (m : Message O).

Lemma create_ok bound : chan_ok (create (O := O) bound).
Proof. done. Qed.

Lemma with_queue_ok c s l : chan_ok c -> chan_ok (with_queue c s l).
Proof. intros (? & ? & ?). unfold chan_ok. cbn. by rewrite zlen_insert. Qed.
Lemma with_waiter_ok c s t : chan_ok c -> chan_ok (with_waiter c s t).
Proof. intros (? & ? & ?). unfold chan_ok. cbn. by rewrite zlen_insert. Qed.
Lemma with_closed_ok c s : chan_ok c -> chan_ok (with_closed c s).
Proof. intros (? & ? & ?). unfold chan_ok. cbn. by rewrite zlen_insert. Qed.

Lemma side_flip s : side_ok s -> side_ok (1 - s).
Proof. intros [-> | ->]; [by right | by left]. Qed.

Lemma outbox_eq c s : chan_ok c -> side_ok s -> outbox c s = Val (mkRing (queue_of c s) (cap_of_ring c s)).
Proof. intros H Hs. chan_cases c s H Hs. Qed.
Lemma inbox_eq c s : chan_ok c -> side_ok s -> inbox c s = Val (mkRing (queue_of c (1 - s)) (cap_of_ring c (1 - s))).
Proof. intros H Hs. chan_cases c s H Hs. Qed.
Lemma peer_open_eq c s : chan_ok c -> side_ok s -> peer_open c s = Val (is_open c (1 - s)).
Proof. intros H Hs. chan_cases c s H Hs. Qed.
Lemma close_side_eq c s : chan_ok c -> side_ok s -> close_side c s = Val (with_closed c s).
Proof. intros H Hs. chan_cases c s H Hs. Qed.
Lemma set_waiter_eq c s t : chan_ok c -> side_ok s -> set_waiter c s t = Val (with_waiter c s t).
Proof. intros H Hs. chan_cases c s H Hs. Qed.
Lemma take_waiter_eq c s : chan_ok c -> side_ok s ->
  take_waiter c s = Val (with_waiter c s NO_WAITER, if parked c s =? NO_WAITER then None else Some (parked c s)).
Proof. intros H Hs. chan_cases c s H Hs. Qed.
Lemma push_back_eq c s m : chan_ok c -> side_ok s -> push_back c s m = Val (with_queue c s (queue_of c s ++ [m])).
Proof. intros H Hs. chan_cases c s H Hs. Qed.
Lemma push_front_eq c s m : chan_ok c -> side_ok s -> push_front c s m = Val (with_queue c (1 - s) (m :: queue_of c (1 - s))).
Proof. intros H Hs. chan_cases c s H Hs. Qed.
Lemma pop_front_eq c s : chan_ok c -> side_ok s ->
  pop_front c s = Val (match queue_of c (1 - s) with
                       | [] => (c, None)
                       | m :: tl => (with_queue c (1 - s) tl, Some m)
                       end).
Proof.
  intros H Hs. unfold pop_front. rewrite inbox_eq, bind_val by done. cbn [q r_cap].
  destruct (queue_of c (1 - s)) as [|m tl]; [done|]. rewrite upd_ok, bind_val; [done|].
  destruct H as (H & _). destruct Hs as [-> | ->]; lia.
Qed.

Lemma queue_of_with_queue c s s' l : chan_ok c -> side_ok s -> side_ok s' ->
  queue_of (with_queue c s l) s' = if decide (s' = s) then l else queue_of c s'.
Proof. intros H Hs [-> | ->]; chan_cases c s H Hs. Qed.
Lemma parked_with_waiter c s s' t : chan_ok c -> side_ok s -> side_ok s' ->
  parked (with_waiter c s t) s' = if decide (s' = s) then t else parked c s'.
Proof. intros H Hs [-> | ->]; chan_cases c s H Hs. Qed.
End lemmas.

#[global] Arguments with_queue : simpl never.
#[global] Arguments with_waiter : simpl never.
#[global] Arguments with_closed : simpl never.
