(* ===== verification/Blocks.v ===== *)
(** * Shared blocks: [crates/tb-hal/src/blocks.rs].

    A block owns page frames (the frame plane, mapped into several address spaces, is
    [UserMem]) and an append-only store of versioned records, the record plane, whose
    compare-and-swap and read are here with the members' bookkeeping and the poison flag. *)
From Stdlib Require Import ZArith Lia Sorting.Sorted.
From stdpp Require Import base numbers option tactics sets list gmap.
From S2P Require Import Prelude.
Open Scope Z_scope.

Record Rec := mkRec { off : Z; val : Z; version : Z; supersedes : Z }.

Record Block := mkBlock {
  frames : list Z;
  n_pages : Z;
  members : list (Z * Z * bool);
  seq : Z;
  records : list Rec;
  dead : bool;
}.

(** The block [Block::create] returns around its frames. *)
Definition block_of_frames (fs : list Z) (n_pages : Z) : Block := mkBlock fs n_pages [] 0 [] false.

Definition record_member (b : Block) (root_pa base_va : Z) (writable : bool) : Block :=
  if dead b then b else
  mkBlock (frames b) (n_pages b) (members b ++ [(root_pa, base_va, writable)]) (seq b) (records b) (dead b).

Definition is_dead (b : Block) : bool := dead b.
Definition members_snapshot (b : Block) : list (Z * Z * bool) := members b.

Definition kill (b : Block) : Block := mkBlock (frames b) (n_pages b) [] (seq b) (records b) true.

(** [while idx > 0 { idx -= 1; .. }]: the members from the last one down. *)
Fixpoint newest_member (ms : list (Z * Z * bool)) (root_pa base_va : Z) : option bool :=
  match ms with
  | [] => None
  | (r, v, w) :: ms => if (r =? root_pa) && (v =? base_va) then Some w else newest_member ms root_pa base_va
  end.
Definition member_writable (b : Block) (root_pa base_va : Z) : option bool :=
  newest_member (reverse (members b)) root_pa base_va.

Definition latest_version (b : Block) (o : Z) : Z :=
  foldl (fun ver r => if (off r =? o) && (ver <? version r) then version r else ver) 0 (records b).

Definition cas_write (b : Block) (o v expected : Z) : res (Block * option Z) :=
  if dead b then Val (b, None) else
  let cur := latest_version b o in
  if negb (cur =? expected) then Val (b, None) else
  new_ver ← add_u 64 (seq b) 1;
  Val (mkBlock (frames b) (n_pages b) (members b) new_ver (records b ++ [mkRec o v new_ver cur]) (dead b), Some new_ver).

Definition read_latest (b : Block) (o : Z) : option Z :=
  if dead b then None else
  snd (foldl (fun '(ver, out) r => if (off r =? o) && (ver <=? version r) then (version r, Some (val r)) else (ver, out))
         (0, None) (records b)).

(** ** Specification: a map from slots to their newest version and value *)

Abbreviation slots := (gmap Z (Z * Z)).
Definition slot_version (m : slots) (o : Z) : Z := match m !! o with Some (ver, _) => ver | None => 0 end.

(** The map a history of records describes: the last record of each slot. *)
Definition slots_of (rs : list Rec) : slots := foldl (fun m r => <[off r := (version r, val r)]> m) ∅ rs.

(** Versions are positive and increase, up to the block's counter, and each record supersedes
    the version its slot had. *)
Fixpoint linked (m : slots) (last : Z) (rs : list Rec) : Prop :=
  match rs with
  | [] => True
  | r :: rs => last < version r /\ supersedes r = slot_version m (off r) /\
      linked (<[off r := (version r, val r)]> m) (version r) rs
  end.
Record block_inv (b : Block) : Prop := {
  bi_linked : linked ∅ 0 (records b);
  bi_seq : seq b = List.last (map version (records b)) 0;
}.

(** ** Lemmas *)

Lemma slots_of_snoc rs r : slots_of (rs ++ [r]) = <[off r := (version r, val r)]> (slots_of rs).
Proof. unfold slots_of. by rewrite foldl_app. Qed.

Lemma last_shift (x : Z) l d : List.last (x :: l) d = List.last l x.
Proof. revert x d. induction l as [|y l IH]; intros x d; [done|]. exact (eq_trans (IH y d) (eq_sym (IH y x))). Qed.

Lemma linked_snoc rs r : forall m last, linked m last (rs ++ [r]) <->
  linked m last rs /\ List.last (map version rs) last < version r /\
  supersedes r = slot_version (foldl (fun m r => <[off r := (version r, val r)]> m) m rs) (off r).
Proof.
  induction rs as [|x rs IH]; intros m last; cbn [linked app map foldl].
  { split; [intros (? & ? & _); by split | intros (_ & ? & ?); by split]. }
  rewrite IH, last_shift. tauto.
Qed.

Definition fold_latest (o : Z) (rs : list Rec) (ver : Z) (out : option Z) : Z * option Z :=
  foldl (fun '(ver, out) r => if (off r =? o) && (ver <=? version r) then (version r, Some (val r)) else (ver, out)) (ver, out) rs.

Lemma slot_version_insert m k ver x o : slot_version (<[k := (ver, x)]> m) o = if decide (o = k) then ver else slot_version m o.
Proof.
  unfold slot_version. case_decide as E; [subst; by rewrite lookup_insert_eq | by rewrite lookup_insert_ne].
Qed.

(** Both loops find the newest record of the slot. *)
Lemma newest_of rs o : forall m last, linked m last rs -> 0 <= last -> slot_version m o <= last ->
  let m' := foldl (fun m r => <[off r := (version r, val r)]> m) m rs in
  foldl (fun ver r => if (off r =? o) && (ver <? version r) then version r else ver) (slot_version m o) rs = slot_version m' o /\
  fold_latest o rs (slot_version m o) (snd <$> m !! o) = (slot_version m' o, snd <$> m' !! o).
Proof.
  induction rs as [|r rs IH]; intros m last Hl H0 Hm; cbn [foldl fold_latest linked] in *; [done|].
  destruct Hl as (Hr & _ & Hl). destruct (Z.eqb_spec (off r) o) as [<-|Hne]; cbn [andb].
  - rewrite (proj2 (Z.ltb_lt _ _)), (proj2 (Z.leb_le _ _)) by lia.
    specialize (IH _ _ Hl ltac:(lia)). rewrite slot_version_insert, decide_True, lookup_insert_eq in IH by done. apply IH. lia.
  - specialize (IH _ _ Hl ltac:(lia)). rewrite slot_version_insert, decide_False, lookup_insert_ne in IH by congruence.
    apply IH. lia.
Qed.

Lemma block_reads b o : block_inv b ->
  latest_version b o = slot_version (slots_of (records b)) o /\
  (dead b = false -> read_latest b o = snd <$> slots_of (records b) !! o).
Proof.
  intros [Hl _]. destruct (newest_of (records b) o ∅ 0 Hl) as [E1 E2]; [done | done |].
  split; [exact E1|]. intros Hd. unfold read_latest. rewrite Hd.
  change (snd (fold_latest o (records b) (slot_version ∅ o) (snd <$> (∅ : slots) !! o)) = snd <$> slots_of (records b) !! o). by rewrite E2.
Qed.

Lemma linked_bound rs : forall m last o, linked m last rs -> slot_version m o <= last ->
  slot_version (foldl (fun m r => <[off r := (version r, val r)]> m) m rs) o <= List.last (map version rs) last.
Proof.
  induction rs as [|r rs IH]; intros m last o Hl Hm; [done|]. destruct Hl as (Hr & _ & Hl). cbn [foldl map].
  rewrite last_shift. apply IH; [done|]. unfold slot_version. destruct (decide (off r = o)) as [<-|Hne].
  - by rewrite lookup_insert_eq.
  - rewrite lookup_insert_ne by done. fold (slot_version m o). lia.
Qed.

Lemma cas_write_live b o v e : block_inv b -> dead b = false -> seq b + 1 < 2 ^ 64 ->
  cas_write b o v e =
    Val (if slot_version (slots_of (records b)) o =? e
         then (mkBlock (frames b) (n_pages b) (members b) (seq b + 1) (records b ++ [mkRec o v (seq b + 1) e]) (dead b), Some (seq b + 1))
         else (b, None)).
Proof.
  intros Hb Hd Hs. unfold cas_write. rewrite Hd. destruct (block_reads b o Hb) as [-> _]. cbv zeta.
  destruct (Z.eqb_spec (slot_version (slots_of (records b)) o) e) as [->|]; cbn [negb]; [|done].
  unfold add_u. by rewrite decide_True.
Qed.

Lemma cas_inv b o v : block_inv b -> 
  block_inv (mkBlock (frames b) (n_pages b) (members b) (seq b + 1)
    (records b ++ [mkRec o v (seq b + 1) (slot_version (slots_of (records b)) o)]) (dead b)).
Proof.
  intros [Hl Hs]. constructor; cbn [records seq].
  - apply linked_snoc. split; [done|]. cbn [version off supersedes]. split; [lia | done].
  - rewrite map_app. exact (eq_sym (last_last _ _ _)).
Qed.

(** ** Histories *)

Inductive call := Cas (o v expected : Z) | Rd (o : Z).

Definition step (b : Block) (c : call) : res (Block * option Z) :=
  match c with
  | Cas o v expected => cas_write b o v expected
  | Rd o => Val (b, read_latest b o)
  end.
Fixpoint run (b : Block) (cs : list call) : res (Block * list (option Z)) :=
  match cs with
  | [] => Val (b, [])
  | c :: cs => '(b, r) ← step b c; '(b, rs) ← run b cs; Val (b, r :: rs)
  end.

(** The specification: one map from slots to versions and values, and one counter. *)
Definition spec_step (m : slots) (n : Z) (c : call) : slots * Z * option Z :=
  match c with
  | Cas o v expected => if slot_version m o =? expected then (<[o := (n + 1, v)]> m, n + 1, Some (n + 1)) else (m, n, None)
  | Rd o => (m, n, snd <$> m !! o)
  end.
Fixpoint spec_run (m : slots) (n : Z) (cs : list call) : slots * Z * list (option Z) :=
  match cs with
  | [] => (m, n, [])
  | c :: cs => let '(m, n, r) := spec_step m n c in let '(m, n, rs) := spec_run m n cs in (m, n, r :: rs)
  end.

(** ** Properties *)

(** C21: the record plane of a live block is a map of versioned slots.  Any sequence of
    compare-and-swaps and reads answers as the map with one counter does: a swap succeeds
    exactly when the expected version is the slot's, and then installs a version above every
    earlier one; a read returns the last value installed.  Nothing is erased: the records
    only grow, each superseding the version its slot had. *)
Theorem block_records_refine_versioned_map (b : Block) (cs : list call) :
  block_inv b -> dead b = false -> 0 <= seq b -> seq b + zlen cs < 2 ^ 64 ->
  runs (run b cs) (fun '(b', rs) =>
    spec_run (slots_of (records b)) (seq b) cs = (slots_of (records b'), seq b', rs) /\ block_inv b' /\ dead b' = false /\
    exists new, records b' = records b ++ new /\ frames b' = frames b /\ members b' = members b).
Proof.
  revert b. induction cs as [|c cs IH]; intros b Hb Hd H0 Hc.
  { cbn [run]. apply runs_val. cbn [spec_run]. split; [done|]. split; [done|]. split; [done|]. exists []. by rewrite app_nil_r. }
  rewrite zlen_cons in Hc. pose proof (zlen_nonneg cs).
  assert (forall b1 r, block_inv b1 -> dead b1 = false -> seq b <= seq b1 <= seq b + 1 -> frames b1 = frames b -> members b1 = members b ->
    (exists new, records b1 = records b ++ new) -> step b c = Val (b1, r) ->
    spec_step (slots_of (records b)) (seq b) c = (slots_of (records b1), seq b1, r) ->
    runs (run b (c :: cs)) (fun '(b', rs) =>
      spec_run (slots_of (records b)) (seq b) (c :: cs) = (slots_of (records b'), seq b', rs) /\ block_inv b' /\ dead b' = false /\
      exists new, records b' = records b ++ new /\ frames b' = frames b /\ members b' = members b)) as Hnext.
  { intros b1 r Hb1 Hd1 Hs1 Hf Hm (new1 & Hr1) Estep Espec. cbn [run spec_run]. rewrite Estep, bind_val, Espec.
    eapply runs_bind; [apply (IH b1); (done || lia)|]. intros [b' rs] (E & Hb' & Hd' & new & Hr & Hf' & Hm'). apply runs_val. rewrite E.
    split; [done|]. split; [done|]. split; [done|]. exists (new1 ++ new). rewrite Hr, Hr1, app_assoc. split; [done|]. by rewrite Hf', Hm'. }
  destruct c as [o v e | o].
  - pose proof (cas_write_live b o v e Hb Hd ltac:(lia)) as E. cbn [spec_step] in Hnext.
    destruct (Z.eqb_spec (slot_version (slots_of (records b)) o) e) as [<-|].
    + eapply Hnext; [by apply cas_inv | done | cbn; lia | done | done | by eexists | exact E |]. cbn [records seq]. by rewrite slots_of_snoc.
    + eapply Hnext; [done | done | lia | done | done | exists []; by rewrite app_nil_r | exact E | done].
  - eapply Hnext; [done | done | lia | done | done | exists []; by rewrite app_nil_r | reflexivity |].
    cbn [spec_step]. destruct (block_reads b o Hb) as [_ Hr]. by rewrite Hr.
Qed.

(** ** Witnesses *)

Lemma block_records_refine_versioned_map_witness : exists b', 
  run (block_of_frames [4096] 1) [Cas 7 10 0; Cas 7 11 0; Cas 7 12 1; Rd 7] = Val (b', [Some 1; None; Some 2; Some 12]) /\ dead b' = false.
Proof.
  destruct (block_records_refine_versioned_map (block_of_frames [4096] 1) [Cas 7 10 0; Cas 7 11 0; Cas 7 12 1; Rd 7])
    as ([b' rs] & E & _ & _ & Hd & _); [by constructor | reflexivity | done | reflexivity |].
  exists b'. split; [|exact Hd]. rewrite E. f_equal. f_equal. cbv in E. congruence.
Defined.
