(* ===== verification/Infer.v ===== *)
(** * The inference bridge: [crates/tb-hal/src/infer.rs], with the routing decision of
    [crates/tb-encode/src/route.rs] and the deterministic backend of [inferwire.rs].

    A URI is its UTF-8 bytes: the grammar splits on the ASCII characters of [model:] and on
    the first slash, which are the same positions in bytes.  A backend is a record of the
    trait's methods, so that a session carries whichever was registered. *)
From Stdlib Require Import ZArith Lia.
From stdpp Require Import base numbers option tactics sets list.
From S2P Require Import Prelude Khash.
Open Scope Z_scope.

(** ** The grammar and the routing decision *)

(** [b"model:"] *)
Definition MODEL_SCHEME : list Z := [109; 111; 100; 101; 108; 58].
Definition SLASH : Z := 47.

Fixpoint strip_prefix (p s : list Z) : option (list Z) :=
  match p, s with
  | [], s => Some s
  | x :: p, y :: s => if x =? y then strip_prefix p s else None
  | _ :: _, [] => None
  end.

Fixpoint split_once (sep : Z) (s : list Z) : option (list Z * list Z) :=
  match s with
  | [] => None
  | x :: s =>
      if x =? sep then Some ([], s) else
      match split_once sep s with Some (a, b) => Some (x :: a, b) | None => None end
  end.

Definition is_empty (s : list Z) : bool := match s with [] => true | _ => false end.

Definition parse_scheme (uri : list Z) : option (list Z * list Z) :=
  rest ← strip_prefix MODEL_SCHEME uri;
  match split_once SLASH rest with
  | Some (p, path) => if negb (is_empty p) && negb (is_empty path) then Some (p, path) else None
  | None => if negb (is_empty rest) then Some (rest, []) else None
  end.

Definition starts_with (s k : list Z) : bool := match strip_prefix k s with Some _ => true | None => false end.

(** The loop from key [i] on, with the best match so far. *)
Fixpoint prefix_loop (provider : list Z) (keys : list (list Z)) (i : Z) (best : option Z) (best_len : Z) : option Z :=
  match keys with
  | [] => best
  | k :: keys =>
      if starts_with provider k && (match best with None => true | Some _ => false end || (best_len <? zlen k))
      then prefix_loop provider keys (i + 1) (Some i) (zlen k)
      else prefix_loop provider keys (i + 1) best best_len
  end.
Definition longest_prefix_index (provider : list Z) (keys : list (list Z)) : option Z :=
  prefix_loop provider keys 0 None 0.

(** ** The contract *)

Inductive StopReason := EndTurn | MaxTokens | StopSequence | ToolUse | Refusal | Pause.
Inductive InferError := NoBackend | Unavailable | ContextExceeded | Refused | Cancelled.

Record InferRequest := mkReq { req_model : Z; prompt : Z }.
Record InferResponse := mkResp { token : Z; stop_reason : StopReason }.

(** [infer_bytes] returns the response buffer and the backend's result. *)
Record InferBackend := mkBackend {
  scheme : list Z;
  infer : InferRequest -> InferResponse;
  infer_bytes : Z -> list Z -> list Z -> res (list Z * ((Z * StopReason) + InferError));
}.

Record ModelSession := mkSession { backend : InferBackend; model : Z }.

Definition invoke (s : ModelSession) (prompt : Z) : InferResponse := infer (backend s) (mkReq (model s) prompt).
Definition invoke_bytes (s : ModelSession) (prompt resp_out : list Z) : res (list Z * ((Z * StopReason) + InferError)) :=
  infer_bytes (backend s) (model s) prompt resp_out.

(** ** The deterministic backend *)

Definition INFER_BODY_CAP : Z := 8192.
Definition INFER_MOCK_RESP_LEN : Z := 1280.
(** [b"YUVA-M31-MOCK-V1"] *)
Definition MOCK_LABEL : list Z := [89; 85; 86; 65; 45; 77; 51; 49; 45; 77; 79; 67; 75; 45; 86; 49].

(** The keystream loop: [fuel] turns, one per block of 32 bytes. *)
Fixpoint mock_loop (fuel : nat) (off k : Z) (blk out : list Z) : res (list Z) :=
  match fuel with
  | O => Panic
  | S fuel =>
      if negb (off <? INFER_MOCK_RESP_LEN) then Val out else
      blk ← copy_loop 4 (to_le 4 k) (zlen MOCK_LABEL + 32) blk;
      stream ← uhash blk;
      let take := if INFER_MOCK_RESP_LEN - off <? 32 then INFER_MOCK_RESP_LEN - off else 32 in
      out ← copy_loop take stream off out;
      mock_loop fuel (off + take) (wrapping_add 32 k 1) blk out
  end.
(** One turn per block, and the turn that finds the buffer full. *)
Definition MOCK_FUEL : nat := 41.

Definition mock_infer (prompt out : list Z) : res (list Z * Z) :=
  if is_empty prompt || (INFER_BODY_CAP <? zlen prompt) || (zlen out <? INFER_MOCK_RESP_LEN) then Val (out, 0) else
  seed ← uhash prompt;
  blk ← copy_loop (zlen MOCK_LABEL) MOCK_LABEL 0 (zrepeat (zlen MOCK_LABEL + 32 + 4) 0);
  blk ← copy_loop 32 seed (zlen MOCK_LABEL) blk;
  out ← mock_loop MOCK_FUEL 0 0 blk out;
  Val (out, INFER_MOCK_RESP_LEN).

Definition mock_infer_bytes (model : Z) (prompt resp_out : list Z) : res (list Z * ((Z * StopReason) + InferError)) :=
  if is_empty prompt || (INFER_BODY_CAP <? zlen prompt) then Val (resp_out, inr ContextExceeded) else
  if zlen resp_out <? INFER_MOCK_RESP_LEN then Val (resp_out, inr Cancelled) else
  '(resp_out, n) ← mock_infer prompt resp_out;
  if n =? 0 then Val (resp_out, inr Unavailable) else Val (resp_out, inl (n, EndTurn)).

Definition MockBackend (scheme : list Z) : InferBackend :=
  mkBackend scheme (fun req => mkResp (Z.lxor (prompt req) 0xA110C0DE) EndTurn) mock_infer_bytes.

(** ** The registry *)

(** [b"model:mock/echo"] and [b"model:local/llama3"] *)
Definition MOCK_CLAUDE : InferBackend := MockBackend (MODEL_SCHEME ++ [109; 111; 99; 107; 47; 101; 99; 104; 111]).
Definition MOCK_LLAMA : InferBackend :=
  MockBackend (MODEL_SCHEME ++ [108; 111; 99; 97; 108; 47; 108; 108; 97; 109; 97; 51]).
Definition ROUTES : list InferBackend := [MOCK_CLAUDE; MOCK_LLAMA].
Definition MAX_ROUTES : Z := 16.

(** The key of a route: the provider of its own scheme. *)
Definition route_key (b : InferBackend) : list Z :=
  match parse_scheme (scheme b) with Some (p, _) => p | None => scheme b end.

Definition resolve (routes : list InferBackend) (uri : list Z) : res (option (Z * InferBackend)) :=
  match parse_scheme uri with
  | None => Val None
  | Some (provider, _) =>
      let n := Z.min (zlen routes) MAX_ROUTES in
      if MAX_ROUTES <? zlen routes then Panic else
      let keys := map route_key (ztake n routes) in
      match longest_prefix_index provider keys with
      | None => Val None
      | Some i => b ← idx routes i; Val (Some (wrap 32 i, b))
      end
  end.

(** ** Lemmas: the grammar *)

Lemma strip_prefix_spec p s r : strip_prefix p s = Some r <-> s = p ++ r.
Proof.
  revert s. induction p as [|x p IH]; intros s; cbn [strip_prefix app]; [split; [by intros [= ->] | by intros ->]|].
  destruct s as [|y s]; [done|]. destruct (Z.eqb_spec x y) as [->|Hne].
  - rewrite IH. split; [by intros -> | by intros [= ->]].
  - split; [done | intros [= -> _]; done].
Qed.

Lemma starts_with_spec s k : starts_with s k = true <-> k `prefix_of` s.
Proof.
  unfold starts_with. destruct (strip_prefix k s) as [r|] eqn:E.
  - split; [|done]. intros _. exists r. by apply strip_prefix_spec.
  - split; [done|]. intros [r Hr]. apply strip_prefix_spec in Hr. congruence.
Qed.

Lemma split_once_spec sep s :
  match split_once sep s with
  | Some (a, b) => s = a ++ sep :: b /\ sep ∉ a
  | None => sep ∉ s
  end.
Proof.
  induction s as [|x s IH]; cbn [split_once]; [apply not_elem_of_nil|].
  destruct (Z.eqb_spec x sep) as [->|Hne]; [split; [done | apply not_elem_of_nil]|].
  destruct (split_once sep s) as [[a b]|].
  - destruct IH as [-> Ha]. split; [done|]. rewrite elem_of_cons. intros [|]; [congruence | done].
  - rewrite elem_of_cons. intros [|]; [congruence | done].
Qed.

Lemma is_empty_spec s : is_empty s = true <-> s = [].
Proof. by destruct s. Qed.

Lemma split_unique (sep : Z) a b c d : sep ∉ a -> sep ∉ c -> a ++ sep :: b = c ++ sep :: d -> a = c /\ b = d.
Proof.
  revert c. induction a as [|x a IH]; intros [|y c] Ha Hc E; simplify_eq/=.
  - done.
  - by destruct Hc; left.
  - by destruct Ha; left.
  - rewrite elem_of_cons in Ha, Hc. destruct (IH c) as [-> ->]; tauto.
Qed.

(** ** Lemmas: the longest prefix *)

(** [i] is the first of the longest keys that begin the provider. *)
Definition best_key (provider : list Z) (keys : list (list Z)) (i : Z) : Prop :=
  exists k, 0 <= i /\ keys !! Z.to_nat i = Some k /\ k `prefix_of` provider /\
    forall (j : nat) k', keys !! j = Some k' -> k' `prefix_of` provider ->
      zlen k' <= zlen k /\ (zlen k' = zlen k -> i <= Z.of_nat j).

Lemma prefix_loop_spec provider keys : forall pre best best_len,
  match best with
  | None => (forall k, k ∈ pre -> ~ k `prefix_of` provider)
  | Some i => best_key provider pre i /\ exists k, pre !! Z.to_nat i = Some k /\ zlen k = best_len
  end ->
  match prefix_loop provider keys (zlen pre) best best_len with
  | None => forall k, k ∈ pre ++ keys -> ~ k `prefix_of` provider
  | Some i => best_key provider (pre ++ keys) i
  end.
Proof.
  induction keys as [|k keys IH]; intros pre best best_len Hb; cbn [prefix_loop].
  { rewrite app_nil_r. destruct best; tauto. }
  specialize (IH (pre ++ [k])). rewrite <- app_assoc, zlen_app, zlen_cons, zlen_nil in IH. cbn [app] in IH.
  replace (zlen pre + (1 + 0)) with (zlen pre + 1) in IH by lia.
  assert ((pre ++ [k]) !! Z.to_nat (zlen pre) = Some k) as Hk by (unfold zlen; rewrite Nat2Z.id; by apply list_lookup_middle).
  destruct (starts_with provider k) eqn:Es.
  2: { cbn [andb]. apply IH. assert (~ k `prefix_of` provider) as Hn by (intros Hp%starts_with_spec; congruence). destruct best as [i|].
    - destruct Hb as [(k0 & Hi & Hl & Hp & Hmax) (k1 & Hl1 & Hlen)]. split.
      + exists k0. split; [done|]. split; [by rewrite (lookup_app_l_Some _ _ _ _ Hl)|]. split; [done|].
        intros j k' [Hj|[_ Hj%list_lookup_singleton_Some]]%lookup_app_Some Hp'; [by apply Hmax | destruct Hj; by subst].
      + exists k1. split; [by rewrite (lookup_app_l_Some _ _ _ _ Hl1) | done].
    - intros k' [Hin| ->%list_elem_of_singleton]%elem_of_app; [by apply Hb | done]. }
  apply starts_with_spec in Es. pose proof (zlen_nonneg pre). destruct best as [i|]; cbn [orb andb].
  - destruct Hb as [(k0 & Hi & Hl & Hp & Hmax) (k1 & Hl1 & Hlen)]. rewrite Hl in Hl1. injection Hl1 as <-.
    destruct (Z.ltb_spec best_len (zlen k)) as [Hlt|Hge]; apply IH.
    + split; [|by exists k]. exists k. split; [done|]. split; [done|]. split; [done|].
      intros j k' [Hj|[Hlj Hj%list_lookup_singleton_Some]]%lookup_app_Some Hp'.
      * destruct (Hmax j k' Hj Hp'). lia.
      * destruct Hj as [? ->]. unfold zlen. lia.
    + split; [|exists k0; split; [by rewrite (lookup_app_l_Some _ _ _ _ Hl) | done]].
      exists k0. split; [done|]. split; [by rewrite (lookup_app_l_Some _ _ _ _ Hl)|]. split; [done|].
      intros j k' [Hj|[Hlj Hj%list_lookup_singleton_Some]]%lookup_app_Some Hp'; [by apply Hmax|].
      destruct Hj as [? ->]. apply lookup_lt_Some in Hl. lia.
  - apply IH. split; [|by exists k]. exists k. split; [done|]. split; [done|]. split; [done|].
    intros j k' [Hj|[Hlj Hj%list_lookup_singleton_Some]]%lookup_app_Some Hp'.
    + exfalso. apply (Hb k'); [by eapply list_elem_of_lookup_2 | done].
    + destruct Hj as [? ->]. unfold zlen. lia.
Qed.

(** ** Lemmas: the keystream *)

(** Block [k] of the stream a seed expands to. *)
Definition mock_block (seed : list Z) (k : Z) (d : list Z) : Prop := uhash (MOCK_LABEL ++ seed ++ to_le 4 k) = Val d.

Lemma mock_loop_turn fuel off k blk out : off < INFER_MOCK_RESP_LEN ->
  mock_loop (S fuel) off k blk out =
    (blk ← copy_loop 4 (to_le 4 k) (zlen MOCK_LABEL + 32) blk;
     stream ← uhash blk;
     let take := if INFER_MOCK_RESP_LEN - off <? 32 then INFER_MOCK_RESP_LEN - off else 32 in
     out ← copy_loop take stream off out;
     mock_loop fuel (off + take) (wrapping_add 32 k 1) blk out).
Proof. intros H%Z.ltb_lt. cbn [mock_loop]. by rewrite H. Qed.

Lemma mock_loop_ok seed out0 (j : nat) : forall k x pre, 0 <= k -> k + Z.of_nat j = 40 -> zlen seed = 32 -> zlen x = 4 -> zlen pre = 32 * k ->
  INFER_MOCK_RESP_LEN <= zlen out0 ->
  exists ds, mock_loop (S j) (32 * k) k (MOCK_LABEL ++ seed ++ x) (pre ++ zdrop (32 * k) out0) =
      Val ((pre ++ concat ds) ++ zdrop INFER_MOCK_RESP_LEN out0) /\
    Forall2 (mock_block seed) (seqZ k (Z.of_nat j)) ds /\ zlen (concat ds) = 32 * Z.of_nat j.
Proof.
  unfold INFER_MOCK_RESP_LEN. induction j as [|j IH]; intros k x pre Hk Hj Hseed Hx Hpre Hout.
  { exists []. cbn [mock_loop]. rewrite (proj2 (Z.ltb_ge (32 * k) INFER_MOCK_RESP_LEN)) by (unfold INFER_MOCK_RESP_LEN; lia). cbn [negb].
    replace (32 * k) with 1280 by lia. split; [by rewrite app_nil_r|]. split; [constructor | done]. }
  assert (zlen MOCK_LABEL = 16) as HL by done.
  rewrite mock_loop_turn by (unfold INFER_MOCK_RESP_LEN; lia).
  rewrite app_assoc, copy_loop_next, bind_val by (rewrite ?zlen_app, ?zlen_to_le; lia).
  rewrite ztake_all, zdrop_all, app_nil_r, <- app_assoc by (rewrite ?zlen_to_le; lia).
  destruct (blake2s_runs None (MOCK_LABEL ++ seed ++ to_le 4 k) I) as (d & Ed & Hd & _).
  unfold uhash. rewrite Ed, bind_val. cbv zeta.
  assert ((if INFER_MOCK_RESP_LEN - 32 * k <? 32 then INFER_MOCK_RESP_LEN - 32 * k else 32) = 32) as ->.
  { destruct (Z.ltb_spec (INFER_MOCK_RESP_LEN - 32 * k) 32) as [Hlt|]; [unfold INFER_MOCK_RESP_LEN in *; lia | done]. }
  rewrite (copy_ascend 32 d (32 * k) pre (32 * k) out0 (32 * k + 32)), bind_val by lia.
  unfold wrapping_add. rewrite wrap_small by (unfold in_u; lia). replace (32 * k + 32) with (32 * (k + 1)) by lia.
  destruct (IH (k + 1) (to_le 4 k) (pre ++ d)) as (ds & E & Hds & Hlen); [lia | lia | done | by rewrite zlen_to_le | rewrite zlen_app; lia | done |].
  exists (d :: ds). rewrite E. cbn [concat]. split; [by rewrite !app_assoc|].
  split; [|rewrite zlen_app; lia]. rewrite seqZ_cons by lia. replace (Z.pred (Z.of_nat (S j))) with (Z.of_nat j) by lia.
  constructor; [exact Ed | done].
Qed.

Lemma mock_infer_ok p out : p <> [] -> zlen p <= INFER_BODY_CAP -> INFER_MOCK_RESP_LEN <= zlen out ->
  exists seed ds, uhash p = Val seed /\ Forall2 (mock_block seed) (seqZ 0 40) ds /\ zlen (concat ds) = INFER_MOCK_RESP_LEN /\
    mock_infer p out = Val (concat ds ++ zdrop INFER_MOCK_RESP_LEN out, INFER_MOCK_RESP_LEN).
Proof.
  intros Hp Hcap Hout. unfold mock_infer. assert (is_empty p = false) as -> by by destruct p.
  rewrite (proj2 (Z.ltb_ge INFER_BODY_CAP (zlen p))), (proj2 (Z.ltb_ge (zlen out) INFER_MOCK_RESP_LEN)) by done. cbn [orb].
  destruct (blake2s_runs None p I) as (seed & Es & Hseed & _). unfold uhash. rewrite Es, bind_val.
  assert (zlen MOCK_LABEL = 16) as HL by done.
  rewrite copy_loop_front, bind_val by (rewrite ?zlen_zrepeat; lia). rewrite ztake_all by lia.
  rewrite copy_loop_next, bind_val by (rewrite ?zlen_zdrop, ?zlen_zrepeat; lia). rewrite (ztake_all 32 seed), <- app_assoc by lia.
  rewrite zdrop_zdrop, zdrop_zrepeat by lia.
  destruct (mock_loop_ok seed out 40 0 (zrepeat (zlen MOCK_LABEL + 32 + 4 - (zlen MOCK_LABEL + 32)) 0) []) as (ds & E & Hds & Hlen);
    [done | done | done | by rewrite HL | done | done |].
  exists seed, ds. split; [done|]. split; [exact Hds|]. split; [exact Hlen|].
  change (32 * 0) with 0 in E. rewrite zdrop_0 in E. cbn [app] in E. unfold MOCK_FUEL. by rewrite E.
Qed.

(** ** Properties *)

(** The URI names provider [p] and path [path] ([path] empty when it has none). *)
Definition uri_names (uri p path : list Z) : Prop :=
  p <> [] /\ SLASH ∉ p /\
  ((uri = MODEL_SCHEME ++ p /\ path = []) \/ (uri = MODEL_SCHEME ++ p ++ SLASH :: path /\ path <> [])).

Lemma parse_scheme_spec uri p path : parse_scheme uri = Some (p, path) <-> uri_names uri p path.
Proof.
  unfold parse_scheme, uri_names. destruct (strip_prefix MODEL_SCHEME uri) as [rest|] eqn:E; cbn [mbind option_bind].
  2: { split; [done|]. intros (_ & _ & [[Hu _]|[Hu _]]); apply strip_prefix_spec in Hu; congruence. }
  apply strip_prefix_spec in E as ->. pose proof (split_once_spec SLASH rest) as Hs.
  assert (forall l k : list Z, MODEL_SCHEME ++ l = MODEL_SCHEME ++ k <-> l = k) as Hinj.
  { intros l k. split; [apply app_inv_head | by intros ->]. }
  rewrite !Hinj. destruct (split_once SLASH rest) as [[a b]|].
  - destruct Hs as [-> Ha]. split.
    + destruct a, b; try done. intros [= <- <-]. split; [done|]. split; [done|]. right. by split.
    + intros (Hp & Hns & [[Hu _]|[Hu Hpath]]).
      * exfalso. apply Hns. rewrite <- Hu. apply elem_of_app. right. by left.
      * apply split_unique in Hu as [-> ->]; [|done..]. by destruct p, path.
  - split.
    + destruct rest; [done|]. intros [= <- <-]. split; [done|]. split; [done|]. left. by split.
    + intros (Hp & Hns & [[<- ->]|[Hu _]]); [by destruct rest|]. exfalso. apply Hs. rewrite Hu. apply elem_of_app. right. by left.
Qed.

Lemma resolve_runs (routes : list InferBackend) (uri : list Z) : zlen routes <= MAX_ROUTES ->
  runs (resolve routes uri) (fun r => match r with
    | Some (m, b) => exists p path, uri_names uri p path /\ best_key p (map route_key routes) m /\ routes !! Z.to_nat m = Some b
    | None => forall p path, uri_names uri p path -> forall b, b ∈ routes -> ~ route_key b `prefix_of` p
    end).
Proof.
  intros Hr. unfold resolve. destruct (parse_scheme uri) as [[p path]|] eqn:E.
  2: { apply runs_val. intros p path Hn%parse_scheme_spec. congruence. }
  apply parse_scheme_spec in E. cbv zeta. rewrite (proj2 (Z.ltb_ge MAX_ROUTES (zlen routes))), Z.min_l, ztake_all by lia.
  pose proof (prefix_loop_spec p (map route_key routes) [] None 0) as Hl. cbn [app] in Hl. change (zlen []) with 0 in Hl.
  unfold longest_prefix_index. destruct (prefix_loop p (map route_key routes) 0 None 0) as [i|].
  - specialize (Hl ltac:(intros k Hk; by apply not_elem_of_nil in Hk)). pose proof Hl as (k & Hi & Hk & _).
    apply list_lookup_fmap_Some_1 in Hk as (b & _ & Hb). rewrite (idx_Some _ _ _ Hi Hb), bind_val. apply runs_val.
    apply lookup_lt_Some in Hb as Hlt. unfold MAX_ROUTES, zlen in *. rewrite wrap_small by (unfold in_u; lia). exists p, path. by split.
  - specialize (Hl ltac:(intros k Hk; by apply not_elem_of_nil in Hk)). apply runs_val. intros p' path' Hn b Hb.
    apply parse_scheme_spec in E, Hn. rewrite E in Hn. injection Hn as <- _. apply Hl. by apply list_elem_of_fmap_2.
Qed.

(** Routing is total and exact.  A URI resolves to the backend whose key is the longest
    that begins the URI's provider, the earliest registered among equals, and to none when
    the URI is not of the form [model:provider] or [model:provider/path] or when no key
    begins its provider; no URI panics. *)
Theorem resolve_longest_prefix (routes : list InferBackend) (uri : list Z) : zlen routes <= MAX_ROUTES ->
  runs (resolve routes uri) (fun r => match r with
    | Some (m, b) => exists p path, uri_names uri p path /\ best_key p (map route_key routes) m /\ routes !! Z.to_nat m = Some b
    | None => forall p path, uri_names uri p path -> forall b, b ∈ routes -> ~ route_key b `prefix_of` p
    end).
Proof. apply resolve_runs. Qed.

(** The deterministic backend's answer to every prompt and buffer: a prompt that is empty or
    over the cap is refused, then a buffer that is too small, with the buffer untouched;
    otherwise the first 1280 bytes are the keystream of the prompt's digest and the rest of
    the buffer is as it was. *)
Theorem mock_infer_bytes_spec model p out :
  if is_empty p || (INFER_BODY_CAP <? zlen p) then mock_infer_bytes model p out = Val (out, inr ContextExceeded) else
  if zlen out <? INFER_MOCK_RESP_LEN then mock_infer_bytes model p out = Val (out, inr Cancelled) else
  exists seed ds, uhash p = Val seed /\ Forall2 (mock_block seed) (seqZ 0 40) ds /\
    mock_infer_bytes model p out = Val (concat ds ++ zdrop INFER_MOCK_RESP_LEN out, inl (INFER_MOCK_RESP_LEN, EndTurn)).
Proof.
  unfold mock_infer_bytes. destruct (is_empty p) eqn:Ep; [done|]. cbn [orb].
  destruct (Z.ltb_spec INFER_BODY_CAP (zlen p)); [done|]. destruct (Z.ltb_spec (zlen out) INFER_MOCK_RESP_LEN); [done|].
  destruct (mock_infer_ok p out) as (seed & ds & Es & Hds & _ & E); [by intros -> | done | done |].
  exists seed, ds. split; [done|]. split; [done|]. by rewrite E, bind_val.
Qed.

(** ** Witnesses *)

(** [model:local/x] is served by the second backend, [model:auto] by none. *)
Lemma resolve_longest_prefix_witness :
  (exists b, resolve ROUTES (MODEL_SCHEME ++ [108; 111; 99; 97; 108; 47; 120]) = Val (Some (1, b))) /\
  resolve ROUTES (MODEL_SCHEME ++ [97; 117; 116; 111]) = Val None.
Proof.
  split.
  - destruct (resolve_longest_prefix ROUTES (MODEL_SCHEME ++ [108; 111; 99; 97; 108; 47; 120])) as (r & E & _); [vm_compute; discriminate|].
    exists MOCK_LLAMA. reflexivity.
  - reflexivity.
Defined.
