(* ===== verification/Syscall.v ===== *)
(** * The system-call layer: [crates/tb-hal/src/caps.rs].

    Every kernel object is reached through a handle table, and unprivileged code through the
    one dispatcher.  Objects, channels and blocks are shared by reference counting in the
    source, so here a table holds object identities and the [World] is the store they name:
    cloning a reference copies the identity, comparing two is comparing identities, and an
    object nobody names any more stays in the store, where nothing can reach it.  The
    scheduler's state is part of the world, because a send makes a parked receiver runnable.
    Looking up an identity the store does not have is a [Panic]. *)
From Stdlib Require Import ZArith Lia.
From stdpp Require Import base numbers option tactics sets list gmap.
From S2P Require Import Prelude Caps Abi.
From S2P Require Ipc Blocks Infer Sched Engine Organ Consolidate Skills.
Open Scope Z_scope.

(** ** Objects and the world *)

Module ObjKind.
Inductive ObjKind :=
  | Agent | ModelSession | MemoryHome | MemoryRecord | Budget | Channel | Skill | Namespace | Generic | Block.
(** The [repr(u32)] discriminant. *)
Definition tag (k : ObjKind) : Z :=
  match k with
  | Agent => 0 | ModelSession => 1 | MemoryHome => 2 | MemoryRecord => 3 | Budget => 4
  | Channel => 5 | Skill => 6 | Namespace => 7 | Generic => 8 | Block => 9
  end.
End ObjKind.

#[export] Existing Instance Engine.RamStore_backing.
Abbreviation Substrate := (Organ.MemSubstrate Engine.Ram.RamStore).
Definition substrate_new : Substrate := Organ.new Engine.Ram.default.

(** [chan]: the channel and this endpoint's side; [block]: the shared block. *)
Record Object := mkObj {
  kind : ObjKind.ObjKind;
  mem : option Substrate;
  scalar : Z;
  chan : option (Z * Z);
  block : option Z;
  session : option Infer.ModelSession;
}.
Definition set_mem (x : Object) (m : Substrate) : Object := mkObj (kind x) (Some m) (scalar x) (chan x) (block x) (session x).

(** [next_id] is above every identity in use. *)
Record World := mkWorld {
  objects : gmap Z Object;
  channels : gmap Z (Ipc.Channel Z);
  blocks : gmap Z Blocks.Block;
  next_id : Z;
  sched : Sched.Sched;
}.
Definition set_objects (w : World) (v : gmap Z Object) : World := mkWorld v (channels w) (blocks w) (next_id w) (sched w).
Definition set_channels (w : World) (v : gmap Z (Ipc.Channel Z)) : World := mkWorld (objects w) v (blocks w) (next_id w) (sched w).
Definition set_blocks (w : World) (v : gmap Z Blocks.Block) : World := mkWorld (objects w) (channels w) v (next_id w) (sched w).
Definition set_sched (w : World) (v : Sched.Sched) : World := mkWorld (objects w) (channels w) (blocks w) (next_id w) v.

Definition put_object (w : World) (o : Z) (x : Object) : World := set_objects w (<[o := x]> (objects w)).
Definition put_channel (w : World) (c : Z) (x : Ipc.Channel Z) : World := set_channels w (<[c := x]> (channels w)).
Definition put_block (w : World) (b : Z) (x : Blocks.Block) : World := set_blocks w (<[b := x]> (blocks w)).

(** Allocate a shared core. *)
Definition fresh (w : World) : Z * World := (next_id w, mkWorld (objects w) (channels w) (blocks w) (next_id w + 1) (sched w)).

Definition deref {A} (m : gmap Z A) (i : Z) : res A := match m !! i with Some x => Val x | None => Panic end.

Abbreviation HandleTable := (CapTable Z).

(** ** Descriptors *)

Record SyscallArgs := mkArgs { method : Z; handle : Z; args : list Z }.
Record SysReturn := mkRet { status : SysStatus; value : Z }.
Definition call (m h : Z) : SyscallArgs := mkArgs m h [0; 0; 0; 0].
Definition ret_ok (v : Z) : SysReturn := mkRet Ok v.
Definition ret_err (e : SysStatus) : SysReturn := mkRet e 0.
Definition ret_status (e : SysStatus) : SysReturn := mkRet e 0.

(** ** Minting *)

(** A new object and its first handle; when the table is full the object is dropped. *)
Definition mint_object (w : World) (t : HandleTable) (rights : Z) (x : Object) : res (World * HandleTable * option Z) :=
  let '(o, w') := fresh w in
  '(h, t) ← alloc t rights o;
  match h with
  | Some h => Val (put_object w' o x, t, Some h)
  | None => Val (w, t, None)
  end.

Definition mint (w : World) (t : HandleTable) (k : ObjKind.ObjKind) (rights : Z) : res (World * HandleTable * option Z) :=
  mint_object w t rights (mkObj k None 0 None None None).
Definition mint_memory_home (w : World) (t : HandleTable) (rights : Z) : res (World * HandleTable * option Z) :=
  mint_object w t rights (mkObj ObjKind.MemoryHome (Some substrate_new) 0 None None None).
Definition mint_record (w : World) (t : HandleTable) (scalar : Z) : res (World * HandleTable * option Z) :=
  mint_object w t Rights.READ (mkObj ObjKind.MemoryRecord None scalar None None None).
Definition mint_channel_endpoint (w : World) (t : HandleTable) (rights c side : Z) : res (World * HandleTable * option Z) :=
  mint_object w t rights (mkObj ObjKind.Channel None 0 (Some (c, side)) None None).
Definition mint_block (w : World) (t : HandleTable) (rights b : Z) : res (World * HandleTable * option Z) :=
  mint_object w t rights (mkObj ObjKind.Block None 0 None (Some b) None).
Definition mint_model_session (w : World) (t : HandleTable) (rights : Z) (s : Infer.ModelSession) : res (World * HandleTable * option Z) :=
  mint_object w t rights (mkObj ObjKind.ModelSession None 0 None None (Some s)).

(** ** Resolving *)

(** [table.core.object_at(i).clone()], then the object it names. *)
Definition object_of (w : World) (t : HandleTable) (i : Z) : res (option (Z * Object)) :=
  o ← object_at t i;
  match o with
  | None => Val None
  | Some o => x ← deref (objects w) o; Val (Some (o, x))
  end.

Definition block_of (w : World) (t : HandleTable) (h : Z) : res ((Z * Z * Blocks.Block) + SysStatus) :=
  match live t h with
  | inr e => Val (inr e)
  | inl i =>
      ob ← object_of w t i;
      match ob with
      | None => Val (inr Stale)
      | Some (_, x) =>
          match block x with
          | None => Val (inr BadCap)
          | Some b =>
              blk ← deref (blocks w) b;
              if Blocks.is_dead blk then Val (inr Stale) else
              r ← rights_at t i;
              Val (inl (r, b, blk))
          end
      end
  end.

Definition chan_of (w : World) (t : HandleTable) (ep : Z) : res (option (Z * Z)) :=
  match live t ep with
  | inr _ => Val None
  | inl i => ob ← object_of w t i; Val (match ob with None => None | Some (_, x) => chan x end)
  end.

(** ** Channels *)

(** The receive body: (status, inline payload, moved handle). *)
Definition chan_recv_body (w : World) (t : HandleTable) (ep : Z) : res (World * HandleTable * (SysStatus * Z * Z)) :=
  match live t ep with
  | inr e => Val (w, t, (e, 0, 0))
  | inl i =>
      ob ← object_of w t i;
      match ob with
      | None => Val (w, t, (Stale, 0, 0))
      | Some (_, x) =>
          match chan x with
          | None => Val (w, t, (BadCap, 0, 0))
          | Some (c, side) =>
              ch ← deref (channels w) c;
              '(ch, msg) ← Ipc.pop_front ch side;
              let w := put_channel w c ch in
              match msg with
              | None => b ← Ipc.peer_open ch side; Val (w, t, (if b : bool then WouldBlock else PeerClosed, 0, 0))
              | Some m =>
                  match Ipc.msg_cap m with
                  | None => Val (w, t, (Ok, Ipc.payload m, 0))
                  | Some parked =>
                      '(h, t) ← attach t parked;
                      match h with
                      | Some h => Val (w, t, (Ok, Ipc.payload m, h))
                      | None => Val (w, t, (ObjFull, Ipc.payload m, 0))
                      end
                  end
              end
          end
      end
  end.

Definition chan_recv (w : World) (t : HandleTable) (ep : Z) : res (World * HandleTable * (SysStatus * Z * Z)) :=
  match live t ep with
  | inr e => Val (w, t, (e, 0, 0))
  | inl i =>
      r ← rights_at t i;
      if negb (Rights.contains r Rights.READ) then Val (w, t, (Denied, 0, 0)) else
      chan_recv_body w t ep
  end.

(** Detach the capability a send carries: it must be transferable and must not be an endpoint
    of the channel it would travel on. *)
Definition take_carried (w : World) (t : HandleTable) (c cap_raw : Z) : res ((option (Z * Z) + SysStatus) * HandleTable) :=
  if cap_raw =? 0 then Val (inl None, t) else
  match live t cap_raw with
  | inr e => Val (inr e, t)
  | inl ci =>
      r ← rights_at t ci;
      if negb (Rights.contains r Rights.TRANSFER) then Val (inr Denied, t) else
      ob ← object_of w t ci;
      if match ob with Some (_, x) => match chan x with Some (c', _) => c' =? c | None => false end | None => false end
      then Val (inr Denied, t) else
      '(p, t) ← detach t cap_raw;
      Val (match p with inl p => inl (Some p) | inr e => inr e end, t)
  end.

(** Enqueue and wake the receiver parked on the queue. *)
Definition deliver (w : World) (c side : Z) (ch : Ipc.Channel Z) (m : Ipc.Message Z) : res World :=
  ch ← Ipc.push_back ch side m;
  '(ch, parked) ← Ipc.take_waiter ch side;
  let w := put_channel w c ch in
  match parked with
  | None => Val w
  | Some task => s ← Sched.sched_wake_task (sched w) task; Val (set_sched w s)
  end.

(** ** The dispatcher *)

(** The profile latch: [set_cognitive_deny] stores it, [dispatch] reads it. *)
Definition is_cognitive_family (m : Z) : bool :=
  (m =? M_MEM_RECALL) || (m =? M_MEM_WRITE_PROC) || (m =? M_MODEL_INVOKE) || (m =? M_MODEL_INVOKE_BYTES).

Definition arg (a : SyscallArgs) (i : Z) : res Z := idx (args a) i.

(** The result of a dispatch: the world and the caller's table after it, and the reply. *)
Definition outcome : Type := res (World * HandleTable * SysReturn).
Definition done_with (w : World) (t : HandleTable) (r : SysReturn) : outcome := Val (w, t, r).

(** An operation on the substrate of object [o], with the status for a refusal. *)
Definition with_mem (w : World) (t : HandleTable) (o : Z) (x : Object) (f : Substrate -> res (Substrate * option Z))
    (refused : SysStatus) : outcome :=
  match mem x with
  | None => done_with w t (ret_err BadCap)
  | Some m =>
      '(m, r) ← f m;
      done_with (put_object w o (set_mem x m)) t (match r with Some v => ret_ok v | None => ret_err refused end)
  end.

Definition chan_send_arm (w : World) (t : HandleTable) (x : Object) (a : SyscallArgs) : outcome :=
  match chan x with
  | None => done_with w t (ret_err BadCap)
  | Some (c, side) =>
      ch ← deref (channels w) c;
      up ← Ipc.peer_open ch side;
      if negb up then done_with w t (ret_err PeerClosed) else
      ring ← Ipc.outbox ch side;
      if Ipc.r_cap ring <=? zlen (Ipc.q ring) then done_with w t (ret_err WouldBlock) else
      cap_raw ← arg a 1;
      '(parked, t) ← take_carried w t c cap_raw;
      match parked with
      | inr e => done_with w t (ret_err e)
      | inl parked =>
          payload ← arg a 0;
          w ← deliver w c side ch (Ipc.mkMsg payload None parked);
          done_with w t (ret_status Ok)
      end
  end.

Definition recall_arm (w : World) (t : HandleTable) (o : Z) (x : Object) (a : SyscallArgs) : outcome :=
  match mem x with
  | None => done_with w t (ret_err BadCap)
  | Some m =>
      a0 ← arg a 0; a1 ← arg a 1;
      '(m, rec) ← Organ.recall m a0 a1;
      let w := put_object w o (set_mem x m) in
      match rec with
      | None => done_with w t (ret_err BadCap)
      | Some id =>
          '(w, t, h) ← mint_record w t id;
          done_with w t (match h with Some h => ret_ok h | None => ret_err ObjFull end)
      end
  end.

Definition mem_read_arm (w : World) (t : HandleTable) (o : Z) (x : Object) (a : SyscallArgs) : outcome :=
  match kind x with
  | ObjKind.MemoryHome => a0 ← arg a 0; with_mem w t o x (fun m => Organ.read_touch m a0) BadCap
  | ObjKind.MemoryRecord => done_with w t (ret_ok (scalar x))
  | _ => done_with w t (ret_err BadCap)
  end.

Definition block_arm (w : World) (t : HandleTable) (x : Object) (f : Blocks.Block -> res (Blocks.Block * option Z))
    (refused : SysStatus) : outcome :=
  match block x with
  | None => done_with w t (ret_err BadCap)
  | Some b =>
      blk ← deref (blocks w) b;
      if Blocks.is_dead blk then done_with w t (ret_err Stale) else
      '(blk, r) ← f blk;
      done_with (put_block w b blk) t (match r with Some v => ret_ok v | None => ret_err refused end)
  end.

(** The methods whose body works on the object behind the handle. *)
Definition object_method (w : World) (t : HandleTable) (a : SyscallArgs) (o : Z) (x : Object) : outcome :=
  let m := method a in
  if m =? M_MEM_WRITE then
    a0 ← arg a 0; a1 ← arg a 1; a2 ← arg a 2; a3 ← arg a 3;
    with_mem w t o x (fun s => Organ.write s a0 a1 a2 a3) NoMem
  else if m =? M_MEM_WRITE_PROC then
    a0 ← arg a 0; a1 ← arg a 1; a2 ← arg a 2; a3 ← arg a 3;
    with_mem w t o x (fun s => Skills.write_proc s a0 a1 a2 a3) NoMem
  else if m =? M_MEM_READ then mem_read_arm w t o x a
  else if m =? M_MEM_RECALL then recall_arm w t o x a
  else if m =? M_MEM_CONSOLIDATE then
    a0 ← arg a 0; a1 ← arg a 1; a2 ← arg a 2; a3 ← arg a 3;
    with_mem w t o x (fun s => '(s, n) ← Consolidate.consolidate s a0 a1 a2 a3; Val (s, Some n)) BadCap
  else if m =? M_CHAN_SEND then chan_send_arm w t x a
  else if m =? M_CHAN_CLOSE then
    match chan x with
    | None => done_with w t (ret_err BadCap)
    | Some (c, side) =>
        ch ← deref (channels w) c;
        ch ← Ipc.close_side ch side;
        done_with (put_channel w c ch) t (ret_status Ok)
    end
  else if m =? M_BLOCK_WRITE then
    a0 ← arg a 0; a1 ← arg a 1; a2 ← arg a 2;
    block_arm w t x (fun b => Blocks.cas_write b a0 a1 a2) WouldBlock
  else if m =? M_BLOCK_READ then
    a0 ← arg a 0;
    block_arm w t x (fun b => Val (b, Blocks.read_latest b a0)) BadCap
  else (* M_MODEL_INVOKE *)
    match session x with
    | None => done_with w t (ret_err BadCap)
    | Some s => a0 ← arg a 0; done_with w t (ret_ok (Infer.token (Infer.invoke s a0)))
    end.

Definition is_object_method (m : Z) : bool :=
  (m =? M_MEM_WRITE) || (m =? M_MEM_WRITE_PROC) || (m =? M_MEM_READ) || (m =? M_MEM_RECALL) || (m =? M_MEM_CONSOLIDATE) ||
  (m =? M_CHAN_SEND) || (m =? M_CHAN_CLOSE) || (m =? M_BLOCK_WRITE) || (m =? M_BLOCK_READ) || (m =? M_MODEL_INVOKE).

(** The body behind the gate; [i] is the slot the handle resolved to. *)
Definition run_method (w : World) (t : HandleTable) (a : SyscallArgs) (i : Z) : outcome :=
  let m := method a in
  if m =? M_OBJECT_INSPECT then
    ob ← object_of w t i;
    done_with w t (ret_ok (match ob with Some (_, x) => ObjKind.tag (kind x) | None => 0 end))
  else if m =? M_HANDLE_DUP then
    '(h, t) ← dup t (handle a);
    done_with w t (match h with Some h => ret_ok h | None => ret_err ObjFull end)
  else if m =? M_HANDLE_NARROW then
    a0 ← arg a 0;
    '(h, t) ← narrow t (handle a) (wrap 32 a0);
    done_with w t (match h with Some h => ret_ok h | None => ret_err ObjFull end)
  else if (m =? M_HANDLE_REVOKE) || (m =? M_HANDLE_CLOSE) then
    '(s, t) ← revoke t (handle a);
    done_with w t (ret_status s)
  else if m =? M_CHAN_RECV then
    '(w, t, (s, _, moved)) ← chan_recv_body w t (handle a);
    done_with w t (match s with Ok => ret_ok moved | e => ret_err e end)
  else if is_object_method m then
    ob ← object_of w t i;
    match ob with
    | None => done_with w t (ret_err Stale)
    | Some (o, x) => object_method w t a o x
    end
  else done_with w t (ret_ok 0).

Definition dispatch (deny : bool) (w : World) (t : HandleTable) (a : SyscallArgs) : outcome :=
  if deny && is_cognitive_family (method a) then done_with w t (ret_err Denied) else
  match required_right (method a) with
  | None => done_with w t (ret_err BadMethod)
  | Some need =>
      match live t (handle a) with
      | inr e => done_with w t (ret_err e)
      | inl i =>
          r ← rights_at t i;
          if negb (Rights.contains r need) then done_with w t (ret_err Denied) else
          run_method w t a i
      end
  end.

(** ** Other bodies that ride a kernel facade *)

(** The byte-prompt invocation: (status, buffer, backend result). *)
Definition model_invoke_bytes (w : World) (t : HandleTable) (h : Z) (prompt resp_out : list Z)
    : res (SysStatus * list Z * option ((Z * Infer.StopReason) + Infer.InferError)) :=
  match live t h with
  | inr e => Val (e, resp_out, None)
  | inl i =>
      r ← rights_at t i;
      if negb (Rights.contains r Rights.INVOKE_MODEL) then Val (Denied, resp_out, None) else
      ob ← object_of w t i;
      match ob with
      | None => Val (Stale, resp_out, None)
      | Some (_, x) =>
          match session x with
          | None => Val (BadCap, resp_out, None)
          | Some s => '(out, r) ← Infer.invoke_bytes s prompt resp_out; Val (Ok, out, Some r)
          end
      end
  end.
