(* ===== verification/SyscallSpec.v ===== *)
(** * What a system call may do: well-formed worlds, confinement and authority.

    [dispatch] on a well-formed world never panics; it touches only the object behind the
    handle it was given, with that object's channel or block; and the authority in the system
    after it was there before. *)
From Stdlib Require Import ZArith Lia.
From stdpp Require Import base numbers option tactics sets list gmap.
From S2P Require Import Prelude Caps Abi Syscall.
From S2P Require Ipc Blocks Infer Sched Engine Prov Organ OrganSpec Consolidate ConsolidateSpec Skills.
Open Scope Z_scope.

#[export] Existing Instance Engine.RamStore_total.

(** ** Well-formed worlds *)

Definition organ_ok (m : Substrate) : Prop := exists L X K, OrganSpec.organ_inv m L X K.

Record object_ok (w : World) (x : Object) : Prop := {
  oo_mem : forall m, mem x = Some m -> organ_ok m;
  oo_chan : forall c s, chan x = Some (c, s) -> is_Some (channels w !! c) /\ Ipc.side_ok s;
  oo_block : forall b, block x = Some b -> is_Some (blocks w !! b);
}.

(** The capability a message carries names an object; a receiver is parked only on an empty
    queue. *)
Record chan_good (w : World) (ch : Ipc.Channel Z) : Prop := {
  cg_ok : Ipc.chan_ok ch;
  cg_caps : forall s m o r, Ipc.side_ok s -> m ∈ Ipc.queue_of ch s -> Ipc.msg_cap m = Some (o, r) ->
    is_Some (objects w !! o) /\ is_u32 r;
  cg_waiter : forall s, Ipc.side_ok s -> 0 <= Ipc.parked ch s;
  cg_parked : forall s, Ipc.side_ok s -> Ipc.parked ch s <> Ipc.NO_WAITER -> Ipc.queue_of ch s = [];
}.

(** The record plane is consistent; a block's pages are its frames, and every member mapped
    them below the end of the address space. *)
Record block_ok (blk : Blocks.Block) : Prop := {
  bk_inv : Blocks.block_inv blk;
  bk_seq : 0 <= Blocks.seq blk;
  bk_frames : zlen (Blocks.frames blk) = Blocks.n_pages blk;
  bk_members : forall root va wr i, (root, va, wr) ∈ Blocks.members blk -> 0 <= i < Blocks.n_pages blk -> is_u64 (va + i * 4096);
}.

Record world_ok (w : World) : Prop := {
  wo_objects : forall o x, objects w !! o = Some x -> o < next_id w /\ object_ok w x;
  wo_channels : forall c ch, channels w !! c = Some ch -> c < next_id w /\ chan_good w ch;
  wo_blocks : forall b blk, blocks w !! b = Some blk -> b < next_id w /\ block_ok blk;
  wo_sched : zlen (Sched.TASK_STATE (sched w)) = Sched.MAX_TASKS;
}.

Record table_ok (w : World) (t : HandleTable) : Prop := {
  to_wf : wf t;
  to_caps : forall h o r, is_u64 h -> cap_of t h = Some (o, r) -> is_Some (objects w !! o) /\ is_u32 r;
}.

(** Short of the 64-bit counters' ends: the organs' clocks and the blocks' versions. *)
Definition room (w : World) : Prop :=
  (forall o x m, objects w !! o = Some x -> mem x = Some m -> Organ.clock m + 2 < OrganSpec.CLOCK_MAX) /\
  (forall b blk, blocks w !! b = Some blk -> Blocks.seq blk + 1 < 2 ^ 64).

Definition args_ok (a : SyscallArgs) : Prop := is_u64 (handle a) /\ zlen (args a) = 4 /\ Forall is_u64 (args a).

(** ** What a call may change *)

Definition record_of (id : Z) : Object := mkObj ObjKind.MemoryRecord None id None None None.

(** The object keeps its identity; only its memory may change, if it has one. *)
Definition same_object (x y : Object) : Prop :=
  kind y = kind x /\ scalar y = scalar x /\ chan y = chan x /\ block y = block x /\ session y = session x /\
  (mem x = None -> mem y = None).

Record confined (w : World) (o : Z) (x : Object) (w' : World) : Prop := {
  cf_next : next_id w <= next_id w';
  cf_others : forall o', o' <> o -> o' < next_id w -> objects w' !! o' = objects w !! o';
  cf_self : exists y, objects w' !! o = Some y /\ same_object x y;
  cf_new : forall o' y, next_id w <= o' -> objects w' !! o' = Some y -> exists id, y = record_of id;
  cf_channels : forall c, (forall s, chan x <> Some (c, s)) -> channels w' !! c = channels w !! c;
  cf_blocks : forall b, block x <> Some b -> blocks w' !! b = blocks w !! b;
}.

(** A capability is held in the table, or in transit. *)
Definition in_transit (w : World) (o r : Z) : Prop :=
  exists c ch s m, channels w !! c = Some ch /\ Ipc.side_ok s /\ m ∈ Ipc.queue_of ch s /\ Ipc.msg_cap m = Some (o, r).
Definition held (w : World) (t : HandleTable) (o r : Z) : Prop :=
  (exists h, is_u64 h /\ cap_of t h = Some (o, r)) \/ in_transit w o r.

(** Every capability after is one before with at least its rights, or a fresh record to read. *)
Definition no_amplification (w : World) (t : HandleTable) (w' : World) (t' : HandleTable) : Prop :=
  forall o r, held w' t' o r ->
    (exists r0, held w t o r0 /\ Rights.is_subset_of r r0 = true) \/ (next_id w <= o /\ r = Rights.READ).

Record effect (w : World) (t : HandleTable) (o : Z) (x : Object) (w' : World) (t' : HandleTable) : Prop := {
  ef_world : world_ok w';
  ef_table : table_ok w' t';
  ef_evolves : evolves t t';
  ef_confined : confined w o x w';
  ef_authority : no_amplification w t w' t';
}.

(** ** Lemmas *)

Lemma same_object_refl x : same_object x x.
Proof. by repeat split. Qed.

Lemma confined_refl w o x : world_ok w -> objects w !! o = Some x -> confined w o x w.
Proof.
  intros Hw Hx. constructor; try done; [by exists x|]. intros o' y Hle Hy. apply (wo_objects w Hw) in Hy as [? _]. lia.
Qed.

Lemma no_amplification_refl w t : no_amplification w t w t.
Proof. intros o r Hh. left. exists r. split; [done | apply subset_refl]. Qed.

Lemma held_channels w w' t o r : channels w' = channels w -> held w' t o r -> held w t o r.
Proof. intros E [Hh|(c & ch & s & m & Hc & Hm)]; [by left | right]. exists c, ch, s, m. by rewrite <- E. Qed.

Lemma no_amplification_same w w' t : channels w' = channels w -> no_amplification w t w' t.
Proof. intros E o r Hh. eapply no_amplification_refl, held_channels; done. Qed.

Lemma effect_refl w t o x : world_ok w -> table_ok w t -> objects w !! o = Some x -> effect w t o x w t.
Proof.
  intros Hw Ht Hx. constructor; [done | done | apply evolves_refl, (to_wf w t Ht) | by apply confined_refl | apply no_amplification_refl].
Qed.

(** Objects only accumulate, so what was well formed stays so. *)
Definition grows (w w' : World) : Prop :=
  (forall o, is_Some (objects w !! o) -> is_Some (objects w' !! o)) /\
  (forall c, is_Some (channels w !! c) -> is_Some (channels w' !! c)) /\
  (forall b, is_Some (blocks w !! b) -> is_Some (blocks w' !! b)).

Lemma grows_refl w : grows w w.
Proof. by split_and!. Qed.

Lemma table_ok_grows w w' t : grows w w' -> table_ok w t -> table_ok w' t.
Proof. intros (Ho & _) [Hwf Hc]. split; [done|]. intros h o r Hh Hcap. destruct (Hc h o r Hh Hcap). auto. Qed.
Lemma object_ok_grows w w' x : grows w w' -> object_ok w x -> object_ok w' x.
Proof.
  intros (_ & Hc & Hb) [Hm Hch Hbl]. split; [done | | auto]. intros c s E. destruct (Hch c s E). auto.
Qed.
Lemma chan_good_grows w w' ch : grows w w' -> chan_good w ch -> chan_good w' ch.
Proof.
  intros (Ho & _) [? Hcaps ??]. split; try done. intros s m o r Hs Hin Hm. destruct (Hcaps s m o r Hs Hin Hm). auto.
Qed.

Lemma grows_put_object w o x : grows w (put_object w o x).
Proof.
  repeat split; cbn; try done. intros o' [y Hy]. rewrite lookup_insert_is_Some'. right. by exists y.
Qed.
Lemma grows_put_channel w c x : grows w (put_channel w c x).
Proof. repeat split; cbn; try done. intros c' [y Hy]. rewrite lookup_insert_is_Some'. right. by exists y. Qed.
Lemma grows_put_block w b x : grows w (put_block w b x).
Proof. repeat split; cbn; try done. intros c' [y Hy]. rewrite lookup_insert_is_Some'. right. by exists y. Qed.

Lemma confined_grows w o x w' : world_ok w -> confined w o x w' ->
  (forall c, is_Some (channels w !! c) -> is_Some (channels w' !! c)) ->
  (forall b, is_Some (blocks w !! b) -> is_Some (blocks w' !! b)) -> grows w w'.
Proof.
  intros Hw Hc Hch Hb. split; [|done]. intros o' [y Hy]. destruct (decide (o' = o)) as [->|Hne].
  - destruct (cf_self _ _ _ _ Hc) as (z & Hz & _). by exists z.
  - rewrite (cf_others _ _ _ _ Hc o' Hne); [by exists y | by destruct (wo_objects w Hw o' y Hy)].
Qed.

(** *** Replacing an object's memory, a channel, a block *)

Lemma put_mem_ok w o x m : world_ok w -> objects w !! o = Some x -> is_Some (mem x) -> organ_ok m -> world_ok (put_object w o (set_mem x m)).
Proof.
  intros Hw Hx Hs Hm. pose proof (grows_put_object w o (set_mem x m)) as Hg. destruct (wo_objects w Hw o x Hx) as [Hlt Hok]. constructor; cbn.
  - intros o' y. destruct (decide (o' = o)) as [->|Hne].
    + rewrite lookup_insert_eq. intros [= <-]. split; [done|]. destruct (object_ok_grows _ _ _ Hg Hok) as [_ Hch Hb].
      split; cbn; [by intros m' [= <-] | done | done].
    + rewrite lookup_insert_ne by done. intros Hy. destruct (wo_objects w Hw o' y Hy). split; [done | by eapply object_ok_grows].
  - intros c ch Hc. destruct (wo_channels w Hw c ch Hc). split; [done | by eapply chan_good_grows].
  - apply (wo_blocks w Hw).
  - apply (wo_sched w Hw).
Qed.

Lemma put_mem_effect w t o x m : world_ok w -> table_ok w t -> objects w !! o = Some x -> is_Some (mem x) -> organ_ok m ->
  effect w t o x (put_object w o (set_mem x m)) t.
Proof.
  intros Hw Ht Hx Hs Hm. constructor.
  - by apply put_mem_ok.
  - eapply table_ok_grows; [apply grows_put_object | done].
  - apply evolves_refl, (to_wf w t Ht).
  - constructor; cbn; try done.
    + intros o' Hne _. by apply lookup_insert_ne.
    + exists (set_mem x m). split; [by apply lookup_insert_eq|]. repeat split. destruct Hs as [m0 Hm0]. congruence.
    + intros o' y Hle Hy. destruct (wo_objects w Hw o x Hx). rewrite lookup_insert_ne in Hy by lia.
      apply (wo_objects w Hw) in Hy as [? _]. lia.
  - by apply no_amplification_same.
Qed.

Lemma put_channel_ok w c ch ch' : world_ok w -> channels w !! c = Some ch -> chan_good w ch' -> world_ok (put_channel w c ch').
Proof.
  intros Hw Hc Hg'. pose proof (grows_put_channel w c ch') as Hg. constructor; cbn.
  - intros o x Hx. destruct (wo_objects w Hw o x Hx). split; [done | by eapply object_ok_grows].
  - intros c' y. destruct (decide (c' = c)) as [->|Hne].
    + rewrite lookup_insert_eq. intros [= <-]. destruct (wo_channels w Hw c ch Hc). split; [done | by eapply chan_good_grows].
    + rewrite lookup_insert_ne by done. intros Hy. destruct (wo_channels w Hw c' y Hy). split; [done | by eapply chan_good_grows].
  - apply (wo_blocks w Hw).
  - apply (wo_sched w Hw).
Qed.

Lemma put_block_ok w b blk blk' : world_ok w -> blocks w !! b = Some blk -> block_ok blk' -> world_ok (put_block w b blk').
Proof.
  intros Hw Hb Hi. pose proof (grows_put_block w b blk') as Hg. constructor; cbn.
  - intros o x Hx. destruct (wo_objects w Hw o x Hx). split; [done | by eapply object_ok_grows].
  - intros c ch Hc. destruct (wo_channels w Hw c ch Hc). split; [done | by eapply chan_good_grows].
  - intros b' y. destruct (decide (b' = b)) as [->|Hne].
    + rewrite lookup_insert_eq. intros [= <-]. destruct (wo_blocks w Hw b blk Hb). by split.
    + rewrite lookup_insert_ne by done. apply (wo_blocks w Hw).
  - apply (wo_sched w Hw).
Qed.

(** A change of the target's channel or block alone, with the table. *)
Lemma channel_confined w o x c s ch' : world_ok w -> objects w !! o = Some x -> chan x = Some (c, s) -> confined w o x (put_channel w c ch').
Proof.
  intros Hw Hx Hc. destruct (confined_refl w o x Hw Hx). constructor; try done. intros c' Hne. cbn. apply lookup_insert_ne. intros <-. by apply (Hne s).
Qed.
Lemma block_confined w o x b blk' : world_ok w -> objects w !! o = Some x -> block x = Some b -> confined w o x (put_block w b blk').
Proof.
  intros Hw Hx Hb. destruct (confined_refl w o x Hw Hx). constructor; try done. intros b' Hne. cbn. apply lookup_insert_ne. congruence.
Qed.

(** *** What happens to a table *)

(** A handle never issued before now names [o] with rights [r]; nothing else changed. *)
Definition installs (t : HandleTable) (o r : Z) (t' : HandleTable) (h : Z) : Prop :=
  evolves t t' /\ is_u64 h /\ h <> Handle.NULL /\ ~ spent t h /\ cap_of t h = None /\
  forall h', is_u64 h' -> cap_of t' h' = if decide (h' = h) then Some (o, r) else cap_of t h'.

(** The handle is spent; nothing else changed. *)
Definition gives_up (t : HandleTable) (h : Z) (t' : HandleTable) : Prop :=
  evolves t t' /\ spent t' h /\ forall h', is_u64 h' -> cap_of t' h' = if decide (h' = h) then None else cap_of t h'.

Lemma alloc_installs (t : HandleTable) r o : wf t ->
  (full t /\ alloc t r o = Val (None, t)) \/ (~ full t /\ exists h t', alloc t r o = Val (Some h, t') /\ installs t o r t' h).
Proof.
  intros Hwf. destruct (alloc_evolves t r o Hwf) as ([h|] & t' & E & Hev & Hret).
  - right. destruct Hret as (Hnf & ? & ? & ? & ? & ?). split; [done|]. exists h, t'. by split_and!.
  - left. destruct Hret as [? ->]. by split.
Qed.

Lemma detach_gives_up (t : HandleTable) h o r : wf t -> is_u64 h -> cap_of t h = Some (o, r) ->
  exists t', detach t h = Val (inl (o, r), t') /\ gives_up t h t'.
Proof.
  intros Hwf Hh Hc. destruct (free_evolves t h o r Hwf Hh Hc) as (t' & E & Hev & Hsp & Hmap).
  destruct (rights_object_at t h o r Hc) as (Hl & Hr & Ho). exists t'. split; [|by split_and!].
  unfold detach. by rewrite Hl, Hr, bind_val, Ho, bind_val, E, bind_val.
Qed.

Lemma revoke_gives_up (t : HandleTable) h o r : wf t -> is_u64 h -> cap_of t h = Some (o, r) ->
  exists t', revoke t h = Val (Ok, t') /\ gives_up t h t'.
Proof.
  intros Hwf Hh Hc. destruct (free_evolves t h o r Hwf Hh Hc) as (t' & E & Hev & Hsp & Hmap).
  destruct (rights_object_at t h o r Hc) as (Hl & _ & _). exists t'. split; [|by split_and!]. unfold revoke. by rewrite Hl, E, bind_val.
Qed.

Lemma installs_table_ok w t o r t' h : table_ok w t -> is_Some (objects w !! o) -> is_u32 r -> installs t o r t' h -> table_ok w t'.
Proof.
  intros Ht Ho Hr (Hev & Hh & _ & _ & _ & Hmap). split; [apply (ev_wf t t' Hev)|]. intros h' o' r' Hh' Hc. rewrite Hmap in Hc by done.
  case_decide; [by injection Hc as <- <- | by apply (to_caps w t Ht h')].
Qed.
Lemma gives_up_table_ok w t h t' : table_ok w t -> gives_up t h t' -> table_ok w t'.
Proof.
  intros Ht (Hev & _ & Hmap). split; [apply (ev_wf t t' Hev)|]. intros h' o' r' Hh' Hc. rewrite Hmap in Hc by done.
  case_decide; [done | by apply (to_caps w t Ht h')].
Qed.

(** *** Minting *)

Definition minted (w : World) (t : HandleTable) (r : Z) (x : Object) (w' : World) (t' : HandleTable) (h : Z) : Prop :=
  w' = put_object (snd (fresh w)) (next_id w) x /\ installs t (next_id w) r t' h.

Lemma mint_object_spec w t r x : world_ok w -> table_ok w t -> object_ok w x -> is_u32 r ->
  runs (mint_object w t r x) (fun '(w', t', h) => world_ok w' /\ table_ok w' t' /\ grows w w' /\
    match h with None => full t /\ w' = w /\ t' = t | Some h => minted w t r x w' t' h end).
Proof.
  intros Hw Ht Hx Hr. unfold mint_object. cbn [fresh].
  destruct (alloc_installs t r (next_id w) (to_wf w t Ht)) as [[Hf ->]|(_ & h & t' & -> & Hin)]; rewrite bind_val; apply runs_val.
  { do 2 (split; [done|]). split; [apply grows_refl | done]. }
  set (w' := put_object _ _ _).
  assert (objects w !! next_id w = None) as Hnone.
  { destruct (objects w !! next_id w) as [y|] eqn:E; [|done]. destruct (wo_objects w Hw _ _ E). lia. }
  assert (grows w w') as Hg.
  { repeat split; cbn; try done. intros o' [y Hy]. rewrite lookup_insert_is_Some'. right. by exists y. }
  split; [constructor; cbn|split; [|by split]].
  - intros o' y. destruct (decide (o' = next_id w)) as [->|Hne].
    + rewrite lookup_insert_eq. intros [= <-]. split; [lia | by eapply object_ok_grows].
    + rewrite lookup_insert_ne by done. intros Hy. destruct (wo_objects w Hw o' y Hy). split; [lia | by eapply object_ok_grows].
  - intros c ch Hc. destruct (wo_channels w Hw c ch Hc). split; [lia | by eapply chan_good_grows].
  - intros b blk Hb. destruct (wo_blocks w Hw b blk Hb). split; [lia | done].
  - apply (wo_sched w Hw).
  - eapply installs_table_ok; [by eapply table_ok_grows | | done | done]. cbn. rewrite lookup_insert_eq. by eexists.
Qed.

Lemma mint_record_effect w t o x w1 t1 id : world_ok w -> effect w t o x w1 t1 ->
  runs (mint_record w1 t1 id) (fun '(w2, t2, _) => effect w t o x w2 t2).
Proof.
  intros Hw [Hw1 Ht1 Hev Hcf Hau]. unfold mint_record.
  eapply runs_mono; [apply (mint_object_spec w1 t1 Rights.READ (record_of id)); [done | done | by split | by vm_compute]|].
  intros [[w2 t2] [h|]] (Hw2 & Ht2 & _ & Hm).
  2: { destruct Hm as (_ & -> & ->). by constructor. }
  destruct Hm as (-> & Hev2 & Hh & _ & _ & _ & Hmap). constructor; [done | done | by eapply evolves_trans | |].
  - destruct Hcf as [Hn Ho Hs Hnew Hc Hb]. constructor; cbn.
    + lia.
    + intros o' Hne Hlt. rewrite lookup_insert_ne by lia. by apply Ho.
    + destruct Hs as (y & Hy & Hsame). exists y. split; [|done]. rewrite lookup_insert_ne; [done|]. intros <-.
      destruct (wo_objects w1 Hw1 _ _ Hy). lia.
    + intros o' y Hle. destruct (decide (o' = next_id w1)) as [->|Hne].
      * rewrite lookup_insert_eq. intros [= <-]. by exists id.
      * rewrite lookup_insert_ne by done. by apply Hnew.
    + exact Hc.
    + exact Hb.
  - intros o' r [(h' & Hh' & Hc)|Ht].
    + rewrite Hmap in Hc by done. case_decide.
      * injection Hc as <- <-. right. split; [apply (cf_next _ _ _ _ Hcf) | done].
      * apply Hau. left. by exists h'.
    + apply Hau. by right.
Qed.

(** *** Resolving *)

Lemma object_of_cap w t h o r : table_ok w t -> is_u64 h -> cap_of t h = Some (o, r) ->
  exists x, objects w !! o = Some x /\ live t h = inl (Handle.slot h) /\ rights_at t (Handle.slot h) = Val r /\
    object_of w t (Handle.slot h) = Val (Some (o, x)).
Proof.
  intros Ht Hh Hc. destruct (rights_object_at t h o r Hc) as (Hl & Hr & Ho). destruct (to_caps w t Ht h o r Hh Hc) as [[x Hx] _].
  exists x. do 3 (split; [done|]). unfold object_of, deref. by rewrite Ho, bind_val, Hx.
Qed.

Lemma arg_ok a i : args_ok a -> 0 <= i < 4 -> exists v, arg a i = Val v /\ is_u64 v.
Proof. intros (_ & Hl & Hf) Hi. destruct (idx_runs (args a) i is_u64) as (v & Hv & Hu); [lia | done | by exists v]. Qed.

(** *** Channels *)

Lemma put_channel_id w c ch : channels w !! c = Some ch -> put_channel w c ch = w.
Proof. intros E. unfold put_channel, set_channels. rewrite insert_id by done. by destruct w. Qed.
Lemma put_block_id w b blk : blocks w !! b = Some blk -> put_block w b blk = w.
Proof. intros E. unfold put_block, set_blocks. rewrite insert_id by done. by destruct w. Qed.

Definition woken (s : Sched.Sched) (task : Z) : Sched.Sched :=
  if task <? Sched.MAX_TASKS then Sched.set_state s (<[Z.to_nat task := Sched.TASK_RUNNABLE]> (Sched.TASK_STATE s)) else s.
Lemma sched_wake_eq s task : zlen (Sched.TASK_STATE s) = Sched.MAX_TASKS -> 0 <= task -> Sched.sched_wake_task s task = Val (woken s task).
Proof.
  intros Hl Ht. unfold Sched.sched_wake_task, woken. destruct (Z.ltb_spec task Sched.MAX_TASKS); [|done]. by rewrite upd_ok by lia.
Qed.

(** The queue has the message at its end, and its parked receiver is runnable. *)
Definition enqueued (ch : Ipc.Channel Z) (s : Z) (m : Ipc.Message Z) : Ipc.Channel Z :=
  Ipc.with_waiter (Ipc.with_queue ch s (Ipc.queue_of ch s ++ [m])) s Ipc.NO_WAITER.
Definition delivered (w : World) (c s : Z) (ch : Ipc.Channel Z) (m : Ipc.Message Z) : World :=
  mkWorld (objects w) (<[c := enqueued ch s m]> (channels w)) (blocks w) (next_id w)
    (if Ipc.parked ch s =? Ipc.NO_WAITER then sched w else woken (sched w) (Ipc.parked ch s)).

Lemma parked_with_queue ch s s' l : Ipc.parked (Ipc.with_queue (O := Z) ch s l) s' = Ipc.parked ch s'.
Proof. done. Qed.

Lemma deliver_eq w c s ch m : world_ok w -> channels w !! c = Some ch -> Ipc.side_ok s -> deliver w c s ch m = Val (delivered w c s ch m).
Proof.
  intros Hw Hc Hs. destruct (wo_channels w Hw c ch Hc) as (_ & [Hok _ Hwt _]). unfold deliver.
  rewrite Ipc.push_back_eq, bind_val by done. rewrite Ipc.take_waiter_eq, bind_val by (done || by apply Ipc.with_queue_ok).
  rewrite parked_with_queue. unfold delivered. fold (enqueued ch s m). destruct (_ =? _); [done|].
  cbn [sched put_channel set_channels]. by rewrite sched_wake_eq by (apply (wo_sched w Hw) || by apply Hwt).
Qed.

Lemma queue_of_with_waiter ch s s' t : Ipc.queue_of (Ipc.with_waiter (O := Z) ch s t) s' = Ipc.queue_of ch s'.
Proof. done. Qed.

Lemma queue_of_enqueued ch s s' m : Ipc.chan_ok ch -> Ipc.side_ok s -> Ipc.side_ok s' ->
  Ipc.queue_of (enqueued ch s m) s' = if decide (s' = s) then Ipc.queue_of ch s ++ [m] else Ipc.queue_of ch s'.
Proof. intros H Hs Hs'. unfold enqueued. by rewrite queue_of_with_waiter, Ipc.queue_of_with_queue. Qed.
Lemma parked_enqueued ch s s' m : Ipc.chan_ok ch -> Ipc.side_ok s -> Ipc.side_ok s' ->
  Ipc.parked (enqueued ch s m) s' = if decide (s' = s) then Ipc.NO_WAITER else Ipc.parked ch s'.
Proof. intros H Hs Hs'. unfold enqueued. by rewrite Ipc.parked_with_waiter by (done || by apply Ipc.with_queue_ok). Qed.

Lemma enqueued_good w ch s m : chan_good w ch -> Ipc.side_ok s ->
  (forall o r, Ipc.msg_cap m = Some (o, r) -> is_Some (objects w !! o) /\ is_u32 r) -> chan_good w (enqueued ch s m).
Proof.
  intros [Hok Hcaps Hwt Hp] Hs Hm. split.
  - by apply Ipc.with_waiter_ok, Ipc.with_queue_ok.
  - intros s' m' o r Hs' Hin Hmc. rewrite queue_of_enqueued in Hin by done. case_decide; [|by apply (Hcaps s' m')].
    apply elem_of_app in Hin as [Hin|Hin]; [by apply (Hcaps s m')|]. apply list_elem_of_singleton in Hin as ->. by apply Hm.
  - intros s' Hs'. rewrite parked_enqueued by done. case_decide; [by vm_compute | by apply Hwt].
  - intros s' Hs' Hne. rewrite parked_enqueued in Hne by done. rewrite queue_of_enqueued by done. case_decide; [done | by apply Hp].
Qed.

Lemma popped_good w ch s m tl : chan_good w ch -> Ipc.side_ok s -> Ipc.queue_of ch s = m :: tl -> chan_good w (Ipc.with_queue ch s tl).
Proof.
  intros [Hok Hcaps Hwt Hp] Hs Hq. split.
  - by apply Ipc.with_queue_ok.
  - intros s' m' o r Hs' Hin Hmc. rewrite Ipc.queue_of_with_queue in Hin by done. case_decide; [|by apply (Hcaps s' m')].
    apply (Hcaps s m'); [done | rewrite Hq; by right | done].
  - exact Hwt.
  - intros s' Hs' Hne. rewrite parked_with_queue in Hne. rewrite Ipc.queue_of_with_queue by done.
    case_decide as E; [subst s'; rewrite (Hp s) in Hq by done; done | by apply Hp].
Qed.

Lemma closed_good w ch s : chan_good w ch -> chan_good w (Ipc.with_closed ch s).
Proof. intros [Hok Hcaps Hwt Hp]. split; [by apply Ipc.with_closed_ok | exact Hcaps | exact Hwt | exact Hp]. Qed.

Lemma delivered_ok w c s ch m : world_ok w -> channels w !! c = Some ch -> Ipc.side_ok s ->
  (forall o r, Ipc.msg_cap m = Some (o, r) -> is_Some (objects w !! o) /\ is_u32 r) -> world_ok (delivered w c s ch m).
Proof.
  intros Hw Hc Hs Hm. destruct (wo_channels w Hw c ch Hc) as [_ Hg].
  destruct (put_channel_ok w c ch _ Hw Hc (enqueued_good w ch s m Hg Hs Hm)) as [Ho Hch Hb Hsch]. constructor; [| | exact Hb |].
  - intros o x Hx. destruct (Ho o x Hx) as [? [? ? ?]]. split; [done | by split].
  - intros c' ch' Hc'. destruct (Hch c' ch' Hc') as [? [? ? ? ?]]. split; [done | by split].
  - cbn. destruct (_ =? _); [exact Hsch|]. unfold woken. destruct (_ <? _); [|exact Hsch]. cbn. by rewrite zlen_insert.
Qed.

(** What the carried capability of a send comes to: nothing, a refusal, or the object and rights
    that will travel. *)
Definition dead_status (t : HandleTable) (h : Z) : SysStatus := if decide (Handle.slot h < zlen (slots t)) then Stale else BadCap.
Definition on_channel (w : World) (o c : Z) : bool :=
  match objects w !! o with Some x => match chan x with Some (c', _) => c' =? c | None => false end | None => false end.
Definition carried (w : World) (t : HandleTable) (c cap_raw : Z) : option (Z * Z) + SysStatus :=
  if cap_raw =? 0 then inl None else
  match cap_of t cap_raw with
  | None => inr (dead_status t cap_raw)
  | Some (o, r) =>
      if negb (Rights.contains r Rights.TRANSFER) then inr Denied else
      if on_channel w o c then inr Denied else inl (Some (o, r))
  end.

(** The sender's table after a send. *)
Definition surrenders (t : HandleTable) (cap_raw : Z) (p : option (Z * Z)) (t' : HandleTable) : Prop :=
  match p with None => t' = t | Some _ => gives_up t cap_raw t' end.

Lemma take_carried_spec w t c cap_raw : table_ok w t -> is_u64 cap_raw ->
  exists t', take_carried w t c cap_raw = Val (carried w t c cap_raw, t') /\
    match carried w t c cap_raw with inl p => surrenders t cap_raw p t' | inr _ => t' = t end.
Proof.
  intros Ht Hu. unfold take_carried, carried. destruct (cap_raw =? 0); [by exists t|].
  pose proof (live_cap_of t cap_raw) as Hl. destruct (cap_of t cap_raw) as [[o r]|] eqn:Hc.
  2: { rewrite Hl. by exists t. }
  destruct (object_of_cap w t cap_raw o r Ht Hu Hc) as (x & Hx & -> & -> & Hob). rewrite bind_val.
  destruct (negb (Rights.contains r Rights.TRANSFER)); [by exists t|]. rewrite Hob, bind_val. unfold on_channel. rewrite Hx.
  destruct (match chan x with Some (c', _) => c' =? c | None => false end); [by exists t|].
  destruct (detach_gives_up t cap_raw o r (to_wf w t Ht) Hu Hc) as (t' & -> & Hg). rewrite bind_val. by exists t'.
Qed.

Lemma carried_ok w t c cap_raw o r : table_ok w t -> is_u64 cap_raw -> carried w t c cap_raw = inl (Some (o, r)) ->
  cap_of t cap_raw = Some (o, r) /\ Rights.contains r Rights.TRANSFER = true /\ on_channel w o c = false.
Proof.
  intros Ht Hu. unfold carried. destruct (cap_raw =? 0); [done|]. destruct (cap_of t cap_raw) as [[o' r']|]; [|done].
  destruct (Rights.contains r' Rights.TRANSFER) eqn:Er; [|done]. destruct (on_channel w o' c) eqn:Eo; [done|]. intros [= -> ->]. by split_and!.
Qed.

Lemma send_spec w t x a c s ch a0 a1 : world_ok w -> table_ok w t -> Ipc.side_ok s -> chan x = Some (c, s) -> channels w !! c = Some ch ->
  arg a 0 = Val a0 -> arg a 1 = Val a1 -> is_u64 a1 ->
  if negb (Ipc.is_open ch (1 - s)) then chan_send_arm w t x a = Val (w, t, ret_err PeerClosed)
  else if Ipc.cap_of_ring ch s <=? zlen (Ipc.queue_of ch s) then chan_send_arm w t x a = Val (w, t, ret_err WouldBlock)
  else match carried w t c a1 with
       | inr e => chan_send_arm w t x a = Val (w, t, ret_err e)
       | inl p => exists t', surrenders t a1 p t' /\
           chan_send_arm w t x a = Val (delivered w c s ch (Ipc.mkMsg a0 None p), t', ret_ok 0)
       end.
Proof.
  intros Hw Ht Hs Hx Hc H0 H1 Hu. destruct (wo_channels w Hw c ch Hc) as (_ & Hg). pose proof (cg_ok w ch Hg) as Hok.
  unfold chan_send_arm, deref. rewrite Hx, Hc, bind_val, Ipc.peer_open_eq, bind_val by done.
  destruct (Ipc.is_open ch (1 - s)); [|done]. cbn [negb]. rewrite Ipc.outbox_eq, bind_val by done. cbn [Ipc.r_cap Ipc.q].
  destruct (_ <=? _); [done|]. rewrite H1, bind_val. destruct (take_carried_spec w t c a1 Ht Hu) as (t' & -> & Hc').
  rewrite bind_val. destruct (carried w t c a1) as [p|e].
  - exists t'. split; [done|]. rewrite H0, bind_val, deliver_eq by done. done.
  - by rewrite Hc'.
Qed.

(** What a receive answers and does. *)
Definition recv_result (w : World) (t : HandleTable) (c s : Z) (ch : Ipc.Channel Z) (out : res (World * HandleTable * (SysStatus * Z * Z))) : Prop :=
  match Ipc.queue_of ch (1 - s) with
  | [] => out = Val (w, t, (if Ipc.is_open ch (1 - s) then WouldBlock else PeerClosed, 0, 0))
  | m :: tl =>
      let w' := put_channel w c (Ipc.with_queue ch (1 - s) tl) in
      match Ipc.msg_cap m with
      | None => out = Val (w', t, (Ok, Ipc.payload m, 0))
      | Some (o, r) =>
          (full t /\ out = Val (w', t, (ObjFull, Ipc.payload m, 0))) \/
          (~ full t /\ exists h t', installs t o r t' h /\ out = Val (w', t', (Ok, Ipc.payload m, h)))
      end
  end.

Lemma recv_spec w t h o r x c s ch : world_ok w -> table_ok w t -> is_u64 h -> cap_of t h = Some (o, r) -> objects w !! o = Some x ->
  chan x = Some (c, s) -> channels w !! c = Some ch -> recv_result w t c s ch (chan_recv_body w t h).
Proof.
  intros Hw Ht Hh Hcap Hx Hch Hc. destruct (wo_objects w Hw o x Hx) as [_ Hox]. destruct (oo_chan w x Hox c s Hch) as [_ Hs].
  destruct (wo_channels w Hw c ch Hc) as (_ & Hg). pose proof (cg_ok w ch Hg) as Hok.
  destruct (object_of_cap w t h o r Ht Hh Hcap) as (x' & Hx' & Hl & _ & Hob). rewrite Hx in Hx'. injection Hx' as <-.
  unfold chan_recv_body, recv_result. rewrite Hl, Hob, bind_val, Hch. unfold deref. rewrite Hc, bind_val, Ipc.pop_front_eq, bind_val by done.
  destruct (Ipc.queue_of ch (1 - s)) as [|m tl].
  { rewrite Ipc.peer_open_eq, bind_val, put_channel_id by done. by destruct (Ipc.is_open _ _). }
  cbv zeta. destruct (Ipc.msg_cap m) as [[o' r']|]; [|done]. unfold attach. cbn [fst snd].
  destruct (alloc_installs t r' o' (to_wf w t Ht)) as [[Hf ->]|(Hnf & h' & t' & -> & Hin)]; rewrite bind_val; [by left | right].
  split; [done|]. by exists h', t'.
Qed.

(** *** Effects of the bodies *)

Lemma effect_grows w t o x w' t' : world_ok w -> effect w t o x w' t' -> grows w w'.
Proof.
  intros Hw [Hw' _ _ Hcf _]. destruct (cf_self _ _ _ _ Hcf) as (y & Hy & _ & _ & Ech & Ebl & _).
  destruct (wo_objects w' Hw' o y Hy) as [_ Hoy]. apply (confined_grows w o x w' Hw Hcf).
  - intros c Hc. destruct (chan x) as [[c' s]|] eqn:Hch; [destruct (decide (c' = c)) as [->|Hne]|].
    + by apply (oo_chan w' y Hoy c s); rewrite Ech.
    + rewrite (cf_channels _ _ _ _ Hcf c); [done|]. intros s'. rewrite Hch. congruence.
    + rewrite (cf_channels _ _ _ _ Hcf c); [done|]. intros s'. by rewrite Hch.
  - intros b Hb. destruct (decide (block x = Some b)) as [E|Hne].
    + apply (oo_block w' y Hoy b). by rewrite Ebl.
    + by rewrite (cf_blocks _ _ _ _ Hcf b Hne).
Qed.

Definition has_effect (w : World) (t : HandleTable) (o : Z) (x : Object) (out : outcome) : Prop :=
  runs out (fun '(w', t', _) => effect w t o x w' t').

Lemma has_effect_same w t o x r : world_ok w -> table_ok w t -> objects w !! o = Some x -> has_effect w t o x (done_with w t r).
Proof. intros. apply runs_val. by apply effect_refl. Qed.

Lemma held_enqueued w t t' c s ch m o r : channels w !! c = Some ch -> Ipc.chan_ok ch -> Ipc.side_ok s ->
  (forall h, is_u64 h -> cap_of t' h = Some (o, r) -> cap_of t h = Some (o, r)) ->
  held (delivered w c s ch m) t' o r -> held w t o r \/ Ipc.msg_cap m = Some (o, r).
Proof.
  intros Hc Hok Hs Ht [(h & Hh & Hcap)|(c' & ch' & s' & m' & Hc' & Hs' & Hin & Hm')]; [left; left; by exists h; auto|].
  cbn in Hc'. destruct (decide (c' = c)) as [->|Hne].
  - rewrite lookup_insert_eq in Hc'. injection Hc' as <-. rewrite queue_of_enqueued in Hin by done.
    assert (m' ∈ Ipc.queue_of ch s' \/ m' = m) as [Hin' | ->]; [|left; right; by exists c, ch, s', m' | by right].
    case_decide as E; [subst s'|by left]. by apply elem_of_app in Hin as [?|?%list_elem_of_singleton]; [left | right].
  - rewrite lookup_insert_ne in Hc' by done. left. right. by exists c', ch', s', m'.
Qed.

(** A send through [x] of a message that carries what the table gave up. *)
Lemma delivered_effect w t o x c s ch cap_raw m t' : world_ok w -> table_ok w t -> objects w !! o = Some x -> chan x = Some (c, s) ->
  channels w !! c = Some ch -> is_u64 cap_raw -> carried w t c cap_raw = inl (Ipc.msg_cap m) -> surrenders t cap_raw (Ipc.msg_cap m) t' ->
  effect w t o x (delivered w c s ch m) t'.
Proof.
  intros Hw Ht Hx Hch Hc Hu Ec Hsur. destruct (wo_objects w Hw o x Hx) as [_ Hox]. destruct (oo_chan w x Hox c s Hch) as [_ Hs].
  destruct (wo_channels w Hw c ch Hc) as (_ & Hg). pose proof (cg_ok w ch Hg) as Hok.
  assert (forall o' r', Ipc.msg_cap m = Some (o', r') -> cap_of t cap_raw = Some (o', r')) as Hm.
  { intros o' r' E. rewrite E in Ec. by apply (carried_ok w t c cap_raw) in Ec as (? & _). }
  assert (evolves t t' /\ forall h o' r', is_u64 h -> cap_of t' h = Some (o', r') -> cap_of t h = Some (o', r')) as [Hev Hsub].
  { destruct (Ipc.msg_cap m); cbn in Hsur; [|subst t'; split; [apply evolves_refl, (to_wf w t Ht) | done]].
    destruct Hsur as (Hev & _ & Hmap). split; [done|]. intros h o' r' Hh. rewrite Hmap by done. by case_decide. }
  constructor.
  - apply delivered_ok; [done.. |]. intros o' r' E. apply (to_caps w t Ht cap_raw); auto.
  - split; [apply (ev_wf t t' Hev)|]. intros h o' r' Hh Hc'. apply (to_caps w t Ht h); auto.
  - done.
  - destruct (channel_confined w o x c s (enqueued ch s m) Hw Hx Hch). by constructor.
  - intros o' r' Hh. left. exists r'. split; [|apply subset_refl].
    destruct (held_enqueued w t t' c s ch m o' r' Hc Hok Hs ltac:(eauto) Hh) as [|Hmc]; [done | left; exists cap_raw; auto].
Qed.

Lemma send_effect w t o x a : world_ok w -> table_ok w t -> objects w !! o = Some x -> args_ok a -> has_effect w t o x (chan_send_arm w t x a).
Proof.
  intros Hw Ht Hx Ha. destruct (chan x) as [[c s]|] eqn:Hch; [|unfold chan_send_arm; rewrite Hch; by apply has_effect_same].
  destruct (wo_objects w Hw o x Hx) as [_ Hox]. destruct (oo_chan w x Hox c s Hch) as [[ch Hc] Hs].
  destruct (arg_ok a 0 Ha ltac:(lia)) as (a0 & H0 & _). destruct (arg_ok a 1 Ha ltac:(lia)) as (a1 & H1 & Hu).
  pose proof (send_spec w t x a c s ch a0 a1 Hw Ht Hs Hch Hc H0 H1 Hu) as Hspec.
  destruct (negb _); [rewrite Hspec; by apply has_effect_same|]. destruct (_ <=? _); [rewrite Hspec; by apply has_effect_same|].
  destruct (carried w t c a1) as [p|e] eqn:Ec; [|rewrite Hspec; by apply has_effect_same].
  destruct Hspec as (t' & Hsur & ->). apply runs_val. by apply (delivered_effect w t o x c s ch a1).
Qed.

Lemma held_popped w c s ch m tl o r : channels w !! c = Some ch -> Ipc.chan_ok ch -> Ipc.side_ok s -> Ipc.queue_of ch s = m :: tl ->
  in_transit (put_channel w c (Ipc.with_queue ch s tl)) o r -> in_transit w o r.
Proof.
  intros Hc Hok Hs Hq (c' & ch' & s' & m' & Hc' & Hs' & Hin & Hm'). cbn in Hc'. destruct (decide (c' = c)) as [->|Hne].
  - rewrite lookup_insert_eq in Hc'. injection Hc' as <-. exists c, ch, s', m'. split; [done|]. split; [done|]. split; [|done].
    rewrite Ipc.queue_of_with_queue in Hin by done. case_decide; [subst s'; rewrite Hq; by right | done].
  - rewrite lookup_insert_ne in Hc' by done. by exists c', ch', s', m'.
Qed.

(** The table after the head of a queue was taken: what it carried is installed, unless the
    table is full. *)
Definition took (t : HandleTable) (p : option (Z * Z)) (t' : HandleTable) : Prop :=
  t' = t \/ exists o r h, p = Some (o, r) /\ installs t o r t' h.

Lemma popped_effect w t o x c s ch m tl t' : world_ok w -> table_ok w t -> objects w !! o = Some x -> chan x = Some (c, s) ->
  channels w !! c = Some ch -> Ipc.queue_of ch (1 - s) = m :: tl -> took t (Ipc.msg_cap m) t' ->
  effect w t o x (put_channel w c (Ipc.with_queue ch (1 - s) tl)) t'.
Proof.
  intros Hw Ht Hx Hch Hc Hq Htook. destruct (wo_objects w Hw o x Hx) as [_ Hox]. destruct (oo_chan w x Hox c s Hch) as [_ Hs].
  destruct (wo_channels w Hw c ch Hc) as (_ & Hg). pose proof (cg_ok w ch Hg) as Hok. pose proof (Ipc.side_flip s Hs) as Hs1.
  set (w' := put_channel w c _).
  assert (world_ok w') as Hw' by (eapply put_channel_ok; [done | exact Hc | by eapply popped_good]).
  assert (table_ok w' t) as Ht' by (eapply table_ok_grows; [apply grows_put_channel | done]).
  assert (confined w o x w') as Hcf by (by eapply channel_confined).
  assert (forall o' r', in_transit w' o' r' -> in_transit w o' r') as Htr by (intros o' r'; by eapply held_popped).
  destruct Htook as [->|(o' & r' & hn & Hm & Hin)].
  { constructor; [done | done | apply evolves_refl, (to_wf w t Ht) | done |]. intros o' r' Hheld. left. exists r'. split; [|apply subset_refl].
    destruct Hheld; [by left | right; auto]. }
  assert (in_transit w o' r') as Hheld by (exists c, ch, (1 - s), m; split_and!; try done; rewrite Hq; by left).
  destruct (cg_caps w ch Hg (1 - s) m o' r' Hs1 ltac:(rewrite Hq; by left) Hm) as [Ho' Hr'].
  constructor; [done | by eapply installs_table_ok; [done | by apply (grows_put_channel w) | done | done] | apply Hin | done |].
  intros o2 r2 [(h2 & Hh2 & Hc2)|Ht2]; left; exists r2; (split; [|apply subset_refl]); [|right; by apply Htr].
  destruct Hin as (_ & _ & _ & _ & _ & Hmap). rewrite Hmap in Hc2 by done. case_decide; [injection Hc2 as <- <-; by right | left; by exists h2].
Qed.

Lemma recv_effect w t h o r x : world_ok w -> table_ok w t -> is_u64 h -> cap_of t h = Some (o, r) -> objects w !! o = Some x ->
  runs (chan_recv_body w t h) (fun '(w', t', _) => effect w t o x w' t').
Proof.
  intros Hw Ht Hh Hcap Hx. destruct (chan x) as [[c s]|] eqn:Hch.
  2: { destruct (object_of_cap w t h o r Ht Hh Hcap) as (x' & Hx' & Hl & _ & Hob). rewrite Hx in Hx'. injection Hx' as <-.
       unfold chan_recv_body. rewrite Hl, Hob, bind_val, Hch. apply runs_val. by apply effect_refl. }
  destruct (wo_objects w Hw o x Hx) as [_ Hox]. destruct (oo_chan w x Hox c s Hch) as [[ch Hc] Hs].
  pose proof (recv_spec w t h o r x c s ch Hw Ht Hh Hcap Hx Hch Hc) as Hspec. unfold recv_result in Hspec.
  destruct (Ipc.queue_of ch (1 - s)) as [|m tl] eqn:Hq; [rewrite Hspec; apply runs_val; by apply effect_refl|].
  cbv zeta in Hspec. pose proof (popped_effect w t o x c s ch m tl) as Hpop.
  destruct (Ipc.msg_cap m) as [[o' r']|] eqn:Hm; [|rewrite Hspec; apply runs_val; apply Hpop; try done; by left].
  destruct Hspec as [[_ ->]|(_ & hn & t' & Hin & ->)]; apply runs_val; apply Hpop; try done; [by left|].
  right. by exists o', r', hn.
Qed.

Lemma with_mem_effect w t o x f e : world_ok w -> table_ok w t -> room w -> objects w !! o = Some x ->
  (forall m, organ_ok m -> Organ.clock m + 2 < OrganSpec.CLOCK_MAX -> runs (f m) (fun '(m', _) => organ_ok m')) ->
  has_effect w t o x (with_mem w t o x f e).
Proof.
  intros Hw Ht [Hr _] Hx Hf. unfold with_mem. destruct (mem x) as [m|] eqn:Hm; [|by apply has_effect_same].
  destruct (wo_objects w Hw o x Hx) as [_ Hox]. eapply runs_bind; [apply (Hf m); [by apply (oo_mem w x Hox) | by apply (Hr o x)]|].
  intros [m' r] Hm'. apply runs_val. by apply put_mem_effect.
Qed.

Lemma organ_runs {A} (f : res (Substrate * A)) (Q : Substrate -> Prop) : runs f (fun '(m, _) => Q m) -> (forall m, Q m -> organ_ok m) ->
  runs f (fun '(m, _) => organ_ok m).
Proof. intros H HQ. eapply runs_mono; [exact H|]. intros [m r]. apply HQ. Qed.

Lemma write_organ_ok m op k v p : organ_ok m -> Organ.clock m + 2 < OrganSpec.CLOCK_MAX -> 0 <= op -> is_u64 k -> is_u64 v ->
  runs (Organ.write m op k v p) (fun '(m', _) => organ_ok m').
Proof.
  intros (L & X & K & Hm) Hc Hop Hk Hv. eapply runs_mono; [apply (OrganSpec.write_advances m L X K); (done || lia)|].
  intros [m' r] (L' & Ha). eexists _, _, _. apply (OrganSpec.adv_inv _ _ _ _ _ _ _ _ _ Ha).
Qed.
Lemma write_proc_organ_ok m op a b c : organ_ok m -> Organ.clock m + 2 < OrganSpec.CLOCK_MAX -> is_u64 a ->
  runs (Skills.write_proc m op a b c) (fun '(m', _) => organ_ok m').
Proof.
  intros (L & X & K & Hm) Hc Ha. eapply runs_mono; [apply (Skills.write_proc_advances m L X K); (done || lia)|].
  intros [m' r] (_ & L' & Hadv). eexists _, _, _. apply (OrganSpec.adv_inv _ _ _ _ _ _ _ _ _ Hadv).
Qed.
Lemma read_organ_ok m id : organ_ok m -> Organ.clock m + 2 < OrganSpec.CLOCK_MAX -> 0 <= id ->
  runs (Organ.read_touch m id) (fun '(m', _) => organ_ok m').
Proof.
  intros (L & X & K & Hm) Hc Hid. eapply runs_mono; [apply (OrganSpec.read_touch_advances m L X K); (done || lia)|].
  intros [m' r] (_ & X' & Hadv). eexists _, _, _. apply (OrganSpec.adv_inv _ _ _ _ _ _ _ _ _ Hadv).
Qed.
Lemma recall_organ_ok m q c : organ_ok m -> Organ.clock m + 2 < OrganSpec.CLOCK_MAX -> runs (Organ.recall m q c) (fun '(m', _) => organ_ok m').
Proof.
  intros (L & X & K & Hm) Hc. eapply runs_mono; [apply (OrganSpec.recall_advances m L X K); (done || lia)|].
  intros [m' r] (X' & Hadv). eexists _, _, _. apply (OrganSpec.adv_inv _ _ _ _ _ _ _ _ _ Hadv).
Qed.
Lemma consolidate_organ_ok m op a b c : organ_ok m -> Organ.clock m + 2 < OrganSpec.CLOCK_MAX -> is_u64 a ->
  runs ('(s, n) ← Consolidate.consolidate m op a b c; Val (s, Some n)) (fun '(m', _) => organ_ok m').
Proof.
  intros (L & X & K & Hm) Hc Ha. eapply runs_bind; [apply (ConsolidateSpec.consolidate_advances m L X K); (done || lia)|].
  intros [m' r] (L' & X' & K' & Hadv). apply runs_val. eexists _, _, _. apply (OrganSpec.adv_inv _ _ _ _ _ _ _ _ _ Hadv).
Qed.

Lemma recall_effect w t o x a : world_ok w -> table_ok w t -> room w -> objects w !! o = Some x -> args_ok a -> has_effect w t o x (recall_arm w t o x a).
Proof.
  intros Hw Ht [Hr _] Hx Ha. unfold recall_arm. destruct (mem x) as [m|] eqn:Hm; [|by apply has_effect_same].
  destruct (arg_ok a 0 Ha ltac:(lia)) as (a0 & -> & _). destruct (arg_ok a 1 Ha ltac:(lia)) as (a1 & -> & _). rewrite !bind_val.
  destruct (wo_objects w Hw o x Hx) as [_ Hox].
  eapply runs_bind; [apply (recall_organ_ok m a0 a1); [by apply (oo_mem w x Hox) | by apply (Hr o x)]|]. intros [m' r] Hm'.
  pose proof (put_mem_effect w t o x m' Hw Ht Hx ltac:(by exists m) Hm') as He.
  destruct r as [id|]; [|by apply runs_val]. eapply runs_bind; [by apply (mint_record_effect w t o x)|].
  intros [[w2 t2] h] He2. by apply runs_val.
Qed.

Lemma block_effect w t o x f e : world_ok w -> table_ok w t -> room w -> objects w !! o = Some x ->
  (forall b, block_ok b -> Blocks.seq b + 1 < 2 ^ 64 -> runs (f b) (fun '(b', _) => block_ok b')) ->
  has_effect w t o x (block_arm w t x f e).
Proof.
  intros Hw Ht [_ Hr] Hx Hf. unfold block_arm. destruct (block x) as [b|] eqn:Hb; [|by apply has_effect_same].
  destruct (wo_objects w Hw o x Hx) as [_ Hox]. destruct (oo_block w x Hox b Hb) as [blk Hblk].
  unfold deref. rewrite Hblk, bind_val. destruct (Blocks.is_dead blk); [by apply has_effect_same|].
  destruct (wo_blocks w Hw b blk Hblk) as (_ & Hi). eapply runs_bind; [apply (Hf blk); [done | by apply (Hr b)]|].
  intros [blk' r] Hi'. apply runs_val. constructor.
  - by eapply put_block_ok.
  - eapply table_ok_grows; [apply grows_put_block | done].
  - apply evolves_refl, (to_wf w t Ht).
  - by apply block_confined.
  - by apply no_amplification_same.
Qed.

Lemma cas_runs b o v e : block_ok b -> Blocks.seq b + 1 < 2 ^ 64 -> runs (Blocks.cas_write b o v e) (fun '(b', _) => block_ok b').
Proof.
  intros Hok Hs. pose proof Hok as [Hb H0 Hfr Hmem]. destruct (Blocks.dead b) eqn:Hd; [unfold Blocks.cas_write; rewrite Hd; by apply runs_val|].
  rewrite Blocks.cas_write_live by done. destruct (Z.eqb_spec (Blocks.slot_version (Blocks.slots_of (Blocks.records b)) o) e) as [<-|]; apply runs_val; [|done].
  constructor; [by apply Blocks.cas_inv | cbn; lia | done | done].
Qed.

(** One table operation that installs or gives up a capability, in an unchanged world. *)
Lemma installs_effect w t o x r r' t' hn h : world_ok w -> table_ok w t -> objects w !! o = Some x -> is_u64 h -> cap_of t h = Some (o, r) ->
  Rights.is_subset_of r' r = true -> is_u32 r' -> installs t o r' t' hn -> effect w t o x w t'.
Proof.
  intros Hw Ht Hx Hh Hc Hsub Hr' Hin. constructor; [done | by eapply installs_table_ok | apply Hin | by apply confined_refl |].
  intros o2 r2 [(h2 & Hh2 & Hc2)|Htr]; left; [|exists r2; split; [by right | apply subset_refl]].
  destruct Hin as (_ & _ & _ & _ & _ & Hmap). rewrite Hmap in Hc2 by done. case_decide.
  - injection Hc2 as <- <-. exists r. split; [left; by exists h | done].
  - exists r2. split; [left; by exists h2 | apply subset_refl].
Qed.

Lemma gives_up_effect w t o x t' h : world_ok w -> table_ok w t -> objects w !! o = Some x -> gives_up t h t' -> effect w t o x w t'.
Proof.
  intros Hw Ht Hx Hg. constructor; [done | by eapply gives_up_table_ok | apply Hg | by apply confined_refl |].
  intros o2 r2 [(h2 & Hh2 & Hc2)|Htr]; left; exists r2; (split; [|apply subset_refl]); [|by right].
  destruct Hg as (_ & _ & Hmap). rewrite Hmap in Hc2 by done. case_decide; [done | left; by exists h2].
Qed.

Lemma dup_eq (t : HandleTable) h o r : cap_of t h = Some (o, r) -> dup t h = alloc t r o.
Proof. intros Hc. destruct (rights_object_at t h o r Hc) as (Hl & Hr & Ho). unfold dup. by rewrite Hl, Hr, bind_val, Ho, bind_val. Qed.
Lemma narrow_eq (t : HandleTable) h o r mask : cap_of t h = Some (o, r) -> narrow t h mask = alloc t (Rights.intersect r mask) o.
Proof. intros Hc. destruct (rights_object_at t h o r Hc) as (Hl & Hr & Ho). unfold narrow. by rewrite Hl, Hr, bind_val, Ho, bind_val. Qed.

Lemma intersect_u32 r mask : is_u32 r -> is_u32 mask -> is_u32 (Rights.intersect r mask).
Proof.
  unfold in_u, Rights.intersect. intros Hr Hm. split; [apply Z.land_nonneg; lia|].
  pose proof (Z.land_nonneg r mask). destruct (Z.eq_dec (Z.land r mask) 0) as [->|]; [lia|].
  apply Z.log2_lt_pow2; [lia|]. pose proof (Z.log2_land r mask). assert (r <> 0) by (intros ->; by rewrite Z.land_0_l in *).
  assert (Z.log2 r < 32) by (apply Z.log2_lt_pow2; lia). lia.
Qed.

Lemma derive_effect w t o x r r' h (out : res (option Z * HandleTable)) : world_ok w -> table_ok w t -> objects w !! o = Some x -> is_u64 h ->
  cap_of t h = Some (o, r) -> Rights.is_subset_of r' r = true -> is_u32 r' -> out = alloc t r' o ->
  has_effect w t o x ('(hn, t) ← out; done_with w t (match hn with Some hn => ret_ok hn | None => ret_err ObjFull end)).
Proof.
  intros Hw Ht Hx Hh Hc Hsub Hr' ->. destruct (alloc_installs t r' o (to_wf w t Ht)) as [[_ ->]|(_ & hn & t' & -> & Hin)];
    rewrite bind_val; apply runs_val; [by apply effect_refl | by eapply installs_effect].
Qed.

Lemma wrap32_u32 v : is_u32 (wrap 32 v).
Proof. by apply wrap_in_u. Qed.

Ltac get_arg a Ha i :=
  let v := fresh "v" in let Hv := fresh "Hv" in
  destruct (arg_ok a i Ha ltac:(lia)) as (v & -> & Hv); rewrite bind_val.

Lemma object_method_effect w t a o x : world_ok w -> table_ok w t -> room w -> objects w !! o = Some x -> args_ok a ->
  has_effect w t o x (object_method w t a o x).
Proof.
  intros Hw Ht Hr Hx Ha. unfold object_method. cbv zeta.
  destruct (method a =? M_MEM_WRITE).
  { get_arg a Ha 0; get_arg a Ha 1; get_arg a Ha 2; get_arg a Ha 3. apply with_mem_effect; [done..|]. intros. apply write_organ_ok; try done. unfold in_u in *. lia. }
  destruct (method a =? M_MEM_WRITE_PROC).
  { get_arg a Ha 0; get_arg a Ha 1; get_arg a Ha 2; get_arg a Ha 3. apply with_mem_effect; [done..|]. intros. by apply write_proc_organ_ok. }
  destruct (method a =? M_MEM_READ).
  { unfold mem_read_arm. destruct (kind x); try by apply has_effect_same.
    get_arg a Ha 0. apply with_mem_effect; [done..|]. intros. apply read_organ_ok; try done. unfold in_u in *. lia. }
  destruct (method a =? M_MEM_RECALL); [by apply recall_effect|].
  destruct (method a =? M_MEM_CONSOLIDATE).
  { get_arg a Ha 0; get_arg a Ha 1; get_arg a Ha 2; get_arg a Ha 3. apply with_mem_effect; [done..|]. intros. by apply consolidate_organ_ok. }
  destruct (method a =? M_CHAN_SEND); [by apply send_effect|].
  destruct (method a =? M_CHAN_CLOSE).
  { destruct (chan x) as [[c s]|] eqn:Hch; [|by apply has_effect_same]. destruct (wo_objects w Hw o x Hx) as [_ Hox].
    destruct (oo_chan w x Hox c s Hch) as [[ch Hc] Hs]. destruct (wo_channels w Hw c ch Hc) as (_ & Hg). unfold deref.
    rewrite Hc, bind_val, Ipc.close_side_eq, bind_val by (done || apply (cg_ok w ch Hg)). apply runs_val. constructor.
    - eapply put_channel_ok; [done | exact Hc | by apply closed_good].
    - eapply table_ok_grows; [apply grows_put_channel | done].
    - apply evolves_refl, (to_wf w t Ht).
    - by eapply channel_confined.
    - intros o' r [Hh|(c' & ch' & s' & m & Hc' & Hs' & Hin & Hm)]; left; exists r; (split; [|apply subset_refl]); [by left | right].
      cbn in Hc'. destruct (decide (c' = c)) as [->|Hne].
      + rewrite lookup_insert_eq in Hc'. injection Hc' as <-. by exists c, ch, s', m.
      + rewrite lookup_insert_ne in Hc' by done. by exists c', ch', s', m. }
  destruct (method a =? M_BLOCK_WRITE).
  { get_arg a Ha 0; get_arg a Ha 1; get_arg a Ha 2. apply block_effect; [done..|]. intros. by apply cas_runs. }
  destruct (method a =? M_BLOCK_READ).
  { get_arg a Ha 0. apply block_effect; [done..|]. intros. by apply runs_val. }
  destruct (session x); [|by apply has_effect_same]. get_arg a Ha 0. by apply has_effect_same.
Qed.

Lemma run_method_effect w t a o r x : world_ok w -> table_ok w t -> room w -> args_ok a -> cap_of t (handle a) = Some (o, r) ->
  objects w !! o = Some x -> has_effect w t o x (run_method w t a (Handle.slot (handle a))).
Proof.
  intros Hw Ht Hr Ha Hcap Hx. pose proof (proj1 Ha) as Hh. destruct (object_of_cap w t _ o r Ht Hh Hcap) as (x' & Hx' & _ & _ & Hob).
  rewrite Hx in Hx'. injection Hx' as <-. destruct (to_caps w t Ht _ o r Hh Hcap) as [_ Hru]. unfold run_method. cbv zeta.
  destruct (method a =? M_OBJECT_INSPECT); [rewrite Hob, bind_val; by apply has_effect_same|].
  destruct (method a =? M_HANDLE_DUP).
  { eapply derive_effect; [done..| apply subset_refl | done | by apply dup_eq]. }
  destruct (method a =? M_HANDLE_NARROW).
  { get_arg a Ha 0. apply (derive_effect w t o x r (Rights.intersect r (wrap 32 v)) (handle a)); try done; [apply intersect_subset | apply intersect_u32; [done | apply wrap32_u32] | by apply narrow_eq]. }
  destruct ((method a =? M_HANDLE_REVOKE) || (method a =? M_HANDLE_CLOSE)).
  { destruct (revoke_gives_up t _ o r (to_wf w t Ht) Hh Hcap) as (t' & -> & Hg). rewrite bind_val. apply runs_val. by eapply gives_up_effect. }
  destruct (method a =? M_CHAN_RECV).
  { eapply runs_bind; [by apply (recv_effect w t _ o r x)|]. intros [[w' t'] [[s p] mv]] He. by apply runs_val. }
  destruct (is_object_method (method a)); [|by apply has_effect_same]. rewrite Hob, bind_val. by apply object_method_effect.
Qed.

(** ** The gate *)

(** The first check that fails, if any: the profile latch, the method number, the handle, the
    right. *)
Definition gate (deny : bool) (t : HandleTable) (a : SyscallArgs) : option SysStatus :=
  if deny && is_cognitive_family (method a) then Some Denied else
  match required_right (method a) with
  | None => Some BadMethod
  | Some need =>
      match cap_of t (handle a) with
      | None => Some (dead_status t (handle a))
      | Some (_, r) => if Rights.contains r need then None else Some Denied
      end
  end.

Lemma dispatch_gate_eq deny w t a :
  dispatch deny w t a = match gate deny t a with
                        | Some e => Val (w, t, ret_err e)
                        | None => run_method w t a (Handle.slot (handle a))
                        end.
Proof.
  unfold dispatch, gate. destruct (deny && is_cognitive_family (method a)); [done|].
  destruct (required_right (method a)) as [need|]; [|done]. pose proof (live_cap_of t (handle a)) as Hl.
  destruct (cap_of t (handle a)) as [[o r]|] eqn:Hc; [|by rewrite Hl].
  destruct (rights_object_at t (handle a) o r Hc) as (_ & Hr & _). rewrite Hl, Hr, bind_val. by destruct (Rights.contains r need).
Qed.

Lemma gate_open deny t a : gate deny t a = None ->
  exists need o r, required_right (method a) = Some need /\ cap_of t (handle a) = Some (o, r) /\ Rights.contains r need = true.
Proof.
  unfold gate. destruct (deny && _); [done|]. destruct (required_right (method a)) as [need|]; [|done].
  destruct (cap_of t (handle a)) as [[o r]|]; [|done]. destruct (Rights.contains r need) eqn:E; [|done]. intros _. by exists need, o, r.
Qed.

Lemma dead_status_not_ok t h : dead_status t h <> Ok.
Proof. unfold dead_status. by case_decide. Qed.
Lemma gate_not_ok deny t a e : gate deny t a = Some e -> e <> Ok.
Proof.
  unfold gate. destruct (deny && _); [by intros [= <-]|]. destruct (required_right (method a)); [|by intros [= <-]].
  destruct (cap_of t (handle a)) as [[o r]|]; [destruct (Rights.contains r z); [done | by intros [= <-]]|]. intros [= <-]. apply dead_status_not_ok.
Qed.

Lemma dispatch_effect deny w t a : world_ok w -> table_ok w t -> room w -> args_ok a ->
  runs (dispatch deny w t a) (fun '(w', t', ret) =>
    match gate deny t a with
    | Some e => w' = w /\ t' = t /\ ret = ret_err e
    | None => exists o r x, cap_of t (handle a) = Some (o, r) /\ objects w !! o = Some x /\ effect w t o x w' t'
    end).
Proof.
  intros Hw Ht Hr Ha. rewrite dispatch_gate_eq. destruct (gate deny t a) as [e|] eqn:Eg; [by apply runs_val|].
  destruct (gate_open deny t a Eg) as (need & o & r & _ & Hc & _). destruct (to_caps w t Ht _ o r (proj1 Ha) Hc) as [[x Hx] _].
  eapply runs_mono; [by apply (run_method_effect w t a o r x)|]. intros [[w' t'] ret] He. by exists o, r, x.
Qed.

(** *** The empty world *)

Definition empty_world : World := mkWorld ∅ ∅ ∅ 0 (Sched.boot 4096).
Definition empty_table (n : Z) : HandleTable := with_capacity n.

Lemma empty_world_ok : world_ok empty_world.
Proof. split; try (intros ? ? E; cbn in E; by rewrite lookup_empty in E). by vm_compute. Qed.
Lemma empty_table_ok w n : 0 <= n <= 2 ^ 32 -> table_ok w (empty_table n).
Proof. intros. split; [by apply with_capacity_wf|]. intros h o r _ Hc. unfold cap_of in Hc. cbn in Hc. by rewrite lookup_nil in Hc. Qed.

Lemma home_ok w : object_ok w (mkObj ObjKind.MemoryHome (Some substrate_new) 0 None None None).
Proof. split; try done. intros m [= <-]. exists [], [], []. by apply OrganSpec.new_inv. Qed.

(** ** Properties *)

(** C1: nothing happens without authority.  The dispatcher reaches the body of a method only
    when the profile admits it, its number is one of the closed set, the handle resolves to
    an occupied slot of its generation, and that slot's rights contain the one the method
    requires; otherwise the reply is the first check that failed and neither the world nor
    the caller's table has changed. *)
Theorem dispatch_requires_authority deny w t a :
  match gate deny t a with
  | Some e => e <> Ok /\ dispatch deny w t a = Val (w, t, ret_err e)
  | None => exists need o r, required_right (method a) = Some need /\ cap_of t (handle a) = Some (o, r) /\
      Rights.contains r need = true /\ dispatch deny w t a = run_method w t a (Handle.slot (handle a))
  end.
Proof.
  rewrite dispatch_gate_eq. destruct (gate deny t a) as [e|] eqn:Eg; [split; [by eapply gate_not_ok | done]|].
  destruct (gate_open deny t a Eg) as (need & o & r & Hn & Hc & Hr). by exists need, o, r.
Qed.

(** C2: a system call is total and confined.  On a well-formed world and table, short of the
    counters' ends, every call with any arguments returns; afterwards the world and every
    table are well formed, only the object behind the presented handle has changed, with its
    own channel or block, and at most a read-only record is new; and every capability in the
    table or in transit was there before with at least its rights. *)
Theorem dispatch_total_and_confined deny w t a : world_ok w -> table_ok w t -> room w -> args_ok a ->
  runs (dispatch deny w t a) (fun '(w', t', ret) =>
    world_ok w' /\ table_ok w' t' /\ evolves t t' /\ no_amplification w t w' t' /\
    (forall t2, table_ok w t2 -> table_ok w' t2) /\
    match cap_of t (handle a) with
    | Some (o, _) => exists x, objects w !! o = Some x /\ confined w o x w'
    | None => w' = w /\ t' = t
    end).
Proof.
  intros Hw Ht Hr Ha. eapply runs_mono; [by apply (dispatch_effect deny w t a)|]. intros [[w' t'] ret].
  destruct (gate deny t a) as [e|] eqn:Eg.
  - intros (-> & -> & ->). do 2 (split; [done|]). split; [apply evolves_refl, (to_wf w t Ht)|]. split; [apply no_amplification_refl|].
    split; [done|]. destruct (cap_of t (handle a)) as [[o r]|] eqn:Hc; [|done].
    destruct (to_caps w t Ht _ o r (proj1 Ha) Hc) as [[x Hx] _]. exists x. split; [done | by apply confined_refl].
  - intros (o & r & x & -> & Hx & He). pose proof (effect_grows w t o x w' t' Hw He) as Hg. destruct He.
    do 4 (split; [done|]). split; [intros t2; by apply table_ok_grows | by exists x].
Qed.

Definition home_rights : Z := Rights.union (Rights.union Rights.READ Rights.WRITE) Rights.RECALL.

Lemma dispatch_total_and_confined_witness :
  exists w t h, mint_memory_home empty_world (empty_table 4) home_rights = Val (w, t, Some h) /\
    runs (dispatch false w t (mkArgs M_MEM_WRITE h [0; 7; 8; 0])) (fun '(w', t', ret) => world_ok w' /\ table_ok w' t').
Proof.
  destruct (mint_object_spec empty_world (empty_table 4) home_rights (mkObj ObjKind.MemoryHome (Some substrate_new) 0 None None None))
    as ([[w t] [h|]] & E & Hw & Ht & _ & Hm); [apply empty_world_ok | by apply empty_table_ok | apply home_ok | by vm_compute | |].
  2: { destruct Hm as ([_ Hf] & _). by vm_compute in Hf. }
  destruct Hm as (Ew & _ & Hh & _). exists w, t, h. split; [exact E|].
  eapply runs_mono; [apply (dispatch_total_and_confined false w t (mkArgs M_MEM_WRITE h [0; 7; 8; 0])); [exact Hw | exact Ht | |]|].
  - rewrite Ew. split; [|intros b blk; cbn; by rewrite lookup_empty]. intros o x m. cbn. destruct (decide (o = 0)) as [->|Hne].
    + rewrite lookup_insert_eq. intros [= <-] [= <-]. by vm_compute.
    + by rewrite lookup_insert_ne, lookup_empty.
  - split; [exact Hh|]. split; [done|]. repeat constructor; by vm_compute.
  - intros [[w' t'] ret] (? & ? & _). by split.
Defined.
