(* ===== verification/ChannelSpec.v ===== *)
(** * Channels between two principals: atomic sends, ordered exactly-once delivery.

    The send and receive arms of the dispatcher on every branch, and what two tables that
    hold the two endpoints of one channel observe of each other over any interleaving. *)
From Stdlib Require Import ZArith Lia.
From stdpp Require Import base numbers option tactics sets list gmap.
From S2P Require Import Prelude Caps Abi Syscall SyscallSpec.
From S2P Require Ipc Blocks Sched.
Open Scope Z_scope.

(** ** Specification *)

(** Handle [h] of table [t] names an endpoint of channel [c] on side [s] with the right [need]. *)
Record endpoint (w : World) (t : HandleTable) (h need c s : Z) : Prop := {
  ep_u64 : is_u64 h;
  ep_held : exists o r x, cap_of t h = Some (o, r) /\ Rights.contains r need = true /\ objects w !! o = Some x /\ chan x = Some (c, s);
}.

Inductive event := Send (payload cap_raw : Z) | Recv.
Definition event_ok (e : event) : Prop := match e with Send _ cap_raw => is_u64 cap_raw | Recv => True end.

(** What the two sides observe: an accepted message with the object and rights it carries, a
    refusal, a message got with what its moved handle names, one whose capability found the
    table full, or nothing there. *)
Inductive observation :=
  | Accepted (payload : Z) (carried : option (Z * Z))
  | Refused (e : SysStatus)
  | Got (payload : Z) (moved : option (Z * Z))
  | Lost (payload : Z)
  | Nothing (e : SysStatus).

Definition system : Type := World * HandleTable * HandleTable.

Definition step (ha hb : Z) (s : system) (e : event) : res (system * observation) :=
  let '(w, ta, tb) := s in
  match e with
  | Send p cap_raw =>
      '(w', ta', ret) ← dispatch false w ta (mkArgs M_CHAN_SEND ha [p; cap_raw; 0; 0]);
      Val ((w', ta', tb), match status ret with
                          | Ok => Accepted p (if cap_raw =? 0 then None else cap_of ta cap_raw)
                          | e => Refused e
                          end)
  | Recv =>
      '(w', tb', (st, p, moved)) ← chan_recv w tb hb;
      Val ((w', ta, tb'), match st with
                          | Ok => Got p (if moved =? 0 then None else cap_of tb' moved)
                          | ObjFull => Lost p
                          | e => Nothing e
                          end)
  end.

Fixpoint run (ha hb : Z) (s : system) (es : list event) : res (system * list observation) :=
  match es with
  | [] => Val (s, [])
  | e :: es => '(s, o) ← step ha hb s e; '(s, os) ← run ha hb s es; Val (s, o :: os)
  end.

Definition sent (os : list observation) : list (Z * option (Z * Z)) :=
  omap (fun o => match o with Accepted p c => Some (p, c) | _ => None end) os.
Definition received (os : list observation) : list (Z * option (option (Z * Z))) :=
  omap (fun o => match o with Got p c => Some (p, Some c) | Lost p => Some (p, None) | _ => None end) os.

(** A message as it was sent and as it arrived: intact, or with its capability lost. *)
Definition arrives (m : Z * option (Z * Z)) (g : Z * option (option (Z * Z))) : Prop :=
  m.1 = g.1 /\ match g.2 with Some c => m.2 = c | None => is_Some m.2 end.

Definition view (m : Ipc.Message Z) : Z * option (Z * Z) := (Ipc.payload m, Ipc.msg_cap m).

(** ** Lemmas *)

Lemma chan_recv_eq w t h o r : cap_of t h = Some (o, r) -> Rights.contains r Rights.READ = true -> chan_recv w t h = chan_recv_body w t h.
Proof.
  intros Hc Hr. destruct (rights_object_at t h o r Hc) as (Hl & Hr' & _). unfold chan_recv. by rewrite Hl, Hr', bind_val, Hr.
Qed.

Lemma dispatch_send_eq deny w t h o r x args : table_ok w t -> is_u64 h -> cap_of t h = Some (o, r) -> Rights.contains r Rights.WRITE = true ->
  objects w !! o = Some x -> dispatch deny w t (mkArgs M_CHAN_SEND h args) = chan_send_arm w t x (mkArgs M_CHAN_SEND h args).
Proof.
  intros Ht Hh Hc Hr Hx. rewrite dispatch_gate_eq. unfold gate. cbn [method handle].
  change (is_cognitive_family M_CHAN_SEND) with false. rewrite andb_false_r. change (required_right M_CHAN_SEND) with (Some Rights.WRITE).
  cbv iota. rewrite Hc, Hr. unfold run_method. cbn [method].
  change (is_object_method M_CHAN_SEND) with true. cbv zeta.
  destruct (object_of_cap w t h o r Ht Hh Hc) as (x' & Hx' & _ & _ & Hob). rewrite Hx in Hx'. injection Hx' as <-.
  change (M_CHAN_SEND =? M_OBJECT_INSPECT) with false. change (M_CHAN_SEND =? M_HANDLE_DUP) with false.
  change (M_CHAN_SEND =? M_HANDLE_NARROW) with false. change (M_CHAN_SEND =? M_HANDLE_REVOKE) with false.
  change (M_CHAN_SEND =? M_HANDLE_CLOSE) with false. change (M_CHAN_SEND =? M_CHAN_RECV) with false. cbn [orb handle]. cbv iota.
  by rewrite Hob, bind_val.
Qed.

Lemma carried_inl w t c cap_raw p : carried w t c cap_raw = inl p -> p = if cap_raw =? 0 then None else cap_of t cap_raw.
Proof.
  unfold carried. destruct (cap_raw =? 0); [by intros [= <-]|]. destruct (cap_of t cap_raw) as [[o r]|]; [|done].
  destruct (negb _); [done|]. destruct (on_channel w o c); [done|]. by intros [= <-].
Qed.
Lemma carried_not_ok w t c cap_raw e : carried w t c cap_raw = inr e -> e <> Ok.
Proof.
  unfold carried. destruct (cap_raw =? 0); [done|]. destruct (cap_of t cap_raw) as [[o r]|]; [|intros [= <-]; apply dead_status_not_ok].
  destruct (negb _); [by intros [= <-]|]. destruct (on_channel w o c); [by intros [= <-] | done].
Qed.

Section pair.
Context (ha hb c s : Z).

Record linked (st : system) : Prop := {
  ln_world : world_ok st.1.1;
  ln_a : table_ok st.1.1 st.1.2;
  ln_b : table_ok st.1.1 st.2;
  ln_side : Ipc.side_ok s;
  ln_ep_a : endpoint st.1.1 st.1.2 ha Rights.WRITE c s;
  ln_ep_b : endpoint st.1.1 st.2 hb Rights.READ c (1 - s);
}.

Definition pending (st : system) : list (Z * option (Z * Z)) :=
  match channels st.1.1 !! c with Some ch => map view (Ipc.queue_of ch s) | None => [] end.

(** One event moves messages from the senders' end to the receivers'. *)
Definition progress (st st' : system) (o : observation) : Prop :=
  linked st' /\ exists taken, pending st ++ sent [o] = taken ++ pending st' /\ Forall2 arrives taken (received [o]).

Lemma endpoint_objects w w' t h need c' s' : objects w' = objects w -> endpoint w t h need c' s' -> endpoint w' t h need c' s'.
Proof. intros E [Hh He]. split; [done|]. by rewrite E. Qed.

Lemma endpoint_table w t t' h need : endpoint w t h need c s -> cap_of t' h = cap_of t h -> endpoint w t' h need c s.
Proof. intros [Hh He] E. split; [done|]. by rewrite E. Qed.

Lemma refused_progress w ta tb e p cap_raw : linked (w, ta, tb) -> e <> Ok ->
  runs ('(w', ta', ret) ← done_with w ta (ret_err e);
        Val ((w', ta', tb), match status ret with Ok => Accepted p (if cap_raw =? 0 then None else cap_of ta cap_raw) | e => Refused e end))
    (fun '(st', o) => progress (w, ta, tb) st' o).
Proof.
  intros Hl He. unfold done_with. rewrite bind_val. apply runs_val. split; [done|]. exists [].
  split; [|by destruct e]. destruct e; cbn; by rewrite ?app_nil_r.
Qed.

Lemma pending_send st p cap_raw : linked st -> is_u64 cap_raw ->
  runs (step ha hb st (Send p cap_raw)) (fun '(st', o) => progress st st' o).
Proof.
  intros Hl Hcap. pose proof Hl as Hl'. destruct st as [[w ta] tb].
  destruct Hl as [Hw Ha Hb Hs [Hh (o & r & x & Hc & Hr & Hx & Hch)] Heb]. cbn [fst snd] in *.
  destruct (wo_objects w Hw o x Hx) as [_ Hox]. destruct (oo_chan w x Hox c s Hch) as [[ch Hchan] _].
  destruct (wo_channels w Hw c ch Hchan) as (_ & Hg). pose proof (cg_ok w ch Hg) as Hok.
  cbn [step]. rewrite (dispatch_send_eq false w ta ha o r x) by done.
  pose proof (send_spec w ta x (mkArgs M_CHAN_SEND ha [p; cap_raw; 0; 0]) c s ch p cap_raw Hw Ha Hs Hch Hchan eq_refl eq_refl Hcap) as Hspec.
  destruct (negb _); [rewrite Hspec; by apply refused_progress|]. destruct (_ <=? _); [rewrite Hspec; by apply refused_progress|].
  destruct (carried w ta c cap_raw) as [cr|e] eqn:Ec; [|rewrite Hspec; apply refused_progress; [done | by eapply carried_not_ok]].
  destruct Hspec as (t' & Hsur & ->). rewrite bind_val. apply runs_val. cbn [status ret_ok].
  rewrite <- (carried_inl w ta c cap_raw cr Ec). set (m := Ipc.mkMsg p None cr).
  assert (forall o' r', Ipc.msg_cap m = Some (o', r') -> cap_of ta cap_raw = Some (o', r') /\ on_channel w o' c = false) as Hm.
  { cbn. intros o' r' ->. by apply (carried_ok w ta c cap_raw) in Ec as (? & _ & ?). }
  assert (evolves ta t' /\ cap_of t' ha = cap_of ta ha /\ table_ok w t') as (Hev & Hkeep & Ht').
  { destruct cr as [[o' r']|]; cbn in Hsur; [|subst t'; split; [apply evolves_refl, (to_wf w ta Ha) | done]].
    pose proof Hsur as (Hev & _ & Hmap). split; [done|]. split; [|by apply (gives_up_table_ok w ta cap_raw)]. rewrite Hmap by done. case_decide as E; [|done].
    subst cap_raw. destruct (Hm o' r' eq_refl) as [E Hon]. rewrite Hc in E. injection E as <- <-.
    unfold on_channel in Hon. rewrite Hx, Hch, Z.eqb_refl in Hon. done. }
  assert (grows w (delivered w c s ch m)) as Hgr by apply (grows_put_channel w).
  split; [split; cbn [fst snd]|].
  - apply delivered_ok; [done..|]. intros o' r' E. destruct (Hm o' r' E) as [Hc' _]. by apply (to_caps w ta Ha cap_raw).
  - by eapply table_ok_grows.
  - by eapply table_ok_grows.
  - done.
  - apply (endpoint_objects w); [done|]. apply (endpoint_table w ta); [|done]. split; [done|]. by exists o, r, x.
  - by apply (endpoint_objects w).
  - exists []. split; [|constructor]. unfold pending. cbn [fst snd delivered channels]. rewrite Hchan, lookup_insert_eq.
    rewrite queue_of_enqueued, decide_True by done. cbn [app]. by rewrite map_app.
Qed.

Lemma taken_progress w ta tb tb' ch m tl cap obs : linked (w, ta, tb) -> channels w !! c = Some ch -> Ipc.queue_of ch s = m :: tl ->
  table_ok w tb' -> cap_of tb' hb = cap_of tb hb -> sent [obs] = [] -> received [obs] = [(Ipc.payload m, cap)] -> arrives (view m) (Ipc.payload m, cap) ->
  progress (w, ta, tb) (put_channel w c (Ipc.with_queue ch s tl), ta, tb') obs.
Proof.
  intros [Hw Ha Hb Hs Hea Heb] Hc Hq Htb Hkeep Hsent Hrec Harr. cbn [fst snd] in *. destruct (wo_channels w Hw c ch Hc) as (_ & Hg).
  split; [split; cbn [fst snd]; try done|].
  - eapply put_channel_ok; [done | exact Hc | by eapply popped_good].
  - eapply table_ok_grows; [apply grows_put_channel | done].
  - eapply table_ok_grows; [apply grows_put_channel | done].
  - by apply (endpoint_objects w).
  - apply (endpoint_objects w); [done|]. destruct Heb as [? He]. split; [done | by rewrite Hkeep].
  - exists [view m]. rewrite Hsent, Hrec, app_nil_r. split; [|by constructor]. unfold pending. cbn [fst snd put_channel set_channels channels].
    rewrite Hc, Hq, lookup_insert_eq, Ipc.queue_of_with_queue, decide_True by (done || apply (cg_ok w ch Hg)).
    by cbn.
Qed.

Lemma pending_recv st : linked st -> runs (step ha hb st Recv) (fun '(st', o) => progress st st' o).
Proof.
  intros Hl. pose proof Hl as Hl'. destruct st as [[w ta] tb].
  destruct Hl as [Hw Ha Hb Hs Hea [Hh (o & r & x & Hc & Hr & Hx & Hch)]]. cbn [fst snd] in *.
  destruct (wo_objects w Hw o x Hx) as [_ Hox]. destruct (oo_chan w x Hox c (1 - s) Hch) as [[ch Hchan] _].
  pose proof (recv_spec w tb hb o r x c (1 - s) ch Hw Hb Hh Hc Hx Hch Hchan) as Hspec. unfold recv_result in Hspec.
  replace (1 - (1 - s)) with s in Hspec by lia. cbn [step]. rewrite (chan_recv_eq w tb hb o r) by done.
  destruct (Ipc.queue_of ch s) as [|m tl] eqn:Hq.
  { rewrite Hspec, bind_val. apply runs_val. split; [done|]. exists []. split; [|by destruct (Ipc.is_open ch s)].
    destruct (Ipc.is_open ch s); cbn; by rewrite app_nil_r. }
  cbv zeta in Hspec. destruct (Ipc.msg_cap m) as [[o' r']|] eqn:Hm.
  - destruct Hspec as [[_ ->]|(_ & hn & t' & Hin & ->)]; rewrite bind_val; apply runs_val.
    + eapply taken_progress; try done. split; [done|]. cbn. rewrite Hm. by eexists.
    + destruct (wo_channels w Hw c ch Hchan) as (_ & Hg).
      destruct (cg_caps w ch Hg s m o' r' Hs ltac:(rewrite Hq; by left) Hm) as [Ho' Hr'].
      assert (table_ok w t') as Ht' by (by apply (installs_table_ok w tb o' r' t' hn)). destruct Hin as (_ & Hhn & Hnz & _ & Hnone & Hmap).
      apply (taken_progress w ta tb t' ch m tl (Some (Some (o', r'))));
        [done | done | done | done | | done | | ].
      * rewrite Hmap by done. case_decide; [congruence | done].
      * cbn. unfold Handle.NULL in Hnz. rewrite (proj2 (Z.eqb_neq hn 0)) by done. by rewrite Hmap, decide_True.
      * split; [done|]. cbn. by rewrite Hm.
  - rewrite Hspec, bind_val. apply runs_val. eapply taken_progress; try done.
Qed.

Lemma run_progress st es : linked st -> Forall event_ok es ->
  runs (run ha hb st es) (fun '(st', os) => linked st' /\ exists taken, pending st ++ sent os = taken ++ pending st' /\ Forall2 arrives taken (received os)).
Proof.
  revert st. induction es as [|e es IH]; intros st Hl Hes.
  { apply runs_val. split; [done|]. exists []. split; [by rewrite app_nil_r | constructor]. }
  apply Forall_cons_1 in Hes as [He Hes]. cbn [run]. apply runs_bind with (fun '(st', o) => progress st st' o).
  { destruct e as [p cap_raw|]; [by apply pending_send | by apply pending_recv]. }
  intros [st1 o] [Hl1 (t1 & E1 & F1)]. eapply runs_bind; [by apply IH|]. intros [st2 os] [Hl2 (t2 & E2 & F2)]. apply runs_val.
  split; [done|]. exists (t1 ++ t2). split.
  - change (o :: os) with ([o] ++ os). unfold sent at 1. rewrite omap_app. fold (sent [o]) (sent os).
    by rewrite app_assoc, E1, <- app_assoc, E2, app_assoc.
  - change (o :: os) with ([o] ++ os). unfold received. rewrite omap_app. by apply Forall2_app.
Qed.
End pair.

(** *** Everything a dispatch does to channels *)

(** Nothing, one message sent with a capability the sender held to transfer, one message
    taken, or one side closed. *)
Inductive traffic (w : World) (t : HandleTable) (w' : World) : Prop :=
  | Quiet (Hc : channels w' = channels w) (Hs : sched w' = sched w)
  | Sent c s ch m (Hch : channels w !! c = Some ch) (Hside : Ipc.side_ok s)
      (Hcap : forall o r, Ipc.msg_cap m = Some (o, r) -> exists h, is_u64 h /\ cap_of t h = Some (o, r) /\ Rights.contains r Rights.TRANSFER = true)
      (Hc : channels w' = channels (delivered w c s ch m)) (Hs : sched w' = sched (delivered w c s ch m))
  | Taken c s ch m tl (Hch : channels w !! c = Some ch) (Hside : Ipc.side_ok s) (Hq : Ipc.queue_of ch s = m :: tl)
      (Hc : channels w' = <[c := Ipc.with_queue ch s tl]> (channels w)) (Hs : sched w' = sched w)
  | Closed c s ch (Hch : channels w !! c = Some ch) (Hside : Ipc.side_ok s)
      (Hc : channels w' = <[c := Ipc.with_closed ch s]> (channels w)) (Hs : sched w' = sched w).

Definition has_traffic (w : World) (t : HandleTable) (out : outcome) : Prop := forall w' t' r, out = Val (w', t', r) -> traffic w t w'.

Lemma quiet_done w t t0 r : has_traffic w t (done_with w t0 r).
Proof. intros w' t' r' [= <- _ _]. by apply Quiet. Qed.

Lemma quiet_bind {A} w t (m : res A) (f : A -> outcome) : (forall a, has_traffic w t (f a)) -> has_traffic w t (m ≫= f).
Proof. intros Hf w' t' r E. apply bind_val_inv in E as (a & _ & E). by eapply Hf. Qed.

Lemma with_mem_quiet w t o x f e : has_traffic w t (with_mem w t o x f e).
Proof.
  unfold with_mem. destruct (mem x); [|apply quiet_done]. apply quiet_bind. intros [m' r] w' t' r' [= <- _ _]. by apply Quiet.
Qed.
Lemma block_quiet w t x f e : has_traffic w t (block_arm w t x f e).
Proof.
  unfold block_arm. destruct (block x); [|apply quiet_done]. apply quiet_bind. intros blk. destruct (Blocks.is_dead blk); [apply quiet_done|].
  apply quiet_bind. intros [b' r] w' t' r' [= <- _ _]. by apply Quiet.
Qed.
Lemma mint_quiet w t r x w' t' h : mint_object w t r x = Val (w', t', h) -> channels w' = channels w /\ sched w' = sched w.
Proof.
  unfold mint_object. cbn [fresh]. intros E. apply bind_val_inv in E as ([[h'|] t2] & _ & E); by injection E as <- _ _.
Qed.
Lemma recall_quiet w t o x a : has_traffic w t (recall_arm w t o x a).
Proof.
  unfold recall_arm. destruct (mem x) as [m|]; [|apply quiet_done]. do 2 (apply quiet_bind; intros ?). apply quiet_bind. intros [m' rec].
  intros w' t' r' E. cbv zeta in E. destruct rec as [id|]; [|injection E as <- _ _; by apply Quiet].
  apply bind_val_inv in E as ([[w2 t2] h] & E2 & E). injection E as <- _ _. destruct (mint_quiet _ _ _ _ _ _ _ E2). by apply Quiet.
Qed.

Lemma send_traffic w t x a : world_ok w -> table_ok w t -> args_ok a -> (forall c s, chan x = Some (c, s) -> is_Some (channels w !! c) /\ Ipc.side_ok s) ->
  has_traffic w t (chan_send_arm w t x a).
Proof.
  intros Hw Ht Ha Hcs. destruct (chan x) as [[c s]|] eqn:Hch; [|unfold chan_send_arm; rewrite Hch; apply quiet_done].
  destruct (Hcs c s eq_refl) as [[ch Hc] Hs].
  destruct (arg_ok a 0 Ha ltac:(lia)) as (a0 & Ha0 & _). destruct (arg_ok a 1 Ha ltac:(lia)) as (a1 & Ha1 & Hu).
  pose proof (send_spec w t x a c s ch a0 a1 Hw Ht Hs Hch Hc Ha0 Ha1 Hu) as Hspec.
  destruct (negb _); [rewrite Hspec; apply quiet_done|]. destruct (_ <=? _); [rewrite Hspec; apply quiet_done|].
  destruct (carried w t c a1) as [p|e] eqn:Ec; [|rewrite Hspec; apply quiet_done].
  destruct Hspec as (t1 & _ & ->). intros w' t' r [= <- _ _]. eapply Sent; [exact Hc | exact Hs | | reflexivity | reflexivity].
  cbn. intros o r' ->. apply (carried_ok w t c a1) in Ec as (? & ? & _); [by exists a1 | done | done].
Qed.

Lemma recv_body_traffic w t h w' t' r : world_ok w -> table_ok w t -> is_u64 h -> chan_recv_body w t h = Val (w', t', r) -> traffic w t w'.
Proof.
  intros Hw Ht Hh E. destruct (cap_of t h) as [[o rt]|] eqn:Hcap.
  2: { pose proof (live_cap_of t h) as Hl. rewrite Hcap in Hl. unfold chan_recv_body in E. rewrite Hl in E. injection E as <- _ _. by apply Quiet. }
  destruct (object_of_cap w t h o rt Ht Hh Hcap) as (x & Hx & Hl & _ & Hob). destruct (chan x) as [[c s]|] eqn:Hch.
  2: { unfold chan_recv_body in E. rewrite Hl, Hob, bind_val, Hch in E. injection E as <- _ _. by apply Quiet. }
  destruct (wo_objects w Hw o x Hx) as [_ Hox]. destruct (oo_chan w x Hox c s Hch) as [[ch Hc] Hs].
  pose proof (recv_spec w t h o rt x c s ch Hw Ht Hh Hcap Hx Hch Hc) as Hspec. unfold recv_result in Hspec. rewrite E in Hspec.
  destruct (Ipc.queue_of ch (1 - s)) as [|m tl] eqn:Hq; [injection Hspec as -> _ _; by apply Quiet|]. cbv zeta in Hspec.
  assert (w' = put_channel w c (Ipc.with_queue ch (1 - s) tl)) as ->.
  { destruct (Ipc.msg_cap m) as [[o' r']|]; [|congruence]. destruct Hspec as [[_ Hspec]|(_ & ? & ? & _ & Hspec)]; congruence. }
  eapply Taken; [exact Hc | by apply Ipc.side_flip | exact Hq | reflexivity | reflexivity].
Qed.

Lemma object_method_traffic w t a o x : world_ok w -> table_ok w t -> args_ok a -> objects w !! o = Some x -> has_traffic w t (object_method w t a o x).
Proof.
  intros Hw Ht Ha Hx. destruct (wo_objects w Hw o x Hx) as [_ Hox]. unfold object_method. cbv zeta.
  repeat lazymatch goal with
  | |- has_traffic _ _ (if ?b then _ else _) => destruct b
  | |- has_traffic _ _ (arg _ _ ≫= _) => apply quiet_bind; intros ?
  | |- has_traffic _ _ (with_mem _ _ _ _ _ _) => apply with_mem_quiet
  | |- has_traffic _ _ (block_arm _ _ _ _ _) => apply block_quiet
  | |- has_traffic _ _ (recall_arm _ _ _ _ _) => apply recall_quiet
  | |- has_traffic _ _ (chan_send_arm _ _ _ _) => apply send_traffic; [done | done | done | apply (oo_chan w x Hox)]
  end.
  - unfold mem_read_arm. destruct (kind x); try apply quiet_done. apply quiet_bind. intros ?. apply with_mem_quiet.
  - destruct (chan x) as [[c s]|] eqn:Hch; [|apply quiet_done]. destruct (oo_chan w x Hox c s Hch) as [[ch Hc] Hs].
    destruct (wo_channels w Hw c ch Hc) as (_ & Hg). unfold deref. rewrite Hc, bind_val, Ipc.close_side_eq, bind_val by (done || apply (cg_ok w ch Hg)).
    intros w' t' r [= <- _ _]. by eapply Closed.
  - destruct (session x); [|apply quiet_done]. apply quiet_bind. intros ?. apply quiet_done.
Qed.

Lemma dispatch_traffic deny w t a : world_ok w -> table_ok w t -> args_ok a -> has_traffic w t (dispatch deny w t a).
Proof.
  intros Hw Ht Ha. rewrite dispatch_gate_eq. destruct (gate deny t a) as [e|] eqn:Eg; [apply quiet_done|].
  destruct (gate_open deny t a Eg) as (need & o & r & _ & Hc & _). destruct (object_of_cap w t _ o r Ht (proj1 Ha) Hc) as (x & Hx & _ & _ & Hob).
  unfold run_method. cbv zeta.
  destruct (method a =? M_OBJECT_INSPECT); [apply quiet_bind; intros ?; apply quiet_done|].
  destruct (method a =? M_HANDLE_DUP); [apply quiet_bind; intros [? ?]; apply quiet_done|].
  destruct (method a =? M_HANDLE_NARROW); [apply quiet_bind; intros ?; apply quiet_bind; intros [? ?]; apply quiet_done|].
  destruct (_ || _); [apply quiet_bind; intros [? ?]; apply quiet_done|].
  destruct (method a =? M_CHAN_RECV).
  { intros w' t' r' E. apply bind_val_inv in E as ([[w2 t2] [[s2 p2] h2]] & E2 & E). injection E as <- _ _.
    eapply recv_body_traffic; [done | done | apply Ha | exact E2]. }
  destruct (is_object_method (method a)); [|apply quiet_done]. rewrite Hob, bind_val. by apply object_method_traffic.
Qed.

(** *** Opening a channel *)

Definition with_channel (w : World) (bound : Z) : World := put_channel (snd (fresh w)) (next_id w) (Ipc.create bound).

Lemma created_good w bound : chan_good w (Ipc.create bound).
Proof.
  split; [apply Ipc.create_ok | | |]; intros s.
  - intros m o r [-> | ->] Hin; cbn in Hin; by apply not_elem_of_nil in Hin.
  - by intros [-> | ->]; vm_compute.
  - by intros [-> | ->].
Qed.

Lemma with_channel_ok w bound : world_ok w -> world_ok (with_channel w bound) /\ grows w (with_channel w bound).
Proof.
  intros Hw. assert (grows w (with_channel w bound)) as Hg.
  { split_and!; cbn; try done. intros c [y Hy]. rewrite lookup_insert_is_Some'. right. by exists y. }
  split; [|done]. constructor; cbn.
  - intros o x Hx. destruct (wo_objects w Hw o x Hx). split; [lia | by eapply object_ok_grows].
  - intros c ch. destruct (decide (c = next_id w)) as [->|Hne].
    + rewrite lookup_insert_eq. intros [= <-]. split; [lia | apply created_good].
    + rewrite lookup_insert_ne by done. intros Hc. destruct (wo_channels w Hw c ch Hc). split; [lia | by eapply chan_good_grows].
  - intros b blk Hb. destruct (wo_blocks w Hw b blk Hb). split; [lia | done].
  - apply (wo_sched w Hw).
Qed.

Definition endpoint_object (c s : Z) : Object := mkObj ObjKind.Channel None 0 (Some (c, s)) None None.

Lemma endpoint_ok w c s : is_Some (channels w !! c) -> Ipc.side_ok s -> object_ok w (endpoint_object c s).
Proof. intros Hc Hs. split; [done | by intros c' s' [= <- <-] | done]. Qed.

Lemma mint_endpoint w t r c s need : world_ok w -> table_ok w t -> ~ full t -> is_Some (channels w !! c) -> Ipc.side_ok s -> is_u32 r ->
  Rights.contains r need = true ->
  exists w' t' h, mint_channel_endpoint w t r c s = Val (w', t', Some h) /\ world_ok w' /\ table_ok w' t' /\ grows w w' /\
    channels w' = channels w /\ endpoint w' t' h need c s /\ (forall o y, objects w !! o = Some y -> objects w' !! o = Some y) /\ (room w -> room w').
Proof.
  intros Hw Ht Hnf Hc Hs Hr Hneed.
  destruct (mint_object_spec w t r (endpoint_object c s)) as ([[w' t'] [h|]] & E & Hw' & Ht' & Hg & Hm); [done | done | by apply endpoint_ok | done | |].
  2: { by destruct Hm as [Hf _]. }
  destruct Hm as (-> & _ & Hh & _ & _ & _ & Hmap). eexists _, t', h. split; [exact E|]. do 3 (split; [done|]). split; [done|]. split.
  - split; [done|]. exists (next_id w), r, (endpoint_object c s). rewrite Hmap, decide_True by done. split; [done|]. split; [done|].
    split; [|done]. cbn. by rewrite lookup_insert_eq.
  - split; [intros o y Hy; cbn; rewrite lookup_insert_ne; [done|]; destruct (wo_objects w Hw o y Hy); lia|].
    intros [Hro Hrb]. split; [|exact Hrb]. intros o y m Hy Hm. cbn in Hy. destruct (decide (o = next_id w)) as [->|Hne].
    + rewrite lookup_insert_eq in Hy. injection Hy as <-. done.
    + rewrite lookup_insert_ne in Hy by done. by apply (Hro o y).
Qed.

(** ** Properties *)

(** Why a send is refused, if it is: the peer closed, the queue is full, or the carried
    capability may not travel. *)
Definition refusal (w : World) (t : HandleTable) (c s : Z) (ch : Ipc.Channel Z) (cap_raw : Z) : option SysStatus :=
  if negb (Ipc.is_open ch (1 - s)) then Some PeerClosed else
  if Ipc.cap_of_ring ch s <=? zlen (Ipc.queue_of ch s) then Some WouldBlock else
  match carried w t c cap_raw with inr e => Some e | inl _ => None end.

(** A send is atomic.  Through an endpoint held to write, a refused send changes neither
    the world nor the sender's table, so the capability it would have moved stays; an
    accepted one appends exactly its message, wakes the task parked on that queue and no
    other, and takes exactly the capability it carries out of the sender's table for good. *)
Theorem chan_send_atomic deny w t h o r x c s ch p cap_raw : world_ok w -> table_ok w t -> is_u64 h -> cap_of t h = Some (o, r) ->
  Rights.contains r Rights.WRITE = true -> objects w !! o = Some x -> chan x = Some (c, s) -> channels w !! c = Some ch -> is_u64 cap_raw ->
  let sent := dispatch deny w t (mkArgs M_CHAN_SEND h [p; cap_raw; 0; 0]) in
  match refusal w t c s ch cap_raw with
  | Some e => e <> Ok /\ sent = Val (w, t, ret_err e)
  | None => exists t' cap, sent = Val (delivered w c s ch (Ipc.mkMsg p None cap), t', ret_ok 0) /\
      if cap_raw =? 0 then cap = None /\ t' = t
      else exists o' r', cap = Some (o', r') /\ cap_of t cap_raw = cap /\ Rights.contains r' Rights.TRANSFER = true /\ gives_up t cap_raw t'
  end.
Proof.
  intros Hw Ht Hh Hc Hr Hx Hch Hchan Hcap. cbv zeta. rewrite (dispatch_send_eq deny w t h o r x) by done.
  destruct (wo_objects w Hw o x Hx) as [_ Hox]. destruct (oo_chan w x Hox c s Hch) as [_ Hs].
  pose proof (send_spec w t x (mkArgs M_CHAN_SEND h [p; cap_raw; 0; 0]) c s ch p cap_raw Hw Ht Hs Hch Hchan eq_refl eq_refl Hcap) as Hspec.
  unfold refusal. destruct (negb _); [done|]. destruct (_ <=? _); [done|].
  destruct (carried w t c cap_raw) as [cap|e] eqn:Ec; [|split; [by eapply carried_not_ok | done]].
  destruct Hspec as (t' & Hsur & ->). exists t', cap. split; [done|]. pose proof (carried_inl w t c cap_raw cap Ec) as Ecap.
  destruct (cap_raw =? 0) eqn:E0; [by subst cap|]. destruct cap as [[o' r']|].
  - apply (carried_ok w t c cap_raw) in Ec as (Hcc & Ht2 & _); [|done..]. exists o', r'. by rewrite Hcc.
  - unfold carried in Ec. by rewrite E0, <- Ecap in Ec.
Qed.

(** C8: a channel delivers in order, exactly once.  For two tables that hold its two ends,
    over any interleaving of sends on one side and receives on the other, no call panics and
    what was queued with what has been accepted since is what has been received followed by
    what is still queued: every accepted message arrives once, in the order sent, with its
    payload and with the object and rights it carried, except that a receiver whose table is
    full gets the payload and loses the capability. *)
Theorem channel_fifo_exactly_once ha hb c s st es : linked ha hb c s st -> Forall event_ok es ->
  runs (run ha hb st es) (fun '(st', os) => linked ha hb c s st' /\
    exists taken, pending c s st ++ sent os = taken ++ pending c s st' /\ Forall2 arrives taken (received os)).
Proof. apply run_progress. Qed.

(** ** Witnesses *)

(** Two fresh tables joined by a channel of two messages each way. *)
Lemma demo_linked : exists w ta tb ha hb c, linked ha hb c 0 (w, ta, tb) /\ pending c 0 (w, ta, tb) = [] /\
  (forall ch, channels w !! c = Some ch -> ch = Ipc.create 2) /\ room w.
Proof.
  set (ep := Rights.union (Rights.union Rights.READ Rights.WRITE) Rights.TRANSFER).
  destruct (with_channel_ok empty_world 2 empty_world_ok) as [Hw0 _]. set (w0 := with_channel empty_world 2) in *.
  assert (~ full (empty_table 4)) as Hnf by (intros [_ Hf]; by vm_compute in Hf).
  destruct (mint_endpoint w0 (empty_table 4) ep 0 0 Rights.WRITE) as (w1 & ta & ha & _ & Hw1 & Hta & Hg1 & Hc1 & Hea & _ & R1);
    [done | by apply empty_table_ok | exact Hnf | by eexists | by left | by vm_compute | done |].
  destruct (mint_endpoint w1 (empty_table 4) ep 0 1 Rights.READ) as (w2 & tb & hb & _ & Hw2 & Htb & Hg2 & Hc2 & Heb & Hobj & R2);
    [done | by apply empty_table_ok | exact Hnf | rewrite Hc1; by eexists | by right | by vm_compute | done |].
  exists w2, ta, tb, ha, hb, 0. split; [|split; [|split]].
  - split; cbn [fst snd]; [done | by eapply table_ok_grows | done | by left | | done].
    destruct Hea as [Hh (o & r & x & Hcap & Hr & Hx & Hch)]. split; [done|]. exists o, r, x. do 2 (split; [done|]). split; [by apply Hobj | done].
  - unfold pending. cbn [fst snd]. by rewrite Hc2, Hc1.
  - intros ch. rewrite Hc2, Hc1. by intros [= <-].
  - apply R2, R1. split; [intros o x m Hx | intros b blk Hb]; cbn in *; by rewrite lookup_empty in *.
Qed.

Lemma chan_send_atomic_witness : exists w t h c ch t', channels w !! c = Some ch /\
  dispatch false w t (mkArgs M_CHAN_SEND h [7; 0; 0; 0]) = Val (delivered w c 0 ch (Ipc.mkMsg 7 None None), t', ret_ok 0).
Proof.
  destruct demo_linked as (w & ta & tb & ha & hb & c & [Hw Ha _ Hs [Hh (o & r & x & Hc & Hr & Hx & Hch)] _] & _ & Hnew & _).
  destruct (wo_objects w Hw o x Hx) as [_ Hox]. destruct (oo_chan w x Hox c 0 Hch) as [[ch Hchan] _].
  pose proof (chan_send_atomic false w ta ha o r x c 0 ch 7 0 Hw Ha Hh Hc Hr Hx Hch Hchan ltac:(unfold in_u; lia)) as Hsend.
  cbv zeta in Hsend. pose proof (Hnew ch Hchan) as Ech. rewrite Ech in Hsend. destruct Hsend as (t' & cap & E & -> & _).
  exists w, ta, ha, c, ch, t'. split; [exact Hchan|]. rewrite Ech. exact E.
Defined.

Lemma channel_fifo_exactly_once_witness : exists ha hb c st st' os taken, linked ha hb c 0 st /\
  run ha hb st [Recv; Send 7 0; Send 8 0; Send 9 0; Recv; Recv] = Val (st', os) /\
  sent os = taken ++ pending c 0 st' /\ Forall2 arrives taken (received os).
Proof.
  destruct demo_linked as (w & ta & tb & ha & hb & c & Hl & Hp & _ & _).
  destruct (channel_fifo_exactly_once ha hb c 0 (w, ta, tb) [Recv; Send 7 0; Send 8 0; Send 9 0; Recv; Recv] Hl)
    as ([st' os] & E & _ & taken & Ht & Hf).
  - apply Forall_forall. intros e Hin. apply list_elem_of_In in Hin. cbn in Hin.
    destruct Hin as [<-|[<-|[<-|[<-|[<-|[<-|[]]]]]]]; cbn; (exact I || (unfold in_u; lia)).
  - rewrite Hp in Ht. exists ha, hb, c, (w, ta, tb), st', os, taken. split; [exact Hl|]. split; [exact E|]. by split.
Defined.
