(* ===== verification/Agents.v ===== *)
(** * The agent registry and its facades: [crates/tb-hal/src/lib.rs].

    An agent is a scheduler slot with a handle table of its own; every facade resolves a task
    to its agent and runs one operation of the system-call layer against that agent's table.
    [as_mut()?] on an empty slot is the outer [None].  What the architecture makes for a new
    agent (its page-table root, its kernel stack and the launch frame on it) comes as
    arguments; masking interrupts leaves no trace in a sequential model. *)
From Stdlib Require Import ZArith Lia.
From stdpp Require Import base numbers option tactics sets list gmap.
From S2P Require Import Prelude Caps Abi Syscall.
From S2P Require Ipc Blocks Infer Sched.
Open Scope Z_scope.

Definition MAX_TASKS : Z := Sched.MAX_TASKS.

Record CapGrant := mkGrant { grant_kind : ObjKind.ObjKind; grant_rights : Z }.

Record AgentProcess := mkAgent {
  manifest : list CapGrant;
  space : Z;
  table : HandleTable;
  task : Z;
  kstack_top : Z;
  memory_home : Z;
  bootstrap : Z;
  budget : Z;
  principal : Z;
  skill_home : Z;
}.
Definition set_table (ap : AgentProcess) (t : HandleTable) : AgentProcess :=
  mkAgent (manifest ap) (space ap) t (task ap) (kstack_top ap) (memory_home ap) (bootstrap ap) (budget ap) (principal ap) (skill_home ap).
Definition set_skill_home (ap : AgentProcess) (h : Z) : AgentProcess :=
  mkAgent (manifest ap) (space ap) (table ap) (task ap) (kstack_top ap) (memory_home ap) (bootstrap ap) (budget ap) (principal ap) h.

Record System := mkSys {
  world : World;
  agents : list (option AgentProcess);
  permitted_ok : list bool;
  denied_ok : list bool;
  cognitive_deny : bool;
}.
Definition set_world (s : System) (w : World) : System := mkSys w (agents s) (permitted_ok s) (denied_ok s) (cognitive_deny s).
Definition set_agents (s : System) (l : list (option AgentProcess)) : System := mkSys (world s) l (permitted_ok s) (denied_ok s) (cognitive_deny s).
Definition set_permitted (s : System) (l : list bool) : System := mkSys (world s) (agents s) l (denied_ok s) (cognitive_deny s).
Definition set_denied (s : System) (l : list bool) : System := mkSys (world s) (agents s) (permitted_ok s) l (cognitive_deny s).

Definition initial (root : Z) : System :=
  mkSys (mkWorld ∅ ∅ ∅ 0 (Sched.boot root)) (zrepeat MAX_TASKS None) (zrepeat MAX_TASKS false) (zrepeat MAX_TASKS false) false.

(** [set_cognitive_deny]: the profile latch. *)
Definition set_cognitive_deny (s : System) (v : bool) : System := mkSys (world s) (agents s) (permitted_ok s) (denied_ok s) v.

(** [if slot >= MAX_TASKS { return None } AGENTS.slot(slot).as_mut()?] *)
Definition agent_of (s : System) (t : Z) : res (option AgentProcess) :=
  if MAX_TASKS <=? t then Val None else idx (agents s) t.

(** The agent's table and the world after an operation of its. *)
Definition store (s : System) (t : Z) (ap : AgentProcess) (w : World) (tbl : HandleTable) : res System :=
  l ← upd (agents s) t (Some (set_table ap tbl));
  Val (set_agents (set_world s w) l).

(** ** Birth *)

Fixpoint mint_manifest_caps (w : World) (t : HandleTable) (caps : list CapGrant) : res (World * HandleTable) :=
  match caps with
  | [] => Val (w, t)
  | g :: caps =>
      '(w, t, h) ← mint w t (grant_kind g) (grant_rights g);
      match h with
      | None => Panic
      | Some _ => mint_manifest_caps w t caps
      end
  end.

Definition mh_rights : Z := Rights.union (Rights.union Rights.READ Rights.WRITE) Rights.RECALL.
Definition bs_rights : Z := Rights.union (Rights.union Rights.READ Rights.WRITE) Rights.TRANSFER.

Definition TABLE_CAPACITY : Z := 48.

(** Step 2 of [agent_spawn]: the table with the born-with set and the manifest's grants. *)
Definition born_table (w : World) (m : list CapGrant) : res (World * HandleTable * (Z * Z * Z)) :=
  '(w, t, memory_home) ← mint_memory_home w (with_capacity TABLE_CAPACITY) mh_rights;
  match memory_home with None => Panic | Some memory_home =>
  '(w, t, bootstrap) ← mint w t ObjKind.Channel bs_rights;
  match bootstrap with None => Panic | Some bootstrap =>
  '(w, t, budget) ← mint w t ObjKind.Budget Rights.READ;
  match budget with None => Panic | Some budget =>
  '(w, t) ← mint_manifest_caps w t m;
  Val (w, t, (memory_home, bootstrap, budget))
  end end end.

(** The launch frame on the new stack, from the two birth registers. *)
Definition agent_spawn (s : System) (m : list CapGrant) (root top : Z) (launch : Z -> Z -> Z) : res (System * Z) :=
  '(w, tbl, (memory_home, bootstrap, budget)) ← born_table (world s) m;
  let sp := launch memory_home bootstrap in
  let sch := sched w in
  let slot := Sched.NEXT_TASK_SLOT sch in
  let sch := Sched.set_next_slot sch (wrapping_add usize_bits slot 1) in
  if MAX_TASKS <=? slot then Panic else
  v ← upd (Sched.TASK_SP sch) slot sp;
  let sch := Sched.set_sp sch v in
  v ← upd (Sched.TASK_KSTACK_TOP sch) slot top;
  let sch := Sched.set_kstack_top sch v in
  v ← upd (Sched.TASK_AS sch) slot root;
  let sch := Sched.set_as sch v in
  p ← upd (permitted_ok s) slot false;
  d ← upd (denied_ok s) slot false;
  l ← upd (agents s) slot (Some (mkAgent m root tbl slot top memory_home bootstrap budget (wrap 32 slot) Handle.NULL));
  sch ← Sched.enqueue sch slot;
  Val (mkSys (set_sched w sch) l p d (cognitive_deny s), slot).

(** ** The facades *)

(** One dispatch against the table of task [t]'s agent. *)
Definition dispatch_as (s : System) (t : Z) (args : AgentProcess -> SyscallArgs) : res (System * option (SysStatus * Z)) :=
  ap ← agent_of s t;
  match ap with
  | None => Val (s, None)
  | Some ap =>
      '(w, tbl, ret) ← dispatch (cognitive_deny s) (world s) (table ap) (args ap);
      s ← store s t ap w tbl;
      Val (s, Some (status ret, value ret))
  end.

Definition agent_syscall_current (s : System) (m h a0 a1 : Z) : res (System * option (SysStatus * Z)) :=
  let slot := Sched.CURRENT_TASK (sched (world s)) in
  ap ← agent_of s slot;
  match ap with
  | None => Val (s, None)
  | Some ap =>
      let args := mkArgs (wrap 32 m) h [a0; a1; 0; 0] in
      '(w, tbl, ret) ← dispatch (cognitive_deny s) (world s) (table ap) args;
      s ← store s slot ap w tbl;
      s ← (if (method args =? M_OBJECT_INSPECT) && bool_decide (status ret = Ok)
           then p ← upd (permitted_ok s) slot true; Val (set_permitted s p) else Val s);
      s ← (if (method args =? M_EMIT_EXTERNAL) && bool_decide (status ret = Denied)
           then d ← upd (denied_ok s) slot true; Val (set_denied s d) else Val s);
      Val (s, Some (status ret, value ret))
  end.

Definition agent_mem_dispatch (s : System) (t m a0 a1 a2 a3 : Z) : res (System * option (SysStatus * Z)) :=
  dispatch_as s t (fun ap => mkArgs m (memory_home ap) [a0; a1; a2; a3]).
Definition agent_consolidate_cycle (s : System) (t : Z) : res (System * option (SysStatus * Z)) :=
  agent_mem_dispatch s t M_MEM_CONSOLIDATE 3 0 0 0.
Definition agent_mem_accumulator (s : System) (t : Z) : res (System * option (SysStatus * Z)) :=
  agent_mem_dispatch s t M_MEM_CONSOLIDATE 7 0 0 0.
Definition agent_chan_send (s : System) (t ep payload cap_h : Z) : res (System * option (SysStatus * Z)) :=
  dispatch_as s t (fun _ => mkArgs M_CHAN_SEND ep [payload; cap_h; 0; 0]).
Definition agent_cap_dispatch (s : System) (t m h a0 a1 : Z) : res (System * option (SysStatus * Z)) :=
  dispatch_as s t (fun _ => mkArgs m h [a0; a1; 0; 0]).
Definition agent_block_dispatch (s : System) (t m h a0 a1 a2 : Z) : res (System * option (SysStatus * Z)) :=
  dispatch_as s t (fun _ => mkArgs m h [a0; a1; a2; 0]).
Definition agent_model_dispatch (s : System) (t m h a0 : Z) : res (System * option (SysStatus * Z)) :=
  dispatch_as s t (fun _ => mkArgs m h [a0; 0; 0; 0]).

(** A mint into the table of task [t]'s agent. *)
Definition mint_into (s : System) (t : Z) (f : World -> HandleTable -> res (World * HandleTable * option Z)) : res (System * option Z) :=
  ap ← agent_of s t;
  match ap with
  | None => Val (s, None)
  | Some ap => '(w, tbl, h) ← f (world s) (table ap); s ← store s t ap w tbl; Val (s, h)
  end.

Definition agent_mint_generic (s : System) (t r : Z) : res (System * option Z) :=
  mint_into s t (fun w tbl => mint w tbl ObjKind.Generic r).

Definition ep_rights : Z := Rights.union (Rights.union Rights.READ Rights.WRITE) Rights.TRANSFER.

Definition agent_channel_connect (s : System) (a b bound : Z) : res (System * option (Z * Z)) :=
  if (MAX_TASKS <=? a) || (MAX_TASKS <=? b) || (a =? b) then Val (s, None) else
  let '(c, w) := fresh (world s) in
  let s := set_world s (put_channel w c (Ipc.create bound)) in
  '(s, ha) ← mint_into s a (fun w tbl => mint_channel_endpoint w tbl ep_rights c 0);
  match ha with
  | None => Val (s, None)
  | Some ha =>
      '(s, hb) ← mint_into s b (fun w tbl => mint_channel_endpoint w tbl ep_rights c 1);
      match hb with
      | None => Val (s, None)
      | Some hb => Val (s, Some (ha, hb))
      end
  end.

Definition agent_chan_recv_full (s : System) (t ep : Z) : res (System * option (SysStatus * Z * Z)) :=
  ap ← agent_of s t;
  match ap with
  | None => Val (s, None)
  | Some ap =>
      '(w, tbl, r) ← chan_recv (world s) (table ap) ep;
      s ← store s t ap w tbl;
      Val (s, Some r)
  end.

(** One turn of the wait loop: an answer, or the current task parked and another running.
    [saved] is the stack pointer the switch saves. *)
Definition wait_turn (s : System) (t ep c side saved : Z) : res (System * option (SysStatus * Z * Z)) :=
  ap ← idx (agents s) t;
  match ap with
  | None => Val (s, Some (BadCap, 0, 0))
  | Some ap =>
      '(w, tbl, r) ← chan_recv (world s) (table ap) ep;
      s ← store s t ap w tbl;
      match bool_decide (r.1.1 = WouldBlock) with
      | false => Val (s, Some r)
      | true =>
          ch ← deref (channels (world s)) c;
          ch ← Ipc.set_waiter ch (1 - side) (wrap 32 (Sched.CURRENT_TASK (sched (world s))));
          let w := put_channel (world s) c ch in
          sch ← Sched.block_current_and_yield saved (sched w);
          Val (set_world s (set_sched w sch), None)
      end
  end.

(** The call as far as its first turn; a parked call resumes with another turn. *)
Definition agent_chan_recv_blocking (s : System) (t ep saved : Z) : res (System * option (option (SysStatus * Z * Z))) :=
  ap ← agent_of s t;
  match ap with
  | None => Val (s, None)
  | Some ap =>
      ch ← chan_of (world s) (table ap) ep;
      match ch with
      | None => Val (s, None)
      | Some (c, side) => '(s, r) ← wait_turn s t ep c side saved; Val (s, Some r)
      end
  end.

Definition agent_rights_of (s : System) (t h : Z) : res (option Z) :=
  ap ← agent_of s t;
  match ap with None => Val None | Some ap => rights_of (table ap) h end.

Definition agent_born_ok (s : System) (t : Z) : res (System * bool) :=
  ap ← agent_of s t;
  match ap with
  | None => Val (s, false)
  | Some ap =>
      '(w, tbl, mh) ← dispatch (cognitive_deny s) (world s) (table ap) (call M_OBJECT_INSPECT (memory_home ap));
      '(w, tbl, bs) ← dispatch (cognitive_deny s) w tbl (call M_OBJECT_INSPECT (bootstrap ap));
      s ← store s t ap w tbl;
      Val (s, bool_decide (status mh = Ok) && (value mh =? ObjKind.tag ObjKind.MemoryHome) &&
              bool_decide (status bs = Ok) && (value bs =? ObjKind.tag ObjKind.Channel))
  end.

Definition agent_permitted_ok (s : System) (t : Z) : res bool := if t <? MAX_TASKS then idx (permitted_ok s) t else Val false.
Definition agent_denied_ok (s : System) (t : Z) : res bool := if t <? MAX_TASKS then idx (denied_ok s) t else Val false.
Definition agent_root_pa (s : System) (t : Z) : res Z :=
  ap ← agent_of s t;
  Val (match ap with Some ap => space ap | None => 0 end).

Definition agent_block_member_writable (s : System) (t h base_va : Z) : res (option bool) :=
  ap ← agent_of s t;
  match ap with
  | None => Val None
  | Some ap =>
      r ← block_of (world s) (table ap) h;
      Val (match r with inl (_, _, blk) => Blocks.member_writable blk (space ap) base_va | inr _ => None end)
  end.

Definition agent_block_frame_pa (s : System) (t h i : Z) : res (option Z) :=
  ap ← agent_of s t;
  match ap with
  | None => Val None
  | Some ap =>
      r ← block_of (world s) (table ap) h;
      Val (match r with inl (_, _, blk) => Blocks.frames blk !! Z.to_nat i | inr _ => None end)
  end.

Definition agent_model_open (s : System) (t : Z) (scheme : list Z) : res (System * option (SysStatus * Z)) :=
  if MAX_TASKS <=? t then Val (s, None) else
  r ← Infer.resolve Infer.ROUTES scheme;
  match r with
  | None => Val (s, Some (BadCap, 0))
  | Some (model, backend) =>
      ap ← idx (agents s) t;
      match ap with
      | None => Val (s, None)
      | Some ap =>
          '(w, tbl, h) ← mint_model_session (world s) (table ap) (Rights.union Rights.INVOKE_MODEL Rights.READ) (Infer.mkSession backend model);
          s ← store s t ap w tbl;
          Val (s, Some (match h with Some h => (Ok, h) | None => (ObjFull, 0) end))
      end
  end.

Definition agent_model_invoke_bytes (s : System) (t sess : Z) (prompt resp_out : list Z)
    : res (option (SysStatus * list Z * option ((Z * Infer.StopReason) + Infer.InferError))) :=
  ap ← agent_of s t;
  match ap with
  | None => Val None
  | Some ap => r ← model_invoke_bytes (world s) (table ap) sess prompt resp_out; Val (Some r)
  end.

(** The skill home, minted on the first proposal. *)
Definition wp_rights : Z := Rights.union (Rights.union (Rights.union Rights.READ Rights.WRITE) Rights.RECALL) Rights.WRITE_PROCEDURAL.

Definition agent_skill_propose (s : System) (t op a b c : Z) : res (System * option (SysStatus * Z)) :=
  ap ← agent_of s t;
  match ap with
  | None => Val (s, None)
  | Some ap =>
      '(s, ready) ← (if skill_home ap =? Handle.NULL then
           '(w, tbl, h) ← mint_memory_home (world s) (table ap) wp_rights;
           match h with
           | Some h => s ← store s t (set_skill_home ap h) w tbl; Val (s, true)
           | None => s ← store s t ap w tbl; Val (s, false)
           end
         else Val (s, true));
      match ready with
      | false => Val (s, Some (ObjFull, 0))
      | true => dispatch_as s t (fun ap => mkArgs M_MEM_WRITE_PROC (skill_home ap) [op; a; b; c])
      end
  end.
