(* ===== verification/AgentsSpec.v ===== *)
(** * What the agents may do to one another.

    A system step [advances] when it leaves a well-formed system in which an object that only
    one agent can reach and cannot transfer is still that agent's alone, and is unchanged
    unless that agent acted.  Here are the specification, what makes a step advance, and the
    facades that need only the system, birth included; [AgentCalls] adds the others. *)
From Stdlib Require Import ZArith Lia.
From stdpp Require Import base numbers option tactics sets list gmap.
From S2P Require Import Prelude Caps Abi Syscall SyscallSpec ChannelSpec Agents.
From S2P Require Ipc Blocks Infer Sched OrganSpec Organ.
Open Scope Z_scope.

(** ** Specification *)

Definition agent_at (s : System) (t : Z) (ap : AgentProcess) : Prop := 0 <= t /\ agents s !! Z.to_nat t = Some (Some ap).

Record sys_ok (s : System) : Prop := {
  so_world : world_ok (world s);
  so_sched : Sched.sched_ok (sched (world s));
  so_len : zlen (agents s) = MAX_TASKS;
  so_agents : forall t ap, agent_at s t ap ->
    table_ok (world s) (table ap) /\ is_u64 (memory_home ap) /\ is_u64 (bootstrap ap) /\ is_u64 (skill_home ap);
  so_permitted : zlen (permitted_ok s) = MAX_TASKS;
  so_denied : zlen (denied_ok s) = MAX_TASKS;
}.

(** Object [o] is the agent of task [a]'s alone: no other table names it, nothing in transit
    does, and [a]'s own handles may not send it. *)
Record private (s : System) (a o : Z) : Prop := {
  pv_object : is_Some (objects (world s) !! o);
  pv_others : forall b ap h r, b <> a -> agent_at s b ap -> is_u64 h -> cap_of (table ap) h <> Some (o, r);
  pv_owner : forall ap h r, agent_at s a ap -> is_u64 h -> cap_of (table ap) h = Some (o, r) -> Rights.contains r Rights.TRANSFER = false;
  pv_transit : forall r, ~ in_transit (world s) o r;
}.

(** What one operation on a table does. *)
Record op_effect (w : World) (t : HandleTable) (w' : World) (t' : HandleTable) : Prop := {
  oe_world : world_ok w';
  oe_table : table_ok w' t';
  oe_grows : grows w w';
  oe_sched : Sched.sched_ok (sched w) -> Sched.sched_ok (sched w');
  oe_objects : forall o x, objects w !! o = Some x -> objects w' !! o = Some x \/ exists h r, is_u64 h /\ cap_of t h = Some (o, r);
  oe_caps : forall o h r, is_Some (objects w !! o) -> is_u64 h -> cap_of t' h = Some (o, r) ->
    exists r0, held w t o r0 /\ Rights.is_subset_of r r0 = true;
  oe_transit : forall o r, in_transit w' o r -> in_transit w o r \/
    exists h, is_u64 h /\ cap_of t h = Some (o, r) /\ Rights.contains r Rights.TRANSFER = true;
}.

(** A system step in which only the tasks of [T] act. *)
Record advances (T : list Z) (s s' : System) : Prop := {
  ad_ok : sys_ok s';
  ad_private : forall a o, 0 <= a -> private s a o ->
    private s' a o /\ (a ∉ T -> objects (world s') !! o = objects (world s) !! o);
}.

(** ** Lemmas *)

Lemma agent_at_inj s t ap ap' : agent_at s t ap -> agent_at s t ap' -> ap = ap'.
Proof. intros [_ E] [_ E']. congruence. Qed.

Lemma sys_advances_refl T s : sys_ok s -> advances T s s.
Proof. by split. Qed.

Lemma sys_advances_trans T s1 s2 s3 : advances T s1 s2 -> advances T s2 s3 -> advances T s1 s3.
Proof.
  intros [_ P1] [? P2]. split; [done|]. intros a o Ha Hp. destruct (P1 a o Ha Hp) as [Hp2 E1]. destruct (P2 a o Ha Hp2) as [Hp3 E2].
  split; [done|]. intros Hn. by rewrite E2, E1.
Qed.

Lemma sys_advances_weaken T T' s s' : (forall a, a ∈ T -> a ∈ T') -> advances T s s' -> advances T' s s'.
Proof. intros HT [? P]. split; [done|]. intros a o Ha Hp. destruct (P a o Ha Hp) as [? E]. split; auto. Qed.

Lemma no_transfer_subset r r0 : Rights.is_subset_of r r0 = true -> Rights.contains r0 Rights.TRANSFER = false -> Rights.contains r Rights.TRANSFER = false.
Proof.
  intros Hsub H0. destruct (Rights.contains r Rights.TRANSFER) eqn:E; [|done]. exfalso.
  unfold Rights.is_subset_of, Rights.contains in *. apply Z.eqb_eq in Hsub, E. apply Z.eqb_neq in H0. apply H0.
  by rewrite <- E at 1; rewrite Z.land_assoc, (Z.land_comm r0 r), Hsub.
Qed.

(** *** The world may move under the agents *)

(** A step of the world in which no object changes and nothing new is in transit. *)
Lemma world_quiet_advances s w : sys_ok s -> world_ok w -> grows (world s) w -> Sched.sched_ok (sched w) ->
  (forall o x, objects (world s) !! o = Some x -> objects w !! o = Some x) ->
  (forall o r, in_transit w o r -> in_transit (world s) o r) -> advances [] s (set_world s w).
Proof.
  intros [Hs0 Hsch Hlen Hag Hp Hd] Hw Hg Hsc Hob Htr. split; [split; cbn; try done|].
  - intros b apb Hb. destruct (Hag b apb Hb) as (Htab & ?). split; [by eapply table_ok_grows | done].
  - intros a o Ha [Po Poth Pown Ptr]. split; [split; cbn|].
    + by apply Hg.
    + exact Poth.
    + exact Pown.
    + intros r Hr. apply (Ptr r). by apply Htr.
    + intros _. cbn. destruct Po as [x Hx]. rewrite Hx. by apply Hob.
Qed.

Lemma world_set_sched w sch : world_ok w -> zlen (Sched.TASK_STATE sch) = Sched.MAX_TASKS -> world_ok (set_sched w sch).
Proof.
  intros [Hwo Hwc Hwb _] Hsch. constructor; [| |exact Hwb|exact Hsch].
  - intros o x Hx. destruct (Hwo o x Hx) as [? [? ? ?]]. split; [done | by split].
  - intros c ch Hc. destruct (Hwc c ch Hc) as [? [? ? ? ?]]. split; [done | by split].
Qed.

Lemma sched_advances s sch : sys_ok s -> Sched.sched_ok sch -> advances [] s (set_world s (set_sched (world s) sch)).
Proof.
  intros Hs Hsch. apply world_quiet_advances; try done. apply world_set_sched; [apply (so_world s Hs) | apply (Sched.so_state sch Hsch)].
Qed.

(** *** Storing an agent's table *)

Definition stored (s : System) (t : Z) (ap : AgentProcess) (w : World) : System :=
  set_agents (set_world s w) (<[Z.to_nat t := Some ap]> (agents s)).

Lemma stored_at s t ap w b ap' : sys_ok s -> 0 <= t < MAX_TASKS -> agent_at (stored s t ap w) b ap' -> (b = t /\ ap' = ap) \/ (b <> t /\ agent_at s b ap').
Proof.
  intros Hs Ht [Hb E]. cbn in E. destruct (decide (b = t)) as [->|Hne].
  - left. split; [done|]. rewrite list_lookup_insert_eq in E; [congruence|]. pose proof (so_len s Hs). unfold zlen in *. lia.
  - right. split; [done|]. rewrite list_lookup_insert_ne in E by lia. by split.
Qed.

Lemma agent_range s t ap : sys_ok s -> agent_at s t ap -> 0 <= t < MAX_TASKS.
Proof. intros Hs [Ht E]. apply lookup_lt_Some in E. pose proof (so_len s Hs). unfold zlen in *. lia. Qed.

Lemma stored_advances s t ap ap' w : sys_ok s -> agent_at s t ap -> op_effect (world s) (table ap) w (table ap') ->
  is_u64 (memory_home ap') -> is_u64 (bootstrap ap') -> is_u64 (skill_home ap') -> advances [t] s (stored s t ap' w).
Proof.
  intros Hs Hat [Hw Htb Hg Hsc Hob Hcaps Htr] Hmh Hbs Hsk. pose proof (agent_range s t ap Hs Hat) as Ht. destruct Hs as [Hs0 Hsch Hlen Hag Hp Hd] eqn:Es.
  split; [split; cbn; try done; [by apply Hsc | by rewrite zlen_insert|]|].
  - intros b apb Hb. destruct (stored_at s t ap' w b apb Hs Ht Hb) as [[-> ->]|[_ Hb']]; [by split_and!|].
    destruct (Hag b apb Hb') as (Htab & ?). split; [by eapply table_ok_grows | done].
  - intros a o Ha [Po Poth Pown Ptr]. split; [split|].
    + by apply Hg.
    + intros b apb h r Hne Hb Hh Hc. destruct (stored_at s t ap' w b apb Hs Ht Hb) as [[-> ->]|[_ Hb']]; [|by apply (Poth b apb h r)].
      destruct (Hcaps o h r Po Hh Hc) as (r0 & [(h0 & Hh0 & Hc0)|Htr0] & _); [by apply (Poth t ap h0 r0) | by apply (Ptr r0)].
    + intros apa h r Haa Hh Hc. destruct (stored_at s t ap' w a apa Hs Ht Haa) as [[-> ->]|[_ Ha']]; [|by apply (Pown apa h r)].
      destruct (Hcaps o h r Po Hh Hc) as (r0 & [(h0 & Hh0 & Hc0)|Htr0] & Hsub); [|by apply Ptr in Htr0].
      eapply no_transfer_subset; [done|]. by apply (Pown ap h0 r0).
    + intros r Hr. destruct (Htr o r Hr) as [Hr'|(h & Hh & Hc & Ht1)]; [by apply (Ptr r)|].
      destruct (decide (t = a)) as [->|Hne]; [|by apply (Poth t ap h r)]. by rewrite (Pown ap h r) in Ht1.
    + intros Hn. cbn. destruct Po as [x Hx]. rewrite Hx. destruct (Hob o x Hx) as [?|(h & r & Hh & Hc)]; [done|]. exfalso.
      apply (Poth t ap h r); [|done..]. intros ->. apply Hn. by apply list_elem_of_singleton.
Qed.

(** *** Operations on a table *)

Lemma op_refl w t : world_ok w -> table_ok w t -> op_effect w t w t.
Proof.
  intros Hw Ht. constructor; try done.
  - intros o x Hx. by left.
  - intros o h r _ Hh Hc. exists r. split; [left; by exists h | apply subset_refl].
  - intros o r Hr. by left.
Qed.

Lemma woken_sched s task : Sched.sched_ok s -> Sched.sched_ok (woken s task).
Proof.
  intros Hs. unfold woken. destruct (_ <? _); [|done]. apply Sched.set_state_ok; [done|]. rewrite zlen_insert. apply (Sched.so_state s Hs).
Qed.

Lemma traffic_transit w t w' o r : world_ok w -> traffic w t w' -> in_transit w' o r -> in_transit w o r \/
  exists h, is_u64 h /\ cap_of t h = Some (o, r) /\ Rights.contains r Rights.TRANSFER = true.
Proof.
  intros Hw Htr (c' & ch' & s' & m' & Hc' & Hs' & Hin & Hm').
  destruct Htr as [E _|c s ch m Hch Hs Hcap E _|c s ch m tl Hch Hs Hq E _|c s ch Hch Hs E _]; rewrite E in Hc'; cbn in Hc'.
  1: { left. by exists c', ch', s', m'. }
  all: destruct (wo_channels w Hw c ch Hch) as (_ & Hg); pose proof (cg_ok w ch Hg) as Hok;
    destruct (decide (c' = c)) as [->|Hne]; [|rewrite lookup_insert_ne in Hc' by done; left; by exists c', ch', s', m'];
    rewrite lookup_insert_eq in Hc'; injection Hc' as <-.
  - rewrite queue_of_enqueued in Hin by done. case_decide as Es; [subst s'|left; by exists c, ch, s', m'].
    apply elem_of_app in Hin as [Hin|Hin]; [left; by exists c, ch, s, m'|]. apply list_elem_of_singleton in Hin as ->. right. by apply Hcap.
  - left. exists c, ch, s', m'. do 2 (split; [done|]). split; [|done]. rewrite Ipc.queue_of_with_queue in Hin by done.
    case_decide as Es; [subst s'; rewrite Hq; by right | done].
  - left. by exists c, ch, s', m'.
Qed.

Lemma traffic_sched w t w' : traffic w t w' -> Sched.sched_ok (sched w) -> Sched.sched_ok (sched w').
Proof.
  intros [_ E|c s ch m _ _ _ _ E|c s ch m tl _ _ _ _ E|c s ch _ _ _ E] Hs; rewrite E; try done. cbn. destruct (_ =? _); [done | by apply woken_sched].
Qed.

Lemma effect_op w t o x h w' t' : world_ok w -> is_u64 h -> (exists r, cap_of t h = Some (o, r)) -> effect w t o x w' t' -> traffic w t w' -> op_effect w t w' t'.
Proof.
  intros Hw Hh [r Hc] He Htr. pose proof (effect_grows w t o x w' t' Hw He) as Hg. destruct He as [? ? _ Hcf Hau]. constructor; try done.
  - by eapply traffic_sched.
  - intros o' y Hy. destruct (decide (o' = o)) as [->|Hne]; [right; by exists h, r|]. left.
    rewrite (cf_others _ _ _ _ Hcf o' Hne); [done | by destruct (wo_objects w Hw o' y Hy)].
  - intros o' h' r' [y Hy] Hh' Hc'. destruct (Hau o' r') as [(r0 & ? & ?)|[Hle _]]; [left; by exists h' | by exists r0|].
    destruct (wo_objects w Hw o' y Hy). lia.
  - intros o' r'. by apply traffic_transit.
Qed.

Lemma runs_with {A} (m : res A) (P Q : A -> Prop) : runs m P -> (forall a, m = Val a -> P a -> Q a) -> runs m Q.
Proof. intros (a & E & Hp) H. exists a. split; [done | by apply H]. Qed.

Lemma dispatch_op deny w t a : world_ok w -> table_ok w t -> room w -> args_ok a ->
  runs (dispatch deny w t a) (fun '(w', t', _) => op_effect w t w' t').
Proof.
  intros Hw Ht Hr Ha. eapply runs_with; [by apply (dispatch_effect deny w t a)|]. intros [[w' t'] ret] E.
  destruct (gate deny t a); [intros (-> & -> & _); by apply op_refl|]. intros (o & r & x & Hc & Hx & He).
  eapply effect_op; [done | apply Ha | by exists r | exact He | by eapply dispatch_traffic].
Qed.

Lemma recv_op w t ep : world_ok w -> table_ok w t -> is_u64 ep -> runs (chan_recv w t ep) (fun '(w', t', _) => op_effect w t w' t').
Proof.
  intros Hw Ht Hep. destruct (cap_of t ep) as [[o r]|] eqn:Hc.
  2: { unfold chan_recv. pose proof (live_cap_of t ep) as Hl. rewrite Hc in Hl. rewrite Hl. apply runs_val. by apply op_refl. }
  destruct (Rights.contains r Rights.READ) eqn:Hr.
  2: { unfold chan_recv. destruct (rights_object_at t ep o r Hc) as (-> & -> & _). rewrite bind_val, Hr. apply runs_val. by apply op_refl. }
  rewrite (chan_recv_eq w t ep o r) by done. destruct (object_of_cap w t ep o r Ht Hep Hc) as (x & Hx & _).
  eapply runs_with; [by apply (recv_effect w t ep o r x)|]. intros [[w' t'] [[st p] mv]] E He.
  eapply effect_op; [done | exact Hep | by exists r | exact He | by eapply recv_body_traffic].
Qed.

Lemma mint_op w t r x : world_ok w -> table_ok w t -> object_ok w x -> is_u32 r ->
  runs (mint_object w t r x) (fun '(w', t', h) => op_effect w t w' t' /\ (forall h', h = Some h' -> is_u64 h') /\
    (room w -> (forall m, mem x = Some m -> Organ.clock m + 2 < OrganSpec.CLOCK_MAX) -> room w')).
Proof.
  intros Hw Ht Hx Hr. eapply runs_mono; [by apply mint_object_spec|]. intros [[w' t'] [h|]] (Hw' & Ht' & Hg & Hm).
  2: { destruct Hm as (_ & -> & ->). by split; [apply op_refl|]. }
  destruct Hm as (-> & Hev & Hh & _ & _ & _ & Hmap). split; [|split; [by intros h' [= <-]|]].
  2: { intros [Hro Hrb] Hm. split; [|exact Hrb]. intros o y m Hy Hm'. cbn in Hy. destruct (decide (o = next_id w)) as [->|Hne].
       - rewrite lookup_insert_eq in Hy. injection Hy as <-. by apply Hm.
       - rewrite lookup_insert_ne in Hy by done. by apply (Hro o y). }
  constructor; try done.
  - intros o y Hy. left. cbn. rewrite lookup_insert_ne; [done|]. destruct (wo_objects w Hw o y Hy). lia.
  - intros o h' r' [y Hy] Hh' Hc. rewrite Hmap in Hc by done. case_decide.
    + injection Hc as <- <-. destruct (wo_objects w Hw _ y Hy). lia.
    + exists r'. split; [left; by exists h' | apply subset_refl].
  - intros o r'. by left.
Qed.

(** *** The facades *)

Lemma agent_of_runs s t : sys_ok s -> 0 <= t -> runs (agent_of s t) (fun r => forall ap, r = Some ap -> agent_at s t ap).
Proof.
  intros Hs Ht. unfold agent_of. destruct (Z.leb_spec MAX_TASKS t); [by apply runs_val|].
  destruct (Prelude.idx_ok (agents s) t) as [r Hr]; [rewrite (so_len s Hs); lia|]. rewrite Hr. apply runs_val. intros ap ->.
  apply idx_val_inv in Hr as [_ Hr]. by split.
Qed.

Lemma store_eq s t ap w tbl : sys_ok s -> agent_at s t ap -> store s t ap w tbl = Val (stored s t (set_table ap tbl) w).
Proof.
  intros Hs Hat. pose proof (agent_range s t ap Hs Hat). unfold store. by rewrite upd_ok by (rewrite (so_len s Hs); lia).
Qed.

Lemma table_step {A B} s t ap (m : res (World * HandleTable * A)) (f : A -> B) : sys_ok s -> agent_at s t ap ->
  runs m (fun '(w, tbl, _) => op_effect (world s) (table ap) w tbl) ->
  runs ('(w, tbl, r) ← m; s' ← store s t ap w tbl; Val (s', f r)) (fun '(s', _) => advances [t] s s').
Proof.
  intros Hs Hat Hm. destruct (so_agents s Hs t ap Hat) as (_ & ? & ? & ?). eapply runs_bind; [exact Hm|]. intros [[w tbl] r] Hop.
  rewrite store_eq, bind_val by done. apply runs_val. by apply (stored_advances s t ap).
Qed.

(** A facade that resolves a task's agent first. *)
Lemma facade_runs {A} s t (f : AgentProcess -> res (System * A)) (none : A) : sys_ok s -> 0 <= t ->
  (forall ap, agent_at s t ap -> runs (f ap) (fun '(s', _) => advances [t] s s')) ->
  runs (ap ← agent_of s t; match ap with None => Val (s, none) | Some ap => f ap end) (fun '(s', _) => advances [t] s s').
Proof.
  intros Hs Ht Hf. eapply runs_bind; [by apply agent_of_runs|]. intros [ap|] Hap; [by apply Hf, Hap|]. apply runs_val. by apply sys_advances_refl.
Qed.

Definition args_of_ok (args : AgentProcess -> SyscallArgs) : Prop :=
  forall ap, is_u64 (memory_home ap) -> is_u64 (skill_home ap) -> args_ok (args ap).

Lemma dispatch_as_advances s t args : sys_ok s -> room (world s) -> 0 <= t -> args_of_ok args ->
  runs (dispatch_as s t args) (fun '(s', _) => advances [t] s s').
Proof.
  intros Hs Hr Ht Ha. apply facade_runs; [done | done |]. intros ap Hat. destruct (so_agents s Hs t ap Hat) as (Htb & Hmh & _ & Hsk).
  apply (table_step s t ap _ (fun ret => Some (status ret, value ret))); [done | done |]. by apply dispatch_op; [apply (so_world s Hs) | | | apply Ha].
Qed.

Lemma mint_into_advances s t r x : sys_ok s -> 0 <= t -> object_ok (world s) x -> is_u32 r ->
  runs (mint_into s t (fun w tbl => mint_object w tbl r x)) (fun '(s', _) => advances [t] s s').
Proof.
  intros Hs Ht Hx Hr. apply facade_runs; [done | done |]. intros ap Hat. destruct (so_agents s Hs t ap Hat) as (Htb & _).
  apply (table_step s t ap _ (fun h => h)); [done | done |]. eapply runs_mono; [by apply mint_op; [apply (so_world s Hs) | ..]|]. by intros [[w tbl] h] [? _].
Qed.

Lemma mint_into_channels s t r x s' h c : mint_into s t (fun w tbl => mint_object w tbl r x) = Val (s', h) -> is_Some (channels (world s) !! c) ->
  is_Some (channels (world s') !! c).
Proof.
  intros E Hc. unfold mint_into in E. apply bind_val_inv in E as ([ap|] & _ & E); [|by injection E as <- _].
  apply bind_val_inv in E as ([[w tbl] h'] & E1 & E). apply bind_val_inv in E as (s1 & E2 & E). injection E as <- _.
  apply bind_val_inv in E2 as (l & _ & E2). injection E2 as <-. destruct (mint_quiet _ _ _ _ _ _ _ E1) as [Ech _]. cbn. by rewrite Ech.
Qed.

Lemma u64_0 : is_u64 0.
Proof. unfold in_u. lia. Qed.
Lemma args4_ok m h a0 a1 a2 a3 : is_u64 h -> is_u64 a0 -> is_u64 a1 -> is_u64 a2 -> is_u64 a3 -> args_ok (mkArgs m h [a0; a1; a2; a3]).
Proof. intros. split; [done|]. split; [done|]. by repeat (apply Forall_cons; split; [done|]). Qed.

Lemma flags_advances T s s' p d : advances T s s' -> zlen p = MAX_TASKS -> zlen d = MAX_TASKS -> advances T s (set_denied (set_permitted s' p) d).
Proof.
  intros [[] P] Hp Hd. split; [by split|]. intros a o Ha Hpr. destruct (P a o Ha Hpr) as [[] ?]. split; [by split | done].
Qed.

Lemma syscall_advances s m h a0 a1 : sys_ok s -> room (world s) -> is_u64 h -> is_u64 a0 -> is_u64 a1 ->
  runs (agent_syscall_current s m h a0 a1) (fun '(s', _) => advances [Sched.CURRENT_TASK (sched (world s))] s s').
Proof.
  intros Hs Hr Hh Ha0 Ha1. unfold agent_syscall_current. cbv zeta. set (t := Sched.CURRENT_TASK _).
  destruct (Sched.queue_task _ _ (so_sched s Hs) (Sched.so_current _ (so_sched s Hs))) as [Ht _]. fold t in Ht.
  apply facade_runs; [done | done |]. intros ap Hat. destruct (so_agents s Hs t ap Hat) as (Htb & Hu). pose proof (agent_range s t ap Hs Hat) as Hrange.
  eapply runs_bind; [apply dispatch_op; [apply (so_world s Hs) | done | done |]|].
  { by apply args4_ok; [..|apply u64_0|apply u64_0]. }
  intros [[w tbl] ret] Hop. rewrite store_eq, bind_val by done. set (s1 := stored s t (set_table ap tbl) w).
  assert (advances [t] s s1) as Hadv by (apply (stored_advances s t ap); [done | done | done | apply Hu | apply Hu | apply Hu]).
  cbn [method]. eapply runs_bind with (P := fun s2 => exists p, zlen p = MAX_TASKS /\ s2 = set_permitted s1 p).
  { destruct (_ && _); [|apply runs_val; exists (permitted_ok s1); split; [apply (so_permitted s Hs) | by destruct s1]].
    rewrite upd_ok, bind_val by (cbn; rewrite (so_permitted s Hs); lia). apply runs_val. eexists. split; [|done]. rewrite zlen_insert. apply (so_permitted s Hs). }
  intros s2 (p & Hp & ->). eapply runs_bind with (P := fun s2 => exists d, zlen d = MAX_TASKS /\ s2 = set_denied (set_permitted s1 p) d).
  { destruct (_ && _); [|apply runs_val; exists (denied_ok s1); split; [apply (so_denied s Hs) | by destruct s1]].
    rewrite upd_ok, bind_val by (cbn; rewrite (so_denied s Hs); lia). apply runs_val. eexists. split; [|done]. rewrite zlen_insert. apply (so_denied s Hs). }
  intros s3 (d & Hd & ->). apply runs_val. by apply flags_advances.
Qed.

Lemma recv_full_advances s t ep : sys_ok s -> 0 <= t -> is_u64 ep -> runs (agent_chan_recv_full s t ep) (fun '(s', _) => advances [t] s s').
Proof.
  intros Hs Ht Hep. apply facade_runs; [done | done |]. intros ap Hat. destruct (so_agents s Hs t ap Hat) as (Htb & _).
  apply (table_step s t ap _ (fun r => Some r)); [done | done |]. by apply recv_op; [apply (so_world s Hs) | ..].
Qed.

Lemma in_transit_with_channel w bound o r : world_ok w -> in_transit (with_channel w bound) o r -> in_transit w o r.
Proof.
  intros Hw (c & ch & s & m & Hc & Hs & Hin & Hm). cbn in Hc. destruct (decide (c = next_id w)) as [->|Hne].
  - rewrite lookup_insert_eq in Hc. injection Hc as <-. destruct Hs as [-> | ->]; cbn in Hin; by apply not_elem_of_nil in Hin.
  - rewrite lookup_insert_ne in Hc by done. by exists c, ch, s, m.
Qed.

Lemma with_channel_advances s bound : sys_ok s -> advances [] s (set_world s (with_channel (world s) bound)).
Proof.
  intros Hs. destruct (with_channel_ok (world s) bound (so_world s Hs)) as [Hw Hg].
  apply world_quiet_advances; [done | done | done | apply (so_sched s Hs) | done |].
  intros o r. by apply in_transit_with_channel, (so_world s Hs).
Qed.

Lemma connect_advances s a b bound : sys_ok s -> 0 <= a -> 0 <= b -> runs (agent_channel_connect s a b bound) (fun '(s', _) => advances [a; b] s s').
Proof.
  intros Hs Ha Hb. unfold agent_channel_connect. destruct (_ || _); [apply runs_val; by apply sys_advances_refl|]. cbn [fresh].
  pose proof (with_channel_advances s bound Hs) as H0. fold (with_channel (world s) bound). set (s0 := set_world s _) in *.
  assert (is_Some (channels (world s0) !! next_id (world s))) as Hc by (cbn; rewrite lookup_insert_eq; by eexists).
  assert (forall T s', advances T s0 s' -> (forall x, x ∈ T -> x ∈ [a; b]) -> advances [a; b] s s') as Hup.
  { intros T s' Hadv HT. eapply sys_advances_trans; [by apply (sys_advances_weaken [] [a; b]); [intros x Hx%not_elem_of_nil|exact H0] | by eapply sys_advances_weaken]. }
  eapply runs_bind with (P := fun '(s1, _) => advances [a] s0 s1 /\ is_Some (channels (world s1) !! next_id (world s))).
  { eapply runs_with; [apply (mint_into_advances s0 a ep_rights (endpoint_object (next_id (world s)) 0)); [apply H0 | done | apply endpoint_ok; [done | by left] | by vm_compute]|].
    intros [s1 h] E Hadv. split; [done|]. by eapply mint_into_channels. }
  intros [s1 [ha|]] [H1 Hc1]; [|apply runs_val; eapply Hup; [exact H1|]; intros x ->%list_elem_of_singleton; by left].
  eapply runs_bind; [apply (mint_into_advances s1 b ep_rights (endpoint_object (next_id (world s)) 1)); [apply H1 | done | apply endpoint_ok; [done | by right] | by vm_compute]|].
  intros [s2 hb] H2. assert (advances [a; b] s s2) as Hall.
  { apply (Hup [a; b]); [|done]. eapply sys_advances_trans; (eapply sys_advances_weaken; [|eassumption]); intros x ->%list_elem_of_singleton; [by left | right; by left]. }
  by destruct hb; apply runs_val.
Qed.

Lemma model_open_advances s t scheme : sys_ok s -> 0 <= t -> runs (agent_model_open s t scheme) (fun '(s', _) => advances [t] s s').
Proof.
  intros Hs Ht. unfold agent_model_open. destruct (Z.leb_spec MAX_TASKS t); [apply runs_val; by apply sys_advances_refl|].
  eapply runs_bind; [apply (Infer.resolve_runs Infer.ROUTES scheme); by vm_compute|].
  intros [[model backend]|] _; [|apply runs_val; by apply sys_advances_refl].
  destruct (Prelude.idx_ok (agents s) t) as [[ap|] Hap]; [rewrite (so_len s Hs); lia | | rewrite Hap; apply runs_val; by apply sys_advances_refl].
  rewrite Hap, bind_val. apply idx_val_inv in Hap as [_ Hap]. assert (agent_at s t ap) as Hat by by split.
  destruct (so_agents s Hs t ap Hat) as (Htb & _).
  apply (table_step s t ap _ (fun h => Some (match h with Some h => (Ok, h) | None => (ObjFull, 0) end))); [done | done |].
  eapply runs_mono; [apply mint_op; [apply (so_world s Hs) | done | by split | by vm_compute]|]. by intros [[w tbl] h] [? _].
Qed.

Lemma skill_propose_advances s t op a b c : sys_ok s -> room (world s) -> 0 <= t -> is_u64 op -> is_u64 a -> is_u64 b -> is_u64 c ->
  runs (agent_skill_propose s t op a b c) (fun '(s', _) => advances [t] s s').
Proof.
  intros Hs Hr Ht Hop Ha Hb Hc. apply facade_runs; [done | done |]. intros ap Hat. destruct (so_agents s Hs t ap Hat) as (Htb & ? & ? & ?).
  eapply runs_bind with (P := fun '(s1, _) => advances [t] s s1 /\ room (world s1)).
  { destruct (skill_home ap =? Handle.NULL); [|apply runs_val; split; [by apply sys_advances_refl | done]].
    unfold mint_memory_home. eapply runs_bind; [apply (mint_op (world s) (table ap) wp_rights _ (so_world s Hs) Htb (home_ok _)); by vm_compute|].
    intros [[w tbl] [h|]] (Hmint & Hh & Hroom); specialize (Hroom Hr ltac:(by intros m [= <-])).
    - assert (forall ap', agent_at s t ap -> store s t ap' w tbl = Val (stored s t (set_table ap' tbl) w)) as Est.
      { intros ap' _. pose proof (agent_range s t ap Hs Hat). unfold store. by rewrite upd_ok by (rewrite (so_len s Hs); lia). }
      rewrite Est, bind_val by done. apply runs_val. split; [|done]. apply (stored_advances s t ap); try done. by apply Hh.
    - rewrite store_eq, bind_val by done. apply runs_val. split; [|done]. by apply (stored_advances s t ap). }
  intros [s1 [|]] [Hadv Hr1]; [|by apply runs_val].
  eapply runs_mono; [apply (dispatch_as_advances s1 t); [apply Hadv | done | done |]|].
  { intros ap' _ Hsk. by apply args4_ok. }
  intros [s2 r] H2. by eapply sys_advances_trans.
Qed.

Lemma inspect_quiet deny w t h : table_ok w t -> is_u64 h -> runs (dispatch deny w t (call M_OBJECT_INSPECT h)) (fun '(w', t', _) => w' = w /\ t' = t).
Proof.
  intros Ht Hh. rewrite dispatch_gate_eq. destruct (gate deny t (call M_OBJECT_INSPECT h)) eqn:Eg; [by apply runs_val|].
  destruct (gate_open _ _ _ Eg) as (need & o & r & _ & Hc & _). cbn [handle call] in *.
  destruct (object_of_cap w t h o r Ht Hh Hc) as (x & _ & _ & _ & Hob). unfold run_method. cbn [method call]. rewrite Z.eqb_refl, Hob, bind_val.
  by apply runs_val.
Qed.

Lemma store_same s t ap : sys_ok s -> agent_at s t ap -> store s t ap (world s) (table ap) = Val s.
Proof.
  intros Hs Hat. rewrite store_eq by done. unfold stored, set_agents, set_world. cbn. destruct Hat as [_ E].
  replace (set_table ap (table ap)) with ap by by destruct ap. rewrite list_insert_id by done. by destruct s.
Qed.

Lemma born_ok_advances s t : sys_ok s -> 0 <= t -> runs (agent_born_ok s t) (fun '(s', _) => advances [t] s s').
Proof.
  intros Hs Ht. apply (facade_runs s t _ false); [done | done |]. intros ap Hat. destruct (so_agents s Hs t ap Hat) as (Htb & Hmh & Hbs & _).
  eapply runs_bind; [by apply inspect_quiet|]. intros [[w tbl] mh] [-> ->]. eapply runs_bind; [by apply inspect_quiet|].
  intros [[w tbl] bs] [-> ->]. rewrite store_same, bind_val by done. apply runs_val. by apply sys_advances_refl.
Qed.

(** ** Calls on the system *)

(** A call that needs only the system; a system call is made by the current task. *)
Inductive facade :=
  | Syscall (m h a0 a1 : Z)
  | MemDispatch (t m a0 a1 a2 a3 : Z)
  | CapDispatch (t m h a0 a1 : Z)
  | BlockDispatch (t m h a0 a1 a2 : Z)
  | ModelDispatch (t m h a0 : Z)
  | ChanSend (t ep payload cap_h : Z)
  | ChanRecv (t ep : Z)
  | ChannelConnect (a b bound : Z)
  | MintGeneric (t r : Z)
  | ModelOpen (t : Z) (scheme : list Z)
  | SkillPropose (t op a b c : Z)
  | ConsolidateCycle (t : Z)
  | MemAccumulator (t : Z)
  | BornOk (t : Z).

Definition exec (s : System) (f : facade) : res System :=
  match f with
  | Syscall m h a0 a1 => '(s, _) ← agent_syscall_current s m h a0 a1; Val s
  | MemDispatch t m a0 a1 a2 a3 => '(s, _) ← agent_mem_dispatch s t m a0 a1 a2 a3; Val s
  | CapDispatch t m h a0 a1 => '(s, _) ← agent_cap_dispatch s t m h a0 a1; Val s
  | BlockDispatch t m h a0 a1 a2 => '(s, _) ← agent_block_dispatch s t m h a0 a1 a2; Val s
  | ModelDispatch t m h a0 => '(s, _) ← agent_model_dispatch s t m h a0; Val s
  | ChanSend t ep p c => '(s, _) ← agent_chan_send s t ep p c; Val s
  | ChanRecv t ep => '(s, _) ← agent_chan_recv_full s t ep; Val s
  | ChannelConnect a b bound => '(s, _) ← agent_channel_connect s a b bound; Val s
  | MintGeneric t r => '(s, _) ← agent_mint_generic s t r; Val s
  | ModelOpen t scheme => '(s, _) ← agent_model_open s t scheme; Val s
  | SkillPropose t op a b c => '(s, _) ← agent_skill_propose s t op a b c; Val s
  | ConsolidateCycle t => '(s, _) ← agent_consolidate_cycle s t; Val s
  | MemAccumulator t => '(s, _) ← agent_mem_accumulator s t; Val s
  | BornOk t => '(s, _) ← agent_born_ok s t; Val s
  end.

(** The tasks a call acts for. *)
Definition actors (s : System) (f : facade) : list Z :=
  match f with
  | Syscall _ _ _ _ => [Sched.CURRENT_TASK (sched (world s))]
  | MemDispatch t _ _ _ _ _ | CapDispatch t _ _ _ _ | BlockDispatch t _ _ _ _ _ | ModelDispatch t _ _ _
  | ChanSend t _ _ _ | ChanRecv t _ | MintGeneric t _ | ModelOpen t _ | SkillPropose t _ _ _ _ | ConsolidateCycle t
  | MemAccumulator t | BornOk t => [t]
  | ChannelConnect a b _ => [a; b]
  end.

Definition facade_ok (f : facade) : Prop :=
  match f with
  | Syscall _ h a0 a1 => Forall is_u64 [h; a0; a1]
  | MemDispatch t _ a0 a1 a2 a3 => Forall is_u64 [t; a0; a1; a2; a3]
  | CapDispatch t _ h a0 a1 => Forall is_u64 [t; h; a0; a1]
  | BlockDispatch t _ h a0 a1 a2 => Forall is_u64 [t; h; a0; a1; a2]
  | ModelDispatch t _ h a0 => Forall is_u64 [t; h; a0]
  | ChanSend t ep p c => Forall is_u64 [t; ep; p; c]
  | ChanRecv t ep => Forall is_u64 [t; ep]
  | ChannelConnect a b _ => Forall is_u64 [a; b]
  | MintGeneric t r => is_u64 t /\ is_u32 r
  | ModelOpen t _ | ConsolidateCycle t | MemAccumulator t | BornOk t => is_u64 t
  | SkillPropose t op a b c => Forall is_u64 [t; op; a; b; c]
  end.

Ltac split_u64 H := repeat (apply Forall_cons_1 in H as [? H]).

Lemma runs_fst {A B} (m : res (A * B)) (P : A -> Prop) : runs m (fun '(a, _) => P a) -> runs ('(a, _) ← m; Val a) P.
Proof. intros H. eapply runs_bind; [exact H|]. intros [a b] Ha. by apply runs_val. Qed.

Lemma exec_advances s f : sys_ok s -> room (world s) -> facade_ok f -> runs (exec s f) (fun s' => advances (actors s f) s s').
Proof.
  intros Hs Hr Hf. assert (forall t, is_u64 t -> 0 <= t) as Hpos by (unfold in_u; lia).
  destruct f; cbn [facade_ok] in Hf; try split_u64 Hf; cbn [exec actors]; apply runs_fst.
  - by apply syscall_advances.
  - apply dispatch_as_advances; auto. intros ap Hm _. by apply args4_ok.
  - apply dispatch_as_advances; auto. intros ap _ _. by apply args4_ok; [..|apply u64_0|apply u64_0].
  - apply dispatch_as_advances; auto. intros ap _ _. by apply args4_ok; [..|apply u64_0].
  - apply dispatch_as_advances; auto. intros ap _ _. by apply args4_ok; [.. |apply u64_0|apply u64_0|apply u64_0].
  - apply dispatch_as_advances; auto. intros ap _ _. by apply args4_ok; [..|apply u64_0|apply u64_0].
  - apply recv_full_advances; auto.
  - apply connect_advances; auto.
  - destruct Hf. apply mint_into_advances; auto. by split.
  - apply model_open_advances; auto.
  - apply skill_propose_advances; auto.
  - apply dispatch_as_advances; auto. intros ap Hm _. apply args4_ok; (done || unfold in_u; lia).
  - apply dispatch_as_advances; auto. intros ap Hm _. apply args4_ok; (done || unfold in_u; lia).
  - apply born_ok_advances; auto.
Qed.

(** ** Birth *)

Lemma alloc_push (t : HandleTable) r o : free t = [] -> zlen (slots t) < cap t ->
  exists h t', alloc t r o = Val (Some h, t') /\ free t' = [] /\ zlen (slots t') = zlen (slots t) + 1 /\ cap t' = cap t.
Proof.
  intros Hf Hl. unfold alloc. rewrite Hf. cbn [pop]. rewrite decide_False by lia. eexists _, _. split; [done|]. cbn. by rewrite zlen_app.
Qed.

(** A table being filled for a new agent in a world that held none of its objects. *)
Record birth (w0 : World) (n : Z) (w : World) (t : HandleTable) : Prop := {
  bi_world : world_ok w;
  bi_table : table_ok w t;
  bi_free : free t = [];
  bi_slots : zlen (slots t) = n;
  bi_cap : cap t = TABLE_CAPACITY;
  bi_sched : sched w = sched w0;
  bi_channels : channels w = channels w0;
  bi_grows : grows w0 w;
  bi_kept : forall o x, objects w0 !! o = Some x -> objects w !! o = Some x;
  bi_next : next_id w0 <= next_id w;
  bi_fresh : forall h o r, is_u64 h -> cap_of t h = Some (o, r) -> next_id w0 <= o;
}.

(** Handle [h] is the only way to [o], with the home's rights. *)
Record sole (w : World) (t : HandleTable) (h o : Z) : Prop := {
  sl_u64 : is_u64 h;
  sl_cap : cap_of t h = Some (o, mh_rights);
  sl_object : is_Some (objects w !! o);
  sl_only : forall h' r, is_u64 h' -> cap_of t h' = Some (o, r) -> r = mh_rights;
}.

Lemma birth_start w : world_ok w -> birth w 0 w (with_capacity TABLE_CAPACITY).
Proof.
  intros Hw. constructor; try done. by apply (empty_table_ok w TABLE_CAPACITY).
Qed.

Lemma birth_mint w0 n w t r x : birth w0 n w t -> n < TABLE_CAPACITY -> object_ok w x -> is_u32 r ->
  runs (mint_object w t r x) (fun '(w', t', h) => exists hn, h = Some hn /\ birth w0 (n + 1) w' t' /\ minted w t r x w' t' hn).
Proof.
  intros [Hw Ht Hf Hs Hc Hsc Hch Hg Hk Hn Hfr] Hlt Hx Hr. destruct (alloc_push t r (next_id w)) as (hn & t1 & Ea & Hf1 & Hs1 & Hc1); [done | lia |].
  eapply runs_with; [by apply mint_object_spec|]. intros [[w' t'] h] E (Hw' & Ht' & Hg' & Hm).
  assert (h = Some hn /\ t' = t1) as [-> ->].
  { unfold mint_object in E. cbn [fresh] in E. rewrite Ea, bind_val in E. by injection E as _ <- <-. }
  exists hn. split; [done|]. split; [|done]. destruct Hm as (-> & _ & _ & _ & _ & _ & Hmap). constructor; try done.
  - rewrite Hs1. lia.
  - by rewrite Hc1.
  - destruct Hg as (? & ? & ?), Hg' as (? & ? & ?). split_and!; auto.
  - intros o y Hy. cbn. rewrite lookup_insert_ne; [by apply Hk|]. apply Hk in Hy. destruct (wo_objects w Hw o y Hy). lia.
  - cbn. lia.
  - intros h o r' Hh Hcap. rewrite Hmap in Hcap by done. case_decide; [injection Hcap as <- _; lia | by apply (Hfr h o r')].
Qed.

Lemma sole_mint w t r x w' t' hn h o : world_ok w -> minted w t r x w' t' hn -> sole w t h o -> sole w' t' h o.
Proof.
  intros Hw (-> & _ & Hhn & _ & _ & Hnone & Hmap) [Hh Hc [y Hy] Ho]. destruct (wo_objects w Hw o y Hy) as [Hlt _]. constructor.
  - done.
  - rewrite Hmap by done. case_decide; [congruence | done].
  - cbn. rewrite lookup_insert_ne by lia. by exists y.
  - intros h' r' Hh' Hc'. rewrite Hmap in Hc' by done. case_decide; [injection Hc' as <- _; lia | by apply (Ho h')].
Qed.

Lemma birth_full w0 n w t r x : birth w0 n w t -> n = TABLE_CAPACITY -> mint_object w t r x = Val (w, t, None).
Proof.
  intros [_ _ Hf Hs Hc _ _ _ _ _ _] ->. unfold mint_object. cbn [fresh]. unfold alloc. rewrite Hf. cbn [pop].
  by rewrite decide_True by lia.
Qed.

Lemma birth_manifest w0 m : forall n w t h o, birth w0 n w t -> sole w t h o -> n <= TABLE_CAPACITY -> Forall (fun g => is_u32 (grant_rights g)) m ->
  concludes (mint_manifest_caps w t m) (fun '(w', t') => birth w0 (n + zlen m) w' t' /\ sole w' t' h o) (TABLE_CAPACITY < n + zlen m).
Proof.
  induction m as [|g m IH]; intros n w t h o Hb Hs Hn Hm; cbn [mint_manifest_caps].
  { cbn. rewrite zlen_nil. by replace (n + 0) with n by lia. }
  rewrite zlen_cons in *. apply Forall_cons_1 in Hm as [Hg Hm]. pose proof (zlen_nonneg m). unfold mint.
  destruct (decide (n = TABLE_CAPACITY)) as [E|Hne]; [rewrite (birth_full w0 n), bind_val by done; cbn; lia|].
  eapply concludes_bind; [eapply runs_concludes, (birth_mint w0 n w t); [done | lia | by split | done]|]. intros [[w' t'] h'] (hn & -> & Hb' & Hmin).
  replace (n + (1 + zlen m)) with (n + 1 + zlen m) by lia. apply IH; [done | | lia | done]. eapply sole_mint; [apply Hb | exact Hmin | done].
Qed.

Lemma birth_table w0 m : world_ok w0 -> Forall (fun g => is_u32 (grant_rights g)) m ->
  concludes (born_table w0 m) (fun '(w, t, (mh, bs, bud)) => birth w0 (3 + zlen m) w t /\ is_u64 bs /\ exists o, next_id w0 <= o /\ sole w t mh o)
    (TABLE_CAPACITY < 3 + zlen m).
Proof.
  intros Hw Hm. pose proof (zlen_nonneg m). unfold born_table, mint_memory_home, mint.
  eapply concludes_bind; [eapply runs_concludes, (birth_mint w0 0); [by apply birth_start | done | apply home_ok | by vm_compute]|].
  intros [[w1 t1] h1] (mh & -> & B1 & M1). assert (sole w1 t1 mh (next_id w0)) as S1.
  { destruct M1 as (-> & _ & Hh & _ & _ & _ & Hmap). constructor; [done | by rewrite Hmap, decide_True | cbn; rewrite lookup_insert_eq; by eexists |].
    intros h' r Hh' Hc. rewrite Hmap in Hc by done. case_decide; [congruence|].
    unfold cap_of in Hc. cbn in Hc. by rewrite lookup_nil in Hc. }
  eapply concludes_bind; [eapply runs_concludes, (birth_mint w0 1 w1 t1); [exact B1 | done | by split | by vm_compute]|].
  intros [[w2 t2] h2] (bs & -> & B2 & M2). pose proof (sole_mint _ _ _ _ _ _ _ _ _ (bi_world _ _ _ _ B1) M2 S1) as S2.
  eapply concludes_bind; [eapply runs_concludes, (birth_mint w0 2 w2 t2); [exact B2 | done | by split | by vm_compute]|].
  intros [[w3 t3] h3] (bud & -> & B3 & M3). pose proof (sole_mint _ _ _ _ _ _ _ _ _ (bi_world _ _ _ _ B2) M3 S2) as S3.
  eapply concludes_bind; [apply (birth_manifest w0 m 3 w3 t3 mh (next_id w0)); [exact B3 | exact S3 | done | exact Hm]|].
  intros [w4 t4] [B4 S4]. cbn. split; [done|]. split; [apply M2|]. by exists (next_id w0).
Qed.

Lemma spawn_sched s slot sp top root : Sched.sched_ok s -> sp <> 0 -> slot = Sched.NEXT_TASK_SLOT s -> slot < MAX_TASKS ->
  exists s', Sched.sched_ok s' /\
    (v ← upd (Sched.TASK_SP s) slot sp;
     k ← upd (Sched.TASK_KSTACK_TOP s) slot top;
     a ← upd (Sched.TASK_AS s) slot root;
     Sched.enqueue (Sched.set_as (Sched.set_kstack_top (Sched.set_sp (Sched.set_next_slot s (wrapping_add usize_bits slot 1)) v) k) a) slot) = Val s'.
Proof.
  intros Hs Hsp -> Hlt. set (slot := Sched.NEXT_TASK_SLOT s) in *. pose proof (Sched.so_next s Hs) as Hn. fold slot in Hn. unfold MAX_TASKS in Hlt.
  set (k := <[Z.to_nat slot := top]> (Sched.TASK_KSTACK_TOP s)). set (a := <[Z.to_nat slot := root]> (Sched.TASK_AS s)).
  set (s1 := Sched.set_as (Sched.set_kstack_top s k) a).
  assert (Sched.sched_ok s1) as Hs1.
  { destruct Hs. constructor; try done; cbn; unfold k, a; by rewrite zlen_insert. }
  destruct (Sched.scheduler_spawn_ok s1 Sched.MIN_STACK_WORDS sp Hs1) as (s' & E & Hok & _); [by vm_compute | done | exact Hlt |].
  exists s'. split; [done|]. unfold Sched.scheduler_spawn, Sched.task_create in E. cbv zeta in E. change (Sched.NEXT_TASK_SLOT s1) with slot in E.
  rewrite Z.ltb_irrefl in E. rewrite (proj2 (Z.leb_gt Sched.MAX_TASKS slot)) in E by lia.
  change (Sched.TASK_SP (Sched.set_next_slot s1 (wrapping_add usize_bits slot 1))) with (Sched.TASK_SP s) in E.
  rewrite (upd_ok (Sched.TASK_SP s)) in E |- * by (rewrite (Sched.so_sp s Hs); lia).
  rewrite (upd_ok (Sched.TASK_KSTACK_TOP s)) by (rewrite (Sched.so_kstack s Hs); lia).
  rewrite (upd_ok (Sched.TASK_AS s)) by (rewrite (Sched.so_as s Hs); lia).
  rewrite !bind_val. rewrite 2!bind_val in E. apply bind_val_inv in E as (s2 & E & E2). injection E2 as <-. exact E.
Qed.

Definition spawnable (s : System) (m : list CapGrant) (launch : Z -> Z -> Z) : Prop :=
  3 + zlen m <= TABLE_CAPACITY /\ Forall (fun g => is_u32 (grant_rights g)) m /\
  Sched.NEXT_TASK_SLOT (sched (world s)) < MAX_TASKS /\ forall mh bs, launch mh bs <> 0.

(** The system with the agent [ap] in task slot [slot]. *)
Definition spawned (s : System) (w : World) (sch : Sched.Sched) (slot : Z) (ap : AgentProcess) (p d : list bool) : System :=
  mkSys (set_sched w sch) (<[Z.to_nat slot := Some ap]> (agents s)) p d (cognitive_deny s).

Section spawned.
Context (s : System) (n : Z) (w : World) (sch : Sched.Sched) (slot : Z) (ap : AgentProcess) (p d : list bool).
Context (Hs : sys_ok s) (Hb : birth (world s) n w (table ap)) (Hsch : Sched.sched_ok sch) (Hslot : 0 <= slot < MAX_TASKS).

Lemma spawned_at b apb : agent_at (spawned s w sch slot ap p d) b apb -> (b = slot /\ apb = ap) \/ (b <> slot /\ agent_at s b apb).
Proof. exact (stored_at s slot ap w b apb Hs Hslot). Qed.

Lemma newborn_fresh h o r : is_Some (objects (world s) !! o) -> is_u64 h -> cap_of (table ap) h <> Some (o, r).
Proof. intros [x Hx] Hh Hc. pose proof (bi_fresh _ _ _ _ Hb h o r Hh Hc). destruct (wo_objects _ (so_world s Hs) o x Hx). lia. Qed.

Lemma newborn_quiet o r : in_transit (set_sched w sch) o r -> in_transit (world s) o r.
Proof. intros (c & ch & sd & m & Hc & Hm). cbn in Hc. rewrite (bi_channels _ _ _ _ Hb) in Hc. by exists c, ch, sd, m. Qed.

Lemma spawned_advances : is_u64 (memory_home ap) -> is_u64 (bootstrap ap) -> is_u64 (skill_home ap) -> zlen p = MAX_TASKS -> zlen d = MAX_TASKS ->
  advances [] s (spawned s w sch slot ap p d).
Proof.
  intros Hmh Hbs Hsk Hp Hd. pose proof (bi_grows _ _ _ _ Hb) as Hg. split; [split; try done|].
  - apply world_set_sched; [apply (bi_world _ _ _ _ Hb) | apply (Sched.so_state sch Hsch)].
  - cbn. rewrite zlen_insert. apply (so_len s Hs).
  - intros b apb [[-> ->]|[_ Hb']]%spawned_at.
    + split_and!; try done. by destruct (bi_table _ _ _ _ Hb).
    + destruct (so_agents s Hs b apb Hb') as (? & ?). split; [by eapply table_ok_grows | done].
  - intros a o Ha [Po Poth Pown Ptr]. split; [split|].
    + by apply Hg.
    + intros b apb h r Hne [[-> ->]|[_ Hb']]%spawned_at Hh; [by apply newborn_fresh | by apply (Poth b)].
    + intros apa h r [[-> ->]|[_ Ha']]%spawned_at Hh Hc; [by destruct (newborn_fresh h o r Po Hh) | by apply (Pown apa h r)].
    + intros r Hr. by apply (Ptr r), newborn_quiet.
    + intros _. cbn. destruct Po as [x Hx]. rewrite Hx. by apply (bi_kept _ _ _ _ Hb).
Qed.

Lemma spawned_private h o : next_id (world s) <= o -> sole w (table ap) h o -> private (spawned s w sch slot ap p d) slot o.
Proof.
  intros Ho S. assert (forall x, objects (world s) !! o <> Some x) as Hnone.
  { intros x Hx. destruct (wo_objects _ (so_world s Hs) o x Hx). lia. }
  split.
  - apply S.
  - intros b apb h' r Hne [[-> _]|[_ Hb']]%spawned_at Hh Hc; [done|]. destruct (so_agents s Hs b apb Hb') as (Htb & _).
    destruct (to_caps _ _ Htb h' o r Hh Hc) as [[x Hx] _]. by apply (Hnone x).
  - intros apa h' r [[_ ->]|[? _]]%spawned_at Hh Hc; [by rewrite (sl_only _ _ _ _ S h' r Hh Hc) | done].
  - intros r (c & ch & sd & m & Hc & Hsd & Hin & Hm)%newborn_quiet. destruct (wo_channels _ (so_world s Hs) c ch Hc) as (_ & Hg).
    destruct (cg_caps _ _ Hg sd m o r Hsd Hin Hm) as [[x Hx] _]. by apply (Hnone x).
Qed.
End spawned.

(** Spawning halts only when the born-with handles and the grants do not fit the table, or no
    task slot is left. *)
Lemma spawn_concludes s m root top launch : sys_ok s -> Forall (fun g => is_u32 (grant_rights g)) m -> (forall mh bs, launch mh bs <> 0) ->
  concludes (agent_spawn s m root top launch) (fun '(s', t) => advances [] s s' /\ 0 <= t /\
    exists ap o, agent_at s' t ap /\ cap_of (table ap) (memory_home ap) = Some (o, mh_rights) /\ private s' t o)
    (TABLE_CAPACITY < 3 + zlen m \/ MAX_TASKS <= Sched.NEXT_TASK_SLOT (sched (world s))).
Proof.
  intros Hs Hm Hlaunch. unfold agent_spawn.
  eapply concludes_bind; [eapply concludes_mono; [apply (birth_table (world s) m (so_world s Hs) Hm) | intros x Hx; exact Hx | by left]|].
  intros [[w tbl] [[mh bs] bud]] (B & Hbs & o & Ho & S). cbv zeta. rewrite (bi_sched _ _ _ _ B).
  set (sc := sched (world s)). set (slot := Sched.NEXT_TASK_SLOT sc). destruct (Z.leb_spec MAX_TASKS slot) as [Hfull|Hslot]; [by right|]. apply runs_concludes.
  destruct (spawn_sched sc slot (launch mh bs) top root (so_sched s Hs) (Hlaunch mh bs) eq_refl Hslot) as (sch & Hsch & E).
  pose proof (Sched.so_next sc (so_sched s Hs)) as Hnext. fold slot in Hnext. unfold MAX_TASKS in Hslot. fold sc slot in Hslot.
  cbn [Sched.TASK_SP Sched.TASK_KSTACK_TOP Sched.TASK_AS Sched.set_next_slot Sched.set_sp Sched.set_kstack_top].
  rewrite (upd_ok (Sched.TASK_SP sc)) in E |- * by (rewrite (Sched.so_sp sc (so_sched s Hs)); lia). rewrite bind_val. rewrite bind_val in E.
  rewrite (upd_ok (Sched.TASK_KSTACK_TOP sc)) in E |- * by (rewrite (Sched.so_kstack sc (so_sched s Hs)); lia). rewrite bind_val. rewrite bind_val in E.
  rewrite (upd_ok (Sched.TASK_AS sc)) in E |- * by (rewrite (Sched.so_as sc (so_sched s Hs)); lia). rewrite bind_val. rewrite bind_val in E.
  rewrite (upd_ok (permitted_ok s)), bind_val by (rewrite (so_permitted s Hs); unfold MAX_TASKS; lia).
  rewrite (upd_ok (denied_ok s)), bind_val by (rewrite (so_denied s Hs); unfold MAX_TASKS; lia).
  rewrite (upd_ok (agents s)), bind_val by (rewrite (so_len s Hs); unfold MAX_TASKS; lia).
  rewrite E, bind_val. apply runs_val. clear E. set (ap := mkAgent _ _ _ _ _ _ _ _ _ _).
  assert (0 <= slot < MAX_TASKS) as Hrange by (unfold MAX_TASKS; lia).
  split; [|split; [lia|]].
  - apply (spawned_advances s (3 + zlen m) w sch slot ap); try done; [apply S | by rewrite zlen_insert; apply (so_permitted s Hs) | by rewrite zlen_insert; apply (so_denied s Hs)].
  - exists ap, o. split; [|split; [apply S | by apply (spawned_private s (3 + zlen m) w sch slot ap _ _ Hs B Hrange mh)]].
    split; [lia|]. cbn. apply list_lookup_insert_eq. pose proof (so_len s Hs). unfold MAX_TASKS, zlen in *. lia.
Qed.

(** *** A booted system *)

(** The system the boot code leaves: the scheduler knows the bootstrap task, no agent exists. *)
Lemma booted : exists s, sys_ok s /\ room (world s) /\ spawnable s [mkGrant ObjKind.Generic Rights.READ] (fun _ _ => 4096).
Proof.
  destruct (Sched.scheduler_init_ok 4096) as (sc & _ & Hsc & _ & Hnext & _).
  exists (mkSys (mkWorld ∅ ∅ ∅ 0 sc) (zrepeat MAX_TASKS None) (zrepeat MAX_TASKS false) (zrepeat MAX_TASKS false) false).
  split; [split; cbn|split].
  - split; try (intros ? ? E; cbn in E; by rewrite lookup_empty in E). apply (Sched.so_state sc Hsc).
  - exact Hsc.
  - done.
  - intros t ap [Ht E]. cbn in E. apply list_elem_of_lookup_2, list_elem_of_In in E. cbn in E. by repeat destruct E as [E|E].
  - done.
  - done.
  - split; cbn; intros ? ?; by rewrite lookup_empty.
  - split; [by vm_compute|]. split; [by repeat constructor|]. cbn. rewrite Hnext. by split.
Qed.
