(* ===== verification/Blocking.v ===== *)
(** * Blocking receives: parking, waking, and no wakeup lost between them.

    [agent_chan_recv_blocking] parks the current task on an empty queue and hands the
    processor over; the send that fills the queue makes it runnable.  What may happen in
    between is any dispatch by anyone. *)
From Stdlib Require Import ZArith Lia.
From stdpp Require Import base numbers option tactics sets list gmap.
From S2P Require Import Prelude Caps Abi Syscall SyscallSpec ChannelSpec Agents AgentsSpec.
From S2P Require Ipc Sched.
Open Scope Z_scope.

(** ** Specification *)

(** Task [task] is parked on the empty queue [ring] of channel [c]. *)
Record waiting (w : World) (c ring task : Z) : Prop := {
  wt_channel : exists ch, channels w !! c = Some ch /\ Ipc.parked ch ring = task /\ Ipc.queue_of ch ring = [];
  wt_blocked : Sched.state_of (sched w) task = Some Sched.TASK_BLOCKED;
}.

(** ** Lemmas *)

Lemma state_of_woken s task t : zlen (Sched.TASK_STATE s) = Sched.MAX_TASKS -> 0 <= task -> 0 <= t ->
  Sched.state_of (woken s task) t = if decide (t = task /\ t < Sched.MAX_TASKS) then Some Sched.TASK_RUNNABLE else Sched.state_of s t.
Proof.
  intros Hl Htask Ht. unfold woken. destruct (Z.ltb_spec task Sched.MAX_TASKS) as [Hlt|Hge].
  - unfold Sched.state_of. cbn. case_decide as E.
    + destruct E as [-> _]. apply list_lookup_insert_eq. unfold zlen, Sched.MAX_TASKS in *. lia.
    + rewrite list_lookup_insert_ne; [done|]. intros Heq. apply E. assert (t = task) as -> by lia. done.
  - case_decide as E; [destruct E; lia | done].
Qed.

Lemma waiting_traffic w t w' c ring task : world_ok w -> Ipc.side_ok ring -> Sched.task_ok task -> waiting w c ring task -> traffic w t w' ->
  waiting w' c ring task \/ Sched.state_of (sched w') task = Some Sched.TASK_RUNNABLE.
Proof.
  intros Hw Hr Htk [(ch & Hc & Hp & Hq) Hb] Htr.
  assert (task <> Ipc.NO_WAITER) as Hnw by (destruct Htk; unfold Sched.MAX_TASKS in *; vm_compute (Ipc.NO_WAITER); lia).
  destruct Htr as [Ec Es|c2 s ch2 m Hc2 Hs _ Ec Es|c2 s ch2 m tl Hc2 Hs Hq2 Ec Es|c2 s ch2 Hc2 Hs Ec Es].
  - left. split; [|by rewrite Es]. exists ch. by rewrite Ec.
  - destruct (wo_channels w Hw c2 ch2 Hc2) as (_ & [Hok _ Hwt _]). rewrite Es. cbn [delivered sched channels] in *.
    destruct (Z.eqb_spec (Ipc.parked ch2 s) Ipc.NO_WAITER) as [E0|E0].
    + left. split; [|by rewrite Es]. rewrite Ec. destruct (decide (c = c2)) as [->|Hne]; [|exists ch; by rewrite lookup_insert_ne].
      rewrite Hc in Hc2. injection Hc2 as <-. exists (enqueued ch s m). rewrite lookup_insert_eq. split; [done|].
      rewrite parked_enqueued, queue_of_enqueued by done. case_decide as Ers; [subst ring; congruence | done].
    + rewrite state_of_woken by (apply (wo_sched w Hw) || by apply Hwt || apply Htk). case_decide as Et; [by right|]. left.
      split; [|by rewrite Es, state_of_woken, decide_False by (done || apply (wo_sched w Hw) || by apply Hwt || apply Htk)]. rewrite Ec. destruct (decide (c = c2)) as [->|Hne]; [|exists ch; by rewrite lookup_insert_ne].
      rewrite Hc in Hc2. injection Hc2 as <-. exists (enqueued ch s m). rewrite lookup_insert_eq. split; [done|].
      rewrite parked_enqueued, queue_of_enqueued by done. case_decide as Ers; [|done]. exfalso. apply Et. subst ring. split; [done | apply Htk].
  - left. rewrite <- Es in Hb. split; [|exact Hb]. rewrite Ec. destruct (decide (c = c2)) as [->|Hne]; [|exists ch; by rewrite lookup_insert_ne].
    rewrite Hc in Hc2. injection Hc2 as <-. destruct (wo_channels w Hw c2 ch Hc) as (_ & [Hok _ _ _]).
    exists (Ipc.with_queue ch s tl). rewrite lookup_insert_eq. split; [done|]. rewrite parked_with_queue, Ipc.queue_of_with_queue by done.
    case_decide as Ers; [subst ring; congruence | done].
  - left. rewrite <- Es in Hb. split; [|exact Hb]. rewrite Ec. destruct (decide (c = c2)) as [->|Hne]; [|exists ch; by rewrite lookup_insert_ne].
    rewrite Hc in Hc2. injection Hc2 as <-. exists (Ipc.with_closed ch s). by rewrite lookup_insert_eq.
Qed.

Lemma chan_of_endpoint w t h need c s : table_ok w t -> endpoint w t h need c s -> chan_of w t h = Val (Some (c, s)).
Proof.
  intros Ht [Hh (o & r & x & Hc & _ & Hx & Hch)]. destruct (object_of_cap w t h o r Ht Hh Hc) as (x' & Hx' & Hl & _ & Hob).
  rewrite Hx in Hx'. injection Hx' as <-. unfold chan_of. by rewrite Hl, Hob, bind_val, Hch.
Qed.

(** What a receive through an endpoint answers. *)
Lemma recv_endpoint w t h c s ch : world_ok w -> table_ok w t -> endpoint w t h Rights.READ c s -> channels w !! c = Some ch ->
  exists w' t' st p mv, chan_recv w t h = Val (w', t', (st, p, mv)) /\ sched w' = sched w /\
    (st = WouldBlock -> w' = w /\ t' = t /\ Ipc.queue_of ch (1 - s) = []) /\
    (Ipc.queue_of ch (1 - s) <> [] -> st <> WouldBlock) /\ (Ipc.is_open ch (1 - s) = false -> st <> WouldBlock).
Proof.
  intros Hw Ht [Hh (o & r & x & Hc & Hr & Hx & Hch)] Hchan. rewrite (chan_recv_eq w t h o r) by done.
  pose proof (recv_spec w t h o r x c s ch Hw Ht Hh Hc Hx Hch Hchan) as Hspec. unfold recv_result in Hspec.
  destruct (Ipc.queue_of ch (1 - s)) as [|m tl].
  - eexists _, _, _, _, _. split; [exact Hspec|]. split; [done|]. by destruct (Ipc.is_open ch (1 - s)).
  - cbv zeta in Hspec. destruct (Ipc.msg_cap m) as [[o' r']|]; [destruct Hspec as [[_ Hspec]|(_ & hn & t' & _ & Hspec)]|];
      (eexists _, _, _, _, _; split; [exact Hspec|]; split; [done|]; by split_and!).
Qed.

(** The world with the current task parked on [ring]. *)
Definition parked_world (w : World) (c ring : Z) (ch : Ipc.Channel Z) : World :=
  put_channel w c (Ipc.with_waiter ch ring (Sched.CURRENT_TASK (sched w))).

Lemma parked_good w ch ring task : chan_good w ch -> Ipc.side_ok ring -> 0 <= task -> Ipc.queue_of ch ring = [] -> chan_good w (Ipc.with_waiter ch ring task).
Proof.
  intros [Hok Hcaps Hwt Hp] Hr Ht Hq. split.
  - by apply Ipc.with_waiter_ok.
  - exact Hcaps.
  - intros s Hs. rewrite Ipc.parked_with_waiter by done. case_decide; [done | by apply Hwt].
  - intros s Hs. rewrite Ipc.parked_with_waiter by done. rewrite queue_of_with_waiter. case_decide as E; [by subst s | by apply Hp].
Qed.

Lemma sys_ok_set_sched s w sch : sys_ok s -> grows (world s) w -> world_ok w -> Sched.sched_ok sch -> sys_ok (set_world s (set_sched w sch)).
Proof.
  intros [Hw Hs Hl Ha Hp Hd] Hg Hww Hsch. split; try done.
  - by apply world_set_sched, (Sched.so_state sch Hsch).
  - intros t ap Hat. destruct (Ha t ap Hat) as (Htb & ?). split; [|done]. destruct (table_ok_grows _ _ _ Hg Htb). by split.
Qed.

(** A receive answers [WouldBlock] only for an endpoint with an empty queue, and then nothing
    has changed. *)
Lemma recv_would_block w t h w' t' r : world_ok w -> table_ok w t -> is_u64 h -> chan_recv w t h = Val (w', t', r) -> r.1.1 = WouldBlock ->
  w' = w /\ t' = t /\ exists c s ch, endpoint w t h Rights.READ c s /\ channels w !! c = Some ch /\ Ipc.queue_of ch (1 - s) = [].
Proof.
  intros Hw Ht Hh E Est. destruct (cap_of t h) as [[o rt]|] eqn:Hc.
  2: { unfold chan_recv in E. pose proof (live_cap_of t h) as Hl. rewrite Hc in Hl. rewrite Hl in E. injection E as _ _ <-.
       cbn in Est. unfold dead_status in Est. by case_decide. }
  destruct (Rights.contains rt Rights.READ) eqn:Hr.
  2: { unfold chan_recv in E. destruct (rights_object_at t h o rt Hc) as (Hl & Hrt & _). rewrite Hl, Hrt, bind_val, Hr in E. by injection E as _ _ <-. }
  destruct (object_of_cap w t h o rt Ht Hh Hc) as (x & Hx & Hl & _ & Hob). destruct (chan x) as [[c s]|] eqn:Hch.
  2: { rewrite (chan_recv_eq w t h o rt) in E by done. unfold chan_recv_body in E. rewrite Hl, Hob, bind_val, Hch in E. by injection E as _ _ <-. }
  destruct (wo_objects w Hw o x Hx) as [_ Hox]. destruct (oo_chan w x Hox c s Hch) as [[ch Hchan] _].
  assert (endpoint w t h Rights.READ c s) as Hep by (split; [done | by exists o, rt, x]).
  destruct (recv_endpoint w t h c s ch Hw Ht Hep Hchan) as (w2 & t2 & st & p & mv & E2 & _ & Hwb & _).
  rewrite E in E2. injection E2 as -> -> ->. destruct (Hwb Est) as (-> & -> & Hq). split; [done|]. split; [done|]. by exists c, s, ch.
Qed.

(** Nobody but the current task can run. *)
Definition nobody_else (s : System) : Prop :=
  forall t', t' ∈ Sched.queue (sched (world s)) -> t' <> Sched.CURRENT_TASK (sched (world s)) ->
    Sched.state_of (sched (world s)) t' <> Some Sched.TASK_RUNNABLE.

Lemma parked_advances s c ring ch sch : sys_ok s -> channels (world s) !! c = Some ch -> Ipc.side_ok ring -> Ipc.queue_of ch ring = [] ->
  Sched.sched_ok sch -> advances [] s (set_world s (set_sched (parked_world (world s) c ring ch) sch)).
Proof.
  intros Hs Hch Hring Hq Hsch. destruct (wo_channels _ (so_world s Hs) c ch Hch) as (_ & Hg).
  destruct (Sched.queue_task _ _ (so_sched s Hs) (Sched.so_current _ (so_sched s Hs))) as [Hc0 _].
  apply world_quiet_advances; [done | | apply (grows_put_channel (world s)) | done | done |].
  - apply world_set_sched; [|apply (Sched.so_state sch Hsch)]. eapply put_channel_ok; [apply (so_world s Hs) | exact Hch | by apply parked_good].
  - intros o r (c' & ch' & sd & m & Hc' & Hsd & Hin & Hm). cbn in Hc'. destruct (decide (c' = c)) as [->|Hne].
    + rewrite lookup_insert_eq in Hc'. injection Hc' as <-. by exists c, ch, sd, m.
    + rewrite lookup_insert_ne in Hc' by done. by exists c', ch', sd, m.
Qed.

(** The end [(c, side)] a wait was begun on: the handle names it for as long as it is live. *)
Definition waits_on (s : System) (t ep c side : Z) : Prop :=
  is_Some (channels (world s) !! c) /\ Ipc.side_ok side /\
  forall ap o r, agent_at s t ap -> cap_of (table ap) ep = Some (o, r) -> exists x, objects (world s) !! o = Some x /\ chan x = Some (c, side).

Lemma wait_turn_concludes s t ep c side saved : sys_ok s -> 0 <= t < MAX_TASKS -> is_u64 ep -> saved <> 0 -> waits_on s t ep c side ->
  concludes (wait_turn s t ep c side saved) (fun '(s', _) => advances [t] s s') (nobody_else s).
Proof.
  intros Hs Ht Hep Hsv ([ch Hch] & Hside & Hon). unfold wait_turn.
  destruct (Prelude.idx_ok (agents s) t) as [[ap|] Hap]; [rewrite (so_len s Hs); lia | | rewrite Hap; by apply sys_advances_refl].
  rewrite Hap, bind_val. apply idx_val_inv in Hap as [_ Hap]. assert (agent_at s t ap) as Hat by (split; [lia | done]).
  destruct (so_agents s Hs t ap Hat) as (Htb & ? & ? & ?).
  destruct (recv_op (world s) (table ap) ep (so_world s Hs) Htb Hep) as ([[w' t'] r] & E & Hop). rewrite E, bind_val. case_bool_decide as Est.
  2: { rewrite store_eq, bind_val by done. by apply (stored_advances s t ap). }
  destruct (recv_would_block _ _ _ _ _ _ (so_world s Hs) Htb Hep E Est) as (-> & -> & c' & s' & ch' & [_ (o & rt & x & Hc & _ & Hx & Hcx)] & Hch' & Hq).
  destruct (Hon ap o rt Hat Hc) as (x' & Hx' & Hcx'). rewrite Hx in Hx'. injection Hx' as <-. rewrite Hcx in Hcx'. injection Hcx' as -> ->.
  rewrite Hch in Hch'. injection Hch' as <-. rewrite store_same, bind_val by done. unfold deref. rewrite Hch, bind_val.
  destruct (wo_channels _ (so_world s Hs) c ch Hch) as (_ & Hg).
  rewrite Ipc.set_waiter_eq, bind_val by (by apply Ipc.side_flip || apply (cg_ok _ ch Hg)). cbv zeta.
  destruct (Sched.queue_task _ _ (so_sched s Hs) (Sched.so_current _ (so_sched s Hs))) as [Hc0 Hc1].
  rewrite (wrap_small 32 (Sched.CURRENT_TASK (sched (world s)))) by (unfold in_u; unfold Sched.MAX_TASKS in Hc1; lia).
  fold (parked_world (world s) c (1 - side) ch). change (sched (parked_world (world s) c (1 - side) ch)) with (sched (world s)).
  destruct (Sched.block_current_cases saved (sched (world s)) (so_sched s Hs) Hsv) as [(tn & _ & _ & _ & sch & -> & Hsch & _)|[Hno ->]]; [|exact Hno].
  rewrite bind_val. cbn. apply (sys_advances_weaken []); [by intros a ?%not_elem_of_nil|].
  by apply parked_advances; [| | apply Ipc.side_flip | |].
Qed.

Lemma recv_blocking_concludes s t ep saved : sys_ok s -> 0 <= t -> is_u64 ep -> saved <> 0 ->
  concludes (agent_chan_recv_blocking s t ep saved) (fun '(s', _) => advances [t] s s') (nobody_else s).
Proof.
  intros Hs Ht Hep Hsv. unfold agent_chan_recv_blocking. eapply concludes_bind; [by eapply runs_concludes, (agent_of_runs s t)|].
  intros [ap|] Hat; [|by apply sys_advances_refl]. specialize (Hat ap eq_refl). destruct (so_agents s Hs t ap Hat) as (Htb & _).
  pose proof (agent_range s t ap Hs Hat) as Hr. unfold chan_of. pose proof (live_cap_of (table ap) ep) as Hl.
  destruct (cap_of (table ap) ep) as [[o rt]|] eqn:Hc; [|rewrite Hl; by apply sys_advances_refl].
  destruct (object_of_cap _ _ ep o rt Htb Hep Hc) as (x & Hx & -> & _ & ->). rewrite !bind_val.
  destruct (chan x) as [[c side]|] eqn:Hcx; [|by apply sys_advances_refl].
  destruct (wo_objects _ (so_world s Hs) o x Hx) as [_ Hox]. destruct (oo_chan _ x Hox c side Hcx) as [Hch Hside].
  assert (waits_on s t ep c side) as Hon.
  { split; [done|]. split; [done|]. intros ap' o' r' Hat' Hc'. rewrite (agent_at_inj s t ap' ap Hat' Hat), Hc in Hc'. injection Hc' as <- <-. by exists x. }
  eapply concludes_bind; [by apply wait_turn_concludes|]. by intros [s' r].
Qed.

(** ** Properties *)

(** C10: a blocking receive answers what the plain one answers, unless that is [WouldBlock];
    then the queue is empty, the current task is recorded as the waiter of that queue and is
    blocked, another task of the run queue, which was and is runnable, is running, and the
    system is well formed; it halts, and only then, when no other task of the run queue is
    runnable. *)
Theorem recv_blocking_answers_or_parks s t ap ep saved c side ch : sys_ok s -> agent_at s t ap ->
  endpoint (world s) (table ap) ep Rights.READ c side -> channels (world s) !! c = Some ch -> saved <> 0 ->
  exists w' t' r, chan_recv (world s) (table ap) ep = Val (w', t', r) /\
    if decide (r.1.1 = WouldBlock) then
      Ipc.queue_of ch (1 - side) = [] /\
      ((exists s', agent_chan_recv_blocking s t ep saved = Val (s', Some None) /\ sys_ok s' /\
          waiting (world s') c (1 - side) (Sched.CURRENT_TASK (sched (world s))) /\
          exists tn, tn ∈ Sched.queue (sched (world s)) /\ tn <> Sched.CURRENT_TASK (sched (world s)) /\
            Sched.state_of (sched (world s)) tn = Some Sched.TASK_RUNNABLE /\
            Sched.CURRENT_TASK (sched (world s')) = tn /\ Sched.state_of (sched (world s')) tn = Some Sched.TASK_RUNNABLE) \/
       ((forall t', t' ∈ Sched.queue (sched (world s)) -> t' <> Sched.CURRENT_TASK (sched (world s)) ->
           Sched.state_of (sched (world s)) t' <> Some Sched.TASK_RUNNABLE) /\
        agent_chan_recv_blocking s t ep saved = Panic))
    else agent_chan_recv_blocking s t ep saved = Val (stored s t (set_table ap t') w', Some (Some r)).
Proof.
  intros Hs Hat Hep Hch Hsv. destruct (so_agents s Hs t ap Hat) as (Htb & _). pose proof (agent_range s t ap Hs Hat) as Ht.
  destruct (recv_endpoint _ _ _ _ _ _ (so_world s Hs) Htb Hep Hch) as (w' & t' & st & p & mv & E & Esch & Hwb & _).
  exists w', t', (st, p, mv). split; [exact E|].
  assert (agent_chan_recv_blocking s t ep saved = '(s, r) ← wait_turn s t ep c side saved; Val (s, Some r)) as ->.
  { unfold agent_chan_recv_blocking, agent_of. rewrite (proj2 (Z.leb_gt MAX_TASKS t)) by lia. destruct Hat as [_ Hat].
    rewrite (idx_Some (agents s) t (Some ap)) by (done || lia). by rewrite bind_val, (chan_of_endpoint _ _ _ _ _ _ Htb Hep), bind_val. }
  unfold wait_turn. rewrite (idx_Some (agents s) t (Some ap)), bind_val by (apply Hat || lia). rewrite E, bind_val.
  cbn [fst]. case_decide as Est.
  2: { rewrite store_eq, bind_val by done. by rewrite bool_decide_false. }
  destruct (Hwb Est) as (-> & -> & Hq). split; [exact Hq|]. rewrite store_same, bind_val, bool_decide_true by done.
  unfold deref. rewrite Hch, bind_val. destruct Hep as [_ (o & r & x & _ & _ & Hx & Hcx)].
  destruct (wo_objects _ (so_world s Hs) o x Hx) as [_ Hox]. destruct (oo_chan _ x Hox c side Hcx) as [_ Hside].
  destruct (wo_channels _ (so_world s Hs) c ch Hch) as (_ & Hg). pose proof (Ipc.side_flip side Hside) as Hring.
  destruct (Sched.queue_task _ _ (so_sched s Hs) (Sched.so_current _ (so_sched s Hs))) as [Hc0 Hc1].
  rewrite (wrap_small 32 (Sched.CURRENT_TASK (sched (world s)))) by (unfold in_u; unfold Sched.MAX_TASKS in Hc1; lia).
  rewrite Ipc.set_waiter_eq, bind_val by (done || apply (cg_ok _ ch Hg)). fold (parked_world (world s) c (1 - side) ch).
  cbv zeta. change (sched (parked_world (world s) c (1 - side) ch)) with (sched (world s)).
  destruct (Sched.block_current_cases saved (sched (world s)) (so_sched s Hs) Hsv) as [(tn & Hin & Hne & Hrun & sch & -> & Hsch & _ & Hcur & Hst)|[Hno ->]]; [left|by right].
  rewrite !bind_val. eexists. split; [done|]. split; [|split; [split|]].
  - apply sys_ok_set_sched; [done | apply grows_put_channel | | done]. eapply put_channel_ok; [apply (so_world s Hs) | exact Hch | by apply parked_good].
  - exists (Ipc.with_waiter ch (1 - side) (Sched.CURRENT_TASK (sched (world s)))). cbn. rewrite lookup_insert_eq. split; [done|].
    rewrite Ipc.parked_with_waiter, decide_True by (done || apply (cg_ok _ ch Hg)). done.
  - cbn. unfold Sched.state_of. rewrite Hst. apply list_lookup_insert_eq. pose proof (Sched.so_state _ (so_sched s Hs)). unfold zlen in *. lia.
  - exists tn. do 3 (split; [done|]). split; [exact Hcur|]. unfold Sched.state_of. cbn. rewrite Hst, list_lookup_insert_ne; [exact Hrun|].
    pose proof (Sched.queue_task _ _ (so_sched s Hs) Hin) as [? _]. lia.
Qed.

(** C9: no wakeup is lost.  Whatever one dispatch by anyone does to a channel on whose empty
    queue a task is parked, afterwards the task is runnable, or it is still the recorded
    waiter of that queue and the queue is still empty: a message never sits in a queue whose
    receiver sleeps. *)
Theorem no_lost_wakeup deny w t a c ring task : world_ok w -> table_ok w t -> room w -> args_ok a -> Ipc.side_ok ring -> Sched.task_ok task ->
  waiting w c ring task ->
  runs (dispatch deny w t a) (fun '(w', _, _) => waiting w' c ring task \/ Sched.state_of (sched w') task = Some Sched.TASK_RUNNABLE).
Proof.
  intros Hw Ht Hr Ha Hring Htk Hwait. eapply runs_with; [by apply (dispatch_effect deny w t a)|]. intros [[w' t'] ret] E _.
  eapply waiting_traffic; [done | done | done | done | by eapply dispatch_traffic].
Qed.

(** ** Witnesses *)

(** Task 1 is an agent that holds the receiving end of an empty channel. *)
Lemma demo_receiver : exists s ap c, sys_ok s /\ agent_at s 1 ap /\ endpoint (world s) (table ap) (memory_home ap) Rights.READ c 1 /\
  channels (world s) !! c = Some (Ipc.create 2) /\ 1 ∈ Sched.queue (sched (world s)) /\ Sched.CURRENT_TASK (sched (world s)) = 0 /\
  Sched.state_of (sched (world s)) 1 = Some Sched.TASK_RUNNABLE.
Proof.
  destruct demo_linked as (w & ta & tb & ha & hb & c & [Hw Ha Hb _ _ Heb] & _ & Hnew & _). cbn [fst snd] in *.
  destruct Sched.three_tasks as (sc & Hsc & Hq & Hcur & _ & Hst). pose proof Heb as [Hhb (o & r & x & Hc & Hr & Hx & Hch)].
  destruct (wo_objects w Hw o x Hx) as [_ Hox]. destruct (oo_chan w x Hox c (1 - 0) Hch) as [[ch Hchan] _].
  set (ap := mkAgent [] 8192 tb 1 65536 hb 0 0 1 0).
  exists (mkSys (set_sched w sc) (None :: Some ap :: replicate 10 None) (zrepeat MAX_TASKS false) (zrepeat MAX_TASKS false) false), ap, c.
  split; [split|].
  - apply world_set_sched; [done | apply (Sched.so_state sc Hsc)].
  - exact Hsc.
  - done.
  - intros t apt [Ht E]. assert (apt = ap) as ->.
    { cbn in E. apply list_elem_of_lookup_2, list_elem_of_In in E. cbn in E. repeat destruct E as [E|E]; try done. by injection E. }
    split_and!; [split; [apply (to_wf w tb Hb) | apply (to_caps w tb Hb)] | exact Hhb | by vm_compute | by vm_compute].
  - done.
  - done.
  - split; [by split|]. split; [split; [done | by exists o, r, x]|]. split; [cbn; by rewrite Hchan, (Hnew ch Hchan)|].
    cbn [world sched set_sched]. split; [rewrite Hq; apply list_elem_of_In; cbn; tauto|]. split; [done|]. unfold Sched.state_of. by rewrite Hst.
Qed.

Lemma recv_blocking_answers_or_parks_witness : exists s s' h c, agent_chan_recv_blocking s 1 h 8 = Val (s', Some None) /\ waiting (world s') c 0 0.
Proof.
  destruct demo_receiver as (s & ap & c & Hs & Hat & Hep & Hch & Hq & Hcur & Hst).
  destruct (recv_blocking_answers_or_parks s 1 ap (memory_home ap) 8 c 1 (Ipc.create 2) Hs Hat Hep Hch ltac:(discriminate)) as (w' & t' & r & E & H).
  destruct Hep as [Hh (o & rt & x & Hc & Hr & Hx & Hcx)]. destruct (so_agents s Hs 1 ap Hat) as (Htb & _).
  rewrite (chan_recv_eq _ _ _ o rt Hc Hr) in E.
  pose proof (recv_spec _ _ _ o rt x c 1 (Ipc.create 2) (so_world s Hs) Htb Hh Hc Hx Hcx Hch) as Hspec. unfold recv_result in Hspec. cbn in Hspec.
  rewrite E in Hspec. injection Hspec as _ _ Er. rewrite Er in H. cbn [fst] in H. rewrite decide_True in H by reflexivity.
  destruct H as [_ [(s' & E' & _ & Hw & _)|[Hno _]]].
  - exists s, s', (memory_home ap), c. split; [exact E'|]. rewrite Hcur in Hw. exact Hw.
  - exfalso. apply (Hno 1); [exact Hq | rewrite Hcur; discriminate | exact Hst].
Defined.

Lemma no_lost_wakeup_witness : exists w t h c, waiting w c 0 1 /\
  runs (dispatch false w t (mkArgs M_CHAN_SEND h [7; 0; 0; 0])) (fun '(w', _, _) => waiting w' c 0 1 \/ Sched.state_of (sched w') 1 = Some Sched.TASK_RUNNABLE).
Proof.
  destruct demo_linked as (w0 & ta & tb & ha & hb & c & [Hw Ha Hb _ [Hh (o & r & x & Hc & Hr & Hx & Hcx)] _] & _ & Hnew & Hroom). cbn [fst snd] in *.
  destruct (wo_objects w0 Hw o x Hx) as [_ Hox]. destruct (oo_chan w0 x Hox c 0 Hcx) as [[ch Hch] _]. pose proof (Hnew ch Hch) as ->.
  destruct (wo_channels w0 Hw c _ Hch) as (_ & Hg).
  set (sc := Sched.set_state (Sched.boot 4096) (<[1%nat := Sched.TASK_BLOCKED]> (Sched.TASK_STATE (Sched.boot 4096)))).
  set (w := set_sched (put_channel w0 c (Ipc.with_waiter (Ipc.create 2) 0 1)) sc).
  assert (world_ok w) as Hw1.
  { apply world_set_sched; [|reflexivity]. eapply put_channel_ok; [exact Hw | exact Hch | apply parked_good; [exact Hg | by left | lia | reflexivity]]. }
  assert (waiting w c 0 1) as Hwait.
  { split; [|reflexivity]. exists (Ipc.with_waiter (Ipc.create 2) 0 1). unfold w. cbn [channels set_sched put_channel set_channels]. rewrite lookup_insert_eq.
    split; [reflexivity|]. split; reflexivity. }
  exists w, ta, ha, c. split; [exact Hwait|]. apply (no_lost_wakeup false w ta (mkArgs M_CHAN_SEND ha [7; 0; 0; 0]) c 0 1).
  - exact Hw1.
  - eapply (table_ok_grows w0); [exact (grows_put_channel w0 c _) | exact Ha].
  - exact Hroom.
  - split; [exact Hh|]. split; [done|]. repeat (apply Forall_cons; split; [unfold in_u; lia|]). apply Forall_nil. exact I.
  - by left.
  - unfold Sched.task_ok, Sched.MAX_TASKS. lia.
  - exact Hwait.
Defined.
