(* ===== verification/Uaccess.v ===== *)
(** * Copies across address spaces: [crates/tb-hal/src/arch/x86_64/uaccess.rs].

    A user buffer is reached by walking its space's tables in software, page by page, and
    copying through the frame's identity alias.  Memory is the map of 64-bit words of [Mmu];
    a byte is eight bits of the word that holds it. *)
From Stdlib Require Import ZArith Lia.
From stdpp Require Import base numbers option tactics sets list.
From S2P Require Import Prelude Pmm Mmu.
Open Scope Z_scope.

Inductive CopyFault := NotPresent | NotUser | NotWritable | NotInPhysmap.

Definition PTE_PS : Z := Z.shiftl 1 7.
Definition IDENTITY_LIMIT : Z := 0x40000000.
Definition PAGE_OFF_MASK : Z := PAGE_SIZE - 1.

(** ** Bytes of the word memory *)

Definition word_of (a : Z) : Z := a - a mod 8.
Definition bit_of (a : Z) : Z := 8 * (a mod 8).
Definition read_byte (m : Pmm.memory) (a : Z) : Z := Z.land (Z.shiftr (m (word_of a)) (bit_of a)) 255.
Definition write_byte (m : Pmm.memory) (a b : Z) : Pmm.memory :=
  store m (word_of a) (Z.lor (Z.ldiff (m (word_of a)) (Z.shiftl 255 (bit_of a))) (Z.shiftl b (bit_of a))).

(** [copy_nonoverlapping] out of and into physical memory. *)
Definition read_bytes (m : Pmm.memory) (a n : Z) : list Z := map (fun i => read_byte m (a + i)) (seqZ 0 n).
Fixpoint write_bytes (m : Pmm.memory) (a : Z) (l : list Z) : Pmm.memory :=
  match l with
  | [] => m
  | b :: l => write_bytes (write_byte m a b) (a + 1) l
  end.

(** ** The walk *)

Definition classify_leaf (flags : Z) (write : bool) : option CopyFault :=
  if Z.land flags PTE_P =? 0 then Some NotPresent else
  if Z.land flags PTE_US =? 0 then Some NotUser else
  if write && (Z.land flags PTE_RW =? 0) then Some NotWritable else
  None.

(** One interior level: the next table. *)
Definition walk_level (m : Pmm.memory) (table uva shift : Z) : Z + CopyFault :=
  let entry := m (slot table (level_index uva shift)) in
  if Z.land entry PTE_P =? 0 then inr NotPresent else
  if Z.land entry PTE_US =? 0 then inr NotUser else
  if negb (Z.land entry PTE_PS =? 0) then inr NotPresent else
  inl (entry_addr entry).

Fixpoint walk_levels (m : Pmm.memory) (table uva : Z) (shifts : list Z) : Z + CopyFault :=
  match shifts with
  | [] => inl table
  | shift :: shifts =>
      match walk_level m table uva shift with
      | inr e => inr e
      | inl table => walk_levels m table uva shifts
      end
  end.

Definition INTERIOR : list Z := [SHIFT_512G; SHIFT_1G; SHIFT_2M].

Definition walk_user (m : Pmm.memory) (root_pa uva : Z) (write : bool) : Z + CopyFault :=
  match walk_levels m (Z.land root_pa ENTRY_ADDR_MASK) uva INTERIOR with
  | inr e => inr e
  | inl table =>
      let leaf := m (slot table (level_index uva SHIFT_4K)) in
      match classify_leaf leaf write with
      | Some e => inr e
      | None => inl (Z.lor (entry_addr leaf) (Z.land uva PAGE_OFF_MASK))
      end
  end.

(** ** The copy *)

(** The chunk at [done]: the address, and how much of the rest lies in its page. *)
Definition chunk (uva len done : Z) : Z * Z :=
  let cur := wrapping_add 64 uva done in
  (cur, Z.min (PAGE_SIZE - Z.land cur PAGE_OFF_MASK) (len - done)).

(** (start, address, length) of the chunks from [done] on; a turn covers at least a byte. *)
Fixpoint span_from (fuel : nat) (uva len done : Z) : list (Z * Z * Z) :=
  match fuel with
  | O => []
  | S fuel =>
      if len <=? done then [] else
      let '(cur, in_page) := chunk uva len done in
      (done, cur, in_page) :: span_from fuel uva len (done + in_page)
  end.
Definition span_pages (uva len : Z) : list (Z * Z * Z) := span_from (Z.to_nat len) uva len 0.

(** The physical address of a chunk, inside the identity window. *)
Definition chunk_pa (m : Pmm.memory) (root_pa page_va in_page : Z) (to_user : bool) : Z + CopyFault :=
  match walk_user m root_pa page_va to_user with
  | inr e => inr e
  | inl pa => if (IDENTITY_LIMIT <=? pa) || (IDENTITY_LIMIT <? pa + in_page) then inr NotInPhysmap else inl pa
  end.

(** [copy_span] into the kernel buffer: the bytes read, chunk by chunk. *)
Fixpoint copy_in (m : Pmm.memory) (root_pa : Z) (cs : list (Z * Z * Z)) (kbuf : list Z) : res (list Z * option CopyFault) :=
  match cs with
  | [] => Val (kbuf, None)
  | (start, page_va, in_page) :: cs =>
      match chunk_pa m root_pa page_va in_page false with
      | inr e => Val (kbuf, Some e)
      | inl pa => kbuf ← copy_loop in_page (read_bytes m pa in_page) start kbuf; copy_in m root_pa cs kbuf
      end
  end.

(** [copy_span] out of it: the memory after, also when a later page faults. *)
Fixpoint copy_out (m : Pmm.memory) (root_pa : Z) (cs : list (Z * Z * Z)) (kbuf : list Z) : Pmm.memory * option CopyFault :=
  match cs with
  | [] => (m, None)
  | (start, page_va, in_page) :: cs =>
      match chunk_pa m root_pa page_va in_page true with
      | inr e => (m, Some e)
      | inl pa => copy_out (write_bytes m pa (ztake in_page (zdrop start kbuf))) root_pa cs kbuf
      end
  end.

Definition copy_from_user (s : Machine) (root_pa src_uva : Z) (dst : list Z) : res (list Z * option CopyFault) :=
  copy_in (mem s) root_pa (span_pages src_uva (zlen dst)) dst.

Definition copy_to_user (s : Machine) (root_pa dst_uva : Z) (src : list Z) : Machine * option CopyFault :=
  let '(m, e) := copy_out (mem s) root_pa (span_pages dst_uva (zlen src)) src in
  (set_mem s m, e).

(** ** Specification *)

(** The chunks from [done] to [len]: contiguous, none empty, none across a page boundary. *)
Fixpoint tiles (uva len done : Z) (cs : list (Z * Z * Z)) : Prop :=
  match cs with
  | [] => len <= done
  | (start, cur, n) :: cs =>
      start = done /\ cur = wrapping_add 64 uva done /\ 1 <= n /\ done + n <= len /\ cur mod PAGE_SIZE + n <= PAGE_SIZE /\
      tiles uva len (done + n) cs
  end.

(** Where byte [i] of the buffer at [uva] is in physical memory, or why it cannot be reached. *)
Definition reach (m : Pmm.memory) (root_pa uva : Z) (write : bool) (i : Z) : Z + CopyFault :=
  match walk_user m root_pa (wrapping_add 64 uva i) write with
  | inr e => inr e
  | inl pa => if IDENTITY_LIMIT <=? pa then inr NotInPhysmap else inl pa
  end.

(** The words the walk of an address reads. *)
Fixpoint walk_words (m : Pmm.memory) (table uva : Z) (shifts : list Z) : list Z :=
  match shifts with
  | [] => [slot table (level_index uva SHIFT_4K)]
  | shift :: shifts =>
      slot table (level_index uva shift) ::
      match walk_level m table uva shift with inl table => walk_words m table uva shifts | inr _ => [] end
  end.
Definition words_of (m : Pmm.memory) (root_pa uva : Z) : list Z := walk_words m (Z.land root_pa ENTRY_ADDR_MASK) uva INTERIOR.

(** ** Lemmas: bytes *)

Lemma read_byte_bits m a n : Z.testbit (read_byte m a) n = (0 <=? n) && (n <? 8) && Z.testbit (m (word_of a)) (bit_of a + n).
Proof.
  unfold read_byte. rewrite Z.land_spec. assert (0 <= bit_of a) by (unfold bit_of; pose proof (Z.mod_pos_bound a 8); lia).
  change 255 with (Z.ones 8). destruct (Z.leb_spec 0 n); cbn [andb].
  2: { rewrite !Z.testbit_neg_r by lia. done. }
  rewrite Z.shiftr_spec by lia. rewrite Z.testbit_ones by lia. rewrite (proj2 (Z.leb_le 0 n)) by done.
  replace (n + bit_of a) with (bit_of a + n) by lia. cbn [andb]. by rewrite andb_comm.
Qed.

Lemma read_byte_range m a : 0 <= read_byte m a < 256.
Proof. unfold read_byte. change 255 with (Z.ones 8). rewrite Z.land_ones by lia. by apply Z.mod_pos_bound. Qed.

Lemma byte_bits b n : 0 <= b < 256 -> 8 <= n -> Z.testbit b n = false.
Proof.
  intros Hb Hn. destruct (decide (b = 0)) as [->|]; [apply Z.bits_0|]. apply Z.bits_above_log2; [lia|].
  assert (Z.log2 b < 8) by (apply Z.log2_lt_pow2; lia). lia.
Qed.

Lemma read_write_byte m a b a' : 0 <= b < 256 -> read_byte (write_byte m a b) a' = if a' =? a then b else read_byte m a'.
Proof.
  intros Hb. pose proof (Z.mod_pos_bound a 8 ltac:(lia)) as Ha. pose proof (Z.mod_pos_bound a' 8 ltac:(lia)) as Ha'.
  apply Z.bits_inj'. intros n Hn. rewrite read_byte_bits, (proj2 (Z.leb_le 0 n) Hn). cbn [andb].
  unfold write_byte, store. destruct (Z.eqb_spec (word_of a') (word_of a)) as [Ew|Hne].
  2: { destruct (Z.eqb_spec a' a) as [->|]; [done|]. rewrite read_byte_bits, (proj2 (Z.leb_le 0 n) Hn). done. }
  rewrite Z.lor_spec, Z.ldiff_spec. unfold bit_of in *. rewrite !Z.shiftl_spec by lia. change 255 with (Z.ones 8).
  destruct (Z.ltb_spec n 8) as [Hn8|Hn8].
  2: { cbn [andb]. destruct (Z.eqb_spec a' a) as [->|]; [by rewrite byte_bits|].
       rewrite read_byte_bits, (proj2 (Z.ltb_ge n 8)) by lia. by rewrite andb_false_r. }
  cbn [andb]. destruct (Z.eqb_spec a' a) as [->|Hne].
  - replace (8 * (a mod 8) + n - 8 * (a mod 8)) with n by lia. rewrite Z.testbit_ones_nonneg by lia.
    rewrite (proj2 (Z.ltb_lt n 8)) by lia. cbn [negb]. by rewrite andb_false_r.
  - assert (a' mod 8 <> a mod 8) as Hmod by (unfold word_of in Ew; lia).
    rewrite read_byte_bits, (proj2 (Z.leb_le 0 n) Hn), (proj2 (Z.ltb_lt n 8)) by lia. unfold bit_of. rewrite <- Ew. cbn [andb].
    assert (Z.testbit b (8 * (a' mod 8) + n - 8 * (a mod 8)) = false) as ->.
    { destruct (Z.lt_ge_cases (a' mod 8) (a mod 8)); [apply Z.testbit_neg_r; lia | apply byte_bits; lia]. }
    rewrite orb_false_r. destruct (Z.lt_ge_cases (a' mod 8) (a mod 8)).
    + rewrite (Z.testbit_neg_r (Z.ones 8)) by lia. by rewrite andb_true_r.
    + rewrite Z.testbit_ones_nonneg by lia. rewrite (proj2 (Z.ltb_ge _ 8)) by lia. by rewrite andb_true_r.
Qed.

Lemma write_byte_word m a b x : word_of a <> x -> write_byte m a b x = m x.
Proof. intros Hne. unfold write_byte, store. by rewrite (proj2 (Z.eqb_neq x (word_of a))) by congruence. Qed.

Lemma read_write_bytes l : forall m a a', Forall (fun b => 0 <= b < 256) l ->
  read_byte (write_bytes m a l) a' = match (if (a <=? a') then l !! Z.to_nat (a' - a) else None) with Some b => b | None => read_byte m a' end.
Proof.
  induction l as [|b l IH]; intros m a a' Hl; cbn [write_bytes].
  { by destruct (a <=? a'). }
  apply Forall_cons_1 in Hl as [Hb Hl]. rewrite IH, read_write_byte by done.
  destruct (Z.leb_spec (a + 1) a'); destruct (Z.leb_spec a a'); try lia.
  - replace (Z.to_nat (a' - a)) with (S (Z.to_nat (a' - (a + 1)))) by lia. cbn [lookup list_lookup]. rewrite (proj2 (Z.eqb_neq a' a)) by lia. done.
  - assert (a' = a) as -> by lia. rewrite Z.eqb_refl, Z.sub_diag. done.
  - by rewrite (proj2 (Z.eqb_neq a' a)) by lia.
Qed.

Lemma write_bytes_word l : forall m a x, (forall i, 0 <= i < zlen l -> word_of (a + i) <> x) -> write_bytes m a l x = m x.
Proof.
  induction l as [|b l IH]; intros m a x H; [done|]. cbn [write_bytes]. rewrite zlen_cons in H. pose proof (zlen_nonneg l).
  rewrite IH by (intros i Hi; replace (a + 1 + i) with (a + (i + 1)) by lia; apply H; lia).
  apply write_byte_word. replace a with (a + 0) by lia. apply H. lia.
Qed.

(** ** Lemmas: chunks *)

Lemma page_off a : 0 <= a -> Z.land a PAGE_OFF_MASK = a mod PAGE_SIZE.
Proof. intros. change PAGE_OFF_MASK with (Z.ones 12). by rewrite Z.land_ones by lia. Qed.

Lemma wrapping_u64 a b : is_u64 (wrapping_add 64 a b).
Proof. apply wrap_in_u. lia. Qed.

Lemma span_tiles fuel uva len done : 0 <= done -> len - done <= Z.of_nat fuel -> tiles uva len done (span_from fuel uva len done).
Proof.
  revert done. induction fuel as [|fuel IH]; intros done Hd Hf; cbn [span_from tiles]; [lia|].
  destruct (Z.leb_spec len done); [done|]. cbn [chunk]. pose proof (wrapping_u64 uva done) as [Hc _].
  rewrite page_off by done. pose proof (Z.mod_pos_bound (wrapping_add 64 uva done) PAGE_SIZE ltac:(done)) as Hm. unfold PAGE_SIZE in *.
  cbn [tiles]. unfold PAGE_SIZE. split; [done|]. split; [done|]. split; [lia|]. split; [lia|]. split; [lia|]. apply IH; lia.
Qed.

Lemma span_pages_tiles uva len : 0 <= len -> tiles uva len 0 (span_pages uva len).
Proof. intros. apply span_tiles; lia. Qed.

(** An address and what lies in its page. *)
Lemma in_page_div c j : 0 <= j -> c mod PAGE_SIZE + j < PAGE_SIZE -> (c + j) / PAGE_SIZE = c / PAGE_SIZE.
Proof.
  unfold PAGE_SIZE. intros Hj Hlt. rewrite (Z.div_mod c 4096) at 1 by lia. replace (4096 * (c / 4096) + c mod 4096 + j) with (c mod 4096 + j + c / 4096 * 4096) by lia.
  rewrite Z.div_add, Z.div_small by (pose proof (Z.mod_pos_bound c 4096); lia). lia.
Qed.
Lemma in_page_mod c j : 0 <= j -> c mod PAGE_SIZE + j < PAGE_SIZE -> (c + j) mod PAGE_SIZE = c mod PAGE_SIZE + j.
Proof.
  intros Hj Hlt. pose proof (Z.div_mod (c + j) PAGE_SIZE ltac:(done)) as E. rewrite in_page_div in E by done.
  pose proof (Z.div_mod c PAGE_SIZE ltac:(done)). lia.
Qed.

Lemma wrapping_within uva done j : 0 <= j -> wrapping_add 64 uva done mod PAGE_SIZE + j < PAGE_SIZE ->
  wrapping_add 64 uva (done + j) = wrapping_add 64 uva done + j.
Proof.
  intros Hj Hlt. pose proof (wrapping_u64 uva done) as Hc. pose proof (in_page_div _ _ Hj Hlt) as Hd.
  unfold wrapping_add in *. replace (uva + (done + j)) with (uva + done + j) by lia. set (c := wrap 64 (uva + done)) in *.
  assert (wrap 64 (uva + done + j) = wrap 64 (c + j)) as -> by (unfold c, wrap; by rewrite Z.add_mod_idemp_l).
  apply wrap_small. unfold in_u in *. split; [lia|].
  assert (c / PAGE_SIZE < 2 ^ 52) by (apply Z.div_lt_upper_bound; [done|]; change (PAGE_SIZE * 2 ^ 52) with (2 ^ 64); lia).
  pose proof (Z.div_mod (c + j) PAGE_SIZE ltac:(done)) as E. pose proof (Z.mod_pos_bound (c + j) PAGE_SIZE ltac:(done)).
  rewrite Hd in E. change (2 ^ 64) with (PAGE_SIZE * 2 ^ 52). unfold PAGE_SIZE in *. lia.
Qed.

Lemma level_index_within c j shift : 12 <= shift -> 0 <= j -> c mod PAGE_SIZE + j < PAGE_SIZE -> level_index (c + j) shift = level_index c shift.
Proof.
  intros Hs Hj Hlt. unfold level_index. f_equal. rewrite !Z.shiftr_div_pow2 by lia.
  replace (2 ^ shift) with (PAGE_SIZE * 2 ^ (shift - 12)) by (change PAGE_SIZE with (2 ^ 12); rewrite <- Z.pow_add_r by lia; f_equal; lia).
  assert (0 < 2 ^ (shift - 12)) by (apply Z.pow_pos_nonneg; lia). rewrite <- !Z.div_div by (done || lia). by rewrite in_page_div.
Qed.

Lemma entry_addr_mod e : entry_addr e mod PAGE_SIZE = 0.
Proof.
  unfold entry_addr. change PAGE_SIZE with (2 ^ 12). rewrite <- Z.land_ones by lia. rewrite <- Z.land_assoc.
  replace (Z.land ENTRY_ADDR_MASK (Z.ones 12)) with 0 by reflexivity. apply Z.land_0_r.
Qed.

Lemma lor_page p off : p mod PAGE_SIZE = 0 -> 0 <= off < PAGE_SIZE -> Z.lor p off = p + off.
Proof.
  intros Hp Ho. assert (Z.land p off = 0) as E; [|by rewrite Z.add_nocarry_lxor, Z.lxor_lor].
  apply Z.bits_inj'. intros n Hn. rewrite Z.land_spec, Z.bits_0. destruct (Z.lt_ge_cases n 12).
  - rewrite <- (Z.mod_pow2_bits_low p 12 n) by lia. change (2 ^ 12) with PAGE_SIZE. by rewrite Hp, Z.bits_0.
  - assert (Z.testbit off n = false) as ->; [|apply andb_false_r]. destruct (decide (off = 0)) as [->|]; [apply Z.bits_0|].
    apply Z.bits_above_log2; [lia|]. assert (Z.log2 off < 12) by (apply Z.log2_lt_pow2; [lia | exact (proj2 Ho)]). lia.
Qed.

Lemma walk_levels_within m t c j shifts : Forall (fun s => 12 <= s) shifts -> 0 <= j -> c mod PAGE_SIZE + j < PAGE_SIZE ->
  walk_levels m t (c + j) shifts = walk_levels m t c shifts.
Proof.
  intros Hs Hj Hlt. revert t. induction Hs as [|s shifts Hs _ IH]; intros t; cbn [walk_levels]; [done|].
  unfold walk_level. rewrite level_index_within by done. cbv zeta. destruct (Z.land _ PTE_P =? 0); [done|]. destruct (Z.land _ PTE_US =? 0); [done|].
  destruct (negb _); [done | apply IH].
Qed.

(** Translation moves a page as a whole. *)
Lemma walk_user_within m root c write j : 0 <= c -> 0 <= j -> c mod PAGE_SIZE + j < PAGE_SIZE ->
  walk_user m root (c + j) write = match walk_user m root c write with inl pa => inl (pa + j) | inr e => inr e end.
Proof.
  intros Hc Hj Hlt. unfold walk_user. rewrite walk_levels_within by (done || by repeat constructor).
  destruct (walk_levels _ _ c INTERIOR) as [t|]; [|done]. rewrite level_index_within by (done || unfold SHIFT_4K; lia). cbv zeta.
  destruct (classify_leaf _ write); [done|]. pose proof (Z.mod_pos_bound c PAGE_SIZE ltac:(done)).
  rewrite !page_off, in_page_mod by lia. rewrite !lor_page by (apply entry_addr_mod || lia). f_equal. lia.
Qed.

Definition chunk_ok (uva len done : Z) (c : Z * Z * Z) : Prop :=
  let '(start, cur, n) := c in
  start = done /\ cur = wrapping_add 64 uva done /\ 1 <= n /\ done + n <= len /\ cur mod PAGE_SIZE + n <= PAGE_SIZE.

Lemma chunk_reach m root uva len done cur n write : chunk_ok uva len done (done, cur, n) ->
  match chunk_pa m root cur n write with
  | inl pa => forall j, 0 <= j < n -> reach m root uva write (done + j) = inl (pa + j)
  | inr e => exists j, 0 <= j < n /\ reach m root uva write (done + j) = inr e
  end.
Proof.
  intros (_ & -> & Hn & _ & Hp). pose proof (wrapping_u64 uva done) as [Hc _].
  assert (forall j, 0 <= j < n -> reach m root uva write (done + j) =
    match walk_user m root (wrapping_add 64 uva done) write with
    | inl pa => if IDENTITY_LIMIT <=? pa + j then inr NotInPhysmap else inl (pa + j) | inr e => inr e end) as Hreach.
  { intros j Hj. unfold reach. rewrite wrapping_within, walk_user_within by lia. by destruct (walk_user _ _ _ _). }
  unfold chunk_pa. destruct (walk_user m root (wrapping_add 64 uva done) write) as [pa|e].
  2: { exists 0. split; [lia|]. by rewrite Hreach by lia. }
  destruct (Z.leb_spec IDENTITY_LIMIT pa); cbn [orb].
  { exists 0. split; [lia|]. rewrite Hreach by lia. by rewrite (proj2 (Z.leb_le _ _)) by lia. }
  destruct (Z.ltb_spec IDENTITY_LIMIT (pa + n)).
  { exists (n - 1). split; [lia|]. rewrite Hreach by lia. by rewrite (proj2 (Z.leb_le _ _)) by lia. }
  intros j Hj. rewrite Hreach by lia. by rewrite (proj2 (Z.leb_gt _ _)) by lia.
Qed.

Lemma zlen_read_bytes m a n : 0 <= n -> zlen (read_bytes m a n) = n.
Proof. intros. unfold read_bytes, zlen. rewrite length_map, length_seqZ. lia. Qed.
Lemma read_bytes_lookup m a n i : 0 <= i < n -> read_bytes m a n !! Z.to_nat i = Some (read_byte m (a + i)).
Proof. intros. unfold read_bytes. rewrite list_lookup_fmap, lookup_seqZ_lt by lia. cbn. do 2 f_equal. lia. Qed.

Lemma copy_loop_lookup {A} n (src : list A) off (out : list A) : 0 <= off -> 0 <= n <= zlen src -> off + n <= zlen out ->
  exists o, copy_loop n src off out = Val o /\ zlen o = zlen out /\
    forall i, 0 <= i -> o !! Z.to_nat i = if decide (off <= i < off + n) then src !! Z.to_nat (i - off) else out !! Z.to_nat i.
Proof.
  intros Ho Hn Hl. pose proof (ztake_zdrop off out) as E. replace (copy_loop n src off out) with (copy_loop n src off (ztake off out ++ zdrop off out)) by (by rewrite E).
  rewrite copy_loop_next by (rewrite ?zlen_ztake, ?zlen_zdrop; lia). clear E.
  eexists. split; [done|]. split; [rewrite !zlen_app, !zlen_zdrop, !zlen_ztake; lia|]. intros i Hi.
  assert (length (ztake off out) = Z.to_nat off) as L1 by (pose proof (zlen_ztake off out); unfold zlen in *; lia).
  assert (length (ztake n src) = Z.to_nat n) as L2 by (pose proof (zlen_ztake n src); unfold zlen in *; lia).
  case_decide as Hd.
  - rewrite <- app_assoc, lookup_app_r, lookup_app_l by lia. unfold ztake in *. rewrite lookup_take_lt by lia. f_equal. lia.
  - destruct (Z.lt_ge_cases i off).
    + rewrite <- app_assoc, lookup_app_l by lia. unfold ztake. by rewrite lookup_take_lt by lia.
    + rewrite lookup_app_r by (rewrite length_app; lia). rewrite length_app, L1, L2. unfold zdrop. rewrite !lookup_drop. f_equal. lia.
Qed.

Lemma copy_in_spec m root uva len cs : forall done kbuf, tiles uva len done cs -> zlen kbuf = len -> 0 <= done ->
  runs (copy_in m root cs kbuf) (fun '(buf, r) => zlen buf = len /\ (forall i, 0 <= i < done -> buf !! Z.to_nat i = kbuf !! Z.to_nat i) /\
    match r with
    | None => forall i, done <= i < len -> exists pa, reach m root uva false i = inl pa /\ buf !! Z.to_nat i = Some (read_byte m pa)
    | Some e => exists i, done <= i < len /\ reach m root uva false i = inr e
    end).
Proof.
  induction cs as [|[[start cur] n] cs IH]; intros done kbuf Ht Hl Hd; cbn [copy_in tiles] in *.
  { apply runs_val. split; [done|]. split; [done|]. intros i Hi. lia. }
  destruct Ht as (-> & Hcur & Hn & Hle & Hp & Ht).
  pose proof (chunk_reach m root uva len done cur n false ltac:(by split_and!)) as Hr. destruct (chunk_pa m root cur n false) as [pa|e].
  2: { apply runs_val. destruct Hr as (j & Hj & Hr). split; [done|]. split; [done|]. exists (done + j). split; [lia | done]. }
  destruct (copy_loop_lookup n (read_bytes m pa n) done kbuf) as (k & -> & Hkl & Hk); [lia | rewrite zlen_read_bytes; lia | lia |].
  rewrite bind_val. eapply runs_mono; [apply (IH (done + n) k); [done | lia | lia]|]. intros [buf r] (Hbl & Hkeep & Hres).
  split; [done|]. split.
  - intros i Hi. rewrite Hkeep by lia. rewrite Hk by lia. by rewrite decide_False by lia.
  - destruct r as [e|].
    + destruct Hres as (i & Hi & E). exists i. split; [lia | done].
    + intros i Hi. destruct (Z.lt_ge_cases i (done + n)); [|apply Hres; lia].
      pose proof (Hr (i - done) ltac:(lia)) as Hri. replace (done + (i - done)) with i in Hri by lia.
      exists (pa + (i - done)). split; [exact Hri|].
      rewrite Hkeep, Hk by lia. rewrite decide_True by lia. apply read_bytes_lookup. lia.
Qed.

(** *** The walk reads its words only *)

Lemma walk_levels_words m m' t uva shifts : (forall x, x ∈ walk_words m t uva shifts -> m' x = m x) ->
  walk_levels m' t uva shifts = walk_levels m t uva shifts /\
  forall t', walk_levels m t uva shifts = inl t' -> m' (slot t' (level_index uva SHIFT_4K)) = m (slot t' (level_index uva SHIFT_4K)).
Proof.
  revert t. induction shifts as [|s shifts IH]; intros t H; cbn [walk_levels walk_words] in *.
  { split; [done|]. intros t' [= <-]. apply H. by left. }
  assert (walk_level m' t uva s = walk_level m t uva s) as E by (unfold walk_level; rewrite H by left; done).
  rewrite E. destruct (walk_level m t uva s) as [t1|e]; [|done]. apply IH. intros x Hx. apply H. by right.
Qed.

Lemma walk_user_words m m' root uva write : (forall x, x ∈ words_of m root uva -> m' x = m x) -> walk_user m' root uva write = walk_user m root uva write.
Proof.
  intros H. destruct (walk_levels_words m m' _ uva INTERIOR H) as [E1 E2]. unfold walk_user. rewrite E1.
  destruct (walk_levels m _ uva INTERIOR) as [t|e]; [|done]. cbv zeta. by rewrite (E2 t eq_refl).
Qed.

(** *** Copying out *)

Section copy_out.
Context (m0 : Pmm.memory) (root uva : Z) (src : list Z) (pa : Z -> Z).
Context (Hsrc : Forall (fun b => 0 <= b < 256) src).
Context (Hpa : forall i, 0 <= i < zlen src -> reach m0 root uva true i = inl (pa i)).
Context (Hinj : forall i j, 0 <= i < zlen src -> 0 <= j < zlen src -> pa i = pa j -> i = j).
Context (Htab : forall i j, 0 <= i < zlen src -> 0 <= j < zlen src -> word_of (pa j) ∉ words_of m0 root (wrapping_add 64 uva i)).

(** The first [done] bytes are written, and nothing else. *)
Record written (done : Z) (m : Pmm.memory) : Prop := {
  wr_bytes : forall i, 0 <= i < done -> read_byte m (pa i) = default 0 (src !! Z.to_nat i);
  wr_others : forall a, (forall i, 0 <= i < done -> pa i <> a) -> read_byte m a = read_byte m0 a;
  wr_words : forall x, (forall i, 0 <= i < done -> word_of (pa i) <> x) -> m x = m0 x;
}.

Lemma written_reach done m i write : written done m -> done <= zlen src -> 0 <= i < zlen src -> reach m root uva write i = reach m0 root uva write i.
Proof.
  intros Hw Hd Hi. unfold reach. rewrite (walk_user_words m0 m); [done|]. intros x Hx. apply (wr_words _ _ Hw).
  intros j Hj <-. by apply (Htab i j) in Hx; [|lia|lia].
Qed.

Lemma copy_out_spec cs : forall done m, tiles uva (zlen src) done cs -> 0 <= done <= zlen src -> written done m ->
  exists m', copy_out m root cs src = (m', None) /\ written (zlen src) m'.
Proof.
  induction cs as [|[[start cur] n] cs IH]; intros done m Ht Hd Hw; cbn [copy_out tiles] in *.
  { exists m. split; [done|]. by replace (zlen src) with done by lia. }
  destruct Ht as (-> & Hcur & Hn & Hle & Hp & Ht).
  pose proof (chunk_reach m root uva (zlen src) done cur n true ltac:(by split_and!)) as Hr. destruct (chunk_pa m root cur n true) as [p|e].
  2: { destruct Hr as (j & Hj & Hr). rewrite (written_reach done m), Hpa in Hr by (done || lia). done. }
  assert (forall j, 0 <= j < n -> pa (done + j) = p + j) as Hpj.
  { intros j Hj. specialize (Hr j Hj). rewrite (written_reach done m), Hpa in Hr by (done || lia). by injection Hr. }
  set (piece := ztake n (zdrop done src)).
  assert (zlen piece = n) as Hpl by (unfold piece; rewrite zlen_ztake, zlen_zdrop; lia).
  assert (forall j, 0 <= j < n -> piece !! Z.to_nat j = src !! Z.to_nat (done + j)) as Hpiece.
  { intros j Hj. unfold piece, ztake, zdrop. rewrite lookup_take_lt, lookup_drop by lia. f_equal. lia. }
  assert (Forall (fun b => 0 <= b < 256) piece) as Hbytes by (by apply Forall_take, Forall_drop).
  apply (IH (done + n)); [done | lia |]. constructor.
  - intros i Hi. rewrite read_write_bytes by done. destruct (Z.lt_ge_cases i done).
    + assert ((if p <=? pa i then piece !! Z.to_nat (pa i - p) else None) = None) as ->; [|apply (wr_bytes _ _ Hw); lia].
      destruct (Z.leb_spec p (pa i)); [|done]. apply lookup_ge_None_2. unfold zlen in Hpl.
      destruct (Z.lt_ge_cases (pa i) (p + n)); [|lia]. exfalso. assert (i = done + (pa i - p)) as Ei; [|lia].
      apply Hinj; [lia | lia |]. rewrite Hpj by lia. lia.
    + replace (pa i) with (p + (i - done)) by (rewrite <- Hpj by lia; f_equal; lia). rewrite (proj2 (Z.leb_le _ _)) by lia.
      replace (p + (i - done) - p) with (i - done) by lia. rewrite Hpiece by lia. replace (done + (i - done)) with i by lia.
      destruct (src !! Z.to_nat i) eqn:E; [done|]. apply lookup_ge_None_1 in E. unfold zlen in *. lia.
  - intros a Ha. rewrite read_write_bytes by done. assert ((if p <=? a then piece !! Z.to_nat (a - p) else None) = None) as ->.
    { destruct (Z.leb_spec p a); [|done]. apply lookup_ge_None_2. unfold zlen in Hpl. destruct (Z.lt_ge_cases a (p + n)); [|lia].
      exfalso. apply (Ha (done + (a - p))); [lia|]. rewrite Hpj by lia. lia. }
    apply (wr_others _ _ Hw). intros i Hi. apply Ha. lia.
  - intros x Hx. rewrite write_bytes_word; [apply (wr_words _ _ Hw); intros i Hi; apply Hx; lia|].
    intros j Hj. rewrite <- Hpj by lia. apply Hx. lia.
Qed.
End copy_out.

Lemma reach_read m root uva i pa : reach m root uva true i = inl pa -> reach m root uva false i = inl pa.
Proof.
  unfold reach, walk_user. destruct (walk_levels _ _ _ _) as [t|]; [|done]. cbv zeta. unfold classify_leaf.
  destruct (Z.land _ PTE_P =? 0); [done|]. destruct (Z.land _ PTE_US =? 0); [done|]. cbn [andb].
  by destruct (Z.land _ PTE_RW =? 0).
Qed.

Lemma src_bytes (src : list Z) i : 0 <= i < zlen src -> src !! Z.to_nat i = Some (default 0 (src !! Z.to_nat i)).
Proof. intros Hi. destruct (src !! Z.to_nat i) eqn:E; [done|]. apply lookup_ge_None_1 in E. unfold zlen in *. lia. Qed.

Lemma same_lookups (l k : list Z) : zlen l = zlen k -> (forall i, 0 <= i < zlen k -> l !! Z.to_nat i = k !! Z.to_nat i) -> l = k.
Proof.
  intros Hl H. apply list_eq. intros n. destruct (decide (n < length k)%nat) as [Hn|Hn].
  - rewrite <- (Nat2Z.id n). apply H. unfold zlen. lia.
  - rewrite !lookup_ge_None_2; unfold zlen in *; (done || lia).
Qed.

(** ** Properties *)

(** Reading a user buffer is exact and never wild.  For any tables, address and length the
    copy returns; it succeeds exactly when every byte of the buffer is mapped for the user
    inside the identity window, and then the kernel buffer holds those bytes in order;
    otherwise it names the fault of a byte that is not. *)
Theorem copy_from_user_exact s root_pa src_uva dst :
  runs (copy_from_user s root_pa src_uva dst) (fun '(buf, r) => zlen buf = zlen dst /\
    match r with
    | None => forall i, 0 <= i < zlen dst -> exists pa, reach (mem s) root_pa src_uva false i = inl pa /\ buf !! Z.to_nat i = Some (read_byte (mem s) pa)
    | Some e => exists i, 0 <= i < zlen dst /\ reach (mem s) root_pa src_uva false i = inr e
    end).
Proof.
  pose proof (zlen_nonneg dst). eapply runs_mono; [apply (copy_in_spec (mem s) root_pa src_uva (zlen dst) _ 0 dst); [by apply span_pages_tiles | done | done]|].
  intros [buf r] (Hl & _ & Hr). by split.
Qed.

(** Writing a user buffer and reading it back gives the bytes written.  When every byte of
    the buffer is mapped writable for the user inside the window, at places of their own that
    hold no table its walks read, the write succeeds, changes those bytes and no other, moves
    no page of the buffer, and a read through the same tables returns what was written. *)
Theorem copy_user_roundtrip s root_pa uva src dst (pa : Z -> Z) : Forall (fun b => 0 <= b < 256) src -> zlen dst = zlen src ->
  (forall i, 0 <= i < zlen src -> reach (mem s) root_pa uva true i = inl (pa i)) ->
  (forall i j, 0 <= i < zlen src -> 0 <= j < zlen src -> pa i = pa j -> i = j) ->
  (forall i j, 0 <= i < zlen src -> 0 <= j < zlen src -> word_of (pa j) ∉ words_of (mem s) root_pa (wrapping_add 64 uva i)) ->
  exists s', copy_to_user s root_pa uva src = (s', None) /\ copy_from_user s' root_pa uva dst = Val (src, None) /\
    (forall a, (forall i, 0 <= i < zlen src -> pa i <> a) -> read_byte (mem s') a = read_byte (mem s) a) /\
    (forall i write, 0 <= i < zlen src -> reach (mem s') root_pa uva write i = reach (mem s) root_pa uva write i).
Proof.
  intros Hsrc Hdst Hpa Hinj Htab. pose proof (zlen_nonneg src).
  destruct (copy_out_spec (mem s) root_pa uva src pa Hsrc Hpa Hinj Htab (span_pages uva (zlen src)) 0 (mem s)) as (m' & E & Hw);
    [by apply span_pages_tiles | lia | by constructor; [intros; lia | |] |].
  unfold copy_to_user. rewrite E. exists (set_mem s m'). split; [done|].
  assert (forall i write, 0 <= i < zlen src -> reach m' root_pa uva write i = reach (mem s) root_pa uva write i) as Hreach.
  { intros i write Hi. by apply (written_reach (mem s) root_pa uva src pa Htab (zlen src)). }
  assert (forall i, 0 <= i < zlen src -> reach m' root_pa uva false i = inl (pa i)) as Hread.
  { intros i Hi. rewrite Hreach by done. by apply reach_read, Hpa. }
  split; [|split; [apply (wr_others _ _ _ _ _ Hw) | exact Hreach]].
  destruct (copy_in_spec m' root_pa uva (zlen src) (span_pages uva (zlen dst)) 0 dst) as ([buf r] & Ec & Hl & _ & Hr);
    [rewrite Hdst; by apply span_pages_tiles | done | done |].
  unfold copy_from_user. cbn [mem set_mem]. rewrite Ec. destruct r as [e|].
  { destruct Hr as (i & Hi & Ei). rewrite Hread in Ei by lia. done. }
  do 2 f_equal. apply same_lookups; [lia|]. intros i Hi. destruct (Hr i Hi) as (p & Ep & ->). rewrite Hread in Ep by lia. injection Ep as <-.
  rewrite (wr_bytes _ _ _ _ _ Hw) by lia. by rewrite <- src_bytes.
Qed.

(** ** Witnesses *)

(** One user page at virtual address 0 backed by the frame at 0x5000. *)
Definition demo_machine : Machine :=
  set_mem (mkM Pmm.new (fun _ => 0) 0x1000)
    (store (store (store (store (fun _ => 0) 0x1000 0x2007) 0x2000 0x3007) 0x3000 0x4007) 0x4000 0x5007).

Lemma below_three i : 0 <= i < 3 -> i = 0 \/ i = 1 \/ i = 2.
Proof. lia. Qed.

Lemma copy_user_roundtrip_witness : exists s', copy_to_user demo_machine 0x1000 0x10 [7; 8; 9] = (s', None) /\
  copy_from_user s' 0x1000 0x10 [0; 0; 0] = Val ([7; 8; 9], None).
Proof.
  destruct (copy_user_roundtrip demo_machine 0x1000 0x10 [7; 8; 9] [0; 0; 0] (fun i => 0x5010 + i)) as (s' & E & E' & _).
  - repeat (apply Forall_cons; split; [lia|]). apply Forall_nil. exact I.
  - reflexivity.
  - intros i [-> | [-> | ->]]%below_three; reflexivity.
  - intros i j _ _ E. lia.
  - intros i j [-> | [-> | ->]]%below_three [-> | [-> | ->]]%below_three Hin; vm_compute in Hin; apply list_elem_of_In in Hin; cbn in Hin;
      repeat destruct Hin as [Hin|Hin]; (discriminate Hin || exact Hin).
  - exists s'. split; [exact E | exact E'].
Defined.
