(* ===== verification/UserMem.v ===== *)
(** * Facades that reach user memory: byte payloads, user buffers and shared blocks.

    The bodies of [crates/tb-hal/src/caps.rs] and [lib.rs] that need an agent's address space:
    [chan_send_bytes] and [chan_recv_bytes] bounce a message's bytes through the kernel, and a
    block's frames are mapped into and unmapped from its members' spaces.  The state is the
    system of [Agents] and the machine of [Mmu]; user memory is reached through [Uaccess]. *)
From Stdlib Require Import ZArith Lia.
From stdpp Require Import base numbers option tactics sets list gmap.
From S2P Require Import Prelude Caps Abi Syscall SyscallSpec ChannelSpec Agents AgentsSpec.
From S2P Require Pmm Mmu Uaccess Ipc Blocks Sched.
Open Scope Z_scope.

Record Kernel := mkKernel { sys : System; machine : Mmu.Machine }.

Definition frame_free (s : Mmu.Machine) (pa : Z) : res (Mmu.Machine * bool) :=
  '(p, m, b) ← Pmm.free (Mmu.pmm s) (Mmu.mem s) pa;
  Val (Mmu.mkM p m (Mmu.cr3 s), b).

Definition map_in_space (s : Mmu.Machine) (space va pa : Z) (writable : bool) : res (Mmu.Machine * bool) :=
  Mmu.map_in_root s space va pa writable.

(** ** Byte payloads *)

(** The send body; the world and the table after it. *)
Definition chan_send_bytes (mc : Mmu.Machine) (w : World) (t : HandleTable) (ep payload cap_raw src_root src_uva len : Z)
    : res (World * HandleTable * SysStatus) :=
  match live t ep with
  | inr e => Val (w, t, e)
  | inl i =>
      r ← rights_at t i;
      if negb (Rights.contains r Rights.WRITE) then Val (w, t, Denied) else
      ob ← object_of w t i;
      match ob with
      | None => Val (w, t, Stale)
      | Some (_, x) =>
          match chan x with
          | None => Val (w, t, BadCap)
          | Some (c, side) =>
              ch ← deref (channels w) c;
              up ← Ipc.peer_open ch side;
              if negb up then Val (w, t, PeerClosed) else
              ring ← Ipc.outbox ch side;
              if Ipc.r_cap ring <=? zlen (Ipc.q ring) then Val (w, t, WouldBlock) else
              if Ipc.MAX_PAYLOAD <? len then Val (w, t, Denied) else
              let buf := zrepeat len 0 in
              '(buf, fault) ← (if 0 <? len then Uaccess.copy_from_user mc src_root src_uva buf else Val (buf, None));
              match fault with
              | Some _ => Val (w, t, Fault)
              | None =>
                  '(parked, t) ← take_carried w t c cap_raw;
                  match parked with
                  | inr e => Val (w, t, e)
                  | inl parked =>
                      w ← deliver w c side ch (Ipc.mkMsg payload (Some buf) parked);
                      Val (w, t, Ok)
                  end
              end
          end
      end
  end.

(** [copy_to_user] of a popped message's bytes, when it has any. *)
Definition drain (mc : Mmu.Machine) (dst_root dst_uva : Z) (m : Ipc.Message Z) : Mmu.Machine * bool :=
  match Ipc.msg_bytes m with
  | Some (b :: bs) => let '(mc, fault) := Uaccess.copy_to_user mc dst_root dst_uva (b :: bs) in (mc, match fault with None => true | Some _ => false end)
  | _ => (mc, true)
  end.

(** The receive body: (status, inline payload, moved handle, byte length). *)
Definition chan_recv_bytes (mc : Mmu.Machine) (w : World) (t : HandleTable) (ep dst_root dst_uva dst_cap : Z)
    : res (Mmu.Machine * World * HandleTable * (SysStatus * Z * Z * Z)) :=
  match live t ep with
  | inr e => Val (mc, w, t, (e, 0, 0, 0))
  | inl i =>
      r ← rights_at t i;
      if negb (Rights.contains r Rights.READ) then Val (mc, w, t, (Denied, 0, 0, 0)) else
      ob ← object_of w t i;
      match ob with
      | None => Val (mc, w, t, (Stale, 0, 0, 0))
      | Some (_, x) =>
          match chan x with
          | None => Val (mc, w, t, (BadCap, 0, 0, 0))
          | Some (c, side) =>
              ch ← deref (channels w) c;
              inbox ← Ipc.inbox ch side;
              match Ipc.q inbox with
              | [] => b ← Ipc.peer_open ch side; Val (mc, w, t, (if b : bool then WouldBlock else PeerClosed, 0, 0, 0))
              | head :: _ =>
                  if dst_cap <? Ipc.byte_len head then Val (mc, w, t, (Fault, 0, 0, 0)) else
                  '(ch, msg) ← Ipc.pop_front ch side;
                  match msg with
                  | None => Val (mc, put_channel w c ch, t, (WouldBlock, 0, 0, 0))
                  | Some m =>
                      let blen := Ipc.byte_len m in
                      let '(mc, copy_ok) := drain mc dst_root dst_uva m in
                      if negb copy_ok then
                        ch ← Ipc.push_front ch side m;
                        Val (mc, put_channel w c ch, t, (Fault, 0, 0, 0))
                      else
                        let w := put_channel w c ch in
                        match Ipc.msg_cap m with
                        | None => Val (mc, w, t, (Ok, Ipc.payload m, 0, blen))
                        | Some parked =>
                            '(h, t) ← attach t parked;
                            match h with
                            | Some h => Val (mc, w, t, (Ok, Ipc.payload m, h, blen))
                            | None => Val (mc, w, t, (ObjFull, Ipc.payload m, 0, blen))
                            end
                        end
                  end
              end
          end
      end
  end.

Definition agent_chan_send_bytes (k : Kernel) (t ep payload cap_h src_uva len : Z) : res (Kernel * option (SysStatus * Z)) :=
  ap ← agent_of (sys k) t;
  match ap with
  | None => Val (k, None)
  | Some ap =>
      '(w, tbl, st) ← chan_send_bytes (machine k) (world (sys k)) (table ap) ep payload cap_h (space ap) src_uva len;
      s ← store (sys k) t ap w tbl;
      Val (mkKernel s (machine k), Some (st, 0))
  end.

Definition agent_chan_recv_bytes (k : Kernel) (t ep dst_uva dst_cap : Z) : res (Kernel * option (SysStatus * Z * Z * Z)) :=
  ap ← agent_of (sys k) t;
  match ap with
  | None => Val (k, None)
  | Some ap =>
      '(mc, w, tbl, r) ← chan_recv_bytes (machine k) (world (sys k)) (table ap) ep (space ap) dst_uva dst_cap;
      s ← store (sys k) t ap w tbl;
      Val (mkKernel s mc, Some r)
  end.

(** ** User buffers *)

Definition AGENT_BUF_VA : Z := 0x0000030000000000.

Definition agent_map_user_buffer (k : Kernel) (t : Z) : res (Kernel * option (Z * Z)) :=
  ap ← agent_of (sys k) t;
  match ap with
  | None => Val (k, None)
  | Some ap =>
      '(mc, pa) ← Mmu.frame_alloc (machine k);
      match pa with
      | None => Val (mkKernel (sys k) mc, None)
      | Some pa =>
          '(mc, ok) ← Mmu.map_user_in_root mc (space ap) AGENT_BUF_VA pa true false;
          if negb ok then
            '(mc, _) ← frame_free mc pa;
            Val (mkKernel (sys k) mc, None)
          else Val (mkKernel (sys k) mc, Some (AGENT_BUF_VA, pa))
      end
  end.

(** ** Shared blocks *)

(** [addr_store_load(pa + off, 0)] over the frame, through its identity address. *)
Definition zero_frame (mc : Mmu.Machine) (pa : Z) : res Mmu.Machine :=
  for_up 0 512 (fun i mc => Val (Mmu.set_mem mc (Mmu.store (Mmu.mem mc) (pa + 8 * i) 0))) mc.

Fixpoint free_all (mc : Mmu.Machine) (fs : list Z) : res Mmu.Machine :=
  match fs with
  | [] => Val mc
  | f :: fs => '(mc, _) ← frame_free mc f; free_all mc fs
  end.

(** [n] more frames behind the ones taken. *)
Fixpoint take_frames (mc : Mmu.Machine) (n : nat) (frames : list Z) : res (Mmu.Machine * option (list Z)) :=
  match n with
  | O => Val (mc, Some frames)
  | S n =>
      '(mc, pa) ← Mmu.frame_alloc mc;
      match pa with
      | Some pa => mc ← zero_frame mc pa; take_frames mc n (frames ++ [pa])
      | None => mc ← free_all mc frames; Val (mc, None)
      end
  end.

Definition block_create (mc : Mmu.Machine) (n_pages : Z) : res (Mmu.Machine * option Blocks.Block) :=
  '(mc, fs) ← take_frames mc (Z.to_nat n_pages) [];
  Val (mc, match fs with Some fs => Some (Blocks.block_of_frames fs n_pages) | None => None end).

Definition full_rights : Z := Rights.union (Rights.union (Rights.union (Rights.union Rights.READ Rights.WRITE) Rights.TRANSFER) Rights.DUP) Rights.REVOKE.
Definition member_rights : Z := Rights.union Rights.READ Rights.WRITE.

Definition agent_block_create (k : Kernel) (a b n_pages : Z) : res (Kernel * option (Z * Z)) :=
  if (MAX_TASKS <=? a) || (MAX_TASKS <=? b) || (a =? b) then Val (k, None) else
  '(mc, blk) ← block_create (machine k) n_pages;
  match blk with
  | None => Val (mkKernel (sys k) mc, None)
  | Some blk =>
      let '(bid, w) := fresh (world (sys k)) in
      let s := set_world (sys k) (put_block w bid blk) in
      '(s, ha) ← mint_into s a (fun w tbl => mint_block w tbl full_rights bid);
      match ha with
      | None => Val (mkKernel s mc, None)
      | Some ha =>
          '(s, hb) ← mint_into s b (fun w tbl => mint_block w tbl member_rights bid);
          Val (mkKernel s mc, match hb with Some hb => Some (ha, hb) | None => None end)
      end
  end.

(** One [map_in_space] per page, [n] pages from [i] on, until one is out of table frames. *)
Fixpoint map_pages (n : nat) (mc : Mmu.Machine) (space base_va i : Z) (frames : list Z) (writable : bool) : res (Mmu.Machine * bool) :=
  match n with
  | O => Val (mc, true)
  | S n =>
      off ← mul_u 64 i 0x1000;
      va ← add_u 64 base_va off;
      f ← idx frames i;
      '(mc, ok) ← map_in_space mc space va f writable;
      match ok with
      | false => Val (mc, false)
      | true => map_pages n mc space base_va (i + 1) frames writable
      end
  end.

Definition agent_block_map (k : Kernel) (t h : Z) (want_writable : bool) (base_va : Z) : res (Kernel * option (SysStatus * Z)) :=
  ap ← agent_of (sys k) t;
  match ap with
  | None => Val (k, None)
  | Some ap =>
      r ← block_of (world (sys k)) (table ap) h;
      match r with
      | inr e => Val (k, Some (e, 0))
      | inl (rights, bid, blk) =>
          if negb (Rights.contains rights Rights.READ) then Val (k, Some (Denied, 0)) else
          let writable := want_writable && Rights.contains rights Rights.WRITE in
          '(mc, ok) ← map_pages (Z.to_nat (Blocks.n_pages blk)) (machine k) (space ap) base_va 0 (Blocks.frames blk) writable;
          if negb ok then Val (mkKernel (sys k) mc, Some (NoMem, 0)) else
          let blk := Blocks.record_member blk (space ap) base_va writable in
          Val (mkKernel (set_world (sys k) (put_block (world (sys k)) bid blk)) mc, Some (Ok, base_va))
      end
  end.

Fixpoint unmap_pages (n : nat) (mc : Mmu.Machine) (root_pa base_va i : Z) : res Mmu.Machine :=
  match n with
  | O => Val mc
  | S n =>
      off ← mul_u 64 i 0x1000;
      va ← add_u 64 base_va off;
      unmap_pages n (fst (Mmu.unmap_in_root mc root_pa va)) root_pa base_va (i + 1)
  end.

Fixpoint unmap_members (n : nat) (mc : Mmu.Machine) (ms : list (Z * Z * bool)) : res Mmu.Machine :=
  match ms with
  | [] => Val mc
  | (root_pa, base_va, _) :: ms => mc ← unmap_pages n mc root_pa base_va 0; unmap_members n mc ms
  end.

Definition agent_block_unmap (k : Kernel) (t h : Z) : res (Kernel * option (SysStatus * Z)) :=
  ap ← agent_of (sys k) t;
  match ap with
  | None => Val (k, None)
  | Some ap =>
      r ← block_of (world (sys k)) (table ap) h;
      match r with
      | inr e => Val (k, Some (e, 0))
      | inl (rights, bid, blk) =>
          if negb (Rights.contains rights Rights.REVOKE) then Val (k, Some (Denied, 0)) else
          let n := Blocks.n_pages blk in
          mc ← unmap_members (Z.to_nat n) (machine k) (Blocks.members_snapshot blk);
          let w := put_block (world (sys k)) bid (Blocks.kill blk) in
          mc ← free_all mc (Blocks.frames blk);
          '(_, tbl) ← revoke (table ap) h;
          s ← store (sys k) t ap w tbl;
          Val (mkKernel s mc, Some (Ok, n))
      end
  end.

Definition agent_block_va_maps (k : Kernel) (t va : Z) : res (option Z) :=
  ap ← agent_of (sys k) t;
  Val (match ap with Some ap => Mmu.va_to_pa_in_root (machine k) (space ap) va | None => None end).

(** ** Lemmas *)

Lemma with_queue_same ch s : Ipc.chan_ok ch -> Ipc.side_ok s -> Ipc.with_queue (O := Z) ch s (Ipc.queue_of ch s) = ch.
Proof.
  intros H Hs. destruct (Ipc.chan_view_of ch H) as [v ->]. destruct v. by destruct Hs as [-> | ->].
Qed.
Lemma with_queue_twice ch s l l' : Ipc.chan_ok ch -> Ipc.side_ok s -> Ipc.with_queue (O := Z) (Ipc.with_queue ch s l) s l' = Ipc.with_queue ch s l'.
Proof.
  intros H Hs. destruct (Ipc.chan_view_of ch H) as [v ->]. destruct v. by destruct Hs as [-> | ->].
Qed.

(** What reading the sender's buffer gives. *)
Definition copied (mc : Mmu.Machine) (root uva len : Z) : res (list Z * option Uaccess.CopyFault) :=
  if 0 <? len then Uaccess.copy_from_user mc root uva (zrepeat len 0) else Val (zrepeat len 0, None).

Lemma copied_runs mc root uva len : 0 <= len ->
  runs (copied mc root uva len) (fun '(buf, r) => zlen buf = len /\
    match r with
    | None => forall i, 0 <= i < len -> exists pa, Uaccess.reach (Mmu.mem mc) root uva false i = inl pa /\ buf !! Z.to_nat i = Some (Uaccess.read_byte (Mmu.mem mc) pa)
    | Some e => exists i, 0 <= i < len /\ Uaccess.reach (Mmu.mem mc) root uva false i = inr e
    end).
Proof.
  intros Hl. unfold copied. destruct (Z.ltb_spec 0 len).
  2: { apply runs_val. split; [rewrite zlen_zrepeat; lia | lia]. }
  unfold Uaccess.copy_from_user. rewrite zlen_zrepeat, Z.max_r by lia.
  eapply runs_mono; [apply (Uaccess.copy_in_spec (Mmu.mem mc) root uva len _ 0 (zrepeat len 0)); [by apply Uaccess.span_pages_tiles | rewrite zlen_zrepeat; lia | done]|].
  intros [buf r] (? & _ & ?). by split.
Qed.

(** Why a byte-payload send is refused, if it is. *)
Definition byte_refusal (w : World) (t : HandleTable) (c s : Z) (ch : Ipc.Channel Z) (cap_raw len : Z) (fault : option Uaccess.CopyFault) : option SysStatus :=
  if negb (Ipc.is_open ch (1 - s)) then Some PeerClosed else
  if Ipc.cap_of_ring ch s <=? zlen (Ipc.queue_of ch s) then Some WouldBlock else
  if Ipc.MAX_PAYLOAD <? len then Some Denied else
  match fault with
  | Some _ => Some Fault
  | None => match carried w t c cap_raw with inr e => Some e | inl _ => None end
  end.

Lemma send_bytes_spec mc w t h c s ch payload cap_raw root uva len : world_ok w -> table_ok w t -> endpoint w t h Rights.WRITE c s ->
  channels w !! c = Some ch -> is_u64 cap_raw -> 0 <= len ->
  exists buf fault, copied mc root uva len = Val (buf, fault) /\ zlen buf = len /\
    match byte_refusal w t c s ch cap_raw len fault with
    | Some e => e <> Ok /\ chan_send_bytes mc w t h payload cap_raw root uva len = Val (w, t, e)
    | None => fault = None /\ exists t' cap, carried w t c cap_raw = inl cap /\ surrenders t cap_raw cap t' /\
        chan_send_bytes mc w t h payload cap_raw root uva len = Val (delivered w c s ch (Ipc.mkMsg payload (Some buf) cap), t', Ok)
    end.
Proof.
  intros Hw Ht [Hh (o & r & x & Hc & Hr & Hx & Hch)] Hchan Hcap Hlen.
  destruct (wo_objects w Hw o x Hx) as [_ Hox]. destruct (oo_chan w x Hox c s Hch) as [_ Hs].
  destruct (wo_channels w Hw c ch Hchan) as (_ & Hg). pose proof (cg_ok w ch Hg) as Hok.
  destruct (object_of_cap w t h o r Ht Hh Hc) as (x' & Hx' & Hl & Hrt & Hob). rewrite Hx in Hx'. injection Hx' as <-.
  destruct (copied_runs mc root uva len Hlen) as ([buf fault] & Ecopy & Hbl & _). exists buf, fault. split; [done|]. split; [done|].
  unfold byte_refusal, chan_send_bytes. rewrite Hl, Hrt, bind_val, Hr, Hob, bind_val, Hch. cbn [negb]. unfold deref.
  rewrite Hchan, bind_val, Ipc.peer_open_eq, bind_val by done. destruct (Ipc.is_open ch (1 - s)); [|by split]. cbn [negb].
  rewrite Ipc.outbox_eq, bind_val by done. cbn [Ipc.r_cap Ipc.q]. destruct (_ <=? _); [by split|]. destruct (Ipc.MAX_PAYLOAD <? len); [by split|].
  cbv zeta. fold (copied mc root uva len). rewrite Ecopy, bind_val. destruct fault; [by split|].
  destruct (take_carried_spec w t c cap_raw Ht Hcap) as (t' & -> & Hsur). rewrite bind_val.
  destruct (carried w t c cap_raw) as [cap|e] eqn:Ec; [|subst t'; split; [by eapply carried_not_ok | done]].
  split; [done|]. exists t', cap. split; [done|]. split; [done|]. by rewrite deliver_eq, bind_val.
Qed.

Lemma recv_bytes_spec mc w t h c s ch root uva dst_cap : world_ok w -> table_ok w t -> endpoint w t h Rights.READ c s -> channels w !! c = Some ch ->
  match Ipc.queue_of ch (1 - s) with
  | [] => chan_recv_bytes mc w t h root uva dst_cap = Val (mc, w, t, (if Ipc.is_open ch (1 - s) then WouldBlock else PeerClosed, 0, 0, 0))
  | m :: tl =>
      if dst_cap <? Ipc.byte_len m then chan_recv_bytes mc w t h root uva dst_cap = Val (mc, w, t, (Fault, 0, 0, 0)) else
      let '(mc', ok) := drain mc root uva m in
      if ok then
        let w' := put_channel w c (Ipc.with_queue ch (1 - s) tl) in
        match Ipc.msg_cap m with
        | None => chan_recv_bytes mc w t h root uva dst_cap = Val (mc', w', t, (Ok, Ipc.payload m, 0, Ipc.byte_len m))
        | Some (o, r) =>
            (full t /\ chan_recv_bytes mc w t h root uva dst_cap = Val (mc', w', t, (ObjFull, Ipc.payload m, 0, Ipc.byte_len m))) \/
            (~ full t /\ exists hn t', installs t o r t' hn /\
               chan_recv_bytes mc w t h root uva dst_cap = Val (mc', w', t', (Ok, Ipc.payload m, hn, Ipc.byte_len m)))
        end
      else chan_recv_bytes mc w t h root uva dst_cap = Val (mc', w, t, (Fault, 0, 0, 0))
  end.
Proof.
  intros Hw Ht [Hh (o & r & x & Hc & Hr & Hx & Hch)] Hchan.
  destruct (wo_objects w Hw o x Hx) as [_ Hox]. destruct (oo_chan w x Hox c s Hch) as [_ Hs].
  destruct (wo_channels w Hw c ch Hchan) as (_ & Hg). pose proof (cg_ok w ch Hg) as Hok.
  destruct (object_of_cap w t h o r Ht Hh Hc) as (x' & Hx' & Hl & Hrt & Hob). rewrite Hx in Hx'. injection Hx' as <-.
  unfold chan_recv_bytes. rewrite Hl, Hrt, bind_val, Hr, Hob, bind_val, Hch. cbn [negb]. unfold deref.
  rewrite Hchan, bind_val, Ipc.inbox_eq, bind_val by done. cbn [Ipc.q].
  destruct (Ipc.queue_of ch (1 - s)) as [|m tl] eqn:Hq; [by rewrite Ipc.peer_open_eq, bind_val|].
  destruct (dst_cap <? Ipc.byte_len m); [done|]. rewrite Ipc.pop_front_eq, bind_val, Hq by done. cbv zeta.
  destruct (drain mc root uva m) as [mc' ok]. destruct ok; cbn [negb].
  - destruct (Ipc.msg_cap m) as [[o' r']|]; [|done]. unfold attach. cbn [fst snd].
    destruct (alloc_installs t r' o' (to_wf w t Ht)) as [[Hf ->]|(Hnf & h' & t' & -> & Hin)]; rewrite bind_val; [by left | right].
    split; [done|]. by exists h', t'.
  - pose proof (Ipc.side_flip s Hs) as Hs1. rewrite Ipc.push_front_eq, bind_val by (done || by apply Ipc.with_queue_ok).
    rewrite Ipc.queue_of_with_queue, decide_True by done. rewrite with_queue_twice, <- Hq, with_queue_same by done. by rewrite put_channel_id.
Qed.

(** ** Properties *)

(** A byte-payload receive loses nothing.  With a buffer shorter than the message, or one
    that cannot be written, it answers [Fault] and the world and the receiver's table are
    exactly as before, the message with its bytes and its capability still at the head of
    the queue; otherwise the message leaves the queue and its bytes are in the buffer. *)
Theorem recv_bytes_lossless mc w t h c s ch m tl root uva dst_cap : world_ok w -> table_ok w t -> endpoint w t h Rights.READ c s ->
  channels w !! c = Some ch -> Ipc.queue_of ch (1 - s) = m :: tl ->
  let '(mc', written) := drain mc root uva m in
  if (dst_cap <? Ipc.byte_len m) || negb written then
    exists mc2, chan_recv_bytes mc w t h root uva dst_cap = Val (mc2, w, t, (Fault, 0, 0, 0)) /\ (mc2 = mc \/ mc2 = mc')
  else exists t' st mv, chan_recv_bytes mc w t h root uva dst_cap =
      Val (mc', put_channel w c (Ipc.with_queue ch (1 - s) tl), t', (st, Ipc.payload m, mv, Ipc.byte_len m)) /\
    match Ipc.msg_cap m with
    | None => t' = t /\ st = Ok /\ mv = 0
    | Some (o, r) => full t /\ t' = t /\ st = ObjFull \/ ~ full t /\ st = Ok /\ installs t o r t' mv
    end.
Proof.
  intros Hw Ht Hep Hc Hq. pose proof (recv_bytes_spec mc w t h c s ch root uva dst_cap Hw Ht Hep Hc) as H. rewrite Hq in H.
  destruct (dst_cap <? Ipc.byte_len m); cbn [orb]; [destruct (drain mc root uva m); exists mc; auto|].
  destruct (drain mc root uva m) as [mc' ok]. destruct ok; cbn [negb]; [|exists mc'; auto]. cbv zeta in H.
  destruct (Ipc.msg_cap m) as [[o r]|].
  - destruct H as [[Hf ->]|(Hnf & hn & t' & Hin & ->)]; [exists t, ObjFull, 0; by auto | exists t', Ok, hn; by auto].
  - exists t, Ok, 0. by auto.
Qed.

(** C5: bytes cross address spaces unchanged.  When the sender's buffer is readable in its
    space and the receiver's is writable in its own, at places of their own away from the
    tables its walks read, a send on an empty open channel and the receive after it both
    succeed, and the receiver's buffer, read through its own tables, holds byte for byte
    what the sender's held. *)
Theorem bytes_cross_spaces mc w ta tb ha hb c s ch p rootA uvaA rootB uvaB len dst_cap (pa : Z -> Z) :
  linked ha hb c s (w, ta, tb) -> channels w !! c = Some ch ->
  Ipc.queue_of ch s = [] -> Ipc.is_open ch (1 - s) = true -> 0 < Ipc.cap_of_ring ch s -> 0 < len <= Ipc.MAX_PAYLOAD -> len <= dst_cap ->
  (forall i, 0 <= i < len -> exists q, Uaccess.reach (Mmu.mem mc) rootA uvaA false i = inl q) ->
  (forall i, 0 <= i < len -> Uaccess.reach (Mmu.mem mc) rootB uvaB true i = inl (pa i)) ->
  (forall i j, 0 <= i < len -> 0 <= j < len -> pa i = pa j -> i = j) ->
  (forall i j, 0 <= i < len -> 0 <= j < len -> Uaccess.word_of (pa j) ∉ Uaccess.words_of (Mmu.mem mc) rootB (wrapping_add 64 uvaB i)) ->
  exists w1 mc2 w2, chan_send_bytes mc w ta ha p 0 rootA uvaA len = Val (w1, ta, Ok) /\
    chan_recv_bytes mc w1 tb hb rootB uvaB dst_cap = Val (mc2, w2, tb, (Ok, p, 0, len)) /\
    forall i, 0 <= i < len -> exists q q', Uaccess.reach (Mmu.mem mc) rootA uvaA false i = inl q /\
      Uaccess.reach (Mmu.mem mc2) rootB uvaB false i = inl q' /\ Uaccess.read_byte (Mmu.mem mc2) q' = Uaccess.read_byte (Mmu.mem mc) q.
Proof.
  intros [Hw Ha Hb Hs Hea Heb] Hch Hq Hopen Hroom Hlen Hcap Hsrc Hpa Hinj Htab. cbn [fst snd] in *.
  destruct (send_bytes_spec mc w ta ha c s ch p 0 rootA uvaA len Hw Ha Hea Hch ltac:(by vm_compute) ltac:(lia)) as (buf & fault & Ecopy & Hbl & Hsend).
  destruct (copied_runs mc rootA uvaA len ltac:(lia)) as ([buf' fault'] & Ecopy' & _ & Hbytes). rewrite Ecopy in Ecopy'. injection Ecopy' as <- <-.
  destruct fault as [e|]; [destruct Hbytes as (i & Hi & E); destruct (Hsrc i Hi) as [q Hq']; congruence|].
  unfold byte_refusal in Hsend. rewrite Hopen, Hq, zlen_nil, (proj2 (Z.leb_gt _ _) Hroom), (proj2 (Z.ltb_ge Ipc.MAX_PAYLOAD len)) in Hsend by lia. cbn [negb] in Hsend.
  change (carried w ta c 0) with (@inl (option (Z * Z)) SysStatus None) in Hsend. destruct Hsend as (_ & t' & cap & [= <-] & -> & Esend).
  set (m := Ipc.mkMsg p (Some buf) None) in *. exists (delivered w c s ch m).
  destruct (wo_channels w Hw c ch Hch) as (_ & Hg). pose proof (cg_ok w ch Hg) as Hok.
  assert (world_ok (delivered w c s ch m)) as Hw1 by (by apply delivered_ok).
  assert (channels (delivered w c s ch m) !! c = Some (enqueued ch s m)) as Hch1 by (cbn; by rewrite lookup_insert_eq).
  assert (Ipc.queue_of (enqueued ch s m) (1 - (1 - s)) = [m]) as Hq1.
  { replace (1 - (1 - s)) with s by lia. rewrite queue_of_enqueued, decide_True by done. by rewrite Hq. }
  assert (grows w (delivered w c s ch m)) as Hgr by apply (grows_put_channel w).
  pose proof (recv_bytes_spec mc _ tb hb c (1 - s) _ rootB uvaB dst_cap Hw1 (table_ok_grows _ _ _ Hgr Hb)
    (endpoint_objects w (delivered w c s ch m) tb hb Rights.READ c (1 - s) eq_refl Heb) Hch1) as Hrecv. rewrite Hq1 in Hrecv.
  assert (Ipc.byte_len m = len) as Hml by done. rewrite Hml, (proj2 (Z.ltb_ge dst_cap len)) in Hrecv by lia.
  assert (Forall (fun b => 0 <= b < 256) buf) as Hb8.
  { apply Forall_lookup_2. intros i b Eb. apply lookup_lt_Some in Eb as Hi. destruct (Hbytes (Z.of_nat i)) as (q & _ & E); [unfold zlen in Hbl; lia|].
    rewrite Nat2Z.id in E. rewrite Eb in E. injection E as ->. apply Uaccess.read_byte_range. }
  rewrite <- Hbl in Hpa, Hinj, Htab.
  destruct (Uaccess.copy_out_spec (Mmu.mem mc) rootB uvaB buf pa Hb8 Hpa Hinj Htab (Uaccess.span_pages uvaB (zlen buf)) 0 (Mmu.mem mc)) as (m2 & E2 & Hwr);
    [apply Uaccess.span_pages_tiles; lia | lia | by constructor; [intros; lia | |] |].
  assert (drain mc rootB uvaB m = (Mmu.set_mem mc m2, true)) as Edrain.
  { unfold drain. cbn [Ipc.msg_bytes m]. destruct buf as [|b bs] eqn:Eb; [rewrite zlen_nil in Hbl; lia|]. unfold Uaccess.copy_to_user. by rewrite E2. }
  rewrite Edrain in Hrecv. cbv zeta in Hrecv. cbn [Ipc.msg_cap m] in Hrecv.
  eexists (Mmu.set_mem mc m2), _. split; [exact Esend|]. split; [exact Hrecv|]. intros i Hi. destruct (Hbytes i Hi) as (q & Eq & Ebuf).
  exists q, (pa i). split; [exact Eq|]. cbn [Mmu.mem Mmu.set_mem]. split.
  - rewrite (Uaccess.written_reach (Mmu.mem mc) rootB uvaB buf pa Htab (zlen buf) m2 i false Hwr) by lia. apply Uaccess.reach_read, Hpa. lia.
  - rewrite (Uaccess.wr_bytes _ _ _ _ _ Hwr i) by lia. by rewrite Ebuf.
Qed.

(** ** Witnesses *)

(** Two spaces: the page at 0 of the one is the frame at 0x5000, of the other 0xA000. *)
Definition two_spaces : Mmu.Machine :=
  Mmu.set_mem Uaccess.demo_machine
    (Mmu.store (Mmu.store (Mmu.store (Mmu.store (Mmu.mem Uaccess.demo_machine) 0x6000 0x7007) 0x7000 0x8007) 0x8000 0x9007) 0x9000 0xA007).

Lemma bytes_cross_spaces_witness : exists w ta tb ha hb w1 mc2 w2, chan_send_bytes two_spaces w ta ha 7 0 0x1000 0x10 3 = Val (w1, ta, Ok) /\
  chan_recv_bytes two_spaces w1 tb hb 0x6000 0x20 3 = Val (mc2, w2, tb, (Ok, 7, 0, 3)).
Proof.
  destruct demo_linked as (w & ta & tb & ha & hb & c & Hl & _ & Hnew & _).
  pose proof Hl as [Hw _ _ _ [_ (o & r & x & _ & _ & Hx & Hcx)] _]. cbn [fst snd] in *.
  destruct (wo_objects w Hw o x Hx) as [_ Hox]. destruct (oo_chan w x Hox c 0 Hcx) as [[ch Hch] _]. pose proof (Hnew ch Hch) as ->.
  destruct (bytes_cross_spaces two_spaces w ta tb ha hb c 0 (Ipc.create 2) 7 0x1000 0x10 0x6000 0x20 3 3 (fun i => 0xA020 + i)) as (w1 & mc2 & w2 & Es & Er & _).
  - exact Hl.
  - exact Hch.
  - reflexivity.
  - reflexivity.
  - vm_compute. reflexivity.
  - split; vm_compute; [reflexivity | discriminate].
  - lia.
  - intros i [-> | [-> | ->]]%Uaccess.below_three; eexists; reflexivity.
  - intros i [-> | [-> | ->]]%Uaccess.below_three; reflexivity.
  - intros i j _ _ E. lia.
  - intros i j [-> | [-> | ->]]%Uaccess.below_three [-> | [-> | ->]]%Uaccess.below_three Hin; vm_compute in Hin; apply list_elem_of_In in Hin; cbn in Hin;
      repeat destruct Hin as [Hin|Hin]; (discriminate Hin || exact Hin).
  - exists w, ta, tb, ha, hb, w1, mc2, w2. split; [exact Es | exact Er].
Defined.

Lemma recv_bytes_lossless_witness : exists w t h mc2, chan_recv_bytes two_spaces w t h 0x6000 0x20 2 = Val (mc2, w, t, (Fault, 0, 0, 0)).
Proof.
  destruct demo_linked as (w0 & ta & tb & ha & hb & c & [Hw _ Hb _ [_ (o & r & x & _ & _ & Hx & Hcx)] Heb] & _ & Hnew & _). cbn [fst snd] in *.
  destruct (wo_objects w0 Hw o x Hx) as [_ Hox]. destruct (oo_chan w0 x Hox c 0 Hcx) as [[ch Hch] _]. pose proof (Hnew ch Hch) as ->.
  set (m := Ipc.mkMsg (O := Z) 7 (Some [1; 2; 3]) None). set (w := delivered w0 c 0 (Ipc.create 2) m).
  assert (grows w0 w) as Hgr by exact (grows_put_channel w0 c (enqueued (Ipc.create 2) 0 m)).
  pose proof (recv_bytes_lossless two_spaces w tb hb c 1 (enqueued (Ipc.create 2) 0 m) m [] 0x6000 0x20 2) as H.
  destruct (drain two_spaces 0x6000 0x20 m) as [mc' written]. destruct H as (mc2 & E & _).
  - apply delivered_ok; [exact Hw | exact Hch | left; reflexivity | intros o' r' Hm; discriminate Hm].
  - apply (table_ok_grows w0 w tb Hgr Hb).
  - apply (endpoint_objects w0 w tb hb Rights.READ c 1 eq_refl Heb).
  - unfold w. cbn. apply lookup_insert_eq.
  - reflexivity.
  - exists w, tb, hb, mc2. exact E.
Defined.
