(* ===== verification/Harness.v ===== *)
(** * The skill-improvement harness: [crates/tb-hal/src/caps.rs] (kernel-side harness) and
    [agent_evolve_request] of [crates/tb-hal/src/lib.rs].

    A proposed skill is scored against a held-out set that lives behind a handle of a
    kernel-owned table, and promoted only when it beats the best score so far; a high-impact
    one needs a handle with the approval right as well.  The evaluator's table is made for one
    request and dropped: its object stays in the store, where no table names it. *)
From Stdlib Require Import ZArith Lia.
From stdpp Require Import base numbers option tactics sets list gmap.
From S2P Require Import Prelude Caps Abi Syscall SyscallSpec Agents AgentsSpec.
From S2P Require Sched Engine Memscore Organ OrganSpec Skills.
Open Scope Z_scope.

(** [self.live(h).ok()?], the slot's object and its substrate. *)
Definition mem_of (w : World) (t : HandleTable) (h : Z) : res (option (Z * Object * Substrate)) :=
  match live t h with
  | inr _ => Val None
  | inl i =>
      ob ← object_of w t i;
      Val (match ob with
           | None => None
           | Some (o, x) => match mem x with None => None | Some m => Some (o, x, m) end
           end)
  end.

Definition skill_get_of (w : World) (t : HandleTable) (h id : Z) : res (option (Z * Z)) :=
  r ← mem_of w t h;
  match r with None => Val None | Some (_, _, m) => Skills.skill_get m id end.

Definition score_of (w : World) (t : HandleTable) (h body : Z) : res (option Z) :=
  r ← mem_of w t h;
  match r with None => Val None | Some (_, _, m) => s ← Skills.score_candidate m body; Val (Some s) end.

Definition skill_admit_of (w : World) (t : HandleTable) (h id score : Z) : res (World * bool) :=
  r ← mem_of w t h;
  match r with
  | None => Val (w, false)
  | Some (o, x, m) => '(m, adm) ← Skills.skill_admit m id score; Val (put_object w o (set_mem x m), adm)
  end.

Definition eval_seed_heldout (w : World) (t : HandleTable) (eval_home target base n : Z) : res (World * bool) :=
  r ← mem_of w t eval_home;
  match r with
  | None => Val (w, false)
  | Some (o, x, m) => m ← Skills.seed_heldout m target base n; Val (put_object w o (set_mem x m), true)
  end.

Definition harness_admit (w : World) (t : HandleTable) (skill_home skill_id : Z) (eval_tbl : HandleTable) (eval_home : Z)
    : res (World * (bool * Z)) :=
  b ← skill_get_of w t skill_home skill_id;
  match b with
  | None => Val (w, (false, 0))
  | Some (body, _) =>
      s ← score_of w eval_tbl eval_home body;
      match s with
      | None => Val (w, (false, 0))
      | Some score => '(w, admitted) ← skill_admit_of w t skill_home skill_id score; Val (w, (admitted, score))
      end
  end.

Definition skill_high_impact_of (w : World) (t : HandleTable) (h id : Z) : res (option bool) :=
  r ← mem_of w t h;
  match r with None => Val None | Some (_, _, m) => Skills.skill_is_high_impact m id end.

Definition carries_approval (t : HandleTable) (approval : Z) : res (bool + SysStatus) :=
  if approval =? Handle.NULL then Val (inl false) else
  match live t approval with
  | inr e => Val (inr e)
  | inl i => r ← rights_at t i; Val (inl (Rights.contains r Rights.APPROVE_HIGH_IMPACT))
  end.

Definition harness_merge (w : World) (t : HandleTable) (skill_home skill_id : Z) (eval_tbl : HandleTable) (eval_home : Z)
    (approval_tbl : HandleTable) (approval : Z) : res (World * (SysStatus * bool)) :=
  high ← skill_high_impact_of w t skill_home skill_id;
  match high with
  | None => Val (w, (BadCap, false))
  | Some high =>
      gate ← (if (high : bool) then
           a ← carries_approval approval_tbl approval;
           Val (match a with inl true => None | inl false => Some Denied | inr e => Some e end)
         else Val None);
      match gate with
      | Some e => Val (w, (e, false))
      | None => '(w, (admitted, _)) ← harness_admit w t skill_home skill_id eval_tbl eval_home; Val (w, (Ok, admitted))
      end
  end.

Definition eval_score (w : World) (t : HandleTable) (eval_home body : Z) : res (option Z) := score_of w t eval_home body.

Definition harness_admit_rotating (w : World) (t : HandleTable) (skill_home skill_id : Z) (eval_tbl : HandleTable)
    (eval_homes : list Z) (rotation : Z) : res (World * (bool * Z * Z)) :=
  let n := zlen eval_homes in
  if n =? 0 then Val (w, (false, 0, 0)) else
  let i := rotation mod n in
  b ← skill_get_of w t skill_home skill_id;
  match b with
  | None => Val (w, (false, i, 0))
  | Some (body, _) =>
      eh ← idx eval_homes i;
      s ← score_of w eval_tbl eh body;
      match s with
      | None => Val (w, (false, i, 0))
      | Some score => '(w, admitted) ← skill_admit_of w t skill_home skill_id score; Val (w, (admitted, i, score))
      end
  end.

Definition skill_tier_of (w : World) (t : HandleTable) (h id : Z) : res (option Z) :=
  r ← skill_get_of w t h id; Val (match r with None => None | Some (_, tier) => Some tier end).
Definition skill_admitted_count (w : World) (t : HandleTable) (h : Z) : res (option Z) :=
  r ← mem_of w t h;
  Val (match r with None => None | Some (_, _, m) => Some (Skills.skill_count_admitted m) end).
Definition skill_lineage_len (w : World) (t : HandleTable) (h id : Z) : res (option Z) :=
  r ← mem_of w t h;
  match r with None => Val None | Some (_, _, m) => n ← Skills.skill_lineage_len m id; Val (Some n) end.

(** ** The request of an agent *)

Definition HARNESS_GOOD_BODY : Z := 0x0000600D5C110001.
Definition HARNESS_BAD_BODY : Z := 0x0000BAD05C110002.
Definition EVAL_BASE : Z := 0x0000000000E57000.
Definition EVAL_N : Z := 6.

Definition agent_evolve_request (s : System) (t skill_id : Z) : res (System * option (SysStatus * bool)) :=
  if MAX_TASKS <=? t then Val (s, None) else
  '(w, eval_tbl, eval_home) ← mint_memory_home (world s) (with_capacity 4) mh_rights;
  match eval_home with
  | None => Val (set_world s w, None)
  | Some eval_home =>
      '(w, _) ← eval_seed_heldout w eval_tbl eval_home HARNESS_GOOD_BODY EVAL_BASE EVAL_N;
      ap ← idx (agents s) t;
      match ap with
      | None => Val (set_world s w, None)
      | Some ap =>
          if skill_home ap =? Handle.NULL then Val (set_world s w, Some (BadCap, false)) else
          '(w, (admitted, _)) ← harness_admit w (table ap) (skill_home ap) skill_id eval_tbl eval_home;
          Val (set_world s w, Some (Ok, admitted))
      end
  end.

(** ** Specification *)

#[local] Instance has_skill_dec (m : Substrate) id : Decision (Skills.has_skill m id).
Proof. unfold Skills.has_skill. apply _. Defined.

(** The substrate a handle reaches. *)
Definition mem_at (w : World) (t : HandleTable) (h : Z) : option (Z * Object * Substrate) :=
  '(o, _) ← cap_of t h; x ← objects w !! o; m ← mem x; Some (o, x, m).

(** The merge gate's answer to an approval handle; none when it lets the merge through. *)
Definition approval_refusal (t : HandleTable) (approval : Z) : option SysStatus :=
  if approval =? Handle.NULL then Some Denied else
  match cap_of t approval with
  | None => Some (dead_status t approval)
  | Some (_, r) => if Rights.contains r Rights.APPROVE_HIGH_IMPACT then None else Some Denied
  end.

Definition high_impact (m : Substrate) (id : Z) : bool :=
  negb (Z.land (Organ.s_provenance (Skills.skill_at m id)) Skills.SKILL_PROV_EMIT_EXTERNAL =? 0).

(** The substrate after skill [id] was judged with [score]. *)
Definition judged (m : Substrate) (id score : Z) : Substrate :=
  let best := Organ.best_score (Organ.t4 m) in
  let adm := best <? score in
  let s := Skills.skill_at m id in
  Organ.set_t4 (Organ.set_clock m (Organ.clock m + 1))
    (Organ.mkProc (<[Z.to_nat id := if adm then Skills.admitted_skill s score else Skills.skill_push_lineage s 0]> (Organ.skills (Organ.t4 m)))
       (Organ.s_next_id (Organ.t4 m)) (if adm then score else best)).

Definition body_of (m : Substrate) (id : Z) : Z := Organ.body_tok (Skills.skill_at m id).
Definition improves (m : Substrate) (score : Z) : bool := Organ.best_score (Organ.t4 m) <? score.

(** The harness's verdict on a skill of a home, given the evaluator's substrate. *)
Definition verdict (w : World) (home : option (Z * Object * Substrate)) (id : Z) (eval : option (Z * Object * Substrate))
    : World * (bool * Z) :=
  match home, eval with
  | Some (o, x, m), Some (_, _, e) =>
      if decide (Skills.has_skill m id) then
        let score := Skills.score_of e (body_of m id) in
        (put_object w o (set_mem x (judged m id score)), (improves m score, score))
      else (w, (false, 0))
  | _, _ => (w, (false, 0))
  end.

Definition short_clocks (w : World) : Prop :=
  forall o x m, objects w !! o = Some x -> mem x = Some m -> Organ.clock m < OrganSpec.CLOCK_MAX.

(** ** Lemmas *)

Lemma mem_of_eq w t h : table_ok w t -> is_u64 h -> mem_of w t h = Val (mem_at w t h).
Proof.
  intros Ht Hh. unfold mem_of, mem_at. destruct (cap_of t h) as [[o r]|] eqn:Hc.
  - destruct (object_of_cap w t h o r Ht Hh Hc) as (x & Hx & -> & _ & Ho). rewrite Ho, bind_val. cbn. rewrite Hx. cbn. by destruct (mem x).
  - destruct (no_cap_live t h Hc) as [e ->]. done.
Qed.

Lemma mem_at_inv w t h o x m : mem_at w t h = Some (o, x, m) ->
  (exists r, cap_of t h = Some (o, r)) /\ objects w !! o = Some x /\ mem x = Some m.
Proof.
  unfold mem_at. destruct (cap_of t h) as [[o' r]|]; cbn; [|done]. destruct (objects w !! o') as [x'|] eqn:Hx; cbn; [|done].
  destruct (mem x') eqn:Hm; cbn; [|done]. intros [= -> -> ->]. split; [by exists r | done].
Qed.

Lemma mem_at_organ w t h o x m : world_ok w -> mem_at w t h = Some (o, x, m) -> organ_ok m.
Proof. intros Hw (_ & Hx & Hm)%mem_at_inv. destruct (wo_objects w Hw o x Hx) as [_ Hox]. by apply (oo_mem w x Hox). Qed.

Lemma carries_approval_eq t a : carries_approval t a = Val (match approval_refusal t a with
  | None => inl true
  | Some e => if a =? Handle.NULL then inl false else match cap_of t a with None => inr e | Some _ => inl false end
  end).
Proof.
  unfold carries_approval, approval_refusal. destruct (a =? Handle.NULL); [done|]. pose proof (live_cap_of t a) as Hl. destruct (cap_of t a) as [[o r]|] eqn:Hc.
  - destruct (rights_object_at t a o r Hc) as (-> & -> & _). rewrite bind_val. by destruct (Rights.contains r Rights.APPROVE_HIGH_IMPACT).
  - by rewrite Hl.
Qed.

Lemma skill_get_eq m id : organ_ok m -> Skills.skill_get m id =
  Val (if decide (Skills.has_skill m id) then Some (body_of m id, Organ.s_tier (Skills.skill_at m id)) else None).
Proof.
  intros (L & X & K & Hm). unfold Skills.skill_get. case_decide as Hi.
  - rewrite (Skills.skill_idx_some m L X K id Hm Hi). by rewrite (proj1 (Skills.skill_get_ok m L X K id Hm Hi)), bind_val.
  - by rewrite (Skills.skill_idx_none m L X K id Hm Hi).
Qed.

Lemma high_impact_eq m id : organ_ok m -> Skills.skill_is_high_impact m id =
  Val (if decide (Skills.has_skill m id) then Some (high_impact m id) else None).
Proof.
  intros (L & X & K & Hm). unfold Skills.skill_is_high_impact. case_decide as Hi.
  - rewrite (Skills.skill_idx_some m L X K id Hm Hi). by rewrite (proj1 (Skills.skill_get_ok m L X K id Hm Hi)), bind_val.
  - by rewrite (Skills.skill_idx_none m L X K id Hm Hi).
Qed.

Lemma score_eq m body : organ_ok m -> Skills.score_candidate m body = Val (Skills.score_of m body) /\ 0 <= Skills.score_of m body <= Memscore.SCALE.
Proof. intros (L & X & K & Hm). by apply (Skills.score_candidate_eq m L X K). Qed.

Lemma admit_eq m id score : organ_ok m -> Organ.clock m < OrganSpec.CLOCK_MAX -> Skills.has_skill m id -> is_u32 score ->
  Skills.skill_admit m id score = Val (judged m id score, improves m score) /\ organ_ok (judged m id score).
Proof.
  intros (L & X & K & Hm) Hc Hi Hs. destruct (Skills.skill_admit_ok m L X K id score Hm Hc Hi Hs) as [E Ho].
  split; [exact E|]. by exists L, X, K.
Qed.

Lemma harness_admit_eq w t home id et eh : world_ok w -> table_ok w t -> table_ok w et -> short_clocks w -> is_u64 home -> is_u64 eh ->
  harness_admit w t home id et eh = Val (verdict w (mem_at w t home) id (mem_at w et eh)) /\
  world_ok (fst (verdict w (mem_at w t home) id (mem_at w et eh))).
Proof.
  intros Hw Ht Het Hc Hh Heh. unfold harness_admit, skill_get_of, score_of, skill_admit_of. rewrite !mem_of_eq, bind_val by done.
  destruct (mem_at w t home) as [[[o x] m]|] eqn:Em; [|done]. destruct (mem_at_inv w t home o x m Em) as (_ & Hx & Hm).
  pose proof (mem_at_organ w t home o x m Hw Em) as Hom. rewrite skill_get_eq, bind_val by done. unfold verdict.
  case_decide as Hi; [|by destruct (mem_at w et eh) as [[[? ?] ?]|]]. rewrite bind_val.
  destruct (mem_at w et eh) as [[[oe xe] e]|] eqn:Ee; [|done]. pose proof (mem_at_organ w et eh oe xe e Hw Ee) as Hoe.
  destruct (score_eq e (body_of m id) Hoe) as [-> Hb]. rewrite bind_val. unfold Memscore.SCALE in Hb.
  assert (is_u32 (Skills.score_of e (body_of m id))) as Hu by (unfold in_u; lia).
  destruct (admit_eq m id _ Hom (Hc o x m Hx Hm) Hi Hu) as [E Hj]. rewrite !bind_val, E, !bind_val. split; [done|].
  by apply put_mem_ok.
Qed.

Lemma approval_refusal_not_ok t a e : approval_refusal t a = Some e -> e <> Ok.
Proof.
  unfold approval_refusal. destruct (a =? Handle.NULL); [by intros [= <-]|]. destruct (cap_of t a) as [[o r]|]; [|intros [= <-]; apply dead_status_not_ok].
  destruct (Rights.contains r Rights.APPROVE_HIGH_IMPACT); [done | by intros [= <-]].
Qed.

(** The status of a merge: a skill to merge, and leave to merge it. *)
Definition merge_status (w : World) (t : HandleTable) (home id : Z) (at_ : HandleTable) (a : Z) : SysStatus :=
  match mem_at w t home with
  | None => BadCap
  | Some (_, _, m) =>
      if decide (Skills.has_skill m id) then
        match (if high_impact m id then approval_refusal at_ a else None) with Some e => e | None => Ok end
      else BadCap
  end.

Lemma harness_merge_eq w t home id et eh at_ a : world_ok w -> table_ok w t -> table_ok w et -> short_clocks w -> is_u64 home -> is_u64 eh ->
  harness_merge w t home id et eh at_ a =
  Val (match merge_status w t home id at_ a with
       | Ok => let '(w', (adm, _)) := verdict w (mem_at w t home) id (mem_at w et eh) in (w', (Ok, adm))
       | e => (w, (e, false))
       end).
Proof.
  intros Hw Ht Het Hc Hh Heh. unfold harness_merge, skill_high_impact_of, merge_status. rewrite mem_of_eq, bind_val by done.
  pose proof (harness_admit_eq w t home id et eh Hw Ht Het Hc Hh Heh) as [Ea _].
  destruct (mem_at w t home) as [[[o x] m]|] eqn:Em; [|done]. pose proof (mem_at_organ w t home o x m Hw Em) as Hom.
  rewrite high_impact_eq by done. case_decide as Hi; [|done]. rewrite bind_val. destruct (high_impact m id).
  - rewrite carries_approval_eq, !bind_val. pose proof (approval_refusal_not_ok at_ a) as Hno. unfold approval_refusal in *.
    destruct (a =? Handle.NULL); [done|]. destruct (cap_of at_ a) as [[oa ra]|].
    + destruct (Rights.contains ra Rights.APPROVE_HIGH_IMPACT); [|done]. rewrite Ea, bind_val. by destruct (verdict _ _ _ _) as [w' [adm s]].
    + rewrite ?bind_val. by destruct (dead_status at_ a) eqn:Ed; [destruct (Hno _ eq_refl)|..].
  - rewrite !bind_val, Ea, bind_val. by destruct (verdict _ _ _ _) as [w' [adm s]].
Qed.

(** Skill [id] of object [o] is admitted. *)
Definition admitted (w : World) (o id : Z) : Prop :=
  exists x m, objects w !! o = Some x /\ mem x = Some m /\ Skills.has_skill m id /\ Organ.s_tier (Skills.skill_at m id) = Organ.SKILL_ADMITTED.

Lemma judged_skills m id score i : Skills.has_skill m id -> Skills.has_skill (judged m id score) i ->
  Skills.has_skill m i /\ (Organ.s_tier (Skills.skill_at (judged m id score) i) = Organ.s_tier (Skills.skill_at m i) \/ (i = id /\ improves m score = true)).
Proof.
  intros Hi Hj. assert (Skills.has_skill m i) as Hi'.
  { unfold Skills.has_skill, judged in *. cbn in Hj. by rewrite zlen_insert in Hj. }
  split; [done|]. unfold Skills.skill_at, judged, Skills.has_skill in *. cbn. destruct (decide (i = id)) as [->|Hne].
  - rewrite list_lookup_total_insert_eq by (unfold zlen in *; lia). unfold improves. destruct (_ <? score); [by right | by left].
  - left. rewrite list_lookup_total_insert_ne by lia. done.
Qed.

Lemma verdict_admitted w t home id et eh o i :
  admitted (fst (verdict w (mem_at w t home) id (mem_at w et eh))) o i -> admitted w o i \/
  (i = id /\ exists x m oe xe e, mem_at w t home = Some (o, x, m) /\ mem_at w et eh = Some (oe, xe, e) /\ Skills.has_skill m id /\
     Organ.best_score (Organ.t4 m) < Skills.score_of e (body_of m id)).
Proof.
  unfold verdict. destruct (mem_at w t home) as [[[oh xh] m]|] eqn:Em; [|by left]. destruct (mem_at w et eh) as [[[oe xe] e]|]; [|by left].
  case_decide as Hi; [|by left]. destruct (mem_at_inv w t home oh xh m Em) as (_ & Hx & Hm).
  intros (y & my & Hy & Hmy & Hii & Htier). cbn in Hy. destruct (decide (o = oh)) as [->|Hne].
  - rewrite lookup_insert_eq in Hy. injection Hy as <-. cbn in Hmy. injection Hmy as <-.
    destruct (judged_skills m id _ i Hi Hii) as [Hi' [E|[-> Himp]]].
    + left. exists xh, m. by rewrite <- E.
    + right. split; [done|]. exists xh, m, oe, xe, e. by apply Z.ltb_lt in Himp.
  - rewrite lookup_insert_ne in Hy by done. left. by exists y, my.
Qed.

(** *** The world may move under the agents *)

Lemma world_advances T s w : sys_ok s -> world_ok w -> grows (world s) w -> Sched.sched_ok (sched w) -> channels w = channels (world s) ->
  (forall o x, objects (world s) !! o = Some x -> objects w !! o = Some x \/
     exists t ap h r, t ∈ T /\ agent_at s t ap /\ is_u64 h /\ cap_of (table ap) h = Some (o, r)) ->
  advances T s (set_world s w).
Proof.
  intros [Hs0 Hsch Hlen Hag Hp Hd] Hw Hg Hsc Hch Hob. split; [split; cbn; try done|].
  - intros b apb Hb. destruct (Hag b apb Hb) as (Htab & ?). split; [by eapply table_ok_grows | done].
  - intros a o Ha [Po Poth Pown Ptr]. split; [split; cbn|].
    + by apply Hg.
    + exact Poth.
    + exact Pown.
    + intros r (c & ch & sd & m & Hc & Hm). apply (Ptr r). exists c, ch, sd, m. by rewrite Hch in Hc.
    + intros Hn. cbn. destruct Po as [x Hx]. rewrite Hx. destruct (Hob o x Hx) as [?|(b & ap & h & r & Hb & Hat & Hh & Hcap)]; [done|].
      exfalso. apply (Poth b ap h r); [|done..]. by intros ->.
Qed.

(** ** Evolution *)

(** The score of a body on the held-out set of a request. *)
Definition frozen_score (body : Z) : Z :=
  zlen (List.filter (fun k => Memscore.skill_transform body (Skills.heldout_input EVAL_BASE k) =?
                              Memscore.skill_transform HARNESS_GOOD_BODY (Skills.heldout_input EVAL_BASE k)) (seqZ 0 EVAL_N))
    * Memscore.SCALE / EVAL_N.

Lemma frozen_scores : frozen_score HARNESS_GOOD_BODY = Memscore.SCALE /\ frozen_score HARNESS_BAD_BODY = 0.
Proof. by vm_compute. Qed.

Lemma filter_map {A B} (f : A -> B) (p : B -> bool) l : List.filter p (map f l) = map f (List.filter (fun x => p (f x)) l).
Proof. induction l as [|x l IH]; cbn; [done|]. destruct (p (f x)); cbn; by rewrite IH. Qed.
Lemma filter_ext {A} (p q : A -> bool) (l : list A) : (forall x, p x = q x) -> List.filter p l = List.filter q l.
Proof. intros H. induction l as [|x l IH]; cbn; [done|]. by rewrite H, IH. Qed.
Lemma zlen_map {A B} (f : A -> B) l : zlen (map f l) = zlen l.
Proof. unfold zlen. by rewrite length_map. Qed.

Lemma evaluator_seeded : exists e, Skills.seed_heldout substrate_new HARNESS_GOOD_BODY EVAL_BASE EVAL_N = Val e /\ organ_ok e /\
  Organ.clock e < OrganSpec.CLOCK_MAX /\ forall body, Skills.score_of e body = frozen_score body.
Proof.
  destruct (Skills.seed_heldout_ok substrate_new [] [] [] HARNESS_GOOD_BODY EVAL_BASE EVAL_N) as (e & E & Ho & Hl & Hc & _);
    [by apply OrganSpec.new_inv | unfold in_u, HARNESS_GOOD_BODY; lia | by vm_compute | by vm_compute | by vm_compute |].
  exists e. split; [exact E|]. split; [by exists [], [], []|]. split; [rewrite Hc; by vm_compute|]. intros body.
  assert (Skills.live_eps e = Skills.heldout substrate_new HARNESS_GOOD_BODY EVAL_BASE EVAL_N) as El.
  { unfold Skills.live_eps. rewrite Hl. apply Skills.filter_all, Forall_map, Forall_forall. intros k _. done. }
  unfold Skills.score_of, Skills.hits, frozen_score. rewrite El. unfold Skills.heldout. rewrite filter_map, !zlen_map. done.
Qed.

(** The verdict on skill [id] of an agent's skill home. *)
Definition evolved (w : World) (ap : AgentProcess) (id : Z) : option (Z * Object * Substrate * Z) :=
  match mem_at w (table ap) (skill_home ap) with
  | Some (o, x, m) => if decide (Skills.has_skill m id) then Some (o, x, m, frozen_score (body_of m id)) else None
  | None => None
  end.

(** The world with the evaluator of a request, whose handle is in a table of its own. *)
Record evaluator (w : World) (et : HandleTable) (eh o : Z) (e : Substrate) (w' : World) : Prop := {
  ev_world : world_ok w';
  ev_table : table_ok w' et;
  ev_handle : is_u64 eh;
  ev_grows : grows w w';
  ev_new : objects w !! o = None;
  ev_objects : forall i, i <> o -> objects w' !! i = objects w !! i;
  ev_channels : channels w' = channels w;
  ev_sched : sched w' = sched w;
  ev_clocks : short_clocks w -> short_clocks w';
  ev_reach : exists x, mem_at w' et eh = Some (o, x, e);
  ev_scores : forall body, Skills.score_of e body = frozen_score body;
}.

Lemma evaluator_made w : world_ok w -> exists w1 et eh w2 o e,
  mint_memory_home w (with_capacity 4) mh_rights = Val (w1, et, Some eh) /\
  eval_seed_heldout w1 et eh HARNESS_GOOD_BODY EVAL_BASE EVAL_N = Val (w2, true) /\ evaluator w et eh o e w2.
Proof.
  intros Hw. set (x0 := mkObj ObjKind.MemoryHome (Some substrate_new) 0 None None None).
  destruct (mint_object_spec w (with_capacity 4) mh_rights x0) as ([[w1 et] [eh|]] & E & Hw1 & Het & Hg & Hm);
    [done | by apply (empty_table_ok w 4) | apply home_ok | by vm_compute | | by destruct Hm as [[_ Hm] _]].
  destruct evaluator_seeded as (e & Ee & Hoe & Hce & Hsc). destruct Hm as (E1 & _ & Heh & _ & _ & _ & Hmap).
  assert (objects w !! next_id w = None) as Hnone.
  { destruct (objects w !! next_id w) as [y|] eqn:Ey; [|done]. destruct (wo_objects w Hw _ _ Ey). lia. }
  assert (objects w1 !! next_id w = Some x0) as Hx0 by (rewrite E1; cbn; apply lookup_insert_eq).
  assert (forall w' m, objects w' !! next_id w = Some (set_mem x0 m) -> mem_at w' et eh = Some (next_id w, set_mem x0 m, m)) as Hreach.
  { intros w' m Hw'. unfold mem_at. rewrite Hmap, decide_True by done. cbn. by rewrite Hw'. }
  exists w1, et, eh, (put_object w1 (next_id w) (set_mem x0 e)), (next_id w), e. split; [exact E|].
  assert (world_ok (put_object w1 (next_id w) (set_mem x0 e))) as Hw2 by by apply put_mem_ok.
  split; [|constructor].
  - unfold eval_seed_heldout. rewrite mem_of_eq, bind_val by done. rewrite (Hreach w1 substrate_new Hx0). by rewrite Ee, bind_val.
  - exact Hw2.
  - eapply table_ok_grows; [apply grows_put_object | exact Het].
  - exact Heh.
  - destruct Hg as (Ho & Hch & Hb). split; [|split; [exact Hch | exact Hb]]. intros o Hso. apply grows_put_object. by apply Ho.
  - exact Hnone.
  - intros i Hi. rewrite E1. cbn [put_object set_objects objects]. by rewrite !lookup_insert_ne by done.
  - by rewrite E1.
  - by rewrite E1.
  - intros Hc o y m Hy Hm'. cbn [put_object set_objects objects] in Hy. destruct (decide (o = next_id w)) as [->|Hne].
    + rewrite lookup_insert_eq in Hy. injection Hy as <-. injection Hm' as <-. exact Hce.
    + rewrite E1 in Hy. cbn [put_object set_objects objects] in Hy. rewrite !lookup_insert_ne in Hy by done. by apply (Hc o y).
  - exists (set_mem x0 e). apply Hreach. apply lookup_insert_eq.
  - exact Hsc.
Qed.

(** What a request answers the agent. *)
Definition evolve_answer (w : World) (ap : AgentProcess) (id : Z) : SysStatus * bool :=
  if skill_home ap =? Handle.NULL then (BadCap, false) else
  (Ok, match evolved w ap id with Some (_, _, m, score) => improves m score | None => false end).

(** Only the skill home's substrate changes, and only by the verdict. *)
Definition evolved_objects (w : World) (ap : AgentProcess) (id : Z) (w' : World) : Prop :=
  forall i x, objects w !! i = Some x -> objects w' !! i = Some (match evolved w ap id with
    | Some (o, y, m, score) => if decide (skill_home ap <> Handle.NULL /\ i = o) then set_mem y (judged m id score) else x
    | None => x
    end).

Lemma room_clocks w : room w -> short_clocks w.
Proof. intros [Hr _] o x m Hx Hm. pose proof (Hr o x m Hx Hm). lia. Qed.

Lemma evaluator_keeps w et eh o e w' i x : evaluator w et eh o e w' -> objects w !! i = Some x -> objects w' !! i = Some x.
Proof. intros Hev Hx. rewrite (ev_objects _ _ _ _ _ _ Hev); [done|]. intros ->. by rewrite (ev_new _ _ _ _ _ _ Hev) in Hx. Qed.

Lemma evaluator_mem_at w et eh o e w' t h : world_ok w -> table_ok w t -> evaluator w et eh o e w' -> is_u64 h -> mem_at w' t h = mem_at w t h.
Proof.
  intros Hw Ht Hev Hh. unfold mem_at. destruct (cap_of t h) as [[i r]|] eqn:Hc; [|done]. cbn.
  destruct (to_caps w t Ht h i r Hh Hc) as [[x Hx] _]. rewrite (ev_objects _ _ _ _ _ _ Hev); [done|]. intros ->. by rewrite (ev_new _ _ _ _ _ _ Hev) in Hx.
Qed.

Lemma evaluator_advances T s et eh o e w' : sys_ok s -> evaluator (world s) et eh o e w' -> advances T s (set_world s w').
Proof.
  intros Hs Hev. apply world_advances; [done | apply (ev_world _ _ _ _ _ _ Hev) | apply (ev_grows _ _ _ _ _ _ Hev) | | apply (ev_channels _ _ _ _ _ _ Hev)|].
  - rewrite (ev_sched _ _ _ _ _ _ Hev). apply (so_sched s Hs).
  - intros i x Hx. left. by eapply evaluator_keeps.
Qed.

(** What was not there before is named by no table and no message, while those stay. *)
Lemma fresh_unreachable s w : sys_ok s -> channels w = channels (world s) -> forall o, objects (world s) !! o = None ->
  (forall b ap h q, agent_at (set_world s w) b ap -> is_u64 h -> cap_of (table ap) h <> Some (o, q)) /\ (forall q, ~ in_transit w o q).
Proof.
  intros Hs Hch o Ho. split.
  - intros b ap h q Hat Hh Hc. destruct (so_agents s Hs b ap Hat) as (Htb & _). destruct (to_caps _ _ Htb h o q Hh Hc) as [[y Hy] _]. congruence.
  - intros q (c & ch & sd & m & Hc & Hsd & Hm & Hcap). rewrite Hch in Hc. destruct (wo_channels _ (so_world s Hs) c ch Hc) as [_ Hg].
    destruct (cg_caps _ _ Hg sd m o q Hsd Hm Hcap) as [[y Hy] _]. congruence.
Qed.

(** The world after the verdict on an agent's skill. *)
Lemma evolve_verdict s t ap id et eh o e w2 : sys_ok s -> room (world s) -> agent_at s t ap -> skill_home ap <> Handle.NULL ->
  evaluator (world s) et eh o e w2 ->
  exists w3 adm sc, harness_admit w2 (table ap) (skill_home ap) id et eh = Val (w3, (adm, sc)) /\
    (Ok, adm) = evolve_answer (world s) ap id /\ evolved_objects (world s) ap id w3 /\ channels w3 = channels (world s) /\
    advances [t] s (set_world s w3).
Proof.
  intros Hs Hr Hat Hnn Hev. destruct (so_agents s Hs t ap Hat) as (Htb & _ & _ & Hsk). pose proof (so_world s Hs) as Hw.
  assert (table_ok w2 (table ap)) as Htb2 by (eapply table_ok_grows; [apply (ev_grows _ _ _ _ _ _ Hev) | done]).
  destruct (harness_admit_eq w2 (table ap) (skill_home ap) id et eh (ev_world _ _ _ _ _ _ Hev) Htb2 (ev_table _ _ _ _ _ _ Hev)
    (ev_clocks _ _ _ _ _ _ Hev (room_clocks _ Hr)) Hsk (ev_handle _ _ _ _ _ _ Hev)) as [Ea Hok].
  rewrite Ea. destruct (ev_reach _ _ _ _ _ _ Hev) as [xe Exe]. rewrite Exe in *.
  rewrite (evaluator_mem_at (world s) et eh o e w2) in * by done. unfold evolve_answer, evolved_objects, evolved, verdict in *.
  rewrite (proj2 (Z.eqb_neq _ _) Hnn).
  assert (forall i x, objects (world s) !! i = Some x -> objects w2 !! i = Some x) as Hkeep by (intros i x; by apply (evaluator_keeps _ et eh o e)).
  pose proof (ev_channels _ _ _ _ _ _ Hev) as Hch.
  destruct (mem_at (world s) (table ap) (skill_home ap)) as [[[oh xh] m]|] eqn:Em.
  2: { do 3 eexists. split; [done|]. split; [done|]. split; [exact Hkeep|]. split; [done|]. by apply (evaluator_advances _ _ et eh o e). }
  case_decide as Hi.
  2: { do 3 eexists. split; [done|]. split; [done|]. split; [exact Hkeep|]. split; [done|]. by apply (evaluator_advances _ _ et eh o e). }
  rewrite (ev_scores _ _ _ _ _ _ Hev) in *. do 3 eexists. split; [done|]. split; [done|].
  destruct (mem_at_inv _ _ _ _ _ _ Em) as ((r & Hc) & Hx & Hm). split.
  - intros i x Hix. cbn [put_object set_objects objects]. destruct (decide (i = oh)) as [->|Hne].
    + by rewrite lookup_insert_eq, decide_True.
    + rewrite lookup_insert_ne by done. rewrite decide_False by tauto. by apply Hkeep.
  - split; [exact Hch|]. apply world_advances; [done | exact Hok | | | |].
    + destruct (ev_grows _ _ _ _ _ _ Hev) as (G1 & G2 & G3). split; [|split; [exact G2 | exact G3]]. intros i Hsi. apply grows_put_object. by apply G1.
    + cbn. rewrite (ev_sched _ _ _ _ _ _ Hev). apply (so_sched s Hs).
    + exact Hch.
    + intros i x Hix. destruct (decide (i = oh)) as [->|Hne].
      * right. exists t, ap, (skill_home ap), r. split; [by apply list_elem_of_singleton | done].
      * left. cbn [put_object set_objects objects]. rewrite lookup_insert_ne by done. by apply Hkeep.
Qed.

Lemma evolve_advances s t id : sys_ok s -> room (world s) -> 0 <= t -> runs (agent_evolve_request s t id) (fun '(s', _) => advances [t] s s').
Proof.
  intros Hs Hr Ht. unfold agent_evolve_request. destruct (Z.leb_spec MAX_TASKS t); [apply runs_val; by apply sys_advances_refl|].
  destruct (evaluator_made (world s) (so_world s Hs)) as (w1 & et & eh & w2 & o & e & -> & E2 & Hev). rewrite bind_val, E2, bind_val.
  pose proof (evaluator_advances [t] s et eh o e w2 Hs Hev) as Hadv.
  destruct (Prelude.idx_ok (agents s) t) as [[ap|] Hap]; [rewrite (so_len s Hs); lia | | rewrite Hap; by apply runs_val].
  rewrite Hap, bind_val. apply idx_val_inv in Hap as [_ Hap]. destruct (Z.eqb_spec (skill_home ap) Handle.NULL) as [En|Hnn]; [by apply runs_val|].
  destruct (evolve_verdict s t ap id et eh o e w2) as (w3 & adm & sc & -> & _ & _ & _ & Hadv3); try done.
  rewrite bind_val. by apply runs_val.
Qed.

(** ** Properties *)

(** C6: the merge gate fails closed.  A merge always returns and never panics.  A skill that
    may emit externally is merged only with a live handle carrying the approval right: without
    one the answer is [Denied], or what resolving the handle said, and nothing changes.  Past
    the gate the skill is admitted exactly when its score under the evaluator's substrate is
    strictly above the home's best, and nothing else is ever promoted: whatever is admitted
    afterwards was admitted before, or is that skill under those conditions. *)
Theorem merge_gate_fail_closed w t home id et eh at_ a :
  world_ok w -> table_ok w t -> table_ok w et -> short_clocks w -> is_u64 home -> is_u64 eh ->
  runs (harness_merge w t home id et eh at_ a) (fun '(w', (st, adm)) =>
    world_ok w' /\ st = merge_status w t home id at_ a /\ (st <> Ok -> w' = w /\ adm = false) /\
    (st = Ok -> let v := verdict w (mem_at w t home) id (mem_at w et eh) in w' = fst v /\ adm = fst (snd v)) /\
    forall o i, admitted w' o i -> admitted w o i \/
      (i = id /\ exists x m oe xe e, mem_at w t home = Some (o, x, m) /\ mem_at w et eh = Some (oe, xe, e) /\
         (high_impact m id = true -> approval_refusal at_ a = None) /\
         Organ.best_score (Organ.t4 m) < Skills.score_of e (body_of m id))).
Proof.
  intros Hw Ht Het Hc Hh Heh. rewrite harness_merge_eq by done. apply runs_val.
  destruct (harness_admit_eq w t home id et eh Hw Ht Het Hc Hh Heh) as [_ Hok].
  pose proof (verdict_admitted w t home id et eh) as Hadm.
  destruct (merge_status w t home id at_ a) eqn:Est; try (split; [done|]; split; [done|]; split; [done|]; split; [done|]; intros o i Ha; by left).
  destruct (verdict w (mem_at w t home) id (mem_at w et eh)) as [w' [adm sc]]. cbn [fst snd] in *.
  do 4 (split; [done|]). intros o i Ha. destruct (Hadm o i Ha) as [?|(-> & x & m & oe & xe & e & Em & Ee & Hi & Hlt)]; [by left|].
  right. split; [done|]. exists x, m, oe, xe, e. split; [done|]. split; [done|]. split; [|done]. intros Hhi.
  unfold merge_status in Est. rewrite Em, decide_True, Hhi in Est by done. destruct (approval_refusal at_ a) as [err|] eqn:Er; [|done].
  by destruct (approval_refusal_not_ok at_ a err Er).
Qed.

(** C7: a request to evolve is judged on a set the agent cannot reach.  It always returns.  For
    a live agent with a skill home it answers whether the skill beats the home's best on the
    held-out set of the fixed target, and the only object changed is that home's substrate, by
    that verdict; without a skill home the answer is [BadCap], without an agent none, and no
    object changes.  Whatever the request created, the evaluator included, is named by no
    agent's table and no message afterwards, and every other agent's private memory stands. *)
Theorem evolve_request_frozen s t id : sys_ok s -> room (world s) -> 0 <= t ->
  runs (agent_evolve_request s t id) (fun '(s', r) =>
    advances [t] s s' /\ agents s' = agents s /\
    (forall o, objects (world s) !! o = None ->
       (forall b ap h q, agent_at s' b ap -> is_u64 h -> cap_of (table ap) h <> Some (o, q)) /\ (forall q, ~ in_transit (world s') o q)) /\
    (forall ap, agent_at s t ap -> r = Some (evolve_answer (world s) ap id) /\ evolved_objects (world s) ap id (world s')) /\
    ((forall ap, ~ agent_at s t ap) -> r = None /\ forall i x, objects (world s) !! i = Some x -> objects (world s') !! i = Some x)).
Proof.
  intros Hs Hr Ht. pose proof (so_world s Hs) as Hw. pose proof (fresh_unreachable s) as Hfrozen. unfold agent_evolve_request.
  destruct (Z.leb_spec MAX_TASKS t) as [Hge|Hlt].
  { apply runs_val. split; [by apply sys_advances_refl|]. split; [done|]. split; [destruct s; by apply Hfrozen|].
    split; [|done]. intros ap Hat. pose proof (agent_range s t ap Hs Hat). lia. }
  destruct (evaluator_made (world s) Hw) as (w1 & et & eh & w2 & o & e & -> & E2 & Hev). rewrite bind_val, E2, bind_val.
  pose proof (fun i x => evaluator_keeps (world s) et eh o e w2 i x Hev) as Hkeep. pose proof (ev_channels _ _ _ _ _ _ Hev) as Hch.
  destruct (Prelude.idx_ok (agents s) t) as [[ap|] Hap]; [rewrite (so_len s Hs); lia | |]; rewrite Hap, bind_val; apply idx_val_inv in Hap as [_ Hap].
  2: { apply runs_val. split; [by apply (evaluator_advances _ _ et eh o e)|]. split; [done|]. split; [by apply Hfrozen|].
       split; [intros ap [_ E]; congruence | done]. }
  assert (agent_at s t ap) as Hat by by split.
  assert (forall r s', r = Some (evolve_answer (world s) ap id) /\ evolved_objects (world s) ap id (world s') ->
    (forall ap', agent_at s t ap' -> r = Some (evolve_answer (world s) ap' id) /\ evolved_objects (world s) ap' id (world s')) /\
    ((forall ap', ~ agent_at s t ap') -> r = None /\ forall i x, objects (world s) !! i = Some x -> objects (world s') !! i = Some x)) as Hone.
  { intros r s' Hrs. split; [|intros Hno; by destruct (Hno ap)]. intros ap' Hat'. by rewrite (agent_at_inj s t ap' ap Hat' Hat). }
  destruct (Z.eqb_spec (skill_home ap) Handle.NULL) as [En|Hnn].
  - apply runs_val. split; [by apply (evaluator_advances _ _ et eh o e)|]. split; [done|]. split; [by apply Hfrozen|].
    apply Hone. unfold evolve_answer, evolved_objects. rewrite En. split; [done|]. intros i x Hx.
    destruct (evolved (world s) ap id) as [[[[? ?] ?] ?]|]; [rewrite decide_False by tauto|]; by apply Hkeep.
  - destruct (evolve_verdict s t ap id et eh o e w2 Hs Hr Hat Hnn Hev) as (w3 & adm & sc & -> & Eans & Hobj & Hch3 & Hadv).
    rewrite bind_val. apply runs_val. split; [done|]. split; [done|]. split; [by apply Hfrozen|]. apply Hone. by rewrite <- Eans.
Qed.

(** ** Witnesses *)

(** A table whose one handle reaches a home with one proposed, high-impact skill of the target's body. *)
Lemma proposed_home (sc : Sched.Sched) : zlen (Sched.TASK_STATE sc) = Sched.MAX_TASKS ->
  exists w t h o x m, world_ok w /\ table_ok w t /\ room w /\ sched w = sc /\ channels w = ∅ /\ is_u64 h /\ h <> Handle.NULL /\
    mem_at w t h = Some (o, x, m) /\ Skills.has_skill m 0 /\ high_impact m 0 = true /\ body_of m 0 = HARNESS_GOOD_BODY /\
    Organ.best_score (Organ.t4 m) = 0.
Proof.
  intros Hsc. destruct (Skills.skill_add_ok substrate_new [] [] [] HARNESS_GOOD_BODY 1 2 1) as (l & e & _ & Hl & Ho & _);
    [by apply OrganSpec.new_inv | by vm_compute | unfold in_u, HARNESS_GOOD_BODY; lia | unfold in_u; lia | by vm_compute |].
  set (m := Organ.set_led _ l) in *. set (w0 := mkWorld ∅ ∅ ∅ 0 sc).
  assert (world_ok w0) as Hw0 by (split; try (intros ? ? E; cbn in E; by rewrite lookup_empty in E); done).
  destruct (mint_object_spec w0 (empty_table 4) wp_rights (mkObj ObjKind.MemoryHome (Some m) 0 None None None))
    as ([[w t] [h|]] & _ & Hw & Ht & _ & Hm); [done | by apply empty_table_ok | | by vm_compute | | by destruct Hm as [[_ Hm] _]].
  { split; cbn; [|done|done]. intros m' [= <-]. eexists _, _, _. exact Ho. }
  destruct Hm as (Ew & _ & Hh & Hnn & _ & _ & Hmap). eexists w, t, h, 0, _, m. do 2 (split; [done|]). split.
  { rewrite Ew. split; [|intros b blk; cbn; by rewrite lookup_empty]. intros o x m'. cbn [w0 fresh snd put_object set_objects objects next_id].
    destruct (decide (o = 0)) as [->|Hne]; [|by rewrite lookup_insert_ne, lookup_empty].
    rewrite lookup_insert_eq. intros [= <-] [= <-]. change (Organ.clock m) with (Prov.clock l). rewrite Hl. by vm_compute. }
  split; [by rewrite Ew|]. split; [by rewrite Ew|]. do 2 (split; [done|]). split.
  { unfold mem_at. rewrite Hmap, decide_True by done. cbn. rewrite Ew. cbn [w0 fresh snd put_object set_objects objects next_id]. by rewrite lookup_insert_eq. }
  repeat split; try done.
Qed.

Lemma merge_gate_fail_closed_witness : exists w t h, world_ok w /\
  harness_merge w t h 0 t h (empty_table 4) Handle.NULL = Val (w, (Denied, false)).
Proof.
  destruct (proposed_home (Sched.boot 4096) eq_refl) as (w & t & h & o & x & m & Hw & Ht & Hr & _ & _ & Hh & _ & Em & Hi & Hhi & _).
  destruct (merge_gate_fail_closed w t h 0 t h (empty_table 4) Handle.NULL Hw Ht Ht (room_clocks w Hr) Hh Hh) as ([w' [st adm]] & E & _ & Est & Hsame & _).
  assert (st = Denied) as -> by (rewrite Est; unfold merge_status; rewrite Em, decide_True, Hhi by done; reflexivity).
  exists w, t, h. split; [exact Hw|]. destruct Hsame as [-> ->]; [discriminate | exact E].
Defined.

Lemma evolve_request_frozen_witness : exists s s', sys_ok s /\ agent_evolve_request s 0 0 = Val (s', Some (Ok, true)).
Proof.
  destruct (Sched.scheduler_init_ok 4096) as (sc & _ & Hsc & _).
  destruct (proposed_home sc (Sched.so_state sc Hsc)) as (w & t & h & o & x & m & Hw & Ht & Hr & Esc & Hch & Hh & Hnn & Em & Hi & _ & Hb & Hbest).
  set (ap := mkAgent [] 4096 t 0 0 0 0 0 0 h).
  set (s := mkSys w (<[0%nat := Some ap]> (zrepeat MAX_TASKS None)) (zrepeat MAX_TASKS false) (zrepeat MAX_TASKS false) false).
  assert (agent_at s 0 ap) as Hat by by split.
  assert (sys_ok s) as Hs.
  { split; cbn; [done | by rewrite Esc | done | | done | done]. intros b apb [Hb0 E]. cbn in E. destruct (decide (Z.to_nat b = 0%nat)) as [E0|Hne].
    - rewrite E0, list_lookup_insert_eq in E by (vm_compute; lia). injection E as <-. split; [done|]. split; [|split]; [unfold in_u; cbn; lia.. | done].
    - rewrite list_lookup_insert_ne in E by done. apply list_elem_of_lookup_2, list_elem_of_In in E. cbn in E. by repeat destruct E as [E|E]. }
  destruct (evolve_request_frozen s 0 0 Hs Hr ltac:(lia)) as ([s' r] & E & _ & _ & _ & Hans & _).
  destruct (Hans ap Hat) as [-> _]. exists s, s'. split; [exact Hs|]. rewrite E. f_equal. f_equal. f_equal.
  unfold evolve_answer, evolved. change (skill_home ap) with h. change (table ap) with t. change (world s) with w.
  rewrite (proj2 (Z.eqb_neq _ _) Hnn). rewrite Em, decide_True by done.
  unfold improves. rewrite Hb, Hbest. by vm_compute.
Defined.
