(* ===== verification/UserMemSpec.v ===== *)
(** * What the facades that reach user memory do to the machine and to the system.

    For the calls of [UserMem]: the frame allocator's tables stay in order whatever memory
    holds; over a frame pool and a space of page tables in order no call halts; and the
    system around them [advances] as after any other facade. *)
From Stdlib Require Import ZArith Lia.
From stdpp Require Import base numbers option tactics sets list gmap.
From S2P Require Import Prelude Caps Abi Syscall SyscallSpec ChannelSpec Agents AgentsSpec UserMem.
From S2P Require Pmm Mmu Uaccess Ipc Blocks Sched.
Open Scope Z_scope.

(** ** Specification *)

(** The boot map fits its tables, and the frames are countable. *)
Record pmm_ok (st : Pmm.PmmState) : Prop := {
  po_usable : 0 <= Pmm.usable_len st <= zlen (Pmm.usable st);
  po_reserved : 0 <= Pmm.reserved_len st <= zlen (Pmm.reserved st);
  po_total : Pmm.total_frames st < 2 ^ 64;
}.

Record kernel_ok (k : Kernel) : Prop := {
  ko_sys : sys_ok (sys k);
  ko_pmm : pmm_ok (Mmu.pmm (machine k));
}.

(** A kernel step in which only the tasks of [T] act. *)
Record moves (T : list Z) (k k' : Kernel) : Prop := {
  mv_sys : advances T (sys k) (sys k');
  mv_pmm : pmm_ok (Mmu.pmm (machine k'));
}.

(** The free-frame stack is a pool. *)
Definition pool_intact (mc : Mmu.Machine) : Prop := exists F l, Pmm.pool (Mmu.pmm mc) (Mmu.mem mc) F l.

(** The tables under [root] are a space over a pool, which owns the slots of the [n] pages
    from [va], all below the end of the address space. *)
Definition space_intact (mc : Mmu.Machine) (root va n : Z) : Prop :=
  (exists P F lv l, Mmu.space P F mc root lv l /\ forall i, 0 <= i < n -> P (Mmu.level_index (va + i * 4096) Mmu.SHIFT_512G)) /\
  forall i, 0 <= i < n -> is_u64 (va + i * 4096).

(** ** The allocator, whatever memory holds *)

Lemma alloc_keeps st m : pmm_ok st -> concludes (Pmm.alloc st m) (fun '(st', _) => pmm_ok st') True.
Proof.
  intros []. unfold Pmm.alloc. destruct (Pmm.head st =? 0); [by constructor|]. cbv zeta. unfold sub_u. case_decide; [by constructor | done].
Qed.

Lemma free_runs st m pa : pmm_ok st -> runs (Pmm.free st m pa) (fun '(st', _, _) => pmm_ok st').
Proof.
  intros [Hu Hr Ht]. pose proof (Build_pmm_ok st Hu Hr Ht) as Hok. unfold Pmm.free. destruct (_ || _); [by apply runs_val|].
  assert (exists b, Pmm.frame_in_usable st pa = Val b) as [inu ->].
  { unfold Pmm.frame_in_usable. destruct (checked_add 64 pa Pmm.FRAME); [|by eexists]. rewrite any_up_existsb by done. by eexists. }
  rewrite bind_val. destruct (negb inu); [by apply runs_val|]. rewrite Pmm.is_reserved_frame_eq, bind_val by done.
  destruct (Pmm.touches _ _); [by apply runs_val|]. destruct (Z.leb_spec (Pmm.total_frames st) (Pmm.free_count st)); [by apply runs_val|].
  destruct (_ =? _); [by apply runs_val|]. rewrite add_u_ok, bind_val by lia. apply runs_val. by constructor.
Qed.

Lemma frame_alloc_keeps mc : pmm_ok (Mmu.pmm mc) -> concludes (Mmu.frame_alloc mc) (fun '(mc', _) => pmm_ok (Mmu.pmm mc')) True.
Proof. intros Hp. unfold Mmu.frame_alloc. eapply concludes_bind; [by apply alloc_keeps|]. by intros [st o]. Qed.

Lemma frame_free_runs mc pa : pmm_ok (Mmu.pmm mc) -> runs (frame_free mc pa) (fun '(mc', _) => pmm_ok (Mmu.pmm mc')).
Proof. intros Hp. unfold frame_free. eapply runs_bind; [by apply free_runs|]. intros [[st m] b] H. by apply runs_val. Qed.

Lemma free_all_runs fs : forall mc, pmm_ok (Mmu.pmm mc) -> runs (free_all mc fs) (fun mc' => pmm_ok (Mmu.pmm mc')).
Proof.
  induction fs as [|f fs IH]; intros mc Hp; cbn [free_all]; [by apply runs_val|].
  eapply runs_bind; [by apply frame_free_runs|]. intros [mc' b] H. by apply IH.
Qed.

(** A frame cleared word by word: the words outside it stay. *)
Lemma cleared_runs (step : Z -> Mmu.Machine -> res Mmu.Machine) mc pa n : 0 <= n ->
  (forall i s, step i s = Val (Mmu.set_mem s (Mmu.store (Mmu.mem s) (pa + 8 * i) 0))) ->
  runs (for_up 0 n step mc) (fun mc' => Mmu.pmm mc' = Mmu.pmm mc /\ Mmu.cr3 mc' = Mmu.cr3 mc /\
    forall a, ~ (pa <= a < pa + 8 * n) -> Mmu.mem mc' a = Mmu.mem mc a).
Proof.
  intros Hn Hstep. apply (for_up_inv (fun _ s => Mmu.pmm s = Mmu.pmm mc /\ Mmu.cr3 s = Mmu.cr3 mc /\
    forall a, ~ (pa <= a < pa + 8 * n) -> Mmu.mem s a = Mmu.mem mc a)); [lia | done |].
  intros i s Hi (E1 & E2 & Hm). rewrite Hstep. apply runs_val. split; [done|]. split; [done|]. intros a Ha. cbn. unfold Mmu.store.
  rewrite (proj2 (Z.eqb_neq _ _)) by lia. by apply Hm.
Qed.

Lemma zero_table_keeps mc t : runs (Mmu.zero_table mc t) (fun mc' => Mmu.pmm mc' = Mmu.pmm mc).
Proof. eapply runs_mono; [by apply (cleared_runs _ mc t Mmu.ENTRIES)|]. by intros mc' []. Qed.

Definition keeping (ens : Mmu.Machine -> Z -> Z -> res (Mmu.Machine * option Z)) : Prop :=
  forall mc p i, pmm_ok (Mmu.pmm mc) -> concludes (ens mc p i) (fun '(mc', _) => pmm_ok (Mmu.pmm mc')) True.

Lemma ensure_table_keeps : keeping Mmu.ensure_table.
Proof.
  intros mc p i Hp. unfold Mmu.ensure_table. destruct (Mmu.entry_is_valid _); [done|].
  eapply concludes_bind; [by apply frame_alloc_keeps|]. intros [mc1 [f|]] H1; [|done].
  eapply concludes_bind; [eapply runs_concludes, zero_table_keeps|]. intros mc2 E. cbn. by rewrite E.
Qed.

Lemma ensure_table_user_keeps : keeping Mmu.ensure_table_user.
Proof.
  intros mc p i Hp. unfold Mmu.ensure_table_user. destruct (Mmu.entry_is_valid _); [cbn; by destruct (_ =? _)|].
  eapply concludes_bind; [by apply frame_alloc_keeps|]. intros [mc1 [f|]] H1; [|done].
  eapply concludes_bind; [eapply runs_concludes, zero_table_keeps|]. intros mc2 E. cbn. by rewrite E.
Qed.

Lemma or_false_keeps e k : concludes e (fun '(mc, _) => pmm_ok (Mmu.pmm mc)) True ->
  (forall mc t, pmm_ok (Mmu.pmm mc) -> concludes (k mc t) (fun '(mc', _) => pmm_ok (Mmu.pmm mc')) True) ->
  concludes (Mmu.or_false e k) (fun '(mc', _) => pmm_ok (Mmu.pmm mc')) True.
Proof. intros He Hk. unfold Mmu.or_false. eapply concludes_bind; [exact He|]. intros [mc [t|]] H; [by apply Hk | done]. Qed.

Lemma map_in_root_keeps mc root va pa w : pmm_ok (Mmu.pmm mc) -> concludes (Mmu.map_in_root mc root va pa w) (fun '(mc', _) => pmm_ok (Mmu.pmm mc')) True.
Proof. intros Hp. do 3 (apply or_false_keeps; [by apply ensure_table_keeps|]; intros ? ? ?). done. Qed.

Lemma map_user_in_root_keeps mc root va pa w x : pmm_ok (Mmu.pmm mc) ->
  concludes (Mmu.map_user_in_root mc root va pa w x) (fun '(mc', _) => pmm_ok (Mmu.pmm mc')) True.
Proof. intros Hp. do 3 (apply or_false_keeps; [by apply ensure_table_user_keeps|]; intros ? ? ?). done. Qed.

Lemma zero_frame_runs mc pa : runs (zero_frame mc pa) (fun mc' => Mmu.pmm mc' = Mmu.pmm mc /\
  forall a, ~ (pa <= a < pa + Pmm.FRAME) -> Mmu.mem mc' a = Mmu.mem mc a).
Proof. eapply runs_mono; [by apply (cleared_runs _ mc pa 512)|]. by intros mc' (? & _ & ?). Qed.

Lemma take_frames_keeps n : forall mc fs, pmm_ok (Mmu.pmm mc) ->
  concludes (take_frames mc n fs) (fun '(mc', o) => pmm_ok (Mmu.pmm mc') /\ forall l, o = Some l -> zlen l = zlen fs + Z.of_nat n) True.
Proof.
  induction n as [|n IH]; intros mc fs Hp; cbn [take_frames]; [cbn; split; [done|]; intros l [= <-]; lia|].
  eapply concludes_bind; [by apply frame_alloc_keeps|]. intros [mc1 [pa|]] H1.
  - eapply concludes_bind; [eapply runs_concludes, zero_frame_runs|]. intros mc2 [E _].
    eapply concludes_mono; [apply (IH mc2 (fs ++ [pa])); by rewrite E | | done]. intros [mc' o] [? Hl]. split; [done|].
    intros l El. rewrite (Hl l El), zlen_app, zlen_cons, zlen_nil. lia.
  - eapply concludes_bind; [by eapply runs_concludes, free_all_runs|]. intros mc2 H2. by split.
Qed.

Lemma block_create_keeps mc n : pmm_ok (Mmu.pmm mc) -> 0 <= n ->
  concludes (block_create mc n) (fun '(mc', o) => pmm_ok (Mmu.pmm mc') /\ forall blk, o = Some blk -> block_ok blk) True.
Proof.
  intros Hp Hn. unfold block_create. eapply concludes_bind; [by apply (take_frames_keeps (Z.to_nat n))|]. intros [mc' o] [H1 Hl]. split; [done|].
  intros blk. destruct o as [fs|]; [|done]. intros [= <-]. specialize (Hl fs eq_refl). rewrite zlen_nil in Hl.
  constructor; cbn; [by constructor | done | lia | by intros ? ? ? ? ?%not_elem_of_nil].
Qed.

Lemma map_block_pages_keeps n : forall mc root va i fs w, pmm_ok (Mmu.pmm mc) -> is_u64 va -> 0 <= i ->
  concludes (map_pages n mc root va i fs w) (fun '(mc', ok) => pmm_ok (Mmu.pmm mc') /\
    (ok = true -> forall j, i <= j < i + Z.of_nat n -> is_u64 (va + j * 4096))) True.
Proof.
  induction n as [|n IH]; intros mc root va i fs w Hp Hva Hi; cbn [map_pages]; [cbn; split; [done|]; intros; lia|].
  unfold mul_u, add_u. case_decide; [|done]. rewrite bind_val. case_decide as Hlt; [|done]. rewrite bind_val.
  destruct (idx fs i) as [f|]; [|done]. rewrite bind_val. eapply concludes_bind; [by apply map_in_root_keeps|]. intros [mc1 [|]] H1; [|done].
  eapply concludes_mono; [apply (IH mc1 root va (i + 1)); (done || lia) | | done]. intros [mc' ok] [? Hj]. split; [done|]. intros Hok j Hjr.
  destruct (decide (j = i)) as [->|]; [unfold in_u in *; lia | apply (Hj Hok); lia].
Qed.

Lemma unmap_pages_runs n : forall mc root va i, 0 <= i -> (forall j, i <= j < i + Z.of_nat n -> is_u64 (va + j * 4096)) -> 0 <= va ->
  runs (unmap_pages n mc root va i) (fun mc' => Mmu.pmm mc' = Mmu.pmm mc).
Proof.
  induction n as [|n IH]; intros mc root va i Hi Hj Hva; cbn [unmap_pages]; [by apply runs_val|].
  pose proof (Hj i ltac:(lia)) as Hii. unfold in_u in Hii. rewrite mul_u_ok, bind_val, add_u_ok, bind_val by lia.
  eapply runs_mono; [apply IH; [lia | intros j Hjr; apply Hj; lia | done]|]. intros mc' ->. unfold Mmu.unmap_in_root.
  destruct (_ ≫= _); [|done]. cbv zeta. by destruct (_ =? _).
Qed.

Lemma unmap_members_runs n ms : forall mc, 0 <= n -> (forall root va w i, (root, va, w) ∈ ms -> 0 <= i < n -> is_u64 (va + i * 4096)) ->
  runs (unmap_members (Z.to_nat n) mc ms) (fun mc' => Mmu.pmm mc' = Mmu.pmm mc).
Proof.
  induction ms as [|[[root va] w] ms IH]; intros mc Hn Hm; cbn [unmap_members]; [by apply runs_val|].
  eapply runs_bind with (P := fun mc1 => Mmu.pmm mc1 = Mmu.pmm mc).
  { destruct (decide (n = 0)) as [->|]; [by apply runs_val|]. apply unmap_pages_runs; [done | intros j Hj; apply (Hm root va w); [by left | lia] |].
    pose proof (Hm root va w 0 ltac:(by left) ltac:(lia)) as H0. unfold in_u in H0. lia. }
  intros mc1 <-. apply IH; [done|]. intros root' va' w' i Hin. apply (Hm root' va' w'). by right.
Qed.

(** ** Over a pool in order nothing halts *)

Lemma take_frames_intact F n : forall mc l fs, pmm_ok (Mmu.pmm mc) -> Pmm.pool (Mmu.pmm mc) (Mmu.mem mc) F l ->
  runs (take_frames mc n fs) (fun _ => True).
Proof.
  induction n as [|n IH]; intros mc l fs Hok Hp; cbn [take_frames]; [by apply runs_val|].
  pose proof (frame_alloc_keeps mc Hok) as Hk. destruct (Pmm.alloc_pool F _ _ _ Hp) as [E Hp'].
  unfold Mmu.frame_alloc in *. rewrite E, bind_val in *. destruct l as [|x l]; rewrite !bind_val.
  { eapply runs_bind; [by apply free_all_runs|]. intros mc1 _. by apply runs_val. }
  eapply runs_bind; [apply zero_frame_runs|]. intros mc1 [E1 Hm]. cbn [Mmu.pmm Mmu.mem] in *. apply (IH mc1 l); [by rewrite E1|].
  rewrite E1. eapply Mmu.pool_ext; [exact Hp'|]. intros f Hf. apply Hm. intros Hin.
  pose proof (Pmm.pool_sub _ _ _ _ Hp) as Hsub. pose proof (Pmm.pool_nodup _ _ _ _ Hp) as [Hnx _]%NoDup_cons.
  destruct (proj1 (Pmm.pool_frames _ _ _ _ Hp f) (Hsub f ltac:(by right))) as (_ & Hfa & _).
  destruct (proj1 (Pmm.pool_frames _ _ _ _ Hp x) (Hsub x ltac:(by left))) as (_ & Hxa & _).
  apply Hnx. assert (x = f) as ->; [|done]. unfold Pmm.FRAME in *. Z.to_euclidean_division_equations. lia.
Qed.

Lemma block_create_intact mc n : pmm_ok (Mmu.pmm mc) -> pool_intact mc -> runs (block_create mc n) (fun _ => True).
Proof.
  intros Hok (F & l & Hp). unfold block_create. eapply runs_bind; [by apply (take_frames_intact F _ mc l)|]. intros [mc' o] _. by apply runs_val.
Qed.

(** Taking a frame leaves the space over the rest of the pool. *)
Lemma space_alloc P F mc root lv l : Mmu.space P F mc root lv l ->
  runs (Mmu.frame_alloc mc) (fun '(mc', o) => match o with None => True | Some x => exists l', l = x :: l' /\ Mmu.space P F mc' root lv l' end).
Proof.
  intros Hs. pose proof (Mmu.frame_alloc_spec P F _ _ _ _ Hs) as E. destruct l as [|x l]; [rewrite E; by apply runs_val|].
  destruct E as (p & -> & Hp). apply runs_val. exists l. split; [done|]. destruct Hs as [_ [? ? ? ?] Hf H48].
  constructor; [done | by constructor | intros f Hin; apply Hf; by right | done].
Qed.

Lemma make_entry_masked pa attrs : Mmu.make_entry (Z.land pa Mmu.ENTRY_ADDR_MASK) attrs = Mmu.make_entry pa attrs.
Proof. unfold Mmu.make_entry. by rewrite <- Z.land_assoc, Z.land_diag. Qed.

Lemma map_in_root_intact P F mc root lv l va pa w : Mmu.space P F mc root lv l -> P (Mmu.level_index va Mmu.SHIFT_512G) ->
  runs (Mmu.map_in_root mc root va pa w) (fun '(mc', ok) => ok = true -> exists lv' l', Mmu.space P F mc' root lv' l').
Proof.
  intros Hs HP. unfold Mmu.map_in_root. rewrite <- (make_entry_masked pa).
  eapply runs_mono; [apply (Mmu.map_spec P F Mmu.ensure_table mc root lv l va (Z.land pa Mmu.ENTRY_ADDR_MASK)
    (if w then Z.lor (Z.lor Mmu.PTE_P Mmu.PTE_NX) Mmu.PTE_RW else Z.lor Mmu.PTE_P Mmu.PTE_NX)); try done|].
  - apply Mmu.ensure_table_ok.
  - by rewrite <- Z.land_assoc, Z.land_diag.
  - by destruct w.
  - by destruct w.
  - intros [mc' ok] (lv' & l' & H) ->. cbn [fst snd] in H. destruct H as [[? _] _]. by exists lv', l'.
Qed.

Lemma map_pages_intact P F root va fs w n : forall mc lv l i, Mmu.space P F mc root lv l -> 0 <= i -> i + Z.of_nat n <= zlen fs ->
  (forall j, i <= j < i + Z.of_nat n -> P (Mmu.level_index (va + j * 4096) Mmu.SHIFT_512G) /\ is_u64 (va + j * 4096)) -> 0 <= va ->
  runs (map_pages n mc root va i fs w) (fun _ => True).
Proof.
  induction n as [|n IH]; intros mc lv l i Hs Hi Hl Hj Hva; cbn [map_pages]; [by apply runs_val|].
  destruct (Hj i ltac:(lia)) as [HP Hu]. unfold in_u in Hu. rewrite mul_u_ok, bind_val, add_u_ok, bind_val by lia.
  destruct (Prelude.idx_ok fs i) as [f ->]; [lia|]. rewrite bind_val. eapply runs_bind; [by apply (map_in_root_intact P F mc root lv l)|].
  intros [mc1 [|]] H1; [|by apply runs_val]. destruct (H1 eq_refl) as (lv1 & l1 & S1). apply (IH mc1 lv1 l1); [done | lia | lia | intros j Hjr; apply Hj; lia | done].
Qed.

(** ** The facades *)

Lemma concludes_runs {A} (m : res A) (P Q : A -> Prop) (H : Prop) : concludes m P H -> runs m Q -> runs m (fun a => P a /\ Q a).
Proof. intros HP (a & -> & HQ). exists a. by split. Qed.

(** What is always so, and what halts only when [R] fails. *)
Lemma concludes_unless {A} (m : res A) (P : A -> Prop) (R : Prop) : concludes m P True -> (R -> runs m (fun _ => True)) -> concludes m P (~ R).
Proof. intros HP HR. destruct m; [done|]. intros Hr. by destruct (HR Hr) as (a & ? & _). Qed.

Lemma moves_sys T k k' : sys_ok (sys k) -> sys k' = sys k -> pmm_ok (Mmu.pmm (machine k')) -> moves T k k'.
Proof. intros Hs E Hp. split; [rewrite E; by apply sys_advances_refl | done]. Qed.

Definition buffer_ready (k : Kernel) (t : Z) : Prop :=
  forall ap, agent_at (sys k) t ap -> space_intact (machine k) (space ap) AGENT_BUF_VA 1.

Lemma map_user_buffer_moves k t : kernel_ok k -> 0 <= t ->
  concludes (agent_map_user_buffer k t) (fun '(k', _) => moves [t] k k') (~ buffer_ready k t).
Proof.
  intros [Hs Hp] Ht. unfold agent_map_user_buffer. destruct (agent_of_runs (sys k) t Hs Ht) as (r & -> & Hat). rewrite bind_val.
  destruct r as [ap|]; [|by apply moves_sys]. specialize (Hat ap eq_refl). apply concludes_unless.
  - eapply concludes_bind; [by apply frame_alloc_keeps|]. intros [mc1 [pa|]] H1; [|by apply moves_sys].
    eapply concludes_bind; [by apply map_user_in_root_keeps|]. intros [mc2 [|]] H2; [by apply moves_sys|]. cbn [negb].
    eapply concludes_bind; [by eapply runs_concludes, frame_free_runs|]. intros [mc3 b] H3. by apply moves_sys.
  - intros Hready. destruct (Hready ap Hat) as [(P & F & lv & l & Hsp & HP) _]. specialize (HP 0 ltac:(lia)).
    eapply runs_bind; [eapply concludes_runs; [by apply frame_alloc_keeps | by eapply space_alloc]|]. intros [mc1 [pa|]] [H1 Hl]; [|by apply runs_val].
    destruct Hl as (l' & -> & Hsp1). destruct (Mmu.space_frame P F _ _ _ _ pa Hsp) as [Hfr _]; [by left|].
    eapply runs_bind; [eapply concludes_runs; [by apply map_user_in_root_keeps|]|].
    { apply (Mmu.map_spec P F Mmu.ensure_table_user mc1 (space ap) lv l' AGENT_BUF_VA pa); [apply Mmu.ensure_table_user_ok | done | exact HP | by apply Mmu.land_frame | done | done]. }
    intros [mc2 [|]] [H2 _]; [by apply runs_val|]. cbn [negb]. eapply runs_bind; [by apply frame_free_runs|]. intros [mc3 b] _. by apply runs_val.
Qed.

(** *** Byte payloads *)

(** What a handle with [need] resolves to: a refusal, or an end of a channel. *)
Lemma endpoint_or_not w t h need : world_ok w -> table_ok w t -> is_u64 h ->
  (exists e, live t h = inr e) \/
  (exists r, live t h = inl (Handle.slot h) /\ rights_at t (Handle.slot h) = Val r /\ Rights.contains r need = false) \/
  (exists r o x, live t h = inl (Handle.slot h) /\ rights_at t (Handle.slot h) = Val r /\ Rights.contains r need = true /\
     object_of w t (Handle.slot h) = Val (Some (o, x)) /\ chan x = None) \/
  (exists o r x c s ch, cap_of t h = Some (o, r) /\ Rights.contains r need = true /\ objects w !! o = Some x /\ chan x = Some (c, s) /\
     Ipc.side_ok s /\ channels w !! c = Some ch /\ endpoint w t h need c s).
Proof.
  intros Hw Ht Hh. pose proof (live_cap_of t h) as Hl. destruct (cap_of t h) as [[o r]|] eqn:Hc; [|left; by eexists]. right.
  destruct (object_of_cap w t h o r Ht Hh Hc) as (x & Hx & Hlive & Hrt & Hob). destruct (Rights.contains r need) eqn:Hr; [right|left; by exists r].
  destruct (chan x) as [[c s]|] eqn:Hch; [right|left; by exists r, o, x].
  destruct (wo_objects w Hw o x Hx) as [_ Hox]. destruct (oo_chan w x Hox c s Hch) as [[ch Hchan] Hs].
  exists o, r, x, c, s, ch. do 6 (split; [done|]). split; [done|]. by exists o, r, x.
Qed.

Lemma send_bytes_op mc w t h payload cap_raw root uva len : world_ok w -> table_ok w t -> is_u64 h -> is_u64 cap_raw -> 0 <= len ->
  runs (chan_send_bytes mc w t h payload cap_raw root uva len) (fun '(w', t', _) => op_effect w t w' t').
Proof.
  intros Hw Ht Hh Hu Hlen. pose proof (op_refl w t Hw Ht) as Hrefl.
  destruct (endpoint_or_not w t h Rights.WRITE Hw Ht Hh) as [(e & El)|[(r & El & Er & Hr)|[(r & o & x & El & Er & Hr & Eo & Hch)|
    (o & r & x & c & s & ch & Hc & Hr & Hx & Hch & Hs & Hchan & Hep)]]].
  - unfold chan_send_bytes. rewrite El. by apply runs_val.
  - unfold chan_send_bytes. rewrite El, Er, bind_val, Hr. by apply runs_val.
  - unfold chan_send_bytes. rewrite El, Er, bind_val, Hr. cbn [negb]. rewrite Eo, bind_val, Hch. by apply runs_val.
  - destruct (send_bytes_spec mc w t h c s ch payload cap_raw root uva len Hw Ht Hep Hchan Hu Hlen) as (buf & fault & _ & _ & H).
    destruct (byte_refusal _ _ _ _ _ _ _ _); [destruct H as [_ ->]; by apply runs_val|].
    destruct H as (_ & t' & cap & Ecar & Hsur & ->). apply runs_val. set (m := Ipc.mkMsg payload (Some buf) cap).
    apply (effect_op w t o x h); [done | done | by exists r | by apply (delivered_effect w t o x c s ch cap_raw) |].
    eapply (Sent w t _ c s ch m); [done | done | | done | done]. cbn. intros o' r' ->.
    destruct (carried_ok w t c cap_raw o' r' Ht Hu Ecar) as (Hc' & Htr & _). by exists cap_raw.
Qed.

Lemma recv_bytes_op mc w t h root uva dst_cap : world_ok w -> table_ok w t -> is_u64 h ->
  runs (chan_recv_bytes mc w t h root uva dst_cap) (fun '(mc', w', t', _) => op_effect w t w' t' /\ Mmu.pmm mc' = Mmu.pmm mc).
Proof.
  intros Hw Ht Hh. pose proof (op_refl w t Hw Ht) as Hrefl.
  destruct (endpoint_or_not w t h Rights.READ Hw Ht Hh) as [(e & El)|[(r & El & Er & Hr)|[(r & o & x & El & Er & Hr & Eo & Hch)|
    (o & r & x & c & s & ch & Hc & Hr & Hx & Hch & Hs & Hchan & Hep)]]].
  - unfold chan_recv_bytes. rewrite El. by apply runs_val.
  - unfold chan_recv_bytes. rewrite El, Er, bind_val, Hr. by apply runs_val.
  - unfold chan_recv_bytes. rewrite El, Er, bind_val, Hr. cbn [negb]. rewrite Eo, bind_val, Hch. by apply runs_val.
  - pose proof (recv_bytes_spec mc w t h c s ch root uva dst_cap Hw Ht Hep Hchan) as H.
    destruct (Ipc.queue_of ch (1 - s)) as [|m tl] eqn:Hq; [rewrite H; by apply runs_val|].
    destruct (dst_cap <? Ipc.byte_len m); [rewrite H; by apply runs_val|]. destruct (drain mc root uva m) as [mc' ok] eqn:Ed.
    assert (Mmu.pmm mc' = Mmu.pmm mc) as Epm.
    { unfold drain in Ed. destruct (Ipc.msg_bytes m) as [[|b bs]|]; try by injection Ed as <- _.
      unfold Uaccess.copy_to_user in Ed. destruct (Uaccess.copy_out _ _ _ _). by injection Ed as <- _. }
    destruct ok; [|rewrite H; by apply runs_val]. cbv zeta in H.
    assert (forall t', took t (Ipc.msg_cap m) t' -> op_effect w t (put_channel w c (Ipc.with_queue ch (1 - s) tl)) t') as Hop.
    { intros t' Htk. apply (effect_op w t o x h); [done | done | by exists r | by eapply popped_effect |].
      eapply Taken; [exact Hchan | by apply Ipc.side_flip | exact Hq | done | done]. }
    destruct (Ipc.msg_cap m) as [[o' r']|]; [|rewrite H; apply runs_val; split; [apply Hop; by left | done]].
    destruct H as [[_ ->]|(_ & hn & t' & Hin & ->)]; apply runs_val; (split; [apply Hop|done]); [by left | right; by exists o', r', hn].
Qed.

Lemma send_bytes_moves k t ep payload cap_h uva len : kernel_ok k -> 0 <= t -> is_u64 ep -> is_u64 cap_h -> 0 <= len ->
  runs (agent_chan_send_bytes k t ep payload cap_h uva len) (fun '(k', _) => moves [t] k k').
Proof.
  intros [Hs Hp] Ht Hep Hcap Hlen. unfold agent_chan_send_bytes. eapply runs_bind; [by apply agent_of_runs|].
  intros [ap|] Hat; [|apply runs_val; by apply moves_sys]. specialize (Hat ap eq_refl). destruct (so_agents _ Hs t ap Hat) as (Htb & ? & ? & ?).
  eapply runs_bind; [apply send_bytes_op; [apply (so_world _ Hs) | done..]|]. intros [[w tbl] st] Hop.
  rewrite store_eq, bind_val by done. apply runs_val. split; [|done]. by apply (stored_advances (sys k) t ap).
Qed.

Lemma recv_bytes_moves k t ep uva dst_cap : kernel_ok k -> 0 <= t -> is_u64 ep ->
  runs (agent_chan_recv_bytes k t ep uva dst_cap) (fun '(k', _) => moves [t] k k').
Proof.
  intros [Hs Hp] Ht Hep. unfold agent_chan_recv_bytes. eapply runs_bind; [by apply agent_of_runs|].
  intros [ap|] Hat; [|apply runs_val; by apply moves_sys]. specialize (Hat ap eq_refl). destruct (so_agents _ Hs t ap Hat) as (Htb & ? & ? & ?).
  eapply runs_bind; [apply recv_bytes_op; [apply (so_world _ Hs) | done..]|]. intros [[[mc w] tbl] r] [Hop Epm].
  rewrite store_eq, bind_val by done. apply runs_val. split; [by apply (stored_advances (sys k) t ap) | cbn; by rewrite Epm].
Qed.

(** *** Shared blocks *)

Definition with_block (w : World) (blk : Blocks.Block) : World := put_block (snd (fresh w)) (next_id w) blk.

Lemma with_block_advances s blk : sys_ok s -> block_ok blk -> advances [] s (set_world s (with_block (world s) blk)).
Proof.
  intros Hs Hblk. pose proof (so_world s Hs) as Hw. assert (grows (world s) (with_block (world s) blk)) as Hg.
  { split_and!; cbn; try done. intros b [y Hy]. rewrite lookup_insert_is_Some'. right. by exists y. }
  apply world_quiet_advances; [done | | exact Hg | apply (so_sched s Hs) | done | done]. constructor; cbn; [| | |apply (wo_sched _ Hw)].
  - intros o x Hx. destruct (wo_objects _ Hw o x Hx). split; [lia | by eapply object_ok_grows].
  - intros c ch Hc. destruct (wo_channels _ Hw c ch Hc). split; [lia | by eapply chan_good_grows].
  - intros b y. destruct (decide (b = next_id (world s))) as [->|Hne].
    + rewrite lookup_insert_eq. intros [= <-]. split; [lia | done].
    + rewrite lookup_insert_ne by done. intros Hy. destruct (wo_blocks _ Hw b y Hy). split; [lia | done].
Qed.

Lemma mint_into_blocks s t r x s' h b : mint_into s t (fun w tbl => mint_object w tbl r x) = Val (s', h) -> is_Some (blocks (world s) !! b) ->
  is_Some (blocks (world s') !! b).
Proof.
  intros E Hc. unfold mint_into in E. apply bind_val_inv in E as ([ap|] & _ & E); [|by injection E as <- _].
  apply bind_val_inv in E as ([[w tbl] h'] & E1 & E). apply bind_val_inv in E as (s1 & E2 & E). injection E as <- _.
  apply bind_val_inv in E2 as (l & _ & E2). injection E2 as <-. unfold mint_object in E1. cbn [fresh] in E1.
  apply bind_val_inv in E1 as ([[hn|] t1] & _ & E1); by injection E1 as <- _ _.
Qed.

Lemma block_create_moves k a b n : kernel_ok k -> 0 <= a -> 0 <= b -> 0 <= n ->
  concludes (agent_block_create k a b n) (fun '(k', _) => moves [a; b] k k') (~ pool_intact (machine k)).
Proof.
  intros [Hs Hp] Ha Hb Hn. unfold agent_block_create. destruct (_ || _); [by apply moves_sys|].
  eapply concludes_bind; [apply concludes_unless; [by apply block_create_keeps | by apply block_create_intact]|].
  intros [mc [blk|]] [Hmc Hblk]; [|by apply moves_sys]. cbn [fresh]. apply runs_concludes. specialize (Hblk blk eq_refl).
  pose proof (with_block_advances (sys k) blk Hs Hblk) as H0. fold (with_block (world (sys k)) blk). set (s0 := set_world (sys k) _) in *.
  set (bid := next_id (world (sys k))). set (ob := mkObj ObjKind.Block None 0 None (Some bid) None).
  assert (is_Some (blocks (world s0) !! bid)) as Hbid by (cbn; rewrite lookup_insert_eq; by eexists).
  assert (forall w, is_Some (blocks w !! bid) -> object_ok w ob) as Hob by (intros w Hw; split; [done | done | by intros b' [= <-]]).
  assert (forall T s', advances T s0 s' -> (forall x, x ∈ T -> x ∈ [a; b]) -> moves [a; b] k (mkKernel s' mc)) as Hup.
  { intros T s' Hadv HT. split; [|done]. eapply sys_advances_trans; [by apply (sys_advances_weaken [] [a; b]); [intros x Hx%not_elem_of_nil|exact H0] | by eapply sys_advances_weaken]. }
  eapply runs_bind with (P := fun '(s1, _) => advances [a] s0 s1 /\ is_Some (blocks (world s1) !! bid)).
  { eapply runs_with; [apply (mint_into_advances s0 a full_rights ob); [apply H0 | done | by apply Hob | by vm_compute]|].
    intros [s1 h] E Hadv. split; [done|]. by eapply mint_into_blocks. }
  intros [s1 [ha|]] [H1 Hb1]; [|apply runs_val; eapply Hup; [exact H1|]; intros x ->%list_elem_of_singleton; by left].
  eapply runs_bind; [apply (mint_into_advances s1 b member_rights ob); [apply H1 | done | by apply Hob | by vm_compute]|].
  intros [s2 hb] H2. apply runs_val. apply (Hup [a; b]); [|done].
  eapply sys_advances_trans; (eapply sys_advances_weaken; [|eassumption]); intros x ->%list_elem_of_singleton; [by left | right; by left].
Qed.

(** What resolving a block's handle gives. *)
Lemma block_of_cases w t h : world_ok w -> table_ok w t -> is_u64 h ->
  (exists e, block_of w t h = Val (inr e)) \/
  (exists o r b blk, cap_of t h = Some (o, r) /\ blocks w !! b = Some blk /\ block_ok blk /\ Blocks.dead blk = false /\
     block_of w t h = Val (inl (r, b, blk))).
Proof.
  intros Hw Ht Hh. unfold block_of. pose proof (live_cap_of t h) as Hl. destruct (cap_of t h) as [[o r]|] eqn:Hc; [|rewrite Hl; left; by eexists].
  destruct (object_of_cap w t h o r Ht Hh Hc) as (x & Hx & -> & Hrt & ->). rewrite bind_val.
  destruct (block x) as [b|] eqn:Hb; [|left; by eexists]. destruct (wo_objects w Hw o x Hx) as [_ Hox].
  destruct (oo_block w x Hox b Hb) as [blk Hblk]. unfold deref, Blocks.is_dead. rewrite Hblk, bind_val.
  destruct (Blocks.dead blk) eqn:Hd; [left; by eexists|]. right. exists o, r, b, blk. rewrite Hrt. by destruct (wo_blocks w Hw b blk Hblk).
Qed.

Lemma put_block_advances s b blk blk' : sys_ok s -> blocks (world s) !! b = Some blk -> block_ok blk' ->
  advances [] s (set_world s (put_block (world s) b blk')).
Proof.
  intros Hs Hb Hok. apply world_quiet_advances; [done | by eapply put_block_ok; [apply (so_world s Hs)|..] | apply grows_put_block | apply (so_sched s Hs) | done | done].
Qed.

Definition block_map_ready (k : Kernel) (t h va : Z) : Prop :=
  forall ap r b blk, agent_at (sys k) t ap -> block_of (world (sys k)) (table ap) h = Val (inl (r, b, blk)) ->
    space_intact (machine k) (space ap) va (Blocks.n_pages blk).

Lemma block_map_moves k t h w va : kernel_ok k -> 0 <= t -> is_u64 h -> is_u64 va ->
  concludes (agent_block_map k t h w va) (fun '(k', _) => moves [t] k k') (~ block_map_ready k t h va).
Proof.
  intros [Hs Hp] Ht Hh Hva. unfold agent_block_map. destruct (agent_of_runs (sys k) t Hs Ht) as (r & -> & Hat). rewrite bind_val.
  destruct r as [ap|]; [|by apply moves_sys]. specialize (Hat ap eq_refl). destruct (so_agents _ Hs t ap Hat) as (Htb & _).
  destruct (block_of_cases (world (sys k)) (table ap) h (so_world _ Hs) Htb Hh) as [[e ->]|(o & r & b & blk & Hc & Hb & Hok & Hd & Eb)];
    [rewrite bind_val; by apply moves_sys|].
  rewrite Eb, bind_val. destruct (negb _); [by apply moves_sys|]. cbv zeta. pose proof Hok as [Hinv Hsq Hfr Hmem]. pose proof (zlen_nonneg (Blocks.frames blk)).
  set (wr := w && _). eapply concludes_bind with (P := fun '(mc, ok) => pmm_ok (Mmu.pmm mc) /\ (ok = true -> forall j, 0 <= j < Blocks.n_pages blk -> is_u64 (va + j * 4096))).
  { apply concludes_unless.
    - eapply concludes_mono; [apply (map_block_pages_keeps (Z.to_nat (Blocks.n_pages blk))); done| | done].
      intros [mc ok] [? Hj]. split; [done|]. intros Hok' j Hjr. apply Hj; [done | lia].
    - intros Hready. destruct (Hready ap r b blk Hat Eb) as [(P & F & lv & l & Hsp & HP) Hu].
      eapply (map_pages_intact P F); [exact Hsp | done | lia | | unfold in_u in Hva; lia]. intros j Hj. split; [apply HP | apply Hu]; lia. }
  intros [mc [|]] [Hmc Hj]; [|by apply moves_sys]. specialize (Hj eq_refl). cbn [negb]. split; [|done]. cbn [sys].
  apply (sys_advances_weaken []); [by intros a ?%not_elem_of_nil|]. eapply put_block_advances; [done | exact Hb |].
  unfold Blocks.record_member. rewrite Hd. constructor; cbn.
  - by destruct Hinv.
  - done.
  - done.
  - intros root va' w' i [Hin|Hin]%elem_of_app Hi; [by eapply Hmem|]. apply list_elem_of_singleton in Hin. injection Hin as -> -> ->. by apply Hj.
Qed.

Lemma killed_op w t h o r b blk t' : world_ok w -> table_ok w t -> blocks w !! b = Some blk -> block_ok blk -> gives_up t h t' ->
  cap_of t h = Some (o, r) -> op_effect w t (put_block w b (Blocks.kill blk)) t'.
Proof.
  intros Hw Ht Hb [[Hl Hsq] H0 Hfr _] Hg Hc. constructor; try done.
  - eapply put_block_ok; [done | exact Hb |]. constructor; [by constructor | done | done | by intros ? ? ? ? ?%not_elem_of_nil].
  - eapply table_ok_grows; [apply grows_put_block | by eapply gives_up_table_ok].
  - apply grows_put_block.
  - intros o' x Hx. by left.
  - intros o' h' r' _ Hh' Hc'. destruct Hg as (_ & _ & Hmap). rewrite Hmap in Hc' by done. case_decide; [done|].
    exists r'. split; [left; by exists h' | apply subset_refl].
  - intros o' r' Hr. by left.
Qed.

Lemma block_unmap_moves k t h : kernel_ok k -> 0 <= t -> is_u64 h -> runs (agent_block_unmap k t h) (fun '(k', _) => moves [t] k k').
Proof.
  intros [Hs Hp] Ht Hh. unfold agent_block_unmap. eapply runs_bind; [by apply agent_of_runs|].
  intros [ap|] Hat; [|apply runs_val; by apply moves_sys]. specialize (Hat ap eq_refl). destruct (so_agents _ Hs t ap Hat) as (Htb & ? & ? & ?).
  destruct (block_of_cases (world (sys k)) (table ap) h (so_world _ Hs) Htb Hh) as [[e ->]|(o & r & b & blk & Hc & Hb & Hok & _ & ->)];
    rewrite bind_val; [apply runs_val; by apply moves_sys|].
  destruct (negb _); [apply runs_val; by apply moves_sys|]. cbv zeta. pose proof (bk_frames _ Hok). pose proof (zlen_nonneg (Blocks.frames blk)).
  eapply runs_bind; [apply unmap_members_runs; [lia | apply (bk_members _ Hok)]|]. intros mc1 E1.
  eapply runs_bind; [apply free_all_runs; by rewrite E1|]. intros mc2 Hmc2.
  destruct (revoke_gives_up (table ap) h o r (to_wf _ _ Htb) Hh Hc) as (t' & -> & Hg). rewrite bind_val, store_eq, bind_val by done.
  apply runs_val. split; [|done]. apply (stored_advances (sys k) t ap); try done. by eapply killed_op; [apply (so_world _ Hs)|..].
Qed.
