(* ===== verification/AgentCalls.v ===== *)
(** * Every call of the facade layer, and what no history of them can do.

    [step] has a case for each facade of [crates/tb-hal/src/lib.rs] that changes the kernel's
    state, whoever makes the call and with whatever arguments, for a parked receive that
    resumes, for the timer's tick and for the profile switch.  The facades that only read
    ([agent_rights_of], [agent_permitted_ok], [agent_denied_ok], [agent_root_pa],
    [agent_block_member_writable], [agent_block_frame_pa], [agent_block_va_maps] and
    [agent_model_invoke_bytes]) return no state, so they are not steps; nor is
    [agent_traps_init], which installs the architecture's hooks. *)
From Stdlib Require Import ZArith Lia.
From stdpp Require Import base numbers option tactics sets list gmap.
From S2P Require Import Prelude Caps Abi Syscall SyscallSpec Agents AgentsSpec Blocking UserMem Harness UserMemSpec.
From S2P Require Pmm Mmu Blocks Sched.
Open Scope Z_scope.

(** ** Calls *)

(** [saved] is the stack pointer a switch away from the running task saves; [root], [top] and
    [launch] are what the architecture made for a new agent, and [mc] the machine after it. *)
Inductive agent_call :=
  | OnSystem (f : facade)
  | AgentSpawn (m : list CapGrant) (root top : Z) (launch : Z -> Z -> Z) (mc : Mmu.Machine)
  | RecvBlocking (t ep saved : Z)
  | RecvTurn (t ep c side saved : Z)
  | EvolveRequest (t skill_id : Z)
  | SendBytes (t ep payload cap_h src_uva len : Z)
  | RecvBytes (t ep dst_uva dst_cap : Z)
  | MapUserBuffer (t : Z)
  | BlockCreate (a b n_pages : Z)
  | BlockMap (t h : Z) (want_writable : bool) (base_va : Z)
  | BlockUnmap (t h : Z)
  | SetCognitiveDeny (v : bool)
  | Tick (saved : Z).

(** A call on the system alone: the machine stays. *)
Definition on_sys {A} (k : Kernel) (m : res (System * A)) : res Kernel := '(s, _) ← m; Val (mkKernel s (machine k)).
Definition on_kernel {A} (m : res (Kernel * A)) : res Kernel := '(k, _) ← m; Val k.

Definition step (k : Kernel) (c : agent_call) : res Kernel :=
  match c with
  | OnSystem f => s ← exec (sys k) f; Val (mkKernel s (machine k))
  | AgentSpawn m root top launch mc => '(s, _) ← agent_spawn (sys k) m root top launch; Val (mkKernel s mc)
  | RecvBlocking t ep saved => on_sys k (agent_chan_recv_blocking (sys k) t ep saved)
  | RecvTurn t ep c side saved => on_sys k (wait_turn (sys k) t ep c side saved)
  | EvolveRequest t id => on_sys k (agent_evolve_request (sys k) t id)
  | SendBytes t ep payload cap_h src_uva len => on_kernel (agent_chan_send_bytes k t ep payload cap_h src_uva len)
  | RecvBytes t ep dst_uva dst_cap => on_kernel (agent_chan_recv_bytes k t ep dst_uva dst_cap)
  | MapUserBuffer t => on_kernel (agent_map_user_buffer k t)
  | BlockCreate a b n_pages => on_kernel (agent_block_create k a b n_pages)
  | BlockMap t h want_writable base_va => on_kernel (agent_block_map k t h want_writable base_va)
  | BlockUnmap t h => on_kernel (agent_block_unmap k t h)
  | SetCognitiveDeny v => Val (mkKernel (set_cognitive_deny (sys k) v) (machine k))
  | Tick saved =>
      sch ← Sched.schedule saved (sched (world (sys k)));
      Val (mkKernel (set_world (sys k) (set_sched (world (sys k)) sch)) (machine k))
  end.

(** The tasks a call acts for. *)
Definition acting (k : Kernel) (c : agent_call) : list Z :=
  match c with
  | OnSystem f => actors (sys k) f
  | AgentSpawn _ _ _ _ _ | SetCognitiveDeny _ | Tick _ => []
  | RecvBlocking t _ _ | RecvTurn t _ _ _ _ | EvolveRequest t _ | SendBytes t _ _ _ _ _ | RecvBytes t _ _ _
  | MapUserBuffer t | BlockMap t _ _ _ | BlockUnmap t _ => [t]
  | BlockCreate a b _ => [a; b]
  end.

(** The arguments have their widths and stack pointers are not null; a call that may touch an
    organ or write a record is made short of the 64-bit counters' ends; a wait resumes on the
    end it began on. *)
Definition call_ok (k : Kernel) (c : agent_call) : Prop :=
  match c with
  | OnSystem f => room (world (sys k)) /\ facade_ok f
  | AgentSpawn m _ _ launch mc => Forall (fun g => is_u32 (grant_rights g)) m /\ (forall mh bs, launch mh bs <> 0) /\ pmm_ok (Mmu.pmm mc)
  | RecvBlocking t ep saved => Forall is_u64 [t; ep] /\ saved <> 0
  | RecvTurn t ep c side saved => 0 <= t < MAX_TASKS /\ is_u64 ep /\ saved <> 0 /\ waits_on (sys k) t ep c side
  | EvolveRequest t _ => room (world (sys k)) /\ is_u64 t
  | SendBytes t ep payload cap_h src_uva len => Forall is_u64 [t; ep; payload; cap_h; src_uva; len]
  | RecvBytes t ep dst_uva dst_cap => Forall is_u64 [t; ep; dst_uva; dst_cap]
  | MapUserBuffer t => is_u64 t
  | BlockCreate a b n_pages => Forall is_u64 [a; b; n_pages]
  | BlockMap t h _ base_va => Forall is_u64 [t; h; base_va]
  | BlockUnmap t h => Forall is_u64 [t; h]
  | SetCognitiveDeny _ => True
  | Tick saved => saved <> 0
  end.

(** When a call may halt the machine instead of returning. *)
Definition may_halt (k : Kernel) (c : agent_call) : Prop :=
  match c with
  | AgentSpawn m _ _ _ _ => TABLE_CAPACITY < 3 + zlen m \/ MAX_TASKS <= Sched.NEXT_TASK_SLOT (sched (world (sys k)))
  | RecvBlocking _ _ _ | RecvTurn _ _ _ _ _ => nobody_else (sys k)
  | MapUserBuffer t => ~ buffer_ready k t
  | BlockCreate _ _ _ => ~ pool_intact (machine k)
  | BlockMap t h _ base_va => ~ block_map_ready k t h base_va
  | _ => False
  end.

(** Kernels reached by such calls, with the tasks each call acted for. *)
Inductive reaches : Kernel -> list (list Z) -> Kernel -> Prop :=
  | reaches_nil k : reaches k [] k
  | reaches_step k c k1 log k2 : call_ok k c -> step k c = Val k1 -> reaches k1 log k2 -> reaches k (acting k c :: log) k2.

(** ** Lemmas *)

Lemma on_sys_concludes {A} T k (m : res (System * A)) (H : Prop) : kernel_ok k -> concludes m (fun '(s, _) => advances T (sys k) s) H ->
  concludes (on_sys k m) (moves T k) H.
Proof. intros [_ Hp] Hm. unfold on_sys. eapply concludes_bind; [exact Hm|]. by intros [s a]. Qed.

Lemma on_kernel_concludes {A} T k (m : res (Kernel * A)) (H : Prop) : concludes m (fun '(k', _) => moves T k k') H -> concludes (on_kernel m) (moves T k) H.
Proof. intros Hm. unfold on_kernel. eapply concludes_bind; [exact Hm|]. by intros [k' a]. Qed.

Lemma deny_advances T s v : sys_ok s -> advances T s (set_cognitive_deny s v).
Proof. intros []. split; [by split|]. intros a o _ []. by split; [split|]. Qed.

Lemma step_concludes k c : kernel_ok k -> call_ok k c -> concludes (step k c) (moves (acting k c) k) (may_halt k c).
Proof.
  intros Hk Hc. pose proof Hk as [Hs Hp]. assert (forall t, is_u64 t -> 0 <= t) as Hpos by (unfold in_u; lia).
  destruct c; cbn [call_ok step acting may_halt] in *.
  - destruct Hc as [Hr Hf]. eapply concludes_bind; [eapply runs_concludes, exec_advances; done|]. intros s Hadv. by split.
  - destruct Hc as (? & ? & ?). eapply concludes_bind; [by apply spawn_concludes|]. intros [s t] [? _]. by split.
  - destruct Hc as [Hu ?]. split_u64 Hu. apply on_sys_concludes; [done|]. by apply recv_blocking_concludes; [|apply Hpos|..].
  - destruct Hc as (? & ? & ? & ?). apply on_sys_concludes; [done|]. by apply wait_turn_concludes.
  - destruct Hc. apply on_sys_concludes; [done|]. eapply runs_concludes, evolve_advances; auto.
  - split_u64 Hc. apply on_kernel_concludes. eapply runs_concludes, send_bytes_moves; auto.
  - split_u64 Hc. apply on_kernel_concludes. eapply runs_concludes, recv_bytes_moves; auto.
  - apply on_kernel_concludes, map_user_buffer_moves; auto.
  - split_u64 Hc. apply on_kernel_concludes, block_create_moves; auto.
  - split_u64 Hc. apply on_kernel_concludes, block_map_moves; auto.
  - split_u64 Hc. apply on_kernel_concludes. eapply runs_concludes, block_unmap_moves; auto.
  - split; [by apply deny_advances | done].
  - eapply concludes_bind; [by eapply runs_concludes, (Sched.schedule_ok saved); [apply (so_sched _ Hs)|]|]. intros sch [Hsch _].
    split; [by apply sched_advances | done].
Qed.

Lemma reaches_private k log k' a o : reaches k log k' -> kernel_ok k -> 0 <= a -> private (sys k) a o ->
  kernel_ok k' /\ private (sys k') a o /\ (Forall (fun T => a ∉ T) log -> objects (world (sys k')) !! o = objects (world (sys k)) !! o).
Proof.
  induction 1 as [k|k c k1 log k2 Hc E _ IH]; intros Hk Ha Hp; [by split_and!|].
  pose proof (step_concludes k c Hk Hc) as Hstep. rewrite E in Hstep. destruct Hstep as [[Hs1 P] Hp1].
  destruct (P a o Ha Hp) as [Hpr1 Eo]. destruct (IH ltac:(by split) Ha Hpr1) as (? & ? & Eo2).
  split; [done|]. split; [done|]. intros [Hn Hlog]%Forall_cons_1. by rewrite Eo2, Eo.
Qed.

(** ** Properties *)


(** C3: an agent is born with memory of its own.  On a well-formed system with a task slot
    left and a manifest that fits the table, spawning an agent succeeds and yields a home that
    only its table names.  From then on, through any history of the calls of the facade layer
    by and for any agents — dispatches, sends, plain and blocking receives and the turns
    in which they resume on the end they parked on, byte transfers, block operations, user buffers, skill proposals and evolution
    requests, births of further agents — and of ticks and profile switches, for as long as the
    64-bit counters are short of their ends: no other table names that home, no message
    carries it, its agent never gains a handle on it that may be transferred, and its contents
    change only by calls made for that agent. *)
Theorem born_memory_stays_private s m root top launch : sys_ok s -> spawnable s m launch ->
  runs (agent_spawn s m root top launch) (fun '(s1, t) => sys_ok s1 /\
    exists ap o, agent_at s1 t ap /\ cap_of (table ap) (memory_home ap) = Some (o, mh_rights) /\
      forall mc log k2, pmm_ok (Mmu.pmm mc) -> reaches (mkKernel s1 mc) log k2 -> kernel_ok k2 /\ private (sys k2) t o /\
        (Forall (fun T => t ∉ T) log -> objects (world (sys k2)) !! o = objects (world s1) !! o)).
Proof.
  intros Hs (Hn & Hm & Hslot & Hl). pose proof (spawn_concludes s m root top launch Hs Hm Hl) as H.
  destruct (agent_spawn s m root top launch) as [[s1 t]|]; [|exfalso; destruct H; lia].
  destruct H as ([Hs1 _] & Ht & ap & o & Hat & Hc & Hpr). apply runs_val.
  split; [done|]. exists ap, o. split; [done|]. split; [done|]. intros mc log k2 Hmc Hr. by apply (reaches_private (mkKernel s1 mc)).
Qed.

(** ** Witnesses *)

(** A machine whose frames are all free. *)
Lemma ex_pmm_ok : pmm_ok (Mmu.pmm Mmu.ex_machine).
Proof. destruct (Pmm.pool_len _ _ _ _ Pmm.demo_pool_ok). constructor; [done | done | by vm_compute]. Qed.


Lemma born_memory_stays_private_witness : exists s s1 t k2, sys_ok s /\
  agent_spawn s [mkGrant ObjKind.Generic Rights.READ] 8192 65536 (fun _ _ => 4096) = Val (s1, t) /\
  step (mkKernel s1 Mmu.ex_machine) (Tick 8) = Val k2 /\ exists o, private (sys k2) t o.
Proof.
  destruct booted as (s & Hs & _ & Hsp).
  destruct (born_memory_stays_private s [mkGrant ObjKind.Generic Rights.READ] 8192 65536 (fun _ _ => 4096) Hs Hsp) as ([s1 t] & E & Hs1 & ap & o & _ & _ & H).
  destruct (Sched.schedule_ok 8 _ (so_sched s1 Hs1)) as (sch & Esch & _); [discriminate|].
  exists s, s1, t. eexists. split; [exact Hs|]. split; [exact E|].
  assert (step (mkKernel s1 Mmu.ex_machine) (Tick 8) = Val (mkKernel (set_world s1 (set_sched (world s1) sch)) Mmu.ex_machine)) as Estep.
  { cbn [step sys machine]. rewrite Esch. reflexivity. }
  split; [exact Estep|]. exists o. eapply H; [exact ex_pmm_ok|]. eapply (reaches_step _ (Tick 8)); [discriminate | exact Estep | apply reaches_nil].
Defined.
