(* ===== verification/Inferwire.v ===== *)
(** * Inference transport frames: [crates/tb-encode/src/inferwire.rs], the M30 half.

    The frame codec, the keyed echo, and the accumulator that finds frames in a byte stream:
    a fixed buffer that drops bytes from its front until what is left could begin a frame.
    The chunked bodies that ride in the frames are [InferChunks]. *)
From Stdlib Require Import ZArith Lia.
From stdpp Require Import base numbers option tactics sets list.
From S2P Require Import Prelude Khash.
Open Scope Z_scope.

Definition INFER_MAGIC : Z := 0x5958.
Definition INFER_VER : Z := 1.
Definition INFER_PAYLOAD_CAP : Z := 1024.
Definition INFER_TAG_LEN : Z := 16.
Definition INFER_CHALLENGE_LEN : Z := 16.
Definition INFER_NONCE_LEN : Z := 16.
Definition INFER_KEY_LEN : Z := KHASH_KEY_LEN.
(** [b"YUVA-M30-ECHO-V1"], from the brand crate. *)
Definition ECHO_DOMAIN : list Z := [89; 85; 86; 65; 45; 77; 51; 48; 45; 69; 67; 72; 79; 45; 86; 49].

Definition ECHO_REQ : Z := 1.
Definition ECHO_RESP : Z := 2.
Definition ERR : Z := 3.
Definition INFER_REQ : Z := 4.
Definition INFER_RESP : Z := 5.
Definition INFER_PENDING : Z := 6.

Record InferFrame := mkFrame {
  kind : Z;
  req_id : Z;
  challenge : list Z;
  nonce : list Z;
  peer_id : Z;
  tag : list Z;
  payload : list Z;
}.

Definition INFER_HEADER_LEN : Z := 2 + 1 + 1 + 1 + 8 + INFER_CHALLENGE_LEN + INFER_NONCE_LEN + 1 + INFER_TAG_LEN + 4.
Definition OFF_MAGIC : Z := 0.
Definition OFF_VER : Z := 2.
Definition OFF_KIND : Z := 3.
Definition OFF_FLAGS : Z := 4.
Definition OFF_REQ_ID : Z := 5.
Definition OFF_CHALLENGE : Z := 13.
Definition OFF_NONCE : Z := 29.
Definition OFF_PEER : Z := 45.
Definition OFF_TAG : Z := 46.
Definition OFF_PAYLOAD_LEN : Z := 62.
Definition OFF_PAYLOAD : Z := 66.

Definition canon_len (payload_len : Z) : Z := saturating_add usize_bits INFER_HEADER_LEN payload_len.
Definition wire_len (frame : InferFrame) : Z := canon_len (zlen (payload frame)).
Definition frame_is_encodable (payload_len : Z) : bool := payload_len <=? INFER_PAYLOAD_CAP.
Definition kind_known (k : Z) : bool :=
  (k =? ECHO_REQ) || (k =? ECHO_RESP) || (k =? ERR) || (k =? INFER_REQ) || (k =? INFER_RESP) || (k =? INFER_PENDING).

Definition write_u16 (out : list Z) (off v : Z) : res (list Z) :=
  let b := to_le 2 v in
  b0 ← idx b 0; out ← upd out off b0;
  b1 ← idx b 1; upd out (off + 1) b1.
Definition write_u32 (out : list Z) (off v : Z) : res (list Z) := copy_loop 4 (to_le 4 v) off out.
Definition write_u64 (out : list Z) (off v : Z) : res (list Z) := copy_loop 8 (to_le 8 v) off out.
Definition read_u16 (buf : list Z) (off : Z) : res Z :=
  b ← gather buf [off; off + 1]; Val (of_le b).
Definition read_u32 (buf : list Z) (off : Z) : res Z :=
  b ← gather buf [off; off + 1; off + 2; off + 3]; Val (of_le b).
Definition read_u64 (buf : list Z) (off : Z) : res Z :=
  b ← gather buf [off; off + 1; off + 2; off + 3; off + 4; off + 5; off + 6; off + 7];
  Val (of_le b).

Definition canon (frame : InferFrame) (out : list Z) : res (list Z * Z) :=
  if negb (frame_is_encodable (zlen (payload frame))) || negb (kind_known (kind frame)) then Val (out, 0) else
  let plen := zlen (payload frame) in
  let total := canon_len plen in
  if zlen out <? total then Val (out, 0) else
  out ← write_u16 out OFF_MAGIC INFER_MAGIC;
  out ← upd out OFF_VER INFER_VER;
  out ← upd out OFF_KIND (kind frame);
  out ← upd out OFF_FLAGS 0;
  out ← write_u64 out OFF_REQ_ID (req_id frame);
  out ← copy_loop INFER_CHALLENGE_LEN (challenge frame) OFF_CHALLENGE out;
  out ← copy_loop INFER_NONCE_LEN (nonce frame) OFF_NONCE out;
  out ← upd out OFF_PEER (peer_id frame);
  out ← copy_loop INFER_TAG_LEN (tag frame) OFF_TAG out;
  out ← write_u32 out OFF_PAYLOAD_LEN (wrap 32 plen);
  out ← copy_loop plen (payload frame) OFF_PAYLOAD out;
  Val (out, total).

Definition decode (buf : list Z) : res (option InferFrame) :=
  if zlen buf <? INFER_HEADER_LEN then Val None else
  magic ← read_u16 buf OFF_MAGIC;
  if negb (magic =? INFER_MAGIC) then Val None else
  ver ← idx buf OFF_VER;
  if negb (ver =? INFER_VER) then Val None else
  flags ← idx buf OFF_FLAGS;
  if negb (flags =? 0) then Val None else
  kind ← idx buf OFF_KIND;
  if negb (kind_known kind) then Val None else
  plen ← read_u32 buf OFF_PAYLOAD_LEN;
  if negb (frame_is_encodable plen) then Val None else
  end_ ← add_u usize_bits INFER_HEADER_LEN plen;
  if zlen buf <? end_ then Val None else
  req_id ← read_u64 buf OFF_REQ_ID;
  challenge ← copy_in INFER_CHALLENGE_LEN buf OFF_CHALLENGE (zrepeat INFER_CHALLENGE_LEN 0);
  nonce ← copy_in INFER_NONCE_LEN buf OFF_NONCE (zrepeat INFER_NONCE_LEN 0);
  tag ← copy_in INFER_TAG_LEN buf OFF_TAG (zrepeat INFER_TAG_LEN 0);
  peer_id ← idx buf OFF_PEER;
  payload ← slice buf OFF_PAYLOAD end_;
  Val (Some (mkFrame kind req_id challenge nonce peer_id tag payload)).

Definition resp_binds_req (resp : InferFrame) (req_id_ : Z) : bool := (kind resp =? ECHO_RESP) && (req_id resp =? req_id_).

(** ** The keyed echo *)

Definition ECHO_MSG_CAP : Z := zlen ECHO_DOMAIN + 1 + INFER_NONCE_LEN + INFER_CHALLENGE_LEN + INFER_PAYLOAD_CAP.

Definition echo_tag (key : list Z) (peer_id : Z) (nonce challenge body : list Z) : res (list Z) :=
  let blen := if INFER_PAYLOAD_CAP <? zlen body then INFER_PAYLOAD_CAP else zlen body in
  let msg := zrepeat ECHO_MSG_CAP 0 in
  let o := 0 in
  msg ← copy_loop (zlen ECHO_DOMAIN) ECHO_DOMAIN o msg; let o := o + zlen ECHO_DOMAIN in
  msg ← upd msg o peer_id; let o := o + 1 in
  msg ← copy_loop INFER_NONCE_LEN nonce o msg; let o := o + INFER_NONCE_LEN in
  msg ← copy_loop INFER_CHALLENGE_LEN challenge o msg; let o := o + INFER_CHALLENGE_LEN in
  msg ← copy_loop blen body o msg; let o := o + blen in
  m ← slice msg 0 o;
  full ← khash key m;
  copy_in INFER_TAG_LEN full 0 (zrepeat INFER_TAG_LEN 0).

(** The byte-by-byte comparison: is any byte different? *)
Definition payload_differs (a b : list Z) : res bool := any_up (zlen a) (fun i => x ← idx a i; y ← idx b i; Val (negb (x =? y))).

Definition verify_echo (key : list Z) (resp req : InferFrame) : res bool :=
  if negb (resp_binds_req resp (req_id req)) then Val false else
  if negb (bool_decide (challenge resp = challenge req)) then Val false else
  if negb (zlen (payload resp) =? zlen (payload req)) then Val false else
  d ← payload_differs (payload resp) (payload req);
  if (d : bool) then Val false else
  expect ← echo_tag key (peer_id resp) (nonce resp) (challenge req) (payload resp);
  Val (bool_decide (expect = tag resp)).

(** ** The accumulator *)

(** [FrameAccum<CAP>]: [CAP] is the length of [buf]. *)
Record FrameAccum := mkAccum { buf : list Z; len : Z }.

Definition INFER_ACCUM_CAP : Z := INFER_HEADER_LEN + INFER_PAYLOAD_CAP.

Definition new (CAP : Z) : FrameAccum := mkAccum (zrepeat CAP 0) 0.
Definition is_empty (a : FrameAccum) : bool := len a =? 0.
Definition accum_bytes (a : FrameAccum) : res (list Z) := slice (buf a) 0 (len a).

Definition consume (a : FrameAccum) (n : Z) : res FrameAccum :=
  let n := if len a <? n then len a else n in
  remain ← sub_u (len a) n;
  b ← for_up 0 remain (fun i b => x ← idx b (n + i); upd b i x) (buf a);
  Val (mkAccum b remain).

(** The first position from [i] on that holds the magic's first byte. *)
Definition magic_lo : Z := Z.land INFER_MAGIC 0xFF.
Definition magic_hi : Z := Z.shiftr INFER_MAGIC 8.
(** Look for it from [i] on, for [k] positions; without one the buffer is emptied. *)
Fixpoint resync_from (k : nat) (i : Z) (a : FrameAccum) : res FrameAccum :=
  match k with
  | O => Val (mkAccum (buf a) 0)
  | S k => x ← idx (buf a) i; if x =? magic_lo then consume a i else resync_from k (i + 1) a
  end.
Definition resync_to_magic (a : FrameAccum) : res FrameAccum := resync_from (Z.to_nat (len a - 1)) 1 a.

(** Every turn that does not answer drops a byte; [fuel] running out is a [Panic]. *)
Fixpoint scan (fuel : nat) (a : FrameAccum) : res (FrameAccum * option Z) :=
  match fuel with
  | O => Panic
  | S fuel =>
      if len a =? 0 then Val (a, None) else
      b0 ← idx (buf a) 0;
      if negb (b0 =? magic_lo) then a ← resync_to_magic a; scan fuel a else
      bad ← (if 2 <=? len a then x ← idx (buf a) 1; Val (negb (x =? magic_hi)) else Val false);
      if (bad : bool) then a ← consume a 1; scan fuel a else
      bad ← (if OFF_VER <? len a then x ← idx (buf a) OFF_VER; Val (negb (x =? INFER_VER)) else Val false);
      if (bad : bool) then a ← consume a 1; scan fuel a else
      bad ← (if OFF_KIND <? len a then x ← idx (buf a) OFF_KIND; Val (negb (kind_known x)) else Val false);
      if (bad : bool) then a ← consume a 1; scan fuel a else
      bad ← (if OFF_FLAGS <? len a then x ← idx (buf a) OFF_FLAGS; Val (negb (x =? 0)) else Val false);
      if (bad : bool) then a ← consume a 1; scan fuel a else
      if len a <? INFER_HEADER_LEN then Val (a, None) else
      plen ← read_u32 (buf a) OFF_PAYLOAD_LEN;
      if negb (frame_is_encodable plen) then a ← consume a 1; scan fuel a else
      total ← add_u usize_bits INFER_HEADER_LEN plen;
      if len a <? total then Val (a, None) else
      Val (a, Some total)
  end.

Definition push_byte (a : FrameAccum) (b : Z) : res (FrameAccum * option Z) :=
  a ← (if len a =? zlen (buf a) then consume a 1 else Val a);
  bf ← upd (buf a) (len a) b;
  let a := mkAccum bf (len a + 1) in
  scan (S (Z.to_nat (len a))) a.

(** ** Lemmas: the codec *)

Record frame_ok (f : InferFrame) : Prop := {
  ok_kind : kind_known (kind f) = true;
  ok_req_id : is_u64 (req_id f);
  ok_challenge : zlen (challenge f) = INFER_CHALLENGE_LEN /\ bytes (challenge f);
  ok_nonce : zlen (nonce f) = INFER_NONCE_LEN /\ bytes (nonce f);
  ok_peer : is_u8 (peer_id f);
  ok_tag : zlen (tag f) = INFER_TAG_LEN /\ bytes (tag f);
  ok_payload : zlen (payload f) <= INFER_PAYLOAD_CAP /\ bytes (payload f);
}.

Definition wire_header (f : InferFrame) : list Z :=
  to_le 2 INFER_MAGIC ++ [INFER_VER; kind f; 0] ++ to_le 8 (req_id f) ++ challenge f ++ nonce f ++ [peer_id f] ++ tag f ++
  to_le 4 (zlen (payload f)).
Definition wire_bytes (f : InferFrame) : list Z := wire_header f ++ payload f.

Lemma wire_header_length f : frame_ok f -> zlen (wire_header f) = 66.
Proof.
  intros [_ _ [Hc _] [Hn _] _ [Ht _] _]. unfold wire_header, INFER_CHALLENGE_LEN, INFER_NONCE_LEN, INFER_TAG_LEN in *. zlen_const.
Qed.
Lemma wire_bytes_length f : frame_ok f -> zlen (wire_bytes f) = 66 + zlen (payload f).
Proof. intros H. unfold wire_bytes. by rewrite zlen_app, wire_header_length. Qed.

Lemma wire_bytes_bytes f : frame_ok f -> bytes (wire_bytes f).
Proof.
  intros [Hk _ [_ Hc] [_ Hn] Hp [_ Ht] [_ Hpl]]. unfold wire_bytes, wire_header.
  assert (is_u8 (kind f)) as Hk8.
  { unfold kind_known, ECHO_REQ, ECHO_RESP, ERR, INFER_REQ, INFER_RESP, INFER_PENDING in Hk. rewrite !orb_true_iff, !Z.eqb_eq in Hk. unfold in_u. lia. }
  repeat (apply Forall_app_2 || apply to_le_bytes || done || apply Forall_cons_2 || apply Forall_nil_2); (unfold in_u, INFER_VER in *; lia).
Qed.

Lemma inferwire_canon_eq f out : frame_ok f -> wire_len f <= zlen out ->
  canon f out = Val (wire_bytes f ++ zdrop (wire_len f) out, wire_len f).
Proof.
  intros Hok Hl. pose proof Hok as [Hk _ [Hc _] [Hn _] _ [Ht _] [Hp _]]. pose proof (zlen_nonneg (payload f)).
  unfold wire_len, canon_len, saturating_add, u_max, usize_bits in *. unfold canon, canon_len, saturating_add, u_max, usize_bits, frame_is_encodable. rewrite Hk, (proj2 (Z.leb_le _ _) Hp). cbn [negb orb].
  unfold INFER_HEADER_LEN, INFER_CHALLENGE_LEN, INFER_NONCE_LEN, INFER_TAG_LEN, INFER_PAYLOAD_CAP, write_u16, write_u32, write_u64 in *.
  cbv zeta. rewrite Z.min_l in * by lia. rewrite (proj2 (Z.ltb_ge _ _)) by done. rewrite (wrap_small 32) by (unfold in_u; lia).
  change out with ([] ++ zdrop 0 out) at 1.
  unfold OFF_MAGIC, OFF_VER, OFF_KIND, OFF_FLAGS, OFF_REQ_ID, OFF_CHALLENGE, OFF_NONCE, OFF_PEER, OFF_TAG, OFF_PAYLOAD_LEN, OFF_PAYLOAD.
  writes. rewrite copy_loop_next by (try zlen_const; zl).
  rewrite bind_val, ztake_all, zdrop_zdrop by lia. unfold wire_bytes, wire_header.
  rewrite <-!app_assoc. reflexivity.
Qed.

Definition frame_at (buf : list Z) (k p : Z) : InferFrame :=
  mkFrame k (of_le (zsub 5 8 buf)) (zsub 13 16 buf) (zsub 29 16 buf) p (zsub 46 16 buf) (zsub 66 (of_le (zsub 62 4 buf)) buf).

Lemma field_in_u buf off n : bytes buf -> 0 <= off -> 0 <= n -> off + n <= zlen buf -> in_u (8 * n) (of_le (zsub off n buf)).
Proof.
  intros Hb ???. replace n with (zlen (zsub off n buf)) at 1 by zl. apply of_le_bound. by apply zsub_bytes.
Qed.

Lemma inferwire_decode_eq buf v r k p : bytes buf -> 66 <= zlen buf ->
  idx buf 2 = Val v -> idx buf 4 = Val r -> idx buf 3 = Val k -> idx buf 45 = Val p ->
  decode buf = Val
    (if (of_le (zsub 0 2 buf) =? INFER_MAGIC) && (v =? INFER_VER) && (r =? 0) && kind_known k &&
        frame_is_encodable (of_le (zsub 62 4 buf)) && (66 + of_le (zsub 62 4 buf) <=? zlen buf)
     then Some (frame_at buf k p) else None).
Proof.
  intros Hb Hl Ev Er Ek Ep. unfold decode. change INFER_HEADER_LEN with 66. rewrite (proj2 (Z.ltb_ge _ _)) by done.
  pose proof (field_in_u buf 62 4 Hb) as Hp. specialize (Hp ltac:(lia) ltac:(lia) ltac:(lia)).
  unfold INFER_CHALLENGE_LEN, INFER_NONCE_LEN, INFER_TAG_LEN, OFF_MAGIC, OFF_VER, OFF_KIND, OFF_FLAGS, OFF_REQ_ID, OFF_CHALLENGE, OFF_NONCE, OFF_PEER,
    OFF_TAG, OFF_PAYLOAD_LEN, OFF_PAYLOAD, read_u16, read_u32, read_u64.
  gather_tac 0 2%nat. rewrite !bind_val. destruct (_ =? INFER_MAGIC); [|done]. cbn [negb andb].
  rewrite Ev, bind_val. destruct (v =? INFER_VER); [|done]. cbn [negb andb].
  rewrite Er, bind_val. destruct (r =? 0); [|done]. cbn [negb andb].
  rewrite Ek, bind_val. destruct (kind_known k); [|done]. cbn [negb andb].
  gather_tac 62 4%nat. rewrite !bind_val. unfold frame_at. set (plen := of_le (zsub 62 4 buf)) in *. unfold in_u in Hp.
  destruct (frame_is_encodable plen) eqn:Henc; [|done]. cbn [negb andb].
  rewrite add_u_ok, bind_val by (unfold usize_bits; lia).
  destruct (Z.leb_spec (66 + plen) (zlen buf)) as [Hw|Hw];
    [rewrite (proj2 (Z.ltb_ge _ _)) by lia | by rewrite (proj2 (Z.ltb_lt _ _)) by lia].
  gather_tac 5 8%nat. rewrite !bind_val.
  rewrite (copy_in_ok 16 buf 13), (copy_in_ok 16 buf 29), (copy_in_ok 16 buf 46) by zl. rewrite !bind_val, !(zdrop_all 16), !app_nil_r by zl.
  rewrite Ep, bind_val. rewrite slice_ok, bind_val by lia.
  by replace (66 + plen - 66) with plen by lia.
Qed.

Lemma wire_bytes_declared f tl : frame_ok f -> of_le (zsub 62 4 (wire_bytes f ++ tl)) = zlen (payload f).
Proof.
  intros [_ _ [Hc _] [Hn _] _ [Ht _] [Hp _]]. unfold INFER_CHALLENGE_LEN, INFER_NONCE_LEN, INFER_TAG_LEN, INFER_PAYLOAD_CAP in *.
  pose proof (zlen_nonneg (payload f)). unfold wire_bytes, wire_header. rewrite <-!app_assoc. fields. apply of_to_le_id. unfold in_u. lia.
Qed.

(** Decoding is exactly parsing: the frames a buffer decodes to are the well-formed ones whose
    bytes it starts with. *)
Lemma inferwire_decode_some buf f : bytes buf -> decode buf = Val (Some f) <-> frame_ok f /\ exists tl, buf = wire_bytes f ++ tl.
Proof.
  intros Hb. split.
  - intros Hd. assert (66 <= zlen buf) as Hl.
    { unfold decode in Hd. change INFER_HEADER_LEN with 66 in Hd. destruct (Z.ltb_spec (zlen buf) 66); [done | lia]. }
    destruct (idx_ok buf 2) as [v Ev]; [lia|]. destruct (idx_ok buf 4) as [r Er]; [lia|].
    destruct (idx_ok buf 3) as [k Ek]; [lia|]. destruct (idx_ok buf 45) as [p Ep]; [lia|].
    rewrite (inferwire_decode_eq buf v r k p) in Hd by done. apply Val_inj in Hd.
    destruct (_ && _ && _ && _ && _ && _) eqn:Hc in Hd; [|done]. injection Hd as <-.
    rewrite !andb_true_iff, !Z.eqb_eq, Z.leb_le in Hc. destruct Hc as [[[[[Hm ->] ->] Hk] Henc] Hw].
    pose proof (field_in_u buf 62 4 Hb ltac:(lia) ltac:(lia) ltac:(lia)) as Hp. unfold frame_is_encodable in Henc. apply Z.leb_le in Henc.
    assert (forall off n, bytes (zsub off n buf)) as Hz by (intros; by apply zsub_bytes).
    unfold in_u in Hp. set (plen := of_le (zsub 62 4 buf)) in *.
    assert (zlen (zsub 66 plen buf) = plen) as Hplen by zl.
    assert (is_u8 p) as Hp8. { apply idx_val_inv in Ep as [_ Ep]. rewrite Forall_lookup in Hb. apply (Hb _ _ Ep). }
    split.
    + constructor; unfold frame_at; fold plen; cbn [kind req_id challenge nonce peer_id tag payload]; try done;
        try (split; [unfold INFER_CHALLENGE_LEN, INFER_NONCE_LEN, INFER_TAG_LEN; zl | done]).
      apply (field_in_u buf 5 8); done || lia.
    + exists (zdrop (66 + plen) buf). unfold wire_bytes, wire_header, frame_at; fold plen.
      cbn [kind req_id challenge nonce peer_id tag payload]. rewrite Hplen. unfold plen at 1. rewrite <-Hm.
      rewrite !to_of_le_n by (done || zl). apply zsub_one in Ev, Er, Ek, Ep.
      change [INFER_VER; k; 0] with ([INFER_VER] ++ [k] ++ [0]). rewrite <-Ev, <-Er, <-Ek, <-Ep, <-!app_assoc.
      replace (zdrop (66 + plen) buf) with (zsub (66 + plen) (zlen buf - (66 + plen)) buf).
      2:{ unfold zsub. apply ztake_all. zl. }
      rewrite !zsub_join by lia. symmetry. apply zsub_all. lia.
  - intros [Hok [tl ->]]. pose proof (wire_bytes_length f Hok) as Hlen. pose proof (zlen_nonneg tl). pose proof (zlen_nonneg (payload f)).
    pose proof (wire_header_length f Hok) as Hhl. pose proof Hok as [Hk Hid [Hc _] [Hn _] Hpe [Ht _] [Hp _]].
    unfold INFER_CHALLENGE_LEN, INFER_NONCE_LEN, INFER_TAG_LEN in *. unfold INFER_PAYLOAD_CAP in Hp.
    pose proof (wire_bytes_declared f tl Hok) as Epl.
    assert (zsub 45 1 (wire_bytes f ++ tl) = [peer_id f]) as Epeer by (unfold wire_bytes, wire_header; rewrite <-!app_assoc; by fields).
    destruct (idx_ok (wire_bytes f ++ tl) 45) as [p Ep]; [rewrite zlen_app; lia|]. pose proof (zsub_one _ _ _ Ep) as Ep1. rewrite Epeer in Ep1. injection Ep1 as <-.
    rewrite (inferwire_decode_eq _ INFER_VER 0 (kind f) (peer_id f)); [|done | rewrite zlen_app; lia | done..|done].
    rewrite Epl. assert (of_le (zsub 0 2 (wire_bytes f ++ tl)) = INFER_MAGIC) as -> by done.
    unfold frame_is_encodable, INFER_PAYLOAD_CAP. rewrite Hk, !Z.eqb_refl, (proj2 (Z.leb_le _ 1024)) by done. cbn [andb].
    rewrite (proj2 (Z.leb_le _ _)) by (rewrite zlen_app; lia).
    unfold frame_at. rewrite Epl.
    assert (zsub 66 (zlen (payload f)) (wire_bytes f ++ tl) = payload f) as ->.
    { unfold wire_bytes. rewrite <-app_assoc. by apply zsub_app_mid. }
    assert (of_le (zsub 5 8 (wire_bytes f ++ tl)) = req_id f) as ->.
    { unfold wire_bytes, wire_header. rewrite <-!app_assoc. fields. by apply of_to_le_id. }
    assert (zsub 13 16 (wire_bytes f ++ tl) = challenge f) as -> by (unfold wire_bytes, wire_header; rewrite <-!app_assoc; by fields).
    assert (zsub 29 16 (wire_bytes f ++ tl) = nonce f) as -> by (unfold wire_bytes, wire_header; rewrite <-!app_assoc; by fields).
    assert (zsub 46 16 (wire_bytes f ++ tl) = tag f) as -> by (unfold wire_bytes, wire_header; rewrite <-!app_assoc; by fields).
    by destruct f.
Qed.

Lemma inferwire_decode_total buf : bytes buf -> exists o, decode buf = Val o.
Proof.
  intros Hb. destruct (decide (66 <= zlen buf)) as [Hl|Hl].
  - destruct (idx_ok buf 2) as [v Ev]; [lia|]. destruct (idx_ok buf 4) as [r Er]; [lia|].
    destruct (idx_ok buf 3) as [k Ek]; [lia|]. destruct (idx_ok buf 45) as [p Ep]; [lia|]. eexists. by eapply inferwire_decode_eq.
  - exists None. unfold decode. change INFER_HEADER_LEN with 66. by rewrite (proj2 (Z.ltb_lt _ _)) by lia.
Qed.

(** ** Lemmas: the echo *)

Definition echo_msg (peer : Z) (nonce challenge body : list Z) : list Z := ECHO_DOMAIN ++ [peer] ++ nonce ++ challenge ++ body.

Lemma echo_tag_eq key peer nonce challenge body : zlen key = KHASH_KEY_LEN -> zlen nonce = 16 -> zlen challenge = 16 -> zlen body <= INFER_PAYLOAD_CAP ->
  echo_tag key peer nonce challenge body = (full ← khash key (echo_msg peer nonce challenge body); Val (ztake 16 full)).
Proof.
  intros Hk Hn Hc Hb. unfold echo_tag. rewrite (proj2 (Z.ltb_ge _ _)) by done. unfold INFER_PAYLOAD_CAP in *. pose proof (zlen_nonneg body).
  unfold INFER_NONCE_LEN, INFER_CHALLENGE_LEN, INFER_TAG_LEN in *. cbv zeta. change (zlen ECHO_DOMAIN) with 16. change ECHO_MSG_CAP with 1073.
  assert (zlen ECHO_DOMAIN = 16) as Hd by done. assert (zlen (zrepeat 1073 0) = 1073) as Hz by done. set (z := zrepeat 1073 0) in *. change z with ([] ++ zdrop 0 z). clearbody z.
  writes. rewrite (copy_ascend (zlen body) body (0 + 16 + 1 + 16 + 16) _ 49 z (49 + zlen body)) by first [zlen_const | zl]. rewrite bind_val, slice_ok by zl.
  match goal with |- context [zsub 0 ?n (?l ++ zdrop ?k z)] => assert (zsub 0 n (l ++ zdrop k z) = l) as -> end.
  { unfold zsub. rewrite zdrop_0. apply ztake_app_eq. zl. }
  rewrite bind_val. unfold echo_msg. rewrite <- !app_assoc. cbn [app].
  eapply runs_eq; [by apply khash_digest|]. intros full [Hf _]. rewrite copy_in_ok by zl. by rewrite zdrop_all, app_nil_r by zl.
Qed.

(** The tag of a keyed hash. *)
Definition is_tag (key msg t : list Z) : Prop := exists full, khash key msg = Val full /\ t = ztake 16 full.

Lemma is_tag_full key msg t full : khash key msg = Val full -> is_tag key msg t <-> ztake 16 full = t.
Proof. intros E. unfold is_tag. rewrite E. split; [by intros (? & [= <-] & ->) | intros <-; by exists full]. Qed.

Lemma payload_differs_eq a b : zlen a = zlen b -> payload_differs a b = Val (negb (bool_decide (a = b))).
Proof.
  intros Hl. unfold payload_differs, any_up.
  assert (forall (tl tl' pre pre' : list Z), length tl = length tl' -> zlen pre = zlen pre' ->
    any_nat (length tl) (zlen pre) (fun i => x ← idx (pre ++ tl) i; y ← idx (pre' ++ tl') i; Val (negb (x =? y))) = Val (negb (bool_decide (tl = tl')))) as H.
  { induction tl as [|x tl IH]; intros [|y tl'] pre pre' Htl Hpre; try done. injection Htl as Htl. cbn [length any_nat].
    rewrite idx_middle, bind_val, Hpre, idx_middle, !bind_val. destruct (Z.eqb_spec x y) as [->|Hne]; cbn [negb].
    - specialize (IH tl' (pre ++ [y]) (pre' ++ [y]) Htl). rewrite !zlen_app, <- !app_assoc in IH. cbn [app] in IH. change (zlen [y]) with 1 in IH.
      rewrite Hpre in IH. rewrite IH by lia. f_equal. f_equal. by rewrite (bool_decide_ext (tl = tl') (y :: tl = y :: tl')) by naive_solver.
    - by rewrite bool_decide_false by naive_solver. }
  specialize (H a b [] []). cbn [app] in H. unfold zlen at 1. rewrite Nat2Z.id. apply H; unfold zlen in *; lia.
Qed.

Lemma verify_echo_iff key resp req : zlen key = KHASH_KEY_LEN -> frame_ok resp -> frame_ok req ->
  runs (verify_echo key resp req) (fun b => b = true <->
    kind resp = ECHO_RESP /\ req_id resp = req_id req /\ challenge resp = challenge req /\ payload resp = payload req /\
    is_tag key (echo_msg (peer_id resp) (nonce resp) (challenge req) (payload req)) (tag resp)).
Proof.
  intros Hk Hr Hq. unfold verify_echo, resp_binds_req. destruct (Z.eqb_spec (kind resp) ECHO_RESP); [|apply runs_val; naive_solver].
  destruct (Z.eqb_spec (req_id resp) (req_id req)); cbn [andb negb]; [|apply runs_val; naive_solver].
  case_bool_decide as Hc; cbn [negb]; [|apply runs_val; naive_solver].
  destruct (Z.eqb_spec (zlen (payload resp)) (zlen (payload req))) as [Hl|Hl]; cbn [negb].
  2: { apply runs_val. split; [done|]. intros (_ & _ & _ & E & _). by rewrite E in Hl. }
  rewrite payload_differs_eq, bind_val by done.
  case_bool_decide as Hp; cbn [negb]; [|apply runs_val; naive_solver].
  destruct (ok_challenge req Hq) as [Hch _]. destruct (ok_nonce resp Hr) as [Hn _]. destruct (ok_payload resp Hr) as [Hpl _].
  rewrite echo_tag_eq by done. destruct (khash_digest key Hk (echo_msg (peer_id resp) (nonce resp) (challenge req) (payload resp))) as (full & E & _).
  rewrite E, !bind_val. apply runs_val. rewrite Hp in E. rewrite bool_decide_eq_true, (is_tag_full _ _ _ full E). naive_solver.
Qed.

(** ** Lemmas: the accumulator *)

(** The buffered bytes. *)
Record holds (CAP : Z) (a : FrameAccum) (l : list Z) : Prop := {
  h_cap : zlen (buf a) = CAP;
  h_len : len a = zlen l;
  h_buf : exists junk, buf a = l ++ junk;
}.

Lemma holds_le CAP a l : holds CAP a l -> zlen l <= CAP.
Proof. intros [<- _ [j ->]]. rewrite zlen_app. pose proof (zlen_nonneg j). lia. Qed.

Lemma holds_idx CAP a l i x : holds CAP a l -> idx l i = Val x -> idx (buf a) i = Val x.
Proof. intros [_ _ [j ->]] Hi. pose proof (idx_val_inv _ _ _ Hi) as [? _]. by rewrite idx_app_lt by lia. Qed.

Lemma consume_runs CAP a l n : holds CAP a l -> 0 <= n <= zlen l -> runs (consume a n) (fun a' => holds CAP a' (zdrop n l)).
Proof.
  intros [Hc Hl [j Hb]] Hn. unfold consume. rewrite Hl, (proj2 (Z.ltb_ge _ _)) by lia. rewrite sub_u_ok, bind_val by lia.
  eapply runs_bind; [apply (for_up_inv (fun i b => b = ztake i (zdrop n l) ++ zdrop i (buf a))); [lia | by rewrite zdrop_0 | ]|].
  - intros i b Hi ->. rewrite Hb. destruct (idx_ok l (n + i)) as [x Hx]; [lia|].
    assert (idx (ztake i (zdrop n l) ++ zdrop i (l ++ j)) (n + i) = Val x) as Ex.
    { rewrite idx_app_ge by zl. rewrite zdrop_app_le by lia. rewrite idx_app_lt by zl. rewrite zlen_ztake, zlen_zdrop.
      apply idx_val_inv in Hx as [_ Hx]. apply idx_Some; [lia|]. unfold zdrop. rewrite lookup_drop. rewrite <- Hx. f_equal. lia. }
    rewrite Ex, bind_val. rewrite upd_next by zl. apply runs_val. rewrite zdrop_zdrop by lia. f_equal.
    assert (idx (zdrop n l) i = Val x) as Ed.
    { apply idx_val_inv in Hx as [_ Hx]. apply idx_Some; [lia|]. unfold zdrop. rewrite lookup_drop, <- Hx. f_equal. lia. }
    apply idx_val_inv in Ed as [_ Ed]. unfold ztake. replace (Z.to_nat (i + 1)) with (S (Z.to_nat i)) by lia. by rewrite (take_S_r _ _ x).
  - intros b ->. apply runs_val. split; cbn [buf len].
    + pose proof (zlen_nonneg j). rewrite Hb in *. rewrite zlen_app in Hc. zl.
    + zl.
    + rewrite ztake_all by zl. by eexists.
Qed.

(** A rule about byte [i], once it has arrived. *)
Definition rule (i : Z) (p : Z -> bool) (l : list Z) : bool := match l !! Z.to_nat i with None => true | Some x => p x end.
Definition declared (l : list Z) : Z := of_le (zsub 62 4 l).

(** The bytes could begin a frame. *)
Definition plausible (l : list Z) : bool :=
  rule 0 (fun x => x =? magic_lo) l && rule 1 (fun x => x =? magic_hi) l && rule 2 (fun x => x =? INFER_VER) l &&
  rule 3 kind_known l && rule 4 (fun x => x =? 0) l && ((zlen l <? 66) || frame_is_encodable (declared l)).

(** The first suffix that could begin a frame. *)
Fixpoint settle (l : list Z) : list Z :=
  match l with
  | [] => []
  | _ :: tl => if plausible l then l else settle tl
  end.

(** The length of the frame at the front, when it is all there. *)
Definition whole (l : list Z) : option Z :=
  if (66 <=? zlen l) && (66 + declared l <=? zlen l) then Some (66 + declared l) else None.

Lemma rule_check CAP a l i p : holds CAP a l -> 0 <= i ->
  (if i <? len a then x ← idx (buf a) i; Val (negb (p x)) else Val false) = Val (negb (rule i p l)).
Proof.
  intros Hh Hi. rewrite (h_len _ _ _ Hh). unfold rule. destruct (Z.ltb_spec i (zlen l)) as [Hlt|Hge].
  - destruct (idx_ok l i) as [x Hx]; [lia|]. rewrite (holds_idx _ _ _ _ _ Hh Hx), bind_val. apply idx_val_inv in Hx as [_ ->]. done.
  - rewrite lookup_ge_None_2; [done|]. unfold zlen in *. lia.
Qed.

Lemma rule_0 x tl p : rule 0 p (x :: tl) = p x.
Proof. done. Qed.

Lemma settle_skip x tl : plausible (x :: tl) = false -> settle (x :: tl) = settle tl.
Proof. intros H. cbn [settle]. by rewrite H. Qed.

Lemma implausible_head x tl : x <> magic_lo -> plausible (x :: tl) = false.
Proof. intros Hne. unfold plausible. rewrite rule_0, (proj2 (Z.eqb_neq _ _) Hne). done. Qed.

(** Resynchronisation only skips what could not begin a frame. *)
Lemma settle_skip_many pre tl : Forall (fun x => x <> magic_lo) pre -> settle (pre ++ tl) = settle tl.
Proof. induction 1 as [|x pre Hx _ IH]; [done|]. cbn [app]. by rewrite settle_skip by by apply implausible_head. Qed.

Lemma resync_runs CAP a x tl : holds CAP a (x :: tl) -> x <> magic_lo ->
  runs (resync_to_magic a) (fun a' => exists l', holds CAP a' l' /\ settle l' = settle (x :: tl) /\ zlen l' < zlen (x :: tl) /\ (bytes (x :: tl) -> bytes l')).
Proof.
  intros Hh Hx. pose proof (zlen_nonneg tl). unfold resync_to_magic. rewrite (h_len _ _ _ Hh).
  assert (forall k i, Z.of_nat k = zlen (x :: tl) - i -> 1 <= i -> Forall (fun y => y <> magic_lo) (ztake i (x :: tl)) ->
    runs (resync_from k i a) (fun a' => exists l', holds CAP a' l' /\ settle l' = settle (x :: tl) /\ zlen l' < zlen (x :: tl) /\ (bytes (x :: tl) -> bytes l'))) as Hloop.
  { induction k as [|k IH]; intros i Hk Hi Hpre.
    - apply runs_val. exists []. split; [|split].
      + destruct Hh as [Hc _ [j Hb]]. split; cbn [buf len]; [done | done | by exists (buf a)].
      + rewrite ztake_all in Hpre by lia. pose proof (settle_skip_many (x :: tl) [] Hpre) as E. rewrite app_nil_r in E. by rewrite E.
      + rewrite zlen_cons, zlen_nil. split; [lia | by constructor].
    - cbn [resync_from]. destruct (idx_ok (x :: tl) i) as [y Hy]; [lia|]. rewrite (holds_idx _ _ _ _ _ Hh Hy), bind_val.
      destruct (Z.eqb_spec y magic_lo) as [->|Hne].
      + eapply runs_mono; [apply (consume_runs CAP a (x :: tl) i Hh); lia|]. intros a' Ha'. exists (zdrop i (x :: tl)). split; [done|]. split.
        * rewrite <- (ztake_zdrop i (x :: tl)) at 2. by rewrite settle_skip_many.
        * split; [zl | apply zdrop_bytes].
      + apply IH; [lia | lia |]. apply idx_val_inv in Hy as [_ Hy]. unfold ztake in *. replace (Z.to_nat (i + 1)) with (S (Z.to_nat i)) by lia.
        rewrite (take_S_r _ _ y) by done. apply Forall_app_2; [done | by apply Forall_singleton]. }
  apply Hloop; [pose proof (zlen_cons x tl); lia | lia |]. change (ztake 1 (x :: tl)) with [x]. by apply Forall_singleton.
Qed.

Lemma consume_one CAP a x tl fuel Q : holds CAP a (x :: tl) -> (forall a', holds CAP a' tl -> runs (scan fuel a') Q) ->
  runs (a ← consume a 1; scan fuel a) Q.
Proof.
  intros Hh Hk. pose proof (zlen_nonneg tl). eapply runs_bind; [apply (consume_runs CAP a (x :: tl) 1 Hh); rewrite zlen_cons; lia|].
  intros a' Ha'. by apply Hk.
Qed.

Lemma holds_declared CAP a l : holds CAP a l -> 66 <= zlen l -> read_u32 (buf a) OFF_PAYLOAD_LEN = Val (declared l).
Proof.
  intros [_ _ [j Hj]] Hl. pose proof (zlen_nonneg j). unfold read_u32, OFF_PAYLOAD_LEN. rewrite Hj. gather_tac 62 4%nat. rewrite bind_val. unfold declared. f_equal. f_equal.
  unfold zsub. rewrite zdrop_app_le by lia. by rewrite ztake_app_le by zl.
Qed.

Lemma scan_runs CAP fuel : forall a l, holds CAP a l -> bytes l -> zlen l < Z.of_nat fuel ->
  runs (scan fuel a) (fun '(a', r) => holds CAP a' (settle l) /\ r = whole (settle l)).
Proof.
  induction fuel as [|fuel IH]; intros a l Hh Hb Hf; [pose proof (zlen_nonneg l); lia|]. cbn [scan]. rewrite (h_len _ _ _ Hh).
  destruct l as [|x tl]; [by apply runs_val|]. pose proof (zlen_nonneg tl). rewrite zlen_cons in Hf. pose proof (Forall_inv_tail Hb) as Hbt.
  rewrite (proj2 (Z.eqb_neq _ 0)) by (rewrite zlen_cons; lia).
  rewrite (holds_idx CAP a (x :: tl) 0 x Hh) by done. rewrite bind_val. destruct (Z.eqb_spec x magic_lo) as [Hx|Hx]; cbn [negb].
  2: { eapply runs_bind; [by apply (resync_runs CAP a x tl)|]. intros a' (l' & Ha' & <- & Hlt & Hb'). rewrite zlen_cons in Hlt. apply IH; [done | by apply Hb' | lia]. }
  assert (plausible (x :: tl) = false -> runs (a ← consume a 1; scan fuel a) (fun '(a', r) => holds CAP a' (settle (x :: tl)) /\ r = whole (settle (x :: tl)))) as Hskip.
  { intros Hp. rewrite settle_skip by done. apply (consume_one CAP a x tl); [done|]. intros a' Ha'. apply IH; [done | done | lia]. }
  assert (forall i p (k : res (FrameAccum * option Z)) Q, 0 <= i -> (rule i p (x :: tl) = false -> runs (a ← consume a 1; scan fuel a) Q) -> (rule i p (x :: tl) = true -> runs k Q) ->
    runs (bad ← (if i <? len a then x ← idx (buf a) i; Val (negb (p x)) else Val false); if (bad : bool) then a ← consume a 1; scan fuel a else k) Q) as Hrule.
  { intros i p k Q Hi Hno Hyes. rewrite (rule_check CAP a (x :: tl) i p Hh Hi), bind_val. destruct (rule i p (x :: tl)); cbn [negb]; auto. }
  assert (rule 0 (fun x => x =? magic_lo) (x :: tl) = true) as H0 by (rewrite rule_0, Hx; done).
  replace (2 <=? zlen (x :: tl)) with (1 <? len a) by (rewrite (h_len _ _ _ Hh); destruct (Z.ltb_spec 1 (zlen (x :: tl))), (Z.leb_spec 2 (zlen (x :: tl))); lia).
  rewrite <- (h_len _ _ _ Hh).
  apply (Hrule 1 (fun x => x =? magic_hi)); [lia | intros E; apply Hskip; unfold plausible; rewrite E, !andb_false_r; done | intros H1].
  apply (Hrule 2 (fun x => x =? INFER_VER)); [lia | intros E; apply Hskip; unfold plausible; rewrite E, !andb_false_r; done | intros H2].
  apply (Hrule 3 kind_known); [lia | intros E; apply Hskip; unfold plausible; rewrite E, !andb_false_r; done | intros H3].
  apply (Hrule 4 (fun x => x =? 0)); [lia | intros E; apply Hskip; unfold plausible; rewrite E, !andb_false_r; done | intros H4].
  rewrite (h_len _ _ _ Hh). change INFER_HEADER_LEN with 66.
  assert (settle (x :: tl) = if plausible (x :: tl) then x :: tl else settle tl) as Es by done.
  assert (plausible (x :: tl) = (zlen (x :: tl) <? 66) || frame_is_encodable (declared (x :: tl))) as Ep by (unfold plausible; by rewrite H0, H1, H2, H3, H4).
  destruct (Z.ltb_spec (zlen (x :: tl)) 66) as [Hlt|Hge].
  { apply runs_val. rewrite Es, Ep. cbn [orb]. split; [done|]. unfold whole. by rewrite (proj2 (Z.leb_gt _ _)) by lia. }
  rewrite (holds_declared CAP a (x :: tl) Hh Hge), bind_val. cbn [orb] in Ep.
  destruct (frame_is_encodable (declared (x :: tl))) eqn:Henc; cbn [negb]; [|by apply Hskip].
  pose proof Henc as Hle. unfold frame_is_encodable, INFER_PAYLOAD_CAP in Hle. apply Z.leb_le in Hle. rewrite add_u_ok, bind_val by (unfold usize_bits; lia).
  rewrite Es, Ep. unfold whole. rewrite (proj2 (Z.leb_le _ _) Hge). cbn [andb].
  destruct (Z.ltb_spec (zlen (x :: tl)) (66 + declared (x :: tl))); apply runs_val; (split; [done|]).
  - by rewrite (proj2 (Z.leb_gt _ _)) by lia.
  - by rewrite (proj2 (Z.leb_le _ _)) by lia.
Qed.

Lemma push_runs CAP a l b : holds CAP a l -> bytes l -> is_u8 b -> 0 < CAP ->
  runs (push_byte a b) (fun '(a', r) => let s := settle ((if zlen l =? CAP then zdrop 1 l else l) ++ [b]) in holds CAP a' s /\ r = whole s).
Proof.
  intros Hh Hb Hb8 HC. pose proof (holds_le _ _ _ Hh) as Hle. pose proof (zlen_nonneg l). unfold push_byte. rewrite (h_cap _ _ _ Hh), (h_len _ _ _ Hh).
  set (l1 := if zlen l =? CAP then zdrop 1 l else l).
  assert (runs (if zlen l =? CAP then consume a 1 else Val a) (fun a' => holds CAP a' l1)) as H1.
  { unfold l1. destruct (Z.eqb_spec (zlen l) CAP); [apply consume_runs; [done | lia] | by apply runs_val]. }
  assert (zlen l1 < CAP) as Hl1 by (unfold l1; destruct (Z.eqb_spec (zlen l) CAP); zl).
  assert (bytes l1) as Hb1 by (unfold l1; destruct (zlen l =? CAP); [by apply zdrop_bytes | done]).
  eapply runs_bind; [exact H1|]. clear H1. intros a1 [Hc1 Hlen1 [j Hj]]. rewrite Hlen1, Hj.
  destruct j as [|y j]; [rewrite app_nil_r in Hj; rewrite Hj in Hc1; lia|]. rewrite upd_next by zl. rewrite bind_val. cbn [len].
  pose proof (zlen_nonneg l1). apply scan_runs; [| apply Forall_app_2; [done | by apply Forall_singleton] | zl].
  split; cbn [buf len]; [|zl | by eexists]. rewrite Hj in Hc1. rewrite !zlen_app, zlen_cons in *. zl.
Qed.

(** ** Lemmas: what can begin a frame *)

Lemma rule_app i p l tl : rule i p (l ++ tl) = true -> rule i p l = true.
Proof. unfold rule. destruct (l !! Z.to_nat i) as [x|] eqn:E; [|done]. by rewrite (lookup_app_l_Some _ _ _ _ E). Qed.
Lemma rule_app_long i p l tl : 0 <= i < zlen l -> rule i p (l ++ tl) = rule i p l.
Proof. intros Hi. unfold rule. rewrite lookup_app_l; [done|]. unfold zlen in *. lia. Qed.

Lemma declared_app l tl : 66 <= zlen l -> declared (l ++ tl) = declared l.
Proof. intros Hl. unfold declared, zsub. rewrite zdrop_app_le by lia. by rewrite ztake_app_le by zl. Qed.

(** Plausibility is closed under prefixes, and settled by a header. *)
Lemma plausible_app l tl : plausible (l ++ tl) = true -> plausible l = true.
Proof.
  unfold plausible. rewrite !andb_true_iff. intros (((((? & ?) & ?) & ?) & ?) & Hd). repeat split; try (by eapply rule_app).
  destruct (Z.ltb_spec (zlen l) 66) as [|Hl]; [done|]. rewrite declared_app in Hd by done. rewrite orb_true_iff in *. destruct Hd as [Hd|]; [|by right].
  apply Z.ltb_lt in Hd. rewrite zlen_app in Hd. pose proof (zlen_nonneg tl). lia.
Qed.
Lemma plausible_app_long l tl : 66 <= zlen l -> plausible (l ++ tl) = plausible l.
Proof.
  intros Hl. pose proof (zlen_nonneg tl). unfold plausible. rewrite !rule_app_long, declared_app, zlen_app by lia.
  by rewrite !(proj2 (Z.ltb_ge _ _)) by lia.
Qed.

Lemma settle_plausible l : plausible l = true -> settle l = l.
Proof. destruct l as [|x tl]; [done|]. intros H. cbn [settle]. by rewrite H. Qed.
Lemma settle_cases l : settle l = [] \/ plausible (settle l) = true.
Proof. induction l as [|x tl IH]; [by left|]. cbn [settle]. destruct (plausible (x :: tl)) eqn:E; [by right | done]. Qed.
Lemma settle_app l tl : settle (l ++ tl) = settle (settle l ++ tl).
Proof.
  induction l as [|x l IH]; [done|]. cbn [settle]. destruct (plausible (x :: l)) eqn:E; [done|].
  rewrite <- IH. cbn [app]. apply settle_skip. destruct (plausible (x :: l ++ tl)) eqn:E'; [|done]. exfalso.
  change (x :: l ++ tl) with ((x :: l) ++ tl) in E'. apply plausible_app in E'. congruence.
Qed.

(** The bytes an accumulator keeps: nothing, or the beginning of a frame that is not whole. *)
Definition stuck (l : list Z) : Prop := settle l = l /\ whole l = None.

Lemma plausible_declared l : plausible l = true -> 66 <= zlen l -> declared l <= INFER_PAYLOAD_CAP.
Proof.
  unfold plausible. rewrite !andb_true_iff. intros [_ H] Hl. rewrite (proj2 (Z.ltb_ge _ _)) in H by done. by apply Z.leb_le in H.
Qed.

Lemma stuck_short l : stuck l -> zlen l < INFER_ACCUM_CAP.
Proof.
  change INFER_ACCUM_CAP with 1090. intros [Hs Hw]. destruct (settle_cases l) as [E|Hp]; rewrite Hs in *; [rewrite E, zlen_nil; lia|].
  destruct (Z.le_gt_cases 66 (zlen l)) as [Hl|]; [|lia]. pose proof (plausible_declared l Hp Hl) as Hd. unfold INFER_PAYLOAD_CAP in Hd.
  unfold whole in Hw. rewrite (proj2 (Z.leb_le _ _) Hl) in Hw. cbn [andb] in Hw. destruct (Z.leb_spec (66 + declared l) (zlen l)); [done | lia].
Qed.

Lemma settle_suffix l : exists pre, l = pre ++ settle l.
Proof.
  induction l as [|x tl [pre IH]]; [by exists []|]. cbn [settle]. destruct (plausible (x :: tl)); [by exists []|]. exists (x :: pre). cbn [app]. by rewrite <- IH.
Qed.

Lemma whole_inv l n : whole l = Some n -> 66 <= zlen l /\ n = 66 + declared l /\ n <= zlen l.
Proof.
  unfold whole. destruct (Z.leb_spec 66 (zlen l)); cbn [andb]; [|done]. destruct (Z.leb_spec (66 + declared l) (zlen l)); [|done]. intros [= <-]. lia.
Qed.

Lemma declared_nonneg l : bytes l -> 66 <= zlen l -> 0 <= declared l.
Proof. intros Hb Hl. pose proof (field_in_u l 62 4 Hb ltac:(lia) ltac:(lia) ltac:(lia)) as H. unfold declared. unfold in_u in H. lia. Qed.

(** One more byte after the beginning of a frame: what is emitted is all that is buffered. *)
Lemma settle_push l b : bytes (l ++ [b]) -> stuck l -> let s := settle (l ++ [b]) in
  match whole s with Some n => n = zlen s /\ plausible s = true | None => stuck s end.
Proof.
  intros Hb [Hl Hw]. cbv zeta. destruct (settle_suffix (l ++ [b])) as [pre Hpre]. destruct (settle_cases (l ++ [b])) as [E|Hp].
  { by rewrite E. }
  destruct (whole (settle (l ++ [b]))) as [n|] eqn:En; [|split; [by apply settle_plausible | done]].
  split; [|done]. destruct (whole_inv _ n En) as (Hge & Hn & Hle). pose proof (zlen_app l [b]) as Hlen. change (zlen [b]) with 1 in Hlen.
  destruct (Z.le_gt_cases 66 (zlen l)) as [Hlg|Hlg].
  - destruct (settle_cases l) as [E|Hpl]; rewrite Hl in *; [rewrite E, zlen_nil in Hlg; lia|].
    rewrite (settle_plausible (l ++ [b])) in * by by rewrite plausible_app_long. rewrite declared_app in Hn by done.
    unfold whole in Hw. rewrite (proj2 (Z.leb_le _ _) Hlg) in Hw. cbn [andb] in Hw. destruct (Z.leb_spec (66 + declared l) (zlen l)); [done | lia].
  - pose proof (f_equal zlen Hpre) as Hpl. rewrite (zlen_app pre) in Hpl. pose proof (zlen_nonneg pre). assert (zlen pre = 0) as ->%zlen_0 by lia. cbn [app] in Hpre.
    rewrite <- Hpre in Hge, Hn, Hle |- *. pose proof (declared_nonneg _ Hb Hge). lia.
Qed.

(** ** A stream of frames *)

(** The windows a reader takes from a stream, all of it at hand: skip to what could begin a
    frame, and take the frame if it is whole. *)
Inductive parses : list Z -> list (list Z) -> list Z -> Prop :=
  | parses_stop l : whole (settle l) = None -> parses l [] (settle l)
  | parses_frame l n ws rest : whole (settle l) = Some n -> parses (zdrop n (settle l)) ws rest -> parses l (ztake n (settle l) :: ws) rest.

(** The reading loop of every user of the accumulator: push a byte; on an emission take the
    window and consume it. *)
Fixpoint reframe (a : FrameAccum) (l : list Z) : res (FrameAccum * list (list Z)) :=
  match l with
  | [] => Val (a, [])
  | b :: l =>
      '(a, r) ← push_byte a b;
      match r with
      | None => reframe a l
      | Some n =>
          bs ← accum_bytes a;
          w ← slice bs 0 n;
          a ← consume a n;
          '(a, ws) ← reframe a l;
          Val (a, w :: ws)
      end
  end.

Lemma parses_settle l l' ws rest : settle l = settle l' -> parses l' ws rest -> parses l ws rest.
Proof. intros E H. inversion H; subst; rewrite <- E in *; [by apply parses_stop | by eapply parses_frame]. Qed.

Lemma reframe_runs CAP l : INFER_ACCUM_CAP <= CAP -> bytes l -> forall a v, holds CAP a v -> bytes v -> stuck v ->
  runs (reframe a l) (fun '(a', ws) => exists rest, holds CAP a' rest /\ stuck rest /\ bytes rest /\ parses (v ++ l) ws rest).
Proof.
  change INFER_ACCUM_CAP with 1090. intros HC Hb. induction l as [|b l IH]; intros a v Hh Hbv Hst.
  { apply runs_val. exists v. rewrite app_nil_r. destruct Hst as [Hs Hw]. repeat split; try done; [apply Hh..|]. rewrite <- Hs at 2. apply parses_stop. by rewrite Hs. }
  apply Forall_cons in Hb as [Hb8 Hb]. cbn [reframe]. pose proof (stuck_short v Hst) as Hv. change INFER_ACCUM_CAP with 1090 in Hv.
  eapply runs_bind; [apply (push_runs CAP a v b Hh Hbv Hb8); lia|]. rewrite (proj2 (Z.eqb_neq _ _)) by lia. intros [a1 r] [Hh1 ->].
  assert (bytes (v ++ [b])) as Hvb by (apply Forall_app_2; [done | by apply Forall_singleton]). pose proof (settle_push v b Hvb Hst) as Hpush. cbv zeta in Hpush.
  replace (v ++ b :: l) with ((v ++ [b]) ++ l) by (by rewrite <- app_assoc).
  assert (bytes (settle (v ++ [b]))) as Hbs by (destruct (settle_suffix (v ++ [b])) as [pre E]; rewrite E in Hvb; by apply Forall_app in Hvb as [_ ?]).
  set (s := settle (v ++ [b])) in *. destruct (whole s) as [n|] eqn:En.
  - destruct Hpush as [-> Hp]. pose proof (zlen_nonneg s). assert (accum_bytes a1 = Val s) as Ea.
    { unfold accum_bytes. destruct Hh1 as [_ -> [j ->]]. pose proof (zlen_nonneg j). rewrite slice_ok by zl. f_equal. unfold zsub. rewrite zdrop_0. apply ztake_app_eq. lia. }
    rewrite Ea, bind_val, slice_ok, bind_val by lia. eapply runs_bind; [by apply (consume_runs CAP a1 s (zlen s)); [|lia]|]. intros a2 Ha2. rewrite zdrop_all in Ha2 by lia.
    eapply runs_bind; [apply (IH Hb a2 []); [done | constructor | by split]|]. intros [a3 ws] (rest & H3 & Hst3 & Hb3 & Hps). apply runs_val. exists rest.
    do 3 (split; [done|]). destruct (whole_inv s _ En) as (Hge & Hn & _).
    assert (settle ((v ++ [b]) ++ l) = s ++ l) as Es by (rewrite settle_app; fold s; apply settle_plausible; by rewrite plausible_app_long).
    assert (zsub 0 (zlen s - 0) s = ztake (zlen s) (s ++ l)) as -> by (unfold zsub; rewrite zdrop_0, ztake_app_eq by done; apply ztake_all; lia).
    rewrite <- Es. apply parses_frame; rewrite Es; [|by rewrite zdrop_app_eq].
    unfold whole. pose proof (zlen_nonneg l). rewrite declared_app, zlen_app by done. rewrite !(proj2 (Z.leb_le _ _)) by lia. by rewrite <- Hn.
  - eapply runs_mono; [by apply (IH Hb a1 s)|]. intros [a2 ws] (rest & H2 & Hst2 & Hb2 & Hps). exists rest. do 3 (split; [done|]).
    eapply parses_settle; [|exact Hps]. by rewrite settle_app.
Qed.

(** *** Frames in the stream *)

Lemma wire_bytes_plausible f tl : frame_ok f -> plausible (wire_bytes f ++ tl) = true /\ whole (wire_bytes f ++ tl) = Some (zlen (wire_bytes f)).
Proof.
  intros Hok. pose proof (wire_bytes_length f Hok) as Hl. pose proof (zlen_nonneg (payload f)). pose proof (zlen_nonneg tl).
  pose proof (wire_bytes_declared f tl Hok) as Hd. destruct (ok_payload f Hok) as [Hp _]. split.
  - unfold plausible. change (declared (wire_bytes f ++ tl)) with (of_le (zsub 62 4 (wire_bytes f ++ tl))). rewrite Hd.
    unfold frame_is_encodable. rewrite (proj2 (Z.leb_le _ _) Hp), orb_true_r, andb_true_r. 
    assert (rule 3 kind_known (wire_bytes f ++ tl) = kind_known (kind f)) as -> by done. by rewrite (ok_kind f Hok).
  - unfold whole, declared. rewrite Hd, zlen_app, Hl. by rewrite !(proj2 (Z.leb_le _ _)) by lia.
Qed.

(** What the reader takes from a stream is a frame. *)
Lemma window_frame s n : bytes s -> plausible s = true -> whole s = Some n -> exists f, frame_ok f /\ ztake n s = wire_bytes f.
Proof.
  intros Hb Hp Hw. destruct (whole_inv s n Hw) as (Hge & Hn & Hle). pose proof (declared_nonneg s Hb Hge) as H0.
  assert (zlen (ztake n s) = n) as Hlen by zl. assert (bytes (ztake n s)) as Hbt by by apply ztake_bytes.
  assert (declared (ztake n s) = declared s) as Hd by (rewrite <- (ztake_zdrop n s) at 2; by rewrite declared_app by lia).
  assert (plausible (ztake n s) = true) as Hpt by (rewrite <- (ztake_zdrop n s) in Hp; by apply plausible_app in Hp).
  destruct (idx_ok (ztake n s) 2) as [v Ev]; [lia|]. destruct (idx_ok (ztake n s) 4) as [r Er]; [lia|].
  destruct (idx_ok (ztake n s) 3) as [k Ek]; [lia|]. destruct (idx_ok (ztake n s) 45) as [p Ep]; [lia|].
  destruct (idx_ok (ztake n s) 0) as [x0 E0]; [lia|]. destruct (idx_ok (ztake n s) 1) as [x1 E1]; [lia|].
  assert (exists f, decode (ztake n s) = Val (Some f) /\ zlen (payload f) = declared s) as (f & Ef & Hpl).
  { rewrite (inferwire_decode_eq _ v r k p) by (done || lia). fold (declared (ztake n s)). unfold plausible, rule in Hpt.
    apply idx_val_inv in E0 as E0', E1 as E1', Ev as Ev', Er as Er', Ek as Ek'. destruct E0' as [_ E0'], E1' as [_ E1'], Ev' as [_ Ev'], Er' as [_ Er'], Ek' as [_ Ek'].
    rewrite E0', E1', Ev', Er', Ek', (proj2 (Z.ltb_ge _ 66)) in Hpt by lia. rewrite !andb_true_iff, !Z.eqb_eq in Hpt. destruct Hpt as (((((-> & ->) & ->) & Hkk) & ->) & Henc).
    cbn [orb] in Henc. rewrite Henc, Hkk, (proj2 (Z.leb_le _ _)) by lia.
    assert (of_le (zsub 0 2 (ztake n s)) = INFER_MAGIC) as ->.
    { change 2 with (1 + 1). rewrite <- (zsub_join (ztake n s) 0 1 1 1) by lia. rewrite (zsub_one _ _ _ E0), (zsub_one _ _ _ E1). done. }
    cbn [andb Z.eqb]. rewrite !Z.eqb_refl. cbn [andb]. eexists. split; [done|]. unfold frame_at. cbn [payload]. fold (declared (ztake n s)). zl. }
  apply inferwire_decode_some in Ef as [Hok [tl Etl]]; [|done]. exists f. split; [done|]. rewrite Etl. pose proof (f_equal zlen Etl) as Hz.
  rewrite zlen_app, wire_bytes_length in Hz by done. pose proof (zlen_nonneg tl). assert (zlen tl = 0) as ->%zlen_0 by lia. apply app_nil_r.
Qed.

Lemma parses_frames l ws rest : parses l ws rest -> bytes l -> Forall (fun w => exists f, frame_ok f /\ w = wire_bytes f) ws.
Proof.
  intros H. induction H as [l Hw|l n ws rest Hw H IH]; intros Hb; [constructor|].
  destruct (settle_suffix l) as [pre Hpre]. rewrite Hpre in Hb. apply Forall_app in Hb as [_ Hb].
  apply Forall_cons. split; [|apply IH; by apply zdrop_bytes]. apply window_frame; [done | | done].
  destruct (settle_cases l) as [E|Hp]; [|done]. rewrite E in Hw. done.
Qed.

(** Noise in front of a frame: no byte of it begins the magic. *)
Definition quiet (l : list Z) : Prop := bytes l /\ Forall (fun x => x <> magic_lo) l.
Fixpoint noisy (xs : list (list Z * InferFrame)) (last : list Z) : list Z :=
  match xs with
  | [] => last
  | (g, f) :: xs => g ++ wire_bytes f ++ noisy xs last
  end.

Lemma parses_noisy xs last : Forall (fun x => quiet (fst x) /\ frame_ok (snd x)) xs -> quiet last ->
  parses (noisy xs last) (map (fun x => wire_bytes (snd x)) xs) [].
Proof.
  intros Hxs [Hlb Hl]. induction Hxs as [|[g f] xs [[_ Hg] Hf] _ IH]; cbn [noisy map fst snd] in *.
  - pose proof (settle_skip_many last [] Hl) as E. rewrite app_nil_r in E. cbn [settle] in E. pose proof (parses_stop last) as H. rewrite E in H. by apply H.
  - destruct (wire_bytes_plausible f (noisy xs last) Hf) as [Hp Hw].
    assert (settle (g ++ wire_bytes f ++ noisy xs last) = wire_bytes f ++ noisy xs last) as E by (rewrite settle_skip_many by done; by apply settle_plausible).
    pose proof (parses_frame (g ++ wire_bytes f ++ noisy xs last) (zlen (wire_bytes f)) (map (fun x => wire_bytes (snd x)) xs) []) as H.
    rewrite E, ztake_app_eq, zdrop_app_eq in H by done. by apply H.
Qed.

Lemma noisy_bytes xs last : Forall (fun x => quiet (fst x) /\ frame_ok (snd x)) xs -> quiet last -> bytes (noisy xs last).
Proof.
  intros Hxs [Hlb _]. induction Hxs as [|[g f] xs [[Hg _] Hf] _ IH]; cbn [noisy]; [done|].
  apply Forall_app_2; [done|]. apply Forall_app_2; [by apply wire_bytes_bytes | done].
Qed.

Lemma new_holds CAP : 0 <= CAP -> holds CAP (new CAP) [].
Proof. intros HC. split; cbn [new buf len]; [rewrite zlen_zrepeat; lia | done | by eexists]. Qed.

Lemma parses_det l ws rest : parses l ws rest -> forall ws' rest', parses l ws' rest' -> ws' = ws /\ rest' = rest.
Proof.
  induction 1 as [l Hw|l n ws rest Hw _ IH]; intros ws' rest' H'; inversion H' as [l' Hw'|l' n' ws'' rest'' Hw' H'']; subst; try congruence; [done|].
  assert (n' = n) as -> by congruence. by destruct (IH _ _ H'') as [-> ->].
Qed.

Lemma decode_wire f : frame_ok f -> decode (wire_bytes f) = Val (Some f).
Proof.
  intros Hf. apply inferwire_decode_some; [by apply wire_bytes_bytes|]. split; [done|]. exists []. by rewrite app_nil_r.
Qed.

Lemma noisy_windows CAP xs last a : INFER_ACCUM_CAP <= CAP -> holds CAP a [] -> Forall (fun x => quiet (fst x) /\ frame_ok (snd x)) xs -> quiet last ->
  runs (reframe a (noisy xs last)) (fun '(a', ws) => holds CAP a' [] /\ ws = map (fun x => wire_bytes (snd x)) xs).
Proof.
  intros HC Ha Hxs Hl. eapply runs_mono; [apply (reframe_runs CAP _ HC (noisy_bytes xs last Hxs Hl) a []); [done | constructor | by split]|].
  intros [a' ws] (rest & Hh & _ & _ & Hp). cbn [app] in Hp. by destruct (parses_det _ _ _ Hp _ _ (parses_noisy xs last Hxs Hl)) as [<- <-].
Qed.

Lemma decode_wires fs : Forall frame_ok fs -> mapM decode (map wire_bytes fs) = Val (map Some fs).
Proof.
  intros Hfs. induction Hfs as [|f fs Hf _ IH]; [done|]. cbn [map].
  change (mapM decode (wire_bytes f :: map wire_bytes fs)) with (y ← decode (wire_bytes f); k ← mapM decode (map wire_bytes fs); Val (y :: k)).
  by rewrite decode_wire, bind_val, IH.
Qed.

(** ** Properties *)

(** C20: the accumulator frames a byte stream.  Whatever bytes arrive, one at a time, reading
    never panics or overflows; what the reader has taken and still holds is what parsing the
    whole stream at once gives, so the grouping of the bytes does not matter, and every window
    it takes is the encoding of a well-formed frame, which [decode] returns. *)
Theorem accum_is_stream_parser CAP l : INFER_ACCUM_CAP <= CAP -> bytes l ->
  runs (reframe (new CAP) l) (fun '(a, ws) => exists rest, holds CAP a rest /\ parses l ws rest /\ zlen rest < INFER_ACCUM_CAP /\
    (forall ws' rest', parses l ws' rest' -> ws' = ws /\ rest' = rest) /\
    Forall (fun w => exists f, frame_ok f /\ w = wire_bytes f /\ decode w = Val (Some f)) ws).
Proof.
  intros HC Hb. assert (0 <= CAP) as HC0 by (change INFER_ACCUM_CAP with 1090 in HC; lia).
  eapply runs_mono; [apply (reframe_runs CAP l HC Hb (new CAP) []); [by apply new_holds | constructor | by split]|].
  intros [a ws] (rest & Hh & Hst & _ & Hp). exists rest. split; [done|]. split; [exact Hp|]. split; [by apply stuck_short|].
  split; [by apply parses_det|]. eapply Forall_impl; [by apply (parses_frames _ _ _ Hp)|]. intros w (f & Hf & ->). exists f. split; [done|]. split; [done|]. by apply decode_wire.
Qed.

(** Frames get through noise.  A stream of well-formed frames with any bytes before, between
    and after them that are not the first byte of the magic yields exactly those frames, in
    order, and leaves the accumulator empty. *)
Theorem noisy_frames_delivered CAP xs last : INFER_ACCUM_CAP <= CAP -> Forall (fun x => quiet (fst x) /\ frame_ok (snd x)) xs -> quiet last ->
  runs (reframe (new CAP) (noisy xs last)) (fun '(a, ws) => len a = 0 /\ mapM decode ws = Val (map (fun x => Some (snd x)) xs)).
Proof.
  intros HC Hxs Hl. assert (0 <= CAP) as HC0 by (change INFER_ACCUM_CAP with 1090 in HC; lia).
  eapply runs_mono; [by apply (noisy_windows CAP xs last (new CAP) HC); [apply new_holds|..]|].
  intros [a ws] [Hh ->]. split; [by rewrite (h_len _ _ _ Hh)|]. rewrite <- (map_map snd wire_bytes), decode_wires, map_map; [done|].
  apply Forall_fmap. eapply Forall_impl; [exact Hxs|]. by intros x [_ ?].
Qed.

(** ** Witnesses *)

Definition demo_frame : InferFrame := mkFrame ECHO_REQ 7 (zrepeat 16 1) (zrepeat 16 0) 0 (zrepeat 16 0) [1; 2; 3].

Lemma demo_frame_ok : frame_ok demo_frame.
Proof.
  split; cbn [demo_frame kind req_id challenge nonce peer_id tag payload]; try done; try (split; [by vm_compute|]); try (apply zrepeat_Forall); unfold in_u; try lia.
  repeat (apply Forall_cons; split; [unfold in_u; lia|]). apply Forall_nil. exact I.
Qed.

Lemma accum_is_stream_parser_witness : exists a ws, reframe (new INFER_ACCUM_CAP) (wire_bytes demo_frame) = Val (a, ws) /\
  Forall (fun w => exists f, frame_ok f /\ w = wire_bytes f /\ decode w = Val (Some f)) ws.
Proof.
  destruct (accum_is_stream_parser INFER_ACCUM_CAP (wire_bytes demo_frame)) as ([a ws] & E & rest & _ & _ & _ & _ & Hf).
  - reflexivity.
  - apply wire_bytes_bytes, demo_frame_ok.
  - exists a, ws. split; [exact E | exact Hf].
Defined.

Lemma noisy_frames_delivered_witness : exists a ws, reframe (new INFER_ACCUM_CAP) (noisy [([5; 89], demo_frame)] [0]) = Val (a, ws) /\
  mapM decode ws = Val [Some demo_frame].
Proof.
  destruct (noisy_frames_delivered INFER_ACCUM_CAP [([5; 89], demo_frame)] [0]) as ([a ws] & E & _ & Hd).
  - reflexivity.
  - apply Forall_singleton. split; [|apply demo_frame_ok].
    split; repeat (apply Forall_cons; split; [first [discriminate | unfold in_u; lia]|]); apply Forall_nil; exact I.
  - split; apply Forall_singleton; [unfold in_u; lia | discriminate].
  - exists a, ws. split; [exact E | exact Hd].
Defined.
