(* ===== verification/InferChunks.v ===== *)
(** * Chunked inference bodies: [crates/tb-encode/src/inferwire.rs], the M31 half.

    A body larger than a frame travels as chunks, each with a sub-header and a tag over every
    field that says where the chunk belongs; the assembler puts the chunks together again and
    answers only for the body the sub-headers committed to.  The error payload is a closed
    set of codes. *)
From Stdlib Require Import ZArith Lia.
From stdpp Require Import base numbers option tactics sets list.
From S2P Require Import Prelude Khash Inferwire.
Open Scope Z_scope.

Definition INFER_BODY_CAP : Z := 8192.
Definition INFER_SUBHDR_LEN : Z := 24.
Definition INFER_CHUNK_CAP : Z := INFER_PAYLOAD_CAP - INFER_SUBHDR_LEN.
Definition INFER_BODY_DIGEST_LEN : Z := 16.
Definition SFLAG_MORE : Z := 0x01.
(** [b"YUVA-M31-INFER-V1"], from the brand crate. *)
Definition INFER_DOMAIN : list Z := [89; 85; 86; 65; 45; 77; 51; 49; 45; 73; 78; 70; 69; 82; 45; 86; 49].
Definition INFER_ERR_PAYLOAD_LEN : Z := 4.

(** ** Error payloads *)

Definition NO_BACKEND : Z := 1.
Definition NO_KEY : Z := 2.
Definition TOO_LARGE : Z := 3.
Definition RATE_LIMITED : Z := 4.
Definition OVERLOADED : Z := 5.
Definition API_ERROR : Z := 6.
Definition AUTH : Z := 7.
Definition BAD_REQUEST : Z := 8.
Definition REFUSAL : Z := 9.
Definition TIMEOUT : Z := 10.

Definition err_code_known (code : Z) : bool :=
  (code =? NO_BACKEND) || (code =? NO_KEY) || (code =? TOO_LARGE) || (code =? RATE_LIMITED) || (code =? OVERLOADED) ||
  (code =? API_ERROR) || (code =? AUTH) || (code =? BAD_REQUEST) || (code =? REFUSAL) || (code =? TIMEOUT).
Definition err_retryable (code : Z) : bool :=
  (code =? RATE_LIMITED) || (code =? OVERLOADED) || (code =? API_ERROR) || (code =? TIMEOUT).

Definition err_canon (code : Z) (out : list Z) : res (list Z * Z) :=
  if negb (err_code_known code) || (zlen out <? INFER_ERR_PAYLOAD_LEN) then Val (out, 0) else
  out ← write_u16 out 0 code;
  out ← upd out 2 (Z.b2z (err_retryable code));
  out ← upd out 3 0;
  Val (out, INFER_ERR_PAYLOAD_LEN).

Definition err_decode (payload : list Z) : res (option (Z * bool)) :=
  if negb (zlen payload =? INFER_ERR_PAYLOAD_LEN) then Val None else
  code ← read_u16 payload 0;
  if negb (err_code_known code) then Val None else
  rsv ← idx payload 3;
  if negb (rsv =? 0) then Val None else
  let retryable := err_retryable code in
  r ← idx payload 2;
  if negb (r =? Z.b2z retryable) then Val None else
  Val (Some (code, retryable)).

(** ** Sub-headers *)

Record SubHdr := mkSub { seq : Z; more : bool; total_len : Z; body_digest_of : list Z }.

Definition empty : SubHdr := mkSub 0 false 0 (zrepeat INFER_BODY_DIGEST_LEN 0).
Definition sflags (s : SubHdr) : Z := Z.b2z (more s).

Definition subhdr_canon (sub : SubHdr) (out : list Z) : res (list Z * Z) :=
  if zlen out <? INFER_SUBHDR_LEN then Val (out, 0) else
  if (total_len sub =? 0) || (INFER_BODY_CAP <? total_len sub) then Val (out, 0) else
  out ← write_u16 out 0 (seq sub);
  out ← upd out 2 (sflags sub);
  out ← upd out 3 0;
  out ← write_u32 out 4 (total_len sub);
  out ← copy_loop INFER_BODY_DIGEST_LEN (body_digest_of sub) 8 out;
  Val (out, INFER_SUBHDR_LEN).

Definition subhdr_decode (buf : list Z) : res (option SubHdr) :=
  if zlen buf <? INFER_SUBHDR_LEN then Val None else
  sf ← idx buf 2;
  if negb (Z.land sf (bit_not 8 SFLAG_MORE) =? 0) then Val None else
  rsv ← idx buf 3;
  if negb (rsv =? 0) then Val None else
  tl ← read_u32 buf 4;
  if (tl =? 0) || (INFER_BODY_CAP <? tl) then Val None else
  dig ← copy_in INFER_BODY_DIGEST_LEN buf 8 (zrepeat INFER_BODY_DIGEST_LEN 0);
  sq ← read_u16 buf 0;
  Val (Some (mkSub sq (negb (Z.land sf SFLAG_MORE =? 0)) tl dig)).

Definition body_digest (body : list Z) : res (list Z) :=
  full ← uhash body; copy_in INFER_BODY_DIGEST_LEN full 0 (zrepeat INFER_BODY_DIGEST_LEN 0).

(** ** Tags *)

Definition INFER_MSG_CAP : Z :=
  zlen INFER_DOMAIN + 1 + INFER_NONCE_LEN + INFER_CHALLENGE_LEN + 8 + 1 + 2 + 1 + 4 + INFER_BODY_DIGEST_LEN + INFER_CHUNK_CAP.

Definition infer_tag (key : list Z) (peer_id : Z) (nonce challenge : list Z) (req_id kind_tag : Z) (sub : SubHdr) (chunk : list Z) : res (list Z) :=
  let clen := if INFER_CHUNK_CAP <? zlen chunk then INFER_CHUNK_CAP else zlen chunk in
  let msg := zrepeat INFER_MSG_CAP 0 in
  let o := 0 in
  msg ← copy_loop (zlen INFER_DOMAIN) INFER_DOMAIN o msg; let o := o + zlen INFER_DOMAIN in
  msg ← upd msg o peer_id; let o := o + 1 in
  msg ← copy_loop INFER_NONCE_LEN nonce o msg; let o := o + INFER_NONCE_LEN in
  msg ← copy_loop INFER_CHALLENGE_LEN challenge o msg; let o := o + INFER_CHALLENGE_LEN in
  msg ← copy_loop 8 (to_le 8 req_id) o msg; let o := o + 8 in
  msg ← upd msg o kind_tag; let o := o + 1 in
  let sq := to_le 2 (seq sub) in
  b0 ← idx sq 0; msg ← upd msg o b0;
  b1 ← idx sq 1; msg ← upd msg (o + 1) b1; let o := o + 2 in
  msg ← upd msg o (sflags sub); let o := o + 1 in
  msg ← copy_loop 4 (to_le 4 (total_len sub)) o msg; let o := o + 4 in
  msg ← copy_loop INFER_BODY_DIGEST_LEN (body_digest_of sub) o msg; let o := o + INFER_BODY_DIGEST_LEN in
  msg ← copy_loop clen chunk o msg; let o := o + clen in
  m ← slice msg 0 o;
  full ← khash key m;
  copy_in INFER_TAG_LEN full 0 (zrepeat INFER_TAG_LEN 0).

Definition infer_payload_parts (kind_tag : Z) (payload : list Z) : res (option (SubHdr * list Z)) :=
  if (kind_tag =? INFER_REQ) || (kind_tag =? INFER_RESP) then
    s ← subhdr_decode payload;
    match s with
    | None => Val None
    | Some sub =>
        chunk ← slice payload INFER_SUBHDR_LEN (zlen payload);
        if zlen chunk =? 0 then Val None else Val (Some (sub, chunk))
    end
  else if kind_tag =? INFER_PENDING then
    if negb (zlen payload =? 0) then Val None else Val (Some (empty, payload))
  else if kind_tag =? ERR then
    e ← err_decode payload;
    Val (match e with None => None | Some _ => Some (empty, payload) end)
  else Val None.

Definition verify_infer_resp (key : list Z) (frame : InferFrame) (req_id_ : Z) (challenge_ : list Z) : res (option (SubHdr * list Z)) :=
  if negb ((kind frame =? INFER_RESP) || (kind frame =? INFER_PENDING) || (kind frame =? ERR)) then Val None else
  if negb (req_id frame =? req_id_) then Val None else
  if negb (bool_decide (challenge frame = challenge_)) then Val None else
  p ← infer_payload_parts (kind frame) (payload frame);
  match p with
  | None => Val None
  | Some (sub, chunk) =>
      expect ← infer_tag key (peer_id frame) (nonce frame) challenge_ req_id_ (kind frame) sub chunk;
      Val (if bool_decide (expect = tag frame) then Some (sub, chunk) else None)
  end.

Definition verify_infer_req (key : list Z) (frame : InferFrame) : res (option (SubHdr * list Z)) :=
  if negb (kind frame =? INFER_REQ) then Val None else
  if negb (bool_decide (nonce frame = zrepeat INFER_NONCE_LEN 0)) || negb (peer_id frame =? 0) then Val None else
  p ← infer_payload_parts (kind frame) (payload frame);
  match p with
  | None => Val None
  | Some (sub, chunk) =>
      expect ← infer_tag key (peer_id frame) (nonce frame) (challenge frame) (req_id frame) (kind frame) sub chunk;
      Val (if bool_decide (expect = tag frame) then Some (sub, chunk) else None)
  end.

(** ** The assembler *)

Inductive AsmPush := Accepted | Complete (n : Z) | Rejected.

(** [InferAssembler<CAP>]: [CAP] is the length of [a_buf]. *)
Record InferAssembler := mkAsm {
  a_buf : list Z;
  a_len : Z;
  next_seq : Z;
  a_total : Z;
  a_digest : list Z;
  started : bool;
  is_done : bool;
  poisoned : bool;
}.

Definition asm_new (CAP : Z) : InferAssembler := mkAsm (zrepeat CAP 0) 0 0 0 (zrepeat INFER_BODY_DIGEST_LEN 0) false false false.
Definition asm_body (a : InferAssembler) : res (list Z) := slice (a_buf a) 0 (a_len a).
Definition poison (a : InferAssembler) : InferAssembler :=
  mkAsm (a_buf a) (a_len a) (next_seq a) (a_total a) (a_digest a) (started a) (is_done a) true.

(** May the chunk's sub-header come next? *)
Definition in_order (a : InferAssembler) (sub : SubHdr) : bool :=
  if negb (started a) then
    negb (negb (seq sub =? 0) || (total_len sub =? 0) || (INFER_BODY_CAP <? total_len sub) || (zlen (a_buf a) <? total_len sub))
  else
    negb (negb (seq sub =? next_seq a) || negb (total_len sub =? a_total a) || negb (bool_decide (body_digest_of sub = a_digest a))).

(** The first chunk fixes the sequence's length and digest. *)
Definition lock (a : InferAssembler) (sub : SubHdr) : InferAssembler :=
  if negb (started a) then mkAsm (a_buf a) (a_len a) (next_seq a) (total_len sub) (body_digest_of sub) true (is_done a) (poisoned a) else a.

Definition push_chunk (a : InferAssembler) (sub : SubHdr) (chunk : list Z) : res (InferAssembler * AsmPush) :=
  if poisoned a || is_done a then Val (a, Rejected) else
  let total := total_len sub in
  if negb (in_order a sub) then Val (poison a, Rejected) else
  if (zlen chunk =? 0) || (INFER_CHUNK_CAP <? zlen chunk) then Val (poison a, Rejected) else
  match checked_add usize_bits (a_len a) (zlen chunk) with
  | None => Val (poison a, Rejected)
  | Some new_len =>
      if negb (new_len <=? total) then Val (poison a, Rejected) else
      if more sub && (total <=? new_len) then Val (poison a, Rejected) else
      if negb (more sub) && negb (new_len =? total) then Val (poison a, Rejected) else
      let a := lock a sub in
      bf ← copy_loop (zlen chunk) chunk (a_len a) (a_buf a);
      let a := mkAsm bf new_len (wrapping_add 16 (next_seq a) 1) (a_total a) (a_digest a) (started a) (is_done a) (poisoned a) in
      if more sub then Val (a, Accepted) else
      b ← slice (a_buf a) 0 (a_len a);
      dg ← body_digest b;
      if negb (bool_decide (dg = a_digest a)) then Val (poison a, Rejected) else
      Val (mkAsm (a_buf a) (a_len a) (next_seq a) (a_total a) (a_digest a) (started a) true (poisoned a), Complete (a_len a))
  end.

Definition infer_chunk_count (total : Z) : Z :=
  if (total =? 0) || (INFER_BODY_CAP <? total) then 0 else (total + INFER_CHUNK_CAP - 1) / INFER_CHUNK_CAP.
Definition infer_chunks_wire_len (total : Z) : Z :=
  let n := infer_chunk_count total in
  if n =? 0 then 0 else n * (INFER_HEADER_LEN + INFER_SUBHDR_LEN) + total.

(** ** Lemmas: codecs *)

Definition err_bytes (code : Z) : list Z := to_le 2 code ++ [Z.b2z (err_retryable code); 0].

Lemma err_code_range code : err_code_known code = true -> 1 <= code <= 10.
Proof.
  unfold err_code_known, NO_BACKEND, NO_KEY, TOO_LARGE, RATE_LIMITED, OVERLOADED, API_ERROR, AUTH, BAD_REQUEST, REFUSAL, TIMEOUT.
  rewrite !orb_true_iff, !Z.eqb_eq. lia.
Qed.

Lemma err_canon_eq code out : err_code_known code = true -> INFER_ERR_PAYLOAD_LEN <= zlen out ->
  err_canon code out = Val (err_bytes code ++ zdrop 4 out, 4).
Proof.
  intros Hk Hl. unfold err_canon. rewrite Hk, (proj2 (Z.ltb_ge _ _)) by done. cbn [negb orb]. unfold INFER_ERR_PAYLOAD_LEN, write_u16 in *. cbv zeta.
  change out with ([] ++ zdrop 0 out) at 1. writes. unfold err_bytes. by rewrite <- !app_assoc.
Qed.

Lemma err_decode_exact p : bytes p -> forall code r,
  err_decode p = Val (Some (code, r)) <-> err_code_known code = true /\ r = err_retryable code /\ p = err_bytes code.
Proof.
  intros Hb code r. split.
  - unfold err_decode. destruct (Z.eqb_spec (zlen p) INFER_ERR_PAYLOAD_LEN) as [Hl|]; [|done]. unfold INFER_ERR_PAYLOAD_LEN in Hl. cbn [negb].
    unfold read_u16. gather_tac 0 2%nat. rewrite !bind_val. set (c := of_le (zsub 0 2 p)). destruct (err_code_known c) eqn:Hk; [|done]. cbn [negb].
    destruct (idx_ok p 3) as [x3 E3]; [lia|]. destruct (idx_ok p 2) as [x2 E2]; [lia|]. rewrite E3, bind_val.
    destruct (Z.eqb_spec x3 0) as [->|]; [|done]. cbn [negb]. rewrite E2, bind_val. destruct (Z.eqb_spec x2 (Z.b2z (err_retryable c))) as [->|]; [|done].
    cbn [negb]. intros [= <- <-]. split; [done|]. split; [done|]. unfold err_bytes. subst c.
    rewrite (to_of_le_n 2) by first [by apply zsub_bytes | zl]. change [Z.b2z (err_retryable (of_le (zsub 0 2 p))); 0] with ([Z.b2z (err_retryable (of_le (zsub 0 2 p)))] ++ [0]).
    rewrite <- (zsub_one _ _ _ E2), <- (zsub_one _ _ _ E3). rewrite !zsub_join by lia. symmetry. by apply zsub_all.
  - intros (Hk & -> & ->). pose proof (err_code_range code Hk) as Hr. unfold err_decode. assert (zlen (err_bytes code) = 4) as Hl by done. rewrite Hl. cbn [Z.eqb Pos.eqb negb INFER_ERR_PAYLOAD_LEN].
    unfold read_u16. gather_tac 0 2%nat. rewrite !bind_val.
    assert (zsub 0 2 (err_bytes code) = to_le 2 code) as -> by done. rewrite of_to_le_id by (unfold in_u; lia). rewrite Hk. cbn [negb].
    change (idx (err_bytes code) 3) with (Val 0). rewrite bind_val. cbn [Z.eqb negb]. change (idx (err_bytes code) 2) with (Val (Z.b2z (err_retryable code))).
    rewrite bind_val, Z.eqb_refl. done.
Qed.

Lemma err_decode_runs p : bytes p -> exists r, err_decode p = Val r.
Proof.
  intros Hb. unfold err_decode. destruct (Z.eqb_spec (zlen p) INFER_ERR_PAYLOAD_LEN) as [Hl|]; [|by eexists]. unfold INFER_ERR_PAYLOAD_LEN in Hl. cbn [negb].
  unfold read_u16. gather_tac 0 2%nat. rewrite !bind_val. destruct (err_code_known _); [|by eexists]. cbn [negb].
  destruct (idx_ok p 3) as [x3 E3]; [lia|]. destruct (idx_ok p 2) as [x2 E2]; [lia|]. rewrite E3, bind_val. destruct (x3 =? 0); [|by eexists]. cbn [negb].
  rewrite E2, bind_val. destruct (x2 =? _); by eexists.
Qed.

Record subhdr_ok (s : SubHdr) : Prop := {
  so_seq : is_u16 (seq s);
  so_total : 1 <= total_len s <= INFER_BODY_CAP;
  so_digest : zlen (body_digest_of s) = INFER_BODY_DIGEST_LEN /\ bytes (body_digest_of s);
}.
Definition subhdr_bytes (s : SubHdr) : list Z := to_le 2 (seq s) ++ [sflags s; 0] ++ to_le 4 (total_len s) ++ body_digest_of s.

Lemma subhdr_bytes_length s : subhdr_ok s -> zlen (subhdr_bytes s) = 24.
Proof. intros [_ _ [Hd _]]. unfold subhdr_bytes, INFER_BODY_DIGEST_LEN in *. zlen_const. Qed.

Lemma subhdr_bytes_bytes s : subhdr_ok s -> bytes (subhdr_bytes s).
Proof.
  intros [_ _ [_ Hd]]. unfold subhdr_bytes. apply Forall_app_2; [apply to_le_bytes|]. apply Forall_app_2; [|apply Forall_app_2; [apply to_le_bytes | done]].
  apply Forall_cons. split; [unfold sflags, in_u; destruct (more s); cbn; lia|]. apply Forall_singleton. unfold in_u. lia.
Qed.

Lemma subhdr_canon_eq s out : subhdr_ok s -> INFER_SUBHDR_LEN <= zlen out -> subhdr_canon s out = Val (subhdr_bytes s ++ zdrop 24 out, 24).
Proof.
  intros [_ Ht [Hd _]] Hl. unfold subhdr_canon. rewrite (proj2 (Z.ltb_ge _ _)) by done. rewrite (proj2 (Z.eqb_neq _ 0)), (proj2 (Z.ltb_ge _ _)) by lia. cbn [orb].
  unfold INFER_SUBHDR_LEN, INFER_BODY_DIGEST_LEN, write_u16, write_u32 in *. cbv zeta. change out with ([] ++ zdrop 0 out) at 1. writes.
  unfold subhdr_bytes. by rewrite <- !app_assoc.
Qed.

Lemma flags_bit x : is_u8 x -> if Z.land x (bit_not 8 SFLAG_MORE) =? 0 then x = Z.b2z (negb (Z.land x SFLAG_MORE =? 0)) else True.
Proof.
  intros Hx. pose proof (byte_forall (fun b => if Z.land b (bit_not 8 SFLAG_MORE) =? 0 then b =? Z.b2z (negb (Z.land b SFLAG_MORE =? 0)) else true) x) as H.
  specialize (H ltac:(by vm_compute) Hx). cbv beta in H. destruct (_ =? 0); [by apply Z.eqb_eq | done].
Qed.

(** Decoding a sub-header is exactly parsing it. *)
Lemma subhdr_decode_exact buf : bytes buf -> forall s, subhdr_decode buf = Val (Some s) <-> subhdr_ok s /\ exists tl, buf = subhdr_bytes s ++ tl.
Proof.
  intros Hb s. split.
  - unfold subhdr_decode. destruct (Z.ltb_spec (zlen buf) INFER_SUBHDR_LEN) as [|Hl]; [done|]. unfold INFER_SUBHDR_LEN, INFER_BODY_DIGEST_LEN in *.
    destruct (idx_ok buf 2) as [x2 E2]; [lia|]. destruct (idx_ok buf 3) as [x3 E3]; [lia|]. rewrite E2, bind_val.
    assert (is_u8 x2) as H2 by (apply idx_val_inv in E2 as [_ E2]; rewrite Forall_lookup in Hb; apply (Hb _ _ E2)). pose proof (flags_bit x2 H2) as Hf.
    destruct (Z.land x2 (bit_not 8 SFLAG_MORE) =? 0); [|done]. cbn [negb]. rewrite E3, bind_val. destruct (Z.eqb_spec x3 0) as [->|]; [|done]. cbn [negb].
    unfold read_u16, read_u32. gather_tac 4 4%nat. rewrite !bind_val. pose proof (field_in_u buf 4 4 Hb ltac:(lia) ltac:(lia) ltac:(lia)) as Ht.
    destruct (Z.eqb_spec (of_le (zsub 4 4 buf)) 0) as [|Hne]; [done|]. destruct (Z.ltb_spec INFER_BODY_CAP (of_le (zsub 4 4 buf))) as [|Hle]; [done|]. cbn [orb].
    rewrite (copy_in_ok 16 buf 8), bind_val by zl. rewrite (zdrop_all 16), app_nil_r by zl. gather_tac 0 2%nat. rewrite !bind_val. intros [= <-]. split.
    + split; cbn [seq total_len body_digest_of]; [apply (field_in_u buf 0 2 Hb); lia | unfold in_u in Ht; lia | split; [unfold INFER_BODY_DIGEST_LEN; zl | by apply zsub_bytes]].
    + exists (zdrop 24 buf). unfold subhdr_bytes, sflags. cbn [seq total_len body_digest_of more]. rewrite <- Hf.
      rewrite (to_of_le_n 2), (to_of_le_n 4) by first [by apply zsub_bytes | zl]. change [x2; 0] with ([x2] ++ [0]).
      rewrite <- (zsub_one _ _ _ E2), <- (zsub_one _ _ _ E3), <- !app_assoc.
      replace (zdrop 24 buf) with (zsub 24 (zlen buf - 24) buf) by (unfold zsub; apply ztake_all; zl).
      rewrite !zsub_join by lia. symmetry. apply zsub_all. lia.
  - intros [Hok [tl ->]]. pose proof (subhdr_bytes_length s Hok) as Hl. pose proof Hok as [Hs Ht [Hd _]]. pose proof (zlen_nonneg tl). pose proof (zlen_app (subhdr_bytes s) tl) as Hlen. unfold INFER_BODY_CAP, INFER_BODY_DIGEST_LEN in *.
    unfold subhdr_decode, INFER_SUBHDR_LEN, INFER_BODY_DIGEST_LEN. rewrite (proj2 (Z.ltb_ge _ _)) by (rewrite zlen_app; lia).
    change (idx (subhdr_bytes s ++ tl) 2) with (Val (sflags s)). rewrite bind_val.
    assert (Z.land (sflags s) (bit_not 8 SFLAG_MORE) = 0) as -> by (unfold sflags; by destruct (more s)). cbn [Z.eqb negb].
    change (idx (subhdr_bytes s ++ tl) 3) with (Val 0). rewrite bind_val. cbn [Z.eqb negb].
    unfold read_u16, read_u32. gather_tac 4 4%nat. rewrite !bind_val.
    assert (zsub 4 4 (subhdr_bytes s ++ tl) = to_le 4 (total_len s)) as -> by (unfold subhdr_bytes; rewrite <- !app_assoc; by fields).
    rewrite of_to_le_id by (unfold in_u; lia). rewrite (proj2 (Z.eqb_neq _ 0)), (proj2 (Z.ltb_ge INFER_BODY_CAP _)) by (unfold INFER_BODY_CAP; lia). cbn [orb].
    rewrite (copy_in_ok 16 (subhdr_bytes s ++ tl) 8), bind_val by zl. rewrite (zdrop_all 16), app_nil_r by zl. gather_tac 0 2%nat. rewrite !bind_val.
    assert (zsub 0 2 (subhdr_bytes s ++ tl) = to_le 2 (seq s)) as -> by (unfold subhdr_bytes; rewrite <- !app_assoc; by fields).
    assert (zsub 8 16 (subhdr_bytes s ++ tl) = body_digest_of s) as -> by (unfold subhdr_bytes; rewrite <- !app_assoc; by fields).
    rewrite of_to_le_id by done. destruct s as [sq mo tt dg]. cbn. do 2 f_equal. by destruct mo.
Qed.

Lemma subhdr_decode_runs buf : bytes buf -> exists r, subhdr_decode buf = Val r.
Proof.
  intros Hb. unfold subhdr_decode. destruct (Z.ltb_spec (zlen buf) INFER_SUBHDR_LEN) as [|Hl]; [by eexists|]. unfold INFER_SUBHDR_LEN, INFER_BODY_DIGEST_LEN in *.
  destruct (idx_ok buf 2) as [x2 E2]; [lia|]. destruct (idx_ok buf 3) as [x3 E3]; [lia|]. rewrite E2, bind_val. destruct (_ =? 0); [|by eexists]. cbn [negb].
  rewrite E3, bind_val. destruct (x3 =? 0); [|by eexists]. cbn [negb]. unfold read_u16, read_u32. gather_tac 4 4%nat. rewrite !bind_val.
  destruct (_ || _); [by eexists|]. rewrite (copy_in_ok 16 buf 8), bind_val by zl. gather_tac 0 2%nat. rewrite !bind_val. by eexists.
Qed.

(** ** Lemmas: tags *)

(** The tagged bytes: the label, every field of fixed width, then the chunk. *)
Definition infer_msg (peer : Z) (nonce challenge : list Z) (req_id kind : Z) (s : SubHdr) (chunk : list Z) : list Z :=
  INFER_DOMAIN ++ [peer] ++ nonce ++ challenge ++ to_le 8 req_id ++ [kind] ++ to_le 2 (seq s) ++ [sflags s] ++ to_le 4 (total_len s) ++
  body_digest_of s ++ chunk.

Lemma infer_tag_eq key peer nonce challenge req_id kind s chunk : zlen key = KHASH_KEY_LEN -> zlen nonce = 16 -> zlen challenge = 16 ->
  zlen (body_digest_of s) = 16 -> zlen chunk <= INFER_CHUNK_CAP ->
  infer_tag key peer nonce challenge req_id kind s chunk =
    (full ← khash key (infer_msg peer nonce challenge req_id kind s chunk); Val (ztake 16 full)).
Proof.
  intros Hk Hn Hc Hd Hb. unfold infer_tag. rewrite (proj2 (Z.ltb_ge _ _)) by done. change INFER_CHUNK_CAP with 1000 in *. pose proof (zlen_nonneg chunk).
  unfold INFER_NONCE_LEN, INFER_CHALLENGE_LEN, INFER_TAG_LEN, INFER_BODY_DIGEST_LEN in *. cbv zeta. change (zlen INFER_DOMAIN) with 17. change INFER_MSG_CAP with 1082.
  assert (zlen INFER_DOMAIN = 17) as Hdom by done. assert (zlen (zrepeat 1082 0) = 1082) as Hz by done. set (z := zrepeat 1082 0) in *. change z with ([] ++ zdrop 0 z). clearbody z.
  writes. rewrite (copy_ascend (zlen chunk) chunk _ _ 82 z (82 + zlen chunk)) by first [zlen_const | zl]. rewrite bind_val, slice_ok by zl.
  match goal with |- context [zsub 0 ?n (?l ++ zdrop ?k z)] => assert (zsub 0 n (l ++ zdrop k z) = l) as -> end.
  { unfold zsub. rewrite zdrop_0. apply ztake_app_eq. zl. }
  rewrite bind_val. unfold infer_msg. rewrite <- !app_assoc. cbn [app].
  eapply runs_eq; [by apply khash_digest|]. intros full [Hf _]. rewrite copy_in_ok by zl. by rewrite zdrop_all, app_nil_r by zl.
Qed.

Lemma infer_msg_inj peer nonce ch rid k s c peer' nonce' ch' rid' k' s' c' :
  zlen nonce = 16 -> zlen nonce' = 16 -> zlen ch = 16 -> zlen ch' = 16 -> is_u64 rid -> is_u64 rid' ->
  is_u16 (seq s) -> is_u16 (seq s') -> is_u32 (total_len s) -> is_u32 (total_len s') -> zlen (body_digest_of s) = 16 -> zlen (body_digest_of s') = 16 ->
  infer_msg peer nonce ch rid k s c = infer_msg peer' nonce' ch' rid' k' s' c' ->
  peer = peer' /\ nonce = nonce' /\ ch = ch' /\ rid = rid' /\ k = k' /\ s = s' /\ c = c'.
Proof.
  intros Hn Hn' Hc Hc' Hr Hr' Hs Hs' Ht Ht' Hd Hd' E. unfold infer_msg in E. apply app_inv_head in E.
  apply zapp_inj in E as [Ep E]; [|done]. injection Ep as ->. apply zapp_inj in E as [-> E]; [|lia]. apply zapp_inj in E as [-> E]; [|lia].
  apply zapp_inj in E as [Er E]; [|done]. apply to_le8_inj in Er; [|done..]. subst rid'. apply zapp_inj in E as [Ek E]; [|done]. injection Ek as ->.
  apply zapp_inj in E as [Es E]; [|done]. apply to_le2_inj in Es; [|done..]. apply zapp_inj in E as [Ef E]; [|done]. injection Ef as Ef.
  apply zapp_inj in E as [Et E]; [|done]. apply to_le4_inj in Et; [|done..]. apply zapp_inj in E as [Ed ->]; [|lia].
  destruct s as [sq mo tt dg], s' as [sq' mo' tt' dg']. cbn [seq total_len body_digest_of more] in *. subst. unfold sflags in Ef. cbn [more] in Ef. by destruct mo, mo'.
Qed.

(** ** Lemmas: verification *)

(** What a payload of each kind carries. *)
Inductive has_parts : Z -> list Z -> SubHdr -> list Z -> Prop :=
  | parts_chunk k s c : k = INFER_REQ \/ k = INFER_RESP -> subhdr_ok s -> c <> [] -> has_parts k (subhdr_bytes s ++ c) s c
  | parts_pending : has_parts INFER_PENDING [] empty []
  | parts_err code : err_code_known code = true -> has_parts ERR (err_bytes code) empty (err_bytes code).

Lemma zlen_pos {A} (l : list A) : l <> [] -> 0 < zlen l.
Proof. destruct l; [done|]. intros _. rewrite zlen_cons. pose proof (zlen_nonneg l). lia. Qed.

Lemma has_parts_inv k p s c : has_parts k p s c ->
  ((k = INFER_REQ \/ k = INFER_RESP) /\ subhdr_ok s /\ c <> [] /\ p = subhdr_bytes s ++ c) \/
  (k = INFER_PENDING /\ p = [] /\ s = empty /\ c = []) \/
  (k = ERR /\ s = empty /\ c = p /\ exists code, err_code_known code = true /\ p = err_bytes code).
Proof. destruct 1 as [k s c Hk Hs Hc| |code Hk]; [left; done | right; left; done | right; right]. do 3 (split; [done|]). by exists code. Qed.

Ltac kinds := exfalso; unfold INFER_REQ, INFER_RESP, INFER_PENDING, ERR in *; lia.

Lemma parts_chunk_exact k p : bytes p -> k = INFER_REQ \/ k = INFER_RESP ->
  runs (s ← subhdr_decode p; match s with None => Val None | Some sub => chunk ← slice p INFER_SUBHDR_LEN (zlen p); if zlen chunk =? 0 then Val None else Val (Some (sub, chunk)) end)
    (fun r => forall s c, r = Some (s, c) <-> has_parts k p s c).
Proof.
  intros Hb Hk. assert (forall s c, has_parts k p s c <-> subhdr_ok s /\ c <> [] /\ p = subhdr_bytes s ++ c) as Hiff.
  { intros s c. split; [|intros (? & ? & ->); by apply parts_chunk]. intros [(_ & ?)|[(? & _)|(? & _)]]%has_parts_inv; [done | kinds | kinds]. }
  destruct (subhdr_decode_runs p Hb) as [[s0|] E]; rewrite E, bind_val.
  - pose proof E as E'. apply (subhdr_decode_exact p Hb) in E' as [Hok [tl Ep]]. pose proof (subhdr_bytes_length s0 Hok) as Hl. pose proof (zlen_nonneg tl) as Hnn.
    assert (forall s c, has_parts k p s c -> s = s0 /\ c = tl) as Hone.
    { intros s c (Hok' & _ & Ep')%Hiff. assert (subhdr_decode p = Val (Some s)) as D by (apply subhdr_decode_exact; [done | eauto]).
      rewrite E in D. injection D as <-. rewrite Ep in Ep'. by apply app_inv_head in Ep' as <-. }
    assert (slice p INFER_SUBHDR_LEN (zlen p) = Val tl) as ->.
    { unfold INFER_SUBHDR_LEN. rewrite slice_ok by (rewrite ?Ep, ?zlen_app; lia). f_equal. rewrite Ep, zlen_app, Hl.
      replace (24 + zlen tl - 24) with (zlen tl) by lia. rewrite <- (app_nil_r tl) at 2. by apply zsub_app_mid. }
    rewrite bind_val. destruct (Z.eqb_spec (zlen tl) 0) as [Hz|Hnz]; apply runs_val; intros s c.
    + split; [done|]. intros Hp. pose proof Hp as (_ & Hne & _)%Hiff. apply Hone in Hp as [_ ->]. by apply zlen_0 in Hz.
    + split; [|by intros [-> ->]%Hone]. intros [= <- <-]. apply Hiff. split; [done|]. split; [by intros -> | done].
  - apply runs_val. intros s c. split; [done|]. intros (Hok' & _ & Ep')%Hiff.
    assert (subhdr_decode p = Val (Some s)) as D by (apply subhdr_decode_exact; [done | eauto]). congruence.
Qed.

Lemma parts_exact k p : bytes p -> runs (infer_payload_parts k p) (fun r => forall s c, r = Some (s, c) <-> has_parts k p s c).
Proof.
  intros Hb. unfold infer_payload_parts.
  destruct ((k =? INFER_REQ) || (k =? INFER_RESP)) eqn:Hk; [rewrite orb_true_iff, !Z.eqb_eq in Hk; by apply parts_chunk_exact|].
  apply orb_false_iff in Hk as [H4 H5]. apply Z.eqb_neq in H4, H5.
  destruct (Z.eqb_spec k INFER_PENDING) as [->|H6].
  { destruct (Z.eqb_spec (zlen p) 0) as [Hz|Hnz]; cbn [negb]; apply runs_val; intros s c.
    - apply zlen_0 in Hz as ->. split; [intros [= <- <-]; constructor|]. intros [([?|?] & _)|[(_ & _ & -> & ->)|(? & _)]]%has_parts_inv; [kinds | kinds | done | kinds].
    - split; [done|]. intros [([?|?] & _)|[(_ & -> & _)|(? & _)]]%has_parts_inv; [kinds | kinds | done | kinds]. }
  destruct (Z.eqb_spec k ERR) as [->|H3].
  { destruct (err_decode_runs p Hb) as [[[code r]|] E]; rewrite E, bind_val; apply runs_val; intros s c.
    - apply (err_decode_exact p Hb) in E as (Hk & _ & ->). split; [intros [= <- <-]; by constructor|].
      intros [([?|?] & _)|[(? & _)|(_ & -> & -> & _)]]%has_parts_inv; [kinds | kinds | kinds | done].
    - split; [done|]. intros [([?|?] & _)|[(? & _)|(_ & _ & _ & code & Hk & ->)]]%has_parts_inv; [kinds | kinds | kinds|].
      assert (err_decode (err_bytes code) = Val (Some (code, err_retryable code))) as D by by apply err_decode_exact. congruence. }
  apply runs_val. intros s c. split; [done|]. intros [([?|?] & _)|[(? & _)|(? & _)]]%has_parts_inv; done.
Qed.

Lemma has_parts_tagged k p s c : has_parts k p s c -> zlen p <= INFER_PAYLOAD_CAP -> zlen (body_digest_of s) = 16 /\ zlen c <= INFER_CHUNK_CAP.
Proof.
  unfold INFER_CHUNK_CAP, INFER_PAYLOAD_CAP, INFER_SUBHDR_LEN. intros [(_ & Hok & _ & ->)|[(_ & -> & -> & ->)|(_ & -> & -> & code & _ & ->)]]%has_parts_inv Hp.
  - rewrite zlen_app, subhdr_bytes_length in Hp by done. split; [apply (so_digest s Hok) | lia].
  - by vm_compute.
  - split; [done|]. change (zlen (err_bytes code)) with 4. lia.
Qed.

Lemma has_parts_widths k p s c : has_parts k p s c -> is_u16 (seq s) /\ is_u32 (total_len s) /\ zlen (body_digest_of s) = 16.
Proof.
  unfold INFER_BODY_DIGEST_LEN. intros [(_ & [Hs Ht [Hd _]] & _)|[(_ & _ & -> & _)|(_ & -> & _)]]%has_parts_inv; [|cbn; unfold in_u; repeat split; lia..].
  unfold INFER_BODY_CAP in Ht. split; [done|]. split; [unfold in_u; lia | exact Hd].
Qed.

Lemma has_parts_payload k p p' s c : has_parts k p s c -> has_parts k p' s c -> p = p'.
Proof.
  intros [([?|?] & _ & _ & ->)|[(? & -> & _)|(? & _ & -> & _)]]%has_parts_inv
    [([?|?] & _ & _ & ->)|[(? & -> & _)|(? & _ & E & _)]]%has_parts_inv; solve [done | kinds].
Qed.

(** The tag of a frame under a key. *)
Definition tagged (key : list Z) (f : InferFrame) (s : SubHdr) (c : list Z) : Prop :=
  is_tag key (infer_msg (peer_id f) (nonce f) (challenge f) (req_id f) (kind f) s c) (tag f).

Lemma tag_test key f s c : zlen key = KHASH_KEY_LEN -> frame_ok f -> has_parts (kind f) (payload f) s c ->
  runs (expect ← infer_tag key (peer_id f) (nonce f) (challenge f) (req_id f) (kind f) s c; Val (if bool_decide (expect = tag f) then Some (s, c) else None))
    (fun r => forall s' c', r = Some (s', c') <-> s' = s /\ c' = c /\ tagged key f s c).
Proof.
  intros Hk Hf Hp. destruct (has_parts_tagged _ _ _ _ Hp (proj1 (ok_payload f Hf))) as [Hd Hc].
  rewrite infer_tag_eq by first [done | apply (ok_nonce f Hf) | apply (ok_challenge f Hf)].
  destruct (khash_digest key Hk (infer_msg (peer_id f) (nonce f) (challenge f) (req_id f) (kind f) s c)) as (full & E & _).
  rewrite E, !bind_val. apply runs_val. intros s' c'. unfold tagged. rewrite (is_tag_full _ _ _ full E). case_bool_decide; naive_solver.
Qed.

Lemma verify_infer_resp_iff key f rid ch : zlen key = KHASH_KEY_LEN -> frame_ok f ->
  runs (verify_infer_resp key f rid ch) (fun r => forall s c, r = Some (s, c) <->
    (kind f = INFER_RESP \/ kind f = INFER_PENDING \/ kind f = ERR) /\ req_id f = rid /\ challenge f = ch /\ has_parts (kind f) (payload f) s c /\ tagged key f s c).
Proof.
  intros Hk Hf. unfold verify_infer_resp.
  destruct ((kind f =? INFER_RESP) || (kind f =? INFER_PENDING) || (kind f =? ERR)) eqn:Hkd; cbn [negb].
  2: { apply runs_val. intros s c. split; [done|]. rewrite !orb_false_iff, !Z.eqb_neq in Hkd. naive_solver. }
  rewrite !orb_true_iff, !Z.eqb_eq in Hkd. destruct (Z.eqb_spec (req_id f) rid) as [<-|]; cbn [negb]; [|apply runs_val; naive_solver].
  case_bool_decide as Hch; cbn [negb]; [subst ch | apply runs_val; naive_solver].
  destruct (parts_exact (kind f) (payload f) (proj2 (ok_payload f Hf))) as ([[s0 c0]|] & E & Hp); rewrite E, bind_val.
  2: { apply runs_val. intros s c. split; [done|]. intros (_ & _ & _ & Hps & _). by apply Hp in Hps. }
  pose proof (proj1 (Hp s0 c0) eq_refl) as Hp0. eapply runs_mono; [by apply tag_test|]. intros r Hr s c. specialize (Hr s c). rewrite Hr. split.
  - intros (-> & -> & Ht). split; [tauto|]. done.
  - intros (_ & _ & _ & Hps & Ht). apply Hp in Hps. injection Hps as <- <-. done.
Qed.

Lemma verify_infer_req_iff key f : zlen key = KHASH_KEY_LEN -> frame_ok f ->
  runs (verify_infer_req key f) (fun r => forall s c, r = Some (s, c) <->
    kind f = INFER_REQ /\ nonce f = zrepeat INFER_NONCE_LEN 0 /\ peer_id f = 0 /\ has_parts (kind f) (payload f) s c /\ tagged key f s c).
Proof.
  intros Hk Hf. unfold verify_infer_req. destruct (Z.eqb_spec (kind f) INFER_REQ) as [Ek|]; cbn [negb]; [|apply runs_val; naive_solver].
  case_bool_decide as Hn; cbn [negb orb]; [|apply runs_val; naive_solver]. destruct (Z.eqb_spec (peer_id f) 0) as [Hpe|]; cbn [negb]; [|apply runs_val; naive_solver].
  destruct (parts_exact (kind f) (payload f) (proj2 (ok_payload f Hf))) as ([[s0 c0]|] & E & Hp); rewrite E, bind_val.
  2: { apply runs_val. intros s c. split; [done|]. intros (_ & _ & _ & Hps & _). by apply Hp in Hps. }
  pose proof (proj1 (Hp s0 c0) eq_refl) as Hp0. eapply runs_mono; [by apply tag_test|]. intros r Hr s c. specialize (Hr s c). rewrite Hr. split; [by intros (-> & -> & ?)|].
  intros (_ & _ & _ & Hps & Ht). apply Hp in Hps. injection Hps as <- <-. done.
Qed.

(** ** Lemmas: the assembler *)

Abbreviation Chunk := (SubHdr * list Z)%type.
Definition body (xs : list Chunk) : list Z := concat (map snd xs).

(** Chunk [i] of a body of [total] bytes with digest [dig]. *)
Definition link (total : Z) (dig : list Z) (i : Z) (x : Chunk) : Prop :=
  seq (fst x) = i /\ total_len (fst x) = total /\ body_digest_of (fst x) = dig /\ 1 <= zlen (snd x) <= INFER_CHUNK_CAP.
Definition valid (CAP total : Z) : Prop := 1 <= total <= INFER_BODY_CAP /\ total <= CAP.

(** The chunks of a body from its first on, more to follow. *)
Definition partial (total : Z) (dig : list Z) (xs : list Chunk) : Prop :=
  (forall i x, xs !! i = Some x -> link total dig (Z.of_nat i) x /\ more (fst x) = true) /\ zlen (body xs) < total.

(** All the chunks of a body of [n] bytes that has the digest they carry. *)
Definition completes (CAP : Z) (xs : list Chunk) (n : Z) : Prop :=
  exists dig ys x, xs = ys ++ [x] /\ valid CAP n /\ partial n dig ys /\ link n dig (zlen ys) x /\ more (fst x) = false /\
    zlen (body xs) = n /\ body_digest (body xs) = Val dig.

Fixpoint push_all (a : InferAssembler) (xs : list Chunk) : res (InferAssembler * list AsmPush) :=
  match xs with
  | [] => Val (a, [])
  | x :: xs => '(a, r) ← push_chunk a (fst x) (snd x); '(a, rs) ← push_all a xs; Val (a, r :: rs)
  end.

Lemma body_snoc xs x : body (xs ++ [x]) = body xs ++ snd x.
Proof. unfold body. rewrite map_app, concat_app. cbn [map concat]. by rewrite app_nil_r. Qed.

Lemma partial_length total dig xs : partial total dig xs -> zlen xs <= zlen (body xs).
Proof.
  intros [Hl _]. induction xs as [|x xs IH] using rev_ind; [done|]. rewrite body_snoc, !zlen_app. change (zlen [x]) with 1.
  destruct (Hl (length xs) x) as [(_ & _ & _ & ? & _) _]; [by apply list_lookup_middle|].
  assert (zlen xs <= zlen (body xs)); [|lia]. apply IH. intros i y Hi. apply Hl. by apply lookup_app_l_Some.
Qed.

Lemma partial_snoc total dig xs x : partial total dig (xs ++ [x]) <->
  partial total dig xs /\ link total dig (zlen xs) x /\ more (fst x) = true /\ zlen (body xs) + zlen (snd x) < total.
Proof.
  unfold partial. rewrite body_snoc, zlen_app. pose proof (zlen_nonneg (snd x)). split.
  - intros [Hl Hs]. destruct (Hl (length xs) x) as [Hx Hm]; [by apply list_lookup_middle|]. split; [split; [|lia]|done].
    intros i y Hi. apply Hl. by apply lookup_app_l_Some.
  - intros ([Hl _] & Hx & Hm & Hs). split; [|done]. intros i y Hi. apply lookup_app_Some in Hi as [Hi|[Hge Hi]]; [by apply Hl|].
    apply list_lookup_singleton_Some in Hi as [E <-]. replace (Z.of_nat i) with (zlen xs) by (unfold zlen; lia). done.
Qed.

Lemma partial_agree t d t' d' xs : xs <> [] -> partial t d xs -> partial t' d' xs -> t = t' /\ d = d'.
Proof.
  intros Hne [H _] [H' _]. destruct xs as [|x xs]; [done|]. destruct (H 0%nat x eq_refl) as [(_ & <- & <- & _) _]. destruct (H' 0%nat x eq_refl) as [(_ & <- & <- & _) _]. done.
Qed.

(** The chunk [x] can come after [xs]. *)
Definition extends (CAP : Z) (xs : list Chunk) (x : Chunk) : Prop :=
  let t := total_len (fst x) in
  valid CAP t /\ partial t (body_digest_of (fst x)) xs /\ link t (body_digest_of (fst x)) (zlen xs) x /\
  (if more (fst x) then zlen (body xs) + zlen (snd x) < t
   else zlen (body xs) + zlen (snd x) = t /\ body_digest (body xs ++ snd x) = Val (body_digest_of (fst x))).

Lemma extends_partial CAP t d xs x : valid CAP t -> partial t d (xs ++ [x]) -> extends CAP xs x.
Proof.
  intros Hv (Hp & Hl & Hm & Hs)%partial_snoc. pose proof Hl as (_ & <- & <- & _). unfold extends. by rewrite Hm.
Qed.
Lemma extends_completes CAP xs x n : completes CAP (xs ++ [x]) n <-> extends CAP xs x /\ more (fst x) = false /\ n = total_len (fst x).
Proof.
  split.
  - intros (d & ys & y & E & Hv & Hp & Hl & Hm & Hs & Hd). apply app_inj_tail in E as [<- <-]. rewrite body_snoc, zlen_app in *.
    pose proof Hl as (_ & <- & <- & _). unfold extends. by rewrite Hm.
  - intros ((Hv & Hp & Hl & He) & Hm & ->). rewrite Hm in He. destruct He as [Hs Hd]. exists (body_digest_of (fst x)), xs, x. rewrite body_snoc, zlen_app. done.
Qed.

(** Nothing completes past a chunk that could not come next, or past the last one. *)
Lemma completes_prefix CAP xs z zs n : completes CAP (xs ++ z :: zs) n -> zs <> [] -> extends CAP xs z /\ more (fst z) = true.
Proof.
  intros (d & ys & y & E & Hv & Hp & _) Hne. destruct (exists_last Hne) as (zs' & w & ->).
  assert (xs ++ z :: zs' ++ [w] = (xs ++ z :: zs') ++ [w]) as E2 by by rewrite <- app_assoc. rewrite E2 in E. apply app_inj_tail in E as [<- <-]. clear E2.
  assert (partial n d (xs ++ [z])) as Hpz.
  { destruct Hp as [Hl Hs]. split.
    - intros i x Hi. apply Hl. replace (xs ++ z :: zs') with ((xs ++ [z]) ++ zs') by by rewrite <- app_assoc. by apply lookup_app_l_Some.
    - revert Hs. replace (xs ++ z :: zs') with ((xs ++ [z]) ++ zs') by by rewrite <- app_assoc. unfold body. rewrite (map_app _ (xs ++ [z])), concat_app, zlen_app.
      pose proof (zlen_nonneg (concat (map snd zs'))). lia. }
  split; [by eapply extends_partial | apply partial_snoc in Hpz; tauto].
Qed.

(** The assembler after accepting [xs]. *)
Record running (CAP : Z) (xs : list Chunk) (a : InferAssembler) : Prop := {
  rn_live : poisoned a = false /\ is_done a = false;
  rn_cap : zlen (a_buf a) = CAP;
  rn_len : a_len a = zlen (body xs);
  rn_buf : exists junk, a_buf a = body xs ++ junk;
  rn_seq : next_seq a = zlen xs;
  rn_started : if started a then valid CAP (a_total a) /\ partial (a_total a) (a_digest a) xs /\ xs <> [] else xs = [];
}.

Definition closed (a : InferAssembler) : Prop := poisoned a || is_done a = true.

Lemma in_order_iff CAP xs a s : running CAP xs a -> 0 <= total_len s ->
  in_order a s = true <-> seq s = zlen xs /\ valid CAP (total_len s) /\ partial (total_len s) (body_digest_of s) xs.
Proof.
  intros [_ Hc _ _ Hq Hst] H0. unfold in_order. destruct (started a); cbn [negb].
  - destruct Hst as (Hv & Hp & Hne). rewrite negb_true_iff, !orb_false_iff, !negb_false_iff, !Z.eqb_eq, bool_decide_eq_true, Hq. split.
    + intros [[-> ->] ->]. done.
    + intros (-> & _ & Hp'). destruct (partial_agree _ _ _ _ xs Hne Hp Hp') as [-> ->]. done.
  - subst xs. rewrite negb_true_iff, !orb_false_iff, negb_false_iff, Z.eqb_eq, Z.eqb_neq, !Z.ltb_ge, Hc. unfold valid, partial.
    change (zlen (@nil Chunk)) with 0. change (zlen (body [])) with 0. split.
    + intros [[[-> H1] H2] H3]. split; [done|]. split; [lia|]. split; [|lia]. intros i x. by rewrite lookup_nil.
    + intros (-> & [? ?] & _). repeat split; lia.
Qed.

Lemma body_digest_runs b : runs (body_digest b) (fun d => zlen d = INFER_BODY_DIGEST_LEN /\ bytes d).
Proof.
  unfold body_digest, INFER_BODY_DIGEST_LEN. eapply runs_bind; [apply (uhash_digest b)|]. intros full [Hf Hb].
  rewrite copy_in_ok by zl. rewrite zdrop_all, app_nil_r by zl. apply runs_val. split; [zl | by apply zsub_bytes].
Qed.

Lemma lock_fields CAP xs a s : running CAP xs a -> in_order a s = true ->
  a_buf (lock a s) = a_buf a /\ a_len (lock a s) = a_len a /\ next_seq (lock a s) = next_seq a /\ started (lock a s) = true /\
  poisoned (lock a s) = false /\ is_done (lock a s) = false /\ a_total (lock a s) = total_len s /\ a_digest (lock a s) = body_digest_of s.
Proof.
  intros [[Hpo Hdo] _ _ _ _ Hst] Ho. unfold lock, in_order in *. destruct (started a) eqn:E; cbn [negb] in *; [|done].
  rewrite negb_true_iff, !orb_false_iff, !negb_false_iff, !Z.eqb_eq, bool_decide_eq_true in Ho. destruct Ho as [[_ ->] ->]. done.
Qed.

(** A chunk that can come next but for the digest of the whole. *)
Definition fits (CAP : Z) (xs : list Chunk) (x : Chunk) : Prop :=
  let t := total_len (fst x) in
  valid CAP t /\ partial t (body_digest_of (fst x)) xs /\ link t (body_digest_of (fst x)) (zlen xs) x /\
  (if more (fst x) then zlen (body xs) + zlen (snd x) < t else zlen (body xs) + zlen (snd x) = t).

Lemma extends_fits CAP xs x : extends CAP xs x -> fits CAP xs x.
Proof. unfold extends, fits. destruct (more (fst x)); tauto. Qed.

(** The part of a push after the checks. *)
Definition accept (a : InferAssembler) (sub : SubHdr) (chunk : list Z) : res (InferAssembler * AsmPush) :=
  let a := lock a sub in
  bf ← copy_loop (zlen chunk) chunk (a_len a) (a_buf a);
  let a := mkAsm bf (a_len a + zlen chunk) (wrapping_add 16 (next_seq a) 1) (a_total a) (a_digest a) (started a) (is_done a) (poisoned a) in
  if more sub then Val (a, Accepted) else
  b ← slice (a_buf a) 0 (a_len a);
  dg ← body_digest b;
  if negb (bool_decide (dg = a_digest a)) then Val (poison a, Rejected) else
  Val (mkAsm (a_buf a) (a_len a) (next_seq a) (a_total a) (a_digest a) (started a) true (poisoned a), Complete (a_len a)).

Lemma push_checks CAP xs a x : running CAP xs a -> CAP < 2 ^ 62 -> 0 <= total_len (fst x) -> zlen (snd x) < 2 ^ 62 ->
  (fits CAP xs x /\ in_order a (fst x) = true /\ push_chunk a (fst x) (snd x) = accept a (fst x) (snd x)) \/
  (~ fits CAP xs x /\ push_chunk a (fst x) (snd x) = Val (poison a, Rejected)).
Proof.
  intros Hrun HC H0 Hbig. pose proof Hrun as [[Hpo Hdo] Hc Hl [j Hj] Hq Hst]. pose proof (zlen_nonneg (body xs)). pose proof (zlen_nonneg (snd x)). pose proof (zlen_nonneg j).
  assert (zlen (body xs) + zlen j = CAP) as Hcap by (rewrite <- Hc, Hj, zlen_app; done). unfold push_chunk. rewrite Hpo, Hdo. cbn [orb].
  destruct (in_order a (fst x)) eqn:Ho; cbn [negb].
  2: { right. split; [|done]. intros (Hv & Hp & (Hs & _) & _). rewrite (proj2 (in_order_iff CAP xs a (fst x) Hrun H0)) in Ho; done. }
  pose proof (lock_fields CAP xs a (fst x) Hrun Ho) as (Lb & Ll & Ln & _).
  apply (in_order_iff CAP xs a (fst x) Hrun H0) in Ho as (Hs & Hv & Hp).
  destruct (Z.eqb_spec (zlen (snd x)) 0) as [Hz|Hz]; cbn [orb]; [right; split; [|done]; intros (_ & _ & (_ & _ & _ & ?) & _); lia|].
  destruct (Z.ltb_spec INFER_CHUNK_CAP (zlen (snd x))) as [Hb|Hb]; [right; split; [|done]; intros (_ & _ & (_ & _ & _ & ?) & _); lia|].
  unfold checked_add, u_max, usize_bits. rewrite Hl, decide_True by lia.
  assert (link (total_len (fst x)) (body_digest_of (fst x)) (zlen xs) x) as Hlink by (repeat split; (done || lia)).
  destruct (Z.leb_spec (zlen (body xs) + zlen (snd x)) (total_len (fst x))) as [Hle|Hgt]; cbn [negb].
  2: { right. split; [|done]. intros (_ & _ & _ & He). destruct (more (fst x)); lia. }
  unfold accept. rewrite Ll, Hl. destruct (more (fst x)) eqn:Hm; cbn [andb negb].
  - destruct (Z.leb_spec (total_len (fst x)) (zlen (body xs) + zlen (snd x))) as [Hge|Hlt].
    + right. split; [|done]. intros (_ & _ & _ & He). rewrite Hm in He. lia.
    + left. split; [|done]. unfold fits. by rewrite Hm.
  - destruct (Z.eqb_spec (zlen (body xs) + zlen (snd x)) (total_len (fst x))) as [En|Hne]; cbn [negb].
    + left. split; [|done]. unfold fits. by rewrite Hm.
    + right. split; [|done]. intros (_ & _ & _ & He). rewrite Hm in He. lia.
Qed.

(** One push: accepted, complete or refused, as the chunk can come next. *)
Lemma push_step CAP xs a x : running CAP xs a -> CAP < 2 ^ 62 -> 0 <= total_len (fst x) -> zlen (snd x) < 2 ^ 62 ->
  runs (push_chunk a (fst x) (snd x)) (fun '(a', r) => match r with
    | Accepted => extends CAP xs x /\ more (fst x) = true /\ running CAP (xs ++ [x]) a'
    | Complete n => extends CAP xs x /\ more (fst x) = false /\ n = total_len (fst x) /\ closed a' /\ asm_body a' = Val (body xs ++ snd x)
    | Rejected => ~ extends CAP xs x /\ closed a'
    end).
Proof.
  intros Hrun HC H0 Hbig. destruct (push_checks CAP xs a x Hrun HC H0 Hbig) as [(Hfit & Ho & ->)|(Hno & ->)].
  2: { apply runs_val. split; [|done]. by intros ?%extends_fits. }
  pose proof Hfit as (Hv & Hp & Hlink & He). destruct (lock_fields CAP xs a (fst x) Hrun Ho) as (Lb & Ll & Ln & Ls & Lp & Ld & Lt & Ldg).
  pose proof Hrun as [_ Hc Hl [j Hj] Hq _]. pose proof (zlen_nonneg (body xs)). pose proof (zlen_nonneg (snd x)). pose proof (zlen_nonneg j).
  assert (zlen (body xs) + zlen j = CAP) as Hcap by (rewrite <- Hc, Hj, zlen_app; done).
  assert (zlen (body xs) + zlen (snd x) <= total_len (fst x)) as Hle by (destruct (more (fst x)); lia). destruct Hv as [Hv1 Hv2].
  unfold accept. rewrite Lb, Ll, Ln, Ls, Lp, Ld, Lt, Ldg, Hl, Hj, Hq. rewrite copy_loop_next by lia. rewrite bind_val, (ztake_all (zlen (snd x)) (snd x)) by lia.
  assert (zlen ((body xs ++ snd x) ++ zdrop (zlen (snd x)) j) = CAP) as Hcap' by zl. destruct (more (fst x)) eqn:Hm.
  - apply runs_val. split; [unfold extends; by rewrite Hm|]. split; [done|].
    assert (partial (total_len (fst x)) (body_digest_of (fst x)) (xs ++ [x])) as Hp' by by apply partial_snoc.
    split; cbn [a_buf a_len next_seq a_total a_digest started is_done poisoned]; rewrite ?body_snoc; [done | done | by rewrite zlen_app | by eexists | | ].
    + pose proof (partial_length _ _ _ Hp') as Hlen. destruct Hp' as [_ Hs']. rewrite zlen_app in *. change (zlen [x]) with 1 in *. pose proof (zlen_nonneg xs).
      unfold wrapping_add. apply wrap_small. unfold in_u, INFER_BODY_CAP in *. lia.
    + split; [done|]. split; [done|]. by intros [_ ?]%app_nil.
  - cbn [a_buf a_len a_digest]. rewrite slice_ok, bind_val by (rewrite ?Hcap'; lia).
    assert (zsub 0 (zlen (body xs) + zlen (snd x) - 0) ((body xs ++ snd x) ++ zdrop (zlen (snd x)) j) = body xs ++ snd x) as Eb by (apply zsub_app_eq; rewrite zlen_app; lia).
    rewrite Eb. destruct (body_digest_runs (body xs ++ snd x)) as (dg & Edg & _). rewrite Edg, bind_val. case_bool_decide as Hdg; cbn [negb]; apply runs_val.
    + subst dg. split; [unfold extends; by rewrite Hm|]. split; [done|]. split; [done|]. split; [done|].
      unfold asm_body. cbn [a_buf a_len]. rewrite slice_ok by (rewrite ?Hcap'; lia). by rewrite Eb.
    + split; [|done]. intros (_ & _ & _ & He'). rewrite Hm, Edg in He'. destruct He' as [_ [= He']]. done.
Qed.

Lemma push_closed a s c : closed a -> push_chunk a s c = Val (a, Rejected).
Proof. intros H. unfold push_chunk. by rewrite H. Qed.
Lemma push_all_closed a xs : closed a -> push_all a xs = Val (a, map (fun _ => Rejected) xs).
Proof. intros H. induction xs as [|x xs IH]; [done|]. cbn [push_all map]. by rewrite push_closed, bind_val, IH, bind_val. Qed.

(** What a transfer may carry: the fields a sub-header has on the wire. *)
Definition carried (x : Chunk) : Prop := 0 <= total_len (fst x) /\ zlen (snd x) < 2 ^ 62.

(** The outcome of a transfer: it ended just now, with this many bytes. *)
Definition ended (rs : list AsmPush) (n : Z) : Prop := last rs = Some (Complete n).

Lemma last_cons_ne {A} (x : A) l : l <> [] -> last (x :: l) = last l.
Proof. destruct l; done. Qed.
Lemma ended_rejected {A} (xs : list A) n : ~ ended (map (fun _ => Rejected) xs) n.
Proof.
  unfold ended. induction xs as [|x xs IH]; [done|]. destruct xs as [|y xs]; [done|]. cbn [map] in *. by rewrite last_cons_ne.
Qed.

Lemma push_all_runs CAP zs : CAP < 2 ^ 62 -> Forall carried zs -> forall xs a, running CAP xs a ->
  runs (push_all a zs) (fun '(a', rs) => zlen rs = zlen zs /\
    (zs <> [] -> forall n, ended rs n <-> completes CAP (xs ++ zs) n) /\
    (forall n, ended rs n -> asm_body a' = Val (body (xs ++ zs)))).
Proof.
  intros HC. induction zs as [|z zs IH]; intros Hz xs a Hrun; [apply runs_val; by repeat split|].
  apply Forall_cons in Hz as [[Hz0 Hzb] Hz]. cbn [push_all]. eapply runs_bind; [by apply (push_step CAP xs a z)|]. intros [a1 r] Hr.
  replace (xs ++ z :: zs) with ((xs ++ [z]) ++ zs) by by rewrite <- app_assoc.
  destruct r as [|m|].
  - destruct Hr as (Hext & Hm & Hrun1). eapply runs_bind; [by apply (IH Hz (xs ++ [z]) a1)|]. intros [a2 rs] (Hl & Hiff & Hbody). apply runs_val.
    rewrite !zlen_cons. split; [lia|]. destruct zs as [|z' zs].
    + destruct rs; [|rewrite zlen_cons, zlen_nil in Hl; pose proof (zlen_nonneg rs); lia]. split; [|done]. intros _ n. rewrite app_nil_r. split; [done|].
      intros (_ & Hm' & _)%extends_completes. congruence.
    + destruct rs as [|r' rs]; [rewrite zlen_cons, zlen_nil in Hl; pose proof (zlen_nonneg zs); lia|]. split; [intros _; by apply Hiff | exact Hbody].
  - destruct Hr as (Hext & Hm & -> & Hcl & Hb). rewrite push_all_closed, bind_val by done. apply runs_val. split; [rewrite !zlen_cons; unfold zlen; rewrite length_map; lia|].
    destruct zs as [|z' zs].
    + rewrite app_nil_r. split; [|intros n _; by rewrite body_snoc]. intros _ n. rewrite extends_completes. unfold ended. cbn. split; [by intros [= <-] | by intros (_ & _ & ->)].
    + assert (forall n, ~ ended (Complete (total_len (fst z)) :: map (fun _ => Rejected) (z' :: zs)) n) as Hno.
      { intros n. unfold ended. rewrite last_cons_ne by done. apply ended_rejected. }
      split; [|intros n H; by apply Hno in H]. intros _ n. split; [intros H; by apply Hno in H|]. intros Hcomp. rewrite <- app_assoc in Hcomp.
      apply completes_prefix in Hcomp as [_ Hm']; [congruence | done].
  - destruct Hr as (Hno & Hcl). rewrite push_all_closed, bind_val by done. apply runs_val. split; [rewrite !zlen_cons; unfold zlen; rewrite length_map; lia|].
    assert (forall n, ~ ended (Rejected :: map (fun _ => Rejected) zs) n) as Hnever by exact (fun n => ended_rejected (z :: zs) n).
    split; [|intros n H; by apply Hnever in H]. intros _ n. split; [intros H; by apply Hnever in H|]. intros Hcomp. exfalso. destruct zs as [|z' zs].
    + rewrite app_nil_r in Hcomp. by apply extends_completes in Hcomp as [? _].
    + rewrite <- app_assoc in Hcomp. by apply completes_prefix in Hcomp as [? _].
Qed.

Lemma asm_new_running CAP : 0 <= CAP -> running CAP [] (asm_new CAP).
Proof. intros HC. split; try done; cbn [asm_new a_buf]; [rewrite zlen_zrepeat; lia | by eexists]. Qed.

(** ** Properties *)

(** The assembler completes exactly on a body's chunks.  Whatever chunks are pushed, none
    panics; a transfer ends with a body of [n] bytes just when the chunks pushed are all of a
    body in order: numbered from 0, each of the same length and digest, none empty, all but
    the last with more to follow, together [n] bytes, whose digest is the one announced.  Then
    the assembled body is their concatenation. *)
Theorem assembler_completes_exactly CAP xs : 0 <= CAP < 2 ^ 62 -> Forall carried xs -> xs <> [] ->
  runs (push_all (asm_new CAP) xs) (fun '(a, rs) => zlen rs = zlen xs /\
    (forall n, ended rs n <-> completes CAP xs n) /\
    (forall n, ended rs n -> asm_body a = Val (body xs))).
Proof.
  intros [H0 HC] Hxs Hne. eapply runs_mono; [apply (push_all_runs CAP xs HC Hxs [] (asm_new CAP)); by apply asm_new_running|].
  intros [a rs] (Hl & Hiff & Hb). split; [done|]. split; [by apply Hiff | exact Hb].
Qed.

(** A response counts only for the request it answers.  A frame verifies against a request
    id and a challenge exactly when it is a response, a heartbeat or an error, carries both,
    its payload parses by its kind, and its tag is the keyed hash of every field that places
    the chunk; and that hash's input determines them all, so two frames with one tag input are
    the same chunk at the same place. *)
Theorem infer_resp_verified_iff key f rid ch : zlen key = KHASH_KEY_LEN -> frame_ok f ->
  runs (verify_infer_resp key f rid ch) (fun r => forall s c, r = Some (s, c) <->
    (kind f = INFER_RESP \/ kind f = INFER_PENDING \/ kind f = ERR) /\ req_id f = rid /\ challenge f = ch /\
    has_parts (kind f) (payload f) s c /\ tagged key f s c) /\
  forall g s c s' c', frame_ok g -> has_parts (kind f) (payload f) s c -> has_parts (kind g) (payload g) s' c' ->
    infer_msg (peer_id f) (nonce f) (challenge f) (req_id f) (kind f) s c = infer_msg (peer_id g) (nonce g) (challenge g) (req_id g) (kind g) s' c' ->
    s = s' /\ c = c' /\ mkFrame (kind f) (req_id f) (challenge f) (nonce f) (peer_id f) (tag f) (payload f) =
      mkFrame (kind g) (req_id g) (challenge g) (nonce g) (peer_id g) (tag f) (payload g).
Proof.
  intros Hk Hf. split; [by apply verify_infer_resp_iff|]. intros g s c s' c' Hg Hp Hp' E.
  destruct (has_parts_widths _ _ _ _ Hp) as (? & ? & ?), (has_parts_widths _ _ _ _ Hp') as (? & ? & ?).
  apply infer_msg_inj in E as (-> & -> & -> & -> & Ek & -> & ->);
    try done; try (by apply Hf || by apply Hg).
  rewrite Ek in *. split; [done|]. split; [done|]. by rewrite (has_parts_payload _ _ _ _ _ Hp Hp').
Qed.

Definition demo_digest : list Z := match body_digest [7; 8; 9] with Val d => d | Panic => [] end.
Definition demo_chunks : list Chunk := [(mkSub 0 true 3 demo_digest, [7; 8]); (mkSub 1 false 3 demo_digest, [9])].

Lemma demo_digest_ok : body_digest [7; 8; 9] = Val demo_digest /\ zlen demo_digest = INFER_BODY_DIGEST_LEN /\ bytes demo_digest.
Proof. unfold demo_digest. destruct (body_digest_runs [7; 8; 9]) as (d & E & Hd). rewrite E. exact (conj eq_refl Hd). Qed.

Lemma demo_completes : completes INFER_BODY_CAP demo_chunks 3.
Proof.
  unfold demo_chunks. generalize demo_digest (proj1 demo_digest_ok). intros d.
  set (x := (mkSub 0 true 3 d, [7; 8])). set (y := (mkSub 1 false 3 d, [9])).
  assert (valid INFER_BODY_CAP 3) as Hv by by vm_compute. assert (link 3 d 1 y) as Hy by by repeat split.
  assert (partial 3 d [x]) as Hx by (split; [intros [|i] z; [by intros [= <-] | done] | done]).
  intros E. exists d, [x], y. exact (conj eq_refl (conj Hv (conj Hx (conj Hy (conj eq_refl (conj eq_refl E)))))).
Qed.

Lemma assembler_completes_exactly_witness : exists a, push_all (asm_new INFER_BODY_CAP) demo_chunks = Val (a, [Accepted; Complete 3]) /\
  asm_body a = Val [7; 8; 9].
Proof.
  destruct (assembler_completes_exactly INFER_BODY_CAP demo_chunks) as ([a rs] & E & _ & _ & Hb).
  - split; [discriminate | reflexivity].
  - apply Forall_cons. split; [split; [discriminate | reflexivity]|]. apply Forall_cons. split; [split; [discriminate | reflexivity]|]. apply Forall_nil. exact I.
  - discriminate.
  - assert ((' (_, l) ← push_all (asm_new INFER_BODY_CAP) demo_chunks; Val l) = Val [Accepted; Complete 3]) as Hrs by (vm_compute; reflexivity).
    rewrite E in Hrs. cbn in Hrs. injection Hrs as ->. exists a. split; [exact E | exact (Hb 3 eq_refl)].
Defined.

Lemma infer_resp_verified_iff_witness : exists r, verify_infer_resp (zrepeat KHASH_KEY_LEN 3) demo_frame 7 (zrepeat 16 1) = Val r.
Proof.
  destruct (infer_resp_verified_iff (zrepeat KHASH_KEY_LEN 3) demo_frame 7 (zrepeat 16 1)) as [(r & E & _) _].
  - reflexivity.
  - apply demo_frame_ok.
  - exists r. exact E.
Defined.
