(* ===== verification/InferHost.v ===== *)
(** * The host's inference peer: [tb-vmm/src/infer_host.rs].

    The peer reads the guest's byte stream, answers an echo request with a keyed echo and the
    key, and an authenticated chunked request with a heartbeat and the chunks of the
    deterministic backend's response.  The key, the nonce and the witness stream are given to
    the constructor, as by [with_key_nonce]; the stream is the bytes written to it. *)
From Stdlib Require Import ZArith Lia Ascii String.
From stdpp Require Import base numbers option tactics sets list strings pretty.
From S2P Require Import Prelude Khash Inferwire InferChunks.
From S2P Require Infer.
Open Scope Z_scope.

Definition TB_VMM_HOST : Z := 1.
Definition INFER_DAEMON : Z := 3.

(** ** Text *)

Definition str (s : string) : list Z := map (fun c => Z.of_N (N_of_ascii c)) (String.list_ascii_of_string s).
Definition INFER_NOKEY_PROBE : list Z := str "YUVA-M31-NOKEY-PROBE-V1".
Definition INFER_LOCAL_PROBE : list Z := str "YUVA-M32-LOCAL-ORGAN-V1".
Definition hex_digit (n : Z) : Z := if n <? 10 then 48 + n else 87 + n.
Definition hex (bytes : list Z) : list Z := concat (map (fun b => [hex_digit (Z.shiftr b 4); hex_digit (Z.land b 15)]) bytes).
(** [{:016x}] *)
Definition hex16 (n : Z) : list Z := map (fun i => hex_digit (Z.land (Z.shiftr n (4 * i)) 15)) (reverse (seqZ 0 16)).
(** [{}] of an unsigned integer. *)
Definition dec (n : Z) : list Z := str (pretty (Z.to_N n)).

Definition echo_line (challenge tag : list Z) : list Z :=
  str "xport-harness: peer=TB-VMM-HOST challenge=0x" ++ hex challenge ++ str " tag=0x" ++ hex tag ++ str " key-custody=VMM" ++ [10].
Definition nokey_line (req_id : Z) : list Z :=
  str "xport-harness-infer: backend=MOCK-DETERMINISTIC req-id=0x" ++ hex16 req_id ++ str " answer=ERR-NO-KEY" ++ [10].
Definition resp_line (is_local : bool) (req_id resp_len : Z) (dig : list Z) (chunks : Z) : list Z :=
  (if is_local then str "xport-local: peer=0x03 local-organ=DETERMINISTIC-STANDIN req-id=0x"
   else str "xport-harness-infer: backend=MOCK-DETERMINISTIC req-id=0x") ++
  hex16 req_id ++ str " resp-len=" ++ dec resp_len ++ str " resp-digest=0x" ++ hex dig ++ str " chunks=" ++ dec chunks ++ str " pending=1" ++ [10].

(** ** State *)

Record Inflight := mkInflight { fl_req_id : Z; fl_challenge : list Z; fl_asm : InferAssembler }.

Record InferHost := mkHost {
  key : list Z;
  host_nonce : list Z;
  accum : FrameAccum;
  outbuf : list Z;
  inflight : option Inflight;
  witness : list Z;
  echoes : Z;
}.

Definition with_key_nonce (key nonce witness : list Z) : InferHost := mkHost key nonce (new INFER_ACCUM_CAP) [] None witness 0.

Definition set_accum (h : InferHost) (a : FrameAccum) : InferHost := mkHost (key h) (host_nonce h) a (outbuf h) (inflight h) (witness h) (echoes h).
Definition set_inflight (h : InferHost) (f : option Inflight) : InferHost := mkHost (key h) (host_nonce h) (accum h) (outbuf h) f (witness h) (echoes h).
Definition extend_outbuf (h : InferHost) (w : list Z) : InferHost := mkHost (key h) (host_nonce h) (accum h) (outbuf h ++ w) (inflight h) (witness h) (echoes h).
Definition witness_write (h : InferHost) (line : list Z) : InferHost :=
  mkHost (key h) (host_nonce h) (accum h) (outbuf h) (inflight h) (witness h ++ line) (echoes h).

Definition out_len (h : InferHost) : Z := zlen (outbuf h).
Definition take_output (h : InferHost) (max : Z) : InferHost * list Z :=
  let n := Z.min max (zlen (outbuf h)) in
  (mkHost (key h) (host_nonce h) (accum h) (zdrop n (outbuf h)) (inflight h) (witness h) (echoes h), ztake n (outbuf h)).

(** ** Serving *)

Definition wire_of (frame : InferFrame) : res (list Z) :=
  '(wire, n) ← canon frame (zrepeat (wire_len frame) 0);
  if n =? zlen wire then Val wire else Panic.

Definition tagged_frame (h : InferHost) (peer_id : Z) (challenge : list Z) (req_id k : Z) (sub : SubHdr) (chunk payload : list Z) : res (list Z) :=
  tag ← infer_tag (key h) peer_id (host_nonce h) challenge req_id k sub chunk;
  wire_of (mkFrame k req_id challenge (host_nonce h) peer_id tag payload).
Definition m31_frame (h : InferHost) (challenge : list Z) (req_id k : Z) (sub : SubHdr) (chunk payload : list Z) : res (list Z) :=
  tagged_frame h TB_VMM_HOST challenge req_id k sub chunk payload.

Definition serve_echo (h : InferHost) (req : InferFrame) : res InferHost :=
  tag ← echo_tag (key h) TB_VMM_HOST (host_nonce h) (challenge req) (payload req);
  wire ← wire_of (mkFrame ECHO_RESP (req_id req) (challenge req) (host_nonce h) TB_VMM_HOST tag (payload req));
  let wire := wire ++ key h in
  let h := extend_outbuf h wire in
  let h := witness_write h (echo_line (challenge req) tag) in
  n ← add_u 64 (echoes h) 1;
  Val (mkHost (key h) (host_nonce h) (accum h) (outbuf h) (inflight h) (witness h) n).

(** The chunk loop: [fuel] turns, each taking at least a byte of the response. *)
Fixpoint chunk_loop (fuel : nat) (h : InferHost) (peer : Z) (challenge : list Z) (req_id : Z) (resp dig : list Z) (off seq : Z) (out : list Z)
    : res (list Z * Z) :=
  match fuel with
  | O => Panic
  | S fuel =>
      if negb (off <? zlen resp) then Val (out, seq) else
      let end_ := Z.min (off + INFER_CHUNK_CAP) (zlen resp) in
      let sub := mkSub seq (end_ <? zlen resp) (wrap 32 (zlen resp)) dig in
      '(payload, n) ← subhdr_canon sub (zrepeat INFER_SUBHDR_LEN 0);
      if negb (n =? INFER_SUBHDR_LEN) then Panic else
      c ← slice resp off end_;
      w ← tagged_frame h peer challenge req_id INFER_RESP sub c (payload ++ c);
      seq ← add_u 16 seq 1;
      chunk_loop fuel h peer challenge req_id resp dig end_ seq (out ++ w)
  end.

Definition is_local_body (body : list Z) : res bool :=
  if zlen INFER_LOCAL_PROBE <=? zlen body then
    p ← slice body 0 (zlen INFER_LOCAL_PROBE); Val (bool_decide (p = INFER_LOCAL_PROBE))
  else Val false.

Definition serve_infer_body (h : InferHost) (challenge : list Z) (req_id : Z) (body : list Z) : res InferHost :=
  if bool_decide (body = INFER_NOKEY_PROBE) then
    '(ep, n) ← err_canon NO_KEY (zrepeat INFER_ERR_PAYLOAD_LEN 0);
    if negb (n =? INFER_ERR_PAYLOAD_LEN) then Panic else
    wire ← m31_frame h challenge req_id ERR empty ep ep;
    Val (witness_write (extend_outbuf h wire) (nokey_line req_id))
  else
    is_local ← is_local_body body;
    let resp_peer := if is_local : bool then INFER_DAEMON else TB_VMM_HOST in
    '(resp, rlen) ← Infer.mock_infer body (zrepeat Infer.INFER_MOCK_RESP_LEN 0);
    if rlen =? 0 then Val h else
    let resp := ztake rlen resp in
    dig ← body_digest resp;
    out ← tagged_frame h resp_peer challenge req_id INFER_PENDING empty [] [];
    '(out, seq) ← chunk_loop (S (Z.to_nat (zlen resp))) h resp_peer challenge req_id resp dig 0 0 out;
    let h := extend_outbuf h out in
    Val (witness_write h (resp_line is_local req_id (zlen resp) dig seq)).

(** Does the frame start a new request? *)
Definition restart (h : InferHost) (frame : InferFrame) : bool :=
  match inflight h with Some f => negb (fl_req_id f =? req_id frame) | None => true end.

Definition serve_infer_req (h : InferHost) (frame : InferFrame) : res InferHost :=
  v ← verify_infer_req (key h) frame;
  match v with
  | None => Val h
  | Some (sub, chunk) =>
      let h := if restart h frame then set_inflight h (Some (mkInflight (req_id frame) (challenge frame) (asm_new INFER_BODY_CAP))) else h in
      match inflight h with
      | None => Panic
      | Some f =>
          '(a, r) ← push_chunk (fl_asm f) sub chunk;
          match r with
          | Accepted => Val (set_inflight h (Some (mkInflight (fl_req_id f) (fl_challenge f) a)))
          | Rejected => Val (set_inflight h None)
          | Complete blen =>
              b ← asm_body a;
              body ← slice b 0 blen;
              serve_infer_body (set_inflight h None) (fl_challenge f) (fl_req_id f) body
          end
      end
  end.

Definition serve (h : InferHost) (frame : InferFrame) : res InferHost :=
  if kind frame =? ECHO_REQ then serve_echo h frame
  else if kind frame =? INFER_REQ then serve_infer_req h frame
  else Val h.

Fixpoint push_guest_bytes (h : InferHost) (bytes : list Z) : res InferHost :=
  match bytes with
  | [] => Val h
  | b :: bytes =>
      '(a, r) ← push_byte (accum h) b;
      let h := set_accum h a in
      match r with
      | None => push_guest_bytes h bytes
      | Some fl =>
          bs ← accum_bytes (accum h);
          frame_bytes ← slice bs 0 fl;
          a ← consume (accum h) fl;
          let h := set_accum h a in
          f ← decode frame_bytes;
          h ← (match f with Some frame => serve h frame | None => Val h end);
          push_guest_bytes h bytes
      end
  end.

(** ** Lemmas: frames *)

Lemma wire_of_ok f : frame_ok f -> wire_of f = Val (wire_bytes f).
Proof.
  intros Hf. pose proof (zlen_nonneg (payload f)). pose proof (ok_payload f Hf) as [Hp _]. unfold INFER_PAYLOAD_CAP in Hp.
  assert (wire_len f = zlen (wire_bytes f)) as Hw.
  { rewrite wire_bytes_length by done. unfold wire_len, canon_len, saturating_add, u_max, usize_bits. change INFER_HEADER_LEN with 66. lia. }
  unfold wire_of. pose proof (zlen_nonneg (wire_bytes f)). rewrite inferwire_canon_eq by (rewrite ?zlen_zrepeat; (done || lia)).
  rewrite bind_val, zdrop_all, app_nil_r by (rewrite zlen_zrepeat; lia). by rewrite Hw, Z.eqb_refl.
Qed.

Record custodian (h : InferHost) : Prop := {
  cu_key : zlen (key h) = KHASH_KEY_LEN;
  cu_nonce : zlen (host_nonce h) = INFER_NONCE_LEN /\ bytes (host_nonce h);
}.

(** The host's frame of kind [k], with the tag that binds it to its place. *)
Record stamped (h : InferHost) (peer : Z) (ch : list Z) (rid k : Z) (x : Chunk) (f : InferFrame) : Prop := {
  st_ok : frame_ok f;
  st_kind : kind f = k;
  st_req_id : req_id f = rid;
  st_challenge : challenge f = ch;
  st_nonce : nonce f = host_nonce h;
  st_peer : peer_id f = peer;
  st_parts : has_parts (kind f) (payload f) (fst x) (snd x);
  st_tagged : tagged (key h) f (fst x) (snd x);
}.

(** What an answer's frames are addressed to. *)
Record addressed (peer : Z) (ch : list Z) (rid : Z) : Prop := {
  ad_peer : is_u8 peer;
  ad_challenge : zlen ch = INFER_CHALLENGE_LEN /\ bytes ch;
  ad_req_id : is_u64 rid;
}.

Lemma has_parts_kind k p s c : has_parts k p s c -> kind_known k = true.
Proof. intros [([->| ->] & _)|[(-> & _)|(-> & _)]]%has_parts_inv; done. Qed.

Lemma tagged_frame_runs h peer ch rid k s c p : custodian h -> addressed peer ch rid -> has_parts k p s c -> zlen p <= INFER_PAYLOAD_CAP -> bytes p ->
  runs (tagged_frame h peer ch rid k s c p) (fun w => exists f, w = wire_bytes f /\ stamped h peer ch rid k (s, c) f).
Proof.
  intros [Hk [Hn Hnb]] [Hpe [Hc Hcb] Hr] Hp Hl Hb. destruct (has_parts_tagged _ _ _ _ Hp Hl) as [Hd Hcl].
  unfold tagged_frame. rewrite infer_tag_eq by done.
  destruct (khash_digest (key h) Hk (infer_msg peer (host_nonce h) ch rid k s c)) as (full & E & Hfull & Hfb). rewrite E, !bind_val.
  set (f := mkFrame k rid ch (host_nonce h) peer (ztake 16 full) p).
  assert (frame_ok f) as Hok by (split; cbn; [by eapply has_parts_kind | done | done | done | done | split; [unfold INFER_TAG_LEN; zl | by apply ztake_bytes] | done]).
  rewrite wire_of_ok by done. apply runs_val. exists f. split; [done|]. split; try done. unfold tagged. cbn [fst snd]. by exists full.
Qed.

(** ** Lemmas: the response *)

Definition wires (fs : list InferFrame) : list Z := concat (map wire_bytes fs).

Lemma wires_app fs gs : wires (fs ++ gs) = wires fs ++ wires gs.
Proof. unfold wires. by rewrite map_app, concat_app. Qed.

(** The loop's next chunk of [resp], from [off] on. *)
Definition next_chunk (resp dig : list Z) (off seq : Z) : Chunk :=
  let end_ := Z.min (off + INFER_CHUNK_CAP) (zlen resp) in
  (mkSub seq (end_ <? zlen resp) (zlen resp) dig, zsub off (end_ - off) resp).

Lemma next_chunk_link resp dig off seq : 0 <= off < zlen resp ->
  let x := next_chunk resp dig off seq in
  link (zlen resp) dig seq x /\ zlen (snd x) = Z.min INFER_CHUNK_CAP (zlen resp - off) /\ ztake off resp ++ snd x = ztake (off + zlen (snd x)) resp.
Proof.
  intros Hoff. unfold next_chunk, link, INFER_CHUNK_CAP, INFER_PAYLOAD_CAP, INFER_SUBHDR_LEN. cbn [fst snd InferChunks.seq total_len body_digest_of].
  set (n := Z.min (off + (1024 - 24)) (zlen resp) - off). assert (zlen (zsub off n resp) = n) as Hn by (unfold n; zl).
  rewrite Hn. split; [repeat split; unfold n; lia|]. split; [unfold n; lia|]. unfold zsub, ztake, zdrop. rewrite take_take_drop. f_equal. unfold n. lia.
Qed.

Lemma chunk_loop_turn fuel h peer ch rid resp dig off sq out : custodian h -> addressed peer ch rid ->
  zlen resp <= INFER_BODY_CAP -> bytes resp -> zlen dig = INFER_BODY_DIGEST_LEN -> bytes dig -> 0 <= off < zlen resp -> 0 <= sq <= off ->
  let x := next_chunk resp dig off sq in
  exists f, stamped h peer ch rid INFER_RESP x f /\
    chunk_loop (S fuel) h peer ch rid resp dig off sq out =
      chunk_loop fuel h peer ch rid resp dig (off + zlen (snd x)) (sq + 1) (out ++ wire_bytes f).
Proof.
  intros Hcu Had Hcap Hrb Hdl Hdb Hoff Hsq. cbv zeta. destruct (next_chunk_link resp dig off sq Hoff) as ((_ & _ & _ & Hc) & Hcl & _).
  set (x := next_chunk resp dig off sq) in *. unfold INFER_BODY_CAP in *.
  assert (subhdr_ok (fst x)) as Hs by (split; cbn [x next_chunk fst InferChunks.seq total_len body_digest_of]; unfold INFER_BODY_CAP, in_u; try lia; done).
  pose proof (subhdr_bytes_length _ Hs) as Hsl. assert (bytes (snd x)) as Hcb by by apply zsub_bytes.
  assert (has_parts INFER_RESP (subhdr_bytes (fst x) ++ snd x) (fst x) (snd x)) as Hp.
  { apply parts_chunk; [by right | done |]. intros E. rewrite E, zlen_nil in Hc. lia. }
  destruct (tagged_frame_runs h peer ch rid INFER_RESP (fst x) (snd x) _ Hcu Had Hp) as (w & Ew & f & -> & Hf).
  { rewrite zlen_app, Hsl. unfold INFER_CHUNK_CAP, INFER_SUBHDR_LEN in Hc. lia. }
  { apply Forall_app_2; [by apply subhdr_bytes_bytes | done]. }
  exists f. split; [by destruct x|]. cbn [chunk_loop]. rewrite (proj2 (Z.ltb_lt off (zlen resp))) by lia. cbn [negb].
  rewrite (wrap_small 32) by (unfold in_u; lia). change (mkSub sq _ (zlen resp) dig) with (fst x).
  rewrite subhdr_canon_eq by done. rewrite bind_val, Z.eqb_refl. cbn [negb]. change (zdrop 24 (zrepeat INFER_SUBHDR_LEN 0)) with (@nil Z). rewrite app_nil_r.
  assert (slice resp off (Z.min (off + INFER_CHUNK_CAP) (zlen resp)) = Val (snd x)) as -> by (rewrite slice_ok; [done | unfold INFER_CHUNK_CAP, INFER_PAYLOAD_CAP, INFER_SUBHDR_LEN; lia..]).
  rewrite bind_val, Ew, bind_val, add_u_ok, bind_val by lia. f_equal. lia.
Qed.

Lemma chunk_loop_runs h peer ch rid resp dig : custodian h -> addressed peer ch rid ->
  zlen resp <= INFER_BODY_CAP -> bytes resp -> zlen dig = INFER_BODY_DIGEST_LEN -> bytes dig -> body_digest resp = Val dig ->
  forall fuel off out xs, 0 <= off < zlen resp -> zlen resp - off < Z.of_nat fuel -> body xs = ztake off resp -> partial (zlen resp) dig xs ->
  runs (chunk_loop fuel h peer ch rid resp dig off (zlen xs) out) (fun '(out', sq) => exists fs zs, out' = out ++ wires fs /\ sq = zlen (xs ++ zs) /\
    Forall2 (stamped h peer ch rid INFER_RESP) zs fs /\ completes INFER_BODY_CAP (xs ++ zs) (zlen resp) /\ body (xs ++ zs) = resp).
Proof.
  intros Hcu Had Hcap Hrb Hdl Hdb Hdig. induction fuel as [|fuel IH]; [lia|]. intros off out xs Hoff Hfuel Hbody Hpart.
  pose proof (partial_length _ _ _ Hpart) as Hlen. rewrite Hbody, zlen_ztake in Hlen by lia. pose proof (zlen_nonneg xs).
  destruct (chunk_loop_turn fuel h peer ch rid resp dig off (zlen xs) out) as (f & Hf & ->); try done; [lia|].
  destruct (next_chunk_link resp dig off (zlen xs) Hoff) as (Hlink & Hcl & Htake). set (x := next_chunk resp dig off (zlen xs)) in *.
  assert (body (xs ++ [x]) = ztake (off + zlen (snd x)) resp) as Hb' by by rewrite body_snoc, Hbody.
  assert (zlen (xs ++ [x]) = zlen xs + 1) as Hl' by by rewrite zlen_app.
  assert (more (fst x) = (off + zlen (snd x) <? zlen resp)) as Hm.
  { cbn [x next_chunk fst more]. rewrite Hcl. do 2 f_equal. unfold INFER_CHUNK_CAP, INFER_PAYLOAD_CAP, INFER_SUBHDR_LEN. lia. }
  pose proof Hlink as (_ & _ & _ & Hcpos). rewrite <- Hl'. destruct (Z.ltb_spec (off + zlen (snd x)) (zlen resp)) as [Hlt|Hge].
  - eapply runs_mono; [apply (IH (off + zlen (snd x)) (out ++ wire_bytes f) (xs ++ [x])); [lia | lia | done |]|].
    + apply partial_snoc. rewrite Hbody, zlen_ztake by lia. split; [done|]. split; [done|]. split; [done | lia].
    + intros [out' sq] (fs & zs & -> & -> & Hall & Hcomp & Hwhole). exists (f :: fs), (x :: zs).
      replace (xs ++ x :: zs) with ((xs ++ [x]) ++ zs) by by rewrite <- app_assoc. split; [unfold wires; cbn [map concat]; by rewrite app_assoc|].
      split; [done|]. split; [by constructor | done].
  - assert (off + zlen (snd x) = zlen resp) as Hend by lia. rewrite Hend in *. rewrite ztake_all in Hb' by lia. destruct fuel as [|fuel]; [lia|].
    cbn [chunk_loop]. rewrite Z.ltb_irrefl. cbn [negb]. apply runs_val. exists [f], [x]. unfold wires. cbn [map concat]. rewrite app_nil_r.
    split; [done|]. split; [done|]. split; [constructor; [exact Hf | constructor]|]. split; [|done]. exists dig, xs, x. split; [done|]. unfold valid, INFER_BODY_CAP in *.
    split; [lia|]. split; [done|]. split; [done|]. split; [done|]. by rewrite Hb'.
Qed.

(** ** Lemmas: answering a body *)

Definition responder (bd : list Z) : Z := if bool_decide (INFER_LOCAL_PROBE `prefix_of` bd) then INFER_DAEMON else TB_VMM_HOST.

(** The frames that answer a request's body: the closed error for the probe, and otherwise a
    heartbeat and all the chunks of the backend's response. *)
Inductive answers (h : InferHost) (ch : list Z) (rid : Z) (bd : list Z) : list InferFrame -> Prop :=
  | answer_nokey f : bd = INFER_NOKEY_PROBE -> stamped h TB_VMM_HOST ch rid ERR (empty, err_bytes NO_KEY) f -> answers h ch rid bd [f]
  | answer_mock p fs zs : bd <> INFER_NOKEY_PROBE ->
      Infer.mock_infer bd (zrepeat Infer.INFER_MOCK_RESP_LEN 0) = Val (body zs, Infer.INFER_MOCK_RESP_LEN) ->
      stamped h (responder bd) ch rid INFER_PENDING (empty, []) p ->
      Forall2 (stamped h (responder bd) ch rid INFER_RESP) zs fs ->
      completes INFER_BODY_CAP zs Infer.INFER_MOCK_RESP_LEN -> answers h ch rid bd (p :: fs).

Lemma is_local_body_eq bd : is_local_body bd = Val (bool_decide (INFER_LOCAL_PROBE `prefix_of` bd)).
Proof.
  unfold is_local_body. change (zlen INFER_LOCAL_PROBE) with 23. destruct (Z.leb_spec 23 (zlen bd)) as [Hl|Hs].
  - rewrite slice_ok, bind_val by lia. f_equal. apply bool_decide_ext. change (zsub 0 (23 - 0) bd) with (ztake 23 bd). split.
    + intros E. exists (zdrop 23 bd). by rewrite <- E, ztake_zdrop.
    + intros [k ->]. by apply ztake_app_eq.
  - rewrite bool_decide_false; [done|]. intros [k ->]. rewrite zlen_app in Hs. change (zlen INFER_LOCAL_PROBE) with 23 in Hs. pose proof (zlen_nonneg k). lia.
Qed.

Lemma mock_response bd : bd <> [] -> zlen bd <= INFER_BODY_CAP -> exists resp,
  Infer.mock_infer bd (zrepeat Infer.INFER_MOCK_RESP_LEN 0) = Val (resp, Infer.INFER_MOCK_RESP_LEN) /\ zlen resp = Infer.INFER_MOCK_RESP_LEN /\ bytes resp.
Proof.
  intros Hne Hcap. destruct (Infer.mock_infer_ok bd (zrepeat Infer.INFER_MOCK_RESP_LEN 0)) as (seed & ds & _ & Hds & Hl & E); [done | done | done|].
  exists (concat ds). rewrite E. change (zdrop Infer.INFER_MOCK_RESP_LEN (zrepeat Infer.INFER_MOCK_RESP_LEN 0)) with (@nil Z). rewrite app_nil_r.
  split; [done|]. split; [done|]. clear E Hl. induction Hds as [|k d ks ds Hd _ IH]; [constructor|]. cbn [concat]. apply Forall_app_2; [|done].
  destruct (uhash_digest (Infer.MOCK_LABEL ++ seed ++ to_le 4 k)) as (d' & E & _ & Hb). unfold Infer.mock_block in Hd. rewrite E in Hd. by injection Hd as <-.
Qed.

Lemma addressed_peer peer peer' ch rid : addressed peer ch rid -> is_u8 peer' -> addressed peer' ch rid.
Proof. by intros [_ ? ?] ?. Qed.

Lemma serve_infer_body_runs h ch rid bd : custodian h -> addressed TB_VMM_HOST ch rid -> bd <> [] -> zlen bd <= INFER_BODY_CAP ->
  runs (serve_infer_body h ch rid bd) (fun h' => exists fs line, h' = witness_write (extend_outbuf h (wires fs)) line /\ answers h ch rid bd fs).
Proof.
  intros Hcu Had Hne Hcap. unfold serve_infer_body. case_bool_decide as Hprobe.
  - rewrite err_canon_eq by done. rewrite bind_val, Z.eqb_refl. cbn [negb]. change (err_bytes NO_KEY ++ zdrop 4 (zrepeat INFER_ERR_PAYLOAD_LEN 0)) with (err_bytes NO_KEY).
    unfold m31_frame. eapply runs_bind; [apply (tagged_frame_runs h TB_VMM_HOST ch rid ERR empty (err_bytes NO_KEY)); [done | done | by apply parts_err | done |]|].
    + repeat (apply Forall_cons; split; [vm_compute; by split|]). by apply Forall_nil.
    + intros w (f & -> & Hf). apply runs_val. exists [f]. eexists. unfold wires. cbn [map concat]. rewrite app_nil_r. split; [done | by apply answer_nokey].
  - rewrite is_local_body_eq, bind_val. fold (responder bd). cbv zeta. destruct (mock_response bd Hne Hcap) as (resp & E & Hl & Hb). rewrite E, bind_val.
    change (Infer.INFER_MOCK_RESP_LEN =? 0) with false. cbv iota. rewrite ztake_all by (rewrite Hl; done).
    destruct (body_digest_runs resp) as (dig & Edig & Hdl & Hdb). rewrite Edig, bind_val.
    assert (addressed (responder bd) ch rid) as Had' by (eapply addressed_peer; [done|]; unfold responder; case_bool_decide; by vm_compute).
    eapply runs_bind; [apply (tagged_frame_runs h (responder bd) ch rid INFER_PENDING empty [] []); [done | done | constructor | done | constructor]|].
    intros w (p & -> & Hp). unfold Infer.INFER_MOCK_RESP_LEN in *. eapply runs_bind.
    + apply (chunk_loop_runs h (responder bd) ch rid resp dig Hcu Had') with (xs := []); try done; try (rewrite Hl; unfold INFER_BODY_CAP; lia).
      split; [intros i x; by rewrite lookup_nil | rewrite Hl; done].
    + intros [out' sq] (fs & zs & -> & _ & Hall & Hcomp & Hwhole). cbn [app] in Hcomp, Hwhole. rewrite Hl in Hcomp. apply runs_val. exists (p :: fs). eexists.
      split; [unfold wires; cbn [map concat]; done|]. eapply answer_mock; try done. by rewrite Hwhole.
Qed.

(** ** Lemmas: requests *)

Lemma stamped_ext h h' peer ch rid k x f : key h = key h' -> host_nonce h = host_nonce h' -> stamped h peer ch rid k x f -> stamped h' peer ch rid k x f.
Proof. intros Hk Hn [? ? ? ? ? ? ? ?]. split; congruence. Qed.
Lemma answers_ext h h' ch rid bd fs : key h = key h' -> host_nonce h = host_nonce h' -> answers h ch rid bd fs -> answers h' ch rid bd fs.
Proof.
  intros Hk Hn [f Hb Hf|p fs' zs Hb Hm Hp Hfs Hc]; [by eapply answer_nokey, stamped_ext|].
  eapply answer_mock; try done; [by eapply stamped_ext|]. eapply Forall2_impl; [done|]. intros z f Hz. by eapply stamped_ext.
Qed.

(** An authenticated request frame carrying the chunk [x]. *)
Record asks (key : list Z) (x : Chunk) (q : InferFrame) : Prop := {
  as_ok : frame_ok q;
  as_kind : kind q = INFER_REQ;
  as_nonce : nonce q = zrepeat INFER_NONCE_LEN 0;
  as_peer : peer_id q = 0;
  as_parts : has_parts (kind q) (payload q) (fst x) (snd x);
  as_tagged : tagged key q (fst x) (snd x);
}.

Lemma verify_infer_req_asks key q : zlen key = KHASH_KEY_LEN -> frame_ok q -> runs (verify_infer_req key q) (fun r => forall x, r = Some x <-> asks key x q).
Proof.
  intros Hk Hq. eapply runs_mono; [by apply verify_infer_req_iff|]. intros r Hr [s c]. specialize (Hr s c). rewrite Hr. split.
  - by intros (? & ? & ? & ? & ?).
  - by intros [? ? ? ? ? ?].
Qed.

(** The chunks received for the request of [q], and the challenge its answer will carry. *)
Inductive current (h : InferHost) (q : InferFrame) : list Chunk -> list Z -> Prop :=
  | current_new : restart h q = true -> current h q [] (challenge q)
  | current_going f xs : inflight h = Some f -> fl_req_id f = req_id q -> running INFER_BODY_CAP xs (fl_asm f) -> current h q xs (fl_challenge f).

Inductive outcome (h : InferHost) (q : InferFrame) (xs : list Chunk) (ch : list Z) (x : Chunk) : InferHost -> Prop :=
  | outcome_more a : extends INFER_BODY_CAP xs x -> more (fst x) = true -> running INFER_BODY_CAP (xs ++ [x]) a ->
      outcome h q xs ch x (set_inflight h (Some (mkInflight (req_id q) ch a)))
  | outcome_answer fs line : extends INFER_BODY_CAP xs x -> more (fst x) = false -> answers h ch (req_id q) (body xs ++ snd x) fs ->
      outcome h q xs ch x (witness_write (extend_outbuf (set_inflight h None) (wires fs)) line)
  | outcome_reject : ~ extends INFER_BODY_CAP xs x -> outcome h q xs ch x (set_inflight h None).

Lemma current_inflight h q xs ch : current h q xs ch -> exists a, running INFER_BODY_CAP xs a /\
  (if restart h q then set_inflight h (Some (mkInflight (req_id q) (challenge q) (asm_new INFER_BODY_CAP))) else h) =
    set_inflight h (Some (mkInflight (req_id q) ch a)).
Proof.
  intros [Hr|f ys Hf Hid Hrun].
  - rewrite Hr. exists (asm_new INFER_BODY_CAP). split; [by apply asm_new_running | done].
  - unfold restart. rewrite Hf, Hid, Z.eqb_refl. cbn [negb]. exists (fl_asm f). split; [done|]. destruct h as [k n a o i w e], f as [rid ch' a']. cbn in *. by subst.
Qed.

Lemma asks_small key x q : asks key x q -> 0 <= total_len (fst x) /\ zlen (snd x) < 2 ^ 62.
Proof.
  intros [Hq Hk _ _ Hp _]. destruct (has_parts_widths _ _ _ _ Hp) as (_ & Ht & _). destruct (has_parts_tagged _ _ _ _ Hp (proj1 (ok_payload q Hq))) as [_ Hc].
  unfold in_u in Ht. unfold INFER_CHUNK_CAP, INFER_PAYLOAD_CAP, INFER_SUBHDR_LEN in Hc. lia.
Qed.

Lemma serve_infer_req_runs h q x xs ch : custodian h -> asks (key h) x q -> current h q xs ch -> zlen ch = INFER_CHALLENGE_LEN /\ bytes ch ->
  runs (serve_infer_req h q) (outcome h q xs ch x).
Proof.
  intros Hcu Hx Hcur Hch. pose proof Hcu as [Hk Hn]. unfold serve_infer_req.
  eapply runs_bind; [apply (verify_infer_req_asks (key h) q Hk (as_ok _ _ _ Hx))|]. intros r Hr. apply Hr in Hx as Er. subst r. destruct x as [s c].
  destruct (current_inflight h q xs ch Hcur) as (a & Hrun & Eh). cbv zeta. rewrite Eh. cbn [set_inflight inflight fl_asm fl_req_id fl_challenge].
  destruct (asks_small _ _ _ Hx) as [H0 Hb]. eapply runs_bind; [by apply (push_step INFER_BODY_CAP xs a (s, c))|]. intros [a' [|n|]]; cbn [fst snd].
  - intros (Hext & Hm & Hrun'). apply runs_val. change (set_inflight (set_inflight h _) ?f) with (set_inflight h f). by apply outcome_more.
  - intros (Hext & Hm & -> & _ & Hbody). rewrite Hbody, bind_val. pose proof Hext as (Hv & _ & _ & Hlen). cbn [fst snd] in Hlen. rewrite Hm in Hlen. destruct Hlen as [Hlen _].
    assert (zlen (body xs ++ c) = total_len s) as Hl by by rewrite zlen_app. destruct Hv as [Hv _]. cbn [fst] in Hv.
    rewrite slice_ok, bind_val by lia. rewrite zsub_all by lia. change (set_inflight (set_inflight h _) None) with (set_inflight h None).
    eapply runs_mono; [apply (serve_infer_body_runs (set_inflight h None) ch (req_id q) (body xs ++ c)); [by split | | |]|].
    + split; [by vm_compute | done | apply (ok_req_id q (as_ok _ _ _ Hx))].
    + intros E. rewrite E, zlen_nil in Hl. lia.
    + rewrite Hl. lia.
    + intros h' (fs & line & -> & Hans). apply outcome_answer; [done | done|]. by eapply answers_ext; [| |exact Hans].
  - intros [Hno _]. apply runs_val. change (set_inflight (set_inflight h _) None) with (set_inflight h None). by apply outcome_reject.
Qed.

(** ** Lemmas: the echo *)

(** The echo of [req]: the frame a verifier under the key accepts. *)
Record echoed (h : InferHost) (req f : InferFrame) : Prop := {
  ec_ok : frame_ok f;
  ec_verifies : verify_echo (key h) f req = Val true;
  ec_nonce : nonce f = host_nonce h;
  ec_peer : peer_id f = TB_VMM_HOST;
  ec_payload : payload f = payload req;
}.

Lemma serve_echo_runs h req : custodian h -> frame_ok req -> echoes h + 1 < 2 ^ 64 ->
  runs (serve_echo h req) (fun h' => exists f line, echoed h req f /\
    h' = mkHost (key h) (host_nonce h) (accum h) (outbuf h ++ wire_bytes f ++ key h) (inflight h) (witness h ++ line) (echoes h + 1)).
Proof.
  intros [Hk [Hn Hnb]] Hq He. pose proof Hq as [_ Hr [Hc Hcb] _ _ _ Hp]. unfold serve_echo. rewrite echo_tag_eq by first [done | apply Hp].
  destruct (khash_digest (key h) Hk (echo_msg TB_VMM_HOST (host_nonce h) (challenge req) (payload req))) as (full & E & Hfull & Hfb). rewrite E, !bind_val.
  set (f := mkFrame ECHO_RESP (req_id req) (challenge req) (host_nonce h) TB_VMM_HOST (ztake 16 full) (payload req)).
  assert (frame_ok f) as Hf by (split; cbn; [done | done | done | done | by vm_compute | split; [unfold INFER_TAG_LEN; zl | by apply ztake_bytes] | done]).
  rewrite wire_of_ok, bind_val by done. cbv zeta. rewrite add_u_ok, bind_val by (cbn; lia). apply runs_val. exists f. eexists. split; [|reflexivity].
  split; try done. destruct (verify_echo_iff (key h) f req Hk Hf Hq) as (b & Eb & Hb). rewrite Eb. f_equal. apply Hb. repeat (split; [done|]). by exists full.
Qed.

(** ** Lemmas: the stream *)

(** Serve the windows a stream was cut into. *)
Fixpoint serve_all (h : InferHost) (ws : list (list Z)) : res InferHost :=
  match ws with
  | [] => Val h
  | w :: ws => f ← decode w; h ← (match f with Some frame => serve h frame | None => Val h end); serve_all h ws
  end.

Lemma set_accum_same h : set_accum h (accum h) = h.
Proof. by destruct h. Qed.

(** Serving does not look at the accumulator. *)
Lemma serve_body_accum h a ch rid bd : serve_infer_body (set_accum h a) ch rid bd = (h' ← serve_infer_body h ch rid bd; Val (set_accum h' a)).
Proof.
  assert (forall fuel peer resp dig off sq out, chunk_loop fuel (set_accum h a) peer ch rid resp dig off sq out = chunk_loop fuel h peer ch rid resp dig off sq out) as Hloop.
  { induction fuel as [|fuel IH]; intros; [done|]. cbn [chunk_loop]. destruct (negb (off <? zlen resp)); [done|].
    destruct (subhdr_canon _ _) as [[p n]|]; [|done]. rewrite !bind_val. destruct (negb _); [done|]. destruct (slice _ _ _) as [c|]; [|done]. rewrite !bind_val.
    change (tagged_frame (set_accum h a)) with (tagged_frame h). destruct (tagged_frame h _ _ _ _ _ _ _) as [w|]; [|done]. rewrite !bind_val. destruct (add_u 16 sq 1) as [sq'|]; [|done]. rewrite !bind_val. apply IH. }
  unfold serve_infer_body. case_bool_decide.
  - destruct (err_canon _ _) as [[ep n]|]; [|done]. rewrite !bind_val. destruct (negb _); [done|]. change (m31_frame (set_accum h a)) with (m31_frame h).
    by destruct (m31_frame h _ _ _ _ _ _) as [w|].
  - destruct (is_local_body bd) as [loc|]; [|done]. rewrite !bind_val. destruct (Infer.mock_infer _ _) as [[resp n]|]; [|done]. rewrite !bind_val.
    destruct (n =? 0); [done|]. destruct (body_digest _) as [dig|]; [|done]. rewrite !bind_val. change (tagged_frame (set_accum h a)) with (tagged_frame h).
    destruct (tagged_frame h _ _ _ _ _ _ _) as [w|]; [|done]. rewrite !bind_val, Hloop. by destruct (chunk_loop _ _ _ _ _ _ _ _ _ _) as [[out sq]|].
Qed.

Lemma serve_accum h a f : serve (set_accum h a) f = (h' ← serve h f; Val (set_accum h' a)).
Proof.
  unfold serve. destruct (kind f =? ECHO_REQ).
  { unfold serve_echo. cbn [set_accum key host_nonce]. destruct (echo_tag _ _ _ _ _) as [t|]; [|done]. rewrite !bind_val. destruct (wire_of _) as [w|]; [|done]. rewrite !bind_val. cbv zeta.
    cbn [witness_write extend_outbuf set_accum echoes key host_nonce]. by destruct (add_u 64 (echoes h) 1). }
  destruct (kind f =? INFER_REQ); [|done]. unfold serve_infer_req. change (key (set_accum h a)) with (key h). destruct (verify_infer_req (key h) f) as [[[s c]|]|]; [|done..].
  rewrite !bind_val. cbv zeta. change (restart (set_accum h a) f) with (restart h f).
  assert (forall g, (if restart h f then set_inflight (set_accum h a) g else set_accum h a) = set_accum (if restart h f then set_inflight h g else h) a) as -> by by destruct (restart h f).
  generalize (if restart h f then set_inflight h (Some (mkInflight (req_id f) (challenge f) (asm_new INFER_BODY_CAP))) else h). intros h1.
  change (inflight (set_accum h1 a)) with (inflight h1). destruct (inflight h1) as [fl|]; [|done]. destruct (push_chunk (fl_asm fl) s c) as [[asm r]|]; [|done]. rewrite !bind_val.
  destruct r as [|n|]; [done | | done]. destruct (asm_body asm) as [b|]; [|done]. rewrite !bind_val. destruct (slice b 0 n) as [bd|]; [|done]. rewrite !bind_val.
  change (set_inflight (set_accum h1 a) None) with (set_accum (set_inflight h1 None) a). apply serve_body_accum.
Qed.

Lemma serve_all_accum ws : forall h a, serve_all (set_accum h a) ws = (h' ← serve_all h ws; Val (set_accum h' a)).
Proof.
  induction ws as [|w ws IH]; intros h a; [done|]. cbn [serve_all]. destruct (decode w) as [[f|]|]; rewrite ?bind_val; [|apply IH | done].
  rewrite serve_accum. destruct (serve h f) as [h'|]; [|done]. rewrite !bind_val. apply IH.
Qed.

Lemma push_guest_reframe l : forall h,
  push_guest_bytes h l = ('(a, ws) ← reframe (accum h) l; h' ← serve_all h ws; Val (set_accum h' a)).
Proof.
  induction l as [|b l IH]; intros h; cbn [push_guest_bytes reframe]; [rewrite bind_val; cbn [serve_all]; by rewrite bind_val, set_accum_same|].
  destruct (push_byte (accum h) b) as [[a r]|]; [|done]. rewrite !bind_val. destruct r as [n|].
  - cbn [set_accum accum]. destruct (accum_bytes a) as [bs|]; [|done]. rewrite !bind_val. destruct (slice bs 0 n) as [w|]; [|done]. rewrite !bind_val.
    destruct (consume a n) as [a2|]; [|done]. rewrite !bind_val. change (set_accum (set_accum h a) a2) with (set_accum h a2).
    assert (forall h2, push_guest_bytes (set_accum h2 a2) l = ('(a', ws) ← reframe a2 l; h' ← serve_all h2 ws; Val (set_accum h' a'))) as IH'.
    { intros h2. rewrite IH. cbn [set_accum accum]. destruct (reframe a2 l) as [[a' ws]|]; [|done]. rewrite !bind_val, serve_all_accum. by destruct (serve_all h2 ws). }
    destruct (reframe a2 l) as [[a' ws]|] eqn:E; rewrite ?bind_val; cbn [serve_all].
    + destruct (decode w) as [[f|]|]; rewrite ?bind_val; [|rewrite IH', bind_val; done | done]. rewrite serve_accum. destruct (serve h f) as [h2|]; [|done].
      rewrite !bind_val, IH', bind_val. done.
    + destruct (decode w) as [[f|]|]; rewrite ?bind_val; [|by rewrite IH' | done]. rewrite serve_accum. destruct (serve h f) as [h2|]; [|done]. rewrite !bind_val, IH'. done.
  - rewrite IH. cbn [set_accum accum]. destruct (reframe a l) as [[a' ws]|]; [|done]. rewrite !bind_val, serve_all_accum. by destruct (serve_all h ws).
Qed.

(** ** The state the peer keeps *)

Record host_wf (h : InferHost) : Prop := {
  wf_custodian : custodian h;
  wf_inflight : forall f, inflight h = Some f ->
    (zlen (fl_challenge f) = INFER_CHALLENGE_LEN /\ bytes (fl_challenge f)) /\ exists xs, running INFER_BODY_CAP xs (fl_asm f);
}.

(** The bytes of an unfinished frame the peer holds. *)
Record pending (h : InferHost) (v : list Z) : Prop := {
  pd_holds : holds INFER_ACCUM_CAP (accum h) v;
  pd_bytes : bytes v;
  pd_stuck : stuck v;
}.

(** What the peer may send: echoes, each followed by the key, and whole answers. *)
Inductive emitted (h : InferHost) : list Z -> Prop :=
  | emitted_nothing : emitted h []
  | emitted_echo req f out : kind req = ECHO_REQ -> echoed h req f -> emitted h out -> emitted h (wire_bytes f ++ key h ++ out)
  | emitted_answer ch rid bd fs out : answers h ch rid bd fs -> emitted h out -> emitted h (wires fs ++ out).

Lemma custodian_ext h h' : key h' = key h -> host_nonce h' = host_nonce h -> custodian h -> custodian h'.
Proof. intros Hk Hn [? ?]. split; congruence. Qed.

(** A frame the peer acts on. *)
Definition heard (key : list Z) (f : InferFrame) : Prop := kind f = ECHO_REQ \/ exists x, asks key x f.

(** From [h] the peer went to [h'], having sent [out]. *)
Record went (h h' : InferHost) (out : list Z) : Prop := {
  wt_key : key h' = key h;
  wt_nonce : host_nonce h' = host_nonce h;
  wt_outbuf : outbuf h' = outbuf h ++ out;
  wt_accum : accum h' = accum h;
}.

Lemma unheard_ignored h f : custodian h -> frame_ok f -> ~ heard (key h) f -> serve h f = Val h.
Proof.
  intros [Hk _] Hf Hno. unfold serve. destruct (Z.eqb_spec (kind f) ECHO_REQ) as [He|_]; [exfalso; apply Hno; by left|].
  destruct (Z.eqb_spec (kind f) INFER_REQ) as [_|]; [|done]. unfold serve_infer_req.
  destruct (verify_infer_req_asks (key h) f Hk Hf) as (r & E & Hr). rewrite E, bind_val. destruct r as [x|]; [|done].
  exfalso. apply Hno. right. exists x. by apply Hr.
Qed.

Lemma heard_dec key f : zlen key = KHASH_KEY_LEN -> frame_ok f -> heard key f \/ ~ heard key f.
Proof.
  intros Hk Hf. destruct (verify_infer_req_asks key f Hk Hf) as ([x|] & _ & Hr); [left; right; exists x; by apply Hr|].
  destruct (Z.eq_dec (kind f) ECHO_REQ) as [He|He]; [by left; left|]. right. intros [?|[x Hx]]; [done|]. by apply Hr in Hx.
Qed.

Lemma current_exists h q : host_wf h -> frame_ok q -> exists xs ch, current h q xs ch /\ zlen ch = INFER_CHALLENGE_LEN /\ bytes ch.
Proof.
  intros [_ Hinf] Hq. destruct (restart h q) eqn:Hr; [exists [], (challenge q); split; [by apply current_new | apply (ok_challenge q Hq)]|].
  unfold restart in Hr. destruct (inflight h) as [f|] eqn:E; [|done]. apply negb_false_iff, Z.eqb_eq in Hr. destruct (Hinf f eq_refl) as (Hc & xs & Hrun).
  exists xs, (fl_challenge f). split; [by eapply current_going | done].
Qed.

(** One frame: the peer keeps its invariant and sends at most one whole reply. *)
Lemma serve_runs h f : host_wf h -> frame_ok f -> echoes h + 1 < 2 ^ 64 ->
  runs (serve h f) (fun h' => host_wf h' /\ echoes h' <= echoes h + 1 /\ exists out, went h h' out /\ forall tl, emitted h tl -> emitted h (out ++ tl)).
Proof.
  intros Hwf Hf He. pose proof Hwf as [Hcu Hinf]. destruct (heard_dec (key h) f (cu_key h Hcu) Hf) as [[Hk|[x Hx]]|Hno].
  - unfold serve. rewrite Hk, Z.eqb_refl. eapply runs_mono; [by apply serve_echo_runs|]. intros h' (g & line & Hg & ->).
    split; [split; [by apply (custodian_ext h) | done]|]. split; [done|]. exists (wire_bytes g ++ key h). split; [done|]. intros tl Htl. rewrite <- app_assoc. by eapply emitted_echo.
  - unfold serve. rewrite (as_kind _ _ _ Hx). change (INFER_REQ =? ECHO_REQ) with false. change (INFER_REQ =? INFER_REQ) with true. cbv iota.
    destruct (current_exists h f Hwf Hf) as (xs & ch & Hcur & Hch). eapply runs_mono; [by apply (serve_infer_req_runs h f x xs ch)|].
    intros h' [a Hext Hm Hrun|fs line Hext Hm Hans|Hno].
    + split; [split; [by apply (custodian_ext h)|]|].
      * cbn [set_inflight inflight]. intros fl [= <-]. cbn [fl_challenge fl_asm]. split; [done | by eexists].
      * split; [cbn; lia|]. exists []. split; [split; try done; cbn; by rewrite app_nil_r | done].
    + split; [split; [by apply (custodian_ext h) | done]|]. split; [cbn; lia|]. exists (wires fs). split; [done|]. intros tl Htl. by eapply emitted_answer.
    + split; [split; [by apply (custodian_ext h) | done]|]. split; [cbn; lia|]. exists []. split; [split; try done; cbn; by rewrite app_nil_r | done].
  - rewrite unheard_ignored by done. apply runs_val. split; [done|]. split; [lia|]. exists []. split; [split; try done; by rewrite app_nil_r | done].
Qed.

Lemma echoed_ext h h' req f : key h = key h' -> host_nonce h = host_nonce h' -> echoed h req f -> echoed h' req f.
Proof. intros Hk Hn [? ? ? ? ?]. split; congruence. Qed.
Lemma emitted_ext h h' out : key h = key h' -> host_nonce h = host_nonce h' -> emitted h out -> emitted h' out.
Proof.
  intros Hk Hn. induction 1 as [|req f out Hq Hf _ IH|ch rid bd fs out Ha _ IH]; [constructor | | ].
  - rewrite Hk. eapply emitted_echo; [done | by eapply echoed_ext | done].
  - eapply emitted_answer; [by eapply answers_ext | done].
Qed.

Lemma serve_all_runs ws : Forall (fun w => exists f, frame_ok f /\ w = wire_bytes f) ws -> forall h, host_wf h -> echoes h + zlen ws < 2 ^ 64 ->
  runs (serve_all h ws) (fun h' => host_wf h' /\ echoes h' <= echoes h + zlen ws /\ exists out, went h h' out /\ emitted h out).
Proof.
  intros Hws. induction Hws as [|w ws (f & Hf & ->) _ IH]; intros h Hwf He; cbn [serve_all].
  { apply runs_val. split; [done|]. split; [rewrite zlen_nil; lia|]. exists []. split; [split; try done; by rewrite app_nil_r | constructor]. }
  rewrite zlen_cons in *. pose proof (zlen_nonneg ws). rewrite decode_wire, bind_val by done.
  eapply runs_bind; [apply serve_runs; [done | done | lia]|]. intros h1 (Hwf1 & He1 & out1 & [Hk Hn Ho Ha] & Hem).
  eapply runs_mono; [apply IH; [done | clear -He1 He H; lia]|]. intros h2 (Hwf2 & He2 & out2 & [Hk2 Hn2 Ho2 Ha2] & Hem2). split; [done|]. split; [lia|]. exists (out1 ++ out2).
  split; [split; [congruence | congruence | by rewrite Ho2, Ho, app_assoc | congruence]|]. apply Hem. by eapply emitted_ext; [| |exact Hem2].
Qed.

Lemma reframe_count l : forall a a' ws, reframe a l = Val (a', ws) -> zlen ws <= zlen l.
Proof.
  induction l as [|b l IH]; intros a a' ws; cbn [reframe]; [by intros [= <- <-]|]. rewrite zlen_cons.
  destruct (push_byte a b) as [[a1 [n|]]|]; [| |done]; rewrite bind_val.
  - destruct (accum_bytes a1) as [bs|]; [|done]. rewrite bind_val. destruct (slice bs 0 n) as [w|]; [|done]. rewrite bind_val. destruct (consume a1 n) as [a2|]; [|done].
    rewrite bind_val. destruct (reframe a2 l) as [[a3 ws']|] eqn:E; [|done]. rewrite bind_val. intros [= <- <-]. rewrite zlen_cons. apply IH in E. lia.
  - intros E. apply IH in E. lia.
Qed.

Lemma serve_all_unheard fs h : custodian h -> Forall (fun f => frame_ok f /\ ~ heard (key h) f) fs -> serve_all h (map wire_bytes fs) = Val h.
Proof.
  intros Hcu Hfs. induction Hfs as [|f fs [Hf Hno] _ IH]; [done|]. cbn [map serve_all]. by rewrite decode_wire, bind_val, unheard_ignored, bind_val, IH.
Qed.

(** Serving all the chunks of a body, from those already received on. *)
Lemma serve_chunks rid ch n : zlen ch = INFER_CHALLENGE_LEN /\ bytes ch -> forall zs qs z q ys h, custodian h ->
  Forall2 (fun x f => asks (key h) x f /\ req_id f = rid) (z :: zs) (q :: qs) -> completes INFER_BODY_CAP (ys ++ z :: zs) n -> current h q ys ch ->
  runs (serve_all h (map wire_bytes (q :: qs))) (fun h' => exists fs line, answers h ch rid (body (ys ++ z :: zs)) fs /\
    h' = witness_write (extend_outbuf (set_inflight h None) (wires fs)) line).
Proof.
  intros Hch. induction zs as [|z2 zs IH]; intros qs z q ys h Hcu Hall Hcomp Hcur; apply Forall2_cons_1 in Hall as [[Hz Hid] Hall].
  - apply Forall2_nil_inv_l in Hall as ->. pose proof Hcomp as (Hext & Hm & _)%extends_completes. cbn [map serve_all].
    rewrite decode_wire, bind_val by apply Hz. unfold serve. rewrite (as_kind _ _ _ Hz). change (INFER_REQ =? ECHO_REQ) with false. change (INFER_REQ =? INFER_REQ) with true. cbv iota.
    eapply runs_bind; [by apply (serve_infer_req_runs h q z ys ch)|]. intros h1 [a _ Hm' _|fs line _ _ Hans|Hno]; [congruence | | done].
    apply runs_val. exists fs, line. rewrite body_snoc. rewrite <- Hid. done.
  - destruct qs as [|q2 qs]; [by apply Forall2_cons_nil_inv in Hall|]. destruct (completes_prefix _ _ _ _ _ Hcomp) as [Hext Hm]; [done|].
    change (map wire_bytes (q :: q2 :: qs)) with (wire_bytes q :: map wire_bytes (q2 :: qs)). cbn [serve_all].
    rewrite decode_wire, bind_val by apply Hz. unfold serve at 1. rewrite (as_kind _ _ _ Hz). change (INFER_REQ =? ECHO_REQ) with false. change (INFER_REQ =? INFER_REQ) with true. cbv iota.
    eapply runs_bind; [by apply (serve_infer_req_runs h q z ys ch)|]. intros h1 [a _ _ Hrun|fs line _ Hm' _|Hno]; [ | congruence | done].
    replace (ys ++ z :: z2 :: zs) with ((ys ++ [z]) ++ z2 :: zs) in * by by rewrite <- app_assoc.
    eapply runs_mono; [apply (IH qs z2 q2 (ys ++ [z])); [by apply (custodian_ext h) | done | done |]|].
    + pose proof Hall as [[_ Hid2] _]%Forall2_cons_1. change ch with (fl_challenge (mkInflight (req_id q) ch a)). apply current_going; [done | cbn; congruence | done].
    + intros h' (fs & line & Hans & ->). exists fs, line. split; [by eapply answers_ext; [| |exact Hans] | done].
Qed.

(** ** Lemmas: the guest's end *)

(** What a guest holding the key reads: the stream's frames, each verified for its request. *)
Definition guest_reads (key : list Z) (rid : Z) (ch l : list Z) : res (list (option Chunk)) :=
  '(_, ws) ← reframe (new INFER_ACCUM_CAP) l;
  fs ← mapM decode ws;
  mapM (fun f => match f with Some f => verify_infer_resp key f rid ch | None => Val None end) fs.

Lemma stamped_verifies h peer ch rid k x f : custodian h -> k = INFER_RESP \/ k = INFER_PENDING \/ k = ERR -> stamped h peer ch rid k x f ->
  verify_infer_resp (key h) f rid ch = Val (Some x).
Proof.
  intros [Hk _] Hkind [Hf Ek Er Ec _ _ Hp Ht]. destruct (verify_infer_resp_iff (key h) f rid ch Hk Hf) as (r & E & Hr). rewrite E. f_equal. destruct x as [s c].
  apply Hr. rewrite Ek in *. done.
Qed.

Lemma guest_reads_wires key rid ch fs xs : Forall frame_ok fs -> Forall2 (fun x f => verify_infer_resp key f rid ch = Val (Some x)) xs fs ->
  guest_reads key rid ch (wires fs) = Val (map Some xs).
Proof.
  intros Hok Hv. unfold guest_reads. assert (wires fs = noisy (map (fun f => ([], f)) fs) []) as ->.
  { clear. induction fs as [|f fs IH]; [done|]. cbn [map noisy app]. by rewrite <- IH. }
  destruct (noisy_windows INFER_ACCUM_CAP (map (fun f => ([], f)) fs) [] (new INFER_ACCUM_CAP)) as ([a ws] & E & _ & Ews).
  - done.
  - by apply new_holds.
  - apply Forall_fmap. eapply Forall_impl; [exact Hok|]. intros f Hf. split; [by split | done].
  - by split.
  - rewrite E, bind_val, Ews, map_map. cbn [snd]. rewrite decode_wires, bind_val by done. clear E Ews Hok. induction Hv as [|x f xs fs Hx _ IH]; [done|]. cbn [map].
    change (mapM ?g (Some f :: ?l)) with (y ← g (Some f); k ← mapM g l; Val (y :: k)). cbv beta iota. by rewrite Hx, bind_val, IH.
Qed.

(** A body's chunks, assembled. *)
Definition assembles (zs : list Chunk) (resp : list Z) : Prop :=
  runs (push_all (asm_new INFER_BODY_CAP) zs) (fun '(a, rs) => ended rs (zlen resp) /\ asm_body a = Val resp).

Lemma completes_assembles zs : completes INFER_BODY_CAP zs (zlen (body zs)) -> Forall carried zs -> assembles zs (body zs).
Proof.
  intros Hc Hz. assert (zs <> []) as Hne by (intros ->; destruct Hc as (d & [|y ys] & x & E & _); done). unfold assembles.
  eapply runs_mono; [apply (push_all_runs INFER_BODY_CAP zs) with (xs := []); [done | done | by apply asm_new_running]|].
  intros [a rs] (_ & Hiff & Hb). cbn [app] in Hiff, Hb. assert (ended rs (zlen (body zs))) as He by by apply Hiff. split; [done | by eapply Hb].
Qed.

Definition mock_response_of (bd resp : list Z) : Prop :=
  Infer.mock_infer bd (zrepeat Infer.INFER_MOCK_RESP_LEN 0) = Val (resp, zlen resp).

(** What the guest makes of an answer. *)
Definition understood (key : list Z) (rid : Z) (ch bd out : list Z) : Prop :=
  if bool_decide (bd = INFER_NOKEY_PROBE) then
    guest_reads key rid ch out = Val [Some (empty, err_bytes NO_KEY)] /\ err_decode (err_bytes NO_KEY) = Val (Some (NO_KEY, false))
  else exists zs resp, guest_reads key rid ch out = Val (Some (empty, []) :: map Some zs) /\ assembles zs resp /\ mock_response_of bd resp.

Lemma answers_understood h ch rid bd fs : custodian h -> answers h ch rid bd fs -> understood (key h) rid ch bd (wires fs).
Proof.
  intros Hcu [f -> Hf|p fs' zs Hne Hm Hp Hfs Hc]; unfold understood.
  - rewrite bool_decide_true by done. split; [|by vm_compute]. apply (guest_reads_wires _ _ _ [f] [(empty, err_bytes NO_KEY)]).
    + apply Forall_singleton. apply Hf.
    + apply Forall2_cons_2; [|by constructor]. apply (stamped_verifies h TB_VMM_HOST ch rid ERR); [done | by right; right | done].
  - rewrite bool_decide_false by done. pose proof Hc as (_ & _ & _ & _ & _ & _ & _ & _ & Hl & _). exists zs, (body zs). split; [|split].
    + apply (guest_reads_wires _ _ _ (p :: fs') ((empty, []) :: zs)).
      * apply Forall_cons. split; [apply Hp|]. clear -Hfs. induction Hfs as [|z f zs fs Hf _ IH]; constructor; [apply Hf | done].
      * apply Forall2_cons_2; [eapply stamped_verifies; [done | by right; left | exact Hp]|]. eapply Forall2_impl; [exact Hfs|]. intros z f Hz.
        eapply stamped_verifies; [done | by left | exact Hz].
    + apply completes_assembles; [by rewrite Hl|]. clear -Hfs. induction Hfs as [|z f zs fs Hf _ IH]; constructor; [|done]. destruct Hf as [Hok _ _ _ _ _ Hparts _].
      destruct (has_parts_widths _ _ _ _ Hparts) as (_ & Ht & _). destruct (has_parts_tagged _ _ _ _ Hparts (proj1 (ok_payload f Hok))) as [_ Hcl].
      unfold in_u in Ht. unfold INFER_CHUNK_CAP, INFER_PAYLOAD_CAP, INFER_SUBHDR_LEN in Hcl. split; lia.
    + unfold mock_response_of. by rewrite Hl.
Qed.

Lemma push_guest_runs h v l : host_wf h -> pending h v -> bytes l -> echoes h + zlen l < 2 ^ 64 ->
  runs (push_guest_bytes h l) (fun h' => host_wf h' /\ (exists v', pending h' v') /\ echoes h' <= echoes h + zlen l /\
    (exists out, went h (set_accum h' (accum h)) out /\ emitted h out) /\
    ((forall ws rest f, parses (v ++ l) ws rest -> wire_bytes f ∈ ws -> frame_ok f -> ~ heard (key h) f) -> outbuf h' = outbuf h /\ inflight h' = inflight h)).
Proof.
  intros Hwf [Hh Hv Hst] Hl He. rewrite push_guest_reframe.
  destruct (reframe_runs INFER_ACCUM_CAP l) with (a := accum h) (v := v) as ([a ws] & E & rest & Ha & Hs & Hb & Hp); [done..|]. pose proof (reframe_count _ _ _ _ E) as Hn.
  rewrite E, bind_val. pose proof (parses_frames _ _ _ Hp) as Hws. specialize (Hws ltac:(by apply Forall_app_2)).
  destruct (serve_all_runs ws Hws h Hwf) as (h1 & E1 & [Hcu1 Hinf1] & He1 & out & [Hk1 Hn1 Ho1 _] & Hem); [lia|]. rewrite E1, bind_val. apply runs_val.
  split; [split; [by apply (custodian_ext h1) | done]|]. split; [by exists rest|]. split; [cbn; lia|]. split; [by exists out|]. intros Hno.
  assert (exists fs, ws = map wire_bytes fs /\ Forall (fun f => frame_ok f /\ ~ heard (key h) f) fs) as (fs & -> & Hfs).
  { assert (forall f, wire_bytes f ∈ ws -> frame_ok f -> ~ heard (key h) f) as Hno' by (intros f; by apply (Hno ws rest f)). clear -Hws Hno'.
    induction Hws as [|w ws (f & Hf & ->) _ IH]; [by exists []|]. destruct IH as (fs & -> & Hfs); [intros g Hg; apply Hno'; by right|]. exists (f :: fs).
    split; [done|]. constructor; [|done]. split; [done|]. apply Hno'; [by left | done]. }
  rewrite serve_all_unheard in E1 by (by try apply Hwf). by injection E1 as <-.
Qed.

Lemma request_answered_runs h rid ch n x xs q qs noise last : host_wf h -> pending h [] ->
  (forall f, inflight h = Some f -> fl_req_id f <> rid) ->
  Forall2 (fun x f => asks (key h) x f /\ req_id f = rid) (x :: xs) (q :: qs) -> challenge q = ch -> completes INFER_BODY_CAP (x :: xs) n ->
  length noise = length (q :: qs) -> Forall quiet noise -> quiet last ->
  runs (push_guest_bytes h (noisy (zip noise (q :: qs)) last)) (fun h' => inflight h' = None /\ pending h' [] /\ exists out,
    outbuf h' = outbuf h ++ out /\ understood (key h) rid ch (body (x :: xs)) out).
Proof.
  intros [Hcu _] [Hh _ _] Hinf Hall Hch Hcomp Hlen Hnoise Hlast. rewrite push_guest_reframe. pose proof Hall as [[Hq Hid] _]%Forall2_cons_1.
  eapply runs_bind; [apply (noisy_windows INFER_ACCUM_CAP); [done | done | | done]|].
  - assert (Forall frame_ok (q :: qs)) as Hqs by (clear -Hall; induction Hall as [|z f zs fs [Hf _] _ IH]; constructor; [apply Hf | done]).
    clear -Hnoise Hqs Hlen. revert Hlen Hqs. generalize (q :: qs). induction Hnoise as [|g noise Hg _ IH]; intros [|f fs] Hl Hfs; try done.
    apply Forall_cons in Hfs as [Hf Hfs]. cbn [zip_with]. constructor; [done|]. apply IH; [by injection Hl | done].
  - intros [a ws] [Ha ->]. rewrite <- (map_map snd wire_bytes). assert (map snd (zip noise (q :: qs)) = q :: qs) as -> by (by apply snd_zip; lia).
    assert (current h q [] ch) as Hcur.
    { rewrite <- Hch. apply current_new. unfold restart. destruct (inflight h) as [f|]; [|done]. rewrite negb_true_iff, Z.eqb_neq, Hid. by apply Hinf. }
    eapply runs_bind; [apply (serve_chunks rid ch n) with (zs := xs) (z := x) (ys := []); try done; rewrite <- Hch; apply (ok_challenge q), Hq|].
    intros h' (fs & line & Hans & ->). apply runs_val. split; [done|]. split; [split; [done | constructor | by split]|]. exists (wires fs).
    split; [done|]. by apply answers_understood.
Qed.

Lemma echo_answered_runs h req pre last : host_wf h -> pending h [] -> frame_ok req -> kind req = ECHO_REQ -> quiet pre -> quiet last -> echoes h + 1 < 2 ^ 64 ->
  runs (push_guest_bytes h (noisy [(pre, req)] last)) (fun h' => inflight h' = inflight h /\ pending h' [] /\ exists f,
    outbuf h' = outbuf h ++ wire_bytes f ++ key h /\ echoed h req f).
Proof.
  intros [Hcu _] [Hh _ _] Hq Hk Hpre Hlast He. rewrite push_guest_reframe. eapply runs_bind; [apply (noisy_windows INFER_ACCUM_CAP); [done | done | | done]|].
  { by apply Forall_singleton. }
  intros [a ws] [Ha ->]. cbn [map snd serve_all]. rewrite decode_wire, bind_val by done. unfold serve. rewrite Hk, Z.eqb_refl.
  destruct (serve_echo_runs h req Hcu Hq He) as (h1 & E & f & line & Hf & ->). rewrite E, !bind_val. apply runs_val.
  split; [done|]. split; [split; [done | constructor | by split]|]. by exists f.
Qed.

(** ** Properties *)

(** C11: a request is answered, end to end.  Let the peer be between frames, not receiving the
    request [rid] already.  If the guest sends all the chunks of a body, in authenticated
    request frames with noise around them, the peer queues exactly one reply, ends its
    reception, and the guest that reads the reply, verifies every frame of it for [rid] and
    the challenge of the first request frame, and assembles the chunks, has the deterministic
    backend's response to that body; or, for the probe, the closed error NO_KEY. *)
Theorem request_answered_end_to_end h rid ch n x xs q qs noise last : host_wf h -> pending h [] ->
  (forall f, inflight h = Some f -> fl_req_id f <> rid) ->
  Forall2 (fun x f => asks (key h) x f /\ req_id f = rid) (x :: xs) (q :: qs) -> challenge q = ch -> completes INFER_BODY_CAP (x :: xs) n ->
  length noise = length (q :: qs) -> Forall quiet noise -> quiet last ->
  runs (push_guest_bytes h (noisy (zip noise (q :: qs)) last)) (fun h' => inflight h' = None /\ pending h' [] /\ exists out,
    outbuf h' = outbuf h ++ out /\ understood (key h) rid ch (body (x :: xs)) out).
Proof. apply request_answered_runs. Qed.

(** An echo is answered.  Between frames, an echo request with noise around it makes the
    peer queue the one frame that answers it, which a verifier with the key accepts, followed
    by the key, and touches no request in progress. *)
Theorem echo_answered h req pre last : host_wf h -> pending h [] -> frame_ok req -> kind req = ECHO_REQ -> quiet pre -> quiet last -> echoes h + 1 < 2 ^ 64 ->
  runs (push_guest_bytes h (noisy [(pre, req)] last)) (fun h' => inflight h' = inflight h /\ pending h' [] /\ exists f,
    outbuf h' = outbuf h ++ wire_bytes f ++ key h /\ echoed h req f).
Proof. apply echo_answered_runs. Qed.

(** C12: no stream makes the peer fail or speak out of turn.  Whatever bytes arrive in whatever
    portions, the peer never panics and keeps its invariant and its credentials; what it sends
    is a sequence of whole replies, each an echo with the key or a complete tagged answer; and
    if no frame in the stream is an echo request or an authenticated request frame, nothing is
    sent and no reception changes. *)
Theorem host_survives_any_stream h v l : host_wf h -> pending h v -> bytes l -> echoes h + zlen l < 2 ^ 64 ->
  runs (push_guest_bytes h l) (fun h' => host_wf h' /\ (exists v', pending h' v') /\ key h' = key h /\ host_nonce h' = host_nonce h /\
    (exists out, outbuf h' = outbuf h ++ out /\ emitted h out) /\
    ((forall ws rest f, parses (v ++ l) ws rest -> wire_bytes f ∈ ws -> frame_ok f -> ~ heard (key h) f) -> outbuf h' = outbuf h /\ inflight h' = inflight h)).
Proof.
  intros Hwf Hp Hl He. eapply runs_mono; [by apply (push_guest_runs h v l)|]. intros h' (Hwf' & Hp' & _ & (out & [Hk Hn Ho _] & Hem) & Hno).
  split; [done|]. split; [done|]. split; [done|]. split; [done|]. split; [by exists out | done].
Qed.

(** ** Witnesses *)

Definition demo_host : InferHost := with_key_nonce (zrepeat KHASH_KEY_LEN 5) (zrepeat INFER_NONCE_LEN 6) [].

Lemma demo_host_wf : host_wf demo_host /\ pending demo_host [].
Proof.
  split; [split; [split; [done | split; [done | apply zrepeat_Forall; unfold in_u; lia]] | done]|]. split; [by apply new_holds | constructor | by split].
Qed.

(** The guest can make an authenticated frame for any chunk. *)
Lemma asks_exists key rid ch x : zlen key = KHASH_KEY_LEN -> is_u64 rid -> zlen ch = INFER_CHALLENGE_LEN /\ bytes ch ->
  subhdr_ok (fst x) -> snd x <> [] -> zlen (snd x) <= INFER_CHUNK_CAP -> bytes (snd x) -> exists q, asks key x q /\ req_id q = rid /\ challenge q = ch.
Proof.
  intros Hk Hr [Hc Hcb] Hs Hne Hl Hb. destruct (khash_digest key Hk (infer_msg 0 (zrepeat INFER_NONCE_LEN 0) ch rid INFER_REQ (fst x) (snd x))) as (full & E & Hf & Hfb).
  exists (mkFrame INFER_REQ rid ch (zrepeat INFER_NONCE_LEN 0) 0 (ztake 16 full) (subhdr_bytes (fst x) ++ snd x)). split; [|done].
  unfold INFER_CHUNK_CAP, INFER_PAYLOAD_CAP, INFER_SUBHDR_LEN in Hl. pose proof (subhdr_bytes_length _ Hs) as Hsl.
  split; cbn; try done; [|apply parts_chunk; [by left | done | done] | by exists full].
  split; cbn; try done; [split; [done | apply zrepeat_Forall; unfold in_u; lia] | split; [unfold INFER_TAG_LEN; zl | by apply ztake_bytes]|].
  split; [rewrite zlen_app, Hsl; unfold INFER_PAYLOAD_CAP; lia | apply Forall_app_2; [by apply subhdr_bytes_bytes | done]].
Qed.

Lemma demo_asks sq m c : 0 <= sq < 2 -> c <> [] -> zlen c <= INFER_CHUNK_CAP -> bytes c ->
  exists q, asks (key demo_host) (mkSub sq m 3 demo_digest, c) q /\ req_id q = 7 /\ challenge q = zrepeat INFER_CHALLENGE_LEN 1.
Proof.
  intros Hs Hne Hl Hb. generalize demo_digest (proj2 demo_digest_ok). intros d Hd.
  apply asks_exists; [done | by vm_compute | split; [done | apply zrepeat_Forall; unfold in_u; lia] | | done | done | done].
  split; cbn; [unfold in_u; lia | unfold INFER_BODY_CAP; lia | done].
Qed.

Lemma request_answered_end_to_end_witness : exists q1 q2 h', push_guest_bytes demo_host ([3] ++ wire_bytes q1 ++ [] ++ wire_bytes q2 ++ [0]) = Val h' /\
  understood (key demo_host) 7 (zrepeat INFER_CHALLENGE_LEN 1) [7; 8; 9] (outbuf h').
Proof.
  assert (bytes [7; 8]) as Hb1 by (repeat (apply Forall_cons; split; [unfold in_u; lia|]); apply Forall_nil; exact I).
  assert (bytes [9]) as Hb2 by (apply Forall_singleton; unfold in_u; lia).
  destruct (demo_asks 0 true [7; 8]) as (q1 & Hq1 & Hr1 & Hc1); [lia | discriminate | discriminate | exact Hb1|].
  destruct (demo_asks 1 false [9]) as (q2 & Hq2 & Hr2 & _); [lia | discriminate | discriminate | exact Hb2|]. destruct demo_host_wf as [Hwf Hp].
  destruct (request_answered_end_to_end demo_host 7 (zrepeat INFER_CHALLENGE_LEN 1) 3 (mkSub 0 true 3 demo_digest, [7; 8]) [(mkSub 1 false 3 demo_digest, [9])] q1 [q2] [[3]; []] [0] Hwf Hp) as (h' & E & _ & _ & out & Ho & Hu).
  - discriminate.
  - apply Forall2_cons_2; [exact (conj Hq1 Hr1)|]. apply Forall2_cons_2; [exact (conj Hq2 Hr2) | apply Forall2_nil_2].
  - exact Hc1.
  - exact demo_completes.
  - reflexivity.
  - apply Forall_cons. split; [split; apply Forall_singleton; [unfold in_u; lia | discriminate]|]. apply Forall_cons. split; [split; apply Forall_nil; exact I | apply Forall_nil; exact I].
  - split; apply Forall_singleton; [unfold in_u; lia | discriminate].
  - exists q1, q2, h'. split; [exact E|]. change (outbuf demo_host) with (@nil Z) in Ho. cbn [app] in Ho. rewrite Ho. exact Hu.
Defined.

Lemma echo_answered_witness : exists h' f, push_guest_bytes demo_host ([3] ++ wire_bytes demo_frame ++ [0]) = Val h' /\
  outbuf h' = wire_bytes f ++ key demo_host /\ verify_echo (key demo_host) f demo_frame = Val true.
Proof.
  destruct demo_host_wf as [Hwf Hp]. destruct (echo_answered demo_host demo_frame [3] [0] Hwf Hp) as (h' & E & _ & _ & f & Ho & Hf).
  - apply demo_frame_ok.
  - reflexivity.
  - split; apply Forall_singleton; [unfold in_u; lia | discriminate].
  - split; apply Forall_singleton; [unfold in_u; lia | discriminate].
  - reflexivity.
  - exists h', f. split; [exact E|]. split; [exact Ho | exact (ec_verifies _ _ _ Hf)].
Defined.

Lemma host_survives_any_stream_witness : exists h', push_guest_bytes demo_host [88; 89; 1; 1; 0; 255] = Val h' /\ host_wf h'.
Proof.
  destruct demo_host_wf as [Hwf Hp]. destruct (host_survives_any_stream demo_host [] [88; 89; 1; 1; 0; 255] Hwf Hp) as (h' & E & Hwf' & _).
  - repeat (apply Forall_cons; split; [unfold in_u; lia|]). apply Forall_nil. exact I.
  - reflexivity.
  - exists h'. split; [exact E | exact Hwf'].
Defined.
