(* ===== verification/GuestMem.v ===== *)
(** * Interface: guest memory

    What the monitor under [tb-vmm/] relies on of the guest memory it is given (a
    [GuestMemoryMmap] of the [vm_memory] crate): some addresses are mapped, each to a byte; a
    read or a write of a range succeeds as a whole when all of it is mapped; and no write
    touches a byte outside its range, or maps or unmaps anything.  A write that fails may have
    stored a part.  A concrete memory of one region from address 0 on implements it. *)
From Stdlib Require Import ZArith Lia.
From stdpp Require Import base numbers option tactics sets list.
From S2P Require Import Prelude.
Open Scope Z_scope.

Class GuestMemory (M : Type) := {
  byte_at : M -> Z -> option Z;
  read_slice : M -> Z -> Z -> option (list Z);
  write_slice : M -> Z -> list Z -> M * bool;
  byte_at_u8 : forall m a b, byte_at m a = Some b -> is_u8 b;
  read_slice_ok : forall m a n l, 0 <= n -> read_slice m a n = Some l ->
    zlen l = n /\ forall i, 0 <= i < n -> byte_at m (a + i) = l !! Z.to_nat i;
  read_slice_mapped : forall m a n, 0 < n -> (forall i, 0 <= i < n -> is_Some (byte_at m (a + i))) -> is_Some (read_slice m a n);
  write_slice_kept : forall m a l m' ok x, bytes l -> write_slice m a l = (m', ok) -> (x < a \/ a + zlen l <= x) -> byte_at m' x = byte_at m x;
  write_slice_maps : forall m a l m' ok x, bytes l -> write_slice m a l = (m', ok) -> is_Some (byte_at m' x) <-> is_Some (byte_at m x);
  write_slice_ok : forall m a l m', bytes l -> write_slice m a l = (m', true) -> forall i, 0 <= i < zlen l -> byte_at m' (a + i) = l !! Z.to_nat i;
  write_slice_mapped : forall m a l, bytes l -> 0 < zlen l -> (forall i, 0 <= i < zlen l -> is_Some (byte_at m (a + i))) -> exists m', write_slice m a l = (m', true);
}.

Definition mapped {M} `{GuestMemory M} (m : M) (a n : Z) : Prop := forall i, 0 <= i < n -> is_Some (byte_at m (a + i)).
(** The two memories hold the same on a range. *)
Definition same_on {M} `{GuestMemory M} (m m' : M) (a n : Z) : Prop := forall i, 0 <= i < n -> byte_at m' (a + i) = byte_at m (a + i).

(** ** The interface's lemmas *)

Section facts.
Context {M : Type} `{GuestMemory M}.

Lemma read_slice_bytes m a n l : 0 <= n -> read_slice m a n = Some l -> zlen l = n /\ bytes l.
Proof.
  intros Hn Hr. apply read_slice_ok in Hr as [Hl Hb]; [|done]. split; [done|]. apply Forall_lookup. intros i x Hi.
  assert (0 <= Z.of_nat i < n) as Hlt by (apply lookup_lt_Some in Hi; unfold zlen in Hl; lia). specialize (Hb (Z.of_nat i) Hlt).
  rewrite Nat2Z.id, Hi in Hb. by eapply byte_at_u8.
Qed.

(** A read is determined by the bytes of its range. *)
Lemma read_slice_iff m a n l : 0 < n -> read_slice m a n = Some l <-> zlen l = n /\ forall i, 0 <= i < n -> byte_at m (a + i) = l !! Z.to_nat i.
Proof.
  intros Hn. split; [intros Hr; apply read_slice_ok; [lia | done]|]. intros [Hl Hb].
  destruct (read_slice_mapped m a n Hn) as [l' Hl'].
  - intros i Hi. rewrite Hb by done. apply lookup_lt_is_Some_2. unfold zlen in Hl. lia.
  - rewrite Hl'. f_equal. apply read_slice_ok in Hl' as [Hlen' Hb']; [|lia]. apply list_eq. intros i. destruct (decide (Z.of_nat i < n)) as [Hlt|Hge].
    + specialize (Hb (Z.of_nat i) ltac:(lia)). specialize (Hb' (Z.of_nat i) ltac:(lia)). rewrite Nat2Z.id in *. congruence.
    + rewrite !lookup_ge_None_2; [done | unfold zlen in Hl; lia | unfold zlen in Hlen'; lia].
Qed.

Lemma read_slice_same m m' a n : 0 < n -> same_on m m' a n -> read_slice m' a n = read_slice m a n.
Proof.
  intros Hn Hs. destruct (read_slice m a n) as [l|] eqn:E.
  - apply (read_slice_iff m a n l Hn) in E as [Hl Hb]. apply read_slice_iff; [done|]. split; [done|]. intros i Hi. by rewrite Hs, Hb.
  - destruct (read_slice m' a n) as [l|] eqn:E'; [|done]. exfalso. apply (read_slice_iff m' a n l Hn) in E' as [Hl Hb].
    assert (read_slice m a n = Some l) as ?; [|congruence]. apply read_slice_iff; [done|]. split; [done|]. intros i Hi. by rewrite <- Hs, Hb.
Qed.

Lemma read_slice_is_mapped m a n l : 0 <= n -> read_slice m a n = Some l -> mapped m a n.
Proof. intros Hn [Hl Hb]%read_slice_ok; [|done]. intros i Hi. rewrite Hb by done. apply lookup_lt_is_Some_2. unfold zlen in Hl. lia. Qed.

Lemma same_on_refl m a n : same_on m m a n.
Proof. done. Qed.
Lemma same_on_trans m1 m2 m3 a n : same_on m1 m2 a n -> same_on m2 m3 a n -> same_on m1 m3 a n.
Proof. intros H1 H2 i Hi. by rewrite H2, H1. Qed.
Lemma same_on_sub m m' a n b k : same_on m m' a n -> a <= b -> b + k <= a + n -> same_on m m' b k.
Proof. intros Hs Hb Hk i Hi. specialize (Hs (b - a + i) ltac:(lia)). by replace (a + (b - a + i)) with (b + i) in Hs by lia. Qed.

(** A write leaves the disjoint ranges as they were. *)
Lemma write_slice_same m a l m' ok b k : bytes l -> write_slice m a l = (m', ok) -> b + k <= a \/ a + zlen l <= b -> same_on m m' b k.
Proof. intros Hl Hw Hd i Hi. eapply write_slice_kept; [done | done | lia]. Qed.

Lemma write_slice_read m a l m' : bytes l -> 0 < zlen l -> write_slice m a l = (m', true) -> read_slice m' a (zlen l) = Some l.
Proof. intros Hl H0 Hw. apply read_slice_iff; [done|]. split; [done|]. by apply (write_slice_ok m a l m'). Qed.

Lemma write_slice_keeps_mapped m a l m' ok b k : bytes l -> write_slice m a l = (m', ok) -> mapped m b k -> mapped m' b k.
Proof. intros Hl Hw Hm i Hi. eapply write_slice_maps; [done | done | by apply Hm]. Qed.
End facts.

(** ** A memory of one region from address 0 on *)

Record Ram := mkRam { ram : list Z }.

Definition ram_byte (m : Ram) (a : Z) : option Z :=
  if 0 <=? a then (fun b => b `mod` 256) <$> ram m !! Z.to_nat a else None.
Definition ram_read (m : Ram) (a n : Z) : option (list Z) :=
  if (0 <=? a) && (a + n <=? zlen (ram m)) then Some (map (fun b => b `mod` 256) (zsub a n (ram m))) else None.
Definition ram_write (m : Ram) (a : Z) (l : list Z) : Ram * bool :=
  if (0 <=? a) && (a + zlen l <=? zlen (ram m)) then (mkRam (ztake a (ram m) ++ l ++ zdrop (a + zlen l) (ram m)), true) else (m, false).

Lemma ram_byte_some m a : is_Some (ram_byte m a) <-> 0 <= a < zlen (ram m).
Proof.
  unfold ram_byte. destruct (Z.leb_spec 0 a) as [Ha|Ha]; [|split; [by intros [? ?] | lia]].
  rewrite fmap_is_Some, lookup_lt_is_Some. unfold zlen. lia.
Qed.

Lemma ram_read_ok m a n l : 0 <= n -> ram_read m a n = Some l -> zlen l = n /\ forall i, 0 <= i < n -> ram_byte m (a + i) = l !! Z.to_nat i.
Proof.
  intros Hn. unfold ram_read. destruct (Z.leb_spec 0 a) as [Ha|]; [|done]. destruct (Z.leb_spec (a + n) (zlen (ram m))) as [Hl|]; [|done]. cbn [andb].
  intros [= <-]. split; [unfold zlen; rewrite length_map; fold (zlen (zsub a n (ram m))); zl|]. intros i Hi. unfold ram_byte.
  rewrite (proj2 (Z.leb_le _ _)) by lia. change (map ?f ?l) with (f <$> l). rewrite list_lookup_fmap. f_equal. unfold zsub, ztake, zdrop. rewrite lookup_take_lt by lia.
  rewrite lookup_drop. f_equal. lia.
Qed.

Lemma ram_read_mapped m a n : 0 < n -> (forall i, 0 <= i < n -> is_Some (ram_byte m (a + i))) -> is_Some (ram_read m a n).
Proof.
  intros Hn Hm. pose proof (proj1 (ram_byte_some _ _) (Hm 0 ltac:(lia))). pose proof (proj1 (ram_byte_some _ _) (Hm (n - 1) ltac:(lia))).
  unfold ram_read. rewrite !(proj2 (Z.leb_le _ _)) by lia. by eexists.
Qed.

Lemma ram_write_lookup m a l x : 0 <= a -> a + zlen l <= zlen (ram m) -> 0 <= x ->
  (ztake a (ram m) ++ l ++ zdrop (a + zlen l) (ram m)) !! Z.to_nat x = if (a <=? x) && (x <? a + zlen l) then l !! Z.to_nat (x - a) else ram m !! Z.to_nat x.
Proof.
  intros Ha Hl Hx. pose proof (zlen_nonneg l). assert (length (ztake a (ram m)) = Z.to_nat a) as Ht by (assert (zlen (ztake a (ram m)) = a) as E by zl; unfold zlen in E; lia).
  destruct (Z.leb_spec a x) as [Hax|Hax]; cbn [andb].
  - rewrite lookup_app_r, Ht by lia. destruct (Z.ltb_spec x (a + zlen l)) as [Hlt|Hge].
    + rewrite lookup_app_l by (unfold zlen in *; lia). f_equal. lia.
    + rewrite lookup_app_r by (unfold zlen in *; lia). unfold zdrop. rewrite lookup_drop. f_equal. unfold zlen in *. lia.
  - rewrite lookup_app_l by lia. unfold ztake. rewrite lookup_take_lt by lia. done.
Qed.

Lemma ram_write_byte m a l m' ok x : ram_write m a l = (m', ok) ->
  ram_byte m' x = if ok && (a <=? x) && (x <? a + zlen l) then (fun b => b `mod` 256) <$> l !! Z.to_nat (x - a) else ram_byte m x.
Proof.
  unfold ram_write. destruct (Z.leb_spec 0 a) as [Ha|]; cbn [andb]; [|by intros [= <- <-]]. destruct (Z.leb_spec (a + zlen l) (zlen (ram m))) as [Hl|]; [|by intros [= <- <-]].
  intros [= <- <-]. cbn [andb]. unfold ram_byte. cbn [ram]. destruct (Z.leb_spec 0 x) as [Hx|Hx].
  - rewrite ram_write_lookup by done. by destruct ((a <=? x) && (x <? a + zlen l)).
  - by rewrite (proj2 (Z.leb_gt a x)) by lia.
Qed.

#[export] Program Instance Ram_guest : GuestMemory Ram := {| byte_at := ram_byte; read_slice := ram_read; write_slice := ram_write |}.
Next Obligation.
  intros m a b. unfold ram_byte. destruct (0 <=? a); [|done]. rewrite fmap_Some. intros (x & _ & ->). unfold in_u. apply Z.mod_pos_bound. lia.
Qed.
Next Obligation. intros m a n l. apply ram_read_ok. Qed.
Next Obligation. intros m a n. apply ram_read_mapped. Qed.
Next Obligation.
  intros m a l m' ok x _ Hw Hx. rewrite (ram_write_byte _ _ _ _ _ x Hw). destruct (Z.leb_spec a x), (Z.ltb_spec x (a + zlen l)); rewrite ?andb_false_r; (done || lia).
Qed.
Next Obligation.
  intros m a l m' ok x _ Hw. rewrite (ram_write_byte _ _ _ _ _ x Hw). destruct (ok && (a <=? x) && (x <? a + zlen l)) eqn:E; [|done].
  rewrite !andb_true_iff, Z.leb_le, Z.ltb_lt in E. destruct E as [[-> Hle] Hlt]. rewrite fmap_is_Some, lookup_lt_is_Some, ram_byte_some.
  unfold ram_write in Hw. destruct (Z.leb_spec 0 a); [|done]. destruct (Z.leb_spec (a + zlen l) (zlen (ram m))); [|done]. unfold zlen in *. lia.
Qed.
Next Obligation.
  intros m a l m' Hl Hw i Hi. rewrite (ram_write_byte _ _ _ _ _ (a + i) Hw). rewrite (proj2 (Z.leb_le a (a + i))), (proj2 (Z.ltb_lt (a + i) (a + zlen l))) by lia. cbn [andb].
  replace (a + i - a) with i by lia. destruct (l !! Z.to_nat i) as [b|] eqn:E; [|done]. cbn [fmap option_fmap option_map]. f_equal. apply Z.mod_small. change 256 with (2 ^ 8).
  rewrite Forall_lookup in Hl. by apply (Hl (Z.to_nat i)).
Qed.
Next Obligation.
  intros m a l _ H0 Hm. pose proof (proj1 (ram_byte_some _ _) (Hm 0 ltac:(lia))). pose proof (proj1 (ram_byte_some _ _) (Hm (zlen l - 1) ltac:(lia))).
  unfold ram_write. rewrite !(proj2 (Z.leb_le _ _)) by lia. by eexists.
Qed.
