(* ===== verification/VirtioMmio.v ===== *)
(** * The monitor's console device: [tb-vmm/src/virtio_mmio.rs].

    A virtio-mmio transport in front of the inference peer of [InferHost]: the register file,
    the transmit queue whose bytes go to the peer, and the receive queue that takes the peer's
    bytes into buffers the guest posts.  The rings and buffers are in guest memory
    ([GuestMem.GuestMemory]), which the guest writes as it likes, so the loops over a queue
    have fuel: [None] is a loop that is still running. *)
From Stdlib Require Import ZArith Lia.
From stdpp Require Import base numbers option tactics sets list.
From S2P Require Import Prelude Khash Inferwire InferChunks InferHost GuestMem.
Open Scope Z_scope.

Definition R_MAGIC : Z := 0x000.
Definition R_VERSION : Z := 0x004.
Definition R_DEVICE_ID : Z := 0x008.
Definition R_VENDOR_ID : Z := 0x00C.
Definition R_DEVICE_FEATURES : Z := 0x010.
Definition R_DEVICE_FEATURES_SEL : Z := 0x014.
Definition R_DRIVER_FEATURES : Z := 0x020.
Definition R_DRIVER_FEATURES_SEL : Z := 0x024.
Definition R_QUEUE_SEL : Z := 0x030.
Definition R_QUEUE_NUM_MAX : Z := 0x034.
Definition R_QUEUE_NUM : Z := 0x038.
Definition R_QUEUE_READY : Z := 0x044.
Definition R_QUEUE_NOTIFY : Z := 0x050.
Definition R_INTERRUPT_STATUS : Z := 0x060.
Definition R_INTERRUPT_ACK : Z := 0x064.
Definition R_STATUS : Z := 0x070.
Definition R_QUEUE_DESC_LOW : Z := 0x080.
Definition R_QUEUE_DESC_HIGH : Z := 0x084.
Definition R_QUEUE_DRIVER_LOW : Z := 0x090.
Definition R_QUEUE_DRIVER_HIGH : Z := 0x094.
Definition R_QUEUE_DEVICE_LOW : Z := 0x0A0.
Definition R_QUEUE_DEVICE_HIGH : Z := 0x0A4.
Definition R_CONFIG_GENERATION : Z := 0x0FC.

Definition VIRTIO_MAGIC : Z := 0x74726976.
Definition VIRTIO_VERSION_MODERN : Z := 2.
Definition VIRTIO_DEV_CONSOLE : Z := 3.
Definition VENDOR_ID : Z := 0x4D4D5659.
Definition VIRTIO_F_VERSION_1_HI : Z := Z.shiftl 1 0.
Definition S_FEATURES_OK : Z := 8.
Definition S_DRIVER_OK : Z := 4.
Definition VIRTQ_DESC_F_NEXT : Z := 1.
Definition VIRTQ_DESC_F_WRITE : Z := 2.
Definition QUEUE_NUM_MAX : Z := 4.
Definition NUM_QUEUES : Z := 2.
Definition TXQ : Z := 1.
Definition RXQ : Z := 0.

Record QueueState := mkQueue {
  num : Z;
  ready : bool;
  desc : Z;
  driver : Z;
  device : Z;
  next_avail : Z;
  used_count : Z;
}.

Definition queue_default : QueueState := mkQueue 0 false 0 0 0 0 0.

(** A register pair's half; [half] is a 32-bit value. *)
Definition set_addr (addr half : Z) (high : bool) : Z :=
  if high then Z.lor (Z.land addr 0xFFFFFFFF) (Z.shiftl half 32)
  else Z.lor (Z.land addr (bit_not 64 0xFFFFFFFF)) (Z.land half 0xFFFFFFFF).

Definition set_num (q : QueueState) (v : Z) : QueueState := mkQueue v (ready q) (desc q) (driver q) (device q) (next_avail q) (used_count q).
Definition set_ready (q : QueueState) (v : bool) : QueueState := mkQueue (num q) v (desc q) (driver q) (device q) (next_avail q) (used_count q).
Definition set_desc (q : QueueState) (v : Z) : QueueState := mkQueue (num q) (ready q) v (driver q) (device q) (next_avail q) (used_count q).
Definition set_driver (q : QueueState) (v : Z) : QueueState := mkQueue (num q) (ready q) (desc q) v (device q) (next_avail q) (used_count q).
Definition set_device (q : QueueState) (v : Z) : QueueState := mkQueue (num q) (ready q) (desc q) (driver q) v (next_avail q) (used_count q).
Definition set_next_avail (q : QueueState) (v : Z) : QueueState := mkQueue (num q) (ready q) (desc q) (driver q) (device q) v (used_count q).
Definition set_used_count (q : QueueState) (v : Z) : QueueState := mkQueue (num q) (ready q) (desc q) (driver q) (device q) (next_avail q) v.

(** [u32::is_power_of_two] *)
Definition is_power_of_two (v : Z) : bool := (0 <? v) && (Z.land v (v - 1) =? 0).

Section device.
Context {M : Type} `{GuestMemory M}.

Record VirtioMmio := mkDev {
  mem : M;
  host : InferHost;
  status : Z;
  device_features_sel : Z;
  driver_features_sel : Z;
  driver_features : list Z;
  queue_sel : Z;
  queues : list QueueState;
}.

Definition dev_new (mem : M) (host : InferHost) : VirtioMmio :=
  mkDev mem host 0 0 0 [0; 0] 0 [queue_default; queue_default].
Definition reset (d : VirtioMmio) : VirtioMmio := mkDev (mem d) (host d) 0 0 0 [0; 0] 0 [queue_default; queue_default].

Definition set_mem (d : VirtioMmio) (m : M) : VirtioMmio :=
  mkDev m (host d) (status d) (device_features_sel d) (driver_features_sel d) (driver_features d) (queue_sel d) (queues d).
Definition set_host (d : VirtioMmio) (h : InferHost) : VirtioMmio :=
  mkDev (mem d) h (status d) (device_features_sel d) (driver_features_sel d) (driver_features d) (queue_sel d) (queues d).
Definition set_status (d : VirtioMmio) (v : Z) : VirtioMmio :=
  mkDev (mem d) (host d) v (device_features_sel d) (driver_features_sel d) (driver_features d) (queue_sel d) (queues d).
Definition set_queues (d : VirtioMmio) (qs : list QueueState) : VirtioMmio :=
  mkDev (mem d) (host d) (status d) (device_features_sel d) (driver_features_sel d) (driver_features d) (queue_sel d) qs.

Definition selq (d : VirtioMmio) : option QueueState := queues d !! Z.to_nat (queue_sel d).
(** [if let Some(q) = self.selq()]: change the selected queue. *)
Definition with_selq (d : VirtioMmio) (f : QueueState -> QueueState) : VirtioMmio :=
  match selq d with Some q => set_queues d (<[Z.to_nat (queue_sel d) := f q]> (queues d)) | None => d end.

(** ** Guest-RAM scalars *)

Definition read_u16 (m : M) (gpa : Z) : option Z := b ← read_slice m gpa 2; Some (of_le b).
Definition read_u32 (m : M) (gpa : Z) : option Z := b ← read_slice m gpa 4; Some (of_le b).
Definition read_u64 (m : M) (gpa : Z) : option Z := b ← read_slice m gpa 8; Some (of_le b).
Definition write_u16 (m : M) (gpa v : Z) : M * bool := write_slice m gpa (to_le 2 v).
Definition write_u32 (m : M) (gpa v : Z) : M * bool := write_slice m gpa (to_le 4 v).

(** ** Descriptor chains

    [k] hops are left of the [q.num] that a chain may have. *)

Fixpoint gather_from (k : nat) (m : M) (q : QueueState) (idx : Z) (out : list Z) : option (list Z) :=
  match k with
  | O => None
  | S k =>
      let d := wrapping_add 64 (desc q) (16 * idx) in
      addr ← read_u64 m d;
      len ← read_u32 m (wrapping_add 64 d 8);
      flags ← read_u16 m (wrapping_add 64 d 12);
      next ← read_u16 m (wrapping_add 64 d 14);
      out ← (if Z.land flags VIRTQ_DESC_F_WRITE =? 0 then buf ← read_slice m addr len; Some (out ++ buf) else Some out);
      if Z.land flags VIRTQ_DESC_F_NEXT =? 0 then Some out else gather_from k m q next out
  end.
Definition gather_readable (m : M) (q : QueueState) (head : Z) : option (list Z) := gather_from (Z.to_nat (num q)) m q head [].

(** What the walk has done to the device stays done when it fails. *)
Fixpoint scatter_from (k : nat) (d : VirtioMmio) (q : QueueState) (idx written : Z) : VirtioMmio * option Z :=
  match k with
  | O => (d, None)
  | S k =>
      let a := wrapping_add 64 (desc q) (16 * idx) in
      match read_u64 (mem d) a, read_u32 (mem d) (wrapping_add 64 a 8), read_u16 (mem d) (wrapping_add 64 a 12), read_u16 (mem d) (wrapping_add 64 a 14) with
      | Some addr, Some len, Some flags, Some next =>
          let '(d, w) :=
            if negb (Z.land flags VIRTQ_DESC_F_WRITE =? 0) && (0 <? out_len (host d)) then
              let '(h, chunk) := take_output (host d) len in
              let '(m, ok) := write_slice (mem d) addr chunk in
              (set_mem (set_host d h) m, if ok : bool then Some (written + zlen chunk) else None)
            else (d, Some written) in
          match w with
          | None => (d, None)
          | Some written =>
              if (Z.land flags VIRTQ_DESC_F_NEXT =? 0) || (out_len (host d) =? 0) then (d, Some written)
              else scatter_from k d q next written
          end
      | _, _, _, _ => (d, None)
      end
  end.
Definition scatter_writable (d : VirtioMmio) (q : QueueState) (head : Z) : VirtioMmio * option Z := scatter_from (Z.to_nat (num q)) d q head 0.

(** ** The queues *)

Definition publish_used (d : VirtioMmio) (qi id len : Z) : res VirtioMmio :=
  q ← idx (queues d) qi;
  if num q =? 0 then Panic else
  let entry := wrapping_add 64 (device q) (4 + 8 * (used_count q `mod` num q)) in
  let '(m, ok) := write_u32 (mem d) entry id in
  if negb ok then Val (set_mem d m) else
  let '(m, ok) := write_u32 m (wrapping_add 64 entry 4) len in
  if negb ok then Val (set_mem d m) else
  let new_count := wrapping_add 16 (used_count q) 1 in
  qs ← upd (queues d) qi (set_used_count q new_count);
  let '(m, _) := write_u16 m (wrapping_add 64 (device q) 2) new_count in
  Val (set_mem (set_queues d qs) m).

Definition advance (d : VirtioMmio) (qi : Z) : res VirtioMmio :=
  q ← idx (queues d) qi;
  qs ← upd (queues d) qi (set_next_avail q (wrapping_add 16 (next_avail q) 1));
  Val (set_queues d qs).

(** The next entry of a queue's available ring: the chain's head, when there is one. *)
Definition next_head (m : M) (q : QueueState) : option Z :=
  if negb (ready q) || (num q =? 0) then None else
  avail_idx ← read_u16 m (wrapping_add 64 (driver q) 2);
  if next_avail q =? avail_idx then None else
  read_u16 m (wrapping_add 64 (driver q) (4 + 2 * (next_avail q `mod` num q))).

(** One turn of [process_tx]'s loop; [true] goes on. *)
Definition tx_turn (d : VirtioMmio) : res (VirtioMmio * bool) :=
  q ← idx (queues d) TXQ;
  match next_head (mem d) q with
  | None => Val (d, false)
  | Some head =>
      match gather_readable (mem d) q head with
      | None => Val (d, false)
      | Some bytes =>
          h ← push_guest_bytes (host d) bytes;
          d ← advance (set_host d h) TXQ;
          d ← publish_used d TXQ head 0;
          Val (d, true)
      end
  end.

Definition rx_turn (d : VirtioMmio) : res (VirtioMmio * bool) :=
  if out_len (host d) =? 0 then Val (d, false) else
  q ← idx (queues d) RXQ;
  match next_head (mem d) q with
  | None => Val (d, false)
  | Some head =>
      let '(d, w) := scatter_writable d q head in
      match w with
      | None => Val (d, false)
      | Some written =>
          d ← advance d RXQ;
          d ← publish_used d RXQ head (wrap 32 written);
          Val (d, true)
      end
  end.

Fixpoint turns (turn : VirtioMmio -> res (VirtioMmio * bool)) (fuel : nat) (d : VirtioMmio) : res (option VirtioMmio) :=
  match fuel with
  | O => Val None
  | S fuel => '(d, go) ← turn d; if go : bool then turns turn fuel d else Val (Some d)
  end.
Definition process_tx (fuel : nat) (d : VirtioMmio) : res (option VirtioMmio) := turns tx_turn fuel d.
Definition drain_rx (fuel : nat) (d : VirtioMmio) : res (option VirtioMmio) := turns rx_turn fuel d.

Definition notify (fuel : nat) (d : VirtioMmio) (q : Z) : res (option VirtioMmio) :=
  if Z.land (status d) S_DRIVER_OK =? 0 then Val (Some d) else
  r ← (if q =? TXQ then process_tx fuel d else Val (Some d));
  match r with
  | None => Val None
  | Some d => if q <? NUM_QUEUES then drain_rx fuel d else Val (Some d)
  end.

(** ** The registers *)

Definition read_reg (d : VirtioMmio) (offset : Z) : Z :=
  if offset =? R_MAGIC then VIRTIO_MAGIC
  else if offset =? R_VERSION then VIRTIO_VERSION_MODERN
  else if offset =? R_DEVICE_ID then VIRTIO_DEV_CONSOLE
  else if offset =? R_VENDOR_ID then VENDOR_ID
  else if offset =? R_DEVICE_FEATURES then
    if device_features_sel d =? 0 then 0 else if device_features_sel d =? 1 then VIRTIO_F_VERSION_1_HI else 0
  else if offset =? R_QUEUE_NUM_MAX then if queue_sel d <? NUM_QUEUES then QUEUE_NUM_MAX else 0
  else if offset =? R_QUEUE_READY then match selq d with Some q => Z.b2z (ready q) | None => 0 end
  else if offset =? R_INTERRUPT_STATUS then 0
  else if offset =? R_STATUS then status d
  else if offset =? R_CONFIG_GENERATION then 0
  else 0.

Definition write_status (d : VirtioMmio) (v : Z) : res VirtioMmio :=
  if v =? 0 then Val (reset d) else
  if negb (Z.land v S_FEATURES_OK =? 0) then
    f0 ← idx (driver_features d) 0;
    f1 ← idx (driver_features d) 1;
    let ok := (f0 =? 0) && (f1 =? VIRTIO_F_VERSION_1_HI) in
    Val (set_status d (if negb ok then Z.land v (bit_not 32 S_FEATURES_OK) else v))
  else Val (set_status d v).

Definition write_reg (fuel : nat) (d : VirtioMmio) (offset v : Z) : res (option VirtioMmio) :=
  let done (d : VirtioMmio) := Val (Some d) in
  if offset =? R_DEVICE_FEATURES_SEL then
    done (mkDev (mem d) (host d) (status d) v (driver_features_sel d) (driver_features d) (queue_sel d) (queues d))
  else if offset =? R_DRIVER_FEATURES then
    if driver_features_sel d <? 2 then
      fs ← upd (driver_features d) (driver_features_sel d) v;
      done (mkDev (mem d) (host d) (status d) (device_features_sel d) (driver_features_sel d) fs (queue_sel d) (queues d))
    else done d
  else if offset =? R_DRIVER_FEATURES_SEL then
    done (mkDev (mem d) (host d) (status d) (device_features_sel d) v (driver_features d) (queue_sel d) (queues d))
  else if offset =? R_QUEUE_SEL then
    done (mkDev (mem d) (host d) (status d) (device_features_sel d) (driver_features_sel d) (driver_features d) v (queues d))
  else if offset =? R_QUEUE_NUM then
    done (with_selq d (fun q => set_num q (if (1 <=? v) && (v <=? QUEUE_NUM_MAX) && is_power_of_two v then v else 0)))
  else if offset =? R_QUEUE_READY then done (with_selq d (fun q => set_ready q (Z.land v 1 =? 1)))
  else if offset =? R_QUEUE_NOTIFY then notify fuel d v
  else if offset =? R_INTERRUPT_ACK then done d
  else if offset =? R_STATUS then d ← write_status d v; done d
  else if offset =? R_QUEUE_DESC_LOW then done (with_selq d (fun q => set_desc q (set_addr (desc q) v false)))
  else if offset =? R_QUEUE_DESC_HIGH then done (with_selq d (fun q => set_desc q (set_addr (desc q) v true)))
  else if offset =? R_QUEUE_DRIVER_LOW then done (with_selq d (fun q => set_driver q (set_addr (driver q) v false)))
  else if offset =? R_QUEUE_DRIVER_HIGH then done (with_selq d (fun q => set_driver q (set_addr (driver q) v true)))
  else if offset =? R_QUEUE_DEVICE_LOW then done (with_selq d (fun q => set_device q (set_addr (device q) v false)))
  else if offset =? R_QUEUE_DEVICE_HIGH then done (with_selq d (fun q => set_device q (set_addr (device q) v true)))
  else done d.

(** ** The bus's view: naturally aligned 32-bit accesses, anything else inert *)

Definition dev_read (d : VirtioMmio) (offset : Z) (data : list Z) : list Z :=
  if (zlen data =? 4) && (Z.land offset 3 =? 0) then to_le 4 (read_reg d offset) else zrepeat (zlen data) 0.
Definition dev_write (fuel : nat) (d : VirtioMmio) (offset : Z) (data : list Z) : res (option VirtioMmio) :=
  if (zlen data =? 4) && (Z.land offset 3 =? 0) then write_reg fuel d offset (of_le data) else Val (Some d).

End device.
Arguments VirtioMmio M : clear implicits.
