(* ===== verification/VirtioSpec.v ===== *)
(** * What the console device promises

    The device of [VirtioMmio] against any guest and against a driver that lays its queues out
    as the standard asks: the state it keeps, the bytes it takes and delivers, and a session
    from reset to reply. *)
From Stdlib Require Import ZArith Lia.
From stdpp Require Import base numbers option tactics sets list.
From S2P Require Import Prelude Khash Inferwire InferChunks InferHost GuestMem VirtioMmio.
Open Scope Z_scope.

(** ** The state it keeps *)

Record queue_ok (q : QueueState) : Prop := {
  qo_num : 0 <= num q <= QUEUE_NUM_MAX;
  qo_desc : is_u64 (desc q);
  qo_driver : is_u64 (driver q);
  qo_device : is_u64 (device q);
  qo_next : is_u16 (next_avail q);
  qo_used : is_u16 (used_count q);
}.

Record host_inv (h : InferHost) : Prop := {
  hi_wf : host_wf h;
  hi_pending : exists v, pending h v;
  hi_key : bytes (key h);
  hi_out : bytes (outbuf h);
}.

Lemma queue_default_ok : queue_ok queue_default.
Proof. by split; vm_compute. Qed.

Lemma take_output_inv h n : host_inv h -> let '(h', b) := take_output h n in host_inv h' /\ bytes b /\ outbuf h = b ++ outbuf h' /\
  zlen b = Z.min (Z.max 0 n) (zlen (outbuf h)) /\ key h' = key h /\ echoes h' = echoes h.
Proof.
  intros [[Hcu Hinf] [v [Hh Hv Hs]] Hk Ho]. unfold take_output. cbn [fst snd]. pose proof (zlen_nonneg (outbuf h)).
  split; [split; [split; [by apply (custodian_ext h) | done] | by exists v | done | by apply zdrop_bytes]|].
  split; [by apply ztake_bytes|]. split; [cbn; by rewrite ztake_zdrop|]. split; [|done]. zl.
Qed.

Lemma wires_bytes fs : Forall frame_ok fs -> bytes (wires fs).
Proof. induction 1 as [|f fs Hf _ IH]; [constructor|]. unfold wires in *. cbn [map concat]. apply Forall_app_2; [by apply wire_bytes_bytes | done]. Qed.

Lemma answers_ok h ch rid bd fs : answers h ch rid bd fs -> Forall frame_ok fs.
Proof.
  intros [f _ Hf|p fs' zs _ _ Hp Hfs _]; [apply Forall_singleton, Hf|]. apply Forall_cons. split; [apply Hp|]. induction Hfs as [|z f zs fs' Hf _ IH]; constructor; [apply Hf | done].
Qed.

Lemma emitted_bytes h out : bytes (key h) -> emitted h out -> bytes out.
Proof.
  intros Hk. induction 1 as [|req f out _ Hf _ IH|ch rid bd fs out Ha _ IH]; [constructor | |].
  - apply Forall_app_2; [apply wire_bytes_bytes, Hf | by apply Forall_app_2].
  - apply Forall_app_2; [by apply wires_bytes, (answers_ok h ch rid bd) | done].
Qed.

Lemma push_inv h l : host_inv h -> bytes l -> echoes h + zlen l < 2 ^ 64 ->
  runs (push_guest_bytes h l) (fun h' => host_inv h' /\ key h' = key h /\ echoes h' <= echoes h + zlen l /\ exists out, outbuf h' = outbuf h ++ out).
Proof.
  intros [Hwf [v Hp] Hk Ho] Hl He. eapply runs_mono; [by apply (push_guest_runs h v l)|]. intros h' (Hwf' & Hp' & He' & (out & [Ek _ Eo _] & Hem) & _). cbn in Ek, Eo.
  split; [split; [done | done | by rewrite Ek | rewrite Eo; apply Forall_app_2; [done | by apply (emitted_bytes h)]]|]. split; [done|]. split; [done | by exists out].
Qed.

Section device.
Context {M : Type} `{GuestMemory M}.
Implicit Types (d : VirtioMmio M) (q : QueueState) (m : M).

Record dev_wf d : Prop := {
  dw_host : host_inv (host d);
  dw_status : is_u32 (status d);
  dw_dfs : is_u32 (device_features_sel d);
  dw_drs : is_u32 (driver_features_sel d);
  dw_features : zlen (driver_features d) = 2 /\ Forall is_u32 (driver_features d);
  dw_sel : is_u32 (queue_sel d);
  dw_queues : zlen (queues d) = NUM_QUEUES /\ Forall queue_ok (queues d);
}.

Lemma wf_queue d i : dev_wf d -> 0 <= i < NUM_QUEUES -> exists q, idx (queues d) i = Val q /\ queues d !! Z.to_nat i = Some q /\ queue_ok q.
Proof.
  intros Hd Hi. destruct (dw_queues d Hd) as [Hl Hq]. destruct (idx_ok (queues d) i) as [q Eq]; [lia|]. exists q. split; [done|].
  apply idx_val_inv in Eq as [_ Eq]. split; [done|]. rewrite Forall_lookup in Hq. by eapply Hq.
Qed.

Lemma wf_set_queue d i q : dev_wf d -> queue_ok q -> dev_wf (set_queues d (<[i := q]> (queues d))).
Proof.
  intros [Hh ? ? ? ? ? [Hl Hq]] Hok. split; try done. cbn [set_queues queues]. split; [unfold zlen in *; by rewrite length_insert|]. by apply Forall_insert.
Qed.
Lemma wf_set_host d h : dev_wf d -> host_inv h -> dev_wf (set_host d h).
Proof. intros [? ? ? ? ? ? ?] Hh. by split. Qed.
Lemma wf_set_mem d m : dev_wf d -> dev_wf (set_mem d m).
Proof. intros [? ? ? ? ? ? ?]. by split. Qed.

(** The device has not been given other keys, and has not lost what it counts. *)
Definition kept (n : Z) d d' : Prop := dev_wf d' /\ key (host d') = key (host d) /\ echoes (host d') <= echoes (host d) + n.

Lemma advance_eq d qi q : 0 <= qi -> queues d !! Z.to_nat qi = Some q ->
  advance d qi = Val (set_queues d (<[Z.to_nat qi := set_next_avail q (wrapping_add 16 (next_avail q) 1)]> (queues d))).
Proof.
  intros Hqi Eq. unfold advance, idx. rewrite decide_True, Eq, bind_val by done. rewrite upd_ok, bind_val; [done|]. apply lookup_lt_Some in Eq. unfold zlen. lia.
Qed.

Lemma advance_ok q : queue_ok q -> queue_ok (set_next_avail q (wrapping_add 16 (next_avail q) 1)).
Proof. intros [? ? ? ? ? ?]. split; try done. unfold set_next_avail, wrapping_add. cbn [next_avail]. apply wrap_in_u. lia. Qed.

Lemma publish_runs d qi id len q : dev_wf d -> 0 <= qi < NUM_QUEUES -> queues d !! Z.to_nat qi = Some q -> num q <> 0 -> runs (publish_used d qi id len) (kept 0 d).
Proof.
  intros Hd Hqi Eq Hn. unfold publish_used. destruct (wf_queue d qi Hd Hqi) as (q' & -> & Eq' & Hok). rewrite bind_val. rewrite Eq in Eq'. injection Eq' as <-.
  rewrite (proj2 (Z.eqb_neq _ _)) by done. cbv zeta. destruct (dw_queues d Hd) as [Hl _].
  assert (forall m, kept 0 d (set_mem d m)) as Hm by (intros m; split; [by apply wf_set_mem | split; [done | cbn; lia]]).
  destruct (write_u32 (mem d) _ id) as [m1 [|]]; cbn [negb]; [|by apply runs_val].
  destruct (write_u32 m1 _ len) as [m2 [|]]; cbn [negb]; [|by apply runs_val]. rewrite upd_ok, bind_val by lia. destruct (write_u16 m2 _ _) as [m3 ok3]. apply runs_val.
  split; [|split; [done | cbn; lia]]. apply wf_set_mem, wf_set_queue; [done|]. destruct Hok as [? ? ? ? ? ?]. split; try done.
  unfold set_used_count, wrapping_add. cbn [used_count]. apply wrap_in_u. lia.
Qed.

(** ** Chains *)

Lemma read_u32_range m a v : read_u32 m a = Some v -> is_u32 v.
Proof.
  unfold read_u32. destruct (read_slice m a 4) as [b|] eqn:E; [|done]. intros [= <-]. apply read_slice_bytes in E as [Hl Hb]; [|lia].
  pose proof (of_le_bound b Hb) as Hr. by rewrite Hl in Hr.
Qed.

Lemma gather_bytes k m q : forall i out l, gather_from k m q i out = Some l -> bytes out -> bytes l /\ zlen out <= zlen l <= zlen out + Z.of_nat k * 2 ^ 32.
Proof.
  induction k as [|k IH]; intros i out l; cbn [gather_from]; [done|]. intros E Hb. set (a := wrapping_add 64 (desc q) (16 * i)) in *.
  destruct (read_u64 m a) as [addr|]; [|done]. cbn [mbind option_bind] in E. destruct (read_u32 m (wrapping_add 64 a 8)) as [len|] eqn:El; [|done]. cbn [mbind option_bind] in E.
  destruct (read_u16 m (wrapping_add 64 a 12)) as [flags|]; [|done]. cbn [mbind option_bind] in E. destruct (read_u16 m (wrapping_add 64 a 14)) as [next|]; [|done]. cbn [mbind option_bind] in E.
  apply read_u32_range in El. unfold in_u in El.
  destruct (if Z.land flags VIRTQ_DESC_F_WRITE =? 0 then buf ← read_slice m addr len; Some (out ++ buf) else Some out) as [out'|] eqn:Eo; [|done]. cbn [mbind option_bind] in E.
  assert (bytes out' /\ zlen out <= zlen out' <= zlen out + 2 ^ 32) as [Hb' Hl'].
  { destruct (Z.land flags VIRTQ_DESC_F_WRITE =? 0); [|injection Eo as <-; split; [done | lia]]. destruct (read_slice m addr len) as [buf|] eqn:Er; [|done]. injection Eo as <-.
    apply read_slice_bytes in Er as [Hbl Hbb]; [|lia]. split; [by apply Forall_app_2|]. rewrite zlen_app. lia. }
  destruct (Z.land flags VIRTQ_DESC_F_NEXT =? 0); [injection E as <-; split; [done | lia]|]. destruct (IH _ _ _ E Hb') as [? ?]. split; [done | lia].
Qed.

Lemma scatter_inv k q : forall d i w, dev_wf d -> 0 <= w -> let '(d', r) := scatter_from k d q i w in kept 0 d d' /\ queues d' = queues d /\
  match r with Some w' => 0 <= w' | None => True end.
Proof.
  induction k as [|k IH]; intros d i w Hd Hw; cbn [scatter_from]; [split; [|done]; split; [done | split; [done | lia]]|].
  assert (kept 0 d d) as Hsame by (split; [done | split; [done | lia]]).
  set (a := wrapping_add 64 (desc q) (16 * i)). destruct (read_u64 (mem d) a) as [addr|]; [|done]. destruct (read_u32 (mem d) _) as [len|]; [|done].
  destruct (read_u16 (mem d) _) as [flags|]; [|done]. destruct (read_u16 (mem d) _) as [next|]; [|done].
  destruct (negb (Z.land flags VIRTQ_DESC_F_WRITE =? 0) && (0 <? out_len (host d))).
  - pose proof (take_output_inv (host d) len (dw_host d Hd)) as Ht. destruct (take_output (host d) len) as [h chunk]. destruct Ht as (Hh & _ & _ & _ & Hk & He).
    destruct (write_slice (mem d) addr chunk) as [m ok]. assert (dev_wf (set_mem (set_host d h) m)) as Hd' by by apply wf_set_mem, wf_set_host.
    assert (kept 0 d (set_mem (set_host d h) m)) as Hk' by (split; [done|]; cbn; split; [done | lia]).
    destruct ok; [|done]. pose proof (zlen_nonneg chunk). destruct (_ || _); [split; [done|]; split; [done | lia]|].
    specialize (IH (set_mem (set_host d h) m) next (w + zlen chunk) Hd' ltac:(lia)). destruct (scatter_from _ _ _ _ _) as [d2 r]. destruct IH as ((? & Hk2 & He2) & Hq & ?). split; [|done].
    split; [done|]. cbn in Hk2, He2. split; [by rewrite Hk2 | lia].
  - destruct (_ || _); [done|]. apply (IH d next w Hd Hw).
Qed.

(** ** Turns *)

Lemma next_head_ready m q head : next_head m q = Some head -> ready q = true /\ num q <> 0.
Proof. unfold next_head. destruct (ready q); [|done]. cbn [negb orb]. destruct (Z.eqb_spec (num q) 0); [done|]. done. Qed.

Lemma tx_turn_kept d : dev_wf d -> echoes (host d) + 2 ^ 35 < 2 ^ 64 -> runs (tx_turn d) (fun '(d', _) => kept (2 ^ 35) d d').
Proof.
  intros Hd He. assert (kept (2 ^ 35) d d) as Hsame by (split; [done | split; [done | lia]]). unfold tx_turn.
  destruct (wf_queue d TXQ Hd ltac:(done)) as (q & -> & Eq & Hok). rewrite bind_val. destruct (next_head (mem d) q) as [head|] eqn:En; [|by apply runs_val].
  destruct (gather_readable (mem d) q head) as [bs|] eqn:Eg; [|by apply runs_val].
  apply gather_bytes in Eg as [Hb Hl]; [|constructor]. change (zlen (@nil Z)) with 0 in Hl.
  assert (zlen bs <= 2 ^ 35) as Hl' by (destruct Hok as [Hn _ _ _ _ _]; unfold QUEUE_NUM_MAX in Hn; lia).
  eapply runs_bind; [apply push_inv; [apply (dw_host d Hd) | done | lia]|]. intros h (Hh & Hk & He' & _).
  rewrite (advance_eq _ TXQ q) by done. rewrite bind_val. apply next_head_ready in En as [_ Hn].
  eapply runs_bind; [apply (publish_runs _ TXQ head 0 (set_next_avail q (wrapping_add 16 (next_avail q) 1))); [|done | | done]|].
  - apply wf_set_queue; [by apply wf_set_host | by apply advance_ok].
  - cbn [set_queues queues set_host]. apply list_lookup_insert_eq. by apply lookup_lt_Some in Eq.
  - intros d2 (Hd2 & Hk2 & He2). cbn in Hk2, He2. apply runs_val. split; [done|]. split; [by rewrite Hk2 | lia].
Qed.

Lemma rx_turn_kept d : dev_wf d -> runs (rx_turn d) (fun '(d', _) => kept 0 d d').
Proof.
  intros Hd. assert (kept 0 d d) as Hsame by (split; [done | split; [done | lia]]). unfold rx_turn. destruct (out_len (host d) =? 0); [by apply runs_val|].
  destruct (wf_queue d RXQ Hd ltac:(done)) as (q & -> & Eq & Hok). rewrite bind_val. destruct (next_head (mem d) q) as [head|] eqn:En; [|by apply runs_val].
  pose proof (scatter_inv (Z.to_nat (num q)) q d head 0 Hd ltac:(lia)) as Hs. unfold scatter_writable. destruct (scatter_from _ d q head 0) as [d1 r].
  destruct Hs as ((Hd1 & Hk1 & He1) & Eqs & Hr). destruct r as [w|]; [|by apply runs_val]. apply next_head_ready in En as [_ Hn].
  rewrite <- Eqs in Eq. rewrite (advance_eq _ RXQ q), bind_val by done.
  eapply runs_bind; [apply (publish_runs _ RXQ head (wrap 32 w) (set_next_avail q (wrapping_add 16 (next_avail q) 1))); [|done | | done]|].
  - apply wf_set_queue; [done | by apply advance_ok].
  - cbn [set_queues queues]. apply list_lookup_insert_eq. by apply lookup_lt_Some in Eq.
  - intros d2 (Hd2 & Hk2 & He2). cbn in Hk2, He2. apply runs_val. split; [done|]. split; [by rewrite Hk2 | lia].
Qed.

Lemma turns_kept turn c fuel : 0 <= c -> (forall d, dev_wf d -> echoes (host d) + c < 2 ^ 64 -> runs (turn d) (fun '(d', _) => kept c d d')) ->
  forall d, dev_wf d -> echoes (host d) + Z.of_nat fuel * c < 2 ^ 64 ->
  runs (turns turn fuel d) (fun r => match r with Some d' => kept (Z.of_nat fuel * c) d d' | None => True end).
Proof.
  intros Hc Hturn. induction fuel as [|fuel IH]; intros d Hd He; cbn [turns]; [by apply runs_val|].
  eapply runs_bind; [apply Hturn; [done | lia]|]. intros [d1 go] (Hd1 & Hk1 & He1). destruct go.
  - eapply runs_mono; [apply IH; [done | lia]|]. intros [d2|]; [|done]. intros (Hd2 & Hk2 & He2). split; [done|]. split; [by rewrite Hk2 | lia].
  - apply runs_val. split; [done|]. split; [done | lia].
Qed.

(** ** Registers *)

Lemma set_addr_eq a v high : is_u64 a -> is_u32 v ->
  set_addr a v high = if high then v * 2 ^ 32 + a mod 2 ^ 32 else a / 2 ^ 32 * 2 ^ 32 + v.
Proof.
  intros Ha Hv. unfold set_addr. assert (in_u 32 (a mod 2 ^ 32)) as Hm by (apply Z.mod_pos_bound; lia). destruct high.
  - change 0xFFFFFFFF with (Z.ones 32). rewrite Z.land_ones by lia. by rewrite Z.lor_comm, lor_shiftl_low by (done || lia).
  - change 0xFFFFFFFF with (2 ^ 32 - 1) at 1. rewrite land_not_low by (done || lia). change 0xFFFFFFFF with (Z.ones 32). rewrite Z.land_ones, (Z.mod_small v) by (unfold in_u in Hv; lia).
    rewrite Z.mul_comm, <- (Z.shiftl_mul_pow2 (a / 2 ^ 32) 32) by lia. rewrite lor_shiftl_low by (done || lia). by rewrite Z.shiftl_mul_pow2 by lia.
Qed.

Lemma set_addr_range a v high : is_u64 a -> is_u32 v -> is_u64 (set_addr a v high).
Proof.
  intros Ha Hv. rewrite set_addr_eq by done. unfold in_u in *. pose proof (Z.mod_pos_bound a (2 ^ 32) ltac:(lia)). pose proof (Z.div_mod a (2 ^ 32) ltac:(lia)).
  destruct high; [lia|]. assert (a / 2 ^ 32 < 2 ^ 32) by (apply Z.div_lt_upper_bound; lia). assert (0 <= a / 2 ^ 32) by (apply Z.div_pos; lia). lia.
Qed.

Lemma with_selq_kept d f : dev_wf d -> (forall q, queue_ok q -> queue_ok (f q)) -> kept 0 d (with_selq d f).
Proof.
  intros Hd Hf. unfold with_selq, selq. destruct (queues d !! Z.to_nat (queue_sel d)) as [q|] eqn:E; [|split; [done | split; [done | lia]]].
  split; [|split; [done | cbn; lia]]. apply wf_set_queue; [done|]. apply Hf. destruct (dw_queues d Hd) as [_ Hq]. rewrite Forall_lookup in Hq. by eapply Hq.
Qed.

Lemma with_selq_set d f : dev_wf d -> (forall q, queue_ok q -> queue_ok (f q)) -> runs (Val (Some (with_selq d f))) (fun r => match r with Some d' => kept 0 d d' | None => True end).
Proof. intros Hd Hf. apply runs_val. by apply with_selq_kept. Qed.

Lemma kept_weaken n n' d d' : n <= n' -> kept n d d' -> kept n' d d'.
Proof. intros Hn (Hd & Hk & He). split; [done|]. split; [done | lia]. Qed.

Lemma reset_kept d : dev_wf d -> kept 0 d (reset d).
Proof.
  intros Hd. split; [|split; [done | cbn; lia]]. assert (is_u32 0) as H0 by (unfold in_u; lia).
  split; [exact (dw_host d Hd) | exact H0 | exact H0 | exact H0 | | exact H0 |].
  - split; [done|]. by repeat constructor.
  - split; [done|]. repeat apply Forall_cons_2; [apply queue_default_ok | apply queue_default_ok | constructor].
Qed.

Lemma write_status_kept d v : dev_wf d -> is_u32 v -> runs (write_status d v) (kept 0 d).
Proof.
  intros Hd Hv. unfold write_status. destruct (Z.eqb_spec v 0); [apply runs_val; by apply reset_kept|].
  assert (forall s, is_u32 s -> kept 0 d (set_status d s)) as Hs by (intros s Hs; split; [destruct Hd; by split | split; [done | cbn; lia]]).
  destruct (negb (Z.land v S_FEATURES_OK =? 0)); [|apply runs_val; by apply Hs]. destruct (dw_features d Hd) as [Hl Hf].
  destruct (idx_ok (driver_features d) 0) as [f0 ->]; [lia|]. destruct (idx_ok (driver_features d) 1) as [f1 ->]; [lia|]. rewrite !bind_val. apply runs_val. apply Hs.
  destruct (negb _); [|done]. assert (Z.land v (bit_not 32 S_FEATURES_OK) = wrap 32 (Z.land v (bit_not 32 S_FEATURES_OK))) as ->; [|apply wrap_in_u; lia].
  unfold wrap. rewrite <- Z.land_ones, <- Z.land_assoc by lia. done.
Qed.

Definition finished (Q : VirtioMmio M -> Prop) (r : option (VirtioMmio M)) : Prop := match r with Some d' => Q d' | None => True end.

Lemma notify_kept fuel d v : dev_wf d -> echoes (host d) + Z.of_nat fuel * 2 ^ 35 < 2 ^ 64 -> runs (notify fuel d v) (finished (kept (Z.of_nat fuel * 2 ^ 35) d)).
Proof.
  intros Hd He. assert (kept (Z.of_nat fuel * 2 ^ 35) d d) as Hsame by (split; [done | split; [done | lia]]).
  unfold notify. destruct (Z.land (status d) S_DRIVER_OK =? 0); [by apply runs_val|].
  eapply runs_bind with (P := finished (kept (Z.of_nat fuel * 2 ^ 35) d)).
  - destruct (v =? TXQ); [|by apply runs_val]. apply turns_kept; [lia | | done | done]. intros d' Hd' He'. by apply tx_turn_kept.
  - intros [d1|] Hd1; [|by apply runs_val]. cbn in Hd1. destruct Hd1 as (Hd1 & Hk1 & He1). destruct (v <? NUM_QUEUES); [|by apply runs_val].
    eapply runs_mono; [apply (turns_kept rx_turn 0 fuel); [lia | intros d' Hd' _; by apply rx_turn_kept | done | lia]|].
    intros [d2|]; [|done]. cbn. intros (Hd2 & Hk2 & He2). split; [done|]. split; [by rewrite Hk2 | lia].
Qed.

Lemma write_reg_kept fuel d offset v : dev_wf d -> is_u32 v -> echoes (host d) + Z.of_nat fuel * 2 ^ 35 < 2 ^ 64 ->
  runs (write_reg fuel d offset v) (finished (kept (Z.of_nat fuel * 2 ^ 35) d)).
Proof.
  intros Hd Hv He. assert (forall r : res (option (VirtioMmio M)), runs r (finished (kept 0 d)) -> runs r (finished (kept (Z.of_nat fuel * 2 ^ 35) d))) as Hweak.
  { intros r Hr. eapply runs_mono; [exact Hr|]. intros [d'|]; [|done]. apply kept_weaken. lia. }
  assert (forall d', dev_wf d' -> host d' = host d -> runs (Val (Some d')) (finished (kept 0 d))) as Hset.
  { intros d' Hd' Hh. apply runs_val. split; [done|]. rewrite Hh. split; [done | lia]. }
  assert (forall a, is_u64 a -> forall high, is_u64 (set_addr a v high)) as Haddr by (intros a Ha high; by apply set_addr_range).
  pose proof Hd as [? ? ? ? [Hfl Hfa] ? ?]. unfold write_reg. cbv zeta.
  destruct (offset =? R_DEVICE_FEATURES_SEL); [apply Hweak, Hset; [by split | done]|].
  destruct (offset =? R_DRIVER_FEATURES); [apply Hweak|].
  { destruct (Z.ltb_spec (driver_features_sel d) 2) as [Hlt|]; [|by apply Hset]. rewrite upd_ok, bind_val by (unfold in_u in *; lia). apply Hset; [|done].
    split; try done. cbn. split; [unfold zlen in *; by rewrite length_insert | by apply Forall_insert]. }
  destruct (offset =? R_DRIVER_FEATURES_SEL); [apply Hweak, Hset; [by split | done]|].
  destruct (offset =? R_QUEUE_SEL); [apply Hweak, Hset; [by split | done]|].
  destruct (offset =? R_QUEUE_NUM); [apply Hweak, with_selq_set; [done|]|].
  { intros q [? ? ? ? ? ?]. split; try done. cbn. destruct ((1 <=? v) && (v <=? QUEUE_NUM_MAX) && _) eqn:E; [|unfold QUEUE_NUM_MAX; lia].
    rewrite !andb_true_iff, !Z.leb_le in E. lia. }
  destruct (offset =? R_QUEUE_READY); [apply Hweak, with_selq_set; [done | intros q [? ? ? ? ? ?]; by split]|].
  destruct (offset =? R_QUEUE_NOTIFY); [by apply notify_kept|].
  destruct (offset =? R_INTERRUPT_ACK); [by apply Hweak, Hset|].
  destruct (offset =? R_STATUS); [apply Hweak; eapply runs_bind; [by apply write_status_kept|]; intros d' Hd'; by apply runs_val|].
  repeat (destruct (offset =? _); [apply Hweak, with_selq_set; [done | intros q [? ? ? ? ? ?]; split; try done; by apply Haddr]|]).
  by apply Hweak, Hset.
Qed.

Lemma read_reg_range d offset : dev_wf d -> is_u32 (read_reg d offset).
Proof.
  intros [_ Hs _ _ _ _ _]. unfold read_reg. assert (is_u32 0 /\ is_u32 1) as [H0 H1] by (unfold in_u; lia).
  do 4 (destruct (offset =? _); [clear; by vm_compute|]).
  destruct (offset =? R_DEVICE_FEATURES); [destruct (device_features_sel d =? 0); [exact H0 | destruct (device_features_sel d =? 1); [exact H1 | exact H0]]|].
  destruct (offset =? R_QUEUE_NUM_MAX); [destruct (queue_sel d <? NUM_QUEUES); [clear; by vm_compute | exact H0]|].
  destruct (offset =? R_QUEUE_READY); [destruct (selq d) as [q|]; [destruct (ready q); [exact H1 | exact H0] | exact H0]|].
  destruct (offset =? R_INTERRUPT_STATUS); [exact H0|]. destruct (offset =? R_STATUS); [exact Hs|]. destruct (offset =? R_CONFIG_GENERATION); exact H0.
Qed.

(** ** A queue laid out as the standard asks *)

Definition avail_area q : Z * Z := (driver q, 4 + 2 * num q).
Definition used_area q : Z * Z := (device q, 4 + 8 * num q).
Definition desc_area q : Z * Z := (desc q, 16 * num q).
Definition sep (r s : Z * Z) : Prop := fst r + snd r <= fst s \/ fst s + snd s <= fst r.

(** The areas lie in the address space, the device's apart from the driver's, and the device's
    is memory. *)
Record laid_out m q : Prop := {
  lo_ready : ready q = true;
  lo_num : 1 <= num q <= QUEUE_NUM_MAX /\ (num q | 2 ^ 16);
  lo_driver : 0 <= driver q /\ driver q + (4 + 2 * num q) <= 2 ^ 64;
  lo_device : 0 <= device q /\ device q + (4 + 8 * num q) <= 2 ^ 64;
  lo_desc : 0 <= desc q /\ desc q + 16 * num q <= 2 ^ 64;
  lo_avail_used : sep (avail_area q) (used_area q);
  lo_desc_used : sep (desc_area q) (used_area q);
  lo_mapped : mapped m (device q) (4 + 8 * num q);
}.

(** Entry [i] of the ring, counted from the beginning of time. *)
Definition used_entry q (i : Z) : Z := device q + 4 + 8 * (i mod num q).
Definition avail_entry q (i : Z) : Z := driver q + 4 + 2 * (i mod num q).

Definition same_off m m' (r : Z * Z) : Prop := forall a n, sep (a, n) r -> same_on m m' a n.

Lemma same_off_refl m r : same_off m m r.
Proof. intros a n _. apply same_on_refl. Qed.
Lemma same_off_trans m1 m2 m3 r : same_off m1 m2 r -> same_off m2 m3 r -> same_off m1 m3 r.
Proof. intros H1 H2 a n Hs. eapply same_on_trans; [by apply H1 | by apply H2]. Qed.
Lemma same_off_area m m' r s : same_off m m' r -> sep s r -> same_on m m' (fst s) (snd s).
Proof. intros Ho Hs. apply Ho. by destruct s. Qed.

Lemma wrap_mod_num q i : (num q | 2 ^ 16) -> 0 < num q -> wrap 16 i mod num q = i mod num q.
Proof. intros [k Hk] Hn. unfold wrap. rewrite Hk, Z.mul_comm. rewrite Z.rem_mul_r by lia. rewrite Z.add_mod, Z.mul_comm, Z.mod_mul, Z.add_0_r, !Z.mod_mod by lia. done. Qed.

Lemma slot_range q i : 0 < num q -> 0 <= i mod num q < num q.
Proof. intros. by apply Z.mod_pos_bound. Qed.

(** *** Scalars *)

Lemma read_u16_same m m' a : same_on m m' a 2 -> read_u16 m' a = read_u16 m a.
Proof. intros Hs. unfold read_u16. by rewrite (read_slice_same m m'). Qed.
Lemma read_u32_same m m' a : same_on m m' a 4 -> read_u32 m' a = read_u32 m a.
Proof. intros Hs. unfold read_u32. by rewrite (read_slice_same m m'). Qed.
Lemma read_u64_same m m' a : same_on m m' a 8 -> read_u64 m' a = read_u64 m a.
Proof. intros Hs. unfold read_u64. by rewrite (read_slice_same m m'). Qed.

Lemma write_scalar m a n v : mapped m a (Z.of_nat (S n)) -> exists m', write_slice m a (to_le (S n) v) = (m', true) /\
  read_slice m' a (Z.of_nat (S n)) = Some (to_le (S n) v) /\ (forall b k, b + k <= a \/ a + Z.of_nat (S n) <= b -> same_on m m' b k) /\
  (forall b k, mapped m b k -> mapped m' b k).
Proof.
  intros Hm. assert (zlen (to_le (S n) v) = Z.of_nat (S n)) as Hl by apply zlen_to_le. pose proof (to_le_bytes (S n) v) as Hb.
  destruct (write_slice_mapped m a (to_le (S n) v)) as [m' Hw]; [done | rewrite Hl; lia | rewrite Hl; exact Hm|]. exists m'. split; [done|].
  split; [rewrite <- Hl; apply (write_slice_read m); [done | rewrite Hl; lia | done]|].
  split; [intros b k Hd; eapply write_slice_same; [done | done | by rewrite Hl] | intros b k; by eapply write_slice_keeps_mapped].
Qed.

Lemma read_u16_le m a v : read_slice m a 2 = Some (to_le 2 v) -> is_u16 v -> read_u16 m a = Some v.
Proof. intros Hr Hv. unfold read_u16. rewrite Hr. cbn [mbind option_bind]. by rewrite of_to_le_id. Qed.
Lemma read_u32_le m a v : read_slice m a 4 = Some (to_le 4 v) -> is_u32 v -> read_u32 m a = Some v.
Proof. intros Hr Hv. unfold read_u32. rewrite Hr. cbn [mbind option_bind]. by rewrite of_to_le_id. Qed.

(** *** Publishing *)

(** What a publication leaves in memory. *)
Record published m q (id len : Z) m' : Prop := {
  pb_off : same_off m m' (used_area q);
  pb_slots : forall i, i mod num q <> used_count q mod num q -> same_on m m' (used_entry q i) 8;
  pb_id : read_u32 m' (used_entry q (used_count q)) = Some id;
  pb_len : read_u32 m' (used_entry q (used_count q) + 4) = Some len;
  pb_idx : read_u16 m' (device q + 2) = Some (wrap 16 (used_count q + 1));
  pb_mapped : forall b k, mapped m b k -> mapped m' b k;
}.

Lemma publish_eq d qi id len q : 0 <= qi -> queues d !! Z.to_nat qi = Some q -> laid_out (mem d) q -> is_u32 id -> is_u32 len ->
  exists m', publish_used d qi id len = Val (set_mem (set_queues d (<[Z.to_nat qi := set_used_count q (wrap 16 (used_count q + 1))]> (queues d))) m') /\
    published (mem d) q id len m'.
Proof.
  intros Hqi Eq [_ [Hn _] _ [Hd0 Hd] _ _ _ Hm] Hid Hlen. pose proof (slot_range q (used_count q) ltac:(lia)) as Hs.
  assert (publish_used d qi id len = (let '(m, ok) := write_u32 (mem d) (used_entry q (used_count q)) id in
    if negb ok then Val (set_mem d m) else let '(m, ok) := write_u32 m (used_entry q (used_count q) + 4) len in
    if negb ok then Val (set_mem d m) else let '(m, _) := write_u16 m (device q + 2) (wrap 16 (used_count q + 1)) in
    Val (set_mem (set_queues d (<[Z.to_nat qi := set_used_count q (wrap 16 (used_count q + 1))]> (queues d))) m))) as ->.
  { unfold publish_used, idx. rewrite decide_True, Eq, bind_val by done. rewrite (proj2 (Z.eqb_neq _ _)) by lia. cbv zeta. unfold wrapping_add.
    rewrite (wrap_small 64 (device q + (4 + 8 * (used_count q mod num q)))) by (unfold in_u; lia).
    replace (device q + (4 + 8 * (used_count q mod num q))) with (used_entry q (used_count q)) by (unfold used_entry; lia).
    rewrite (wrap_small 64 (used_entry q (used_count q) + 4)), (wrap_small 64 (device q + 2)) by (unfold in_u, used_entry; lia).
    rewrite upd_ok by (apply lookup_lt_Some in Eq; unfold zlen; lia). done. }
  set (e := used_entry q (used_count q)). assert (device q + 4 <= e /\ e + 8 <= device q + (4 + 8 * num q)) as He by (unfold e, used_entry; lia).
  destruct (write_scalar (mem d) e 3 id) as (m1 & E1 & R1 & S1 & M1); [intros i Hi; replace (e + i) with (device q + (e - device q + i)) by lia; apply Hm; lia|].
  unfold write_u32 at 1. rewrite E1. cbn [negb].
  destruct (write_scalar m1 (e + 4) 3 len) as (m2 & E2 & R2 & S2 & M2); [intros i Hi; replace (e + 4 + i) with (device q + (e + 4 - device q + i)) by lia; apply (M1 _ _ Hm); lia|].
  unfold write_u32. rewrite E2. cbn [negb].
  destruct (write_scalar m2 (device q + 2) 1 (wrap 16 (used_count q + 1))) as (m3 & E3 & R3 & S3 & M3); [intros i Hi; replace (device q + 2 + i) with (device q + (2 + i)) by lia; apply (M2 _ _ (M1 _ _ Hm)); lia|].
  unfold write_u16. rewrite E3. exists m3. split; [done|].
  assert (forall b k, (b + k <= e \/ e + 4 <= b) -> (b + k <= e + 4 \/ e + 8 <= b) -> (b + k <= device q + 2 \/ device q + 4 <= b) -> same_on (mem d) m3 b k) as Hsame.
  { intros b k H1 H2 H3. eapply same_on_trans; [apply S1; lia|]. eapply same_on_trans; [apply S2; lia | apply S3; lia]. }
  split.
  - intros a n Hsep. unfold sep, used_area in Hsep. cbn [fst snd] in Hsep. destruct (Z.le_gt_cases n 0) as [Hn0|Hn0]; [intros i Hi; lia|]. apply Hsame; lia.
  - intros i Hi. pose proof (slot_range q i ltac:(lia)) as Hsi. assert (used_entry q i + 8 <= e \/ e + 8 <= used_entry q i) as Hd2 by (unfold e, used_entry; lia).
    assert (device q + 4 <= used_entry q i) by (unfold used_entry; lia). apply Hsame; lia.
  - apply read_u32_le; [|done]. rewrite (read_slice_same m2), (read_slice_same m1); [exact R1 | lia | apply S2; lia | lia | apply S3; lia].
  - apply read_u32_le; [|done]. rewrite (read_slice_same m2); [exact R2 | lia | apply S3; lia].
  - apply read_u16_le; [exact R3 | apply wrap_in_u; lia].
  - intros b k Hb. by apply M3, M2, M1.
Qed.

(** *** Chains *)

Definition read_desc m q (i : Z) : option (Z * Z * Z * Z) :=
  addr ← read_u64 m (desc q + 16 * i);
  len ← read_u32 m (desc q + 16 * i + 8);
  flags ← read_u16 m (desc q + 16 * i + 12);
  next ← read_u16 m (desc q + 16 * i + 14);
  Some (addr, len, flags, next).

(** The segments (address, length) of a chain of at most [k] descriptors that the device may
    all read, or all write. *)
Inductive chain m q (writable : bool) : nat -> Z -> list (Z * Z) -> Prop :=
  | chain_last k i a l flags next : 0 <= i < num q -> 0 < l -> read_desc m q i = Some (a, l, flags, next) ->
      (Z.land flags VIRTQ_DESC_F_WRITE =? 0) = negb writable -> Z.land flags VIRTQ_DESC_F_NEXT = 0 -> chain m q writable (S k) i [(a, l)]
  | chain_next k i a l flags next segs : 0 <= i < num q -> 0 < l -> read_desc m q i = Some (a, l, flags, next) ->
      (Z.land flags VIRTQ_DESC_F_WRITE =? 0) = negb writable -> Z.land flags VIRTQ_DESC_F_NEXT <> 0 -> chain m q writable k next segs ->
      chain m q writable (S k) i ((a, l) :: segs).

Lemma read_desc_same m m' q i : same_on m m' (desc q) (16 * num q) -> 0 <= i < num q -> read_desc m' q i = read_desc m q i.
Proof.
  intros Hs Hi. unfold read_desc. assert (forall off n, 0 <= off -> off + n <= 16 -> same_on m m' (desc q + 16 * i + off) n) as Hd by (intros off n ? ?; eapply same_on_sub; [exact Hs | lia | lia]).
  pose proof (Hd 0 8) as H0. rewrite Z.add_0_r in H0. by rewrite (read_u64_same m m'), (read_u32_same m m'), !(read_u16_same m m') by (apply H0 || apply Hd; lia).
Qed.

Lemma chain_same m m' q w k i segs : same_on m m' (desc q) (16 * num q) -> chain m q w k i segs -> chain m' q w k i segs.
Proof.
  intros Hs. induction 1 as [k i a l flags next Hi Hl Hr Hw Hn|k i a l flags next segs Hi Hl Hr Hw Hn _ IH].
  - eapply chain_last; [done | done | by rewrite (read_desc_same m m') | done | done].
  - eapply chain_next; [done | done | by rewrite (read_desc_same m m') | done | done | done].
Qed.

Lemma chain_desc m q i a l flags next : 0 <= desc q -> desc q + 16 * num q <= 2 ^ 64 -> 0 <= i < num q -> read_desc m q i = Some (a, l, flags, next) ->
  let d := wrapping_add 64 (desc q) (16 * i) in
  read_u64 m d = Some a /\ read_u32 m (wrapping_add 64 d 8) = Some l /\ read_u16 m (wrapping_add 64 d 12) = Some flags /\ read_u16 m (wrapping_add 64 d 14) = Some next.
Proof.
  intros H0 H1 Hi. cbv zeta. unfold wrapping_add. rewrite (wrap_small 64 (desc q + 16 * i)) by (unfold in_u; lia). rewrite !wrap_small by (unfold in_u; lia). unfold read_desc.
  destruct (read_u64 m (desc q + 16 * i)); cbn [mbind option_bind]; [|discriminate]. destruct (read_u32 m (desc q + 16 * i + 8)); cbn [mbind option_bind]; [|discriminate].
  destruct (read_u16 m (desc q + 16 * i + 12)); cbn [mbind option_bind]; [|discriminate]. destruct (read_u16 m (desc q + 16 * i + 14)); cbn [mbind option_bind]; [|discriminate].
  by intros [= -> -> -> ->].
Qed.

(** The bytes of a chain's segments. *)
Definition holds_segs m (segs : list (Z * Z)) (bs : list (list Z)) : Prop := Forall2 (fun s b => read_slice m (fst s) (snd s) = Some b) segs bs.

Lemma holds_segs_same m m' r segs bs : same_off m m' r -> Forall (fun s => 0 < snd s /\ sep s r) segs -> holds_segs m segs bs -> holds_segs m' segs bs.
Proof.
  intros Ho Hs. unfold holds_segs. induction 1 as [|[a l] b segs bs Hb _ IH]; [constructor|]. apply Forall_cons in Hs as [[Hl Hsep] Hs]. cbn [fst snd] in *.
  constructor; [|by apply IH]. cbn [fst snd]. rewrite (read_slice_same m m') by (done || by apply Ho). done.
Qed.

Lemma gather_chain m q k i segs : 0 <= desc q -> desc q + 16 * num q <= 2 ^ 64 -> chain m q false k i segs -> forall out bs, holds_segs m segs bs ->
  gather_from k m q i out = Some (out ++ concat bs).
Proof.
  intros H0 H1. induction 1 as [k i a l flags next Hi Hl Hr Hw Hn|k i a l flags next segs Hi Hl Hr Hw Hn _ IH]; intros out bs Hb; unfold holds_segs in Hb; cbn [gather_from].
  - apply Forall2_cons_inv_l in Hb as (b & bs' & Hb & ->%Forall2_nil_inv_l & ->). cbn [fst snd] in Hb.
    destruct (chain_desc m q i a l flags next H0 H1 Hi Hr) as (-> & -> & -> & ->). cbn [mbind option_bind]. rewrite Hw. cbn [negb]. rewrite Hb. cbn [mbind option_bind].
    rewrite (proj2 (Z.eqb_eq _ 0)) by done. cbn [concat]. by rewrite app_nil_r.
  - apply Forall2_cons_inv_l in Hb as (b & bs' & Hb & Hbs & ->). cbn [fst snd] in Hb.
    destruct (chain_desc m q i a l flags next H0 H1 Hi Hr) as (-> & -> & -> & ->). cbn [mbind option_bind]. rewrite Hw. cbn [negb]. rewrite Hb. cbn [mbind option_bind].
    rewrite (proj2 (Z.eqb_neq _ 0)) by done. rewrite (IH _ _ Hbs). cbn [concat]. by rewrite app_assoc.
Qed.

(** *** The available ring *)

(** The driver has made these chains available. *)
Record offers m q (heads : list Z) : Prop := {
  of_count : zlen heads <= num q;
  of_idx : read_u16 m (driver q + 2) = Some (wrap 16 (next_avail q + zlen heads));
  of_ring : forall i h, heads !! i = Some h -> read_u16 m (avail_entry q (next_avail q + Z.of_nat i)) = Some h;
}.

Lemma offers_same m m' q heads : 0 < num q -> same_on m m' (driver q) (4 + 2 * num q) -> offers m q heads -> offers m' q heads.
Proof.
  intros Hn Hs [Hc Hi Hr]. split; [done | |].
  - rewrite (read_u16_same m m'); [done|]. eapply same_on_sub; [exact Hs | lia | lia].
  - intros i h Hh. rewrite (read_u16_same m m'); [by apply Hr|]. pose proof (slot_range q (next_avail q + Z.of_nat i) Hn). eapply same_on_sub; [exact Hs | unfold avail_entry; lia | unfold avail_entry; lia].
Qed.

Lemma offers_next m q h heads : laid_out m q -> is_u16 (next_avail q) -> offers m q (h :: heads) -> next_head m q = Some h.
Proof.
  intros [Hr [Hn Hdiv] [Hd0 Hd] _ _ _ _ _] Hna [Hc Hi Hring]. rewrite zlen_cons in *. pose proof (zlen_nonneg heads). pose proof (slot_range q (next_avail q) ltac:(lia)) as Hs. unfold QUEUE_NUM_MAX in Hn.
  unfold next_head, wrapping_add. rewrite Hr, (proj2 (Z.eqb_neq _ 0)) by lia. cbn [negb orb]. rewrite !wrap_small by (unfold in_u; lia). rewrite Hi. cbn [mbind option_bind].
  rewrite (proj2 (Z.eqb_neq _ _)).
  - replace (driver q + (4 + 2 * (next_avail q mod num q))) with (avail_entry q (next_avail q + Z.of_nat 0)) by (unfold avail_entry; rewrite Z.add_0_r; lia). by apply (Hring 0%nat).
  - unfold wrap, in_u in *. intros E. destruct (Z.le_gt_cases (2 ^ 16) (next_avail q + (1 + zlen heads))) as [Hge|Hlt].
    + replace (next_avail q + (1 + zlen heads)) with (next_avail q + (1 + zlen heads) - 2 ^ 16 + 1 * 2 ^ 16) in E by lia. rewrite Z.mod_add, Z.mod_small in E by lia. lia.
    + rewrite Z.mod_small in E by lia. lia.
Qed.

Lemma offers_none m q : laid_out m q -> is_u16 (next_avail q) -> offers m q [] -> next_head m q = None.
Proof.
  intros [Hr [Hn _] [Hd0 Hd] _ _ _ _ _] Hna [_ Hi _]. unfold next_head, wrapping_add. rewrite Hr, (proj2 (Z.eqb_neq _ 0)) by lia. cbn [negb orb].
  rewrite (wrap_small 64 (driver q + 2)) by (unfold in_u; lia). rewrite Hi. cbn [mbind option_bind]. rewrite zlen_nil, Z.add_0_r, wrap_small, Z.eqb_refl by done. done.
Qed.

(** The queue after taking an entry and publishing its use. *)
Definition step_queue q : QueueState := set_used_count (set_next_avail q (wrap 16 (next_avail q + 1))) (wrap 16 (used_count q + 1)).

Lemma offers_step m q h heads : (num q | 2 ^ 16) -> 0 < num q -> offers m q (h :: heads) -> offers m (step_queue q) heads.
Proof.
  intros Hd Hn [Hc Hi Hr]. rewrite zlen_cons in *. pose proof (zlen_nonneg heads). split; cbn [step_queue set_used_count set_next_avail num driver next_avail]; [lia | |].
  - rewrite Hi. f_equal. unfold wrap. rewrite Z.add_mod_idemp_l by lia. f_equal. lia.
  - intros i h' Hh. specialize (Hr (S i) h' Hh). unfold avail_entry in *. cbn [step_queue set_used_count set_next_avail num driver next_avail]. rewrite <- Hr. do 3 f_equal.
    rewrite <- (wrap_mod_num q (wrap 16 (next_avail q + 1) + Z.of_nat i)), <- (wrap_mod_num q (next_avail q + Z.of_nat (S i))) by done. f_equal.
    unfold wrap. rewrite Z.add_mod_idemp_l by lia. f_equal. lia.
Qed.

Lemma laid_out_step m m' q : (forall b k, mapped m b k -> mapped m' b k) -> laid_out m q -> laid_out m' (step_queue q).
Proof. intros Hm [? ? ? ? ? ? ? Hmap]. split; try done. by apply Hm. Qed.

(** *** The transmit queue *)

(** The chain at a head carries these bytes, out of the device's reach. *)
Definition carries m q (e : Z * list Z) : Prop := exists segs bl,
  chain m q false (Z.to_nat (num q)) (fst e) segs /\ holds_segs m segs bl /\ snd e = concat bl /\ Forall (fun s => sep s (used_area q)) segs.

(** The used ring holds these completions, from the device's count on. *)
Definition completed m q (us : list (Z * Z)) : Prop := forall i id len, us !! i = Some (id, len) ->
  read_u32 m (used_entry q (used_count q + Z.of_nat i)) = Some id /\ read_u32 m (used_entry q (used_count q + Z.of_nat i) + 4) = Some len.

Definition taken q (n : Z) : QueueState := set_used_count (set_next_avail q (wrap 16 (next_avail q + n))) (wrap 16 (used_count q + n)).

Lemma wrap16_add a b : wrap 16 (wrap 16 a + b) = wrap 16 (a + b).
Proof. unfold wrap. by rewrite Z.add_mod_idemp_l by lia. Qed.

Lemma taken_step q n : taken (step_queue q) n = taken q (1 + n).
Proof. unfold taken, step_queue. cbn [set_used_count set_next_avail num ready desc driver device next_avail used_count]. rewrite !wrap16_add. by rewrite <- !Z.add_assoc. Qed.
Lemma taken_0 q : is_u16 (next_avail q) -> is_u16 (used_count q) -> taken q 0 = q.
Proof. intros Hn Hu. unfold taken. rewrite !Z.add_0_r, !wrap_small by done. by destruct q. Qed.

Lemma used_entry_step q i : (num q | 2 ^ 16) -> 0 < num q -> used_entry (step_queue q) (used_count (step_queue q) + i) = used_entry q (used_count q + (1 + i)).
Proof.
  intros Hd Hn. unfold used_entry, step_queue. cbn [set_used_count set_next_avail num device used_count]. do 2 f_equal.
  rewrite <- (wrap_mod_num q (wrap 16 _ + i)), <- (wrap_mod_num q (used_count q + (1 + i))), wrap16_add by done. f_equal. f_equal. lia.
Qed.

Lemma mod_distinct n a i j : 0 < n -> 0 <= i < n -> 0 <= j < n -> i <> j -> (a + i) mod n <> (a + j) mod n.
Proof.
  intros Hn Hi Hj Hne E. assert ((i - j) mod n = 0) as H0.
  { replace (i - j) with ((a + i) - (a + j)) by lia. rewrite Zminus_mod, E, Z.sub_diag. apply Z.mod_0_l; lia. }
  apply Z.mod_divide in H0 as [k Hk]; [|lia]. assert (-1 < k) by nia. assert (k < 1) by nia. assert (k = 0) as -> by lia. lia.
Qed.

Lemma push_guest_app l k : forall h, push_guest_bytes h (l ++ k) = (h' ← push_guest_bytes h l; push_guest_bytes h' k).
Proof.
  induction l as [|b l IH]; intros h; [done|]. cbn [app push_guest_bytes]. destruct (push_byte (accum h) b) as [[a [n|]]|]; rewrite ?bind_val; [| apply IH | done].
  destruct (accum_bytes _) as [bs|]; [|done]. rewrite !bind_val. destruct (slice bs 0 n) as [w|]; [|done]. rewrite !bind_val. destruct (consume _ n) as [a2|]; [|done]. rewrite !bind_val.
  destruct (decode w) as [f|]; [|done]. rewrite !bind_val. destruct (match f with Some frame => _ | None => _ end) as [h1|]; [|done]. rewrite !bind_val. apply IH.
Qed.

Lemma chain_pos m q w k i segs : chain m q w k i segs -> Forall (fun s => 0 < snd s) segs.
Proof. induction 1; by repeat constructor. Qed.
Lemma chain_head m q w k i segs : chain m q w k i segs -> 0 <= i < num q.
Proof. by destruct 1. Qed.

Lemma carries_gather m q e : laid_out m q -> carries m q e -> gather_readable m q (fst e) = Some (snd e).
Proof.
  intros [_ _ _ _ [H0 H1] _ _ _] (segs & bl & Hc & Hb & -> & _). unfold gather_readable. by rewrite (gather_chain m q _ _ segs H0 H1 Hc [] bl).
Qed.

Lemma carries_same m m' q e : laid_out m q -> same_off m m' (used_area q) -> carries m q e -> carries m' (step_queue q) e.
Proof.
  intros Hlo Ho (segs & bl & Hc & Hb & He & Hs). exists segs, bl. split; [|split; [|done]].
  - assert (chain m' q false (Z.to_nat (num q)) (fst e) segs) as Hc'; [eapply chain_same; [|exact Hc]; exact (same_off_area _ _ _ _ Ho (lo_desc_used _ _ Hlo))|].
    revert Hc'. clear. change (num (step_queue q)) with (num q). induction 1; [by eapply chain_last | by eapply chain_next].
  - eapply holds_segs_same; [exact Ho | | exact Hb]. pose proof (chain_pos _ _ _ _ _ _ Hc) as Hp. apply Forall_forall. intros s Hin.
    split; [by apply (proj1 (Forall_forall _ _) Hp) | by apply (proj1 (Forall_forall _ _) Hs)].
Qed.

(** One entry: its bytes to the peer, and its completion to the driver. *)
Lemma tx_turn_eq d q e heads h' : queues d !! Z.to_nat TXQ = Some q -> laid_out (mem d) q -> queue_ok q -> offers (mem d) q (fst e :: heads) -> carries (mem d) q e ->
  push_guest_bytes (host d) (snd e) = Val h' -> exists m', published (mem d) q (fst e) 0 m' /\
    tx_turn d = Val (set_mem (set_queues (set_host d h') (<[Z.to_nat TXQ := step_queue q]> (queues d))) m', true).
Proof.
  intros Eq Hlo Hok Hof Hca Hpush. unfold tx_turn, idx. rewrite decide_True, Eq, bind_val by done.
  rewrite (offers_next _ _ _ _ Hlo (qo_next q Hok) Hof), (carries_gather _ _ _ Hlo Hca), Hpush, bind_val. rewrite (advance_eq _ TXQ q), bind_val by done.
  change (queues (set_host d h')) with (queues d). set (q1 := set_next_avail q (wrapping_add 16 (next_avail q) 1)).
  assert (is_u32 (fst e)) as Hid.
  { destruct Hca as (segs & bl & Hc & _). apply chain_head in Hc. destruct Hok as [Hn _ _ _ _ _]. unfold QUEUE_NUM_MAX, in_u in *. lia. }
  destruct (publish_eq (set_queues (set_host d h') (<[Z.to_nat TXQ := q1]> (queues d))) TXQ (fst e) 0 q1) as (m' & E & Hp).
  - done.
  - cbn [set_queues queues]. apply list_lookup_insert_eq. by apply lookup_lt_Some in Eq.
  - destruct Hlo. by split.
  - done.
  - unfold in_u. lia.
  - exists m'. split; [destruct Hp; by split|]. rewrite E, bind_val. cbn [set_queues queues set_host]. by rewrite list_insert_insert_eq.
Qed.

Lemma queue_ok_step q : queue_ok q -> queue_ok (step_queue q).
Proof. intros [? ? ? ? ? ?]. split; try done; apply wrap_in_u; lia. Qed.

(** Nothing but these segments was written. *)
Definition wrote m m' (fp : list (Z * Z)) : Prop :=
  (forall a n, Forall (sep (a, n)) fp -> same_on m m' a n) /\ (forall b k, mapped m b k -> mapped m' b k).

Lemma wrote_refl m fp : wrote m m fp.
Proof. split; [intros a n _; apply same_on_refl | done]. Qed.

Lemma sep_sub a n b k r : sep (a, n) r -> a <= b -> b + k <= a + n -> sep (b, k) r.
Proof. unfold sep. cbn [fst snd]. intros [?|?] ? ?; [left; lia | right; lia]. Qed.

(** What a run over entries of a queue leaves, with these buffers filled. *)
Record ran m m' q (fp : list (Z * Z)) (us : list (Z * Z)) : Prop := {
  rn_off : wrote m m' (used_area q :: fp);
  rn_done : completed m' q us;
  rn_idx : read_u16 m' (device q + 2) = if decide (us = []) then read_u16 m (device q + 2) else Some (wrap 16 (used_count q + zlen us));
  rn_slots : forall i, (forall j, 0 <= j < zlen us -> i mod num q <> (used_count q + j) mod num q) -> same_on m m' (used_entry q i) 8;
}.

Lemma ran_nil m q fp : ran m m q fp [].
Proof. split; [apply wrote_refl | by intros i id len Hi | done | intros i _; apply same_on_refl]. Qed.

Lemma slot_in_area m q i : laid_out m q -> device q <= used_entry q i /\ used_entry q i + 8 <= device q + (4 + 8 * num q).
Proof. intros [_ [Hn _] _ _ _ _ _ _]. pose proof (slot_range q i ltac:(lia)). unfold used_entry. lia. Qed.

Lemma ran_cons m ms m1 m2 q fp id len us : laid_out m q -> zlen us < num q -> Forall (sep (used_area q)) fp ->
  wrote m ms fp -> published ms q id len m1 -> ran m1 m2 (step_queue q) fp us -> ran m m2 q fp ((id, len) :: us).
Proof.
  intros Hlo Hn Hfp [Wo Wm] [Po Ps Pid Plen Pidx Pm] [[Ro Rm] Rd Ri Rs]. destruct (lo_num _ _ Hlo) as [Hq Hdiv]. pose proof (zlen_nonneg us).
  assert (forall j, wrap 16 (used_count q + 1) + j = wrap 16 (used_count q + 1) + j -> (wrap 16 (used_count q + 1) + j) mod num q = (used_count q + (1 + j)) mod num q) as Hcount.
  { intros j _. rewrite <- (wrap_mod_num q (wrap 16 _ + j)), wrap16_add, wrap_mod_num by (done || lia). f_equal. lia. }
  assert (same_on m1 m2 (used_entry q (used_count q)) 8) as Hkeep.
  { change (used_entry q) with (used_entry (step_queue q)). apply Rs. intros j Hj. unfold step_queue. cbn [set_used_count set_next_avail num used_count]. rewrite Hcount by done.
    rewrite <- (Z.add_0_r (used_count q)) at 1. apply mod_distinct; lia. }
  assert (forall b k, device q <= b -> b + k <= device q + (4 + 8 * num q) -> same_on m ms b k) as Harea.
  { intros b k Hb Hk. apply Wo. eapply Forall_impl; [exact Hfp|]. intros r Hr. by eapply sep_sub. }
  split.
  - split; [|intros b k Hb; by apply Rm, Pm, Wm]. intros a n Hs. pose proof Hs as [Hu Hf]%Forall_cons. eapply same_on_trans; [by apply Wo|]. eapply same_on_trans; [by apply Po | by apply Ro].
  - intros [|i] id' len' Hi.
    + injection Hi as <- <-. rewrite Z.add_0_r. rewrite !(read_u32_same m1 m2) by (eapply same_on_sub; [exact Hkeep | lia | lia]). done.
    + destruct (Rd i id' len' Hi) as [R1 R2]. rewrite used_entry_step in R1, R2 by (done || lia). replace (Z.of_nat (S i)) with (1 + Z.of_nat i) by lia. done.
  - rewrite decide_False by done. rewrite zlen_cons. change (device (step_queue q)) with (device q) in Ri. rewrite Ri. destruct (decide (us = [])) as [->|_].
    + by rewrite Pidx.
    + cbn [step_queue set_used_count set_next_avail used_count]. rewrite wrap16_add. do 2 f_equal. lia.
  - intros i Hi. destruct (slot_in_area m q i Hlo). eapply same_on_trans; [by apply Harea|]. eapply same_on_trans; [apply Ps|].
    + specialize (Hi 0). rewrite zlen_cons, Z.add_0_r in Hi. apply Hi. lia.
    + change (used_entry q) with (used_entry (step_queue q)). apply Rs. intros j Hj. specialize (Hi (1 + j)). rewrite zlen_cons in Hi.
      unfold step_queue. cbn [set_used_count set_next_avail num used_count]. rewrite Hcount by done. apply Hi. lia.
Qed.

(** A run over all the entries offered. *)
Lemma tx_run es : forall d q h' fuel, queues d !! Z.to_nat TXQ = Some q -> laid_out (mem d) q -> queue_ok q -> offers (mem d) q (map fst es) ->
  Forall (carries (mem d) q) es -> push_guest_bytes (host d) (concat (map snd es)) = Val h' -> (length es < fuel)%nat ->
  exists m', process_tx fuel d = Val (Some (set_mem (set_queues (set_host d h') (<[Z.to_nat TXQ := taken q (zlen es)]> (queues d))) m')) /\
    ran (mem d) m' q [] (map (fun e => (fst e, 0)) es).
Proof.
  induction es as [|e es IH]; intros d q h' fuel Eq Hlo Hok Hof Hca Hpush Hfuel; (destruct fuel as [|fuel]; [lia|]); unfold process_tx; cbn [turns].
  - exists (mem d). split; [|apply ran_nil]. cbn in Hpush. injection Hpush as <-. unfold tx_turn, idx. rewrite decide_True, Eq, bind_val by done.
    rewrite offers_none, bind_val by (done || by apply qo_next). change (zlen (@nil (Z * list Z))) with 0. rewrite taken_0 by apply Hok. rewrite list_insert_id by done. by destruct d.
  - cbn [map concat] in *. apply Forall_cons in Hca as [He Hca]. rewrite push_guest_app in Hpush. destruct (push_guest_bytes (host d) (snd e)) as [h1|] eqn:Eh; [|done]. rewrite bind_val in Hpush.
    destruct (tx_turn_eq d q e (map fst es) h1 Eq Hlo Hok Hof He Eh) as (m1 & Hp & ->). rewrite bind_val. pose proof Hp as [Po Ps _ _ _ Pm]. destruct (lo_num _ _ Hlo) as [Hq Hdiv].
    destruct (IH (set_mem (set_queues (set_host d h1) (<[Z.to_nat TXQ := step_queue q]> (queues d))) m1) (step_queue q) h' fuel) as (m2 & E2 & Hran).
    + cbn [set_mem set_queues queues]. apply list_lookup_insert_eq. by apply lookup_lt_Some in Eq.
    + by eapply laid_out_step.
    + by apply queue_ok_step.
    + eapply offers_step; [done | lia|]. eapply (offers_same (mem d)); [lia | | exact Hof]. exact (same_off_area _ _ _ _ Po (lo_avail_used _ _ Hlo)).
    + eapply Forall_impl; [exact Hca|]. intros e' He'. by eapply carries_same.
    + exact Hpush.
    + cbn in Hfuel. lia.
    + exists m2. unfold process_tx in E2. rewrite E2. cbn [set_mem set_queues set_host queues host]. rewrite list_insert_insert_eq, taken_step, zlen_cons. split; [done|].
      eapply (ran_cons (mem d) (mem d)); [done | | constructor | apply wrote_refl | exact Hp | exact Hran].
      destruct Hof as [Hc _ _]. rewrite zlen_cons in Hc. unfold zlen in *. rewrite !length_map in *. lia.
Qed.

(** *** The receive queue *)

Definition drained (h : InferHost) (n : Z) : InferHost := mkHost (key h) (host_nonce h) (accum h) (zdrop n (outbuf h)) (inflight h) (witness h) (echoes h).
Definition total (segs : list (Z * Z)) : Z := foldr (fun s n => snd s + n) 0 segs.

(** These bytes lie in the segments, one after the other. *)
Fixpoint filled m (segs : list (Z * Z)) (data : list Z) : Prop :=
  match segs with
  | [] => data = []
  | (a, l) :: segs => data = [] \/ (read_slice m a (Z.min l (zlen data)) = Some (ztake l data) /\ filled m segs (zdrop l data))
  end.

Lemma filled_nil m segs : filled m segs [].
Proof. destruct segs as [|[a l] segs]; [done | by left]. Qed.

Lemma filled_same m m' segs : Forall (fun s => 0 < snd s /\ same_on m m' (fst s) (snd s)) segs -> forall data, filled m segs data -> filled m' segs data.
Proof.
  induction 1 as [|[a l] segs [Hl Hs] _ IH]; intros data; [done|]. cbn [filled fst snd] in *. intros [->|[Hr Hf]]; [by left|].
  destruct (decide (data = [])) as [->|Hne]; [by left|]. right. pose proof (zlen_pos data Hne). split; [|by apply IH].
  rewrite (read_slice_same m m'); [done | lia|]. eapply same_on_sub; [exact Hs | lia | lia].
Qed.

Lemma sep_sym r s : sep r s -> sep s r.
Proof. unfold sep. lia. Qed.

Lemma wrote_seg m m' fp a l : wrote m m' fp -> Forall (sep (a, l)) fp -> same_on m m' a l.
Proof. intros [Ho _] Hs. by apply Ho. Qed.

Lemma wrote_trans m1 m2 m3 fp gp : wrote m1 m2 fp -> wrote m2 m3 gp -> wrote m1 m3 (fp ++ gp).
Proof.
  intros [H1 K1] [H2 K2]. split; [|intros b k Hb; by apply K2, K1]. intros a n [Hf Hg]%Forall_app. eapply same_on_trans; [by apply H1 | by apply H2].
Qed.

Lemma take_output_eq h l : take_output h l = (drained h (Z.min l (zlen (outbuf h))), ztake (Z.min l (zlen (outbuf h))) (outbuf h)).
Proof. done. Qed.
Lemma drained_drained h a b : 0 <= a -> 0 <= b -> drained (drained h a) b = drained h (a + b).
Proof. intros Ha Hb. unfold drained. cbn. f_equal. by rewrite zdrop_zdrop by lia. Qed.

Lemma write_seg d a l : 0 < l -> mapped (mem d) a l -> bytes (outbuf (host d)) -> 0 < zlen (outbuf (host d)) ->
  let n := Z.min l (zlen (outbuf (host d))) in
  exists m', write_slice (mem d) a (ztake n (outbuf (host d))) = (m', true) /\ wrote (mem d) m' [(a, l)] /\ read_slice m' a n = Some (ztake n (outbuf (host d))).
Proof.
  intros Hl Hm Hb Hp. cbv zeta. set (n := Z.min l (zlen (outbuf (host d)))). assert (zlen (ztake n (outbuf (host d))) = n) as Hn by (unfold n; zl). assert (0 < n <= l) by (unfold n; lia).
  assert (bytes (ztake n (outbuf (host d)))) as Hb' by by apply ztake_bytes.
  destruct (write_slice_mapped (mem d) a (ztake n (outbuf (host d)))) as [m' Hw]; [done | lia | rewrite Hn; intros i Hi; apply Hm; lia|]. exists m'. split; [done|]. split.
  - split; [|intros b k; by eapply write_slice_keeps_mapped]. intros b k [Hs _]%Forall_cons. unfold sep in Hs. cbn [fst snd] in Hs. eapply write_slice_same; [done | exact Hw |].
    rewrite Hn. lia.
  - rewrite <- Hn at 1. apply (write_slice_read (mem d)); [done | lia | done].
Qed.

Lemma total_segs_nonneg segs : Forall (fun s => 0 < snd s) segs -> 0 <= total segs.
Proof. induction 1 as [|s segs Hs _ IH]; cbn [total foldr]; [lia|]. fold (total segs). lia. Qed.

Lemma scatter_chain m q k i segs : 0 <= desc q -> desc q + 16 * num q <= 2 ^ 64 -> chain m q true k i segs -> forall d w,
  same_on m (mem d) (desc q) (16 * num q) -> Forall (fun s => mapped (mem d) (fst s) (snd s) /\ sep s (desc_area q)) segs -> ForallOrdPairs sep segs ->
  bytes (outbuf (host d)) -> 0 < zlen (outbuf (host d)) ->
  let n := Z.min (total segs) (zlen (outbuf (host d))) in
  exists m', scatter_from k d q i w = (set_mem (set_host d (drained (host d) n)) m', Some (w + n)) /\
    wrote (mem d) m' segs /\ filled m' segs (ztake n (outbuf (host d))).
Proof.
  intros H0 H1 Hch. pose proof (chain_pos _ _ _ _ _ _ Hch) as Hpos. revert Hpos.
  induction Hch as [k i a l flags next Hi Hl Hr Hw Hn|k i a l flags next segs Hi Hl Hr Hw Hn Hch IH]; intros Hpos d w Hd Hs Hp Hb Hout; apply Forall_cons in Hs as [[Hm Hsd] Hs]; cbn [fst snd] in Hm; cbn [scatter_from]; cbv zeta;
    rewrite <- (read_desc_same m (mem d) q i Hd Hi) in Hr; destruct (chain_desc (mem d) q i a l flags next H0 H1 Hi Hr) as (-> & -> & -> & ->); rewrite Hw; cbn [negb andb];
    destruct (write_seg d a l Hl Hm Hb Hout) as (m' & Ew & Wm & Rm); unfold out_len; rewrite (proj2 (Z.ltb_lt 0 _) Hout), take_output_eq, Ew;
    assert (zlen (ztake (Z.min l (zlen (outbuf (host d)))) (outbuf (host d))) = Z.min l (zlen (outbuf (host d)))) as Hz by zl; rewrite Hz.
  - rewrite (proj2 (Z.eqb_eq _ 0) Hn). cbn [orb]. cbn [total foldr snd]. rewrite Z.add_0_r. exists m'. split; [done|]. split; [done|]. cbn [filled]. right. rewrite Hz.
    rewrite (Z.min_r l) by lia. split; [rewrite Rm; f_equal; symmetry; apply ztake_all; lia|]. apply zdrop_all. lia.
  - rewrite (proj2 (Z.eqb_neq _ 0) Hn). cbn [orb]. cbn [set_mem set_host host drained outbuf]. apply Forall_cons in Hpos as [_ Hpos]. pose proof (total_segs_nonneg segs Hpos) as Htn.
    cbn [total foldr snd]. fold (total segs). destruct (Z.le_gt_cases (zlen (outbuf (host d))) l) as [Hle|Hgt].
    + rewrite (Z.min_r l) by lia. rewrite zdrop_all by lia. change (zlen (@nil Z) =? 0) with true. cbv iota. rewrite (Z.min_r (l + total segs)) by lia. exists m'.
      split; [done|]. split.
      * destruct Wm as [Wo Wm]. split; [|done]. intros b n [Hsep _]%Forall_cons. apply Wo. by apply Forall_singleton.
      * cbn [filled]. right. rewrite (ztake_all (zlen (outbuf (host d)))) by lia. rewrite Z.min_r in Rm |- * by lia. rewrite (ztake_all (zlen (outbuf (host d)))) in Rm by lia.
        split; [by rewrite (ztake_all l) by lia | rewrite zdrop_all by lia; apply filled_nil].
    + rewrite (Z.min_l l) in * by lia. rewrite (proj2 (Z.eqb_neq _ 0)) by zl. set (d1 := set_mem (set_host d (drained (host d) l)) m').
      assert (ForallOrdPairs sep segs /\ Forall (sep (a, l)) segs) as [Hp1 Hp2] by (by inversion Hp).
      destruct (IH Hpos d1 (w + l)) as (m2 & E2 & W2 & F2).
      * eapply same_on_trans; [exact Hd|]. apply (wrote_seg _ _ _ _ _ Wm). apply Forall_singleton. by apply sep_sym.
      * eapply Forall_impl; [exact Hs|]. intros s [Hms Hss]. split; [|done]. by apply Wm.
      * done.
      * by apply zdrop_bytes.
      * cbn. zl.
      * exists m2. change (mem d1) with m' in *. change (host d1) with (drained (host d) l) in *. cbn [drained outbuf] in *.
        assert (zlen (zdrop l (outbuf (host d))) = zlen (outbuf (host d)) - l) as Hzd by zl. rewrite Hzd in *.
        assert (Z.min (l + total segs) (zlen (outbuf (host d))) = l + Z.min (total segs) (zlen (outbuf (host d)) - l)) as -> by lia.
        set (n := Z.min (total segs) (zlen (outbuf (host d)) - l)) in *. assert (0 <= n) by (unfold n; lia). rewrite E2.
        split; [unfold d1; cbn [set_mem set_host mem host status]; rewrite drained_drained by lia; do 2 f_equal; lia|]. split; [exact (wrote_trans _ _ _ [_] _ Wm W2)|].
        cbn [filled]. right. assert (zlen (ztake (l + n) (outbuf (host d))) = l + n) as Hzl by (unfold n; zl). rewrite Hzl, Z.min_l by lia. split.
        -- rewrite (read_slice_same m' m2); [|lia | by eapply wrote_seg]. rewrite Rm. f_equal. unfold ztake. rewrite take_take. f_equal. lia.
        -- assert (zdrop l (ztake (l + n) (outbuf (host d))) = ztake n (zdrop l (outbuf (host d)))) as ->; [|exact F2].
           unfold ztake, zdrop. rewrite skipn_firstn_comm. f_equal. lia.
Qed.

(** A posted chain: buffers for the device, apart from the queue's own areas. *)
Definition accepts m q (e : Z * list (Z * Z)) : Prop :=
  chain m q true (Z.to_nat (num q)) (fst e) (snd e) /\
  Forall (fun s => mapped m (fst s) (snd s) /\ sep s (desc_area q) /\ sep s (avail_area q) /\ sep s (used_area q)) (snd e).

(** These bytes were put into the posted chains in order, each full before the next. *)
Inductive delivered m : list (Z * list (Z * Z)) -> list Z -> list (Z * Z) -> Prop :=
  | delivered_none es : delivered m es [] []
  | delivered_entry h segs es data rest us : data <> [] -> zlen data <= total segs -> (rest = [] \/ zlen data = total segs) -> filled m segs data ->
      delivered m es rest us -> delivered m ((h, segs) :: es) (data ++ rest) ((h, zlen data) :: us).

Lemma set_same d m q i h : queues d !! i = Some q -> h = host d -> m = mem d -> set_mem (set_queues (set_host d h) (<[i := q]> (queues d))) m = d.
Proof. intros Hq -> ->. rewrite list_insert_id by done. by destruct d. Qed.

Lemma drained_0 h : drained h 0 = h.
Proof. unfold drained. rewrite zdrop_0. by destruct h. Qed.

Lemma rx_turn_eq d q e heads : queues d !! Z.to_nat RXQ = Some q -> laid_out (mem d) q -> queue_ok q -> offers (mem d) q (fst e :: heads) -> accepts (mem d) q e ->
  ForallOrdPairs sep (snd e) -> bytes (outbuf (host d)) -> 0 < zlen (outbuf (host d)) < 2 ^ 32 ->
  let n := Z.min (total (snd e)) (zlen (outbuf (host d))) in
  exists ms m', wrote (mem d) ms (snd e) /\ published ms q (fst e) n m' /\ filled m' (snd e) (ztake n (outbuf (host d))) /\
    rx_turn d = Val (set_mem (set_queues (set_host d (drained (host d) n)) (<[Z.to_nat RXQ := step_queue q]> (queues d))) m', true).
Proof.
  intros Eq Hlo Hok Hof [Hch Hs] Hp Hb Hout. cbv zeta. pose proof (chain_pos _ _ _ _ _ _ Hch) as Hpos. pose proof (total_segs_nonneg _ Hpos) as Hnn.
  pose proof (lo_desc _ _ Hlo) as [Hd0 Hd1]. destruct (scatter_chain (mem d) q _ _ _ Hd0 Hd1 Hch d 0) as (ms & Es & Wo & Hf); [apply same_on_refl | | done | done | lia|].
  { eapply Forall_impl; [exact Hs|]. intros s (Hm & Hsd & _). done. }
  set (n := Z.min (total (snd e)) (zlen (outbuf (host d)))) in *. assert (0 <= n < 2 ^ 32) as Hn by (unfold n; lia).
  rewrite Z.add_0_l in Es. unfold rx_turn, out_len, idx. rewrite (proj2 (Z.eqb_neq _ 0)) by lia. rewrite decide_True, Eq, bind_val by done.
  rewrite (offers_next _ _ _ _ Hlo (qo_next q Hok) Hof). unfold scatter_writable. rewrite Es.
  set (d1 := set_mem (set_host d (drained (host d) n)) ms). change (queues d) with (queues d1) in Eq |- *. rewrite (advance_eq d1 RXQ q), bind_val by done.
  set (q1 := set_next_avail q (wrapping_add 16 (next_avail q) 1)). rewrite (wrap_small 32) by done.
  assert (is_u32 (fst e)) as Hid.
  { apply chain_head in Hch. destruct Hok as [Hq _ _ _ _ _]. unfold QUEUE_NUM_MAX, in_u in *. lia. }
  destruct (publish_eq (set_queues d1 (<[Z.to_nat RXQ := q1]> (queues d1))) RXQ (fst e) n q1) as (m' & E & Hpub).
  - done.
  - cbn [set_queues queues]. apply list_lookup_insert_eq. by apply lookup_lt_Some in Eq.
  - destruct Hlo. split; try done. by apply Wo.
  - done.
  - done.
  - exists ms, m'. split; [done|]. split; [destruct Hpub; by split|]. split.
    + eapply filled_same; [|exact Hf]. apply Forall_forall. intros s Hin. split; [by apply (proj1 (Forall_forall _ _) Hpos)|].
      apply (pb_off _ _ _ _ _ Hpub). destruct (proj1 (Forall_forall _ _) Hs s Hin) as (_ & _ & _ & Hsu). by destruct s.
    + rewrite E, bind_val. cbn [set_queues queues]. by rewrite list_insert_insert_eq.
Qed.

Lemma accepts_same m ms m' q segs e id len : laid_out m q -> wrote m ms segs -> Forall (fun s => sep s (desc_area q)) segs -> published ms q id len m' ->
  accepts m q e -> accepts m' (step_queue q) e.
Proof.
  intros Hlo [Wo Wm] Hsegs Hpub [Hch Hs]. split.
  - assert (chain m' q true (Z.to_nat (num q)) (fst e) (snd e)) as Hc'.
    { eapply chain_same; [|exact Hch]. eapply same_on_trans; [apply Wo | exact (same_off_area _ _ _ _ (pb_off _ _ _ _ _ Hpub) (lo_desc_used _ _ Hlo))].
      eapply Forall_impl; [exact Hsegs|]. intros s Hss. by apply sep_sym. }
    revert Hc'. clear. change (num (step_queue q)) with (num q). induction 1; [by eapply chain_last | by eapply chain_next].
  - eapply Forall_impl; [exact Hs|]. intros s (Hm & Hss). split; [|done]. by apply (pb_mapped _ _ _ _ _ Hpub), Wm.
Qed.

Lemma pairs_app {A} (R : A -> A -> Prop) l k : ForallOrdPairs R (l ++ k) -> ForallOrdPairs R l /\ ForallOrdPairs R k /\ Forall (fun x => Forall (R x) k) l.
Proof.
  induction l as [|x l IH]; [intros Hk; split; [constructor|]; by split|]. cbn [app]. intros Hp. inversion Hp as [|? ? Hx Hrest]; subst.
  apply Forall_app in Hx as [Hxl Hxk]. destruct (IH Hrest) as (H1 & H2 & H3). split; [by constructor|]. split; [done | by constructor].
Qed.

Lemma accepts_pos m q es : Forall (accepts m q) es -> Forall (fun s => 0 < snd s) (concat (map snd es)).
Proof. induction 1 as [|e es [Hch _] _ IH]; [constructor|]. cbn [map concat]. apply Forall_app_2; [by eapply chain_pos | done]. Qed.
Lemma accepts_apart m q es : Forall (accepts m q) es -> Forall (fun s => mapped m (fst s) (snd s) /\ sep s (desc_area q) /\ sep s (avail_area q) /\ sep s (used_area q)) (concat (map snd es)).
Proof. induction 1 as [|e es [_ Hs] _ IH]; [constructor|]. cbn [map concat]. by apply Forall_app_2. Qed.

Lemma total_segs_app l k : total (l ++ k) = total l + total k.
Proof. induction l as [|s l IH]; cbn [app total foldr]; [done|]. fold (total (l ++ k)) (total l). rewrite IH. lia. Qed.

Lemma wrote_sub m m' fp gp : wrote m m' fp -> (forall s, s ∈ fp -> s ∈ gp) -> wrote m m' gp.
Proof. intros [Wo Wm] Hsub. split; [|done]. intros a n Hg. apply Wo. apply Forall_forall. intros s Hs. rewrite Forall_forall in Hg. by apply Hg, Hsub. Qed.

Lemma delivered_count m es data us : delivered m es data us -> zlen us <= zlen es.
Proof. induction 1 as [es|h segs es data rest us _ _ _ _ _ IH]; [apply zlen_nonneg | rewrite !zlen_cons; lia]. Qed.

(** The loop stops: nothing to deliver, or nowhere to put it. *)
Lemma rx_stop d q fuel es : queues d !! Z.to_nat RXQ = Some q -> queue_ok q -> rx_turn d = Val (d, false) ->
  Z.min (total (concat (map snd es))) (zlen (outbuf (host d))) = 0 -> (0 < fuel)%nat ->
  exists m' us, drain_rx fuel d = Val (Some (set_mem (set_queues (set_host d (drained (host d) 0)) (<[Z.to_nat RXQ := taken q (zlen us)]> (queues d))) m')) /\
    ran (mem d) m' q (concat (map snd es)) us /\ delivered m' es (ztake 0 (outbuf (host d))) us.
Proof.
  intros Eq Hok Et _ Hf. destruct fuel as [|fuel]; [lia|]. exists (mem d), []. unfold drain_rx. cbn [turns]. rewrite Et, bind_val. change (zlen (@nil (Z * Z))) with 0.
  rewrite taken_0 by apply Hok. rewrite set_same by (done || apply drained_0). split; [done|]. split; [apply ran_nil | constructor].
Qed.

Lemma rx_run es : forall d q fuel, queues d !! Z.to_nat RXQ = Some q -> laid_out (mem d) q -> queue_ok q -> offers (mem d) q (map fst es) ->
  Forall (accepts (mem d) q) es -> ForallOrdPairs sep (concat (map snd es)) -> bytes (outbuf (host d)) -> zlen (outbuf (host d)) < 2 ^ 32 -> (length es < fuel)%nat ->
  let n := Z.min (total (concat (map snd es))) (zlen (outbuf (host d))) in
  exists m' us, drain_rx fuel d = Val (Some (set_mem (set_queues (set_host d (drained (host d) n)) (<[Z.to_nat RXQ := taken q (zlen us)]> (queues d))) m')) /\
    ran (mem d) m' q (concat (map snd es)) us /\ delivered m' es (ztake n (outbuf (host d))) us.
Proof.
  induction es as [|e es IH]; intros d q fuel Eq Hlo Hok Hof Hac Hpairs Hb Hout Hfuel; cbv zeta; pose proof (zlen_nonneg (outbuf (host d))) as Hnn;
    pose proof (total_segs_nonneg _ (accepts_pos _ _ _ Hac)) as Htn.
  { assert (Z.min (total (concat (map (@snd Z (list (Z * Z))) []))) (zlen (outbuf (host d))) = 0) as Hm by (cbn; lia). rewrite Hm. apply rx_stop; [done | done | | done | lia].
    unfold rx_turn, idx. destruct (out_len (host d) =? 0); [done|]. rewrite decide_True, Eq, bind_val by done. by rewrite (offers_none _ _ Hlo (qo_next q Hok)). }
  destruct (Z.eq_dec (zlen (outbuf (host d))) 0) as [Hz|Hnz].
  { assert (Z.min (total (concat (map snd (e :: es)))) (zlen (outbuf (host d))) = 0) as Hm by lia. rewrite Hm. apply rx_stop; [done | done | | done | lia].
    unfold rx_turn, out_len. by rewrite (proj2 (Z.eqb_eq _ 0) Hz). }
  destruct fuel as [|fuel]; [lia|]. cbn [map concat] in *. apply Forall_cons in Hac as [He Hac]. apply pairs_app in Hpairs as (Hpe & Hpr & Hpx). rewrite total_segs_app in *.
  pose proof (total_segs_nonneg _ (accepts_pos _ _ _ Hac)) as Htr. pose proof (chain_pos _ _ _ _ _ _ (proj1 He)) as Hpos.
  assert (0 < total (snd e)) as Htp.
  { destruct He as [Hch _]. destruct Hch as [? ? ? l ? ? ? Hl|? ? ? l ? ? ss ? Hl ? ? ? Hch]; cbn [total foldr snd]; [lia|]. fold (total ss). pose proof (total_segs_nonneg _ (chain_pos _ _ _ _ _ _ Hch)). lia. }
  destruct (rx_turn_eq d q e (map fst es) Eq Hlo Hok Hof He Hpe Hb ltac:(lia)) as (ms & m1 & Wo & Hpub & Hf & Et). set (n := Z.min (total (snd e)) (zlen (outbuf (host d)))) in *.
  assert (0 < n) as Hn0 by (unfold n; lia). destruct (lo_num _ _ Hlo) as [Hq Hdiv].
  assert (Forall (fun s => sep s (desc_area q) /\ sep s (avail_area q) /\ sep s (used_area q)) (snd e)) as Hse by (eapply Forall_impl; [apply He|]; by intros s [_ ?]).
  destruct (IH (set_mem (set_queues (set_host d (drained (host d) n)) (<[Z.to_nat RXQ := step_queue q]> (queues d))) m1) (step_queue q) fuel) as (m2 & us & E2 & Hran & Hdel).
  - cbn [set_mem set_queues queues]. apply list_lookup_insert_eq. by apply lookup_lt_Some in Eq.
  - eapply laid_out_step; [|exact Hlo]. intros b k Hbk. by apply (pb_mapped _ _ _ _ _ Hpub), Wo.
  - by apply queue_ok_step.
  - eapply offers_step; [done | lia|]. eapply (offers_same (mem d)); [lia | | exact Hof]. eapply same_on_trans; [apply Wo | exact (same_off_area _ _ _ _ (pb_off _ _ _ _ _ Hpub) (lo_avail_used _ _ Hlo))].
    eapply Forall_impl; [exact Hse|]. intros s (_ & Hs & _). by apply sep_sym.
  - eapply Forall_impl; [exact Hac|]. intros e' He'. eapply (accepts_same (mem d) ms); [done | exact Wo | | exact Hpub | exact He']. eapply Forall_impl; [exact Hse|]. by intros s (? & _).
  - exact Hpr.
  - cbn. by apply zdrop_bytes.
  - cbn. zl.
  - cbn in Hfuel. lia.
  - cbn [set_mem set_queues set_host mem host queues drained outbuf] in E2, Hran, Hdel. assert (zlen (zdrop n (outbuf (host d))) = zlen (outbuf (host d)) - n) as Hzd by (unfold n; zl). rewrite Hzd in *.
    set (n2 := Z.min (total (concat (map snd es))) (zlen (outbuf (host d)) - n)) in *. assert (0 <= n2) by (unfold n2, n; lia).
    assert (Z.min (total (snd e) + total (concat (map snd es))) (zlen (outbuf (host d))) = n + n2) as -> by (unfold n2, n; lia).
    exists m2, ((fst e, n) :: us). unfold drain_rx in *. cbn [turns]. rewrite Et, bind_val. rewrite E2. rewrite list_insert_insert_eq, taken_step, drained_drained, zlen_cons by lia. split; [done|]. split.
    + apply (ran_cons (mem d) ms m1); [done | | | | exact Hpub |].
      * pose proof (delivered_count _ _ _ _ Hdel). destruct Hof as [Hc _ _]. rewrite zlen_cons in Hc. unfold zlen in *. rewrite length_map in Hc. lia.
      * apply Forall_app_2; [eapply Forall_impl; [exact Hse|]; intros s (_ & _ & Hs) | eapply Forall_impl; [exact (accepts_apart _ _ _ Hac)|]; intros s (_ & _ & _ & Hs)]; by apply sep_sym.
      * eapply wrote_sub; [exact Wo|]. intros s Hs. apply elem_of_app. by left.
      * destruct Hran as [Hoff ? ? ?]. split; try done. eapply wrote_sub; [exact Hoff|]. intros s [->|Hs]%elem_of_cons; [by left | right; apply elem_of_app; by right].
    + assert (zlen (ztake n (outbuf (host d))) = n) as Hzn by (unfold n; zl).
      assert (ztake (n + n2) (outbuf (host d)) = ztake n (outbuf (host d)) ++ ztake n2 (zdrop n (outbuf (host d)))) as -> by (unfold ztake, zdrop; rewrite take_take_drop; f_equal; lia).
      rewrite <- Hzn at 3. destruct e as [h segs]. cbn [fst snd] in *. apply delivered_entry.
      * intros E. rewrite E, zlen_nil in Hzn. lia.
      * rewrite Hzn. unfold n. lia.
      * destruct (Z.le_gt_cases (total segs) (zlen (outbuf (host d)))) as [Hle|Hgt]; [right; rewrite Hzn; unfold n; lia | left]. rewrite (zdrop_all n) by (unfold n; lia). unfold ztake. by rewrite take_nil.
      * eapply filled_same; [|exact Hf]. apply Forall_forall. intros s Hin. split; [by apply (proj1 (Forall_forall _ _) Hpos)|].
        destruct Hran as [[Hoff _] _ _ _]. apply Hoff. destruct s as [b k]. apply Forall_cons. split; [by apply (proj1 (Forall_forall _ _) Hse) | by apply (proj1 (Forall_forall _ _) Hpx)].
      * exact Hdel.
Qed.

(** *** A kick *)

(** A device whose two queues are in use. *)
Record driven d (rq tq : QueueState) : Prop := {
  dv_status : Z.land (status d) S_DRIVER_OK <> 0;
  dv_queues : queues d = [rq; tq];
  dv_rx : laid_out (mem d) rq /\ queue_ok rq;
  dv_tx : laid_out (mem d) tq /\ queue_ok tq;
}.

(** The driver's side of a kick: requests made available, buffers posted, and the queues'
    areas apart. *)
Record kickable d (rq tq : QueueState) (txs : list (Z * list Z)) (rxs : list (Z * list (Z * Z))) : Prop := {
  kk_tx : offers (mem d) tq (map fst txs) /\ Forall (carries (mem d) tq) txs;
  kk_rx : offers (mem d) rq (map fst rxs) /\ Forall (accepts (mem d) rq) rxs;
  kk_bufs : ForallOrdPairs sep (concat (map snd rxs));
  kk_apart : Forall (sep (used_area tq)) (avail_area rq :: desc_area rq :: used_area rq :: concat (map snd rxs));
}.

Lemma accepts_wrote m m' q e : wrote m m' [] -> accepts m q e -> accepts m' q e.
Proof.
  intros [Wo Wm] [Hch Hs]. split; [eapply chain_same; [apply Wo; constructor | exact Hch]|]. eapply Forall_impl; [exact Hs|]. intros s (Hm & Hss). split; [by apply Wm | done].
Qed.

Lemma drain_runs d rq tq rxs fuel : queues d = [rq; tq] -> laid_out (mem d) rq -> queue_ok rq -> offers (mem d) rq (map fst rxs) -> Forall (accepts (mem d) rq) rxs ->
  ForallOrdPairs sep (concat (map snd rxs)) -> bytes (outbuf (host d)) -> zlen (outbuf (host d)) < 2 ^ 32 -> (length rxs < fuel)%nat ->
  let n := Z.min (total (concat (map snd rxs))) (zlen (outbuf (host d))) in
  exists m' us, drain_rx fuel d = Val (Some (set_mem (set_queues (set_host d (drained (host d) n)) [taken rq (zlen us); tq]) m')) /\
    ran (mem d) m' rq (concat (map snd rxs)) us /\ delivered m' rxs (ztake n (outbuf (host d))) us.
Proof.
  intros Eq Hlo Hok Hof Hac Hp Hb Hl Hf. cbv zeta. destruct (rx_run rxs d rq fuel) as (m' & us & E & Hran & Hdel); [by rewrite Eq | done..|]. exists m', us.
  rewrite E, Eq. done.
Qed.

(** One kick of the transmit queue: the peer gets all the bytes made available, and what it
    has to say goes to the posted buffers as far as they reach. *)
Lemma kick_runs d rq tq txs rxs h' fuel : driven d rq tq -> kickable d rq tq txs rxs -> push_guest_bytes (host d) (concat (map snd txs)) = Val h' ->
  bytes (outbuf h') -> zlen (outbuf h') < 2 ^ 32 -> (length txs < fuel)%nat -> (length rxs < fuel)%nat ->
  let n := Z.min (total (concat (map snd rxs))) (zlen (outbuf h')) in
  exists m' us, notify fuel d TXQ = Val (Some (set_mem (set_queues (set_host d (drained h' n)) [taken rq (zlen us); taken tq (zlen txs)]) m')) /\
    delivered m' rxs (ztake n (outbuf h')) us /\ completed m' rq us /\
    read_u16 m' (device rq + 2) = (if decide (us = []) then read_u16 (mem d) (device rq + 2) else Some (wrap 16 (used_count rq + zlen us))) /\
    wrote (mem d) m' (used_area tq :: used_area rq :: concat (map snd rxs)) /\
    completed m' tq (map (fun e => (fst e, 0)) txs) /\
    (txs <> [] -> read_u16 m' (device tq + 2) = Some (wrap 16 (used_count tq + zlen txs))).
Proof.
  intros [Hst Eq [Hlor Hokr] [Hlot Hokt]] [[Hot Hct] [Hor Har] Hbufs Hap] Hpush Hb Hl Hf1 Hf2. cbv zeta. apply Forall_cons in Hap as [Hav Hap]. apply Forall_cons in Hap as [Hds Hap]. apply Forall_cons in Hap as [Hus Hsegs].
  unfold notify. rewrite (proj2 (Z.eqb_neq _ 0) Hst). change (TXQ =? TXQ) with true. change (TXQ <? NUM_QUEUES) with true. cbv iota.
  destruct (tx_run txs d tq h' fuel) as (m1 & E1 & [[W1o W1m] Rd Ri Rs]); [by rewrite Eq | done..|]. rewrite E1, bind_val. rewrite Eq. change (<[Z.to_nat TXQ := ?x]> [rq; tq]) with [rq; x].
  set (d1 := set_mem (set_queues (set_host d h') [rq; taken tq (zlen txs)]) m1).
  assert (forall r, sep (used_area tq) r -> same_on (mem d) m1 (fst r) (snd r)) as Hsame.
  { intros [a k] Hs. apply W1o. apply Forall_singleton. by apply sep_sym. }
  destruct (drain_runs d1 rq (taken tq (zlen txs)) rxs fuel) as (m2 & us & E2 & [[W2o W2m] R2d R2i R2s] & Hdel).
  - done.
  - destruct Hlor. split; try done. by apply W1m.
  - done.
  - eapply (offers_same (mem d)); [destruct (lo_num _ _ Hlor); lia | exact (Hsame _ Hav) | exact Hor].
  - apply Forall_forall. intros e He. pose proof (proj1 (Forall_forall _ _) Har e He) as [Hch Hse]. split; [eapply chain_same; [exact (Hsame _ Hds) | exact Hch]|].
    eapply Forall_impl; [exact Hse|]. intros s (Hm & Hss). split; [by apply W1m | done].
  - done.
  - done.
  - done.
  - done.
  - exists m2, us. split; [exact E2|]. split; [exact Hdel|]. split; [exact R2d|]. split; [|split].
    + rewrite R2i. destruct (decide (us = [])); [|done]. apply read_u16_same. apply W1o. apply Forall_singleton. apply sep_sym.
      destruct (lo_num _ _ Hlor). unfold sep, used_area in *. cbn [fst snd] in *. lia.
    + split; [|intros b k Hbk; by apply W2m, W1m]. intros a k Hs. apply Forall_cons in Hs as [Hs1 Hs]. eapply same_on_trans; [apply W1o; by apply Forall_singleton | by apply W2o].
    + assert (forall b k, device tq <= b -> b + k <= device tq + (4 + 8 * num tq) -> same_on m1 m2 b k) as Harea.
      { intros b k Hb1 Hk. apply W2o. apply Forall_cons. split; [by eapply sep_sub|]. eapply Forall_impl; [exact Hsegs|]. intros r Hr. by eapply sep_sub. }
      split.
      * intros i id len Hi. destruct (Rd i id len Hi) as [R1 R2]. destruct (slot_in_area _ _ (used_count tq + Z.of_nat i) Hlot). split; rewrite (read_u32_same m1 m2); try done; apply Harea; lia.
      * intros Hne. rewrite (read_u16_same m1 m2); [|apply Harea; destruct (lo_num _ _ Hlot); lia]. rewrite Ri, decide_False by (by destruct txs). do 2 f_equal. unfold zlen. by rewrite length_map.
Qed.

(** *** What only a kick does *)

Definition untouched d d' : Prop := mem d' = mem d /\ host d' = host d.

Lemma with_selq_untouched d f : untouched d (with_selq d f).
Proof. unfold with_selq. by destruct (selq d). Qed.

Lemma write_reg_untouched fuel d offset v r : offset <> R_QUEUE_NOTIFY \/ Z.land (status d) S_DRIVER_OK = 0 -> write_reg fuel d offset v = Val r -> finished (untouched d) r.
Proof.
  intros Hk. assert (forall d', untouched d d' -> Val (Some d') = Val r -> finished (untouched d) r) as Hdone by (intros d' Hd' [= <-]; exact Hd').
  assert (forall f, Val (Some (with_selq d f)) = Val r -> finished (untouched d) r) as Hsel by (intros f; apply Hdone, with_selq_untouched).
  unfold write_reg. cbv zeta. destruct (offset =? R_DEVICE_FEATURES_SEL); [by apply Hdone|].
  destruct (offset =? R_DRIVER_FEATURES); [destruct (driver_features_sel d <? 2); [|by apply Hdone]; destruct (upd (driver_features d) (driver_features_sel d) v) as [fs|]; [rewrite bind_val; by apply Hdone | done]|].
  destruct (offset =? R_DRIVER_FEATURES_SEL); [by apply Hdone|]. destruct (offset =? R_QUEUE_SEL); [by apply Hdone|]. destruct (offset =? R_QUEUE_NUM); [apply Hsel|]. destruct (offset =? R_QUEUE_READY); [apply Hsel|].
  destruct (Z.eqb_spec offset R_QUEUE_NOTIFY) as [->|_]; [destruct Hk as [?|Hk]; [done|]; unfold notify; rewrite (proj2 (Z.eqb_eq _ 0) Hk); by apply Hdone|].
  destruct (offset =? R_INTERRUPT_ACK); [by apply Hdone|]. destruct (offset =? R_STATUS).
  { unfold write_status. destruct (v =? 0); [rewrite bind_val; by apply Hdone|]. destruct (negb (Z.land v S_FEATURES_OK =? 0)); [|rewrite bind_val; by apply Hdone].
    destruct (idx (driver_features d) 0) as [f0|]; [|done]. destruct (idx (driver_features d) 1) as [f1|]; [|done]. rewrite !bind_val. by apply Hdone. }
  repeat (destruct (offset =? _); [apply Hsel|]). by apply Hdone.
Qed.

(** ** Properties *)

(** C14: no guest stops the device, whatever it writes to the registers and puts in its memory.
    An access never panics and keeps the device well-formed and the peer's key; a kick's loops
    may still be running; a read answers exactly the bytes asked for; and without a kick of a
    driven device neither the guest's memory nor the peer is touched. *)
Theorem device_survives_any_guest d fuel offset data : dev_wf d -> bytes data -> echoes (host d) + Z.of_nat fuel * 2 ^ 35 < 2 ^ 64 ->
  (zlen (dev_read d offset data) = zlen data /\ bytes (dev_read d offset data)) /\
  runs (dev_write fuel d offset data) (finished (fun d' => dev_wf d' /\ key (host d') = key (host d) /\
    (offset <> R_QUEUE_NOTIFY \/ Z.land (status d) S_DRIVER_OK = 0 -> untouched d d'))).
Proof.
  intros Hd Hb He. split.
  - unfold dev_read. destruct (Z.eqb_spec (zlen data) 4) as [E|]; cbn [andb].
    + destruct (Z.land offset 3 =? 0); [by rewrite E; split; [apply zlen_to_le | apply to_le_bytes] | split; [rewrite zlen_zrepeat; lia | apply zrepeat_Forall; unfold in_u; lia]].
    + pose proof (zlen_nonneg data). split; [rewrite zlen_zrepeat; lia | apply zrepeat_Forall; unfold in_u; lia].
  - unfold dev_write. destruct (Z.eqb_spec (zlen data) 4) as [E|]; cbn [andb]; [|by apply runs_val].
    destruct (Z.land offset 3 =? 0); [|by apply runs_val]. pose proof (of_le_bound data Hb) as Hv. rewrite E in Hv.
    destruct (write_reg_kept fuel d offset (of_le data) Hd Hv He) as (r & Er & Hr). rewrite Er. apply runs_val. pose proof (fun Hk => write_reg_untouched fuel d offset _ r Hk Er) as Hu.
    destruct r as [d'|]; [|done]. destruct Hr as (Hd' & Hk' & _). done.
Qed.

(** C13: a kick moves the bytes of both directions, for a driver that lays out its queues as
    the standard asks.  It ends; the peer has read the concatenation of the requests made
    available, once; what the peer has to say is in the posted buffers, in order and each full
    before the next, as far as they reach, and the rest is still queued; every request and
    every filled buffer has its completion with its length; and nothing was written but the
    used rings and those buffers. *)
Theorem kick_moves_bytes d rq tq txs rxs h' fuel : driven d rq tq -> kickable d rq tq txs rxs -> push_guest_bytes (host d) (concat (map snd txs)) = Val h' ->
  bytes (outbuf h') -> zlen (outbuf h') < 2 ^ 32 -> (length txs < fuel)%nat -> (length rxs < fuel)%nat ->
  let n := Z.min (total (concat (map snd rxs))) (zlen (outbuf h')) in
  exists d' us, notify fuel d TXQ = Val (Some d') /\ host d' = drained h' n /\
    delivered (mem d') rxs (ztake n (outbuf h')) us /\ completed (mem d') rq us /\ completed (mem d') tq (map (fun e => (fst e, 0)) txs) /\
    (txs <> [] -> read_u16 (mem d') (device tq + 2) = Some (wrap 16 (used_count tq + zlen txs))) /\
    wrote (mem d) (mem d') (used_area tq :: used_area rq :: concat (map snd rxs)).
Proof.
  intros Hd Hk Hp Hb Hl Hf1 Hf2. cbv zeta. destruct (kick_runs d rq tq txs rxs h' fuel Hd Hk Hp Hb Hl Hf1 Hf2) as (m' & us & E & Hdel & Hc & _ & Hw & Hct & Hi).
  eexists _, us. split; [exact E|]. split; [done|]. split; [exact Hdel|]. split; [exact Hc|]. split; [exact Hct|]. split; [exact Hi | exact Hw].
Qed.

End device.

(** ** Two things a guest can do to itself

    The device trusts the rings to stay apart and the posted buffers to be memory. *)

(** A transmit queue of one descriptor (at 64, of a segment the device may not read) whose used ring lies
    on its available ring; [v] is the shared index. *)
Definition spin_mem (v : Z) : Ram := mkRam ([0; 0] ++ to_le 2 v ++ zrepeat 72 0 ++ to_le 2 VIRTQ_DESC_F_WRITE ++ zrepeat 50 0).
Definition spinning (h : InferHost) (n u v : Z) : VirtioMmio Ram :=
  mkDev (spin_mem v) h S_DRIVER_OK 0 0 [0; 0] TXQ [queue_default; mkQueue 1 true 64 0 0 n u].

Lemma spin_turn h n u v : is_u16 v -> n <> v ->
  tx_turn (spinning h n u v) = Val (spinning h (wrap 16 (n + 1)) (wrap 16 (u + 1)) (wrap 16 (u + 1)), true).
Proof.
  intros Hv Hne. assert (read_u16 (spin_mem v) 2 = Some v) as R2.
  { unfold read_u16. change (read_slice (spin_mem v) 2 2) with (Some (map (fun b => b `mod` 256) (to_le 2 v))). cbn [mbind option_bind]. f_equal.
    rewrite <- (of_to_le_id 2 v Hv) at 2. f_equal. generalize (to_le_bytes 2 v). generalize (to_le 2 v). intros l Hl. induction Hl as [|b l Hb _ IH]; [done|]. cbn [map]. by rewrite IH, (Z.mod_small b 256) by exact Hb. }
  unfold tx_turn. change (idx (queues (spinning h n u v)) TXQ) with (Val (mkQueue 1 true 64 0 0 n u)). rewrite bind_val.
  unfold next_head. cbn [ready num next_avail driver negb orb spinning mem]. change (1 =? 0) with false. cbn [orb]. change (wrapping_add 64 0 2) with 2. rewrite R2. cbn [mbind option_bind].
  rewrite (proj2 (Z.eqb_neq n v) Hne), Z.mod_1_r. change (read_u16 (spin_mem v) (wrapping_add 64 0 (4 + 2 * 0))) with (Some 0). cbv iota.
  change (gather_readable (spin_mem v) (mkQueue 1 true 64 0 0 n u) 0) with (Some (@nil Z)). cbv iota. change (push_guest_bytes (host (spinning h n u v)) []) with (Val h). rewrite bind_val.
  rewrite (advance_eq _ TXQ (mkQueue 1 true 64 0 0 n u)), bind_val by done. unfold publish_used.
  change (idx (queues _) TXQ) with (Val (mkQueue 1 true 64 0 0 (wrap 16 (n + 1)) u)). rewrite bind_val. cbn [num used_count device]. change (1 =? 0) with false. cbv iota zeta. rewrite Z.mod_1_r.
  change (write_u32 (mem _) (wrapping_add 64 0 (4 + 8 * 0)) 0) with (spin_mem v, true). cbn [negb].
  change (write_u32 (spin_mem v) (wrapping_add 64 (wrapping_add 64 0 (4 + 8 * 0)) 4) 0) with (spin_mem v, true). cbn [negb].
  rewrite upd_ok, bind_val by done. change (wrapping_add 16 u 1) with (wrap 16 (u + 1)).
  change (write_u16 (spin_mem v) (wrapping_add 64 0 2) (wrap 16 (u + 1))) with (spin_mem (wrap 16 (u + 1)), true). done.
Qed.

Lemma wrap16_ne a b : is_u16 a -> is_u16 b -> a <> b -> wrap 16 (a + 1) <> wrap 16 (b + 1).
Proof.
  unfold wrap, in_u. intros Ha Hb Hne E. pose proof (Z.div_mod (a + 1) (2 ^ 16) ltac:(lia)). pose proof (Z.div_mod (b + 1) (2 ^ 16) ltac:(lia)).
  assert (0 <= (a + 1) / 2 ^ 16 <= 1) by (split; [apply Z.div_pos; lia | apply Z.div_le_upper_bound; lia]).
  assert (0 <= (b + 1) / 2 ^ 16 <= 1) by (split; [apply Z.div_pos; lia | apply Z.div_le_upper_bound; lia]).
  pose proof (Z.mod_pos_bound (a + 1) (2 ^ 16) ltac:(lia)). lia.
Qed.

Lemma spins_forever fuel : forall h n u, is_u16 n -> is_u16 u -> n <> u -> process_tx fuel (spinning h n u u) = Val None.
Proof.
  induction fuel as [|fuel IH]; intros h n u Hn Hu Hne; [done|]. unfold process_tx. cbn [turns]. rewrite spin_turn, bind_val by done.
  apply IH; [apply wrap_in_u; lia | apply wrap_in_u; lia | by apply wrap16_ne].
Qed.

(** The register writes and the store that lead there from a new device: a first kick whose
    completion cannot be written puts the two counters out of step. *)
Definition misuse : list (Z * Z) :=
  [(R_STATUS, S_DRIVER_OK); (R_QUEUE_SEL, TXQ); (R_QUEUE_NUM, 1); (R_QUEUE_DESC_LOW, 64); (R_QUEUE_DEVICE_LOW, 4096); (R_QUEUE_READY, 1);
   (R_QUEUE_NOTIFY, TXQ); (R_QUEUE_DEVICE_LOW, 0)].
Fixpoint run_writes {M} `{GuestMemory M} (fuel : nat) (d : VirtioMmio M) (ws : list (Z * Z)) : res (option (VirtioMmio M)) :=
  match ws with
  | [] => Val (Some d)
  | (off, v) :: ws => r ← write_reg fuel d off v; match r with Some d => run_writes fuel d ws | None => Val None end
  end.

Lemma rx_not_ready {M} `{GuestMemory M} fuel (d : VirtioMmio M) q : idx (queues d) RXQ = Val q -> ready q = false -> drain_rx (S fuel) d = Val (Some d).
Proof.
  intros Eq Hr. unfold drain_rx. cbn [turns]. unfold rx_turn. destruct (out_len (host d) =? 0); [done|]. rewrite Eq, bind_val. unfold next_head. by rewrite Hr.
Qed.

Lemma kick_can_spin h : run_writes 3 (dev_new (spin_mem 1) h) misuse = Val (Some (spinning h 1 0 1)) /\
  forall fuel, write_reg fuel (set_mem (spinning h 1 0 1) (spin_mem 2)) R_QUEUE_NOTIFY TXQ = Val None.
Proof.
  split.
  { set (d := mkDev (spin_mem 1) h S_DRIVER_OK 0 0 [0; 0] TXQ [queue_default; mkQueue 1 true 64 0 4096 0 0]).
    change (run_writes 3 (dev_new (spin_mem 1) h) misuse) with (run_writes 3 d [(R_QUEUE_NOTIFY, TXQ); (R_QUEUE_DEVICE_LOW, 0)]). cbn [run_writes].
    change (write_reg 3 d R_QUEUE_NOTIFY TXQ) with (drain_rx 3 (set_queues d [queue_default; mkQueue 1 true 64 0 4096 1 0])).
    rewrite (rx_not_ready 2 _ queue_default), bind_val by done. done. }
  intros fuel. change (set_mem (spinning h 1 0 1) (spin_mem 2)) with (spinning h 1 0 2).
  change (write_reg fuel (spinning h 1 0 2) R_QUEUE_NOTIFY TXQ) with (notify fuel (spinning h 1 0 2) TXQ). unfold notify. change (Z.land _ S_DRIVER_OK =? 0) with false. change (TXQ =? TXQ) with true. cbv iota.
  destruct fuel as [|fuel]; [done|]. unfold process_tx. cbn [turns]. rewrite spin_turn, bind_val by (unfold in_u; lia).
  pose proof (spins_forever fuel h (wrap 16 2) (wrap 16 1)) as Hs. unfold process_tx in Hs. change (wrap 16 (1 + 1)) with (wrap 16 2). change (wrap 16 (0 + 1)) with (wrap 16 1).
  rewrite Hs; [done | apply wrap_in_u; lia | apply wrap_in_u; lia | by vm_compute].
Qed.

(** A receive queue whose one posted buffer is not memory: a kick takes the peer's bytes and
    drops them, without a completion. *)
Definition lossy_mem : Ram := mkRam ([0; 0; 1; 0] ++ zrepeat 60 0 ++ to_le 8 4096 ++ to_le 4 16 ++ to_le 2 VIRTQ_DESC_F_WRITE ++ to_le 2 0 ++ zrepeat 48 0).
Definition lossy (h : InferHost) : VirtioMmio Ram :=
  mkDev lossy_mem h S_DRIVER_OK 0 0 [0; 0] RXQ [mkQueue 1 true 64 0 32 0 0; queue_default].

Lemma failed_delivery_drops_bytes h : outbuf h <> [] -> zlen (outbuf h) <= 16 ->
  drain_rx 1 (lossy h) = Val (Some (set_host (lossy h) (drained h (zlen (outbuf h))))).
Proof.
  intros Hne Hl. pose proof (zlen_pos _ Hne) as Hp. unfold drain_rx. cbn [turns]. unfold rx_turn, out_len. change (host (lossy h)) with h. rewrite (proj2 (Z.eqb_neq _ 0)) by lia.
  change (idx (queues (lossy h)) RXQ) with (Val (mkQueue 1 true 64 0 32 0 0)). rewrite bind_val. change (next_head (mem (lossy h)) _) with (Some 0). cbv iota.
  unfold scatter_writable. change (Z.to_nat (num _)) with 1%nat. cbn [scatter_from].
  change (read_u64 (mem (lossy h)) _) with (Some 4096). change (read_u32 (mem (lossy h)) _) with (Some 16).
  change (read_u16 (mem (lossy h)) (wrapping_add 64 (wrapping_add 64 (desc (mkQueue 1 true 64 0 32 0 0)) (16 * 0)) 12)) with (Some 2).
  change (read_u16 (mem (lossy h)) (wrapping_add 64 (wrapping_add 64 (desc (mkQueue 1 true 64 0 32 0 0)) (16 * 0)) 14)) with (Some 0). cbv iota.
  change (negb (Z.land 2 VIRTQ_DESC_F_WRITE =? 0)) with true. unfold out_len. change (host (lossy h)) with h. rewrite (proj2 (Z.ltb_lt 0 _) Hp). cbn [andb]. rewrite take_output_eq, Z.min_r by lia.
  assert (write_slice (mem (lossy h)) 4096 (ztake (zlen (outbuf h)) (outbuf h)) = (lossy_mem, false)) as ->.
  { change (write_slice (mem (lossy h)) 4096) with (ram_write lossy_mem 4096). unfold ram_write. pose proof (zlen_nonneg (ztake (zlen (outbuf h)) (outbuf h))).
    change (zlen (ram lossy_mem)) with 128. rewrite (proj2 (Z.leb_gt (4096 + _) 128)) by lia. done. }
  done.
Qed.

(** ** Witnesses *)

Lemma demo_host_inv : host_inv demo_host.
Proof. split; [apply demo_host_wf | exists []; apply demo_host_wf | by vm_compute; repeat constructor | constructor]. Qed.

(** A device whose queues of one entry are laid out in a memory of 1 KiB: the receive queue's
    areas from 0 and its buffer at 512, the transmit queue's areas from 64 and an echo request
    in its buffer at 128. *)
Definition demo_rq : QueueState := mkQueue 1 true 0 16 24 0 0.
Definition demo_tq : QueueState := mkQueue 1 true 64 80 96 0 0.
Definition demo_request : list Z := wire_bytes demo_frame.
Definition demo_desc (addr len flags : Z) : list Z := to_le 8 addr ++ to_le 4 len ++ to_le 2 flags ++ to_le 2 0.
Definition demo_avail : list Z := [0; 0; 1; 0; 0; 0].
Definition demo_mem : Ram := mkRam (demo_desc 512 512 VIRTQ_DESC_F_WRITE ++ demo_avail ++ zrepeat 42 0 ++
  demo_desc 128 (zlen demo_request) 0 ++ demo_avail ++ zrepeat 42 0 ++ demo_request ++ zrepeat (896 - zlen demo_request) 0).
Definition demo_device : VirtioMmio Ram := mkDev demo_mem demo_host S_DRIVER_OK 0 0 [0; 0] TXQ [demo_rq; demo_tq].

Lemma demo_mapped a n : 0 <= a -> a + n <= 1024 -> mapped demo_mem a n.
Proof. intros Ha Hn i Hi. apply ram_byte_some. assert (zlen (ram demo_mem) = 1024) as -> by (vm_compute; reflexivity). lia. Qed.

Lemma demo_laid_out q : q = demo_rq \/ q = demo_tq -> laid_out demo_mem q /\ queue_ok q.
Proof.
  intros [-> | ->]; (split; [split | split; vm_compute; split; (discriminate || reflexivity)]; cbn [ready num driver device desc demo_rq demo_tq];
    [reflexivity | split; [unfold QUEUE_NUM_MAX; lia | by exists (2 ^ 16)] | lia | lia | lia | unfold sep; cbn; lia | unfold sep; cbn; lia | apply demo_mapped; lia]).
Qed.

Lemma demo_driven : driven demo_device demo_rq demo_tq.
Proof. split; [discriminate | reflexivity | apply demo_laid_out; by left | apply demo_laid_out; by right]. Qed.

Lemma demo_kickable : kickable demo_device demo_rq demo_tq [(0, demo_request)] [(0, [(512, 512)])].
Proof.
  split.
  - split; [split; [discriminate | vm_compute; reflexivity | intros [|i] h [= <-]; vm_compute; reflexivity]|]. apply Forall_cons. split; [|apply Forall_nil; exact I].
    exists [(128, zlen demo_request)], [demo_request]. split; [|split; [|split; [vm_compute; reflexivity|]]].
    + eapply (chain_last _ _ _ 0 0 128 _ 0 0); [cbn; lia | vm_compute; reflexivity | vm_compute; reflexivity | reflexivity | reflexivity].
    + apply Forall2_cons_2; [vm_compute; reflexivity | apply Forall2_nil_2].
    + apply Forall_cons. split; [right; vm_compute; discriminate | apply Forall_nil; exact I].
  - split; [split; [discriminate | vm_compute; reflexivity | intros [|i] h [= <-]; vm_compute; reflexivity]|]. apply Forall_cons. split; [|apply Forall_nil; exact I]. split.
    + eapply (chain_last _ _ _ 0 0 512 512 VIRTQ_DESC_F_WRITE 0); [cbn; lia | lia | vm_compute; reflexivity | reflexivity | reflexivity].
    + apply Forall_cons. split; [|apply Forall_nil; exact I]. split; [apply demo_mapped; cbn; lia|]. unfold sep. cbn. lia.
  - cbn. repeat constructor.
  - cbn. repeat (apply Forall_cons; split; [unfold sep; cbn; lia|]). apply Forall_nil. exact I.
Qed.

Lemma delivered_one {M} `{GuestMemory M} (m : M) h a l data us : delivered m [(h, [(a, l)])] data us -> data <> [] -> zlen data <= l -> read_slice m a (zlen data) = Some data.
Proof.
  intros Hd Hne Hl. inversion Hd as [|h' segs es data' rest us' _ _ _ Hf Hr]; [by subst|]. subst. inversion Hr; subst. rewrite app_nil_r in *.
  destruct Hf as [->|[Hf _]]; [done|]. rewrite Z.min_r in Hf by done. by rewrite ztake_all in Hf by done.
Qed.

Lemma device_survives_any_guest_witness : exists d', dev_write 3 (dev_new demo_mem demo_host) R_STATUS [S_FEATURES_OK; 0; 0; 0] = Val (Some d') /\ dev_wf d' /\ mem d' = demo_mem.
Proof.
  destruct (device_survives_any_guest (dev_new demo_mem demo_host) 3 R_STATUS [S_FEATURES_OK; 0; 0; 0]) as [_ (r & E & Hr)].
  - split; [exact demo_host_inv | unfold in_u; cbn; lia | unfold in_u; cbn; lia | unfold in_u; cbn; lia | | unfold in_u; cbn; lia |].
    + split; [reflexivity|]. repeat (apply Forall_cons; split; [unfold in_u; cbn; lia|]). apply Forall_nil. exact I.
    + split; [reflexivity|]. repeat (apply Forall_cons; split; [exact queue_default_ok|]). apply Forall_nil. exact I.
  - repeat (apply Forall_cons; split; [unfold in_u, S_FEATURES_OK; lia|]). apply Forall_nil. exact I.
  - reflexivity.
  - assert (dev_write 3 (dev_new demo_mem demo_host) R_STATUS [S_FEATURES_OK; 0; 0; 0] = Val (Some (dev_new demo_mem demo_host))) as E' by reflexivity.
    rewrite E in E'. injection E' as ->. eexists. split; [exact E|]. destruct Hr as (Hd & _ & Hu). split; [exact Hd|]. apply Hu. left. discriminate.
Defined.

(** The echo request of the demonstration is answered into the posted buffer. *)
Lemma kick_moves_bytes_witness : exists d' f, notify 2 demo_device TXQ = Val (Some d') /\ read_slice (mem d') 512 101 = Some (wire_bytes f ++ key demo_host) /\
  verify_echo (key demo_host) f demo_frame = Val true.
Proof.
  destruct demo_host_wf as [Hwf Hp]. destruct (echo_answered_runs demo_host demo_frame [] [] Hwf Hp) as (h' & E & _ & _ & f & Ho & Hf);
    [apply demo_frame_ok | reflexivity | split; apply Forall_nil; exact I | split; apply Forall_nil; exact I | reflexivity|].
  pose proof (wire_bytes_length f (ec_ok _ _ _ Hf)) as Hl. rewrite (ec_payload _ _ _ Hf) in Hl. change (66 + zlen (payload demo_frame)) with 69 in Hl.
  pose proof (wire_bytes_bytes f (ec_ok _ _ _ Hf)) as Hb. pose proof (hi_key _ demo_host_inv) as Hkb. change (outbuf demo_host) with (@nil Z) in Ho. cbn [app] in Ho.
  assert (zlen (outbuf h') = 101) as Hlo by (rewrite Ho, zlen_app, Hl; reflexivity).
  destruct (kick_moves_bytes demo_device demo_rq demo_tq [(0, demo_request)] [(0, [(512, 512)])] h' 2 demo_driven demo_kickable) as (d' & us & En & _ & Hdel & _).
  - cbn [map snd concat host demo_device]. exact E.
  - rewrite Ho. apply Forall_app_2; [exact Hb | exact Hkb].
  - rewrite Hlo. reflexivity.
  - cbn. lia.
  - cbn. lia.
  - exists d', f. split; [exact En|]. split; [|exact (ec_verifies _ _ _ Hf)]. cbn [map snd concat app total foldr] in Hdel. rewrite Hlo in Hdel. change (Z.min (512 + 0) 101) with 101 in Hdel.
    rewrite (ztake_all 101 (outbuf h')) in Hdel by lia. assert (outbuf h' <> []) as Hne by (intros E0; rewrite E0 in Hlo; discriminate Hlo).
    pose proof (delivered_one _ _ _ 512 _ us Hdel Hne) as Hread. clear -Hread Hlo Ho. rewrite Hlo, Ho in Hread. apply Hread. discriminate.
Defined.
