(* ===== verification/Drv.v ===== *)
(** * Driver programs

    A driver of [tb-hal] talks to the machine: it maps pages, takes and frees frames, and reads
    and writes device registers and memory.  A driver's code is a tree of such requests, each
    with a continuation for every answer; [Spent] is a loop that is still running when its fuel
    is used up.  The tree is read in two ways: against any machine, as the traces it can have
    ([ran]), checked by a monitor ([obeys]); and against a given machine ([interp]). *)
From Stdlib Require Import ZArith Lia.
From stdpp Require Import base numbers option tactics sets list.
From S2P Require Import Prelude.
Open Scope Z_scope.

(** A width of a memory access is in bytes. *)
Inductive ev : Type :=
  | MapPage (va pa : Z)
  | FrameAlloc
  | FrameFree (frame : Z)
  | RegRead (va : Z)
  | RegWrite (va v : Z)
  | RamRead (n : nat) (pa : Z)
  | RamWrite (n : nat) (pa v : Z)
  | DmaFence.

Definition answer (e : ev) : Type :=
  match e with
  | MapPage _ _ => bool
  | FrameAlloc => option Z
  | RegRead _ | RamRead _ _ => Z
  | FrameFree _ | RegWrite _ _ | RamWrite _ _ _ | DmaFence => unit
  end.

(** The machine's words have their widths. *)
Definition proper (e : ev) : answer e -> Prop :=
  match e with
  | RegRead _ => is_u32
  | RamRead n _ => in_u (8 * Z.of_nat n)
  | _ => fun _ => True
  end.

Inductive drv (A : Type) : Type :=
  | Ret (a : A)
  | Spent
  | Ask (e : ev) (k : answer e -> drv A).
Arguments Ret {A} a.
Arguments Spent {A}.
Arguments Ask {A} e k.

#[export] Instance drv_ret : MRet drv := @Ret.
#[export] Instance drv_bind : MBind drv := fun A B f => fix bind m :=
  match m with Ret a => f a | Spent => Spent | Ask e k => Ask e (fun r => bind (k r)) end.

Definition ask (e : ev) : drv (answer e) := Ask e Ret.

(** ** Traces *)

Record exchange := mkExchange { asked : ev; answered : answer asked }.

Inductive ending (A : Type) : Type :=
  | Done (a : A)
  | OutOfFuel
  | Cut.
Arguments Done {A} a.
Arguments OutOfFuel {A}.
Arguments Cut {A}.

(** The runs of a program in any environment, from its beginning. *)
Inductive ran {A} : drv A -> list exchange -> ending A -> Prop :=
  | ran_ret a : ran (Ret a) [] (Done a)
  | ran_spent : ran Spent [] OutOfFuel
  | ran_cut m : ran m [] Cut
  | ran_ask e k r tr o : proper e r -> ran (k r) tr o -> ran (Ask e k) (mkExchange e r :: tr) o.

(** ** Monitors *)

Section monitor.
Context {S : Type} (allowed : S -> ev -> Prop) (after : S -> forall e, answer e -> S).

(** Every request is allowed in the state the monitor has then, whatever the machine answers;
    [Q] holds at the end, and [E] where the fuel is used up. *)
Fixpoint obeys {A} (m : drv A) (s : S) (Q : A -> S -> Prop) (E : S -> Prop) : Prop :=
  match m with
  | Ret a => Q a s
  | Spent => E s
  | Ask e k => allowed s e /\ forall r, proper e r -> obeys (k r) (after s e r) Q E
  end.

Fixpoint accepts_trace (s : S) (tr : list exchange) : Prop :=
  match tr with
  | [] => True
  | x :: tr => allowed s (asked x) /\ accepts_trace (after s (asked x) (answered x)) tr
  end.
Fixpoint end_state (s : S) (tr : list exchange) : S :=
  match tr with [] => s | x :: tr => end_state (after s (asked x) (answered x)) tr end.

Lemma obeys_mono {A} (m : drv A) E : forall s (P Q : A -> S -> Prop), (forall a s, P a s -> Q a s) -> obeys m s P E -> obeys m s Q E.
Proof.
  induction m as [a | |e k IH]; intros s P Q HPQ; cbn; [apply HPQ | done|]. intros [Ha Hk]. split; [done|]. intros r Hr. eapply IH; [exact HPQ | by apply Hk].
Qed.

Lemma obeys_bind {A B} (m : drv A) (f : A -> drv B) E : forall s Q, obeys m s (fun a s => obeys (f a) s Q E) E -> obeys (m ≫= f) s Q E.
Proof.
  induction m as [a | |e k IH]; intros s Q; [done | done|]. intros [Ha Hk]. split; [done|]. intros r Hr. by apply IH, Hk.
Qed.

Lemma obeys_then {A B} (m : drv A) (f : A -> drv B) s P Q E : obeys m s P E -> (forall a s, P a s -> obeys (f a) s Q E) -> obeys (m ≫= f) s Q E.
Proof. intros Hm Hf. apply obeys_bind. by eapply obeys_mono. Qed.

Lemma obeys_ran {A} (m : drv A) s Q E tr o : obeys m s Q E -> ran m tr o ->
  accepts_trace s tr /\ match o with Done a => Q a (end_state s tr) | OutOfFuel => E (end_state s tr) | Cut => True end.
Proof.
  intros Ho Hr. revert s Ho. induction Hr as [a | |m|e k r tr o Hp _ IH]; intros s Ho; cbn in *; [done.. |].
  destruct Ho as [Ha Hk]. destruct (IH _ (Hk r Hp)) as [Hacc Hq]. done.
Qed.
End monitor.

(** ** A machine *)

(** [None]: the access faults, or never completes. *)
Class Machine (S : Type) := handle : forall e : ev, S -> option (answer e * S).

Fixpoint interp {S A} `{Machine S} (m : drv A) (s : S) : option (A * S) :=
  match m with
  | Ret a => Some (a, s)
  | Spent => None
  | Ask e k => match handle e s with Some (r, s) => interp (k r) s | None => None end
  end.

Section interp.
Context {S} `{Machine S}.

Lemma interp_bind {A B} (m : drv A) (f : A -> drv B) : forall s,
  interp (m ≫= f) s = match interp m s with Some (a, s) => interp (f a) s | None => None end.
Proof.
  induction m as [a | |e k IH]; intros s; [done | done|]. cbn. destruct (handle e s) as [[r s']|]; [|done]. apply IH.
Qed.

Lemma interp_then {A B} (m : drv A) (f : A -> drv B) s a s' : interp m s = Some (a, s') -> interp (m ≫= f) s = interp (f a) s'.
Proof. intros E. by rewrite interp_bind, E. Qed.

Lemma interp_ask e s r s' : handle e s = Some (r, s') -> interp (ask e) s = Some (r, s').
Proof. intros E. cbn. by rewrite E. Qed.

(** A run on a machine whose answers have their widths is a run. *)
Lemma interp_ran {A} (m : drv A) : (forall e s r s', handle e s = Some (r, s') -> proper e r) ->
  forall s a s', interp m s = Some (a, s') -> exists tr, ran m tr (Done a).
Proof.
  intros Hp. induction m as [a | |e k IH]; intros s a' s'; cbn; [intros [= <- <-]; exists []; constructor | done|].
  destruct (handle e s) as [[r s1]|] eqn:E; [|done]. intros Hi. destruct (IH r s1 a' s' Hi) as [tr Htr]. exists (mkExchange e r :: tr). constructor; [by eapply Hp | done].
Qed.
End interp.
