(* ===== verification/Driver.v ===== *)
(** * The x86_64 virtio drivers: [tb-hal/src/arch/x86_64/virtio.rs].

    Three poll-only drivers of a modern virtio-mmio device: the entropy self-test, one block
    request, and one session over the console channel, each with the bus scan that finds the
    device.  They are programs of [Drv]: what the device does is up to the machine.  Frames lie
    below [2^52] and the device window below [2^41], so the sums of addresses do not wrap; a
    [&mut] buffer is taken and handed back. *)
From Stdlib Require Import ZArith Lia.
From stdpp Require Import base numbers option tactics sets list.
From S2P Require Import Prelude Blkfmt Drv.
Open Scope Z_scope.

Definition SLOT_BASE_PA : Z := 0xFEB00000.
Definition SLOT_STRIDE : Z := 0x200.
Definition N_SLOTS : Z := 32.
Definition N_WINDOW_PAGES : Z := 4.
Definition VIRTIO_WINDOW_VA : Z := 0x18000001000.

Definition VIRTIO_MAGIC : Z := 0x74726976.
Definition VIRTIO_VERSION_MODERN : Z := 2.
Definition VIRTIO_DEV_ENTROPY : Z := 4.
Definition VIRTIO_DEV_BLK : Z := 2.
Definition VIRTIO_DEV_CONSOLE : Z := 3.
Definition R_MAGIC : Z := 0x000.
Definition R_VERSION : Z := 0x004.
Definition R_DEVICE_ID : Z := 0x008.
Definition R_DEVICE_FEATURES : Z := 0x010.
Definition R_DEVICE_FEATURES_SEL : Z := 0x014.
Definition R_DRIVER_FEATURES : Z := 0x020.
Definition R_DRIVER_FEATURES_SEL : Z := 0x024.
Definition R_QUEUE_SEL : Z := 0x030.
Definition R_QUEUE_NUM_MAX : Z := 0x034.
Definition R_QUEUE_NUM : Z := 0x038.
Definition R_QUEUE_READY : Z := 0x044.
Definition R_QUEUE_NOTIFY : Z := 0x050.
Definition R_STATUS : Z := 0x070.
Definition R_QUEUE_DESC_LOW : Z := 0x080.
Definition R_QUEUE_DESC_HIGH : Z := 0x084.
Definition R_QUEUE_DRIVER_LOW : Z := 0x090.
Definition R_QUEUE_DRIVER_HIGH : Z := 0x094.
Definition R_QUEUE_DEVICE_LOW : Z := 0x0A0.
Definition R_QUEUE_DEVICE_HIGH : Z := 0x0A4.
Definition R_CONFIG : Z := 0x100.

Definition S_ACKNOWLEDGE : Z := 1.
Definition S_DRIVER : Z := 2.
Definition S_DRIVER_OK : Z := 4.
Definition S_FEATURES_OK : Z := 8.
Definition S_FAILED : Z := 128.
Definition VIRTIO_F_VERSION_1_HI : Z := Z.shiftl 1 0.
Definition VIRTQ_DESC_F_NEXT : Z := 1.
Definition VIRTQ_DESC_F_WRITE : Z := 2.
Definition VIRTQ_AVAIL_F_NO_INTERRUPT : Z := 1.
Definition Q_SIZE : Z := 1.
Definition DESC_OFF : Z := 0x000.
Definition AVAIL_OFF : Z := 0x010.
Definition USED_OFF : Z := 0x020.
Definition BUF_OFF : Z := 0x200.
Definition BUF_LEN : Z := 64.
Definition POLL_CAP : Z := 100000000.
Definition STAGE_MAP : Z := 1.
Definition STAGE_FRAME : Z := 2.
Definition STAGE_FEATURES : Z := 3.
Definition STAGE_QUEUE : Z := 4.
Definition STAGE_POLL : Z := 5.
Definition STAGE_LEN : Z := 6.

(** ** The accessors *)

Definition reg_read (base off : Z) : drv Z := ask (RegRead (base + off)).
Definition reg_write (base off v : Z) : drv unit := ask (RegWrite (base + off) v).
Definition ram_w8 (pa v : Z) : drv unit := ask (RamWrite 1 pa v).
Definition ram_w16 (pa v : Z) : drv unit := ask (RamWrite 2 pa v).
Definition ram_w32 (pa v : Z) : drv unit := ask (RamWrite 4 pa v).
Definition ram_w64 (pa v : Z) : drv unit := ask (RamWrite 8 pa v).
Definition ram_r8 (pa : Z) : drv Z := ask (RamRead 1 pa).
Definition ram_r16 (pa : Z) : drv Z := ask (RamRead 2 pa).
Definition ram_r32 (pa : Z) : drv Z := ask (RamRead 4 pa).
Definition dma_fence : drv unit := ask DmaFence.
Definition frame_alloc : drv (option Z) := ask FrameAlloc.
Definition frame_free (frame : Z) : drv unit := ask (FrameFree frame).

Fixpoint map_pages (n : nat) (j : Z) : drv (option Z) :=
  match n with
  | O => Ret (Some VIRTIO_WINDOW_VA)
  | S n => ok ← ask (MapPage (VIRTIO_WINDOW_VA + j * 0x1000) (SLOT_BASE_PA + j * 0x1000)); if negb ok then Ret None else map_pages n (j + 1)
  end.
Definition map_window : drv (option Z) := map_pages (Z.to_nat N_WINDOW_PAGES) 0.

(** ** Shared steps *)

Fixpoint zero_words (n : nat) (pa : Z) : drv unit :=
  match n with O => Ret tt | S n => _ ← ram_w64 pa 0; zero_words n (pa + 8) end.
Definition zero_frame (frame : Z) : drv unit := zero_words 512 frame.

(** Copy bytes to memory one at a time, and back. *)
Fixpoint stage_bytes (pa : Z) (l : list Z) : drv unit :=
  match l with [] => Ret tt | b :: l => _ ← ram_w8 pa b; stage_bytes (pa + 1) l end.
Fixpoint read_bytes (n : nat) (pa : Z) : drv (list Z) :=
  match n with O => Ret [] | S n => b ← ram_r8 pa; l ← read_bytes n (pa + 1); Ret (b :: l) end.

(** Poll a used index until it differs from [seen]; [false] when the cap is reached. *)
Fixpoint poll_n (n : nat) (pa seen : Z) : drv bool :=
  match n with O => Ret false | S n => v ← ram_r16 pa; if v =? seen then poll_n n pa seen else Ret true end.
Definition poll (pa seen : Z) : drv bool := poll_n (Z.to_nat POLL_CAP) pa seen.

Definition begin_init (dev : Z) : drv unit :=
  _ ← reg_write dev R_STATUS 0;
  _ ← reg_write dev R_STATUS S_ACKNOWLEDGE;
  reg_write dev R_STATUS (Z.lor S_ACKNOWLEDGE S_DRIVER).

(** Offer [VERSION_1] only; [false] when the device lacks it or clears [FEATURES_OK]. *)
Definition negotiate (dev : Z) : drv bool :=
  _ ← reg_write dev R_DEVICE_FEATURES_SEL 1;
  df_hi ← reg_read dev R_DEVICE_FEATURES;
  if Z.land df_hi VIRTIO_F_VERSION_1_HI =? 0 then Ret false else
  _ ← reg_write dev R_DRIVER_FEATURES_SEL 0;
  _ ← reg_write dev R_DRIVER_FEATURES 0;
  _ ← reg_write dev R_DRIVER_FEATURES_SEL 1;
  _ ← reg_write dev R_DRIVER_FEATURES VIRTIO_F_VERSION_1_HI;
  _ ← reg_write dev R_STATUS (Z.lor (Z.lor S_ACKNOWLEDGE S_DRIVER) S_FEATURES_OK);
  st ← reg_read dev R_STATUS;
  Ret (negb (Z.land st S_FEATURES_OK =? 0)).

(** [false] when the device has no such queue. *)
Definition set_up_queue (dev q size desc avail used : Z) : drv bool :=
  _ ← reg_write dev R_QUEUE_SEL q;
  nmax ← reg_read dev R_QUEUE_NUM_MAX;
  if nmax =? 0 then Ret false else
  _ ← reg_write dev R_QUEUE_NUM size;
  _ ← reg_write dev R_QUEUE_DESC_LOW (wrap 32 desc);
  _ ← reg_write dev R_QUEUE_DESC_HIGH (wrap 32 (Z.shiftr desc 32));
  _ ← reg_write dev R_QUEUE_DRIVER_LOW (wrap 32 avail);
  _ ← reg_write dev R_QUEUE_DRIVER_HIGH (wrap 32 (Z.shiftr avail 32));
  _ ← reg_write dev R_QUEUE_DEVICE_LOW (wrap 32 used);
  _ ← reg_write dev R_QUEUE_DEVICE_HIGH (wrap 32 (Z.shiftr used 32));
  Ret true.

Definition make_ready (dev : Z) : drv bool :=
  _ ← reg_write dev R_QUEUE_READY 1;
  r ← reg_read dev R_QUEUE_READY;
  Ret (r =? 1).

Definition write_desc (a addr len flags next : Z) : drv unit :=
  _ ← ram_w64 a addr;
  _ ← ram_w32 (a + 8) len;
  _ ← ram_w16 (a + 12) flags;
  ram_w16 (a + 14) next.

Definition drive (dev : Z) : drv unit :=
  reg_write dev R_STATUS (Z.lor (Z.lor (Z.lor S_ACKNOWLEDGE S_DRIVER) S_FEATURES_OK) S_DRIVER_OK).

(** The device gives up, and the frame goes back. *)
Definition abandon (dev frame : Z) : drv unit :=
  _ ← reg_write dev R_STATUS (Z.lor (Z.lor S_ACKNOWLEDGE S_DRIVER) S_FAILED);
  frame_free frame.
Definition finish (dev frame : Z) : drv unit :=
  _ ← reg_write dev R_STATUS 0;
  frame_free frame.

(** ** Scanning the bus *)

Definition is_device (s id : Z) : drv bool :=
  m ← reg_read s R_MAGIC;
  if negb (m =? VIRTIO_MAGIC) then Ret false else
  d ← reg_read s R_DEVICE_ID;
  Ret (d =? id).

(** [n] slots are left, from slot [i] on. *)
Fixpoint chan_scan (n : nat) (base i : Z) : drv (option Z) :=
  match n with
  | O => Ret None
  | S n =>
      let s := base + i * SLOT_STRIDE in
      here ← is_device s VIRTIO_DEV_CONSOLE;
      if here : bool then
        v ← reg_read s R_VERSION;
        Ret (if negb (v =? VIRTIO_VERSION_MODERN) then None else Some i)
      else chan_scan n base (i + 1)
  end.
Definition chan_probe : drv (option Z) :=
  w ← map_window;
  match w with None => Ret None | Some base => chan_scan (Z.to_nat N_SLOTS) base 0 end.

Fixpoint blk_scan (n : nat) (base i : Z) : drv (option (Z * Z)) :=
  match n with
  | O => Ret None
  | S n =>
      let s := base + i * SLOT_STRIDE in
      here ← is_device s VIRTIO_DEV_BLK;
      if here : bool then
        v ← reg_read s R_VERSION;
        if negb (v =? VIRTIO_VERSION_MODERN) then Ret None else
        cap_lo ← reg_read s R_CONFIG;
        cap_hi ← reg_read s (R_CONFIG + 4);
        Ret (Some (i, Z.lor (Z.shiftl cap_hi 32) cap_lo))
      else blk_scan n base (i + 1)
  end.
Definition blk_probe : drv (option (Z * Z)) :=
  w ← map_window;
  match w with None => Ret None | Some base => blk_scan (Z.to_nat N_SLOTS) base 0 end.

(** [chan_saw_legacy] and [blk_saw_legacy] *)
Fixpoint legacy_scan (n : nat) (id base i : Z) (legacy : bool) : drv bool :=
  match n with
  | O => Ret legacy
  | S n =>
      let s := base + i * SLOT_STRIDE in
      here ← is_device s id;
      if here : bool then
        v ← reg_read s R_VERSION;
        if v =? VIRTIO_VERSION_MODERN then Ret false else legacy_scan n id base (i + 1) true
      else legacy_scan n id base (i + 1) legacy
  end.
Definition saw_legacy (id : Z) : drv bool :=
  w ← map_window;
  match w with None => Ret false | Some base => legacy_scan (Z.to_nat N_SLOTS) id base 0 false end.
Definition chan_saw_legacy : drv bool := saw_legacy VIRTIO_DEV_CONSOLE.
Definition blk_saw_legacy : drv bool := saw_legacy VIRTIO_DEV_BLK.

(** ** The entropy self-test *)

Inductive VirtioProof : Type :=
  | Absent
  | LegacyUnsupported
  | Proven (slot device_id len : Z)
  | Failed (stage : Z).

Fixpoint rng_scan (n : nat) (base i : Z) (saw : bool) : drv (option Z * bool) :=
  match n with
  | O => Ret (None, saw)
  | S n =>
      let s := base + i * SLOT_STRIDE in
      here ← is_device s VIRTIO_DEV_ENTROPY;
      if here : bool then
        v ← reg_read s R_VERSION;
        if v =? VIRTIO_VERSION_MODERN then Ret (Some i, saw) else rng_scan n base (i + 1) true
      else rng_scan n base (i + 1) saw
  end.

Fixpoint any_nonzero (n : nat) (pa : Z) : drv bool :=
  match n with O => Ret false | S n => b ← ram_r8 pa; if negb (b =? 0) then Ret true else any_nonzero n (pa + 1) end.

Definition fail (dev frame stage : Z) : drv VirtioProof :=
  _ ← abandon dev frame;
  Ret (Failed stage).

Definition virtio_selftest : drv VirtioProof :=
  w ← map_window;
  match w with
  | None => Ret (Failed STAGE_MAP)
  | Some base =>
  '(found, saw) ← rng_scan (Z.to_nat N_SLOTS) base 0 false;
  match found with
  | None => Ret (if saw : bool then LegacyUnsupported else Absent)
  | Some slot =>
  let dev := base + slot * SLOT_STRIDE in
  fr ← frame_alloc;
  match fr with
  | None => Ret (Failed STAGE_FRAME)
  | Some frame =>
  _ ← zero_frame frame;
  let desc := frame + DESC_OFF in
  let avail := frame + AVAIL_OFF in
  let used := frame + USED_OFF in
  let buf := frame + BUF_OFF in
  _ ← begin_init dev;
  _ ← reg_write dev R_DEVICE_FEATURES_SEL 0;
  _ ← reg_read dev R_DEVICE_FEATURES;
  ok ← negotiate dev;
  if negb ok then fail dev frame STAGE_FEATURES else
  ok ← set_up_queue dev 0 Q_SIZE desc avail used;
  if negb ok then fail dev frame STAGE_QUEUE else
  _ ← write_desc desc buf BUF_LEN VIRTQ_DESC_F_WRITE 0;
  _ ← ram_w16 avail VIRTQ_AVAIL_F_NO_INTERRUPT;
  _ ← ram_w16 (avail + 4) 0;
  ok ← make_ready dev;
  if negb ok then fail dev frame STAGE_QUEUE else
  _ ← drive dev;
  _ ← dma_fence;
  _ ← ram_w16 (avail + 2) 1;
  _ ← dma_fence;
  _ ← reg_write dev R_QUEUE_NOTIFY 0;
  ok ← poll (used + 2) 0;
  if negb ok then fail dev frame STAGE_POLL else
  _ ← dma_fence;
  len ← ram_r32 (used + 8);
  if len =? 0 then fail dev frame STAGE_LEN else
  let check := if len <? BUF_LEN then len else BUF_LEN in
  nonzero ← any_nonzero (Z.to_nat check) buf;
  if negb nonzero then fail dev frame STAGE_LEN else
  _ ← finish dev frame;
  Ret (Proven slot VIRTIO_DEV_ENTROPY len)
  end end end.

(** ** One block request *)

Definition BLK_DESC_OFF : Z := 0x000.
Definition BLK_AVAIL_OFF : Z := 0x040.
Definition BLK_USED_OFF : Z := 0x080.
Definition BLK_HDR_OFF : Z := 0x100.
Definition BLK_STATUS_OFF : Z := 0x110.
Definition BLK_DATA_OFF : Z := 0x200.
Definition BLK_Q_SIZE : Z := 4.

(** The chain: the header, the sector unless it is a flush, and the status byte. *)
Definition blk_chain (desc hdr dbuf status req_type : Z) : drv unit :=
  _ ← ram_w64 desc hdr;
  _ ← ram_w32 (desc + 8) REQ_HEADER_LEN;
  _ ← ram_w16 (desc + 12) VIRTQ_DESC_F_NEXT;
  _ ← ram_w16 (desc + 14) 1;
  if req_type =? T_FLUSH then
    write_desc (desc + 16) status 1 VIRTQ_DESC_F_WRITE 0
  else
    let data_flags := if req_type =? T_IN then Z.lor VIRTQ_DESC_F_WRITE VIRTQ_DESC_F_NEXT else VIRTQ_DESC_F_NEXT in
    _ ← write_desc (desc + 16) dbuf 512 data_flags 2;
    write_desc (desc + 32) status 1 VIRTQ_DESC_F_WRITE 0.

Definition blk_fail (dev frame : Z) (data : option (list Z)) : drv (bool * option (list Z)) :=
  _ ← abandon dev frame;
  Ret (false, data).

(** The header's encoder indexes in bounds ([Blkfmt.req_header_encode_eq]), so its panic is no
    answer here. *)
Definition blk_request (slot req_type sector : Z) (data : option (list Z)) : drv (bool * option (list Z)) :=
  w ← map_window;
  match w with
  | None => Ret (false, data)
  | Some base =>
  let dev := base + slot * SLOT_STRIDE in
  fr ← frame_alloc;
  match fr with
  | None => Ret (false, data)
  | Some frame =>
  _ ← zero_frame frame;
  let desc := frame + BLK_DESC_OFF in
  let avail := frame + BLK_AVAIL_OFF in
  let used := frame + BLK_USED_OFF in
  let hdr := frame + BLK_HDR_OFF in
  let status := frame + BLK_STATUS_OFF in
  let dbuf := frame + BLK_DATA_OFF in
  match req_header_encode req_type sector with
  | Panic => Spent
  | Val hbytes =>
  _ ← stage_bytes hdr (ztake REQ_HEADER_LEN hbytes);
  _ ← (if req_type =? T_OUT then match data with Some d => stage_bytes dbuf d | None => Ret tt end else Ret tt);
  _ ← ram_w8 status 0xFF;
  _ ← begin_init dev;
  ok ← negotiate dev;
  if negb ok then blk_fail dev frame data else
  ok ← set_up_queue dev 0 BLK_Q_SIZE desc avail used;
  if negb ok then blk_fail dev frame data else
  _ ← blk_chain desc hdr dbuf status req_type;
  _ ← ram_w16 avail VIRTQ_AVAIL_F_NO_INTERRUPT;
  _ ← ram_w16 (avail + 4) 0;
  ok ← make_ready dev;
  if negb ok then blk_fail dev frame data else
  _ ← drive dev;
  _ ← dma_fence;
  _ ← ram_w16 (avail + 2) 1;
  _ ← dma_fence;
  _ ← reg_write dev R_QUEUE_NOTIFY 0;
  ok ← poll (used + 2) 0;
  if negb ok then blk_fail dev frame data else
  _ ← dma_fence;
  st ← ram_r8 status;
  let ok := status_decode st =? S_OK in
  data ← (if ok && (req_type =? T_IN) then match data with Some _ => d ← read_bytes 512 dbuf; Ret (Some d) | None => Ret None end else Ret data);
  _ ← finish dev frame;
  Ret (ok, data)
  end end end.

Definition blk_read (slot sector : Z) (buf : list Z) : drv (bool * list Z) :=
  '(ok, d) ← blk_request slot T_IN sector (Some buf);
  Ret (ok, default buf d).
Definition blk_write (slot sector : Z) (buf : list Z) : drv bool :=
  '(ok, _) ← blk_request slot T_OUT sector (Some buf);
  Ret ok.
Definition blk_flush (slot : Z) : drv bool :=
  '(ok, _) ← blk_request slot T_FLUSH 0 None;
  Ret ok.

(** ** One session over the console channel *)

Definition CHAN_RX_DESC_OFF : Z := 0x000.
Definition CHAN_RX_AVAIL_OFF : Z := 0x040.
Definition CHAN_RX_USED_OFF : Z := 0x080.
Definition CHAN_TX_DESC_OFF : Z := 0x0C0.
Definition CHAN_TX_AVAIL_OFF : Z := 0x100.
Definition CHAN_TX_USED_OFF : Z := 0x140.
Definition CHAN_TX_BUF_OFF : Z := 0x200.
Definition CHAN_RX_BUF_OFF : Z := 0x400.
Definition CHAN_Q_SIZE : Z := 4.
Definition CHAN_TX_BUF_CAP : Z := 0x200.
Definition CHAN_RX_BUF_CAP : Z := 0xC00.

Definition chan_fail (dev frame : Z) (resp : list Z) : drv (option Z * list Z) :=
  _ ← abandon dev frame;
  Ret (None, resp).

(** The receive loop: [written] bytes of [resp] are filled.  A completion of no bytes makes no
    progress, so the loop has fuel. *)
Fixpoint rx_loop (fuel : nat) (dev frame : Z) (resp : list Z) (written rx_avail_idx rx_used_seen : Z) : drv (option Z * list Z) :=
  let rx_desc := frame + CHAN_RX_DESC_OFF in
  let rx_avail := frame + CHAN_RX_AVAIL_OFF in
  let rx_used := frame + CHAN_RX_USED_OFF in
  let rx_buf := frame + CHAN_RX_BUF_OFF in
  if negb (written <? zlen resp) then
    _ ← finish dev frame;
    Ret (Some written, resp)
  else
  match fuel with
  | O => Spent
  | S fuel =>
  ok ← poll (rx_used + 2) rx_used_seen;
  if negb ok then chan_fail dev frame resp else
  _ ← dma_fence;
  let entry := rx_used + 4 + 8 * (rx_used_seen `mod` CHAN_Q_SIZE) in
  len ← ram_r32 (entry + 4);
  let rx_used_seen := wrapping_add 16 rx_used_seen 1 in
  let remain := zlen resp - written in
  let take_ := if remain <? len then remain else len in
  got ← read_bytes (Z.to_nat take_) rx_buf;
  let resp := ztake written resp ++ got ++ zdrop (written + take_) resp in
  let written := written + take_ in
  if written <? zlen resp then
    _ ← write_desc rx_desc rx_buf (wrap 32 (zlen resp - written)) VIRTQ_DESC_F_WRITE 0;
    _ ← ram_w16 (rx_avail + 4 + 2 * (rx_avail_idx `mod` CHAN_Q_SIZE)) 0;
    _ ← dma_fence;
    let rx_avail_idx := wrapping_add 16 rx_avail_idx 1 in
    _ ← ram_w16 (rx_avail + 2) rx_avail_idx;
    _ ← dma_fence;
    _ ← reg_write dev R_QUEUE_NOTIFY 0;
    rx_loop fuel dev frame resp written rx_avail_idx rx_used_seen
  else rx_loop fuel dev frame resp written rx_avail_idx rx_used_seen
  end.

(** The session once it has its frame. *)
Definition chan_session (fuel : nat) (dev frame : Z) (req resp : list Z) : drv (option Z * list Z) :=
  _ ← zero_frame frame;
  let rx_desc := frame + CHAN_RX_DESC_OFF in
  let rx_avail := frame + CHAN_RX_AVAIL_OFF in
  let rx_used := frame + CHAN_RX_USED_OFF in
  let tx_desc := frame + CHAN_TX_DESC_OFF in
  let tx_avail := frame + CHAN_TX_AVAIL_OFF in
  let tx_used := frame + CHAN_TX_USED_OFF in
  let tx_buf := frame + CHAN_TX_BUF_OFF in
  let rx_buf := frame + CHAN_RX_BUF_OFF in
  _ ← stage_bytes tx_buf req;
  _ ← begin_init dev;
  ok ← negotiate dev;
  if negb ok then chan_fail dev frame resp else
  ok ← set_up_queue dev 0 CHAN_Q_SIZE rx_desc rx_avail rx_used;
  if negb ok then chan_fail dev frame resp else
  _ ← write_desc rx_desc rx_buf (wrap 32 (zlen resp)) VIRTQ_DESC_F_WRITE 0;
  _ ← ram_w16 rx_avail VIRTQ_AVAIL_F_NO_INTERRUPT;
  _ ← ram_w16 (rx_avail + 4) 0;
  _ ← dma_fence;
  _ ← ram_w16 (rx_avail + 2) 1;
  ok ← make_ready dev;
  if negb ok then chan_fail dev frame resp else
  ok ← set_up_queue dev 1 CHAN_Q_SIZE tx_desc tx_avail tx_used;
  if negb ok then chan_fail dev frame resp else
  _ ← ram_w16 tx_avail VIRTQ_AVAIL_F_NO_INTERRUPT;
  ok ← make_ready dev;
  if negb ok then chan_fail dev frame resp else
  _ ← drive dev;
  _ ← write_desc tx_desc tx_buf (wrap 32 (zlen req)) 0 0;
  _ ← ram_w16 (tx_avail + 4) 0;
  _ ← dma_fence;
  _ ← ram_w16 (tx_avail + 2) 1;
  _ ← dma_fence;
  _ ← reg_write dev R_QUEUE_NOTIFY 1;
  ok ← poll (tx_used + 2) 0;
  if negb ok then chan_fail dev frame resp else
  _ ← dma_fence;
  rx_loop fuel dev frame resp 0 1 0.

Definition chan_send_recv (fuel : nat) (slot : Z) (req resp : list Z) : drv (option Z * list Z) :=
  if bool_decide (req = []) || (CHAN_TX_BUF_CAP <? zlen req) || bool_decide (resp = []) || (CHAN_RX_BUF_CAP <? zlen resp) then Ret (None, resp) else
  w ← map_window;
  match w with
  | None => Ret (None, resp)
  | Some base =>
  let dev := base + slot * SLOT_STRIDE in
  fr ← frame_alloc;
  match fr with
  | None => Ret (None, resp)
  | Some frame =>
  chan_session fuel dev frame req resp
  end end.
