(* ===== verification/DriverSpec.v ===== *)
(** * What the drivers promise, whatever the device does

    Two monitors over the traces of the drivers of [Driver]: the discipline of the one frame
    they share with the device, and the progress of a channel session. *)
From Stdlib Require Import ZArith Lia.
From stdpp Require Import base numbers option tactics sets list.
From S2P Require Import Prelude Blkfmt Drv Driver.
Open Scope Z_scope.

(** ** One frame at a time

    No frame yet; a frame shared with the device, which is driven when [DRIVER_OK] is in the
    status last written; or no frame any more. *)
Inductive hold : Type :=
  | Idle
  | Held (frame : Z) (driven : bool)
  | Over.

Definition in_window (va : Z) : Prop := VIRTIO_WINDOW_VA <= va < VIRTIO_WINDOW_VA + N_SLOTS * SLOT_STRIDE.
Definition in_page (frame pa n : Z) : Prop := frame <= pa /\ pa + n <= frame + 4096.
Definition is_status (va : Z) : bool := (va - VIRTIO_WINDOW_VA) mod SLOT_STRIDE =? R_STATUS.

Definition dma_allowed (s : hold) (e : ev) : Prop :=
  match e with
  | MapPage va pa => s = Idle /\ va - VIRTIO_WINDOW_VA = pa - SLOT_BASE_PA
  | FrameAlloc => s = Idle
  | FrameFree f => s = Held f false
  | RegRead va | RegWrite va _ => s <> Over /\ in_window va
  | RamRead n pa | RamWrite n pa _ => exists f d, s = Held f d /\ in_page f pa (Z.of_nat n)
  | DmaFence => True
  end.

Definition dma_after (s : hold) (e : ev) : answer e -> hold :=
  match e with
  | FrameAlloc => fun r => match r with Some f => Held f false | None => Over end
  | FrameFree _ => fun _ => Over
  | RegWrite va v => fun _ => match s with Held f d => Held f (if is_status va then negb (Z.land v S_DRIVER_OK =? 0) else d) | _ => s end
  | _ => fun _ => s
  end.

Definition at_slot (dev : Z) : Prop := exists slot, 0 <= slot < N_SLOTS /\ dev = VIRTIO_WINDOW_VA + slot * SLOT_STRIDE.

Lemma slot_window dev off : at_slot dev -> 0 <= off < SLOT_STRIDE -> in_window (dev + off).
Proof. intros (slot & Hs & ->) Ho. unfold in_window, N_SLOTS, SLOT_STRIDE in *. lia. Qed.

Lemma slot_status dev off : at_slot dev -> 0 <= off < SLOT_STRIDE -> is_status (dev + off) = (off =? R_STATUS).
Proof.
  intros (slot & Hs & ->) Ho. unfold is_status. replace (VIRTIO_WINDOW_VA + slot * SLOT_STRIDE + off - VIRTIO_WINDOW_VA) with (off + slot * SLOT_STRIDE) by lia.
  rewrite Z.mod_add by done. by rewrite Z.mod_small.
Qed.

(** *** Steps between states *)

Abbreviation dma := (obeys dma_allowed dma_after).
Definition moves {A} (m : drv A) (s s' : hold) : Prop := dma m s (fun _ s1 => s1 = s') (fun _ => True).

Lemma moves_bind {A B} (m : drv A) (f : A -> drv B) s s' s2 : moves m s s' -> (forall a, moves (f a) s' s2) -> moves (m ≫= f) s s2.
Proof. intros Hm Hf. eapply obeys_then; [exact Hm|]. intros a s1 ->. apply Hf. Qed.

Lemma moves_ret {A} (a : A) s : moves (Ret a) s s.
Proof. done. Qed.

Lemma reg_read_moves dev off s : at_slot dev -> 0 <= off < SLOT_STRIDE -> s <> Over -> moves (reg_read dev off) s s.
Proof. intros Hd Ho Hs. split; [split; [done | by apply slot_window]|]. done. Qed.

Lemma reg_write_moves dev off v s : at_slot dev -> 0 <= off < SLOT_STRIDE -> off <> R_STATUS -> s <> Over -> moves (reg_write dev off v) s s.
Proof.
  intros Hd Ho Hne Hs. split; [split; [done | by apply slot_window]|]. intros r _. cbn [obeys dma_after]. rewrite (slot_status _ _ Hd Ho), (proj2 (Z.eqb_neq _ _)) by done. by destruct s.
Qed.

Lemma status_moves dev v f d : at_slot dev -> moves (reg_write dev R_STATUS v) (Held f d) (Held f (negb (Z.land v S_DRIVER_OK =? 0))).
Proof. intros Hd. split; [split; [done | by apply slot_window]|]. intros r _. cbn [obeys dma_after]. by rewrite (slot_status _ _ Hd). Qed.

Lemma ram_write_moves n pa v f d : in_page f pa (Z.of_nat n) -> moves (ask (RamWrite n pa v)) (Held f d) (Held f d).
Proof. intros Hp. split; [by exists f, d | done]. Qed.
Lemma ram_read_moves n pa f d : in_page f pa (Z.of_nat n) -> moves (ask (RamRead n pa)) (Held f d) (Held f d).
Proof. intros Hp. split; [by exists f, d | done]. Qed.
Lemma fence_moves s : moves dma_fence s s.
Proof. done. Qed.

Create HintDb dma.
Ltac page := unfold in_page, BLK_DESC_OFF, BLK_AVAIL_OFF, BLK_USED_OFF, BLK_HDR_OFF, BLK_STATUS_OFF, BLK_DATA_OFF, DESC_OFF, AVAIL_OFF, USED_OFF, BUF_OFF,
  CHAN_RX_DESC_OFF, CHAN_RX_AVAIL_OFF, CHAN_RX_USED_OFF, CHAN_TX_DESC_OFF, CHAN_TX_AVAIL_OFF, CHAN_TX_USED_OFF, CHAN_TX_BUF_OFF, CHAN_RX_BUF_OFF in *; lia.
#[export] Hint Resolve moves_ret fence_moves : dma.
#[export] Hint Extern 1 (moves (reg_read _ _) _ _) => (apply reg_read_moves; [assumption | split; [discriminate | reflexivity] | discriminate]) : dma.
#[export] Hint Extern 1 (moves (reg_write _ R_STATUS _) _ _) => (eapply status_moves; assumption) : dma.
#[export] Hint Extern 2 (moves (reg_write _ _ _) _ _) => (apply reg_write_moves; [assumption | split; [discriminate | reflexivity] | discriminate | discriminate]) : dma.
#[export] Hint Extern 1 (moves (ram_w8 _ _) _ _) => (apply ram_write_moves; page) : dma.
#[export] Hint Extern 1 (moves (ram_w16 _ _) _ _) => (apply ram_write_moves; page) : dma.
#[export] Hint Extern 1 (moves (ram_w32 _ _) _ _) => (apply ram_write_moves; page) : dma.
#[export] Hint Extern 1 (moves (ram_w64 _ _) _ _) => (apply ram_write_moves; page) : dma.
#[export] Hint Extern 1 (moves (ram_r8 _) _ _) => (apply ram_read_moves; page) : dma.
#[export] Hint Extern 1 (moves (ram_r16 _) _ _) => (apply ram_read_moves; page) : dma.
#[export] Hint Extern 1 (moves (ram_r32 _) _ _) => (apply ram_read_moves; page) : dma.

(** Walk through a straight line of steps, and split on the branches. *)
Ltac walk := repeat first
  [ progress cbv zeta
  | match goal with |- moves (if ?b then _ else _) _ _ => destruct b eqn:? end
  | eapply moves_bind; [solve [eauto with dma nocore] | intros ?] ].

Lemma zero_words_moves n f d : forall pa, in_page f pa (8 * Z.of_nat n) -> moves (zero_words n pa) (Held f d) (Held f d).
Proof. induction n as [|n IH]; intros pa Hp; [done|]. eapply moves_bind; [apply ram_write_moves; page|]. intros _. apply IH. unfold in_page in *. lia. Qed.
Lemma zero_frame_moves f d : moves (zero_frame f) (Held f d) (Held f d).
Proof. apply zero_words_moves. page. Qed.
Lemma stage_moves l f d : forall pa, in_page f pa (zlen l) -> moves (stage_bytes pa l) (Held f d) (Held f d).
Proof.
  induction l as [|b l IH]; intros pa Hp; [done|]. rewrite zlen_cons in Hp. pose proof (zlen_nonneg l). eapply moves_bind; [apply ram_write_moves; page|]. intros _. apply IH.
  unfold in_page in *. lia.
Qed.
Lemma read_bytes_moves n f d : forall pa, in_page f pa (Z.of_nat n) -> dma (read_bytes n pa) (Held f d) (fun l s => s = Held f d /\ length l = n) (fun _ => True).
Proof.
  induction n as [|n IH]; intros pa Hp; [done|]. cbn [read_bytes]. eapply obeys_then; [apply ram_read_moves; page|]. intros b s ->.
  eapply obeys_then; [apply IH; unfold in_page in *; lia|]. intros l s [-> Hl]. split; [done|]. cbn. by rewrite Hl.
Qed.
Lemma any_nonzero_moves n f d : forall pa, in_page f pa (Z.of_nat n) -> moves (any_nonzero n pa) (Held f d) (Held f d).
Proof.
  induction n as [|n IH]; intros pa Hp; [done|]. cbn [any_nonzero]. eapply moves_bind; [apply ram_read_moves; page|]. intros b. destruct (b =? 0); [|done]. apply IH. unfold in_page in *. lia.
Qed.
Lemma poll_moves f d pa seen : in_page f pa 2 -> moves (poll pa seen) (Held f d) (Held f d).
Proof.
  intros Hp. unfold poll. generalize (Z.to_nat POLL_CAP). intros n. induction n as [|n IH]; [done|]. eapply moves_bind; [by apply ram_read_moves|]. intros v. by destruct (v =? seen).
Qed.
#[export] Hint Resolve zero_frame_moves : dma.
#[export] Hint Extern 1 (moves (poll _ _) _ _) => (apply poll_moves; page) : dma.

(** *** The shared steps *)

Section steps.
Context (dev frame : Z) (Hdev : at_slot dev).

Lemma begin_init_moves d : moves (begin_init dev) (Held frame d) (Held frame false).
Proof. unfold begin_init. walk. eapply status_moves. done. Qed.

Lemma negotiate_moves : moves (negotiate dev) (Held frame false) (Held frame false).
Proof. unfold negotiate. walk; done. Qed.

Lemma set_up_queue_moves q size desc avail used : moves (set_up_queue dev q size desc avail used) (Held frame false) (Held frame false).
Proof. unfold set_up_queue. walk; done. Qed.

Lemma make_ready_moves : moves (make_ready dev) (Held frame false) (Held frame false).
Proof. unfold make_ready. walk; done. Qed.

Lemma write_desc_moves a addr len flags next d : in_page frame a 16 -> moves (write_desc a addr len flags next) (Held frame d) (Held frame d).
Proof. intros Hp. unfold write_desc. walk. apply ram_write_moves. page. Qed.

Lemma drive_moves : moves (drive dev) (Held frame false) (Held frame true).
Proof. by apply status_moves. Qed.

Lemma abandon_moves d : moves (abandon dev frame) (Held frame d) Over.
Proof. unfold abandon. walk. done. Qed.
Lemma finish_moves d : moves (finish dev frame) (Held frame d) Over.
Proof. unfold finish. walk. done. Qed.
End steps.
#[export] Hint Resolve begin_init_moves negotiate_moves set_up_queue_moves make_ready_moves drive_moves abandon_moves finish_moves : dma.
#[export] Hint Extern 1 (moves (write_desc _ _ _ _ _) _ _) => (apply write_desc_moves; page) : dma.

(** *** Finding the device *)

Lemma map_pages_moves n : forall j, dma (map_pages n j) Idle (fun w s => s = Idle /\ forall b, w = Some b -> b = VIRTIO_WINDOW_VA) (fun _ => True).
Proof.
  induction n as [|n IH]; intros j; [split; [done | by intros b [= <-]]|]. split; [split; [done|]; lia|]. intros ok _. cbn [dma_after]. destruct ok; [apply IH | done].
Qed.
Lemma map_window_moves : dma map_window Idle (fun w s => s = Idle /\ forall b, w = Some b -> b = VIRTIO_WINDOW_VA) (fun _ => True).
Proof. apply map_pages_moves. Qed.

Lemma is_device_moves s id : at_slot s -> moves (is_device s id) Idle Idle.
Proof. intros Hs. unfold is_device. walk; done. Qed.
#[export] Hint Resolve is_device_moves : dma.

Lemma scan_slot i n : 0 <= i -> i + Z.of_nat (S n) <= N_SLOTS -> at_slot (VIRTIO_WINDOW_VA + i * SLOT_STRIDE).
Proof. intros Hi Hn. exists i. split; [lia | done]. Qed.

Lemma chan_scan_moves n : forall i, 0 <= i -> i + Z.of_nat n <= N_SLOTS -> moves (chan_scan n VIRTIO_WINDOW_VA i) Idle Idle.
Proof. induction n as [|n IH]; intros i Hi Hn; [done|]. pose proof (scan_slot i n Hi Hn). cbn [chan_scan]. walk; [done | apply IH; lia]. Qed.
Lemma blk_scan_moves n : forall i, 0 <= i -> i + Z.of_nat n <= N_SLOTS -> moves (blk_scan n VIRTIO_WINDOW_VA i) Idle Idle.
Proof. induction n as [|n IH]; intros i Hi Hn; [done|]. pose proof (scan_slot i n Hi Hn). cbn [blk_scan]. walk; [done | done | apply IH; lia]. Qed.
Lemma legacy_scan_moves id n : forall i b, 0 <= i -> i + Z.of_nat n <= N_SLOTS -> moves (legacy_scan n id VIRTIO_WINDOW_VA i b) Idle Idle.
Proof. induction n as [|n IH]; intros i b Hi Hn; [done|]. pose proof (scan_slot i n Hi Hn). cbn [legacy_scan]. walk; [done | apply IH; lia | apply IH; lia]. Qed.
Lemma rng_scan_moves n : forall i b, 0 <= i -> i + Z.of_nat n <= N_SLOTS ->
  dma (rng_scan n VIRTIO_WINDOW_VA i b) Idle (fun r s => s = Idle /\ forall slot, r.1 = Some slot -> 0 <= slot < N_SLOTS) (fun _ => True).
Proof.
  induction n as [|n IH]; intros i b Hi Hn; [done|]. pose proof (scan_slot i n Hi Hn). cbn [rng_scan]. cbv zeta. eapply obeys_then; [by apply is_device_moves|].
  intros here s ->. destruct here; [|apply IH; lia]. eapply obeys_then; [by apply reg_read_moves|]. intros v s ->.
  destruct (v =? VIRTIO_VERSION_MODERN); [|apply IH; lia]. split; [done|]. intros slot [= <-]. lia.
Qed.

(** *** The three drivers *)

(** No frame is held. *)
Definition at_rest (s : hold) : Prop := s = Idle \/ s = Over.
Definition settles {A} (m : drv A) (s : hold) : Prop := dma m s (fun _ => at_rest) (fun _ => True).

Lemma settles_over {A} (m : drv A) s : moves m s Over -> settles m s.
Proof. intros Hm. eapply obeys_mono; [|exact Hm]. intros a s' ->. by right. Qed.
Lemma settles_bind {A B} (m : drv A) (f : A -> drv B) s s' : moves m s s' -> (forall a, settles (f a) s') -> settles (m ≫= f) s.
Proof. intros Hm Hf. eapply obeys_then; [exact Hm|]. intros a s1 ->. apply Hf. Qed.

Ltac walk_end := repeat first
  [ progress cbv zeta
  | match goal with |- settles (if ?b then _ else _) _ => destruct b eqn:? end
  | eapply settles_bind; [solve [eauto with dma nocore] | intros ?] ].

(** Find the device's window, take a frame. *)
Lemma with_window {A} (k : option Z -> drv A) : settles (k None) Idle -> settles (k (Some VIRTIO_WINDOW_VA)) Idle -> settles (map_window ≫= k) Idle.
Proof. intros Hn Hs. eapply obeys_then; [apply map_window_moves|]. intros [b|] s [-> Hb]; [by rewrite (Hb b) | done]. Qed.
Lemma with_frame {A} (k : option Z -> drv A) : settles (k None) Over -> (forall f, settles (k (Some f)) (Held f false)) -> settles (frame_alloc ≫= k) Idle.
Proof. intros Hn Hs. split; [done|]. intros [f|] _; [apply Hs | exact Hn]. Qed.

Lemma virtio_selftest_settles : settles virtio_selftest Idle.
Proof.
  apply with_window; [by left|]. eapply obeys_then; [apply rng_scan_moves; done|]. intros [[slot|] saw] s [-> Hslot]; [|destruct saw; by left].
  assert (at_slot (VIRTIO_WINDOW_VA + slot * SLOT_STRIDE)) as Hd by (exists slot; split; [by apply Hslot | done]). cbv zeta. apply with_frame; [by right|]. intros f.
  walk_end. all: try (by right). eapply settles_bind; [apply any_nonzero_moves; case_match eqn:E; [apply Z.ltb_lt in E | ]; unfold BUF_LEN in *; page|].
  intros nz. walk_end; by right.
Qed.

Lemma blk_chain_moves desc hdr dbuf status t f d : desc = f + BLK_DESC_OFF -> moves (blk_chain desc hdr dbuf status t) (Held f d) (Held f d).
Proof. intros ->. unfold blk_chain. walk; apply ram_write_moves; page. Qed.

Definition sector_sized (data : option (list Z)) : Prop := match data with Some d => zlen d = 512 | None => True end.

Lemma blk_request_settles slot t sector data : 0 <= slot < N_SLOTS -> sector_sized data -> settles (blk_request slot t sector data) Idle.
Proof.
  intros Hs Hdata. apply with_window; [by left|]. cbv zeta. assert (at_slot (VIRTIO_WINDOW_VA + slot * SLOT_STRIDE)) as Hd by by exists slot.
  apply with_frame; [by right|]. intros f. walk_end. rewrite req_header_encode_eq. eapply settles_bind; [apply stage_moves; unfold REQ_HEADER_LEN; zl; page|]. intros _.
  eapply settles_bind.
  { instantiate (1 := Held f false). destruct (t =? T_OUT); [|done]. destruct data as [d|]; [|done]. apply stage_moves. cbn in Hdata. rewrite Hdata. page. }
  intros _. walk_end. all: try (by right). eapply settles_bind; [by apply blk_chain_moves|]. intros _. walk_end. all: try (by right).
  eapply settles_bind.
  { instantiate (1 := Held f true). destruct (_ && (t =? T_IN)); [|done]. destruct data as [d|]; [|done]. eapply obeys_then; [apply read_bytes_moves; page|]. by intros l s [-> _]. }
  intros data'. walk_end. by right.
Qed.

Lemma ram_r32_value f d pa : in_page f pa 4 -> dma (ram_r32 pa) (Held f d) (fun v s => s = Held f d /\ is_u32 v) (fun _ => True).
Proof. intros Hp. split; [by exists f, d | done]. Qed.

Lemma rx_loop_settles fuel dev f : at_slot dev -> forall resp written ai us, 0 <= written <= zlen resp -> zlen resp <= CHAN_RX_BUF_CAP ->
  settles (rx_loop fuel dev f resp written ai us) (Held f true).
Proof.
  intros Hd. induction fuel as [|fuel IH]; intros resp written ai us Hw Hl; cbn [rx_loop]; (destruct (Z.ltb_spec written (zlen resp)) as [Hlt|_]; cbn [negb]; [|walk_end; by right]); [done|].
  cbv zeta. eapply settles_bind; [apply poll_moves; page|]. intros ok. destruct ok; cbn [negb]; [|unfold chan_fail; walk_end; by right].
  eapply settles_bind; [apply fence_moves|]. intros _. assert (0 <= us mod CHAN_Q_SIZE < 4) as Hm by by apply Z.mod_pos_bound. 
  eapply obeys_then; [apply (ram_r32_value _ true); page|]. intros len s [-> Hlen]. unfold in_u in Hlen.
  set (tk := if zlen resp - written <? len then zlen resp - written else len). assert (0 <= tk <= zlen resp - written) as Htk by (subst tk; destruct (Z.ltb_spec (zlen resp - written) len); lia).
  eapply obeys_then; [apply (read_bytes_moves _ _ true); unfold CHAN_RX_BUF_CAP in Hl; page|]. intros got s [-> Hgot].
  assert (zlen (ztake written resp ++ got ++ zdrop (written + tk) resp) = zlen resp) as Hsame by (assert (zlen got = tk) by (unfold zlen; lia); zl).
  clearbody tk. assert (settles (rx_loop fuel dev f (ztake written resp ++ got ++ zdrop (written + tk) resp) (written + tk) ai (wrapping_add 16 us 1)) (Held f true)) as Hstop by (apply IH; lia).
  destruct (_ <? _); [|exact Hstop]. assert (0 <= ai mod CHAN_Q_SIZE < 4) as Hm' by by apply Z.mod_pos_bound. fold (settles (A := option Z * list Z)). walk_end. apply IH; lia.
Qed.

Lemma chan_send_recv_settles fuel slot req resp : 0 <= slot < N_SLOTS -> settles (chan_send_recv fuel slot req resp) Idle.
Proof.
  intros Hs. unfold chan_send_recv. destruct (_ || _ || _ || _) eqn:E; [by left|]. rewrite !orb_false_iff, !Z.ltb_ge in E. destruct E as [[[_ Hq] _] Hl].
  apply with_window; [by left|]. cbv zeta. assert (at_slot (VIRTIO_WINDOW_VA + slot * SLOT_STRIDE)) as Hd by by exists slot.
  apply with_frame; [by right|]. intros f. unfold chan_session. walk_end. eapply settles_bind; [apply stage_moves; unfold CHAN_TX_BUF_CAP in Hq; page|]. intros _. walk_end. all: try (by right).
  apply rx_loop_settles; [done | pose proof (zlen_nonneg resp); lia | done].
Qed.

(** ** A session makes progress

    [true] once the device has completed a receive buffer with no bytes in it. *)
Definition starved_after (s : bool) (e : ev) : answer e -> bool :=
  match e with RamRead 4 _ => fun r => s || (r =? 0) | _ => fun _ => s end.
Abbreviation starve := (obeys (fun _ _ => True) starved_after).

(** Steps that read no completion's length and end. *)
Definition keeps {A} (m : drv A) : Prop := forall s E, starve m s (fun _ s' => s' = s) E.

Lemma keeps_bind {A B} (m : drv A) (f : A -> drv B) : keeps m -> (forall a, keeps (f a)) -> keeps (m ≫= f).
Proof. intros Hm Hf s E. eapply obeys_then; [apply Hm|]. intros a s' ->. apply Hf. Qed.
Lemma keeps_ret {A} (a : A) : keeps (Ret a).
Proof. by intros s E. Qed.
Lemma keeps_ask e : (forall pa, e <> RamRead 4 pa) -> keeps (ask e).
Proof. intros Hne s E. split; [done|]. intros r _. destruct e as [| | | | |[|[|[|[|[|n]]]]] pa| |]; try done. by destruct (Hne pa). Qed.

Create HintDb calm.
#[export] Hint Resolve keeps_ret : calm.
#[export] Hint Extern 1 (keeps (reg_read _ _)) => (by apply keeps_ask) : calm.
#[export] Hint Extern 1 (keeps (reg_write _ _ _)) => (by apply keeps_ask) : calm.
#[export] Hint Extern 1 (keeps (ram_w8 _ _)) => (by apply keeps_ask) : calm.
#[export] Hint Extern 1 (keeps (ram_w16 _ _)) => (by apply keeps_ask) : calm.
#[export] Hint Extern 1 (keeps (ram_w32 _ _)) => (by apply keeps_ask) : calm.
#[export] Hint Extern 1 (keeps (ram_w64 _ _)) => (by apply keeps_ask) : calm.
#[export] Hint Extern 1 (keeps (ram_r8 _)) => (by apply keeps_ask) : calm.
#[export] Hint Extern 1 (keeps (ram_r16 _)) => (by apply keeps_ask) : calm.
#[export] Hint Extern 1 (keeps dma_fence) => (by apply keeps_ask) : calm.
#[export] Hint Extern 1 (keeps frame_alloc) => (by apply keeps_ask) : calm.
#[export] Hint Extern 1 (keeps (frame_free _)) => (by apply keeps_ask) : calm.
Ltac calm := repeat first
  [ progress cbv zeta
  | match goal with |- keeps (if ?b then _ else _) => destruct b end
  | match goal with |- keeps (match ?b with Some _ => _ | None => _ end) => destruct b end
  | solve [auto with calm nocore]
  | apply keeps_bind; [solve [auto with calm nocore] | intros ?] ].

Lemma zero_words_keeps n : forall pa, keeps (zero_words n pa).
Proof. induction n as [|n IH]; intros pa; [apply keeps_ret|]. cbn [zero_words]. apply keeps_bind; [by apply keeps_ask | intros _; apply IH]. Qed.
Lemma stage_keeps l : forall pa, keeps (stage_bytes pa l).
Proof. induction l as [|b l IH]; intros pa; [apply keeps_ret|]. cbn [stage_bytes]. apply keeps_bind; [by apply keeps_ask | intros _; apply IH]. Qed.
Lemma read_bytes_keeps n s E : forall pa, starve (read_bytes n pa) s (fun l s' => s' = s /\ length l = n) E.
Proof.
  induction n as [|n IH]; intros pa; [done|]. cbn [read_bytes]. eapply obeys_then; [by apply keeps_ask|]. intros b s' ->. eapply obeys_then; [apply IH|].
  intros l s' [-> Hl]. split; [done|]. cbn. by rewrite Hl.
Qed.
Lemma poll_keeps pa seen : keeps (poll pa seen).
Proof. unfold poll. generalize (Z.to_nat POLL_CAP). intros n. induction n as [|n IH]; [apply keeps_ret|]. cbn [poll_n]. calm. Qed.
Lemma map_pages_keeps n : forall j, keeps (map_pages n j).
Proof. induction n as [|n IH]; intros j; [apply keeps_ret|]. cbn [map_pages]. apply keeps_bind; [by apply keeps_ask | intros ok; destruct ok; [apply IH | apply keeps_ret]]. Qed.
Lemma map_window_keeps : keeps map_window.
Proof. apply map_pages_keeps. Qed.
Lemma zero_frame_keeps f : keeps (zero_frame f).
Proof. apply zero_words_keeps. Qed.
#[export] Hint Resolve zero_frame_keeps stage_keeps poll_keeps map_window_keeps : calm.
Lemma write_desc_keeps a addr len flags next : keeps (write_desc a addr len flags next).
Proof. unfold write_desc. calm. Qed.
Lemma begin_init_keeps dev : keeps (begin_init dev).
Proof. unfold begin_init. calm. Qed.
Lemma negotiate_keeps dev : keeps (negotiate dev).
Proof. unfold negotiate. calm. Qed.
Lemma set_up_queue_keeps dev q size desc avail used : keeps (set_up_queue dev q size desc avail used).
Proof. unfold set_up_queue. calm. Qed.
Lemma make_ready_keeps dev : keeps (make_ready dev).
Proof. unfold make_ready. calm. Qed.
Lemma drive_keeps dev : keeps (drive dev).
Proof. by apply keeps_ask. Qed.
Lemma finish_keeps dev f : keeps (finish dev f).
Proof. unfold finish. calm. Qed.
Lemma abandon_keeps dev f : keeps (abandon dev f).
Proof. unfold abandon. calm. Qed.
#[export] Hint Resolve abandon_keeps : calm.
Lemma chan_fail_keeps dev f resp : keeps (chan_fail dev f resp).
Proof. unfold chan_fail. calm. Qed.
#[export] Hint Resolve write_desc_keeps begin_init_keeps negotiate_keeps set_up_queue_keeps make_ready_keeps drive_keeps finish_keeps chan_fail_keeps : calm.

(** Either a completion had no bytes, or the loop ends within a turn for each byte missing. *)
Definition progresses {A} (m : drv A) (s : bool) : Prop := starve m s (fun _ _ => True) (fun s => s = true).

Lemma keeps_progresses {A} (m : drv A) s : keeps m -> progresses m s.
Proof. intros Hm. by eapply obeys_mono; [|apply Hm]. Qed.
Lemma progresses_bind {A B} (m : drv A) (f : A -> drv B) s : keeps m -> (forall a, progresses (f a) s) -> progresses (m ≫= f) s.
Proof. intros Hm Hf. eapply obeys_then; [apply Hm|]. intros a s' ->. apply Hf. Qed.

Ltac calm_to := repeat first
  [ progress cbv zeta
  | match goal with |- progresses (if ?b then _ else _) _ => destruct b end
  | solve [apply keeps_progresses; auto with calm nocore]
  | apply progresses_bind; [solve [auto with calm nocore] | intros ?] ].

Lemma rx_loop_progresses fuel dev f : forall resp written ai us s, 0 <= written -> (s = true \/ zlen resp - written < Z.of_nat fuel) -> progresses (rx_loop fuel dev f resp written ai us) s.
Proof.
  induction fuel as [|fuel IH]; intros resp written ai us s Hw Hs; cbn [rx_loop]; (destruct (Z.ltb_spec written (zlen resp)) as [Hlt|_]; cbn [negb]; [|calm_to]).
  { destruct Hs as [Hs|Hs]; [exact Hs | lia]. }
  cbv zeta. apply progresses_bind; [apply poll_keeps|]. intros ok. destruct ok; cbn [negb]; [|calm_to]. apply progresses_bind; [by apply keeps_ask|]. intros _.
  assert (forall pa, starve (ram_r32 pa) s (fun v s' => is_u32 v /\ s' = s || (v =? 0)) (fun s => s = true)) as Hlen by (intros pa; split; [done|]; intros r Hr; by split).
  eapply obeys_then; [apply Hlen|]. intros len s' [Hl ->]. unfold in_u in Hl. set (tk := if zlen resp - written <? len then zlen resp - written else len).
  assert (0 <= tk <= zlen resp - written /\ (len <> 0 -> 0 < tk)) as [Htk Hpos] by (subst tk; destruct (Z.ltb_spec (zlen resp - written) len); lia).
  eapply obeys_then; [apply read_bytes_keeps|]. intros got s' [-> Hgot]. clearbody tk.
  assert (zlen (ztake written resp ++ got ++ zdrop (written + tk) resp) = zlen resp) as Hsame by (assert (zlen got = tk) by (unfold zlen; lia); zl).
  assert (forall ai' us', progresses (rx_loop fuel dev f (ztake written resp ++ got ++ zdrop (written + tk) resp) (written + tk) ai' us') (s || (len =? 0))) as Hrec.
  { intros ai' us'. apply IH; [lia|]. destruct (Z.eqb_spec len 0) as [->|Hne]; [left; apply orb_true_r|]. rewrite orb_false_r. destruct Hs as [Hs|Hs]; [by left|]. right. specialize (Hpos Hne). lia. }
  destruct (_ <? _); [|apply Hrec]. fold (progresses (A := option Z * list Z)). calm_to. apply Hrec.
Qed.

Lemma chan_send_recv_progresses fuel slot req resp : zlen resp < Z.of_nat fuel -> progresses (chan_send_recv fuel slot req resp) false.
Proof.
  intros Hf. unfold chan_send_recv. destruct (_ || _ || _ || _); [calm_to|]. apply progresses_bind; [apply map_window_keeps|]. intros [base|]; [|calm_to]. cbv zeta.
  apply progresses_bind; [by apply keeps_ask|]. intros [f|]; [|calm_to]. unfold chan_session. calm_to. apply rx_loop_progresses; [done | right; lia].
Qed.

Definition starved (tr : list exchange) : Prop := exists pa, mkExchange (RamRead 4 pa) 0 ∈ tr.

Lemma starved_end tr : forall s, end_state starved_after s tr = true -> s = true \/ starved tr.
Proof.
  induction tr as [|[e r] tr IH]; intros s; cbn [end_state asked answered]; [by left|]. intros Hs. destruct (IH _ Hs) as [Hx|(pa & Hpa)]; [|right; exists pa; by right].
  destruct e as [| | | | |[|[|[|[|[|n]]]]] pa| |]; try by left. cbn in Hx. apply orb_true_iff in Hx as [Hx|Hx]; [by left|]. apply Z.eqb_eq in Hx. right. exists pa. rewrite <- Hx. by left.
Qed.

(** ** Properties *)

(** C18: whatever the device and the machine answer, a driver takes at most one frame, touches
    memory only inside it and the device only through the mapped window, frees it exactly once
    and only when the device is not driven, asks nothing of the machine after that, and holds
    no frame when it ends.  This is every step of every run of the entropy self-test, of a
    block request and of a channel session. *)
Theorem drivers_hold_one_frame slot : 0 <= slot < N_SLOTS ->
  let disciplined {A} (m : drv A) := forall tr o, ran m tr o -> accepts_trace dma_allowed dma_after Idle tr /\ forall a, o = Done a -> at_rest (end_state dma_after Idle tr) in
  disciplined virtio_selftest /\
  (forall req_type sector data, sector_sized data -> disciplined (blk_request slot req_type sector data)) /\
  (forall fuel req resp, disciplined (chan_send_recv fuel slot req resp)).
Proof.
  intros Hs disciplined. assert (forall A (m : drv A), settles m Idle -> disciplined A m) as Hd.
  { intros A m Hm tr o Hr. destruct (obeys_ran _ _ _ _ _ _ _ _ Hm Hr) as [Ha He]. split; [exact Ha|]. intros a ->. exact He. }
  split; [|split]; intros; apply Hd; [apply virtio_selftest_settles | by apply blk_request_settles | by apply chan_send_recv_settles].
Qed.

(** C19: a channel session ends, however the device behaves, unless the device completes a
    receive buffer with no bytes in it: with a turn of the receive loop for every byte
    expected and one more, no run of a session in which every completion has a byte runs out
    of fuel.  (A device that completes buffers with no bytes for ever keeps the session going
    for ever: [starving_session_never_ends].) *)
Theorem chan_session_ends fuel slot req resp tr o : zlen resp < Z.of_nat fuel -> ran (chan_send_recv fuel slot req resp) tr o -> ~ starved tr -> o <> OutOfFuel.
Proof.
  intros Hf Hr Hns ->. destruct (obeys_ran _ _ _ _ _ _ _ _ (chan_send_recv_progresses fuel slot req resp Hf) Hr) as [_ He]. by destruct (starved_end _ _ He).
Qed.

(** ** A device that starves the session

    It accepts everything and completes every receive buffer with no bytes; the state counts
    the receive queue's kicks. *)
Definition starving_reply (e : ev) (k : Z) : answer e * Z :=
  match e with
  | MapPage _ _ => (true, k)
  | FrameAlloc => (Some 0x100000, k)
  | RegRead va => (if va =? VIRTIO_WINDOW_VA + R_DEVICE_FEATURES then 1 else if va =? VIRTIO_WINDOW_VA + R_STATUS then S_FEATURES_OK
                   else if va =? VIRTIO_WINDOW_VA + R_QUEUE_NUM_MAX then 4 else 1, k)
  | RegWrite va v => (tt, if (va =? VIRTIO_WINDOW_VA + R_QUEUE_NOTIFY) && (v =? 0) then k + 1 else k)
  | RamRead n pa => (if pa =? 0x100000 + CHAN_TX_USED_OFF + 2 then 1 else if pa =? 0x100000 + CHAN_RX_USED_OFF + 2 then wrap 16 (1 + k) else 0, k)
  | FrameFree _ | RamWrite _ _ _ | DmaFence => (tt, k)
  end.
#[local] Instance starving : Machine Z := fun e k => Some (starving_reply e k).

Lemma poll_answered {S} `{Machine S} pa seen s v s' : handle (RamRead 2 pa) s = Some (v, s') -> v <> seen -> interp (poll pa seen) s = Some (true, s').
Proof.
  intros Hh Hne. unfold poll. destruct (Z.to_nat POLL_CAP) as [|n] eqn:E; [unfold POLL_CAP in E; lia|]. clear E. cbn [poll_n].
  rewrite (interp_then _ _ _ _ _ (interp_ask _ _ _ _ Hh)). by rewrite (proj2 (Z.eqb_neq _ _)).
Qed.

Lemma starving_loop fuel : forall k ai, interp (rx_loop fuel VIRTIO_WINDOW_VA 0x100000 [0] 0 ai (wrap 16 k)) k = None.
Proof.
  induction fuel as [|fuel IH]; intros k ai; [done|]. cbn [rx_loop]. cbv zeta. change (negb (0 <? zlen [0])) with false. cbv iota.
  rewrite (interp_then _ _ _ true k).
  2: { apply (poll_answered _ _ _ (wrap 16 (1 + k))); [done|]. unfold wrap. rewrite <- (Z.add_mod_idemp_r 1 k) by lia. pose proof (Z.mod_pos_bound k (2 ^ 16) ltac:(lia)) as Hk.
       destruct (Z.eq_dec (k mod 2 ^ 16) (2 ^ 16 - 1)) as [->|Hne]; [done|]. rewrite Z.mod_small by lia. lia. }
  cbn [negb]. rewrite (interp_then dma_fence _ k tt k) by done. rewrite (interp_then (ram_r32 _) _ k 0 k).
  2: { unfold ram_r32, ask. cbn [interp]. unfold handle, starving, starving_reply. pose proof (Z.mod_pos_bound (wrap 16 k) CHAN_Q_SIZE eq_refl) as Hm. unfold CHAN_RX_USED_OFF, CHAN_TX_USED_OFF, CHAN_Q_SIZE in *.
       rewrite !(proj2 (Z.eqb_neq _ _)) by lia. done. }
  change (zlen [0] - 0 <? 0) with false. cbv iota. change (Z.to_nat 0) with 0%nat. cbn [read_bytes]. rewrite (interp_then (Ret []) _ k [] k) by done.
  change (ztake 0 [0] ++ [] ++ zdrop (0 + 0) [0]) with [0]. change (0 + 0 <? zlen [0]) with true. cbv iota.
  rewrite (interp_then (write_desc _ _ _ _ _) _ k tt k) by done. rewrite (interp_then (ram_w16 _ _) _ k tt k) by done. rewrite (interp_then dma_fence _ k tt k) by done.
  rewrite (interp_then (ram_w16 _ _) _ k tt k) by done. rewrite (interp_then dma_fence _ k tt k) by done. rewrite (interp_then (reg_write _ _ _) _ k tt (k + 1)) by done.
  change (0 + 0) with 0. replace (wrapping_add 16 (wrap 16 k) 1) with (wrap 16 (k + 1)); [apply IH|]. unfold wrapping_add, wrap. by rewrite Z.add_mod_idemp_l by lia.
Qed.

Lemma starving_session_never_ends fuel : interp (chan_send_recv fuel 0 [1] [0]) 0 = None.
Proof.
  unfold chan_send_recv. change (_ || _ || _ || _) with false. cbv iota. erewrite (interp_then map_window) by reflexivity. cbv iota zeta.
  change (VIRTIO_WINDOW_VA + 0 * SLOT_STRIDE) with VIRTIO_WINDOW_VA. erewrite (interp_then frame_alloc) by reflexivity. cbv iota. unfold chan_session.
  rewrite (interp_then (zero_frame _) _ 0 tt 0) by (vm_compute; reflexivity). do 20 (first [rewrite (interp_then _ _ 0 tt 0) by reflexivity | rewrite (interp_then _ _ 0 true 0) by reflexivity]; cbn [negb]).
  rewrite (interp_then (poll _ _) _ 0 true 0) by (by eapply poll_answered). cbn [negb]. erewrite interp_then by reflexivity. apply (starving_loop fuel 0).
Qed.

(** ** Witnesses *)

Lemma drivers_hold_one_frame_witness :
  accepts_trace dma_allowed dma_after Idle (map (fun j => mkExchange (MapPage (VIRTIO_WINDOW_VA + j * 0x1000) (SLOT_BASE_PA + j * 0x1000)) true) [0; 1; 2; 3] ++ [mkExchange FrameAlloc None]).
Proof.
  assert (ran (blk_request 5 T_FLUSH 0 None) (map (fun j => mkExchange (MapPage (VIRTIO_WINDOW_VA + j * 0x1000) (SLOT_BASE_PA + j * 0x1000)) true) [0; 1; 2; 3] ++ [mkExchange FrameAlloc None]) (Done (false, None))) as Hr.
  { do 5 (apply ran_ask; [exact I|]). apply ran_ret. }
  destruct (drivers_hold_one_frame 5) as (_ & Hb & _); [unfold N_SLOTS; lia|]. exact (proj1 (Hb T_FLUSH 0 None I _ _ Hr)).
Defined.

Lemma chan_session_ends_witness : ran (chan_send_recv 2 0 [1] [0]) [mkExchange (MapPage VIRTIO_WINDOW_VA SLOT_BASE_PA) false] (Done (None, [0])) /\ (Done (None, [0]) : ending (option Z * list Z)) <> OutOfFuel.
Proof.
  assert (ran (chan_send_recv 2 0 [1] [0]) [mkExchange (MapPage VIRTIO_WINDOW_VA SLOT_BASE_PA) false] (Done (None, [0]))) as Hr by (apply (ran_ask (MapPage _ _)); [exact I | apply ran_ret]).
  split; [exact Hr|]. apply (chan_session_ends 2 0 [1] [0] _ _ (eq_refl : (zlen [0] ?= 2) = Lt) Hr). intros (pa & Hpa). apply list_elem_of_singleton in Hpa. discriminate Hpa.
Defined.
