(* ===== verification/DevBus.v ===== *)
(** * The monitor's device bus: [tb-vmm/src/device.rs].

    A registry of address ranges, kept by base address (the [BTreeMap]), that dispatches an
    access to the device whose range holds its address.  A device is a handle here (the code's
    [Arc]); what an access does to it is the caller's. *)
From Stdlib Require Import ZArith Lia.
From stdpp Require Import base numbers option tactics sets list.
From S2P Require Import Prelude.
Open Scope Z_scope.

Inductive BusError : Type :=
  | ZeroLength
  | Overlap (base len : Z).

Section bus.
Context {D : Type}.

Record Entry := mkEntry { len : Z; device : D }.
(** In the order of the bases. *)
Record Bus := mkBus { entries : list (Z * Entry) }.

Definition bus_new : Bus := mkBus [].

(** [entries.range(..=a).next_back()] and [entries.range(a..).next()] *)
Fixpoint last_upto (a : Z) (es : list (Z * Entry)) : option (Z * Entry) :=
  match es with
  | [] => None
  | (b, e) :: es => if b <=? a then match last_upto a es with Some x => Some x | None => Some (b, e) end else None
  end.
Fixpoint first_from (a : Z) (es : list (Z * Entry)) : option (Z * Entry) :=
  match es with
  | [] => None
  | (b, e) :: es => if a <=? b then Some (b, e) else first_from a es
  end.
(** [entries.insert(base, e)] *)
Fixpoint entries_insert (base : Z) (e : Entry) (es : list (Z * Entry)) : list (Z * Entry) :=
  match es with
  | [] => [(base, e)]
  | (b, x) :: es => if base <? b then (base, e) :: (b, x) :: es else if base =? b then (b, e) :: es else (b, x) :: entries_insert base e es
  end.

Definition register (s : Bus) (base len_ : Z) (d : D) : res (Bus + BusError) :=
  if len_ =? 0 then Val (inr ZeroLength) else
  let end_ := saturating_add 64 base len_ in
  taken ← (match last_upto base (entries s) with
           | Some (pbase, pentry) => top ← add_u 64 pbase (len pentry); Val (base <? top)
           | None => Val false
           end);
  if taken : bool then Val (inr (Overlap base len_)) else
  let taken := match first_from base (entries s) with Some (nbase, _) => nbase <? end_ | None => false end in
  if taken : bool then Val (inr (Overlap base len_)) else
  Val (inl (mkBus (entries_insert base (mkEntry len_ d) (entries s)))).

Definition lookup (s : Bus) (addr : Z) : res (option (Z * D)) :=
  match last_upto addr (entries s) with
  | None => Val None
  | Some (base, entry) => top ← add_u 64 base (len entry); Val (if addr <? top then Some (base, device entry) else None)
  end.

(** [dev_read] and [dev_write] are the devices'. *)
Definition bus_read (s : Bus) (dev_read : D -> Z -> list Z -> list Z) (addr : Z) (data : list Z) : res (list Z) :=
  r ← lookup s addr;
  match r with
  | Some (base, d) => Val (dev_read d (addr - base) data)
  | None => Val (zrepeat (zlen data) 0xff)
  end.
Definition bus_write {W} (s : Bus) (dev_write : D -> Z -> list Z -> W -> res (option W)) (addr : Z) (data : list Z) (w : W) : res (option W) :=
  r ← lookup s addr;
  match r with
  | Some (base, d) => dev_write d (addr - base) data w
  | None => Val (Some w)
  end.

(** ** The bus's ranges *)

(** Apart and in order, none empty, none beyond the address space. *)
Fixpoint ranges_from (lo : Z) (es : list (Z * Entry)) : Prop :=
  match es with
  | [] => True
  | (b, e) :: es => lo <= b /\ 0 < len e /\ b + len e < 2 ^ 64 /\ ranges_from (b + len e) es
  end.
Definition bus_ok (s : Bus) : Prop := ranges_from 0 (entries s).

(** The device that claims an address, and its base. *)
Definition claims (s : Bus) (addr base : Z) (d : D) : Prop := exists e, (base, e) ∈ entries s /\ device e = d /\ base <= addr < base + len e.
Definition free_range (s : Bus) (base len_ : Z) : Prop := forall b e, (b, e) ∈ entries s -> base + len_ <= b \/ b + len e <= base.

Lemma ranges_weaken lo lo' es : lo' <= lo -> ranges_from lo es -> ranges_from lo' es.
Proof. destruct es as [|[b e] es]; [done|]. cbn. intros ? (? & ? & ? & ?). split; [lia | done]. Qed.

Lemma ranges_in es : forall lo b e, ranges_from lo es -> (b, e) ∈ es -> lo <= b /\ 0 < len e /\ b + len e < 2 ^ 64.
Proof.
  induction es as [|[b' e'] es IH]; intros lo b e; [by intros _ ?%elem_of_nil|]. intros (Hlo & Hl & Ht & Hr) [[= -> ->]|Hin]%elem_of_cons; [done|].
  destruct (IH _ _ _ Hr Hin) as (? & ? & ?). lia.
Qed.

(** The last range that starts at or before an address; every other range is above it or
    ends before it starts. *)
Lemma last_upto_spec a es : forall lo, ranges_from lo es ->
  match last_upto a es with
  | Some (b, e) => (b, e) ∈ es /\ b <= a /\ forall b' e', (b', e') ∈ es -> a < b' \/ (b' = b /\ e' = e) \/ b' + len e' <= b
  | None => forall b' e', (b', e') ∈ es -> a < b'
  end.
Proof.
  induction es as [|[b e] es IH]; intros lo; cbn [last_upto]; [by intros _ ? ? ?%elem_of_nil|]. intros (Hlo & Hl & Ht & Hr). specialize (IH _ Hr).
  assert (forall b' e', (b', e') ∈ es -> b + len e <= b') as Habove by (intros b' e' Hin; by destruct (ranges_in _ _ _ _ Hr Hin)).
  destruct (Z.leb_spec b a) as [Hba|Hba].
  - destruct (last_upto a es) as [[b1 e1]|].
    + destruct IH as (Hin & Hle & Hall). split; [by right|]. split; [done|]. intros b' e' [[= -> ->]|Hin']%elem_of_cons; [right; right; by eapply Habove | by apply Hall].
    + split; [by left|]. split; [done|]. intros b' e' [[= -> ->]|Hin']%elem_of_cons; [right; by left | left; by eapply IH].
  - intros b' e' [[= -> ->]|Hin']%elem_of_cons; [done|]. specialize (Habove _ _ Hin'). lia.
Qed.

Lemma first_from_spec a es : forall lo, ranges_from lo es ->
  match first_from a es with
  | Some (b, e) => (b, e) ∈ es /\ a <= b /\ forall b' e', (b', e') ∈ es -> b' < a \/ b <= b'
  | None => forall b' e', (b', e') ∈ es -> b' < a
  end.
Proof.
  induction es as [|[b e] es IH]; intros lo; cbn [first_from]; [by intros _ ? ? ?%elem_of_nil|]. intros (Hlo & Hl & Ht & Hr). specialize (IH _ Hr).
  assert (forall b' e', (b', e') ∈ es -> b + len e <= b') as Habove by (intros b' e' Hin; by destruct (ranges_in _ _ _ _ Hr Hin)).
  destruct (Z.leb_spec a b) as [Hab|Hab].
  - split; [by left|]. split; [done|]. intros b' e' [[= -> ->]|Hin']%elem_of_cons; [lia|]. specialize (Habove _ _ Hin'). lia.
  - destruct (first_from a es) as [[b1 e1]|].
    + destruct IH as (Hin & Hle & Hall). split; [by right|]. split; [done|]. intros b' e' [[= -> ->]|Hin']%elem_of_cons; [by left | by eapply Hall].
    + intros b' e' [[= -> ->]|Hin']%elem_of_cons; [done | by eapply IH].
Qed.

Lemma lookup_eq s addr : bus_ok s -> runs (lookup s addr) (fun r => match r with Some (base, d) => claims s addr base d | None => forall base d, ~ claims s addr base d end).
Proof.
  intros Hs. unfold lookup. pose proof (last_upto_spec addr _ _ Hs) as Hl. destruct (last_upto addr (entries s)) as [[b e]|].
  - destruct Hl as (Hin & Hle & Hall). destruct (ranges_in _ _ _ _ Hs Hin) as (_ & _ & Ht). unfold add_u. rewrite decide_True, bind_val by done. apply runs_val.
    destruct (Z.ltb_spec addr (b + len e)) as [Hlt|Hge]; [by exists e|]. intros base d (e' & Hin' & _ & Hr). destruct (Hall _ _ Hin') as [?|[[-> ->]|?]]; lia.
  - apply runs_val. intros base d (e' & Hin' & _ & Hr). specialize (Hl _ _ Hin'). lia.
Qed.

Lemma claims_unique s addr b1 d1 b2 d2 : bus_ok s -> claims s addr b1 d1 -> claims s addr b2 d2 -> b1 = b2 /\ d1 = d2.
Proof.
  intros Hs (e1 & H1 & <- & R1) (e2 & H2 & <- & R2). pose proof (last_upto_spec addr _ _ Hs) as Hl. destruct (last_upto addr (entries s)) as [[b e]|].
  - destruct Hl as (_ & Hle & Hall). destruct (Hall _ _ H1) as [?|[[-> ->]|?]], (Hall _ _ H2) as [?|[[-> ->]|?]]; (done || lia).
  - specialize (Hl _ _ H1). lia.
Qed.

Lemma insert_in base e es b x : (b, x) ∈ entries_insert base e es -> (b = base /\ x = e) \/ (b, x) ∈ es.
Proof.
  induction es as [|[b' e'] es IH]; cbn [entries_insert]; [intros [= -> ->]%list_elem_of_singleton; by left|]. intros Hin. repeat case_match.
  - apply elem_of_cons in Hin as [[= -> ->]|Hin]; [by left | by right].
  - apply elem_of_cons in Hin as [[= -> ->]|Hin]; [left; split; [lia | done] | right; by right].
  - apply elem_of_cons in Hin as [[= -> ->]|Hin]; [right; by left|]. destruct (IH Hin) as [?|?]; [by left | right; by right].
Qed.

Lemma in_insert base e es : ~ (exists x, (base, x) ∈ es) -> (base, e) ∈ entries_insert base e es /\ forall y, y ∈ es -> y ∈ entries_insert base e es.
Proof.
  induction es as [|[b' e'] es IH]; intros Hne; cbn [entries_insert]; [split; [by left | by intros y ?%elem_of_nil]|].
  destruct (Z.ltb_spec base b'); [split; [by left | by right]|]. destruct (Z.eqb_spec base b') as [->|]; [destruct Hne; exists e'; by left|].
  destruct IH as [IH1 IH2]; [intros [x Hx]; apply Hne; exists x; by right|]. split; [by right|]. intros y [->|Hy]%elem_of_cons; [by left | right; by apply IH2].
Qed.

Lemma insert_ranges base e es : forall lo, ranges_from lo es -> lo <= base -> 0 < len e -> base + len e < 2 ^ 64 ->
  (forall b x, (b, x) ∈ es -> base + len e <= b \/ b + len x <= base) -> ranges_from lo (entries_insert base e es).
Proof.
  induction es as [|[b x] es IH]; intros lo; cbn [entries_insert]; [done|]. intros (Hlo & Hl & Ht & Hr) Hb He Hte Hap. pose proof (Hap b x ltac:(by left)) as Hbx.
  destruct (Z.ltb_spec base b) as [Hlt|Hge]; [cbn; repeat split; try done; lia|]. rewrite (proj2 (Z.eqb_neq _ _)) by lia. cbn. split; [done|]. split; [done|]. split; [done|].
  apply IH; try done; [lia|]. intros b' x' Hin. apply Hap. by right.
Qed.

Lemma register_free s base l d : bus_ok s -> 0 <= base -> 0 < l -> base + l < 2 ^ 64 -> free_range s base l ->
  let s' := mkBus (entries_insert base (mkEntry l d) (entries s)) in
  bus_ok s' /\ forall b x, (b, x) ∈ entries s' <-> (b = base /\ x = mkEntry l d) \/ (b, x) ∈ entries s.
Proof.
  intros Hs Hb Hl Ht Hf. cbv zeta. split; [apply insert_ranges; try done; by cbn|]. intros b x. cbn [entries]. split; [apply insert_in|].
  assert (~ exists x, (base, x) ∈ entries s) as Hne by (intros [y Hy]; destruct (ranges_in _ _ _ _ Hs Hy) as (_ & ? & _); destruct (Hf _ _ Hy); lia).
  destruct (in_insert base (mkEntry l d) (entries s) Hne) as [Hi1 Hi2]. intros [[-> ->]|?]; [done | by apply Hi2].
Qed.

Lemma register_eq s base l d : bus_ok s -> 0 <= base -> 0 < l -> base + l < 2 ^ 64 ->
  runs (register s base l d) (fun r => match r with
    | inl s' => free_range s base l /\ bus_ok s' /\ (forall b x, (b, x) ∈ entries s' <-> (b = base /\ x = mkEntry l d) \/ (b, x) ∈ entries s)
    | inr err => err = Overlap base l /\ ~ free_range s base l end).
Proof.
  intros Hs Hb Hl Ht. unfold register. rewrite (proj2 (Z.eqb_neq _ 0)) by lia. cbv zeta. assert (saturating_add 64 base l = base + l) as -> by (unfold saturating_add, u_max; lia).
  pose proof (last_upto_spec base _ _ Hs) as Hp. pose proof (first_from_spec base _ _ Hs) as Hn.
  assert (exists t, (match last_upto base (entries s) with Some (pbase, pentry) => top ← add_u 64 pbase (len pentry); Val (base <? top) | None => Val false end) = Val t /\
    (t = true -> ~ free_range s base l) /\ (t = false -> forall b x, (b, x) ∈ entries s -> base < b \/ b + len x <= base)) as (t & -> & Ht1 & Ht2).
  { destruct (last_upto base (entries s)) as [[b e]|]; [|exists false; split; [done|]; split; [done|]; intros _ b x Hin; left; by eapply Hp].
    destruct Hp as (Hin & Hle & Hall). destruct (ranges_in _ _ _ _ Hs Hin) as (_ & Hpos & Htop). unfold add_u. rewrite decide_True, bind_val by done. eexists. split; [done|]. split.
    - intros Hlt%Z.ltb_lt Hf. destruct (Hf _ _ Hin); lia.
    - intros Hge%Z.ltb_ge b' x Hin'. destruct (Hall _ _ Hin') as [?|[[-> ->]|?]]; lia. }
  rewrite bind_val. destruct t; [apply runs_val; split; [done | by apply Ht1]|]. specialize (Ht2 eq_refl).
  set (above := match first_from base (entries s) with Some (nbase, _) => nbase <? base + l | None => false end).
  assert (above = true /\ ~ free_range s base l \/ above = false /\ free_range s base l) as [[-> Hno]|[-> Hf]]; [|by apply runs_val | apply runs_val; split; [exact Hf | by apply register_free]].
  subst above. assert ((forall b x, (b, x) ∈ entries s -> b < base \/ base + l <= b) -> free_range s base l) as Hside by (intros Hall b x Hin; destruct (Hall _ _ Hin), (Ht2 _ _ Hin); lia).
  destruct (first_from base (entries s)) as [[nb ne]|].
  - destruct Hn as (Hin & Hle & Hall). destruct (ranges_in _ _ _ _ Hs Hin) as (_ & Hpos & _). destruct (Z.ltb_spec nb (base + l)) as [Hlt|Hge].
    + left. split; [done|]. intros Hf. destruct (Hf _ _ Hin), (Ht2 _ _ Hin); lia.
    + right. split; [done|]. apply Hside. intros b x Hin'. destruct (Hall _ _ Hin'); lia.
  - right. split; [done|]. apply Hside. intros b x Hin. left. by eapply Hn.
Qed.

(** ** Properties *)

(** The bus dispatches by range.  A range is registered exactly when it is apart from all
    the others; then an address in it goes to its device, every other address goes where it
    went before, and the ranges stay apart.  A range that overlaps another is refused. *)
Theorem bus_dispatches_by_range s base l d : bus_ok s -> 0 <= base -> 0 < l -> base + l < 2 ^ 64 ->
  runs (register s base l d) (fun r => match r with
    | inl s' => free_range s base l /\ bus_ok s' /\ forall addr, lookup s' addr = (if (base <=? addr) && (addr <? base + l) then Val (Some (base, d)) else lookup s addr)
    | inr err => err = Overlap base l /\ ~ free_range s base l end).
Proof.
  intros Hs Hb Hl Ht. eapply runs_mono; [by apply register_eq|]. intros [s'|err]; [|done]. intros (Hf & Hs' & Hin). split; [done|]. split; [done|]. intros addr.
  destruct (lookup_eq s' addr Hs') as (r' & -> & Hr'). destruct (lookup_eq s addr Hs) as (r & -> & Hr).
  assert (forall b x, claims s' addr b x <-> (b = base /\ x = d /\ base <= addr < base + l) \/ claims s addr b x) as Hcl.
  { intros b x. split.
    - intros (e & He & <- & Hrange). apply Hin in He as [[-> ->]|He]; [by left | right; by exists e].
    - intros [(-> & -> & Hrange)|(e & He & <- & Hrange)]; [exists (mkEntry l d); split; [apply Hin; by left | done] | exists e; split; [apply Hin; by right | done]]. }
  destruct (Z.leb_spec base addr), (Z.ltb_spec addr (base + l)); cbn [andb].
  1: { assert (claims s' addr base d) as Hc by (apply Hcl; left; done). destruct r' as [[b x]|]; [|by destruct (Hr' base d)]. by destruct (claims_unique _ _ _ _ _ _ Hs' Hr' Hc) as [-> ->]. }
  all: destruct r' as [[b' x']|], r as [[b x]|]; try done; try (apply Hcl in Hr' as [?|Hr']; [lia|]).
  all: try (by destruct (Hr _ _ Hr')); try (destruct (Hr' b x); apply Hcl; by right).
  all: by destruct (claims_unique _ _ _ _ _ _ Hs Hr Hr') as [-> ->].
Qed.
End bus.

(** A range that ends at the top of the address space is accepted, but the next access at or
    above it computes its end, which overflows. *)
Lemma top_range_panics : exists s, register (bus_new (D := unit)) (2 ^ 64 - 512) 512 tt = Val (inl s) /\ lookup s (2 ^ 64 - 1) = Panic.
Proof. eexists. split; reflexivity. Qed.

(** ** Witnesses *)

Lemma bus_dispatches_by_range_witness : exists s, register (bus_new (D := bool)) 16 8 true = Val (inl s) /\ lookup s 20 = Val (Some (16, true)) /\ lookup s 24 = Val None.
Proof.
  destruct (bus_dispatches_by_range (bus_new (D := bool)) 16 8 true) as (r & E & Hr); [exact I | discriminate | reflexivity | reflexivity|].
  destruct r as [s|err]; [|discriminate E]. destruct Hr as (_ & _ & Hl). exists s. split; [exact E|]. split; [rewrite (Hl 20); reflexivity | rewrite (Hl 24); reflexivity].
Defined.
