(* ===== verification/TbVmm.v ===== *)
(** * The kernel's driver on the monitor: [tb-vmm/src/vmm.rs].

    The machine the monitor gives a guest, for the drivers of [Driver]: the guest's pages of the
    device window lead to the monitor's bus, where the console device of [VirtioMmio] claims
    slot 0; RAM is the memory the device walks, at its physical addresses; and frames come from
    a pool (the allocator of [Pmm]).  Then a channel session: the register writes, the rings
    and the two kicks of [chan_send_recv] carry the request to the peer and its reply back. *)
From Stdlib Require Import ZArith Lia.
From stdpp Require Import base numbers option tactics sets list.
From S2P Require Import Prelude Khash Inferwire InferChunks InferHost GuestMem VirtioMmio VirtioSpec DevBus Drv Driver.
Open Scope Z_scope.

Definition XPORT_MMIO_BASE : Z := 0xFEB00000.
Definition XPORT_MMIO_LEN : Z := 0x200.

(** The monitor's bus, with its one device. *)
Definition mmio_bus : Bus (D := unit) :=
  match register bus_new XPORT_MMIO_BASE XPORT_MMIO_LEN tt with Val (inl s) => s | _ => bus_new end.

(** The guest's page that holds an address; the latest mapping counts. *)
Fixpoint translate (pages : list (Z * Z)) (va : Z) : option Z :=
  match pages with
  | [] => None
  | (pva, pa) :: pages => if (pva <=? va) && (va <? pva + 0x1000) then Some (pa + (va - pva)) else translate pages va
  end.

Record Vm (M : Type) := mkVm {
  xport : VirtioMmio M;
  pages : list (Z * Z);
  pool : list Z;
}.
Arguments mkVm {M} xport pages pool.
Arguments xport {M} v.
Arguments pages {M} v.
Arguments pool {M} v.

Section machine.
Context {M : Type} `{GuestMemory M}.

Definition mmio_read (s : Vm M) (pa : Z) : option Z :=
  match bus_read mmio_bus (fun _ => dev_read (xport s)) pa (zrepeat 4 0) with Val data => Some (of_le data) | Panic => None end.
Definition mmio_write (fuel : nat) (s : Vm M) (pa v : Z) : option (Vm M) :=
  match bus_write mmio_bus (fun _ off data d => dev_write fuel d off data) pa (to_le 4 v) (xport s) with
  | Val (Some d) => Some (mkVm d (pages s) (pool s))
  | _ => None
  end.

(** [fuel] is for the device's loops over its queues. *)
Definition vm_handle (fuel : nat) (e : ev) (s : Vm M) : option (answer e * Vm M) :=
  match e with
  | MapPage va pa => Some (true, mkVm (xport s) ((va, pa) :: pages s) (pool s))
  | FrameAlloc => Some (match pool s with f :: fs => (Some f, mkVm (xport s) (pages s) fs) | [] => (None, s) end)
  | FrameFree f => Some (tt, mkVm (xport s) (pages s) (f :: pool s))
  | RegRead va => pa ← translate (pages s) va; v ← mmio_read s pa; Some (v, s)
  | RegWrite va v => pa ← translate (pages s) va; s ← mmio_write fuel s pa v; Some (tt, s)
  | RamRead n pa => b ← read_slice (mem (xport s)) pa (Z.of_nat n); Some (of_le b, s)
  | RamWrite n pa v => let '(m, ok) := write_slice (mem (xport s)) pa (to_le n v) in if ok : bool then Some (tt, mkVm (set_mem (xport s) m) (pages s) (pool s)) else None
  | DmaFence => Some (tt, s)
  end.
End machine.

(** ** A frame as its bytes *)

Definition splice (o : Z) (b F : list Z) : list Z := ztake o F ++ b ++ zdrop (o + zlen b) F.

Lemma splice_length o b F : 0 <= o -> o + zlen b <= zlen F -> zlen (splice o b F) = zlen F.
Proof. intros Ho Hl. unfold splice. pose proof (zlen_nonneg b). zl. Qed.

Lemma splice_lookup o b F i : 0 <= o -> o + zlen b <= zlen F -> 0 <= i ->
  splice o b F !! Z.to_nat i = if (o <=? i) && (i <? o + zlen b) then b !! Z.to_nat (i - o) else F !! Z.to_nat i.
Proof. intros Ho Hl Hi. exact (ram_write_lookup (mkRam F) o b i Ho Hl Hi). Qed.

Lemma zsub_lookup off n (F : list Z) i : 0 <= off -> 0 <= i < n -> zsub off n F !! Z.to_nat i = F !! Z.to_nat (off + i).
Proof. intros Ho Hi. unfold zsub, ztake, zdrop. rewrite lookup_take_lt by lia. rewrite lookup_drop. f_equal. lia. Qed.

Lemma zsub_ext off n (F G : list Z) : 0 <= off -> 0 <= n -> (forall i, 0 <= i < n -> F !! Z.to_nat (off + i) = G !! Z.to_nat (off + i)) -> zsub off n F = zsub off n G.
Proof.
  intros Ho Hn Hs. apply list_eq. intros i. destruct (decide (Z.of_nat i < n)) as [Hlt|Hge].
  - rewrite <- (Nat2Z.id i), !zsub_lookup by lia. apply Hs. lia.
  - unfold zsub, ztake. rewrite !lookup_take_ge by lia. done.
Qed.

Lemma sub_splice_off o b F off n : 0 <= o -> o + zlen b <= zlen F -> 0 <= off -> 0 <= n -> off + n <= o \/ o + zlen b <= off -> zsub off n (splice o b F) = zsub off n F.
Proof.
  intros Ho Hl Hoff Hn Hd. apply zsub_ext; [done | done|]. intros i Hi. rewrite splice_lookup by lia. destruct (Z.leb_spec o (off + i)), (Z.ltb_spec (off + i) (o + zlen b)); cbn [andb]; (done || lia).
Qed.

Lemma sub_splice_at o b F n : 0 <= o -> o + zlen b <= zlen F -> n = zlen b -> zsub o n (splice o b F) = b.
Proof.
  intros Ho Hl ->. unfold splice. apply zsub_app_mid; [zl | done].
Qed.

Lemma sub_zrepeat off n k (x : Z) : 0 <= off -> 0 <= n -> off + n <= k -> zsub off n (zrepeat k x) = zrepeat n x.
Proof.
  intros Ho Hn Hk. unfold zsub, ztake, zdrop, zrepeat. rewrite drop_replicate, take_replicate. f_equal. lia.
Qed.

Lemma splice_nil o F : splice o [] F = F.
Proof. unfold splice. cbn [app]. rewrite zlen_nil, Z.add_0_r. apply ztake_zdrop. Qed.

Lemma splice_next o b c F : 0 <= o -> o + zlen b + zlen c <= zlen F -> splice (o + zlen b) c (splice o b F) = splice o (b ++ c) F.
Proof.
  intros Ho Hl. pose proof (zlen_nonneg b). pose proof (zlen_nonneg c). unfold splice. rewrite ztake_app_ge by zl. rewrite zlen_ztake, Z.max_r, Z.min_l by lia. rewrite ztake_app_eq by lia.
  rewrite zdrop_app_ge by zl. rewrite zlen_ztake, Z.max_r, Z.min_l by lia. rewrite zdrop_app_ge, zdrop_zdrop, zlen_app by lia. rewrite <- !app_assoc. do 4 f_equal. lia.
Qed.

Lemma splice_then o o' b c F : 0 <= o -> o' = o + zlen b -> o + zlen b + zlen c <= zlen F -> splice o' c (splice o b F) = splice o (b ++ c) F.
Proof. intros Ho ->. by apply splice_next. Qed.

Lemma splice_all b F : zlen b = zlen F -> splice 0 b F = b.
Proof. intros E. unfold splice. rewrite zdrop_all by lia. by rewrite app_nil_r. Qed.

Lemma zrepeat_app {A} n k (x : A) : 0 <= n -> 0 <= k -> zrepeat n x ++ zrepeat k x = zrepeat (n + k) x.
Proof. intros Hn Hk. unfold zrepeat. by rewrite <- replicate_add, Z2Nat.inj_add. Qed.

(** A frame after writes to it, the last one last. *)
Definition patch (ws : list (Z * list Z)) (F : list Z) : list Z := fold_left (fun F w => splice (fst w) (snd w) F) ws F.
Definition inside (ws : list (Z * list Z)) : Prop := Forall (fun w => 0 <= fst w /\ fst w + zlen (snd w) <= 4096) ws.
Definition clear_of (off n : Z) (ws : list (Z * list Z)) : Prop := Forall (fun w => off + n <= fst w \/ fst w + zlen (snd w) <= off) ws.

Lemma patch_snoc ws o b F : patch (ws ++ [(o, b)]) F = splice o b (patch ws F).
Proof. unfold patch. by rewrite fold_left_app. Qed.

Lemma patch_length ws : forall F, inside ws -> zlen F = 4096 -> zlen (patch ws F) = 4096.
Proof.
  induction ws as [|[o b] ws IH]; intros F Hin HF; [done|]. apply Forall_cons in Hin as [[Ho Hl] Hin]. cbn [fst snd] in *. apply IH; [done|]. cbn [fst snd]. rewrite splice_length; lia.
Qed.

Lemma sub_patch_clear off n ws : forall F, inside ws -> zlen F = 4096 -> 0 <= off -> 0 <= n -> clear_of off n ws -> zsub off n (patch ws F) = zsub off n F.
Proof.
  induction ws as [|[o b] ws IH]; intros F Hin HF Ho Hn Hc; [done|]. apply Forall_cons in Hin as [[Hob Hl] Hin]. apply Forall_cons in Hc as [Hd Hc]. cbn [fst snd] in *. unfold patch in *. cbn [fold_left fst snd].
  rewrite IH by (done || rewrite splice_length; lia). apply sub_splice_off; lia.
Qed.

(** What was written is read back, if nothing later touched it. *)
Lemma sub_patch_at off n ws1 b ws2 F : inside (ws1 ++ (off, b) :: ws2) -> zlen F = 4096 -> n = zlen b -> clear_of off n ws2 -> zsub off n (patch (ws1 ++ (off, b) :: ws2) F) = b.
Proof.
  intros Hin HF -> Hc. apply Forall_app in Hin as [Hin1 [[Ho Hl] Hin2]%Forall_cons]. cbn [fst snd] in *. pose proof (patch_length ws1 F Hin1 HF) as H1.
  unfold patch at 1. rewrite fold_left_app. cbn [fold_left fst snd]. fold (patch ws1 F). fold (patch ws2 (splice off b (patch ws1 F))). pose proof (zlen_nonneg b).
  rewrite sub_patch_clear by (done || rewrite splice_length; lia). apply sub_splice_at; lia.
Qed.

Lemma sub_patch_nth i ws off b n F : ws !! i = Some (off, b) -> inside ws -> zlen F = 4096 -> n = zlen b -> clear_of off n (drop (S i) ws) -> zsub off n (patch ws F) = b.
Proof. intros Hi Hin HF Hn Hc. rewrite <- (take_drop_middle _ _ _ Hi) in Hin |- *. by apply sub_patch_at. Qed.

(** A descriptor's bytes. *)
Definition desc_bytes (addr len flags next : Z) : list Z := to_le 8 addr ++ to_le 4 len ++ to_le 2 flags ++ to_le 2 next.

Lemma desc_bytes_length a l fl n : zlen (desc_bytes a l fl n) = 16.
Proof. unfold desc_bytes. by rewrite !zlen_app, !zlen_to_le. Qed.

Section frame.
Context {M : Type} `{GuestMemory M}.
Implicit Types (m : M).

(** The bytes of memory from [a] on. *)
Definition holds_at m (a : Z) (F : list Z) : Prop := forall i, 0 <= i < zlen F -> byte_at m (a + i) = F !! Z.to_nat i.

Lemma holds_read m a F o n : holds_at m a F -> 0 <= o -> 0 < n -> o + n <= zlen F -> read_slice m (a + o) n = Some (zsub o n F).
Proof.
  intros Hh Ho Hn Hl. apply read_slice_iff; [done|]. split; [zl|]. intros i Hi. rewrite zsub_lookup by lia. rewrite <- Z.add_assoc. apply Hh. lia.
Qed.

Lemma holds_mapped m a F : holds_at m a F -> mapped m a (zlen F).
Proof. intros Hh i Hi. rewrite Hh by done. apply lookup_lt_is_Some_2. unfold zlen in Hi. lia. Qed.

Lemma holds_write m a F o b : holds_at m a F -> 0 <= o -> o + zlen b <= zlen F -> 0 < zlen b -> bytes b ->
  exists m', write_slice m (a + o) b = (m', true) /\ holds_at m' a (splice o b F) /\ wrote m m' [(a + o, zlen b)].
Proof.
  intros Hh Ho Hl Hb Hbb. destruct (write_slice_mapped m (a + o) b Hbb Hb) as [m' Hm'].
  { intros i Hi. rewrite <- Z.add_assoc. apply (holds_mapped _ _ _ Hh). lia. }
  exists m'. split; [done|]. split.
  - intros i Hi. rewrite splice_length in Hi by lia. rewrite splice_lookup by lia. destruct (Z.leb_spec o i), (Z.ltb_spec i (o + zlen b)); cbn [andb].
    1: { replace (a + i) with (a + o + (i - o)) by lia. apply (write_slice_ok m (a + o) b m'); [done | done | lia]. }
    all: rewrite (write_slice_kept m (a + o) b m' true) by (done || lia); apply Hh; lia.
  - split; [|intros x k; by eapply write_slice_keeps_mapped]. intros x k [Hs _]%Forall_cons. eapply write_slice_same; [done | done|]. unfold sep in Hs. cbn [fst snd] in Hs. lia.
Qed.

Lemma holds_same m m' a F : holds_at m a F -> same_on m m' a (zlen F) -> holds_at m' a F.
Proof. intros Hh Hs i Hi. by rewrite Hs, Hh. Qed.

Lemma read_desc_holds m a F q o addr l fl nx : holds_at m a F -> desc q = a + o -> 0 <= o -> o + 16 <= zlen F -> zsub o 16 F = desc_bytes addr l fl nx ->
  is_u64 addr -> is_u32 l -> is_u16 fl -> is_u16 nx -> read_desc m q 0 = Some (addr, l, fl, nx).
Proof.
  intros Hh Hq Ho Hl Hs Ha Hll Hfl Hnx. unfold read_desc, read_u64, read_u32, read_u16. rewrite Hq, Z.mul_0_r, Z.add_0_r.
  assert (forall k n b, 0 <= k -> 0 < n -> k + n <= 16 -> zsub k n (desc_bytes addr l fl nx) = b -> read_slice m (a + o + k) n = Some b) as Hr.
  { intros k n b Hk Hn Hkn Hb. rewrite <- Z.add_assoc, (holds_read m a F) by (done || lia). f_equal. rewrite <- Hb, <- Hs, zsub_zsub by lia. done. }
  rewrite <- (Z.add_0_r (a + o)) at 1. rewrite (Hr 0 8 (to_le 8 addr)), (Hr 8 4 (to_le 4 l)), (Hr 12 2 (to_le 2 fl)), (Hr 14 2 (to_le 2 nx)) by (lia || reflexivity).
  cbn [mbind option_bind]. by rewrite !of_to_le_id.
Qed.

Lemma holds_bytes m a F : holds_at m a F -> bytes F.
Proof.
  intros Hh. apply Forall_lookup. intros i x Hi. specialize (Hh (Z.of_nat i)). rewrite Nat2Z.id, Hi in Hh. eapply byte_at_u8, Hh. apply lookup_lt_Some in Hi. unfold zlen. lia.
Qed.

Lemma holds_u16 m a F o v : holds_at m a F -> 0 <= o -> o + 2 <= zlen F -> read_u16 m (a + o) = Some v -> of_le (zsub o 2 F) = v.
Proof. intros Hh Ho Hl. unfold read_u16. rewrite (holds_read m a F o 2) by (done || lia). by intros [= <-]. Qed.
Lemma holds_u32 m a F o v : holds_at m a F -> 0 <= o -> o + 4 <= zlen F -> read_u32 m (a + o) = Some v -> of_le (zsub o 4 F) = v.
Proof. intros Hh Ho Hl. unfold read_u32. rewrite (holds_read m a F o 4) by (done || lia). by intros [= <-]. Qed.

(** Writes inside a range already written. *)
Lemma wrote_within m m1 m2 a n fp : wrote m m1 [(a, n)] -> wrote m1 m2 fp -> Forall (fun s => a <= fst s /\ fst s + snd s <= a + n) fp -> wrote m m2 [(a, n)].
Proof.
  intros H1 H2 Hin. destruct (wrote_trans _ _ _ _ _ H1 H2) as [W1 W2]. split; [|done]. intros b k Hs. apply W1. pose proof Hs as [Hs1 _]%Forall_cons. apply Forall_app_2; [done|].
  eapply Forall_impl; [exact Hin|]. intros [c l] [Hc Hl]. unfold sep in *. cbn [fst snd] in *. lia.
Qed.

Lemma delivered_single m h a l data us : delivered m [(h, [(a, l)])] data us ->
  (data = [] /\ us = []) \/ (data <> [] /\ us = [(h, zlen data)] /\ read_slice m a (zlen data) = Some data).
Proof.
  intros Hd. inversion Hd as [|h' segs es data' rest us' Hne Htot Hrest Hf Hr]; subst; [by left|]. right. inversion Hr; subst. rewrite app_nil_r. split; [done|]. split; [done|].
  cbn in Htot. destruct Hf as [->|[Hf _]]; [done|]. rewrite Z.min_r in Hf by lia. by rewrite ztake_all in Hf by lia.
Qed.

(** What mapped memory holds. *)
Lemma mapped_holds m a n : 0 < n -> mapped m a n -> exists F, zlen F = n /\ holds_at m a F.
Proof. intros Hn Hm. destruct (read_slice_mapped m a n Hn Hm) as [F HF]. apply read_slice_ok in HF as [Hl Hb]; [|lia]. exists F. split; [done|]. intros i Hi. apply Hb. lia. Qed.
End frame.

(** ** Steps of the driver on the machine *)

Section session.
Context {M : Type} `{GuestMemory M} (dfuel : nat).
#[local] Instance vm_machine : Machine (Vm M) := vm_handle dfuel.

Definition triple {A} (P : Vm M -> Prop) (p : drv A) (Q : A -> Vm M -> Prop) : Prop := forall s, P s -> exists a s', interp p s = Some (a, s') /\ Q a s'.

Lemma triple_bind {A B} P (p : drv A) (k : A -> drv B) Q R : triple P p Q -> (forall a, triple (Q a) (k a) R) -> triple P (p ≫= k) R.
Proof. intros Hp Hk s Hs. destruct (Hp s Hs) as (a & s1 & E & Hq). destruct (Hk a s1 Hq) as (b & s2 & E2 & Hr). exists b, s2. split; [by rewrite interp_bind, E | done]. Qed.
Lemma triple_ret {A} (a : A) P (Q : A -> Vm M -> Prop) : (forall s, P s -> Q a s) -> triple P (Ret a) Q.
Proof. intros HP s Hs. exists a, s. split; [done | by apply HP]. Qed.
Lemma triple_pre {A} (P P' : Vm M -> Prop) (p : drv A) Q : (forall s, P s -> P' s) -> triple P' p Q -> triple P p Q.
Proof. intros HP Hp s Hs. by apply Hp, HP. Qed.

Context (f : Z) (m0 : M) (pgs : list (Z * Z)) (free : list Z).
Context (Hframe : 0 <= f /\ f + 4096 <= 2 ^ 64).
Context (Hwindow : forall off, 0 <= off < XPORT_MMIO_LEN -> translate pgs (VIRTIO_WINDOW_VA + off) = Some (SLOT_BASE_PA + off)).

(** The device is as [d] says but for its memory, whose frame holds [F]; all else in memory is
    as at the beginning. *)
Definition shares (d : VirtioMmio M) (F : list Z) (s : Vm M) : Prop :=
  exists m, s = mkVm (set_mem d m) pgs free /\ holds_at m f F /\ zlen F = 4096 /\ wrote m0 m [(f, 4096)].

Lemma claims_window off : 0 <= off < XPORT_MMIO_LEN -> lookup mmio_bus (SLOT_BASE_PA + off) = Val (Some (SLOT_BASE_PA, tt)).
Proof.
  intros Ho. unfold lookup. change (entries mmio_bus) with [(SLOT_BASE_PA, mkEntry XPORT_MMIO_LEN tt)]. cbn [last_upto]. rewrite (proj2 (Z.leb_le _ _)) by lia.
  change (add_u 64 SLOT_BASE_PA (len (mkEntry XPORT_MMIO_LEN tt))) with (Val (SLOT_BASE_PA + XPORT_MMIO_LEN)). rewrite bind_val, (proj2 (Z.ltb_lt _ _)) by lia. done.
Qed.

Lemma reg_write_triple off v d d' F : 0 <= off < XPORT_MMIO_LEN -> Z.land off 3 = 0 -> is_u32 v ->
  (forall m, write_reg dfuel (set_mem d m) off v = Val (Some (set_mem d' m))) -> triple (shares d F) (reg_write VIRTIO_WINDOW_VA off v) (fun _ => shares d' F).
Proof.
  intros Ho Ha Hv Hw s (m & -> & Hm). exists tt, (mkVm (set_mem d' m) pgs free). split; [|by exists m]. unfold reg_write, ask. cbn [interp]. unfold handle, vm_machine, vm_handle. cbn [pages].
  rewrite (Hwindow off Ho). cbn [mbind option_bind]. unfold mmio_write, bus_write. rewrite (claims_window off Ho), bind_val. cbn [xport]. unfold dev_write. rewrite zlen_to_le. change (Z.of_nat 4 =? 4) with true.
  replace (SLOT_BASE_PA + off - SLOT_BASE_PA) with off by lia. rewrite Ha. cbn [andb Z.eqb]. rewrite of_to_le_id by done. by rewrite Hw.
Qed.

Lemma reg_read_triple off d F : 0 <= off < XPORT_MMIO_LEN -> Z.land off 3 = 0 -> is_u32 (read_reg d off) ->
  triple (shares d F) (reg_read VIRTIO_WINDOW_VA off) (fun v s => v = read_reg d off /\ shares d F s).
Proof.
  intros Ho Ha Hv s (m & -> & Hm). exists (read_reg d off), (mkVm (set_mem d m) pgs free). split; [|split; [done | by exists m]]. unfold reg_read, ask. cbn [interp]. unfold handle, vm_machine, vm_handle. cbn [pages].
  rewrite (Hwindow off Ho). cbn [mbind option_bind]. unfold mmio_read, bus_read. rewrite (claims_window off Ho), bind_val. cbn [xport]. unfold dev_read. change (zlen (zrepeat 4 0) =? 4) with true.
  replace (SLOT_BASE_PA + off - SLOT_BASE_PA) with off by lia. rewrite Ha. cbn [andb Z.eqb]. rewrite of_to_le_id by done. done.
Qed.

Lemma ram_write_triple n o v d F : (0 < n)%nat -> 0 <= o -> o + Z.of_nat n <= 4096 -> triple (shares d F) (ask (RamWrite n (f + o) v)) (fun _ => shares d (splice o (to_le n v) F)).
Proof.
  intros Hn Ho Hl s (m & -> & Hh & HF & Hw). destruct (holds_write m f F o (to_le n v)) as (m' & E & Hh' & Hw'); [done | done | rewrite zlen_to_le; lia | rewrite zlen_to_le; lia | apply to_le_bytes|].
  rewrite zlen_to_le in Hw'. exists tt, (mkVm (set_mem d m') pgs free). split; [cbn; by rewrite E|]. exists m'. split; [done|]. split; [done|]. split; [rewrite splice_length; rewrite ?zlen_to_le; lia|].
  apply (wrote_trans _ _ _ _ _ Hw) in Hw' as [W1 W2]. split; [|done]. intros a k [Hs _]%Forall_cons. apply W1. apply Forall_cons. split; [done|]. apply Forall_singleton. unfold sep in *. cbn [fst snd] in *. lia.
Qed.

Lemma ram_read_triple n o d F : (0 < n)%nat -> 0 <= o -> o + Z.of_nat n <= 4096 -> triple (shares d F) (ask (RamRead n (f + o))) (fun v s => v = of_le (zsub o (Z.of_nat n) F) /\ shares d F s).
Proof.
  intros Hn Ho Hl s (m & -> & Hh & HF & Hw). eexists _, (mkVm (set_mem d m) pgs free). split; [cbn; rewrite (holds_read m f F) by (done || lia); reflexivity|]. split; [done | by exists m].
Qed.

Lemma fence_triple P : triple P dma_fence (fun _ => P).
Proof. intros s Hs. by exists tt, s. Qed.

Lemma zero_words_triple d n : forall o F, 0 <= o -> o + 8 * Z.of_nat n <= 4096 -> zlen F = 4096 ->
  triple (shares d F) (zero_words n (f + o)) (fun _ => shares d (splice o (zrepeat (8 * Z.of_nat n) 0) F)).
Proof.
  induction n as [|n IH]; intros o F Ho Hl HF; [apply triple_ret; intros s Hs; by rewrite splice_nil|]. cbn [zero_words].
  eapply triple_bind; [apply ram_write_triple; lia|]. intros []. replace (f + o + 8) with (f + (o + 8)) by lia.
  assert (splice o (zrepeat (8 * Z.of_nat (S n)) 0) F = splice (o + 8) (zrepeat (8 * Z.of_nat n) 0) (splice o (to_le 8 0) F)) as ->.
  { change (o + 8) with (o + zlen (to_le 8 0)). rewrite splice_next; [|done|rewrite zlen_zrepeat; change (zlen (to_le 8 0)) with 8; lia]. f_equal. change (to_le 8 0) with (zrepeat 8 0).
    rewrite zrepeat_app by lia. f_equal. lia. }
  apply IH; [lia | lia | rewrite splice_length; change (zlen (to_le 8 0)) with 8; lia].
Qed.

Lemma zero_frame_triple d F : zlen F = 4096 -> triple (shares d F) (zero_frame f) (fun _ => shares d (zrepeat 4096 0)).
Proof.
  intros HF. pose proof (zero_words_triple d 512 0 F) as Hz. change (8 * Z.of_nat 512) with 4096 in Hz. rewrite Z.add_0_r, splice_all in Hz by (rewrite HF; reflexivity). by apply Hz.
Qed.

Lemma stage_triple d l : forall o F, bytes l -> 0 <= o -> o + zlen l <= 4096 -> zlen F = 4096 -> triple (shares d F) (stage_bytes (f + o) l) (fun _ => shares d (splice o l F)).
Proof.
  induction l as [|b l IH]; intros o F Hb Ho Hl HF; [apply triple_ret; intros s Hs; by rewrite splice_nil|]. apply Forall_cons in Hb as [Hb Hbs]. rewrite zlen_cons in Hl. pose proof (zlen_nonneg l). cbn [stage_bytes].
  eapply triple_bind; [apply ram_write_triple; lia|]. intros []. replace (f + o + 1) with (f + (o + 1)) by lia.
  assert (to_le 1 b = [b]) as -> by (change (to_le 1 b) with [b `mod` 256]; by rewrite Z.mod_small). change (b :: l) with ([b] ++ l). change (o + 1) with (o + zlen [b]). rewrite <- splice_next by (change (zlen [b]) with 1; lia).
  apply IH; [done | change (zlen [b]) with 1; lia | change (zlen [b]) with 1; lia | rewrite splice_length; change (zlen [b]) with 1; lia].
Qed.

Lemma read_bytes_triple d F n : forall o, 0 <= o -> o + Z.of_nat n <= 4096 -> zlen F = 4096 -> bytes F ->
  triple (shares d F) (read_bytes n (f + o)) (fun l s => l = zsub o (Z.of_nat n) F /\ shares d F s).
Proof.
  induction n as [|n IH]; intros o Ho Hl HF Hb; [by apply triple_ret|]. cbn [read_bytes]. eapply triple_bind; [apply ram_read_triple; lia|]. intros b.
  apply (triple_pre _ (fun s => shares d F s /\ b = of_le (zsub o 1 F))); [by intros s [? ?]|]. intros s [Hs Eb]. replace (f + o + 1) with (f + (o + 1)) by lia.
  revert s Hs. change (triple (shares d F) (l ← read_bytes n (f + (o + 1)); Ret (b :: l)) (fun l s => l = zsub o (Z.of_nat (S n)) F /\ shares d F s)).
  eapply triple_bind; [apply IH; (done || lia)|]. intros l. apply triple_ret. intros s [-> Hs]. split; [|done].
  destruct (lookup_lt_is_Some_2 F (Z.to_nat o)) as [x Hx]; [unfold zlen in HF; lia|].
  assert (zsub o 1 F = [x]) as E1. { unfold zsub, ztake, zdrop. by rewrite (drop_S _ _ _ Hx). }
  assert (b = x) as ->. { rewrite Eb, E1. change (of_le [x]) with (x + 256 * 0). lia. }
  unfold zsub, ztake, zdrop in *. rewrite (drop_S _ _ _ Hx). replace (Z.to_nat (Z.of_nat (S n))) with (S (Z.to_nat (Z.of_nat n))) by lia. cbn [take]. do 3 f_equal. lia.
Qed.

Lemma poll_triple d F o seen : 0 <= o -> o + 2 <= 4096 -> triple (shares d F) (poll (f + o) seen) (fun ok s => ok = negb (of_le (zsub o 2 F) =? seen) /\ shares d F s).
Proof.
  intros Ho Hl. unfold poll. assert (0 < Z.to_nat POLL_CAP)%nat as Hn by (unfold POLL_CAP; lia). revert Hn. generalize (Z.to_nat POLL_CAP). intros n Hn.
  induction n as [|n IH]; [lia|]. cbn [poll_n]. eapply triple_bind; [apply ram_read_triple; lia|]. intros v. cbn beta. change (Z.of_nat 2) with 2. destruct (Z.eqb_spec v seen) as [->|Hne].
  - destruct n as [|n].
    + apply triple_ret. intros s [<- Hs]. by rewrite Z.eqb_refl.
    + eapply triple_pre; [|apply IH; lia]. by intros s [_ Hs].
  - apply triple_ret. intros s [-> Hs]. split; [|done]. by rewrite (proj2 (Z.eqb_neq _ _)).
Qed.

#[local] Opaque poll.

(** *** Setting the device up *)

Abbreviation W := VIRTIO_WINDOW_VA.
Abbreviation console := (mkDev m0).

Lemma know {A B} (a v : A) P (k : drv B) (Q : B -> Vm M -> Prop) : (a = v -> triple P k Q) -> triple (fun s => a = v /\ P s) k Q.
Proof. intros Hk s [E Hs]. by apply Hk. Qed.

(** A register write that leaves the device as [d], and a register read of [d]. *)
Ltac leaves d := eapply triple_bind; [apply (reg_write_triple _ _ _ d); [by vm_compute | reflexivity | try (by vm_compute) | reflexivity]|]; intros [].
Ltac reads := eapply triple_bind; [apply reg_read_triple; [by vm_compute | reflexivity | by vm_compute]|]; intros ?; apply know; intros ->.

Lemma begin_init_triple d F : triple (shares d F) (begin_init W) (fun _ => shares (console (host d) 3 0 0 [0; 0] 0 [queue_default; queue_default]) F).
Proof.
  unfold begin_init. leaves (reset d). leaves (console (host d) 1 0 0 [0; 0] 0 [queue_default; queue_default]). apply reg_write_triple; [by vm_compute | reflexivity | by vm_compute | reflexivity].
Qed.

Lemma negotiate_triple h qs F : triple (shares (console h 3 0 0 [0; 0] 0 qs) F) (negotiate W) (fun ok s => ok = true /\ shares (console h 11 1 1 [0; 1] 0 qs) F s).
Proof.
  unfold negotiate. leaves (console h 3 1 0 [0; 0] 0 qs). reads.
  change (Z.land (read_reg _ _) Driver.VIRTIO_F_VERSION_1_HI =? 0) with false. cbv iota.
  leaves (console h 3 1 0 [0; 0] 0 qs). leaves (console h 3 1 0 [0; 0] 0 qs). leaves (console h 3 1 1 [0; 0] 0 qs). leaves (console h 3 1 1 [0; 1] 0 qs). leaves (console h 11 1 1 [0; 1] 0 qs).
  reads. by apply triple_ret.
Qed.

Lemma address_pair a : is_u64 a -> set_addr (set_addr 0 (wrap 32 a) false) (wrap 32 (Z.shiftr a 32)) true = a.
Proof.
  intros Ha. unfold in_u in Ha. pose proof (Z.mod_pos_bound a (2 ^ 32) ltac:(lia)) as Hm. assert (0 <= a / 2 ^ 32 < 2 ^ 32) as Hd by (split; [apply Z.div_pos; lia | apply Z.div_lt_upper_bound; lia]).
  rewrite Z.shiftr_div_pow2 by lia. rewrite (wrap_small 32 (a / 2 ^ 32)) by done. rewrite (set_addr_eq 0) by first [unfold in_u; lia | apply wrap_in_u; lia]. rewrite Z.div_0_l, Z.mul_0_l, Z.add_0_l by done. unfold wrap.
  rewrite set_addr_eq by (unfold in_u; lia). rewrite Z.mod_mod by lia. pose proof (Z.div_mod a (2 ^ 32) ltac:(lia)). lia.
Qed.

(** The queue between [l] and [qs] is selected and set up while the others are as they were. *)
Ltac half q Hstep Hsel := eapply triple_bind; [apply (Hstep _ _ _ q); [by vm_compute | reflexivity | try done; by vm_compute | intros d E1 E2; exact (f_equal (fun x => Val (Some x)) (Hsel d _ _ E1 E2))]|]; intros [].

Lemma set_up_queue_triple h st l qs desc avail used F : zlen l + 1 + zlen qs = NUM_QUEUES -> is_u64 desc -> is_u64 avail -> is_u64 used -> forall sel,
  triple (shares (console h st 1 1 [0; 1] sel (l ++ queue_default :: qs)) F) (set_up_queue W (zlen l) CHAN_Q_SIZE desc avail used)
    (fun ok s => ok = true /\ shares (console h st 1 1 [0; 1] (zlen l) (l ++ mkQueue 4 false desc avail used 0 0 :: qs)) F s).
Proof.
  intros Hn Hd Ha Hu sel. unfold set_up_queue. pose proof (zlen_nonneg l). pose proof (zlen_nonneg qs). unfold NUM_QUEUES in Hn.
  assert (forall q, (l ++ q :: qs) !! Z.to_nat (zlen l) = Some q) as Hat by (intros q; unfold zlen; rewrite Nat2Z.id; by rewrite list_lookup_middle).
  assert (forall q q', <[Z.to_nat (zlen l) := q']> (l ++ q :: qs) = l ++ q' :: qs) as Hins by (intros q q'; unfold zlen; rewrite Nat2Z.id; by rewrite insert_app_r_alt, Nat.sub_diag by lia).
  assert (forall off v q q', 0 <= off < XPORT_MMIO_LEN -> Z.land off 3 = 0 -> is_u32 v -> (forall d, queue_sel d = zlen l -> queues d = l ++ q :: qs -> write_reg dfuel d off v = Val (Some (set_queues d (l ++ q' :: qs)))) ->
    triple (shares (console h st 1 1 [0; 1] (zlen l) (l ++ q :: qs)) F) (reg_write W off v) (fun _ => shares (console h st 1 1 [0; 1] (zlen l) (l ++ q' :: qs)) F)) as Hstep.
  { intros off v q q' Ho Hal Hv Hw. apply reg_write_triple; [done | done | done|]. intros m. by rewrite Hw. }
  assert (forall (d : VirtioMmio M) fq q, queue_sel d = zlen l -> queues d = l ++ q :: qs -> with_selq d fq = set_queues d (l ++ fq q :: qs)) as Hsel.
  { intros d fq q E1 E2. unfold with_selq, selq. by rewrite E1, E2, Hat, Hins. }
  eapply triple_bind; [apply (reg_write_triple _ _ _ (console h st 1 1 [0; 1] (zlen l) (l ++ queue_default :: qs))); [by vm_compute | reflexivity | unfold in_u; lia | reflexivity]|]. intros [].
  eapply triple_bind; [apply reg_read_triple; [by vm_compute | reflexivity|]|]; [cbn; rewrite (proj2 (Z.ltb_lt _ _)) by (unfold NUM_QUEUES; lia); by vm_compute|]. intros n. apply know. intros ->.
  assert (read_reg (console h st 1 1 [0; 1] (zlen l) (l ++ queue_default :: qs)) Driver.R_QUEUE_NUM_MAX = 4) as -> by (cbn; by rewrite (proj2 (Z.ltb_lt _ _)) by (unfold NUM_QUEUES; lia)).
  change (4 =? 0) with false. cbv iota. assert (forall a, is_u32 (wrap 32 a)) as Hw32 by (intros a; apply wrap_in_u; lia).
  assert (forall a b c, triple (shares (console h st 1 1 [0; 1] (zlen l) (l ++ mkQueue 4 false a b c 0 0 :: qs)) F) (Ret true)
    (fun ok s => ok = true /\ shares (console h st 1 1 [0; 1] (zlen l) (l ++ mkQueue 4 false a b c 0 0 :: qs)) F s)) as Hend by (intros; by apply triple_ret).
  specialize (Hend desc avail used).
  half (mkQueue 4 false 0 0 0 0 0) Hstep Hsel. half (mkQueue 4 false (set_addr 0 (wrap 32 desc) false) 0 0 0 0) Hstep Hsel.
  half (mkQueue 4 false (set_addr (set_addr 0 (wrap 32 desc) false) (wrap 32 (Z.shiftr desc 32)) true) 0 0 0 0) Hstep Hsel. rewrite (address_pair desc Hd).
  half (mkQueue 4 false desc (set_addr 0 (wrap 32 avail) false) 0 0 0) Hstep Hsel.
  half (mkQueue 4 false desc (set_addr (set_addr 0 (wrap 32 avail) false) (wrap 32 (Z.shiftr avail 32)) true) 0 0 0) Hstep Hsel. rewrite (address_pair avail Ha).
  half (mkQueue 4 false desc avail (set_addr 0 (wrap 32 used) false) 0 0) Hstep Hsel.
  half (mkQueue 4 false desc avail (set_addr (set_addr 0 (wrap 32 used) false) (wrap 32 (Z.shiftr used 32)) true) 0 0) Hstep Hsel. rewrite (address_pair used Hu).
  exact Hend.
Qed.

Lemma make_ready_triple h st l qs q F : zlen l + 1 + zlen qs = NUM_QUEUES -> triple (shares (console h st 1 1 [0; 1] (zlen l) (l ++ q :: qs)) F) (make_ready W)
  (fun ok s => ok = true /\ shares (console h st 1 1 [0; 1] (zlen l) (l ++ set_ready q true :: qs)) F s).
Proof.
  intros Hn. unfold make_ready. assert (forall q, (l ++ q :: qs) !! Z.to_nat (zlen l) = Some q) as Hat by (intros q'; unfold zlen; rewrite Nat2Z.id; by rewrite list_lookup_middle).
  eapply triple_bind; [apply (reg_write_triple _ _ _ (console h st 1 1 [0; 1] (zlen l) (l ++ set_ready q true :: qs))); [by vm_compute | reflexivity | by vm_compute|]|].
  { intros m. change (write_reg dfuel ?d Driver.R_QUEUE_READY 1) with (Val (Some (with_selq d (fun q => set_ready q true)))). do 2 f_equal. unfold with_selq, selq. cbn [set_mem queue_sel queues]. rewrite Hat. unfold set_queues, set_mem. cbn. f_equal.
    unfold zlen. by rewrite Nat2Z.id, insert_app_r_alt, Nat.sub_diag by lia. }
  intros []. assert (read_reg (console h st 1 1 [0; 1] (zlen l) (l ++ set_ready q true :: qs)) Driver.R_QUEUE_READY = 1) as Hr.
  { change (read_reg ?d Driver.R_QUEUE_READY) with (match selq d with Some q => Z.b2z (ready q) | None => 0 end). unfold selq. cbn [queues queue_sel]. by rewrite Hat. }
  eapply triple_bind; [apply reg_read_triple; [by vm_compute | reflexivity | rewrite Hr; by vm_compute]|]. intros r. apply know. intros ->. rewrite Hr. by apply triple_ret.
Qed.

Abbreviation zeros := (zrepeat 4096 0).

Lemma write_triple d n o v ws : (0 < n)%nat -> 0 <= o -> o + Z.of_nat n <= 4096 -> triple (shares d (patch ws zeros)) (ask (RamWrite n (f + o) v)) (fun _ => shares d (patch (ws ++ [(o, to_le n v)]) zeros)).
Proof. intros Hn Ho Hl. rewrite patch_snoc. by apply ram_write_triple. Qed.

Lemma write_desc_splice d o addr l fl nx F : zlen F = 4096 -> 0 <= o -> o + 16 <= 4096 -> triple (shares d F) (write_desc (f + o) addr l fl nx) (fun _ => shares d (splice o (desc_bytes addr l fl nx) F)).
Proof.
  intros HF Ho Hl. unfold write_desc. rewrite <- !Z.add_assoc. unfold desc_bytes.
  do 3 (eapply triple_bind; [apply ram_write_triple; lia|]; intros []). assert (forall n v, zlen (to_le n v) = Z.of_nat n) as Hle by apply zlen_to_le.
  replace (splice o (to_le 8 addr ++ to_le 4 l ++ to_le 2 fl ++ to_le 2 nx) F)
    with (splice (o + 14) (to_le 2 nx) (splice (o + 12) (to_le 2 fl) (splice (o + 8) (to_le 4 l) (splice o (to_le 8 addr) F)))); [apply ram_write_triple; lia|].
  rewrite !(splice_then o) by (rewrite ?zlen_app, ?Hle; lia). by rewrite <- !app_assoc.
Qed.
Lemma write_desc_triple d o addr l fl nx ws : inside ws -> 0 <= o -> o + 16 <= 4096 -> triple (shares d (patch ws zeros)) (write_desc (f + o) addr l fl nx) (fun _ => shares d (patch (ws ++ [(o, desc_bytes addr l fl nx)]) zeros)).
Proof. intros Hin Ho Hl. rewrite patch_snoc. apply write_desc_splice; [by apply patch_length | done | done]. Qed.

(** *** The queues and the frame of a session *)

Definition rxq : QueueState := mkQueue 4 true (f + CHAN_RX_DESC_OFF) (f + CHAN_RX_AVAIL_OFF) (f + CHAN_RX_USED_OFF) 0 0.
Definition txq : QueueState := mkQueue 4 true (f + CHAN_TX_DESC_OFF) (f + CHAN_TX_AVAIL_OFF) (f + CHAN_TX_USED_OFF) 0 0.
Definition session_writes (req : list Z) (rlen : Z) : list (Z * list Z) :=
  [(CHAN_TX_BUF_OFF, req); (CHAN_RX_DESC_OFF, desc_bytes (f + CHAN_RX_BUF_OFF) rlen Driver.VIRTQ_DESC_F_WRITE 0);
   (CHAN_RX_AVAIL_OFF, to_le 2 1); (CHAN_RX_AVAIL_OFF + 4, to_le 2 0); (CHAN_RX_AVAIL_OFF + 2, to_le 2 1); (CHAN_TX_AVAIL_OFF, to_le 2 1);
   (CHAN_TX_DESC_OFF, desc_bytes (f + CHAN_TX_BUF_OFF) (zlen req) 0 0); (CHAN_TX_AVAIL_OFF + 4, to_le 2 0); (CHAN_TX_AVAIL_OFF + 2, to_le 2 1)].

Ltac offsets := unfold CHAN_RX_DESC_OFF, CHAN_RX_AVAIL_OFF, CHAN_RX_USED_OFF, CHAN_TX_DESC_OFF, CHAN_TX_AVAIL_OFF, CHAN_TX_USED_OFF, CHAN_TX_BUF_OFF, CHAN_RX_BUF_OFF, CHAN_TX_BUF_CAP, CHAN_RX_BUF_CAP in *.
Ltac in_frame := unfold inside, clear_of, session_writes; cbn [drop]; repeat (apply Forall_cons; split; [cbn [fst snd]; rewrite ?zlen_to_le, ?desc_bytes_length; offsets; lia|]); apply Forall_nil; exact I.

Section image.
Context (req : list Z) (rlen : Z) (m : M).
Context (Hreq : bytes req /\ 0 < zlen req <= CHAN_TX_BUF_CAP) (Hrlen : 0 < rlen <= CHAN_RX_BUF_CAP).
Context (Himg : holds_at m f (patch (session_writes req rlen) zeros)).

Lemma session_inside : inside (session_writes req rlen).
Proof. destruct Hreq as [_ Hl]. in_frame. Qed.

Lemma image_length : zlen (patch (session_writes req rlen) zeros) = 4096.
Proof. apply patch_length; [apply session_inside | done]. Qed.

Lemma image_mapped o n : 0 <= o -> o + n <= 4096 -> mapped m (f + o) n.
Proof. intros Ho Hn i Hi. rewrite <- Z.add_assoc. apply (holds_mapped _ _ _ Himg). rewrite image_length. lia. Qed.

Lemma image_half i o v : session_writes req rlen !! i = Some (o, to_le 2 v) -> is_u16 v -> 0 <= o -> o + 2 <= 4096 -> clear_of o 2 (drop (S i) (session_writes req rlen)) -> read_u16 m (f + o) = Some v.
Proof.
  intros Hi Hv Ho Hl Hc. apply read_u16_le; [|done]. rewrite (holds_read m f _ o 2 Himg) by (rewrite ?image_length; lia). f_equal.
  apply (sub_patch_nth i); [done | apply session_inside | done | by rewrite zlen_to_le | done].
Qed.

Lemma image_rings : read_u16 m (f + (CHAN_RX_AVAIL_OFF + 2)) = Some 1 /\ read_u16 m (f + (CHAN_RX_AVAIL_OFF + 4)) = Some 0 /\
  read_u16 m (f + (CHAN_TX_AVAIL_OFF + 2)) = Some 1 /\ read_u16 m (f + (CHAN_TX_AVAIL_OFF + 4)) = Some 0.
Proof.
  destruct Hreq as [_ Hl]. split; [|split; [|split]].
  - apply (image_half 4); [done | done | done | done | in_frame].
  - apply (image_half 3); [done | done | done | done | in_frame].
  - apply (image_half 8); [done | done | done | done | in_frame].
  - apply (image_half 7); [done | done | done | done | in_frame].
Qed.

Lemma image_used : read_u16 m (f + (CHAN_RX_USED_OFF + 2)) = Some 0.
Proof.
  destruct Hreq as [_ Hl]. apply read_u16_le; [|done]. rewrite (holds_read m f _ _ 2 Himg) by (rewrite ?image_length; done). f_equal.
Qed.

Lemma image_descs : read_desc m rxq 0 = Some (f + CHAN_RX_BUF_OFF, rlen, Driver.VIRTQ_DESC_F_WRITE, 0) /\ read_desc m txq 0 = Some (f + CHAN_TX_BUF_OFF, zlen req, 0, 0).
Proof.
  destruct Hreq as [_ Hl]. split.
  - eapply (read_desc_holds m f _ _ CHAN_RX_DESC_OFF _ _ _ _ Himg); [done | done | rewrite image_length; done | | unfold in_u; offsets; lia | unfold in_u; offsets; lia | done | done].
    apply (sub_patch_nth 1); [done | apply session_inside | done | by rewrite desc_bytes_length | in_frame].
  - eapply (read_desc_holds m f _ _ CHAN_TX_DESC_OFF _ _ _ _ Himg); [done | done | rewrite image_length; done | | unfold in_u; offsets; lia | unfold in_u; offsets; lia | done | done].
    apply (sub_patch_nth 6); [done | apply session_inside | done | by rewrite desc_bytes_length | in_frame].
Qed.

Lemma image_req : read_slice m (f + CHAN_TX_BUF_OFF) (zlen req) = Some req.
Proof.
  destruct Hreq as [_ Hl]. rewrite (holds_read m f _ _ _ Himg) by (rewrite ?image_length; offsets; lia). f_equal. apply (sub_patch_nth 0); [done | apply session_inside | done | done | in_frame].
Qed.

Ltac apart := unfold sep, avail_area, used_area, desc_area; cbn [fst snd num desc driver VirtioMmio.device rxq txq]; offsets; lia.

Lemma session_laid_out q : q = rxq \/ q = txq -> laid_out m q /\ queue_ok q.
Proof.
  intros Hq. split; [split|split]; destruct Hq as [-> | ->]; cbn [ready num desc driver VirtioMmio.device next_avail used_count rxq txq]; unfold in_u, QUEUE_NUM_MAX; try apart; try done;
    try (split; [lia | by exists (2 ^ 14)]); apply image_mapped; offsets; lia.
Qed.

Lemma session_kickable d : mem d = m -> kickable d rxq txq [(0, req)] [(0, [(f + CHAN_RX_BUF_OFF, rlen)])].
Proof.
  intros Hm. destruct image_rings as (R1 & R2 & R3 & R4). destruct image_descs as [D1 D2]. destruct Hreq as [_ Hl]. split; rewrite ?Hm.
  - split.
    + split; [done | cbn [driver txq map fst]; by rewrite <- Z.add_assoc|]. intros [|i] x; [intros [= <-]|done]. unfold avail_entry. cbn [driver txq next_avail num]. change (2 * ((0 + Z.of_nat 0) mod 4)) with 0. by rewrite Z.add_0_r, <- Z.add_assoc.
    + apply Forall_singleton. exists [(f + CHAN_TX_BUF_OFF, zlen req)], [req]. split; [|split; [|split]].
      * apply (chain_last _ _ _ 3 0 _ _ 0 0); [cbn; lia | lia | exact D2 | done | done].
      * apply Forall2_cons_2; [exact image_req | apply Forall2_nil_2].
      * cbn. by rewrite app_nil_r.
      * apply Forall_singleton. apart.
  - split.
    + split; [done | cbn [driver rxq map fst]; by rewrite <- Z.add_assoc|]. intros [|i] x; [intros [= <-]|done]. unfold avail_entry. cbn [driver rxq next_avail num]. change (2 * ((0 + Z.of_nat 0) mod 4)) with 0. by rewrite Z.add_0_r, <- Z.add_assoc.
    + apply Forall_singleton. split; [apply (chain_last _ _ _ 3 0 _ _ 2 0); [cbn; lia | lia | exact D1 | done | done]|]. apply Forall_singleton. cbn [fst snd]. split; [apply image_mapped; offsets; lia|].
      split; [apart | split; apart].
  - cbn. repeat constructor.
  - cbn. repeat (apply Forall_cons; split; [apart|]). by apply Forall_nil.
Qed.
End image.

(** *** The kick of the transmit queue *)

(** What the driver finds in its frame when the device has taken the request and delivered
    [n] bytes of [out]. *)
Record answered_in (out : list Z) (n : Z) (F : list Z) : Prop := {
  ai_bytes : bytes F;
  ai_length : zlen F = 4096;
  ai_tx : of_le (zsub (CHAN_TX_USED_OFF + 2) 2 F) = 1;
  ai_rx : of_le (zsub (CHAN_RX_USED_OFF + 2) 2 F) = (if n =? 0 then 0 else 1);
  ai_len : 0 < n -> of_le (zsub (CHAN_RX_USED_OFF + 8) 4 F) = n;
  ai_data : 0 < n -> zsub CHAN_RX_BUF_OFF n F = ztake n out;
}.

Lemma kick_triple h h' req rlen : bytes req /\ 0 < zlen req <= CHAN_TX_BUF_CAP -> 0 < rlen <= CHAN_RX_BUF_CAP -> push_guest_bytes h req = Val h' ->
  bytes (outbuf h') -> zlen (outbuf h') < 2 ^ 32 -> (1 < dfuel)%nat -> let n := Z.min rlen (zlen (outbuf h')) in
  triple (shares (console h 15 1 1 [0; 1] 1 [rxq; txq]) (patch (session_writes req rlen) zeros)) (reg_write W Driver.R_QUEUE_NOTIFY 1)
    (fun _ s => exists F qs, shares (console (drained h' n) 15 1 1 [0; 1] 1 qs) F s /\ answered_in (outbuf h') n F).
Proof.
  intros Hreq Hrlen Hp Hb Hl Hfu n s (m & -> & Himg & _ & Hw). set (d := set_mem (console h 15 1 1 [0; 1] 1 [rxq; txq]) m).
  destruct (kick_runs d rxq txq [(0, req)] [(0, [(f + CHAN_RX_BUF_OFF, rlen)])] h' dfuel) as (m' & us & E & Hdel & Hc & Hru & Hwr & _ & Htu).
  - split; [done | done | exact (session_laid_out req rlen m Hreq Himg rxq ltac:(by left)) | exact (session_laid_out req rlen m Hreq Himg txq ltac:(by right))].
  - by apply (session_kickable req rlen m).
  - cbn. by rewrite app_nil_r.
  - done.
  - done.
  - done.
  - done.
  - cbn [map snd concat app total foldr] in *. rewrite Z.add_0_r in E, Hdel. fold n in E, Hdel.
    assert (wrote m0 m' [(f, 4096)]) as Hw'.
    { eapply wrote_within; [exact Hw | exact Hwr|]. unfold used_area. cbn [VirtioMmio.device num rxq txq]. repeat (apply Forall_cons; split; [cbn [fst snd]; offsets; lia|]). by apply Forall_nil. }
    destruct (mapped_holds m' f 4096 eq_refl) as (F & HF & HhF).
    { apply (proj2 Hwr). intros i Hi. pose proof (image_mapped req rlen m Hreq Himg 0 4096 ltac:(lia) ltac:(lia) i Hi) as Hmi. by rewrite Z.add_0_r in Hmi. }
    exists tt, (mkVm (set_mem (console (drained h' n) 15 1 1 [0; 1] 1 [taken rxq (zlen us); taken txq 1]) m') pgs free). split.
    { unfold reg_write, ask. cbn [interp]. unfold handle, vm_machine, vm_handle. cbn [pages]. rewrite Hwindow by done. cbn [mbind option_bind]. unfold mmio_write, bus_write. rewrite claims_window, bind_val by done.
      cbn [xport]. fold d. unfold dev_write. change (_ && _) with true. cbv iota. change (write_reg dfuel d _ _) with (notify dfuel d TXQ). by rewrite E. }
    exists F, [taken rxq (zlen us); taken txq 1]. split; [by exists m'|]. pose proof (zlen_nonneg (outbuf h')) as Hout.
    assert (zlen (ztake n (outbuf h')) = n) as Hn by (unfold n; zl). apply delivered_single in Hdel as [[Hd0 ->]|(Hne & -> & Hrd)].
    + rewrite Hd0 in Hn. change (zlen (@nil Z)) with 0 in Hn. split; [by eapply holds_bytes | done | | | lia | lia].
      * eapply (holds_u16 m'); [exact HhF | done | rewrite HF; done | rewrite Z.add_assoc; by apply Htu].
      * rewrite <- Hn. eapply (holds_u16 m'); [exact HhF | done | rewrite HF; done|]. rewrite Z.add_assoc. change (f + CHAN_RX_USED_OFF) with (VirtioMmio.device rxq). rewrite Hru, decide_True by done. cbn [mem d set_mem VirtioMmio.device rxq]. rewrite <- Z.add_assoc. by eapply image_used.
    + assert (0 < n) as Hpos by (rewrite <- Hn; by apply zlen_pos). rewrite Hn in Hrd, Hc, Hru. destruct (Hc 0%nat 0 n eq_refl) as [_ Hlen].
      split; [by eapply holds_bytes | done | | | intros _ | intros _].
      * eapply (holds_u16 m'); [exact HhF | done | rewrite HF; done | rewrite Z.add_assoc; by apply Htu].
      * rewrite (proj2 (Z.eqb_neq n 0)) by lia. eapply (holds_u16 m'); [exact HhF | done | rewrite HF; done|]. rewrite Z.add_assoc. change (f + CHAN_RX_USED_OFF) with (VirtioMmio.device rxq). rewrite Hru. done.
      * eapply (holds_u32 m'); [exact HhF | done | rewrite HF; done|]. revert Hlen. unfold used_entry. cbn [VirtioMmio.device num used_count rxq]. change (8 * ((0 + Z.of_nat 0) mod 4)) with 0. by replace (f + CHAN_RX_USED_OFF + 4 + 0 + 4) with (f + (CHAN_RX_USED_OFF + 8)) by lia.
      * rewrite (holds_read m' f F) in Hrd by (done || rewrite ?HF; unfold n; offsets; lia). by injection Hrd.
Qed.

(** *** Receiving *)

(** The session is over: the device is not driven, the frame is back in the pool, and nothing
    outside the frame was written. *)
Definition closed_with (h : InferHost) (s : Vm M) : Prop :=
  exists d, xport s = d /\ host d = h /\ Z.land (status d) S_DRIVER_OK = 0 /\ pages s = pgs /\ pool s = f :: free /\ wrote m0 (mem d) [(f, 4096)].

Lemma close_triple d d' F v : is_u32 v -> (forall m, write_reg dfuel (set_mem d m) Driver.R_STATUS v = Val (Some (set_mem d' m))) -> host d' = host d -> Z.land (status d') S_DRIVER_OK = 0 ->
  triple (shares d F) (_ ← reg_write W Driver.R_STATUS v; frame_free f) (fun _ => closed_with (host d)).
Proof.
  intros Hv Hw Hh Hst. eapply triple_bind; [apply (reg_write_triple _ _ _ d'); [by vm_compute | reflexivity | done | done]|]. intros [] s (m & -> & _ & _ & Hwr).
  exists tt, (mkVm (set_mem d' m) pgs (f :: free)). split; [done|]. by exists (set_mem d' m).
Qed.
Lemma finish_triple d F : triple (shares d F) (finish W f) (fun _ => closed_with (host d)).
Proof. by apply (close_triple d (reset d)). Qed.
Lemma abandon_triple d F : triple (shares d F) (abandon W f) (fun _ => closed_with (host d)).
Proof. by apply (close_triple d (set_status d 131)). Qed.

Lemma then_value {A B} (P : Vm M -> Prop) (p : drv A) (b : B) Q : triple P p (fun _ => Q) -> triple P (_ ← p; Ret b) (fun r s => r = b /\ Q s).
Proof. intros Hp. eapply triple_bind; [exact Hp|]. intros a. by apply triple_ret. Qed.

Lemma rx_full_triple fuel d F resp written ai us : zlen resp <= written -> triple (shares d F) (rx_loop fuel W f resp written ai us) (fun r s => r = (Some written, resp) /\ closed_with (host d) s).
Proof. intros Hw. destruct fuel; cbn [rx_loop]; rewrite (proj2 (Z.ltb_ge _ _) Hw); apply then_value, finish_triple. Qed.

Lemma rx_dry_triple fuel d F resp written ai us : written < zlen resp -> of_le (zsub (CHAN_RX_USED_OFF + 2) 2 F) = us ->
  triple (shares d F) (rx_loop (S fuel) W f resp written ai us) (fun r s => r = (None, resp) /\ closed_with (host d) s).
Proof.
  intros Hw Hu. cbn [rx_loop]. rewrite (proj2 (Z.ltb_lt _ _) Hw). cbn [negb]. cbv zeta. rewrite <- (Z.add_assoc f CHAN_RX_USED_OFF 2). eapply triple_bind; [by apply poll_triple|]. intros ok. apply know. intros ->.
  rewrite Hu, Z.eqb_refl. apply then_value, abandon_triple.
Qed.

Lemma notify_dry (d : VirtioMmio M) : (0 < dfuel)%nat -> outbuf (host d) = [] -> Z.land (status d) VirtioMmio.S_DRIVER_OK <> 0 -> notify dfuel d RXQ = Val (Some d).
Proof.
  intros Hf Ho Hs. unfold notify. rewrite (proj2 (Z.eqb_neq _ 0) Hs). change (RXQ =? TXQ) with false. change (RXQ <? NUM_QUEUES) with true. cbv iota. rewrite bind_val. destruct dfuel as [|n]; [lia|].
  unfold drain_rx. cbn [turns]. unfold rx_turn, out_len. by rewrite Ho.
Qed.

Lemma rx_loop_triple fuel h out qs resp F : (1 < fuel)%nat -> (0 < dfuel)%nat -> 0 < zlen resp <= CHAN_RX_BUF_CAP -> zlen out < 2 ^ 32 -> let n := Z.min (zlen resp) (zlen out) in
  outbuf h = zdrop n out -> answered_in out n F ->
  triple (shares (console h 15 1 1 [0; 1] 1 qs) F) (rx_loop fuel W f resp 0 1 0)
    (fun r s => r = (if zlen resp <=? zlen out then (Some (zlen resp), ztake (zlen resp) out) else (None, out ++ zdrop (zlen out) resp)) /\ closed_with h s).
Proof.
  intros Hfu Hdf Hr Hol n Hdr [Hb HF _ Hrx Hlen Hdata]. pose proof (zlen_nonneg out) as Hpos. destruct fuel as [|fuel]; [lia|]. destruct (Z.eq_dec n 0) as [Hn|Hn].
  { assert (out = []) as -> by (apply zlen_0; lia). rewrite (proj2 (Z.leb_gt _ _)) by (rewrite zlen_nil; lia). change ([] ++ zdrop (zlen (@nil Z)) resp) with resp. rewrite Hn in Hrx. apply (rx_dry_triple fuel (console h 15 1 1 [0; 1] 1 qs)); [lia | done]. }
  assert (0 < n) as Hn0 by lia. rewrite (proj2 (Z.eqb_neq n 0) Hn) in Hrx. specialize (Hlen Hn0). specialize (Hdata Hn0). cbn [rx_loop]. rewrite (proj2 (Z.ltb_lt _ _)) by lia. cbn [negb]. cbv zeta.
  rewrite <- (Z.add_assoc f CHAN_RX_USED_OFF 2). eapply triple_bind; [by apply poll_triple|]. intros ok. apply know. intros ->. rewrite Hrx. change (negb (negb (1 =? 0))) with false. cbv iota. eapply triple_bind; [apply fence_triple|]. intros [].
  change (0 mod CHAN_Q_SIZE) with 0. replace (f + CHAN_RX_USED_OFF + 4 + 8 * 0 + 4) with (f + (CHAN_RX_USED_OFF + 8)) by lia. eapply triple_bind; [apply (ram_read_triple 4); [lia | done | done]|]. intros len. apply know. intros ->.
  change (Z.of_nat 4) with 4. rewrite Hlen, Z.sub_0_r. assert ((if zlen resp <? n then zlen resp else n) = n) as -> by (rewrite (proj2 (Z.ltb_ge _ _)) by lia; done).
  eapply triple_bind; [apply (read_bytes_triple _ F); [done | offsets; lia | done | done]|]. intros got. apply know. intros ->. rewrite Z2Nat.id by lia. rewrite Hdata. change (ztake 0 resp ++ ?l) with l. rewrite Z.add_0_l.
  set (resp' := ztake n out ++ zdrop n resp). assert (zlen resp' = zlen resp) as Hr' by (unfold resp', n; zl). destruct (Z.leb_spec (zlen resp) (zlen out)) as [Hfull|Hpart].
  - assert (n = zlen resp) as En by lia. rewrite (proj2 (Z.ltb_ge n _)) by lia. rewrite <- En. assert (resp' = ztake n out) as -> by (unfold resp'; rewrite zdrop_all, app_nil_r; [done | lia]).
    apply (rx_full_triple fuel (console h 15 1 1 [0; 1] 1 qs)). rewrite zlen_ztake. lia.
  - assert (n = zlen out) as En by lia. rewrite (proj2 (Z.ltb_lt n _)) by lia. assert (resp' = out ++ zdrop (zlen out) resp) as Eres by (unfold resp'; rewrite En, ztake_all; done).
    assert (outbuf h = []) as Hdry by (rewrite Hdr, zdrop_all; [done | lia]).
    assert (forall n v, zlen (to_le n v) = Z.of_nat n) as Hle by apply zlen_to_le. eapply triple_bind; [apply write_desc_splice; [done | done | offsets; lia]|]. intros [].
    replace (f + CHAN_RX_AVAIL_OFF + 4 + 2 * (1 mod CHAN_Q_SIZE)) with (f + (CHAN_RX_AVAIL_OFF + 6)) by (change (1 mod CHAN_Q_SIZE) with 1; lia). eapply triple_bind; [apply ram_write_triple; [lia | done | offsets; lia]|]. intros [].
    eapply triple_bind; [apply fence_triple|]. intros []. rewrite <- (Z.add_assoc f CHAN_RX_AVAIL_OFF 2). eapply triple_bind; [apply ram_write_triple; [lia | done | offsets; lia]|]. intros [].
    eapply triple_bind; [apply fence_triple|]. intros [].
    eapply triple_bind; [apply (reg_write_triple _ _ _ (console h 15 1 1 [0; 1] 1 qs)); [by vm_compute | reflexivity | by vm_compute|]|]; [intros m; by apply (notify_dry (set_mem (console h 15 1 1 [0; 1] 1 qs) m))|]. intros [].
    rewrite <- Eres. destruct fuel as [|fuel]; [lia|]. apply (rx_dry_triple fuel (console h 15 1 1 [0; 1] 1 qs)); [lia|]. offsets.
    rewrite !sub_splice_off by (rewrite ?splice_length, ?desc_bytes_length, ?Hle; rewrite ?splice_length, ?desc_bytes_length, ?Hle; rewrite ?desc_bytes_length; lia). exact Hrx.
Qed.

(** *** A session *)

Lemma triple_ex {A X} (P : X -> Vm M -> Prop) (p : drv A) Q : (forall x, triple (P x) p Q) -> triple (fun s => exists x, P x s) p Q.
Proof. intros Hp s [x Hx]. by apply (Hp x). Qed.
Lemma triple_pure {A} (P : Vm M -> Prop) (R : Prop) (p : drv A) Q : (R -> triple P p Q) -> triple (fun s => P s /\ R) p Q.
Proof. intros Hp s [Hs HR]. by apply Hp. Qed.

Lemma session_triple fuel d h' req resp F : zlen F = 4096 -> bytes req /\ 0 < zlen req <= CHAN_TX_BUF_CAP -> 0 < zlen resp <= CHAN_RX_BUF_CAP ->
  push_guest_bytes (host d) req = Val h' -> bytes (outbuf h') -> zlen (outbuf h') < 2 ^ 32 -> (1 < dfuel)%nat -> (1 < fuel)%nat -> let n := Z.min (zlen resp) (zlen (outbuf h')) in
  triple (shares d F) (chan_session fuel W f req resp)
    (fun r s => r = (if zlen resp <=? zlen (outbuf h') then (Some (zlen resp), ztake (zlen resp) (outbuf h')) else (None, outbuf h' ++ zdrop (zlen (outbuf h')) resp)) /\
       closed_with (drained h' n) s).
Proof.
  intros HF Hreq Hresp Hp Hb Hl Hdf Hfu n. unfold chan_session. cbv zeta. pose proof Hreq as [Hrb Hrl]. eapply triple_bind; [by apply zero_frame_triple|]. intros [].
  eapply triple_bind; [apply (stage_triple d req _ zeros); [done | done | offsets; lia | done]|]. intros []. change (splice CHAN_TX_BUF_OFF req zeros) with (patch [(CHAN_TX_BUF_OFF, req)] zeros).
  eapply triple_bind; [apply begin_init_triple|]. intros []. eapply triple_bind; [apply negotiate_triple|]. intros ok. apply know. intros ->. cbn [negb].
  assert (forall o, 0 <= o < 4096 -> is_u64 (f + o)) as Haddr by (intros o Ho; unfold in_u; lia).
  eapply triple_bind; [apply (set_up_queue_triple (host d) 11 [] [queue_default]); [done | by apply Haddr | by apply Haddr | by apply Haddr]|]. intros ok. apply know. intros ->. cbn [negb app].
  assert (forall k, 0 <= k <= CHAN_RX_BUF_CAP -> wrap 32 k = k) as Hw32 by (intros k Hk; apply wrap_small; unfold in_u; offsets; lia).
  rewrite (Hw32 (zlen resp)) by lia. rewrite (Hw32 (zlen req)) by (offsets; lia).
  eapply triple_bind; [apply write_desc_triple; [in_frame | done | done]|]. intros []. cbn [app].
  eapply triple_bind; [apply write_triple; [lia | done | done]|]. intros []. cbn [app]. rewrite <- (Z.add_assoc f CHAN_RX_AVAIL_OFF 4). eapply triple_bind; [apply write_triple; [lia | done | done]|]. intros []. cbn [app].
  eapply triple_bind; [apply fence_triple|]. intros []. rewrite <- (Z.add_assoc f CHAN_RX_AVAIL_OFF 2). eapply triple_bind; [apply write_triple; [lia | done | done]|]. intros []. cbn [app].
  eapply triple_bind; [apply (make_ready_triple (host d) 11 [] [queue_default]); done|]. intros ok. apply know. intros ->. cbn [negb app]. change (set_ready (mkQueue 4 false ?a ?b ?c 0 0) true) with rxq.
  eapply triple_bind; [apply (set_up_queue_triple (host d) 11 [rxq] []); [done | by apply Haddr | by apply Haddr | by apply Haddr]|]. intros ok. apply know. intros ->. cbn [negb app].
  eapply triple_bind; [apply write_triple; [lia | done | done]|]. intros []. cbn [app].
  eapply triple_bind; [apply (make_ready_triple (host d) 11 [rxq] []); done|]. intros ok. apply know. intros ->. cbn [negb app]. change (set_ready (mkQueue 4 false ?a ?b ?c 0 0) true) with txq.
  eapply triple_bind; [apply (reg_write_triple _ _ _ (console (host d) 15 1 1 [0; 1] 1 [rxq; txq])); [by vm_compute | reflexivity | by vm_compute | reflexivity]|]. intros [].
  eapply triple_bind; [apply write_desc_triple; [in_frame | done | done]|]. intros []. cbn [app].
  rewrite <- (Z.add_assoc f CHAN_TX_AVAIL_OFF 4). eapply triple_bind; [apply write_triple; [lia | done | done]|]. intros []. cbn [app]. eapply triple_bind; [apply fence_triple|]. intros [].
  rewrite <- (Z.add_assoc f CHAN_TX_AVAIL_OFF 2). eapply triple_bind; [apply write_triple; [lia | done | done]|]. intros []. cbn [app]. eapply triple_bind; [apply fence_triple|]. intros [].
  fold (session_writes req (zlen resp)). eapply triple_bind; [by apply (kick_triple (host d) h' req (zlen resp))|]. intros []. fold n. apply triple_ex. intros F'. apply triple_ex. intros qs. apply triple_pure. intros Hin.
  rewrite <- (Z.add_assoc f CHAN_TX_USED_OFF 2). eapply triple_bind; [by apply poll_triple|]. intros ok. apply know. intros ->. rewrite (ai_tx _ _ _ Hin). change (negb (negb (1 =? 0))) with false. cbv iota.
  eapply triple_bind; [apply fence_triple|]. intros []. by apply (rx_loop_triple fuel (drained h' n) (outbuf h') qs resp F'); [| lia | | | |].
Qed.
End session.

(** ** The bus scan *)

Section scan.
Context {M : Type} `{GuestMemory M} (dfuel : nat).
#[local] Existing Instance vm_machine.

Definition window_pages : list (Z * Z) := map (fun j => (VIRTIO_WINDOW_VA + j * 0x1000, SLOT_BASE_PA + j * 0x1000)) [3; 2; 1; 0].
(** The guest with the device window mapped. *)
Definition windowed (s : Vm M) : Vm M := mkVm (xport s) (window_pages ++ pages s) (pool s).

Lemma map_window_eq (s : Vm M) : interp (H := vm_machine dfuel) map_window s = Some (Some VIRTIO_WINDOW_VA, windowed s).
Proof. done. Qed.

Lemma window_translate ps off : 0 <= off < 0x4000 -> translate (window_pages ++ ps) (VIRTIO_WINDOW_VA + off) = Some (SLOT_BASE_PA + off).
Proof.
  intros Ho. unfold window_pages. cbn [map app translate].
  repeat (match goal with |- context [(?a <=? ?v) && (?v <? ?b)] => destruct (Z.leb_spec a v), (Z.ltb_spec v b); cbn [andb]; [f_equal; lia | try lia ..] end). all: lia.
Qed.

Lemma lookup_elsewhere off : XPORT_MMIO_LEN <= off -> lookup mmio_bus (SLOT_BASE_PA + off) = Val None.
Proof.
  intros Ho. unfold lookup. change (entries mmio_bus) with [(SLOT_BASE_PA, mkEntry XPORT_MMIO_LEN tt)]. cbn [last_upto]. unfold XPORT_MMIO_LEN in Ho. rewrite (proj2 (Z.leb_le _ _)) by lia.
  change (add_u 64 SLOT_BASE_PA (len (mkEntry XPORT_MMIO_LEN tt))) with (Val (SLOT_BASE_PA + XPORT_MMIO_LEN)). rewrite bind_val, (proj2 (Z.ltb_ge _ _)) by (unfold XPORT_MMIO_LEN; lia). done.
Qed.

(** A slot that nothing is plugged into reads as all ones. *)
Lemma empty_slot_read (s : Vm M) i : 0 < i < N_SLOTS -> interp (H := vm_machine dfuel) (reg_read (VIRTIO_WINDOW_VA + i * SLOT_STRIDE) Driver.R_MAGIC) (windowed s) = Some (0xFFFFFFFF, windowed s).
Proof.
  intros Hi. unfold N_SLOTS in Hi. unfold reg_read, ask. cbn [interp]. unfold handle, vm_machine, vm_handle. cbn [pages windowed]. unfold SLOT_STRIDE, Driver.R_MAGIC. rewrite Z.add_0_r.
  rewrite window_translate by lia. cbn [mbind option_bind]. unfold mmio_read, bus_read. rewrite lookup_elsewhere by (unfold XPORT_MMIO_LEN; lia). done.
Qed.

Lemma slot_not_it (s : Vm M) i id : (0 <= i < N_SLOTS) -> i <> 0 \/ id <> Driver.VIRTIO_DEV_CONSOLE ->
  interp (H := vm_machine dfuel) (is_device (VIRTIO_WINDOW_VA + i * SLOT_STRIDE) id) (windowed s) = Some (false, windowed s).
Proof.
  intros Hi Hid. unfold is_device. destruct (Z.eq_dec i 0) as [->|Hne].
  - destruct Hid as [?|Hid]; [done|]. change (VIRTIO_WINDOW_VA + 0 * SLOT_STRIDE) with VIRTIO_WINDOW_VA. rewrite (interp_then (H := vm_machine dfuel) _ _ _ Driver.VIRTIO_MAGIC (windowed s)) by done. cbn [negb Z.eqb].
    change (negb (_ =? Driver.VIRTIO_MAGIC)) with false. cbv iota. rewrite (interp_then (H := vm_machine dfuel) _ _ _ 3 (windowed s)) by done. cbn [interp]. by rewrite (proj2 (Z.eqb_neq 3 id)).
  - rewrite (interp_then (H := vm_machine dfuel) _ _ _ _ _ (empty_slot_read s i ltac:(lia))). done.
Qed.

Lemma scan_nothing {R} (scan : nat -> Z -> Z -> drv R) id r (s : Vm M) : id <> Driver.VIRTIO_DEV_CONSOLE ->
  (forall base i, scan 0%nat base i = Ret r) ->
  (forall n base i, exists k, scan (S n) base i = (here ← is_device (base + i * SLOT_STRIDE) id; if here : bool then k else scan n base (i + 1))) ->
  forall n i, 0 <= i -> i + Z.of_nat n <= N_SLOTS -> interp (H := vm_machine dfuel) (scan n VIRTIO_WINDOW_VA i) (windowed s) = Some (r, windowed s).
Proof.
  intros Hid H0 HS n. induction n as [|n IH]; intros i Hi Hn; [by rewrite H0|]. destruct (HS n VIRTIO_WINDOW_VA i) as [k ->].
  rewrite (interp_then (H := vm_machine dfuel) _ _ _ _ _ (slot_not_it s i id ltac:(lia) ltac:(by right))). apply IH; lia.
Qed.
End scan.

(** ** Properties *)

Section properties.
Context {M : Type} `{GuestMemory M} (dfuel : nat).
#[local] Existing Instance vm_machine.

(** The scans of a guest on the monitor: there is a modern console, in slot 0, and no other
    device.  So the entropy self-test is skipped and there is no disk. *)
Theorem monitor_has_a_console (s : Vm M) : let run {A} (m : drv A) := interp (H := vm_machine dfuel) m s in
  run chan_probe = Some (Some 0, windowed s) /\ run chan_saw_legacy = Some (false, windowed s) /\
  run virtio_selftest = Some (Absent, windowed s) /\ run blk_probe = Some (None, windowed s) /\ run blk_saw_legacy = Some (false, windowed s).
Proof.
  intros run. split; [done|]. split; [done|]. unfold run, virtio_selftest, blk_probe, blk_saw_legacy, saw_legacy. split; [|split].
  - rewrite (interp_then (H := vm_machine dfuel) _ _ _ _ _ (map_window_eq dfuel s)).
    rewrite (interp_then (H := vm_machine dfuel) _ _ _ _ _ (scan_nothing dfuel (fun n base i => rng_scan n base i false) Driver.VIRTIO_DEV_ENTROPY (None, false) s ltac:(done) (fun _ _ => eq_refl) (fun n base i => ex_intro _ _ eq_refl) (Z.to_nat N_SLOTS) 0 ltac:(done) ltac:(done))).
    done.
  - rewrite (interp_then (H := vm_machine dfuel) _ _ _ _ _ (map_window_eq dfuel s)).
    exact (scan_nothing dfuel blk_scan Driver.VIRTIO_DEV_BLK None s ltac:(done) (fun _ _ => eq_refl) (fun n base i => ex_intro _ _ eq_refl) (Z.to_nat N_SLOTS) 0 ltac:(done) ltac:(done)).
  - rewrite (interp_then (H := vm_machine dfuel) _ _ _ _ _ (map_window_eq dfuel s)).
    exact (scan_nothing dfuel (fun n base i => legacy_scan n Driver.VIRTIO_DEV_BLK base i false) Driver.VIRTIO_DEV_BLK false s ltac:(done) (fun _ _ => eq_refl) (fun n base i => ex_intro _ _ eq_refl) (Z.to_nat N_SLOTS) 0 ltac:(done) ltac:(done)).
Qed.

(** What a session over the console does, on a machine whose next frame [f] is memory: the
    reply is [out], and the peer goes from [h] to [h']. *)
Record exchange_ok (s : Vm M) (f : Z) (free : list Z) (req resp : list Z) (h' : InferHost) : Prop := {
  xo_pool : pool s = f :: free;
  xo_frame : 0 <= f /\ f + 4096 <= 2 ^ 64 /\ mapped (mem (xport s)) f 4096;
  xo_req : bytes req /\ 0 < zlen req <= CHAN_TX_BUF_CAP;
  xo_resp : 0 < zlen resp <= CHAN_RX_BUF_CAP;
  xo_push : push_guest_bytes (host (xport s)) req = Val h';
  xo_out : bytes (outbuf h') /\ zlen (outbuf h') < 2 ^ 32;
}.

Definition session_result (resp out : list Z) : option Z * list Z :=
  if zlen resp <=? zlen out then (Some (zlen resp), ztake (zlen resp) out) else (None, out ++ zdrop (zlen out) resp).

Lemma chan_session_runs fuel s f free req resp h' : exchange_ok s f free req resp h' -> (1 < dfuel)%nat -> (1 < fuel)%nat ->
  exists s', interp (H := vm_machine dfuel) (chan_send_recv fuel 0 req resp) s = Some (session_result resp (outbuf h'), s') /\
    host (xport s') = drained h' (Z.min (zlen resp) (zlen (outbuf h'))) /\ Z.land (status (xport s')) S_DRIVER_OK = 0 /\
    pages s' = window_pages ++ pages s /\ pool s' = pool s /\ wrote (mem (xport s)) (mem (xport s')) [(f, 4096)].
Proof.
  intros [Hpool (Hf0 & Hf & Hm) Hreq Hresp Hp [Hb Hl]] Hd Hfu. pose proof Hreq as [_ Hrl]. unfold chan_send_recv. assert (req <> [] /\ resp <> []) as [Hne1 Hne2] by (split; intros E; [assert (zlen req = 0) by (by rewrite E) | assert (zlen resp = 0) by (by rewrite E)]; lia). rewrite !bool_decide_false by done.
  rewrite !(proj2 (Z.ltb_ge _ _)) by lia. cbn [orb]. rewrite (interp_then (H := vm_machine dfuel) _ _ _ _ _ (map_window_eq dfuel s)). cbv iota zeta. change (VIRTIO_WINDOW_VA + 0 * SLOT_STRIDE) with VIRTIO_WINDOW_VA.
  set (s1 := mkVm (xport s) (window_pages ++ pages s) free). rewrite (interp_then (H := vm_machine dfuel) frame_alloc _ _ (Some f) s1) by (cbn; by rewrite Hpool). cbv iota.
  destruct (mapped_holds _ f 4096 eq_refl Hm) as (F & HF & HhF).
  destruct (session_triple dfuel f (mem (xport s)) (window_pages ++ pages s) free ltac:(done) ltac:(intros off Ho; apply window_translate; unfold XPORT_MMIO_LEN in Ho; lia) fuel (xport s) h' req resp F HF Hreq Hresp Hp Hb Hl Hd Hfu s1)
    as (r & s' & E & -> & d & <- & Hh & Hst & Hpg & Hpo & Hw).
  - exists (mem (xport s)). split; [by destruct s as [[] ? ?]|]. split; [done|]. split; [done | apply wrote_refl].
  - exists s'. rewrite Hpool. done.
Qed.

(** C17: a channel session is one exchange with the peer.  On a monitor in any state, with a
    frame to take, the driver's whole sequence of register writes, ring updates, kicks and
    polls ends; the peer has read the request, once; the buffer has the first bytes of what
    the peer had to say, and the session fails exactly when that is too short for it; the
    bytes not taken stay queued; and nothing but the one frame, given back, was written. *)
Theorem chan_session_exact fuel s f free req resp h' : exchange_ok s f free req resp h' -> (1 < dfuel)%nat -> (1 < fuel)%nat ->
  let out := outbuf h' in let n := Z.min (zlen resp) (zlen out) in
  exists s', interp (H := vm_machine dfuel) (chan_send_recv fuel 0 req resp) s =
      Some (if zlen resp <=? zlen out then (Some (zlen resp), ztake (zlen resp) out) else (None, out ++ zdrop (zlen out) resp), s') /\
    host (xport s') = drained h' n /\ Z.land (status (xport s')) S_DRIVER_OK = 0 /\ pool s' = pool s /\ wrote (mem (xport s)) (mem (xport s')) [(f, 4096)].
Proof.
  intros Hx Hd Hf. cbv zeta. destruct (chan_session_runs fuel s f free req resp h' Hx Hd Hf) as (s' & E & Hh & Hst & _ & Hpo & Hw). by exists s'.
Qed.
End properties.

Definition demo_vm : Vm Ram := mkVm (dev_new (mkRam (zrepeat 8192 0)) demo_host) [] [4096].

Lemma chan_session_exact_witness : exists s' f, verify_echo (key demo_host) f demo_frame = Val true /\
  interp (H := vm_machine 2) (chan_send_recv 2 0 demo_request (zrepeat 101 0)) demo_vm = Some (Some 101, wire_bytes f ++ key demo_host, s').
Proof.
  destruct demo_host_wf as [Hwf Hp]. destruct (echo_answered_runs demo_host demo_frame [] [] Hwf Hp) as (h' & E & _ & _ & f & Ho & Hf);
    [apply demo_frame_ok | reflexivity | split; apply Forall_nil; exact I | split; apply Forall_nil; exact I | reflexivity|].
  pose proof (wire_bytes_length f (ec_ok _ _ _ Hf)) as Hl. rewrite (ec_payload _ _ _ Hf) in Hl. change (66 + zlen (payload demo_frame)) with 69 in Hl.
  pose proof (wire_bytes_bytes f (ec_ok _ _ _ Hf)) as Hb. pose proof (hi_key _ demo_host_inv) as Hkb. change (outbuf demo_host) with (@nil Z) in Ho. cbn [app] in Ho.
  assert (zlen (outbuf h') = 101) as Hlo by (rewrite Ho, zlen_app, Hl; reflexivity).
  destruct (chan_session_exact 2 2 demo_vm 4096 [] demo_request (zrepeat 101 0) h') as (s' & Es & _).
  - split.
    + reflexivity.
    + split; [lia|]. split; [lia|]. intros i Hi. apply ram_byte_some. change (ram (mem (xport demo_vm))) with (zrepeat 8192 0). rewrite zlen_zrepeat by lia. lia.
    + split; [apply wire_bytes_bytes, demo_frame_ok | split; vm_compute; [reflexivity | discriminate]].
    + split; vm_compute; [reflexivity | discriminate].
    + exact E.
    + split; [rewrite Ho; apply Forall_app_2; [exact Hb | exact Hkb] | rewrite Hlo; reflexivity].
  - lia.
  - lia.
  - exists s', f. split; [exact (ec_verifies _ _ _ Hf)|]. rewrite Hlo in Es. change (zlen (zrepeat 101 0)) with 101 in Es. change (101 <=? 101) with true in Es. cbv iota in Es.
    rewrite (ztake_all 101 (outbuf h')) in Es by lia. rewrite Ho in Es. exact Es.
Defined.
