(* ===== verification/Xport.v ===== *)
(** * The transport's boot proof: [xport_selftest] of [tb-hal/src/mem/organ/selftests.rs].

    At boot the kernel proves that a peer answers behind the console: it sends an echo request
    with a fresh challenge, finds the reply's frame in the bytes it gets, verifies the reply
    under the key that follows it, and then checks that four tampered versions are refused.
    This file has that program over the driver of [Driver], what its verdict is worth on any
    machine, and its verdict on the monitor of [TbVmm]. *)
From Stdlib Require Import ZArith Lia String.
From stdpp Require Import base numbers option tactics sets list.
From S2P Require Import Prelude Khash Inferwire InferChunks InferHost GuestMem VirtioMmio VirtioSpec DevBus Drv Driver DriverSpec TbVmm.
Open Scope Z_scope.

Definition XPORT_BODY_LEN : Z := 16.
Definition INFER_KEY_REVEAL_LEN : Z := KHASH_KEY_LEN.
Definition QEMU_CHARDEV_HARNESS : Z := 2.
(** [brand_upper!()] is ["YUVA"]. *)
Definition LABEL : list Z := str "YUVA-M30-CHALLENGE-V1".
Definition RESP_LEN : Z := INFER_HEADER_LEN + XPORT_BODY_LEN + INFER_KEY_REVEAL_LEN.

Inductive InferChanProof : Type :=
  | Absent
  | LegacyUnsupported
  | Proven (slot req_id resp_len : Z) (challenge nonce tag : list Z) (peer_id : Z) (key : list Z)
  | Failed (stage : Z).

(** The challenge and the correlation id, from the cycle counter. *)
Definition xport_challenge (ticks : Z) : res (list Z * Z) :=
  seed ← copy_loop (zlen LABEL) LABEL 0 (zrepeat (zlen LABEL + 8) 0);
  seed ← copy_loop 8 (to_le 8 ticks) (zlen LABEL) seed;
  h ← uhash seed;
  challenge ← copy_loop INFER_CHALLENGE_LEN h 0 (zrepeat INFER_CHALLENGE_LEN 0);
  rid ← slice h 16 24;
  Val (challenge, of_le rid).

Definition xport_body : res (list Z) :=
  for_up 0 XPORT_BODY_LEN (fun b body => upd body b (wrapping_add 8 (wrapping_mul 8 b 29) 0xB0)) (zrepeat XPORT_BODY_LEN 0).

Definition xport_request (ticks : Z) : res InferFrame :=
  '(challenge, req_id) ← xport_challenge ticks;
  body ← xport_body;
  Val (mkFrame ECHO_REQ req_id challenge (zrepeat INFER_NONCE_LEN 0) 0 (zrepeat INFER_TAG_LEN 0) body).

(** Feed the reply to the accumulator until a frame comes out: its length, and how many bytes
    went in. *)
Fixpoint feed (n : nat) (p : Z) (acc : FrameAccum) (resp_buf : list Z) : res (FrameAccum * Z * Z) :=
  match n with
  | O => Val (acc, 0, 0)
  | S n =>
      b ← idx resp_buf p;
      '(acc, r) ← push_byte acc b;
      match r with Some fl => Val (acc, fl, p + 1) | None => feed n (p + 1) acc resp_buf end
  end.

Definition flip_first (l : list Z) : res (list Z) :=
  x ← idx l 0;
  upd l 0 (Z.lxor x 1).

(** The four tampered replies; [true] when all are refused. *)
Definition negatives_reject (k : list Z) (acc_bytes : list Z) (frame_len : Z) (resp req : InferFrame) : res bool :=
  bad ← flip_first (tag resp);
  v ← verify_echo k (mkFrame (kind resp) (req_id resp) (challenge resp) (nonce resp) (peer_id resp) bad (payload resp)) req;
  let badtag_rejected := negb v in
  wrong_key ← flip_first k;
  v ← verify_echo wrong_key resp req;
  let wrongkey_rejected := negb v in
  w ← slice acc_bytes 0 (frame_len - 1);
  d ← decode w;
  let partial_rejected := bool_decide (d = None) in
  ds ← copy_loop frame_len acc_bytes 0 (zrepeat (INFER_HEADER_LEN + XPORT_BODY_LEN) 0);
  ds ← copy_loop 4 (to_le 4 (INFER_PAYLOAD_CAP + 1)) OFF_PAYLOAD_LEN ds;
  w ← slice ds 0 frame_len;
  d ← decode w;
  let desync_rejected := bool_decide (d = None) in
  Val (badtag_rejected && wrongkey_rejected && partial_rejected && desync_rejected).

(** From the reply's bytes to the verdict. *)
Definition xport_verify (slot : Z) (req : InferFrame) (resp_buf : list Z) : res InferChanProof :=
  '(acc, frame_len, fed) ← feed (Z.to_nat RESP_LEN) 0 (new INFER_ACCUM_CAP) resp_buf;
  if (frame_len =? 0) || negb (fed =? frame_len) || negb (RESP_LEN - fed =? INFER_KEY_REVEAL_LEN) then Val (Failed 4) else
  acc_bytes ← accum_bytes acc;
  w ← slice acc_bytes 0 frame_len;
  r ← decode w;
  match r with
  | None => Val (Failed 4)
  | Some resp =>
  k ← for_up 0 INFER_KEY_LEN (fun kk k => x ← idx resp_buf (fed + kk); upd k kk x) (zrepeat INFER_KEY_LEN 0);
  if negb (peer_id resp =? QEMU_CHARDEV_HARNESS) && negb (peer_id resp =? TB_VMM_HOST) then Val (Failed 5) else
  v ← verify_echo k resp req;
  if negb v then Val (Failed 6) else
  ok ← negatives_reject k acc_bytes frame_len resp req;
  if negb ok then Val (Failed 7) else
  Val (Proven slot (req_id req) frame_len (challenge req) (nonce resp) (tag resp) (peer_id resp) k)
  end.

(** [ticks] is the cycle counter's value; a panic of the code between the accesses is the
    program's result. *)
Definition xport_selftest (fuel : nat) (ticks : Z) : drv (res InferChanProof) :=
  s ← chan_probe;
  match s with
  | None => legacy ← chan_saw_legacy; Ret (Val (if legacy : bool then LegacyUnsupported else Absent))
  | Some slot =>
  match (req ← xport_request ticks; '(w, n) ← canon req (zrepeat (INFER_HEADER_LEN + XPORT_BODY_LEN) 0); Val (req, w, n)) with
  | Panic => Ret Panic
  | Val (req, req_wire, req_len) =>
  if negb (req_len =? INFER_HEADER_LEN + XPORT_BODY_LEN) then Ret (Val (Failed 2)) else
  match slice req_wire 0 req_len with
  | Panic => Ret Panic
  | Val req_wire =>
  '(n, resp_buf) ← chan_send_recv fuel slot req_wire (zrepeat RESP_LEN 0);
  if bool_decide (n = Some RESP_LEN) then Ret (xport_verify slot req resp_buf) else Ret (Val (Failed 3))
  end end end.

(** ** Lemmas: the request *)

Lemma slice_all {A} (l : list A) n : zlen l = n -> slice l 0 n = Val l.
Proof. intros Hl. pose proof (zlen_nonneg l). rewrite slice_ok, zsub_all by lia. done. Qed.

Lemma xport_challenge_runs ticks : runs (xport_challenge ticks) (fun '(c, rid) => (zlen c = INFER_CHALLENGE_LEN /\ bytes c) /\ is_u64 rid).
Proof.
  unfold xport_challenge. rewrite (copy_loop_front (zlen LABEL)) by done. rewrite bind_val.
  rewrite (ztake_all (zlen LABEL) LABEL), (copy_loop_next 8 (to_le 8 ticks) (zlen LABEL) LABEL) by (done || lia). rewrite bind_val.
  destruct (uhash_digest ((LABEL ++ ztake 8 (to_le 8 ticks)) ++ zdrop 8 (zdrop (zlen LABEL) (zrepeat (zlen LABEL + 8) 0)))) as (h & E & Hl & Hb).
  rewrite E, bind_val. clear E. rewrite copy_loop_front by (rewrite ?Hl; done). rewrite bind_val, slice_ok, bind_val by lia. apply runs_val.
  change (zdrop INFER_CHALLENGE_LEN (zrepeat INFER_CHALLENGE_LEN 0)) with (@nil Z). rewrite app_nil_r. unfold INFER_CHALLENGE_LEN.
  split; [split; [zl | by apply ztake_bytes]|]. replace 64 with (8 * zlen (zsub 16 (24 - 16) h)) by (rewrite zlen_zsub; lia). by apply of_le_bound, zsub_bytes.
Qed.

Definition body_bytes : list Z := map (fun b => (b * 29 + 0xB0) mod 256) (seqZ 0 16).
Lemma xport_body_eq : xport_body = Val body_bytes.
Proof. by vm_compute. Qed.

(** The request is a frame with the body's bytes. *)
Lemma xport_request_runs ticks : runs (xport_request ticks) (fun req => frame_ok req /\ kind req = ECHO_REQ /\ payload req = body_bytes).
Proof.
  unfold xport_request. eapply runs_bind; [apply xport_challenge_runs|]. intros [c rid] [Hc Hr]. rewrite xport_body_eq, bind_val. apply runs_val.
  split; [|done]. split; cbn [kind req_id challenge nonce peer_id tag payload]; [done | done | done | by split; [|by apply zrepeat_Forall] | by vm_compute | by split; [|by apply zrepeat_Forall]|].
  split; [done|]. apply (Forall_impl (fun x => 0 <= x < 2 ^ 8)); [|done]. apply Forall_map, Forall_forall. intros x _. cbn. apply Z.mod_pos_bound. lia.
Qed.

Lemma request_wire req : frame_ok req -> payload req = body_bytes -> let n := INFER_HEADER_LEN + XPORT_BODY_LEN in
  canon req (zrepeat n 0) = Val (wire_bytes req, n) /\ zlen (wire_bytes req) = n.
Proof.
  intros Hq Hp n. assert (zlen (wire_bytes req) = n) as Hl by (rewrite wire_bytes_length, Hp by done; done). split; [|done].
  assert (wire_len req = n) as Hw by (unfold wire_len, canon_len; rewrite Hp; reflexivity). rewrite inferwire_canon_eq, Hw by (done || rewrite Hw; reflexivity || (rewrite zlen_zrepeat; rewrite Hw; unfold n; done)).
  rewrite zdrop_zrepeat, Z.sub_diag by done. by rewrite app_nil_r.
Qed.

(** ** Lemmas: the reply's frame *)

Lemma ztake_snoc {A} (l : list A) i x : idx l i = Val x -> ztake (i + 1) l = ztake i l ++ [x].
Proof. intros Hx. apply idx_val_inv in Hx as [Hi Hx]. unfold ztake. replace (Z.to_nat (i + 1)) with (S (Z.to_nat i)) by lia. by rewrite (take_S_r _ _ x). Qed.

(** What the accumulator keeps of the first [q] bytes. *)
Definition kept (l : list Z) (q : Z) : list Z := settle (ztake q l).

Lemma feed_runs l n : bytes l -> forall p acc, 0 <= p -> p + Z.of_nat n <= zlen l -> holds INFER_ACCUM_CAP acc (kept l p) -> stuck (kept l p) ->
  runs (feed n p acc l) (fun '(acc', fl, fed) =>
    fl = 0 /\ (forall q, p < q <= p + Z.of_nat n -> whole (kept l q) = None) \/
    p < fed <= zlen l /\ whole (kept l fed) = Some fl /\ zlen (kept l fed) = fl /\ holds INFER_ACCUM_CAP acc' (kept l fed) /\ forall q, p < q < fed -> whole (kept l q) = None).
Proof.
  intros Hb. induction n as [|n IH]; intros p acc Hp Hn Hh Hs; cbn [feed].
  { apply runs_val. left. split; [done | lia]. }
  destruct (idx_ok l p) as [x Hx]; [lia|]. rewrite Hx, bind_val. pose proof (ztake_snoc l p x Hx) as Hsn.
  assert (kept l (p + 1) = settle (kept l p ++ [x])) as Hk by (unfold kept; by rewrite Hsn, settle_app).
  assert (bytes (kept l p ++ [x])) as Hkb.
  { destruct (settle_suffix (ztake p l)) as [pre E]. pose proof (ztake_bytes (p + 1) l Hb) as Ht. rewrite Hsn, E, <- app_assoc in Ht. by apply Forall_app in Ht as [_ Ht]. }
  apply Forall_app in Hkb as Hkx. destruct Hkx as [Hkp Hx8]. apply Forall_cons in Hx8 as [Hx8 _].
  eapply runs_bind; [apply (push_runs INFER_ACCUM_CAP acc (kept l p) x); [done | done | done | reflexivity]|]. intros [acc' r]. cbv zeta.
  pose proof (stuck_short _ Hs) as Hshort. rewrite (proj2 (Z.eqb_neq _ _)) by lia. rewrite <- Hk. intros [Hh' ->].
  pose proof (settle_push (kept l p) x Hkb Hs) as Hpush. cbv zeta in Hpush. rewrite <- Hk in Hpush.
  destruct (whole (kept l (p + 1))) as [fl|] eqn:Ew.
  - apply runs_val. right. destruct Hpush as [-> _]. split; [lia|]. split; [done|]. split; [done|]. split; [done|]. intros q Hq. lia.
  - eapply runs_mono; [apply (IH (p + 1) acc'); [lia | lia | done | done]|].
    assert (forall q, p < q -> ~ p + 1 < q -> whole (kept l q) = None) as H1 by (intros q Hq Hq'; by replace q with (p + 1) by lia).
    intros [[a fl] fed] [[-> Hq]|(Hf & Hw & Hl & Ha & Hq)]; [left | right].
    + split; [done|]. intros q Hq'. destruct (decide (p + 1 < q)); [apply Hq; lia | apply H1; lia].
    + split; [lia|]. split; [done|]. split; [done|]. split; [done|]. intros q Hq'. destruct (decide (p + 1 < q)); [apply Hq; lia | apply H1; lia].
Qed.

(** The reply is one frame and a key. *)
Record framed (l : list Z) (f : InferFrame) (k : list Z) : Prop := {
  fr_ok : frame_ok f;
  fr_key : zlen k = INFER_KEY_LEN;
  fr_parts : l = wire_bytes f ++ k;
}.

(** Feeding such a reply stops at the end of its frame. *)
Lemma feed_framed l f k : bytes l -> zlen l = RESP_LEN -> framed l f k ->
  runs (feed (Z.to_nat RESP_LEN) 0 (new INFER_ACCUM_CAP) l) (fun '(acc, fl, fed) => fl = zlen (wire_bytes f) /\ fed = fl /\ holds INFER_ACCUM_CAP acc (wire_bytes f)).
Proof.
  intros Hb Hl [Hf Hk ->]. set (w := wire_bytes f) in *. set (l := w ++ k) in *. assert (zlen l = zlen w + 32) as Hlen by (unfold l; rewrite zlen_app, Hk; reflexivity).
  destruct (wire_bytes_plausible f [] Hf) as [Hpl Hwh]. rewrite app_nil_r in Hpl, Hwh. fold w in Hpl, Hwh. pose proof (zlen_nonneg w).
  assert (forall q, 0 <= q <= zlen w -> kept l q = ztake q w) as Hkept.
  { intros q Hq. unfold kept, l. rewrite ztake_app_le by lia. apply settle_plausible, (plausible_app _ (zdrop q w)). by rewrite ztake_zdrop. }
  assert (kept l (zlen w) = w) as Hall by (rewrite Hkept, ztake_all by lia; done).
  eapply runs_mono; [apply (feed_runs l (Z.to_nat RESP_LEN) Hb 0); [lia | rewrite Hl; reflexivity | by apply new_holds | split; reflexivity]|].
  intros [[acc fl] fed] [[_ Hq]|(Hfed & Hw & Hzl & Hh & Hq)].
  { exfalso. specialize (Hq (zlen w)). rewrite Hall, Hwh in Hq. discriminate Hq. change (Z.of_nat (Z.to_nat RESP_LEN)) with RESP_LEN. destruct (whole_inv _ _ Hwh). lia. }
  assert (fed = zlen w) as ->.
  { destruct (Z.lt_trichotomy fed (zlen w)) as [Hlt|[E|Hgt]]; [|done|].
    - exfalso. rewrite Hkept in Hw by lia. destruct (whole_inv _ _ Hw) as (H66 & Efl & Hle). destruct (whole_inv _ _ Hwh) as (_ & Ew & _).
      assert (declared w = declared (ztake fed w)) as Hd by (rewrite <- (ztake_zdrop fed w) at 1; by apply declared_app). rewrite zlen_ztake in Hle. lia.
    - exfalso. specialize (Hq (zlen w)). rewrite Hall, Hwh in Hq. discriminate Hq. destruct (whole_inv _ _ Hwh). lia. }
  rewrite Hall in Hzl, Hh. done.
Qed.

Lemma accum_bytes_eq CAP a v : holds CAP a v -> accum_bytes a = Val v.
Proof.
  intros [_ Hl [junk Hb]]. pose proof (zlen_nonneg v). pose proof (zlen_nonneg junk). unfold accum_bytes. rewrite Hl, Hb, slice_ok by (rewrite ?zlen_app; lia).
  by rewrite zsub_app_eq by lia.
Qed.

(** And if it stops where the frame ends and a key is left, the reply was such. *)
Lemma feed_frames l acc fl fed w : bytes l -> zlen l = RESP_LEN -> feed (Z.to_nat RESP_LEN) 0 (new INFER_ACCUM_CAP) l = Val (acc, fl, fed) -> fl <> 0 -> fed = fl -> RESP_LEN - fed = INFER_KEY_LEN ->
  accum_bytes acc = Val w -> forall f, decode (ztake fl w) = Val (Some f) -> framed l f (zdrop fed l).
Proof.
  intros Hb Hl E Hfl -> Hrest Hw f Hd.
  destruct (feed_runs l (Z.to_nat RESP_LEN) Hb 0 (new INFER_ACCUM_CAP)) as ([[acc' fl'] fed'] & E' & Hr); [lia | rewrite Hl; reflexivity | by apply new_holds | split; reflexivity|].
  rewrite E in E'. injection E' as <- <- <-. destruct Hr as [[Hr _]|(Hf & Hwh & Hzl & Hh & _)]; [done|].
  assert (kept l fl = ztake fl l) as Hk.
  { destruct (settle_suffix (ztake fl l)) as [pre Hpre]. fold (kept l fl) in Hpre. assert (zlen (ztake fl l) = fl) as Ht by (rewrite zlen_ztake; lia).
    rewrite Hpre, zlen_app in Ht. rewrite (zlen_0 pre) in Hpre by lia. done. }
  rewrite Hk in *. pose proof (accum_bytes_eq _ _ _ Hh) as Ha. rewrite Ha in Hw. injection Hw as <-. rewrite (ztake_all fl) in Hd by lia.
  apply inferwire_decode_some in Hd as [Hok [tl Htl]]; [|by apply ztake_bytes]. destruct (whole_inv _ _ Hwh) as (H66 & Efl & _).
  rewrite Htl in Efl, Hzl. change (declared (wire_bytes f ++ tl)) with (of_le (zsub 62 4 (wire_bytes f ++ tl))) in Efl. rewrite wire_bytes_declared in Efl by done.
  rewrite zlen_app, wire_bytes_length in Hzl by done. rewrite (zlen_0 tl), app_nil_r in Htl by lia. split; [done | rewrite zlen_zdrop; lia|]. by rewrite <- Htl, ztake_zdrop.
Qed.

(** ** Lemmas: the tampered replies *)

Lemma flip_first_eq x l : flip_first (x :: l) = Val (Z.lxor x 1 :: l).
Proof. done. Qed.

Lemma lxor_1_ne x : Z.lxor x 1 <> x.
Proof. intros E. apply (f_equal (Z.lxor x)) in E. by rewrite <- Z.lxor_assoc, Z.lxor_nilpotent, Z.lxor_0_l in E. Qed.

Lemma flip_bytes x l : bytes (x :: l) -> bytes (Z.lxor x 1 :: l).
Proof. intros [Hx Hl]%Forall_cons. apply Forall_cons. split; [|done]. apply lxor_in_u; [lia | done | by vm_compute]. Qed.

Lemma truncated_rejected f n : frame_ok f -> 0 <= n < zlen (wire_bytes f) -> decode (ztake n (wire_bytes f)) = Val None.
Proof.
  intros Hf Hn. pose proof (wire_bytes_bytes f Hf) as Hb. destruct (inferwire_decode_total (ztake n (wire_bytes f))) as [[g|] E]; [by apply ztake_bytes | exfalso | done].
  apply inferwire_decode_some in E as [Hg [tl Htl]]; [|by apply ztake_bytes].
  pose proof (wire_bytes_declared f [] Hf) as Hdf. rewrite app_nil_r in Hdf. pose proof (wire_bytes_declared g (tl ++ zdrop n (wire_bytes f)) Hg) as Hdg.
  rewrite app_assoc, <- Htl, ztake_zdrop in Hdg. apply (f_equal zlen) in Htl. rewrite zlen_ztake, zlen_app, !wire_bytes_length in Htl by done.
  rewrite wire_bytes_length in Hn by done. pose proof (zlen_nonneg tl). lia.
Qed.

Lemma oversize_rejected l : bytes l -> declared l = INFER_PAYLOAD_CAP + 1 -> decode l = Val None.
Proof.
  intros Hb Hd. destruct (inferwire_decode_total l Hb) as [[g|] E]; [exfalso | done]. apply inferwire_decode_some in E as [Hg [tl ->]]; [|done].
  unfold declared in Hd. rewrite wire_bytes_declared in Hd by done. destruct (ok_payload g Hg). lia.
Qed.

Section negatives.
Context (req f : InferFrame) (k : list Z) (Hq : frame_ok req) (Hf : frame_ok f) (Hk : zlen k = INFER_KEY_LEN) (Hl : zlen (wire_bytes f) = INFER_HEADER_LEN + XPORT_BODY_LEN).

(** A tag with one bit changed is never accepted. *)
Lemma badtag_rejected t tl : tag f = t :: tl -> verify_echo k f req = Val true ->
  verify_echo k (mkFrame (kind f) (req_id f) (challenge f) (nonce f) (peer_id f) (Z.lxor t 1 :: tl) (payload f)) req = Val false.
Proof.
  intros Ht Hv. set (g := mkFrame _ _ _ _ _ _ _).
  assert (frame_ok g) as Hg.
  { destruct Hf as [? ? ? ? ? [Htl Htb] ?]. split; cbn; [done.. | | done]. rewrite Ht in Htl, Htb. split; [done | by apply flip_bytes]. }
  destruct (verify_echo_iff k f req Hk Hf Hq) as (b & Eb & Hb). rewrite Eb in Hv. injection Hv as ->. destruct (proj1 Hb eq_refl) as (_ & _ & _ & _ & full & Efull & Hfull).
  destruct (verify_echo_iff k g req Hk Hg Hq) as (b' & Eb' & Hb'). rewrite Eb'. f_equal. destruct b'; [exfalso | done]. destruct (proj1 Hb' eq_refl) as (_ & _ & _ & _ & full' & Efull' & Hfull').
  cbn [peer_id nonce tag g] in Efull', Hfull'. rewrite Efull in Efull'. injection Efull' as <-. rewrite <- Hfull, Ht in Hfull'. injection Hfull' as E. by apply (lxor_1_ne t).
Qed.

(** So the negatives hold unless the key with one bit changed verifies the reply too. *)
Lemma negatives_eq x tl : k = x :: tl -> verify_echo k f req = Val true ->
  exists b, verify_echo (Z.lxor x 1 :: tl) f req = Val b /\ negatives_reject k (wire_bytes f) (zlen (wire_bytes f)) f req = Val (negb b).
Proof.
  intros Ex Hv. assert (zlen (Z.lxor x 1 :: tl) = INFER_KEY_LEN) as Hk' by (rewrite Ex in Hk; done).
  destruct (verify_echo_iff _ f req Hk' Hf Hq) as (b & Eb & _). exists b. split; [done|]. unfold negatives_reject.
  destruct (tag f) as [|t tg] eqn:Et; [exfalso; destruct (ok_tag f Hf) as [E _]; by rewrite Et in E|]. rewrite flip_first_eq, bind_val, (badtag_rejected t tg Et Hv), bind_val.
  rewrite Ex, flip_first_eq, bind_val, Eb, bind_val. pose proof (wire_bytes_bytes f Hf) as Hb. rewrite Hl. set (w := wire_bytes f) in *. change (INFER_HEADER_LEN + XPORT_BODY_LEN) with 82 in *.
  rewrite (slice_ok w 0 (82 - 1)), bind_val by lia. change (zsub 0 (82 - 1 - 0) w) with (ztake 81 w). pose proof (truncated_rejected f 81 Hf) as Htr. fold w in Htr. rewrite Htr, bind_val by lia.
  rewrite copy_loop_front, bind_val by (rewrite ?zlen_zrepeat; lia). rewrite (ztake_all 82 w) by lia. change (zdrop 82 (zrepeat 82 0)) with (@nil Z). rewrite app_nil_r, <- (ztake_zdrop 62 w) at 1.
  rewrite copy_loop_next, bind_val by (unfold OFF_PAYLOAD_LEN; rewrite ?zlen_ztake, ?zlen_zdrop, ?zlen_to_le; lia). rewrite (ztake_all 4) by done.
  rewrite slice_ok, bind_val by (rewrite ?zlen_app, ?zlen_zdrop, ?zlen_ztake, ?zlen_to_le; lia). rewrite oversize_rejected, bind_val; [by destruct b | |].
  - rewrite zsub_all by (rewrite ?zlen_app, ?zlen_zdrop, ?zlen_ztake, ?zlen_to_le; lia). repeat apply Forall_app_2; [by apply ztake_bytes | apply to_le_bytes | by apply zdrop_bytes, zdrop_bytes].
  - rewrite zsub_all by (rewrite ?zlen_app, ?zlen_zdrop, ?zlen_ztake, ?zlen_to_le; lia). unfold declared. rewrite <- app_assoc, zsub_app_mid; [done | rewrite zlen_ztake; lia | done].
Qed.
End negatives.

(** ** Lemmas: the verdict *)

Definition known_peer (p : Z) : bool := (p =? QEMU_CHARDEV_HARNESS) || (p =? TB_VMM_HOST).

(** What becomes of a reply that is a frame [f] and a key whose first byte is [x]: [v] says
    whether the key verifies the frame, and [v'] whether the key with one bit changed does. *)
Definition verdict (slot : Z) (req f : InferFrame) (k : list Z) (v v' : bool) : InferChanProof :=
  if negb (known_peer (peer_id f)) then Failed 5 else
  if negb v then Failed 6 else
  if v' then Failed 7 else
  Proven slot (req_id req) (INFER_HEADER_LEN + XPORT_BODY_LEN) (challenge req) (nonce f) (tag f) (peer_id f) k.

Lemma xport_verify_framed slot req l f x tl : bytes l -> zlen l = RESP_LEN -> frame_ok req -> framed l f (x :: tl) ->
  exists v v', verify_echo (x :: tl) f req = Val v /\ verify_echo (Z.lxor x 1 :: tl) f req = Val v' /\ xport_verify slot req l = Val (verdict slot req f (x :: tl) v v').
Proof.
  intros Hb Hl Hq Hfr. pose proof Hfr as [Hf Hk Hlf]. set (k := x :: tl) in *.
  assert (zlen (Z.lxor x 1 :: tl) = INFER_KEY_LEN) as Hk' by done.
  destruct (verify_echo_iff k f req Hk Hf Hq) as (v & Ev & _). destruct (verify_echo_iff _ f req Hk' Hf Hq) as (v' & Ev' & _). exists v, v'. split; [done|]. split; [done|].
  destruct (feed_framed l f k Hb Hl Hfr) as ([[acc fl] fed] & E & -> & -> & Hh).
  assert (zlen (wire_bytes f) = INFER_HEADER_LEN + XPORT_BODY_LEN) as Hw by (rewrite Hlf, zlen_app, Hk in Hl; change RESP_LEN with (INFER_HEADER_LEN + XPORT_BODY_LEN + INFER_KEY_LEN) in Hl; lia).
  unfold xport_verify. rewrite E, bind_val. rewrite Hw, Z.eqb_refl. change (_ || _ || _) with false. cbv iota. rewrite (accum_bytes_eq _ _ _ Hh), bind_val.
  rewrite slice_ok, bind_val by (rewrite ?Hw; done || lia). rewrite <- Hw, Z.sub_0_r, zsub_all, decode_wire, bind_val by done.
  change (for_up 0 INFER_KEY_LEN _ _) with (copy_span INFER_KEY_LEN l (zlen (wire_bytes f)) 0 ([] ++ zrepeat INFER_KEY_LEN 0)).
  assert (INFER_KEY_LEN = 32) as HK by done. pose proof (zlen_nonneg (wire_bytes f)).
  rewrite copy_span_next, bind_val by (rewrite ?Hlf, ?zlen_app, ?Hk, ?zlen_zrepeat; try reflexivity; lia).
  change (zdrop INFER_KEY_LEN (zrepeat INFER_KEY_LEN 0)) with (@nil Z). rewrite app_nil_r, app_nil_l. pose proof (zsub_app_mid (zlen (wire_bytes f)) INFER_KEY_LEN (wire_bytes f) k [] eq_refl Hk) as Es. rewrite app_nil_r, <- Hlf in Es. rewrite Es.
  unfold verdict, known_peer. rewrite negb_orb. destruct (negb (peer_id f =? QEMU_CHARDEV_HARNESS) && negb (peer_id f =? TB_VMM_HOST)); [done|].
  rewrite Ev, bind_val. destruct v; cbn [negb]; [|done].
  destruct (negatives_eq req f k Hq Hf Hk Hw x tl eq_refl Ev) as (b & Eb & En). rewrite Ev' in Eb. injection Eb as <-. rewrite En, bind_val. destruct v'; cbn [negb]; [done|]. by rewrite Hw.
Qed.

(** A verdict is given on every reply: it fails at stage 4 exactly when the reply is not one
    frame and a key. *)
Lemma xport_verify_cases slot req l : bytes l -> zlen l = RESP_LEN -> frame_ok req ->
  (exists f x tl v v', framed l f (x :: tl) /\ verify_echo (x :: tl) f req = Val v /\ verify_echo (Z.lxor x 1 :: tl) f req = Val v' /\
    xport_verify slot req l = Val (verdict slot req f (x :: tl) v v')) \/
  (forall f k, ~ framed l f k) /\ xport_verify slot req l = Val (Failed 4).
Proof.
  intros Hb Hl Hq.
  assert (forall f k, framed l f k -> exists f x tl v v', framed l f (x :: tl) /\ verify_echo (x :: tl) f req = Val v /\ verify_echo (Z.lxor x 1 :: tl) f req = Val v' /\
    xport_verify slot req l = Val (verdict slot req f (x :: tl) v v')) as Hyes.
  { intros f [|x tl] Hfr; [discriminate (fr_key _ _ _ Hfr)|]. destruct (xport_verify_framed slot req l f x tl Hb Hl Hq Hfr) as (v & v' & H). by exists f, x, tl, v, v'. }
  destruct (feed_runs l (Z.to_nat RESP_LEN) Hb 0 (new INFER_ACCUM_CAP)) as ([[acc fl] fed] & E & Hr); [lia | rewrite Hl; reflexivity | by apply new_holds | split; reflexivity|].
  unfold xport_verify at 2. rewrite E, bind_val. destruct (_ || _ || _) eqn:Ec.
  { right. split; [|done]. intros f k Hfr. destruct (feed_framed l f k Hb Hl Hfr) as ([[acc' fl'] fed'] & E' & Hfl & Hfed & _). rewrite E in E'. injection E' as <- <- <-.
    pose proof (fr_parts _ _ _ Hfr) as Hp. apply (f_equal zlen) in Hp. rewrite zlen_app, (fr_key _ _ _ Hfr), Hl in Hp. destruct (ok_payload f (fr_ok _ _ _ Hfr)).
    pose proof (wire_bytes_length f (fr_ok _ _ _ Hfr)). pose proof (zlen_nonneg (payload f)).
    apply orb_true_iff in Ec as [[Ec|Ec]%orb_true_iff|Ec]; [apply Z.eqb_eq in Ec; lia | apply negb_true_iff, Z.eqb_neq in Ec; lia | apply negb_true_iff, Z.eqb_neq in Ec]. change INFER_KEY_REVEAL_LEN with INFER_KEY_LEN in Ec. lia. }
  apply orb_false_iff in Ec as [[E0 E1]%orb_false_iff E2]. apply Z.eqb_neq in E0. apply negb_false_iff, Z.eqb_eq in E1. apply negb_false_iff, Z.eqb_eq in E2. change INFER_KEY_REVEAL_LEN with INFER_KEY_LEN in E2.
  destruct Hr as [[Hr _]|(Hf & Hw & Hzl & Hh & _)]; [done|]. pose proof (accum_bytes_eq _ _ _ Hh) as Ha. rewrite Ha, bind_val, slice_ok, bind_val by lia.
  rewrite Z.sub_0_r, zsub_all by done.
  assert (bytes (kept l fed)) as Hkb.
  { destruct (settle_suffix (ztake fed l)) as [pre Ep]. pose proof (ztake_bytes fed l Hb) as Ht. rewrite Ep in Ht. by apply Forall_app in Ht as [_ Ht]. }
  destruct (inferwire_decode_total (kept l fed) Hkb) as [[f|] Ed].
  - left. apply (Hyes f (zdrop fed l)). eapply (feed_frames l acc fl fed); [done.. |]. by rewrite ztake_all by lia.
  - right. rewrite Ed, bind_val. split; [|done]. intros f k Hfr. destruct (feed_framed l f k Hb Hl Hfr) as ([[acc' fl'] fed'] & E' & Hfl & Hfed & Hh'). rewrite E in E'. injection E' as <- <- <-.
    pose proof (accum_bytes_eq _ _ _ Hh') as Ha'. rewrite Ha in Ha'. injection Ha' as Ha'. rewrite Ha', decode_wire in Ed by apply Hfr. done.
Qed.

(** ** Lemmas: what a driver's result is, on any machine *)

Definition gives {A} (m : drv A) (Q : A -> Prop) : Prop := obeys (fun _ _ => True) (fun (s : unit) _ _ => s) m tt (fun a _ => Q a) (fun _ => True).

Lemma gives_bind {A B} (m : drv A) (f : A -> drv B) P Q : gives m P -> (forall a, P a -> gives (f a) Q) -> gives (m ≫= f) Q.
Proof. intros Hm Hf. eapply obeys_then; [exact Hm|]. intros a [] Ha. by apply Hf. Qed.

Lemma gives_any {A} (m : drv A) : gives m (fun _ => True).
Proof. unfold gives. induction m as [a | |e k IH]; [done | done|]. split; [done|]. intros r _. apply IH. Qed.

Lemma gives_skip {A B} (m : drv A) (f : A -> drv B) Q : (forall a, gives (f a) Q) -> gives (m ≫= f) Q.
Proof. intros Hf. eapply gives_bind; [apply gives_any|]. intros a _. apply Hf. Qed.

Lemma gives_ask e : gives (ask e) (proper e).
Proof. split; [done|]. by intros r Hr. Qed.

Lemma read_bytes_gives n : forall pa, gives (read_bytes n pa) (fun l => bytes l /\ zlen l = Z.of_nat n).
Proof.
  induction n as [|n IH]; intros pa; cbn [read_bytes]; [split; [constructor | done]|].
  eapply (gives_bind (ram_r8 pa) _ is_u8); [apply (gives_ask (RamRead 1 pa))|]. intros b Hb. eapply gives_bind; [apply IH|]. intros l [Hl Hz]. split; [by apply Forall_cons | rewrite zlen_cons; lia].
Qed.

(** A buffer a session has filled is a buffer of bytes of the same length. *)
Definition buffer (n : Z) (l : list Z) : Prop := bytes l /\ zlen l = n.

Lemma chan_fail_gives dev frame resp n : buffer n resp -> gives (chan_fail dev frame resp) (fun r => buffer n (snd r)).
Proof. intros Hb. unfold chan_fail. apply gives_skip. by intros []. Qed.

Lemma rx_loop_gives fuel dev frame n : forall resp written ai us, buffer n resp -> 0 <= written ->
  gives (rx_loop fuel dev frame resp written ai us) (fun r => buffer n (snd r)).
Proof.
  induction fuel as [|fuel IH]; intros resp written ai us Hb Hw; cbn [rx_loop]; cbv zeta; destruct (Z.ltb_spec written (zlen resp)) as [Hlt|Hge]; cbn [negb]; try done; try (apply gives_skip; by intros []).
  apply gives_skip. intros ok. destruct ok; cbn [negb]; [|by apply chan_fail_gives]. apply gives_skip. intros _. eapply (gives_bind (ram_r32 _) _ is_u32); [apply (gives_ask (RamRead 4 _))|]. intros len Hlen. cbv zeta. unfold in_u in Hlen.
  set (tk := if zlen resp - written <? len then zlen resp - written else len). assert (0 <= tk <= zlen resp - written) as Htk by (unfold tk; destruct (Z.ltb_spec (zlen resp - written) len); lia).
  eapply gives_bind; [apply read_bytes_gives|]. intros got [Hg Hgl]. destruct Hb as [Hb Hl].
  assert (buffer n (ztake written resp ++ got ++ zdrop (written + tk) resp)) as Hb'.
  { split; [apply Forall_app_2; [by apply ztake_bytes | apply Forall_app_2; [done | by apply zdrop_bytes]]|]. rewrite !zlen_app, zlen_ztake, zlen_zdrop, Hgl. lia. }
  destruct (written + tk <? _); [|apply IH; [done | lia]].
  repeat (apply gives_skip; intros []). apply IH; [done | lia].
Qed.

Lemma chan_send_recv_gives fuel slot req resp n : buffer n resp -> gives (chan_send_recv fuel slot req resp) (fun r => buffer n (snd r)).
Proof.
  intros Hb. unfold chan_send_recv. destruct (_ || _ || _ || _); [done|]. apply gives_skip. intros [base|]; [|done]. cbv zeta. apply gives_skip. intros [frame|]; [|done].
  unfold chan_session. cbv zeta. repeat (apply gives_skip; intros a; first [destruct a as [|]; cbn [negb]; [|by apply chan_fail_gives] | destruct a]). by apply rx_loop_gives.
Qed.

(** ** Lemmas: the self-test *)

(** A proof is worth this much: the key found on the channel authenticates, for this boot's
    challenge and the body sent, the peer's name and nonce; and one bit of the key matters. *)
Definition proven (req : InferFrame) (p : InferChanProof) : Prop :=
  match p with
  | Proven _ rid n c nonce tag peer k =>
      rid = req_id req /\ n = INFER_HEADER_LEN + XPORT_BODY_LEN /\ c = challenge req /\ known_peer peer = true /\
      zlen k = INFER_KEY_LEN /\ is_tag k (echo_msg peer nonce c body_bytes) tag /\
      forall x tl, k = x :: tl -> ~ is_tag (Z.lxor x 1 :: tl) (echo_msg peer nonce c body_bytes) tag
  | _ => True
  end.

Lemma verdict_proven slot req f x tl v v' : frame_ok req -> frame_ok f -> payload req = body_bytes -> zlen (x :: tl) = INFER_KEY_LEN ->
  verify_echo (x :: tl) f req = Val v -> verify_echo (Z.lxor x 1 :: tl) f req = Val v' -> proven req (verdict slot req f (x :: tl) v v').
Proof.
  intros Hq Hf Hp Hk Ev Ev'. unfold verdict. destruct (known_peer (peer_id f)) eqn:Ep; cbn [negb]; [|done]. destruct v; cbn [negb]; [|done]. destruct v'; [done|].
  destruct (verify_echo_iff _ f req Hk Hf Hq) as (v & E & Hv). rewrite Ev in E. injection E as <-. destruct (proj1 Hv eq_refl) as (Ek & Er & Ec & Epl & Ht).
  assert (zlen (Z.lxor x 1 :: tl) = INFER_KEY_LEN) as Hk' by done. destruct (verify_echo_iff _ f req Hk' Hf Hq) as (v' & E' & Hv'). rewrite Ev' in E'. injection E' as <-.
  rewrite Hp in Ht, Hv'. cbn [proven]. split; [done|]. split; [done|]. split; [done|]. split; [done|]. split; [done|]. split; [done|]. intros y tl' [= <- <-] Ht'.
  discriminate (proj2 Hv' (conj Ek (conj Er (conj Ec (conj (eq_trans Epl Hp) Ht'))))).
Qed.

Lemma xport_selftest_gives fuel ticks req : xport_request ticks = Val req -> gives (xport_selftest fuel ticks) (fun r => runs r (proven req)).
Proof.
  intros Er. destruct (xport_request_runs ticks) as (req' & Er' & Hq & _ & Hp). rewrite Er in Er'. injection Er' as <-. destruct (request_wire req Hq Hp) as [Ew Hw].
  unfold xport_selftest. apply gives_skip. intros [slot|]; [|apply gives_skip; intros []; [exact (runs_val LegacyUnsupported (proven req) I) | exact (runs_val Absent (proven req) I)]].
  rewrite Er, bind_val, Ew, bind_val, Z.eqb_refl. cbn [negb]. rewrite (slice_all (wire_bytes req) _ Hw). clear Er Ew.
  eapply gives_bind; [apply (chan_send_recv_gives _ _ _ _ RESP_LEN); split; [apply zrepeat_Forall; unfold in_u; lia | reflexivity]|]. intros [n l] [Hb Hl]. cbn [snd] in Hb, Hl.
  destruct (bool_decide _); [|exact (runs_val (Failed 3) (proven req) I)].
  destruct (xport_verify_cases slot req l Hb Hl Hq) as [(f & x & tl & v & v' & Hfr & Ev & Ev' & E)|[_ E]]; unfold gives, obeys; rewrite E; [|exact (runs_val (Failed 4) (proven req) I)].
  apply runs_val. apply verdict_proven; [done | apply Hfr | done | apply Hfr | done | done].
Qed.

(** ** Properties *)

(** C16: a proof is worth what it says, on any machine.  Whatever the device answers, the
    self-test does not panic; and when its verdict is [Proven], the key taken from the channel
    authenticates, under the digest, the peer's name (one of the two known) and nonce together
    with this boot's challenge and the body the kernel sent, while the same key with one bit
    changed does not. *)
Theorem xport_proof_sound fuel ticks tr r : ran (xport_selftest fuel ticks) tr (Done r) -> exists req p, xport_request ticks = Val req /\ r = Val p /\ proven req p.
Proof.
  intros Hr. destruct (xport_request_runs ticks) as (req & Er & _). destruct (obeys_ran _ _ _ _ _ _ _ _ (xport_selftest_gives fuel ticks req Er) Hr) as [_ (p & Ep & Hp)]. exists req, p. exact (conj Er (conj Ep Hp)).
Qed.

Section monitor.
Context {M : Type} `{GuestMemory M} (dfuel : nat).
#[local] Existing Instance vm_machine.

(** The monitor's words have their widths, so what it does is one of the runs. *)
Lemma vm_proper e (s : Vm M) r s' : handle (Machine := vm_machine dfuel) e s = Some (r, s') -> proper e r.
Proof.
  destruct e as [va pa| |frame|va|va v|n pa|n pa v|]; try done; cbn; intros (pa' & Hpa & Hr)%bind_Some.
  - apply bind_Some in Hr as (v & Hv & [= <- _]). unfold mmio_read in Hv. destruct (bus_read _ _ pa' (zrepeat 4 0)) as [data|] eqn:E; [|done]. injection Hv as <-.
    assert (zlen data = 4 /\ bytes data) as [Hl Hb]; [|change 32 with (8 * 4); rewrite <- Hl; by apply of_le_bound].
    unfold bus_read in E. destruct (lookup mmio_bus pa') as [[[base []]|]|]; [|injection E as <-; split; [done | apply zrepeat_Forall; unfold in_u; lia]|done].
    injection E as <-. unfold dev_read. destruct (_ && _); [split; [by rewrite zlen_to_le | apply to_le_bytes] | split; [done | apply zrepeat_Forall; unfold in_u; lia]].
  - injection Hr as <- _. apply read_slice_bytes in Hpa as [Hl Hb]; [|lia]. rewrite <- Hl. by apply of_le_bound.
Qed.

(** A monitor whose peer has said nothing yet, and a guest with a frame to take. *)
Record listening (s : Vm M) (f : Z) (free : list Z) : Prop := {
  li_pool : pool s = f :: free;
  li_frame : 0 <= f /\ f + 4096 <= 2 ^ 64 /\ mapped (mem (xport s)) f 4096;
  li_wf : host_wf (host (xport s)) /\ pending (host (xport s)) [];
  li_key : bytes (key (host (xport s)));
  li_quiet : outbuf (host (xport s)) = [];
  li_count : echoes (host (xport s)) + 1 < 2 ^ 64;
}.

Lemma session_result_full n out : 0 <= n -> zlen out = n -> session_result (zrepeat n 0) out = (Some n, out).
Proof. intros Hn Hl. unfold session_result. rewrite zlen_zrepeat, Z.max_r, Hl, Z.leb_refl by lia. f_equal. apply ztake_all. lia. Qed.

(** The verdict on the peer's own echo. *)
Lemma echo_verdict h req g x tl l : frame_ok req -> payload req = body_bytes -> key h = x :: tl -> zlen (x :: tl) = INFER_KEY_LEN -> echoed h req g -> framed l g (x :: tl) -> buffer RESP_LEN l ->
  let msg := echo_msg TB_VMM_HOST (host_nonce h) (challenge req) body_bytes in is_tag (x :: tl) msg (tag g) /\ exists p, xport_verify 0 req l = Val p /\
    (p = Proven 0 (req_id req) 82 (challenge req) (host_nonce h) (tag g) TB_VMM_HOST (x :: tl) \/ p = Failed 7 /\ is_tag (Z.lxor x 1 :: tl) msg (tag g)).
Proof.
  intros Hq Hp Ek Hk [Hg Hv Hn Hpe Hpl] Hfr [Hb Hl] msg. rewrite Ek in Hv. assert (zlen (Z.lxor x 1 :: tl) = INFER_KEY_LEN) as Hk' by exact Hk.
  destruct (xport_verify_framed 0 req l g x tl Hb Hl Hq Hfr) as (v & v' & Ev & Ev' & E). rewrite Hv in Ev. injection Ev as <-.
  destruct (verify_echo_iff _ g req Hk Hg Hq) as (v & Ev & Hiff). rewrite Hv in Ev. injection Ev as <-. rewrite Hn, Hpe, Hp in Hiff. destruct (proj1 Hiff eq_refl) as (_ & _ & _ & _ & Ht).
  destruct (verify_echo_iff _ g req Hk' Hg Hq) as (v & Ev & Hiff'). rewrite Ev' in Ev. injection Ev as <-. rewrite Hn, Hpe, Hp in Hiff'.
  split; [exact Ht|]. eexists. split; [exact E|]. unfold verdict. rewrite Hpe. change (known_peer TB_VMM_HOST) with true. cbn [negb]. destruct v'; [right | left].
  - split; [reflexivity|]. apply Hiff'. reflexivity.
  - rewrite Hn. reflexivity.
Qed.

(** The self-test's session is such an exchange, and its reply is framed. *)
Lemma listening_exchange s f free req k g h' : pool s = f :: free -> 0 <= f /\ f + 4096 <= 2 ^ 64 /\ mapped (mem (xport s)) f 4096 ->
  frame_ok req /\ payload req = body_bytes -> push_guest_bytes (host (xport s)) (wire_bytes req) = Val h' -> outbuf h' = wire_bytes g ++ k -> zlen k = INFER_KEY_LEN /\ bytes k -> frame_ok g /\ payload g = payload req ->
  exchange_ok (windowed s) f free (wire_bytes req) (zrepeat RESP_LEN 0) h' /\ framed (outbuf h') g k /\ buffer RESP_LEN (outbuf h').
Proof.
  intros Hpool Hfr [Hq Hp] E Ho [Hk Hkb] [Hg Hgp]. destruct (request_wire req Hq Hp) as [_ Hw].
  assert (zlen (wire_bytes g) = INFER_HEADER_LEN + XPORT_BODY_LEN) as Hgw by (rewrite wire_bytes_length, Hgp, Hp by exact Hg; reflexivity).
  assert (buffer RESP_LEN (outbuf h')) as Hb.
  { split; [rewrite Ho; apply Forall_app_2; [by apply wire_bytes_bytes | exact Hkb] | rewrite Ho, zlen_app, Hgw, Hk; reflexivity]. }
  split; [|split; [split; [exact Hg | exact Hk | exact Ho] | exact Hb]]. destruct Hb as [Hb Hl].
  split; [exact Hpool | exact Hfr | split; [by apply wire_bytes_bytes | rewrite Hw; split; [reflexivity | discriminate]] | split; [reflexivity | discriminate] | exact E | split; [exact Hb | rewrite Hl; reflexivity]].
Qed.

Lemma xport_run fuel ticks s f free : listening s f free -> (1 < dfuel)%nat -> (1 < fuel)%nat -> let h := host (xport s) in
  exists req p s', xport_request ticks = Val req /\ interp (H := vm_machine dfuel) (xport_selftest fuel ticks) s = Some (Val p, s') /\ pool s' = pool s /\
    exists t, let msg := echo_msg TB_VMM_HOST (host_nonce h) (challenge req) body_bytes in is_tag (key h) msg t /\
      (p = Proven 0 (req_id req) 82 (challenge req) (host_nonce h) t TB_VMM_HOST (key h) \/
       p = Failed 7 /\ exists x tl, key h = x :: tl /\ is_tag (Z.lxor x 1 :: tl) msg t).
Proof.
  intros [Hpool Hfr [Hwf Hpe] Hkey Hq Hcnt] Hd Hfu h. destruct (xport_request_runs ticks) as (req & Er & Hrq & Hrk & Hrp). destruct (request_wire req Hrq Hrp) as [Ew Hw]. exists req.
  destruct (echo_answered_runs h req [] [] Hwf Hpe Hrq Hrk) as (h' & E & _ & _ & g & Ho & Hg); [split; apply Forall_nil; exact I | split; apply Forall_nil; exact I | exact Hcnt|].
  change (noisy [([], req)] []) with (wire_bytes req ++ []) in E. rewrite app_nil_r in E. unfold h in Ho at 1. rewrite Hq, app_nil_l in Ho. fold h in Ho.
  destruct (listening_exchange s f free req (key h) g h' Hpool Hfr (conj Hrq Hrp) E Ho (conj (cu_key _ (wf_custodian _ Hwf)) Hkey) (conj (ec_ok _ _ _ Hg) (ec_payload _ _ _ Hg))) as (Hx & Hgf & Hlo).
  destruct (chan_session_runs dfuel fuel (windowed s) f free _ _ h' Hx Hd Hfu) as (s' & Es & _ & _ & _ & Hpo & _). rewrite (session_result_full RESP_LEN (outbuf h') ltac:(by vm_compute) (proj2 Hlo)) in Es.
  destruct (key h) as [|x tl] eqn:Ek; [discriminate (fr_key _ _ _ Hgf)|].
  destruct (echo_verdict h req g x tl _ Hrq Hrp Ek (fr_key _ _ _ Hgf) Hg Hgf Hlo) as [Ht (p & Ep & Hp)]. exists p, s'. split; [exact Er|]. split; [|split; [exact Hpo|]].
  - unfold xport_selftest. rewrite (interp_then (H := vm_machine dfuel) chan_probe _ s (Some 0) (windowed s)) by reflexivity. cbv iota.
    rewrite Er, bind_val, Ew, bind_val, Z.eqb_refl. cbn [negb]. rewrite (slice_all (wire_bytes req) _ Hw).
    rewrite (interp_then (H := vm_machine dfuel) _ _ _ _ _ Es). rewrite bool_decide_true by reflexivity. cbn [interp]. rewrite Ep. reflexivity.
  - exists (tag g). split; [exact Ht|]. destruct Hp as [Hp|[Hp Hc]]; [left; exact Hp | right; split; [exact Hp|]; exists x, tl; exact (conj eq_refl Hc)].
Qed.

(** C15: the whole stack works.  On a monitor whose peer has said nothing yet, the kernel's
    self-test ends, through the real driver, bus, device and peer, with the proof: slot 0,
    this boot's challenge and correlation id, the peer's own nonce and key, and the monitor's
    name, all authenticated.  The one other outcome is that the peer's key with one bit changed
    gives the same 128-bit tag to the echoed message, and then the self-test fails at stage 7.
    Either way the frame is given back. *)
Theorem xport_proves_the_monitor fuel ticks s f free : listening s f free -> (1 < dfuel)%nat -> (1 < fuel)%nat -> let h := host (xport s) in
  exists req p s', xport_request ticks = Val req /\ interp (H := vm_machine dfuel) (xport_selftest fuel ticks) s = Some (Val p, s') /\ pool s' = pool s /\
    exists t, let msg := echo_msg TB_VMM_HOST (host_nonce h) (challenge req) body_bytes in is_tag (key h) msg t /\
      (p = Proven 0 (req_id req) 82 (challenge req) (host_nonce h) t TB_VMM_HOST (key h) \/
       p = Failed 7 /\ exists x tl, key h = x :: tl /\ is_tag (Z.lxor x 1 :: tl) msg t).
Proof. intros Hs Hd Hf. exact (xport_run fuel ticks s f free Hs Hd Hf). Qed.
End monitor.

(** ** Witnesses *)

Lemma demo_listening : listening demo_vm 4096 [].
Proof.
  split.
  - reflexivity.
  - split; [lia|]. split; [lia|]. intros i Hi. apply ram_byte_some. change (ram (mem (xport demo_vm))) with (zrepeat 8192 0). rewrite zlen_zrepeat by lia. lia.
  - exact demo_host_wf.
  - exact (hi_key _ demo_host_inv).
  - reflexivity.
  - reflexivity.
Qed.

Lemma demo_selftest : exists p s', interp (H := vm_machine 2) (xport_selftest 2 7) demo_vm = Some (Val p, s') /\
  (p = Failed 7 \/ exists rid c nonce t, p = Proven 0 rid 82 c nonce t TB_VMM_HOST (key demo_host)).
Proof.
  destruct (xport_run 2 2 7 demo_vm 4096 [] demo_listening) as (req & p & s' & _ & E & _ & t & _ & [Hp|[Hp _]]); [lia | lia | |].
  - exists p, s'. split; [exact E | right]. exists (req_id req), (challenge req), (host_nonce demo_host), t. exact Hp.
  - exists p, s'. split; [exact E | left; exact Hp].
Qed.

Lemma xport_proves_the_monitor_witness : exists p s', interp (H := vm_machine 2) (xport_selftest 2 7) demo_vm = Some (Val p, s') /\ pool s' = [4096].
Proof.
  destruct (xport_proves_the_monitor 2 2 7 demo_vm 4096 [] demo_listening) as (req & p & s' & _ & E & Hpo & _); [lia | lia|].
  exists p, s'. split; [exact E | exact Hpo].
Defined.

Lemma xport_proof_sound_witness : exists tr p req, ran (xport_selftest 2 7) tr (Done (Val p)) /\ proven req p /\
  (p = Failed 7 \/ exists rid c nonce t, p = Proven 0 rid 82 c nonce t TB_VMM_HOST (key demo_host)).
Proof.
  destruct demo_selftest as (p & s' & E & Hp). destruct (interp_ran (H := vm_machine 2) (xport_selftest 2 7) (vm_proper 2) demo_vm (Val p) s' E) as [tr Htr].
  destruct (xport_proof_sound 2 7 tr (Val p) Htr) as (req & p' & _ & Ep & Hpr). injection Ep as <-. exists tr, p, req. split; [exact Htr|]. split; [exact Hpr | exact Hp].
Defined.
